(* ===== verification/_CoqProject ===== *)
-Q . S2P
Prelude.v
HashElement.v
Ssz.v
SszFacts.v
SszCanonical.v
SymHash.v
MerkleSpec.v
MerkleProof.v
MerkleProofComplete.v
MerkleProofSound.v
NodeStore.v
NodeManager.v
Bytes.v
NodeManagerFacts.v
FlowDb.v
NodeManagerTheorems.v
AppendMerkle.v
TreeRules.v
Recompute.v
TreeOps.v
TreeFill.v
TreeHistory.v
TreeRefine.v
TreeSpec.v
TreeTiles.v
TreeTheorems.v
ProofConvert.v
Shard.v
MerkleLight.v
FileTree.v
SharedTypes.v
FileProofs.v
Seal.v
ChunkData.v
ChunkDataFacts.v
ChunkDataInsert.v
SealInfo.v
EntryBatch.v
EntryBatchFacts.v
BatchTheorems.v
Serde.v
BatchRoot.v
BatchStored.v
FlowStore.v
FlowStoreFacts.v
FlowAppend.v
FlowTruncate.v
FlowSeal.v
FlowReach.v
Sealer.v
SszTheorems.v
FlowTheorems.v
TxStore.v
TxStoreFacts.v
TxTheorems.v
ChunkRoots.v
LogManager.v
DbFrame.v
LogTrees.v
LogInv.v
LogPad.v
LogSpec.v
LogOps.v
LogTheorems.v
SyncStore.v
SyncStoreFacts.v
SyncTheorems.v
FileLocationCache.v
FileCacheTheorems.v
SyncController.v
SyncControllerFacts.v
SyncDownload.v
DownloadTheorems.v
SyncService.v
ServiceTheorems.v
AutoSync.v
AutoSyncFacts.v
AutoSyncTheorems.v
SyncDispatch.v
