(* ===== verification/Prelude.v ===== *)
(** * A verification of the 0G storage node

    The program is a node of a decentralised storage network, written in Rust.
    A smart contract orders the uploads: every transaction appends the Merkle
    subtrees of its data, after some padding, to one _flow_ of sectors of 256
    bytes.  The node keeps the log of transactions and the sectors of its shard
    of the flow, proves to others what it stores, and seals the data for mining.
    This library models the code that decides what is stored and what is
    proved, and shows that it does so correctly; where it does not, a theorem
    shows the behaviour.  File names below are under [src/].

    ** The parts of the program and where they are modelled

    - Hashes and proofs.  [common/append_merkle/src/merkle_tree.rs], [sha3.rs]
      and [proof.rs] are HashElement.v and MerkleProof.v ([Proof], [RangeProof],
      [gen_proof], [validate]).  MerkleSpec.v is the reference tree over a list
      of leaves; MerkleProofComplete.v and MerkleProofSound.v relate the two.
      ProofConvert.v is the passage between proofs over [OptionalHash] and
      [H256].
    - The append-only tree.  [append_merkle/src/lib.rs] is AppendMerkle.v: the
      record [AppendMerkleTree], a computation per method.  It is written against
      the interface [NodeStore] of NodeStore.v, the methods of [NodeManager] that
      the tree calls; NodeManager.v models [node_manager.rs], NodeManagerFacts.v
      discharges the interface, FlowDb.v models the two data bases behind it, and
      NodeManagerTheorems.v has the transactions of a manager with a bounded cache.
      TreeRules.v, Recompute.v, TreeOps.v, TreeFill.v and TreeHistory.v have one
      file per group of methods; TreeRefine.v states the contract, an abstract
      log of leaves with named versions, and TreeSpec.v, TreeTiles.v and
      TreeTheorems.v draw the conclusions.  SymHash.v is a hash to run examples.
    - Files.  [common/merkle_light] and [merkle_tree] are MerkleLight.v,
      [node/shared_types] is SharedTypes.v (transactions, chunk arrays, file,
      segment and node proofs); FileTree.v and FileProofs.v have their theorems.
    - Shards.  [node/storage/src/config.rs] is Shard.v.
    - Batches.  [log_store/load_chunk/*.rs] of [node/storage/src] are ChunkData.v,
      SealInfo.v, EntryBatch.v and Serde.v, with [common/zgs_seal] in Seal.v;
      ChunkDataFacts.v, ChunkDataInsert.v, EntryBatchFacts.v, BatchRoot.v,
      BatchStored.v and BatchTheorems.v prove what
      a batch stores, seals and hashes to.
    - The flow store.  [log_store/flow_store.rs] and [seal_task_manager.rs] are
      FlowStore.v, over the key-value interface of Bytes.v;
      FlowStoreFacts.v, FlowAppend.v, FlowTruncate.v, FlowSeal.v and
      FlowReach.v lift the theorems on batches to the flow, FlowTheorems.v has
      the properties.  [node/miner/src/sealer.rs] is Sealer.v.
    - The transaction store.  [log_store/tx_store.rs] is TxStore.v; TxStoreFacts.v
      and TxTheorems.v show that it implements a log of transactions.
    - The log manager.  [log_store/log_manager.rs], which owns the two stores and
      two trees, one over the chunks of 1024 sectors and one over the last,
      incomplete chunk, is LogManager.v.  ChunkRoots.v shows that the two levels
      are one tree; LogTrees.v, LogInv.v and LogPad.v are the invariant and its steps, DbFrame.v says that the stores
      leave each other's columns alone, LogSpec.v and LogOps.v state what each
      operation does, LogTheorems.v has the properties.
    - The codec.  [version-meld/eth2_ssz] is Ssz.v, SszFacts.v, SszCanonical.v
      and SszTheorems.v.
    - The sync store.  [log_store/config.rs] of [node/storage] (configuration
      values of the data bases) and [tx_store.rs] and [sync_store.rs] of
      [node/sync/src/auto_sync] are SyncStore.v; SyncStoreFacts.v has one queue,
      SyncTheorems.v the two.
    - File locations.  [node/file_location_cache] is FileLocationCache.v, with
      its theorems in FileCacheTheorems.v.
    - Downloads.  [controllers/serial.rs], [peers.rs] and [mod.rs] of
      [node/sync/src], with [context.rs] and the configuration of [lib.rs], are
      SyncController.v: the record [SerialSyncController], a computation per
      event, and the state machine [transition].  It stores through the interface
      [ChunkStore], which the log manager implements ([log_manager_store]).
      SyncControllerFacts.v, SyncDownload.v and DownloadTheorems.v have the
      theorems.
    - The sync service.  [node/sync/src/service.rs] is SyncService.v (the
      handlers) and SyncDispatch.v (the main loop and the requests of other
      tasks); ServiceTheorems.v and SyncDispatch.v have the theorems.
    - Automatic synchronization.  [batcher.rs], [batcher_serial.rs],
      [batcher_random.rs], [historical_tx_writer.rs] and [manager.rs] of
      [node/sync/src/auto_sync] are AutoSync.v; AutoSyncFacts.v and
      AutoSyncTheorems.v follow the tasks of a node through any interleaving.

    The stores are called by the log manager, the log manager by the downloads
    and by the service that answers other nodes; the batchers ask the service for
    downloads and keep the files still to be fetched in the sync store.

    ** How the code is translated

    A value of a Rust struct is a record, an enum an inductive type, with the
    names of the source.  A method with [&mut self] is a computation in the
    state monad [M] of this file, whose results are [outcome]s: [Ok], [Err] with
    its message, [Panic], and [Diverge] for a loop cut off by its fuel.  The
    state is kept on errors and panics, as in the code.  Loops are structural
    where the code iterates over a collection, and have fuel otherwise; every
    fuel is computed from the state so that it is enough (the height of a tree,
    the number of sequence numbers left, the number of remaining bytes), and the
    theorems that a call succeeds exclude [Diverge].  Integers are in [Z] with
    the wrap-around of release builds written out ([wrap64]) where the source can
    reach it; [usize] is 64 bits wide.  Locks are not modelled: each method of
    the stores holds its lock from start to end, so calls are atomic.  The tasks
    of the synchronization are atomic from one round of their loop to the next.
    What a call reads from outside, the time, random choices, the answers of
    other tasks and the order of a hash map, is an argument of it; a call of a
    controller reads the clock once.  The fuel of [transition] is 7, the most
    rounds that its loop makes; that of the dialling loop is the number of
    peers, that of [update_completed_txs_in_db] the number of results, that of
    [tx_sync_start_index] the number of segments of the file.

    ** Assumptions on the state

    The theorems on trees and on the log manager are about a node store that
    returns what was written, [NodeStoreLaws].  A manager with an unbounded cache
    is one, which is what [NodeManager::new_dummy] builds.  [NodeManager::new]
    builds a bounded cache, and reads do not look into the open transaction: a
    node that is evicted before it is committed is not found.  The theorems on
    trees and the log manager do not cover such evictions;
    [manager_transactions] covers every capacity and says which reads are
    affected.  Trees are less than 64 layers high: [ZERO_HASHES] has 64 entries
    and positions in proofs have 64 bits ([position_usize_eq]).  A proof does not
    fix the height of its leaf, and [validate] does not check it: the soundness
    theorems say on which layer the value is.

    ** Parameters

    Keccak-256 ([Keccak]) is a parameter without laws; theorems that need it
    name the collision instead of assuming there is none.  The key-value store
    of the crate [kvdb] ([KeyValueDB], with laws for get, write and iteration),
    the LRU cache of the crate [lru], the queue of the crate [priority_queue]
    ([PriorityQueue]), addresses of [libp2p] ([MultiaddrOps]), [Bitmap64] of the
    crate [bitmaps] and the contract calls of the sealer are classes with the documented behaviour;
    every theorem that uses one has a witness over a concrete instance.  The
    node data base of the chunk tree keeps its own column and is the
    parameter [NMt] of the log manager.

    ** What the theorems show

    - Proofs are complete and sound: what a tree generates is accepted, what is
      accepted shows the node of the tree that is as far below the root as the
      proof is long, for inclusion, range, file and node proofs (MerkleProofSound.v, TreeTheorems.v, FileProofs.v).
    - The tree is a log of leaves with versions: every operation succeeds on
      every reachable tree and has the effect of the abstract operation; roots
      are those of the tree built from scratch, old versions stay provable.  A
      transaction of the node manager is atomic and survives a restart.
    - A batch, and the flow store, return exactly the bytes written and not
      truncated; sealing does not change them; the sealing loop comes to rest
      with all known data sealed.
    - The transaction store implements its abstract log.
    - The log manager: from its creation, through any sequence of [put_tx],
      [put_chunks], [prune_tx], [remove_chunks_batch] and the finalization of
      files that are not copied to other transactions, its trees are those of
      the flow that the transactions make up, its stores read as the log and the
      flow, and its proofs validate against the context it reports.  Reverts,
      copies and opening an existing data base are modelled but are not steps of
      these theorems.
    - The codec is one-to-one.
    - The sync store is two disjoint sets, also over failed writes and restarts;
      the location cache keeps the newest announcements within its bounds.
    - A download comes to rest after every event with nothing left to do, but for
      a search of peers that is overdue and is then repeated; it writes that was validated, and all of its shard before the file is finalized; it starts at the first segment that is missing.
    - The automatic synchronization loses no transaction: what it has passed is
      complete, in a queue, or reported as completed by the sync service, unless
      a revert is not handled yet or was lost by a restart.
    - Where the code departs from what it means to do, the theorem states the
      behaviour ([truncate_breaks_pull], [padding_task_runs_ahead],
      [put_tx_inline_root_forgets], [revert_unknown_blocks_tree],
      [intersect_disagrees_with_in_range], [dial_failure_restarts_download],
      [range_download_drops_file] and others).

    ** Not modelled

    - The network ([node/network], [node/router], [version-meld/discv5], [enr]):
      event loops over [libp2p] state machines, sockets, timers and floating point
      scores; only the messages the synchronization uses are here.
    - Reading the contract ([node/log_entry_sync]) and mining other than sealing
      ([node/miner]): asynchronous tasks around an Ethereum client and the
      mining hash.
    - Uploads by clients ([node/chunk_pool]), [node/rpc], [node/pruner] and the
      start of the node ([node/src]): asynchronous tasks and servers that call
      the operations modelled here.
    - Spawning of tasks, sleeping, logging and metrics, apart from the gauges of
      the serial batcher; the printed forms of values; the contract bindings,
      which are generated. *)

From stdpp Require Export prelude gmap strings.
From Stdlib Require Export Lia ZArith ZifyNat.

#[global] Set Default Goal Selector "!".

#[global] Arguments Nat.div : simpl never.
#[global] Arguments Nat.modulo : simpl never.

(** ** Outcomes of Rust code

    [Ok] and [Err] are the two variants of [anyhow::Result]; [Panic] is an
    [assert!], [expect], [unwrap], [unreachable!] or out-of-bounds index that
    fires; [Diverge] is a loop that was cut off by the fuel of the model. *)

Inductive outcome (A : Type) : Type :=
  | Ok (a : A)
  | Err (msg : string)
  | Panic
  | Diverge.
Arguments Ok {A} a.
Arguments Err {A} msg.
Arguments Panic {A}.
Arguments Diverge {A}.

#[export] Instance outcome_ret : MRet outcome := λ A a, Ok a.
#[export] Instance outcome_bind : MBind outcome := λ A B f o,
  match o with
  | Ok a => f a
  | Err e => Err e
  | Panic => Panic
  | Diverge => Diverge
  end.

#[export] Instance outcome_eq_dec {A} `{EqDecision A} : EqDecision (outcome A).
Proof. solve_decision. Defined.

Lemma bind_Ok {A B} (f : A → outcome B) (a : A) : Ok a ≫= f = f a.
Proof. done. Qed.

Lemma bind_Ok_inv {A B} (f : A → outcome B) (m : outcome A) (b : B) :
  m ≫= f = Ok b → ∃ a, m = Ok a ∧ f a = Ok b.
Proof. destruct m; [eauto|done..]. Qed.

(** [opt.expect(..)] / [vec\[i\]]: a missing value panics. *)
Definition expect {A} (o : option A) : outcome A :=
  match o with Some a => Ok a | None => Panic end.

(** [opt.ok_or_else(|| anyhow!(msg))]. *)
Definition ok_or {A} (msg : string) (o : option A) : outcome A :=
  match o with Some a => Ok a | None => Err msg end.

(** ** State and errors

    A method with [&mut self] is a function from the state to an outcome and
    the state it leaves behind.  The state survives an error or a panic: Rust
    does not roll back what was written before [?] returned. *)

Definition M (S A : Type) : Type := S → outcome A * S.

#[export] Instance M_ret {S} : MRet (M S) := λ A a s, (Ok a, s).
#[export] Instance M_bind {S} : MBind (M S) := λ A B f m s,
  match m s with
  | (Ok a, s') => f a s'
  | (Err e, s') => (Err e, s')
  | (Panic, s') => (Panic, s')
  | (Diverge, s') => (Diverge, s')
  end.

Definition get {S} : M S S := λ s, (Ok s, s).
Definition gets {S A} (f : S → A) : M S A := λ s, (Ok (f s), s).
Definition put {S} (s' : S) : M S () := λ _, (Ok tt, s').
Definition modify {S} (f : S → S) : M S () := λ s, (Ok tt, f s).
Definition lift {S A} (o : outcome A) : M S A := λ s, (o, s).
Definition gets_ok {S A} (f : S → outcome A) : M S A := λ s, (f s, s).
Definition panic {S A} : M S A := λ s, (Panic, s).
Definition bail {S A} (msg : string) : M S A := λ s, (Err msg, s).
Definition when {S} (b : bool) (m : M S ()) : M S () := if b then m else mret tt.

(** [for x in xs { body(x) }] *)
Fixpoint for_each {S A} (xs : list A) (body : A → M S ()) : M S () :=
  match xs with
  | [] => mret tt
  | x :: xs' => body x ≫= λ _, for_each xs' body
  end.

(** A [for] loop that carries a local accumulator. *)
Fixpoint fold_for {S A B} (xs : list A) (b : B) (body : B → A → M S B) : M S B :=
  match xs with
  | [] => mret b
  | x :: xs' => body b x ≫= λ b', fold_for xs' b' body
  end.

(** A [loop]/[while] whose body either continues with new locals ([inl]) or
    leaves the loop ([inr]). *)
Fixpoint loop {S X R} (fuel : nat) (body : X → M S (X + R)) (x : X) : M S R :=
  match fuel with
  | 0 => λ s, (Diverge, s)
  | S fuel' => body x ≫= λ r,
      match r with
      | inl x' => loop fuel' body x'
      | inr y => mret y
      end
  end.

(** Running a method of a field of a larger state. *)
Definition zoom {S T A} (proj : S → T) (set : T → S → S) (m : M T A) : M S A :=
  λ s, match m (proj s) with (o, t') => (o, set t' s) end.

(** ** Total-correctness post-conditions *)

(** [wp m Q s]: run from [s], [m] returns [Ok a] with [Q a s']. *)
Definition wp {S A} (m : M S A) (Q : A → S → Prop) (s : S) : Prop :=
  match m s with
  | (Ok a, s') => Q a s'
  | _ => False
  end.

Create HintDb wp discriminated.

Section wp_rules.
Context {S : Type}.
Implicit Types s : S.

Lemma wp_ret {A} (a : A) (Q : A → S → Prop) s : Q a s → wp (mret a) Q s.
Proof. done. Qed.

Lemma wp_bind {A B} (m : M S A) (f : A → M S B) (Q : B → S → Prop) s :
  wp m (λ a s', wp (f a) Q s') s → wp (m ≫= f) Q s.
Proof.
  unfold wp, mbind, M_bind. destruct (m s) as [[] s']; by auto.
Qed.

Lemma wp_mono {A} (m : M S A) (P Q : A → S → Prop) s :
  wp m P s → (∀ a s', P a s' → Q a s') → wp m Q s.
Proof. unfold wp. destruct (m s) as [[] s']; by auto. Qed.

Lemma wp_bind_mono {A B} (m : M S A) (f : A → M S B) (P : A → S → Prop)
    (Q : B → S → Prop) s :
  wp m P s → (∀ a s', P a s' → wp (f a) Q s') → wp (m ≫= f) Q s.
Proof. intros Hm Hf. apply wp_bind. by eapply wp_mono. Qed.

(** Running a prefix of a block on its own. *)
Lemma wp_assoc {A B C} (m : M S A) (f : A → M S B) (k : B → M S C) (Q : C → S → Prop) s :
  wp ((m ≫= f) ≫= k) Q s → wp (m ≫= λ a, f a ≫= k) Q s.
Proof. unfold wp, mbind, M_bind. by destruct (m s) as [[a|e| |] s1]. Qed.

Lemma wp_assoc3 {A B C D} (m : M S A) (f : A → M S B) (g : A → B → M S C) (k : C → M S D)
    (Q : D → S → Prop) s :
  wp ((m ≫= λ a, f a ≫= g a) ≫= k) Q s → wp (m ≫= λ a, f a ≫= λ b, g a b ≫= k) Q s.
Proof.
  unfold wp, mbind, M_bind. destruct (m s) as [[a|e| |] s1]; try done.
  by destruct (f a s1) as [[b|e| |] s2].
Qed.

Lemma wp_and {A} (m : M S A) (P Q : A → S → Prop) s :
  wp m P s → wp m Q s → wp m (λ a s', P a s' ∧ Q a s') s.
Proof. unfold wp. destruct (m s) as [[] s']; by auto. Qed.

Lemma wp_gets {A} (f : S → A) (Q : A → S → Prop) s : Q (f s) s → wp (gets f) Q s.
Proof. done. Qed.

Lemma wp_get (Q : S → S → Prop) s : Q s s → wp get Q s.
Proof. done. Qed.

Lemma wp_modify (f : S → S) (Q : () → S → Prop) s : Q tt (f s) → wp (modify f) Q s.
Proof. done. Qed.

Lemma wp_gets_ok {A} (f : S → outcome A) a (Q : A → S → Prop) s :
  f s = Ok a → Q a s → wp (gets_ok f) Q s.
Proof. unfold wp, gets_ok. by intros ->. Qed.

Lemma wp_lift {A} (o : outcome A) a (Q : A → S → Prop) s :
  o = Ok a → Q a s → wp (lift o) Q s.
Proof. unfold wp, lift. by intros ->. Qed.

Lemma wp_when (b : bool) (m : M S ()) (Q : () → S → Prop) s :
  (b = true → wp m Q s) → (b = false → Q tt s) → wp (when b m) Q s.
Proof. intros Ht Hf. destruct b; [by apply Ht | by apply wp_ret, Hf]. Qed.

(** The invariant rule for [for_each], indexed by what was processed. *)
Lemma wp_for_each {A} (xs : list A) (body : A → M S ()) (I : list A → S → Prop)
    (Q : () → S → Prop) s :
  I [] s →
  (∀ done x todo s', xs = done ++ x :: todo → I done s' →
     wp (body x) (λ _ s'', I (done ++ [x]) s'') s') →
  (∀ s', I xs s' → Q tt s') →
  wp (for_each xs body) Q s.
Proof.
  intros H0 Hstep HQ.
  enough (Hg : ∀ todo done s', xs = done ++ todo → I done s' →
            wp (for_each todo body) Q s') by (by apply (Hg xs [] s)).
  induction todo as [|x todo IH]; intros dn s' Heq HI; simpl.
  - apply wp_ret, HQ. by rewrite Heq, app_nil_r.
  - eapply wp_bind_mono; [by eapply Hstep|].
    intros [] s'' HI'. apply (IH (dn ++ [x])); [|done].
    by rewrite <-app_assoc.
Qed.

Lemma wp_fold_for {A B} (xs : list A) (b : B) (body : B → A → M S B)
    (I : list A → B → S → Prop) (Q : B → S → Prop) s :
  I [] b s →
  (∀ done x todo b' s', xs = done ++ x :: todo → I done b' s' →
     wp (body b' x) (λ b'' s'', I (done ++ [x]) b'' s'') s') →
  (∀ b' s', I xs b' s' → Q b' s') →
  wp (fold_for xs b body) Q s.
Proof.
  intros H0 Hstep HQ.
  enough (Hg : ∀ todo done b' s', xs = done ++ todo → I done b' s' →
            wp (fold_for todo b' body) Q s') by (by apply (Hg xs [] b s)).
  induction todo as [|x todo IH]; intros dn b' s' Heq HI; simpl.
  - apply wp_ret, HQ. by rewrite Heq, app_nil_r.
  - eapply wp_bind_mono; [by eapply Hstep|].
    intros b'' s'' HI'. apply (IH (dn ++ [x])); [|done].
    by rewrite <-app_assoc.
Qed.

(** The variant rule for [loop]: the fuel is enough when a measure that the
    body decreases stays below it. *)
Lemma wp_loop {X R} (fuel : nat) (body : X → M S (X + R)) (x : X)
    (I : X → S → Prop) (measure : X → nat) (Q : R → S → Prop) s :
  measure x < fuel → I x s →
  (∀ x s', I x s' →
     wp (body x) (λ r s'', match r with
       | inl x' => I x' s'' ∧ measure x' < measure x
       | inr y => Q y s''
       end) s') →
  wp (loop fuel body x) Q s.
Proof.
  intros Hlt HI Hbody. revert x s Hlt HI.
  induction fuel as [|fuel IH]; intros x s Hlt HI; simpl; [lia|].
  eapply wp_bind_mono; [by apply Hbody|].
  intros [x'|y] s' H; [|by apply wp_ret].
  destruct H as [HI' Hlt']. apply IH; [lia|done].
Qed.

Lemma wp_zoom {T A} (proj : S → T) (set : T → S → S) (m : M T A)
    (Q : A → S → Prop) s :
  wp m (λ a t', Q a (set t' s)) (proj s) → wp (zoom proj set m) Q s.
Proof. unfold wp, zoom. by destruct (m (proj s)) as [[] t']. Qed.

(** A post-condition pins the run down: it ends in [Ok]. *)
Lemma wp_run {A} (m : M S A) (Q : A → S → Prop) s :
  wp m Q s → ∃ a s', m s = (Ok a, s') ∧ Q a s'.
Proof. unfold wp. destruct (m s) as [[] s']; naive_solver. Qed.

Lemma wp_of_run {A} (m : M S A) (Q : A → S → Prop) s a s' :
  m s = (Ok a, s') → Q a s' → wp m Q s.
Proof. unfold wp. by intros ->. Qed.

End wp_rules.

#[export] Hint Resolve wp_ret wp_gets wp_get wp_modify : wp.

(** Sequencing: push a [bind] into the post-condition of its first half. *)
Ltac wp_step := apply wp_bind.
Ltac wp_pure := first [ apply wp_ret | apply wp_gets | apply wp_get | apply wp_modify ].

(** Linear arithmetic with division and remainder by constants. *)
Ltac div_lia := zify; Z.to_euclidean_division_equations; lia.

(** ** Lists *)

Section list_facts.
Context {A : Type}.
Implicit Types l : list A.

Lemma take_app_eq l1 l2 n : n ≤ length l1 → take n (l1 ++ l2) = take n l1.
Proof. intros. by rewrite take_app_le. Qed.

Lemma lookup_take_Some_inv l n i (x : A) :
  take n l !! i = Some x → i < n ∧ l !! i = Some x.
Proof. rewrite lookup_take_Some. naive_solver. Qed.

Lemma lookup_of_take l1 l2 n i :
  take n l1 = take n l2 → i < n → l1 !! i = l2 !! i.
Proof. intros Heq Hi. by rewrite <-(lookup_take_lt l1 n i), Heq, lookup_take_lt. Qed.

Lemma last_lookup_Some l (x : A) :
  last l = Some x ↔ l !! (length l - 1) = Some x.
Proof. rewrite last_lookup. by replace (pred (length l)) with (length l - 1) by lia. Qed.

Lemma insert_snoc_last l i (x : A) : length l = i + 1 → <[i := x]> l = take i l ++ [x].
Proof. intros Hi. rewrite insert_take_drop by lia. by rewrite (drop_ge l (S i)) by lia. Qed.

Lemma list_lookup_snoc_eq l (x : A) : (l ++ [x]) !! length l = Some x.
Proof. by rewrite lookup_app_r, Nat.sub_diag by lia. Qed.

End list_facts.

(** The chunks of two of [itertools::chunks(2)]. *)
Fixpoint chunks2 {A} (xs : list A) : list (A * option A) :=
  match xs with
  | [] => []
  | [x] => [(x, None)]
  | x :: y :: r => (x, Some y) :: chunks2 r
  end.

(** Two-step list induction. *)
Lemma list_ind2 {A} (P : list A → Prop) :
  P [] → (∀ x, P [x]) → (∀ x y l, P l → P (x :: y :: l)) → ∀ l, P l.
Proof.
  intros H0 H1 H2. fix IH 1. intros [|x [|y l]]; [done|done|]. apply H2, IH.
Qed.

Lemma length_chunks2 {A} (xs : list A) : length (chunks2 xs) = (length xs + 1) / 2.
Proof.
  induction xs as [|x|x y l IH] using list_ind2; [done|done|].
  cbn [chunks2 length]. rewrite IH. div_lia.
Qed.

(** ** Shifts of indices *)

Section shifts.
Implicit Types a h i n : nat.

Lemma pow2_pos h : 0 < 2 ^ h.
Proof. pose proof (Nat.pow_nonzero 2 h). lia. Qed.

Lemma shiftr_succ a h : a / 2 ^ S h = a / 2 ^ h / 2.
Proof.
  rewrite Nat.Div0.div_div. f_equal. simpl. lia.
Qed.

Lemma div_le_mono_pow a b h : a ≤ b → a / 2 ^ h ≤ b / 2 ^ h.
Proof. intros. by apply Nat.Div0.div_le_mono. Qed.

Lemma div2_lt n : 1 < n → (n + 1) / 2 < n.
Proof. intros. apply Nat.Div0.div_lt_upper_bound; lia. Qed.

End shifts.

(** ** Slices: the elements at positions [lo .. hi], both included *)

Definition slice {A} (xs : list A) (lo hi : nat) : list A := take (hi + 1 - lo) (drop lo xs).

Lemma lookup_slice {A} (xs : list A) lo hi j :
  slice xs lo hi !! j = if decide (lo + j ≤ hi) then xs !! (lo + j) else None.
Proof.
  unfold slice. case_decide.
  - by rewrite lookup_take_lt, lookup_drop by lia.
  - by rewrite lookup_take_ge by lia.
Qed.

Lemma length_slice {A} (xs : list A) lo hi :
  hi < length xs → length (slice xs lo hi) = hi + 1 - lo.
Proof. intros. unfold slice. rewrite length_take, length_drop. lia. Qed.

Lemma drop_slice {A} (xs : list A) lo hi : drop 1 (slice xs lo hi) = slice xs (lo + 1) hi.
Proof.
  apply list_eq. intros j. rewrite lookup_drop, !lookup_slice.
  repeat case_decide; try lia; [|done]. f_equal. lia.
Qed.
