(* ===== verification/HashElement.v ===== *)
(** Hashes: [common/append_merkle/src/merkle_tree.rs] and [sha3.rs].

    The traits [HashElement] and [Algorithm] are type classes; the production
    instances are [OptionalHash] (an [Option<H256>], [None] for a node that is
    not known) and [Sha3Algorithm].  [keccak256] comes from the crate
    [tiny_keccak] and is a parameter. *)

From S2P Require Import Prelude.

(** ** The traits *)

(** [trait HashElement]: [null] marks an unknown node and [end_pad h] is the
    hash of an absent subtree of height [h]. *)
Class HashElement (E : Type) := {
  he_eq_dec :: EqDecision E;
  he_countable :: Countable E;
  end_pad : nat → E;
  null : E;
}.

Definition is_null {E} `{HashElement E} (e : E) : bool := bool_decide (e = null).

(** [trait Algorithm<E>] *)
Class Algorithm (E : Type) `{HashElement E} := {
  parent : E → E → E;
  leaf : list Z → E;
}.

Definition parent_single {E} `{Algorithm E} (r : E) (height : nat) : E :=
  parent r (end_pad height).

(** What the tree code relies on: hashing known nodes gives a known node, and
    a pad is known. *)
Class AlgorithmLaws (E : Type) `{Algorithm E} := {
  parent_known : ∀ a b, a ≠ null → b ≠ null → parent a b ≠ null;
  end_pad_known : ∀ h, end_pad h ≠ null;
}.

Lemma is_null_true {E} `{HashElement E} (e : E) : is_null e = true ↔ e = null.
Proof. unfold is_null. by rewrite bool_decide_eq_true. Qed.

Lemma is_null_false {E} `{HashElement E} (e : E) : is_null e = false ↔ e ≠ null.
Proof. unfold is_null. by rewrite bool_decide_eq_false. Qed.

(** ** [H256], [Sha3Algorithm] and [OptionalHash] *)

(** [H256(\[u8; 32\])]: the bytes of a hash, most significant first. *)
Abbreviation H256 := (vec Z 32).

(** [bytes.try_into()] for an array of [n] elements. *)
Definition array_from {A} (n : nat) (l : list A) : option (vec A n) :=
  match decide (length l = n) with
  | left e => Some (eq_rect (length l) (vec A) (list_to_vec l) n e)
  | right _ => None
  end.

(** The digest of [Keccak::v256()] has 32 bytes. *)
Class Keccak := keccak256 : list Z → H256.

Section sha3.
Context `{Keccak}.

Definition parent_raw (left right : H256) : H256 :=
  keccak256 (vec_to_list left ++ vec_to_list right).
Definition leaf_raw (data : list Z) : H256 := keccak256 data.

(** The [i]-th entry of the table is the parent of two copies of the entry
    before it. *)
Fixpoint zero_hashes_from (h : H256) (n : nat) : list H256 :=
  match n with
  | 0 => []
  | S n' => h :: zero_hashes_from (parent_raw h h) n'
  end.

Definition ZERO_HASHES : list H256 := zero_hashes_from (leaf_raw (replicate 256 0%Z)) 64.

(** [for i in 1..ZERO_HASHES.len() { map.insert(ZERO_HASHES\[i-1\], ZERO_HASHES\[i\]) }] *)
Definition ZERO_HASHES_MAP : gmap H256 H256 :=
  foldl (λ m p, <[p.1 := p.2]> m) ∅ (zip ZERO_HASHES (tail ZERO_HASHES)).

Definition sha3_parent (left right : H256) : H256 :=
  if bool_decide (left = right) then
    match ZERO_HASHES_MAP !! left with
    | Some v => v
    | None => parent_raw left right
    end
  else parent_raw left right.

Definition sha3_leaf (data : list Z) : H256 :=
  if bool_decide (data = replicate 256 0%Z) then ZERO_HASHES !!! 0 else leaf_raw data.

(** [ZERO_HASHES\[height\]].  The table has 64 entries, so that the source
    panics from height 64 on, where the total lookup here gives a default: the
    definition is exact below that height, which a tree has only with at least
    [2 ^ 63] leaves. *)
Definition h256_end_pad (height : nat) : H256 := ZERO_HASHES !!! height.

(** [H256::repeat_byte(0x01)] *)
Definition h256_null : H256 := vreplicate 32 1%Z.

End sha3.

(** [struct OptionalHash(pub Option<H256>)] *)
Definition OptionalHash : Type := option H256.

Section optional_hash.
Context `{Keccak}.

#[export] Instance H256_HashElement : HashElement H256 := {|
  end_pad := h256_end_pad;
  null := h256_null;
|}.

#[export] Instance H256_Algorithm : Algorithm H256 := {|
  parent := sha3_parent;
  leaf := sha3_leaf;
|}.

Definition oh_end_pad (height : nat) : OptionalHash := Some (ZERO_HASHES !!! height).

#[export] Instance OptionalHash_HashElement : HashElement OptionalHash := {|
  he_eq_dec := _ : EqDecision (option H256);
  he_countable := _ : Countable (option H256);
  end_pad := oh_end_pad;
  null := None;
|}.

Definition oh_parent (left right : OptionalHash) : OptionalHash :=
  match left, right with
  | Some l, Some r => Some (sha3_parent l r)
  | _, _ => None
  end.

Definition oh_leaf (data : list Z) : OptionalHash := Some (sha3_leaf data).

#[export] Instance OptionalHash_Algorithm : Algorithm OptionalHash := {|
  parent := oh_parent;
  leaf := oh_leaf;
|}.

End optional_hash.

(** ** Encodings of [OptionalHash] *)

Definition from_slice (bytes : list Z) : outcome OptionalHash :=
  match array_from 32 bytes with
  | Some hash => Ok (Some hash)
  | None => Err "Invalid byte length for H256"
  end.

Definition as_bytes (o : OptionalHash) : vec Z 33 :=
  match o with
  | Some hash => 1%Z ::: hash
  | None => 0%Z ::: vreplicate 32 0%Z
  end.

Definition from_bytes (bytes : vec Z 33) : outcome OptionalHash :=
  if bool_decide (Vector.hd bytes = 0%Z) then Ok None
  else if bool_decide (Vector.hd bytes = 1%Z) then Ok (Some (Vector.tl bytes))
  else Err "Invalid flag byte for OptionalHash".

Definition oh_ssz_append (o : OptionalHash) (buf : list Z) : list Z :=
  match o with
  | Some hash => (buf ++ [1%Z]) ++ vec_to_list hash
  | None => (buf ++ [0%Z]) ++ replicate 32 0%Z
  end.

(** [H256::from_ssz_bytes] *)
Definition h256_from_ssz_bytes (bytes : list Z) : outcome H256 :=
  ok_or "InvalidByteLength" (array_from 32 bytes).

Definition oh_from_ssz_bytes (bytes : list Z) : outcome OptionalHash :=
  if bool_decide (length bytes ≠ 33) then Err "InvalidByteLength"
  else
    match bytes with
    | 0%Z :: _ => Ok None
    | 1%Z :: rest => hash ← h256_from_ssz_bytes rest; Ok (Some hash)
    | _ => Err "Invalid flag byte for OptionalHash"
    end.

(** ** Facts *)

Lemma array_from_Some {A} n (l : list A) (v : vec A n) :
  array_from n l = Some v ↔ l = vec_to_list v.
Proof.
  unfold array_from. destruct (decide (length l = n)) as [e|Hne].
  - destruct e. cbn. split.
    + intros [= <-]. by rewrite vec_to_list_to_vec.
    + intros Hl. f_equal. apply vec_to_list_inj2. by rewrite vec_to_list_to_vec.
  - split; [done|]. intros ->. by rewrite length_vec_to_list in Hne.
Qed.

Lemma array_from_vec {A} n (v : vec A n) : array_from n (vec_to_list v) = Some v.
Proof. by apply array_from_Some. Qed.

Lemma array_from_None {A} n (l : list A) : array_from n l = None ↔ length l ≠ n.
Proof. unfold array_from. by destruct (decide (length l = n)). Qed.

Section sha3_facts.
Context `{Keccak}.

Lemma zero_hashes_from_step h n i x y :
  zero_hashes_from h n !! i = Some x → zero_hashes_from h n !! S i = Some y →
  y = parent_raw x x.
Proof.
  revert h i. induction n as [|n IH]; intros h i; [done|].
  destruct i as [|i]; simpl; [|apply IH].
  intros [= <-]. destruct n as [|n]; simpl; [done|]. by intros [= <-].
Qed.

Lemma length_zero_hashes_from h n : length (zero_hashes_from h n) = n.
Proof. revert h. induction n as [|n IH]; intros h; simpl; [done|]. by rewrite IH. Qed.

Lemma foldl_insert_sound (l : list (H256 * H256)) (m : gmap H256 H256) :
  (∀ p, p ∈ l → p.2 = parent_raw p.1 p.1) →
  (∀ h v, m !! h = Some v → v = parent_raw h h) →
  ∀ h v, foldl (λ m p, <[p.1 := p.2]> m) m l !! h = Some v → v = parent_raw h h.
Proof.
  revert m. induction l as [|[x y] l IH]; intros m Hl Hm; simpl; [exact Hm|].
  apply IH; [set_solver|].
  intros h v [[<- <-]|[_ Hv]]%lookup_insert_Some; [|by apply Hm].
  apply (Hl (x, y)). set_solver.
Qed.

Lemma zero_hashes_zip_step h n p :
  p ∈ zip (zero_hashes_from h n) (tail (zero_hashes_from h n)) →
  p.2 = parent_raw p.1 p.1.
Proof.
  intros [i Hi]%list_elem_of_lookup.
  apply lookup_zip_with_Some in Hi as (x & y & -> & Hx & Hy).
  rewrite lookup_tail in Hy. by eapply zero_hashes_from_step.
Qed.

(** Every entry of the map sends a hash to the parent of two copies of it. *)
Lemma zero_hashes_map_sound h v : ZERO_HASHES_MAP !! h = Some v → v = parent_raw h h.
Proof.
  unfold ZERO_HASHES_MAP, ZERO_HASHES.
  generalize (leaf_raw (replicate 256 0%Z)) as h0. generalize 64 as n. intros n h0.
  apply foldl_insert_sound; [apply zero_hashes_zip_step|].
  intros ??. by rewrite lookup_empty.
Qed.

Lemma ZERO_HASHES_lookup i : i < 64 → ZERO_HASHES !! i = Some (ZERO_HASHES !!! i).
Proof.
  intros Hi. apply list_lookup_lookup_total_lt.
  unfold ZERO_HASHES. by rewrite length_zero_hashes_from.
Qed.

End sha3_facts.

#[export] Instance OptionalHash_laws `{Keccak} : AlgorithmLaws OptionalHash.
Proof.
  split.
  - by intros [a|] [b|] Ha Hb.
  - intros h. by unfold end_pad, null; simpl; unfold oh_end_pad.
Qed.

(** The shortcuts of [Sha3Algorithm] through the precomputed table do not
    change any hash. *)
Lemma sha3_parent_raw `{Keccak} l r : sha3_parent l r = parent_raw l r.
Proof.
  unfold sha3_parent. case_bool_decide as Heq; [subst r|done].
  destruct (ZERO_HASHES_MAP !! l) as [v|] eqn:E; [|done].
  by apply zero_hashes_map_sound in E.
Qed.

Lemma sha3_leaf_raw `{Keccak} d : sha3_leaf d = leaf_raw d.
Proof. unfold sha3_leaf. case_bool_decide as Heq; [by subst d|done]. Qed.

Lemma ZERO_HASHES_step `{Keccak} h :
  h < 63 → ZERO_HASHES !!! S h = parent_raw (ZERO_HASHES !!! h) (ZERO_HASHES !!! h).
Proof.
  intros Hh.
  pose proof (ZERO_HASHES_lookup h ltac:(lia)) as H1.
  pose proof (ZERO_HASHES_lookup (S h) ltac:(lia)) as H2.
  revert H1 H2. generalize (ZERO_HASHES !!! S h), (ZERO_HASHES !!! h).
  unfold ZERO_HASHES. generalize (leaf_raw (replicate 256 0%Z)) as h0.
  generalize 64 as n. intros n h0 x y H1 H2. by eapply zero_hashes_from_step.
Qed.

Lemma from_as_bytes (o : OptionalHash) : from_bytes (as_bytes o) = Ok o.
Proof. by destruct o. Qed.

(** ** Properties *)

(** The shortcut of [Sha3Algorithm] through the precomputed table of
    zero hashes never changes a hash: for two nodes and for a leaf it gives
    what hashing the bytes gives, on every input. *)
Theorem sha3_table_transparent `{Keccak} (l r : H256) (data : list Z) :
  sha3_parent l r = parent_raw l r ∧ sha3_leaf data = leaf_raw data.
Proof. split; [apply sha3_parent_raw|apply sha3_leaf_raw]. Qed.

(** An [OptionalHash] survives both of its encodings, the 33 bytes of the
    database and the SSZ bytes appended to any buffer, and two different
    hashes are never encoded alike. *)
Theorem optional_hash_roundtrip (o o' : OptionalHash) (buf : list Z) :
  from_bytes (as_bytes o) = Ok o ∧
  oh_from_ssz_bytes (drop (length buf) (oh_ssz_append o buf)) = Ok o ∧
  vec_to_list (as_bytes o) = oh_ssz_append o [] ∧
  (as_bytes o = as_bytes o' → o = o').
Proof.
  split_and!.
  - apply from_as_bytes.
  - destruct o as [h|]; cbn [oh_ssz_append]; rewrite <- app_assoc, drop_app_length; cbn [app].
    + unfold oh_from_ssz_bytes. rewrite bool_decide_false.
      2:{ cbn [length]. rewrite length_vec_to_list. lia. }
      unfold h256_from_ssz_bytes. by rewrite array_from_vec.
    + done.
  - by destruct o.
  - intros Heq. pose proof (from_as_bytes o) as H1. rewrite Heq, from_as_bytes in H1. congruence.
Qed.

(** Decoding SSZ bytes accepts exactly the 33-byte inputs with flag 0 or
    1, and never panics. *)
Theorem optional_hash_decode_total (bytes : list Z) :
  (∃ o, oh_from_ssz_bytes bytes = Ok o) ↔
  length bytes = 33 ∧ (bytes !! 0 = Some 0%Z ∨ bytes !! 0 = Some 1%Z).
Proof.
  unfold oh_from_ssz_bytes. destruct (decide (length bytes = 33)) as [Hl|Hl].
  2:{ rewrite bool_decide_true by done. split; [by intros [o ?]|by intros [? _]]. }
  rewrite bool_decide_false by (intros Hn; by apply Hn).
  destruct bytes as [|f rest]; [done|]. cbn [lookup list_lookup].
  assert (∃ h, array_from 32 rest = Some h) as [h Hh].
  { destruct (array_from 32 rest) eqn:E; [by eexists|].
    apply array_from_None in E. cbn in Hl. lia. }
  unfold h256_from_ssz_bytes. rewrite Hh. cbn [ok_or mbind outcome_bind].
  destruct f as [|[]|]; (split; [intros [o Ho]|intros [_ [Hf|Hf]]]); naive_solver.
Qed.
