(* ===== verification/Ssz.v ===== *)
(** The serialization format: [version-meld/eth2_ssz], the crate that the
    workspace substitutes for [eth2_ssz].

    [Encode] and [Decode] are the traits; [SszEncoder] and [SszDecoderBuilder]
    write and read containers.  What [#\[derive(Encode, Decode)\]] generates for a
    struct is, by the documentation of the two traits, the code of a tuple of
    its fields. *)

From S2P Require Import Prelude HashElement.

Definition BYTES_PER_LENGTH_OFFSET : nat := 4.
Definition MAX_UNION_SELECTOR : Z := 127.

(** ** Little-endian integers *)

Fixpoint to_le (n : nat) (z : Z) : list Z :=
  match n with
  | O => []
  | S n' => (z `mod` 256)%Z :: to_le n' (z / 256)%Z
  end.

Definition from_le (l : list Z) : Z := foldr (λ b acc, b + 256 * acc)%Z 0%Z l.

(** ** Slices: [bytes.get(a..b)], [bytes.get(a..)], [bytes\[a..b\]], [bytes\[a..\]] *)

Definition get_slice (bytes : list Z) (a b : nat) : option (list Z) :=
  if bool_decide (a ≤ b ≤ length bytes) then Some (take (b - a) (drop a bytes)) else None.

Definition get_from (bytes : list Z) (a : nat) : option (list Z) :=
  if bool_decide (a ≤ length bytes) then Some (drop a bytes) else None.

(** ** Errors *)

Inductive DecodeError :=
  | InvalidByteLength (len expected : nat)
  | InvalidLengthPrefix (len expected : nat)
  | OutOfBoundsByte (i : nat)
  | OffsetIntoFixedPortion (offset : nat)
  | OffsetSkipsVariableBytes (offset : nat)
  | OffsetsAreDecreasing (offset : nat)
  | OffsetOutOfBounds (offset : nat)
  | InvalidListFixedBytesLen (len : nat)
  | ZeroLengthItem
  | BytesInvalid (msg : string)
  | UnionSelectorInvalid (selector : Z).

(** The error as the outcome of a call. *)
Definition decode_err {A} (e : DecodeError) : outcome A :=
  Err match e with
      | InvalidByteLength _ _ => "InvalidByteLength"
      | InvalidLengthPrefix _ _ => "InvalidLengthPrefix"
      | OutOfBoundsByte _ => "OutOfBoundsByte"
      | OffsetIntoFixedPortion _ => "OffsetIntoFixedPortion"
      | OffsetSkipsVariableBytes _ => "OffsetSkipsVariableBytes"
      | OffsetsAreDecreasing _ => "OffsetsAreDecreasing"
      | OffsetOutOfBounds _ => "OffsetOutOfBounds"
      | InvalidListFixedBytesLen _ => "InvalidListFixedBytesLen"
      | ZeroLengthItem => "ZeroLengthItem"
      | BytesInvalid msg => msg
      | UnionSelectorInvalid _ => "UnionSelectorInvalid"
      end.

Definition or_err {A} (o : option A) (e : DecodeError) : outcome A :=
  match o with Some a => Ok a | None => decode_err e end.

(** ** The traits *)

(** [is_ssz_fixed_len] and [ssz_fixed_len] are associated functions. *)
Class Encode (T : Type) := {
  enc_fixed : bool;
  enc_fixed_len : nat;
  ssz_append : T → list Z → list Z;
  ssz_bytes_len : T → nat;
}.
Arguments enc_fixed T {_}.
Arguments enc_fixed_len T {_}.

Class Decode (T : Type) := {
  dec_fixed : bool;
  dec_fixed_len : nat;
  from_ssz_bytes : list Z → outcome T;
}.
Arguments dec_fixed T {_}.
Arguments dec_fixed_len T {_}.

Definition as_ssz_bytes `{Encode T} (x : T) : list Z := ssz_append x [].

(** ** [SszEncoder] *)

Record SszEncoder := SszEncoder_mk { se_offset : nat; se_buf : list Z; variable_bytes : list Z }.

Definition encode_length (len : nat) : list Z := take BYTES_PER_LENGTH_OFFSET (to_le 8 (Z.of_nat len)).

Definition container (buf : list Z) (num_fixed_bytes : nat) : SszEncoder := SszEncoder_mk num_fixed_bytes buf [].

Definition append_parameterized (is_ssz_fixed_len : bool) (append : list Z → list Z) (self : SszEncoder) : SszEncoder :=
  if is_ssz_fixed_len then SszEncoder_mk (se_offset self) (append (se_buf self)) (variable_bytes self)
  else SszEncoder_mk (se_offset self)
         (se_buf self ++ encode_length (se_offset self + length (variable_bytes self)))
         (append (variable_bytes self)).

Definition encoder_append `{Encode T} (item : T) (self : SszEncoder) : SszEncoder :=
  append_parameterized (enc_fixed T) (ssz_append item) self.

Definition encoder_finalize (self : SszEncoder) : list Z := se_buf self ++ variable_bytes self.

(** ** [SszDecoderBuilder] and [SszDecoder] *)

Definition sanitize_offset (offset : nat) (previous_offset : option nat) (num_bytes : nat) (num_fixed_bytes : option nat) :
    outcome nat :=
  if match num_fixed_bytes with Some fixed_bytes => bool_decide (offset < fixed_bytes) | None => false end
  then decode_err (OffsetIntoFixedPortion offset)
  else if bool_decide (previous_offset = None)
      && match num_fixed_bytes with Some fixed_bytes => bool_decide (offset ≠ fixed_bytes) | None => false end
  then decode_err (OffsetSkipsVariableBytes offset)
  else if bool_decide (num_bytes < offset) then decode_err (OffsetOutOfBounds offset)
  else if match previous_offset with Some prev => bool_decide (offset < prev) | None => false end
  then decode_err (OffsetsAreDecreasing offset)
  else Ok offset.

Definition decode_offset (bytes : list Z) : outcome nat :=
  if bool_decide (length bytes ≠ BYTES_PER_LENGTH_OFFSET)
  then decode_err (InvalidLengthPrefix (length bytes) BYTES_PER_LENGTH_OFFSET)
  else Ok (Z.to_nat (from_le bytes)).

Definition read_offset (bytes : list Z) : outcome nat :=
  b ← or_err (get_slice bytes 0 BYTES_PER_LENGTH_OFFSET) (InvalidLengthPrefix (length bytes) BYTES_PER_LENGTH_OFFSET);
  decode_offset b.

Record Offset := Offset_mk { off_position : nat; off_offset : nat }.

Record SszDecoderBuilder := SszDecoderBuilder_mk {
  db_bytes : list Z;
  db_items : list (list Z);
  db_offsets : list Offset;
  items_index : nat;
}.

Definition builder_new (bytes : list Z) : SszDecoderBuilder := SszDecoderBuilder_mk bytes [] [] 0.

Definition register_type_parameterized (is_ssz_fixed_len : bool) (ssz_fixed_len : nat) (self : SszDecoderBuilder) :
    outcome SszDecoderBuilder :=
  if is_ssz_fixed_len then
    let start := items_index self in
    let items_index := start + ssz_fixed_len in
    slice ← or_err (get_slice (db_bytes self) start items_index)
              (InvalidByteLength (length (db_bytes self)) items_index);
    Ok (SszDecoderBuilder_mk (db_bytes self) (db_items self ++ [slice]) (db_offsets self) items_index)
  else
    rest ← expect (get_from (db_bytes self) (items_index self));
    read ← read_offset rest;
    offset ← sanitize_offset read (off_offset <$> last (db_offsets self)) (length (db_bytes self)) None;
    Ok (SszDecoderBuilder_mk (db_bytes self) (db_items self ++ [[]])
          (db_offsets self ++ [Offset_mk (length (db_items self)) offset])
          (items_index self + BYTES_PER_LENGTH_OFFSET)).

(** The loop over [offsets.windows(2)] and the last offset. *)
Fixpoint fill_items (bytes : list Z) (offsets : list Offset) (items : list (list Z)) : outcome (list (list Z)) :=
  match offsets with
  | [] => Ok items
  | a :: rest =>
      slice ← expect match rest with
                     | b :: _ => get_slice bytes (off_offset a) (off_offset b)
                     | [] => get_from bytes (off_offset a)
                     end;
      if bool_decide (off_position a < length items)
      then fill_items bytes rest (<[off_position a := slice]> items) else Panic
  end.

Definition builder_build (self : SszDecoderBuilder) : outcome (list (list Z)) :=
  match db_offsets self with
  | first :: _ =>
      if bool_decide (off_offset first < items_index self) then decode_err (OffsetIntoFixedPortion (off_offset first))
      else if bool_decide (items_index self < off_offset first) then decode_err (OffsetSkipsVariableBytes (off_offset first))
      else fill_items (db_bytes self) (db_offsets self) (db_items self)
  | [] =>
      if bool_decide (items_index self ≠ length (db_bytes self))
      then decode_err (InvalidByteLength (length (db_bytes self)) (items_index self))
      else Ok (db_items self)
  end.

(** [self.items.remove(0)] panics if there is none. *)
Definition decode_next `{Decode T} (items : list (list Z)) : outcome (T * list (list Z)) :=
  match items with
  | [] => Panic
  | slice :: rest => x ← from_ssz_bytes slice; Ok (x, rest)
  end.

(** ** Containers: a list of fields *)

Record field := Field_mk { fld_fixed : bool; fld_fixed_len : nat; fld_append : list Z → list Z }.

Definition field_of `{Encode T} (x : T) : field := Field_mk (enc_fixed T) (enc_fixed_len T) (ssz_append x).

Definition fixed_len_sum (fields : list field) : nat := foldr (λ f acc, fld_fixed_len f + acc) 0 fields.

Definition container_append (fields : list field) (buf : list Z) : list Z :=
  encoder_finalize
    (foldl (λ e f, append_parameterized (fld_fixed f) (fld_append f) e) (container buf (fixed_len_sum fields)) fields).

Fixpoint register_types (types : list (bool * nat)) (self : SszDecoderBuilder) : outcome SszDecoderBuilder :=
  match types with
  | [] => Ok self
  | t :: types' => self ← register_type_parameterized t.1 t.2 self; register_types types' self
  end.

Definition container_split (types : list (bool * nat)) (bytes : list Z) : outcome (list (list Z)) :=
  builder ← register_types types (builder_new bytes);
  builder_build builder.

Definition type_of (T : Type) `{Decode T} : bool * nat := (dec_fixed T, dec_fixed_len T).

(** [ssz_bytes_len] of a tuple *)
Definition tuple_bytes_len (fields : list (bool * nat * nat)) : nat :=
  foldr (λ f acc, (if f.1.1 : bool then f.1.2 else BYTES_PER_LENGTH_OFFSET + f.2) + acc) 0 fields.

(** ** Implementations *)

(** [impl_encodable_for_uint!], [impl_decodable_for_uint!] *)
Definition uint_encode (bytes : nat) : Encode Z := {|
  enc_fixed := true;
  enc_fixed_len := bytes;
  ssz_append x buf := buf ++ to_le bytes x;
  ssz_bytes_len _ := bytes;
|}.

Definition uint_decode (size : nat) : Decode Z := {|
  dec_fixed := true;
  dec_fixed_len := size;
  from_ssz_bytes bytes :=
    if bool_decide (length bytes ≠ size) then decode_err (InvalidByteLength (length bytes) size)
    else Ok (from_le bytes);
|}.

Definition u8 : Type := Z.
Definition u16 : Type := Z.
Definition u32 : Type := Z.
Definition u64 : Type := Z.
Definition usize : Type := Z.
#[global] Typeclasses Opaque u8 u16 u32 u64 usize.

#[export] Instance u8_encode : Encode u8 := uint_encode 1.
#[export] Instance u16_encode : Encode u16 := uint_encode 2.
#[export] Instance u32_encode : Encode u32 := uint_encode 4.
#[export] Instance u64_encode : Encode u64 := uint_encode 8.
#[export] Instance usize_encode : Encode usize := uint_encode 8.
#[export] Instance u8_decode : Decode u8 := uint_decode 1.
#[export] Instance u16_decode : Decode u16 := uint_decode 2.
#[export] Instance u32_decode : Decode u32 := uint_decode 4.
#[export] Instance u64_decode : Decode u64 := uint_decode 8.
#[export] Instance usize_decode : Decode usize := uint_decode 8.

#[export] Instance bool_encode : Encode bool := {|
  enc_fixed := true;
  enc_fixed_len := 1;
  ssz_append x buf := buf ++ [if (x : bool) then 1 else 0]%Z;
  ssz_bytes_len _ := 1;
|}.

#[export] Instance bool_decode : Decode bool := {|
  dec_fixed := true;
  dec_fixed_len := 1;
  from_ssz_bytes bytes :=
    match bytes with
    | [b] => if (b =? 0)%Z then Ok false else if (b =? 1)%Z then Ok true
             else decode_err (BytesInvalid "Out-of-range for boolean")
    | _ => decode_err (InvalidByteLength (length bytes) 1)
    end;
|}.

#[export] Instance h256_encode : Encode H256 := {|
  enc_fixed := true;
  enc_fixed_len := 32;
  ssz_append x buf := buf ++ vec_to_list x;
  ssz_bytes_len _ := 32;
|}.

#[export] Instance h256_decode : Decode H256 := {|
  dec_fixed := true;
  dec_fixed_len := 32;
  from_ssz_bytes bytes := or_err (array_from 32 bytes) (InvalidByteLength (length bytes) 32);
|}.

(** [U128] and [U256], little endian; [H160] and [u8] arrays *)
Definition u128 : Type := Z.
Definition u256 : Type := Z.
Definition NonZeroUsize : Type := Z.
Definition H160 : Type := vec Z 20.
#[global] Typeclasses Opaque u128 u256 NonZeroUsize H160.

#[export] Instance u128_encode : Encode u128 := uint_encode 16.
#[export] Instance u256_encode : Encode u256 := uint_encode 32.
#[export] Instance u128_decode : Decode u128 := uint_decode 16.
#[export] Instance u256_decode : Decode u256 := uint_decode 32.

#[export] Instance nonzero_encode : Encode NonZeroUsize := {|
  enc_fixed := enc_fixed usize;
  enc_fixed_len := enc_fixed_len usize;
  ssz_append x := ssz_append (x : usize);
  ssz_bytes_len _ := 8;
|}.

#[export] Instance nonzero_decode : Decode NonZeroUsize := {|
  dec_fixed := dec_fixed usize;
  dec_fixed_len := dec_fixed_len usize;
  from_ssz_bytes bytes :=
    x ← (from_ssz_bytes (T := usize) bytes : outcome Z);
    if (x =? 0)%Z then decode_err (BytesInvalid "NonZeroUsize cannot be zero.") else Ok x;
|}.

(** [impl_encodable_for_u8_array!], [impl_decodable_for_u8_array!] *)
Definition u8_array_encode (len : nat) : Encode (vec Z len) := {|
  enc_fixed := true;
  enc_fixed_len := len;
  ssz_append x buf := buf ++ vec_to_list x;
  ssz_bytes_len _ := len;
|}.

Definition u8_array_decode (len : nat) : Decode (vec Z len) := {|
  dec_fixed := true;
  dec_fixed_len := len;
  from_ssz_bytes bytes := or_err (array_from len bytes) (InvalidByteLength (length bytes) len);
|}.

#[export] Instance h160_encode : Encode H160 := u8_array_encode 20.
#[export] Instance h160_decode : Decode H160 := u8_array_decode 20.

(** [bytes.chunks(n)] *)
Fixpoint chunks (fuel n : nat) (bytes : list Z) : list (list Z) :=
  match fuel, bytes with
  | O, _ => []
  | _, [] => []
  | S fuel', _ => take n bytes :: chunks fuel' n (drop n bytes)
  end.

Fixpoint decode_all `{Decode T} (slices : list (list Z)) : outcome (list T) :=
  match slices with
  | [] => Ok []
  | slice :: rest => x ← from_ssz_bytes slice; xs ← decode_all rest; Ok (x :: xs)
  end.

(** The loop of [decode_list_of_variable_length_items], [n] items before the
    end: [i] counts the items, [offset] is where the next one starts. *)
Fixpoint decode_items `{Decode T} (bytes : list Z) (first_offset n i offset : nat) : outcome (list T) :=
  match n with
  | O => Ok []
  | S n' =>
      so ← (if bool_decide (n' = 0) then Ok (get_from bytes offset, offset)
            else
              rest ← expect (get_from bytes (i * BYTES_PER_LENGTH_OFFSET));
              next_offset ← read_offset rest;
              offset' ← sanitize_offset next_offset (Some offset) (length bytes) (Some first_offset);
              Ok (get_slice bytes offset offset', offset'));
      slice ← or_err so.1 (OutOfBoundsByte so.2);
      x ← from_ssz_bytes slice;
      xs ← decode_items bytes first_offset n' (i + 1) so.2;
      Ok (x :: xs)
  end.

Definition decode_list_of_variable_length_items `{Decode T} (bytes : list Z) (max_len : option nat) : outcome (list T) :=
  match bytes with
  | [] => Ok []
  | _ =>
      first_offset ← read_offset bytes;
      _ ← sanitize_offset first_offset None (length bytes) (Some first_offset);
      if bool_decide (first_offset `mod` BYTES_PER_LENGTH_OFFSET ≠ 0) || bool_decide (first_offset < BYTES_PER_LENGTH_OFFSET)
      then decode_err (InvalidListFixedBytesLen first_offset)
      else
        let num_items := first_offset / BYTES_PER_LENGTH_OFFSET in
        if match max_len with Some max => bool_decide (max < num_items) | None => false end
        then decode_err (BytesInvalid "Variable length list exceeds maximum")
        else decode_items bytes first_offset num_items 1 first_offset
  end.

#[export] Instance vec_encode `{Encode T} : Encode (list T) := {|
  enc_fixed := false;
  enc_fixed_len := BYTES_PER_LENGTH_OFFSET;
  ssz_append l buf :=
    if enc_fixed T then foldl (λ buf x, ssz_append x buf) buf l
    else encoder_finalize (foldl (λ e x, encoder_append x e) (container buf (length l * BYTES_PER_LENGTH_OFFSET)) l);
  ssz_bytes_len l :=
    if enc_fixed T then enc_fixed_len T * length l
    else foldr (λ x acc, ssz_bytes_len x + acc) 0 l + BYTES_PER_LENGTH_OFFSET * length l;
|}.

#[export] Instance vec_decode `{Decode T} : Decode (list T) := {|
  dec_fixed := false;
  dec_fixed_len := BYTES_PER_LENGTH_OFFSET;
  from_ssz_bytes bytes :=
    match bytes with
    | [] => Ok []
    | _ =>
        if dec_fixed T then
          if bool_decide (dec_fixed_len T = 0) then Panic else decode_all (chunks (length bytes) (dec_fixed_len T) bytes)
        else decode_list_of_variable_length_items bytes None
    end;
|}.

Definition union_selector_new (selector : Z) : outcome Z :=
  if (selector <=? MAX_UNION_SELECTOR)%Z then Ok selector else decode_err (UnionSelectorInvalid selector).

Definition split_union_bytes (bytes : list Z) : outcome (Z * list Z) :=
  first ← or_err (head bytes) (OutOfBoundsByte 0);
  selector ← union_selector_new first;
  body ← or_err (get_from bytes 1) (OutOfBoundsByte 1);
  Ok (selector, body).

#[export] Instance option_encode `{Encode T} : Encode (option T) := {|
  enc_fixed := false;
  enc_fixed_len := BYTES_PER_LENGTH_OFFSET;
  ssz_append x buf := match x with None => buf ++ [0%Z] | Some t => ssz_append t (buf ++ [1%Z]) end;
  ssz_bytes_len x := match x with None => 1 | Some t => ssz_bytes_len t + 1 end;
|}.

#[export] Instance option_decode `{Decode T} : Decode (option T) := {|
  dec_fixed := false;
  dec_fixed_len := BYTES_PER_LENGTH_OFFSET;
  from_ssz_bytes bytes :=
    sb ← split_union_bytes bytes;
    if (sb.1 =? 0)%Z then Ok None
    else if (sb.1 =? 1)%Z then x ← from_ssz_bytes sb.2; Ok (Some x)
    else decode_err (UnionSelectorInvalid sb.1);
|}.

(** [impl_encode_for_tuples!], [impl_decode_for_tuples!] *)
Section tuples.
Context `{Encode A, Encode B, Encode C, Encode D}.

#[export] Instance tuple2_encode : Encode (A * B) := {|
  enc_fixed := enc_fixed A && enc_fixed B;
  enc_fixed_len := if enc_fixed A && enc_fixed B then enc_fixed_len A + enc_fixed_len B else BYTES_PER_LENGTH_OFFSET;
  ssz_append x := container_append [field_of x.1; field_of x.2];
  ssz_bytes_len x := tuple_bytes_len
    [(enc_fixed A, enc_fixed_len A, ssz_bytes_len x.1); (enc_fixed B, enc_fixed_len B, ssz_bytes_len x.2)];
|}.

#[export] Instance tuple3_encode : Encode (A * B * C) | 0 := {|
  enc_fixed := enc_fixed A && enc_fixed B && enc_fixed C;
  enc_fixed_len := if enc_fixed A && enc_fixed B && enc_fixed C
                   then enc_fixed_len A + enc_fixed_len B + enc_fixed_len C else BYTES_PER_LENGTH_OFFSET;
  ssz_append x := container_append [field_of x.1.1; field_of x.1.2; field_of x.2];
  ssz_bytes_len x := tuple_bytes_len
    [(enc_fixed A, enc_fixed_len A, ssz_bytes_len x.1.1); (enc_fixed B, enc_fixed_len B, ssz_bytes_len x.1.2);
     (enc_fixed C, enc_fixed_len C, ssz_bytes_len x.2)];
|}.

#[export] Instance tuple4_encode : Encode (A * B * C * D) | 0 := {|
  enc_fixed := enc_fixed A && enc_fixed B && enc_fixed C && enc_fixed D;
  enc_fixed_len := if enc_fixed A && enc_fixed B && enc_fixed C && enc_fixed D
                   then enc_fixed_len A + enc_fixed_len B + enc_fixed_len C + enc_fixed_len D else BYTES_PER_LENGTH_OFFSET;
  ssz_append x := container_append [field_of x.1.1.1; field_of x.1.1.2; field_of x.1.2; field_of x.2];
  ssz_bytes_len x := tuple_bytes_len
    [(enc_fixed A, enc_fixed_len A, ssz_bytes_len x.1.1.1); (enc_fixed B, enc_fixed_len B, ssz_bytes_len x.1.1.2);
     (enc_fixed C, enc_fixed_len C, ssz_bytes_len x.1.2); (enc_fixed D, enc_fixed_len D, ssz_bytes_len x.2)];
|}.

Context `{Decode A, Decode B, Decode C, Decode D}.

#[export] Instance tuple2_decode : Decode (A * B) := {|
  dec_fixed := dec_fixed A && dec_fixed B;
  dec_fixed_len := if dec_fixed A && dec_fixed B then dec_fixed_len A + dec_fixed_len B else BYTES_PER_LENGTH_OFFSET;
  from_ssz_bytes bytes :=
    items ← container_split [type_of A; type_of B] bytes;
    a ← decode_next items;
    b ← decode_next a.2;
    Ok (a.1, b.1);
|}.

#[export] Instance tuple3_decode : Decode (A * B * C) | 0 := {|
  dec_fixed := dec_fixed A && dec_fixed B && dec_fixed C;
  dec_fixed_len := if dec_fixed A && dec_fixed B && dec_fixed C
                   then dec_fixed_len A + dec_fixed_len B + dec_fixed_len C else BYTES_PER_LENGTH_OFFSET;
  from_ssz_bytes bytes :=
    items ← container_split [type_of A; type_of B; type_of C] bytes;
    a ← decode_next items;
    b ← decode_next a.2;
    c ← decode_next b.2;
    Ok (a.1, b.1, c.1);
|}.

#[export] Instance tuple4_decode : Decode (A * B * C * D) | 0 := {|
  dec_fixed := dec_fixed A && dec_fixed B && dec_fixed C && dec_fixed D;
  dec_fixed_len := if dec_fixed A && dec_fixed B && dec_fixed C && dec_fixed D
                   then dec_fixed_len A + dec_fixed_len B + dec_fixed_len C + dec_fixed_len D else BYTES_PER_LENGTH_OFFSET;
  from_ssz_bytes bytes :=
    items ← container_split [type_of A; type_of B; type_of C; type_of D] bytes;
    a ← decode_next items;
    b ← decode_next a.2;
    c ← decode_next b.2;
    d ← decode_next c.2;
    Ok (a.1, b.1, c.1, d.1);
|}.

End tuples.

(** ** [#\[derive(Encode, Decode)\]] *)

(** The struct [A] as the tuple [T] of its fields. *)
Definition encode_as `{Encode T} {A} (fields : A → T) : Encode A := {|
  enc_fixed := enc_fixed T;
  enc_fixed_len := enc_fixed_len T;
  ssz_append x := ssz_append (fields x);
  ssz_bytes_len x := ssz_bytes_len (fields x);
|}.

Definition decode_as `{Decode T} {A} (make : T → A) : Decode A := {|
  dec_fixed := dec_fixed T;
  dec_fixed_len := dec_fixed_len T;
  from_ssz_bytes bytes := x ← from_ssz_bytes bytes; Ok (make x);
|}.

(** Structs with any number of fields: the fields are a nested pair that ends
    in [()], and the derived code is that of a tuple of them. *)
Class Fields (T : Type) := {
  fields_of : T → list field;
  fields_enc_types : list (bool * nat);
  fields_lens : T → list nat;
  fields_dec_types : list (bool * nat);
  fields_decode : list (list Z) → outcome T;
}.
#[global] Arguments fields_enc_types _ {_} : assert.
#[global] Arguments fields_dec_types _ {_} : assert.

#[export] Instance fields_nil : Fields () := {|
  fields_of _ := [];
  fields_enc_types := [];
  fields_lens _ := [];
  fields_dec_types := [];
  fields_decode _ := Ok tt;
|}.

#[export] Instance fields_cons `{Encode A, Decode A, Fields T} : Fields (A * T) := {|
  fields_of x := field_of x.1 :: fields_of x.2;
  fields_enc_types := (enc_fixed A, enc_fixed_len A) :: fields_enc_types T;
  fields_lens x := ssz_bytes_len x.1 :: fields_lens x.2;
  fields_dec_types := type_of A :: fields_dec_types T;
  fields_decode items :=
    a ← decode_next items;
    rest ← fields_decode a.2;
    Ok (a.1, rest);
|}.

Definition all_fixed (types : list (bool * nat)) : bool := forallb fst types.

Definition types_len (types : list (bool * nat)) : nat :=
  if all_fixed types then foldr (λ t acc, t.2 + acc) 0 types else BYTES_PER_LENGTH_OFFSET.

Definition struct_encode `{Fields T} {A} (fields : A → T) : Encode A := {|
  enc_fixed := all_fixed (fields_enc_types T);
  enc_fixed_len := types_len (fields_enc_types T);
  ssz_append x := container_append (fields_of (fields x));
  ssz_bytes_len x := tuple_bytes_len (zip (fields_enc_types T) (fields_lens (fields x)));
|}.

Definition struct_decode `{Fields T} {A} (make : T → A) : Decode A := {|
  dec_fixed := all_fixed (fields_dec_types T);
  dec_fixed_len := types_len (fields_dec_types T);
  from_ssz_bytes bytes :=
    items ← container_split (fields_dec_types T) bytes;
    x ← fields_decode items;
    Ok (make x);
|}.
