(* ===== verification/SszFacts.v ===== *)
(** What is encoded decodes to the same value, for containers and lists of any
    shape; and decoding arbitrary bytes never panics. *)

From S2P Require Import Prelude HashElement Ssz.

(** ** Integers *)

Lemma length_to_le n z : length (to_le n z) = n.
Proof. revert z. induction n as [|n IH]; intros z; cbn; [done|by rewrite IH]. Qed.

Lemma from_to_le n z : (0 <= z < 256 ^ Z.of_nat n)%Z → from_le (to_le n z) = z.
Proof.
  revert z. induction n as [|n IH]; intros z Hz; [cbn in *; lia|].
  rewrite Nat2Z.inj_succ, Z.pow_succ_r in Hz by lia. cbn [to_le from_le foldr]. fold (from_le (to_le n (z / 256)%Z)).
  rewrite IH; Z.to_euclidean_division_equations; lia.
Qed.

Lemma take_to_le n m z : n ≤ m → take n (to_le m z) = to_le n z.
Proof.
  revert m z. induction n as [|n IH]; intros [|m] z Hn; [done|done|lia|]. cbn. by rewrite IH by lia.
Qed.

Lemma encode_length_to_le len : encode_length len = to_le 4 (Z.of_nat len).
Proof. by apply take_to_le; unfold BYTES_PER_LENGTH_OFFSET; lia. Qed.

Lemma length_encode_length len : length (encode_length len) = 4.
Proof. by rewrite encode_length_to_le, length_to_le. Qed.

(** The offsets fit in four bytes. *)
Definition u32_max : nat := Z.to_nat (2 ^ 32).

Lemma read_encode_length len rest : len < u32_max → read_offset (encode_length len ++ rest) = Ok len.
Proof.
  unfold u32_max. intros Hlen. unfold read_offset, get_slice, BYTES_PER_LENGTH_OFFSET.
  rewrite bool_decide_true by (rewrite length_app, length_encode_length; lia).
  rewrite Nat.sub_0_r, drop_0, (take_app_length' (encode_length len)) by (by rewrite length_encode_length). cbn [or_err]. rewrite bind_Ok.
  unfold decode_offset, BYTES_PER_LENGTH_OFFSET. rewrite length_encode_length, bool_decide_false by lia.
  rewrite encode_length_to_le, from_to_le by lia. by rewrite Nat2Z.id.
Qed.

(** ** Slices *)

Lemma get_slice_app (a b c : list Z) n m :
  length a = n → n + length b = m → get_slice (a ++ b ++ c) n m = Some b.
Proof.
  intros <- <-. unfold get_slice. rewrite bool_decide_true by (rewrite !length_app; lia).
  rewrite drop_app_length. replace (length a + length b - length a) with (length b) by lia. by rewrite take_app_length.
Qed.

Lemma get_from_app (a b : list Z) n : length a = n → get_from (a ++ b) n = Some b.
Proof.
  intros <-. unfold get_from. rewrite bool_decide_true by (rewrite length_app; lia). by rewrite drop_app_length.
Qed.

(** ** Containers *)

(** The encoding of a field does not depend on what is in the buffer. *)
Record field_ok (f : field) : Prop := {
  fo_append : ∀ buf, fld_append f buf = buf ++ fld_append f [];
  fo_len : fld_fixed_len f = if fld_fixed f then length (fld_append f []) else 4;
}.

Definition fbytes (f : field) : list Z := fld_append f [].
Definition ftype (f : field) : bool * nat := (fld_fixed f, fld_fixed_len f).

(** The two parts of a container, [o] is where its variable part starts. *)
Fixpoint fixed_part (o : nat) (fields : list field) : list Z :=
  match fields with
  | [] => []
  | f :: fs => if fld_fixed f then fbytes f ++ fixed_part o fs
               else encode_length o ++ fixed_part (o + length (fbytes f)) fs
  end.

Definition var_part (fields : list field) : list Z := concat (fbytes <$> filter (λ f, fld_fixed f = false) fields).

Lemma length_fixed_part o fields : Forall field_ok fields → length (fixed_part o fields) = fixed_len_sum fields.
Proof.
  intros Hok. revert o. induction Hok as [|f fs [_ Hf] _ IH]; intros o; [done|].
  cbn [fixed_part fixed_len_sum foldr]. rewrite Hf. fold (fixed_len_sum fs).
  destruct (fld_fixed f); rewrite length_app, IH; [done|]. by rewrite length_encode_length.
Qed.

Lemma var_part_cons f fs : var_part (f :: fs) = if fld_fixed f then var_part fs else fbytes f ++ var_part fs.
Proof.
  unfold var_part. destruct (fld_fixed f) eqn:Hf.
  - by rewrite filter_cons_False by congruence.
  - by rewrite filter_cons_True.
Qed.

Lemma container_loop offset buf var fields :
  Forall field_ok fields →
  foldl (λ e f, append_parameterized (fld_fixed f) (fld_append f) e) (SszEncoder_mk offset buf var) fields =
    SszEncoder_mk offset (buf ++ fixed_part (offset + length var) fields) (var ++ var_part fields).
Proof.
  intros Hok. revert buf var. induction Hok as [|f fs [Ha _] _ IH]; intros buf var.
  { cbn. by rewrite !app_nil_r. }
  cbn [foldl fixed_part]. rewrite var_part_cons. unfold append_parameterized at 2. cbn [se_offset se_buf variable_bytes].
  destruct (fld_fixed f).
  - rewrite Ha. fold (fbytes f). by rewrite IH, <- app_assoc.
  - rewrite (Ha var). fold (fbytes f). rewrite IH, <- !app_assoc, length_app. by rewrite Nat.add_assoc.
Qed.

Lemma container_append_spec fields buf :
  Forall field_ok fields →
  container_append fields buf = buf ++ fixed_part (fixed_len_sum fields) fields ++ var_part fields.
Proof.
  intros Hok. unfold container_append, container. rewrite container_loop by done. cbn.
  by rewrite Nat.add_0_r, <- app_assoc.
Qed.

(** *** Registering the types *)

Definition base_item (f : field) : list Z := if fld_fixed f then fbytes f else [].

(** The offsets of the variable fields from position [k] on. *)
Fixpoint offsets_from (k o : nat) (fields : list field) : list Offset :=
  match fields with
  | [] => []
  | f :: fs => if fld_fixed f then offsets_from (k + 1) o fs
               else Offset_mk k o :: offsets_from (k + 1) (o + length (fbytes f)) fs
  end.

Lemma sanitize_ok o prev n :
  o ≤ n → (∀ p, prev = Some p → p ≤ o) → sanitize_offset o prev n None = Ok o.
Proof.
  intros Hn Hp. unfold sanitize_offset. rewrite andb_false_r, (bool_decide_false (n < o)) by lia.
  destruct prev as [p|]; [|done]. by rewrite bool_decide_false by (specialize (Hp p eq_refl); lia).
Qed.

Lemma register_types_spec bytes pre its os o fields tail :
  Forall field_ok fields → bytes = pre ++ fixed_part o fields ++ tail → length bytes < u32_max →
  o + length (var_part fields) ≤ length bytes → (∀ p, off_offset <$> last os = Some p → p ≤ o) →
  register_types (ftype <$> fields) (SszDecoderBuilder_mk bytes its os (length pre)) =
    Ok (SszDecoderBuilder_mk bytes (its ++ (base_item <$> fields)) (os ++ offsets_from (length its) o fields)
          (length pre + length (fixed_part o fields))).
Proof.
  intros Hok. revert pre its os o. induction Hok as [|f fs [_ Hf] Hfs IH]; intros pre its os o Hb Hlt Ho Hp.
  { cbn. by rewrite !app_nil_r, Nat.add_0_r. }
  rewrite var_part_cons in Ho. cbn [fmap list_fmap register_types ftype fst snd fixed_part offsets_from] in *.
  unfold base_item at 1. unfold register_type_parameterized. cbn [items_index db_bytes db_items db_offsets].
  destruct (fld_fixed f).
  - rewrite Hf. fold (fbytes f). rewrite <- app_assoc in Hb.
    assert (get_slice bytes (length pre) (length pre + length (fbytes f)) = Some (fbytes f)) as ->
      by (rewrite Hb; by apply get_slice_app).
    cbn [or_err]. rewrite !bind_Ok. rewrite <- (length_app pre (fbytes f)).
    rewrite (IH (pre ++ fbytes f) (its ++ [fbytes f]) os o); [|by rewrite <- app_assoc|done|done|done].
    rewrite <- app_assoc, !length_app. cbn [length app]. by rewrite Nat.add_assoc.
  - rewrite <- app_assoc in Hb.
    assert (get_from bytes (length pre) = Some (encode_length o ++ fixed_part (o + length (fbytes f)) fs ++ tail)) as ->
      by (rewrite Hb; by apply get_from_app).
    cbn [expect]. rewrite bind_Ok. rewrite length_app in Ho.
    rewrite read_encode_length by lia. rewrite bind_Ok, sanitize_ok, !bind_Ok by (done || lia).
    unfold BYTES_PER_LENGTH_OFFSET. rewrite <- (length_encode_length o), <- length_app.
    rewrite (IH (pre ++ encode_length o) (its ++ [[]]) (os ++ [Offset_mk (length its) o]) (o + length (fbytes f)));
      [|by rewrite Hb, <- !app_assoc|done|lia|].
    + rewrite <- !app_assoc, !length_app. cbn [length app]. by rewrite Nat.add_assoc.
    + intros p. rewrite last_snoc. cbn. intros [= <-]. lia.
Qed.

(** *** Cutting the variable part *)

Lemma offsets_from_nil k o fields : offsets_from k o fields = [] → var_part fields = [].
Proof.
  revert k o. induction fields as [|f fs IH]; intros k o; [done|]. rewrite var_part_cons. cbn [offsets_from].
  destruct (fld_fixed f); [apply IH|done].
Qed.

Lemma offsets_from_head k o fields a rest : offsets_from k o fields = a :: rest → off_offset a = o.
Proof.
  revert k o. induction fields as [|f fs IH]; intros k o; [done|]. cbn [offsets_from].
  destruct (fld_fixed f); [apply IH|by intros [= <- _]].
Qed.

Lemma fill_items_spec front its o fields :
  length front = o →
  fill_items (front ++ var_part fields) (offsets_from (length its) o fields) (its ++ (base_item <$> fields)) =
    Ok (its ++ (fbytes <$> fields)).
Proof.
  revert front its o. induction fields as [|f fs IH]; intros front its o Ho; [done|].
  rewrite var_part_cons. cbn [offsets_from fmap list_fmap]. unfold base_item at 1. destruct (fld_fixed f) eqn:Hf.
  - specialize (IH front (its ++ [fbytes f]) o Ho). rewrite length_app in IH. by rewrite <- !app_assoc in IH.
  - specialize (IH (front ++ fbytes f) (its ++ [fbytes f]) (o + length (fbytes f))).
    rewrite !length_app, <- !app_assoc in IH. cbn [fill_items off_position off_offset].
    assert (match offsets_from (length its + 1) (o + length (fbytes f)) fs with
            | b :: _ => get_slice (front ++ fbytes f ++ var_part fs) o (off_offset b)
            | [] => get_from (front ++ fbytes f ++ var_part fs) o
            end = Some (fbytes f)) as ->.
    { destruct (offsets_from _ _ fs) as [|b rest] eqn:Hoff.
      - rewrite (offsets_from_nil _ _ _ Hoff), app_nil_r. by apply get_from_app.
      - apply offsets_from_head in Hoff as ->. by apply get_slice_app. }
    cbn [expect]. rewrite bind_Ok, bool_decide_true by (rewrite length_app; cbn; lia).
    assert (<[length its := fbytes f]> (its ++ [] :: (base_item <$> fs)) = its ++ fbytes f :: (base_item <$> fs)) as ->.
    { rewrite insert_app_r_alt by lia. by rewrite Nat.sub_diag. }
    apply IH. cbn. lia.
Qed.

(** Reading back a container gives its fields. *)
Lemma container_split_spec fields :
  Forall field_ok fields → length (container_append fields []) < u32_max →
  container_split (ftype <$> fields) (container_append fields []) = Ok (fbytes <$> fields).
Proof.
  intros Hok. rewrite container_append_spec by done. cbn [app]. set (o := fixed_len_sum fields).
  set (bytes := fixed_part o fields ++ var_part fields). intros Hlt.
  assert (length (fixed_part o fields) = o) as Ho by by apply length_fixed_part.
  assert (length bytes = o + length (var_part fields)) as Hlen by (unfold bytes; rewrite length_app; lia).
  unfold container_split, builder_new. change 0 with (length (@nil Z)) at 1.
  rewrite (register_types_spec bytes [] [] [] o fields (var_part fields)) by (done || lia).
  rewrite bind_Ok. cbn [app length]. rewrite Ho. unfold builder_build. cbn [db_offsets db_bytes db_items items_index Nat.add].
  pose proof (fill_items_spec (fixed_part o fields) [] o fields Ho) as Hfill. cbn [length app] in Hfill. fold bytes in Hfill.
  destruct (offsets_from 0 o fields) as [|first rest] eqn:Hoff.
  - pose proof (offsets_from_nil _ _ _ Hoff) as Hv. rewrite bool_decide_false; [exact Hfill|].
    rewrite Hlen, Hv. cbn. lia.
  - rewrite (offsets_from_head _ _ _ _ _ Hoff), !bool_decide_false by lia. exact Hfill.
Qed.

(** ** Lawful encodings *)

(** The values in [ok] survive; the length of fixed-length values is the
    declared one. *)
Class SszLawful (T : Type) `{Encode T, Decode T} (ok : T → Prop) : Prop := {
  ssz_same_fixed : dec_fixed T = enc_fixed T;
  ssz_same_len : dec_fixed_len T = enc_fixed_len T;
  ssz_append_app : ∀ (x : T) buf, ssz_append x buf = buf ++ as_ssz_bytes x;
  ssz_fixed_len_ok : ∀ x : T, enc_fixed_len T = if enc_fixed T then length (as_ssz_bytes x) else 4;
  ssz_roundtrip : ∀ x, ok x → from_ssz_bytes (as_ssz_bytes x) = Ok x;
}.

Lemma field_of_ok `{SszLawful T ok} (x : T) : field_ok (field_of x).
Proof.
  split; cbn; [apply ssz_append_app|]. apply ssz_fixed_len_ok.
Qed.

Lemma ftype_field_of `{SszLawful T ok} (x : T) : ftype (field_of x) = type_of T.
Proof. unfold ftype, type_of. cbn. by rewrite ssz_same_fixed, ssz_same_len. Qed.

Lemma fbytes_field_of `{Encode T} (x : T) : fbytes (field_of x) = as_ssz_bytes x.
Proof. done. Qed.

Lemma uint_roundtrip n z : (0 <= z < 256 ^ Z.of_nat n)%Z →
  from_ssz_bytes (Decode := uint_decode n) (as_ssz_bytes (H := uint_encode n) z) = Ok z.
Proof.
  intros Hz. unfold as_ssz_bytes. cbn. rewrite length_to_le, bool_decide_false by lia. by rewrite from_to_le.
Qed.

Lemma uint_lawful n : SszLawful Z (H := uint_encode n) (H0 := uint_decode n) (λ z, 0 <= z < 256 ^ Z.of_nat n)%Z.
Proof.
  split; [done|done|done| |apply uint_roundtrip]. intros x. cbn. by rewrite length_to_le.
Qed.

#[export] Instance u8_lawful : SszLawful u8 (λ z, 0 <= z < 2 ^ 8)%Z := uint_lawful 1.
#[export] Instance u16_lawful : SszLawful u16 (λ z, 0 <= z < 2 ^ 16)%Z := uint_lawful 2.
#[export] Instance u32_lawful : SszLawful u32 (λ z, 0 <= z < 2 ^ 32)%Z := uint_lawful 4.
#[export] Instance u64_lawful : SszLawful u64 (λ z, 0 <= z < 2 ^ 64)%Z := uint_lawful 8.
#[export] Instance usize_lawful : SszLawful usize (λ z, 0 <= z < 2 ^ 64)%Z := uint_lawful 8.

#[export] Instance u128_lawful : SszLawful u128 (λ z, 0 <= z < 2 ^ 128)%Z := uint_lawful 16.
#[export] Instance u256_lawful : SszLawful u256 (λ z, 0 <= z < 2 ^ 256)%Z := uint_lawful 32.

#[export] Instance nonzero_lawful : SszLawful NonZeroUsize (λ z, 0 < z < 2 ^ 64)%Z.
Proof.
  destruct usize_lawful as [H1 H2 H3 H4 H5]. split; [done|done|exact H3|exact H4|]. intros x Hx.
  change (from_ssz_bytes (as_ssz_bytes x)) with
    (y ← (from_ssz_bytes (T := usize) (as_ssz_bytes (x : usize)) : outcome Z);
     if (y =? 0)%Z then decode_err (BytesInvalid "NonZeroUsize cannot be zero.") else Ok y).
  rewrite H5 by lia. rewrite bind_Ok. by rewrite (proj2 (Z.eqb_neq x 0)) by lia.
Qed.

Lemma u8_array_lawful n : SszLawful (vec Z n) (H := u8_array_encode n) (H0 := u8_array_decode n) (λ _, True).
Proof.
  split; [done|done|done| |].
  - intros x. cbn. by rewrite length_vec_to_list.
  - intros x _. cbn. by rewrite array_from_vec.
Qed.

#[export] Instance h160_lawful : SszLawful H160 (λ _, True) := u8_array_lawful 20.

#[export] Instance bool_lawful : SszLawful bool (λ _, True).
Proof. split; [done|done|done|done|]. by intros [] _. Qed.

#[export] Instance h256_lawful : SszLawful H256 (λ _, True).
Proof.
  split; [done|done|done| |].
  - intros x. cbn. by rewrite length_vec_to_list.
  - intros x _. cbn. by rewrite array_from_vec.
Qed.

(** ** Tuples *)

(** The length of a container whose fields are all fixed. *)
Lemma container_fixed_len fields :
  Forall field_ok fields → Forall (λ f, fld_fixed f = true) fields →
  length (container_append fields []) = fixed_len_sum fields.
Proof.
  intros Hok Hfix. rewrite container_append_spec by done. cbn [app]. rewrite length_app, length_fixed_part by done.
  enough (var_part fields = []) as -> by (cbn; lia). clear Hok.
  induction Hfix as [|f fs Hf _ IH]; [done|]. by rewrite var_part_cons, Hf.
Qed.

Lemma container_append_app fields buf :
  Forall field_ok fields → container_append fields buf = buf ++ container_append fields [].
Proof. intros Hok. by rewrite !container_append_spec by done. Qed.

Section tuples.
Context `{HA : SszLawful A okA, HB : SszLawful B okB, HC : SszLawful C okC, HD : SszLawful D okD}.

#[export] Instance tuple2_lawful :
  SszLawful (A * B) (λ x, okA x.1 ∧ okB x.2 ∧ length (as_ssz_bytes x) < u32_max).
Proof.
  assert (∀ x : A * B, Forall field_ok [field_of x.1; field_of x.2]) as Hok
    by (intros x; repeat constructor; apply field_of_ok).
  split; cbn [enc_fixed dec_fixed enc_fixed_len dec_fixed_len tuple2_encode tuple2_decode].
  - by rewrite !ssz_same_fixed.
  - by rewrite !ssz_same_fixed, !ssz_same_len.
  - intros x buf. by apply container_append_app.
  - intros x. destruct (enc_fixed A) eqn:Ha; destruct (enc_fixed B) eqn:Hb; cbn [andb]; [|done..].
    unfold as_ssz_bytes. cbn [ssz_append tuple2_encode]. rewrite container_fixed_len by (done || (repeat constructor; done)). cbn. lia.
  - intros x (Hx1 & Hx2 & Hlen). unfold as_ssz_bytes in Hlen |- * at 1. cbn [ssz_append from_ssz_bytes tuple2_encode tuple2_decode] in *.
    pose proof (container_split_spec _ (Hok x) Hlen) as Hs. cbn [fmap list_fmap] in Hs. rewrite !ftype_field_of, !fbytes_field_of in Hs.
    rewrite Hs, bind_Ok. cbn [decode_next].
    rewrite (ssz_roundtrip _ Hx1), !bind_Ok. cbn [fst snd decode_next]. rewrite (ssz_roundtrip _ Hx2), !bind_Ok. by destruct x.
Qed.

#[export] Instance tuple3_lawful :
  SszLawful (A * B * C) (λ x, okA x.1.1 ∧ okB x.1.2 ∧ okC x.2 ∧ length (as_ssz_bytes x) < u32_max) | 0.
Proof.
  assert (∀ x : A * B * C, Forall field_ok [field_of x.1.1; field_of x.1.2; field_of x.2]) as Hok
    by (intros x; repeat constructor; apply field_of_ok).
  split; cbn [enc_fixed dec_fixed enc_fixed_len dec_fixed_len tuple3_encode tuple3_decode].
  - by rewrite !ssz_same_fixed.
  - by rewrite !ssz_same_fixed, !ssz_same_len.
  - intros x buf. by apply container_append_app.
  - intros x. destruct (enc_fixed A) eqn:Ha; destruct (enc_fixed B) eqn:Hb; destruct (enc_fixed C) eqn:Hc; cbn [andb]; [|done..].
    unfold as_ssz_bytes. cbn [ssz_append tuple3_encode]. rewrite container_fixed_len by (done || (repeat constructor; done)). cbn. lia.
  - intros x (Hx1 & Hx2 & Hx3 & Hlen). unfold as_ssz_bytes in Hlen |- * at 1. cbn [ssz_append from_ssz_bytes tuple3_encode tuple3_decode] in *.
    pose proof (container_split_spec _ (Hok x) Hlen) as Hs. cbn [fmap list_fmap] in Hs. rewrite !ftype_field_of, !fbytes_field_of in Hs.
    rewrite Hs, bind_Ok. cbn [decode_next].
    rewrite (ssz_roundtrip _ Hx1), !bind_Ok. cbn [fst snd decode_next]. rewrite (ssz_roundtrip _ Hx2), !bind_Ok. cbn [fst snd decode_next].
    rewrite (ssz_roundtrip _ Hx3), !bind_Ok. by destruct x as [[? ?] ?].
Qed.

#[export] Instance tuple4_lawful :
  SszLawful (A * B * C * D)
    (λ x, okA x.1.1.1 ∧ okB x.1.1.2 ∧ okC x.1.2 ∧ okD x.2 ∧ length (as_ssz_bytes x) < u32_max) | 0.
Proof.
  assert (∀ x : A * B * C * D, Forall field_ok [field_of x.1.1.1; field_of x.1.1.2; field_of x.1.2; field_of x.2]) as Hok
    by (intros x; repeat constructor; apply field_of_ok).
  split; cbn [enc_fixed dec_fixed enc_fixed_len dec_fixed_len tuple4_encode tuple4_decode].
  - by rewrite !ssz_same_fixed.
  - by rewrite !ssz_same_fixed, !ssz_same_len.
  - intros x buf. by apply container_append_app.
  - intros x. destruct (enc_fixed A) eqn:Ha; destruct (enc_fixed B) eqn:Hb; destruct (enc_fixed C) eqn:Hc;
      destruct (enc_fixed D) eqn:Hd; cbn [andb]; [|done..].
    unfold as_ssz_bytes. cbn [ssz_append tuple4_encode]. rewrite container_fixed_len by (done || (repeat constructor; done)). cbn. lia.
  - intros x (Hx1 & Hx2 & Hx3 & Hx4 & Hlen). unfold as_ssz_bytes in Hlen |- * at 1. cbn [ssz_append from_ssz_bytes tuple4_encode tuple4_decode] in *.
    pose proof (container_split_spec _ (Hok x) Hlen) as Hs. cbn [fmap list_fmap] in Hs. rewrite !ftype_field_of, !fbytes_field_of in Hs.
    rewrite Hs, bind_Ok. cbn [decode_next].
    rewrite (ssz_roundtrip _ Hx1), !bind_Ok. cbn [fst snd decode_next]. rewrite (ssz_roundtrip _ Hx2), !bind_Ok. cbn [fst snd decode_next].
    rewrite (ssz_roundtrip _ Hx3), !bind_Ok. cbn [fst snd decode_next].
    rewrite (ssz_roundtrip _ Hx4), !bind_Ok. by destruct x as [[[? ?] ?] ?].
Qed.

End tuples.

(** ** Lists *)

Section lists.
Context `{HT : SszLawful T ok}.
Implicit Types (l : list T).

Lemma fixed_list_append l buf : foldl (λ buf (x : T), ssz_append x buf) buf l = buf ++ concat (as_ssz_bytes <$> l).
Proof.
  revert buf. induction l as [|x l IH]; intros buf; cbn [foldl fmap list_fmap concat]; [by rewrite app_nil_r|].
  by rewrite IH, ssz_append_app, <- app_assoc.
Qed.

Lemma fixed_list_decode (l : list T) n fuel :
  0 < n → (∀ x : T, length (as_ssz_bytes x) = n) → Forall ok l → length (concat (as_ssz_bytes <$> l)) ≤ fuel →
  decode_all (chunks fuel n (concat (as_ssz_bytes <$> l))) = Ok l.
Proof.
  intros Hn Hlen Hok. revert fuel. induction Hok as [|x l Hx _ IH]; intros fuel Hf; [by destruct fuel|].
  cbn [fmap list_fmap concat] in *. set (rest := concat (as_ssz_bytes <$> l)) in *.
  rewrite length_app, Hlen in Hf. destruct fuel as [|fuel]; [lia|]. cbn [chunks].
  rewrite take_app_length', drop_app_length' by (by rewrite Hlen).
  destruct (as_ssz_bytes x ++ rest) as [|b bs] eqn:Hb.
  { apply (f_equal length) in Hb. rewrite length_app, Hlen in Hb. cbn in Hb. lia. }
  cbn [decode_all]. rewrite (ssz_roundtrip _ Hx), bind_Ok, IH by lia. done.
Qed.

(** A list of items of variable length is a container of them. *)
Lemma var_list_append l buf :
  enc_fixed T = false → ssz_append l buf = container_append (field_of <$> l) buf.
Proof.
  intros Hv. cbn [ssz_append vec_encode]. rewrite Hv. unfold container_append.
  assert (fixed_len_sum (field_of <$> l) = length l * BYTES_PER_LENGTH_OFFSET) as ->.
  { induction l as [|x l IH]; [done|]. cbn [fmap list_fmap fixed_len_sum foldr] in *. unfold fixed_len_sum in IH. rewrite IH.
    cbn [fld_fixed_len field_of]. rewrite (ssz_fixed_len_ok x), Hv. cbn. lia. }
  generalize (container buf (length l * BYTES_PER_LENGTH_OFFSET)). intros e. f_equal. revert e.
  induction l as [|x l IH]; intros e; [done|]. cbn [fmap list_fmap foldl]. apply IH.
Qed.

Definition var_fields l : list field := field_of <$> l.

Lemma var_fields_ok l : Forall field_ok (var_fields l).
Proof. apply Forall_fmap, Forall_true. intros x. apply field_of_ok. Qed.

Lemma var_fixed_part_length l o : enc_fixed T = false → length (fixed_part o (var_fields l)) = 4 * length l.
Proof.
  intros Hv. revert o. induction l as [|x l IH]; intros o; [done|].
  cbn [var_fields fmap list_fmap fixed_part fld_fixed field_of length]. rewrite Hv, length_app, length_encode_length.
  fold (var_fields l). rewrite IH. lia.
Qed.

Lemma var_part_var_fields l : enc_fixed T = false → var_part (var_fields l) = concat (as_ssz_bytes <$> l).
Proof.
  intros Hv. induction l as [|x l IH]; [done|]. cbn [var_fields fmap list_fmap concat]. rewrite var_part_cons.
  cbn [fld_fixed field_of]. rewrite Hv. fold (var_fields l). by rewrite IH.
Qed.

(** The loop reads the items one after the other. *)
Lemma decode_items_spec bytes pre l front first i o x :
  enc_fixed T = false → Forall ok (x :: l) → length bytes < u32_max →
  bytes = pre ++ fixed_part (o + length (as_ssz_bytes x)) (var_fields l) ++ front ++ as_ssz_bytes x ++ concat (as_ssz_bytes <$> l) →
  length pre = 4 * i → o = length pre + 4 * length l + length front → first ≤ o →
  decode_items bytes first (S (length l)) i o = Ok (x :: l).
Proof.
  intros Hv Hok Hlt. revert pre front i o x Hok. induction l as [|y l IH]; intros pre front i o x Hok Hb Hpre Ho Hfirst.
  - rewrite Forall_singleton in Hok. cbn [length fmap list_fmap concat fixed_part var_fields app] in *. cbn [decode_items].
    rewrite bool_decide_true by done. rewrite bind_Ok. cbn [fst snd].
    assert (get_from bytes o = Some (as_ssz_bytes x)) as ->.
    { rewrite Hb, app_nil_r, app_assoc. apply get_from_app. rewrite length_app. lia. }
    cbn [or_err]. by rewrite bind_Ok, (ssz_roundtrip _ Hok), bind_Ok.
  - apply Forall_cons in Hok as [Hx Hok]. cbn [length fmap list_fmap concat fixed_part var_fields fld_fixed field_of] in *.
    rewrite Hv in Hb. fold (var_fields l) in Hb. rewrite fbytes_field_of in Hb.
    set (next := o + length (as_ssz_bytes x)) in *.
    set (fixed := fixed_part (next + length (as_ssz_bytes y)) (var_fields l)) in *.
    set (rest := as_ssz_bytes y ++ concat (as_ssz_bytes <$> l)) in *.
    assert (length fixed = 4 * length l) as Hfixed by by apply var_fixed_part_length.
    assert (length bytes = length pre + 4 + length fixed + length front + length (as_ssz_bytes x) + length rest) as Hlen
      by (rewrite Hb, !length_app, length_encode_length; lia).
    change (decode_items bytes first (S (S (length l))) i o = Ok (x :: y :: l)).
    remember (S (length l)) as n eqn:Hn. cbn [decode_items]. rewrite (bool_decide_false (n = 0)) by lia.
    assert (get_from bytes (i * BYTES_PER_LENGTH_OFFSET) = Some (encode_length next ++ fixed ++ front ++ as_ssz_bytes x ++ rest)) as ->.
    { rewrite Hb. rewrite <- app_assoc. apply get_from_app. unfold BYTES_PER_LENGTH_OFFSET. lia. }
    cbn [expect]. rewrite bind_Ok, read_encode_length, bind_Ok by lia.
    assert (sanitize_offset next (Some o) (length bytes) (Some first) = Ok next) as ->.
    { unfold sanitize_offset. rewrite (bool_decide_false (next < first)), (bool_decide_false (Some o = None)),
        (bool_decide_false (length bytes < next)), (bool_decide_false (next < o)) by (done || lia). done. }
    rewrite !bind_Ok. cbn [fst snd].
    assert (get_slice bytes o next = Some (as_ssz_bytes x)) as ->.
    { rewrite Hb. replace (pre ++ (encode_length next ++ fixed) ++ front ++ as_ssz_bytes x ++ rest)
        with ((pre ++ encode_length next ++ fixed ++ front) ++ as_ssz_bytes x ++ rest) by by rewrite <- !app_assoc.
      apply get_slice_app; [|done]. rewrite !length_app, length_encode_length. lia. }
    cbn [or_err]. rewrite bind_Ok, (ssz_roundtrip _ Hx), bind_Ok.
    rewrite (IH (pre ++ encode_length next) (front ++ as_ssz_bytes x) (i + 1) next y); [done|done| | | |].
    + rewrite Hb. unfold fixed, rest. by rewrite <- !app_assoc.
    + rewrite length_app, length_encode_length. lia.
    + rewrite !length_app, length_encode_length. lia.
    + lia.
Qed.

Lemma var_list_decode l :
  enc_fixed T = false → Forall ok l → length (as_ssz_bytes l) < u32_max →
  decode_list_of_variable_length_items (as_ssz_bytes l) None = Ok l.
Proof.
  intros Hv Hok Hlt. unfold as_ssz_bytes in *. rewrite var_list_append in * by done. fold (var_fields l) in *.
  rewrite container_append_spec in * by apply var_fields_ok. cbn [app] in *.
  destruct l as [|x l]; [done|]. set (first := fixed_len_sum (var_fields (x :: l))) in *.
  assert (first = 4 * S (length l)) as Hfirst.
  { unfold first. rewrite <- (length_fixed_part 0) by apply var_fields_ok. by rewrite var_fixed_part_length. }
  rewrite var_part_var_fields in * by done.
  cbn [var_fields fmap list_fmap fixed_part fld_fixed field_of concat] in *. rewrite Hv in *. fold (var_fields l) in *.
  rewrite fbytes_field_of in *.
  set (fixed := fixed_part (first + length (as_ssz_bytes x)) (var_fields l)) in *.
  set (bytes := (encode_length first ++ fixed) ++ as_ssz_bytes x ++ concat (as_ssz_bytes <$> l)) in *.
  assert (length fixed = 4 * length l) as Hfixed by by apply var_fixed_part_length.
  assert (first ≤ length bytes) as Hle by (unfold bytes; rewrite !length_app, length_encode_length; lia).
  unfold decode_list_of_variable_length_items. destruct bytes as [|b0 bs] eqn:Hbytes; [exfalso; change (first ≤ 0) in Hle; lia|]. rewrite <- Hbytes in *.
  assert (read_offset bytes = Ok first) as ->.
  { unfold bytes. rewrite <- app_assoc. apply read_encode_length. lia. }
  rewrite bind_Ok. unfold sanitize_offset. rewrite (bool_decide_false (first < first)), (bool_decide_false (first ≠ first)),
    andb_false_r, (bool_decide_false (length bytes < first)) by (lia || tauto).
  rewrite bind_Ok. unfold BYTES_PER_LENGTH_OFFSET.
  assert (first `mod` 4 = 0) as Hmod by (rewrite Hfirst, Nat.mul_comm; apply Nat.Div0.mod_mul).
  assert (first / 4 = S (length l)) as Hdiv by (rewrite Hfirst, Nat.mul_comm; by apply Nat.div_mul).
  assert (4 ≤ first) as Hge by (rewrite Hfirst; clear; lia).
  rewrite Hdiv, (bool_decide_false (first `mod` 4 ≠ 0)), (bool_decide_false (first < 4)); [|clear -Hge; lia|tauto]. cbn [orb].
  apply (decode_items_spec bytes (encode_length first) l [] first 1 first x Hv Hok Hlt).
  - unfold bytes. by rewrite <- app_assoc.
  - by rewrite length_encode_length.
  - rewrite length_encode_length, Hfirst. cbn. clear. lia.
  - apply Nat.le_refl.
Qed.

End lists.

(** Items of a fixed length that is not zero, or of variable length. *)
Definition item_type (T : Type) `{Encode T} : Prop := enc_fixed T = true → 0 < enc_fixed_len T.

Lemma vec_lawful `{SszLawful T ok} :
  item_type T → SszLawful (list T) (λ l, Forall ok l ∧ length (as_ssz_bytes l) < u32_max).
Proof.
  intros Hitem. split; [done|done| |done|].
  - intros l buf. destruct (enc_fixed T) eqn:Hf.
    + unfold as_ssz_bytes at 1. cbn [ssz_append vec_encode]. rewrite Hf. by rewrite !fixed_list_append.
    + unfold as_ssz_bytes. rewrite !var_list_append by done. apply container_append_app, var_fields_ok.
  - intros l [Hok Hlt]. unfold from_ssz_bytes. cbn [vec_decode]. rewrite ssz_same_fixed, ssz_same_len.
    destruct (enc_fixed T) eqn:Hf.
    + specialize (Hitem Hf). rewrite bool_decide_false by lia.
      assert (as_ssz_bytes l = concat (as_ssz_bytes <$> l)) as ->.
      { unfold as_ssz_bytes at 1. cbn [ssz_append vec_encode]. rewrite Hf. by rewrite fixed_list_append. }
      assert (∀ x : T, length (as_ssz_bytes x) = enc_fixed_len T) as Hlen
        by (intros x; pose proof (ssz_fixed_len_ok x) as Hx; rewrite Hf in Hx; lia).
      pose proof (fixed_list_decode l (enc_fixed_len T) (length (concat (as_ssz_bytes <$> l))) ltac:(lia) Hlen Hok ltac:(lia)) as Hd.
      destruct (concat (as_ssz_bytes <$> l)) eqn:Hc; [|exact Hd]. cbn in Hd. exact Hd.
    + pose proof (var_list_decode l Hf Hok Hlt) as Hd. destruct (as_ssz_bytes l) eqn:Hc; [|exact Hd]. cbn in Hd. exact Hd.
Qed.

#[export] Instance option_lawful `{SszLawful T ok} : SszLawful (option T) (λ o, ∀ x, o = Some x → ok x).
Proof.
  split; [done|done| |done|].
  - intros [x|] buf; [|done]. unfold as_ssz_bytes. cbn [ssz_append option_encode]. rewrite !(ssz_append_app x). by rewrite <- app_assoc.
  - intros [x|] Hok; [|done]. unfold as_ssz_bytes. cbn [ssz_append option_encode app]. rewrite ssz_append_app.
    cbn [app]. unfold from_ssz_bytes. cbn [option_decode]. unfold split_union_bytes. cbn -[as_ssz_bytes from_ssz_bytes].
    change (1%Z :: as_ssz_bytes x) with ([1%Z] ++ as_ssz_bytes x). rewrite get_from_app by done.
    cbn [or_err]. rewrite !bind_Ok. cbn -[as_ssz_bytes from_ssz_bytes]. by rewrite (ssz_roundtrip _ (Hok x eq_refl)), bind_Ok.
Qed.

(** ** Arbitrary bytes *)

(** The call returns a value or an error. *)
Definition no_panic {A} (o : outcome A) : Prop := match o with Ok _ | Err _ => True | _ => False end.

Lemma no_panic_bind {A B} (o : outcome A) (k : A → outcome B) :
  no_panic o → (∀ a, o = Ok a → no_panic (k a)) → no_panic (o ≫= k).
Proof. destruct o; cbn; auto. Qed.

Class DecodeTotal (T : Type) `{Decode T} : Prop := decode_total : ∀ bytes, no_panic (from_ssz_bytes (T := T) bytes).

Lemma uint_total n : DecodeTotal Z (H := uint_decode n).
Proof. intros bytes. cbn. by destruct (bool_decide _). Qed.

#[export] Instance u8_total : DecodeTotal u8 := uint_total 1.
#[export] Instance u16_total : DecodeTotal u16 := uint_total 2.
#[export] Instance u32_total : DecodeTotal u32 := uint_total 4.
#[export] Instance u64_total : DecodeTotal u64 := uint_total 8.
#[export] Instance usize_total : DecodeTotal usize := uint_total 8.

#[export] Instance u128_total : DecodeTotal u128 := uint_total 16.
#[export] Instance u256_total : DecodeTotal u256 := uint_total 32.

#[export] Instance nonzero_total : DecodeTotal NonZeroUsize.
Proof.
  intros bytes. cbn. pose proof (usize_total bytes) as Ht. cbn in Ht. destruct (bool_decide _); cbn; [done|].
  by destruct (_ =? _)%Z.
Qed.

Lemma u8_array_total n : DecodeTotal (vec Z n) (H := u8_array_decode n).
Proof. intros bytes. cbn. by destruct (array_from n bytes). Qed.

#[export] Instance h160_total : DecodeTotal H160 := u8_array_total 20.

#[export] Instance bool_total : DecodeTotal bool.
Proof. intros [|b [|c r]]; cbn; [done| |done]. destruct (b =? 0)%Z; [done|]. by destruct (b =? 1)%Z. Qed.

#[export] Instance h256_total : DecodeTotal H256.
Proof. intros bytes. cbn. by destruct (array_from 32 bytes). Qed.

Lemma or_err_total {A} (o : option A) e : no_panic (or_err o e).
Proof. by destruct o. Qed.

Lemma sanitize_total o p n m : no_panic (sanitize_offset o p n m).
Proof. unfold sanitize_offset. by repeat case_match. Qed.

Lemma sanitize_Ok o p n m o' :
  sanitize_offset o p n m = Ok o' → o' = o ∧ o ≤ n ∧ ∀ q, p = Some q → q ≤ o.
Proof.
  unfold sanitize_offset. destruct (match m with Some _ => _ | None => _ end); [done|]. destruct (_ && _); [done|].
  case_bool_decide as Hn; [done|]. destruct p as [q|].
  - case_bool_decide; [done|]. intros [= <-]. split_and!; [done|lia|]. intros ? [= <-]. lia.
  - intros [= <-]. split_and!; [done|lia|done].
Qed.

Lemma read_offset_total bytes : no_panic (read_offset bytes).
Proof.
  unfold read_offset. apply no_panic_bind; [apply or_err_total|]. intros b _. unfold decode_offset. by destruct (bool_decide _).
Qed.

Lemma read_offset_Ok bytes o : read_offset bytes = Ok o → 4 ≤ length bytes.
Proof.
  unfold read_offset, get_slice, BYTES_PER_LENGTH_OFFSET. case_bool_decide; [lia|done].
Qed.

(** What holds of the builder while types are registered: it is within the
    bytes, and the offsets increase and are within them. *)
Record builder_ok (b : SszDecoderBuilder) : Prop := {
  bo_index : items_index b ≤ length (db_bytes b);
  bo_offsets : ∀ i a, db_offsets b !! i = Some a →
    off_offset a ≤ length (db_bytes b) ∧ off_position a < length (db_items b);
  bo_sorted : ∀ i a c, db_offsets b !! i = Some a → db_offsets b !! S i = Some c → off_offset a ≤ off_offset c;
}.

Lemma register_ok b fixed n :
  builder_ok b → no_panic (register_type_parameterized fixed n b) ∧
    ∀ b', register_type_parameterized fixed n b = Ok b' → builder_ok b' ∧ length (db_items b') = S (length (db_items b)).
Proof.
  intros [Hi Ho Hs]. unfold register_type_parameterized. destruct fixed.
  - destruct (get_slice _ _ _) as [sl|] eqn:Hsl; cbn [or_err]; [|done]. rewrite bind_Ok. split; [done|]. intros b' [= <-].
    unfold get_slice in Hsl. case_bool_decide as Hle; [|done]. split; [|cbn; rewrite length_app; cbn; lia].
    split; cbn; [lia| |done]. intros i a Ha. destruct (Ho i a Ha). rewrite length_app. cbn. lia.
  - unfold get_from. rewrite bool_decide_true by done. cbn [expect]. rewrite bind_Ok.
    pose proof (read_offset_total (drop (items_index b) (db_bytes b))) as Hrt.
    destruct (read_offset _) as [r|e| |] eqn:Hr; [|done..]. rewrite bind_Ok. apply read_offset_Ok in Hr. rewrite length_drop in Hr.
    pose proof (sanitize_total r (off_offset <$> last (db_offsets b)) (length (db_bytes b)) None) as Hst.
    destruct (sanitize_offset _ _ _ _) as [o|e| |] eqn:Hso; [|done..]. rewrite bind_Ok. split; [done|]. intros b' [= <-].
    apply sanitize_Ok in Hso as (-> & Hle & Hprev). split; [|cbn; rewrite length_app; cbn; lia].
    split; cbn; unfold BYTES_PER_LENGTH_OFFSET; [lia| |].
    + intros i a [Ha|[Hn Ha]]%lookup_app_Some; rewrite length_app; cbn.
      * destruct (Ho i a Ha). lia.
      * apply list_lookup_singleton_Some in Ha as [_ <-]. cbn. lia.
    + intros i a c [Ha|[Hn Ha]]%lookup_app_Some Hc; [|].
      * apply lookup_app_Some in Hc as [Hc|[Hn Hc]]; [by apply (Hs i)|]. apply list_lookup_singleton_Some in Hc as [Hz <-].
        cbn. apply Hprev. rewrite last_lookup. replace (pred (length (db_offsets b))) with i; [by rewrite Ha|].
        apply lookup_lt_Some in Ha. lia.
      * apply list_lookup_singleton_Some in Ha as [Hz _]. apply lookup_lt_Some in Hc. rewrite length_app in Hc. cbn in Hc. lia.
Qed.

Lemma register_types_ok types b :
  builder_ok b → no_panic (register_types types b) ∧
    ∀ b', register_types types b = Ok b' → builder_ok b' ∧ length (db_items b') = length (db_items b) + length types.
Proof.
  revert b. induction types as [|t types IH]; intros b Hb; cbn [register_types].
  { split; [done|]. intros b' [= <-]. split; [done|]. cbn. lia. }
  destruct (register_ok b t.1 t.2 Hb) as [Ht Hok]. destruct (register_type_parameterized _ _ _) as [b1|e| |]; [|done..].
  rewrite bind_Ok. destruct (Hok b1 eq_refl) as [Hb1 Hl1]. destruct (IH b1 Hb1) as [Hn Hr]. split; [done|]. intros b' Hb'.
  destruct (Hr b' Hb') as [? ->]. split; [done|]. cbn. lia.
Qed.

Lemma fill_items_ok bytes offs items :
  (∀ i a, offs !! i = Some a → off_offset a ≤ length bytes ∧ off_position a < length items) →
  (∀ i a c, offs !! i = Some a → offs !! S i = Some c → off_offset a ≤ off_offset c) →
  ∃ items', fill_items bytes offs items = Ok items' ∧ length items' = length items.
Proof.
  revert items. induction offs as [|a offs IH]; intros items Ho Hs; [by exists items|]. cbn [fill_items].
  destruct (Ho 0 a eq_refl) as [Ha Hp].
  assert (∃ sl, match offs with b :: _ => get_slice bytes (off_offset a) (off_offset b) | [] => get_from bytes (off_offset a) end = Some sl)
    as [sl ->].
  { destruct offs as [|c offs].
    - unfold get_from. rewrite bool_decide_true by done. by eexists.
    - unfold get_slice. destruct (Ho 1 c eq_refl). specialize (Hs 0 a c eq_refl eq_refl).
      rewrite bool_decide_true by done. by eexists. }
  cbn [expect]. rewrite bind_Ok, bool_decide_true by done.
  destruct (IH (<[off_position a := sl]> items)) as (items' & Hf & Hl).
  - intros i c Hc. rewrite length_insert. by apply (Ho (S i)).
  - intros i c d Hc Hd. by apply (Hs (S i)).
  - exists items'. split; [done|]. by rewrite Hl, length_insert.
Qed.

(** Cutting arbitrary bytes into fields never panics, and gives as many slices
    as there are types. *)
Lemma container_split_total types bytes :
  no_panic (container_split types bytes) ∧ ∀ items, container_split types bytes = Ok items → length items = length types.
Proof.
  unfold container_split. assert (builder_ok (builder_new bytes)) as Hb by (split; cbn; [lia|done|done]).
  destruct (register_types_ok types _ Hb) as [Hn Hr]. destruct (register_types _ _) as [b|e| |]; [|done..].
  destruct (Hr b eq_refl) as [[Hi Ho Hs] Hl]. cbn in Hl. rewrite bind_Ok. unfold builder_build.
  destruct (db_offsets b) as [|first rest] eqn:Hoff.
  - case_bool_decide; [done|]. split; [done|]. by intros items [= <-].
  - case_bool_decide; [done|]. case_bool_decide; [done|]. rewrite <- Hoff in *.
    destruct (fill_items_ok (db_bytes b) (db_offsets b) (db_items b) Ho Hs) as (items' & -> & Hlen).
    split; [done|]. intros items [= <-]. lia.
Qed.

Lemma decode_next_total `{DecodeTotal T} items :
  items ≠ [] → no_panic (decode_next (T := T) items) ∧
    ∀ x rest, decode_next (T := T) items = Ok (x, rest) → length items = S (length rest).
Proof.
  intros Hne. destruct items as [|s items]; [done|]. cbn [decode_next]. pose proof (decode_total (T := T) s) as Hs.
  destruct (from_ssz_bytes s); [|done..]. rewrite bind_Ok. split; [done|]. by intros x rest [= <- <-].
Qed.

(** One [decode_next] of a list of slices that is long enough. *)
Ltac decode_field :=
  lazymatch goal with
  | Hl : length ?items = S _ |- no_panic (@decode_next ?T _ ?items ≫= _) =>
      let Hn := fresh in let Hr := fresh in
      destruct (decode_next_total (T := T) items) as [Hn Hr]; [by destruct items|];
      destruct (decode_next items) as [[? ?]|?| |]; [|done..]; rewrite bind_Ok; cbn [fst snd];
      specialize (Hr _ _ eq_refl); rewrite Hl in Hr; injection Hr as Hr; symmetry in Hr; clear Hl
  end.

Section total.
Context `{DecodeTotal A, DecodeTotal B, DecodeTotal C, DecodeTotal D}.

#[export] Instance tuple2_total : DecodeTotal (A * B).
Proof.
  intros bytes. cbn [from_ssz_bytes tuple2_decode].
  destruct (container_split_total [type_of A; type_of B] bytes) as [Hn Hl].
  destruct (container_split _ _) as [items|e| |]; [|done..]. specialize (Hl items eq_refl). cbn [length] in Hl. rewrite bind_Ok.
  do 2 decode_field. done.
Qed.

#[export] Instance tuple3_total : DecodeTotal (A * B * C) | 0.
Proof.
  intros bytes. cbn [from_ssz_bytes tuple3_decode].
  destruct (container_split_total [type_of A; type_of B; type_of C] bytes) as [Hn Hl].
  destruct (container_split _ _) as [items|e| |]; [|done..]. specialize (Hl items eq_refl). cbn [length] in Hl. rewrite bind_Ok.
  do 3 decode_field. done.
Qed.

#[export] Instance tuple4_total : DecodeTotal (A * B * C * D) | 0.
Proof.
  intros bytes. cbn [from_ssz_bytes tuple4_decode].
  destruct (container_split_total [type_of A; type_of B; type_of C; type_of D] bytes) as [Hn Hl].
  destruct (container_split _ _) as [items|e| |]; [|done..]. specialize (Hl items eq_refl). cbn [length] in Hl. rewrite bind_Ok.
  do 4 decode_field. done.
Qed.

Lemma decode_all_total (slices : list (list Z)) : no_panic (decode_all (T := A) slices).
Proof.
  induction slices as [|s slices IH]; [done|]. cbn [decode_all]. apply no_panic_bind; [apply decode_total|].
  intros x _. apply no_panic_bind; [done|]. by intros xs _.
Qed.

(** The loop stays within the part that holds the offsets. *)
Lemma decode_items_total bytes first n i o :
  i + n ≤ S (first / 4) → first ≤ length bytes → no_panic (decode_items (T := A) bytes first n i o).
Proof.
  revert i o. induction n as [|n IH]; intros i o Hi Hf; [done|]. cbn [decode_items].
  assert (∀ so : option (list Z) * nat, no_panic (slice ← or_err so.1 (OutOfBoundsByte so.2); x ← from_ssz_bytes slice;
    xs ← decode_items (T := A) bytes first n (i + 1) so.2; Ok (x :: xs))) as Hrest.
  { intros so. apply no_panic_bind; [apply or_err_total|]. intros sl _. apply no_panic_bind; [apply decode_total|].
    intros x _. apply no_panic_bind; [apply IH; [lia|done]|]. by intros xs _. }
  apply no_panic_bind; [|by intros so _].
  case_bool_decide as Hn; [done|]. unfold get_from, BYTES_PER_LENGTH_OFFSET.
  assert (i * 4 ≤ length bytes) as Hle.
  { assert (i ≤ first / 4) as Hi' by lia. apply (Nat.mul_le_mono_r _ _ 4) in Hi'.
    pose proof (Nat.Div0.mul_div_le first 4). lia. }
  rewrite bool_decide_true by done. cbn [expect]. rewrite bind_Ok.
  apply no_panic_bind; [apply read_offset_total|]. intros r _. apply no_panic_bind; [apply sanitize_total|]. by intros o' _.
Qed.

Lemma decode_list_total bytes max : no_panic (decode_list_of_variable_length_items (T := A) bytes max).
Proof.
  unfold decode_list_of_variable_length_items. destruct bytes as [|b bs] eqn:Hb; [done|]. rewrite <- Hb. clear Hb.
  apply no_panic_bind; [apply read_offset_total|]. intros first _. apply no_panic_bind; [apply sanitize_total|].
  intros first' (-> & Hle & _)%sanitize_Ok. destruct (_ || _); [done|]. destruct (match max with Some _ => _ | None => _ end); [done|].
  apply decode_items_total; [|done]. unfold BYTES_PER_LENGTH_OFFSET. lia.
Qed.

(** Items of fixed length must not be empty. *)
Lemma vec_total : (dec_fixed A = true → dec_fixed_len A ≠ 0) → DecodeTotal (list A).
Proof.
  intros Hlen bytes. unfold from_ssz_bytes. cbn [vec_decode]. destruct bytes as [|b bs] eqn:Hb; [done|]. rewrite <- Hb.
  destruct (dec_fixed A); [|apply decode_list_total]. rewrite bool_decide_false by (by apply Hlen). apply decode_all_total.
Qed.

#[export] Instance option_total : DecodeTotal (option A).
Proof.
  intros bytes. unfold from_ssz_bytes. cbn [option_decode]. apply no_panic_bind.
  - unfold split_union_bytes. apply no_panic_bind; [apply or_err_total|]. intros b _. apply no_panic_bind.
    + unfold union_selector_new. by destruct (_ <=? _)%Z.
    + intros s _. apply no_panic_bind; [apply or_err_total|]. by intros body _.
  - intros [s body] _. cbn. destruct (s =? 0)%Z; [done|]. destruct (s =? 1)%Z; [|done].
    apply no_panic_bind; [apply decode_total|]. by intros x _.
Qed.

End total.

(** ** Structs, encoded as the tuple of their fields *)

Lemma encode_as_lawful `{SszLawful T ok} {A} (f : A → T) (g : T → A) :
  (∀ x, g (f x) = x) → SszLawful A (H := encode_as f) (H0 := decode_as g) (λ x, ok (f x)).
Proof.
  intros Hgf. split.
  - apply (ssz_same_fixed (T := T)).
  - apply (ssz_same_len (T := T)).
  - intros x buf. apply (ssz_append_app (f x)).
  - intros x. apply (ssz_fixed_len_ok (f x)).
  - intros x Hx. cbn. fold (as_ssz_bytes (f x)). change (as_ssz_bytes (H := encode_as f) x) with (as_ssz_bytes (f x)).
    rewrite (ssz_roundtrip (f x) Hx), bind_Ok. by rewrite Hgf.
Qed.

Lemma decode_as_total `{DecodeTotal T} {A} (g : T → A) : DecodeTotal A (H := decode_as g).
Proof. intros bytes. cbn. apply no_panic_bind; [apply decode_total|]. by intros x _. Qed.

(** ** Sizes *)

Lemma length_container fields :
  Forall field_ok fields → length (container_append fields []) = fixed_len_sum fields + length (var_part fields).
Proof. intros Hok. rewrite container_append_spec by done. cbn [app]. by rewrite length_app, length_fixed_part. Qed.

Lemma length_vec_fixed `{SszLawful T ok} (l : list T) :
  enc_fixed T = true → length (as_ssz_bytes l) = enc_fixed_len T * length l.
Proof.
  intros Hf. unfold as_ssz_bytes. cbn [ssz_append vec_encode]. rewrite Hf, fixed_list_append. cbn [app].
  induction l as [|x l IH]; [cbn; lia|]. cbn [fmap list_fmap concat length]. rewrite length_app, IH.
  pose proof (ssz_fixed_len_ok x) as Hx. rewrite Hf in Hx. lia.
Qed.

Lemma length_vec_var `{SszLawful T ok} (l : list T) :
  enc_fixed T = false → length (as_ssz_bytes l) = 4 * length l + length (concat (as_ssz_bytes <$> l)).
Proof.
  intros Hv. unfold as_ssz_bytes at 1. rewrite var_list_append by done. fold (var_fields l).
  rewrite container_append_spec by apply var_fields_ok. cbn [app].
  by rewrite length_app, var_fixed_part_length, var_part_var_fields.
Qed.
