(* ===== verification/SszCanonical.v ===== *)
(** The decoder accepts only canonical encodings: if bytes decode to a value,
    they are the encoding of that value.  With the round trip and the absence of
    panics this makes every type built from integers, hashes, arrays, tuples,
    lists and structs a one-to-one code. *)

From S2P Require Import Prelude HashElement Ssz SszFacts.

Definition is_byte (b : Z) : Prop := (0 <= b < 256)%Z.

Class SszCanonical (T : Type) `{Encode T, Decode T} : Prop :=
  ssz_canonical : ∀ bytes (x : T), Forall is_byte bytes → from_ssz_bytes bytes = Ok x → as_ssz_bytes x = bytes.

(** ** Integers and arrays *)

Lemma to_from_le l : Forall is_byte l → to_le (length l) (from_le l) = l.
Proof.
  unfold is_byte. induction 1 as [|b l Hb Hl IH]; [done|]. cbn [length to_le from_le foldr]. fold (from_le l). f_equal.
  - rewrite Z.mul_comm, Z.mod_add by lia. by apply Z.mod_small.
  - rewrite Z.mul_comm, Z.div_add, Z.div_small by lia. exact IH.
Qed.

Lemma from_le_bound l : Forall is_byte l → (0 <= from_le l < 256 ^ Z.of_nat (length l))%Z.
Proof.
  unfold is_byte. induction 1 as [|b l Hb Hl IH]; [cbn; lia|]. cbn [length from_le foldr]. fold (from_le l).
  rewrite Nat2Z.inj_succ, Z.pow_succ_r by lia. lia.
Qed.

Lemma uint_canonical n : SszCanonical Z (H := uint_encode n) (H0 := uint_decode n).
Proof.
  intros bytes x Hb. cbn. case_bool_decide as Hl; [done|]. intros [= <-]. unfold as_ssz_bytes. cbn.
  replace n with (length bytes) by lia. by apply to_from_le.
Qed.

#[export] Instance u8_canonical : SszCanonical u8 := uint_canonical 1.
#[export] Instance u16_canonical : SszCanonical u16 := uint_canonical 2.
#[export] Instance u32_canonical : SszCanonical u32 := uint_canonical 4.
#[export] Instance u64_canonical : SszCanonical u64 := uint_canonical 8.
#[export] Instance usize_canonical : SszCanonical usize := uint_canonical 8.
#[export] Instance u128_canonical : SszCanonical u128 := uint_canonical 16.
#[export] Instance u256_canonical : SszCanonical u256 := uint_canonical 32.

#[export] Instance nonzero_canonical : SszCanonical NonZeroUsize.
Proof.
  intros bytes x Hb Hx. apply bind_Ok_inv in Hx as (y & Hy & Hx). destruct (y =? 0)%Z; [done|]. injection Hx as ->.
  exact (usize_canonical bytes x Hb Hy).
Qed.

#[export] Instance bool_canonical : SszCanonical bool.
Proof.
  intros [|b [|c r]] x _; cbn; [done| |done]. destruct (Z.eqb_spec b 0) as [->|]; [by intros [= <-]|].
  destruct (Z.eqb_spec b 1) as [->|]; [by intros [= <-]|done].
Qed.

Lemma array_from_list {A} n (l : list A) v : array_from n l = Some v → vec_to_list v = l.
Proof.
  unfold array_from. case_decide as Hl; [|done]. intros [= <-]. destruct Hl. cbn. apply vec_to_list_to_vec.
Qed.

Lemma u8_array_canonical n : SszCanonical (vec Z n) (H := u8_array_encode n) (H0 := u8_array_decode n).
Proof.
  intros bytes x _. cbn. destruct (array_from n bytes) as [v|] eqn:Hv; [|done]. intros [= <-].
  by apply array_from_list in Hv.
Qed.

#[export] Instance h256_canonical : SszCanonical H256 := u8_array_canonical 32.
#[export] Instance h160_canonical : SszCanonical H160 := u8_array_canonical 20.

(** ** Containers *)

(** What the decoder reads of the fixed part: the fields, or their offsets. *)
Fixpoint fixed_raw (types : list (bool * nat)) (its : list (list Z)) (offs : list nat) : list Z :=
  match types, its with
  | (true, _) :: types', it :: its' => it ++ fixed_raw types' its' offs
  | (false, _) :: types', _ :: its' =>
      match offs with
      | o :: offs' => encode_length o ++ fixed_raw types' its' offs'
      | [] => []
      end
  | _, _ => []
  end.

Fixpoint raw_offsets (k : nat) (types : list (bool * nat)) (offs : list nat) : list Offset :=
  match types, offs with
  | (true, _) :: types', _ => raw_offsets (k + 1) types' offs
  | (false, _) :: types', o :: offs' => Offset_mk k o :: raw_offsets (k + 1) types' offs'
  | _, _ => []
  end.

Definition num_var (types : list (bool * nat)) : nat := length (filter (λ t, t.1 = false) types).

(** The layout of a container whose variable part begins at [o]. *)
Fixpoint layout (o : nat) (types : list (bool * nat)) (its : list (list Z)) : list Z :=
  match types, its with
  | (true, _) :: types', it :: its' => it ++ layout o types' its'
  | (false, _) :: types', it :: its' => encode_length o ++ layout (o + length it) types' its'
  | _, _ => []
  end.

Fixpoint layout_var (types : list (bool * nat)) (its : list (list Z)) : list Z :=
  match types, its with
  | (fixed, _) :: types', it :: its' => (if fixed then [] else it) ++ layout_var types' its'
  | _, _ => []
  end.

Lemma get_slice_inv (bytes : list Z) a b s :
  get_slice bytes a b = Some s → a ≤ b ≤ length bytes ∧ drop a bytes = s ++ drop b bytes ∧ length s = b - a.
Proof.
  unfold get_slice. case_bool_decide as Hab; [|done]. intros [= <-]. split; [done|].
  split; [|rewrite length_take, length_drop; lia].
  rewrite <- (take_drop (b - a) (drop a bytes)) at 1. rewrite drop_drop. by replace (a + (b - a)) with b by lia.
Qed.

Lemma get_from_inv (bytes : list Z) a s : get_from bytes a = Some s → a ≤ length bytes ∧ s = drop a bytes.
Proof. unfold get_from. case_bool_decide; [|done]. by intros [= <-]. Qed.

Lemma read_offset_inv bytes o :
  Forall is_byte bytes → read_offset bytes = Ok o → bytes = encode_length o ++ drop 4 bytes.
Proof.
  intros Hb. unfold read_offset, BYTES_PER_LENGTH_OFFSET. destruct (get_slice bytes 0 4) as [s|] eqn:Hs; [|done].
  apply get_slice_inv in Hs as (Hle & Hd & Hl). rewrite drop_0 in Hd. cbn [or_err]. rewrite bind_Ok. unfold decode_offset.
  case_bool_decide; [done|]. intros [= <-]. rewrite Hd at 1. f_equal.
  assert (Forall is_byte s) as Hbs by (rewrite Hd in Hb; by apply Forall_app in Hb as [? _]).
  pose proof (from_le_bound s Hbs) as Hr. rewrite encode_length_to_le, Z2Nat.id by lia.
  rewrite <- (to_from_le s Hbs) at 1. by rewrite Hl.
Qed.

(** One field. *)
Lemma register_inv b t b1 :
  Forall is_byte (db_bytes b) → register_type_parameterized t.1 t.2 b = Ok b1 → items_index b ≤ length (db_bytes b) →
  db_bytes b1 = db_bytes b ∧ ∃ it offs,
    db_items b1 = db_items b ++ [it] ∧ length offs = num_var [t] ∧
    db_offsets b1 = db_offsets b ++ raw_offsets (length (db_items b)) [t] offs ∧
    items_index b1 = items_index b + length (fixed_raw [t] [it] offs) ∧
    drop (items_index b) (db_bytes b) = fixed_raw [t] [it] offs ++ drop (items_index b1) (db_bytes b) ∧
    items_index b1 ≤ length (db_bytes b).
Proof.
  destruct t as [[] n]; intros Hb Hr Hi; unfold register_type_parameterized in Hr; cbn [fst snd] in Hr.
  - destruct (get_slice _ _ _) as [s|] eqn:Hs; [|done]. cbn in Hr. injection Hr as <-. cbn.
    apply get_slice_inv in Hs as (Hle & Hd & Hl). split; [done|]. exists s, []. cbn. rewrite !app_nil_r.
    split_and!; [done|done|done|lia|done|lia].
  - unfold get_from in Hr. rewrite bool_decide_true in Hr by done. cbn [expect] in Hr. rewrite bind_Ok in Hr.
    apply bind_Ok_inv in Hr as (o & Ho & Hr). apply bind_Ok_inv in Hr as (o' & Hs & Hr).
    pose proof (read_offset_Ok _ _ Ho) as Hl4. rewrite length_drop in Hl4.
    apply sanitize_Ok in Hs as (-> & _ & _). injection Hr as <-. cbn [db_bytes db_items db_offsets items_index].
    apply read_offset_inv in Ho; [|by apply Forall_drop]. rewrite drop_drop in Ho.
    split; [done|]. exists [], [o]. cbn [fixed_raw raw_offsets num_var]. rewrite app_nil_r, length_encode_length.
    unfold BYTES_PER_LENGTH_OFFSET. split_and!; [done|done|done|lia|done|lia].
Qed.

Lemma num_var_cons t types : num_var (t :: types) = num_var [t] + num_var types.
Proof. destruct t as [[] n]; done. Qed.

Lemma fixed_raw_cons t types it its offs offs' :
  length offs = num_var [t] → fixed_raw (t :: types) (it :: its) (offs ++ offs') = fixed_raw [t] [it] offs ++ fixed_raw types its offs'.
Proof.
  destruct t as [[] n]; intros Hl.
  - apply nil_length_inv in Hl as ->. cbn [fixed_raw app]. by rewrite app_nil_r.
  - destruct offs as [|o [|? ?]]; [done| |done]. cbn [fixed_raw app]. by rewrite app_nil_r.
Qed.

Lemma raw_offsets_cons k t types offs offs' :
  length offs = num_var [t] → raw_offsets k (t :: types) (offs ++ offs') = raw_offsets k [t] offs ++ raw_offsets (k + 1) types offs'.
Proof.
  destruct t as [[] n]; cbn; intros Hl.
  - by apply nil_length_inv in Hl as ->.
  - destruct offs as [|o [|? ?]]; [done| |done]. done.
Qed.

Lemma register_types_inv types b b' :
  Forall is_byte (db_bytes b) → register_types types b = Ok b' → items_index b ≤ length (db_bytes b) →
  db_bytes b' = db_bytes b ∧ ∃ its offs,
    db_items b' = db_items b ++ its ∧ length its = length types ∧ length offs = num_var types ∧
    db_offsets b' = db_offsets b ++ raw_offsets (length (db_items b)) types offs ∧
    items_index b' = items_index b + length (fixed_raw types its offs) ∧
    drop (items_index b) (db_bytes b) = fixed_raw types its offs ++ drop (items_index b') (db_bytes b).
Proof.
  revert b. induction types as [|t types IH]; intros b Hb Hr Hi; cbn [register_types] in Hr.
  { injection Hr as <-. split; [done|]. exists [], []. cbn. rewrite !app_nil_r. split_and!; (done || lia). }
  apply bind_Ok_inv in Hr as (b1 & H1 & Hr).
  destruct (register_inv b t b1 Hb H1 Hi) as (Hbb & it & offs & Hit & Hlo & Hoff & Hidx & Hd & Hle).
  rewrite <- Hbb in Hb. destruct (IH b1 Hb Hr) as (Hbb' & its & offs' & Hits & Hlen & Hlo' & Hoff' & Hidx' & Hd'); [by rewrite Hbb|].
  split; [by rewrite Hbb'|]. exists (it :: its), (offs ++ offs').
  rewrite fixed_raw_cons, raw_offsets_cons, num_var_cons, length_app by done. split_and!.
  - by rewrite Hits, Hit, <- app_assoc.
  - cbn. by rewrite Hlen.
  - by rewrite Hlo, Hlo'.
  - rewrite Hoff', Hoff, Hit, length_app, <- app_assoc. done.
  - rewrite length_app. lia.
  - rewrite Hbb in Hd'. by rewrite Hd, Hd', <- app_assoc.
Qed.

Lemma raw_offsets_head k types offs :
  length offs = num_var types → off_offset <$> raw_offsets k types offs = offs.
Proof.
  revert k offs. induction types as [|[[] n] types IH]; intros k offs Hl; cbn [raw_offsets].
  - by apply nil_length_inv in Hl as ->.
  - by apply IH.
  - destruct offs as [|o offs]; [done|]. injection Hl as Hl. cbn. by rewrite IH.
Qed.

(** Filling in the variable fields: their slices follow each other. *)
Lemma fill_items_inv bytes types pre its offs res :
  length its = length types → length offs = num_var types →
  fill_items bytes (raw_offsets (length pre) types offs) (pre ++ its) = Ok res →
  ∃ its', res = pre ++ its' ∧ length its' = length types ∧
    match offs with
    | [] => ∀ o, fixed_raw types its offs = layout o types its' ∧ layout_var types its' = []
    | o :: _ => fixed_raw types its offs = layout o types its' ∧ drop o bytes = layout_var types its'
    end.
Proof.
  revert pre its offs. induction types as [|[fixed n] types IH]; intros pre its offs Hl Hlo Hf.
  { apply nil_length_inv in Hl as ->. apply nil_length_inv in Hlo as ->. injection Hf as <-. by exists []. }
  destruct its as [|it its]; [done|]. injection Hl as Hl. destruct fixed.
  - cbn [raw_offsets] in Hf. specialize (IH (pre ++ [it]) its offs Hl Hlo). rewrite length_app, <- app_assoc in IH.
    destruct (IH Hf) as (its' & -> & Hl' & Ho). exists (it :: its'). rewrite <- app_assoc. split; [done|].
    split; [cbn; by rewrite Hl'|]. destruct offs as [|o offs]; cbn [fixed_raw layout layout_var app].
    + intros o. destruct (Ho o) as [-> ->]. done.
    + destruct Ho as [-> ->]. done.
  - destruct offs as [|o offs]; [done|]. injection Hlo as Hlo. cbn [raw_offsets fill_items off_offset off_position] in Hf.
    apply bind_Ok_inv in Hf as (s & Hs & Hf). case_bool_decide; [|done].
    assert (<[length pre := s]> (pre ++ it :: its) = (pre ++ [s]) ++ its) as Hins.
    { rewrite insert_app_r_alt by lia. by rewrite Nat.sub_diag, <- app_assoc. }
    rewrite Hins in Hf. specialize (IH (pre ++ [s]) its offs Hl Hlo). rewrite length_app in IH.
    destruct (IH Hf) as (its' & -> & Hl' & Ho). exists (s :: its'). rewrite <- app_assoc. split; [done|].
    split; [cbn; by rewrite Hl'|]. cbn [fixed_raw layout layout_var].
    pose proof (raw_offsets_head (length pre + 1) types offs Hlo) as Hhd.
    destruct (raw_offsets (length pre + 1) types offs) as [|c rest], offs as [|o' offs]; try discriminate Hhd.
    + destruct (get_from bytes o) as [s'|] eqn:Hg; [|done]. injection Hs as ->. apply get_from_inv in Hg as [_ ->].
      destruct (Ho (o + length (drop o bytes))) as [-> ->]. by rewrite app_nil_r.
    + injection Hhd as Hc _. rewrite Hc in Hs. destruct (get_slice bytes o o') as [s'|] eqn:Hg; [|done]. injection Hs as ->.
      apply get_slice_inv in Hg as (Hle & Hd & Hls). destruct Ho as [-> <-]. split; [|done].
      by replace (o + length s) with o' by lia.
Qed.

Lemma container_split_inv types bytes its :
  Forall is_byte bytes → container_split types bytes = Ok its →
  length its = length types ∧ ∃ o, o = length (layout o types its) ∧ bytes = layout o types its ++ layout_var types its.
Proof.
  intros Hb Hs. split; [by apply (container_split_total types bytes)|]. unfold container_split in Hs.
  apply bind_Ok_inv in Hs as (b & Hr & Hs).
  destruct (register_types_inv types (builder_new bytes) b Hb Hr) as (Hbb & raw & offs & Hit & Hlen & Hlo & Hoff & Hidx & Hd); [cbn; lia|].
  cbn [db_bytes db_items db_offsets items_index builder_new app length Nat.add] in *. rewrite drop_0 in Hd.
  pose proof (raw_offsets_head 0 types offs Hlo) as Hhd. unfold builder_build in Hs. rewrite Hbb, Hit, Hoff in Hs.
  pose proof (fill_items_inv bytes types [] raw offs its Hlen Hlo) as Hfill. cbn [length app] in Hfill.
  exists (items_index b). destruct (raw_offsets 0 types offs) as [|a rest], offs as [|o offs]; try discriminate Hhd.
  - case_bool_decide as Hl; [done|]. injection Hs as <-. destruct (Hfill eq_refl) as (its' & -> & _ & Ho).
    destruct (Ho (items_index b)) as [Hfix ->]. rewrite <- Hfix, app_nil_r. split; [done|].
    rewrite Hd at 1. by rewrite drop_ge, app_nil_r by lia.
  - injection Hhd as Ha _. case_bool_decide; [done|]. case_bool_decide; [done|]. assert (off_offset a = items_index b) as Hab by lia.
    destruct (Hfill Hs) as (its' & -> & _ & Hfix & Hv). assert (o = items_index b) as -> by lia.
    rewrite <- Hfix, <- Hv. split; [lia|done].
Qed.

Lemma layout_fields o fields : layout o (ftype <$> fields) (fbytes <$> fields) = fixed_part o fields.
Proof.
  revert o. induction fields as [|f fs IH]; intros o; [done|]. cbn [fmap list_fmap layout fixed_part]. unfold ftype at 1.
  by destruct (fld_fixed f); rewrite IH.
Qed.

Lemma layout_var_fields fields : layout_var (ftype <$> fields) (fbytes <$> fields) = var_part fields.
Proof.
  induction fields as [|f fs IH]; [done|]. cbn [fmap list_fmap layout_var]. rewrite var_part_cons. unfold ftype at 1. rewrite IH.
  by destruct (fld_fixed f).
Qed.

(** The bytes of a container are determined by the bytes of its fields. *)
Lemma container_split_canonical fields bytes :
  Forall field_ok fields → Forall is_byte bytes →
  container_split (ftype <$> fields) bytes = Ok (fbytes <$> fields) → container_append fields [] = bytes.
Proof.
  intros Hok Hb Hs. apply container_split_inv in Hs as (_ & o & Ho & Hbytes); [|done].
  rewrite layout_fields, layout_var_fields in Hbytes. rewrite layout_fields, length_fixed_part in Ho by done.
  rewrite container_append_spec by done. by rewrite Hbytes, Ho.
Qed.

Lemma layout_bytes o types its :
  length its = length types → Forall is_byte (layout o types its) → Forall is_byte (layout_var types its) →
  Forall (Forall is_byte) its.
Proof.
  revert o its. induction types as [|[[] n] types IH]; intros o [|it its] Hl Hf Hv; try done; cbn [layout layout_var app] in Hf, Hv;
    injection Hl as Hl; apply Forall_app in Hf as [Hit Hf].
  - constructor; [done|]. by apply (IH o).
  - apply Forall_app in Hv as [Hit' Hv]. constructor; [done|]. by apply (IH (o + length it)).
Qed.

Lemma split_items_bytes types bytes its :
  Forall is_byte bytes → container_split types bytes = Ok its → Forall (Forall is_byte) its.
Proof.
  intros Hb Hs. destruct (container_split_inv types bytes its Hb Hs) as (Hl & o & _ & Hbytes). rewrite Hbytes in Hb.
  apply Forall_app in Hb as [Hf Hv]. by apply (layout_bytes o types).
Qed.

Lemma decode_next_inv `{SszCanonical T} its (p : T * list (list Z)) :
  Forall (Forall is_byte) its → decode_next its = Ok p → its = as_ssz_bytes p.1 :: p.2 ∧ Forall (Forall is_byte) p.2.
Proof.
  intros Hb. destruct its as [|it its]; [done|]. cbn. intros (x & Hx & Hp)%bind_Ok_inv. injection Hp as <-.
  apply Forall_cons in Hb as [Hit Hb]. cbn. by rewrite (ssz_canonical it x Hit Hx).
Qed.

(** Reads the items of a tuple one by one. *)
Ltac tuple_item Hx Hits :=
  let p := fresh "p" in let Hp := fresh in let Heq := fresh in
  apply bind_Ok_inv in Hx as (p & Hp & Hx); apply decode_next_inv in Hp as [Heq Hp]; [|exact Hits]; clear Hits;
  rename Hp into Hits; rewrite Heq in *; clear Heq.

Ltac tuple_done Hs Hx fields :=
  let Hl := fresh in let p := fresh in
  pose proof (proj2 (container_split_total _ _) _ Hs) as Hl; cbn [length] in Hl;
  match type of Hl with context [length ?rest] => destruct rest as [|p ?]; [clear Hl|exfalso; cbn [length] in Hl; lia] end;
  injection Hx as <-; apply (container_split_canonical fields); [repeat constructor; apply field_of_ok|done|];
  cbn [fmap list_fmap]; rewrite !ftype_field_of, !fbytes_field_of; exact Hs.

Section tuples.
Context `{SszLawful A okA, SszLawful B okB, SszLawful C okC, SszLawful D okD}.
Context `{!SszCanonical A, !SszCanonical B, !SszCanonical C, !SszCanonical D}.

#[export] Instance tuple2_canonical : SszCanonical (A * B).
Proof.
  intros bytes x Hb. cbn [from_ssz_bytes tuple2_decode]. intros (its & Hs & Hx)%bind_Ok_inv.
  pose proof (split_items_bytes _ _ _ Hb Hs) as Hits. do 2 tuple_item Hx Hits.
  tuple_done Hs Hx [field_of p.1; field_of p0.1].
Qed.

#[export] Instance tuple3_canonical : SszCanonical (A * B * C) | 0.
Proof.
  intros bytes x Hb. cbn [from_ssz_bytes tuple3_decode]. intros (its & Hs & Hx)%bind_Ok_inv.
  pose proof (split_items_bytes _ _ _ Hb Hs) as Hits. do 3 tuple_item Hx Hits.
  tuple_done Hs Hx [field_of p.1; field_of p0.1; field_of p1.1].
Qed.

#[export] Instance tuple4_canonical : SszCanonical (A * B * C * D) | 0.
Proof.
  intros bytes x Hb. cbn [from_ssz_bytes tuple4_decode]. intros (its & Hs & Hx)%bind_Ok_inv.
  pose proof (split_items_bytes _ _ _ Hb Hs) as Hits. do 4 tuple_item Hx Hits.
  tuple_done Hs Hx [field_of p.1; field_of p0.1; field_of p1.1; field_of p2.1].
Qed.

End tuples.

(** ** Lists *)

Section lists.
Context `{SszLawful T ok, !SszCanonical T}.
Implicit Types (l : list T) (bytes : list Z).

Lemma decode_all_inv slices l :
  Forall (Forall is_byte) slices → decode_all slices = Ok l → as_ssz_bytes <$> l = slices.
Proof.
  intros Hb. revert l. induction Hb as [|s slices Hs Hb IH]; intros l; cbn [decode_all]; [by intros [= <-]|].
  intros (x & Hx & Hl)%bind_Ok_inv. apply bind_Ok_inv in Hl as (xs & Hxs & Hl). injection Hl as <-.
  cbn. by rewrite (ssz_canonical s x Hs Hx), (IH xs Hxs).
Qed.

Lemma concat_chunks fuel n bytes : 0 < n → length bytes ≤ fuel → concat (chunks fuel n bytes) = bytes.
Proof.
  intros Hn. revert bytes. induction fuel as [|fuel IH]; intros [|b bytes] Hl; [done|cbn in Hl; lia|done|].
  cbn [chunks concat]. rewrite IH; [apply take_drop|]. rewrite length_drop. cbn [length] in *. lia.
Qed.

Lemma chunks_bytes fuel n bytes : Forall is_byte bytes → Forall (Forall is_byte) (chunks fuel n bytes).
Proof.
  revert bytes. induction fuel as [|fuel IH]; intros [|b bytes] Hb; [done..|]. cbn [chunks].
  constructor; [by apply Forall_take|]. apply IH. by apply Forall_drop.
Qed.

(** The loop: the offsets that follow, and the items from [o] on. *)
Lemma decode_items_inv bytes first n i o l :
  enc_fixed T = false → Forall is_byte bytes → decode_items bytes first (S n) i o = Ok l →
  drop o bytes = concat (as_ssz_bytes <$> l) ∧ ∃ x l', l = x :: l' ∧ length l' = n ∧
    drop (4 * i) bytes = fixed_part (o + length (as_ssz_bytes x)) (var_fields l') ++ drop (4 * (i + n)) bytes.
Proof.
  intros Hv Hb. revert i o l. induction n as [|n IH]; intros i o l.
  - cbn [decode_items]. rewrite bool_decide_true by done. rewrite bind_Ok. cbn [fst snd].
    destruct (get_from bytes o) as [s|] eqn:Hs; [|done]. cbn [or_err]. rewrite bind_Ok. apply get_from_inv in Hs as [_ ->].
    intros (x & Hx & Hl)%bind_Ok_inv. injection Hl as <-. apply ssz_canonical in Hx; [|by apply Forall_drop].
    cbn [fmap list_fmap concat]. rewrite Hx, app_nil_r. split; [done|]. exists x, []. split; [done|]. split; [done|].
    cbn [var_fields fmap list_fmap fixed_part app]. by rewrite Nat.add_0_r.
  - intros Hl. remember (S n) as m eqn:Hm. cbn [decode_items] in Hl. rewrite (bool_decide_false (m = 0)) in Hl by lia.
    apply bind_Ok_inv in Hl as (so & Hso & Hl). unfold get_from in Hso. case_bool_decide as Hi; [|done]. cbn [expect] in Hso.
    rewrite bind_Ok in Hso. apply bind_Ok_inv in Hso as (next & Hnext & Hso). apply bind_Ok_inv in Hso as (o' & Hsan & Hso).
    apply sanitize_Ok in Hsan as (-> & _ & _). injection Hso as <-. cbn [fst snd] in Hl.
    destruct (get_slice bytes o next) as [s|] eqn:Hs; [|done]. cbn [or_err] in Hl. rewrite bind_Ok in Hl.
    apply get_slice_inv in Hs as (Hle & Hd & Hls). apply bind_Ok_inv in Hl as (x & Hx & Hl). apply bind_Ok_inv in Hl as (xs & Hxs & Hl).
    injection Hl as <-. apply ssz_canonical in Hx; [|apply (Forall_drop _ o) in Hb; rewrite Hd in Hb; by apply Forall_app in Hb as [? _]].
    subst m. destruct (IH (i + 1) next xs Hxs) as (Hdn & y & l' & -> & Hlen & Hdi). cbn [fmap list_fmap concat] in *.
    split; [by rewrite Hd, Hdn, Hx|]. exists x, (y :: l'). split; [done|]. split; [cbn; by rewrite Hlen|].
    apply read_offset_inv in Hnext; [|by apply Forall_drop]. rewrite drop_drop in Hnext. unfold BYTES_PER_LENGTH_OFFSET in Hnext.
    replace (4 * i) with (i * 4) by lia. rewrite Hnext. replace (i * 4 + 4) with (4 * (i + 1)) by lia. rewrite Hdi.
    cbn [var_fields fmap list_fmap fixed_part fld_fixed field_of]. rewrite Hv, fbytes_field_of, Hx, Hls, <- app_assoc.
    replace (o + (next - o)) with next by lia. by replace (i + 1 + n) with (i + S n) by lia.
Qed.

Lemma vec_canonical : item_type T → SszCanonical (list T).
Proof.
  intros Hitem bytes l Hb. unfold from_ssz_bytes. cbn [vec_decode]. rewrite ssz_same_fixed, ssz_same_len.
  destruct (enc_fixed T) eqn:Hf.
  - specialize (Hitem Hf). rewrite (bool_decide_false (enc_fixed_len T = 0)) by lia. intros Hl.
    assert (as_ssz_bytes l = concat (as_ssz_bytes <$> l)) as ->.
    { unfold as_ssz_bytes at 1. cbn [ssz_append vec_encode]. rewrite Hf. by rewrite fixed_list_append. }
    destruct bytes as [|b bs]; [by injection Hl as <-|].
    rewrite (decode_all_inv _ l (chunks_bytes _ _ _ Hb) Hl). by apply concat_chunks.
  - destruct bytes as [|b bs] eqn:Hbs; [intros [= <-]; unfold as_ssz_bytes; by rewrite var_list_append|]. rewrite <- Hbs in *.
    intros Hl. unfold decode_list_of_variable_length_items in Hl. rewrite Hbs in Hl at 1.
    apply bind_Ok_inv in Hl as (first & Hfirst & Hl). apply bind_Ok_inv in Hl as (o & _ & Hl).
    unfold BYTES_PER_LENGTH_OFFSET in Hl.
    destruct (bool_decide_reflect (first `mod` 4 ≠ 0)) as [|Hmod]; [done|]. destruct (bool_decide_reflect (first < 4)) as [|H4]; [done|].
    cbn [orb] in Hl. assert (∃ n, first = 4 * S n) as [n ->].
    { exists (pred (first / 4)). pose proof (Nat.div_mod first 4). destruct (decide (first `mod` 4 = 0)); [lia|done]. }
    rewrite (Nat.mul_comm 4), Nat.div_mul in Hl by done. rewrite (Nat.mul_comm _ 4) in Hl.
    destruct (decode_items_inv _ _ _ _ _ _ Hf Hb Hl) as (Hd & x & l' & -> & Hlen & Hd4).
    apply read_offset_inv in Hfirst; [|done]. unfold as_ssz_bytes. rewrite var_list_append by done. fold (var_fields (x :: l')).
    rewrite container_append_spec by apply var_fields_ok. cbn [app]. rewrite var_part_var_fields by done.
    assert (fixed_len_sum (var_fields (x :: l')) = 4 * S n) as ->.
    { rewrite <- (length_fixed_part 0) by apply var_fields_ok. rewrite var_fixed_part_length by done. cbn [length]. by rewrite Hlen. }
    cbn [var_fields fmap list_fmap fixed_part fld_fixed field_of]. rewrite Hf, fbytes_field_of. fold (var_fields l').
    rewrite Hfirst, <- app_assoc. f_equal.
    change (1 + n) with (S n) in Hd4. rewrite Hd in Hd4. exact (eq_sym Hd4).
Qed.
End lists.

Lemma encode_as_canonical `{SszCanonical T} {A} (f : A → T) (g : T → A) :
  (∀ y, f (g y) = y) → SszCanonical A (H := encode_as f) (H0 := decode_as g).
Proof.
  intros Hfg bytes x Hb. cbn. intros (y & Hy & Hx)%bind_Ok_inv. injection Hx as <-.
  change (as_ssz_bytes (f (g y)) = bytes). rewrite Hfg. by apply ssz_canonical.
Qed.

(** ** Codecs *)

(** Everything at once: the round trip, no panics, only canonical encodings. *)
Class SszCodec (T : Type) `{Encode T, Decode T} (ok : T → Prop) : Prop := {
  codec_lawful :: SszLawful T ok;
  codec_total :: DecodeTotal T;
  codec_canonical :: SszCanonical T;
}.

Class FieldsCodec (T : Type) `{Fields T} (ok : T → Prop) : Prop := {
  fc_fields : ∀ x : T, Forall field_ok (fields_of x);
  fc_types : ∀ x : T, ftype <$> fields_of x = fields_dec_types T;
  fc_same : fields_dec_types T = fields_enc_types T;
  fc_roundtrip : ∀ x : T, ok x → fields_decode (fbytes <$> fields_of x) = Ok x;
  fc_total : ∀ items, length items = length (fields_dec_types T) → no_panic (fields_decode (T := T) items);
  fc_canonical : ∀ items (x : T), Forall (Forall is_byte) items → length items = length (fields_dec_types T) →
    fields_decode items = Ok x → fbytes <$> fields_of x = items;
}.

#[export] Instance fields_nil_codec : FieldsCodec () (λ _, True).
Proof.
  split; [done|done|done|by intros []|done|]. intros items x _ Hl _. by apply nil_length_inv in Hl as ->.
Qed.

#[export] Instance fields_cons_codec `{SszCodec A ok, FieldsCodec T okT} : FieldsCodec (A * T) (λ x, ok x.1 ∧ okT x.2).
Proof.
  split; cbn [fields_of fields_dec_types fields_enc_types fields_decode fields_cons].
  - intros x. constructor; [apply field_of_ok|apply fc_fields].
  - intros x. cbn. by rewrite ftype_field_of, fc_types.
  - unfold type_of. by rewrite ssz_same_fixed, ssz_same_len, fc_same.
  - intros [a t] [Ha Ht]. cbn [fst snd] in *. cbn [fmap list_fmap decode_next]. rewrite fbytes_field_of, ssz_roundtrip, !bind_Ok by done.
    cbn [fst snd]. by rewrite fc_roundtrip.
  - intros [|it items]; [done|]. cbn [length decode_next]. intros [= Hl]. apply no_panic_bind.
    + apply no_panic_bind; [apply decode_total|done].
    + intros [a rest] (a' & _ & Ha)%bind_Ok_inv. injection Ha as -> <-. cbn [fst snd]. apply no_panic_bind; [by apply fc_total|done].
  - intros items x Hb Hl (a & Ha & Hx)%bind_Ok_inv. apply decode_next_inv in Ha as [-> Hrest]; [|done]. injection Hl as Hl.
    apply bind_Ok_inv in Hx as (t & Ht & Hx). injection Hx as <-. cbn. by rewrite (fc_canonical a.2 t).
Qed.

Lemma fixed_len_sum_types fields :
  fixed_len_sum fields = foldr (λ t acc, t.2 + acc) 0 (ftype <$> fields).
Proof. induction fields as [|f fs IH]; [done|]. unfold fixed_len_sum in *. cbn [foldr fmap list_fmap]. by rewrite IH. Qed.

Lemma all_fixed_fields fields :
  all_fixed (ftype <$> fields) = true → Forall (λ f, fld_fixed f = true) fields.
Proof.
  induction fields as [|f fs IH]; [done|]. cbn. intros [Hf Hfs]%andb_true_iff. constructor; [done|]. by apply IH.
Qed.

Lemma struct_codec `{FieldsCodec T okT} {A} (f : A → T) (g : T → A) :
  (∀ x, g (f x) = x) → (∀ y, f (g y) = y) →
  SszCodec A (H := struct_encode f) (H0 := struct_decode g)
    (λ x, okT (f x) ∧ length (as_ssz_bytes (H := struct_encode f) x) < u32_max).
Proof.
  intros Hgf Hfg. split; [split| |].
  - cbn. by rewrite fc_same.
  - cbn. by rewrite fc_same.
  - intros x buf. apply container_append_app, fc_fields.
  - intros x. cbn. unfold types_len. rewrite <- fc_same, <- (fc_types (f x)). destruct (all_fixed _) eqn:Hall; [|done].
    unfold as_ssz_bytes. cbn. rewrite container_fixed_len; [apply eq_sym, fixed_len_sum_types|apply fc_fields|by apply all_fixed_fields].
  - intros x [Hx Hlen]. pose proof (container_split_spec _ (fc_fields (f x)) Hlen) as Hs. rewrite fc_types in Hs.
    unfold from_ssz_bytes. cbn [struct_decode]. change (as_ssz_bytes x) with (container_append (fields_of (f x)) []).
    rewrite Hs, bind_Ok, fc_roundtrip, bind_Ok by done. by rewrite Hgf.
  - intros bytes. cbn. destruct (container_split_total (fields_dec_types T) bytes) as [Hn Hl]. apply no_panic_bind; [done|].
    intros items Hi. apply no_panic_bind; [|done]. by apply fc_total, Hl.
  - intros bytes x Hb. cbn. intros (items & Hs & Hx)%bind_Ok_inv. apply bind_Ok_inv in Hx as (t & Ht & Hx). injection Hx as <-.
    change (container_append (fields_of (f (g t))) [] = bytes). rewrite Hfg.
    apply container_split_canonical; [apply fc_fields|done|]. rewrite fc_types.
    rewrite (fc_canonical items t); [done| |by apply (container_split_total _ bytes)|done]. by apply (split_items_bytes _ bytes _ Hb Hs).
Qed.

Lemma vec_codec `{SszCodec T ok} :
  item_type T → SszCodec (list T) (λ l, Forall ok l ∧ length (as_ssz_bytes l) < u32_max).
Proof.
  intros Hi. split; [by apply vec_lawful| |by apply vec_canonical].
  apply vec_total. unfold item_type in Hi. rewrite ssz_same_fixed, ssz_same_len. intros Hf. specialize (Hi Hf). lia.
Qed.
