(* ===== verification/SymHash.v ===== *)
(** A concrete hash for evaluating the generic code on examples: hashes are
    the terms that were hashed, so [parent] has no collisions. *)

From S2P Require Import Prelude HashElement.

Inductive sym :=
  | SNull
  | SPad (h : nat)
  | SLeaf (d : list Z)
  | SNode (a b : sym).

#[export] Instance sym_eq_dec : EqDecision sym.
Proof. solve_decision. Defined.

Fixpoint sym_encode (s : sym) : gen_tree (nat + list Z) :=
  match s with
  | SNull => GenNode 0 []
  | SPad h => GenLeaf (inl h)
  | SLeaf d => GenLeaf (inr d)
  | SNode a b => GenNode 1 [sym_encode a; sym_encode b]
  end.

Fixpoint sym_decode (t : gen_tree (nat + list Z)) : sym :=
  match t with
  | GenLeaf (inl h) => SPad h
  | GenLeaf (inr d) => SLeaf d
  | GenNode _ [a; b] => SNode (sym_decode a) (sym_decode b)
  | GenNode _ _ => SNull
  end.

#[export] Instance sym_countable : Countable sym.
Proof.
  apply (inj_countable' sym_encode sym_decode).
  intros s; induction s as [|h|d|a IHa b IHb]; simpl; [done..|]. by rewrite IHa, IHb.
Defined.

#[export] Instance sym_HashElement : HashElement sym := {|
  end_pad := SPad;
  null := SNull;
|}.

#[export] Instance sym_Algorithm : Algorithm sym := {| parent := SNode; leaf := SLeaf |}.

#[export] Instance sym_laws : AlgorithmLaws sym.
Proof. by split. Qed.

(** The leaf of the byte [z]. *)
Definition sl (z : Z) : sym := SLeaf [z].

(** A hash that is cheap to use as the key of a map: a number. *)
Inductive toy := Toy (n : N).

#[export] Instance toy_eq_dec : EqDecision toy.
Proof. solve_decision. Defined.

#[export] Instance toy_countable : Countable toy.
Proof. by apply (inj_countable' (λ t, match t with Toy n => n end) Toy); intros []. Defined.

#[export] Instance toy_HashElement : HashElement toy := {|
  end_pad h := Toy (N.of_nat h + 1);
  null := Toy 0;
|}.

#[export] Instance toy_Algorithm : Algorithm toy := {|
  parent a b := match a, b with Toy n, Toy m => Toy (1 + 2 * n + 3 * m) end;
  leaf d := Toy (1 + N.of_nat (length d));
|}.

#[export] Instance toy_laws : AlgorithmLaws toy.
Proof. split; [intros [a] [b] _ _ [=]; lia|intros h [=]; lia]. Qed.

Definition tl (n : N) : toy := Toy (10 + n).
