(* ===== verification/MerkleSpec.v ===== *)
(** The reference Merkle tree: what the layers of an [AppendMerkleTree] are
    when every leaf is known.  Layer [S h] pairs up layer [h]; a last node
    without a sibling is paired with the padding hash of its height.

    [consistent] and [frontier] relate the partial layers that the program
    keeps ([null] for a node it does not know) to the reference. *)

From S2P Require Import Prelude HashElement.

(** ** Widths of layers *)

(** The number of nodes of layer [h] over [n] leaves. *)
Fixpoint width (n h : nat) : nat :=
  match h with
  | 0 => n
  | S h' => (width n h' + 1) / 2
  end.

(** The number of layers over [n] leaves in a tree of at least [d] layers. *)
Definition depth_of (d n : nat) : nat := Nat.max d (S (Nat.log2_up n)).

Lemma width_spec n h i : i < width n h ↔ i * 2 ^ h < n.
Proof.
  revert i. induction h as [|h IH]; intros i; [simpl; lia|].
  transitivity (2 * i < width n h).
  - cbn [width]. split; intros; div_lia.
  - rewrite IH. rewrite Nat.pow_succ_r'. split; intros; nia.
Qed.

Lemma width_le n h m : width n h ≤ m ↔ n ≤ m * 2 ^ h.
Proof. pose proof (width_spec n h m). lia. Qed.

Lemma width_mono n m h : n ≤ m → width n h ≤ width m h.
Proof. intros. apply width_le. pose proof (width_le m h (width m h)). lia. Qed.

Lemma width_le_1 n h : width n h ≤ 1 ↔ n ≤ 2 ^ h.
Proof. rewrite width_le. lia. Qed.

Lemma width_0 h : width 0 h = 0.
Proof. pose proof (width_le 0 h 0). lia. Qed.

Lemma width_pos n h : 0 < n → 0 < width n h.
Proof. intros. apply width_spec. lia. Qed.

Lemma width_div_le n h : n / 2 ^ h ≤ width n h.
Proof.
  pose proof (pow2_pos h).
  destruct (decide (n / 2 ^ h ≤ width n h)) as [|Hlt]; [done|].
  assert (width n h < n / 2 ^ h) as Hlt' by lia.
  pose proof (width_le n h (width n h)).
  assert (n < (width n h + 1) * 2 ^ h) by nia.
  assert (n / 2 ^ h < width n h + 1) by (apply Nat.Div0.div_lt_upper_bound; lia). lia.
Qed.

(** A layer is at most one node wider than its full subtrees. *)
Lemma width_div_succ n h : width n h ≤ n / 2 ^ h + 1.
Proof.
  apply width_le. pose proof (pow2_pos h).
  pose proof (Nat.div_mod n (2 ^ h) ltac:(lia)).
  pose proof (Nat.mod_upper_bound n (2 ^ h) ltac:(lia)). nia.
Qed.

Lemma width_aligned n h : n `mod` 2 ^ h = 0 → width n h = n / 2 ^ h.
Proof.
  intros Ha. pose proof (pow2_pos h). pose proof (width_div_le n h).
  enough (width n h ≤ n / 2 ^ h) by lia.
  apply width_le. pose proof (Nat.div_mod n (2 ^ h) ltac:(lia)). lia.
Qed.

Lemma width_unaligned n h : n `mod` 2 ^ h ≠ 0 → width n h = n / 2 ^ h + 1.
Proof.
  intros Ha. pose proof (width_div_succ n h).
  enough (n / 2 ^ h < width n h) by lia.
  apply width_spec. pose proof (pow2_pos h).
  pose proof (Nat.div_mod n (2 ^ h) ltac:(lia)). lia.
Qed.

Lemma width_add n j h : width n (j + h) = width (width n j) h.
Proof. induction h as [|h IH]; [by rewrite Nat.add_0_r|]. rewrite Nat.add_succ_r. simpl. by rewrite IH. Qed.

(** Wide layers are low. *)
Lemma width_gt n k j : 1 < width n (k + j) → j < width n k.
Proof.
  rewrite width_add. generalize (width n k) as m. intros m Hw. apply width_spec in Hw.
  pose proof (Nat.pow_gt_lin_r 2 j ltac:(lia)). lia.
Qed.

Lemma depth_of_spec d n H :
  1 ≤ d →
  H = depth_of d n ↔ d ≤ H ∧ n ≤ 2 ^ (H - 1) ∧ (H = d ∨ 2 ^ (H - 2) < n).
Proof.
  intros Hd. unfold depth_of.
  assert (Hup : ∀ k, n ≤ 2 ^ k ↔ Nat.log2_up n ≤ k).
  { intros k. destruct (decide (n ≤ 0)) as [Hn|Hn].
    - assert (n = 0) as -> by lia. rewrite Nat.log2_up_eqn0 by lia.
      pose proof (pow2_pos k). lia.
    - apply Nat.log2_up_le_pow2. lia. }
  rewrite (Hup (H - 1)). pose proof (Hup (H - 2)).
  split; [intros ->|intros (?&?&?)]; lia.
Qed.

Lemma depth_of_mono d n m : n ≤ m → depth_of d n ≤ depth_of d m.
Proof. intros Hle. unfold depth_of. pose proof (Nat.log2_up_le_mono n m Hle). lia. Qed.

(** ** The reference layers *)

Section ideal.
Context `{Algorithm E}.
Implicit Types (F G : list E) (pad x : E).

Fixpoint parents pad (xs : list E) : list E :=
  match xs with
  | [] => []
  | [x] => [parent x pad]
  | x :: y :: r => parent x y :: parents pad r
  end.

(** Layer [h] over the leaves [F]; [lh] is the height of a leaf, which only
    selects the padding hashes. *)
Fixpoint ideal (lh : nat) F (h : nat) : list E :=
  match h with
  | 0 => F
  | S h' => parents (end_pad (h' + lh)) (ideal lh F h')
  end.

(** The root of a tree of at least [d] layers over the leaves [F]. *)
Definition ideal_root (lh d : nat) F : option E :=
  head (ideal lh F (depth_of d (length F) - 1)).

(** The parent of the nodes at [2 j] and [2 j + 1] of a layer. *)
Definition pnode (pad : E) (xs : list E) (j : nat) : option E :=
  match xs !! (2 * j), xs !! (2 * j + 1) with
  | Some a, Some b => Some (parent a b)
  | Some a, None => Some (parent a pad)
  | None, _ => None
  end.

Lemma length_parents pad xs : length (parents pad xs) = (length xs + 1) / 2.
Proof.
  induction xs as [|x|x y l IH] using list_ind2; [done|done|].
  cbn [parents length]. rewrite IH. div_lia.
Qed.

Lemma lookup_parents pad xs j : parents pad xs !! j = pnode pad xs j.
Proof.
  revert j. induction xs as [|x|x y l IH] using list_ind2; intros j.
  - by destruct j.
  - destruct j as [|j]; [done|]. unfold pnode. simpl.
    by replace (j + S (j + 0)) with (S (2 * j)) by lia.
  - destruct j as [|j]; [done|]. cbn [parents]. rewrite lookup_cons_ne_0 by lia. simpl pred.
    rewrite IH. unfold pnode.
    replace (2 * S j) with (S (S (2 * j))) by lia.
    by replace (S (S (2 * j)) + 1) with (S (S (2 * j + 1))) by lia.
Qed.

Lemma length_ideal lh F h : length (ideal lh F h) = width (length F) h.
Proof. induction h as [|h IH]; [done|]. cbn [ideal width]. by rewrite length_parents, IH. Qed.

Lemma pnode_Some pad xs j x :
  pnode pad xs j = Some x ↔
  ∃ a, xs !! (2 * j) = Some a ∧
    ((∃ b, xs !! (2 * j + 1) = Some b ∧ x = parent a b) ∨
     (xs !! (2 * j + 1) = None ∧ x = parent a pad)).
Proof.
  unfold pnode. destruct (xs !! (2 * j)) as [a|], (xs !! (2 * j + 1)) as [b|];
    (split; [intros Heq; simplify_eq; eauto 7 | intros (?&?&[(?&?&?)|[??]]); by simplify_eq]).
Qed.

(** A node depends only on the leaves below it. *)
Lemma ideal_prefix lh F F' a h i :
  take a F = take a F' → a ≤ length F → a ≤ length F' → i < a / 2 ^ h →
  ideal lh F h !! i = ideal lh F' h !! i.
Proof.
  intros Heq HF HF'. revert i. induction h as [|h IH]; intros i Hi.
  - rewrite Nat.pow_0_r, Nat.div_1_r in Hi. by eapply lookup_of_take.
  - cbn [ideal]. rewrite !lookup_parents. rewrite shiftr_succ in Hi.
    assert (2 * i + 1 < a / 2 ^ h) by div_lia.
    unfold pnode. rewrite !IH by lia.
    destruct (ideal lh F' h !! (2 * i + 1)) eqn:Hn; [done|].
    apply lookup_ge_None in Hn. rewrite length_ideal in Hn.
    assert (2 * i + 1 < width (length F') h); [|lia].
    pose proof (width_div_le (length F') h).
    pose proof (div_le_mono_pow a (length F') h ltac:(lia)). lia.
Qed.

(** Equal layers have equal layers above them. *)
Lemma ideal_above lh F F' h k :
  ideal lh F h = ideal lh F' h → h ≤ k → ideal lh F k = ideal lh F' k.
Proof. intros Heq Hle. induction Hle as [|k Hle IH]; [done|]. cbn [ideal]. by rewrite IH. Qed.

Lemma parents_app pad xs ys :
  length xs `mod` 2 = 0 → parents pad (xs ++ ys) = parents pad xs ++ parents pad ys.
Proof.
  induction xs as [|x|x y l IH] using list_ind2; intros Hm; [done|done|].
  simpl. f_equal. apply IH. cbn [length] in Hm. div_lia.
Qed.

Lemma parents_drop pad xs j : parents pad (drop (2 * j) xs) = drop j (parents pad xs).
Proof.
  apply list_eq. intros i. rewrite lookup_parents, lookup_drop, lookup_parents. unfold pnode.
  rewrite !lookup_drop. by replace (2 * j + (2 * i + 1)) with (2 * (j + i) + 1) by lia;
    replace (2 * j + 2 * i) with (2 * (j + i)) by lia.
Qed.

(** Appending to an aligned tree appends to every layer up to the alignment. *)
Lemma ideal_app lh F G k :
  length F `mod` 2 ^ k = 0 → ideal lh (F ++ G) k = ideal lh F k ++ ideal lh G k.
Proof.
  induction k as [|k IH]; intros Hm; [done|].
  assert (length F `mod` 2 ^ k = 0 ∧ (length F / 2 ^ k) `mod` 2 = 0) as [Hk H2].
  { pose proof (pow2_pos k). rewrite Nat.pow_succ_r' in Hm.
    rewrite (Nat.mul_comm 2), Nat.Div0.mod_mul_r in Hm. split; [lia|nia]. }
  cbn [ideal]. rewrite (IH Hk). apply parents_app.
  by rewrite length_ideal, width_aligned.
Qed.

End ideal.

(** ** Partial layers *)

Section partial.
Context `{AlgorithmLaws E}.
Implicit Types (F : list E) (l : list E) (L : list (list E)).

(** [l] has the width of [X] and every known node of [l] is the one of [X]. *)
Definition consistent l (X : list E) : Prop :=
  length l = length X ∧ ∀ i x, l !! i = Some x → x = null ∨ X !! i = Some x.

Record layers_ok (lh d : nat) F L : Prop := {
  lok_depth : length L = depth_of d (length F);
  lok_known : Forall (λ x, x ≠ null) F;
  lok_layer : ∀ h l, L !! h = Some l → consistent l (ideal lh F h);
}.

(** From height [k] up, the nodes that cover a leaf at or after [a] are known. *)
Definition known_from (k a : nat) L : Prop :=
  ∀ h l i x, L !! h = Some l → k ≤ h → a / 2 ^ h ≤ i → l !! i = Some x → x ≠ null.

(** From height [k] up, the roots of the maximal full subtrees over the first
    [a] leaves are known. *)
Definition peaks (k a : nat) L : Prop :=
  ∀ h l x, L !! h = Some l → k ≤ h → (a / 2 ^ h) `mod` 2 = 1 →
    l !! (a / 2 ^ h - 1) = Some x → x ≠ null.

(** What has to be known so that leaves can change from position [a] on. *)
Definition frontier (k a : nat) L : Prop := peaks k a L ∧ known_from k a L.

(** Every node is known. *)
Definition all_known L : Prop := ∀ h l x, L !! h = Some l → x ∈ l → x ≠ null.

Lemma ideal_known lh F h : Forall (λ x, x ≠ null) F → Forall (λ x, x ≠ null) (ideal lh F h).
Proof.
  intros HF. induction h as [|h IH]; [done|]. cbn [ideal]. revert IH.
  generalize (ideal lh F h) as xs.
  induction xs as [|x|x y l IH] using list_ind2; intros Hxs; [constructor| |].
  - rewrite Forall_singleton in Hxs. simpl.
    constructor; [|constructor]. apply parent_known; [done|apply end_pad_known].
  - rewrite !Forall_cons in Hxs. destruct Hxs as (Hx & Hy & Hl). simpl.
    constructor; [by apply parent_known|by apply IH].
Qed.

Lemma consistent_length l X : consistent l X → length l = length X.
Proof. by intros [? _]. Qed.

Lemma consistent_refl l : consistent l l.
Proof. split; eauto. Qed.

Lemma consistent_known l X i x :
  consistent l X → l !! i = Some x → x ≠ null → X !! i = Some x.
Proof. intros [_ Hc] Hi Hx. by destruct (Hc i x Hi). Qed.

Lemma consistent_complete l X :
  consistent l X → (∀ i x, l !! i = Some x → x ≠ null) → l = X.
Proof.
  intros Hc Hk. apply list_eq_same_length with (length X); [done|apply Hc|].
  intros i x y _ Hx Hy. rewrite (consistent_known l X i x) in Hy by eauto. by simplify_eq.
Qed.

(** Filling in a node with its reference value keeps a layer consistent. *)
Lemma consistent_insert l X i x :
  consistent l X → X !! i = Some x → consistent (<[i := x]> l) X.
Proof.
  intros [Hlen Hc] Hx. split; [by rewrite length_insert|].
  intros j y [(-> & -> & _)|(_ & Hy)]%list_lookup_insert_Some; eauto.
Qed.

Lemma frontier_mono k a b L : frontier k a L → a ≤ b → frontier k b L.
Proof.
  intros [Hp Hk] Hle. split.
  - intros h l x Hl Hh Hodd Hx. pose proof (div_le_mono_pow a b h Hle).
    destruct (decide (a / 2 ^ h ≤ b / 2 ^ h - 1)) as [|Hlt].
    + eapply Hk; [exact Hl|lia|done|exact Hx].
    + assert (b / 2 ^ h = a / 2 ^ h) as Heq.
      { assert (b / 2 ^ h ≠ 0); [|lia]. intros Hz. by rewrite Hz in Hodd. }
      eapply Hp; [exact Hl|exact Hh| |]; by rewrite <-Heq.
  - intros h l i x Hl Hh Hi. eapply Hk; [done|done|].
    pose proof (div_le_mono_pow a b h Hle). lia.
Qed.

(** Below the alignment of the number of leaves there is nothing to know. *)
Lemma frontier_aligned lh d F L k a :
  layers_ok lh d F L → frontier k a L → a ≤ length F → length F `mod` 2 ^ k = 0 →
  frontier 0 (length F) L.
Proof.
  intros Hok Hf Ha Hm. apply (frontier_mono k a (length F)) in Hf as [Hp Hk]; [|done].
  assert (∀ h, h < k → ∃ q, length F = q * 2 ^ (k - h) * 2 ^ h ∧ 0 < k - h) as Hq.
  { intros h Hh. exists (length F / 2 ^ k). split; [|lia]. pose proof (pow2_pos k).
    rewrite <-Nat.mul_assoc, <-Nat.pow_add_r. replace (k - h + h) with k by lia.
    pose proof (Nat.div_mod_eq (length F) (2 ^ k)). lia. }
  split.
  - intros h l x Hl _ Hodd Hx. destruct (decide (k ≤ h)) as [|Hlt]; [by eapply Hp|].
    destruct (Hq h) as (q & Heq & Hpos); [lia|]. pose proof (pow2_pos h).
    rewrite Heq, Nat.div_mul in Hodd by lia. destruct (k - h) as [|m]; [lia|].
    rewrite Nat.pow_succ_r' in Hodd. revert Hodd.
    replace (q * (2 * 2 ^ m)) with (q * 2 ^ m * 2) by lia. rewrite Nat.Div0.mod_mul. done.
  - intros h l i x Hl _ Hi Hx. destruct (decide (k ≤ h)) as [|Hlt]; [by eapply Hk|].
    destruct (Hq h) as (q & Heq & _); [lia|]. pose proof (pow2_pos h).
    apply lookup_lt_Some in Hx.
    rewrite (consistent_length _ _ (lok_layer _ _ _ _ Hok _ _ Hl)), length_ideal, width_aligned in Hx;
      [lia|]. rewrite Heq. apply Nat.Div0.mod_mul.
Qed.

(** The root is known in a tree with leaves. *)
Lemma frontier_root lh d F L k a l x :
  1 ≤ d → layers_ok lh d F L → frontier k a L → a ≤ length F → k < length L →
  L !! (length L - 1) = Some l → l !! 0 = Some x → x ≠ null.
Proof.
  intros Hd Hok [Hp Hk] Ha Hkl Hl Hx.
  destruct (proj1 (depth_of_spec d (length F) (length L) Hd) (lok_depth _ _ _ _ Hok)) as (_&Hn&_).
  pose proof (pow2_pos (length L - 1)).
  destruct (decide (a = 2 ^ (length L - 1))) as [Heq|Hne].
  - apply (Hp _ _ _ Hl); [lia|..]; rewrite Heq, Nat.div_same by lia; [done|exact Hx].
  - eapply Hk; [exact Hl|lia| |exact Hx]. rewrite Nat.div_small; lia.
Qed.

(** The root of a tree that knows its frontier is the root of the reference. *)
Lemma frontier_ideal_root lh d F L a :
  1 ≤ d → layers_ok lh d F L → frontier 0 a L → a ≤ length F → F ≠ [] →
  ∃ l x, L !! (length L - 1) = Some l ∧ l !! 0 = Some x ∧ x ≠ null ∧
    length l = 1 ∧ ideal_root lh d F = Some x.
Proof.
  intros Hd Hok Hf Ha HF.
  pose proof (lok_depth _ _ _ _ Hok) as HL.
  destruct (proj1 (depth_of_spec d (length F) (length L) Hd) HL) as (Hd'&Hn&_).
  destruct (lookup_lt_is_Some_2 L (length L - 1)) as [l Hl]; [lia|].
  pose proof (lok_layer _ _ _ _ Hok _ _ Hl) as Hc.
  assert (length l = 1) as Hl1.
  { rewrite (consistent_length _ _ Hc), length_ideal.
    apply width_le_1 in Hn. pose proof (width_pos (length F) (length L - 1)).
    destruct F; [done|]. simpl length in *. lia. }
  destruct (lookup_lt_is_Some_2 l 0) as [x Hx]; [lia|].
  assert (x ≠ null) as Hk by (eapply (frontier_root lh d F L 0 a); eauto with lia).
  exists l, x. split_and!; try done.
  unfold ideal_root. rewrite <-HL, head_lookup. by eapply consistent_known.
Qed.

End partial.
