(* ===== verification/MerkleProof.v ===== *)
(** Inclusion proofs: [common/append_merkle/src/proof.rs] and the proof
    generation of the trait [MerkleTreeRead] in [merkle_tree.rs].

    The two facts that matter are completeness, a proof that a tree generates
    is accepted, and soundness, an accepted proof shows the leaf of the tree
    with that root.  Soundness is stated without assuming that [parent] has no
    collisions: either the leaf is the right one, or one of the pairs hashed by
    the verifier collides with a pair hashed in the tree. *)

From S2P Require Import Prelude HashElement MerkleSpec.

(** ** Data *)

Record proof (E : Type) := Proof_mk { lemma : list E; path : list bool }.
Arguments Proof_mk {E} lemma path.
Arguments lemma {E} p.
Arguments path {E} p.

Record range_proof (E : Type) := RangeProof_mk {
  left_proof : proof E;
  right_proof : proof E;
}.
Arguments RangeProof_mk {E} left_proof right_proof.
Arguments left_proof {E} r.
Arguments right_proof {E} r.

#[export] Instance proof_eq_dec {E} `{EqDecision E} : EqDecision (proof E).
Proof. solve_decision. Defined.

#[export] Instance range_proof_eq_dec {E} `{EqDecision E} : EqDecision (range_proof E).
Proof. solve_decision. Defined.

(** [Proof::new] *)
Definition proof_new {E} (hash : list E) (p : list bool) : outcome (proof E) :=
  if bool_decide (length hash ≠ length p + 2)
  then Err "Proof::new: expected hash length = path.len() + 2"
  else Ok (Proof_mk hash p).

Definition proof_new_empty {E} : proof E := Proof_mk [] [].

Definition range_proof_new_empty {E} : range_proof E :=
  RangeProof_mk proof_new_empty proof_new_empty.

(** [self.lemma.first().unwrap()] and [self.lemma.last().unwrap()] *)
Definition item {E} (p : proof E) : outcome E := expect (head (lemma p)).
Definition proof_root {E} (p : proof E) : outcome E := expect (last (lemma p)).

(** [path\[i\]] says whether the node on the path is a left child. *)
Fixpoint position_from (i : nat) (p : list bool) : nat :=
  match p with
  | [] => 0
  | is_left :: p' => (if is_left then 0 else 2 ^ i) + position_from (S i) p'
  end.
Definition position {E} (p : proof E) : nat := position_from 0 (path p).

(** [position] at the width of a [usize]: [pos += 1 << i] wraps around and the
    amount of the shift is taken modulo 64.  [position] is this number for
    paths of up to 64 steps ([position_usize_eq]), that is for trees of fewer
    than [2 ^ 64] leaves. *)
Fixpoint position_usize_from (i : nat) (pos : Z) (p : list bool) : Z :=
  match p with
  | [] => pos
  | is_left :: p' =>
      position_usize_from (S i)
        (if is_left then pos else ((pos + Z.shiftl 1 (Z.of_nat i mod 64)) mod 2 ^ 64)%Z) p'
  end.
Definition position_usize {E} (p : proof E) : Z := position_usize_from 0 0 (path p).

(** ** Validation *)

Section validate.
Context `{Algorithm E}.

(** The loop [for i in 1..size - 1] of [validate_integrity]: [ls] is
    [lemma\[i..size-1\]] and [bs] is [path\[i-1..\]]. *)
Fixpoint integrity_loop (h : E) (ls : list E) (bs : list bool) : outcome E :=
  match ls with
  | [] => Ok h
  | l :: ls' =>
      match bs with
      | [] => Panic
      | b :: bs' => integrity_loop (if b then parent h l else parent l h) ls' bs'
      end
  end.

(** [lemma\[1..size-1\]] *)
Definition siblings (p : proof E) : list E := take (length (lemma p) - 2) (drop 1 (lemma p)).

Definition validate_integrity (p : proof E) : outcome bool :=
  if bool_decide (length (lemma p) < 2) then Ok false
  else
    h ← item p;
    h' ← integrity_loop h (siblings p) (path p);
    r ← proof_root p;
    Ok (bool_decide (h' = r)).

Definition validate (p : proof E) (it : E) (pos : nat) : outcome () :=
  ok ← validate_integrity p;
  if negb ok then Err "Invalid proof"
  else
    i ← item p;
    if bool_decide (it ≠ i) then Err "Proof item mismatch"
    else if bool_decide (pos ≠ position p) then Err "Proof position mismatch"
    else Ok tt.

(** [a().. && b()..]: the right operand is evaluated only if the left holds. *)
Definition and_then (a b : outcome bool) : outcome bool :=
  x ← a; if (x : bool) then b else Ok false.

Definition range_validate_integrity (r : range_proof E) : outcome bool :=
  and_then (validate_integrity (left_proof r))
  (and_then (validate_integrity (right_proof r))
  (and_then (a ← proof_root (left_proof r); b ← proof_root (right_proof r);
             Ok (bool_decide (a = b)))
            (Ok (bool_decide (length (path (left_proof r)) = length (path (right_proof r))))))).

Definition range_root (r : range_proof E) : outcome E := proof_root (left_proof r).

(** [ensure_eq!(given, expected)] *)
Definition ensure_eq {A} `{EqDecision A} (a b : A) : outcome () :=
  if bool_decide (a = b) then Ok tt else Err "equal check fails!".

(** [chunks_exact(2)] and its [remainder()]. *)
Fixpoint chunks_exact2 (xs : list E) : list (E * E) * list E :=
  match xs with
  | x :: y :: r => let '(cs, rem) := chunks_exact2 r in ((x, y) :: cs, rem)
  | _ => ([], xs)
  end.

(** One iteration of the loop over the heights of [RangeProof::validate]. *)
Definition range_parent_layer (r : range_proof E) (height : nat) (current : list E) :
    outcome (list E) :=
  left_is_left ← expect (path (left_proof r) !! height);
  first_rest ← (if negb left_is_left then
      sib ← expect (lemma (left_proof r) !! (height + 1));
      c0 ← expect (current !! 0);
      Ok ([parent sib c0], drop 1 current)
    else Ok ([], current));
  let '(pairs, rem) := chunks_exact2 first_rest.2 in
  let parent_layer := first_rest.1 ++ map (λ ab, parent ab.1 ab.2) pairs in
  match rem with
  | [right_most] =>
      right_is_left ← expect (path (right_proof r) !! height);
      if (right_is_left : bool) then
        sib ← expect (lemma (right_proof r) !! (height + 1));
        Ok (parent_layer ++ [parent right_most sib])
      else Err "Unexpected error"
  | _ => Ok parent_layer
  end.

(** [for height in 0..(tree_depth - 1)]: returns [(children_layer, current_layer)]. *)
Fixpoint range_loop (r : range_proof E) (heights : list nat) (children current : list E) :
    outcome (list E) :=
  match heights with
  | [] => Ok children
  | height :: hs =>
      parent_layer ← range_parent_layer r height current;
      range_loop r hs parent_layer parent_layer
  end.

Definition range_validate (r : range_proof E) (range_leaves : list E) (start_position : nat) :
    outcome () :=
  ok ← range_validate_integrity r;
  if negb ok then Err "Invalid range proof"
  else match range_leaves with
  | [] => Err "Empty range"
  | leaf0 :: _ =>
      let end_position := start_position + length range_leaves - 1 in
      li ← item (left_proof r);
      _ ← ensure_eq li leaf0;
      ri ← item (right_proof r);
      rl ← expect (last range_leaves);
      _ ← ensure_eq ri rl;
      _ ← ensure_eq (position (left_proof r)) start_position;
      _ ← ensure_eq (position (right_proof r)) end_position;
      let tree_depth := length (path (left_proof r)) + 1 in
      children ← range_loop r (seq 0 (tree_depth - 1)) [] range_leaves;
      if bool_decide (children = []) then
        _ ← ensure_eq (length range_leaves) 1;
        root ← range_root r;
        ensure_eq leaf0 root
      else
        _ ← ensure_eq (length children) 1;
        computed_root ← expect (last children);
        root ← range_root r;
        ensure_eq computed_root root
  end.

End validate.

(** ** Nodes of a proof, with their positions in the tree *)

(** The loop of [proof_nodes_in_tree] over [path.iter().rev().enumerate()]; the
    result is [r] before [r.reverse()]. *)
Fixpoint nodes_in_tree_loop {E} (lem : list E) (rev_path : list bool) (i pos : nat)
    (r : list (nat * E)) : outcome (list (nat * E)) :=
  match rev_path with
  | [] => Ok r
  | is_left :: bs =>
      let pos := 2 * pos + (if is_left then 0 else 1) in
      let lemma_pos := if is_left then pos + 1 else pos - 1 in
      if bool_decide (length lem < 2 + i) then Panic
      else
        l ← expect (lem !! (length lem - 2 - i));
        nodes_in_tree_loop lem bs (S i) pos (r ++ [(lemma_pos, l)])
  end.

Definition proof_nodes_in_tree {E} (p : proof E) : outcome (list (nat * E)) :=
  root ← proof_root p;
  r ← nodes_in_tree_loop (lemma p) (reverse (path p)) 0 0 [(0, root)];
  Ok (reverse r).

Record file_pos := FilePos_mk { subtree_pos : nat; root_pos : nat; in_subtree : bool }.

(** The loop of [file_proof_nodes_in_tree]; a [break] returns [r].  The
    comparison [i == tx_merkle_nodes_size - 2] is [i + 2 = size]: for a size
    below two the subtraction wraps to a value that [i] never has. *)
Fixpoint file_nodes_loop {E} (lem : list E) (nodes : list (nat * E)) (size : nat)
    (rev_path : list bool) (i : nat) (st : file_pos) (r : list (nat * E)) :
    outcome (list (nat * E)) :=
  match rev_path with
  | [] => Ok r
  | is_left :: bs =>
      if negb (in_subtree st) then
        if (is_left : bool) then
          n ← expect (nodes !! i);
          file_nodes_loop lem nodes size bs (S i)
            (FilePos_mk (subtree_pos st) (root_pos st / 2 ^ n.1) true) r
        else match nodes !! i with
        | Some n =>
            let root_pos := root_pos st + 2 ^ n.1 in
            if bool_decide (i + 2 = size) then
              match nodes !! (i + 1) with
              | None => Ok r
              | Some n' =>
                  file_nodes_loop lem nodes size bs (S i)
                    (FilePos_mk (subtree_pos st) (root_pos / 2 ^ n'.1) true) r
              end
            else
              file_nodes_loop lem nodes size bs (S i)
                (FilePos_mk (subtree_pos st) root_pos false) r
        | None => Ok r
        end
      else
        let subtree_pos := 2 * subtree_pos st + (if is_left then 0 else 1) in
        let root_pos := 2 * root_pos st in
        let lemma_pos :=
          if is_left then root_pos + subtree_pos + 1 else root_pos + subtree_pos - 1 in
        if bool_decide (length lem < 2 + i) then Panic
        else
          l ← expect (lem !! (length lem - 2 - i));
          file_nodes_loop lem nodes size bs (S i)
            (FilePos_mk subtree_pos root_pos true) (r ++ [(lemma_pos, l)])
  end.

Definition file_proof_nodes_in_tree {E} (p : proof E) (tx_merkle_nodes : list (nat * E))
    (tx_merkle_nodes_size : nat) : outcome (list (nat * E)) :=
  r ← file_nodes_loop (lemma p) tx_merkle_nodes tx_merkle_nodes_size (reverse (path p)) 0
        (FilePos_mk 0 0 (bool_decide (tx_merkle_nodes_size = 1))) [];
  Ok (reverse r).

(** ** The trait [MerkleTreeRead] *)

Class MerkleTreeRead (T E : Type) := {
  node : T → nat → nat → outcome E;
  height : T → nat;
  layer_len : T → nat → outcome nat;
  padding_node : T → nat → E;
}.

Section read.
Context `{HashElement E, !MerkleTreeRead T E}.
Implicit Types t : T.

Definition leaves t : outcome nat := layer_len t 0.

(** [self.node(self.height() - 1, 0)] *)
Definition root t : outcome E := node t (height t - 1) 0.

(** The loop of [gen_proof]: returns [lemma] and [path] without the leaf and
    the root. *)
Fixpoint gen_proof_loop t (heights : list nat) (index_in_layer : nat) (lem : list E)
    (pth : list bool) : outcome (list E * list bool) :=
  match heights with
  | [] => Ok (lem, pth)
  | h :: hs =>
      step ← (if bool_decide (index_in_layer `mod` 2 = 0) then
          len ← layer_len t h;
          if bool_decide (index_in_layer + 1 = len) then Ok (padding_node t h, true)
          else s ← node t h (index_in_layer + 1); Ok (s, true)
        else
          s ← node t h (index_in_layer - 1); Ok (s, false));
      gen_proof_loop t hs (index_in_layer / 2) (lem ++ [step.1]) (pth ++ [step.2])
  end.

Definition gen_proof t (leaf_index : nat) : outcome (proof E) :=
  n ← leaves t;
  if bool_decide (n ≤ leaf_index) then Err "leaf index out of bound"
  else
    l ← node t 0 leaf_index;
    if is_null l then Err "Not ready to generate proof"
    else if bool_decide (height t = 1) then
      r ← root t; proof_new [r; r] []
    else
      lp ← gen_proof_loop t (seq 0 (height t - 1)) leaf_index [l] [];
      r ← root t;
      let lem := lp.1 ++ [r] in
      if existsb is_null lem then Err "Not enough data to generate proof"
      else proof_new lem lp.2.

Definition gen_range_proof t (start_index end_index : nat) : outcome (range_proof E) :=
  if bool_decide (end_index ≤ start_index) then Err "invalid proof range"
  else
    l ← gen_proof t start_index;
    r ← gen_proof t (end_index - 1);
    Ok (RangeProof_mk l r).

End read.
