(* ===== verification/MerkleProofComplete.v ===== *)
(** Completeness of proofs: what [gen_proof] and [gen_range_proof] return is
    accepted by [validate], for the leaf, its position and the root of the
    reference tree. *)

From S2P Require Import Prelude HashElement MerkleSpec MerkleProof.

(** ** Reading a tree whose layers are [L] *)

Record reads `{HashElement E, !MerkleTreeRead T E} (t : T) (lh : nat) (L : list (list E)) : Prop := {
  reads_height : height t = length L;
  reads_len : ∀ h l, L !! h = Some l → layer_len t h = Ok (length l);
  reads_node : ∀ h l i x, L !! h = Some l → l !! i = Some x → node t h i = Ok x;
  reads_pad : ∀ h, padding_node t h = end_pad (h + lh);
}.

(** The path bits of position [idx] through [k] layers. *)
Fixpoint path_bits (idx k : nat) : list bool :=
  match k with
  | 0 => []
  | S k' => bool_decide (idx `mod` 2 = 0) :: path_bits (idx / 2) k'
  end.

Lemma length_path_bits idx k : length (path_bits idx k) = k.
Proof. revert idx. induction k as [|k IH]; intros idx; simpl; [done|]. by rewrite IH. Qed.

Lemma lookup_path_bits idx k h :
  h < k → path_bits idx k !! h = Some (bool_decide ((idx / 2 ^ h) `mod` 2 = 0)).
Proof.
  revert idx h. induction k as [|k IH]; intros idx h Hh; [lia|]. cbn [path_bits].
  destruct h as [|h]; [by rewrite Nat.pow_0_r, Nat.div_1_r|].
  rewrite lookup_cons_ne_0 by lia. simpl pred. rewrite IH by lia.
  by rewrite Nat.Div0.div_div, Nat.pow_succ_r'.
Qed.

Lemma position_path_bits i idx k :
  idx < 2 ^ k → position_from i (path_bits idx k) = idx * 2 ^ i.
Proof.
  revert i idx. induction k as [|k IH]; intros i idx Hlt; [simpl in *; lia|].
  rewrite Nat.pow_succ_r' in Hlt. cbn [path_bits position_from].
  rewrite IH by div_lia. rewrite Nat.pow_succ_r'.
  pose proof (Nat.div_mod_eq idx 2). case_bool_decide; [nia|].
  assert (idx `mod` 2 = 1) by div_lia. nia.
Qed.

(** A position determines the path. *)
Lemma position_inv i p : position_from i p = position_from 0 p * 2 ^ i.
Proof.
  revert i. induction p as [|b p IH]; intros i; [done|]. cbn [position_from].
  rewrite (IH (S i)), (IH 1), Nat.pow_succ_r', Nat.pow_1_r. destruct b; simpl; lia.
Qed.

Lemma path_bits_position p : path_bits (position_from 0 p) (length p) = p.
Proof.
  induction p as [|b p IH]; [done|]. cbn [length path_bits position_from].
  rewrite position_inv, Nat.pow_1_r, Nat.pow_0_r.
  replace (((if b then 0 else 1) + position_from 0 p * 2) / 2) with (position_from 0 p)
    by (destruct b; div_lia).
  rewrite IH. f_equal. destruct b; [rewrite bool_decide_true|rewrite bool_decide_false]; try done;
    div_lia.
Qed.

Lemma position_lt p : position_from 0 p < 2 ^ length p.
Proof.
  induction p as [|b p IH]; [simpl; lia|]. cbn [length position_from].
  rewrite position_inv, Nat.pow_1_r, Nat.pow_0_r, Nat.pow_succ_r'. destruct b; lia.
Qed.

(** The position fits in a [usize] for paths of up to 64 steps. *)
Lemma position_usize_from_eq i pos p :
  i + length p ≤ 64 → (0 ≤ pos < 2 ^ Z.of_nat i)%Z →
  position_usize_from i pos p = (pos + Z.of_nat (position_from i p))%Z.
Proof.
  revert i pos. induction p as [|b p IH]; intros i pos Hl Hp; cbn in *; [lia|].
  assert (2 ^ Z.of_nat (S i) = 2 * 2 ^ Z.of_nat i)%Z as HS by (rewrite Nat2Z.inj_succ, Z.pow_succ_r; lia).
  assert (2 ^ Z.of_nat (S i) ≤ 2 ^ 64)%Z as Hle by (apply Z.pow_le_mono_r; lia).
  destruct b; [rewrite IH by lia; lia|].
  rewrite (Z.mod_small (Z.of_nat i)), Z.shiftl_1_l, Z.mod_small by lia.
  rewrite IH by lia. rewrite Nat2Z.inj_add, Nat2Z.inj_pow. lia.
Qed.

Lemma position_usize_eq {E} (p : proof E) :
  length (path p) ≤ 64 → position_usize p = Z.of_nat (position p).
Proof. intros Hl. unfold position_usize, position. rewrite position_usize_from_eq; cbn; lia. Qed.

Section complete.
Context `{AlgorithmLaws E}.
Implicit Types (F : list E) (L : list (list E)).

(** The sibling of node [idx] of layer [h] of the reference tree. *)
Definition sibling (lh : nat) F (h idx : nat) : E :=
  default (end_pad (h + lh))
    (ideal lh F h !! (if bool_decide (idx `mod` 2 = 0) then idx + 1 else idx - 1)).

Fixpoint ideal_siblings (lh : nat) F (h idx k : nat) : list E :=
  match k with
  | 0 => []
  | S k' => sibling lh F h idx :: ideal_siblings lh F (S h) (idx / 2) k'
  end.

Lemma length_ideal_siblings lh F h idx k : length (ideal_siblings lh F h idx k) = k.
Proof. revert h idx. induction k as [|k IH]; intros h idx; simpl; [done|]. by rewrite IH. Qed.

Lemma lookup_ideal_siblings lh F h idx k j :
  j < k → ideal_siblings lh F h idx k !! j = Some (sibling lh F (h + j) (idx / 2 ^ j)).
Proof.
  revert h idx j. induction k as [|k IH]; intros h idx j Hj; [lia|]. cbn [ideal_siblings].
  destruct j as [|j]; [by rewrite Nat.pow_0_r, Nat.div_1_r, Nat.add_0_r|].
  rewrite lookup_cons_ne_0 by lia. simpl pred. rewrite IH by lia.
  rewrite Nat.Div0.div_div, Nat.pow_succ_r'. by replace (S h + j) with (h + S j) by lia.
Qed.

(** Hashing a node with its sibling gives its parent. *)
Lemma ideal_step lh F h idx x :
  ideal lh F h !! idx = Some x →
  ideal lh F (S h) !! (idx / 2) =
    Some (if bool_decide (idx `mod` 2 = 0) then parent x (sibling lh F h idx)
          else parent (sibling lh F h idx) x).
Proof.
  intros Hx. cbn [ideal]. rewrite lookup_parents. unfold pnode, sibling.
  pose proof (Nat.div_mod_eq idx 2). case_bool_decide as Hm.
  - replace (2 * (idx / 2)) with idx by lia. rewrite Hx.
    by destruct (ideal lh F h !! (idx + 1)).
  - assert (idx `mod` 2 = 1) by div_lia.
    replace (2 * (idx / 2) + 1) with idx by lia. rewrite Hx.
    replace (2 * (idx / 2)) with (idx - 1) by lia.
    destruct (ideal lh F h !! (idx - 1)) eqn:Hn; [done|].
    apply lookup_ge_None in Hn. apply lookup_lt_Some in Hx. lia.
Qed.

(** The walk from a node to its [k]-th ancestor. *)
Lemma integrity_loop_ideal lh F h idx k x :
  ideal lh F h !! idx = Some x →
  ∃ y, ideal lh F (h + k) !! (idx / 2 ^ k) = Some y ∧
    integrity_loop x (ideal_siblings lh F h idx k) (path_bits idx k) = Ok y.
Proof.
  revert h idx x. induction k as [|k IH]; intros h idx x Hx.
  - exists x. by rewrite Nat.pow_0_r, Nat.div_1_r, Nat.add_0_r.
  - cbn [ideal_siblings path_bits integrity_loop].
    apply ideal_step in Hx. destruct (IH _ _ _ Hx) as (y & Hy & Hl).
    exists y. split; [|done].
    rewrite Nat.Div0.div_div, <-Nat.pow_succ_r' in Hy.
    by replace (h + S k) with (S h + k) by lia.
Qed.

(** ** What [gen_proof] computes *)

Context `{!MerkleTreeRead T E}.
Implicit Types t : T.

(** [s] is the reference value unless it is not known, and then the layers
    [L] have an unknown node. *)
Definition null_or L (s s' : E) : Prop := s = null ∧ ¬ all_known L ∨ s = s'.

Lemma reads_sibling t lh d F L h idx :
  reads t lh L → layers_ok lh d F L → h < length L → idx < width (length F) h →
  ∃ s, (if bool_decide (idx `mod` 2 = 0) then
          len ← layer_len t h;
          if bool_decide (idx + 1 = len) then Ok (padding_node t h, true)
          else s ← node t h (idx + 1); Ok (s, true)
        else s ← node t h (idx - 1); Ok (s, false))
       = Ok (s, bool_decide (idx `mod` 2 = 0)) ∧ null_or L s (sibling lh F h idx).
Proof.
  intros Hr Hok Hh Hidx.
  destruct (lookup_lt_is_Some_2 L h Hh) as [l Hl].
  pose proof (lok_layer _ _ _ _ Hok _ _ Hl) as Hc.
  pose proof (consistent_length _ _ Hc) as Hlen. rewrite length_ideal in Hlen.
  rewrite (reads_len _ _ _ Hr _ _ Hl). unfold sibling.
  assert (∀ j, j < width (length F) h → ∃ s, node t h j = Ok s ∧
            null_or L s (default (end_pad (h + lh)) (ideal lh F h !! j))) as Hnode.
  { intros j Hj. destruct (lookup_lt_is_Some_2 l j) as [s Hs]; [lia|]. exists s.
    rewrite (reads_node _ _ _ Hr _ _ _ _ Hl Hs). split; [done|].
    destruct (proj2 Hc _ _ Hs) as [->|Hi]; [left|right; by rewrite Hi].
    split; [done|]. intros Hk. apply (Hk h l null Hl); [|done]. by eapply list_elem_of_lookup_2. }
  case_bool_decide as Hm; simpl.
  - case_bool_decide as Hend.
    + exists (padding_node t h). split; [done|right].
      rewrite lookup_ge_None_2 by (rewrite length_ideal; lia). by rewrite (reads_pad _ _ _ Hr).
    + destruct (Hnode (idx + 1)) as (s & -> & Hs); [lia|]. by exists s.
  - destruct (Hnode (idx - 1)) as (s & -> & Hs); [lia|]. by exists s.
Qed.

Lemma gen_proof_loop_spec t lh d F L h idx k lem pth :
  reads t lh L → layers_ok lh d F L → h + k ≤ length L → idx < width (length F) h →
  ∃ ss, gen_proof_loop t (seq h k) idx lem pth = Ok (lem ++ ss, pth ++ path_bits idx k) ∧
    Forall2 (null_or L) ss (ideal_siblings lh F h idx k).
Proof.
  intros Hr Hok. revert h idx lem pth. induction k as [|k IH]; intros h idx lem pth Hh Hidx.
  - exists []. simpl. by rewrite !app_nil_r.
  - cbn [seq gen_proof_loop path_bits ideal_siblings].
    destruct (reads_sibling t lh d F L h idx) as (s & -> & Hs); [done|done|lia|done|].
    rewrite bind_Ok. cbn [fst snd].
    destruct (IH (S h) (idx / 2) (lem ++ [s]) (pth ++ [bool_decide (idx `mod` 2 = 0)]))
      as (ss & -> & Hss); [lia| |].
    { cbn [width]. div_lia. }
    exists (s :: ss). rewrite <-!app_assoc. by split; [|constructor].
Qed.

Lemma null_or_known L (ss ss' : list E) :
  Forall2 (null_or L) ss ss' → existsb is_null ss = false → ss = ss'.
Proof.
  induction 1 as [|s s' ss ss' Hs _ IH]; [done|]. simpl.
  intros [Hn Hss]%orb_false_iff. apply is_null_false in Hn.
  destruct Hs as [[-> _]| ->]; [done|]. by rewrite IH.
Qed.

(** The proof of leaf [x] at position [i] in a tree of [k + 1] layers with root [r]. *)
Definition ideal_proof (lh : nat) F (k i : nat) (x r : E) : proof E :=
  Proof_mk (x :: ideal_siblings lh F 0 i k ++ [r]) (path_bits i k).

Lemma siblings_cons_snoc (x r : E) ss p : siblings (Proof_mk (x :: ss ++ [r]) p) = ss.
Proof.
  unfold siblings. simpl. rewrite drop_0, length_app. simpl.
  replace (length ss + 1 - 1) with (length ss) by lia. by rewrite take_app_length.
Qed.

Lemma proof_root_cons_snoc (x r : E) ss p : proof_root (Proof_mk (x :: ss ++ [r]) p) = Ok r.
Proof. unfold proof_root. simpl lemma. by rewrite app_comm_cons, last_snoc. Qed.

Lemma validate_integrity_cons_snoc (x r : E) ss p :
  validate_integrity (Proof_mk (x :: ss ++ [r]) p) =
  (h ← integrity_loop x ss p; Ok (bool_decide (h = r))).
Proof.
  unfold validate_integrity. rewrite siblings_cons_snoc, proof_root_cons_snoc.
  simpl lemma. rewrite bool_decide_false; [done|]. rewrite length_cons, length_app. simpl. lia.
Qed.

Lemma ideal_proof_integrity lh F k i x r :
  F !! i = Some x → length F ≤ 2 ^ k → ideal lh F k !! 0 = Some r →
  validate_integrity (ideal_proof lh F k i x r) = Ok true.
Proof.
  intros Hx Hk Hr. unfold ideal_proof. rewrite validate_integrity_cons_snoc.
  destruct (integrity_loop_ideal lh F 0 i k x Hx) as (y & Hy & ->). rewrite bind_Ok.
  apply lookup_lt_Some in Hx. rewrite Nat.div_small in Hy by lia. simpl in Hy.
  rewrite bool_decide_true; [done|]. congruence.
Qed.

Lemma ideal_proof_position lh F k i x r :
  i < 2 ^ k → position (ideal_proof lh F k i x r) = i.
Proof. intros. unfold position, ideal_proof. simpl path. rewrite position_path_bits; lia. Qed.

Lemma ideal_proof_length lh F k i x r : length (path (ideal_proof lh F k i x r)) = k.
Proof. apply length_path_bits. Qed.

Lemma ideal_proof_item lh F k i x r : item (ideal_proof lh F k i x r) = Ok x.
Proof. done. Qed.

Lemma ideal_proof_root lh F k i x r : proof_root (ideal_proof lh F k i x r) = Ok r.
Proof. apply proof_root_cons_snoc. Qed.

Lemma ideal_proof_validate lh F k i x r :
  F !! i = Some x → length F ≤ 2 ^ k → ideal lh F k !! 0 = Some r →
  validate (ideal_proof lh F k i x r) x i = Ok tt.
Proof.
  intros Hx Hk Hr. unfold validate.
  rewrite (ideal_proof_integrity lh F k i x r Hx Hk Hr), bind_Ok. cbn [negb].
  unfold item. simpl lemma. cbn [head expect]. rewrite bind_Ok, bool_decide_false by auto.
  apply lookup_lt_Some in Hx. rewrite bool_decide_false; [done|].
  rewrite ideal_proof_position by lia. auto.
Qed.

(** The reading side: [gen_proof] is either an error or the reference proof. *)
Lemma gen_proof_inv t lh d F L i p :
  1 ≤ d → reads t lh L → layers_ok lh d F L → gen_proof t i = Ok p →
  ∃ x r, F !! i = Some x ∧ ideal lh F (length L - 1) !! 0 = Some r ∧
    length F ≤ 2 ^ (length L - 1) ∧ p = ideal_proof lh F (length L - 1) i x r.
Proof.
  intros Hd Hr Hok. pose proof (lok_depth _ _ _ _ Hok) as HL.
  destruct (proj1 (depth_of_spec d (length F) (length L) Hd) HL) as (Hd'&Hn&_).
  destruct (lookup_lt_is_Some_2 L 0) as [l0 Hl0]; [lia|].
  destruct (lookup_lt_is_Some_2 L (length L - 1)) as [lt Hlt]; [lia|].
  pose proof (lok_layer _ _ _ _ Hok _ _ Hl0) as Hc0.
  pose proof (lok_layer _ _ _ _ Hok _ _ Hlt) as Hct.
  pose proof (consistent_length _ _ Hc0) as Hlen0. simpl in Hlen0.
  pose proof (consistent_length _ _ Hct) as Hlent. rewrite length_ideal in Hlent.
  unfold gen_proof, leaves. rewrite (reads_len _ _ _ Hr _ _ Hl0), bind_Ok.
  case_bool_decide as Hi; [done|].
  destruct (lookup_lt_is_Some_2 l0 i) as [x Hx]; [lia|].
  rewrite (reads_node _ _ _ Hr _ _ _ _ Hl0 Hx), bind_Ok.
  destruct (is_null x) eqn:Hnx; [done|]. apply is_null_false in Hnx.
  destruct (lookup_lt_is_Some_2 lt 0) as [r Hrt].
  { rewrite Hlent. apply width_pos. lia. }
  unfold root. rewrite (reads_height _ _ _ Hr), (reads_node _ _ _ Hr _ _ _ _ Hlt Hrt).
  assert (F !! i = Some x) as HF by (by eapply (consistent_known l0)).
  intros Hp. exists x, r. split; [done|]. revert Hp.
  case_bool_decide as Hh1.
  - rewrite bind_Ok. unfold proof_new. simpl. intros [= <-].
    rewrite Hh1 in *. simpl in *. assert (i = 0) as -> by lia. simplify_eq.
    split_and!; [done|lia|done].
  - destruct (gen_proof_loop_spec t lh d F L 0 i (length L - 1) [x] [])
      as (ss & -> & Hss); [done|done|lia|simpl; lia|].
    rewrite bind_Ok, bind_Ok. cbn [fst snd].
    destruct (existsb is_null _) eqn:Hex; [done|].
    rewrite !existsb_app in Hex. apply orb_false_iff in Hex as [[_ Hex]%orb_false_iff Hrn].
    simpl in Hrn. rewrite orb_false_r in Hrn. apply is_null_false in Hrn.
    apply null_or_known in Hss; [|done]. subst ss.
    unfold proof_new. case_bool_decide; [done|]. intros [= <-].
    split; [by eapply consistent_known|]. by split.
Qed.

Lemma existsb_null_known (l : list E) :
  (∀ x, x ∈ l → x ≠ null) → existsb is_null l = false.
Proof.
  induction l as [|x l IH]; intros Hl; [done|]. simpl.
  rewrite (proj2 (is_null_false x)) by (apply Hl; left). apply IH. intros y Hy. apply Hl. by right.
Qed.

Lemma sibling_known lh F h idx : Forall (λ x, x ≠ null) F → sibling lh F h idx ≠ null.
Proof.
  intros HF. unfold sibling.
  destruct (ideal lh F h !! _) as [y|] eqn:Hy; simpl; [|apply end_pad_known].
  eapply (Forall_lookup_1 (λ x, x ≠ null)); [by apply ideal_known|done].
Qed.

Lemma ideal_siblings_known lh F h idx k x :
  Forall (λ x, x ≠ null) F → x ∈ ideal_siblings lh F h idx k → x ≠ null.
Proof.
  intros HF [j Hj]%list_elem_of_lookup.
  assert (j < k) as Hlt.
  { apply lookup_lt_Some in Hj. by rewrite length_ideal_siblings in Hj. }
  rewrite lookup_ideal_siblings in Hj by done. simplify_eq. by apply sibling_known.
Qed.

Lemma null_or_all L (ss ss' : list E) : all_known L → Forall2 (null_or L) ss ss' → ss = ss'.
Proof.
  intros HL. induction 1 as [|s s' ss ss' [[_ Hn]| ->] _ IH]; [done|by destruct Hn|by rewrite IH].
Qed.

(** A tree without unknown nodes proves every leaf. *)
Lemma gen_proof_total t lh d F L i :
  1 ≤ d → reads t lh L → layers_ok lh d F L → all_known L → i < length F →
  ∃ p, gen_proof t i = Ok p.
Proof.
  intros Hd Hr Hok HK Hi. pose proof (lok_depth _ _ _ _ Hok) as HL.
  destruct (proj1 (depth_of_spec d (length F) (length L) Hd) HL) as (Hd'&Hn&_).
  destruct (lookup_lt_is_Some_2 L 0) as [l0 Hl0]; [lia|].
  destruct (lookup_lt_is_Some_2 L (length L - 1)) as [lt Hlt]; [lia|].
  pose proof (consistent_length _ _ (lok_layer _ _ _ _ Hok _ _ Hl0)) as Hlen0. simpl in Hlen0.
  pose proof (consistent_length _ _ (lok_layer _ _ _ _ Hok _ _ Hlt)) as Hlent.
  rewrite length_ideal in Hlent.
  destruct (lookup_lt_is_Some_2 l0 i) as [x Hx]; [lia|].
  destruct (lookup_lt_is_Some_2 lt 0) as [r Hrt]; [rewrite Hlent; apply width_pos; lia|].
  assert (x ≠ null) as Hnx by (eapply HK; [exact Hl0|by eapply list_elem_of_lookup_2]).
  assert (r ≠ null) as Hnr by (eapply HK; [exact Hlt|by eapply list_elem_of_lookup_2]).
  unfold gen_proof, leaves. rewrite (reads_len _ _ _ Hr _ _ Hl0), bind_Ok.
  rewrite bool_decide_false by lia.
  rewrite (reads_node _ _ _ Hr _ _ _ _ Hl0 Hx), bind_Ok, (proj2 (is_null_false x) Hnx).
  unfold root. rewrite (reads_height _ _ _ Hr), (reads_node _ _ _ Hr _ _ _ _ Hlt Hrt), bind_Ok.
  case_bool_decide; [by eexists|].
  destruct (gen_proof_loop_spec t lh d F L 0 i (length L - 1) [x] [])
    as (ss & -> & Hss); [done|done|lia|simpl; lia|].
  apply null_or_all in Hss as ->; [|done]. rewrite bind_Ok, bind_Ok. cbn [fst snd].
  rewrite existsb_null_known.
  - unfold proof_new. rewrite bool_decide_false; [by eexists|].
    rewrite !length_app, length_path_bits, length_ideal_siblings. simpl. lia.
  - intros y. rewrite !elem_of_app, !list_elem_of_singleton.
    intros [[->|Hy]| ->]; [done| |done].
    eapply ideal_siblings_known; [apply (lok_known _ _ _ _ Hok)|done].
Qed.

(** ** Range proofs *)

Lemma chunks_exact2_parents s (xs : list E) cs rem :
  chunks_exact2 xs = (cs, rem) →
  (rem = [] ∧ length xs `mod` 2 = 0 ∧ parents s xs = map (λ ab, parent ab.1 ab.2) cs) ∨
  (∃ r, rem = [r] ∧ length xs `mod` 2 = 1 ∧
     parents s xs = map (λ ab, parent ab.1 ab.2) cs ++ [parent r s]).
Proof.
  revert cs rem. induction xs as [|x|x y l IH] using list_ind2; intros cs rem.
  - intros [= <- <-]. by left.
  - intros [= <- <-]. right. by exists x.
  - cbn [chunks_exact2]. destruct (chunks_exact2 l) as [cs' rem'].
    intros [= <- <-]. cbn [length parents map fst snd].
    replace (S (S (length l)) `mod` 2) with (length l `mod` 2) by div_lia.
    destruct (IH cs' rem' eq_refl) as [(-> & Hm & ->)|(r & -> & Hm & ->)]; [by left|].
    right. by exists r.
Qed.

(** Pairing up a slice that starts at a left child. *)
Lemma parents_slice (pad s : E) (xs : list E) lo hi :
  lo `mod` 2 = 0 → hi < length xs →
  (hi `mod` 2 = 0 → s = default pad (xs !! (hi + 1))) →
  parents s (slice xs lo hi) = slice (parents pad xs) (lo / 2) (hi / 2).
Proof.
  intros Hlo Hhi Hs. apply list_eq. intros j.
  rewrite lookup_parents, lookup_slice, lookup_parents. unfold pnode. rewrite !lookup_slice.
  replace (2 * (lo / 2 + j)) with (lo + 2 * j) by div_lia.
  replace (lo + (2 * j + 1)) with (lo + 2 * j + 1) by lia.
  destruct (decide (lo + 2 * j ≤ hi)) as [Hle|Hgt].
  - rewrite (decide_True (P := lo / 2 + j ≤ hi / 2)) by div_lia.
    destruct (lookup_lt_is_Some_2 xs (lo + 2 * j)) as [a ->]; [lia|].
    destruct (decide (lo + 2 * j + 1 ≤ hi)) as [Hle'|Hgt'].
    + destruct (lookup_lt_is_Some_2 xs (lo + 2 * j + 1)) as [b ->]; [lia|done].
    + assert (lo + 2 * j = hi) as Heq by lia.
      rewrite Hs by div_lia. rewrite Heq. by destruct (xs !! (hi + 1)).
  - rewrite decide_False; [done|]. div_lia.
Qed.

Lemma ideal_proof_sibling lh F k i x r h :
  h < k → lemma (ideal_proof lh F k i x r) !! (h + 1) = Some (sibling lh F h (i / 2 ^ h)).
Proof.
  intros Hh. unfold ideal_proof. simpl lemma. rewrite Nat.add_1_r. simpl.
  rewrite lookup_app_l by (rewrite length_ideal_siblings; lia).
  by rewrite lookup_ideal_siblings.
Qed.

(** The left-most parent, when its left child is not in the range. *)
Lemma range_first_ideal lh F h lo hi :
  lo ≤ hi → hi < length (ideal lh F h) →
  ∃ f rest lo', (if negb (bool_decide (lo `mod` 2 = 0)) then
      sib ← Ok (sibling lh F h lo);
      c0 ← expect (slice (ideal lh F h) lo hi !! 0);
      Ok ([parent sib c0], drop 1 (slice (ideal lh F h) lo hi))
    else Ok ([], slice (ideal lh F h) lo hi)) = Ok (f, rest) ∧ lo' `mod` 2 = 0 ∧
    rest = slice (ideal lh F h) lo' hi ∧ lo' ≤ hi + 1 ∧
    f ++ slice (ideal lh F (S h)) (lo' / 2) (hi / 2) =
      slice (ideal lh F (S h)) (lo / 2) (hi / 2).
Proof.
  intros Hle Hhi. case_bool_decide as Hm.
  { exists [], (slice (ideal lh F h) lo hi), lo. split_and!; try done; lia. }
  destruct (lookup_lt_is_Some_2 (ideal lh F h) lo) as [c0 Hc0]; [lia|].
  rewrite lookup_slice, Nat.add_0_r, decide_True, Hc0 by lia. cbn [negb expect].
  rewrite !bind_Ok, drop_slice.
  eexists _, _, (lo + 1). split; [done|]. split_and!; [div_lia|done|lia|].
  apply list_eq. intros j. cbn [app]. rewrite lookup_cons. destruct j as [|j].
  - rewrite lookup_slice, Nat.add_0_r, decide_True by div_lia.
    rewrite (ideal_step lh F h lo c0 Hc0). by rewrite bool_decide_false.
  - rewrite !lookup_slice. by replace ((lo + 1) / 2 + j) with (lo / 2 + S j) by div_lia.
Qed.

(** One layer of [RangeProof::validate] on reference proofs. *)
Lemma range_parent_layer_ideal lh F k s e xs xe rt h :
  h < k → s ≤ e → e < length F →
  range_parent_layer
    (RangeProof_mk (ideal_proof lh F k s xs rt) (ideal_proof lh F k e xe rt)) h
    (slice (ideal lh F h) (s / 2 ^ h) (e / 2 ^ h)) =
  Ok (slice (ideal lh F (S h)) (s / 2 ^ S h) (e / 2 ^ S h)).
Proof.
  intros Hh Hse He. rewrite !shiftr_succ.
  pose proof (div_le_mono_pow s e h Hse) as Hle.
  assert (e / 2 ^ h < length (ideal lh F h)) as Hhi.
  { rewrite length_ideal. apply width_spec.
    pose proof (Nat.Div0.mul_div_le e (2 ^ h)). lia. }
  unfold range_parent_layer. cbn [left_proof right_proof].
  rewrite !ideal_proof_sibling by done.
  unfold ideal_proof at 1 2. cbn [path]. rewrite !lookup_path_bits by done.
  cbn [expect]. rewrite bind_Ok. set (lo := s / 2 ^ h) in *. set (hi := e / 2 ^ h) in *.
  set (sr := sibling lh F h hi).
  assert (hi `mod` 2 = 0 → sr = default (end_pad (h + lh)) (ideal lh F h !! (hi + 1))) as Hsr.
  { intros Hm. unfold sr, sibling. by rewrite bool_decide_true. }
  destruct (range_first_ideal lh F h lo hi Hle Hhi)
    as (f & rest & lo' & -> & Hlo' & -> & Hle' & Hf).
  rewrite bind_Ok. cbn [fst snd].
  destruct (chunks_exact2 (slice (ideal lh F h) lo' hi)) as [cs rem] eqn:Hch.
  rewrite <-Hf. cbn [ideal].
  rewrite <-(parents_slice (end_pad (h + lh)) sr (ideal lh F h) lo' hi) by done.
  destruct (chunks_exact2_parents sr _ _ _ Hch) as [(-> & _ & ->)|(r & -> & Hm & ->)]; [done|].
  rewrite length_slice in Hm by done. rewrite bool_decide_true by div_lia.
  rewrite bind_Ok. by rewrite bind_Ok, app_assoc.
Qed.

Lemma range_loop_ideal lh F k s e xs xe rt h m children :
  h + m ≤ k → s ≤ e → e < length F →
  range_loop
    (RangeProof_mk (ideal_proof lh F k s xs rt) (ideal_proof lh F k e xe rt)) (seq h m) children
    (slice (ideal lh F h) (s / 2 ^ h) (e / 2 ^ h)) =
  Ok (if decide (m = 0) then children
      else slice (ideal lh F (h + m)) (s / 2 ^ (h + m)) (e / 2 ^ (h + m))).
Proof.
  intros Hk Hse He. revert h children Hk.
  induction m as [|m IH]; intros h children Hk; [done|].
  cbn [seq range_loop]. rewrite range_parent_layer_ideal by lia. rewrite bind_Ok, IH by lia.
  rewrite (decide_False (P := S m = 0)) by lia. replace (h + S m) with (S h + m) by lia.
  case_decide; [|done]. subst m. by rewrite Nat.add_0_r.
Qed.

Lemma ideal_range_validate lh F k s e xs xe rt :
  s ≤ e → F !! s = Some xs → F !! e = Some xe → length F ≤ 2 ^ k →
  ideal lh F k !! 0 = Some rt →
  range_validate (RangeProof_mk (ideal_proof lh F k s xs rt) (ideal_proof lh F k e xe rt))
    (slice F s e) s = Ok tt.
Proof.
  intros Hse Hxs Hxe Hk Hrt. pose proof (lookup_lt_Some _ _ _ Hxe) as He.
  unfold range_validate, range_validate_integrity, and_then, range_root. cbn [left_proof right_proof].
  rewrite !ideal_proof_integrity by done. rewrite !bind_Ok.
  rewrite !ideal_proof_root, !bind_Ok, bool_decide_true by done.
  rewrite !ideal_proof_length, bool_decide_true, bind_Ok by done. cbn [negb].
  pose proof (length_slice F s e He) as Hlen.
  assert (slice F s e !! 0 = Some xs) as H0s
    by (by rewrite lookup_slice, decide_True, Nat.add_0_r by lia).
  assert (last (slice F s e) = Some xe) as Hls.
  { rewrite last_lookup, lookup_slice, decide_True by lia.
    by replace (s + pred (length (slice F s e))) with e by lia. }
  destruct (slice F s e) as [|x0 rest] eqn:Hsl; [done|]. simpl in H0s.
  injection H0s as <-. rewrite Hls, Hlen, !ideal_proof_item. cbn [expect]. rewrite !bind_Ok.
  rewrite !ideal_proof_position by lia.
  unfold ensure_eq.
  rewrite (bool_decide_true (x0 = x0)), (bool_decide_true (xe = xe)),
    (bool_decide_true (s = s)), (bool_decide_true (e = _)) by (done || lia).
  rewrite !bind_Ok.
  replace (k + 1 - 1) with k by lia. rewrite <-Hsl in Hlen |- *.
  pose proof (range_loop_ideal lh F k s e x0 xe rt 0 k [] ltac:(lia) Hse He) as Hloop.
  rewrite Nat.pow_0_r, !Nat.div_1_r in Hloop. cbn [ideal plus] in Hloop. rewrite Hloop, bind_Ok.
  pose proof (lookup_lt_Some _ _ _ Hxs). rewrite !Nat.div_small by lia.
  case_decide as Hk0.
  - subst k. simpl in Hrt, Hk. rewrite (bool_decide_true ([] = [])) by done.
    rewrite (bool_decide_true (e + 1 - s = 1)), bind_Ok by lia.
    assert (s = 0) as -> by lia. by rewrite bool_decide_true by congruence.
  - assert (slice (ideal lh F k) 0 0 = [rt]) as ->.
    { apply list_eq. intros [|j]; rewrite lookup_slice; [done|]. by rewrite decide_False by lia. }
    rewrite (bool_decide_false ([rt] = [])) by done. cbn [length last expect].
    by rewrite (bool_decide_true (1 = 1)), !bind_Ok, bool_decide_true by done.
Qed.

End complete.
