(* ===== verification/MerkleProofSound.v ===== *)
(** Soundness of proofs: an accepted [Proof] or [RangeProof] whose root is the
    root of the reference tree over [F] shows nodes of that tree, its leaves when
    the path is as long as the tree is high, unless a pair hashed by the
    verifier collides with a pair hashed in the tree. *)

From S2P Require Import Prelude HashElement SymHash MerkleSpec MerkleProof MerkleProofComplete.

(** ** The pairs that are hashed *)

Section pairs.
Context `{Algorithm E}.
Implicit Types F : list E.

Definition hash_pair (p : E * E) : E := parent p.1 p.2.

(** A pair of [P] and a different pair of [Q] with the same hash. *)
Definition collision (P Q : list (E * E)) : Prop :=
  ∃ p q, p ∈ P ∧ q ∈ Q ∧ p ≠ q ∧ hash_pair p = hash_pair q.

(** The pairs hashed to get the layer above [xs]. *)
Fixpoint layer_pairs (pad : E) (xs : list E) : list (E * E) :=
  match xs with
  | [] => []
  | [x] => [(x, pad)]
  | x :: y :: r => (x, y) :: layer_pairs pad r
  end.

(** The pairs hashed to get the layers [h + 1 .. h + k] of the tree over [F]. *)
Fixpoint tree_pairs (lh : nat) F (h k : nat) : list (E * E) :=
  match k with
  | 0 => []
  | S k' => layer_pairs (end_pad (h + lh)) (ideal lh F h) ++ tree_pairs lh F (S h) k'
  end.

(** The pairs hashed by [Proof::validate]. *)
Fixpoint integrity_pairs (h : E) (ls : list E) (bs : list bool) : list (E * E) :=
  match ls, bs with
  | l :: ls', b :: bs' =>
      let p := if (b : bool) then (h, l) else (l, h) in
      p :: integrity_pairs (hash_pair p) ls' bs'
  | _, _ => []
  end.

Definition proof_pairs (p : proof E) : list (E * E) :=
  match lemma p with
  | [] => []
  | x :: _ => integrity_pairs x (siblings p) (path p)
  end.

(** The pairs hashed by one iteration of [RangeProof::validate] on [current]. *)
Definition range_layer_pairs (r : range_proof E) (height : nat) (current : list E) :
    list (E * E) :=
  let left_is_left := default true (path (left_proof r) !! height) in
  let first := if left_is_left then []
    else match lemma (left_proof r) !! (height + 1), current !! 0 with
         | Some sib, Some c0 => [(sib, c0)]
         | _, _ => []
         end in
  let rest := if left_is_left then current else drop 1 current in
  first ++ match lemma (right_proof r) !! (height + 1) with
           | Some sib => layer_pairs sib rest
           | None => (chunks_exact2 rest).1
           end.

Fixpoint range_loop_pairs (r : range_proof E) (heights : list nat) (current : list E) :
    list (E * E) :=
  match heights with
  | [] => []
  | h :: hs =>
      let ps := range_layer_pairs r h current in
      ps ++ range_loop_pairs r hs (map hash_pair ps)
  end.

Definition range_pairs (r : range_proof E) (range_leaves : list E) : list (E * E) :=
  range_loop_pairs r (seq 0 (length (path (left_proof r)))) range_leaves.

Lemma collision_mono P P' Q Q' :
  P ⊆ P' → Q ⊆ Q' → collision P Q → collision P' Q'.
Proof. intros HP HQ (p & q & Hp & Hq & Hne & Heq). exists p, q. split_and!; auto. Qed.

Lemma collision_app_r P1 P2 Q1 Q2 : collision P2 Q2 → collision (P1 ++ P2) (Q1 ++ Q2).
Proof. apply collision_mono; set_solver. Qed.

Lemma parents_layer_pairs pad xs : parents pad xs = map hash_pair (layer_pairs pad xs).
Proof.
  induction xs as [|x|x y l IH] using list_ind2; [done|done|]. simpl. by rewrite IH.
Qed.

Lemma lookup_layer_pairs pad xs j :
  layer_pairs pad xs !! j =
    match xs !! (2 * j) with
    | Some a => Some (a, default pad (xs !! (2 * j + 1)))
    | None => None
    end.
Proof.
  revert j. induction xs as [|x|x y l IH] using list_ind2; intros j; [done| |].
  - destruct j as [|j]; [done|]. simpl. by replace (j + S (j + 0)) with (S (2 * j)) by lia.
  - destruct j as [|j]; [done|]. cbn [layer_pairs]. rewrite lookup_cons, IH.
    replace (2 * S j) with (S (S (2 * j))) by lia.
    by replace (S (S (2 * j)) + 1) with (S (S (2 * j + 1))) by lia.
Qed.

(** A node of the reference tree is half of the pair hashed for its parent. *)
Lemma ideal_pair lh F h idx x :
  ideal lh F h !! idx = Some x →
  ∃ q, layer_pairs (end_pad (h + lh)) (ideal lh F h) !! (idx / 2) = Some q ∧
    ideal lh F (S h) !! (idx / 2) = Some (hash_pair q) ∧
    q = if bool_decide (idx `mod` 2 = 0) then (x, sibling lh F h idx)
        else (sibling lh F h idx, x).
Proof.
  intros Hx. pose proof (ideal_step lh F h idx x Hx) as Hst.
  eexists. split; [|split; [|done]]; [|rewrite Hst; by case_bool_decide].
  rewrite lookup_layer_pairs. unfold sibling.
  pose proof (Nat.div_mod_eq idx 2). case_bool_decide as Hm.
  - replace (2 * (idx / 2)) with idx by lia. by rewrite Hx.
  - assert (idx `mod` 2 = 1) by div_lia.
    replace (2 * (idx / 2) + 1) with idx by lia. rewrite Hx.
    replace (2 * (idx / 2)) with (idx - 1) by lia.
    destruct (lookup_lt_is_Some_2 (ideal lh F h) (idx - 1)) as [s Hs].
    + apply lookup_lt_Some in Hx. lia.
    + by rewrite Hs.
Qed.

(** ** [Proof::validate] *)

Lemma integrity_loop_sound lh F h idx k x ss y z :
  length ss = k →
  integrity_loop x ss (path_bits idx k) = Ok y →
  ideal lh F (h + k) !! (idx / 2 ^ k) = Some y →
  ideal lh F h !! idx = Some z →
  z = x ∨ collision (integrity_pairs x ss (path_bits idx k)) (tree_pairs lh F h k).
Proof.
  revert h idx x ss z. induction k as [|k IH]; intros h idx x ss z Hlen Hloop Hy Hz.
  - destruct ss; [|done]. simpl in Hloop. simplify_eq.
    rewrite Nat.pow_0_r, Nat.div_1_r, Nat.add_0_r in Hy. left. congruence.
  - destruct ss as [|s ss]; [done|]. simplify_eq/=.
    destruct (ideal_pair lh F h idx z Hz) as (q & Hq & Hz' & Hqeq).
    set (p := if bool_decide (idx `mod` 2 = 0) then (x, s) else (s, x)).
    assert ((if bool_decide (idx `mod` 2 = 0) then parent x s else parent s x) = hash_pair p)
      as Hp by (unfold p; by case_bool_decide).
    rewrite Hp in Hloop.
    destruct (IH (S h) (idx / 2) (hash_pair p) ss (hash_pair q)) as [Heq|Hcol]; try done.
    { rewrite Nat.Div0.div_div, <-Nat.pow_succ_r'. by replace (S h + length ss) with (h + S (length ss)) by lia. }
    + destruct (decide (p = q)) as [Hpq|Hpq].
      * left. unfold p in Hpq. rewrite Hqeq in Hpq. case_bool_decide; congruence.
      * right. exists p, q. split_and!; [left| |done|done].
        apply elem_of_app. left. by eapply list_elem_of_lookup_2.
    + right. apply (collision_app_r [p]). done.
Qed.

(** ** [RangeProof::validate] *)

Lemma chunks_exact2_layer_pairs sib (xs : list E) cs rem :
  chunks_exact2 xs = (cs, rem) →
  layer_pairs sib xs = cs ++ match rem with [r] => [(r, sib)] | _ => [] end ∧
  (rem = [] ∨ ∃ r, rem = [r]).
Proof.
  revert cs rem. induction xs as [|x|x y l IH] using list_ind2; intros cs rem.
  - intros [= <- <-]. split; [done|by left].
  - intros [= <- <-]. split; [done|right; by exists x].
  - cbn [chunks_exact2]. destruct (chunks_exact2 l) as [cs' rem'].
    intros [= <- <-]. destruct (IH cs' rem' eq_refl) as [Hl Hr].
    split; [|done]. cbn [layer_pairs]. by rewrite Hl.
Qed.

(** A layer that is computed without an error is the hash of its pairs. *)
Lemma range_parent_layer_Ok r h cur pl (b : bool) :
  path (left_proof r) !! h = Some b →
  range_parent_layer r h cur = Ok pl →
  ∃ sib first, range_layer_pairs r h cur =
      first ++ layer_pairs sib (if b then cur else drop 1 cur) ∧
    pl = map hash_pair (range_layer_pairs r h cur) ∧
    (if b then first = [] else ∃ s c0, cur !! 0 = Some c0 ∧ first = [(s, c0)]).
Proof.
  intros Hb. unfold range_parent_layer, range_layer_pairs. rewrite Hb. cbn [expect from_option id].
  rewrite bind_Ok.
  assert (∀ first rest, (let '(pairs, rem) := chunks_exact2 rest in
     let parent_layer := map hash_pair first ++ map (λ ab, parent ab.1 ab.2) pairs in
     match rem with
     | [right_most] =>
         right_is_left ← expect (path (right_proof r) !! h);
         if (right_is_left : bool) then
           sib ← expect (lemma (right_proof r) !! (h + 1));
           Ok (parent_layer ++ [parent right_most sib])
         else Err "Unexpected error"
     | _ => Ok parent_layer
     end) = Ok pl →
     ∃ sib, first ++ match lemma (right_proof r) !! (h + 1) with
           | Some sib => layer_pairs sib rest
           | None => (chunks_exact2 rest).1
           end = first ++ layer_pairs sib rest ∧
       pl = map hash_pair (first ++ layer_pairs sib rest)) as Hrest.
  { intros first rest. destruct (chunks_exact2 rest) as [cs rem] eqn:Hch.
    destruct (lemma (right_proof r) !! (h + 1)) as [sib|]; cbn [expect fst].
    - destruct (chunks_exact2_layer_pairs sib _ _ _ Hch) as [Hlp [->|[x ->]]].
      + intros [= <-]. exists sib. by rewrite Hlp, app_nil_r, map_app.
      + intros (rb & _ & Hpl)%bind_Ok_inv. destruct rb; [|done]. injection Hpl as <-.
        exists sib. by rewrite Hlp, !map_app, <-app_assoc.
    - destruct (chunks_exact2_layer_pairs (end_pad 0) _ _ _ Hch) as [Hlp [->|[x ->]]].
      + intros [= <-]. exists (end_pad 0). by rewrite Hlp, app_nil_r, map_app.
      + intros (rb & _ & Hpl)%bind_Ok_inv. by destruct rb. }
  destruct b; cbn [negb].
  - rewrite bind_Ok. intros Hpl. destruct (Hrest [] cur Hpl) as (sib & Hp & ->).
    exists sib, []. cbn [app] in *. by rewrite Hp.
  - destruct (lemma (left_proof r) !! (h + 1)) as [s|]; [|done].
    destruct (cur !! 0) as [c0|]; [|done]. cbn [expect]. rewrite !bind_Ok.
    intros Hpl. destruct (Hrest [(s, c0)] (drop 1 cur) Hpl) as (sib & Hp & ->).
    exists sib, [(s, c0)]. cbn [app] in *. rewrite Hp. split_and!; eauto.
Qed.

(** Each node of the layer is half of the pair of its parent. *)
Lemma range_layer_pairs_lookup r h cur pl lo i x :
  path (left_proof r) !! h = Some (bool_decide (lo `mod` 2 = 0)) →
  range_parent_layer r h cur = Ok pl → cur !! i = Some x →
  ∃ p, range_layer_pairs r h cur !! ((lo + i) / 2 - lo / 2) = Some p ∧
    x = if bool_decide ((lo + i) `mod` 2 = 0) then p.1 else p.2.
Proof.
  intros Hb Hpl Hx.
  destruct (range_parent_layer_Ok r h cur pl _ Hb Hpl) as (sib & first & -> & _ & Hf).
  assert (∀ xs j, xs !! j = Some x → ∃ p, layer_pairs sib xs !! (j / 2) = Some p ∧
     x = if bool_decide (j `mod` 2 = 0) then p.1 else p.2) as Hlp.
  { clear Hf Hpl Hb. intros xs j Hj. rewrite lookup_layer_pairs. pose proof (Nat.div_mod_eq j 2).
    case_bool_decide as Hm.
    - replace (2 * (j / 2)) with j by lia. rewrite Hj. by eexists.
    - assert (j `mod` 2 = 1) by div_lia. replace (2 * (j / 2) + 1) with j by lia. rewrite Hj.
      destruct (lookup_lt_is_Some_2 xs (2 * (j / 2))) as [y ->]; [|by eexists].
      apply lookup_lt_Some in Hj. lia. }
  case_bool_decide as Hlo.
  - subst first. destruct (Hlp cur i Hx) as (p & Hp & ->). exists p. cbn [app].
    replace ((lo + i) / 2 - lo / 2) with (i / 2) by div_lia. split; [done|].
    by replace ((lo + i) `mod` 2) with (i `mod` 2) by div_lia.
  - destruct Hf as (s & c0 & Hc0 & ->). destruct i as [|i].
    + exists (s, c0). rewrite Nat.add_0_r, Nat.sub_diag, bool_decide_false by done.
      simplify_eq. done.
    + destruct (Hlp (drop 1 cur) i) as (p & Hp & ->); [by rewrite lookup_drop|].
      exists p. replace ((lo + S i) / 2 - lo / 2) with (S (i / 2)) by div_lia. split; [done|].
      by replace ((lo + S i) `mod` 2) with (i `mod` 2) by div_lia.
Qed.

(** The loop at height [h] of the proof, over the layer [g] of the tree. *)
Lemma range_loop_sound lh F r h g m cur lo rt :
  range_loop r (seq h m) cur cur = Ok [rt] →
  (∀ j, j < m → path (left_proof r) !! (h + j) = Some (bool_decide ((lo / 2 ^ j) `mod` 2 = 0))) →
  lo < 2 ^ m → ideal lh F (g + m) !! 0 = Some rt →
  ∀ i x z, cur !! i = Some x → ideal lh F g !! (lo + i) = Some z →
    z = x ∨ collision (range_loop_pairs r (seq h m) cur) (tree_pairs lh F g m).
Proof.
  revert h g cur lo. induction m as [|m IH]; intros h g cur lo Hloop Hb Hlo Hrt i x z Hx Hz.
  - simpl in Hloop, Hlo. simplify_eq. rewrite Nat.add_0_r in Hrt.
    apply list_lookup_singleton_Some in Hx as [-> <-].
    left. replace (lo + 0) with 0 in Hz by lia. congruence.
  - cbn [seq range_loop] in Hloop. apply bind_Ok_inv in Hloop as (pl & Hpl & Hloop).
    pose proof (Hb 0 ltac:(lia)) as Hb0. rewrite Nat.add_0_r, Nat.pow_0_r, Nat.div_1_r in Hb0.
    destruct (range_layer_pairs_lookup r h cur pl lo i x Hb0 Hpl Hx) as (p & Hp & Hxp).
    destruct (range_parent_layer_Ok r h cur pl _ Hb0 Hpl) as (_ & _ & _ & Hplp & _).
    destruct (ideal_pair lh F g (lo + i) z Hz) as (q & Hq & Hz' & Hqeq).
    rewrite Nat.pow_succ_r' in Hlo.
    destruct (IH (S h) (S g) pl (lo / 2) Hloop) with (i := (lo + i) / 2 - lo / 2)
      (x := hash_pair p) (z := hash_pair q) as [Heq|Hcol].
    + intros j Hj. rewrite Nat.Div0.div_div, <-Nat.pow_succ_r', Nat.add_succ_comm.
      apply Hb. lia.
    + div_lia.
    + by rewrite Nat.add_succ_comm.
    + rewrite Hplp, list_lookup_fmap, Hp. done.
    + replace (lo / 2 + ((lo + i) / 2 - lo / 2)) with ((lo + i) / 2) by div_lia. done.
    + destruct (decide (p = q)) as [->|Hpq].
      * left. rewrite Hxp, Hqeq. by case_bool_decide.
      * right. exists p, q. split_and!; [| |done|done];
          apply elem_of_app; left; by eapply list_elem_of_lookup_2.
    + right. cbn [seq range_loop_pairs tree_pairs]. rewrite <-Hplp. by apply collision_app_r.
Qed.

Lemma range_loop_nonempty (r : range_proof E) hs cur ch :
  cur ≠ [] → range_loop r hs cur cur = Ok ch → ch ≠ [].
Proof.
  revert cur. induction hs as [|h hs IH]; intros cur Hc; simpl; [by intros [= <-]|].
  intros (pl & Hpl & Hl)%bind_Ok_inv. apply (IH pl); [|done].
  destruct (path (left_proof r) !! h) as [b|] eqn:Hb.
  - destruct (range_parent_layer_Ok r h cur pl b Hb Hpl) as (sib & first & -> & -> & Hf).
    destruct b; [subst first|by destruct Hf as (?&?&_&->)].
    by destruct cur as [|? [|]].
  - unfold range_parent_layer in Hpl. by rewrite Hb in Hpl.
Qed.

(** What [validate] has checked when it accepts. *)
Lemma validate_Ok (p : proof E) x pos :
  validate p x pos = Ok tt →
  ∃ r, item p = Ok x ∧ proof_root p = Ok r ∧ position p = pos ∧
    integrity_loop x (siblings p) (path p) = Ok r.
Proof.
  unfold validate, validate_integrity. destruct (bool_decide (length (lemma p) < 2)); [done|].
  intros (ok & (h & Hi & (h' & Hloop & (r & Hr & [= <-])%bind_Ok_inv)%bind_Ok_inv)%bind_Ok_inv
    & Hv)%bind_Ok_inv.
  case_bool_decide; [|done]. subst h'. cbn [negb] in Hv. rewrite Hi, bind_Ok in Hv.
  case_bool_decide as Hit; [done|]. case_bool_decide as Hpos; [done|].
  subst. eauto.
Qed.

Lemma ensure_eq_Ok {A} `{EqDecision A} (a b : A) u : ensure_eq a b = Ok u → a = b.
Proof. unfold ensure_eq. by case_bool_decide. Qed.

Lemma range_validate_Ok (r : range_proof E) ls start :
  range_validate r ls start = Ok tt →
  ∃ rt, range_root r = Ok rt ∧ position (left_proof r) = start ∧
    range_loop r (seq 0 (length (path (left_proof r)))) ls ls = Ok [rt].
Proof.
  unfold range_validate. intros (ok & _ & Hv)%bind_Ok_inv. destruct ok; [|done]. cbn [negb] in Hv.
  destruct ls as [|l0 ls]; [done|].
  apply bind_Ok_inv in Hv as (li & _ & Hv). apply bind_Ok_inv in Hv as ([] & _ & Hv).
  apply bind_Ok_inv in Hv as (ri & _ & Hv). apply bind_Ok_inv in Hv as (rl & _ & Hv).
  apply bind_Ok_inv in Hv as ([] & _ & Hv).
  apply bind_Ok_inv in Hv as ([] & Hstart%ensure_eq_Ok & Hv).
  apply bind_Ok_inv in Hv as ([] & _ & Hv).
  replace (length (path (left_proof r)) + 1 - 1) with (length (path (left_proof r))) in Hv by lia.
  apply bind_Ok_inv in Hv as (ch & Hloop & Hv).
  destruct (length (path (left_proof r))) as [|k] eqn:Hk.
  - simpl in Hloop. simplify_eq. rewrite bool_decide_true in Hv by done.
    apply bind_Ok_inv in Hv as ([] & Hlen%ensure_eq_Ok & Hv).
    apply bind_Ok_inv in Hv as (rt & Hrt & ->%ensure_eq_Ok).
    exists rt. split_and!; [done|done|]. by destruct ls.
  - change (range_loop r (seq 0 (S k)) (l0 :: ls) (l0 :: ls) = Ok ch) in Hloop.
    case_bool_decide as Hch.
    + by apply range_loop_nonempty in Hloop.
    + apply bind_Ok_inv in Hv as ([] & Hlen%ensure_eq_Ok & Hv).
      apply bind_Ok_inv in Hv as (c & Hc & Hv).
      apply bind_Ok_inv in Hv as (rt & Hrt & ->%ensure_eq_Ok).
      exists rt. split_and!; [done|done|]. destruct ch as [|y [|]]; try done.
      simpl in Hc. by simplify_eq.
Qed.

End pairs.

(** C4: an accepted inclusion proof with the length that [Proof::new] requires
    is sound: if its root is the root of the tree over [F] of height [height], the
    node at the claimed position of the layer that the path reaches down to is
    the proved item, unless a pair hashed by the verifier collides with a pair
    hashed in that tree.  That layer is the one of the leaves exactly when the
    path is as long as the tree is high, which the verifier does not check: a
    shorter proof shows an inner node.  The position of a path of more than 64
    steps does not fit in a [usize]. *)
Theorem validate_sound `{Algorithm E} lh (F : list E) (height : nat) (p : proof E) x pos r z :
  validate p x pos = Ok tt →
  length (lemma p) = length (path p) + 2 →
  length (path p) ≤ 64 → length (path p) ≤ height →
  proof_root p = Ok r →
  ideal lh F height !! 0 = Some r →
  ideal lh F (height - length (path p)) !! pos = Some z →
  z = x ∨ collision (proof_pairs p) (tree_pairs lh F (height - length (path p)) (length (path p))).
Proof.
  intros (r' & Hi & Hr' & Hpos & Hloop)%validate_Ok Hlen _ HH Hr Hid Hz.
  subst pos. rewrite Hr in Hr'. injection Hr' as <-.
  assert (length (siblings p) = length (path p)) as Hs.
  { unfold siblings. rewrite length_take, length_drop. lia. }
  unfold proof_pairs. unfold item in Hi. destruct (lemma p) as [|y ls]; [done|].
  simpl in Hi. injection Hi as ->.
  pose proof (integrity_loop_sound lh F (height - length (path p)) (position p) (length (path p)) x
    (siblings p) r z Hs) as HS.
  unfold position in *. rewrite path_bits_position, Nat.div_small in HS by apply position_lt.
  replace (height - length (path p) + length (path p)) with height in HS by lia.
  apply HS; [exact Hloop|exact Hid|exact Hz].
Qed.

(** C12: an accepted range proof is sound: if its root is the root of the tree
    over [F] of height [height], every item of the range is the node at its position
    of the layer that the paths reach down to, unless a pair hashed by the
    verifier collides with a pair hashed in that tree.  As for single proofs
    this is the layer of the leaves exactly when the paths are as long as the
    tree is high. *)
Theorem range_validate_sound `{Algorithm E} lh (F : list E) (height : nat) (r : range_proof E) ls start rt i x z :
  range_validate r ls start = Ok tt →
  length (path (left_proof r)) ≤ 64 → length (path (left_proof r)) ≤ height →
  range_root r = Ok rt →
  ideal lh F height !! 0 = Some rt →
  ls !! i = Some x → ideal lh F (height - length (path (left_proof r))) !! (start + i) = Some z →
  z = x ∨ collision (range_pairs r ls)
    (tree_pairs lh F (height - length (path (left_proof r))) (length (path (left_proof r)))).
Proof.
  intros (rt' & Hrt' & Hpos & Hloop)%range_validate_Ok _ HH Hrt Hid Hx Hz.
  subst start. rewrite Hrt in Hrt'. injection Hrt' as <-.
  eapply (range_loop_sound lh F r 0); [exact Hloop| |apply position_lt| |exact Hx|exact Hz].
  - intros j Hj. pose proof (path_bits_position (path (left_proof r))) as Hpb.
    rewrite <-Hpb at 1. by rewrite lookup_path_bits.
  - by replace (height - length (path (left_proof r)) + length (path (left_proof r))) with height by lia.
Qed.

Section malformed.
Context `{Algorithm E}.

Lemma integrity_loop_short (h : E) ls bs : length bs < length ls → integrity_loop h ls bs = Panic.
Proof.
  revert h bs. induction ls as [|l ls IH]; intros h bs Hl; cbn in Hl; [lia|].
  destruct bs as [|b bs]; [done|]. cbn in *. apply IH. lia.
Qed.

Lemma integrity_loop_extra (h : E) ls bs bs' :
  length bs = length ls → integrity_loop h ls (bs ++ bs') = integrity_loop h ls bs.
Proof.
  revert h bs. induction ls as [|l ls IH]; intros h bs Hl; [done|].
  destruct bs as [|b bs]; [done|]. cbn in *. apply IH. lia.
Qed.

Lemma position_from_app i bs bs' :
  position_from i (bs ++ bs') = position_from i bs + position_from (i + length bs) bs'.
Proof.
  revert i. induction bs as [|b bs IH]; intros i; cbn; [by rewrite Nat.add_0_r|].
  rewrite IH. replace (i + S (length bs)) with (S i + length bs) by lia. lia.
Qed.

(** [Proof::validate] relies on the shape that [Proof::new] checks but
    decoding does not.  A proof whose path is too short for its lemma panics,
    whatever the item and the position; and when the path is longer, its extra
    bits are not covered by the hashes: from any valid proof one gets a valid
    proof of the same item at another position. *)
Theorem validate_malformed_path (p : proof E) (x : E) (pos : nat) :
  (length (path p) + 2 < length (lemma p) → validate p x pos = Panic) ∧
  (length (path p) + 2 = length (lemma p) → validate p x pos = Ok tt →
   validate (Proof_mk (lemma p) (path p ++ [false])) x (pos + 2 ^ length (path p)) = Ok tt).
Proof.
  assert (length (lemma p) ≥ 2 → length (siblings p) = length (lemma p) - 2) as Hs.
  { intros Hl. unfold siblings. rewrite length_take, length_drop. lia. }
  split.
  - intros Hl. unfold validate, validate_integrity. rewrite (bool_decide_false (length (lemma p) < 2)) by lia.
    unfold item. destruct (lemma p) as [|y ls]; [cbn in Hl; lia|]. cbn [head hd_error expect].
    rewrite !bind_Ok, integrity_loop_short; [done|]. rewrite Hs by lia. lia.
  - intros Hl. unfold validate, validate_integrity, siblings, item, proof_root, position.
    cbn [lemma path]. fold (siblings p). rewrite position_from_app, Nat.add_0_l. cbn [position_from].
    rewrite (bool_decide_false (length (lemma p) < 2)) by lia.
    destruct (head (lemma p)) as [h|]; [|done]. cbn [expect]. rewrite !bind_Ok.
    rewrite integrity_loop_extra by (rewrite Hs by lia; lia). destruct (integrity_loop _ _ _); [|done..].
    destruct (last (lemma p)); [|done]. cbn [expect]. rewrite !bind_Ok.
    destruct (bool_decide _); [|done]. cbn [negb]. destruct (bool_decide (x ≠ h)); [done|].
    case_bool_decide as Hp; [done|]. intros _. rewrite bool_decide_false; [done|]. lia.
Qed.

End malformed.

Definition example_leaves : list sym := [sl 1; sl 2; sl 3].

Definition example_proof : proof sym :=
  Proof_mk [sl 3; SPad 0; SNode (sl 1) (sl 2); SNode (SNode (sl 1) (sl 2)) (SNode (sl 3) (SPad 0))]
    [true; false].

Definition example_range_proof : range_proof sym :=
  RangeProof_mk
    (Proof_mk [sl 2; sl 1; SNode (sl 3) (SPad 0);
               SNode (SNode (sl 1) (sl 2)) (SNode (sl 3) (SPad 0))] [false; true])
    example_proof.

(** A proof of the inner node over the first two leaves, which [validate]
    accepts for position 0 against the root of the tree of height 2. *)
Definition example_inner_proof : proof sym :=
  Proof_mk [SNode (sl 1) (sl 2); SNode (sl 3) (SPad 0);
            SNode (SNode (sl 1) (sl 2)) (SNode (sl 3) (SPad 0))] [true].

Lemma validate_sound_witness :
  validate example_proof (sl 3) 2 = Ok tt ∧
  (sl 3 = sl 3 ∨ collision (proof_pairs example_proof) (tree_pairs 0 example_leaves 0 2)) ∧
  validate example_inner_proof (SNode (sl 1) (sl 2)) 0 = Ok tt ∧
  (SNode (sl 1) (sl 2) = SNode (sl 1) (sl 2) ∨
   collision (proof_pairs example_inner_proof) (tree_pairs 0 example_leaves 1 1)).
Proof.
  split; [reflexivity|]. split; [|split; [reflexivity|]].
  - apply (validate_sound 0 example_leaves 2 example_proof (sl 3) 2
             (SNode (SNode (sl 1) (sl 2)) (SNode (sl 3) (SPad 0)))); first [reflexivity|cbn; lia].
  - apply (validate_sound 0 example_leaves 2 example_inner_proof (SNode (sl 1) (sl 2)) 0
             (SNode (SNode (sl 1) (sl 2)) (SNode (sl 3) (SPad 0)))); first [reflexivity|cbn; lia].
Defined.

Lemma range_validate_sound_witness :
  range_validate example_range_proof [sl 2; sl 3] 1 = Ok tt ∧
  (sl 3 = sl 3 ∨
   collision (range_pairs example_range_proof [sl 2; sl 3]) (tree_pairs 0 example_leaves 0 2)).
Proof.
  split; [reflexivity|].
  apply (range_validate_sound 0 example_leaves 2 example_range_proof [sl 2; sl 3] 1
           (SNode (SNode (sl 1) (sl 2)) (SNode (sl 3) (SPad 0))) 1); first [reflexivity|cbn; lia].
Defined.

Lemma validate_malformed_path_witness :
  (length (path example_proof) + 2 < length (lemma example_proof) →
     validate example_proof (sl 3) 2 = Panic) ∧
  (length (path example_proof) + 2 = length (lemma example_proof) →
     validate example_proof (sl 3) 2 = Ok tt →
   validate (Proof_mk (lemma example_proof) [true; false; false]) (sl 3) 6 = Ok tt).
Proof. exact (validate_malformed_path example_proof (sl 3) 2). Defined.
