(* ===== verification/NodeStore.v ===== *)
(** The interface between the tree and its node storage: the methods of
    [NodeManager] that [AppendMerkleTree] calls, and what they promise.

    [rep s open L] says that the store [s] holds the layers [L], with or
    without an open transaction.  The tree is verified against these laws; the
    node manager discharges them. *)

From S2P Require Import Prelude.

Class NodeStore (NM E : Type) := {
  nm_num_layers : NM → nat;
  nm_layer_size : NM → nat → outcome nat;
  nm_get_node : NM → nat → nat → option E;
  nm_push_node : nat → E → M NM ();
  nm_append_nodes : nat → list E → M NM ();
  nm_add_node : nat → nat → E → M NM ();
  nm_add_layer : M NM ();
  nm_truncate_nodes : nat → nat → M NM ();
  nm_truncate_layer : nat → M NM ();
  nm_start_transaction : M NM ();
  nm_commit : M NM ();
  nm_new_dummy : NM;
}.

(** [get_nodes(layer, start, end)]: the iterator reads node after node and ends
    at [end] or at the first node that is missing. *)
Fixpoint get_nodes_n `{NodeStore NM E} (s : NM) (layer pos n : nat) : list E :=
  match n with
  | 0 => []
  | S n' =>
      match nm_get_node s layer pos with
      | Some x => x :: get_nodes_n s layer (S pos) n'
      | None => []
      end
  end.

Definition get_nodes `{NodeStore NM E} (s : NM) (layer start_pos end_pos : nat) : list E :=
  get_nodes_n s layer start_pos (end_pos - start_pos).

Class NodeStoreLaws (NM E : Type) `{NodeStore NM E} := {
  rep : NM → bool → list (list E) → Prop;
  rep_num_layers s b L : rep s b L → nm_num_layers s = length L;
  rep_layer_size s b L h l : rep s b L → L !! h = Some l → nm_layer_size s h = Ok (length l);
  rep_get_node s b L h l i x :
    rep s b L → L !! h = Some l → l !! i = Some x → nm_get_node s h i = Some x;
  rep_push_node s L h l x :
    rep s true L → L !! h = Some l →
    wp (nm_push_node h x) (λ _ s', rep s' true (<[h := l ++ [x]]> L)) s;
  rep_append_nodes s L h l xs :
    rep s true L → L !! h = Some l →
    wp (nm_append_nodes h xs) (λ _ s', rep s' true (<[h := l ++ xs]> L)) s;
  rep_add_node s L h l i x :
    rep s true L → L !! h = Some l → i < length l →
    wp (nm_add_node h i x) (λ _ s', rep s' true (<[h := <[i := x]> l]> L)) s;
  rep_add_layer s L :
    rep s true L → wp nm_add_layer (λ _ s', rep s' true (L ++ [[]])) s;
  rep_truncate_nodes s L h l n :
    rep s true L → L !! h = Some l → n ≤ length l →
    wp (nm_truncate_nodes h n) (λ _ s', rep s' true (<[h := take n l]> L)) s;
  rep_truncate_layer s L l :
    rep s true (L ++ [l]) →
    wp (nm_truncate_layer (length L)) (λ _ s', rep s' true L) s;
  rep_start_transaction s L :
    rep s false L → wp nm_start_transaction (λ _ s', rep s' true L) s;
  rep_start_twice s L : rep s true L → nm_start_transaction s = (Panic, s);
  rep_commit s L : rep s true L → wp nm_commit (λ _ s', rep s' false L) s;
  rep_new_dummy : rep nm_new_dummy false [];
}.

Section facts.
Context `{NodeStoreLaws NM E}.

Lemma get_nodes_rep (s : NM) b L h (l : list E) a e :
  rep s b L → L !! h = Some l → e ≤ length l → get_nodes s h a e = take (e - a) (drop a l).
Proof.
  intros Hr Hl He. unfold get_nodes. remember (e - a) as n eqn:Hn.
  revert a Hn. induction n as [|n IH]; intros a Hn; [done|].
  cbn [get_nodes_n]. destruct (lookup_lt_is_Some_2 l a) as [x Hx]; [lia|].
  rewrite (rep_get_node _ _ _ _ _ _ _ Hr Hl Hx), (drop_S _ _ _ Hx). cbn [take].
  f_equal. apply IH. lia.
Qed.

End facts.
