(* ===== verification/NodeManager.v ===== *)
(** The node storage of a tree: [common/append_merkle/src/node_manager.rs].

    A [NodeManager] keeps the sizes of the layers, a cache of nodes and a
    database with at most one open transaction.  The cache is the crate
    [lru]; its documented behaviour is the class [LruCache] with its laws.  The
    databases are [EmptyNodeDatabase] and the one of [FlowDb].

    A manager with an unbounded cache is a [NodeStore]; see
    [NodeManagerTheorems] for what holds with a bounded one. *)

From S2P Require Import Prelude NodeStore.

(** ** The crate [lru] *)

Class LruCache (C K V : Type) := {
  lru_peek : K → C → option V;
  lru_get : K → C → option V * C;
  lru_put : K → V → C → C;
  lru_pop : K → C → C;
  lru_unbounded : C;
  lru_new : nat → C;
}.

(** [lossless c]: the cache [c] is unbounded and never evicts.  Of a bounded
    cache only [peek_put] is known: a [put] may evict other entries, and what
    stays is unchanged.  [get] only changes the order of the entries. *)
Class LruCacheLaws (C K V : Type) `{LruCache C K V} := {
  lossless : C → Prop;
  lossless_unbounded : lossless lru_unbounded;
  peek_unbounded k : lru_peek k lru_unbounded = None;
  peek_new k n : lru_peek k (lru_new n) = None;
  lossless_put k v c : lossless c → lossless (lru_put k v c);
  lossless_pop k c : lossless c → lossless (lru_pop k c);
  lossless_get k c : lossless c → lossless (lru_get k c).2;
  peek_put_eq k v c : lossless c → lru_peek k (lru_put k v c) = Some v;
  peek_put_ne k k' v c : lossless c → k ≠ k' → lru_peek k' (lru_put k v c) = lru_peek k' c;
  peek_put k v c k' w : lru_peek k' (lru_put k v c) = Some w → k' = k ∧ w = v ∨ k' ≠ k ∧ lru_peek k' c = Some w;
  peek_pop_eq k c : lru_peek k (lru_pop k c) = None;
  peek_pop_ne k k' c : k ≠ k' → lru_peek k' (lru_pop k c) = lru_peek k' c;
  get_peek k c : (lru_get k c).1 = lru_peek k c;
  peek_get k k' c : lru_peek k' (lru_get k c).2 = lru_peek k' c;
}.

(** ** The traits [NodeDatabase] and [NodeTransaction] *)

Class NodeDatabase (D T E : Type) := {
  ndb_get_node : D → nat → nat → outcome (option E);
  ndb_get_layer_size : D → nat → outcome (option nat);
  ndb_start_transaction : D → T;
  ndb_commit : T → D → outcome () * D;
  ntx_save_node : nat → nat → E → T → T;
  ntx_save_node_list : list (nat * nat * E) → T → T;
  ntx_remove_node_list : list (nat * nat) → T → T;
  ntx_save_layer_size : nat → nat → T → T;
  ntx_remove_layer_size : nat → T → T;
  ndb_empty : D;
}.

Record NodeManager (C D T : Type) := NodeManager_mk {
  cache : C;
  layer_size : list nat;
  db : D;
  db_tx : option T;
}.
Arguments NodeManager_mk {C D T} cache layer_size db db_tx.
Arguments cache {C D T} n.
Arguments layer_size {C D T} n.
Arguments db {C D T} n.
Arguments db_tx {C D T} n.

Section node_manager.
Context `{EqDecision E, !LruCache C (nat * nat) E, !NodeDatabase D T E}.
Local Abbreviation manager := (NodeManager C D T).
Implicit Types s : manager.

Definition set_cache (c : C) s : manager := NodeManager_mk c (layer_size s) (db s) (db_tx s).
Definition set_sizes (ls : list nat) s : manager := NodeManager_mk (cache s) ls (db s) (db_tx s).
Definition set_tx (tx : option T) s : manager := NodeManager_mk (cache s) (layer_size s) (db s) tx.

(** [self.db_tx().op(..)]: panics without an open transaction. *)
Definition with_db_tx (f : T → T) : M manager () := λ s,
  match db_tx s with
  | Some tx => (Ok tt, set_tx (Some (f tx)) s)
  | None => (Panic, s)
  end.

(** [while let Some(size) = db.get_layer_size(layer)?]: [layers] bounds the
    number of layers of the database. *)
Fixpoint load_layer_sizes (d : D) (fuel layer : nat) : outcome (list nat) :=
  match fuel with
  | 0 => Diverge
  | S fuel' =>
      o ← ndb_get_layer_size d layer;
      match o with
      | Some size => r ← load_layer_sizes d fuel' (S layer); Ok (size :: r)
      | None => Ok []
      end
  end.

Definition manager_new (layers : nat) (d : D) (capacity : nat) : outcome manager :=
  sizes ← load_layer_sizes d (S layers) 0;
  if bool_decide (capacity = 0) then Panic
  else Ok (NodeManager_mk (lru_new capacity) sizes d None).

Definition new_dummy : manager := NodeManager_mk lru_unbounded [] ndb_empty None.

Definition layer_size_at s (layer : nat) : outcome nat := expect (layer_size s !! layer).

Definition manager_get_node s (layer pos : nat) : option E :=
  match lru_peek (layer, pos) (cache s) with
  | Some x => Some x
  | None =>
      match ndb_get_node (db s) layer pos with
      | Ok o => o
      | _ => None
      end
  end.

Definition set_layer_size (layer size : nat) : M manager () :=
  _ ← gets_ok (λ s, expect (layer_size s !! layer));
  _ ← modify (λ s, set_sizes (<[layer := size]> (layer_size s)) s);
  with_db_tx (ntx_save_layer_size layer size).

Definition manager_add_node (layer pos : nat) (x : E) : M manager () :=
  cur ← gets (λ s, lru_get (layer, pos) (cache s));
  _ ← modify (set_cache cur.2);
  if bool_decide (cur.1 = Some x) then mret tt
  else
    _ ← with_db_tx (ntx_save_node layer pos x);
    modify (λ s, set_cache (lru_put (layer, pos) x (cache s)) s).

Definition manager_push_node (layer : nat) (x : E) : M manager () :=
  n ← gets_ok (λ s, layer_size_at s layer);
  _ ← manager_add_node layer n x;
  n' ← gets_ok (λ s, layer_size_at s layer);
  set_layer_size layer (n' + 1).

(** The loop of [append_nodes]: the cache is written node by node. *)
Fixpoint put_nodes (layer pos : nat) (xs : list E) (c : C) : C :=
  match xs with
  | [] => c
  | x :: xs' => put_nodes layer (S pos) xs' (lru_put (layer, pos) x c)
  end.

(** [saved_nodes] *)
Fixpoint positioned (layer pos : nat) (xs : list E) : list (nat * nat * E) :=
  match xs with
  | [] => []
  | x :: xs' => (layer, pos, x) :: positioned layer (S pos) xs'
  end.

Definition manager_append_nodes (layer : nat) (xs : list E) : M manager () :=
  pos ← gets_ok (λ s, layer_size_at s layer);
  _ ← modify (λ s, set_cache (put_nodes layer pos xs (cache s)) s);
  _ ← set_layer_size layer (pos + length xs);
  with_db_tx (ntx_save_node_list (positioned layer pos xs)).

Definition manager_add_layer : M manager () :=
  _ ← modify (λ s, set_sizes (layer_size s ++ [0]) s);
  n ← gets (λ s, length (layer_size s));
  with_db_tx (ntx_save_layer_size (n - 1) 0).

Definition manager_truncate_nodes (layer pos_end : nat) : M manager () :=
  n ← gets_ok (λ s, layer_size_at s layer);
  let removed := (λ pos, (layer, pos)) <$> seq pos_end (n - pos_end) in
  _ ← modify (λ s, set_cache (foldl (λ c k, lru_pop k c) (cache s) removed) s);
  _ ← with_db_tx (ntx_remove_node_list removed);
  set_layer_size layer pos_end.

Definition manager_truncate_layer (layer : nat) : M manager () :=
  _ ← manager_truncate_nodes layer 0;
  n ← gets (λ s, length (layer_size s));
  when (bool_decide (layer = n - 1)) (
    _ ← modify (λ s, set_sizes (removelast (layer_size s)) s);
    with_db_tx (ntx_remove_layer_size layer)).

Definition manager_start_transaction : M manager () := λ s,
  match db_tx s with
  | Some _ => (Panic, s)
  | None => (Ok tt, set_tx (Some (ndb_start_transaction (db s))) s)
  end.

(** A failed commit is only logged. *)
Definition manager_commit : M manager () := λ s,
  match db_tx s with
  | None => (Ok tt, s)
  | Some tx =>
      (Ok tt, NodeManager_mk (cache s) (layer_size s) (ndb_commit tx (db s)).2 None)
  end.

#[export] Instance manager_store : NodeStore manager E := {|
  nm_num_layers s := length (layer_size s);
  nm_layer_size := layer_size_at;
  nm_get_node := manager_get_node;
  nm_push_node := manager_push_node;
  nm_append_nodes := manager_append_nodes;
  nm_add_node := manager_add_node;
  nm_add_layer := manager_add_layer;
  nm_truncate_nodes := manager_truncate_nodes;
  nm_truncate_layer := manager_truncate_layer;
  nm_start_transaction := manager_start_transaction;
  nm_commit := manager_commit;
  nm_new_dummy := new_dummy;
|}.

End node_manager.
