(* ===== verification/Bytes.v ===== *)
(** Byte encodings of machine integers, from the Rust standard library, and
    the key-value store of the crate [kvdb] that the databases are built on. *)

From S2P Require Import Prelude.

(** ** [to_be_bytes] and [from_be_bytes] of [usize] and [u64]

    A value below 2^64 has eight bytes, most significant first.  The functions
    are extended beyond that range, which no machine integer leaves: a larger
    number is encoded by one out-of-range digit.  So the encoding is injective
    on all of [nat] and the lemmas need no side conditions. *)

Definition be_digit (n : Z) (i : nat) : Z := ((n / 256 ^ Z.of_nat i) mod 256)%Z.

Definition to_be_bytes (n : nat) : list Z :=
  let z := Z.of_nat n in
  if (z <? 2 ^ 64)%Z then be_digit z <$> [7; 6; 5; 4; 3; 2; 1; 0] else [z].

Definition from_digits (bytes : list Z) : Z := foldl (λ acc b, acc * 256 + b)%Z 0%Z bytes.

Definition from_be_bytes (bytes : list Z) : option nat :=
  match bytes with
  | [z] => if (2 ^ 64 <=? z)%Z then Some (Z.to_nat z) else None
  | _ => if bool_decide (length bytes = 8) then Some (Z.to_nat (from_digits bytes)) else None
  end.

Lemma from_digits_be z : (0 <= z < 2 ^ 64)%Z → from_digits (be_digit z <$> [7; 6; 5; 4; 3; 2; 1; 0]) = z.
Proof.
  intros Hz. unfold be_digit. cbn [fmap list_fmap]. unfold from_digits. cbn [foldl].
  change (256 ^ Z.of_nat 7)%Z with 72057594037927936%Z.
  change (256 ^ Z.of_nat 6)%Z with 281474976710656%Z.
  change (256 ^ Z.of_nat 5)%Z with 1099511627776%Z.
  change (256 ^ Z.of_nat 4)%Z with 4294967296%Z.
  change (256 ^ Z.of_nat 3)%Z with 16777216%Z.
  change (256 ^ Z.of_nat 2)%Z with 65536%Z.
  change (256 ^ Z.of_nat 1)%Z with 256%Z.
  change (256 ^ Z.of_nat 0)%Z with 1%Z.
  change (2 ^ 64)%Z with 18446744073709551616%Z in Hz.
  Z.to_euclidean_division_equations. lia.
Qed.

Lemma from_to_be_bytes n : from_be_bytes (to_be_bytes n) = Some n.
Proof.
  unfold to_be_bytes. destruct (Z.ltb_spec (Z.of_nat n) (2 ^ 64)) as [Hlt|Hge].
  - unfold from_be_bytes. cbn [fmap list_fmap]. rewrite bool_decide_true by done.
    change (_ :: _) with (be_digit (Z.of_nat n) <$> [7; 6; 5; 4; 3; 2; 1; 0]).
    rewrite from_digits_be by lia. by rewrite Nat2Z.id.
  - cbn. apply Z.leb_le in Hge. rewrite Hge. by rewrite Nat2Z.id.
Qed.

#[export] Instance to_be_bytes_inj : Inj (=) (=) to_be_bytes.
Proof.
  intros n m Heq. pose proof (from_to_be_bytes n) as Hn.
  rewrite Heq, from_to_be_bytes in Hn. congruence.
Qed.

(** The encoding is a prefix code. *)
Lemma to_be_bytes_shape n :
  (∃ z, to_be_bytes n = [z] ∧ (2 ^ 64 <= z)%Z) ∨
  length (to_be_bytes n) = 8 ∧ Forall (λ b, 0 <= b < 256)%Z (to_be_bytes n).
Proof.
  unfold to_be_bytes. destruct (Z.ltb_spec (Z.of_nat n) (2 ^ 64)); [right|left; eauto].
  split; [done|]. apply Forall_fmap, Forall_true. intros i. unfold be_digit. cbn.
  by apply Z.mod_pos_bound.
Qed.

Lemma to_be_bytes_app_inj n m k l :
  to_be_bytes n ++ k = to_be_bytes m ++ l → n = m ∧ k = l.
Proof.
  intros Heq.
  assert (to_be_bytes n = to_be_bytes m ∧ k = l) as [Hn ?]; [|by apply (inj _) in Hn].
  destruct (to_be_bytes_shape n) as [(z & Hz & Hb)|[Hl Hb]],
           (to_be_bytes_shape m) as [(z' & Hz' & Hb')|[Hl' Hb']].
  - rewrite Hz, Hz' in *. naive_solver.
  - exfalso. rewrite Hz in Heq. destruct (to_be_bytes m) as [|b bs]; [done|].
    injection Heq as <- _. apply Forall_cons in Hb' as [? _]. lia.
  - exfalso. rewrite Hz' in Heq. destruct (to_be_bytes n) as [|b bs]; [done|].
    injection Heq as -> _. apply Forall_cons in Hb as [? _]. lia.
  - apply app_inj_1 in Heq; [done|]. by rewrite Hl, Hl'.
Qed.

(** ** The crate [kvdb] *)

Inductive DBOp :=
  | Insert (col : nat) (key value : list Z)
  | Delete (col : nat) (key : list Z).

Definition op_key (op : DBOp) : nat * list Z :=
  match op with Insert c k _ => (c, k) | Delete c k => (c, k) end.
Definition op_value (op : DBOp) : option (list Z) :=
  match op with Insert _ _ v => Some v | Delete _ _ => None end.

(** [DBTransaction]: the operations in the order they were added. *)
Definition DBTransaction : Type := list DBOp.

(** [trait KeyValueDB] *)
Class KeyValueDB (KV : Type) := {
  kv_get : KV → nat → list Z → outcome (option (list Z));
  kv_write : DBTransaction → KV → outcome () * KV;
}.

Definition apply_op (m : gmap (nat * list Z) (list Z)) (op : DBOp) : gmap (nat * list Z) (list Z) :=
  match op with
  | Insert c k v => <[(c, k) := v]> m
  | Delete c k => delete (c, k) m
  end.

(** The contents of a store are a map from columns and keys to values.  A
    transaction is applied in order and as a whole, or not at all. *)
Class KeyValueDBLaws (KV : Type) `{KeyValueDB KV} := {
  kv_map : KV → gmap (nat * list Z) (list Z);
  kv_writable : KV → Prop;
  kv_get_map d c k : kv_get d c k = Ok (kv_map d !! (c, k));
  kv_write_ok ops d : kv_writable d →
    (kv_write ops d).1 = Ok tt ∧ kv_map (kv_write ops d).2 = foldl apply_op (kv_map d) ops;
  kv_write_done ops d : (kv_write ops d).1 = Ok tt → kv_map (kv_write ops d).2 = foldl apply_op (kv_map d) ops;
  kv_write_atomic ops d :
    kv_map (kv_write ops d).2 = foldl apply_op (kv_map d) ops ∨ (kv_write ops d).2 = d;
  kv_writable_write ops d : kv_writable (kv_write ops d).2 ↔ kv_writable d;
}.

(** What a transaction does to a key: nothing, or its last operation on it. *)
Definition pending (ops : DBTransaction) (k : nat * list Z) : option (option (list Z)) :=
  foldl (λ acc op, if bool_decide (op_key op = k) then Some (op_value op) else acc) None ops.

Lemma pending_nil k : pending [] k = None.
Proof. done. Qed.

Lemma pending_snoc ops op k :
  pending (ops ++ [op]) k = if bool_decide (op_key op = k) then Some (op_value op) else pending ops k.
Proof. unfold pending. by rewrite foldl_app. Qed.

Lemma lookup_apply_ops m ops k :
  foldl apply_op m ops !! k = match pending ops k with Some o => o | None => m !! k end.
Proof.
  induction ops as [|op ops IH] using rev_ind; [done|].
  rewrite foldl_app, pending_snoc. cbn [foldl]. case_bool_decide as Hk.
  - subst k. destruct op as [c k v|c k]; cbn.
    + apply lookup_insert_eq.
    + apply lookup_delete_eq.
  - rewrite <- IH. destruct op as [c k' v|c k']; cbn in *.
    + by apply lookup_insert_ne.
    + by apply lookup_delete_ne.
Qed.

Lemma pending_notin ops k : k ∉ op_key <$> ops → pending ops k = None.
Proof.
  induction ops as [|op ops IH] using rev_ind; [done|]. rewrite fmap_app, elem_of_app. intros Hk.
  rewrite pending_snoc. rewrite bool_decide_false; [apply IH; tauto|]. intros <-. apply Hk. right. by left.
Qed.

Lemma pending_in ops op : NoDup (op_key <$> ops) → op ∈ ops → pending ops (op_key op) = Some (op_value op).
Proof.
  induction ops as [|op' ops IH] using rev_ind; [by intros _ ?%elem_of_nil|]. rewrite fmap_app, NoDup_app, pending_snoc.
  intros (Hnd & Hdis & _) [Hin|Hin]%elem_of_app.
  - rewrite bool_decide_false; [by apply IH|]. intros Heq. apply (Hdis (op_key op)); [by apply list_elem_of_fmap_2|].
    rewrite <- Heq. by left.
  - apply list_elem_of_singleton in Hin as ->. by rewrite bool_decide_true.
Qed.

(** The value of a key after a transaction: untouched, or that of the only
    operation on it. *)
Lemma lookup_ops_notin m ops k : k ∉ op_key <$> ops → foldl apply_op m ops !! k = m !! k.
Proof. intros Hk. by rewrite lookup_apply_ops, pending_notin. Qed.

Lemma lookup_ops_in m ops op :
  NoDup (op_key <$> ops) → op ∈ ops → foldl apply_op m ops !! op_key op = op_value op.
Proof. intros Hnd Hop. by rewrite lookup_apply_ops, pending_in. Qed.

Lemma wp_kv_write `{KeyValueDBLaws KV} ops (kv : KV) (Q : () → KV → Prop) :
  kv_writable kv →
  (∀ kv', kv_writable kv' → kv_map kv' = foldl apply_op (kv_map kv) ops → Q tt kv') → wp (kv_write ops) Q kv.
Proof.
  intros Hw HQ. destruct (kv_write_ok ops kv Hw) as [Hok Hmap]. pose proof (proj2 (kv_writable_write ops kv) Hw) as Hw'.
  unfold wp. destruct (kv_write ops kv) as [r kv']. cbn in *. subst r. by apply HQ.
Qed.

(** ** An in-memory store ([kvdb_memorydb]) *)

#[export] Instance memory_db : KeyValueDB (gmap (nat * list Z) (list Z)) := {|
  kv_get d c k := Ok (d !! (c, k));
  kv_write ops d := (Ok tt, foldl apply_op d ops);
|}.

#[export] Instance memory_db_laws : KeyValueDBLaws (gmap (nat * list Z) (list Z)).
Proof.
  refine {| kv_map := λ d, d; kv_writable := λ _, True |}; [done|by intros|done|by left|done].
Defined.
