(* ===== verification/NodeManagerFacts.v ===== *)
(** The contract of the node manager, and an instance of its parameters.

    A node manager whose cache evicts nothing is a [NodeStore]. *)

From S2P Require Import Prelude NodeStore NodeManager.

(** ** What the manager relies on

    [ntx_node] and [ntx_size] are what a transaction has pending: [None] for
    nothing, [Some None] for a removal.  A [persistent] database keeps what is
    committed and its commits succeed; [EmptyNodeDatabase] is not persistent. *)
Class NodeDatabaseLaws (D T E : Type) `{NodeDatabase D T E} := {
  ntx_node : T → nat → nat → option (option E);
  ntx_size : T → nat → option (option nat);
  persistent : D → Prop;
  tx_persistent : T → Prop;
  ntx_node_start d l p : ntx_node (ndb_start_transaction d) l p = None;
  ntx_size_start d l : ntx_size (ndb_start_transaction d) l = None;
  ntx_save_node_ne l p x tx l' p' :
    (l, p) ≠ (l', p') → ntx_node (ntx_save_node l p x tx) l' p' = ntx_node tx l' p';
  ntx_save_list_ne ns tx l p :
    (∀ x, (l, p, x) ∉ ns) → ntx_node (ntx_save_node_list ns tx) l p = ntx_node tx l p;
  ntx_remove_list_ne ks tx l p :
    (l, p) ∉ ks → ntx_node (ntx_remove_node_list ks tx) l p = ntx_node tx l p;
  ntx_node_save_size n m tx l p : ntx_node (ntx_save_layer_size n m tx) l p = ntx_node tx l p;
  ntx_node_remove_size n tx l p : ntx_node (ntx_remove_layer_size n tx) l p = ntx_node tx l p;
  ntx_size_save_node l p x tx h : ntx_size (ntx_save_node l p x tx) h = ntx_size tx h;
  ntx_size_save_list ns tx h : ntx_size (ntx_save_node_list ns tx) h = ntx_size tx h;
  ntx_size_remove_list ks tx h : ntx_size (ntx_remove_node_list ks tx) h = ntx_size tx h;
  ndb_commit_frame tx d l p :
    ntx_node tx l p = None → ndb_get_node (ndb_commit tx d).2 l p = ndb_get_node d l p;
  persistent_commit tx d : persistent (ndb_commit tx d).2 ↔ persistent d;
  tx_persistent_start d : persistent d → tx_persistent (ndb_start_transaction d);
  tx_persistent_save_node l p x tx : tx_persistent tx → tx_persistent (ntx_save_node l p x tx);
  tx_persistent_save_list ns tx : tx_persistent tx → tx_persistent (ntx_save_node_list ns tx);
  tx_persistent_remove_list ks tx : tx_persistent tx → tx_persistent (ntx_remove_node_list ks tx);
  tx_persistent_save_size n m tx : tx_persistent tx → tx_persistent (ntx_save_layer_size n m tx);
  tx_persistent_remove_size n tx : tx_persistent tx → tx_persistent (ntx_remove_layer_size n tx);
  ntx_save_node_eq l p x tx :
    tx_persistent tx → ntx_node (ntx_save_node l p x tx) l p = Some (Some x);
  ntx_save_list_eq ns tx l p x :
    tx_persistent tx → NoDup ns.*1 → (l, p, x) ∈ ns →
    ntx_node (ntx_save_node_list ns tx) l p = Some (Some x);
  ntx_remove_list_eq ks tx l p :
    tx_persistent tx → (l, p) ∈ ks → ntx_node (ntx_remove_node_list ks tx) l p = Some None;
  ntx_save_size_spec n m tx h :
    tx_persistent tx →
    ntx_size (ntx_save_layer_size n m tx) h = if decide (h = n) then Some (Some m) else ntx_size tx h;
  ntx_remove_size_spec n tx h :
    tx_persistent tx →
    ntx_size (ntx_remove_layer_size n tx) h = if decide (h = n) then Some None else ntx_size tx h;
  not_persistent_empty : ¬ persistent (ndb_empty (D := D));
  ndb_commit_node tx d l p o :
    persistent d → tx_persistent tx → ntx_node tx l p = Some o →
    ndb_get_node (ndb_commit tx d).2 l p = Ok o;
  ndb_commit_size tx d h :
    persistent d → tx_persistent tx →
    ndb_get_layer_size (ndb_commit tx d).2 h =
      match ntx_size tx h with Some o => Ok o | None => ndb_get_layer_size d h end;
}.

Section facts.
Context `{EqDecision E, !LruCache C (nat * nat) E, !NodeDatabase D T E}.
Context `{!LruCacheLaws C (nat * nat) E, !NodeDatabaseLaws D T E}.
Local Abbreviation manager := (NodeManager C D T).
Implicit Types (s : manager) (L : list (list E)) (l : list E).

(** ** The representation *)

(** What a read gives after a commit of the open transaction. *)
Definition overlay_node (d : D) (tx : option T) (h i : nat) : option E :=
  match tx ≫= λ tx, ntx_node tx h i with
  | Some o => o
  | None => match ndb_get_node d h i with Ok o => o | _ => None end
  end.

Definition overlay_size (d : D) (tx : option T) (h : nat) : outcome (option nat) :=
  match tx ≫= λ tx, ntx_size tx h with
  | Some o => Ok o
  | None => ndb_get_layer_size d h
  end.

Definition node_at L (h i : nat) : option E := L !! h ≫= λ l, l !! i.

(** The cache is [lossless]: reads do not look into the open transaction, so a
    bounded cache may evict a node that is not committed yet. *)
Record manager_rep s (b : bool) L : Prop := {
  mr_sizes : layer_size s = length <$> L;
  mr_lossless : lossless (cache s);
  mr_open : b = bool_decide (is_Some (db_tx s));
  mr_tx : persistent (db s) → ∀ tx, db_tx s = Some tx → tx_persistent tx;
  mr_node : ∀ h i x, node_at L h i = Some x →
    lru_peek (h, i) (cache s) = Some x ∨
    lru_peek (h, i) (cache s) = None ∧ ndb_get_node (db s) h i = Ok (Some x) ∧
      (∀ tx, db_tx s = Some tx → ntx_node tx h i = None);
  mr_uncached : ∀ h i, node_at L h i = None → lru_peek (h, i) (cache s) = None;
  mr_durable : persistent (db s) → ∀ h i x, node_at L h i = Some x →
    overlay_node (db s) (db_tx s) h i = Some x;
  mr_durable_sizes : persistent (db s) → ∀ h,
    overlay_size (db s) (db_tx s) h = Ok (length <$> L !! h);
}.

Lemma node_at_insert L h l' l h' i :
  L !! h = Some l' →
  node_at (<[h := l]> L) h' i = if decide (h' = h) then l !! i else node_at L h' i.
Proof.
  intros Hl. unfold node_at. case_decide as Heq.
  - subst. by rewrite list_lookup_insert_eq by (by eapply lookup_lt_Some).
  - by rewrite list_lookup_insert_ne.
Qed.

Lemma fmap_insert_length L h l : length <$> (<[h := l]> L) = <[h := length l]> (length <$> L).
Proof. by rewrite list_fmap_insert. Qed.

Lemma rep_size_at s b L h l :
  manager_rep s b L → L !! h = Some l → layer_size_at s h = Ok (length l).
Proof.
  intros Hr Hl. unfold layer_size_at. by rewrite (mr_sizes _ _ _ Hr), list_lookup_fmap, Hl.
Qed.

Lemma rep_open_tx s L : manager_rep s true L → ∃ tx, db_tx s = Some tx.
Proof.
  intros Hr. pose proof (mr_open _ _ _ Hr) as Ho. symmetry in Ho.
  apply bool_decide_eq_true in Ho as [tx ?]. by exists tx.
Qed.

(** Replacing layer [h] by [l'] and the transaction by [tx'], where the nodes
    of [l'] that changed are in the cache and pending. *)
Lemma rep_write_layer s L h l l' c' tx tx' :
  manager_rep s true L → db_tx s = Some tx → L !! h = Some l →
  lossless c' →
  (∀ h' i, h' ≠ h → lru_peek (h', i) c' = lru_peek (h', i) (cache s)) →
  (∀ h' i, h' ≠ h → ntx_node tx' h' i = ntx_node tx h' i) →
  (∀ i x, l' !! i = Some x →
     lru_peek (h, i) c' = Some x ∨
     (lru_peek (h, i) c' = lru_peek (h, i) (cache s) ∧ l !! i = Some x ∧
      ntx_node tx' h i = ntx_node tx h i)) →
  (∀ i, l' !! i = None → lru_peek (h, i) c' = None) →
  (persistent (db s) → tx_persistent tx' ∧
     (∀ i x, l' !! i = Some x →
        ntx_node tx' h i = Some (Some x) ∨ (l !! i = Some x ∧ ntx_node tx' h i = ntx_node tx h i)) ∧
     ∀ h', overlay_size (db s) (Some tx') h' =
       if decide (h' = h) then Ok (Some (length l')) else overlay_size (db s) (Some tx) h') →
  manager_rep (NodeManager_mk c' (<[h := length l']> (layer_size s)) (db s) (Some tx')) true
    (<[h := l']> L).
Proof.
  intros Hr Htx Hl Hc' Hco Hto Hin Hout Hper.
  assert (∀ h' i, node_at (<[h := l']> L) h' i = if decide (h' = h) then l' !! i else node_at L h' i)
    as Hna by (intros; by eapply node_at_insert).
  assert (∀ i, l !! i = node_at L h i) as Hlna by (intros i; unfold node_at; by rewrite Hl).
  split; simpl.
  - by rewrite (mr_sizes _ _ _ Hr), fmap_insert_length.
  - done.
  - done.
  - intros Hp tx1 [= <-]. by apply Hper.
  - intros h' i x. rewrite Hna. case_decide as Heq; [subst h'|].
    + intros Hx. destruct (Hin i x Hx) as [|(Hpk & Hlx & Hntx)]; [by left|].
      rewrite Hpk. rewrite Hlna in Hlx.
      destruct (mr_node _ _ _ Hr h i x Hlx) as [|(Hn & Hdb & Hun)]; [by left|right].
      split_and!; [done..|]. intros tx1 [= <-]. rewrite Hntx. by apply Hun.
    + intros Hx. rewrite Hco by done.
      destruct (mr_node _ _ _ Hr h' i x Hx) as [|(Hn & Hdb & Hun)]; [by left|right].
      split_and!; [done..|]. intros tx1 [= <-]. rewrite Hto by done. by apply Hun.
  - intros h' i. rewrite Hna. case_decide as Heq; [subst h'; apply Hout|].
    rewrite Hco by done. apply (mr_uncached _ _ _ Hr).
  - intros Hp h' i x. rewrite Hna. destruct (Hper Hp) as (_ & Hnodes & _).
    pose proof (mr_durable _ _ _ Hr Hp) as Hd. rewrite Htx in Hd.
    unfold overlay_node in *. cbn [mbind option_bind] in *. case_decide as Heq; [subst h'|].
    + intros Hx. destruct (Hnodes i x Hx) as [->|[Hlx ->]]; [done|].
      rewrite Hlna in Hlx. by apply Hd.
    + intros Hx. rewrite Hto by done. by apply Hd.
  - intros Hp h'. destruct (Hper Hp) as (_ & _ & Hsz).
    pose proof (mr_durable_sizes _ _ _ Hr Hp h') as Hd. rewrite Htx in Hd.
    rewrite Hsz. case_decide as Heq.
    + subst h'. by rewrite list_lookup_insert_eq by (by eapply lookup_lt_Some).
    + by rewrite list_lookup_insert_ne.
Qed.

(** ** The operations, computed *)

Lemma with_db_tx_run f s tx :
  db_tx s = Some tx → with_db_tx f s = (Ok tt, set_tx (Some (f tx)) s).
Proof. intros Htx. unfold with_db_tx. by rewrite Htx. Qed.

Lemma set_layer_size_run s h n m tx :
  layer_size s !! h = Some m → db_tx s = Some tx →
  set_layer_size h n s =
    (Ok tt, NodeManager_mk (cache s) (<[h := n]> (layer_size s)) (db s)
              (Some (ntx_save_layer_size h n tx))).
Proof.
  intros Hm Htx. unfold set_layer_size, gets_ok, modify, mbind, M_bind. cbn.
  rewrite Hm. cbn. by rewrite (with_db_tx_run _ _ tx).
Qed.

Lemma add_node_run s h i x tx :
  db_tx s = Some tx → lru_peek (h, i) (cache s) ≠ Some x →
  manager_add_node h i x s =
    (Ok tt, NodeManager_mk (lru_put (h, i) x (lru_get (h, i) (cache s)).2) (layer_size s) (db s)
              (Some (ntx_save_node h i x tx))).
Proof.
  intros Htx Hne. unfold manager_add_node, gets, modify, mbind, M_bind. cbn.
  rewrite get_peek, bool_decide_false by done. by rewrite (with_db_tx_run _ _ tx).
Qed.

Lemma add_node_same s h i x :
  lru_peek (h, i) (cache s) = Some x →
  manager_add_node h i x s = (Ok tt, set_cache (lru_get (h, i) (cache s)).2 s).
Proof.
  intros Heq. unfold manager_add_node, gets, modify, mbind, M_bind. cbn.
  by rewrite get_peek, bool_decide_true.
Qed.

Lemma rep_touch s b L k :
  manager_rep s b L → manager_rep (set_cache (lru_get k (cache s)).2 s) b L.
Proof.
  intros [? ? ? ? Hn Hu ? ?]. split; simpl; [done|by apply lossless_get|done..| | |done|done].
  - intros h i x. rewrite peek_get. apply Hn.
  - intros h i. rewrite peek_get. apply Hu.
Qed.

Lemma node_at_Some L h l i : L !! h = Some l → node_at L h i = l !! i.
Proof. intros Hl. unfold node_at. by rewrite Hl. Qed.

(** ** The laws of a node store *)

Lemma manager_add_node_rep s L h l i x :
  manager_rep s true L → L !! h = Some l → i < length l →
  wp (manager_add_node h i x) (λ _ s', manager_rep s' true (<[h := <[i := x]> l]> L)) s.
Proof.
  intros Hr Hl Hi. destruct (lookup_lt_is_Some_2 l i Hi) as [y Hy].
  pose proof (mr_node _ _ _ Hr h i y) as Hpk. rewrite (node_at_Some _ _ _ _ Hl) in Hpk.
  destruct (decide (lru_peek (h, i) (cache s) = Some x)) as [Heq|Hne].
  { assert (y = x) as -> by (destruct (Hpk Hy) as [?|[? _]]; congruence).
    rewrite (list_insert_id l) by done. rewrite list_insert_id by done.
    unfold wp. rewrite add_node_same by done. by apply rep_touch. }
  destruct (rep_open_tx _ _ Hr) as [tx Htx]. unfold wp. rewrite (add_node_run _ _ _ _ tx) by done.
  pose proof (mr_lossless _ _ _ Hr) as Hc. pose proof (lossless_get (h, i) _ Hc) as Hc'.
  assert (layer_size s = <[h := length (<[i := x]> l)]> (layer_size s)) as Hsz.
  { rewrite length_insert, list_insert_id; [done|].
    by rewrite (mr_sizes _ _ _ Hr), list_lookup_fmap, Hl. }
  rewrite Hsz. apply (rep_write_layer s L h l _ _ tx); [done..|by apply lossless_put| | | | |].
  - intros h' j Hne'. rewrite peek_put_ne by (done || congruence). apply peek_get.
  - intros h' j Hne'. apply ntx_save_node_ne. congruence.
  - intros j z Hz. destruct (decide (j = i)) as [->|Hji].
    + left. rewrite list_lookup_insert_eq in Hz by done. injection Hz as <-. by apply peek_put_eq.
    + right. rewrite list_lookup_insert_ne in Hz by done.
      rewrite peek_put_ne, peek_get, ntx_save_node_ne by (done || congruence). done.
  - intros j Hj. apply lookup_ge_None in Hj. rewrite length_insert in Hj.
    rewrite peek_put_ne, peek_get by (done || (intros [=]; lia)).
    apply (mr_uncached _ _ _ Hr). rewrite (node_at_Some _ _ _ _ Hl). by apply lookup_ge_None.
  - intros Hp. pose proof (mr_tx _ _ _ Hr Hp _ Htx) as Htp. split_and!.
    + by apply tx_persistent_save_node.
    + intros j z Hz. destruct (decide (j = i)) as [->|Hji].
      * left. rewrite list_lookup_insert_eq in Hz by done. injection Hz as <-.
        by apply ntx_save_node_eq.
      * right. rewrite list_lookup_insert_ne in Hz by done.
        by rewrite ntx_save_node_ne by congruence.
    + intros h'. pose proof (mr_durable_sizes _ _ _ Hr Hp h') as Hd. rewrite Htx in Hd.
      unfold overlay_size in *. cbn [mbind option_bind] in *. rewrite ntx_size_save_node, Hd.
      case_decide; [|done]. subst h'. by rewrite Hl, length_insert.
Qed.

(** A transaction that saved a size. *)
Lemma overlay_save_size d tx tx0 h n h' :
  tx_persistent tx → (∀ k, ntx_size tx k = ntx_size tx0 k) →
  overlay_size d (Some (ntx_save_layer_size h n tx)) h' =
    if decide (h' = h) then Ok (Some n) else overlay_size d (Some tx0) h'.
Proof.
  intros Hp Heq. unfold overlay_size. cbn [mbind option_bind].
  rewrite ntx_save_size_spec, Heq by done. by case_decide.
Qed.

Lemma rep_size_lookup s b L h l :
  manager_rep s b L → L !! h = Some l → layer_size s !! h = Some (length l).
Proof. intros Hr Hl. by rewrite (mr_sizes _ _ _ Hr), list_lookup_fmap, Hl. Qed.

Lemma rep_uncached_end s b L h l i :
  manager_rep s b L → L !! h = Some l → length l ≤ i → lru_peek (h, i) (cache s) = None.
Proof.
  intros Hr Hl Hi. apply (mr_uncached _ _ _ Hr). rewrite (node_at_Some _ _ _ _ Hl).
  by apply lookup_ge_None.
Qed.

Lemma manager_push_node_rep s L h l x :
  manager_rep s true L → L !! h = Some l →
  wp (manager_push_node h x) (λ _ s', manager_rep s' true (<[h := l ++ [x]]> L)) s.
Proof.
  intros Hr Hl. destruct (rep_open_tx _ _ Hr) as [tx Htx].
  pose proof (rep_size_lookup _ _ _ _ _ Hr Hl) as Hsz.
  pose proof (rep_uncached_end _ _ _ _ _ (length l) Hr Hl ltac:(lia)) as Hun.
  unfold wp, manager_push_node, gets_ok, layer_size_at, mbind, M_bind. rewrite Hsz. cbn [expect].
  rewrite (add_node_run _ _ _ _ tx) by (done || by rewrite Hun). cbn [layer_size]. rewrite Hsz.
  cbn [expect]. erewrite set_layer_size_run by (cbn [layer_size db_tx]; done). cbn [cache layer_size db].
  pose proof (mr_lossless _ _ _ Hr) as Hc. pose proof (lossless_get (h, length l) _ Hc) as Hc'.
  replace (length l + 1) with (length (l ++ [x])) by (rewrite length_app; done).
  apply (rep_write_layer s L h l _ _ tx); [done..|by apply lossless_put| | | | |].
  - intros h' j Hne. rewrite peek_put_ne by (done || congruence). apply peek_get.
  - intros h' j Hne. rewrite ntx_node_save_size. apply ntx_save_node_ne. congruence.
  - intros j z [Hz|[Hj [Hj0 <-]%list_lookup_singleton_Some]]%lookup_app_Some; [right|left].
    + pose proof (lookup_lt_Some _ _ _ Hz).
      rewrite ntx_node_save_size, peek_put_ne, peek_get, ntx_save_node_ne
        by (done || (intros [=]; lia)). done.
    + replace j with (length l) by lia. by apply peek_put_eq.
  - intros j Hj%lookup_ge_None. rewrite length_app in Hj. cbn in Hj.
    rewrite peek_put_ne, peek_get by (done || (intros [=]; lia)).
    eapply rep_uncached_end; [done..|lia].
  - intros Hp. pose proof (mr_tx _ _ _ Hr Hp _ Htx) as Htp. split_and!.
    + by apply tx_persistent_save_size, tx_persistent_save_node.
    + intros j z [Hz|[Hj [Hj0 <-]%list_lookup_singleton_Some]]%lookup_app_Some; [right|left].
      * pose proof (lookup_lt_Some _ _ _ Hz).
        rewrite ntx_node_save_size, ntx_save_node_ne by (intros [=]; lia). done.
      * replace j with (length l) by lia. rewrite ntx_node_save_size. by apply ntx_save_node_eq.
    + intros h'. apply overlay_save_size; [by apply tx_persistent_save_node|].
      intros k. apply ntx_size_save_node.
Qed.

Lemma put_nodes_spec h pos (xs : list E) c :
  lossless c →
  lossless (put_nodes h pos xs c) ∧
  (∀ h' j, h' ≠ h ∨ j < pos ∨ pos + length xs ≤ j →
     lru_peek (h', j) (put_nodes h pos xs c) = lru_peek (h', j) c) ∧
  ∀ j x, xs !! j = Some x → lru_peek (h, pos + j) (put_nodes h pos xs c) = Some x.
Proof.
  revert pos c. induction xs as [|x xs IH]; intros pos c Hc; [done|]. cbn [put_nodes].
  destruct (IH (S pos) (lru_put (h, pos) x c) (lossless_put _ _ _ Hc)) as (IH1 & IH2 & IH3).
  split_and!; [done| |].
  - intros h' j Hj. cbn [length] in Hj. rewrite IH2 by lia.
    apply peek_put_ne; [done|]. intros [= -> ->]. lia.
  - intros [|j] y Hy; cbn in Hy.
    + injection Hy as <-. rewrite Nat.add_0_r, IH2 by lia. by apply peek_put_eq.
    + rewrite Nat.add_succ_r. by apply IH3.
Qed.

Lemma elem_of_positioned h pos (xs : list E) (k p : nat) x :
  (k, p, x) ∈ positioned h pos xs ↔ k = h ∧ ∃ j, p = pos + j ∧ xs !! j = Some x.
Proof.
  revert pos. induction xs as [|y xs IH]; intros pos; cbn [positioned].
  { split; [by intros ?%not_elem_of_nil|by intros (_ & j & _ & ?)]. }
  rewrite elem_of_cons, IH. split.
  - intros [[= -> -> ->]|(-> & j & -> & Hj)]; (split; [done|]).
    + exists 0. by rewrite Nat.add_0_r.
    + exists (S j). split; [lia|done].
  - intros (-> & [|j] & -> & Hj); cbn in Hj.
    + injection Hj as ->. left. by rewrite Nat.add_0_r.
    + right. split; [done|]. exists j. split; [lia|done].
Qed.

Lemma NoDup_positioned h pos (xs : list E) : NoDup (positioned h pos xs).*1.
Proof.
  revert pos. induction xs as [|x xs IH]; intros pos; cbn; constructor; [|apply IH].
  intros ([[k p] y] & [= <- <-] & (_ & j & Hj & _)%elem_of_positioned)%list_elem_of_fmap. lia.
Qed.

Lemma append_nodes_run s h l xs tx :
  layer_size s !! h = Some (length l) → db_tx s = Some tx →
  manager_append_nodes h xs s =
    (Ok tt, NodeManager_mk (put_nodes h (length l) xs (cache s))
      (<[h := length (l ++ xs)]> (layer_size s)) (db s)
      (Some (ntx_save_node_list (positioned h (length l) xs)
               (ntx_save_layer_size h (length (l ++ xs)) tx)))).
Proof.
  intros Hsz Htx.
  unfold manager_append_nodes, gets_ok, modify, layer_size_at, mbind, M_bind.
  rewrite Hsz. cbn [expect].
  erewrite set_layer_size_run by (cbn [set_cache layer_size db_tx]; done).
  cbn [set_cache layer_size db_tx cache db]. erewrite with_db_tx_run by done.
  by rewrite length_app.
Qed.

Lemma manager_append_nodes_rep s L h l xs :
  manager_rep s true L → L !! h = Some l →
  wp (manager_append_nodes h xs) (λ _ s', manager_rep s' true (<[h := l ++ xs]> L)) s.
Proof.
  intros Hr Hl. destruct (rep_open_tx _ _ Hr) as [tx Htx].
  unfold wp. rewrite (append_nodes_run _ _ _ _ _ (rep_size_lookup _ _ _ _ _ Hr Hl) Htx).
  destruct (put_nodes_spec h (length l) xs _ (mr_lossless _ _ _ Hr)) as (Hc & Hco & Hci).
  assert (∀ h' j, h' ≠ h ∨ j < length l → ∀ t,
    ntx_node (ntx_save_node_list (positioned h (length l) xs) t) h' j = ntx_node t h' j) as Hfr.
  { intros h' j Hj t. apply ntx_save_list_ne. intros x (-> & i & -> & _)%elem_of_positioned. lia. }
  apply (rep_write_layer s L h l _ _ tx); [done..| | | | |].
  - intros h' j Hne. apply Hco. by left.
  - intros h' j Hne. by rewrite Hfr, ntx_node_save_size by (by left).
  - intros j z [Hz|[Hj Hz]]%lookup_app_Some; [right|left].
    + pose proof (lookup_lt_Some _ _ _ Hz).
      rewrite Hfr, ntx_node_save_size, Hco by lia. done.
    + rewrite <- (Hci _ _ Hz). do 2 f_equal. lia.
  - intros j Hj%lookup_ge_None. rewrite length_app in Hj. rewrite Hco by lia.
    eapply rep_uncached_end; [done..|lia].
  - intros Hp. pose proof (mr_tx _ _ _ Hr Hp _ Htx) as Htp.
    pose proof (tx_persistent_save_size h (length (l ++ xs)) _ Htp) as Htp'. split_and!.
    + by apply tx_persistent_save_list.
    + intros j z [Hz|[Hj Hz]]%lookup_app_Some; [right|left].
      * pose proof (lookup_lt_Some _ _ _ Hz). rewrite Hfr, ntx_node_save_size by lia. done.
      * apply ntx_save_list_eq; [done|apply NoDup_positioned|].
        apply elem_of_positioned. split; [done|]. exists (j - length l). split; [lia|done].
    + intros h'. rewrite <- (overlay_save_size _ tx tx) by done.
      unfold overlay_size. cbn [mbind option_bind]. by rewrite ntx_size_save_list.
Qed.

Lemma elem_of_removed (h a n k p : nat) :
  (k, p) ∈ (λ pos, (h, pos)) <$> seq a n ↔ k = h ∧ a ≤ p < a + n.
Proof.
  rewrite list_elem_of_fmap. split.
  - intros (q & [= -> ->] & Hq%elem_of_seq). lia.
  - intros [-> Hp]. exists p. split; [done|]. by apply elem_of_seq.
Qed.

Lemma pop_nodes_spec (ks : list (nat * nat)) (c : C) :
  (lossless c → lossless (foldl (λ c k, lru_pop k c) c ks)) ∧
  ∀ k, lru_peek k (foldl (λ c k, lru_pop k c) c ks) =
    if decide (k ∈ ks) then None else lru_peek k c.
Proof.
  revert c. induction ks as [|k0 ks IH]; intros c; cbn [foldl].
  { split; [done|]. intros k. rewrite decide_False; [done|apply not_elem_of_nil]. }
  destruct (IH (lru_pop k0 c)) as [IH1 IH2]. split.
  { intros Hc. by apply IH1, lossless_pop. }
  intros k. rewrite IH2. destruct (decide (k ∈ ks)) as [Hin|Hin].
  { by rewrite decide_True by (by right). }
  destruct (decide (k = k0)) as [->|Hne].
  - rewrite decide_True by left. apply peek_pop_eq.
  - rewrite decide_False by (by intros [?|?]%elem_of_cons). by apply peek_pop_ne.
Qed.

Definition removed_nodes (h a e : nat) : list (nat * nat) := (λ pos, (h, pos)) <$> seq a (e - a).

Lemma truncate_nodes_run s h l n tx :
  layer_size s !! h = Some (length l) → db_tx s = Some tx →
  manager_truncate_nodes h n s =
    (Ok tt, NodeManager_mk
      (foldl (λ c k, lru_pop k c) (cache s) (removed_nodes h n (length l)))
      (<[h := n]> (layer_size s)) (db s)
      (Some (ntx_save_layer_size h n
               (ntx_remove_node_list (removed_nodes h n (length l)) tx)))).
Proof.
  intros Hsz Htx.
  unfold manager_truncate_nodes, gets_ok, modify, layer_size_at, mbind, M_bind.
  rewrite Hsz. cbn [expect].
  erewrite with_db_tx_run by done.
  by erewrite set_layer_size_run by (cbn [set_cache set_tx layer_size db_tx]; done).
Qed.

Lemma manager_truncate_nodes_rep s L h l n :
  manager_rep s true L → L !! h = Some l → n ≤ length l →
  wp (manager_truncate_nodes h n) (λ _ s', manager_rep s' true (<[h := take n l]> L)) s.
Proof.
  intros Hr Hl Hn. destruct (rep_open_tx _ _ Hr) as [tx Htx].
  unfold wp. rewrite (truncate_nodes_run _ _ _ _ _ (rep_size_lookup _ _ _ _ _ Hr Hl) Htx).
  destruct (pop_nodes_spec (removed_nodes h n (length l)) (cache s)) as [Hc Hpk].
  assert (∀ h' j, h' ≠ h ∨ j < n → (h', j) ∉ removed_nodes h n (length l)) as Hout.
  { intros h' j Hj [-> ?]%elem_of_removed. lia. }
  assert (∀ h' j t, h' ≠ h ∨ j < n → ntx_node (ntx_save_layer_size h n
      (ntx_remove_node_list (removed_nodes h n (length l)) t)) h' j = ntx_node t h' j) as Hfr.
  { intros h' j t Hj. rewrite ntx_node_save_size. by apply ntx_remove_list_ne, Hout. }
  rewrite <- (length_take_le l n) at 2 by done.
  apply (rep_write_layer s L h l _ _ tx); [done..|by apply Hc, (mr_lossless _ _ _ Hr)| | | | |].
  - intros h' j Hne. rewrite Hpk, decide_False by (apply Hout; by left). done.
  - intros h' j Hne. by rewrite Hfr by (by left).
  - intros j z [Hz Hj]%lookup_take_Some. right.
    rewrite Hpk, decide_False, Hfr by (done || (apply Hout; lia) || lia). done.
  - intros j Hj%lookup_ge_None. rewrite length_take in Hj. rewrite Hpk.
    case_decide as Hin; [done|]. eapply rep_uncached_end; [done..|].
    destruct (decide (length l ≤ j)); [done|]. exfalso. apply Hin, elem_of_removed. lia.
  - intros Hp. pose proof (mr_tx _ _ _ Hr Hp _ Htx) as Htp. split_and!.
    + by apply tx_persistent_save_size, tx_persistent_remove_list.
    + intros j z [Hz Hj]%lookup_take_Some. right. rewrite Hfr by lia. done.
    + intros h'. rewrite (overlay_save_size _ _ tx); [by rewrite length_take_le| |].
      * by apply tx_persistent_remove_list.
      * intros k. apply ntx_size_remove_list.
Qed.

(** Layers with the same nodes differ by empty layers at the end. *)
Lemma node_at_snoc_nil L h i : node_at (L ++ [[]]) h i = node_at L h i.
Proof.
  unfold node_at. destruct (decide (h < length L)).
  - by rewrite lookup_app_l.
  - rewrite lookup_app_r, (lookup_ge_None_2 L h) by lia.
    destruct (h - length L) as [|k]; [done|]. by rewrite lookup_ge_None_2 by (cbn; lia).
Qed.

Lemma rep_same_nodes s L L' ls tx tx' :
  manager_rep s true L → db_tx s = Some tx →
  ls = length <$> L' →
  (∀ h i, node_at L' h i = node_at L h i) →
  (∀ h i, ntx_node tx' h i = ntx_node tx h i) →
  (persistent (db s) → tx_persistent tx' ∧
     ∀ h, overlay_size (db s) (Some tx') h = Ok (length <$> L' !! h)) →
  manager_rep (NodeManager_mk (cache s) ls (db s) (Some tx')) true L'.
Proof.
  intros Hr Htx Hls Hna Hntx Hper. split; simpl; [done|apply (mr_lossless _ _ _ Hr)|done|..].
  - intros Hp tx1 [= <-]. by apply Hper.
  - intros h i x. rewrite Hna. intros Hx.
    destruct (mr_node _ _ _ Hr h i x Hx) as [|(? & ? & Hun)]; [by left|right].
    split_and!; [done..|]. intros tx1 [= <-]. rewrite Hntx. by apply Hun.
  - intros h i. rewrite Hna. apply (mr_uncached _ _ _ Hr).
  - intros Hp h i x. rewrite Hna. intros Hx.
    pose proof (mr_durable _ _ _ Hr Hp h i x Hx) as Hd. rewrite Htx in Hd.
    unfold overlay_node in *. cbn [mbind option_bind] in *. by rewrite Hntx.
  - intros Hp h. by apply Hper.
Qed.

Lemma manager_add_layer_rep s L :
  manager_rep s true L → wp manager_add_layer (λ _ s', manager_rep s' true (L ++ [[]])) s.
Proof.
  intros Hr. destruct (rep_open_tx _ _ Hr) as [tx Htx].
  unfold wp, manager_add_layer, gets, modify, mbind, M_bind. cbn [set_sizes].
  erewrite with_db_tx_run by done. cbn [set_tx cache layer_size db].
  apply (rep_same_nodes s L _ _ tx); [done..| | | |].
  - by rewrite (mr_sizes _ _ _ Hr), fmap_app.
  - apply node_at_snoc_nil.
  - intros h i. apply ntx_node_save_size.
  - intros Hp. pose proof (mr_tx _ _ _ Hr Hp _ Htx) as Htp.
    split; [by apply tx_persistent_save_size|]. intros h.
    rewrite (overlay_save_size _ _ tx) by done.
    pose proof (mr_durable_sizes _ _ _ Hr Hp h) as Hd. rewrite Htx in Hd.
    cbn [set_sizes layer_size]. rewrite length_app, (mr_sizes _ _ _ Hr), length_fmap. cbn [length].
    replace (length L + 1 - 1) with (length L) by lia. case_decide as Hh.
    + subst h. by rewrite lookup_app_r, Nat.sub_diag by done.
    + rewrite Hd. destruct (decide (h < length L)); [by rewrite lookup_app_l|].
      by rewrite !lookup_ge_None_2 by (rewrite ?length_app; cbn; lia).
Qed.

Lemma rep_pop_layer s L tx :
  manager_rep s true (L ++ [[]]) → db_tx s = Some tx →
  manager_rep (NodeManager_mk (cache s) (removelast (layer_size s)) (db s)
    (Some (ntx_remove_layer_size (length L) tx))) true L.
Proof.
  intros Hr Htx. apply (rep_same_nodes s (L ++ [[]]) _ _ tx); [done..| | | |].
  - rewrite (mr_sizes _ _ _ Hr), fmap_app. apply removelast_last.
  - intros h i. symmetry. apply node_at_snoc_nil.
  - intros h i. apply ntx_node_remove_size.
  - intros Hp. pose proof (mr_tx _ _ _ Hr Hp _ Htx) as Htp.
    split; [by apply tx_persistent_remove_size|]. intros h.
    pose proof (mr_durable_sizes _ _ _ Hr Hp h) as Hd. rewrite Htx in Hd.
    unfold overlay_size in *. cbn [mbind option_bind] in *.
    rewrite ntx_remove_size_spec by done. case_decide as Hh.
    + subst h. by rewrite lookup_ge_None_2.
    + rewrite Hd. destruct (decide (h < length L)); [by rewrite lookup_app_l|].
      by rewrite !lookup_ge_None_2 by (rewrite ?length_app; cbn; lia).
Qed.

Lemma manager_truncate_layer_rep s L l :
  manager_rep s true (L ++ [l]) →
  wp (manager_truncate_layer (length L)) (λ _ s', manager_rep s' true L) s.
Proof.
  intros Hr. unfold manager_truncate_layer.
  eapply wp_bind_mono.
  { apply (manager_truncate_nodes_rep _ _ _ l 0 Hr); [|lia].
    by rewrite lookup_app_r, Nat.sub_diag. }
  intros [] s' Hr'. rewrite insert_snoc_last, take_app_length in Hr' by (rewrite length_app; done).
  change (take 0 l) with (@nil E) in Hr'.
  apply wp_bind, wp_gets. rewrite bool_decide_true.
  2:{ rewrite (mr_sizes _ _ _ Hr'), length_fmap, length_app. cbn. lia. }
  destruct (rep_open_tx _ _ Hr') as [tx Htx].
  unfold wp, when, modify, mbind, M_bind. erewrite with_db_tx_run by done.
  by apply (rep_pop_layer s').
Qed.

Lemma manager_start_rep s L :
  manager_rep s false L → wp manager_start_transaction (λ _ s', manager_rep s' true L) s.
Proof.
  intros Hr. pose proof (mr_open _ _ _ Hr) as Ho. symmetry in Ho.
  apply bool_decide_eq_false in Ho.
  destruct (db_tx s) as [tx|] eqn:Htx; [by destruct Ho; eexists|].
  unfold wp, manager_start_transaction. rewrite Htx.
  destruct Hr as [? ? ? ? Hn ? Hd Hs]. rewrite Htx in Hd, Hs.
  split; simpl; [done..| | |done| |].
  - intros Hp tx1 [= <-]. by apply tx_persistent_start.
  - intros h i x Hx. destruct (Hn h i x Hx) as [|(? & ? & _)]; [by left|right].
    split_and!; [done..|]. intros tx1 [= <-]. apply ntx_node_start.
  - intros Hp h i x Hx. unfold overlay_node in *. cbn [mbind option_bind] in *.
    rewrite ntx_node_start. by apply Hd.
  - intros Hp h. unfold overlay_size in *. cbn [mbind option_bind] in *.
    rewrite ntx_size_start. by apply Hs.
Qed.

Lemma manager_commit_rep s L :
  manager_rep s true L → wp manager_commit (λ _ s', manager_rep s' false L) s.
Proof.
  intros Hr. destruct (rep_open_tx _ _ Hr) as [tx Htx].
  unfold wp, manager_commit. rewrite Htx.
  destruct Hr as [? ? ? Ht Hn ? Hd Hs]. rewrite Htx in Ht, Hn, Hd, Hs.
  split; simpl; [done..| |done| |].
  - intros h i x Hx. destruct (Hn h i x Hx) as [|(? & ? & Hun)]; [by left|right].
    split_and!; [done| |done]. rewrite ndb_commit_frame; [done|]. by apply Hun.
  - intros Hp%persistent_commit h i x Hx. specialize (Hd Hp h i x Hx).
    unfold overlay_node in *. cbn [mbind option_bind] in *.
    destruct (ntx_node tx h i) as [o|] eqn:Ho.
    + by rewrite (ndb_commit_node _ _ _ _ o) by auto.
    + by rewrite ndb_commit_frame.
  - intros Hp%persistent_commit h. specialize (Hs Hp h).
    unfold overlay_size in *. cbn [mbind option_bind] in *.
    by rewrite ndb_commit_size by auto.
Qed.

Lemma manager_dummy_rep : manager_rep new_dummy false [].
Proof.
  split; simpl; [done|apply lossless_unbounded|done|done|done|..].
  - intros h i _. apply peek_unbounded.
  - done.
  - intros Hp. by destruct not_persistent_empty.
Qed.

Lemma manager_num_layers s b L : manager_rep s b L → length (layer_size s) = length L.
Proof. intros Hr. by rewrite (mr_sizes _ _ _ Hr), length_fmap. Qed.

Lemma manager_get_node_rep s b L h l i x :
  manager_rep s b L → L !! h = Some l → l !! i = Some x → manager_get_node s h i = Some x.
Proof.
  intros Hr Hl Hx. unfold manager_get_node.
  destruct (mr_node _ _ _ Hr h i x) as [->|(-> & -> & _)]; [|done..].
  by rewrite (node_at_Some _ _ _ _ Hl).
Qed.

Lemma manager_start_twice s L :
  manager_rep s true L → manager_start_transaction s = (Panic, s).
Proof.
  intros Hr. destruct (rep_open_tx _ _ Hr) as [tx Htx].
  unfold manager_start_transaction. by rewrite Htx.
Qed.

(** The node manager discharges the interface the tree is verified against. *)
#[export] Instance manager_store_laws : NodeStoreLaws manager E := {|
  rep := manager_rep;
  rep_num_layers := manager_num_layers;
  rep_layer_size := rep_size_at;
  rep_get_node := manager_get_node_rep;
  rep_push_node := manager_push_node_rep;
  rep_append_nodes := manager_append_nodes_rep;
  rep_add_node := manager_add_node_rep;
  rep_add_layer := manager_add_layer_rep;
  rep_truncate_nodes := manager_truncate_nodes_rep;
  rep_truncate_layer := manager_truncate_layer_rep;
  rep_start_transaction := manager_start_rep;
  rep_start_twice := manager_start_twice;
  rep_commit := manager_commit_rep;
  rep_new_dummy := manager_dummy_rep;
|}.

(** ** Restart *)

Lemma load_layer_sizes_spec (d : D) (ns : list nat) fuel h :
  length ns < fuel →
  (∀ k, ndb_get_layer_size d (h + k) = Ok (ns !! k)) →
  load_layer_sizes d fuel h = Ok ns.
Proof.
  revert fuel h. induction ns as [|n ns IH]; intros fuel h Hf Hd;
    (destruct fuel as [|fuel]; [cbn in Hf; lia|]); cbn [load_layer_sizes];
    pose proof (Hd 0) as H0; rewrite Nat.add_0_r in H0; rewrite H0; cbn; [done|].
  rewrite (IH fuel (S h)); [done|cbn in Hf; lia|].
  intros k. rewrite Nat.add_succ_comm. apply (Hd (S k)).
Qed.

End facts.

(** * Concrete instances of the parameters of [NodeManager]: a list-based LRU
    cache with the documented behaviour of the crate [lru], and
    [EmptyNodeDatabase] for any hash.  They show that the laws can be met, and
    the examples of the development run on them. *)

(** ** A least-recently-used cache: the most recent entry comes first *)

Record lru (K V : Type) := Lru { lru_cap : option nat; lru_entries : list (K * V) }.
Arguments Lru {K V} lru_cap lru_entries.
Arguments lru_cap {K V} l.
Arguments lru_entries {K V} l.

Section lru.
Context {K V : Type} `{EqDecision K}.
Implicit Types (c : lru K V) (es : list (K * V)).

Fixpoint assoc (k : K) es : option V :=
  match es with
  | [] => None
  | (k', v) :: es' => if decide (k = k') then Some v else assoc k es'
  end.

Definition drop_key (k : K) es : list (K * V) := filter (λ e, e.1 ≠ k) es.

Definition fit (cap : option nat) es : list (K * V) :=
  match cap with Some n => take n es | None => es end.

#[export] Instance lru_cache : LruCache (lru K V) K V := {|
  lru_peek k c := assoc k (lru_entries c);
  lru_get k c :=
    match assoc k (lru_entries c) with
    | Some v => (Some v, Lru (lru_cap c) ((k, v) :: drop_key k (lru_entries c)))
    | None => (None, c)
    end;
  lru_put k v c := Lru (lru_cap c) (fit (lru_cap c) ((k, v) :: drop_key k (lru_entries c)));
  lru_pop k c := Lru (lru_cap c) (drop_key k (lru_entries c));
  lru_unbounded := Lru None [];
  lru_new n := Lru (Some n) [];
|}.

Lemma assoc_drop_eq k es : assoc k (drop_key k es) = None.
Proof.
  induction es as [|[k' v] es IH]; [done|]. unfold drop_key. rewrite filter_cons. cbn.
  destruct (decide (k' ≠ k)) as [Hne|_]; [|done]. cbn. by rewrite decide_False.
Qed.

Lemma assoc_drop_ne k k' es : k ≠ k' → assoc k' (drop_key k es) = assoc k' es.
Proof.
  intros Hne. induction es as [|[k0 v] es IH]; [done|]. unfold drop_key. rewrite filter_cons. cbn.
  destruct (decide (k0 ≠ k)) as [Hk0|Hk0]; cbn.
  - by case_decide.
  - rewrite decide_False; [done|]. intros ->. by apply Hk0.
Qed.

Lemma assoc_take k n es v : assoc k (take n es) = Some v → assoc k es = Some v.
Proof.
  revert n. induction es as [|[k' w] es IH]; intros [|n]; cbn; try done. case_decide; [done|]. apply IH.
Qed.

#[export] Instance lru_cache_laws : LruCacheLaws (lru K V) K V.
Proof.
  refine {| lossless := λ c, lru_cap c = None |}; cbn; try done.
  - intros k c Hc. by destruct (assoc k (lru_entries c)).
  - intros k v c ->. cbn. by rewrite decide_True.
  - intros k k' v c -> Hne. cbn. rewrite decide_False by done. by apply assoc_drop_ne.
  - intros k v c k' w Hw. assert (assoc k' ((k, v) :: drop_key k (lru_entries c)) = Some w) as Ha.
    { destruct (lru_cap c) as [n|]; [by eapply assoc_take|done]. }
    cbn in Ha. destruct (decide (k' = k)) as [->|Hne]; [left; by simplify_eq|right]. split; [done|]. by rewrite <-(assoc_drop_ne k k').
  - intros k c. apply assoc_drop_eq.
  - intros k k' c Hne. by apply assoc_drop_ne.
  - intros k c. by destruct (assoc k (lru_entries c)).
  - intros k k' c. destruct (assoc k (lru_entries c)) as [v|] eqn:Hk; [|done]. cbn.
    case_decide as Heq; [by subst|]. by apply assoc_drop_ne.
Defined.

End lru.

(** ** [EmptyNodeDatabase] and [EmptyNodeTransaction] *)

#[export] Instance empty_node_database E : NodeDatabase () () E := {|
  ndb_get_node _ _ _ := Ok None;
  ndb_get_layer_size _ _ := Ok None;
  ndb_start_transaction _ := tt;
  ndb_commit _ d := (Ok tt, d);
  ntx_save_node _ _ _ tx := tx;
  ntx_save_node_list _ tx := tx;
  ntx_remove_node_list _ tx := tx;
  ntx_save_layer_size _ _ tx := tx;
  ntx_remove_layer_size _ tx := tx;
  ndb_empty := tt;
|}.

#[export] Instance empty_node_database_laws E : NodeDatabaseLaws () () E.
Proof.
  refine {| ntx_node _ _ _ := None; ntx_size _ _ := None; persistent _ := False;
            tx_persistent _ := False |}; cbn; tauto.
Defined.

(** The node manager of an in-memory tree. *)
Abbreviation memory_manager E := (NodeManager (lru (nat * nat) E) () ()).
