(* ===== verification/FlowDb.v ===== *)
(** The node database of the flow tree: the last part of
    [node/storage/src/log_store/flow_store.rs] ([NodeDatabase for FlowDBStore],
    [NodeTransaction for NodeDBTransaction]) together with
    [EmptyNodeDatabase] of [node_manager.rs], which are the two
    implementations behind [Arc<dyn NodeDatabase>]. *)

From S2P Require Import Prelude HashElement Bytes NodeManager NodeManagerFacts.

Definition COL_FLOW_MPT_NODES : nat := 5.

Definition encode_mpt_node_key (layer_index position : nat) : list Z :=
  to_be_bytes layer_index ++ to_be_bytes position.

(** ["layer_size".as_bytes()] *)
Definition layer_size_prefix : list Z := [108; 97; 121; 101; 114; 95; 115; 105; 122; 101]%Z.

Definition layer_size_key (layer : nat) : list Z := layer_size_prefix ++ to_be_bytes layer.

Definition try_decode_usize (data : list Z) : outcome nat :=
  ok_or "TryFromSliceError" (from_be_bytes data).

(** [Arc<dyn NodeDatabase<OptionalHash>>] and
    [Box<dyn NodeTransaction<OptionalHash>>] *)
Inductive node_database (KV : Type) :=
  | EmptyNodeDatabase
  | FlowDBStore (kvdb : KV).
Arguments EmptyNodeDatabase {KV}.
Arguments FlowDBStore {KV} kvdb.

Inductive node_transaction :=
  | EmptyNodeTransaction
  | NodeDBTransaction (tx : DBTransaction).

(** [OptionalHash::from_bytes(v.as_slice().try_into().unwrap()).unwrap()] *)
Definition decode_node (v : list Z) : outcome OptionalHash :=
  match array_from 33 v with
  | Some a => match from_bytes a with Ok x => Ok x | _ => Panic end
  | None => Panic
  end.

Section flow_db.
Context `{KeyValueDB KV}.

Definition flow_get_node (d : node_database KV) (layer pos : nat) : outcome (option OptionalHash) :=
  match d with
  | EmptyNodeDatabase => Ok None
  | FlowDBStore kvdb =>
      o ← kv_get kvdb COL_FLOW_MPT_NODES (encode_mpt_node_key layer pos);
      match o with
      | Some v => x ← decode_node v; Ok (Some x)
      | None => Ok None
      end
  end.

Definition flow_get_layer_size (d : node_database KV) (layer : nat) : outcome (option nat) :=
  match d with
  | EmptyNodeDatabase => Ok None
  | FlowDBStore kvdb =>
      o ← kv_get kvdb COL_FLOW_MPT_NODES (layer_size_key layer);
      match o with
      | Some v => n ← try_decode_usize v; Ok (Some n)
      | None => Ok None
      end
  end.

Definition flow_start_transaction (d : node_database KV) : node_transaction :=
  match d with
  | EmptyNodeDatabase => EmptyNodeTransaction
  | FlowDBStore _ => NodeDBTransaction []
  end.

(** A transaction of another database does not downcast. *)
Definition flow_commit (tx : node_transaction) (d : node_database KV) :
    outcome () * node_database KV :=
  match d with
  | EmptyNodeDatabase => (Ok tt, d)
  | FlowDBStore kvdb =>
      match tx with
      | NodeDBTransaction ops => let r := kv_write ops kvdb in (r.1, FlowDBStore r.2)
      | EmptyNodeTransaction => (Err "downcast failed", d)
      end
  end.
End flow_db.

(** [self.0.put(..)] and [self.0.delete(..)]; the methods of
    [EmptyNodeTransaction] do nothing. *)
Definition add_op (op : DBOp) (tx : node_transaction) : node_transaction :=
  match tx with
  | EmptyNodeTransaction => EmptyNodeTransaction
  | NodeDBTransaction ops => NodeDBTransaction (ops ++ [op])
  end.

Definition flow_save_node (layer pos : nat) (node : OptionalHash) : node_transaction → node_transaction :=
  add_op (Insert COL_FLOW_MPT_NODES (encode_mpt_node_key layer pos) (vec_to_list (as_bytes node))).

Definition flow_save_node_list (nodes : list (nat * nat * OptionalHash)) (tx : node_transaction) :
    node_transaction :=
  foldl (λ tx n, flow_save_node n.1.1 n.1.2 n.2 tx) tx nodes.

Definition flow_remove_node_list (nodes : list (nat * nat)) (tx : node_transaction) : node_transaction :=
  foldl (λ tx n, add_op (Delete COL_FLOW_MPT_NODES (encode_mpt_node_key n.1 n.2)) tx) tx nodes.

Definition flow_save_layer_size (layer size : nat) : node_transaction → node_transaction :=
  add_op (Insert COL_FLOW_MPT_NODES (layer_size_key layer) (to_be_bytes size)).

Definition flow_remove_layer_size (layer : nat) : node_transaction → node_transaction :=
  add_op (Delete COL_FLOW_MPT_NODES (layer_size_key layer)).

#[export] Instance flow_node_database `{KeyValueDB KV} :
    NodeDatabase (node_database KV) node_transaction OptionalHash := {|
  ndb_get_node := flow_get_node;
  ndb_get_layer_size := flow_get_layer_size;
  ndb_start_transaction := flow_start_transaction;
  ndb_commit := flow_commit;
  ntx_save_node := flow_save_node;
  ntx_save_node_list := flow_save_node_list;
  ntx_remove_node_list := flow_remove_node_list;
  ntx_save_layer_size := flow_save_layer_size;
  ntx_remove_layer_size := flow_remove_layer_size;
  ndb_empty := EmptyNodeDatabase;
|}.

(** ** Keys *)

Lemma encode_mpt_node_key_inj l p l' p' :
  encode_mpt_node_key l p = encode_mpt_node_key l' p' → l = l' ∧ p = p'.
Proof. intros [-> Hp]%to_be_bytes_app_inj. by apply (inj _) in Hp. Qed.

Lemma layer_size_key_inj l l' : layer_size_key l = layer_size_key l' → l = l'.
Proof. intros Heq. apply (inj (layer_size_prefix ++.)) in Heq. by apply (inj _) in Heq. Qed.

Lemma node_key_not_size_key l p h : encode_mpt_node_key l p ≠ layer_size_key h.
Proof.
  intros Heq. unfold encode_mpt_node_key, layer_size_key in Heq.
  pose proof (f_equal length Heq) as Hlen. rewrite !length_app in Hlen.
  pose proof (f_equal (lookup 0) Heq) as Hhd. cbn in Hhd.
  destruct (to_be_bytes_shape l) as [(z & Hz & Hb)|[Hl _]].
  { rewrite Hz in Hhd. cbn in Hhd. injection Hhd as ->. lia. }
  assert (length (to_be_bytes p) = 1 ∨ length (to_be_bytes p) = 8) as Hp.
  { destruct (to_be_bytes_shape p) as [(z & -> & _)|[? _]]; auto. }
  assert (length (to_be_bytes h) = 1 ∨ length (to_be_bytes h) = 8) as Hh.
  { destruct (to_be_bytes_shape h) as [(z & -> & _)|[? _]]; auto. }
  cbn [layer_size_prefix length] in Hlen. lia.
Qed.

(** ** The transactions *)

Definition outcome_val {A} (o : outcome A) : option A :=
  match o with Ok a => Some a | _ => None end.

Definition node_key (l p : nat) : nat * list Z := (COL_FLOW_MPT_NODES, encode_mpt_node_key l p).
Definition size_key (h : nat) : nat * list Z := (COL_FLOW_MPT_NODES, layer_size_key h).

Definition tx_pending (tx : node_transaction) (k : nat * list Z) : option (option (list Z)) :=
  match tx with EmptyNodeTransaction => None | NodeDBTransaction ops => pending ops k end.

Definition tx_node (tx : node_transaction) (l p : nat) : option (option OptionalHash) :=
  (λ o, o ≫= λ v, outcome_val (decode_node v)) <$> tx_pending tx (node_key l p).

Definition tx_size (tx : node_transaction) (h : nat) : option (option nat) :=
  (λ o, o ≫= λ v, outcome_val (try_decode_usize v)) <$> tx_pending tx (size_key h).

(** Every value a transaction of the tree writes decodes. *)
Definition tx_ok (tx : node_transaction) : Prop :=
  tx ≠ EmptyNodeTransaction ∧
  (∀ l p v, tx_pending tx (node_key l p) = Some (Some v) → ∃ x, decode_node v = Ok x) ∧
  (∀ h v, tx_pending tx (size_key h) = Some (Some v) → ∃ n, try_decode_usize v = Ok n).

Lemma decode_as_bytes (x : OptionalHash) : decode_node (vec_to_list (as_bytes x)) = Ok x.
Proof. unfold decode_node. by rewrite array_from_vec, from_as_bytes. Qed.

Lemma decode_usize n : try_decode_usize (to_be_bytes n) = Ok n.
Proof. unfold try_decode_usize. by rewrite from_to_be_bytes. Qed.

Lemma node_key_inj l p l' p' : node_key l p = node_key l' p' → (l, p) = (l', p').
Proof. intros [= Heq]. by destruct (encode_mpt_node_key_inj _ _ _ _ Heq) as [-> ->]. Qed.

Lemma size_key_inj h h' : size_key h = size_key h' → h = h'.
Proof. intros Heq%(f_equal snd). by apply layer_size_key_inj. Qed.

Lemma node_size_key l p h : node_key l p ≠ size_key h.
Proof. intros Heq%(f_equal snd). by apply node_key_not_size_key in Heq. Qed.

Lemma pending_add_ne op tx k : op_key op ≠ k → tx_pending (add_op op tx) k = tx_pending tx k.
Proof. intros Hne. destruct tx; [done|]. cbn. by rewrite pending_snoc, bool_decide_false. Qed.

Lemma pending_add_eq op tx k :
  tx ≠ EmptyNodeTransaction → op_key op = k → tx_pending (add_op op tx) k = Some (op_value op).
Proof. intros Hne Hk. destruct tx; [done|]. cbn. by rewrite pending_snoc, bool_decide_true. Qed.

Lemma tx_ok_add op tx :
  (∀ l p v, op_key op = node_key l p → op_value op = Some v → ∃ x, decode_node v = Ok x) →
  (∀ h v, op_key op = size_key h → op_value op = Some v → ∃ n, try_decode_usize v = Ok n) →
  tx_ok tx → tx_ok (add_op op tx).
Proof.
  intros Hn Hs (Hne & Hn' & Hs'). split_and!; [by destruct tx| |].
  - intros l p v. destruct (decide (op_key op = node_key l p)) as [Hk|Hk].
    + rewrite pending_add_eq by done. intros [= Hv]. eauto.
    + rewrite pending_add_ne by done. eauto.
  - intros h v. destruct (decide (op_key op = size_key h)) as [Hk|Hk].
    + rewrite pending_add_eq by done. intros [= Hv]. eauto.
    + rewrite pending_add_ne by done. eauto.
Qed.

Lemma tx_ok_save_node l p x tx : tx_ok tx → tx_ok (flow_save_node l p x tx).
Proof.
  apply tx_ok_add; cbn.
  - intros l' p' v _ [= <-]. eexists. apply decode_as_bytes.
  - intros h v Hk. by apply node_size_key in Hk.
Qed.

Lemma tx_ok_remove_node l p tx :
  tx_ok tx → tx_ok (add_op (Delete COL_FLOW_MPT_NODES (encode_mpt_node_key l p)) tx).
Proof. by apply tx_ok_add. Qed.

Lemma tx_ok_save_size h n tx : tx_ok tx → tx_ok (flow_save_layer_size h n tx).
Proof.
  apply tx_ok_add; cbn.
  - intros l p v Hk. symmetry in Hk. by apply node_size_key in Hk.
  - intros h' v _ [= <-]. eexists. apply decode_usize.
Qed.

Lemma tx_ok_remove_size h tx : tx_ok tx → tx_ok (flow_remove_layer_size h tx).
Proof. by apply tx_ok_add. Qed.

Lemma tx_ok_foldl {A} (f : node_transaction → A → node_transaction) (xs : list A) tx :
  (∀ x tx, tx_ok tx → tx_ok (f tx x)) → tx_ok tx → tx_ok (foldl f tx xs).
Proof. intros Hf. revert tx. induction xs as [|x xs IH]; intros tx Htx; cbn; auto. Qed.

Lemma foldl_add_op_ne {A} (f : A → DBOp) (xs : list A) tx :
  tx ≠ EmptyNodeTransaction → foldl (λ tx x, add_op (f x) tx) tx xs ≠ EmptyNodeTransaction.
Proof.
  revert tx. induction xs as [|x xs IH]; intros tx Hne; [done|]. apply IH. by destruct tx.
Qed.

Lemma pending_foldl_ne {A} (f : A → DBOp) (xs : list A) tx k :
  (∀ x, x ∈ xs → op_key (f x) ≠ k) →
  tx_pending (foldl (λ tx x, add_op (f x) tx) tx xs) k = tx_pending tx k.
Proof.
  revert tx. induction xs as [|x xs IH]; intros tx Hne; [done|]. cbn [foldl].
  rewrite IH by (intros; apply Hne; by right). apply pending_add_ne, Hne. left.
Qed.

(** Of several operations of a list the last one on a key counts. *)
Lemma pending_foldl_eq {A} (f : A → DBOp) (xs : list A) tx k v :
  tx ≠ EmptyNodeTransaction →
  (∃ x, x ∈ xs ∧ op_key (f x) = k) →
  (∀ x, x ∈ xs → op_key (f x) = k → op_value (f x) = v) →
  tx_pending (foldl (λ tx x, add_op (f x) tx) tx xs) k = Some v.
Proof.
  intros Hne. induction xs as [|x xs IH] using rev_ind.
  { by intros (x & ?%not_elem_of_nil & _). }
  intros (y & Hy & Hk) Hv. rewrite foldl_app. cbn [foldl].
  destruct (decide (op_key (f x) = k)) as [Hx|Hx].
  - rewrite pending_add_eq; [|by apply foldl_add_op_ne|done].
    f_equal. apply Hv; [|done]. apply elem_of_app. right. by apply list_elem_of_singleton.
  - rewrite pending_add_ne by done. apply IH.
    + exists y. split; [|done]. apply elem_of_app in Hy as [?|Hy]; [done|].
      apply list_elem_of_singleton in Hy as ->. done.
    + intros z Hz. apply Hv, elem_of_app. by left.
Qed.

(** ** The laws of a node database *)

Section laws.
Context `{KeyValueDBLaws KV}.
Implicit Types (d : node_database KV) (tx : node_transaction).

Definition flow_persistent d : Prop :=
  match d with EmptyNodeDatabase => False | FlowDBStore kv => kv_writable kv end.

Lemma tx_node_ne op tx l p :
  op_key op ≠ node_key l p → tx_node (add_op op tx) l p = tx_node tx l p.
Proof. intros Hne. unfold tx_node. by rewrite pending_add_ne. Qed.

Lemma tx_size_ne op tx h :
  op_key op ≠ size_key h → tx_size (add_op op tx) h = tx_size tx h.
Proof. intros Hne. unfold tx_size. by rewrite pending_add_ne. Qed.

Lemma save_list_ne ns tx l p :
  (∀ x, (l, p, x) ∉ ns) → tx_node (flow_save_node_list ns tx) l p = tx_node tx l p.
Proof.
  intros Hns. unfold tx_node, flow_save_node_list, flow_save_node.
  rewrite (pending_foldl_ne (λ n, Insert _ _ _)); [done|].
  intros [[l' p'] x] Hin. cbn. intros [= -> ->]%node_key_inj. by destruct (Hns x).
Qed.

Lemma save_list_eq ns tx l p x :
  tx_ok tx → NoDup ns.*1 → (l, p, x) ∈ ns →
  tx_node (flow_save_node_list ns tx) l p = Some (Some x).
Proof.
  intros (Hne & _) Hnd Hin. unfold tx_node, flow_save_node_list, flow_save_node.
  rewrite (pending_foldl_eq (λ n, Insert _ _ _) _ _ _ (Some (vec_to_list (as_bytes x))));
    [|done| |].
  - cbn. by rewrite decode_as_bytes.
  - by exists (l, p, x).
  - intros [[l' p'] y] Hy. cbn. intros [= -> ->]%node_key_inj. do 3 f_equal.
    pose proof (elem_of_list_to_map_1 (M := gmap (nat * nat)) _ _ _ Hnd Hin).
    pose proof (elem_of_list_to_map_1 (M := gmap (nat * nat)) _ _ _ Hnd Hy). congruence.
Qed.

Lemma remove_list_ne ks tx l p :
  (l, p) ∉ ks → tx_node (flow_remove_node_list ks tx) l p = tx_node tx l p.
Proof.
  intros Hks. unfold tx_node, flow_remove_node_list.
  rewrite (pending_foldl_ne (λ n, Delete _ _)); [done|].
  intros [l' p'] Hin. cbn. by intros [= -> ->]%node_key_inj.
Qed.

Lemma remove_list_eq ks tx l p :
  tx_ok tx → (l, p) ∈ ks → tx_node (flow_remove_node_list ks tx) l p = Some None.
Proof.
  intros (Hne & _) Hin. unfold tx_node, flow_remove_node_list.
  rewrite (pending_foldl_eq (λ n, Delete _ _) _ _ _ None); [done|done| |done].
  by exists (l, p).
Qed.

Lemma commit_frame tx d l p :
  tx_node tx l p = None → flow_get_node (flow_commit tx d).2 l p = flow_get_node d l p.
Proof.
  intros Hn. destruct d as [|kv]; [done|]. destruct tx as [|ops]; [done|]. cbn.
  apply fmap_None in Hn. cbn in Hn. rewrite !kv_get_map. cbn.
  destruct (kv_write_atomic ops kv) as [->| ->]; [|done].
  rewrite lookup_apply_ops. unfold node_key in Hn. by rewrite Hn.
Qed.

Lemma commit_node tx d l p o :
  flow_persistent d → tx_ok tx → tx_node tx l p = Some o →
  flow_get_node (flow_commit tx d).2 l p = Ok o.
Proof.
  intros Hp (Hne & Hok & _) Ho. destruct d as [|kv]; [done|]. destruct tx as [|ops]; [done|].
  apply fmap_Some in Ho as (v & Hv & ->). cbn in Hv |- *. rewrite kv_get_map. cbn.
  destruct (kv_write_ok ops kv Hp) as [_ ->]. rewrite lookup_apply_ops.
  fold (node_key l p). rewrite Hv. destruct v as [v|]; [|done]. destruct (Hok l p v Hv) as [x Hx]. cbn. by rewrite Hx.
Qed.

Lemma commit_size tx d h :
  flow_persistent d → tx_ok tx →
  flow_get_layer_size (flow_commit tx d).2 h =
    match tx_size tx h with Some o => Ok o | None => flow_get_layer_size d h end.
Proof.
  intros Hp (Hne & _ & Hok). destruct d as [|kv]; [done|]. destruct tx as [|ops]; [done|].
  unfold tx_size. cbn [flow_commit flow_get_layer_size snd tx_pending].
  rewrite !kv_get_map, !bind_Ok. destruct (kv_write_ok ops kv Hp) as [_ ->].
  rewrite lookup_apply_ops. change (COL_FLOW_MPT_NODES, layer_size_key h) with (size_key h).
  specialize (Hok h). cbn [tx_pending] in Hok.
  destruct (pending ops (size_key h)) as [[v|]|]; [|done..].
  destruct (Hok v) as [n Hn]; [done|]. cbn [fmap option_fmap option_map mbind option_bind].
  by rewrite Hn.
Qed.

#[export] Instance flow_node_database_laws :
  NodeDatabaseLaws (node_database KV) node_transaction OptionalHash.
Proof.
  refine {| ntx_node := tx_node; ntx_size := tx_size; persistent := flow_persistent;
            tx_persistent := tx_ok |}; cbn.
  - by intros [|kv].
  - by intros [|kv].
  - intros l p x tx l' p' Hne. apply tx_node_ne. by intros ?%node_key_inj.
  - intros. by apply save_list_ne.
  - intros. by apply remove_list_ne.
  - intros h m tx l p. apply tx_node_ne. intros Hk. symmetry in Hk. by apply node_size_key in Hk.
  - intros h tx l p. apply tx_node_ne. intros Hk. symmetry in Hk. by apply node_size_key in Hk.
  - intros l p x tx h. apply tx_size_ne, node_size_key.
  - intros ns tx h. unfold tx_size, flow_save_node_list, flow_save_node. rewrite (pending_foldl_ne (λ n, Insert _ _ _));
      [done|]. intros n _. apply node_size_key.
  - intros ks tx h. unfold tx_size, flow_remove_node_list. rewrite (pending_foldl_ne (λ n, Delete _ _)); [done|].
    intros n _. apply node_size_key.
  - intros. by apply commit_frame.
  - intros [|ops] [|kv]; cbn; [done..|]. apply kv_writable_write.
  - by intros [|kv].
  - intros. by apply tx_ok_save_node.
  - intros. apply tx_ok_foldl; [|done]. intros. by apply tx_ok_save_node.
  - intros. apply tx_ok_foldl; [|done]. intros. by apply tx_ok_remove_node.
  - intros. by apply tx_ok_save_size.
  - intros. by apply tx_ok_remove_size.
  - intros l p x tx (Hne & _). unfold tx_node, flow_save_node.
    rewrite pending_add_eq by done. cbn. by rewrite decode_as_bytes.
  - intros. by apply save_list_eq.
  - intros. by apply remove_list_eq.
  - intros h n tx h' (Hne & _). case_decide as Hh.
    + subst h'. unfold tx_size, flow_save_layer_size. rewrite pending_add_eq by done. cbn. by rewrite decode_usize.
    + apply tx_size_ne. by intros ?%size_key_inj.
  - intros h tx h' (Hne & _). case_decide as Hh.
    + subst h'. unfold tx_size, flow_remove_layer_size. by rewrite pending_add_eq.
    + apply tx_size_ne. by intros ?%size_key_inj.
  - intros [].
  - intros. by apply commit_node.
  - intros. by apply commit_size.
Defined.
End laws.
