(* ===== verification/NodeManagerTheorems.v ===== *)
(** What a [NodeManager] keeps when its cache is bounded, as [NodeManager::new]
    builds it ([common/append_merkle/src/node_manager.rs]): a transaction is
    atomic and durable, whatever the cache evicts and whenever the node stops. *)

From S2P Require Import Prelude HashElement Bytes NodeStore NodeManager NodeManagerFacts FlowDb.

(** ** The operations and what they do to the layers *)

Inductive NodeCmd (E : Type) :=
  | NPush (layer : nat) (x : E)
  | NAppend (layer : nat) (xs : list E)
  | NAdd (layer pos : nat) (x : E)
  | NAddLayer
  | NTruncate (layer pos_end : nat)
  | NTruncateLayer (layer : nat)
  | NStart
  | NCommit.
Arguments NPush {E}.
Arguments NAppend {E}.
Arguments NAdd {E}.
Arguments NAddLayer {E}.
Arguments NTruncate {E}.
Arguments NTruncateLayer {E}.
Arguments NStart {E}.
Arguments NCommit {E}.

Section bounded.
Context `{EqDecision E, !LruCache C (nat * nat) E, !NodeDatabase D T E}.
Context `{!LruCacheLaws C (nat * nat) E, !NodeDatabaseLaws D T E}.
Local Abbreviation manager := (NodeManager C D T).
Implicit Types (s : manager) (L saved : list (list E)) (l : list E) (cmd : NodeCmd E).

Definition run_cmd cmd : M manager () :=
  match cmd with
  | NPush h x => manager_push_node h x
  | NAppend h xs => manager_append_nodes h xs
  | NAdd h i x => manager_add_node h i x
  | NAddLayer => manager_add_layer
  | NTruncate h n => manager_truncate_nodes h n
  | NTruncateLayer h => manager_truncate_layer h
  | NStart => manager_start_transaction
  | NCommit => manager_commit
  end.

(** The layers after a write; [None] for a layer or a node that does not exist. *)
Definition write_layers cmd L : option (list (list E)) :=
  match cmd with
  | NPush h x => l ← L !! h; Some (<[h := l ++ [x]]> L)
  | NAppend h xs => l ← L !! h; Some (<[h := l ++ xs]> L)
  | NAdd h i x => l ← L !! h; if decide (i < length l) then Some (<[h := <[i := x]> l]> L) else None
  | NAddLayer => Some (L ++ [[]])
  | NTruncate h n => l ← L !! h; if decide (n ≤ length l) then Some (<[h := take n l]> L) else None
  | NTruncateLayer h => l ← L !! h; Some (if decide (h = length L - 1) then take h L else <[h := []]> L)
  | NStart | NCommit => None
  end.

(** Whether a transaction is open, the layers of the last commit, and the
    layers with what the transaction changed. *)
Record View := View_mk { v_open : bool; v_saved : list (list E); v_now : list (list E) }.

Definition cmd_view cmd (v : View) : option View :=
  match cmd with
  | NStart => if v_open v then None else Some (View_mk true (v_saved v) (v_now v))
  | NCommit => Some (View_mk false (v_now v) (v_now v))
  | _ => if v_open v then L ← write_layers cmd (v_now v); Some (View_mk true (v_saved v) L) else None
  end.

(** A manager opened on an empty database, used, and opened again at any time,
    also in the middle of a transaction, with any capacity of the cache. *)
Inductive manager_reach : View → manager → Prop :=
  | manager_reach_new layers d capacity s :
      persistent d → (∀ h, ndb_get_layer_size d h = Ok None) → manager_new layers d capacity = Ok s →
      manager_reach (View_mk false [] []) s
  | manager_reach_cmd v s cmd v' :
      manager_reach v s → cmd_view cmd v = Some v' → manager_reach v' (run_cmd cmd s).2
  | manager_reach_again v s layers capacity s' :
      manager_reach v s → manager_new layers (db s) capacity = Ok s' →
      manager_reach (View_mk false (v_saved v) (v_saved v)) s'.

(** ** The invariant *)

(** Every node is in the data base or pending, the cache has no other ones, and
    the data base alone has the layers of the last commit. *)
Record durable (v : View) s : Prop := {
  du_sizes : layer_size s = length <$> v_now v;
  du_open : v_open v = bool_decide (is_Some (db_tx s));
  du_persistent : persistent (db s);
  du_tx tx : db_tx s = Some tx → tx_persistent tx;
  du_cached h i x : lru_peek (h, i) (cache s) = Some x → node_at (v_now v) h i = Some x;
  du_node h i x : node_at (v_now v) h i = Some x → overlay_node (db s) (db_tx s) h i = Some x;
  du_size h : overlay_size (db s) (db_tx s) h = Ok (length <$> v_now v !! h);
  du_saved h i x : node_at (v_saved v) h i = Some x → overlay_node (db s) None h i = Some x;
  du_saved_size h : overlay_size (db s) None h = Ok (length <$> v_saved v !! h);
}.

Lemma du_open_tx saved L s : durable (View_mk true saved L) s → ∃ tx, db_tx s = Some tx.
Proof. intros Hd. pose proof (du_open _ _ Hd) as Ho. symmetry in Ho. apply bool_decide_eq_true in Ho as [tx ?]. by exists tx. Qed.

Lemma du_closed saved L s : durable (View_mk false saved L) s → db_tx s = None.
Proof. intros Hd. pose proof (du_open _ _ Hd) as Ho. symmetry in Ho. apply bool_decide_eq_false in Ho. destruct (db_tx s); [by destruct Ho; eexists|done]. Qed.

Lemma du_size_lookup v s h l : durable v s → v_now v !! h = Some l → layer_size s !! h = Some (length l).
Proof. intros Hd Hl. by rewrite (du_sizes _ _ Hd), list_lookup_fmap, Hl. Qed.

(** A write: the changed nodes are pending, and the cache has them or nothing. *)
Lemma durable_write saved L L' s tx c' ls tx' : durable (View_mk true saved L) s → db_tx s = Some tx → ls = length <$> L' → tx_persistent tx' →
  (∀ h i x, lru_peek (h, i) c' = Some x → node_at L' h i = Some x) →
  (∀ h i x, node_at L' h i = Some x → ntx_node tx' h i = Some (Some x) ∨ node_at L h i = Some x ∧ ntx_node tx' h i = ntx_node tx h i) →
  (∀ h, overlay_size (db s) (Some tx') h = Ok (length <$> L' !! h)) →
  durable (View_mk true saved L') (NodeManager_mk c' ls (db s) (Some tx')).
Proof.
  intros Hd Htx Hls Htp Hc Hn Hs. split; cbn; [done|done|apply Hd|by intros ? [= <-]|done| |done|apply Hd|apply Hd].
  intros h i x Hx. pose proof (du_node _ _ Hd h i x) as Ho. rewrite Htx in Ho. unfold overlay_node in *. cbn in *.
  destruct (Hn h i x Hx) as [->|[? ->]]; [done|by apply Ho].
Qed.

(** The sizes when one layer gets a new one. *)
Lemma overlay_insert saved L s tx tx' h l l' : durable (View_mk true saved L) s → db_tx s = Some tx → L !! h = Some l →
  tx_persistent tx' → (∀ k, ntx_size tx' k = ntx_size tx k) →
  ∀ k, overlay_size (db s) (Some (ntx_save_layer_size h (length l') tx')) k = Ok (length <$> <[h := l']> L !! k).
Proof.
  intros Hd Htx Hl Htp Heq k. rewrite (overlay_save_size _ _ tx) by done. pose proof (du_size _ _ Hd k) as Hs. rewrite Htx in Hs. cbn in Hs.
  case_decide as Hk; [subst k; by rewrite list_lookup_insert_eq by (by eapply lookup_lt_Some)|]. by rewrite list_lookup_insert_ne.
Qed.

(** ** The writes *)

Lemma durable_touch v s k : durable v s → durable v (set_cache (lru_get k (cache s)).2 s).
Proof. intros [? ? ? ? Hc ? ? ? ?]. split; cbn; try done. intros h i x. rewrite peek_get. apply Hc. Qed.

Lemma add_durable saved L s h l i x : durable (View_mk true saved L) s → L !! h = Some l → i < length l →
  wp (manager_add_node h i x) (λ _ s', durable (View_mk true saved (<[h := <[i := x]> l]> L)) s') s.
Proof.
  intros Hd Hl Hi. unfold wp. destruct (decide (lru_peek (h, i) (cache s) = Some x)) as [Heq|Hne].
  { pose proof (du_cached _ _ Hd _ _ _ Heq) as Hx. cbn in Hx. rewrite (node_at_Some _ _ _ _ Hl) in Hx.
    rewrite (list_insert_id l) by done. rewrite list_insert_id by done. rewrite add_node_same by done. by apply durable_touch. }
  destruct (du_open_tx _ _ _ Hd) as [tx Htx]. pose proof (du_tx _ _ Hd _ Htx) as Htp. rewrite (add_node_run _ _ _ _ tx) by done.
  eapply (durable_write saved L); [done|done| |by apply tx_persistent_save_node|..].
  - rewrite (du_sizes _ _ Hd), fmap_insert_length, length_insert. cbn. symmetry. apply list_insert_id. by rewrite list_lookup_fmap, Hl.
  - intros h' j y [[[= -> ->] ->]|[Hk Hy]]%peek_put; rewrite (node_at_insert L h l).
    + rewrite decide_True by done. by apply list_lookup_insert_eq.
    + done.
    + rewrite peek_get in Hy. apply (du_cached _ _ Hd) in Hy. cbn in Hy. case_decide as Hh; [subst h'|done].
      rewrite (node_at_Some _ _ _ _ Hl) in Hy. rewrite list_lookup_insert_ne; [done|congruence].
    + done.
  - intros h' j y. rewrite (node_at_insert L h l) by done. destruct (decide ((h', j) = (h, i))) as [[= -> ->]|Hk].
    + rewrite decide_True, list_lookup_insert_eq by done. intros [= <-]. left. by apply ntx_save_node_eq.
    + intros Hy. right. rewrite ntx_save_node_ne by congruence. split; [|done]. case_decide as Hh; [subst h'|done].
      rewrite (node_at_Some _ _ _ _ Hl). by rewrite list_lookup_insert_ne in Hy by congruence.
  - intros k. pose proof (du_size _ _ Hd k) as Hs. rewrite Htx in Hs. unfold overlay_size in *. cbn in *. rewrite ntx_size_save_node, Hs.
    destruct (decide (k = h)) as [->|]; [|by rewrite list_lookup_insert_ne]. by rewrite list_lookup_insert_eq, Hl by (by eapply lookup_lt_Some); cbn; rewrite length_insert.
Qed.

(** What the cache has of a layer that grows. *)
Lemma grown_cached saved L s h l xs : durable (View_mk true saved L) s → L !! h = Some l →
  ∀ h' j y, lru_peek (h', j) (cache s) = Some y → node_at (<[h := l ++ xs]> L) h' j = Some y.
Proof.
  intros Hd Hl h' j y Hy%(du_cached _ _ Hd). cbn in Hy. rewrite (node_at_insert L h l) by done. case_decide as Hh; [subst h'|done].
  rewrite (node_at_Some _ _ _ _ Hl) in Hy. by apply lookup_app_l_Some.
Qed.

Lemma push_durable saved L s h l x : durable (View_mk true saved L) s → L !! h = Some l →
  wp (manager_push_node h x) (λ _ s', durable (View_mk true saved (<[h := l ++ [x]]> L)) s') s.
Proof.
  intros Hd Hl. destruct (du_open_tx _ _ _ Hd) as [tx Htx]. pose proof (du_size_lookup _ _ _ _ Hd Hl) as Hsz. pose proof (du_tx _ _ Hd _ Htx) as Htp.
  assert (lru_peek (h, length l) (cache s) ≠ Some x) as Hun.
  { intros Hx%(du_cached _ _ Hd). cbn in Hx. rewrite (node_at_Some _ _ _ _ Hl) in Hx. apply lookup_lt_Some in Hx. lia. }
  unfold wp, manager_push_node, gets_ok, layer_size_at, mbind, M_bind. rewrite Hsz. cbn [expect].
  rewrite (add_node_run _ _ _ _ tx) by done. cbn [layer_size]. rewrite Hsz. cbn [expect].
  erewrite set_layer_size_run by (cbn [layer_size db_tx]; done). cbn [cache layer_size db].
  replace (length l + 1) with (length (l ++ [x])) by (rewrite length_app; done).
  eapply (durable_write saved L); [done|done| |by apply tx_persistent_save_size, tx_persistent_save_node|..].
  - by rewrite (du_sizes _ _ Hd), fmap_insert_length.
  - intros h' j y [[[= -> ->] ->]|[Hk Hy]]%peek_put.
    + rewrite (node_at_insert L h l), decide_True by done. by apply list_lookup_middle.
    + rewrite peek_get in Hy. by eapply grown_cached.
  - intros h' j y. rewrite (node_at_insert L h l) by done. rewrite ntx_node_save_size. case_decide as Hh; [subst h'|intros ?; right; by rewrite ntx_save_node_ne by congruence].
    rewrite (node_at_Some _ _ _ _ Hl). intros [Hy|[Hj [Hj0 <-]%list_lookup_singleton_Some]]%lookup_app_Some.
    + right. pose proof (lookup_lt_Some _ _ _ Hy). rewrite ntx_save_node_ne by (intros [=]; lia). done.
    + left. replace j with (length l) by lia. by apply ntx_save_node_eq.
  - eapply overlay_insert; [done..|by apply tx_persistent_save_node|]. intros k. apply ntx_size_save_node.
Qed.

Lemma put_nodes_cached h pos (xs : list E) c k j y : lru_peek (k, j) (put_nodes h pos xs c) = Some y →
  (k = h ∧ pos ≤ j ∧ xs !! (j - pos) = Some y) ∨ lru_peek (k, j) c = Some y.
Proof.
  revert pos c. induction xs as [|x xs IH]; intros pos c; cbn [put_nodes]; [by right|].
  intros [(-> & Hj & Hy)|[[[= -> ->] ->]|[_ Hy]]%peek_put]%IH; [|left|by right].
  - left. split_and!; [done|lia|]. by replace (j - pos) with (S (j - S pos)) by lia.
  - by rewrite Nat.sub_diag.
Qed.

Lemma append_durable saved L s h l xs : durable (View_mk true saved L) s → L !! h = Some l →
  wp (manager_append_nodes h xs) (λ _ s', durable (View_mk true saved (<[h := l ++ xs]> L)) s') s.
Proof.
  intros Hd Hl. destruct (du_open_tx _ _ _ Hd) as [tx Htx]. pose proof (du_size_lookup _ _ _ _ Hd Hl) as Hsz. pose proof (du_tx _ _ Hd _ Htx) as Htp.
  unfold wp. rewrite (append_nodes_run _ _ _ _ _ Hsz Htx).
  pose proof (tx_persistent_save_size h (length (l ++ xs)) _ Htp) as Htp'.
  eapply (durable_write saved L); [done|done| |by apply tx_persistent_save_list|..].
  - by rewrite (du_sizes _ _ Hd), fmap_insert_length.
  - intros h' j y [(-> & Hj & Hy)|Hy]%put_nodes_cached; [|by eapply grown_cached].
    rewrite (node_at_insert L h l), decide_True by done. by rewrite lookup_app_r.
  - intros h' j y. rewrite (node_at_insert L h l) by done. case_decide as Hh; [subst h'|].
    + rewrite (node_at_Some _ _ _ _ Hl). intros [Hy|[Hj Hy]]%lookup_app_Some.
      * right. pose proof (lookup_lt_Some _ _ _ Hy). rewrite ntx_save_list_ne, ntx_node_save_size; [done|].
        intros z (_ & i & -> & _)%elem_of_positioned. lia.
      * left. apply ntx_save_list_eq; [done|apply NoDup_positioned|]. apply elem_of_positioned. split; [done|]. exists (j - length l). split; [lia|done].
    + right. rewrite ntx_save_list_ne, ntx_node_save_size; [done|]. by intros z (-> & _)%elem_of_positioned.
  - intros k. unfold overlay_size. cbn. rewrite ntx_size_save_list. by eapply (overlay_insert saved L s tx tx h l (l ++ xs)).
Qed.

Lemma truncate_durable saved L s h l n : durable (View_mk true saved L) s → L !! h = Some l → n ≤ length l →
  wp (manager_truncate_nodes h n) (λ _ s', durable (View_mk true saved (<[h := take n l]> L)) s') s.
Proof.
  intros Hd Hl Hn. destruct (du_open_tx _ _ _ Hd) as [tx Htx]. pose proof (du_size_lookup _ _ _ _ Hd Hl) as Hsz. pose proof (du_tx _ _ Hd _ Htx) as Htp.
  unfold wp. rewrite (truncate_nodes_run _ _ _ _ _ Hsz Htx). destruct (pop_nodes_spec (removed_nodes h n (length l)) (cache s)) as [_ Hpk].
  assert (∀ h' j y, node_at L h' j = Some y → (h', j) ∉ removed_nodes h n (length l) → node_at (<[h := take n l]> L) h' j = Some y) as Hstay.
  { intros h' j y Hy Hin. rewrite (node_at_insert L h l) by done. case_decide as Hh; [subst h'|done]. rewrite (node_at_Some _ _ _ _ Hl) in Hy.
    apply lookup_take_Some. split; [done|]. pose proof (lookup_lt_Some _ _ _ Hy). destruct (decide (j < n)); [done|]. destruct Hin. apply elem_of_removed. lia. }
  eapply (durable_write saved L); [done|done| |by apply tx_persistent_save_size, tx_persistent_remove_list|..].
  - by rewrite (du_sizes _ _ Hd), fmap_insert_length, length_take_le.
  - intros h' j y. rewrite Hpk. case_decide as Hin; [done|]. intros Hy%(du_cached _ _ Hd). by apply Hstay.
  - intros h' j y. rewrite (node_at_insert L h l), ntx_node_save_size by done. intros Hy. right. rewrite ntx_remove_list_ne.
    + split; [|done]. case_decide as Hh; [subst h'|done]. rewrite (node_at_Some _ _ _ _ Hl). by apply lookup_take_Some in Hy as [? _].
    + intros [-> Hj]%elem_of_removed. rewrite decide_True in Hy by done. apply lookup_take_Some in Hy as [_ ?]. lia.
  - intros k. pose proof (overlay_insert saved L s tx (ntx_remove_node_list (removed_nodes h n (length l)) tx) h l (take n l)) as Ho.
    rewrite length_take_le in Ho by done. apply Ho; [done..|by apply tx_persistent_remove_list|]. intros k'. apply ntx_size_remove_list.
Qed.

(** The sizes changed, the nodes did not. *)
Lemma durable_sizes saved L L' s tx tx' : durable (View_mk true saved L) s → db_tx s = Some tx → (∀ h i, node_at L' h i = node_at L h i) →
  (∀ h i, ntx_node tx' h i = ntx_node tx h i) → tx_persistent tx' → (∀ h, overlay_size (db s) (Some tx') h = Ok (length <$> L' !! h)) →
  durable (View_mk true saved L') (NodeManager_mk (cache s) (length <$> L') (db s) (Some tx')).
Proof.
  intros Hd Htx Hna Hntx Htp Hs. eapply (durable_write saved L); [done..| | |done].
  - intros h i x Hx. rewrite Hna. by apply (du_cached _ _ Hd).
  - intros h i x. rewrite Hna, Hntx. by right.
Qed.

Lemma add_layer_durable saved L s : durable (View_mk true saved L) s → wp manager_add_layer (λ _ s', durable (View_mk true saved (L ++ [[]])) s') s.
Proof.
  intros Hd. destruct (du_open_tx _ _ _ Hd) as [tx Htx]. pose proof (du_tx _ _ Hd _ Htx) as Htp.
  unfold wp, manager_add_layer, gets, modify, mbind, M_bind. cbn [set_sizes]. erewrite with_db_tx_run by done.
  unfold set_tx, set_sizes. cbn [cache layer_size db]. rewrite (du_sizes _ _ Hd), length_app, length_fmap. cbn [v_now length].
  replace (length L + 1 - 1) with (length L) by lia. change [0] with (length <$> [@nil E]). rewrite <-fmap_app.
  apply (durable_sizes saved L _ s tx); [done|done|apply node_at_snoc_nil|intros; apply ntx_node_save_size|by apply tx_persistent_save_size|].
  intros h. rewrite (overlay_save_size _ _ tx) by done. pose proof (du_size _ _ Hd h) as Hs. rewrite Htx in Hs. cbn in Hs. case_decide as Hh.
  - subst h. by rewrite lookup_app_r, Nat.sub_diag by done.
  - rewrite Hs. destruct (decide (h < length L)); [by rewrite lookup_app_l|]. by rewrite !lookup_ge_None_2 by (rewrite ?length_app; cbn; lia).
Qed.

Lemma pop_layer_durable saved L s tx : durable (View_mk true saved (L ++ [[]])) s → db_tx s = Some tx →
  durable (View_mk true saved L) (NodeManager_mk (cache s) (removelast (layer_size s)) (db s) (Some (ntx_remove_layer_size (length L) tx))).
Proof.
  intros Hd Htx. pose proof (du_tx _ _ Hd _ Htx) as Htp. rewrite (du_sizes _ _ Hd). cbn [v_now]. rewrite fmap_app. cbn [fmap list_fmap]. rewrite removelast_last.
  apply (durable_sizes saved (L ++ [[]]) _ s tx); [done|done|intros; symmetry; apply node_at_snoc_nil|intros; apply ntx_node_remove_size|by apply tx_persistent_remove_size|].
  intros h. pose proof (du_size _ _ Hd h) as Hs. rewrite Htx in Hs. unfold overlay_size in *. cbn in *. rewrite ntx_remove_size_spec by done. case_decide as Hh.
  - subst h. by rewrite lookup_ge_None_2.
  - rewrite Hs. destruct (decide (h < length L)); [by rewrite lookup_app_l|]. by rewrite !lookup_ge_None_2 by (rewrite ?length_app; cbn; lia).
Qed.

Lemma truncate_layer_durable saved L s h l : durable (View_mk true saved L) s → L !! h = Some l →
  wp (manager_truncate_layer h) (λ _ s', durable (View_mk true saved (if decide (h = length L - 1) then take h L else <[h := []]> L)) s') s.
Proof.
  intros Hd Hl. pose proof (lookup_lt_Some _ _ _ Hl) as Hlt. unfold manager_truncate_layer. eapply wp_bind_mono; [apply (truncate_durable _ _ _ _ _ 0 Hd Hl); lia|].
  change (take 0 l) with (@nil E). intros [] s' Hd'. apply wp_bind, wp_gets. rewrite (du_sizes _ _ Hd'). cbn [v_now]. rewrite length_fmap, length_insert.
  destruct (decide (h = length L - 1)) as [Hh|Hh]; [rewrite bool_decide_true by done|by rewrite bool_decide_false]. cbn [when].
  destruct (du_open_tx _ _ _ Hd') as [tx Htx]. unfold wp, modify, mbind, M_bind. erewrite with_db_tx_run by done.
  assert (<[h := []]> L = take h L ++ [[]]) as HL.
  { rewrite insert_take_drop by done. f_equal. rewrite drop_ge by lia. done. }
  rewrite HL in Hd'. replace (ntx_remove_layer_size h tx) with (ntx_remove_layer_size (length (take h L)) tx) by (rewrite length_take_le by lia; done).
  by apply (pop_layer_durable saved (take h L) s').
Qed.

(** ** Transactions and restarts *)

Lemma start_durable saved L s : durable (View_mk false saved L) s → wp manager_start_transaction (λ _ s', durable (View_mk true saved L) s') s.
Proof.
  intros Hd. pose proof (du_closed _ _ _ Hd) as Htx. unfold wp, manager_start_transaction. rewrite Htx.
  destruct Hd as [? ? Hp ? ? Hn Hs ? ?]. rewrite Htx in Hn, Hs. split; cbn; try done.
  - intros tx [= <-]. by apply tx_persistent_start.
  - intros h i x Hx. specialize (Hn h i x Hx). unfold overlay_node in *. cbn in *. by rewrite ntx_node_start.
  - intros h. specialize (Hs h). unfold overlay_size in *. cbn in *. by rewrite ntx_size_start.
Qed.

Lemma commit_durable b saved L s : durable (View_mk b saved L) s → (b = false → saved = L) → wp manager_commit (λ _ s', durable (View_mk false L L) s') s.
Proof.
  intros Hd Hb. destruct b; [|by rewrite (Hb eq_refl) in Hd; unfold wp, manager_commit; rewrite (du_closed _ _ _ Hd)].
  destruct (du_open_tx _ _ _ Hd) as [tx Htx]. pose proof (du_tx _ _ Hd _ Htx) as Htp. unfold wp, manager_commit. rewrite Htx.
  destruct Hd as [? ? Hp ? ? Hn Hs ? ?]. rewrite Htx in Hn, Hs. cbn in *.
  assert (∀ h i x, node_at L h i = Some x → overlay_node (ndb_commit tx (db s)).2 None h i = Some x) as Hn'.
  { intros h i x Hx. specialize (Hn h i x Hx). unfold overlay_node in *. cbn in *. destruct (ntx_node tx h i) as [o|] eqn:Ho.
    - by rewrite (ndb_commit_node _ _ _ _ o).
    - by rewrite ndb_commit_frame. }
  assert (∀ h, overlay_size (ndb_commit tx (db s)).2 None h = Ok (length <$> L !! h)) as Hs'.
  { intros h. specialize (Hs h). unfold overlay_size in *. cbn in *. by rewrite ndb_commit_size. }
  split; cbn; try done. by apply persistent_commit.
Qed.

(** Opening the data base of any manager: its layers are those of the last commit. *)
Lemma durable_reopen v s layers capacity : durable v s → length (v_saved v) ≤ layers → 0 < capacity →
  manager_new layers (db s) capacity = Ok (NodeManager_mk (lru_new capacity) (length <$> v_saved v) (db s) None).
Proof.
  intros Hd Hlay Hcap. unfold manager_new. rewrite (load_layer_sizes_spec (db s) (length <$> v_saved v)); [|rewrite length_fmap; lia|].
  - cbn [mbind outcome_bind]. by rewrite bool_decide_false by lia.
  - intros k. rewrite list_lookup_fmap. apply (du_saved_size _ _ Hd).
Qed.

(** A bound that is too small is not reported as a result. *)
Lemma load_layer_sizes_enough (d : D) (ns ms : list nat) fuel h : (∀ k, ndb_get_layer_size d (h + k) = Ok (ns !! k)) →
  load_layer_sizes d fuel h = Ok ms → length ns < fuel.
Proof.
  revert fuel h ms. induction ns as [|n ns IH]; intros [|fuel] h ms Hd; cbn [load_layer_sizes]; try done; [cbn; lia|].
  pose proof (Hd 0) as H0. rewrite Nat.add_0_r in H0. rewrite H0. cbn. destruct (load_layer_sizes d fuel (S h)) as [r|e| |] eqn:Hr; try done.
  intros _. apply IH in Hr; [cbn; lia|]. intros k. rewrite Nat.add_succ_comm. apply (Hd (S k)).
Qed.

Lemma again_durable v s layers capacity s' : durable v s → manager_new layers (db s) capacity = Ok s' →
  durable (View_mk false (v_saved v) (v_saved v)) s'.
Proof.
  intros Hd Hnew. assert (length (v_saved v) ≤ layers ∧ 0 < capacity) as [Hlay Hcap].
  { unfold manager_new in Hnew. destruct (load_layer_sizes (db s) (S layers) 0) as [r|e| |] eqn:Hr; try done.
    apply (load_layer_sizes_enough _ (length <$> v_saved v)) in Hr; [|intros k; rewrite list_lookup_fmap; apply (du_saved_size _ _ Hd)].
    rewrite length_fmap in Hr. rewrite bind_Ok in Hnew. destruct (decide (capacity = 0)) as [->|]; [done|lia]. }
  rewrite (durable_reopen _ _ _ _ Hd Hlay Hcap) in Hnew. injection Hnew as <-. destruct Hd. split; cbn; try done.
  intros h i x. by rewrite peek_new.
Qed.

(** ** All operations *)

Lemma cmd_durable v s cmd v' : durable v s → (v_open v = false → v_saved v = v_now v) → cmd_view cmd v = Some v' →
  wp (run_cmd cmd) (λ _ s', durable v' s') s ∧ (v_open v' = false → v_saved v' = v_now v').
Proof.
  destruct v as [b saved L]. intros Hd Hb Hv.
  assert (∀ L', b = true → write_layers cmd L = Some L' → v' = View_mk true saved L' →
    wp (run_cmd cmd) (λ _ s', durable v' s') s ∧ (v_open v' = false → v_saved v' = v_now v')) as Hwrite.
  { intros L' -> HL' ->. split; [|done]. destruct cmd as [h x|h xs|h i x| |h n|h| |]; cbn in HL'; try done;
      try (destruct (L !! h) as [l|] eqn:Hl; [cbn in HL'|done]); try case_decide as Hi; simplify_eq.
    - by apply push_durable.
    - by apply append_durable.
    - by apply add_durable.
    - by apply add_layer_durable.
    - by apply truncate_durable.
    - pose proof (truncate_layer_durable saved L s _ l Hd Hl) as Ht. by rewrite decide_True in Ht.
    - pose proof (truncate_layer_durable saved L s _ l Hd Hl) as Ht. by rewrite decide_False in Ht. }
  destruct cmd; cbn [cmd_view v_open v_saved v_now] in Hv; try (destruct b; [|done]; apply bind_Some in Hv as (L' & HL' & [= <-]); by eapply Hwrite).
  - destruct b; [done|]. injection Hv as <-. split; [by apply start_durable|done].
  - injection Hv as <-. split; [by eapply commit_durable|done].
Qed.

Lemma reach_durable v s : manager_reach v s → durable v s ∧ (v_open v = false → v_saved v = v_now v).
Proof.
  induction 1 as [layers d capacity s Hp Hs Hnew|v s cmd v' _ [Hd Hb] Hv|v s layers capacity s' _ [Hd Hb] Hnew].
  - split; [|done]. unfold manager_new in Hnew. cbn [load_layer_sizes] in Hnew. rewrite Hs, !bind_Ok in Hnew.
    case_bool_decide; [done|]. injection Hnew as <-. split; cbn; try done. intros h i x. by rewrite peek_new.
  - destruct (cmd_durable v s cmd v' Hd Hb Hv) as [Hw Hv']. split; [|done]. unfold wp in Hw. by destruct (run_cmd cmd s) as [[] ?].
  - split; [by eapply again_durable|done].
Qed.

(** The open transaction has a change of the node. *)
Definition pending s (h i : nat) : Prop := ∃ tx o, db_tx s = Some tx ∧ ntx_node tx h i = Some o.

(** C27: Transactions are atomic and durable, with a cache of any capacity.  For
    every manager that was opened by [NodeManager::new] on an empty data base,
    and again at any time: the writes of an open transaction, the start and the
    commit succeed; the sizes of the layers are those of all writes; every node
    is read as it was written last, except, in an open transaction, one that the
    transaction changed and the cache evicted since; and opening the data base
    gives all layers and nodes of the last commit, nothing of a transaction that
    was not committed. A second transaction cannot be started. *)
Theorem manager_transactions v s : manager_reach v s →
  (∀ cmd v', cmd_view cmd v = Some v' → (run_cmd cmd s).1 = Ok tt) ∧
  layer_size s = length <$> v_now v ∧
  (∀ h i x, node_at (v_now v) h i = Some x →
     manager_get_node s h i = Some x ∨ v_open v = true ∧ lru_peek (h, i) (cache s) = None ∧ pending s h i) ∧
  (∀ layers capacity, length (v_saved v) ≤ layers → 0 < capacity → ∃ s', manager_new layers (db s) capacity = Ok s' ∧
     layer_size s' = length <$> v_saved v ∧ ∀ h i x, node_at (v_saved v) h i = Some x → manager_get_node s' h i = Some x) ∧
  (v_open v = true → manager_start_transaction s = (Panic, s)).
Proof.
  intros [Hd Hb]%reach_durable. split_and!.
  - intros cmd v' Hv. destruct (cmd_durable v s cmd v' Hd Hb Hv) as [Hw _]. unfold wp in Hw. by destruct (run_cmd cmd s) as [[[]| | |] ?].
  - apply Hd.
  - intros h i x Hx. unfold manager_get_node. destruct (lru_peek (h, i) (cache s)) as [y|] eqn:Hy.
    { left. apply (du_cached _ _ Hd) in Hy. congruence. }
    pose proof (du_node _ _ Hd h i x Hx) as Ho. pose proof (du_open _ _ Hd) as Hop. unfold overlay_node in Ho.
    destruct (db_tx s) as [tx|] eqn:Htx; [|by left]. cbn in Ho. destruct (ntx_node tx h i) as [o|] eqn:Htn; [|by left].
    right. split_and!; [by rewrite Hop|done|by exists tx, o].
  - intros layers capacity Hlay Hcap. eexists. split; [by apply durable_reopen|]. split; [done|]. intros h i x Hx.
    unfold manager_get_node. cbn. rewrite peek_new. by apply (du_saved _ _ Hd).
  - intros Ho. destruct v as [? saved L]. cbn in Ho. subst. destruct (du_open_tx _ _ _ Hd) as [tx Htx]. unfold manager_start_transaction. by rewrite Htx.
Qed.

End bounded.

(** ** A cache that holds a single node *)

Section example.
Local Abbreviation disk := (node_database (gmap (nat * list Z) (list Z))).
Local Abbreviation small_manager := (NodeManager (lru (nat * nat) OptionalHash) disk node_transaction).

Definition example_hash (z : Z) : OptionalHash := Some (vreplicate 32 z).

Definition small_new : small_manager := NodeManager_mk (lru_new 1) [] (FlowDBStore ∅) None.

(** A layer with two nodes, the first of which the cache evicts. *)
Definition small_cmds : list (NodeCmd OptionalHash) := [NStart; NAddLayer; NPush 0 (example_hash 1); NPush 0 (example_hash 2)].

Definition small_open : small_manager := foldl (λ s cmd, (run_cmd cmd s).2) small_new small_cmds.

Definition small_committed : small_manager := (run_cmd NCommit small_open).2.

Definition small_layers : list (list OptionalHash) := [[example_hash 1; example_hash 2]].

Lemma small_open_reached : manager_reach (View_mk true [] small_layers) small_open.
Proof.
  unfold small_open, small_cmds. cbn [foldl].
  apply (manager_reach_cmd (View_mk true [] [[example_hash 1]])); [|done].
  apply (manager_reach_cmd (View_mk true [] [[]])); [|done].
  apply (manager_reach_cmd (View_mk true [] [])); [|done].
  apply (manager_reach_cmd (View_mk false [] [])); [|done].
  by apply (manager_reach_new 0 (FlowDBStore ∅) 1).
Qed.

(** The evicted node is not found before the commit, and it is after. *)
Lemma manager_transactions_witness :
  manager_get_node (E := OptionalHash) small_open 0 0 = None ∧
  layer_size small_open = [2] ∧
  manager_get_node small_committed 0 0 = Some (example_hash 1) ∧
  (∃ s' : small_manager, manager_new 1 (db small_committed) 1 = Ok s' ∧ layer_size s' = [2] ∧
     manager_get_node s' 0 0 = Some (example_hash 1)) ∧
  ∃ s' : small_manager, manager_new 0 (db small_open) 1 = Ok s' ∧ layer_size s' = [].
Proof.
  pose proof (manager_transactions _ _ small_open_reached) as (_ & Hsz & _ & Hre & _).
  assert (manager_reach (View_mk false small_layers small_layers) small_committed) as Hc.
  { apply (manager_reach_cmd (View_mk true [] small_layers)); [apply small_open_reached|done]. }
  pose proof (manager_transactions _ _ Hc) as (_ & _ & Hget & Hre' & _).
  split_and!.
  - vm_compute. reflexivity.
  - exact Hsz.
  - destruct (Hget 0 0 (example_hash 1) eq_refl) as [Hg|[? _]]; [exact Hg|done].
  - destruct (Hre' 1 1) as (s' & ? & ? & Hg); [cbn; lia|lia|]. exists s'. split_and!; [done..|]. by apply Hg.
  - destruct (Hre 0 1) as (s' & ? & ? & _); [cbn; lia|lia|]. by exists s'.
Defined.

End example.
