(* ===== verification/AppendMerkle.v ===== *)
(** The append-only Merkle tree: [common/append_merkle/src/lib.rs].

    The state is the record [AppendMerkleTree]; a method with [&mut self] is a
    computation in [M (AppendMerkleTree NM E)].  The node storage is any
    [NodeStore]. *)

From S2P Require Import Prelude HashElement MerkleProof NodeStore.

(** ** Data *)

(** The right most node of every layer of a version, with its position. *)
Record DeltaNodes (E : Type) := DeltaNodes_mk { right_most_nodes : list (nat * E) }.
Arguments DeltaNodes_mk {E} right_most_nodes.
Arguments right_most_nodes {E} d.

Record AppendMerkleTree (NM E : Type) `{HashElement E} := Tree_mk {
  node_manager : NM;
  delta_nodes_map : gmap nat (DeltaNodes E);
  root_to_tx_seq_map : gmap E nat;
  min_depth : option nat;
  leaf_height : nat;
}.
Arguments Tree_mk {NM E _} node_manager delta_nodes_map root_to_tx_seq_map min_depth leaf_height.
Arguments node_manager {NM E _} a.
Arguments delta_nodes_map {NM E _} a.
Arguments root_to_tx_seq_map {NM E _} a.
Arguments min_depth {NM E _} a.
Arguments leaf_height {NM E _} a.

Record HistoryTree (NM E : Type) := HistoryTree_mk {
  ht_node_manager : NM;
  ht_delta_nodes : DeltaNodes E;
  ht_leaf_height : nat;
}.
Arguments HistoryTree_mk {NM E} ht_node_manager ht_delta_nodes ht_leaf_height.
Arguments ht_node_manager {NM E} h.
Arguments ht_delta_nodes {NM E} h.
Arguments ht_leaf_height {NM E} h.

(** ** [DeltaNodes] *)

Section delta.
Context {E : Type}.
Implicit Types d : DeltaNodes E.

Definition delta_get d (h position : nat) : outcome (option E) :=
  match right_most_nodes d !! h with
  | None => Err "position out of tree range"
  | Some (last_pos, x) =>
      if bool_decide (last_pos < position) then Err "position out of tree range"
      else if bool_decide (position = last_pos) then Ok (Some x)
      else Ok None
  end.

Definition delta_layer_len d (h : nat) : outcome nat :=
  px ← expect (right_most_nodes d !! h); Ok (px.1 + 1).

Definition delta_height d : nat := length (right_most_nodes d).

Definition delta_root d : outcome E := px ← expect (last (right_most_nodes d)); Ok px.2.

End delta.

(** [.expect(..)] on a [Result]. *)
Definition expect_ok {A} (o : outcome A) : outcome A :=
  match o with Err _ => Panic | _ => o end.

Section append_merkle.
Context `{Algorithm E, !NodeStore NM E}.
Local Abbreviation tree := (AppendMerkleTree NM E).
Implicit Types t : tree.

(** ** Reading *)

#[export] Instance tree_read : MerkleTreeRead tree E := {|
  node t l i := expect (nm_get_node (node_manager t) l i);
  height t := nm_num_layers (node_manager t);
  layer_len t l := nm_layer_size (node_manager t) l;
  padding_node t h := end_pad (h + leaf_height t);
|}.

#[export] Instance history_read : MerkleTreeRead (HistoryTree NM E) E := {|
  node ht l i :=
    o ← expect_ok (delta_get (ht_delta_nodes ht) l i);
    match o with
    | Some x => if is_null x then expect (nm_get_node (ht_node_manager ht) l i) else Ok x
    | None => expect (nm_get_node (ht_node_manager ht) l i)
    end;
  height ht := delta_height (ht_delta_nodes ht);
  layer_len ht l := delta_layer_len (ht_delta_nodes ht) l;
  padding_node ht h := end_pad (h + ht_leaf_height ht);
|}.

(** ** State updates *)

Definition set_node_manager (s : NM) t : tree :=
  Tree_mk s (delta_nodes_map t) (root_to_tx_seq_map t) (min_depth t) (leaf_height t).

Definition set_versions (d : gmap nat (DeltaNodes E)) (r : gmap E nat) t : tree :=
  Tree_mk (node_manager t) d r (min_depth t) (leaf_height t).

(** A method of the node manager. *)
Definition nm {A} (m : M NM A) : M tree A := zoom node_manager set_node_manager m.

Definition push_node (layer : nat) (x : E) : M tree () := nm (nm_push_node layer x).
Definition append_nodes (layer : nat) (xs : list E) : M tree () := nm (nm_append_nodes layer xs).
Definition update_node (layer pos : nat) (x : E) : M tree () := nm (nm_add_node layer pos x).

Definition get_node (l i : nat) : M tree E := gets_ok (λ t, node t l i).
Definition get_layer_len (l : nat) : M tree nat := gets_ok (λ t, layer_len t l).
Definition get_height : M tree nat := gets height.

Definition before_extend_layer (h : nat) : M tree () :=
  n ← get_height; when (bool_decide (h = n)) (nm nm_add_layer).

(** ** Recomputing the inner nodes *)

(** The parents of the chunks of a layer; [idx] is [next_layer_start_index + i]. *)
Fixpoint parent_updates (lh h idx : nat) (chunks : list (E * option E)) : list (nat * E) :=
  match chunks with
  | [] => []
  | (l, Some r) :: cs =>
      (idx, if is_null l || is_null r then null else parent l r)
        :: parent_updates lh h (idx + 1) cs
  | (r, None) :: cs =>
      (idx, if is_null r then null else parent_single r (h + lh))
        :: parent_updates lh h idx cs
  end.

(** The body of [for (parent_index, parent) in parent_update]; the accumulator
    is [last_changed_parent_index]. *)
Definition apply_parent (h : nat) (last_changed : option nat) (up : nat * E) :
    M tree (option nat) :=
  let '(parent_index, par) := up in
  len ← get_layer_len (h + 1);
  if bool_decide (parent_index < len) then
    if is_null par then mret last_changed
    else
      cur ← get_node (h + 1) parent_index;
      if is_null cur || (bool_decide (cur ≠ par) && bool_decide (parent_index = len - 1)) then
        _ ← update_node (h + 1) parent_index par;
        mret (Some parent_index)
      else if bool_decide (cur ≠ par) then panic
      else mret last_changed
  else if bool_decide (parent_index = len) then
    _ ← push_node (h + 1) par;
    mret (Some parent_index)
  else panic.

Record recompute_locals := Locals_mk {
  start_index : nat;
  rc_height : nat;
  maybe_end_index : option nat;
}.

(** One iteration of the [while] loop of [recompute]. *)
Definition recompute_body (x : recompute_locals) : M tree (recompute_locals + ()) :=
  let h := rc_height x in
  len ← get_layer_len h;
  n ← get_height;
  if negb (bool_decide (1 < len) || bool_decide (h < n - 1)) then mret (inr tt)
  else
    let next_layer_start_index := start_index x / 2 in
    let start :=
      if bool_decide (start_index x `mod` 2 = 1) then start_index x - 1 else start_index x in
    let end0 := default len (maybe_end_index x) in
    let end_index :=
      if bool_decide (end0 `mod` 2 = 1) && bool_decide (end0 ≠ len) then end0 + 1 else end0 in
    nodes ← gets (λ t, get_nodes (node_manager t) h start end_index);
    lh ← gets leaf_height;
    let parent_update := parent_updates lh h next_layer_start_index (chunks2 nodes) in
    _ ← when (negb (bool_decide (length parent_update = 0))) (before_extend_layer (h + 1));
    last_changed ← fold_for parent_update None (apply_parent h);
    match last_changed with
    | None => mret (inr tt)
    | Some i => mret (inl (Locals_mk next_layer_start_index (h + 1) (Some (i + 1))))
    end.

(** The fuel bounds the iterations: every iteration that does not leave the
    loop goes up one layer, and a layer that is added on top is shorter. *)
Definition recompute (start h : nat) (maybe_end : option nat) : M tree () :=
  len ← get_layer_len h;
  n ← get_height;
  loop (S (n + len)) recompute_body
    (Locals_mk (start / 2 ^ h) h ((λ e, e / 2 ^ h) <$> maybe_end)).

Definition recompute_after_append_leaves (start : nat) : M tree () := recompute start 0 None.
Definition recompute_after_append_subtree (start h : nat) : M tree () := recompute start h None.
Definition recompute_after_fill_leaves (start e : nat) : M tree () := recompute start 0 (Some e).

(** ** Appending *)

Definition append_subtree_inner (subtree_depth : nat) (subtree_root : E) : M tree () :=
  if bool_decide (subtree_depth = 0) then bail "Subtree depth should not be zero!"
  else
    _ ← for_each (seq 0 (subtree_depth - 1)) (λ h,
      _ ← before_extend_layer h;
      append_nodes h (replicate (2 ^ (subtree_depth - 1 - h)) null));
    _ ← before_extend_layer (subtree_depth - 1);
    push_node (subtree_depth - 1) subtree_root.

Definition append (new_leaf : E) : M tree () :=
  if is_null new_leaf then mret tt
  else
    _ ← nm nm_start_transaction;
    _ ← push_node 0 new_leaf;
    n ← get_layer_len 0;
    _ ← recompute_after_append_leaves (n - 1);
    nm nm_commit.

Definition append_list (leaf_list : list E) : M tree () :=
  if existsb is_null leaf_list then mret tt
  else
    _ ← nm nm_start_transaction;
    start ← get_layer_len 0;
    _ ← append_nodes 0 leaf_list;
    _ ← recompute_after_append_leaves start;
    nm nm_commit.

Definition append_subtree (subtree_depth : nat) (subtree_root : E) : M tree () :=
  if is_null subtree_root then bail "subtree_root is null"
  else
    _ ← nm nm_start_transaction;
    start ← get_layer_len 0;
    _ ← append_subtree_inner subtree_depth subtree_root;
    _ ← recompute_after_append_subtree start (subtree_depth - 1);
    nm nm_commit.

Definition append_subtree_list (subtree_list : list (nat * E)) : M tree () :=
  if existsb (λ dr, is_null dr.2) subtree_list then bail "subtree_list contains null"
  else
    _ ← nm nm_start_transaction;
    _ ← for_each subtree_list (λ dr,
      start ← get_layer_len 0;
      _ ← append_subtree_inner dr.1 dr.2;
      recompute_after_append_subtree start (dr.1 - 1));
    nm nm_commit.

(** ** Changing and filling in nodes *)

Definition update_last (updated_leaf : E) : M tree () :=
  if is_null updated_leaf then mret tt
  else
    _ ← nm nm_start_transaction;
    n ← get_layer_len 0;
    _ ← (if bool_decide (n = 0) then push_node 0 updated_leaf
         else update_node 0 (n - 1) updated_leaf);
    n' ← get_layer_len 0;
    _ ← recompute_after_append_leaves (n' - 1);
    nm nm_commit.

Definition fill_leaf (index : nat) (lf : E) : M tree () :=
  if is_null lf then mret tt
  else
    cur ← get_node 0 index;
    if is_null cur then
      _ ← nm nm_start_transaction;
      _ ← update_node 0 index lf;
      _ ← recompute_after_fill_leaves index (index + 1);
      nm nm_commit
    else if bool_decide (cur ≠ lf) then panic
    else mret tt.

(** One node of [fill_with_proof]; the accumulator is the layer and the nodes
    filled in so far. *)
Definition fill_node (acc : nat * list (nat * nat * E)) (pd : nat * E) :
    M tree (nat * list (nat * nat * E)) :=
  let '(i, updated) := acc in
  let '(pos, data) := pd in
  len ← get_layer_len i;
  if bool_decide (len < pos) then bail "proof position out of range"
  else if bool_decide (pos = len) then mret (S i, updated)
  else
    cur ← get_node i pos;
    if is_null cur then
      _ ← update_node i pos data;
      mret (S i, updated ++ [(i, pos, data)])
    else mret (S i, updated).

Definition fill_with_proof (position_and_data : list (nat * E)) :
    M tree (list (nat * nat * E)) :=
  acc ← fold_for position_and_data (0, []) fill_node; mret acc.2.

(** The nodes of one side of a range proof, from the height of the leaves on. *)
Definition fill_side (p : proof E) : M tree (list (nat * nat * E)) :=
  nodes ← lift (proof_nodes_in_tree p);
  lh ← gets leaf_height;
  if bool_decide (lh ≤ length nodes) then fill_with_proof (drop lh nodes) else mret [].

Definition fill_with_range_proof (r : range_proof E) : M tree (list (nat * nat * E)) :=
  _ ← nm nm_start_transaction;
  a ← fill_side (left_proof r);
  b ← fill_side (right_proof r);
  _ ← nm nm_commit;
  mret (a ++ b).

Definition fill_with_file_proof (p : proof E) (tx_merkle_nodes : list (nat * E))
    (start : nat) : M tree (list (nat * nat * E)) :=
  let size := length tx_merkle_nodes in
  lh ← gets leaf_height;
  let nodes := if bool_decide (lh ≠ 0)
    then omap (λ hd, if bool_decide (lh < hd.1) then Some (hd.1 - lh - 1, hd.2) else None)
           tx_merkle_nodes
    else tx_merkle_nodes in
  if bool_decide (length nodes = 0) then mret []
  else
    _ ← nm nm_start_transaction;
    pd ← lift (file_proof_nodes_in_tree p nodes size);
    let start_index := start / 2 ^ lh in
    updated ← fill_with_proof (imap (λ i pd, (pd.1 + start_index / 2 ^ i, pd.2)) pd);
    _ ← nm nm_commit;
    mret updated.

(** ** Queries *)

Definition check_root t (r : E) : bool := bool_decide (is_Some (root_to_tx_seq_map t !! r)).

Definition leaf_at t (position : nat) : outcome (option E) :=
  n ← leaves t;
  if bool_decide (n ≤ position) then Err "Out of bound"
  else x ← node t 0 position; Ok (if is_null x then None else Some x).

Fixpoint first_known_root_loop t (fuel h index_in_layer : nat) : outcome (nat * E) :=
  match fuel with
  | 0 => Panic
  | S fuel' =>
      x ← node t h index_in_layer;
      if is_null x then first_known_root_loop t fuel' (S h) (index_in_layer / 2)
      else Ok (S h, x)
  end.

(** The loop runs [while height < self.height()] and is followed by
    [unreachable!]. *)
Definition first_known_root_at t (index : nat) : outcome (nat * E) :=
  first_known_root_loop t (height t) 0 index.

(** [while let Some(last) = subtree_list.pop() { .. }]; the list is kept with
    its last element first. *)
Fixpoint pop_subtrees (list : list (nat * E)) (next root_start : nat) : nat * Datatypes.list (nat * E) :=
  match list with
  | [] => (next, [])
  | l :: ls =>
      let next := next - 2 ^ (l.1 - 1) in
      if bool_decide (next = root_start) then (next, ls) else pop_subtrees ls next root_start
  end.

Fixpoint get_subtrees_loop t (fuel next : nat) (acc : list (nat * E)) :
    outcome (list (nat * E)) :=
  match fuel with
  | 0 => Diverge
  | S fuel' =>
      n ← leaves t;
      if bool_decide (next < n) then
        rt ← first_known_root_at t next;
        let subtree_size := 2 ^ (rt.1 - 1) in
        let root_start := next / subtree_size * subtree_size in
        let '(next, acc) :=
          if bool_decide (root_start < next) then pop_subtrees acc next root_start
          else (next, acc) in
        get_subtrees_loop t fuel' (next + subtree_size) (rt :: acc)
      else Ok (reverse acc)
  end.

(** The index of the next leaf grows with every iteration. *)
Definition get_subtrees t : outcome (list (nat * E)) :=
  n ← leaves t; get_subtrees_loop t (S n) 0 [].

(** ** Versions *)

(** [for height in 0..self.height()] of [commit]: the right most node of every layer. *)
Definition right_most_node t (h : nat) : outcome (nat * E) :=
  len ← layer_len t h;
  if bool_decide (len = 0) then Panic
  else x ← node t h (len - 1); Ok (len - 1, x).

Fixpoint mapM_outcome {A B} (f : A → outcome B) (xs : list A) : outcome (list B) :=
  match xs with
  | [] => Ok []
  | x :: xs' => y ← f x; ys ← mapM_outcome f xs'; Ok (y :: ys)
  end.

Definition commit (tx_seq : option nat) : M tree () :=
  match tx_seq with
  | None => mret tt
  | Some seq =>
      n ← get_layer_len 0;
      if bool_decide (n = 0) then
        modify (λ t, set_versions (<[seq := DeltaNodes_mk []]> (delta_nodes_map t))
                       (root_to_tx_seq_map t) t)
      else
        rmn ← gets_ok (λ t, mapM_outcome (right_most_node t) (List.seq 0 (height t)));
        r ← gets_ok root;
        modify (λ t, set_versions (<[seq := DeltaNodes_mk rmn]> (delta_nodes_map t))
                       (<[r := seq]> (root_to_tx_seq_map t)) t)
  end.

(** [while self.delta_nodes_map.contains_key(&tx_seq)] *)
Fixpoint clear_after_loop (fuel seq : nat) (d : gmap nat (DeltaNodes E)) (r : gmap E nat) :
    outcome (gmap nat (DeltaNodes E) * gmap E nat) :=
  match fuel with
  | 0 => Diverge
  | S fuel' =>
      match d !! seq with
      | None => Ok (d, r)
      | Some nodes =>
          r' ← (if bool_decide (delta_height nodes ≠ 0)
                then rt ← delta_root nodes; Ok (delete rt r) else Ok r);
          clear_after_loop fuel' (S seq) (delete seq d) r'
      end
  end.

Definition clear_after (tx_seq : nat) : M tree () :=
  dr ← gets_ok (λ t, clear_after_loop (S (size (delta_nodes_map t))) (tx_seq + 1)
                       (delta_nodes_map t) (root_to_tx_seq_map t));
  modify (set_versions dr.1 dr.2).

Definition revert_to (tx_seq : nat) : M tree () :=
  n ← get_layer_len 0;
  if bool_decide (n = 0) then mret tt
  else
    _ ← nm nm_start_transaction;
    delta ← gets_ok (λ t, ok_or "tx_seq unavailable" (delta_nodes_map t !! tx_seq));
    hh ← get_height;
    let dh := delta_height delta in
    _ ← for_each (reverse (List.seq dh (hh - dh))) (λ h, nm (nm_truncate_layer h));
    _ ← for_each (imap (λ h px, (h, px)) (right_most_nodes delta)) (λ hpx,
      _ ← nm (nm_truncate_nodes hpx.1 (hpx.2.1 + 1));
      update_node hpx.1 hpx.2.1 hpx.2.2);
    _ ← clear_after tx_seq;
    nm nm_commit.

Definition revert_to_leaves (lvs : nat) : M tree () :=
  _ ← nm nm_start_transaction;
  hh ← get_height;
  _ ← for_each (reverse (List.seq 0 hh)) (λ h,
    let kept_nodes := lvs / 2 ^ h in
    if bool_decide (kept_nodes = 0) then nm (nm_truncate_layer h)
    else nm (nm_truncate_nodes h (kept_nodes + 1)));
  _ ← recompute_after_append_leaves lvs;
  nm nm_commit.

Definition tx_seq_at_root t (root_hash : E) : outcome nat :=
  ok_or "old root unavailable" (root_to_tx_seq_map t !! root_hash).

Definition at_version t (tx_seq : nat) : outcome (HistoryTree NM E) :=
  delta ← ok_or "tx_seq unavailable" (delta_nodes_map t !! tx_seq);
  if bool_decide (delta_height delta = 0) then Err "empty tree"
  else Ok (HistoryTree_mk (node_manager t) delta (leaf_height t)).

Definition reset : M tree () :=
  _ ← nm nm_start_transaction;
  hh ← get_height;
  _ ← for_each (reverse (List.seq 0 hh)) (λ h, nm (nm_truncate_layer h));
  md ← gets min_depth;
  _ ← match md with
      | Some depth => for_each (List.seq 0 depth) (λ _, nm nm_add_layer)
      | None => nm nm_add_layer
      end;
  nm nm_commit.

(** ** Constructors *)

(** The object that a constructor returns after its method calls. *)
Definition build (m : M tree ()) (t : tree) : outcome tree :=
  match m t with
  | (Ok _, t') => Ok t'
  | (Err e, _) => Err e
  | (Panic, _) => Panic
  | (Diverge, _) => Diverge
  end.

(** [delta_nodes_map.insert(seq, DeltaNodes { right_most_nodes: vec!\[\] })] *)
Definition insert_empty_version (start_tx_seq : option nat) : M tree () :=
  match start_tx_seq with
  | Some seq =>
      modify (λ t, set_versions (<[seq := DeltaNodes_mk []]> (delta_nodes_map t))
                     (root_to_tx_seq_map t) t)
  | None => mret tt
  end.

Definition tree_new (lvs : list E) (lh : nat) (start_tx_seq : option nat) : outcome tree :=
  build (
    _ ← nm nm_start_transaction;
    _ ← nm nm_add_layer;
    _ ← append_nodes 0 lvs;
    n ← get_layer_len 0;
    if bool_decide (n = 0) then
      _ ← insert_empty_version start_tx_seq; nm nm_commit
    else
      _ ← recompute 0 0 None;
      _ ← nm nm_commit;
      commit start_tx_seq) (Tree_mk nm_new_dummy ∅ ∅ None lh).

(** [node_manager] is the result of [NodeManager::new(node_db, capacity)?]. *)
Definition new_with_subtrees (manager : outcome NM) (lh : nat) : outcome tree :=
  s ← manager;
  build (
    hh ← get_height;
    when (bool_decide (hh = 0)) (
      _ ← nm nm_start_transaction;
      _ ← nm nm_add_layer;
      nm nm_commit)) (Tree_mk s ∅ ∅ None lh).

Definition new_with_depth (lvs : list E) (depth : nat) (start_tx_seq : option nat) :
    outcome tree :=
  build (
    _ ← nm nm_start_transaction;
    if bool_decide (length lvs = 0) then
      _ ← for_each (List.seq 0 depth) (λ _, nm nm_add_layer);
      _ ← insert_empty_version start_tx_seq;
      nm nm_commit
    else
      _ ← nm nm_add_layer;
      _ ← append_nodes 0 lvs;
      _ ← for_each (List.seq 1 (depth - 1)) (λ _, nm nm_add_layer);
      _ ← recompute 0 0 None;
      _ ← nm nm_commit;
      commit start_tx_seq) (Tree_mk nm_new_dummy ∅ ∅ (Some depth) 0).

End append_merkle.
