(* ===== verification/TreeRules.v ===== *)
(** The rules for the primitive steps of the tree: [tree_at t0 b L t] says that
    [t] is [t0] with a node manager that holds the layers [L]. *)

From S2P Require Import Prelude HashElement MerkleProof MerkleProofComplete NodeStore.
From S2P Require Import AppendMerkle.

Section rules.
Context `{Algorithm E, !NodeStore NM E, !NodeStoreLaws NM E}.
Local Abbreviation tree := (AppendMerkleTree NM E).
Implicit Types (t : tree) (L : list (list E)) (l : list E).

Definition tree_at t0 (b : bool) L t : Prop :=
  ∃ s, t = set_node_manager s t0 ∧ rep s b L.

Lemma tree_at_init t b L : rep (node_manager t) b L → tree_at t b L t.
Proof. intros Hr. exists (node_manager t). by destruct t. Qed.

Lemma tree_at_trans t0 t1 t2 b b' L L' :
  tree_at t0 b L t1 → tree_at t1 b' L' t2 → tree_at t0 b' L' t2.
Proof. intros (s & -> & _) (s' & -> & Hr). by exists s'. Qed.

Lemma tree_at_leaf_height t0 b L t : tree_at t0 b L t → leaf_height t = leaf_height t0.
Proof. by intros (s & -> & _). Qed.

Lemma tree_at_rep t0 b L t : tree_at t0 b L t → rep (node_manager t) b L.
Proof. by intros (s & -> & Hr). Qed.

Lemma tree_at_versions t0 b L t :
  tree_at t0 b L t →
  delta_nodes_map t = delta_nodes_map t0 ∧ root_to_tx_seq_map t = root_to_tx_seq_map t0 ∧
  min_depth t = min_depth t0.
Proof. by intros (s & -> & _). Qed.

(** Every store read through the tree is a read of the layers. *)
Lemma rep_reads t b L : rep (node_manager t) b L → reads t (leaf_height t) L.
Proof.
  intros Hr. split.
  - by apply (rep_num_layers _ b).
  - intros h l Hl. by apply (rep_layer_size _ b L).
  - intros h l i x Hl Hx. simpl. by rewrite (rep_get_node _ b L h l i x).
  - done.
Qed.

Lemma wp_get_height t0 b L t (Q : nat → tree → Prop) :
  tree_at t0 b L t → Q (length L) t → wp get_height Q t.
Proof.
  intros Hat HQ. apply wp_gets. simpl.
  by rewrite (rep_num_layers _ b L) by by eapply tree_at_rep.
Qed.

Lemma wp_get_layer_len t0 b L t h l (Q : nat → tree → Prop) :
  tree_at t0 b L t → L !! h = Some l → Q (length l) t → wp (get_layer_len h) Q t.
Proof.
  intros Hat Hl HQ. eapply wp_gets_ok; [|exact HQ]. simpl.
  eapply rep_layer_size; [by eapply tree_at_rep|done].
Qed.

Lemma wp_get_node t0 b L t h l i x (Q : E → tree → Prop) :
  tree_at t0 b L t → L !! h = Some l → l !! i = Some x → Q x t → wp (get_node h i) Q t.
Proof.
  intros Hat Hl Hx HQ. eapply wp_gets_ok; [|exact HQ]. simpl.
  by rewrite (rep_get_node _ b L h l i x) by (eauto using tree_at_rep).
Qed.

(** A method of the node manager that takes the layers from [L] to [L']. *)
Lemma wp_nm t0 b L b' L' t (m : M NM ()) (Q : () → tree → Prop) :
  tree_at t0 b L t →
  (∀ s, rep s b L → wp m (λ _ s', rep s' b' L') s) →
  (∀ t', tree_at t0 b' L' t' → Q tt t') →
  wp (nm m) Q t.
Proof.
  intros (s & -> & Hr) Hm HQ. apply wp_zoom. eapply wp_mono; [by apply Hm|].
  intros [] s' Hr'. apply HQ. by exists s'.
Qed.

Lemma wp_push_node t0 L t h l x (Q : () → tree → Prop) :
  tree_at t0 true L t → L !! h = Some l →
  (∀ t', tree_at t0 true (<[h := l ++ [x]]> L) t' → Q tt t') → wp (push_node h x) Q t.
Proof. intros Hat Hl. eapply wp_nm; [done|]. intros. by apply rep_push_node. Qed.

Lemma wp_append_nodes t0 L t h l xs (Q : () → tree → Prop) :
  tree_at t0 true L t → L !! h = Some l →
  (∀ t', tree_at t0 true (<[h := l ++ xs]> L) t' → Q tt t') → wp (append_nodes h xs) Q t.
Proof. intros Hat Hl. eapply wp_nm; [done|]. intros. by apply rep_append_nodes. Qed.

Lemma wp_update_node t0 L t h l i x (Q : () → tree → Prop) :
  tree_at t0 true L t → L !! h = Some l → i < length l →
  (∀ t', tree_at t0 true (<[h := <[i := x]> l]> L) t' → Q tt t') → wp (update_node h i x) Q t.
Proof. intros Hat Hl Hi. eapply wp_nm; [done|]. intros. by apply rep_add_node. Qed.

Lemma wp_add_layer t0 L t (Q : () → tree → Prop) :
  tree_at t0 true L t →
  (∀ t', tree_at t0 true (L ++ [[]]) t' → Q tt t') → wp (nm nm_add_layer) Q t.
Proof. intros Hat. eapply wp_nm; [done|]. intros. by apply rep_add_layer. Qed.

Lemma wp_truncate_nodes t0 L t h l n (Q : () → tree → Prop) :
  tree_at t0 true L t → L !! h = Some l → n ≤ length l →
  (∀ t', tree_at t0 true (<[h := take n l]> L) t' → Q tt t') → wp (nm (nm_truncate_nodes h n)) Q t.
Proof. intros Hat Hl Hn. eapply wp_nm; [done|]. intros. by apply rep_truncate_nodes. Qed.

Lemma wp_truncate_layer t0 L l t (Q : () → tree → Prop) :
  tree_at t0 true (L ++ [l]) t →
  (∀ t', tree_at t0 true L t' → Q tt t') → wp (nm (nm_truncate_layer (length L))) Q t.
Proof. intros Hat. eapply wp_nm; [done|]. intros. by eapply rep_truncate_layer. Qed.

Lemma wp_start t0 L t (Q : () → tree → Prop) :
  tree_at t0 false L t →
  (∀ t', tree_at t0 true L t' → Q tt t') → wp (nm nm_start_transaction) Q t.
Proof. intros Hat. eapply wp_nm; [done|]. intros. by apply rep_start_transaction. Qed.

Lemma wp_commit_tx t0 L t (Q : () → tree → Prop) :
  tree_at t0 true L t →
  (∀ t', tree_at t0 false L t' → Q tt t') → wp (nm nm_commit) Q t.
Proof. intros Hat. eapply wp_nm; [done|]. intros. by apply rep_commit. Qed.

(** Layer [h] exists after [before_extend_layer h], for [h] at most the height. *)
Lemma wp_before_extend_layer t0 L t h (Q : () → tree → Prop) :
  tree_at t0 true L t → h ≤ length L →
  (∀ t', tree_at t0 true (if decide (h = length L) then L ++ [[]] else L) t' → Q tt t') →
  wp (before_extend_layer h) Q t.
Proof.
  intros Hat Hh HQ. unfold before_extend_layer. apply wp_bind.
  eapply wp_get_height; [done|]. apply wp_when; intros Heq.
  - apply bool_decide_eq_true in Heq. rewrite decide_True in HQ by done.
    by eapply wp_add_layer.
  - apply bool_decide_eq_false in Heq. rewrite decide_False in HQ by done. by apply HQ.
Qed.

End rules.
