(* ===== verification/Recompute.v ===== *)
(** [recompute] of [common/append_merkle/src/lib.rs]: after the leaves changed
    from position [a] on, it brings the inner nodes up to date and it ends.

    The loop goes up one layer per iteration.  Below and at the current height
    the layers belong to the new leaves [F'], above it they still belong to the
    old leaves [F]; the two agree on the nodes that only cover the first [a]
    leaves.  When an iteration changes nothing, the layers above are already
    those of [F'], which is why leaving the loop early is right. *)

From S2P Require Import Prelude HashElement MerkleSpec MerkleProof MerkleProofComplete.
From S2P Require Import NodeStore AppendMerkle TreeRules.

Section recompute.
Context `{AlgorithmLaws E, !NodeStore NM E, !NodeStoreLaws NM E}.
Local Abbreviation tree := (AppendMerkleTree NM E).
Implicit Types (t : tree) (F : list E) (L : list (list E)) (l : list E).

(** ** The parents of a range of nodes *)

(** [parents] where a node with an unknown child is unknown. *)
Fixpoint pparents (pad : E) (xs : list E) : list E :=
  match xs with
  | [] => []
  | [x] => [if is_null x then null else parent x pad]
  | x :: y :: r => (if is_null x || is_null y then null else parent x y) :: pparents pad r
  end.

(** The elements of a list with consecutive positions. *)
Fixpoint indexed (idx : nat) (xs : list E) : list (nat * E) :=
  match xs with
  | [] => []
  | x :: xs' => (idx, x) :: indexed (idx + 1) xs'
  end.

Lemma parent_updates_pparents lh h idx xs :
  parent_updates lh h idx (chunks2 xs) = indexed idx (pparents (end_pad (h + lh)) xs).
Proof.
  revert idx. induction xs as [|x|x y l IH] using list_ind2; intros idx; [done|done|].
  cbn [chunks2 parent_updates pparents indexed]. by rewrite IH.
Qed.

Lemma indexed_nil idx xs : length (indexed idx xs) = 0 ↔ xs = [].
Proof. by destruct xs. Qed.

Lemma pparents_known pad xs :
  (∀ i x, xs !! i = Some x → x ≠ null) → pparents pad xs = parents pad xs.
Proof.
  induction xs as [|x|x y l IH] using list_ind2; intros Hk; [done| |]; simpl.
  - by rewrite (proj2 (is_null_false x) (Hk 0 x eq_refl)).
  - rewrite (proj2 (is_null_false x) (Hk 0 x eq_refl)), (proj2 (is_null_false y) (Hk 1 y eq_refl)).
    simpl. f_equal. apply IH. intros i z Hz. by apply (Hk (S (S i))).
Qed.

(** A layer of which the nodes from [j] on are replaced by those of [X]. *)
Definition splice (j : nat) (X l : list E) : list E := take j l ++ drop j X.

Lemma lookup_splice j X l i :
  j ≤ length l → splice j X l !! i = if decide (i < j) then l !! i else X !! i.
Proof.
  intros Hj. unfold splice. case_decide.
  - rewrite lookup_app_l by (rewrite length_take; lia). by rewrite lookup_take_lt.
  - rewrite lookup_app_r, lookup_drop by (rewrite length_take; lia).
    rewrite length_take. f_equal. lia.
Qed.

Lemma length_splice j X l : j ≤ length l → j ≤ length X → length (splice j X l) = length X.
Proof. intros. unfold splice. rewrite length_app, length_take, length_drop. lia. Qed.

(** ** Writing the parents of an append *)

Lemma wp_push_parents t0 t L h lp ps idx last :
  tree_at t0 true L t → L !! (h + 1) = Some lp → idx = length lp →
  wp (fold_for (indexed idx ps) last (apply_parent h))
    (λ r t', tree_at t0 true (<[h + 1 := lp ++ ps]> L) t' ∧
       r = if decide (ps = []) then last else Some (length lp + length ps - 1)) t.
Proof.
  revert t L lp last idx. induction ps as [|p ps IH]; intros t L lp last idx Hat Hlp ->.
  - apply wp_ret. rewrite app_nil_r, list_insert_id by done. by rewrite decide_True.
  - cbn [indexed fold_for]. apply wp_bind.
    unfold apply_parent at 1. apply wp_bind. eapply wp_get_layer_len; [done..|].
    rewrite bool_decide_false by lia. rewrite bool_decide_true by done. apply wp_bind.
    eapply wp_push_node; [done..|]. intros t' Hat'. apply wp_ret.
    assert (h + 1 < length L) as Hlt by (by eapply lookup_lt_Some).
    eapply wp_mono; [eapply (IH t' _ (lp ++ [p])); [done| |]|].
    + by apply list_lookup_insert_eq.
    + by rewrite length_app.
    + intros r t'' [Hat'' ->]. rewrite list_insert_insert_eq, <-app_assoc in Hat''.
      split; [done|]. rewrite (decide_False (P := p :: ps = [])) by done.
      rewrite length_app. cbn [length]. case_decide as Hps; [subst ps; f_equal; simpl; lia|].
      f_equal. lia.
Qed.

(** The parents are written from position [j0] on; at most one node is there
    already. *)
Lemma wp_apply_parents t0 t L h lp ps j0 :
  tree_at t0 true L t → L !! (h + 1) = Some lp →
  j0 ≤ length lp → length lp ≤ j0 + 1 → (ps = [] → length lp = j0) →
  (∀ i x, ps !! i = Some x → x ≠ null) →
  wp (fold_for (indexed j0 ps) None (apply_parent h))
    (λ r t', tree_at t0 true (<[h + 1 := take j0 lp ++ ps]> L) t' ∧
       r = if decide (take j0 lp ++ ps = lp) then None else Some (j0 + length ps - 1)) t.
Proof.
  intros Hat Hlp Hj0 Hj1 Hnil Hk.
  assert (h + 1 < length L) as Hlt by (by eapply lookup_lt_Some).
  destruct (decide (length lp = j0)) as [Heq|Hne].
  { eapply wp_mono; [by eapply (wp_push_parents t0 t L h lp ps j0)|].
    intros r t' [Hat' ->]. rewrite take_ge by lia. split; [done|]. rewrite Heq.
    destruct ps as [|p ps]; [by rewrite app_nil_r, !decide_True|].
    rewrite !decide_False; [done| |done].
    intros Happ. apply (f_equal length) in Happ. rewrite length_app in Happ. simpl in Happ. lia. }
  destruct ps as [|p ps]; [by destruct Hne, Hnil|].
  destruct (lookup_lt_is_Some_2 lp j0) as [cur Hcur]; [lia|].
  assert (p ≠ null) as Hp by by apply (Hk 0).
  assert (length (take j0 lp ++ [p]) = length lp) as Hlen
    by (rewrite length_app, length_take; simpl; lia).
  assert (<[j0 := p]> lp = take j0 lp ++ [p]) as Hins by (apply insert_snoc_last; lia).
  cbn [indexed fold_for]. apply wp_bind. unfold apply_parent at 1. apply wp_bind.
  eapply wp_get_layer_len; [done..|]. rewrite bool_decide_true by lia.
  rewrite (proj2 (is_null_false p) Hp). apply wp_bind. eapply wp_get_node; [done..|].
  rewrite (bool_decide_true (j0 = length lp - 1)), andb_true_r by lia.
  destruct (decide (cur = p)) as [->|Hcp].
  - rewrite (proj2 (is_null_false p) Hp), !bool_decide_false by auto. simpl. apply wp_ret.
    eapply wp_mono; [eapply (wp_push_parents t0 t L h lp ps (j0 + 1)); [done..|lia]|].
    intros r t' [Hat' ->].
    assert (take j0 lp ++ p :: ps = lp ++ ps) as ->.
    { rewrite cons_middle, app_assoc, <-Hins. by rewrite list_insert_id. }
    split; [done|]. destruct ps as [|p' ps]; [by rewrite app_nil_r, !decide_True|].
    rewrite !decide_False; [f_equal; simpl; lia| |done].
    intros Happ. apply (f_equal length) in Happ. rewrite length_app in Happ. simpl in Happ. lia.
  - rewrite (bool_decide_true (cur ≠ p)), orb_true_r by done. apply wp_bind.
    eapply wp_update_node; [done..|lia|]. intros t' Hat'. apply wp_ret.
    eapply wp_mono; [eapply (wp_push_parents t0 t' _ h (<[j0:=p]> lp) ps (j0 + 1)); [done| |]|].
    + by apply list_lookup_insert_eq.
    + rewrite length_insert. lia.
    + intros r t'' [Hat'' ->]. rewrite list_insert_insert_eq, Hins, <-app_assoc in Hat''.
      split; [done|]. rewrite length_insert, (decide_False (P := take j0 lp ++ p :: ps = lp)).
      * case_decide; [subst ps; f_equal; simpl; lia|f_equal; simpl; lia].
      * intros Heq. apply Hcp. rewrite <-Heq in Hcur.
        rewrite lookup_app_r in Hcur by (rewrite length_take; lia).
        rewrite length_take in Hcur. replace (j0 - j0 `min` length lp) with 0 in Hcur by lia.
        simpl in Hcur. congruence.
Qed.

(** ** Appending: the invariant of the loop *)

Section append.
Context (lh d a k : nat) (F F' : list E) (L0 : list (list E)).

(** The layers when [recompute] starts at height [k]: up to [k] they belong to
    [F'], above it to [F]. *)
Record append_pre : Prop := {
  ap_k : k < length L0;
  ap_take : take a F = take a F';
  ap_old : a ≤ length F ∧ length F ≤ a + 1;
  ap_grow : length F ≤ length F';
  ap_aligned : a `mod` 2 ^ k = 0;
  ap_depth : 1 ≤ d ∧ d ≤ length L0;
  ap_tight : length L0 = d ∨ 2 ^ (length L0 - 2) < length F';
  ap_top : length F ≤ 2 ^ (length L0 - 1);
  ap_known : Forall (λ x, x ≠ null) F';
  ap_low : ∀ h l, h ≤ k → L0 !! h = Some l → consistent l (ideal lh F' h);
  ap_high : ∀ h l, k < h → L0 !! h = Some l → consistent l (ideal lh F h);
  ap_frontier : frontier k a L0;
}.

(** The nodes that only cover leaves before [a] are those of [L0]. *)
Definition prefix_of L : Prop :=
  ∀ h l, L !! h = Some l → take (a / 2 ^ h) l = take (a / 2 ^ h) (default [] (L0 !! h)).

Record append_inv (h : nat) L : Prop := {
  ai_h : k ≤ h ∧ h < length L;
  ai_len : length L = Nat.max (length L0) (h + 1);
  ai_low : ∀ h' l, h' ≤ h → L !! h' = Some l → consistent l (ideal lh F' h');
  ai_high : ∀ h', h < h' → L !! h' = L0 !! h';
  ai_frontier : frontier k a L;
  ai_depth : d ≤ length L;
  ai_tight : length L = d ∨ 2 ^ (length L - 2) < length F';
  ai_prefix : prefix_of L;
}.

Lemma append_inv_init : append_pre → append_inv k L0.
Proof.
  intros Hp. pose proof (ap_k Hp). pose proof (ap_depth Hp).
  split; try apply Hp; try done; try lia. intros h l Hl. by rewrite Hl.
Qed.

Context (Hpre : append_pre).

Lemma append_a_le : a ≤ length F'.
Proof. pose proof (ap_old Hpre). pose proof (ap_grow Hpre). lia. Qed.

(** The layer above the current one, before it is brought up to date. *)
Lemma append_parent_len h L lp :
  append_inv h L → lp = default [] (L !! (h + 1)) →
  a / 2 ^ (h + 1) ≤ length lp ∧ length lp ≤ a / 2 ^ (h + 1) + 1 ∧
  (∀ i x, lp !! i = Some x → i < a / 2 ^ (h + 1) →
     x = null ∨ ideal lh F' (h + 1) !! i = Some x).
Proof.
  intros Hi ->. destruct (ap_old Hpre) as [Ha1 Ha2].
  rewrite (ai_high _ _ Hi) by lia.
  destruct (L0 !! (h + 1)) as [lp|] eqn:Hlp; simpl.
  - destruct (ai_h _ _ Hi) as [Hk _].
    pose proof (ap_high Hpre (h + 1) lp ltac:(lia) Hlp) as Hc.
    rewrite (consistent_length _ _ Hc), length_ideal.
    pose proof (div_le_mono_pow a (length F) (h + 1) Ha1).
    pose proof (width_div_le (length F) (h + 1)). split_and!; [lia| |].
    + apply width_le. pose proof (Nat.div_mod_eq a (2 ^ (h + 1))).
      pose proof (Nat.mod_upper_bound a (2 ^ (h + 1))). pose proof (pow2_pos (h + 1)). nia.
    + intros i x Hx Hlt. destruct (proj2 Hc i x Hx) as [|Hx']; [by left|right].
      rewrite <-Hx'. symmetry. apply ideal_prefix with a; [apply Hpre|done|apply append_a_le|done].
  - apply lookup_ge_None in Hlp.
    assert (a / 2 ^ (h + 1) = 0) as ->.
    { apply Nat.div_small. pose proof (ap_top Hpre). pose proof (ap_k Hpre).
      assert (2 ^ (length L0 - 1) < 2 ^ (h + 1)); [|lia].
      apply Nat.pow_lt_mono_r; lia. }
    split_and!; [lia|lia|]. intros i x. by rewrite lookup_nil.
Qed.

(** The nodes read by an iteration are known, and so are their parents. *)
Lemma append_nodes_read h L l :
  append_inv h L → L !! h = Some l →
  drop (2 * (a / 2 ^ (h + 1))) l = drop (2 * (a / 2 ^ (h + 1))) (ideal lh F' h) ∧
  pparents (end_pad (h + lh)) (drop (2 * (a / 2 ^ (h + 1))) l) =
    drop (a / 2 ^ (h + 1)) (ideal lh F' (h + 1)).
Proof.
  intros Hi Hl. destruct (ai_h _ _ Hi) as [Hk _].
  pose proof (ai_low _ _ Hi h l ltac:(lia) Hl) as Hc.
  destruct (ai_frontier _ _ Hi) as [Hp Hf].
  assert (∀ i x, drop (2 * (a / 2 ^ (h + 1))) l !! i = Some x → x ≠ null) as Hkn.
  { intros i x. rewrite lookup_drop, Nat.add_1_r, shiftr_succ. intros Hx.
    destruct (decide (a / 2 ^ h ≤ 2 * (a / 2 ^ h / 2) + i)) as [Hle|Hgt].
    - by eapply Hf.
    - eapply (Hp h l x Hl Hk); [div_lia|].
      by replace (a / 2 ^ h - 1) with (2 * (a / 2 ^ h / 2) + i) by div_lia. }
  assert (drop (2 * (a / 2 ^ (h + 1))) l = drop (2 * (a / 2 ^ (h + 1))) (ideal lh F' h)) as Heq.
  { apply consistent_complete; [|exact Hkn]. split.
    - rewrite !length_drop. by rewrite (consistent_length _ _ Hc).
    - intros i x. rewrite !lookup_drop. apply Hc. }
  split; [done|]. rewrite pparents_known by exact Hkn.
  rewrite Heq, parents_drop, Nat.add_1_r. done.
Qed.

(** The layers after [before_extend_layer h]. *)
Definition extended (h : nat) L : list (list E) := if decide (h = length L) then L ++ [[]] else L.

Lemma extended_facts h L :
  h ≤ length L →
  length (extended h L) = Nat.max (length L) (h + 1) ∧
  (∀ h', h' ≠ h → extended h L !! h' = L !! h') ∧
  extended h L !! h = Some (default [] (L !! h)).
Proof.
  intros Hh. unfold extended. case_decide as Heq.
  - rewrite length_app. simpl. split_and!; [lia| |].
    + intros h' Hne. destruct (decide (h' < length L)); [by rewrite lookup_app_l|].
      rewrite !lookup_ge_None_2; [done|lia|rewrite length_app; simpl; lia].
    + rewrite Heq, list_lookup_snoc_eq. by rewrite lookup_ge_None_2.
  - split_and!; [lia|done|].
    destruct (lookup_lt_is_Some_2 L h) as [l ->]; [lia|done].
Qed.

Lemma consistent_splice j X l :
  j ≤ length l → j ≤ length X →
  (∀ i x, l !! i = Some x → i < j → x = null ∨ X !! i = Some x) → consistent (splice j X l) X.
Proof.
  intros Hj HX Hl. split; [by apply length_splice|]. intros i x. rewrite lookup_splice by done.
  case_decide; [|by right]. intros Hx. by apply Hl.
Qed.

Lemma append_parent_width h : a / 2 ^ h ≤ length (ideal lh F' h).
Proof.
  rewrite length_ideal. pose proof (div_le_mono_pow a (length F') h append_a_le).
  pose proof (width_div_le (length F') h). lia.
Qed.

(** Writing the layer above keeps the invariant one layer up. *)
Lemma append_inv_step h L l lp :
  append_inv h L → L !! h = Some l → 1 < length l ∨ h < length L - 1 →
  lp = default [] (L !! (h + 1)) →
  append_inv (h + 1)
    (<[h + 1 := splice (a / 2 ^ (h + 1)) (ideal lh F' (h + 1)) lp]>
       (extended (h + 1) L)).
Proof.
  intros Hi Hl Hcond Hlp. destruct (ai_h _ _ Hi) as [Hk Hh].
  destruct (append_parent_len h L lp Hi Hlp) as (Hj0 & Hj1 & Hpre0).
  set (j0 := a / 2 ^ (h + 1)) in *. set (X' := ideal lh F' (h + 1)) in *.
  pose proof (ai_len _ _ Hi) as Hlen.
  destruct (extended_facts (h + 1) L ltac:(lia)) as (HL1 & Hother & _).
  set (L1 := extended (h + 1) L) in *.
  assert (∀ h' l', <[h + 1 := splice j0 X' lp]> L1 !! h' = Some l' →
    (h' = h + 1 ∧ l' = splice j0 X' lp) ∨ (h' ≠ h + 1 ∧ L !! h' = Some l')) as Hins.
  { intros h' l' [(-> & -> & _)|(Hne & Hl')]%list_lookup_insert_Some; [by left|].
    right. split; [done|]. by rewrite <-Hother. }
  assert (consistent (splice j0 X' lp) X') as Hcs
    by (apply consistent_splice; [done|apply append_parent_width|done]).
  split.
  - rewrite length_insert. lia.
  - rewrite length_insert. lia.
  - intros h' l' Hle [[-> ->]|[Hne Hl']]%Hins; [exact Hcs|]. eapply (ai_low _ _ Hi); [lia|done].
  - intros h' Hlt. rewrite list_lookup_insert_ne, Hother by lia. apply (ai_high _ _ Hi). lia.
  - destruct (ai_frontier _ _ Hi) as [Hp Hf]. split.
    + intros h' l' x [[-> ->]|[Hne Hl']]%Hins; [|by eapply Hp].
      fold j0. intros Hkh Hodd. assert (0 < j0) by (destruct j0; [done|lia]).
      rewrite lookup_splice, decide_True by lia.
      destruct (ap_frontier Hpre) as [Hp0 _]. pose proof (ai_high _ _ Hi (h + 1) ltac:(lia)) as Heq.
      subst lp. rewrite Heq. destruct (L0 !! (h + 1)) as [lp|] eqn:Hlp0; simpl; [|done].
      by eapply Hp0.
    + intros h' l' i x [[-> ->]|[Hne Hl']]%Hins; [|by eapply Hf].
      intros _ Hle. fold j0 in Hle. rewrite lookup_splice, decide_False by lia.
      intros Hx. eapply (Forall_lookup_1 (λ x, x ≠ null)); [|exact Hx].
      apply ideal_known, (ap_known Hpre).
  - rewrite length_insert. pose proof (ai_depth _ _ Hi). lia.
  - rewrite length_insert.
    destruct (decide (h + 1 = length L)) as [Heq|Hne].
    + right. replace (length L1 - 2) with h by lia.
      assert (1 < length l) as Hw by lia.
      rewrite (consistent_length _ _ (ai_low _ _ Hi h l ltac:(lia) Hl)), length_ideal in Hw.
      apply width_spec in Hw. lia.
    + replace (length L1) with (length L) by lia. apply (ai_tight _ _ Hi).
  - intros h' l' [[-> ->]|[Hne Hl']]%Hins; [|by apply (ai_prefix _ _ Hi)].
    fold j0. unfold splice. rewrite take_app_le, take_take, Nat.min_id by (rewrite length_take; lia).
    subst lp. by rewrite (ai_high _ _ Hi) by lia.
Qed.

Lemma append_inv_depth h L :
  append_inv h L → length F' ≤ 2 ^ (length L - 1) → length L = depth_of d (length F').
Proof.
  intros Hi Htop. apply depth_of_spec; [apply (ap_depth Hpre)|].
  split_and!; [apply (ai_depth _ _ Hi)|done|apply (ai_tight _ _ Hi)].
Qed.

(** The loop ends at the top. *)
Lemma append_inv_exit h L l :
  append_inv h L → L !! h = Some l → length l ≤ 1 → length L - 1 ≤ h → layers_ok lh d F' L.
Proof.
  intros Hi Hl H1l Htop. destruct (ai_h _ _ Hi) as [_ Hh]. split.
  - eapply append_inv_depth; [done|].
    rewrite (consistent_length _ _ (ai_low _ _ Hi h l ltac:(lia) Hl)), length_ideal in H1l.
    apply width_le_1 in H1l. by replace (length L - 1) with h by lia.
  - apply (ap_known Hpre).
  - intros h' l' Hl'. eapply (ai_low _ _ Hi); [|done]. apply lookup_lt_Some in Hl'. lia.
Qed.

(** The loop ends early when the layer above does not change. *)
Lemma append_inv_break h L lp :
  append_inv h L → L !! (h + 1) = Some lp →
  splice (a / 2 ^ (h + 1)) (ideal lh F' (h + 1)) lp = lp → layers_ok lh d F' L.
Proof.
  intros Hi Hlp Hsp. destruct (ai_h _ _ Hi) as [Hk Hh].
  destruct (append_parent_len h L lp Hi) as (Hj0 & Hj1 & _); [by rewrite Hlp|].
  pose proof (ai_high _ _ Hi (h + 1) ltac:(lia)) as Hold. rewrite Hlp in Hold. symmetry in Hold.
  pose proof (ap_high Hpre (h + 1) lp ltac:(lia) Hold) as Hc.
  set (j0 := a / 2 ^ (h + 1)) in *.
  assert (ideal lh F (h + 1) = ideal lh F' (h + 1)) as Heq.
  { apply list_eq. intros i. destruct (decide (i < j0)) as [Hlt|Hge].
    - apply ideal_prefix with a; [apply Hpre|apply (ap_old Hpre)|apply append_a_le|done].
    - assert (lp !! i = ideal lh F' (h + 1) !! i) as Hi'.
      { rewrite <-Hsp at 1. by rewrite lookup_splice, decide_False. }
      rewrite <-Hi'. destruct (lp !! i) as [x|] eqn:Hx.
      + eapply consistent_known; [exact Hc|exact Hx|].
        eapply (Forall_lookup_1 (λ x, x ≠ null)); [|symmetry; exact Hi'].
        apply ideal_known, (ap_known Hpre).
      + apply lookup_ge_None. rewrite <-(consistent_length _ _ Hc). by apply lookup_ge_None. }
  assert (h + 1 < length L0) as HL0 by (by eapply lookup_lt_Some).
  assert (length L = length L0) as HLL by (rewrite (ai_len _ _ Hi); lia).
  split.
  - eapply append_inv_depth; [done|]. apply width_le_1. rewrite <-(length_ideal lh).
    rewrite <-(ideal_above lh F F' (h + 1)) by (done || lia).
    rewrite length_ideal. apply width_le_1. rewrite HLL. apply (ap_top Hpre).
  - apply (ap_known Hpre).
  - intros h' l' Hl'. destruct (decide (h' ≤ h)); [by eapply (ai_low _ _ Hi)|].
    rewrite (ai_high _ _ Hi) in Hl' by lia.
    rewrite <-(ideal_above lh F F' (h + 1)) by (done || lia).
    apply (ap_high Hpre); [lia|done].
Qed.

(** An iteration without parents to write is below a layer that exists. *)
Lemma append_no_update h L l :
  append_inv h L → L !! h = Some l → 1 < length l ∨ h < length L - 1 →
  drop (a / 2 ^ (h + 1)) (ideal lh F' (h + 1)) = [] →
  ∃ lp, L !! (h + 1) = Some lp ∧ length lp = a / 2 ^ (h + 1).
Proof.
  intros Hi Hl Hcond Hnil. destruct (ap_old Hpre) as [Ha1 Ha2].
  pose proof append_a_le as Ha'. pose proof (ap_grow Hpre) as Hg.
  apply (f_equal length) in Hnil. rewrite length_drop, length_ideal in Hnil. cbn [length] in Hnil.
  assert (length F' ≤ a / 2 ^ (h + 1) * 2 ^ (h + 1)) as Hw by (apply width_le; lia).
  pose proof (Nat.div_mod_eq a (2 ^ (h + 1))) as Hdm.
  assert (length F = a ∧ a `mod` 2 ^ (h + 1) = 0) as [HF Hm] by lia.
  destruct (ai_h _ _ Hi) as [Hk Hh]. pose proof (ai_len _ _ Hi) as HL.
  assert (h + 1 < length L0) as Hlt.
  { destruct (decide (h + 1 < length L0)) as [|Hge]; [done|exfalso].
    pose proof (ap_k Hpre) as Hk0.
    assert (1 < length l) as Hw1 by lia.
    rewrite (consistent_length _ _ (ai_low _ _ Hi h l ltac:(lia) Hl)), length_ideal in Hw1.
    apply width_spec in Hw1. pose proof (ap_top Hpre) as Htop.
    assert (2 ^ (length L0 - 1) ≤ 2 ^ h) by (apply Nat.pow_le_mono_r; lia). lia. }
  destruct (lookup_lt_is_Some_2 L0 (h + 1) Hlt) as [lp Hlp]. exists lp.
  split; [by rewrite (ai_high _ _ Hi) by lia|].
  rewrite (consistent_length _ _ (ap_high Hpre (h + 1) lp ltac:(lia) Hlp)), length_ideal.
  rewrite HF. by apply width_aligned.
Qed.

Lemma append_iterations h L l :
  append_inv h L → L !! h = Some l → 1 < length l ∨ h < length L - 1 →
  ∀ lk, L0 !! k = Some lk → h < k + (length L0 + length lk).
Proof.
  intros Hi Hl Hcond lk Hlk. destruct (ai_h _ _ Hi) as [Hk Hh]. pose proof (ai_len _ _ Hi).
  destruct (decide (h < length L0)); [lia|]. assert (1 < length l) as Hw by lia.
  rewrite (consistent_length _ _ (ai_low _ _ Hi h l ltac:(lia) Hl)), length_ideal in Hw.
  rewrite (consistent_length _ _ (ap_low Hpre k lk ltac:(lia) Hlk)), length_ideal.
  replace h with (k + (h - k)) in Hw by lia. apply width_gt in Hw. lia.
Qed.

(** One iteration: it either goes up with the invariant or ends with the
    layers of [F']. *)
Lemma wp_recompute_body_append t0 t L h me l :
  leaf_height t0 = lh → tree_at t0 true L t → append_inv h L → L !! h = Some l →
  default (length l) me = length l →
  wp (recompute_body (Locals_mk (a / 2 ^ h) h me))
    (λ r t', ∃ L', tree_at t0 true L' t' ∧
       match r with
       | inl x => append_inv (h + 1) L' ∧ (1 < length l ∨ h < length L - 1) ∧
           ∃ l', L' !! (h + 1) = Some l' ∧ x = Locals_mk (a / 2 ^ (h + 1)) (h + 1) (Some (length l'))
       | inr _ => layers_ok lh d F' L' ∧ frontier k a L' ∧ prefix_of L'
       end) t.
Proof.
  intros Hlh Hat Hi Hl Hme. unfold recompute_body. cbn [rc_height start_index maybe_end_index].
  apply wp_bind. eapply wp_get_layer_len; [done..|]. apply wp_bind. eapply wp_get_height; [done|].
  destruct (bool_decide (1 < length l) || bool_decide (h < length L - 1)) eqn:Hcond; cbn [negb]; cycle 1.
  { apply orb_false_iff in Hcond as [H1l%bool_decide_eq_false H2l%bool_decide_eq_false].
    apply wp_ret. exists L. split_and!; [done| |apply Hi|apply Hi].
    eapply append_inv_exit; [done..|lia|lia]. }
  assert (1 < length l ∨ h < length L - 1) as Hc
    by (apply orb_true_iff in Hcond as [?%bool_decide_eq_true|?%bool_decide_eq_true]; auto).
  clear Hcond. rewrite Hme, bool_decide_false with (P := length l ≠ length l), andb_false_r by auto.
  destruct (append_nodes_read h L l Hi Hl) as [Hread Hpp].
  assert ((if bool_decide ((a / 2 ^ h) `mod` 2 = 1) then a / 2 ^ h - 1 else a / 2 ^ h)
          = 2 * (a / 2 ^ (h + 1))) as ->.
  { rewrite Nat.add_1_r, shiftr_succ. case_bool_decide; div_lia. }
  apply wp_bind, wp_gets.
  rewrite (get_nodes_rep _ true L h l) by (eauto using tree_at_rep).
  rewrite take_ge by (rewrite length_drop; lia).
  apply wp_bind, wp_gets. rewrite (tree_at_leaf_height _ _ _ _ Hat), Hlh.
  rewrite parent_updates_pparents, Hpp.
  replace (a / 2 ^ h / 2) with (a / 2 ^ (h + 1)) by (by rewrite Nat.add_1_r, shiftr_succ).
  destruct (append_parent_len h L _ Hi eq_refl) as (Hj0 & Hj1 & _).
  set (lp := default [] (L !! (h + 1))) in *. set (j0 := a / 2 ^ (h + 1)) in *.
  set (ps := drop j0 (ideal lh F' (h + 1))) in *.
  destruct (decide (ps = [])) as [Hnil|Hne].
  { destruct (append_no_update h L l Hi Hl Hc Hnil) as (lp' & Hlp' & Hlen').
    rewrite Hnil. apply wp_bind, wp_when; [done|]. intros _. apply wp_bind, wp_ret, wp_ret.
    exists L. split_and!; [done| |apply Hi|apply Hi].
    eapply append_inv_break; [done..|]. unfold splice. fold j0 ps. rewrite Hnil, app_nil_r.
    apply take_ge. unfold j0. lia. }
  apply wp_bind, wp_when; cycle 1.
  { intros Hb%negb_false_iff%bool_decide_eq_true%indexed_nil. done. }
  intros _. destruct (ai_h _ _ Hi) as [_ Hh].
  eapply wp_before_extend_layer; [done|lia|]. intros t1 Hat1.
  destruct (extended_facts (h + 1) L ltac:(lia)) as (HL1 & _ & Hlk1).
  fold (extended (h + 1) L) in Hat1. fold lp in Hlk1.
  apply wp_bind. eapply wp_mono.
  { apply (wp_apply_parents t0 t1 (extended (h + 1) L) h lp ps j0); try done.
    intros i x Hx. eapply (Forall_lookup_1 (λ x, x ≠ null)); [|exact Hx].
    by apply Forall_drop, ideal_known, (ap_known Hpre). }
  intros r t2 [Hat2 ->]. change (take j0 lp ++ ps) with (splice j0 (ideal lh F' (h + 1)) lp) in *.
  pose proof (append_inv_step h L l lp Hi Hl Hc eq_refl) as Hi'. fold j0 in Hi'.
  case_decide as Hsp; apply wp_ret; (eexists; split; [exact Hat2|]).
  - rewrite Hsp, list_insert_id in Hi' |- * by done. unfold extended in *.
    destruct (decide (h + 1 = length L)) as [Hext|Hext]; [exfalso|].
    + apply Hne. unfold lp in Hsp. rewrite lookup_ge_None_2 in Hsp by lia. simpl in Hsp.
      unfold splice in Hsp. apply app_eq_nil in Hsp as [_ Hps]. exact Hps.
    + split_and!; [|apply Hi|apply Hi]. eapply append_inv_break; [exact Hi|exact Hlk1|exact Hsp].
  - split_and!; [done..|]. exists (splice j0 (ideal lh F' (h + 1)) lp).
    split; [apply list_lookup_insert_eq; lia|]. do 2 f_equal. fold ps.
    unfold splice. rewrite length_app, length_take. fold ps.
    destruct ps; [done|simpl; lia].
Qed.

(** The whole loop: total, and it leaves the layers of [F'] behind. *)
Lemma wp_recompute_append t0 t :
  leaf_height t0 = lh → tree_at t0 true L0 t →
  wp (recompute a k None)
    (λ _ t', ∃ L, tree_at t0 true L t' ∧ layers_ok lh d F' L ∧ frontier k a L ∧ prefix_of L) t.
Proof.
  intros Hlh Hat. destruct (lookup_lt_is_Some_2 L0 k (ap_k Hpre)) as [lk Hlk].
  unfold recompute. apply wp_bind. eapply wp_get_layer_len; [done..|].
  apply wp_bind. eapply wp_get_height; [done|].
  eapply (wp_loop _ _ _ (λ x t', ∃ L l, tree_at t0 true L t' ∧ append_inv (rc_height x) L ∧
      L !! rc_height x = Some l ∧ start_index x = a / 2 ^ rc_height x ∧
      default (length l) (maybe_end_index x) = length l)
    (λ x, k + (length L0 + length lk) - rc_height x)).
  - cbn [rc_height]. lia.
  - exists L0, lk. split_and!; try done. by apply append_inv_init.
  - intros [st h me] t1 (L & l & Hat1 & Hi & Hl & Hst & Hme). cbn [rc_height start_index maybe_end_index] in *.
    subst st. eapply wp_mono; [by eapply wp_recompute_body_append|].
    intros [x|[]] t2 (L' & Hat2 & Hr); [|by exists L'].
    destruct Hr as (Hi' & Hc & l' & Hl' & ->). cbn [rc_height start_index maybe_end_index].
    pose proof (append_iterations h L l Hi Hl Hc lk Hlk). split; [|lia].
    by exists L', l'.
Qed.

End append.

(** ** Filling in: the leaves do not change, nodes become known *)

(** [L'] has the shape of [L] and knows at least the nodes that [L] knows. *)
Definition more_known L L' : Prop :=
  length L = length L' ∧
  ∀ h l, L !! h = Some l → ∃ l', L' !! h = Some l' ∧ length l' = length l ∧
    ∀ i x, l !! i = Some x → x ≠ null → l' !! i = Some x.

Lemma more_known_refl L : more_known L L.
Proof. split; [done|]. intros h l Hl. by exists l. Qed.

Lemma more_known_trans L1 L2 L3 : more_known L1 L2 → more_known L2 L3 → more_known L1 L3.
Proof.
  intros [Hlen1 H12] [Hlen2 H23]. split; [congruence|]. intros h l Hl.
  destruct (H12 h l Hl) as (l2 & Hl2 & Hlen & Hk2). destruct (H23 h l2 Hl2) as (l3 & Hl3 & Hlen' & Hk3).
  exists l3. split_and!; [done|congruence|]. intros i x Hx Hn. auto.
Qed.

Lemma more_known_lookup L L' h l' i x' :
  more_known L L' → L' !! h = Some l' → l' !! i = Some x' →
  ∃ l x, L !! h = Some l ∧ l !! i = Some x ∧ (x ≠ null → x' = x).
Proof.
  intros [Hlen Hm] Hl' Hx'. destruct (lookup_lt_is_Some_2 L h) as [l Hl].
  { rewrite Hlen. by eapply lookup_lt_Some. }
  destruct (Hm h l Hl) as (l2 & Hl2 & Hlen2 & Hk). simplify_eq.
  destruct (lookup_lt_is_Some_2 l i) as [x Hx]; [rewrite <-Hlen2; by eapply lookup_lt_Some|].
  exists l, x. split_and!; [done..|]. intros Hn. specialize (Hk i x Hx Hn). congruence.
Qed.

Lemma more_known_frontier L L' k a : more_known L L' → frontier k a L → frontier k a L'.
Proof.
  intros Hm [Hp Hf]. split.
  - intros h l' x' Hl' Hk Hodd Hx'.
    destruct (more_known_lookup _ _ _ _ _ _ Hm Hl' Hx') as (l & x & Hl & Hx & Heq).
    assert (x ≠ null) as Hn by by eapply Hp. by rewrite Heq.
  - intros h l' i x' Hl' Hk Hi Hx'.
    destruct (more_known_lookup _ _ _ _ _ _ Hm Hl' Hx') as (l & x & Hl & Hx & Heq).
    assert (x ≠ null) as Hn by by eapply Hf. by rewrite Heq.
Qed.

(** Setting an unknown node to its reference value. *)
Lemma fill_node_ok lh d F L h l i x y :
  layers_ok lh d F L → L !! h = Some l → l !! i = Some y → y = null →
  ideal lh F h !! i = Some x →
  layers_ok lh d F (<[h := <[i := x]> l]> L) ∧ more_known L (<[h := <[i := x]> l]> L).
Proof.
  intros Hok Hl Hy -> Hx. assert (h < length L) by (by eapply lookup_lt_Some). split.
  - split; [rewrite length_insert; apply Hok|apply Hok|].
    intros h' l' [(-> & <- & _)|(_ & Hl')]%list_lookup_insert_Some; [|by apply Hok].
    apply consistent_insert; [by apply Hok|done].
  - split; [by rewrite length_insert|]. intros h' l' Hl'.
    destruct (decide (h' = h)) as [->|Hne].
    + assert (l' = l) as -> by congruence.
      exists (<[i := x]> l). rewrite list_lookup_insert_eq, length_insert by done.
      split_and!; [done..|]. intros j z Hz Hn. rewrite list_lookup_insert_ne; [done|].
      intros ->. by simplify_eq.
    + exists l'. by rewrite list_lookup_insert_ne.
Qed.

Lemma lookup_pparents pad xs j :
  pparents pad xs !! j =
    match xs !! (2 * j), xs !! (2 * j + 1) with
    | Some x, Some y => Some (if is_null x || is_null y then null else parent x y)
    | Some x, None => Some (if is_null x then null else parent x pad)
    | None, _ => None
    end.
Proof.
  revert j. induction xs as [|x|x y l IH] using list_ind2; intros j; [by destruct j| |].
  - destruct j as [|j]; [done|]. simpl. by replace (j + S (j + 0)) with (S (2 * j)) by lia.
  - destruct j as [|j]; [done|]. cbn [pparents]. rewrite lookup_cons, IH.
    replace (2 * S j) with (S (S (2 * j))) by lia.
    by replace (S (S (2 * j)) + 1) with (S (S (2 * j + 1))) by lia.
Qed.

(** The parents computed from a range of a consistent layer. *)
Lemma pparents_consistent pad l X j0 e i p :
  consistent l X → e ≤ length l → e `mod` 2 = 0 ∨ e = length l →
  pparents pad (take (e - 2 * j0) (drop (2 * j0) l)) !! i = Some p →
  j0 + i < length (parents pad X) ∧ (p = null ∨ parents pad X !! (j0 + i) = Some p).
Proof.
  intros [Hlen Hc] He Hpar. rewrite lookup_pparents.
  assert (∀ m, take (e - 2 * j0) (drop (2 * j0) l) !! m =
    if decide (2 * j0 + m < e) then l !! (2 * j0 + m) else None) as Hlk.
  { intros m. case_decide; [by rewrite lookup_take_lt, lookup_drop by lia|].
    by rewrite lookup_take_ge by lia. }
  rewrite !Hlk. rewrite lookup_parents. unfold pnode.
  replace (2 * (j0 + i)) with (2 * j0 + 2 * i) by lia.
  replace (2 * j0 + (2 * i + 1)) with (2 * j0 + 2 * i + 1) by lia.
  set (m := 2 * j0 + 2 * i) in *. case_decide as Hm; [|done].
  destruct (lookup_lt_is_Some_2 l m) as [x Hx]; [lia|]. rewrite Hx.
  assert (j0 + i < length (parents pad X)) as Hlt by (rewrite length_parents; unfold m in *; div_lia).
  destruct (Hc m x Hx) as [->|HXx].
  - rewrite (proj2 (is_null_true null) eq_refl).
    destruct (if decide _ then _ else _); intros [= <-]; auto.
  - rewrite HXx. case_decide as Hm1.
    + destruct (lookup_lt_is_Some_2 l (m + 1)) as [y Hy]; [lia|]. rewrite Hy.
      destruct (is_null x || is_null y) eqn:Hn; intros [= <-]; [by auto|].
      apply orb_false_iff in Hn as [_ Hn%is_null_false].
      destruct (Hc _ _ Hy) as [->|HXy]; [done|]. rewrite HXy. auto.
    + assert (m + 1 = length X) as Heq by (unfold m in *; destruct Hpar; [div_lia|lia]).
      rewrite (lookup_ge_None_2 X (m + 1)) by lia.
      destruct (is_null x) eqn:Hn; intros [= <-]; auto.
Qed.

Section fill.
Context (lh d : nat) (F : list E) (Hd : 1 ≤ d).

(** A tree that refines [L0] with the same leaves. *)
Definition filled t0 L0 L t : Prop :=
  tree_at t0 true L t ∧ layers_ok lh d F L ∧ more_known L0 L.

(** Writing parents that are unknown or right changes no known node. *)
Lemma wp_fill_parents t0 L0 L t h ps j0 last :
  filled t0 L0 L t → h + 1 < length L →
  (∀ i p, ps !! i = Some p → j0 + i < width (length F) (h + 1) ∧
     (p = null ∨ ideal lh F (h + 1) !! (j0 + i) = Some p)) →
  (∀ i, last = Some i → i < width (length F) (h + 1)) →
  wp (fold_for (indexed j0 ps) last (apply_parent h))
    (λ r t', (∃ L', filled t0 L0 L' t' ∧ length L' = length L) ∧
       ∀ i, r = Some i → i < width (length F) (h + 1)) t.
Proof.
  revert L t j0 last. induction ps as [|p ps IH]; intros L t j0 last Hf Hh Hps Hlast.
  { apply wp_ret. split; [by exists L|done]. }
  destruct Hf as (Hat & Hok & Hm). destruct (Hps 0 p eq_refl) as [Hj Hp]. rewrite Nat.add_0_r in Hj, Hp.
  destruct (lookup_lt_is_Some_2 L (h + 1) Hh) as [lp Hlp].
  pose proof (lok_layer _ _ _ _ Hok _ _ Hlp) as Hc.
  assert (length lp = width (length F) (h + 1)) as Hlen
    by (by rewrite (consistent_length _ _ Hc), length_ideal).
  assert (∀ L' t' last', filled t0 L0 L' t' → length L' = length L →
    (∀ i, last' = Some i → i < width (length F) (h + 1)) →
    wp (fold_for (indexed (j0 + 1) ps) last' (apply_parent h))
      (λ r t', (∃ L', filled t0 L0 L' t' ∧ length L' = length L) ∧
         ∀ i, r = Some i → i < width (length F) (h + 1)) t') as Hrest.
  { intros L' t' last' Hf' HL' Hl'. rewrite <-HL'. apply IH; [done|lia| |done].
    intros i q Hq. rewrite <-Nat.add_assoc. by apply (Hps (S i)). }
  cbn [indexed fold_for]. apply wp_bind. unfold apply_parent at 1.
  apply wp_bind. eapply wp_get_layer_len; [done..|]. rewrite bool_decide_true by lia.
  destruct (is_null p) eqn:Hn; [apply wp_ret; by apply (Hrest L)|].
  apply is_null_false in Hn. destruct Hp as [|Hp]; [done|].
  destruct (lookup_lt_is_Some_2 lp j0) as [cur Hcur]; [lia|].
  apply wp_bind. eapply wp_get_node; [done..|].
  destruct (proj2 Hc _ _ Hcur) as [->|Hcur'].
  - rewrite (proj2 (is_null_true null) eq_refl). cbn [orb]. apply wp_bind.
    eapply wp_update_node; [done..|lia|]. intros t' Hat'. apply wp_ret.
    destruct (fill_node_ok lh d F L (h + 1) lp j0 p null Hok Hlp Hcur eq_refl Hp) as [Hok' Hm'].
    apply (Hrest (<[h + 1 := <[j0 := p]> lp]> L)); [|by rewrite length_insert|by intros i [= <-]].
    split_and!; [done..|]. by eapply more_known_trans.
  - assert (cur = p) as -> by congruence.
    rewrite (proj2 (is_null_false p) Hn), !bool_decide_false by auto. cbn [orb andb].
    apply wp_ret. by apply (Hrest L).
Qed.

Lemma wp_recompute_body_fill t0 L0 L t h st e :
  leaf_height t0 = lh → filled t0 L0 L t → h < length L → e ≤ width (length F) h →
  wp (recompute_body (Locals_mk st h (Some e)))
    (λ r t', ∃ L', filled t0 L0 L' t' ∧ length L' = length L ∧
       match r with
       | inl x => h + 1 < length L ∧ rc_height x = h + 1 ∧
           ∃ e', maybe_end_index x = Some e' ∧ e' ≤ width (length F) (h + 1)
       | inr _ => True
       end) t.
Proof.
  intros Hlh Hf Hh He. destruct Hf as (Hat & Hok & Hm).
  destruct (lookup_lt_is_Some_2 L h Hh) as [l Hl].
  pose proof (lok_layer _ _ _ _ Hok _ _ Hl) as Hc.
  assert (length l = width (length F) h) as Hlen by (by rewrite (consistent_length _ _ Hc), length_ideal).
  unfold recompute_body. cbn [rc_height start_index maybe_end_index from_option id].
  apply wp_bind. eapply wp_get_layer_len; [done..|]. apply wp_bind. eapply wp_get_height; [done|].
  destruct (bool_decide (1 < length l) || bool_decide (h < length L - 1)) eqn:Hcond; cbn [negb]; cycle 1.
  { apply wp_ret. exists L. by split_and!. }
  assert (h + 1 < length L) as Hh1.
  { destruct (proj1 (depth_of_spec d (length F) (length L) Hd) (lok_depth _ _ _ _ Hok)) as (_&Htop&_).
    apply orb_true_iff in Hcond as [Hw%bool_decide_eq_true|?%bool_decide_eq_true]; [|lia].
    destruct (decide (h = length L - 1)) as [->|]; [|lia]. apply width_le_1 in Htop. lia. }
  clear Hcond.
  replace (if bool_decide (st `mod` 2 = 1) then st - 1 else st) with (2 * (st / 2))
    by (case_bool_decide; div_lia).
  set (e1 := if bool_decide (e `mod` 2 = 1) && bool_decide (e ≠ length l) then e + 1 else e).
  assert (e1 ≤ length l ∧ (e1 `mod` 2 = 0 ∨ e1 = length l)) as [He1 He1p].
  { unfold e1. destruct (bool_decide_reflect (e `mod` 2 = 1)), (bool_decide_reflect (e ≠ length l));
      simpl; split; try lia; div_lia. }
  apply wp_bind, wp_gets. rewrite (get_nodes_rep _ true L h l) by (eauto using tree_at_rep).
  apply wp_bind, wp_gets. rewrite (tree_at_leaf_height _ _ _ _ Hat), Hlh, parent_updates_pparents.
  eapply (wp_bind_mono _ _ (λ _ t1, tree_at t0 true L t1)).
  { apply wp_when; [intros _|done].
    eapply wp_before_extend_layer; [done|lia|]. by rewrite decide_False by lia. }
  intros [] t1 Hat1. eapply wp_bind_mono.
  { apply (wp_fill_parents t0 L0 L t1); [done|done| |done].
    intros i p Hp. replace (h + 1) with (S h) by lia. cbn [width].
    rewrite <-(length_ideal lh), <-(length_parents (end_pad (h + lh))).
    eapply pparents_consistent; [exact Hc|done|done|exact Hp]. }
  intros r t2 [(L' & Hf' & HL') Hr]. destruct r as [i|]; apply wp_ret; exists L'.
  - split_and!; [done..|]. exists (i + 1). split; [done|]. specialize (Hr i eq_refl). lia.
  - by split_and!.
Qed.

(** [recompute] after a fill: it ends without a panic, keeps the leaves and
    forgets nothing. *)
Lemma wp_recompute_fill t0 L t st e :
  leaf_height t0 = lh → tree_at t0 true L t → layers_ok lh d F L → e ≤ length F →
  wp (recompute st 0 (Some e))
    (λ _ t', ∃ L', tree_at t0 true L' t' ∧ layers_ok lh d F L' ∧ more_known L L') t.
Proof.
  intros Hlh Hat Hok He.
  destruct (proj1 (depth_of_spec d (length F) (length L) Hd) (lok_depth _ _ _ _ Hok)) as (HL&_&_).
  destruct (lookup_lt_is_Some_2 L 0) as [l Hl]; [lia|].
  unfold recompute. apply wp_bind. eapply wp_get_layer_len; [done..|].
  apply wp_bind. eapply wp_get_height; [done|].
  eapply (wp_loop _ _ _ (λ x t', ∃ L', filled t0 L L' t' ∧ length L' = length L ∧
      rc_height x < length L ∧
      ∃ e', maybe_end_index x = Some e' ∧ e' ≤ width (length F) (rc_height x))
    (λ x, length L - rc_height x)).
  - cbn [rc_height]. lia.
  - exists L. split_and!; [|done|simpl; lia|].
    + split_and!; [done..|]. apply more_known_refl.
    + simpl. exists (e / 1). by rewrite Nat.div_1_r.
  - intros [st' h me] t1 (L' & Hf & HL' & Hh & e' & Hme & He').
    cbn [rc_height maybe_end_index] in *. subst me.
    eapply wp_mono; [apply (wp_recompute_body_fill t0 L L'); [done|done|lia|done]|].
    intros [x|[]] t2 (L2 & Hf2 & HL2 & Hr).
    + destruct Hr as (Hh' & Hx & e2 & He2 & Hle). split; [|lia].
      exists L2. rewrite Hx. split_and!; [done|lia|lia|by exists e2].
    + exists L2. destruct Hf2 as (? & ? & ?). by split_and!.
Qed.

End fill.

End recompute.
