(* ===== verification/TreeOps.v ===== *)
(** What the operations of [AppendMerkleTree] do to the leaves.

    [tree_inv d F a L t]: outside of a transaction, the layers [L] of [t] are
    those of the leaves [F] as far as they are known, in a tree of at least
    [d] layers, and what is needed to change the leaves from [a] on is known. *)

From S2P Require Import Prelude HashElement MerkleSpec MerkleProof MerkleProofComplete.
From S2P Require Import NodeStore AppendMerkle TreeRules Recompute.

Section ops.
Context `{AlgorithmLaws E, !NodeStore NM E, !NodeStoreLaws NM E}.
Local Abbreviation tree := (AppendMerkleTree NM E).
Implicit Types (t : tree) (F G : list E) (L : list (list E)) (l : list E).

Record tree_inv (d : nat) F (a : nat) L t : Prop := {
  ti_depth : 1 ≤ d;
  ti_rep : rep (node_manager t) false L;
  ti_ok : layers_ok (leaf_height t) d F L;
  ti_frontier : frontier 0 a L;
  ti_a : a ≤ length F;
}.

(** The fields that only [commit], [revert_to] and the constructors change. *)
Definition same_versions t t' : Prop :=
  delta_nodes_map t' = delta_nodes_map t ∧ root_to_tx_seq_map t' = root_to_tx_seq_map t ∧
  min_depth t' = min_depth t ∧ leaf_height t' = leaf_height t.

Lemma tree_at_same t0 b L t : tree_at t0 b L t → same_versions t0 t.
Proof. by intros (s & -> & _). Qed.

Lemma tree_at_inv d F a L t0 t :
  1 ≤ d → tree_at t0 false L t → layers_ok (leaf_height t0) d F L → frontier 0 a L →
  a ≤ length F → tree_inv d F a L t.
Proof.
  intros Hd Hat Hok Hf Ha. split; try done.
  - by eapply tree_at_rep.
  - by rewrite (tree_at_leaf_height _ _ _ _ Hat).
Qed.

(** A tree keeps its invariant when it knows its frontier from later on. *)
Lemma tree_inv_mono d F a b L t : tree_inv d F a L t → a ≤ b → b ≤ length F → tree_inv d F b L t.
Proof. intros [] Hab Hb. split; try done. by eapply frontier_mono. Qed.

Lemma tree_inv_layers d F a L t :
  tree_inv d F a L t →
  d ≤ length L ∧ length F ≤ 2 ^ (length L - 1) ∧
  ∃ l, L !! 0 = Some l ∧ consistent l F ∧ length l = length F.
Proof.
  intros Hi. destruct (proj1 (depth_of_spec d (length F) (length L) (ti_depth _ _ _ _ _ Hi))
    (lok_depth _ _ _ _ (ti_ok _ _ _ _ _ Hi))) as (HL & Htop & _).
  pose proof (ti_depth _ _ _ _ _ Hi). split_and!; [done|done|].
  destruct (lookup_lt_is_Some_2 L 0) as [l Hl]; [lia|]. exists l.
  pose proof (lok_layer _ _ _ _ (ti_ok _ _ _ _ _ Hi) 0 l Hl) as Hc.
  split_and!; [done|exact Hc|]. by rewrite (consistent_length _ _ Hc).
Qed.

(** ** Changing the leaves from [a] on *)

Lemma append_pre_leaves lh d a F F' L l :
  1 ≤ d → layers_ok lh d F L → frontier 0 a L → L !! 0 = Some l →
  a ≤ length F → length F ≤ a + 1 → length F ≤ length F' → take a F = take a F' →
  Forall (λ x, x ≠ null) F' →
  append_pre lh d a 0 F F' (<[0 := splice a F' l]> L).
Proof.
  intros Hd Hok [Hp Hk] Hl Ha Ha1 Hg Htake HF'.
  pose proof (lok_layer _ _ _ _ Hok 0 l Hl) as Hc. pose proof (consistent_length _ _ Hc) as Hlen.
  simpl in Hlen.
  destruct (proj1 (depth_of_spec d (length F) (length L) Hd) (lok_depth _ _ _ _ Hok)) as (HL&Htop&Ht).
  assert (∀ h l', <[0 := splice a F' l]> L !! h = Some l' →
    (h = 0 ∧ l' = splice a F' l) ∨ (h ≠ 0 ∧ L !! h = Some l')) as Hins.
  { intros h l' [(<- & <- & _)|(Hne & Hl')]%list_lookup_insert_Some; auto. }
  split; rewrite ?length_insert; try done; try lia.
  - intros h l' Hh Hl'. assert (h = 0) as -> by lia.
    apply Hins in Hl' as [[_ ->]|[? _]]; [|done]. simpl.
    apply consistent_splice; [lia|lia|]. intros i x Hx Hi.
    destruct (proj2 Hc i x Hx) as [|Hx']; [by left|right].
    simpl in Hx'. rewrite <-Hx'. symmetry. by eapply lookup_of_take.
  - intros h l' Hh [[-> _]|[_ Hl']]%Hins; [lia|]. by apply Hok.
  - split.
    + intros h l' x [[-> ->]|[_ Hl']]%Hins; [|by eapply Hp]. intros _.
      rewrite Nat.pow_0_r, Nat.div_1_r. intros Hodd.
      assert (0 < a) by (destruct a; [done|lia]).
      rewrite lookup_splice, decide_True by lia. intros Hx.
      apply (Hp 0 l x Hl); [lia|..]; by rewrite Nat.pow_0_r, Nat.div_1_r.
    + intros h l' i x [[-> ->]|[_ Hl']]%Hins; [|by eapply Hk]. intros _.
      rewrite Nat.pow_0_r, Nat.div_1_r. intros Hi.
      rewrite lookup_splice, decide_False by lia. intros Hx.
      by eapply (Forall_lookup_1 (λ x, x ≠ null)).
Qed.

(** The layers of the old tree that survive a change of the leaves from [a] on. *)
Definition kept (a : nat) L L' : Prop :=
  length L ≤ length L' ∧
  ∀ h l', L' !! h = Some l' → take (a / 2 ^ h) l' = take (a / 2 ^ h) (default [] (L !! h)).

Lemma kept_refl a L : kept a L L.
Proof. split; [done|]. intros h l Hl. by rewrite Hl. Qed.

Lemma kept_trans a b L1 L2 L3 : a ≤ b → kept a L1 L2 → kept b L2 L3 → kept a L1 L3.
Proof.
  intros Hab [Hlen1 H12] [Hlen2 H23]. split; [lia|]. intros h l3 Hl3.
  assert (take (a / 2 ^ h) l3 = take (a / 2 ^ h) (default [] (L2 !! h))) as ->.
  { pose proof (div_le_mono_pow a b h Hab).
    rewrite <-(Nat.min_l (a / 2 ^ h) (b / 2 ^ h)), <-!take_take by done.
    by rewrite (H23 h l3 Hl3). }
  destruct (L2 !! h) as [l2|] eqn:Hl2; simpl; [by apply H12|].
  apply lookup_ge_None in Hl2. by rewrite (lookup_ge_None_2 L1 h) by lia.
Qed.

(** [recompute] after the leaves were changed from [a] on, and the commit of
    the transaction. *)
Lemma wp_finish_leaves d a F F' L l t0 t :
  1 ≤ d → layers_ok (leaf_height t0) d F L → frontier 0 a L → L !! 0 = Some l →
  a ≤ length F → length F ≤ a + 1 → length F ≤ length F' → take a F = take a F' →
  Forall (λ x, x ≠ null) F' →
  tree_at t0 true (<[0 := splice a F' l]> L) t →
  wp (_ ← recompute_after_append_leaves a; nm nm_commit)
    (λ _ t', same_versions t0 t' ∧ ∃ L', tree_inv d F' a L' t' ∧ kept a L L') t.
Proof.
  intros Hd Hok Hf Hl Ha Ha1 Hg Htake HF' Hat.
  pose proof (append_pre_leaves _ d a F F' L l Hd Hok Hf Hl Ha Ha1 Hg Htake HF') as Hpre.
  apply wp_bind. eapply wp_mono; [by eapply wp_recompute_append|].
  intros [] t1 (L1 & Hat1 & Hok1 & Hf1 & Hpf). eapply wp_commit_tx; [done|].
  intros t2 Hat2. split; [by eapply tree_at_same|]. exists L1. split.
  - eapply tree_at_inv; [done..|]. lia.
  - split.
    { rewrite (lok_depth _ _ _ _ Hok), (lok_depth _ _ _ _ Hok1). by apply depth_of_mono. }
    intros h l' Hl'. rewrite (Hpf h l' Hl').
    destruct (decide (h = 0)) as [->|]; [|by rewrite list_lookup_insert_ne].
    rewrite list_lookup_insert_eq, Hl by (by eapply lookup_lt_Some). simpl.
    rewrite Nat.div_1_r. unfold splice.
    pose proof (consistent_length _ _ (lok_layer _ _ _ _ Hok 0 l Hl)) as Hlen. simpl in Hlen.
    by rewrite take_app_le, take_take, Nat.min_id by (rewrite length_take; lia).
Qed.

(** ** The operations *)

Lemma existsb_null_false (xs : list E) :
  existsb is_null xs = false ↔ Forall (λ x, x ≠ null) xs.
Proof.
  induction xs as [|x xs IH]; simpl; [by split|].
  rewrite orb_false_iff, Forall_cons, IH. by rewrite is_null_false.
Qed.

Lemma append_list_spec d F a L xs t :
  tree_inv d F a L t → Forall (λ x, x ≠ null) xs →
  wp (append_list xs)
    (λ _ t', same_versions t t' ∧
       ∃ L', tree_inv d (F ++ xs) (length F) L' t' ∧ kept (length F) L L') t.
Proof.
  intros Hi Hxs. destruct (tree_inv_layers _ _ _ _ _ Hi) as (_ & _ & l & Hl & Hc & Hlen).
  apply (tree_inv_mono _ _ _ (length F)) in Hi; [|apply Hi|done]. destruct Hi as [Hd Hr Hok Hf _].
  unfold append_list. rewrite (proj2 (existsb_null_false xs) Hxs).
  apply wp_bind. eapply wp_start; [by apply tree_at_init|]. intros t1 Hat1.
  apply wp_bind. eapply wp_get_layer_len; [done..|].
  apply wp_bind. eapply wp_append_nodes; [done..|]. intros t2 Hat2. rewrite Hlen.
  eapply (wp_finish_leaves d (length F) F (F ++ xs) L l); try done; try lia.
  - rewrite length_app. lia.
  - by rewrite take_app_length, take_ge.
  - apply Forall_app. split; [apply Hok|done].
  - unfold splice. by rewrite drop_app_length, take_ge by lia.
Qed.

Lemma append_spec d F a L x t :
  tree_inv d F a L t → x ≠ null →
  wp (append x)
    (λ _ t', same_versions t t' ∧
       ∃ L', tree_inv d (F ++ [x]) (length F) L' t' ∧ kept (length F) L L') t.
Proof.
  intros Hi Hx. destruct (tree_inv_layers _ _ _ _ _ Hi) as (_ & _ & l & Hl & Hc & Hlen).
  apply (tree_inv_mono _ _ _ (length F)) in Hi; [|apply Hi|done]. destruct Hi as [Hd Hr Hok Hf _].
  unfold append. rewrite (proj2 (is_null_false x) Hx).
  apply wp_bind. eapply wp_start; [by apply tree_at_init|]. intros t1 Hat1.
  apply wp_bind. eapply wp_push_node; [done..|]. intros t2 Hat2.
  apply wp_bind. eapply wp_get_layer_len; [done| |].
  { apply list_lookup_insert_eq. by eapply lookup_lt_Some. }
  rewrite length_app. cbn [length]. replace (length l + 1 - 1) with (length F) by lia.
  eapply (wp_finish_leaves d (length F) F (F ++ [x]) L l); try done; try lia.
  - rewrite length_app. lia.
  - by rewrite take_app_length, take_ge.
  - apply Forall_app. split; [apply Hok|by apply Forall_singleton].
  - unfold splice. by rewrite drop_app_length, take_ge by lia.
Qed.

(** [update_last] needs the frontier of the leaves before the last one. *)
Lemma update_last_spec d F L x t :
  tree_inv d F (length F - 1) L t → x ≠ null →
  wp (update_last x)
    (λ _ t', same_versions t t' ∧
       ∃ L', tree_inv d (take (length F - 1) F ++ [x]) (length F - 1) L' t' ∧
         kept (length F - 1) L L') t.
Proof.
  intros Hi Hx. destruct (tree_inv_layers _ _ _ _ _ Hi) as (_ & _ & l & Hl & Hc & Hlen).
  destruct Hi as [Hd Hr Hok Hf _]. assert (0 < length L) by (by eapply lookup_lt_Some).
  unfold update_last. rewrite (proj2 (is_null_false x) Hx).
  apply wp_bind. eapply wp_start; [by apply tree_at_init|]. intros t1 Hat1.
  apply wp_bind. eapply wp_get_layer_len; [done..|]. rewrite Hlen.
  set (n := length F) in *. set (F' := take (n - 1) F ++ [x]).
  assert (length (take (n - 1) F) = n - 1) as HtF by (rewrite length_take; lia).
  eapply (wp_bind_mono _ _ (λ _ t2, tree_at t true (<[0 := splice (n - 1) F' l]> L) t2)).
  { assert (drop (n - 1) F' = [x]) as Hdr by (unfold F'; by rewrite <-HtF at 1; rewrite drop_app_length).
    case_bool_decide as Hn0.
    - eapply wp_push_node; [done..|]. intros t2. unfold splice. rewrite Hdr.
      destruct l; [by rewrite take_nil|simpl in *; lia].
    - eapply wp_update_node; [done..|lia|]. intros t2. unfold splice. rewrite Hdr.
      by rewrite (insert_snoc_last l (n - 1)) by lia. }
  intros [] t2 Hat2. apply wp_bind. eapply wp_get_layer_len; [done| |].
  { by apply list_lookup_insert_eq. }
  assert (length F' = n - 1 + 1) as HF' by (unfold F'; rewrite length_app, HtF; done).
  rewrite length_splice by lia. rewrite HF'. replace (n - 1 + 1 - 1) with (n - 1) by lia.
  eapply (wp_finish_leaves d (n - 1) F F' L l); try done; try lia.
  - unfold F'. rewrite take_app_le by lia. rewrite take_take. by rewrite Nat.min_id.
  - unfold F'. apply Forall_app. split; [apply Forall_take, Hok|by apply Forall_singleton].
Qed.

End ops.

(** * Appending a subtree by its root: [append_subtree_inner], [append_subtree]
    and [append_subtree_list].  The nodes below the root stay unknown. *)

Section subtree.
Context `{AlgorithmLaws E, !NodeStore NM E, !NodeStoreLaws NM E}.
Local Abbreviation tree := (AppendMerkleTree NM E).
Implicit Types (t : tree) (F G : list E) (L : list (list E)) (l : list E).

(** [root] is the root of a full subtree of depth [k + 1] over the leaves [G]. *)
Record subtree_of (lh k : nat) (rt : E) G : Prop := {
  so_len : length G = 2 ^ k;
  so_known : Forall (λ x, x ≠ null) G;
  so_root : ideal lh G k !! 0 = Some rt;
}.

Lemma subtree_ideal lh k rt G : subtree_of lh k rt G → ideal lh G k = [rt].
Proof.
  intros [Hlen _ Hrt]. assert (length (ideal lh G k) = 1) as H1l.
  { rewrite length_ideal, Hlen. pose proof (width_le_1 (2 ^ k) k).
    pose proof (width_pos (2 ^ k) k (pow2_pos k)). lia. }
  destruct (ideal lh G k) as [|x [|]]; simpl in *; try done. by simplify_eq.
Qed.

(** The layers after [append_subtree_inner (k + 1) rt]. *)
Record with_subtree (k : nat) (rt : E) L L1 : Prop := {
  ws_len : length L1 = Nat.max (length L) (k + 1);
  ws_low : ∀ h, h < k → L1 !! h = Some (default [] (L !! h) ++ replicate (2 ^ (k - h)) null);
  ws_k : L1 !! k = Some (default [] (L !! k) ++ [rt]);
  ws_high : ∀ h, k < h → L1 !! h = L !! h;
}.

Lemma seq_split_head n (dn todo : list nat) x : seq 0 n = dn ++ x :: todo → x = length dn.
Proof.
  intros Heq. assert (seq 0 n !! length dn = Some x) as Hx.
  { rewrite Heq, lookup_app_r, Nat.sub_diag by lia. done. }
  apply lookup_seq in Hx. lia.
Qed.

(** Extending and writing one layer. *)
Lemma wp_extend_append t0 L t h xs (Q : () → tree → Prop) :
  tree_at t0 true L t → h ≤ length L →
  (∀ t', tree_at t0 true (<[h := default [] (L !! h) ++ xs]> (extended h L)) t' → Q tt t') →
  wp (_ ← before_extend_layer h; append_nodes h xs) Q t.
Proof.
  intros Hat Hh HQ. apply wp_bind. eapply wp_before_extend_layer; [done..|]. intros t1 Hat1.
  destruct (extended_facts h L Hh) as (_ & _ & Hl). by eapply wp_append_nodes.
Qed.

Lemma wp_append_subtree_inner t0 L t k rt (Q : () → tree → Prop) :
  tree_at t0 true L t →
  (∀ L1 t', with_subtree k rt L L1 → tree_at t0 true L1 t' → Q tt t') →
  wp (append_subtree_inner (k + 1) rt) Q t.
Proof.
  intros Hat HQ. unfold append_subtree_inner. rewrite bool_decide_false by lia.
  replace (k + 1 - 1) with k by lia. apply wp_bind.
  eapply (wp_for_each _ _ (λ dn t', ∃ L1, tree_at t0 true L1 t' ∧
    length L1 = Nat.max (length L) (length dn) ∧
    (∀ h, h < length dn → L1 !! h = Some (default [] (L !! h) ++ replicate (2 ^ (k - h)) null)) ∧
    (∀ h, length dn ≤ h → L1 !! h = L !! h))).
  - exists L. split_and!; [done|simpl; lia|simpl; lia|done].
  - intros dn h todo t1 Heq (L1 & Hat1 & Hlen & Hlow & Hhigh).
    assert (h = length dn) as -> by by eapply seq_split_head.
    destruct (extended_facts (length dn) L1) as (Hel & Heo & _); [lia|].
    eapply wp_extend_append; [done|lia|]. intros t2 Hat2. eexists. split; [exact Hat2|].
    rewrite length_insert, length_app. cbn [length]. split_and!; [lia| |].
    + intros h Hh. destruct (decide (h = length dn)) as [->|Hne].
      * rewrite list_lookup_insert_eq by lia. by rewrite Hhigh by lia.
      * rewrite list_lookup_insert_ne, Heo by lia. apply Hlow. lia.
    + intros h Hh. rewrite list_lookup_insert_ne, Heo by lia. apply Hhigh. lia.
  - rewrite length_seq. intros t1 (L1 & Hat1 & Hlen & Hlow & Hhigh).
    apply wp_bind. eapply wp_before_extend_layer; [done|lia|]. intros t2 Hat2.
    fold (extended k L1) in Hat2. destruct (extended_facts k L1) as (Hel & Heo & Hek); [lia|].
    eapply wp_push_node; [done..|]. intros t3 Hat3. eapply HQ; [|exact Hat3]. split.
    + rewrite length_insert. lia.
    + intros h Hh. rewrite list_lookup_insert_ne, Heo by lia. by apply Hlow.
    + rewrite list_lookup_insert_eq by lia. by rewrite Hhigh by lia.
    + intros h Hh. rewrite list_lookup_insert_ne, Heo by lia. apply Hhigh. lia.
Qed.

Lemma consistent_app l m X Y : consistent l X → consistent m Y → consistent (l ++ m) (X ++ Y).
Proof.
  intros [Hl Hc] [Hm Hc']. split; [rewrite !length_app; lia|].
  intros i x [Hx|[Hi Hx]]%lookup_app_Some.
  - destruct (Hc i x Hx) as [|HX]; [by left|right]. by apply lookup_app_l_Some.
  - destruct (Hc' _ _ Hx) as [|HX]; [by left|right].
    rewrite lookup_app_r by lia. by rewrite <-Hl.
Qed.

Lemma consistent_nulls n X : length X = n → consistent (replicate n null) X.
Proof.
  intros HX. split; [by rewrite length_replicate|]. intros i x [-> _]%lookup_replicate. by left.
Qed.

(** A layer of the tree, also when it does not exist. *)
Lemma layers_ok_default lh d F L k h :
  1 ≤ d → layers_ok lh d F L → length F `mod` 2 ^ k = 0 → h ≤ k →
  consistent (default [] (L !! h)) (ideal lh F h).
Proof.
  intros Hd Hok Hm Hh. destruct (L !! h) as [l|] eqn:Hl; simpl; [by apply Hok|].
  apply lookup_ge_None in Hl.
  destruct (proj1 (depth_of_spec d (length F) (length L) Hd) (lok_depth _ _ _ _ Hok)) as (HL&Htop&_).
  assert (length F < 2 ^ k) as Hlt.
  { eapply Nat.le_lt_trans; [exact Htop|]. apply Nat.pow_lt_mono_r; lia. }
  rewrite Nat.mod_small in Hm by done. destruct F; [|done].
  split; [by rewrite length_ideal, width_0|]. intros i x. by rewrite lookup_nil.
Qed.

Lemma aligned_le n h k : n `mod` 2 ^ k = 0 → h ≤ k → n `mod` 2 ^ h = 0.
Proof.
  intros Hm Hh. pose proof (pow2_pos k). pose proof (pow2_pos h).
  apply Nat.Lcm0.mod_divide in Hm as [q ->]. replace k with (k - h + h) by lia.
  rewrite Nat.pow_add_r, Nat.mul_assoc. apply Nat.Div0.mod_mul.
Qed.

Lemma with_subtree_low lh d F G L L1 k rt h l :
  1 ≤ d → layers_ok lh d F L → length F `mod` 2 ^ k = 0 → subtree_of lh k rt G →
  with_subtree k rt L L1 → h ≤ k → L1 !! h = Some l → consistent l (ideal lh (F ++ G) h).
Proof.
  intros Hd Hok Hm Hst Hws Hh Hl.
  rewrite ideal_app by by eapply aligned_le.
  pose proof (layers_ok_default lh d F L k h Hd Hok Hm Hh) as Hc.
  destruct (decide (h = k)) as [->|Hne].
  - rewrite (ws_k _ _ _ _ Hws) in Hl. injection Hl as <-. rewrite (subtree_ideal lh k rt G Hst).
    apply consistent_app; [done|apply consistent_refl].
  - rewrite (ws_low _ _ _ _ Hws) in Hl by lia. injection Hl as <-.
    apply consistent_app; [done|]. apply consistent_nulls.
    rewrite length_ideal, (so_len _ _ _ _ Hst). pose proof (pow2_pos h).
    replace k with (k - h + h) at 1 by lia. rewrite Nat.pow_add_r, width_aligned.
    + by rewrite Nat.div_mul by lia.
    + apply Nat.Div0.mod_mul.
Qed.

(** The start of [recompute] after a subtree was appended. *)
Lemma append_pre_subtree lh d F G L L1 k rt :
  1 ≤ d → layers_ok lh d F L → frontier 0 (length F) L → length F `mod` 2 ^ k = 0 →
  subtree_of lh k rt G → with_subtree k rt L L1 →
  append_pre lh d (length F) k F (F ++ G) L1.
Proof.
  intros Hd Hok [Hp Hk] Hm Hst Hws.
  destruct (proj1 (depth_of_spec d (length F) (length L) Hd) (lok_depth _ _ _ _ Hok)) as (HL&Htop&Ht).
  pose proof (ws_len _ _ _ _ Hws) as Hlen. pose proof (so_len _ _ _ _ Hst) as HG.
  pose proof (layers_ok_default lh d F L k k Hd Hok Hm ltac:(lia)) as Hck.
  pose proof (consistent_length _ _ Hck) as Hlk.
  rewrite length_ideal, (width_aligned _ _ Hm) in Hlk.
  assert (rt ≠ null) as Hrt.
  { eapply (Forall_lookup_1 (λ x, x ≠ null)); [|exact (so_root _ _ _ _ Hst)].
    apply ideal_known, (so_known _ _ _ _ Hst). }
  split; try lia.
  - by rewrite take_app_length, take_ge.
  - rewrite length_app. lia.
  - rewrite length_app, HG. destruct (decide (k + 1 ≤ length L)).
    + replace (length L1) with (length L) by lia. lia.
    + right. replace (length L1 - 2) with (k - 1) by lia.
      assert (2 ^ (k - 1) < 2 ^ k) by (apply Nat.pow_lt_mono_r; lia). lia.
  - etrans; [exact Htop|]. apply Nat.pow_le_mono_r; lia.
  - apply Forall_app. split; [apply Hok|apply Hst].
  - intros h l Hh Hl. by eapply with_subtree_low.
  - intros h l Hh Hl. rewrite (ws_high _ _ _ _ Hws) in Hl by done. by apply Hok.
  - split.
    + intros h l x Hl Hh Hodd Hx. destruct (decide (h = k)) as [->|Hne].
      * rewrite (ws_k _ _ _ _ Hws) in Hl. injection Hl as <-.
        assert (length F / 2 ^ k ≠ 0) by (intros Hz; by rewrite Hz in Hodd).
        rewrite lookup_app_l in Hx by lia.
        destruct (L !! k) as [lk|] eqn:Hlk'; [|done]. eapply (Hp k lk); [done|lia|done|done].
      * rewrite (ws_high _ _ _ _ Hws) in Hl by lia. eapply (Hp h l); [done|lia|done|done].
    + intros h l i x Hl Hh Hi Hx. destruct (decide (h = k)) as [->|Hne].
      * rewrite (ws_k _ _ _ _ Hws) in Hl. injection Hl as <-.
        rewrite lookup_app_r in Hx by lia. by apply list_lookup_singleton_Some in Hx as [_ <-].
      * rewrite (ws_high _ _ _ _ Hws) in Hl by lia. eapply (Hk h l); [done|lia|done|done].
Qed.

(** Appending keeps what the layers had for the old leaves. *)
Lemma with_subtree_prefix lh d F L L1 k rt h :
  1 ≤ d → layers_ok lh d F L → with_subtree k rt L L1 →
  take (length F / 2 ^ h) (default [] (L1 !! h)) = take (length F / 2 ^ h) (default [] (L !! h)).
Proof.
  intros Hd Hok Hws.
  destruct (proj1 (depth_of_spec d (length F) (length L) Hd) (lok_depth _ _ _ _ Hok)) as (HL&Htop&_).
  assert (length F / 2 ^ h ≤ length (default [] (L !! h))) as Hle.
  { destruct (L !! h) as [l|] eqn:Hl; simpl.
    - rewrite (consistent_length _ _ (lok_layer _ _ _ _ Hok h l Hl)), length_ideal.
      apply width_div_le.
    - apply lookup_ge_None in Hl. rewrite Nat.div_small; [done|].
      eapply Nat.le_lt_trans; [exact Htop|]. apply Nat.pow_lt_mono_r; lia. }
  destruct (decide (h < k)); [|destruct (decide (h = k)) as [->|]].
  - rewrite (ws_low _ _ _ _ Hws) by done. simpl. by rewrite take_app_le.
  - rewrite (ws_k _ _ _ _ Hws). simpl. by rewrite take_app_le.
  - by rewrite (ws_high _ _ _ _ Hws) by lia.
Qed.

(** One subtree, inside of a transaction. *)
Lemma wp_subtree_step t0 d F G L t k rt :
  1 ≤ d → tree_at t0 true L t → layers_ok (leaf_height t0) d F L → frontier 0 (length F) L →
  length F `mod` 2 ^ k = 0 → subtree_of (leaf_height t0) k rt G →
  wp (start ← get_layer_len 0; _ ← append_subtree_inner (k + 1) rt;
      recompute_after_append_subtree start (k + 1 - 1))
    (λ _ t', ∃ L', tree_at t0 true L' t' ∧ layers_ok (leaf_height t0) d (F ++ G) L' ∧
       frontier 0 (length (F ++ G)) L' ∧ kept (length F) L L' ∧ frontier k (length F) L') t.
Proof.
  intros Hd Hat Hok Hf Hm Hst.
  destruct (proj1 (depth_of_spec d (length F) (length L) Hd) (lok_depth _ _ _ _ Hok)) as (HL&_&_).
  destruct (lookup_lt_is_Some_2 L 0) as [l Hl]; [lia|].
  apply wp_bind. eapply wp_get_layer_len; [done..|].
  rewrite (consistent_length _ _ (lok_layer _ _ _ _ Hok 0 l Hl)). simpl ideal.
  apply wp_bind. eapply wp_append_subtree_inner; [done|]. intros L1 t1 Hws Hat1.
  replace (k + 1 - 1) with k by lia. unfold recompute_after_append_subtree.
  eapply wp_mono; [apply (wp_recompute_append (leaf_height t0) d (length F) k F (F ++ G) L1); [|done|done]|].
  { by eapply append_pre_subtree. }
  intros [] t2 (L2 & Hat2 & Hok2 & Hf2 & Hpf). exists L2. split_and!; [done..| | |done].
  - eapply frontier_aligned; [done|exact Hf2|rewrite length_app; lia|].
    rewrite length_app, (so_len _ _ _ _ Hst).
    pose proof (pow2_pos k). pose proof (Nat.div_mod_eq (length F) (2 ^ k)).
    replace (length F + 2 ^ k) with ((length F / 2 ^ k + 1) * 2 ^ k) by lia. apply Nat.Div0.mod_mul.
  - split.
    + rewrite (lok_depth _ _ _ _ Hok), (lok_depth _ _ _ _ Hok2). apply depth_of_mono.
      rewrite length_app. lia.
    + intros h l' Hl'. rewrite (Hpf h l' Hl'). by eapply with_subtree_prefix.
Qed.

Lemma append_subtree_spec d F G a L k rt t :
  tree_inv d F a L t → length F `mod` 2 ^ k = 0 → subtree_of (leaf_height t) k rt G →
  wp (append_subtree (k + 1) rt)
    (λ _ t', same_versions t t' ∧
       ∃ L', tree_inv d (F ++ G) (length (F ++ G)) L' t' ∧ kept (length F) L L' ∧ frontier k (length F) L') t.
Proof.
  intros Hi Hm Hst. apply (tree_inv_mono _ _ _ (length F)) in Hi; [|apply Hi|done].
  destruct Hi as [Hd Hr Hok Hf _].
  assert (rt ≠ null) as Hrt.
  { eapply (Forall_lookup_1 (λ x, x ≠ null)); [|exact (so_root _ _ _ _ Hst)].
    apply ideal_known, (so_known _ _ _ _ Hst). }
  unfold append_subtree. rewrite (proj2 (is_null_false rt) Hrt).
  apply wp_bind. eapply wp_start; [by apply tree_at_init|]. intros t1 Hat1.
  apply wp_assoc3. eapply wp_bind_mono; [by eapply wp_subtree_step|].
  intros [] t2 (L2 & Hat2 & Hok2 & Hf2 & Hkept & Hk). eapply wp_commit_tx; [done|]. intros t3 Hat3.
  split; [by eapply tree_at_same|]. exists L2. split; [by eapply tree_at_inv|done].
Qed.

(** A subtree of one leaf: its path is known. *)
Lemma append_leaf_spec d F a L x t :
  tree_inv d F a L t → x ≠ null →
  wp (append_subtree 1 x)
    (λ _ t', same_versions t t' ∧ ∃ L', tree_inv d (F ++ [x]) (length F) L' t' ∧ kept (length F) L L') t.
Proof.
  intros Hi Hx. eapply wp_mono; [eapply (append_subtree_spec d F [x] a L 0 x t Hi)|].
  - by rewrite Nat.mod_1_r.
  - split; [done|by constructor|done].
  - intros [] t' (Hs & L' & [Hd Hr Hok Hf Ha] & Hk & Hf'). split; [done|]. exists L'. split; [|done].
    split; try done. rewrite length_app. lia.
Qed.

(** The leaves of a list of subtrees that continue a tree of [n] leaves, each
    one aligned to its size. *)
Inductive subtrees_of (lh : nat) : nat → list (nat * E) → list E → Prop :=
  | subtrees_nil n : subtrees_of lh n [] []
  | subtrees_cons n k rt G ls Gs :
      n `mod` 2 ^ k = 0 → subtree_of lh k rt G → subtrees_of lh (n + 2 ^ k) ls Gs →
      subtrees_of lh n ((k + 1, rt) :: ls) (G ++ Gs).

Lemma subtrees_known lh n ls Gs :
  subtrees_of lh n ls Gs → existsb (λ dr, is_null dr.2) ls = false.
Proof.
  induction 1 as [|n k rt G ls Gs _ Hst _ IH]; [done|]. simpl. rewrite IH, orb_false_r.
  apply is_null_false. eapply (Forall_lookup_1 (λ x, x ≠ null)); [|exact (so_root _ _ _ _ Hst)].
  apply ideal_known, (so_known _ _ _ _ Hst).
Qed.

Lemma wp_subtree_list t0 d F Gs L t ls :
  1 ≤ d → tree_at t0 true L t → layers_ok (leaf_height t0) d F L → frontier 0 (length F) L →
  subtrees_of (leaf_height t0) (length F) ls Gs →
  wp (for_each ls (λ dr, start ← get_layer_len 0; _ ← append_subtree_inner dr.1 dr.2;
        recompute_after_append_subtree start (dr.1 - 1)))
    (λ _ t', ∃ L', tree_at t0 true L' t' ∧ layers_ok (leaf_height t0) d (F ++ Gs) L' ∧
       frontier 0 (length (F ++ Gs)) L' ∧ kept (length F) L L') t.
Proof.
  intros Hd Hat Hok Hf Hls. remember (length F) as n eqn:Hn.
  revert F L t Hat Hok Hf Hn.
  induction Hls as [n|n k rt G ls Gs Hm Hst _ IH]; intros F L t Hat Hok Hf Hn.
  - apply wp_ret. exists L. rewrite app_nil_r, <-Hn. split_and!; [done..|apply kept_refl].
  - cbn [for_each fst snd]. subst n. eapply wp_bind_mono; [by eapply wp_subtree_step|].
    intros [] t1 (L1 & Hat1 & Hok1 & Hf1 & Hk1 & _). rewrite app_assoc.
    rewrite length_app, (so_len _ _ _ _ Hst) in Hf1.
    eapply wp_mono; [eapply (IH (F ++ G)); [done..|]; by rewrite length_app, (so_len _ _ _ _ Hst)|].
    intros [] t2 (L2 & Hat2 & Hok2 & Hf2 & Hk2). exists L2. split_and!; [done..|].
    eapply kept_trans; [|exact Hk1|exact Hk2]. lia.
Qed.

Lemma append_subtree_list_spec d F Gs a L ls t :
  tree_inv d F a L t → subtrees_of (leaf_height t) (length F) ls Gs →
  wp (append_subtree_list ls)
    (λ _ t', same_versions t t' ∧
       ∃ L', tree_inv d (F ++ Gs) (length (F ++ Gs)) L' t' ∧ kept (length F) L L') t.
Proof.
  intros Hi Hls. apply (tree_inv_mono _ _ _ (length F)) in Hi; [|apply Hi|done].
  destruct Hi as [Hd Hr Hok Hf _]. unfold append_subtree_list.
  rewrite (subtrees_known _ _ _ _ Hls).
  apply wp_bind. eapply wp_start; [by apply tree_at_init|]. intros t1 Hat1.
  eapply wp_bind_mono; [by eapply wp_subtree_list|].
  intros [] t2 (L2 & Hat2 & Hok2 & Hf2 & Hkept). eapply wp_commit_tx; [done|]. intros t3 Hat3.
  split; [by eapply tree_at_same|]. exists L2. split; [by eapply tree_at_inv|done].
Qed.

End subtree.
