(* ===== verification/TreeFill.v ===== *)
(** Filling in unknown nodes: [fill_leaf], [fill_with_proof],
    [fill_with_range_proof].  The leaves stay the same and no node that was
    known is lost. *)

From S2P Require Import Prelude HashElement MerkleSpec MerkleProof MerkleProofComplete.
From S2P Require Import NodeStore AppendMerkle TreeRules Recompute TreeOps.

(** ** The nodes of a proof *)

Section nodes.
Context {E : Type}.

(** The position of the sibling of [idx]. *)
Definition sibling_pos (idx : nat) : nat :=
  if bool_decide (idx `mod` 2 = 0) then idx + 1 else idx - 1.

(** The siblings on the path of position [idx], with their positions. *)
Fixpoint path_nodes (idx : nat) (ss : list E) : list (nat * E) :=
  match ss with
  | [] => []
  | s :: ss' => (sibling_pos idx, s) :: path_nodes (idx / 2) ss'
  end.

Lemma length_path_nodes idx ss : length (path_nodes idx ss) = length ss.
Proof. revert idx. induction ss as [|s ss IH]; intros idx; simpl; [done|]. by rewrite IH. Qed.

Lemma lookup_path_nodes idx ss h s :
  ss !! h = Some s → path_nodes idx ss !! h = Some (sibling_pos (idx / 2 ^ h), s).
Proof.
  revert idx h. induction ss as [|s' ss IH]; intros idx h; [done|].
  destruct h as [|h]; cbn [path_nodes].
  - intros [= ->]. by rewrite Nat.pow_0_r, Nat.div_1_r.
  - intros Hs. change (ss !! h = Some s) in Hs. rewrite lookup_cons, (IH _ _ Hs). by rewrite Nat.Div0.div_div, Nat.pow_succ_r'.
Qed.

Lemma drop_path_nodes idx ss n :
  drop n (path_nodes idx ss) = path_nodes (idx / 2 ^ n) (drop n ss).
Proof.
  revert idx ss. induction n as [|n IH]; intros idx ss.
  - by rewrite !drop_0, Nat.pow_0_r, Nat.div_1_r.
  - destruct ss as [|s ss]; [done|]. cbn [path_nodes drop].
    by rewrite IH, Nat.Div0.div_div, Nat.pow_succ_r'.
Qed.

Lemma position_drop m bs :
  m ≤ length bs → position_from 0 (drop m bs) = position_from 0 bs / 2 ^ m.
Proof.
  revert bs. induction m as [|m IH]; intros bs Hm; [by rewrite drop_0, Nat.pow_0_r, Nat.div_1_r|].
  destruct bs as [|b bs]; [simpl in Hm; lia|]. simpl in Hm. cbn [drop position_from].
  rewrite IH, (position_inv 1), Nat.pow_1_r, Nat.pow_0_r by lia.
  rewrite Nat.pow_succ_r', <-Nat.Div0.div_div. f_equal. destruct b; div_lia.
Qed.

Lemma sibling_pos_bit b bs :
  (if (b : bool) then position_from 0 (b :: bs) + 1 else position_from 0 (b :: bs) - 1) =
  sibling_pos (position_from 0 (b :: bs)).
Proof.
  unfold sibling_pos. cbn [position_from]. rewrite (position_inv 1), Nat.pow_1_r, Nat.pow_0_r.
  destruct b; [rewrite bool_decide_true|rewrite bool_decide_false]; try done; div_lia.
Qed.

(** The loop walks from the root down to the leaf: after the last [m] bits it
    has the nodes of the top [m] layers, in reverse. *)
Lemma nodes_in_tree_loop_spec (x rt : E) ss bs m r :
  length ss = length bs → m ≤ length bs →
  nodes_in_tree_loop (x :: ss ++ [rt]) (reverse (take m bs)) (length bs - m)
    (position_from 0 (drop m bs)) r =
  Ok (r ++ reverse (take m (path_nodes (position_from 0 bs) ss))).
Proof.
  intros Hlen. revert r. induction m as [|m IH]; intros r Hm; [by rewrite app_nil_r|].
  destruct (lookup_lt_is_Some_2 bs m) as [b Hb]; [lia|].
  destruct (lookup_lt_is_Some_2 ss m) as [s Hs]; [lia|].
  rewrite (take_S_r _ _ _ Hb), reverse_app. cbn [reverse rev_append app nodes_in_tree_loop].
  pose proof (drop_S _ _ _ Hb) as Hdr.
  assert (2 * position_from 0 (drop (S m) bs) + (if b then 0 else 1) =
          position_from 0 (drop m bs)) as ->.
  { rewrite Hdr. cbn [position_from]. rewrite (position_inv 1), Nat.pow_1_r, Nat.pow_0_r. lia. }
  rewrite length_cons, length_app. cbn [length]. rewrite bool_decide_false by lia.
  replace (S (length ss + 1) - 2 - (length bs - S m)) with (S m) by lia.
  rewrite lookup_cons, lookup_app_l, Hs by lia. cbn [expect]. rewrite bind_Ok.
  rewrite Hdr, sibling_pos_bit, <-Hdr. replace (S (length bs - S m)) with (length bs - m) by lia.
  rewrite IH by lia. f_equal. rewrite <-app_assoc. f_equal.
  rewrite (take_S_r (path_nodes _ _) m (sibling_pos (position_from 0 (drop m bs)), s)).
  - by rewrite reverse_app.
  - rewrite position_drop by lia. by apply lookup_path_nodes.
Qed.

(** The nodes of a well-formed proof: the siblings and the root. *)
Lemma proof_nodes_in_tree_spec (x rt : E) ss bs :
  length ss = length bs →
  proof_nodes_in_tree (Proof_mk (x :: ss ++ [rt]) bs) =
  Ok (path_nodes (position_from 0 bs) ss ++ [(0, rt)]).
Proof.
  intros Hlen. unfold proof_nodes_in_tree, proof_root. cbn [lemma path].
  rewrite app_comm_cons, last_snoc. cbn [expect]. rewrite bind_Ok, <-app_comm_cons.
  pose proof (nodes_in_tree_loop_spec x rt ss bs (length bs) [(0, rt)] Hlen ltac:(lia)) as Hl.
  rewrite Nat.sub_diag, firstn_all, drop_ge in Hl by lia. simpl in Hl.
  rewrite take_ge in Hl by (rewrite length_path_nodes; lia).
  cbn [position_from] in Hl. simpl. rewrite Hl, bind_Ok.
  change ((0, rt) :: reverse (path_nodes (position_from 0 bs) ss))
    with ([(0, rt)] ++ reverse (path_nodes (position_from 0 bs) ss)).
  by rewrite reverse_app, reverse_involutive.
Qed.

End nodes.

(** ** The operations *)

Section fill.
Context `{AlgorithmLaws E, !NodeStore NM E, !NodeStoreLaws NM E}.
Local Abbreviation tree := (AppendMerkleTree NM E).
Implicit Types (t : tree) (F : list E) (L : list (list E)) (l : list E).

Lemma leaf_at_rep t b L l i z :
  rep (node_manager t) b L → L !! 0 = Some l → l !! i = Some z →
  leaf_at t i = Ok (if is_null z then None else Some z).
Proof.
  intros Hr Hl Hz. pose proof (lookup_lt_Some _ _ _ Hz). unfold leaf_at, leaves. simpl.
  rewrite (rep_layer_size _ _ _ _ _ Hr Hl), bind_Ok, bool_decide_false by lia.
  by rewrite (rep_get_node _ _ _ _ _ _ _ Hr Hl Hz).
Qed.

Lemma fill_leaf_spec d F a L i x t :
  tree_inv d F a L t → F !! i = Some x →
  wp (fill_leaf i x)
    (λ _ t', same_versions t t' ∧ ∃ L' l, tree_inv d F a L' t' ∧ more_known L L' ∧
       L' !! 0 = Some l ∧ l !! i = Some x) t.
Proof.
  intros Hi Hx. destruct (tree_inv_layers _ _ _ _ _ Hi) as (_ & _ & l & Hl & Hc & Hlen).
  pose proof Hi as [Hd Hr Hok Hf Ha].
  assert (x ≠ null) as Hn by (by eapply (Forall_lookup_1 (λ x, x ≠ null)); [apply Hok|]).
  pose proof (lookup_lt_Some _ _ _ Hx) as Hlt.
  destruct (lookup_lt_is_Some_2 l i) as [y Hy]; [lia|].
  unfold fill_leaf. rewrite (proj2 (is_null_false x) Hn).
  apply wp_bind. eapply wp_get_node; [by apply tree_at_init|done..|].
  destruct (is_null y) eqn:Hny.
  - apply is_null_true in Hny.
    apply wp_bind. eapply wp_start; [by apply tree_at_init|]. intros t1 Hat1.
    apply wp_bind. eapply wp_update_node; [done..|lia|]. intros t2 Hat2.
    destruct (fill_node_ok (leaf_height t) d F L 0 l i x y Hok Hl Hy Hny Hx) as [Hok2 Hm2].
    apply wp_bind. eapply wp_mono; [apply (wp_recompute_fill (leaf_height t) d F Hd t (<[0:=<[i:=x]> l]> L) t2); [done..|lia]|].
    intros [] t3 (L3 & Hat3 & Hok3 & Hm3). eapply wp_commit_tx; [done|]. intros t4 Hat4.
    split; [by eapply tree_at_same|].
    destruct (proj2 Hm3 0 (<[i:=x]> l)) as (l3 & Hl3 & _ & Hk3).
    { apply list_lookup_insert_eq. by eapply lookup_lt_Some. }
    exists L3, l3. split_and!; [| |done|].
    + eapply tree_at_inv; [done..| |done].
      eapply more_known_frontier; [|exact Hf]. by eapply more_known_trans.
    + by eapply more_known_trans.
    + apply Hk3; [|done]. apply list_lookup_insert_eq. lia.
  - apply is_null_false in Hny. assert (y = x) as ->.
    { pose proof (consistent_known _ _ _ _ Hc Hy Hny). congruence. }
    rewrite bool_decide_false by auto. apply wp_ret. split; [done|].
    exists L, l. split_and!; [done|apply more_known_refl|done|done].
Qed.

(** A node that conflicts with a known leaf is refused with a panic, before
    anything is written. *)
Lemma fill_leaf_conflict b L l i x y t :
  rep (node_manager t) b L → L !! 0 = Some l → l !! i = Some y → y ≠ null → x ≠ null → x ≠ y →
  fill_leaf i x t = (Panic, t).
Proof.
  intros Hr Hl Hy Hny Hnx Hne. unfold fill_leaf.
  rewrite (proj2 (is_null_false x) Hnx). unfold get_node, mbind, M_bind, gets_ok. simpl.
  rewrite (rep_get_node _ b L 0 l i y) by done. simpl.
  rewrite (proj2 (is_null_false y) Hny), bool_decide_true by done. done.
Qed.

(** ** Nodes from proofs *)

(** The entries of [pd] are nodes of the tree over [F], or padding. *)
Definition tree_nodes (lh : nat) F (n : nat) (pd : list (nat * E)) : Prop :=
  length pd ≤ n ∧
  ∀ i pos x, pd !! i = Some (pos, x) →
    pos ≤ width (length F) i ∧ (pos < width (length F) i → ideal lh F i !! pos = Some x).

Lemma wp_fill_with_proof t0 lh d F L0 L t pd :
  filled lh d F t0 L0 L t → tree_nodes lh F (length L) pd →
  wp (fill_with_proof pd)
    (λ _ t', ∃ L', filled lh d F t0 L0 L' t' ∧ length L' = length L) t.
Proof.
  intros Hf [Hlen Hpd]. unfold fill_with_proof. apply wp_bind.
  eapply (wp_fold_for _ _ _ (λ dn acc t', acc.1 = length dn ∧
     ∃ L', filled lh d F t0 L0 L' t' ∧ length L' = length L)).
  - split; [done|]. by exists L.
  - intros dn [pos x] todo [i upd] t1 Heq [Hi (L1 & (Hat & Hok & Hm) & HL1)]. simpl in Hi. subst i.
    assert (pd !! length dn = Some (pos, x)) as Hlk
      by (rewrite Heq, lookup_app_r, Nat.sub_diag by lia; done).
    destruct (Hpd _ _ _ Hlk) as [Hpos Hx].
    destruct (lookup_lt_is_Some_2 L1 (length dn)) as [l Hl].
    { apply lookup_lt_Some in Hlk. lia. }
    pose proof (lok_layer _ _ _ _ Hok _ _ Hl) as Hc.
    assert (length l = width (length F) (length dn)) as Hll
      by (by rewrite (consistent_length _ _ Hc), length_ideal).
    assert (length (dn ++ [(pos, x)]) = S (length dn)) as Hsn by (rewrite length_app; simpl; lia).
    unfold fill_node. apply wp_bind. eapply wp_get_layer_len; [done..|].
    rewrite bool_decide_false by lia. case_bool_decide as Hpad.
    { apply wp_ret. split; [done|]. by exists L1. }
    destruct (lookup_lt_is_Some_2 l pos) as [y Hy]; [lia|].
    apply wp_bind. eapply wp_get_node; [done..|]. destruct (is_null y) eqn:Hny.
    + apply is_null_true in Hny. apply wp_bind. eapply wp_update_node; [done..|lia|].
      intros t2 Hat2. apply wp_ret. split; [done|].
      destruct (fill_node_ok lh d F L1 (length dn) l pos x y Hok Hl Hy Hny) as [Hok2 Hm2].
      { apply Hx. lia. }
      eexists. split; [split; [exact Hat2|split; [done|by eapply more_known_trans]]|].
      by rewrite length_insert.
    + apply wp_ret. split; [done|]. by exists L1.
  - intros acc t1 [_ HL1]. by apply wp_ret.
Qed.

(** A proof of a sector whose upper part, from the height of the leaves on, is
    the reference proof of leaf [c] of the tree over [F]. *)
Definition tree_proof (lh : nat) F (k : nat) (p : proof E) : Prop :=
  ∃ x ss bs c rt, p = Proof_mk (x :: (ss ++ ideal_siblings lh F 0 c k) ++ [rt]) (bs ++ path_bits c k) ∧
    length ss = lh ∧ length bs = lh ∧ c < length F ∧ ideal lh F k !! 0 = Some rt.

Lemma position_app bs bs' :
  position_from 0 (bs ++ bs') / 2 ^ length bs = position_from 0 bs'.
Proof.
  rewrite <-position_drop by (rewrite length_app; lia). by rewrite drop_app_length.
Qed.

Lemma sibling_pos_bound n h idx : idx < width n h → sibling_pos idx ≤ width n h.
Proof. intros. unfold sibling_pos. case_bool_decide; lia. Qed.

Lemma sibling_pos_node lh F h idx :
  sibling_pos idx < width (length F) h →
  ideal lh F h !! sibling_pos idx = Some (sibling lh F h idx).
Proof.
  intros Hlt. unfold sibling. fold (sibling_pos idx).
  destruct (lookup_lt_is_Some_2 (ideal lh F h) (sibling_pos idx)) as [s Hs]; [by rewrite length_ideal|].
  by rewrite Hs.
Qed.

Lemma tree_proof_nodes lh F k p :
  tree_proof lh F k p → length F ≤ 2 ^ k →
  ∃ nodes, proof_nodes_in_tree p = Ok nodes ∧ lh ≤ length nodes ∧
    tree_nodes lh F (k + 1) (drop lh nodes).
Proof.
  intros (x & ss & bs & c & rt & -> & Hss & Hbs & Hc & Hrt) Hk.
  rewrite proof_nodes_in_tree_spec by
    (rewrite !length_app, length_ideal_siblings, length_path_bits; lia).
  eexists. split; [done|].
  assert (length (path_nodes (position_from 0 (bs ++ path_bits c k))
    (ss ++ ideal_siblings lh F 0 c k)) = lh + k) as Hlen.
  { rewrite length_path_nodes, length_app, length_ideal_siblings. lia. }
  rewrite length_app, Hlen. split; [simpl; lia|].
  rewrite drop_app_le, drop_path_nodes by lia.
  assert (position_from 0 (bs ++ path_bits c k) / 2 ^ lh = c) as ->.
  { rewrite <-Hbs, position_app, position_path_bits; lia. }
  rewrite drop_app_length' by done. split.
  { rewrite length_app, length_path_nodes, length_ideal_siblings. simpl. lia. }
  intros i pos y [Hy|[Hi Hy]]%lookup_app_Some.
  - assert (i < k) as Hik.
    { apply lookup_lt_Some in Hy. by rewrite length_path_nodes, length_ideal_siblings in Hy. }
    rewrite (lookup_path_nodes _ _ _ _ (lookup_ideal_siblings lh F 0 c k i Hik)) in Hy.
    simpl in Hy. injection Hy as <- <-.
    assert (c / 2 ^ i < width (length F) i) as Hw.
    { apply width_spec. pose proof (Nat.Div0.mul_div_le c (2 ^ i)). lia. }
    split; [by apply sibling_pos_bound|apply sibling_pos_node].
  - rewrite length_path_nodes, length_ideal_siblings in *.
    apply list_lookup_singleton_Some in Hy as [Hi0 [= <- <-]]. assert (i = k) as -> by lia.
    split; [lia|done].
Qed.

Lemma wp_fill_side t0 lh d F L0 L t p :
  leaf_height t0 = lh → filled lh d F t0 L0 L t → tree_proof lh F (length L - 1) p →
  length F ≤ 2 ^ (length L - 1) → 0 < length L →
  wp (fill_side p) (λ _ t', ∃ L', filled lh d F t0 L0 L' t' ∧ length L' = length L) t.
Proof.
  intros Hlh Hf Hp Hk HL. destruct (tree_proof_nodes _ _ _ _ Hp Hk) as (nodes & Hn & Hle & Htn).
  unfold fill_side. apply wp_bind. eapply wp_lift; [exact Hn|]. apply wp_bind, wp_gets.
  rewrite (tree_at_leaf_height _ _ _ _ (proj1 Hf)), Hlh, bool_decide_true by done.
  apply (wp_fill_with_proof _ _ _ _ _ L); [done|].
  by replace (length L) with (length L - 1 + 1) by lia.
Qed.

Lemma fill_with_range_proof_spec d F a L t r :
  tree_inv d F a L t →
  tree_proof (leaf_height t) F (length L - 1) (left_proof r) →
  tree_proof (leaf_height t) F (length L - 1) (right_proof r) →
  wp (fill_with_range_proof r)
    (λ _ t', same_versions t t' ∧ ∃ L', tree_inv d F a L' t' ∧ more_known L L') t.
Proof.
  intros Hi Hl Hrp. destruct (tree_inv_layers _ _ _ _ _ Hi) as (HL & Htop & _).
  destruct Hi as [Hd Hr Hok Hf Ha]. unfold fill_with_range_proof.
  apply wp_bind. eapply wp_start; [by apply tree_at_init|]. intros t1 Hat1.
  apply wp_bind. eapply wp_mono.
  { eapply (wp_fill_side t _ d F L L); [done| |done|done|lia].
    split_and!; [done..|]. apply more_known_refl. }
  intros u1 t2 (L2 & Hf2 & HL2). apply wp_bind. eapply wp_mono.
  { eapply (wp_fill_side t _ d F L L2); [done|done|by rewrite HL2..|lia]. }
  intros u2 t3 (L3 & (Hat3 & Hok3 & Hm3) & HL3). apply wp_bind.
  eapply wp_commit_tx; [done|]. intros t4 Hat4. apply wp_ret.
  split; [by eapply tree_at_same|]. exists L3. split; [|done].
  eapply tree_at_inv; [done..| |done]. by eapply more_known_frontier.
Qed.

End fill.
