(* ===== verification/TreeHistory.v ===== *)
(** Versions of the tree: [commit], [at_version] with the reads of
    [HistoryTree], [clear_after] and [revert_to].

    A version keeps the right most node of every layer.  The other nodes of an
    old version are read from the current layers, which still have them as
    long as the leaves before the last one of the version have not changed. *)

From S2P Require Import Prelude HashElement MerkleSpec MerkleProof MerkleProofComplete.
From S2P Require Import NodeStore AppendMerkle TreeRules Recompute TreeOps.

Section history.
Context `{AlgorithmLaws E, !NodeStore NM E, !NodeStoreLaws NM E}.
Local Abbreviation tree := (AppendMerkleTree NM E).
Implicit Types (t : tree) (F Fw : list E) (L : list (list E)) (l : list E) (rmn : list (nat * E)).

(** ** The layers of a version *)

(** The layers that [revert_to] leaves behind. *)
Definition reverted rmn L : list (list E) :=
  zip_with (λ px l, <[px.1 := px.2]> (take (px.1 + 1) l)) rmn L.

(** The layers that a [HistoryTree] reads. *)
Definition hist_layers rmn L : list (list E) :=
  zip_with (λ px l, if is_null px.2 then take (px.1 + 1) l
                    else <[px.1 := px.2]> (take (px.1 + 1) l)) rmn L.

(** Every right most node is known. *)
Definition sealed rmn : Prop := ∀ h p x, rmn !! h = Some (p, x) → x ≠ null.

(** The leaves [F] extend the version [Fw], except that the last leaf of a
    sealed version may have changed. *)
Definition agrees rmn Fw F : Prop :=
  length Fw ≤ length F ∧
  (take (length Fw) F = Fw ∨ take (length Fw - 1) F = take (length Fw - 1) Fw ∧ sealed rmn).

Record version_ok (lh d : nat) L rmn Fw : Prop := {
  vo_nonempty : Fw ≠ [];
  vo_known : Forall (λ x, x ≠ null) Fw;
  vo_len : length rmn = depth_of d (length Fw);
  vo_last : ∀ h p x, rmn !! h = Some (p, x) →
    p + 1 = width (length Fw) h ∧ (x = null ∨ ideal lh Fw h !! p = Some x);
  vo_frontier : frontier 0 (length Fw) (reverted rmn L);
}.

Lemma lookup_reverted rmn L h l' :
  reverted rmn L !! h = Some l' ↔
  ∃ p x l, rmn !! h = Some (p, x) ∧ L !! h = Some l ∧ l' = <[p := x]> (take (p + 1) l).
Proof.
  unfold reverted. rewrite lookup_zip_with_Some. split.
  - intros ([p x] & l & -> & ? & ?). by exists p, x, l.
  - intros (p & x & l & ? & ? & ->). by exists (p, x), l.
Qed.

Lemma lookup_hist_layers rmn L h l' :
  hist_layers rmn L !! h = Some l' ↔
  ∃ p x l, rmn !! h = Some (p, x) ∧ L !! h = Some l ∧
    l' = if is_null x then take (p + 1) l else <[p := x]> (take (p + 1) l).
Proof.
  unfold hist_layers. rewrite lookup_zip_with_Some. split.
  - intros ([p x] & l & -> & ? & ?). by exists p, x, l.
  - intros (p & x & l & ? & ? & ->). by exists (p, x), l.
Qed.

Lemma agrees_prefix rmn Fw F : agrees rmn Fw F → take (length Fw - 1) F = take (length Fw - 1) Fw.
Proof.
  intros [_ [Heq|[Heq _]]]; [|done]. rewrite <-Heq at 3. rewrite take_take. f_equal. lia.
Qed.

(** The last position of a layer comes before the leaves that may change. *)
Lemma last_pos_le n h p : p + 1 = width n h → 0 < n → p ≤ (n - 1) / 2 ^ h.
Proof.
  intros Hp Hn. assert (p < width n h) as Hlt%width_spec by lia.
  apply Nat.div_le_lower_bound; [apply Nat.pow_nonzero; lia|]. lia.
Qed.

Section version.
Context (lh d : nat) (F Fw : list E) (L : list (list E)) (rmn : list (nat * E)).
Context (Hd : 1 ≤ d) (Hok : layers_ok lh d F L) (Hv : version_ok lh d L rmn Fw)
  (Hag : agrees rmn Fw F).

Lemma version_pos : 0 < length Fw.
Proof. pose proof (vo_nonempty _ _ _ _ _ Hv). destruct Fw; [done|simpl; lia]. Qed.

Lemma version_height : length rmn ≤ length L.
Proof.
  rewrite (vo_len _ _ _ _ _ Hv), (lok_depth _ _ _ _ Hok). apply depth_of_mono, Hag.
Qed.

Lemma version_layer h p x l :
  rmn !! h = Some (p, x) → L !! h = Some l → p + 1 ≤ length l.
Proof.
  intros Hp Hl. destruct (vo_last _ _ _ _ _ Hv h p x Hp) as [-> _].
  rewrite (consistent_length _ _ (lok_layer _ _ _ _ Hok h l Hl)), length_ideal.
  apply width_mono, Hag.
Qed.

(** The nodes of the current tree before the right most one of the version. *)
Lemma version_inner h p x l i y :
  rmn !! h = Some (p, x) → L !! h = Some l → i < p → l !! i = Some y →
  y = null ∨ ideal lh Fw h !! i = Some y.
Proof.
  intros Hp Hl Hi Hy. destruct (proj2 (lok_layer _ _ _ _ Hok h l Hl) i y Hy) as [|Hy']; [by left|].
  right. rewrite <-Hy'. destruct (vo_last _ _ _ _ _ Hv h p x Hp) as [Hpw _].
  pose proof version_pos. pose proof (last_pos_le _ _ _ Hpw version_pos). destruct Hag as [Hle _].
  apply ideal_prefix with (length Fw - 1); [symmetry; by eapply agrees_prefix|lia|lia|lia].
Qed.

(** A right most node that was not recorded has not changed. *)
Lemma version_unknown h p l y :
  rmn !! h = Some (p, null) → L !! h = Some l → l !! p = Some y →
  y = null ∨ ideal lh Fw h !! p = Some y.
Proof.
  intros Hp Hl Hy. destruct (vo_last _ _ _ _ _ Hv h p null Hp) as [Hpw _].
  assert (length Fw `mod` 2 ^ h = 0) as Hm.
  { destruct (decide (length Fw `mod` 2 ^ h = 0)) as [|Hne]; [done|exfalso].
    apply (proj2 (vo_frontier _ _ _ _ _ Hv) h (<[p := null]> (take (p + 1) l)) p null); [|lia| | |done].
    - apply lookup_reverted. by exists p, null, l.
    - rewrite width_unaligned in Hpw by done. lia.
    - apply list_lookup_insert_eq. rewrite length_take. pose proof (version_layer h p null l Hp Hl). lia. }
  destruct Hag as [Hle [Heq|[_ Hs]]]; [|by destruct (Hs h p null Hp)].
  destruct (proj2 (lok_layer _ _ _ _ Hok h l Hl) p y Hy) as [|Hy']; [by left|].
  right. rewrite <-Hy'. rewrite (width_aligned _ _ Hm) in Hpw.
  apply ideal_prefix with (length Fw); [by rewrite Heq, take_ge|lia|lia|lia].
Qed.

Lemma reverted_ok : layers_ok lh d Fw (reverted rmn L).
Proof.
  split; [|apply Hv|].
  - unfold reverted. rewrite length_zip_with. pose proof version_height.
    rewrite Nat.min_l by done. apply Hv.
  - intros h l' (p & x & l & Hp & Hl & ->)%lookup_reverted.
    pose proof (version_layer h p x l Hp Hl) as Hlen.
    destruct (vo_last _ _ _ _ _ Hv h p x Hp) as [Hpw Hx]. split.
    + rewrite length_insert, length_take, length_ideal. lia.
    + intros i y [(-> & -> & _)|(Hne & Hy)]%list_lookup_insert_Some; [done|].
      apply lookup_take_Some_inv in Hy as [Hi Hy]. eapply version_inner; [done|done|lia|done].
Qed.

Lemma hist_layers_ok : layers_ok lh d Fw (hist_layers rmn L).
Proof.
  split; [|apply Hv|].
  - unfold hist_layers. rewrite length_zip_with. pose proof version_height.
    rewrite Nat.min_l by done. apply Hv.
  - intros h l' (p & x & l & Hp & Hl & ->)%lookup_hist_layers.
    pose proof (version_layer h p x l Hp Hl) as Hlen.
    destruct (vo_last _ _ _ _ _ Hv h p x Hp) as [Hpw Hx]. destruct (is_null x) eqn:Hn.
    + apply is_null_true in Hn. subst x. split; [rewrite length_take, length_ideal; lia|].
      intros i y [Hi Hy]%lookup_take_Some_inv. destruct (decide (i = p)) as [->|Hne].
      * by eapply version_unknown.
      * eapply version_inner; [done|done|lia|done].
    + split; [rewrite length_insert, length_take, length_ideal; lia|].
      intros i y [(-> & -> & _)|(Hne & Hy)]%list_lookup_insert_Some; [done|].
      apply lookup_take_Some_inv in Hy as [Hi Hy]. eapply version_inner; [done|done|lia|done].
Qed.

(** A history tree knows at least what [revert_to] would keep. *)
Lemma reverted_more_known : more_known (reverted rmn L) (hist_layers rmn L).
Proof.
  split; [unfold reverted, hist_layers; by rewrite !length_zip_with|].
  intros h l' (p & x & l & Hp & Hl & ->)%lookup_reverted.
  pose proof (version_layer h p x l Hp Hl) as Hlen.
  exists (if is_null x then take (p + 1) l else <[p := x]> (take (p + 1) l)). split_and!.
  - apply lookup_hist_layers. by exists p, x, l.
  - destruct (is_null x); by rewrite ?length_insert.
  - intros i y Hy Hn. destruct (is_null x) eqn:Hx; [|done]. apply is_null_true in Hx. subst x.
    destruct (decide (i = p)) as [->|].
    + rewrite list_lookup_insert_eq in Hy by (rewrite length_take; lia). congruence.
    + by rewrite list_lookup_insert_ne in Hy.
Qed.

(** ** Reading a version *)

Lemma history_reads (s : NM) b :
  rep s b L → reads (HistoryTree_mk s (DeltaNodes_mk rmn) lh) lh (hist_layers rmn L).
Proof.
  intros Hr. split.
  - simpl. unfold delta_height, hist_layers. rewrite length_zip_with. simpl.
    pose proof version_height. lia.
  - intros h l' (p & x & l & Hp & Hl & ->)%lookup_hist_layers.
    pose proof (version_layer h p x l Hp Hl) as Hlen.
    simpl. unfold delta_layer_len. simpl. rewrite Hp. simpl. f_equal.
    destruct (is_null x); rewrite ?length_insert, length_take; lia.
  - intros h l' i y (p & x & l & Hp & Hl & ->)%lookup_hist_layers Hy.
    pose proof (version_layer h p x l Hp Hl) as Hlen. simpl. unfold delta_get. simpl. rewrite Hp.
    assert (i ≤ p) as Hi.
    { apply lookup_lt_Some in Hy. destruct (is_null x); rewrite ?length_insert, length_take in Hy; lia. }
    rewrite bool_decide_false by lia. case_bool_decide as Hip; simpl.
    + subst i. destruct (is_null x) eqn:Hn.
      * apply lookup_take_Some_inv in Hy as [_ Hy]. by rewrite (rep_get_node _ b L h l p y).
      * rewrite list_lookup_insert_eq in Hy by (rewrite length_take; lia). congruence.
    + assert (l !! i = Some y) as Hy'.
      { destruct (is_null x); [|rewrite list_lookup_insert_ne in Hy by done];
          by apply lookup_take_Some_inv in Hy as [_ ?]. }
      by rewrite (rep_get_node _ b L h l i y).
  - done.
Qed.

End version.

(** ** [commit] *)

(** The right most nodes of the layers. *)
Fixpoint right_most L : list (nat * E) :=
  match L with
  | [] => []
  | l :: L' =>
      match last l with
      | Some x => (length l - 1, x) :: right_most L'
      | None => right_most L'
      end
  end.

Lemma mapM_outcome_Ok {A B} (f : A → outcome B) (xs : list A) (ys : list B) :
  length xs = length ys →
  (∀ i x y, xs !! i = Some x → ys !! i = Some y → f x = Ok y) → mapM_outcome f xs = Ok ys.
Proof.
  revert ys. induction xs as [|x xs IH]; intros [|y ys] Hlen Hf; try done. simpl.
  rewrite (Hf 0 x y) by done. rewrite bind_Ok, (IH ys); [done|by injection Hlen|].
  intros i. apply (Hf (S i)).
Qed.

Lemma right_most_lookup L :
  (∀ h l, L !! h = Some l → l ≠ []) →
  length (right_most L) = length L ∧
  ∀ h p x, right_most L !! h = Some (p, x) ↔
    ∃ l, L !! h = Some l ∧ p + 1 = length l ∧ l !! p = Some x.
Proof.
  induction L as [|l L IH]; intros Hne.
  { split; [done|]. intros h p x. split; [done|]. by intros (l & ? & _). }
  destruct IH as [IHlen IH]; [by intros h; apply (Hne (S h))|].
  destruct l as [|y l _] using rev_ind; [by destruct (Hne 0 [])|].
  cbn [right_most]. rewrite last_snoc. cbn [length]. split; [by rewrite IHlen|].
  intros [|h] p x; simpl; [|apply IH]. rewrite length_app. simpl. split.
  - intros [= <- <-]. exists (l ++ [y]). rewrite length_app. simpl. split_and!; [done|lia|].
    replace (length l + 1 - 1) with (length l) by lia. apply list_lookup_snoc_eq.
  - intros (l' & [= <-] & Hp & Hx). rewrite length_app in Hp. simpl in Hp.
    assert (p = length l) as -> by lia. rewrite list_lookup_snoc_eq in Hx.
    injection Hx as ->. do 2 f_equal. lia.
Qed.

Lemma layers_nonempty lh d F L h l :
  F ≠ [] → layers_ok lh d F L → L !! h = Some l → l ≠ [].
Proof.
  intros HF Hok Hl ->. pose proof (consistent_length _ _ (lok_layer _ _ _ _ Hok h [] Hl)) as Hlen.
  rewrite length_ideal in Hlen. pose proof (width_pos (length F) h).
  destruct F; [done|]. simpl in *. lia.
Qed.

(** Recording the current version and taking it back changes nothing. *)
Lemma reverted_right_most L : (∀ h l, L !! h = Some l → l ≠ []) → reverted (right_most L) L = L.
Proof.
  intros Hne. destruct (right_most_lookup L Hne) as [Hlen Hlk].
  apply list_eq_same_length with (length L); [done| |].
  { unfold reverted. rewrite length_zip_with. lia. }
  intros h l' l _ (p & x & l2 & Hp & Hl2 & ->)%lookup_reverted Hl. simplify_eq.
  apply Hlk in Hp as (l3 & Hl3 & Hp & Hx). simplify_eq.
  rewrite take_ge by lia. by apply list_insert_id.
Qed.

Lemma version_ok_current lh d F L :
  F ≠ [] → layers_ok lh d F L → frontier 0 (length F) L → version_ok lh d L (right_most L) F.
Proof.
  intros HF Hok Hf. assert (∀ h l, L !! h = Some l → l ≠ []) as Hne
    by (intros h l; by eapply layers_nonempty).
  destruct (right_most_lookup L Hne) as [Hlen Hlk]. split; [done|apply Hok| | |].
  - by rewrite Hlen, (lok_depth _ _ _ _ Hok).
  - intros h p x (l & Hl & Hp & Hx)%Hlk. pose proof (lok_layer _ _ _ _ Hok h l Hl) as Hc.
    split; [|by apply Hc]. by rewrite Hp, (consistent_length _ _ Hc), length_ideal.
  - by rewrite reverted_right_most.
Qed.

Lemma agrees_refl rmn F : agrees rmn F F.
Proof. split; [done|left; by rewrite take_ge]. Qed.

Lemma commit_spec d F a L t seq :
  tree_inv d F a L t → F ≠ [] →
  ∃ r, ideal_root (leaf_height t) d F = Some r ∧
    commit (Some seq) t =
      (Ok tt, set_versions (<[seq := DeltaNodes_mk (right_most L)]> (delta_nodes_map t))
                (<[r := seq]> (root_to_tx_seq_map t)) t).
Proof.
  intros Hi HF. pose proof Hi as [Hd Hr Hok Hf Ha].
  destruct (frontier_ideal_root _ _ _ _ _ Hd Hok Hf Ha HF) as (lt & r & Hlt & Hrt & Hrn & _ & Hir).
  destruct (tree_inv_layers _ _ _ _ _ Hi) as (_ & _ & l & Hl & _ & Hlen).
  exists r. split; [done|]. pose proof (rep_reads t false L Hr) as Hrd.
  unfold commit, mbind, M_bind, get_layer_len, gets_ok.
  rewrite (reads_len _ _ _ Hrd 0 l Hl).
  rewrite bool_decide_false by (rewrite Hlen; destruct F; [done|simpl; lia]).
  assert (∀ h l, L !! h = Some l → l ≠ []) as Hne by (intros h l'; by eapply layers_nonempty).
  destruct (right_most_lookup L Hne) as [Hlenr Hlk].
  rewrite (mapM_outcome_Ok _ _ (right_most L)); cycle 1.
  { by rewrite length_seq, Hlenr, (reads_height _ _ _ Hrd). }
  { intros h h' [p x] [Hh' _]%lookup_seq (l' & Hl' & Hp & Hx)%Hlk. simpl in Hh'. subst h'.
    unfold right_most_node. rewrite (reads_len _ _ _ Hrd h l' Hl'), bind_Ok.
    rewrite bool_decide_false by lia. replace (length l' - 1) with p by lia.
    by rewrite (reads_node _ _ _ Hrd h l' p x Hl' Hx). }
  unfold root. rewrite (reads_height _ _ _ Hrd), (reads_node _ _ _ Hrd _ _ _ _ Hlt Hrt). done.
Qed.

(** ** [clear_after] *)

(** The versions [seq .. hi - 1] are removed, together with their roots. *)
Lemma clear_after_loop_spec fuel seq (dm : gmap nat (DeltaNodes E)) (rm : gmap E nat) :
  size dm < fuel →
  ∃ hi dm' rm', clear_after_loop fuel seq dm rm = Ok (dm', rm') ∧ seq ≤ hi ∧ dm !! hi = None ∧
    (∀ s, seq ≤ s → s < hi → is_Some (dm !! s)) ∧
    (∀ s, dm' !! s = if decide (seq ≤ s ∧ s < hi) then None else dm !! s) ∧
    (∀ r q, rm' !! r = Some q → rm !! r = Some q ∧
       ∀ s dl, seq ≤ s → s < hi → dm !! s = Some dl → right_most_nodes dl ≠ [] →
         delta_root dl ≠ Ok r).
Proof.
  revert seq dm rm. induction fuel as [|fuel IH]; intros seq dm rm Hfuel; [lia|].
  cbn [clear_after_loop]. destruct (dm !! seq) as [dl|] eqn:Hdl; cycle 1.
  { exists seq, dm, rm. split_and!; try done; try lia.
    - intros s. rewrite decide_False by lia. done.
    - intros r q Hq. split; [done|]. lia. }
  assert (∃ rm1, (if bool_decide (delta_height dl ≠ 0) then rt ← delta_root dl; Ok (delete rt rm)
                  else Ok rm) = Ok rm1 ∧
    ∀ r q, rm1 !! r = Some q → rm !! r = Some q ∧
      (right_most_nodes dl ≠ [] → delta_root dl ≠ Ok r)) as (rm1 & -> & Hrm1).
  { unfold delta_height, delta_root. destruct (last (right_most_nodes dl)) as [px|] eqn:Hlast.
    - rewrite bool_decide_true by (by destruct (right_most_nodes dl)). eexists. split; [done|].
      intros r q [Hne Hq]%lookup_delete_Some. split; [done|]. simpl. intros _ [= Heq]. done.
    - apply last_None in Hlast. rewrite Hlast. eexists. split; [done|]. done. }
  rewrite bind_Ok.
  destruct (IH (S seq) (delete seq dm) rm1) as (hi & dm' & rm' & -> & Hle & Hhi & Hall & Hdm & Hrm).
  { rewrite map_size_delete_Some by (by eexists).
    assert (size dm ≠ 0); [|lia]. intros Hz%map_size_empty_inv. subst dm. done. }
  exists hi, dm', rm'. split_and!; [done|lia| | | |].
  - rewrite lookup_delete_ne in Hhi by lia. done.
  - intros s Hs1 Hs2. destruct (decide (s = seq)) as [->|]; [by eexists|].
    specialize (Hall s ltac:(lia) Hs2). by rewrite lookup_delete_ne in Hall by lia.
  - intros s. rewrite Hdm. destruct (decide (s = seq)) as [->|].
    + rewrite decide_False, lookup_delete_eq, decide_True by lia. done.
    + rewrite lookup_delete_ne by done. repeat case_decide; (done || lia).
  - intros r q Hq. destruct (Hrm r q Hq) as [Hq1 Hroots]. destruct (Hrm1 r q Hq1) as [Hq2 Hroot].
    split; [done|]. intros s dl' Hs1 Hs2 Hdl'. destruct (decide (s = seq)) as [->|].
    + simplify_eq. done.
    + apply (Hroots s dl'); [lia|done|]. by rewrite lookup_delete_ne.
Qed.

(** ** [revert_to] *)

Lemma wp_truncate_layers t0 n L t (Q : () → tree → Prop) :
  tree_at t0 true L t → n ≤ length L →
  (∀ t', tree_at t0 true (take n L) t' → Q tt t') →
  wp (for_each (reverse (List.seq n (length L - n))) (λ h, nm (nm_truncate_layer h))) Q t.
Proof.
  intros Hat Hn HQ. remember (length L - n) as m eqn:Hm.
  revert L t Hat Hn HQ Hm. induction m as [|m IH]; intros L t Hat Hn HQ Hm.
  - apply wp_ret, HQ. by rewrite take_ge by lia.
  - rewrite seq_S, reverse_snoc. cbn [for_each].
    destruct L as [|l L _] using rev_ind; [simpl in *; lia|].
    rewrite length_app in Hm, Hn. simpl in Hm, Hn. replace (n + m) with (length L) by lia.
    apply wp_bind. eapply wp_truncate_layer; [done|]. intros t1 Hat1.
    apply (IH L); [done|lia| |lia]. intros t2 Hat2. apply HQ.
    by rewrite take_app_le by lia.
Qed.

Lemma wp_restore_layers t0 rmn L t (Q : () → tree → Prop) :
  tree_at t0 true L t → length rmn = length L →
  (∀ h p x l, rmn !! h = Some (p, x) → L !! h = Some l → p + 1 ≤ length l) →
  (∀ t', tree_at t0 true (reverted rmn L) t' → Q tt t') →
  wp (for_each (imap (λ h px, (h, px)) rmn) (λ hpx,
      _ ← nm (nm_truncate_nodes hpx.1 (hpx.2.1 + 1));
      update_node hpx.1 hpx.2.1 hpx.2.2)) Q t.
Proof.
  intros Hat Hlen Hp HQ.
  eapply (wp_for_each _ _ (λ dn t', ∃ L1, tree_at t0 true L1 t' ∧ length L1 = length L ∧
    ∀ h, L1 !! h = if decide (h < length dn) then reverted rmn L !! h else L !! h)).
  - exists L. split_and!; [done..|]. intros h. rewrite decide_False by (simpl; lia). done.
  - intros dn [h [p x]] todo t1 Heq (L1 & Hat1 & Hlen1 & Hlk).
    assert (imap (λ h px, (h, px)) rmn !! length dn = Some (h, (p, x))) as Hx
      by (rewrite Heq, lookup_app_r, Nat.sub_diag by lia; done).
    rewrite list_lookup_imap in Hx. destruct (rmn !! length dn) as [px|] eqn:Hr; [|done].
    simpl in Hx. injection Hx as <- ->. cbn [fst snd].
    destruct (lookup_lt_is_Some_2 L (length dn)) as [l Hl]; [apply lookup_lt_Some in Hr; lia|].
    assert (length dn < length L1) as Hlt by (rewrite Hlen1; by eapply lookup_lt_Some).
    pose proof (Hp _ _ _ _ Hr Hl) as Hle. apply wp_bind.
    eapply wp_truncate_nodes; [done|rewrite Hlk, decide_False by lia; done|done|].
    intros t2 Hat2. eapply wp_update_node; [done|by apply list_lookup_insert_eq| |].
    { rewrite length_take. lia. }
    intros t3 Hat3. rewrite list_insert_insert_eq in Hat3. eexists. split; [exact Hat3|].
    rewrite length_insert. split; [done|]. intros h. rewrite length_app. simpl.
    destruct (decide (h = length dn)) as [->|Hne].
    + rewrite list_lookup_insert_eq, decide_True by lia. symmetry.
      apply lookup_reverted. by exists p, x, l.
    + rewrite list_lookup_insert_ne, Hlk by done. repeat case_decide; (done || lia).
  - intros t1 (L1 & Hat1 & Hlen1 & Hlk). apply HQ.
    assert (reverted rmn L = L1) as ->; [|done].
    apply list_eq. intros h. rewrite Hlk, length_imap. case_decide; [done|].
    rewrite !lookup_ge_None_2; [done|lia|]. unfold reverted. rewrite length_zip_with. lia.
Qed.

Lemma reverted_take rmn L : reverted rmn (take (length rmn) L) = reverted rmn L.
Proof.
  apply list_eq. intros h. unfold reverted. rewrite !lookup_zip_with.
  destruct (rmn !! h) as [px|] eqn:Hp; [|done]. simpl. by rewrite lookup_take_lt by (by eapply lookup_lt_Some).
Qed.

Lemma wp_clear_after t0 b L t seq :
  tree_at t0 b L t →
  wp (clear_after seq) (λ _ t', ∃ dm rm,
    clear_after_loop (S (size (delta_nodes_map t0))) (seq + 1) (delta_nodes_map t0)
      (root_to_tx_seq_map t0) = Ok (dm, rm) ∧
    tree_at (set_versions dm rm t0) b L t') t.
Proof.
  intros (s & -> & Hr). unfold clear_after.
  destruct (clear_after_loop_spec (S (size (delta_nodes_map t0))) (seq + 1)
    (delta_nodes_map t0) (root_to_tx_seq_map t0) ltac:(lia)) as (hi & dm & rm & Hc & _).
  apply wp_bind. eapply wp_gets_ok; [exact Hc|]. apply wp_modify. exists dm, rm.
  split; [done|]. by exists s.
Qed.

Lemma revert_to_spec d F Fw a L rmn t seq :
  tree_inv d F a L t → F ≠ [] → delta_nodes_map t !! seq = Some (DeltaNodes_mk rmn) →
  version_ok (leaf_height t) d L rmn Fw → agrees rmn Fw F →
  wp (revert_to seq) (λ _ t',
    tree_inv d Fw (length Fw) (reverted rmn L) t' ∧
    leaf_height t' = leaf_height t ∧ min_depth t' = min_depth t ∧
    clear_after_loop (S (size (delta_nodes_map t))) (seq + 1) (delta_nodes_map t)
      (root_to_tx_seq_map t) = Ok (delta_nodes_map t', root_to_tx_seq_map t')) t.
Proof.
  intros Hi HF Hdl Hv Hag. destruct (tree_inv_layers _ _ _ _ _ Hi) as (_ & _ & l & Hl & _ & Hlen).
  pose proof Hi as [Hd Hr Hok Hf Ha].
  pose proof (version_height _ _ _ _ _ _ Hok Hv Hag) as Hh.
  unfold revert_to. apply wp_bind. eapply wp_get_layer_len; [by apply tree_at_init|done|].
  rewrite bool_decide_false by (rewrite Hlen; destruct F; [done|simpl; lia]).
  apply wp_bind. eapply wp_start; [by apply tree_at_init|]. intros t1 Hat1.
  apply wp_bind. eapply wp_gets_ok.
  { destruct (tree_at_versions _ _ _ _ Hat1) as (-> & _). by rewrite Hdl. }
  apply wp_bind. eapply wp_get_height; [done|].
  apply wp_bind. unfold delta_height. cbn [right_most_nodes].
  eapply wp_truncate_layers; [done..|]. intros t2 Hat2.
  apply wp_bind. eapply wp_restore_layers; [done|rewrite length_take; lia| |].
  { intros h p x l' Hp [_ Hl']%lookup_take_Some_inv. by eapply (version_layer (leaf_height t) d F Fw). }
  rewrite reverted_take. intros t3 Hat3.
  apply wp_bind. eapply wp_mono; [by eapply wp_clear_after|].
  intros [] t4 (dm & rm & Hc & Hat4). eapply wp_commit_tx; [done|]. intros t5 Hat5.
  destruct (tree_at_same _ _ _ _ Hat5) as (Hd5 & Hr5 & Hm5 & Hlh5).
  split_and!; [|done|done|by rewrite Hd5, Hr5].
  eapply tree_at_inv; [done..| | |done].
  - by eapply reverted_ok.
  - apply Hv.
Qed.

End history.
