(* ===== verification/TreeRefine.v ===== *)
(** The contract of the tree: it implements a log of leaves with named
    versions.  [log] is the abstract state, [log_step] says what each
    operation does to it, and [refines] relates it to a tree. *)

From S2P Require Import Prelude HashElement MerkleSpec MerkleProof MerkleProofComplete.
From S2P Require Import NodeStore AppendMerkle TreeRules Recompute TreeOps.
From S2P Require Import TreeFill TreeHistory.

(** A version is the leaves at the time of the commit, and whether the right
    most path was known. *)
Record log (E : Type) := Log {
  log_leaves : list E;
  log_front : nat;
  log_versions : gmap nat (list E * bool);
}.
Arguments Log {E} log_leaves log_front log_versions.
Arguments log_leaves {E} l.
Arguments log_front {E} l.
Arguments log_versions {E} l.

Section refine.
Context `{AlgorithmLaws E, !NodeStore NM E, !NodeStoreLaws NM E}.
Local Abbreviation tree := (AppendMerkleTree NM E).
Implicit Types (t : tree) (A : log E) (F Fw : list E) (L : list (list E)) (l : list E)
  (rmn : list (nat * E)).

(** ** The abstract operations

    [log_step lh d A m A']: running [m] on a tree of at least [d] layers that
    implements [A] gives a tree that implements [A']. *)
Inductive log_step (lh d : nat) : log E → M tree () → log E → Prop :=
  | ls_append F a vs x :
      x ≠ null →
      log_step lh d (Log F a vs) (append x) (Log (F ++ [x]) (length F) vs)
  | ls_append_list F a vs xs :
      Forall (λ x, x ≠ null) xs →
      log_step lh d (Log F a vs) (append_list xs) (Log (F ++ xs) (length F) vs)
  | ls_append_subtree F a vs k rt G :
      length F `mod` 2 ^ k = 0 → subtree_of lh k rt G →
      log_step lh d (Log F a vs) (append_subtree (k + 1) rt)
        (Log (F ++ G) (length (F ++ G)) vs)
  | ls_append_leaf F a vs x :
      x ≠ null →
      log_step lh d (Log F a vs) (append_subtree 1 x) (Log (F ++ [x]) (length F) vs)
  | ls_append_subtree_list F a vs ls Gs :
      subtrees_of lh (length F) ls Gs →
      log_step lh d (Log F a vs) (append_subtree_list ls) (Log (F ++ Gs) (length (F ++ Gs)) vs)
  | ls_update_last F a vs x :
      x ≠ null → a ≤ length F - 1 →
      (∀ s Fw b, vs !! s = Some (Fw, b) → length Fw = length F → b = true) →
      log_step lh d (Log F a vs) (update_last x)
        (Log (take (length F - 1) F ++ [x]) (length F - 1) vs)
  | ls_fill_leaf F a vs i x :
      F !! i = Some x →
      log_step lh d (Log F a vs) (fill_leaf i x) (Log F a vs)
  | ls_fill_with_range_proof F a vs r :
      tree_proof lh F (depth_of d (length F) - 1) (left_proof r) →
      tree_proof lh F (depth_of d (length F) - 1) (right_proof r) →
      log_step lh d (Log F a vs) (_ ← fill_with_range_proof r; mret tt) (Log F a vs)
  | ls_commit F a vs s :
      F ≠ [] → (∀ s', is_Some (vs !! s') → s' < s ∧ is_Some (vs !! (s - 1))) →
      log_step lh d (Log F a vs) (commit (Some s))
        (Log F a (<[s := (F, bool_decide (a ≤ length F - 1))]> vs))
  | ls_revert_to F a vs s Fw b :
      F ≠ [] → vs !! s = Some (Fw, b) →
      log_step lh d (Log F a vs) (revert_to s)
        (Log Fw (length Fw) (filter (λ sv, sv.1 ≤ s) vs)).

(** ** The relation *)

Record versions_ok (lh d : nat) L A t : Prop := {
  vs_dom : ∀ s, is_Some (delta_nodes_map t !! s) ↔ is_Some (log_versions A !! s);
  vs_ok : ∀ s dl Fw b, delta_nodes_map t !! s = Some dl → log_versions A !! s = Some (Fw, b) →
    version_ok lh d L (right_most_nodes dl) Fw ∧
    agrees (right_most_nodes dl) Fw (log_leaves A) ∧
    (b = true → sealed (right_most_nodes dl));
  vs_pair : ∀ s s' dl Fw b Fw' b', s < s' →
    delta_nodes_map t !! s = Some dl → log_versions A !! s = Some (Fw, b) →
    log_versions A !! s' = Some (Fw', b') → agrees (right_most_nodes dl) Fw Fw';
  vs_contiguous : ∀ s1 s2 s3, s1 < s2 → s2 < s3 →
    is_Some (log_versions A !! s1) → is_Some (log_versions A !! s3) →
    is_Some (log_versions A !! s2);
  vs_root : ∀ r s, root_to_tx_seq_map t !! r = Some s →
    ∃ Fw b, log_versions A !! s = Some (Fw, b) ∧ ideal_root lh d Fw = Some r;
}.

Definition refines (lh d : nat) A t : Prop :=
  leaf_height t = lh ∧
  ∃ L, tree_inv d (log_leaves A) (log_front A) L t ∧ versions_ok lh d L A t.

(** ** Versions under a change of the layers *)

Lemma agrees_app rmn Fw F xs : agrees rmn Fw F → agrees rmn Fw (F ++ xs).
Proof.
  intros [Hle Hag]. split; [rewrite length_app; lia|].
  rewrite !take_app_le by lia. done.
Qed.

Lemma agrees_update rmn Fw F x :
  agrees rmn Fw F → (length Fw = length F → sealed rmn) → 0 < length Fw →
  agrees rmn Fw (take (length F - 1) F ++ [x]).
Proof.
  intros Hag Hs Hpos. pose proof Hag as [Hle Hor].
  assert (length (take (length F - 1) F) = length F - 1) as Hlen by (rewrite length_take; lia).
  split; [rewrite length_app, Hlen; simpl; lia|].
  destruct (decide (length Fw = length F)) as [Heq|Hne].
  - right. split; [|by apply Hs]. rewrite take_app_le, take_take by lia.
    rewrite Nat.min_l by lia. by eapply agrees_prefix.
  - rewrite !take_app_le, !take_take, !Nat.min_l by lia. done.
Qed.

Lemma reverted_layer l p (x : E) :
  p + 1 ≤ length l → <[p := x]> (take (p + 1) l) = take p l ++ [x].
Proof.
  intros Hp. rewrite (insert_snoc_last _ p) by (rewrite length_take; lia).
  by rewrite take_take, Nat.min_l by lia.
Qed.

(** The layers of a version only depend on the nodes before its right most path. *)
Lemma reverted_ext rmn L L' :
  length rmn ≤ length L → length rmn ≤ length L' →
  (∀ h p x l l', rmn !! h = Some (p, x) → L !! h = Some l → L' !! h = Some l' →
     p + 1 ≤ length l ∧ p + 1 ≤ length l' ∧ take p l' = take p l) →
  reverted rmn L' = reverted rmn L.
Proof.
  intros HL HL' Heq. apply list_eq_same_length with (length rmn).
  { unfold reverted. rewrite length_zip_with. lia. }
  { unfold reverted. rewrite length_zip_with. lia. }
  intros h l1 l2 _ (p & x & l' & Hp & Hl' & ->)%lookup_reverted
    (p2 & x2 & l & Hp2 & Hl & ->)%lookup_reverted. simplify_eq.
  destruct (Heq h p x l l' Hp Hl Hl') as (H1l & H2l & Htake).
  rewrite !reverted_layer by done. by rewrite Htake.
Qed.

Lemma version_kept lh d F F' L L' a rmn Fw :
  1 ≤ d → layers_ok lh d F L → layers_ok lh d F' L' → kept a L L' →
  version_ok lh d L rmn Fw → agrees rmn Fw F → length Fw ≤ length F' → length Fw ≤ a + 1 →
  version_ok lh d L' rmn Fw.
Proof.
  intros Hd Hok Hok' [Hlen Hk] Hv Hag HF' Ha.
  pose proof (version_height _ _ _ _ _ _ Hok Hv Hag) as Hh.
  destruct Hv as [Hne Hkn Hl Hlast Hf]. split; try done.
  rewrite (reverted_ext rmn L L'); [done|done|lia|].
  intros h p x l l' Hp Hll Hll'. destruct (Hlast h p x Hp) as [Hpw _].
  rewrite (consistent_length _ _ (lok_layer _ _ _ _ Hok h l Hll)), length_ideal.
  rewrite (consistent_length _ _ (lok_layer _ _ _ _ Hok' h l' Hll')), length_ideal.
  pose proof (width_mono (length Fw) (length F) h (proj1 Hag)).
  pose proof (width_mono (length Fw) (length F') h HF'). split_and!; [lia|lia|].
  assert (0 < length Fw) as Hpos by (destruct Fw; [done|simpl; lia]).
  pose proof (last_pos_le _ _ _ Hpw Hpos) as Hpl.
  pose proof (div_le_mono_pow (length Fw - 1) a h ltac:(lia)).
  rewrite <-(Nat.min_l p (a / 2 ^ h)), <-!take_take by lia.
  rewrite (Hk h l' Hll'), Hll. done.
Qed.

Lemma version_more_known lh d F L L' rmn Fw :
  layers_ok lh d F L → more_known L L' → version_ok lh d L rmn Fw → agrees rmn Fw F →
  version_ok lh d L' rmn Fw.
Proof.
  intros Hok Hm Hv Hag. pose proof (version_height _ _ _ _ _ _ Hok Hv Hag) as Hh.
  pose proof Hv as [Hne Hkn Hl Hlast Hf]. split; try done.
  eapply more_known_frontier; [|exact Hf]. destruct Hm as [Hlen Hm]. split.
  { unfold reverted. rewrite !length_zip_with. lia. }
  intros h l1 (p & x & l & Hp & Hll & ->)%lookup_reverted.
  destruct (Hm h l Hll) as (l' & Hll' & Hlen' & Hk). exists (<[p := x]> (take (p + 1) l')).
  split_and!; [apply lookup_reverted; by exists p, x, l'|rewrite !length_insert, !length_take; lia|].
  pose proof (version_layer _ _ _ _ _ _ Hok Hv Hag h p x l Hp Hll) as Hpl.
  rewrite !reverted_layer by lia. intros i y Hy Hn.
  rewrite lookup_app in Hy. rewrite lookup_app. rewrite !length_take in *.
  replace (p `min` length l) with p in * by lia. replace (p `min` length l') with p by lia.
  destruct (take p l !! i) as [z|] eqn:Hz.
  - injection Hy as ->. apply lookup_take_Some_inv in Hz as [Hi Hz].
    rewrite lookup_take_lt by done. by rewrite (Hk i y Hz Hn).
  - apply lookup_ge_None in Hz. rewrite length_take in Hz. rewrite lookup_take_ge by lia. done.
Qed.

(** ** Each operation *)

(** An operation that does not touch the versions. *)
Lemma versions_change lh d L L' F F' a a' vs t t' :
  versions_ok lh d L (Log F a vs) t → same_versions t t' →
  (∀ s dl Fw b, delta_nodes_map t !! s = Some dl → vs !! s = Some (Fw, b) →
     version_ok lh d L (right_most_nodes dl) Fw → agrees (right_most_nodes dl) Fw F →
     (b = true → sealed (right_most_nodes dl)) →
     version_ok lh d L' (right_most_nodes dl) Fw ∧ agrees (right_most_nodes dl) Fw F') →
  versions_ok lh d L' (Log F' a' vs) t'.
Proof.
  intros [Hdom Hok Hpair Hcont Hroot] (Hd & Hr & _ & _) Hch. split; simpl in *.
  - by rewrite Hd.
  - rewrite Hd. intros s dl Fw b Hdl Hv. destruct (Hok s dl Fw b Hdl Hv) as (Hvo & Hag & Hs).
    destruct (Hch s dl Fw b Hdl Hv Hvo Hag Hs). done.
  - by rewrite Hd.
  - done.
  - by rewrite Hr.
Qed.

(** Appending, in the three ways that the tree offers. *)
Lemma refines_append lh d L L' F a vs xs a' t t' :
  tree_inv d F a L t → versions_ok lh d L (Log F a vs) t → leaf_height t = lh →
  same_versions t t' → tree_inv d (F ++ xs) a' L' t' → kept (length F) L L' →
  refines lh d (Log (F ++ xs) a' vs) t'.
Proof.
  intros Hi Hvs Hlh Hsame Hi' Hk. split; [by destruct Hsame as (_ & _ & _ & ->)|].
  exists L'. split; [done|]. eapply versions_change; [done..|].
  intros s dl Fw b Hdl Hv Hvo Hag _. split; [|by apply agrees_app].
  eapply (version_kept lh d F (F ++ xs) L L' (length F)); try done.
  - apply Hi.
  - rewrite <-Hlh. apply Hi.
  - assert (leaf_height t' = lh) as <- by (by destruct Hsame as (_ & _ & _ & ->)). apply Hi'.
  - rewrite length_app. destruct Hag. lia.
  - destruct Hag. lia.
Qed.

Lemma refines_filled lh d L L' F a vs t t' :
  tree_inv d F a L t → versions_ok lh d L (Log F a vs) t → leaf_height t = lh →
  same_versions t t' → tree_inv d F a L' t' → more_known L L' →
  refines lh d (Log F a vs) t'.
Proof.
  intros Hi Hvs Hlh Hsame Hi' Hm. split; [by destruct Hsame as (_ & _ & _ & ->)|].
  exists L'. split; [done|]. eapply versions_change; [done..|].
  intros s dl Fw b Hdl Hv Hvo Hag _. split; [|done].
  eapply version_more_known; [|done..]. rewrite <-Hlh. apply Hi.
Qed.

Lemma sim_update_last lh d F a vs x t :
  x ≠ null → a ≤ length F - 1 →
  (∀ s Fw b, vs !! s = Some (Fw, b) → length Fw = length F → b = true) →
  refines lh d (Log F a vs) t →
  wp (update_last x)
    (λ _ t', refines lh d (Log (take (length F - 1) F ++ [x]) (length F - 1) vs) t') t.
Proof.
  intros Hx Ha Hseal (Hlh & L & Hi & Hvs).
  apply (tree_inv_mono _ _ _ (length F - 1)) in Hi; simpl in *; [|done|lia].
  eapply wp_mono; [by eapply update_last_spec|].
  intros [] t' (Hsame & L' & Hi' & Hk). split; [by destruct Hsame as (_ & _ & _ & ->)|].
  exists L'. split; [done|]. eapply versions_change; [done..|].
  intros s dl Fw b Hdl Hv Hvo Hag Hs.
  assert (0 < length Fw) as Hpos.
  { pose proof (vo_nonempty _ _ _ _ _ Hvo). destruct Fw; [done|simpl; lia]. }
  split.
  - eapply (version_kept lh d F (take (length F - 1) F ++ [x]) L L' (length F - 1)); try done.
    + apply Hi.
    + rewrite <-Hlh. apply Hi.
    + assert (leaf_height t' = lh) as <- by (by destruct Hsame as (_ & _ & _ & ->)). apply Hi'.
    + destruct Hag. rewrite length_app, length_take. simpl. lia.
    + destruct Hag. lia.
  - apply agrees_update; [done| |done]. intros Hlen. apply Hs. by eapply Hseal.
Qed.

Lemma right_most_sealed lh d F L a :
  F ≠ [] → layers_ok lh d F L → frontier 0 a L → a ≤ length F - 1 → sealed (right_most L).
Proof.
  intros HF Hok [_ Hk] Ha h p x Hp.
  apply right_most_lookup in Hp as (l & Hl & Hp & Hx); [|intros ??; by eapply layers_nonempty].
  eapply (Hk h l p); [done|lia| |done].
  rewrite (consistent_length _ _ (lok_layer _ _ _ _ Hok h l Hl)), length_ideal in Hp.
  pose proof (div_le_mono_pow a (length F - 1) h Ha).
  assert (width (length F) h ≤ p + 1) as Hw%width_le by lia.
  assert ((length F - 1) / 2 ^ h ≤ p); [|lia].
  assert ((length F - 1) / 2 ^ h < p + 1); [|lia]. apply Nat.Div0.div_lt_upper_bound.
  assert (0 < length F) by (destruct F; [done|simpl; lia]). lia.
Qed.

Lemma sim_commit lh d F a vs s t :
  F ≠ [] → (∀ s', is_Some (vs !! s') → s' < s ∧ is_Some (vs !! (s - 1))) →
  refines lh d (Log F a vs) t →
  wp (commit (Some s))
    (λ _ t', refines lh d (Log F a (<[s := (F, bool_decide (a ≤ length F - 1))]> vs)) t') t.
Proof.
  intros HF Hs (Hlh & L & Hi & Hvs). simpl in *.
  destruct (commit_spec d F a L t s Hi HF) as (r & Hr & Hc).
  eapply wp_of_run; [exact Hc|]. split; [done|]. exists L.
  pose proof Hi as [Hd Hrep Hok Hf Ha]. split; [by split|]. rewrite Hlh in Hok, Hr.
  destruct Hvs as [Hdom Hvok Hpair Hcont Hroot]. simpl in *.
  assert (∀ s', is_Some (vs !! s') → s' ≠ s) as Hnew by (intros s' Hs'; destruct (Hs s' Hs'); lia).
  split; simpl.
  - intros s'. destruct (decide (s' = s)) as [->|]; [by rewrite !lookup_insert_eq|].
    by rewrite !lookup_insert_ne.
  - intros s' dl Fw b. destruct (decide (s' = s)) as [->|].
    + rewrite !lookup_insert_eq. intros [= <-] [= <- <-]. simpl. split_and!.
      * apply version_ok_current; [done|done|]. by eapply frontier_mono.
      * apply agrees_refl.
      * intros Hb%bool_decide_eq_true. by eapply right_most_sealed.
    + rewrite !lookup_insert_ne by done. apply Hvok.
  - intros s1 s2 dl Fw b Fw' b' Hlt. destruct (decide (s1 = s)) as [->|].
    + rewrite (lookup_insert_ne _ s s2) by lia. intros _ _ Hv2.
      destruct (Hs s2); [by eexists|lia].
    + rewrite !(lookup_insert_ne _ s s1) by done. intros Hd1 Hv1.
      destruct (decide (s2 = s)) as [->|].
      * rewrite lookup_insert_eq. intros [= <- <-]. by eapply Hvok.
      * rewrite lookup_insert_ne by done. by eapply Hpair.
  - intros s1 s2 s3 H12 H23 Hs1 Hs3. destruct (decide (s2 = s)) as [->|]; [by rewrite lookup_insert_eq|].
    rewrite lookup_insert_ne by done. assert (s1 ≠ s) as Hne1.
    { intros ->. rewrite lookup_insert_ne in Hs3 by lia. destruct (Hs s3 Hs3). lia. }
    rewrite lookup_insert_ne in Hs1 by done. destruct (decide (s3 = s)) as [->|].
    + destruct (decide (s2 = s - 1)) as [->|]; [by eapply Hs|].
      apply (Hcont s1 s2 (s - 1)); [done|lia|done|]. by eapply Hs.
    + rewrite lookup_insert_ne in Hs3 by done. by eapply Hcont.
  - intros r' s' [(<- & <-)|(Hne & Hrm)]%lookup_insert_Some.
    + exists F, (bool_decide (a ≤ length F - 1)). by rewrite lookup_insert_eq.
    + destruct (Hroot r' s' Hrm) as (Fw & b & Hv & Hir). exists Fw, b. split; [|done].
      rewrite lookup_insert_ne; [done|]. intros ->. by destruct (Hnew s'); [eexists|].
Qed.

(** Going back to a version and then to an older one is going back to the
    older one. *)
Lemma version_reverted lh d F Fv L rv rmn Fw :
  1 ≤ d → layers_ok lh d F L → version_ok lh d L rv Fv → agrees rv Fv F →
  version_ok lh d L rmn Fw → agrees rmn Fw F → length Fw ≤ length Fv →
  version_ok lh d (reverted rv L) rmn Fw.
Proof.
  intros Hd Hok Hv Hag Hw Hagw Hle.
  pose proof (reverted_ok _ _ _ _ _ _ Hd Hok Hv Hag) as Hokv.
  pose proof (version_height _ _ _ _ _ _ Hok Hw Hagw) as Hhw.
  pose proof Hw as [Hne Hkn Hl Hlast Hf]. split; try done.
  rewrite (reverted_ext rmn L (reverted rv L)); [done|done| |].
  - rewrite (lok_depth _ _ _ _ Hokv), Hl. by apply depth_of_mono.
  - intros h p x l l' Hp Hll Hll'. destruct (Hlast h p x Hp) as [Hpw _].
    pose proof (version_layer _ _ _ _ _ _ Hok Hw Hagw h p x l Hp Hll) as Hpl.
    rewrite (consistent_length _ _ (lok_layer _ _ _ _ Hokv h l' Hll')), length_ideal.
    pose proof (width_mono _ _ h Hle). split_and!; [lia|lia|].
    apply lookup_reverted in Hll' as (pv & xv & lv & Hpv & Hlv & ->). simplify_eq.
    destruct (vo_last _ _ _ _ _ Hv h pv xv Hpv) as [Hpvw _].
    pose proof (version_layer _ _ _ _ _ _ Hok Hv Hag h pv xv l Hpv Hll) as Hplv.
    rewrite reverted_layer by done. rewrite take_app_le by (rewrite length_take; lia).
    by rewrite take_take, Nat.min_l by lia.
Qed.

Lemma delta_root_ideal lh d L rmn Fw r :
  1 ≤ d → version_ok lh d L rmn Fw → length rmn ≤ length L →
  (∀ h p x l, rmn !! h = Some (p, x) → L !! h = Some l → p + 1 ≤ length l) →
  ideal_root lh d Fw = Some r → rmn ≠ [] ∧ delta_root (DeltaNodes_mk rmn) = Ok r.
Proof.
  intros Hd Hv HL Hlay Hr.
  destruct (proj1 (depth_of_spec d (length Fw) (length rmn) Hd) (vo_len _ _ _ _ _ Hv)) as (Hdl&Htop&_).
  split; [intros ->; simpl in Hdl; lia|]. unfold delta_root. simpl.
  destruct (last rmn) as [[p x]|] eqn:Hlast; simpl; cycle 1.
  { apply last_None in Hlast. subst rmn. simpl in Hdl. lia. }
  f_equal. rewrite last_lookup in Hlast.
  destruct (vo_last _ _ _ _ _ Hv _ _ _ Hlast) as [Hpw Hx].
  pose proof (lookup_lt_Some _ _ _ Hlast) as Hlt.
  replace (pred (length rmn)) with (length rmn - 1) in * by lia.
  pose proof (proj2 (width_le_1 (length Fw) (length rmn - 1)) Htop) as Hw1.
  assert (p = 0) as -> by lia.
  destruct Hx as [->|Hx].
  - exfalso. destruct (vo_frontier _ _ _ _ _ Hv) as [Hp Hk].
    destruct (lookup_lt_is_Some_2 L (length rmn - 1)) as [l Hl]; [lia|].
    assert (reverted rmn L !! (length rmn - 1) = Some (<[0 := null]> (take (0 + 1) l))) as Hrl
      by (apply lookup_reverted; by exists 0, null, l).
    pose proof (Hlay _ _ _ _ Hlast Hl) as Hll.
    assert (<[0 := null]> (take (0 + 1) l) !! 0 = Some null) as Hnull
      by (apply list_lookup_insert_eq; rewrite length_take; lia).
    pose proof (pow2_pos (length rmn - 1)).
    destruct (decide (length Fw = 2 ^ (length rmn - 1))) as [Heq|Hne].
    + eapply (Hp _ _ null Hrl); [lia| | |done]; rewrite Heq, Nat.div_same by lia; done.
    + eapply (Hk _ _ 0 null Hrl); [lia| |done|done]. rewrite Nat.div_small; lia.
  - unfold ideal_root in Hr. rewrite <-(vo_len _ _ _ _ _ Hv), head_lookup, Hx in Hr. congruence.
Qed.

(** With contiguous versions, [clear_after s] removes all versions after [s]. *)
Lemma clear_after_contiguous (dm dm' : gmap nat (DeltaNodes E)) (rm rm' : gmap E nat) s :
  (∀ s1 s2 s3, s1 < s2 → s2 < s3 → is_Some (dm !! s1) → is_Some (dm !! s3) → is_Some (dm !! s2)) →
  is_Some (dm !! s) →
  clear_after_loop (S (size dm)) (s + 1) dm rm = Ok (dm', rm') →
  (∀ s', dm' !! s' = if decide (s' ≤ s) then dm !! s' else None) ∧
  (∀ r q, rm' !! r = Some q → rm !! r = Some q ∧
     ∀ s' dl, s < s' → dm !! s' = Some dl → right_most_nodes dl ≠ [] → delta_root dl ≠ Ok r).
Proof.
  intros Hcont Hs Hc.
  destruct (clear_after_loop_spec (S (size dm)) (s + 1) dm rm)
    as (hi & dm1 & rm1 & Hc' & Hle & Hhi & Hall & Hdm & Hrm); [lia|].
  rewrite Hc in Hc'. injection Hc' as <- <-.
  assert (∀ s' dl, dm !! s' = Some dl → s < s' → s' < hi) as Hlt.
  { intros s' dl Hs' Hgt. destruct (decide (s' < hi)) as [|Hge]; [done|exfalso].
    assert (is_Some (dm !! hi)) as [? ?]; [|congruence].
    destruct (decide (s' = hi)) as [->|]; [by eexists|].
    apply (Hcont s hi s'); [lia|lia|done|by eexists]. }
  split.
  - intros s'. rewrite Hdm. repeat case_decide; try (done || lia).
    destruct (dm !! s') as [dl|] eqn:Hs'; [|done]. specialize (Hlt s' dl Hs' ltac:(lia)). lia.
  - intros r q Hq. destruct (Hrm r q Hq) as [Hq' Hroots]. split; [done|].
    intros s' dl Hgt Hs'. apply (Hroots s' dl); [lia|by eapply Hlt|done].
Qed.

Lemma sim_revert_to lh d F a vs s Fw b t :
  F ≠ [] → vs !! s = Some (Fw, b) → refines lh d (Log F a vs) t →
  wp (revert_to s) (λ _ t',
    refines lh d (Log Fw (length Fw) (filter (λ sv, sv.1 ≤ s) vs)) t') t.
Proof.
  intros HF Hs (Hlh & L & Hi & Hvs). simpl in *. pose proof Hvs as [Hdom Hvok Hpair Hcont Hroot].
  simpl in *. destruct (proj2 (Hdom s)) as [[rmn] Hdl]; [by eexists|].
  destruct (Hvok s _ _ _ Hdl Hs) as (Hv & Hag & _). simpl in Hv, Hag.
  eapply wp_mono; [eapply revert_to_spec; try done; by rewrite Hlh|].
  intros [] t' (Hi' & Hlh' & Hmd & Hc). split; [congruence|].
  exists (reverted rmn L). split; [done|].
  apply clear_after_contiguous in Hc as [Hdm' Hrm]; [| |by eexists]; cycle 1.
  { intros s1 s2 s3 H12 H23 Hs1%Hdom Hs3%Hdom. apply Hdom. by eapply Hcont. }
  assert (∀ s' v, filter (λ sv, sv.1 ≤ s) vs !! s' = Some v ↔ s' ≤ s ∧ vs !! s' = Some v)
    as Hfil by (intros s' v; rewrite map_lookup_filter_Some; simpl; tauto).
  pose proof Hi as [Hd Hrep Hok Hf Ha]. rewrite Hlh in Hok.
  split; simpl.
  - intros s'. rewrite Hdm'. case_decide as Hs'.
    + rewrite Hdom. split; intros [v Hv']; exists v; [by apply Hfil|by apply Hfil in Hv' as [_ ?]].
    + split; [by intros [??]|]. by intros [v [? _]%Hfil].
  - intros s' dl Fw' b'. rewrite Hdm'. case_decide as Hs'; [|done].
    intros Hdl' [_ Hv']%Hfil. destruct (Hvok s' dl Fw' b' Hdl' Hv') as (Hvo & Hag' & Hse).
    destruct (decide (s' = s)) as [->|].
    + assert (Fw' = Fw) as -> by congruence. assert (dl = DeltaNodes_mk rmn) as -> by congruence.
      split_and!; [|apply agrees_refl|done]. by eapply (version_reverted lh d F Fw).
    + pose proof (Hpair s' s dl Fw' b' Fw b ltac:(lia) Hdl' Hv' Hs) as Hagw.
      split_and!; [|done|done]. eapply (version_reverted lh d F Fw); try done. apply Hagw.
  - intros s1 s2 dl Fw1 b1 Fw2 b2 Hlt. rewrite Hdm'. case_decide; [|done].
    intros Hdl1 [_ Hv1]%Hfil [_ Hv2]%Hfil. by eapply Hpair.
  - intros s1 s2 s3 H12 H23 [v1 [_ Hv1]%Hfil] [v3 [Hs3 Hv3]%Hfil].
    destruct (Hcont s1 s2 s3 H12 H23) as [v2 Hv2]; [by eexists..|].
    exists v2. apply Hfil. split; [lia|done].
  - intros r q Hq. destruct (Hrm r q Hq) as [Hq0 Hrem].
    destruct (Hroot r q Hq0) as (Fq & bq & Hvq & Hrq). exists Fq, bq. split; [|done].
    apply Hfil. split; [|done]. destruct (decide (q ≤ s)) as [|Hgt]; [done|exfalso].
    destruct (proj2 (Hdom q)) as [[rq] Hdq]; [by eexists|].
    destruct (Hvok q _ _ _ Hdq Hvq) as (Hvo & Hagq & _). simpl in Hvo, Hagq.
    destruct (delta_root_ideal lh d L rq Fq r) as [Hne Hdr]; try done.
    + by eapply version_height.
    + intros h p x l. by eapply (version_layer lh d F Fq).
    + by apply (Hrem q _ ltac:(lia) Hdq).
Qed.

End refine.
