(* ===== verification/TreeSpec.v ===== *)
(** The theorems about [AppendMerkleTree] as a whole: the constructors, the
    simulation of the log, and what it means for roots and proofs of the
    current tree and of old versions. *)

From S2P Require Import Prelude HashElement MerkleSpec MerkleProof MerkleProofComplete.
From S2P Require Import NodeStore AppendMerkle TreeRules Recompute TreeOps.
From S2P Require Import TreeFill TreeHistory TreeRefine.

Section spec.
Context `{AlgorithmLaws E, !NodeStore NM E, !NodeStoreLaws NM E}.
Local Abbreviation tree := (AppendMerkleTree NM E).
Implicit Types (t : tree) (A : log E) (F Fw : list E) (L : list (list E)) (l : list E).

(** ** Reachable trees *)

(** The trees that the constructors return, and what the operations make of
    them, with the log that they implement. *)
Inductive reaches (lh d : nat) : log E → tree → Prop :=
  | reaches_new lvs t :
      d = 1 → Forall (λ x, x ≠ null) lvs → tree_new lvs lh None = Ok t →
      reaches lh d (Log lvs 0 ∅) t
  | reaches_new_with_depth lvs t :
      lh = 0 → 1 ≤ d → Forall (λ x, x ≠ null) lvs → new_with_depth lvs d None = Ok t →
      reaches lh d (Log lvs 0 ∅) t
  | reaches_open s L F a t :
      d = 1 → rep s false L → layers_ok lh 1 F L → frontier 0 a L → a ≤ length F →
      new_with_subtrees (Ok s) lh = Ok t → reaches lh d (Log F a ∅) t
  | reaches_create s t :
      d = 1 → rep s false [] → new_with_subtrees (Ok s) lh = Ok t → reaches lh d (Log [] 0 ∅) t
  | reaches_step A m A' t t' :
      reaches lh d A t → log_step lh d A m A' → m t = (Ok tt, t') → reaches lh d A' t'.

(** The trees that only ever got single leaves. *)
Inductive grown (lh d : nat) : list E → tree → Prop :=
  | grown_new lvs t :
      d = 1 → Forall (λ x, x ≠ null) lvs → tree_new lvs lh None = Ok t → grown lh d lvs t
  | grown_new_with_depth lvs t :
      lh = 0 → 1 ≤ d → Forall (λ x, x ≠ null) lvs → new_with_depth lvs d None = Ok t →
      grown lh d lvs t
  | grown_append F x t t' :
      grown lh d F t → x ≠ null → append x t = (Ok tt, t') → grown lh d (F ++ [x]) t'
  | grown_append_list F xs t t' :
      grown lh d F t → Forall (λ x, x ≠ null) xs → append_list xs t = (Ok tt, t') →
      grown lh d (F ++ xs) t'
  | grown_update_last F x t t' :
      grown lh d F t → x ≠ null → update_last x t = (Ok tt, t') →
      grown lh d (take (length F - 1) F ++ [x]) t'.

(** ** Constructors *)

Lemma empty_layers_ok lh d : 1 ≤ d → layers_ok lh d [] (replicate d []).
Proof.
  intros Hd. split; [|done|].
  { rewrite length_replicate. unfold depth_of. cbn [length]. rewrite Nat.log2_up_eqn0 by lia. lia. }
  intros h l [-> _]%lookup_replicate. split; [by rewrite length_ideal, width_0|].
  intros i x. by rewrite lookup_nil.
Qed.

Lemma empty_frontier d : frontier 0 0 (replicate d []).
Proof.
  split.
  - intros h l x [-> _]%lookup_replicate. by rewrite lookup_nil.
  - intros h l i x [-> _]%lookup_replicate. by rewrite lookup_nil.
Qed.

Lemma wp_add_layers t0 L t a n (Q : () → tree → Prop) :
  tree_at t0 true L t → (∀ t', tree_at t0 true (L ++ replicate n []) t' → Q tt t') →
  wp (for_each (List.seq a n) (λ _, nm nm_add_layer)) Q t.
Proof.
  revert L t a. induction n as [|n IH]; intros L t a Hat HQ.
  - apply wp_ret, HQ. by rewrite app_nil_r.
  - cbn [List.seq for_each]. apply wp_bind. eapply wp_add_layer; [done|]. intros t1 Hat1.
    eapply (IH (L ++ [[]])); [done|]. intros t2. rewrite <-app_assoc. apply HQ.
Qed.

Lemma versions_empty lh d L F a t :
  delta_nodes_map t = ∅ → root_to_tx_seq_map t = ∅ → versions_ok lh d L (Log F a ∅) t.
Proof.
  intros Hd Hr. split; simpl; rewrite ?Hd, ?Hr; intros *; rewrite ?lookup_empty;
    (done || by intros ?? [??]).
Qed.

(** A constructor that put the leaves into the lowest of [d] layers. *)
Lemma wp_construct d lvs t0 t :
  1 ≤ d → Forall (λ x, x ≠ null) lvs →
  tree_at t0 true (<[0 := lvs]> (replicate d [])) t →
  wp (_ ← recompute 0 0 None; nm nm_commit)
    (λ _ t', same_versions t0 t' ∧ ∃ L', tree_inv d lvs 0 L' t') t.
Proof.
  intros Hd Hk Hat.
  eapply wp_mono; [eapply (wp_finish_leaves d 0 [] lvs (replicate d []) []); try done; simpl; try lia|].
  - by apply empty_layers_ok.
  - apply empty_frontier.
  - by destruct d; [lia|].
  - intros [] t' (Hs & L' & Hi & _). eauto.
Qed.

Lemma wp_insert_empty_version_None t (Q : () → tree → Prop) :
  Q tt t → wp (insert_empty_version None) Q t.
Proof. intros HQ. by apply wp_ret. Qed.

Lemma build_wp (m : M tree ()) t (Q : tree → Prop) :
  wp m (λ _ t', Q t') t → ∃ t', build m t = Ok t' ∧ Q t'.
Proof. intros (u & t' & Hm & HQ)%wp_run. exists t'. unfold build. by rewrite Hm. Qed.

Lemma tree_new_spec lvs lh :
  Forall (λ x, x ≠ null) lvs →
  ∃ t, tree_new lvs lh None = Ok t ∧ refines lh 1 (Log lvs 0 ∅) t.
Proof.
  intros Hk. set (t0 := Tree_mk (nm_new_dummy (NodeStore := NodeStore0)) ∅ ∅ None lh : tree).
  unfold tree_new. apply build_wp. fold t0.
  assert (tree_at t0 false [] t0) as Hat0 by apply tree_at_init, rep_new_dummy.
  apply wp_bind. eapply wp_start; [done|]. intros t1 Hat1.
  apply wp_bind. eapply wp_add_layer; [done|]. intros t2 Hat2.
  apply wp_bind. eapply wp_append_nodes; [done|done|]. intros t3 Hat3. simpl in Hat3.
  apply wp_bind. eapply wp_get_layer_len; [done|done|].
  case_bool_decide as Hn.
  - destruct lvs; [|done]. apply wp_bind, wp_insert_empty_version_None.
    eapply wp_commit_tx; [done|]. intros t4 Hat4.
    destruct (tree_at_same _ _ _ _ Hat4) as (Hd & Hr & _ & Hlh).
    split; [by rewrite Hlh|]. exists [[]]. split; [|by apply versions_empty].
    eapply tree_at_inv; [lia|done|rewrite <-Hlh|..]; simpl.
    + by apply (empty_layers_ok _ 1).
    + apply (empty_frontier 1).
    + lia.
  - apply wp_assoc. eapply wp_bind_mono; [apply (wp_construct 1 lvs t0); [lia|done|done]|].
    intros [] t4 ((Hd & Hr & _ & Hlh) & L & Hi). apply wp_ret. split; [by rewrite Hlh|].
    exists L. split; [done|]. by apply versions_empty.
Qed.

Lemma new_with_depth_spec lvs d :
  1 ≤ d → Forall (λ x, x ≠ null) lvs →
  ∃ t, new_with_depth lvs d None = Ok t ∧ refines 0 d (Log lvs 0 ∅) t.
Proof.
  intros Hd Hk. set (t0 := Tree_mk (nm_new_dummy (NodeStore := NodeStore0)) ∅ ∅ (Some d) 0 : tree).
  unfold new_with_depth. apply build_wp. fold t0.
  assert (tree_at t0 false [] t0) as Hat0 by apply tree_at_init, rep_new_dummy.
  apply wp_bind. eapply wp_start; [done|]. intros t1 Hat1. case_bool_decide as Hn.
  - destruct lvs; [|done]. apply wp_bind. eapply wp_add_layers; [done|]. intros t2 Hat2. simpl in Hat2.
    apply wp_bind, wp_insert_empty_version_None. eapply wp_commit_tx; [done|]. intros t4 Hat4.
    destruct (tree_at_same _ _ _ _ Hat4) as (Hd4 & Hr4 & _ & Hlh4).
    split; [by rewrite Hlh4|]. exists (replicate d []). split; [|by apply versions_empty].
    eapply tree_at_inv; [done|done| |apply empty_frontier|simpl; lia].
    rewrite <-Hlh4. by apply empty_layers_ok.
  - apply wp_bind. eapply wp_add_layer; [done|]. intros t2 Hat2.
    apply wp_bind. eapply wp_append_nodes; [done|done|]. intros t3 Hat3. simpl in Hat3.
    apply wp_bind. eapply wp_add_layers; [done|]. intros t4 Hat4.
    assert ([lvs] ++ replicate (d - 1) [] = <[0 := lvs]> (replicate d [])) as Heq.
    { destruct d; [lia|]. simpl. by rewrite Nat.sub_0_r. }
    rewrite Heq in Hat4.
    apply wp_assoc. eapply wp_bind_mono; [by apply (wp_construct d lvs t0)|].
    intros [] t5 ((Hd5 & Hr5 & _ & Hlh5) & L & Hi). apply wp_ret. split; [by rewrite Hlh5|].
    exists L. split; [done|]. by apply versions_empty.
Qed.

(** Opening a store that holds the layers of [F]. *)
Lemma new_with_subtrees_open s lh L F a :
  rep s false L → layers_ok lh 1 F L → frontier 0 a L → a ≤ length F →
  ∃ t, new_with_subtrees (Ok s) lh = Ok t ∧ refines lh 1 (Log F a ∅) t ∧ node_manager t = s.
Proof.
  intros Hr Hok Hf Ha. set (t0 := Tree_mk s ∅ ∅ None lh : tree). exists t0.
  assert (1 ≤ length L) as HL.
  { rewrite (lok_depth _ _ _ _ Hok). unfold depth_of. lia. }
  split_and!; [|split; [done|]; exists L; split; [by split|by apply versions_empty]|done].
  unfold new_with_subtrees. rewrite bind_Ok. unfold build, mbind, M_bind, get_height, gets. cbn.
  rewrite (rep_num_layers _ _ _ Hr), bool_decide_false by lia. done.
Qed.

(** Opening an empty store. *)
Lemma new_with_subtrees_create s lh :
  rep s false [] → ∃ t, new_with_subtrees (Ok s) lh = Ok t ∧ refines lh 1 (Log [] 0 ∅) t.
Proof.
  intros Hr. set (t0 := Tree_mk s ∅ ∅ None lh : tree).
  unfold new_with_subtrees. rewrite bind_Ok. apply build_wp. fold t0.
  assert (tree_at t0 false [] t0) as Hat0 by by apply tree_at_init.
  apply wp_bind. eapply wp_get_height; [done|]. cbn [length]. rewrite bool_decide_true by done.
  unfold when. apply wp_bind. eapply wp_start; [done|]. intros t1 Hat1.
  apply wp_bind. eapply wp_add_layer; [done|]. intros t2 Hat2.
  eapply wp_commit_tx; [done|]. intros t3 Hat3.
  destruct (tree_at_same _ _ _ _ Hat3) as (Hd & Hrt & _ & Hlh).
  split; [by rewrite Hlh|]. exists [[]]. split; [|by apply versions_empty].
  eapply tree_at_inv; [lia|done|rewrite <-Hlh; by apply (empty_layers_ok _ 1)|
    apply (empty_frontier 1)|simpl; lia].
Qed.

(** ** The simulation *)

Lemma sim_step lh d A m A' t :
  refines lh d A t → log_step lh d A m A' → wp m (λ _ t', refines lh d A' t') t.
Proof.
  intros Href Hst. pose proof Href as (Hlh & L & Hi & Hvs).
  destruct Hst as [F a vs x Hx|F a vs xs Hxs|F a vs k rt G Hm Hst|F a vs x Hx|F a vs ls Gs Hst|
    F a vs x Hx Ha Hs|F a vs i x Hx|F a vs r Hl Hr|F a vs s HF Hs|F a vs s Fw b HF Hs]; simpl in *.
  - eapply wp_mono; [by eapply append_spec|]. intros [] t' (Hs & L' & Hi' & Hk).
    by eapply (refines_append lh d L L' F a vs [x]).
  - eapply wp_mono; [by eapply append_list_spec|]. intros [] t' (Hs & L' & Hi' & Hk).
    by eapply refines_append.
  - rewrite <-Hlh in Hst. eapply wp_mono; [by eapply append_subtree_spec|].
    intros [] t' (Hs & L' & Hi' & Hk & _). by eapply refines_append.
  - eapply wp_mono; [by eapply (append_leaf_spec _ _ _ _ x)|]. intros [] t' (Hs & L' & Hi' & Hk).
    by eapply refines_append.
  - rewrite <-Hlh in Hst. eapply wp_mono; [by eapply append_subtree_list_spec|].
    intros [] t' (Hs & L' & Hi' & Hk). by eapply refines_append.
  - by eapply sim_update_last.
  - eapply wp_mono; [by eapply fill_leaf_spec|]. intros [] t' (Hs & L' & l & Hi' & Hm & _).
    by eapply (refines_filled lh d L L' F a vs t t').
  - rewrite <-(lok_depth _ _ _ _ (ti_ok _ _ _ _ _ Hi)), <-Hlh in Hl, Hr.
    apply wp_bind. eapply wp_mono; [by eapply fill_with_range_proof_spec|].
    intros u t' (Hs & L' & Hi' & Hm). apply wp_ret. by eapply (refines_filled lh d L L' F a vs t t').
  - by apply sim_commit.
  - by eapply sim_revert_to.
Qed.

Lemma reaches_refines lh d A t : reaches lh d A t → refines lh d A t.
Proof.
  induction 1 as [lvs t -> Hk Ht|lvs t -> Hd Hk Ht|s L F a t -> Hr Hok Hf Ha Ht|s t -> Hr Ht|
    A m A' t t' _ IH Hst Hrun].
  - destruct (tree_new_spec lvs lh Hk) as (t' & Ht' & Href). congruence.
  - destruct (new_with_depth_spec lvs d Hd Hk) as (t' & Ht' & Href). congruence.
  - destruct (new_with_subtrees_open s lh L F a Hr Hok Hf Ha) as (t' & Ht' & Href & _). congruence.
  - destruct (new_with_subtrees_create s lh Hr) as (t' & Ht' & Href). congruence.
  - destruct (wp_run _ _ _ (sim_step _ _ _ _ _ _ IH Hst)) as ([] & t2 & Hrun2 & Href). congruence.
Qed.

(** Growing a tree whose nodes are all known. *)
Lemma tree_inv_all d F F' a L L' t t' :
  tree_inv d F 0 L t → tree_inv d F' a L' t' → kept a L L' → tree_inv d F' 0 L' t'.
Proof.
  intros Hi Hi' [_ Hk]. destruct Hi' as [? ? ? [_ Hkn] ?]. split; try done; [|lia].
  assert (known_from 0 0 L') as HK.
  { intros h l i x Hl _ _ Hx. destruct (decide (a / 2 ^ h ≤ i)); [eapply Hkn; [done|lia|done..]|].
    specialize (Hk h l Hl). pose proof (f_equal (lookup i) Hk) as Hki.
    rewrite !lookup_take_lt, Hx in Hki by lia.
    destruct (L !! h) as [l0|] eqn:Hl0; simpl in Hki; [|done].
    eapply (proj2 (ti_frontier _ _ _ _ _ Hi) h l0 i); [done|lia| |done].
    rewrite Nat.Div0.div_0_l. lia. }
  split; [|done]. intros h l x Hl _ Hm. by rewrite Nat.Div0.div_0_l in Hm.
Qed.

Lemma grown_inv lh d F t :
  grown lh d F t → leaf_height t = lh ∧ ∃ L, tree_inv d F 0 L t.
Proof.
  induction 1 as [lvs t -> Hk Ht|lvs t -> Hd Hk Ht|F x t t' _ (Hlh & L & Hi) Hx Ht|
    F xs t t' _ (Hlh & L & Hi) Hx Ht|F x t t' _ (Hlh & L & Hi) Hx Ht].
  - destruct (tree_new_spec lvs lh Hk) as (t' & Ht' & Hlh & L & Hi & _).
    assert (t' = t) as -> by congruence. eauto.
  - destruct (new_with_depth_spec lvs d Hd Hk) as (t' & Ht' & Hlh & L & Hi & _).
    assert (t' = t) as -> by congruence. eauto.
  - destruct (wp_run _ _ _ (append_spec _ _ _ _ _ _ Hi Hx)) as (u & t2 & Ht2 & Hs & L' & Hi' & Hk).
    assert (t2 = t') as -> by congruence. split; [destruct Hs as (_ & _ & _ & ->); done|].
    exists L'. by eapply tree_inv_all.
  - destruct (wp_run _ _ _ (append_list_spec _ _ _ _ _ _ Hi Hx)) as (u & t2 & Ht2 & Hs & L' & Hi' & Hk).
    assert (t2 = t') as -> by congruence. split; [destruct Hs as (_ & _ & _ & ->); done|].
    exists L'. by eapply tree_inv_all.
  - pose proof (tree_inv_mono _ _ _ (length F - 1) _ _ Hi ltac:(lia) ltac:(lia)) as Hi1.
    destruct (wp_run _ _ _ (update_last_spec _ _ _ _ _ Hi1 Hx)) as (u & t2 & Ht2 & Hs & L' & Hi' & Hk).
    assert (t2 = t') as -> by congruence. split; [destruct Hs as (_ & _ & _ & ->); done|].
    exists L'. by eapply tree_inv_all.
Qed.

(** ** Roots and proofs *)

Lemma reads_root `{!MerkleTreeRead T E} (rt : T) lh d F L a :
  1 ≤ d → reads rt lh L → layers_ok lh d F L → frontier 0 a L → a ≤ length F → F ≠ [] →
  ∃ r, root rt = Ok r ∧ r ≠ null ∧ ideal_root lh d F = Some r.
Proof.
  intros Hd Hrd Hok Hf Ha HF.
  destruct (frontier_ideal_root _ _ _ _ _ Hd Hok Hf Ha HF) as (l & r & Hl & Hr & Hn & _ & Hir).
  exists r. split_and!; [|done|done]. unfold root.
  by rewrite (reads_height _ _ _ Hrd), (reads_node _ _ _ Hrd _ _ _ _ Hl Hr).
Qed.

Lemma reads_proof `{!MerkleTreeRead T E} (rt : T) lh d F L i p :
  1 ≤ d → reads rt lh L → layers_ok lh d F L → gen_proof rt i = Ok p →
  ∃ x r, F !! i = Some x ∧ validate p x i = Ok tt ∧ proof_root p = Ok r ∧
    ideal_root lh d F = Some r.
Proof.
  intros Hd Hrd Hok Hp.
  destruct (gen_proof_inv _ _ _ _ _ _ _ Hd Hrd Hok Hp) as (x & r & Hx & Hr & Htop & ->).
  exists x, r. split_and!; [done|by apply ideal_proof_validate|apply ideal_proof_root|].
  unfold ideal_root. by rewrite <-(lok_depth _ _ _ _ Hok), head_lookup.
Qed.

Lemma reads_range_proof `{!MerkleTreeRead T E} (rt : T) lh d F L s e rp :
  1 ≤ d → reads rt lh L → layers_ok lh d F L → gen_range_proof rt s e = Ok rp →
  s < e ∧ e ≤ length F ∧ range_validate rp (take (e - s) (drop s F)) s = Ok tt ∧
  ∃ r, range_root rp = Ok r ∧ ideal_root lh d F = Some r.
Proof.
  intros Hd Hrd Hok. unfold gen_range_proof. case_bool_decide as Hse; [done|].
  intros (pl & Hl & (pr & Hr & [= <-])%bind_Ok_inv)%bind_Ok_inv.
  destruct (gen_proof_inv _ _ _ _ _ _ _ Hd Hrd Hok Hl) as (x & r & Hx & Hrt & Htop & ->).
  destruct (gen_proof_inv _ _ _ _ _ _ _ Hd Hrd Hok Hr) as (y & r' & Hy & Hrt' & _ & ->).
  assert (r' = r) as -> by congruence.
  pose proof (lookup_lt_Some _ _ _ Hy). split_and!; [lia|lia| |].
  - replace (e - s) with (e - 1 + 1 - s) by lia.
    apply (ideal_range_validate lh); [lia|done..].
  - exists r. split; [apply ideal_proof_root|].
    unfold ideal_root. by rewrite <-(lok_depth _ _ _ _ Hok), head_lookup.
Qed.

Lemma refines_version lh d A t s Fw b :
  refines lh d A t → log_versions A !! s = Some (Fw, b) →
  ∃ ht L, at_version t s = Ok ht ∧ 1 ≤ d ∧ Fw ≠ [] ∧ reads ht lh L ∧ layers_ok lh d Fw L ∧
    frontier 0 (length Fw) L.
Proof.
  intros (Hlh & L & Hi & Hvs) Hv. destruct Hi as [Hd Hr Hok Hf Ha].
  destruct (proj2 (vs_dom _ _ _ _ _ Hvs s)) as [[rmn] Hdl]; [by eexists|].
  destruct (vs_ok _ _ _ _ _ Hvs s _ _ _ Hdl Hv) as (Hvo & Hag & _). simpl in Hvo, Hag.
  rewrite Hlh in Hok. unfold at_version. rewrite Hdl. cbn [ok_or]. rewrite bind_Ok.
  assert (rmn ≠ []) as Hne.
  { intros ->. pose proof (vo_len _ _ _ _ _ Hvo) as Hl. simpl in Hl. unfold depth_of in Hl. lia. }
  rewrite bool_decide_false by (unfold delta_height; simpl; by destruct rmn).
  rewrite Hlh. do 2 eexists. split; [done|]. split_and!; [done|apply Hvo| | |].
  - by eapply (history_reads lh d (log_leaves A) Fw).
  - by eapply hist_layers_ok.
  - eapply more_known_frontier; [|apply Hvo].
    eapply (reverted_more_known lh d (log_leaves A) Fw); done.
Qed.

End spec.
