(* ===== verification/TreeTiles.v ===== *)
(** [get_subtrees]: the known subtrees that a tree consists of.

    A tiling of the leaves is a list of consecutive aligned subtrees whose
    roots are known, as the tree got them.  Whatever else was filled in,
    [get_subtrees] returns a tiling that is at least as fine. *)

From S2P Require Import Prelude HashElement MerkleSpec MerkleProof MerkleProofComplete.
From S2P Require Import NodeStore AppendMerkle TreeRules Recompute TreeOps.

Section tiles.
Context `{AlgorithmLaws E, !NodeStore NM E, !NodeStoreLaws NM E}.
Local Abbreviation tree := (AppendMerkleTree NM E).
Implicit Types (t : tree) (F : list E) (L : list (list E)) (l : list E) (x : E) (rts acc : list (nat * E)).

(** The node of the subtree of [2 ^ k] leaves at [s] is known. *)
Definition known_at L (s k : nat) x : Prop :=
  ∃ l, L !! k = Some l ∧ l !! (s / 2 ^ k) = Some x ∧ x ≠ null.

Fixpoint tiles L (s : nat) (ks : list nat) (e : nat) : Prop :=
  match ks with
  | [] => s = e
  | k :: ks' => s `mod` 2 ^ k = 0 ∧ (∃ x, known_at L s k x) ∧ tiles L (s + 2 ^ k) ks' e
  end.

(** The same with the roots, as [get_subtrees] returns it. *)
Fixpoint placed L (s : nat) rts (e : nat) : Prop :=
  match rts with
  | [] => s = e
  | (h, x) :: rts' => 1 ≤ h ∧ s `mod` 2 ^ (h - 1) = 0 ∧ known_at L s (h - 1) x ∧ placed L (s + 2 ^ (h - 1)) rts' e
  end.

Lemma placed_app L s r1 r2 e : placed L s (r1 ++ r2) e ↔ ∃ m, placed L s r1 m ∧ placed L m r2 e.
Proof.
  revert s. induction r1 as [|[h x] r1 IH]; intros s; cbn [app placed].
  - split; [by eauto|]. by intros (m & <- & ?).
  - rewrite IH. naive_solver.
Qed.

Lemma tiles_app L s k1 k2 e : tiles L s (k1 ++ k2) e ↔ ∃ m, tiles L s k1 m ∧ tiles L m k2 e.
Proof.
  revert s. induction k1 as [|k k1 IH]; intros s; cbn [app tiles].
  - split; [by eauto|]. by intros (m & <- & ?).
  - rewrite IH. naive_solver.
Qed.

Lemma tiles_le L s ks e : tiles L s ks e → s ≤ e.
Proof.
  revert s. induction ks as [|k ks IH]; intros s; cbn [tiles]; [lia|].
  intros (_ & _ & Ht%IH). lia.
Qed.

Lemma placed_le L s rts e : placed L s rts e → s + length rts ≤ e.
Proof.
  revert s. induction rts as [|[h x] rts IH]; intros s; cbn [placed length]; [lia|].
  intros (_ & _ & _ & Hp%IH). pose proof (pow2_pos (h - 1)). lia.
Qed.

(** The tile of a leaf. *)
Lemma tiles_find L s ks e i :
  tiles L s ks e → s ≤ i < e →
  ∃ s' k x, s' `mod` 2 ^ k = 0 ∧ known_at L s' k x ∧ s' ≤ i < s' + 2 ^ k ∧ s' + 2 ^ k ≤ e ∧ s ≤ s' ∧
    ((s' = s ∧ ∃ ks', ks = k :: ks') ∨ s < s').
Proof.
  revert s. induction ks as [|k ks IH]; intros s; cbn [tiles]; [lia|].
  intros (Ha & (x & Hx) & Ht) Hi. pose proof (tiles_le _ _ _ _ Ht).
  destruct (decide (i < s + 2 ^ k)) as [Hlt|Hge].
  - exists s, k, x. split_and!; try done; try lia; left; by eauto.
  - destruct (IH _ Ht ltac:(lia)) as (s' & k' & x' & ? & ? & ? & ? & ? & _).
    exists s', k', x'. split_and!; try done; try lia; right; pose proof (pow2_pos k); lia.
Qed.

(** Dyadic intervals are nested or disjoint. *)
Lemma dyadic_cut m j r h n :
  m `mod` 2 ^ j = 0 → r `mod` 2 ^ h = 0 → m < r → r < m + 2 ^ j → m + 2 ^ j ≤ n → n < r + 2 ^ h → False.
Proof.
  intros Hm Hr Hlo Hhi Hn Hcov. pose proof (pow2_pos j). pose proof (pow2_pos h).
  destruct (decide (j ≤ h)) as [Hle|Hgt].
  - apply (aligned_le _ _ _ Hr) in Hle as Hrj. apply Nat.Lcm0.mod_divide in Hm as [p ->], Hrj as [q ->].
    generalize dependent (2 ^ j). intros w **. assert (p < q) by nia. nia.
  - assert (m `mod` 2 ^ h = 0) as Hmh by (eapply aligned_le; [exact Hm|lia]).
    assert ((2 ^ j) `mod` 2 ^ h = 0) as Hjh.
    { replace j with (j - h + h) by lia. rewrite Nat.pow_add_r. apply Nat.Div0.mod_mul. }
    apply Nat.Lcm0.mod_divide in Hmh as [p Hp], Hr as [q Hq], Hjh as [u Hu].
    rewrite Hu in *. subst. generalize dependent (2 ^ h). intros w **. assert (q < p + u) by nia. nia.
Qed.

Lemma pop_spec L acc n next r h :
  placed L 0 (reverse acc) next → r < next ≤ n → r `mod` 2 ^ h = 0 → n < r + 2 ^ h →
  ∃ p acc', pop_subtrees acc next r = (r, acc') ∧ placed L 0 (reverse acc') r ∧ acc = p ++ acc'.
Proof.
  intros Hp Hr Ha Hn. revert next Hp Hr.
  induction acc as [|[hl x] acc IH]; intros next Hp Hr; [cbn in Hp; lia|].
  rewrite reverse_cons in Hp. apply placed_app in Hp as (m & Hp & Hh & Hm & Hx & Hnext). cbn in Hnext.
  cbn [pop_subtrees fst]. replace (next - 2 ^ (hl - 1)) with m by lia. pose proof (pow2_pos (hl - 1)).
  case_bool_decide as Heq.
  - subst m. by exists [(hl, x)], acc.
  - destruct (decide (m < r)) as [Hlt|Hge].
    { exfalso. eapply (dyadic_cut m (hl - 1) r h n); try done; lia. }
    destruct (IH m Hp ltac:(lia)) as (p & acc' & Hpop & Hp' & ->). by exists ((hl, x) :: p), acc'.
Qed.

(** ** The first known ancestor *)

Lemma first_known_spec d F L a t i s k x :
  tree_inv d F a L t → i < length F → known_at L s k x → s `mod` 2 ^ k = 0 → s ≤ i < s + 2 ^ k →
  ∃ h y, h ≤ k ∧ first_known_root_at t i = Ok (S h, y) ∧ known_at L i h y.
Proof.
  intros Hi Hlt (lk & Hlk & Hx & Hnx) Hs Hin. pose proof (rep_reads _ _ _ (ti_rep _ _ _ _ _ Hi)) as Hr.
  pose proof (lookup_lt_Some _ _ _ Hlk) as Hkl.
  assert (s / 2 ^ k = i / 2 ^ k) as Hik.
  { pose proof (pow2_pos k). apply Nat.Lcm0.mod_divide in Hs as [q ->].
    rewrite Nat.div_mul by lia. apply Nat.div_unique with (i - q * 2 ^ k); lia. }
  rewrite Hik in Hx. unfold first_known_root_at. rewrite (reads_height _ _ _ Hr).
  assert (∀ m h, m = k - h → h ≤ k → ∃ h' y, h' ≤ k ∧
    first_known_root_loop t (length L - h) h (i / 2 ^ h) = Ok (S h', y) ∧ known_at L i h' y) as Hloop.
  { induction m as [|m IH]; intros h Hm Hh.
    all: destruct (length L - h) as [|fuel] eqn:Hf; [lia|]; cbn [first_known_root_loop].
    - assert (h = k) as -> by lia. rewrite (reads_node _ _ _ Hr k lk _ x), bind_Ok by done.
      rewrite (proj2 (is_null_false x) Hnx). exists k, x. split_and!; [done..|]. by exists lk.
    - destruct (lookup_lt_is_Some_2 L h) as [lv Hlv]; [lia|].
      destruct (lookup_lt_is_Some_2 lv (i / 2 ^ h)) as [y Hy].
      { rewrite (consistent_length _ _ (lok_layer _ _ _ _ (ti_ok _ _ _ _ _ Hi) h lv Hlv)), length_ideal.
        apply width_spec. pose proof (Nat.Div0.mul_div_le i (2 ^ h)). lia. }
      rewrite (reads_node _ _ _ Hr h lv _ y), bind_Ok by done. destruct (is_null y) eqn:Hny.
      + destruct (IH (S h) ltac:(lia) ltac:(lia)) as (h' & z & Hh' & Hfk & Hz).
        exists h', z. split_and!; [done| |done]. rewrite <-Hfk. rewrite Nat.Div0.div_div.
        replace (2 ^ h * 2) with (2 ^ S h) by (cbn; lia). f_equal. lia.
      + exists h, y. split_and!; [done..|]. exists lv. split_and!; [done..|]. by apply is_null_false. }
  specialize (Hloop k 0 ltac:(lia) ltac:(lia)). by rewrite Nat.sub_0_r, Nat.div_1_r in Hloop.
Qed.

(** ** [get_subtrees] *)

(** The subtree of a leaf starts where the tree was cut, or inside of it. *)
Lemma aligned_start i h s k :
  h ≤ k → s `mod` 2 ^ k = 0 → s ≤ i < s + 2 ^ k →
  let r := i / 2 ^ h * 2 ^ h in r `mod` 2 ^ h = 0 ∧ s ≤ r ≤ i ∧ i < r + 2 ^ h ∧ r + 2 ^ h ≤ s + 2 ^ k.
Proof.
  intros Hh Hs Hi r. pose proof (pow2_pos h). pose proof (Nat.div_mod_eq i (2 ^ h)).
  pose proof (Nat.mod_upper_bound i (2 ^ h) ltac:(lia)).
  assert (s `mod` 2 ^ h = 0) as Hsh by by eapply aligned_le.
  assert ((2 ^ k) `mod` 2 ^ h = 0) as Hkh.
  { replace k with (k - h + h) by lia. rewrite Nat.pow_add_r. apply Nat.Div0.mod_mul. }
  apply Nat.Lcm0.mod_divide in Hsh as [p Hp], Hkh as [u Hu]. subst r. split; [apply Nat.Div0.mod_mul|].
  rewrite Hu in *. subst s. clear Hu Hs. generalize dependent i. generalize dependent (2 ^ h). intros w Hw i **.
  assert (p ≤ i / w) by nia. assert (i / w < p + u) by nia. nia.
Qed.

Lemma get_subtrees_loop_spec d F L a t ks fuel next acc :
  tree_inv d F a L t → tiles L 0 ks (length F) → placed L 0 (reverse acc) next → next ≤ length F →
  length F - next < fuel →
  (∀ ks', ks = 0 :: ks' → 0 < next → ∃ x, last acc = Some (1, x)) →
  ∃ rts, get_subtrees_loop t fuel next acc = Ok rts ∧ placed L 0 rts (length F) ∧
    ∀ ks', ks = 0 :: ks' → 0 < length F → ∃ x, head rts = Some (1, x).
Proof.
  intros Hi Ht. revert next acc. induction fuel as [|fuel IH]; intros next acc Hp Hn Hf Hfirst; [lia|].
  cbn [get_subtrees_loop]. pose proof (rep_reads _ _ _ (ti_rep _ _ _ _ _ Hi)) as Hr.
  destruct (tree_inv_layers _ _ _ _ _ Hi) as (_ & _ & l & Hl & Hc & Hlen).
  unfold leaves. rewrite (reads_len _ _ _ Hr 0 l Hl), bind_Ok, Hlen. case_bool_decide as Hlt.
  2:{ assert (next = length F) as -> by lia. exists (reverse acc). split_and!; [done..|].
      intros ks' Hks Hpos. destruct (Hfirst ks' Hks Hpos) as [x Hx]. exists x. by rewrite head_reverse. }
  destruct (tiles_find _ _ _ _ next Ht ltac:(lia)) as (s & k & y & Hs & Hy & Hin & Hse & _ & Hstart).
  destruct (first_known_spec d F L a t next s k y Hi Hlt Hy Hs Hin) as (h & x & Hh & Hfk & Hx).
  rewrite Hfk, bind_Ok. cbn [fst]. replace (S h - 1) with h by lia.
  destruct (aligned_start next h s k Hh Hs Hin) as (Hra & Hsr & Hrn & Hre).
  set (r := next / 2 ^ h * 2 ^ h) in *.
  assert (∃ acc', (if bool_decide (r < next) then pop_subtrees acc next r else (next, acc)) = (r, acc') ∧
    placed L 0 (reverse acc') r ∧ ∀ ks', ks = 0 :: ks' → 0 < r → ∃ x, last acc' = Some (1, x))
    as (acc' & Hpop & Hp' & Hfirst').
  { case_bool_decide as Hlt'.
    - destruct (pop_spec L acc next next r h Hp ltac:(lia) Hra Hrn) as (p & acc' & Hpop & Hp' & Hacc).
      exists acc'. split_and!; [done..|]. intros ks' Hks Hpos.
      destruct (Hfirst ks' Hks ltac:(lia)) as [z Hz]. exists z. rewrite <-Hz, Hacc.
      destruct acc' as [|b acc']; [cbn in Hp'; lia|]. rewrite last_app. by destruct (last (b :: acc')) eqn:Hb; [|rewrite last_None in Hb].
    - assert (r = next) as -> by lia. exists acc. split_and!; [done..|]. intros ks' Hks Hpos. by apply (Hfirst ks'). }
  rewrite Hpop. apply IH; [|lia|lia|].
  - rewrite reverse_cons, placed_app. exists r. split; [done|]. cbn [placed]. replace (S h - 1) with h by lia.
    split_and!; [lia|done| |done]. destruct Hx as (lx & Hlx & Hx & Hnx). exists lx. split_and!; [done| |done].
    rewrite <-Hx. f_equal. subst r. pose proof (pow2_pos h). by rewrite Nat.div_mul by lia.
  - intros ks' Hks Hpos. destruct (decide (r = 0)) as [Hr0|Hr0].
    + destruct Hstart as [[-> [ks0 ->]]|]; [|lia]. injection Hks as -> _. assert (h = 0) as -> by lia.
      rewrite Hr0 in Hp'. apply placed_le in Hp'. rewrite length_reverse in Hp'.
      destruct acc'; [|cbn in Hp'; lia]. by exists x.
    + destruct (Hfirst' ks' Hks ltac:(lia)) as [z Hz]. exists z. by destruct acc'; [|rewrite last_cons_cons].
Qed.

(** All the leaves, in known subtrees; a first leaf that came alone is returned
    alone. *)
Lemma get_subtrees_spec d F L a t ks :
  tree_inv d F a L t → tiles L 0 ks (length F) →
  ∃ rts, get_subtrees t = Ok rts ∧ placed L 0 rts (length F) ∧
    ∀ ks', ks = 0 :: ks' → 0 < length F → ∃ x, head rts = Some (1, x).
Proof.
  intros Hi Ht. pose proof (rep_reads _ _ _ (ti_rep _ _ _ _ _ Hi)) as Hr.
  destruct (tree_inv_layers _ _ _ _ _ Hi) as (_ & _ & l & Hl & Hc & Hlen).
  unfold get_subtrees, leaves. rewrite (reads_len _ _ _ Hr 0 l Hl), bind_Ok, Hlen.
  apply (get_subtrees_loop_spec d F L a t ks); [done|done|done|lia|lia|lia].
Qed.

(** ** How the tiles come about *)

Lemma known_at_kept a L L' s k x : kept a L L' → s + 2 ^ k ≤ a → s `mod` 2 ^ k = 0 → k < length L' → known_at L s k x → known_at L' s k x.
Proof.
  intros [_ Hk] Hs Ha Hkl (l & Hl & Hx & Hnx). destruct (lookup_lt_is_Some_2 L' k Hkl) as [l' Hl'].
  exists l'. split_and!; [done| |done]. specialize (Hk k l' Hl'). rewrite Hl in Hk. cbn in Hk.
  assert (s / 2 ^ k < a / 2 ^ k) as Hlt.
  { pose proof (pow2_pos k). apply Nat.Lcm0.mod_divide in Ha as [q ->]. rewrite Nat.div_mul by lia.
    apply Nat.div_le_lower_bound; lia. }
  rewrite <-(lookup_take_lt l' (a / 2 ^ k)), Hk, lookup_take_lt by done. done.
Qed.

Lemma tiles_kept a L L' s ks e : kept a L L' → e ≤ a → tiles L s ks e → tiles L' s ks e.
Proof.
  intros Hk He. revert s. induction ks as [|k ks IH]; intros s; cbn [tiles]; [done|].
  intros (Ha & (x & Hx) & Ht). pose proof (tiles_le _ _ _ _ Ht). split_and!; [done| |by apply IH].
  exists x. eapply known_at_kept; [done|lia|done| |done]. destruct Hk as [Hlen _], Hx as (l & Hl & _).
  apply lookup_lt_Some in Hl. lia.
Qed.

(** Nodes that are filled in only add to what is known. *)
Lemma tiles_mono L L' s ks e :
  (∀ h l i x, L !! h = Some l → l !! i = Some x → x ≠ null → ∃ l', L' !! h = Some l' ∧ l' !! i = Some x) →
  tiles L s ks e → tiles L' s ks e.
Proof.
  intros Hm. revert s. induction ks as [|k ks IH]; intros s; cbn [tiles]; [done|].
  intros (Ha & (x & l & Hl & Hx & Hnx) & Ht). split_and!; [done| |by apply IH].
  destruct (Hm k l _ x Hl Hx Hnx) as (l' & Hl' & Hx'). exists x. by exists l'.
Qed.

(** Leaves that are appended one by one. *)
Lemma tiles_leaves L l s n :
  L !! 0 = Some l → s + n ≤ length l → known_from 0 s L → tiles L s (replicate n 0) (s + n).
Proof.
  intros Hl Hn Hk. revert s Hn Hk. induction n as [|n IH]; intros s Hn Hk; cbn [replicate tiles]; [lia|].
  change (2 ^ 0) with 1. destruct (lookup_lt_is_Some_2 l s) as [x Hx]; [lia|]. split_and!.
  - apply Nat.mod_1_r.
  - exists x, l. cbn [Nat.pow]. rewrite Nat.div_1_r. split_and!; [done..|].
    eapply (Hk 0 l s x); [done|lia| |done]. cbn [Nat.pow]. by rewrite Nat.div_1_r.
  - replace (s + S n) with (s + 1 + n) by lia. apply IH; [lia|].
    intros h l' i y Hl' Hh Hi Hy. eapply Hk; [done|done| |done].
    pose proof (div_le_mono_pow s (s + 1) h ltac:(lia)). lia.
Qed.

(** A subtree that was just appended. *)
Lemma tiles_subtree lh d F G L k rt :
  layers_ok lh d (F ++ G) L → subtree_of lh k rt G → length F `mod` 2 ^ k = 0 → frontier k (length F) L → 1 ≤ d →
  tiles L (length F) [k] (length (F ++ G)).
Proof.
  intros Hok Hst Hm [_ Hk] Hd. cbn [tiles]. rewrite length_app, (so_len _ _ _ _ Hst). split_and!; [done| |done].
  destruct (proj1 (depth_of_spec d _ (length L) Hd) (lok_depth _ _ _ _ Hok)) as (_ & Htop & _).
  rewrite length_app, (so_len _ _ _ _ Hst) in Htop. pose proof (pow2_pos k).
  assert (k < length L) as Hkl.
  { destruct (decide (k < length L)) as [|Hge]; [done|exfalso].
    assert (2 ^ (length L - 1) < 2 ^ k ∨ length L = 0) as [|] by (destruct (decide (length L = 0)); [by right|left; apply Nat.pow_lt_mono_r; lia]); [lia|].
    rewrite (lok_depth _ _ _ _ Hok) in *. unfold depth_of in *. lia. }
  destruct (lookup_lt_is_Some_2 L k Hkl) as [l Hl].
  destruct (lookup_lt_is_Some_2 l (length F / 2 ^ k)) as [x Hx].
  { rewrite (consistent_length _ _ (lok_layer _ _ _ _ Hok k l Hl)), length_ideal, length_app, (so_len _ _ _ _ Hst).
    apply width_spec. pose proof (Nat.Div0.mul_div_le (length F) (2 ^ k)). lia. }
  exists x, l. split_and!; [done..|]. by eapply (Hk k l (length F / 2 ^ k)).
Qed.

(** ** What the returned roots are *)

Lemma ideal_subtree lh F s k x :
  s `mod` 2 ^ k = 0 → s + 2 ^ k ≤ length F → Forall (λ x, x ≠ null) F →
  ideal lh F k !! (s / 2 ^ k) = Some x → subtree_of lh k x (take (2 ^ k) (drop s F)).
Proof.
  intros Hs Hle Hk Hx. pose proof (pow2_pos k).
  assert (length (take (2 ^ k) (drop s F)) = 2 ^ k) as Hlen by (rewrite length_take, length_drop; lia).
  split; [done|by apply Forall_take, Forall_drop|].
  rewrite <-(take_drop s F) in Hx. rewrite ideal_app in Hx by (by rewrite length_take, Nat.min_l by lia).
  assert (length (ideal lh (take s F) k) = s / 2 ^ k) as Hli
    by (rewrite length_ideal, length_take, Nat.min_l by lia; by apply width_aligned).
  rewrite lookup_app_r, Hli, Nat.sub_diag in Hx by lia. rewrite <-(take_drop (2 ^ k) (drop s F)) in Hx.
  rewrite ideal_app in Hx by (rewrite Hlen; apply Nat.Div0.mod_same).
  rewrite lookup_app_l in Hx; [done|]. rewrite length_ideal, Hlen. by apply width_pos.
Qed.

Lemma placed_subtree lh d F L s rts e h x :
  layers_ok lh d F L → placed L s ((h, x) :: rts) e → e ≤ length F →
  1 ≤ h ∧ s `mod` 2 ^ (h - 1) = 0 ∧ s + 2 ^ (h - 1) ≤ e ∧ subtree_of lh (h - 1) x (take (2 ^ (h - 1)) (drop s F)) ∧
  placed L (s + 2 ^ (h - 1)) rts e.
Proof.
  intros Hok (Hh & Hs & (l & Hl & Hx & Hnx) & Hp) He. pose proof (placed_le _ _ _ _ Hp). split_and!; [done..|lia| |done].
  apply ideal_subtree; [done|lia|apply Hok|]. by eapply consistent_known; [apply Hok|..].
Qed.

End tiles.
