(* ===== verification/TreeTheorems.v ===== *)
(** The properties of [AppendMerkleTree]
    ([common/append_merkle/src/lib.rs]). *)

From S2P Require Import Prelude HashElement SymHash MerkleSpec MerkleProof MerkleProofComplete.
From S2P Require Import NodeStore Bytes NodeManager NodeManagerFacts FlowDb.
From S2P Require Import AppendMerkle TreeRules Recompute TreeOps TreeHistory TreeRefine.
From S2P Require Import TreeSpec.
From S2P Require Import TreeFill.

(** ** A tree to instantiate the theorems with *)

Abbreviation example_store := (memory_manager toy).

Definition example_new (lvs : list toy) : outcome (AppendMerkleTree example_store toy) :=
  tree_new lvs 0 None.

Definition empty_tree : AppendMerkleTree example_store toy :=
  Tree_mk (nm_new_dummy (E := toy)) ∅ ∅ None 0.

Definition tree_of (o : outcome (AppendMerkleTree example_store toy)) :
    AppendMerkleTree example_store toy :=
  match o with Ok t => t | _ => empty_tree end.

Definition leaves3 : list toy := [tl 1; tl 2; tl 3].
Definition tree3 : AppendMerkleTree example_store toy := tree_of (example_new leaves3).
Definition tree4 : AppendMerkleTree example_store toy := (append (tl 4) tree3).2.
Definition tree3v : AppendMerkleTree example_store toy := (commit (Some 7) tree3).2.
Definition tree4v : AppendMerkleTree example_store toy := (append (tl 4) tree3v).2.

Lemma leaves3_known : Forall (λ x, x ≠ null) leaves3.
Proof. by repeat constructor. Qed.

Lemma tree3_reached : reaches 0 1 (Log leaves3 0 ∅) tree3.
Proof. apply reaches_new; [done|apply leaves3_known|vm_compute; reflexivity]. Qed.

Lemma tree4_reached : reaches 0 1 (Log (leaves3 ++ [tl 4]) 3 ∅) tree4.
Proof.
  eapply reaches_step; [apply tree3_reached|by apply (ls_append 0 1 leaves3 0 ∅ (tl 4))|].
  vm_compute; reflexivity.
Qed.

Lemma tree3v_reached : reaches 0 1 (Log leaves3 0 {[7 := (leaves3, true)]}) tree3v.
Proof.
  eapply reaches_step; [apply tree3_reached|apply (ls_commit 0 1 leaves3 0 ∅ 7)|vm_compute; reflexivity].
  - done.
  - intros s' [v Hv]. by rewrite lookup_empty in Hv.
Qed.

Lemma tree4v_reached :
  reaches 0 1 (Log (leaves3 ++ [tl 4]) 3 {[7 := (leaves3, true)]}) tree4v.
Proof.
  eapply reaches_step; [apply tree3v_reached|by eapply (ls_append 0 1 leaves3 0 _ (tl 4))|].
  vm_compute; reflexivity.
Qed.

Section theorems.
Context `{AlgorithmLaws E, !NodeStore NM E, !NodeStoreLaws NM E}.
Local Abbreviation tree := (AppendMerkleTree NM E).
Implicit Types (t : tree) (A : log E).

(** C2: The tree refines a log of leaves with named versions.  On every tree
    that the constructors and operations can produce, each operation
    (appending leaves or complete subtrees, replacing the last leaf, filling
    in known nodes, committing a version, reverting to one) terminates
    without an error or a panic, and the tree it leaves implements the log
    that the abstract operation gives. *)
Theorem tree_simulates_log lh d A (m : M tree ()) A' t :
  reaches lh d A t → log_step lh d A m A' →
  ∃ t', m t = (Ok tt, t') ∧ reaches lh d A' t' ∧ refines lh d A' t'.
Proof.
  intros Hr Hst.
  destruct (wp_run _ _ _ (sim_step _ _ _ _ _ _ (reaches_refines _ _ _ _ Hr) Hst))
    as ([] & t' & Hm & Href).
  exists t'. split_and!; [done|by eapply reaches_step|done].
Qed.

(** C13: The root that a reachable tree stores is the root of the Merkle tree
    over all its leaves, padded to its depth, computed from scratch. *)
Theorem reachable_root lh d A t :
  reaches lh d A t → log_leaves A ≠ [] →
  ∃ r, root t = Ok r ∧ r ≠ null ∧ ideal_root lh d (log_leaves A) = Some r.
Proof.
  intros (Hlh & L & [Hd Hr Hok Hf Ha] & _)%reaches_refines HF.
  apply rep_reads in Hr. rewrite Hlh in *. by eapply reads_root.
Qed.

(** C25: A proof that a reachable tree generates for a leaf validates for
    exactly that leaf and that position, against the root of the tree. *)
Theorem reachable_proof_valid lh d A t i p :
  reaches lh d A t → gen_proof t i = Ok p →
  ∃ x r, log_leaves A !! i = Some x ∧ validate p x i = Ok tt ∧
    proof_root p = Ok r ∧ root t = Ok r.
Proof.
  intros (Hlh & L & [Hd Hr Hok Hf Ha] & _)%reaches_refines Hp.
  apply rep_reads in Hr. rewrite Hlh in *.
  destruct (reads_proof _ _ _ _ _ _ _ Hd Hr Hok Hp) as (x & r & Hx & Hv & Hpr & Hir).
  exists x, r. split_and!; [done..|].
  assert (log_leaves A ≠ []) as HF by (intros HF; by rewrite HF in Hx).
  destruct (reads_root _ _ _ _ _ _ Hd Hr Hok Hf Ha HF) as (r' & Hroot & _ & Hir'). congruence.
Qed.

(** C26: A range proof of a reachable tree validates for exactly the leaves of
    the range, against the root of the tree. *)
Theorem reachable_range_proof_valid lh d A t s e rp :
  reaches lh d A t → gen_range_proof t s e = Ok rp →
  s < e ≤ length (log_leaves A) ∧
  range_validate rp (take (e - s) (drop s (log_leaves A))) s = Ok tt ∧
  ∃ r, range_root rp = Ok r ∧ root t = Ok r.
Proof.
  intros (Hlh & L & [Hd Hr Hok Hf Ha] & _)%reaches_refines Hp.
  apply rep_reads in Hr. rewrite Hlh in *.
  destruct (reads_range_proof _ _ _ _ _ _ _ _ Hd Hr Hok Hp) as (Hse & He & Hv & r & Hpr & Hir).
  split_and!; [done..|]. exists r. split; [done|].
  assert (log_leaves A ≠ []) as HF by (intros HF; rewrite HF in He; simpl in He; lia).
  destruct (reads_root _ _ _ _ _ _ Hd Hr Hok Hf Ha HF) as (r' & Hroot & _ & Hir'). congruence.
Qed.

(** C16: An old version stays readable while the tree moves on: the view
    [at_version s] has the root that the leaves had at the commit [s], and its
    proofs validate against those leaves. *)
Theorem history_proofs_valid lh d A t s Fw b :
  reaches lh d A t → log_versions A !! s = Some (Fw, b) →
  ∃ ht r, at_version t s = Ok ht ∧ root ht = Ok r ∧ ideal_root lh d Fw = Some r ∧
    ∀ i p, gen_proof ht i = Ok p →
      ∃ x, Fw !! i = Some x ∧ validate p x i = Ok tt ∧ proof_root p = Ok r.
Proof.
  intros Href%reaches_refines Hv.
  destruct (refines_version _ _ _ _ _ _ _ Href Hv) as (ht & L & Hat & Hd & HF & Hr & Hok & Hf).
  destruct (reads_root _ _ _ _ _ _ Hd Hr Hok Hf ltac:(lia) HF) as (r & Hroot & _ & Hir).
  exists ht, r. split_and!; [done..|]. intros i p Hp.
  destruct (reads_proof _ _ _ _ _ _ _ Hd Hr Hok Hp) as (x & r' & Hx & Hval & Hpr & Hir').
  exists x. split_and!; [done..|congruence].
Qed.

(** Every leaf of a tree that was built by [new] or [new_with_depth] and
    then only got single leaves can be proved: the proof is generated, and it
    validates against the root. *)
Theorem grown_proves_every_leaf lh d F t i x :
  grown lh d F t → F !! i = Some x →
  ∃ p r, gen_proof t i = Ok p ∧ root t = Ok r ∧ validate p x i = Ok tt ∧ proof_root p = Ok r.
Proof.
  intros (Hlh & L & [Hd Hr Hok Hf Ha])%grown_inv Hx. apply rep_reads in Hr. rewrite Hlh in *.
  assert (all_known L) as HK.
  { intros h l y Hl [i' Hy]%list_elem_of_lookup. eapply (proj2 Hf h l i'); [done|lia| |done].
    rewrite Nat.Div0.div_0_l. lia. }
  pose proof (lookup_lt_Some _ _ _ Hx) as Hlt.
  destruct (gen_proof_total _ _ _ _ _ i Hd Hr Hok HK Hlt) as [p Hp].
  destruct (reads_proof _ _ _ _ _ _ _ Hd Hr Hok Hp) as (y & r & Hy & Hv & Hpr & Hir).
  destruct (reads_root _ _ _ _ _ _ Hd Hr Hok Hf Ha) as (r' & Hroot & _ & Hir').
  { intros ->. done. }
  assert (y = x) as -> by congruence. assert (r' = r) as -> by congruence. eauto 10.
Qed.

(** [check_root] only accepts a root that some committed version had. *)
Theorem check_root_sound lh d A t r :
  reaches lh d A t → check_root t r = true →
  ∃ s Fw b, log_versions A !! s = Some (Fw, b) ∧ ideal_root lh d Fw = Some r.
Proof.
  intros (Hlh & L & Hi & Hvs)%reaches_refines [s Hs]%bool_decide_eq_true.
  destruct (vs_root _ _ _ _ _ Hvs r s Hs) as (Fw & b & Hv & Hir). eauto.
Qed.

(** Reverting to a version that does not exist returns an error but leaves
    the transaction open: every later append then panics. *)
Theorem revert_unknown_blocks_tree lh d A t s x :
  reaches lh d A t → log_leaves A ≠ [] → log_versions A !! s = None → x ≠ null →
  ∃ t', revert_to s t = (Err "tx_seq unavailable", t') ∧ (append x t').1 = Panic.
Proof.
  intros (Hlh & L & Hi & Hvs)%reaches_refines HF Hs Hx.
  destruct (tree_inv_layers _ _ _ _ _ Hi) as (_ & _ & l & Hl & Hc & Hlen).
  destruct (delta_nodes_map t !! s) as [dl|] eqn:Hdl.
  { destruct (proj1 (vs_dom _ _ _ _ _ Hvs s)) as [v Hv]; [by eexists|congruence]. }
  destruct (wp_run _ _ _ (rep_start_transaction _ _ (ti_rep _ _ _ _ _ Hi)))
    as ([] & s' & Hst & Hr').
  exists (set_node_manager s' t). split.
  - unfold revert_to, get_layer_len, gets_ok, mbind, M_bind. simpl.
    rewrite (rep_layer_size _ _ _ _ _ (ti_rep _ _ _ _ _ Hi) Hl), bool_decide_false.
    2:{ rewrite Hlen. by destruct (log_leaves A). }
    unfold nm, zoom. rewrite Hst. simpl. by rewrite Hdl.
  - unfold append. rewrite (proj2 (is_null_false x) Hx). unfold nm, zoom, mbind, M_bind. simpl.
    by rewrite (rep_start_twice _ _ Hr').
Qed.

(** What [fill_leaf] does, on every branch: a missing leaf is filled in and
    readable afterwards, a leaf that is already known is left alone, and a leaf
    that differs from the known one panics before anything is written. *)
Theorem fill_leaf_behaviour lh d A t i y :
  reaches lh d A t → log_leaves A !! i = Some y →
  (leaf_at t i = Ok None →
     ∃ t', fill_leaf i y t = (Ok tt, t') ∧ leaf_at t' i = Ok (Some y)) ∧
  (leaf_at t i ≠ Ok None → leaf_at t i = Ok (Some y) ∧ fill_leaf i y t = (Ok tt, t) ∧
     ∀ x, x ≠ y → x ≠ null → fill_leaf i x t = (Panic, t)).
Proof.
  intros (Hlh & L & Hi & Hvs)%reaches_refines Hy.
  pose proof (ti_rep _ _ _ _ _ Hi) as Hr.
  destruct (tree_inv_layers _ _ _ _ _ Hi) as (_ & _ & l & Hl & Hc & Hlen).
  pose proof (lookup_lt_Some _ _ _ Hy) as Hlt.
  destruct (lookup_lt_is_Some_2 l i) as [z Hz]; [lia|].
  assert (y ≠ null) as Hny.
  { eapply (Forall_lookup_1 (λ x, x ≠ null)); [apply (lok_known _ _ _ _ (ti_ok _ _ _ _ _ Hi))|done]. }
  rewrite (leaf_at_rep _ _ _ _ _ _ Hr Hl Hz). split.
  - intros _. destruct (wp_run _ _ _ (fill_leaf_spec _ _ _ _ _ _ _ Hi Hy))
      as ([] & t' & Hf & _ & L' & l' & Hi' & _ & Hl' & Hy').
    exists t'. split; [done|].
    rewrite (leaf_at_rep _ _ _ _ _ _ (ti_rep _ _ _ _ _ Hi') Hl' Hy').
    by rewrite (proj2 (is_null_false y) Hny).
  - destruct (is_null z) eqn:Hn; [done|]. intros _. apply is_null_false in Hn.
    assert (z = y) as -> by (destruct (proj2 Hc i z Hz); congruence).
    split_and!; [done| |].
    + unfold fill_leaf. rewrite (proj2 (is_null_false y) Hny).
      unfold get_node, mbind, M_bind, gets_ok. simpl.
      rewrite (rep_get_node _ _ L 0 l i y) by done. simpl.
      by rewrite (proj2 (is_null_false y) Hny), bool_decide_false by (intros Hn'; by apply Hn').
    + intros x Hx Hnx. by eapply fill_leaf_conflict.
Qed.

End theorems.

(** ** Witnesses *)

Lemma tree_simulates_log_witness :
  ∃ t', revert_to 7 tree4v = (Ok tt, t') ∧
    reaches 0 1 (Log leaves3 3 (filter (λ sv, sv.1 ≤ 7) {[7 := (leaves3, true)]})) t' ∧
    refines 0 1 (Log leaves3 3 (filter (λ sv, sv.1 ≤ 7) {[7 := (leaves3, true)]})) t'.
Proof.
  eapply (tree_simulates_log 0 1); [apply tree4v_reached|].
  apply (ls_revert_to 0 1 _ 3 _ 7 leaves3 true); [done|by vm_compute].
Defined.

Lemma reachable_root_witness :
  ∃ r, root tree4 = Ok r ∧ r ≠ null ∧ ideal_root 0 1 (leaves3 ++ [tl 4]) = Some r.
Proof. apply (reachable_root 0 1 _ _ tree4_reached). done. Defined.

Lemma reachable_proof_valid_witness :
  ∃ x r, (leaves3 ++ [tl 4]) !! 2 = Some x ∧
    validate (Proof_mk [Toy 13; Toy 14; Toy 59; Toy 326] [true; false]) x 2 = Ok tt ∧
    proof_root (Proof_mk [Toy 13; Toy 14; Toy 59; Toy 326] [true; false]) = Ok r ∧ root tree4 = Ok r.
Proof. apply (reachable_proof_valid 0 1 _ _ 2 _ tree4_reached). vm_compute. reflexivity. Defined.

Lemma reachable_range_proof_valid_witness :
  1 < 3 ≤ 4 ∧
  range_validate (RangeProof_mk (Proof_mk [Toy 12; Toy 11; Toy 69; Toy 326] [false; true])
      (Proof_mk [Toy 13; Toy 14; Toy 59; Toy 326] [true; false])) [tl 2; tl 3] 1 = Ok tt ∧
  ∃ r, range_root (RangeProof_mk (Proof_mk [Toy 12; Toy 11; Toy 69; Toy 326] [false; true])
      (Proof_mk [Toy 13; Toy 14; Toy 59; Toy 326] [true; false])) = Ok r ∧ root tree4 = Ok r.
Proof.
  apply (reachable_range_proof_valid 0 1 _ _ 1 3 _ tree4_reached). vm_compute. reflexivity.
Defined.

Lemma history_proofs_valid_witness :
  ∃ ht r, at_version tree4v 7 = Ok ht ∧ root ht = Ok r ∧ ideal_root 0 1 leaves3 = Some r ∧
    ∀ i p, gen_proof ht i = Ok p →
      ∃ x, leaves3 !! i = Some x ∧ validate p x i = Ok tt ∧ proof_root p = Ok r.
Proof.
  apply (history_proofs_valid 0 1 _ _ 7 leaves3 true tree4v_reached). vm_compute. reflexivity.
Defined.

Lemma grown_proves_every_leaf_witness :
  ∃ p r, gen_proof tree4 3 = Ok p ∧ root tree4 = Ok r ∧ validate p (tl 4) 3 = Ok tt ∧
    proof_root p = Ok r.
Proof.
  apply (grown_proves_every_leaf 0 1 (leaves3 ++ [tl 4])); [|done].
  apply (grown_append 0 1 leaves3 (tl 4) tree3); [|done|vm_compute; reflexivity].
  apply grown_new; [done|apply leaves3_known|vm_compute; reflexivity].
Defined.

Lemma check_root_sound_witness :
  ∃ s Fw b, ({[7 := (leaves3, true)]} : gmap nat (list toy * bool)) !! s = Some (Fw, b) ∧
    ideal_root 0 1 Fw = Some (Toy 209).
Proof. apply (check_root_sound 0 1 _ _ (Toy 209) tree4v_reached). vm_compute. reflexivity. Defined.

Lemma revert_unknown_blocks_tree_witness :
  ∃ t', revert_to 9 tree4v = (Err "tx_seq unavailable", t') ∧ (append (tl 5) t').1 = Panic.
Proof.
  apply (revert_unknown_blocks_tree 0 1 _ _ 9 (tl 5) tree4v_reached); [done|vm_compute; reflexivity|done].
Defined.

Lemma fill_leaf_behaviour_witness :
  (leaf_at tree4 2 = Ok None →
     ∃ t', fill_leaf 2 (tl 3) tree4 = (Ok tt, t') ∧ leaf_at t' 2 = Ok (Some (tl 3))) ∧
  (leaf_at tree4 2 ≠ Ok None → leaf_at tree4 2 = Ok (Some (tl 3)) ∧
     fill_leaf 2 (tl 3) tree4 = (Ok tt, tree4) ∧
     ∀ x, x ≠ tl 3 → x ≠ null → fill_leaf 2 x tree4 = (Panic, tree4)).
Proof. apply (fill_leaf_behaviour 0 1 _ _ 2 (tl 3) tree4_reached). done. Defined.

(** ** Behaviour on concrete trees *)

Definition tree_n (n : nat) : AppendMerkleTree example_store toy :=
  tree_of (example_new ((λ i, tl (N.of_nat i)) <$> seq 1 n)).

Definition root_n (n : nat) : option toy :=
  ideal_root 0 1 ((λ i, tl (N.of_nat i)) <$> seq 1 n).

(** [revert_to_leaves] can leave a tree whose root does not cover its
    leaves.  Reverting a tree of eight leaves to three keeps four leaves, but
    the layer above their parents is dropped and not rebuilt: the root that is
    stored is the root of the first two leaves only.  Reverting to no leaf
    panics. *)
Theorem revert_to_leaves_breaks_root :
  (revert_to_leaves 3 (tree_n 8)).1 = Ok tt ∧
  leaves (revert_to_leaves 3 (tree_n 8)).2 = Ok 4 ∧
  root (revert_to_leaves 3 (tree_n 8)).2 = expect (root_n 2) ∧
  root_n 2 ≠ root_n 3 ∧ root_n 2 ≠ root_n 4 ∧
  (revert_to_leaves 0 (tree_n 8)).1 = Panic.
Proof. by vm_compute. Qed.

(** [reset] empties the tree but keeps the versions: the root of a version
    committed before is still accepted by [check_root], and reading that
    version panics. *)
Theorem reset_keeps_versions :
  let t := (reset tree3v).2 in
  (reset tree3v).1 = Ok tt ∧ leaves t = Ok 0 ∧
  check_root t (Toy 209) = true ∧
  (ht ← at_version t 7; gen_proof ht 0) = Panic.
Proof. by vm_compute. Qed.

(** Reverting to the empty version of a tree with a minimal depth drops
    the layers that the depth asks for, so that the next append panics. *)
Theorem revert_to_empty_version_panics :
  let t := (append (tl 1) (tree_of (new_with_depth [] 3 (Some 0)))).2 in
  (revert_to 0 t).1 = Ok tt ∧ height (revert_to 0 t).2 = 0 ∧
  (append (tl 2) (revert_to 0 t).2).1 = Panic.
Proof. by vm_compute. Qed.

(** * A tree on an in-memory key-value store *)

(** A stand-in for the hash function of the crate [tiny_keccak]. *)
Definition toy_keccak : Keccak := λ d, vreplicate 32 (foldl (λ acc b, (acc * 31 + b + 7) mod 251) 3 d)%Z.

Abbreviation disk_manager :=
  (NodeManager (lru (nat * nat) OptionalHash) (node_database (gmap (nat * list Z) (list Z)))
    node_transaction).

Definition oh (z : Z) : OptionalHash := Some (vreplicate 32 z).

Section example.
#[local] Existing Instance toy_keccak.

Definition disk_empty : disk_manager := NodeManager_mk lru_unbounded [] (FlowDBStore ∅) None.

Definition disk_tree0 : AppendMerkleTree disk_manager OptionalHash :=
  match new_with_subtrees (Ok disk_empty) 10 with
  | Ok t => t
  | _ => Tree_mk disk_empty ∅ ∅ None 10
  end.

Definition disk_tree3 : AppendMerkleTree disk_manager OptionalHash :=
  (append_list [oh 1; oh 2; oh 3] disk_tree0).2.

Lemma disk_empty_rep : rep (E := OptionalHash) disk_empty false [].
Proof.
  split; simpl; [done..|].
  intros _ h. unfold overlay_size. simpl. by rewrite lookup_empty.
Qed.

Lemma disk_tree3_reached : reaches 10 1 (Log [oh 1; oh 2; oh 3] 0 ∅) disk_tree3.
Proof.
  apply (reaches_step 10 1 (Log [] 0 ∅) (append_list [oh 1; oh 2; oh 3]) _ disk_tree0).
  - apply (reaches_create 10 1 disk_empty); [done|apply disk_empty_rep|].
    vm_cast_no_check (eq_refl (Ok disk_tree0)).
  - apply (ls_append_list 10 1 [] 0 ∅ [oh 1; oh 2; oh 3]). by repeat constructor.
  - vm_cast_no_check (eq_refl (Ok tt, disk_tree3)).
Qed.

End example.
