(* ===== verification/ProofConvert.v ===== *)
(** Proofs over [H256] and over [OptionalHash]: the conversions at the top of
    [common/append_merkle/src/lib.rs], which the storage node uses between its
    trees and the network types. *)

From S2P Require Import Prelude HashElement MerkleSpec MerkleProof MerkleProofComplete.
From S2P Require Import NodeStore Bytes NodeManager NodeManagerFacts FlowDb.
From S2P Require Import AppendMerkle TreeRules TreeOps TreeRefine TreeSpec TreeTheorems.

Section convert.
Context `{Keccak}.

(** [oh.0.ok_or_else(..)], collected over the lemma *)
Fixpoint collect_some (lem : list OptionalHash) : outcome (list H256) :=
  match lem with
  | [] => Ok []
  | o :: lem' =>
      x ← ok_or "Cannot convert null OptionalHash to H256" o;
      xs ← collect_some lem';
      Ok (x :: xs)
  end.

Definition convert_proof_to_h256 (p : proof OptionalHash) : outcome (proof H256) :=
  lem ← collect_some (lemma p);
  proof_new lem (path p).

Definition convert_range_proof_to_h256 (p : range_proof OptionalHash) : outcome (range_proof H256) :=
  l ← convert_proof_to_h256 (left_proof p);
  r ← convert_proof_to_h256 (right_proof p);
  Ok (RangeProof_mk l r).

Definition convert_proof_from_h256 (p : proof H256) : outcome (proof OptionalHash) :=
  proof_new (Some <$> lemma p) (path p).

Definition convert_range_proof_from_h256 (p : range_proof H256) : outcome (range_proof OptionalHash) :=
  l ← convert_proof_from_h256 (left_proof p);
  r ← convert_proof_from_h256 (right_proof p);
  Ok (RangeProof_mk l r).

Section read.
Context `{!MerkleTreeRead T OptionalHash}.

Definition gen_proof_h256 (t : T) (leaf_index : nat) : outcome (proof H256) :=
  p ← gen_proof t leaf_index; convert_proof_to_h256 p.

Definition gen_range_proof_h256 (t : T) (start_index end_index : nat) : outcome (range_proof H256) :=
  p ← gen_range_proof t start_index end_index; convert_range_proof_to_h256 p.

(** [self.root().unwrap()] *)
Definition root_h256 (t : T) : outcome H256 := r ← root t; expect r.
End read.

(** ** Facts *)

Lemma collect_some_fmap (lem : list H256) : collect_some (Some <$> lem) = Ok lem.
Proof. induction lem as [|x lem IH]; [done|]. rewrite fmap_cons. cbn [collect_some]. by rewrite IH. Qed.

Lemma collect_some_Ok lem xs : collect_some lem = Ok xs → lem = Some <$> xs.
Proof.
  revert xs. induction lem as [|o lem IH]; intros xs; simpl; [by intros [= <-]|].
  destruct o as [x|]; simpl; [|done].
  destruct (collect_some lem) as [ys| | |]; simpl; [|done..].
  intros [= <-]. by rewrite fmap_cons, (IH ys).
Qed.

Lemma integrity_loop_some (h : H256) ls bs :
  integrity_loop (E := OptionalHash) (Some h) (Some <$> ls) bs =
    x ← integrity_loop (E := H256) h ls bs; Ok (Some x).
Proof.
  revert h bs. induction ls as [|l ls IH]; intros h bs; [done|].
  cbn [fmap list_fmap integrity_loop]. destruct bs as [|[] bs]; [done|apply IH|apply IH].
Qed.

Lemma siblings_some (p : proof H256) :
  siblings (E := OptionalHash) (Proof_mk (Some <$> lemma p) (path p)) = Some <$> siblings p.
Proof.
  unfold siblings. simpl. rewrite length_fmap, fmap_take. by destruct (lemma p).
Qed.

Lemma validate_integrity_some (p : proof H256) :
  validate_integrity (E := OptionalHash) (Proof_mk (Some <$> lemma p) (path p)) =
  validate_integrity (E := H256) p.
Proof.
  unfold validate_integrity. rewrite siblings_some. unfold item, proof_root. cbn [lemma path].
  rewrite length_fmap, fmap_last. destruct (bool_decide _); [done|].
  destruct (last (lemma p)) as [r|] eqn:Hr; destruct (lemma p) as [|h ls] eqn:Hp; try done.
  - cbn [fmap list_fmap head hd_error expect option_fmap option_map].
    rewrite !bind_Ok, integrity_loop_some.
    destruct (integrity_loop h (siblings p) (path p)) as [x| | |]; [|done..].
    rewrite !bind_Ok. f_equal.
    apply bool_decide_ext. split; [by intros [=]|by intros ->].
  - by apply last_None in Hr.
Qed.

Lemma validate_some (p : proof H256) (x : H256) (pos : nat) :
  validate (E := OptionalHash) (Proof_mk (Some <$> lemma p) (path p)) (Some x) pos =
  validate (E := H256) p x pos.
Proof.
  unfold validate. rewrite validate_integrity_some.
  destruct (validate_integrity (E := H256) p) as [[]| | |]; [|done..]. rewrite !bind_Ok. cbn [negb].
  unfold item. cbn [lemma]. destruct (lemma p) as [|h ls]; [done|].
  cbn [fmap list_fmap head hd_error expect]. rewrite !bind_Ok.
  rewrite (bool_decide_ext (Some x ≠ Some h) (x ≠ h)); [done|].
  split; intros Hne Heq; apply Hne; congruence.
Qed.

Lemma all_some (lem : list OptionalHash) :
  Forall (λ x, x ≠ null) lem → ∃ xs, lem = Some <$> xs.
Proof.
  induction 1 as [|[x|] lem Hx _ [xs ->]]; [by exists []|by exists (x :: xs)|done].
Qed.

Lemma ideal_proof_known lh (F : list OptionalHash) k i x r :
  Forall (λ x, x ≠ null) F → x ≠ null → r ≠ null →
  Forall (λ x, x ≠ null) (lemma (ideal_proof lh F k i x r)).
Proof.
  intros HF Hx Hr. unfold ideal_proof. cbn [lemma]. constructor; [done|].
  apply Forall_app. split; [|by apply Forall_singleton].
  apply Forall_forall. intros y Hy.
  by apply (ideal_siblings_known lh F 0 i k y).
Qed.

Lemma convert_roundtrip (p : proof OptionalHash) :
  length (lemma p) = length (path p) + 2 → Forall (λ x, x ≠ null) (lemma p) →
  ∃ p', convert_proof_to_h256 p = Ok p' ∧ convert_proof_from_h256 p' = Ok p ∧
    lemma p = Some <$> lemma p' ∧ path p' = path p.
Proof.
  intros Hlen [xs Hxs]%all_some. exists (Proof_mk xs (path p)).
  unfold convert_proof_to_h256, convert_proof_from_h256, proof_new. cbn [lemma path].
  rewrite Hxs, collect_some_fmap, bind_Ok. rewrite Hxs, length_fmap in Hlen.
  rewrite length_fmap, !bool_decide_false by lia. split_and!; [done| |done..].
  by rewrite <- Hxs; destruct p.
Qed.

(** The [H256] proofs that the node sends lose nothing.  Whenever a
    reachable tree generates a proof, [gen_proof_h256] gives its [H256] form,
    converting back gives the same proof, and validating either form gives the
    same outcome for every leaf and position. *)
Theorem h256_proof_equivalent `{!NodeStore NM OptionalHash, !NodeStoreLaws NM OptionalHash}
    lh d (A : log OptionalHash) (t : AppendMerkleTree NM OptionalHash) i p :
  reaches lh d A t → gen_proof t i = Ok p →
  ∃ p', gen_proof_h256 t i = Ok p' ∧ convert_proof_from_h256 p' = Ok p ∧
    ∀ (x : H256) pos, validate p' x pos = validate p (Some x) pos.
Proof.
  intros (Hlh & L & [Hd Hr Hok Hf Ha] & _)%reaches_refines Hp.
  apply rep_reads in Hr. rewrite Hlh in *. unfold gen_proof_h256. rewrite Hp, bind_Ok.
  destruct (gen_proof_inv _ _ _ _ _ _ _ Hd Hr Hok Hp) as (x & r & Hx & Hrt & Htop & ->).
  pose proof (lok_known _ _ _ _ Hok) as HF.
  destruct (convert_roundtrip (ideal_proof lh (log_leaves A) (length L - 1) i x r))
    as (p' & Hto & Hfrom & Hlem & Hpath).
  - rewrite ideal_proof_length. simpl. rewrite length_app, length_ideal_siblings. simpl. lia.
  - apply ideal_proof_known; [done| |].
    + by eapply (Forall_lookup_1 (λ x, x ≠ null)).
    + eapply (Forall_lookup_1 (λ x, x ≠ null)); [by apply ideal_known|done].
  - exists p'. split_and!; [done..|]. intros y pos. rewrite <- validate_some. f_equal.
    rewrite <- Hlem, Hpath. done.
Qed.

End convert.

Section example.
#[local] Existing Instance toy_keccak.

Definition disk_proof : proof OptionalHash :=
  match gen_proof disk_tree3 1 with Ok p => p | _ => proof_new_empty end.

Lemma disk_proof_generated : gen_proof disk_tree3 1 = Ok disk_proof.
Proof. vm_cast_no_check (eq_refl (Ok disk_proof)). Qed.

Lemma h256_proof_equivalent_witness :
  ∃ p', gen_proof_h256 disk_tree3 1 = Ok p' ∧ convert_proof_from_h256 p' = Ok disk_proof ∧
    ∀ (x : H256) pos, validate p' x pos = validate disk_proof (Some x) pos.
Proof.
  exact (h256_proof_equivalent 10 1 (Log [oh 1; oh 2; oh 3] 0 ∅) disk_tree3 1 disk_proof
    disk_tree3_reached disk_proof_generated).
Defined.

End example.
