(* ===== verification/Shard.v ===== *)
(** Shards: [node/storage/src/config.rs].

    A node stores the segments whose index is [shard_id] modulo [num_shard], a
    power of two.  Indices are [usize] or [u64] values, modelled in [Z] with
    the wrap-around at 2^64 written out. *)

From S2P Require Import Prelude.
Local Open Scope Z_scope.

Definition wrap64 (z : Z) : Z := z `mod` 2 ^ 64.

Record ShardConfig := ShardConfig_mk { shard_id : Z; num_shard : Z }.

#[export] Instance ShardConfig_eq_dec : EqDecision ShardConfig.
Proof. solve_decision. Defined.

Definition shard_default : ShardConfig := ShardConfig_mk 0 1.

(** [usize::is_power_of_two] *)
Definition is_power_of_two (n : Z) : bool := (0 <? n) && (n =? 2 ^ Z.log2 n).

Definition shard_validate (c : ShardConfig) : outcome () :=
  if num_shard c <=? shard_id c then Err "Incorrect shard_id"
  else if num_shard c =? 0 then Err "Shard num is 0"
  else if negb (is_power_of_two (num_shard c)) then Err "Incorrect shard group bytes"
  else Ok tt.

Definition shard_new (id num : Z) : outcome ShardConfig :=
  let config := ShardConfig_mk id num in
  _ ← shard_validate config;
  Ok config.

(** ** Parsing: strings are lists of character codes *)

(** [str::trim], for the white space of ASCII *)
Definition is_space (c : Z) : bool := ((9 <=? c) && (c <=? 13)) || (c =? 32).

Fixpoint trim_start (s : list Z) : list Z :=
  match s with
  | c :: s' => if is_space c then trim_start s' else s
  | [] => []
  end.

Definition trim (s : list Z) : list Z := reverse (trim_start (reverse (trim_start s))).

(** [str::split('/')] *)
Fixpoint split_slash (s : list Z) : list (list Z) :=
  match s with
  | [] => [[]]
  | c :: s' =>
      let parts := split_slash s' in
      if c =? 47 then [] :: parts
      else match parts with p :: ps => (c :: p) :: ps | [] => [[c]] end
  end.

(** [str::parse::<usize>]: an optional sign [+] and digits, below 2^64. *)
Fixpoint parse_digits (acc : Z) (s : list Z) : option Z :=
  match s with
  | [] => Some acc
  | c :: s' =>
      if (48 <=? c) && (c <=? 57) then
        let acc' := acc * 10 + (c - 48) in
        if acc' <? 2 ^ 64 then parse_digits acc' s' else None
      else None
  end.

Definition parse_usize (s : list Z) : option Z :=
  let digits := match s with 43 :: s' => s' | _ => s end in
  match digits with [] => None | _ => parse_digits 0 digits end.

Definition shard_from_str (s : list Z) : outcome ShardConfig :=
  match trim <$> split_slash (trim s) with
  | [a; b] =>
      numerator ← ok_or "Cannot parse shard position" (parse_usize a);
      denominator ← ok_or "Cannot parse shard position" (parse_usize b);
      shard_new numerator denominator
  | _ => Err "Incorrect format, expected like: '0 / 8'"
  end.

Definition shard_try_from (value : option (list Z)) : outcome ShardConfig :=
  match value with
  | Some position => shard_from_str position
  | None => Ok shard_default
  end.

(** [!(self.num_shard - 1) as u64] *)
Definition miner_shard_mask (c : ShardConfig) : Z := wrap64 (Z.lnot (wrap64 (num_shard c - 1))).
Definition miner_shard_id (c : ShardConfig) : Z := shard_id c.

Definition in_range (c : ShardConfig) (segment_index : Z) : bool :=
  segment_index `mod` num_shard c =? shard_id c.

Definition next_segment_index (c : ShardConfig) (current start_index : Z) : Z :=
  let shift :=
    wrap64 (wrap64 (wrap64 (start_index + current) + num_shard c) - shard_id c)
      `mod` num_shard c in
  wrap64 (wrap64 (current + num_shard c) - shift).

(** The loop of [intersect]: a number of shards that is a [usize] halves at
    most 64 times, so 130 iterations are enough for valid configurations. *)
Fixpoint intersect_loop (fuel : nat) (l r : ShardConfig) : outcome bool :=
  match fuel with
  | O => Diverge
  | S fuel' =>
      if num_shard l =? num_shard r then Ok (shard_id l =? shard_id r)
      else if num_shard l <? num_shard r then
        intersect_loop fuel' l (ShardConfig_mk (shard_id r / 2) (num_shard r / 2))
      else intersect_loop fuel' (ShardConfig_mk (shard_id l / 2) (num_shard l / 2)) r
  end.

Definition intersect (l r : ShardConfig) : outcome bool := intersect_loop 130 l r.

(** ** [ShardSegmentTreeNode] *)

(** The two children of a node are created together by [push_down], so the
    array of two optional children is [Leaf] or [Inner]. *)
Inductive seg_node :=
  | Leaf (num : Z) (cov : bool)
  | Inner (num : Z) (cov : bool) (child0 child1 : seg_node).

Definition node_num (n : seg_node) : Z := match n with Leaf k _ | Inner k _ _ _ => k end.
Definition covered (n : seg_node) : bool := match n with Leaf _ c | Inner _ c _ _ => c end.

Definition set_covered (n : seg_node) (b : bool) : seg_node :=
  match n with
  | Leaf k _ => Leaf k b
  | Inner k _ c0 c1 => Inner k b c0 c1
  end.

Definition seg_new (num : Z) : seg_node := Leaf num false.

(** [push_down]: the children that a node has afterwards. *)
Definition push_down (n : seg_node) : seg_node * seg_node :=
  match n with
  | Leaf k _ => (seg_new (wrap64 (k * 2)), seg_new (wrap64 (k * 2)))
  | Inner _ _ c0 c1 => (c0, c1)
  end.

(** [update] on a node with the children [c0] and [c1] *)
Definition seg_update (num : Z) (c0 c1 : seg_node) : seg_node :=
  Inner num (true && covered c0 && covered c1) c0 c1.

Fixpoint seg_insert (fuel : nat) (n : seg_node) (num id : Z) : outcome seg_node :=
  match fuel with
  | O => Diverge
  | S fuel' =>
      if covered n then Ok n
      else if num =? node_num n then Ok (set_covered n true)
      else
        let '(c0, c1) := push_down n in
        if id `mod` 2 =? 0 then
          c0' ← seg_insert fuel' c0 num (id / 2); Ok (seg_update (node_num n) c0' c1)
        else
          c1' ← seg_insert fuel' c1 num (id / 2); Ok (seg_update (node_num n) c0 c1')
  end.

(** The depth of the tree is bounded by the 64 bits of [num_shard]. *)
Fixpoint all_shards_loop (root : seg_node) (cs : list ShardConfig) : outcome bool :=
  match cs with
  | [] => Ok false
  | c :: cs' =>
      match shard_validate c with
      | Ok _ =>
          root' ← seg_insert 65 root (num_shard c) (shard_id c);
          if covered root' then Ok true else all_shards_loop root' cs'
      | _ => all_shards_loop root cs'
      end
  end.

Definition all_shards_available (shard_configs : list ShardConfig) : outcome bool :=
  all_shards_loop (seg_new 1) shard_configs.

(** ** Valid configurations *)

(** A valid configuration whose number of shards is a [usize]. *)
Definition shard_ok (c : ShardConfig) : Prop :=
  0 ≤ shard_id c ∧ num_shard c < 2 ^ 64 ∧ shard_validate c = Ok tt.

Lemma shard_ok_pow c : shard_ok c → ∃ k, 0 ≤ k < 64 ∧ num_shard c = 2 ^ k ∧ 0 ≤ shard_id c < 2 ^ k.
Proof.
  intros (Hid & Hlt & Hv). unfold shard_validate in Hv.
  destruct (Z.leb_spec (num_shard c) (shard_id c)); [done|].
  destruct (num_shard c =? 0); [done|].
  destruct (is_power_of_two (num_shard c)) eqn:Hp; [|done].
  apply andb_true_iff in Hp as [Hpos Hp]. apply Z.ltb_lt in Hpos. apply Z.eqb_eq in Hp.
  exists (Z.log2 (num_shard c)).
  pose proof (Z.log2_nonneg (num_shard c)). split_and!; [done| |done|done|lia].
  apply Z.log2_lt_pow2; lia.
Qed.

Lemma wrap64_small z : 0 ≤ z < 2 ^ 64 → wrap64 z = z.
Proof. intros Hz. by apply Z.mod_small. Qed.

(** Wrapping at 2^64 does not change the remainder by a smaller power of two. *)
Lemma wrap64_mod z k : 0 ≤ k ≤ 64 → wrap64 z `mod` 2 ^ k = z `mod` 2 ^ k.
Proof.
  intros Hk. unfold wrap64. apply Z.mod_mod_divide.
  exists (2 ^ (64 - k)). rewrite <- Z.pow_add_r by lia. f_equal. lia.
Qed.

Lemma wrap64_add_mod a b k :
  0 ≤ k ≤ 64 → (wrap64 a + b) `mod` 2 ^ k = (a + b) `mod` 2 ^ k.
Proof.
  intros Hk. assert (2 ^ k ≠ 0) by (apply Z.pow_nonzero; lia).
  rewrite <- (Z.add_mod_idemp_l (wrap64 a)), wrap64_mod, Z.add_mod_idemp_l; done.
Qed.

Lemma parse_digits_bound acc s n : 0 ≤ acc < 2 ^ 64 → parse_digits acc s = Some n → 0 ≤ n < 2 ^ 64.
Proof.
  revert acc. induction s as [|c s IH]; intros acc Hacc; cbn [parse_digits]; [by intros [= <-]|].
  destruct (Z.leb_spec 48 c); cbn [andb]; [|done]. destruct (c <=? 57); [|done].
  destruct (Z.ltb_spec (acc * 10 + (c - 48)) (2 ^ 64)); [|done]. apply IH. lia.
Qed.

Lemma parse_usize_bound s n : parse_usize s = Some n → 0 ≤ n < 2 ^ 64.
Proof.
  unfold parse_usize. destruct (match s with 43 :: s' => s' | _ => s end); [done|].
  by apply parse_digits_bound.
Qed.

(** ** The segment tree *)

(** The segments (counted from the node downwards) that a node covers. *)
Fixpoint covers (n : seg_node) (x : Z) : bool :=
  covered n ||
  match n with
  | Leaf _ _ => false
  | Inner _ _ c0 c1 => if x `mod` 2 =? 0 then covers c0 (x / 2) else covers c1 (x / 2)
  end.

(** A node that is not covered has a child that is not. *)
Fixpoint seg_wf (k : Z) (n : seg_node) : Prop :=
  node_num n = 2 ^ k ∧
  match n with
  | Leaf _ _ => True
  | Inner _ c c0 c1 =>
      seg_wf (k + 1) c0 ∧ seg_wf (k + 1) c1 ∧ (c = false → covered c0 && covered c1 = false)
  end.

Lemma seg_wf_num k n : seg_wf k n → node_num n = 2 ^ k.
Proof. by destruct n; intros [? _]. Qed.

Lemma covers_covered n x : covered n = true → covers n x = true.
Proof. destruct n; cbn; intros ->; done. Qed.

Lemma uncovered_segment k n :
  seg_wf k n → covered n = false → ∃ x, 0 ≤ x ∧ covers n x = false.
Proof.
  revert k. induction n as [num c|num c c0 IH0 c1 IH1]; intros k Hwf Hc; cbn in Hc.
  { exists 0. by rewrite Hc. }
  destruct Hwf as (_ & H0 & H1 & Hcov). specialize (Hcov Hc). cbn. rewrite Hc. cbn.
  destruct (covered c0) eqn:E0; cbn in Hcov.
  - destruct (IH1 (k + 1) H1 Hcov) as (x & Hx & Hf). exists (2 * x + 1). split; [lia|].
    replace ((2 * x + 1) `mod` 2) with 1 by (rewrite Z.add_comm, Z.mul_comm, Z.mod_add; done).
    replace ((2 * x + 1) / 2) with x by (rewrite Z.add_comm, Z.mul_comm, Z.div_add; done). done.
  - destruct (IH0 (k + 1) H0 eq_refl) as (x & Hx & Hf). exists (2 * x). split; [lia|].
    rewrite Z.mul_comm, Z.mod_mul, Z.div_mul by done. done.
Qed.

Lemma seg_new_wf k : 0 ≤ k < 64 → seg_wf k (seg_new (2 ^ k)).
Proof. done. Qed.

Lemma push_down_spec k n :
  0 ≤ k < 63 → seg_wf k n → covered n = false →
  seg_wf (k + 1) (push_down n).1 ∧ seg_wf (k + 1) (push_down n).2 ∧
  ∀ x, covers n x = if x `mod` 2 =? 0 then covers (push_down n).1 (x / 2)
                    else covers (push_down n).2 (x / 2).
Proof.
  intros Hk Hwf Hc. destruct n as [num c|num c c0 c1]; cbn in Hc, Hwf |- *.
  - destruct Hwf as [-> _].
    assert (wrap64 (2 ^ k * 2) = 2 ^ (k + 1)) as ->.
    { assert (2 ^ (k + 1) = 2 ^ k * 2) as <- by (rewrite Z.pow_add_r; lia). apply wrap64_small.
      split; [apply Z.pow_nonneg; lia|apply Z.pow_lt_mono_r; lia]. }
    subst c. split_and!; [done..|]. intros x. by destruct (_ =? 0).
  - destruct Hwf as (_ & H0 & H1 & _). subst c. done.
Qed.

(** A remainder by a power of two, one bit at a time. *)
Lemma mod_pow_step x id j :
  0 ≤ j → (x `mod` 2 ^ (j + 1) =? id) =
    ((x `mod` 2 =? id `mod` 2) && ((x / 2) `mod` 2 ^ j =? id / 2)).
Proof.
  intros Hj. rewrite Z.add_comm, Z.pow_add_r, Z.pow_1_r by lia.
  rewrite Z.rem_mul_r by (lia || (apply Z.pow_pos_nonneg; lia)).
  set (r := (x / 2) `mod` 2 ^ j). set (b := x `mod` 2).
  assert (0 ≤ b < 2) by (apply Z.mod_pos_bound; lia).
  destruct (Z.eqb_spec (b + 2 * r) id) as [<-|Hne]; symmetry.
  - apply andb_true_iff. rewrite !Z.eqb_eq. split.
    + rewrite Z.mul_comm, Z.mod_add, Z.mod_small; lia.
    + rewrite Z.mul_comm, Z.div_add, Z.div_small; lia.
  - apply andb_false_iff. rewrite !Z.eqb_neq.
    pose proof (Z.div_mod id 2). destruct (decide (b = id `mod` 2)); [right|by left]. lia.
Qed.

Lemma seg_update_spec k c0 c1 :
  seg_wf (k + 1) c0 → seg_wf (k + 1) c1 →
  seg_wf k (seg_update (2 ^ k) c0 c1) ∧
  ∀ x, covers (seg_update (2 ^ k) c0 c1) x =
    if x `mod` 2 =? 0 then covers c0 (x / 2) else covers c1 (x / 2).
Proof.
  intros H0 H1. split; [by cbn|]. intros x. cbn.
  destruct (covered c0 && covered c1) eqn:Hc; [|done].
  apply andb_true_iff in Hc as [Hc0 Hc1]. cbn.
  rewrite !(covers_covered c0), !(covers_covered c1) by done. by destruct (_ =? 0).
Qed.

Lemma seg_insert_spec fuel n k j id :
  (Z.to_nat j < fuel)%nat → 0 ≤ j → 0 ≤ k → k + j < 64 → 0 ≤ id < 2 ^ j → seg_wf k n →
  ∃ n', seg_insert fuel n (2 ^ (k + j)) id = Ok n' ∧ seg_wf k n' ∧
    ∀ x, covers n' x = covers n x || (x `mod` 2 ^ j =? id).
Proof.
  revert n k j id. induction fuel as [|fuel IH]; intros n k j id Hf Hj Hk Hkj Hid Hwf; [lia|].
  cbn [seg_insert]. destruct (covered n) eqn:Hc.
  { exists n. split_and!; [done..|]. intros x. by rewrite covers_covered. }
  rewrite (seg_wf_num k n) by done.
  destruct (Z.eqb_spec (2 ^ (k + j)) (2 ^ k)) as [Heq|Hne].
  - apply Z.pow_inj_r in Heq; [|lia..]. assert (j = 0) as -> by lia.
    exists (set_covered n true). split_and!; [done|by destruct n; cbn in *; intuition|]. intros x.
    rewrite (covers_covered (set_covered n true)) by (by destruct n). symmetry.
    apply orb_true_iff. right. apply Z.eqb_eq. rewrite Z.pow_0_r, Z.mod_1_r. lia.
  - assert (0 < j) as Hjp.
    { destruct (decide (j = 0)) as [->|]; [|lia]. by rewrite Z.add_0_r in Hne. }
    destruct (push_down_spec k n ltac:(lia) Hwf Hc) as (H0 & H1 & Hcov).
    destruct (push_down n) as [c0 c1]. cbn [fst snd] in *.
    assert (∀ c, seg_wf (k + 1) c → ∃ c', seg_insert fuel c (2 ^ (k + j)) (id / 2) = Ok c' ∧
      seg_wf (k + 1) c' ∧ ∀ x, covers c' x = covers c x || (x `mod` 2 ^ (j - 1) =? id / 2)) as Hins.
    { intros c Hc'. replace (k + j) with (k + 1 + (j - 1)) by lia. apply IH; try lia; [|done].
      replace j with (j - 1 + 1) in Hid by lia. rewrite Z.pow_add_r, Z.pow_1_r in Hid by lia.
      split; [apply Z.div_pos; lia|apply Z.div_lt_upper_bound; lia]. }
    assert (∀ x, (x `mod` 2 ^ j =? id) =
      ((x `mod` 2 =? id `mod` 2) && ((x / 2) `mod` 2 ^ (j - 1) =? id / 2))) as Hstep.
    { intros x. replace j with (j - 1 + 1) at 1 by lia. apply mod_pow_step. lia. }
    assert (id `mod` 2 = 0 ∨ id `mod` 2 = 1) as Hid2.
    { pose proof (Z.mod_pos_bound id 2). lia. }
    assert (∀ x, x `mod` 2 = 0 ∨ x `mod` 2 = 1) as Hx2.
    { intros x. pose proof (Z.mod_pos_bound x 2). lia. }
    destruct Hid2 as [Hi|Hi]; rewrite Hi; cbn [Z.eqb].
    + destruct (Hins c0 H0) as (c0' & -> & Hw0 & Hcov0). rewrite bind_Ok.
      destruct (seg_update_spec k c0' c1 Hw0 H1) as [Hw Hu].
      eexists. split_and!; [done..|]. intros x. rewrite Hu, Hcov, Hstep, Hi.
      destruct (Hx2 x) as [->| ->]; cbn [Z.eqb andb]; [apply Hcov0|by rewrite orb_false_r].
    + destruct (Hins c1 H1) as (c1' & -> & Hw1 & Hcov1). rewrite bind_Ok.
      destruct (seg_update_spec k c0 c1' H0 Hw1) as [Hw Hu].
      eexists. split_and!; [done..|]. intros x. rewrite Hu, Hcov, Hstep, Hi.
      destruct (Hx2 x) as [->| ->]; cbn [Z.eqb Pos.eqb andb];
        [by rewrite orb_false_r|apply Hcov1].
Qed.

(** What a list of configurations covers: the valid ones count. *)
Definition valid_in_range (c : ShardConfig) (x : Z) : bool :=
  match shard_validate c with Ok _ => in_range c x | _ => false end.

Lemma shard_validate_cases c :
  0 ≤ shard_id c → num_shard c < 2 ^ 64 → shard_ok c ∨ ∃ e, shard_validate c = Err e.
Proof.
  intros Hid Hn. unfold shard_ok. unfold shard_validate.
  destruct (_ <=? _); [eauto|]. destruct (_ =? _); [eauto|]. destruct (negb _); eauto.
Qed.

Lemma all_shards_loop_spec root cs :
  seg_wf 0 root → covered root = false →
  Forall (λ c, 0 ≤ shard_id c ∧ num_shard c < 2 ^ 64) cs →
  ∃ b, all_shards_loop root cs = Ok b ∧
    (b = true ↔ ∀ x, 0 ≤ x → covers root x || existsb (λ c, valid_in_range c x) cs = true).
Proof.
  revert root. induction cs as [|c cs IH]; intros root Hwf Hc Hcs; cbn [all_shards_loop existsb].
  - exists false. split; [done|]. split; [done|]. intros Hall.
    destruct (uncovered_segment 0 root Hwf Hc) as (x & Hx & Hf).
    specialize (Hall x Hx). by rewrite Hf in Hall.
  - apply Forall_cons in Hcs as [[Hid Hn] Hcs]. unfold valid_in_range at 1.
    destruct (shard_validate_cases c Hid Hn) as [Hok|[e He]].
    + pose proof Hok as (_ & _ & ->). destruct (shard_ok_pow c Hok) as (k & Hk & Hnk & Hidk).
      destruct (seg_insert_spec 65 root 0 k (shard_id c)) as (n' & Hins & Hw & Hcov); [lia..|done|].
      rewrite Z.add_0_l, <- Hnk in Hins. rewrite Hins, bind_Ok. unfold in_range. rewrite Hnk.
      destruct (covered n') eqn:Hc'.
      * exists true. split; [done|]. split; [|done]. intros _ x _.
        rewrite orb_assoc, <- Hcov, covers_covered; done.
      * destruct (IH n' Hw Hc' Hcs) as (b & Hb & Hiff). exists b. split; [done|].
        rewrite Hiff. by setoid_rewrite Hcov; setoid_rewrite orb_assoc.
    + rewrite He. cbn. by apply IH.
Qed.

(** ** Properties *)

(** Whatever string the configuration gives, a shard that is accepted is
    valid: the number of shards is a power of two below 2^64 and the id is
    below it. *)
Theorem shard_from_config_valid value c :
  shard_try_from value = Ok c → shard_ok c.
Proof.
  destruct value as [s|]; cbn; [|by intros [= <-]]. unfold shard_from_str.
  destruct (trim <$> split_slash (trim s)) as [|a [|b [|? ?]]]; [done|done| |done].
  intros (n & Hn & (d & Hd & (u & Hv & [= <-])%bind_Ok_inv)%bind_Ok_inv)%bind_Ok_inv.
  destruct (parse_usize a) as [x|] eqn:Ha; [|done]. injection Hn as <-.
  destruct (parse_usize b) as [y|] eqn:Hb; [|done]. injection Hd as <-.
  apply parse_usize_bound in Ha, Hb. destruct u. split_and!; cbn; [lia|lia|done].
Qed.

(** [next_segment_index] gives the next segment of the shard: the first
    index after [current] at which [start_index] plus the index is in range,
    at most [num_shard] further, for every valid configuration and even when
    the intermediate sum wraps around. *)
Theorem next_segment_index_least c current start_index :
  shard_ok c → 0 ≤ current → current + num_shard c < 2 ^ 64 →
  let next := next_segment_index c current start_index in
  current < next ≤ current + num_shard c ∧
  in_range c (start_index + next) = true ∧
  ∀ j, current < j < next → in_range c (start_index + j) = false.
Proof.
  intros (k & Hk & Hn & Hid)%shard_ok_pow Hcur Hmax. unfold next_segment_index, in_range.
  rewrite Hn in *. set (n := 2 ^ k) in *. assert (0 < n) as Hpos by (apply Z.pow_pos_nonneg; lia).
  set (s := wrap64 _ `mod` n).
  assert (s = (start_index + current - shard_id c) `mod` n) as Hs.
  { unfold s, n. rewrite wrap64_mod by lia. fold n.
    replace (wrap64 (wrap64 (start_index + current) + n) - shard_id c)
      with (wrap64 (wrap64 (start_index + current) + n) + - shard_id c) by lia.
    unfold n at 2. rewrite wrap64_add_mod by lia. fold n.
    replace (wrap64 (start_index + current) + n + - shard_id c)
      with (wrap64 (start_index + current) + (n - shard_id c)) by lia.
    unfold n at 2. rewrite wrap64_add_mod by lia. fold n.
    replace (start_index + current + (n - shard_id c))
      with (start_index + current - shard_id c + 1 * n) by lia.
    by rewrite Z.mod_add by lia. }
  pose proof (Z.mod_pos_bound (start_index + current - shard_id c) n Hpos) as Hb.
  rewrite <- Hs in Hb.
  rewrite (wrap64_small (current + n)), (wrap64_small (current + n - s)) by lia.
  pose proof (Z.div_mod (start_index + current - shard_id c) n ltac:(lia)) as Hdm.
  rewrite <- Hs in Hdm. set (q := (start_index + current - shard_id c) / n) in *.
  split_and!; [lia..| |].
  - apply Z.eqb_eq. replace (start_index + (current + n - s)) with (shard_id c + (q + 1) * n) by lia.
    rewrite Z.mod_add by lia. apply Z.mod_small. lia.
  - intros j Hj. apply Z.eqb_neq. intros Heq.
    pose proof (Z.div_mod (start_index + j) n ltac:(lia)) as Hj'. rewrite Heq in Hj'.
    set (p := (start_index + j) / n) in *.
    assert (n * (p - q) = j - current + s) as Hpq by lia.
    assert (0 < p - q < 2 ∨ p - q ≤ 0 ∨ 2 ≤ p - q) as [?|[?|?]] by lia; nia.
Qed.

(** C33: [all_shards_available] holds exactly when the valid configurations
    together cover every segment: no segment is missed, and none of the
    overlapping, repeated or invalid configurations confuses it. *)
Theorem all_shards_available_spec cs :
  Forall (λ c, 0 ≤ shard_id c ∧ num_shard c < 2 ^ 64) cs →
  ∃ b, all_shards_available cs = Ok b ∧
    (b = true ↔ ∀ segment, 0 ≤ segment →
       ∃ c, c ∈ cs ∧ shard_validate c = Ok tt ∧ in_range c segment = true).
Proof.
  intros Hcs. destruct (all_shards_loop_spec (seg_new 1) cs) as (b & Hb & Hiff); [done..|].
  exists b. split; [done|]. rewrite Hiff. apply forall_proper. intros x.
  apply forall_proper. intros _. cbn. rewrite existsb_exists.
  apply exist_proper. intros c. rewrite list_elem_of_In. unfold valid_in_range.
  destruct (shard_validate c) as [[]| | |]; intuition congruence.
Qed.

(** The mask that a miner uses selects the segments of its shard: the bits
    of a segment index that the mask clears are the shard id exactly for the
    segments that are in range. *)
Theorem miner_mask_selects_shard c segment :
  shard_ok c → 0 ≤ segment < 2 ^ 64 →
  in_range c segment = (segment - Z.land segment (miner_shard_mask c) =? miner_shard_id c).
Proof.
  intros (k & Hk & Hn & Hid)%shard_ok_pow Hs. unfold in_range, miner_shard_mask, miner_shard_id.
  rewrite Hn. f_equal.
  assert (2 ^ k - 1 = Z.ones k) as Hones by (rewrite Z.ones_equiv; lia).
  rewrite (wrap64_small (2 ^ k - 1)), Hones.
  2:{ pose proof (Z.pow_pos_nonneg 2 k). pose proof (Z.pow_lt_mono_r 2 k 64). lia. }
  unfold wrap64.
  rewrite <- (Z.land_ones (Z.lnot (Z.ones k)) 64), (Z.land_comm _ (Z.ones 64)), Z.land_assoc by lia.
  rewrite (Z.land_ones segment 64), (Z.mod_small segment (2 ^ 64)) by lia.
  rewrite <- Z.ldiff_land, Z.ldiff_ones_r, Z.shiftl_mul_pow2, Z.shiftr_div_pow2 by lia.
  rewrite Z.mod_eq by (apply Z.pow_nonzero; lia). ring.
Qed.

(** C35: [intersect] does not agree with [in_range]: two valid shards that both
    store segment 1 are reported as disjoint, and two shards that share no
    segment as intersecting. *)
Theorem intersect_disagrees_with_in_range :
  (shard_ok (ShardConfig_mk 1 2) ∧ shard_ok (ShardConfig_mk 1 4) ∧
   in_range (ShardConfig_mk 1 2) 1 = true ∧ in_range (ShardConfig_mk 1 4) 1 = true ∧
   intersect (ShardConfig_mk 1 2) (ShardConfig_mk 1 4) = Ok false) ∧
  (intersect (ShardConfig_mk 1 2) (ShardConfig_mk 2 4) = Ok true ∧
   ∀ x, in_range (ShardConfig_mk 1 2) x = true → in_range (ShardConfig_mk 2 4) x = false).
Proof.
  split; [done|]. split; [done|]. unfold in_range. cbn [num_shard shard_id]. intros x Hx.
  apply Z.eqb_eq in Hx. apply Z.eqb_neq. Z.to_euclidean_division_equations. lia.
Qed.

Lemma next_segment_index_least_witness :
  let next := next_segment_index (ShardConfig_mk 3 8) 5 (2 ^ 64 - 4) in
  5 < next ≤ 5 + 8 ∧ in_range (ShardConfig_mk 3 8) (2 ^ 64 - 4 + next) = true ∧
  ∀ j, 5 < j < next → in_range (ShardConfig_mk 3 8) (2 ^ 64 - 4 + j) = false.
Proof. apply (next_segment_index_least (ShardConfig_mk 3 8) 5 (2 ^ 64 - 4)); done. Defined.

Lemma all_shards_available_spec_witness :
  ∃ b, all_shards_available [ShardConfig_mk 1 2; ShardConfig_mk 5 3; ShardConfig_mk 2 4;
                             ShardConfig_mk 0 4] = Ok b ∧
    (b = true ↔ ∀ segment, 0 ≤ segment →
       ∃ c, c ∈ [ShardConfig_mk 1 2; ShardConfig_mk 5 3; ShardConfig_mk 2 4; ShardConfig_mk 0 4] ∧
         shard_validate c = Ok tt ∧ in_range c segment = true).
Proof. apply all_shards_available_spec. by repeat constructor. Defined.

Lemma miner_mask_selects_shard_witness :
  in_range (ShardConfig_mk 3 8) 19 =
    (19 - Z.land 19 (miner_shard_mask (ShardConfig_mk 3 8)) =? miner_shard_id (ShardConfig_mk 3 8)).
Proof. apply miner_mask_selects_shard; done. Defined.

(** The string ["0 / 8"]. *)
Lemma shard_from_config_valid_witness : shard_ok (ShardConfig_mk 0 8).
Proof. apply (shard_from_config_valid (Some [48; 32; 47; 32; 56])). vm_compute. reflexivity. Defined.
