(* ===== verification/MerkleLight.v ===== *)
(** The Merkle tree of a file: [common/merkle_light/src/merkle.rs] and
    [proof.rs].

    All layers lie one after the other in a single vector.  A layer of odd
    width is filled up with a null node; a node whose right child is missing is
    stored as null and [link_map] points to the node that stands for it.
    [RawLeafSha3Algorithm] ([common/merkle_tree/src/lib.rs]) hashes two
    children with Keccak and takes leaves as they are. *)

From S2P Require Import Prelude HashElement Shard.

(** [trait Algorithm<T>]: the hash of an inner node, and the default value
    that marks an empty node. *)
Class LightAlgorithm (T : Type) := {
  la_eq_dec :: EqDecision T;
  la_node : T → T → T;
  null_node : T;
}.

(** No inner node hashes to the default value. *)
Class LightAlgorithmLaws (T : Type) `{LightAlgorithm T} :=
  la_node_not_null : ∀ a b, la_node a b ≠ null_node.

#[export] Instance RawLeafSha3Algorithm `{Keccak} : LightAlgorithm H256 := {|
  la_node := parent_raw;
  null_node := vreplicate 32 0%Z;
|}.

Record MerkleTree (T : Type) := MerkleTree_mk {
  mt_data : list T;
  mt_leafs : nat;
  mt_height : nat;
  link_map : gmap nat nat;
}.
Arguments MerkleTree_mk {T} mt_data mt_leafs mt_height link_map.
Arguments mt_data {T} m.
Arguments mt_leafs {T} m.
Arguments mt_height {T} m.
Arguments link_map {T} m.

(** ** Bit twiddling *)

Local Open Scope Z_scope.

Definition smear (n : Z) (k : Z) : Z := Z.lor n (Z.shiftr n k).

Definition next_pow2 (n : Z) : Z :=
  let n := wrap64 (n - 1) in
  let n := smear n 1 in
  let n := smear n 2 in
  let n := smear n 4 in
  let n := smear n 8 in
  let n := smear n 16 in
  let n := smear n 32 in
  wrap64 (n + 1).

(** [usize::trailing_zeros] *)
Fixpoint trailing_zeros_from (fuel : nat) (n : Z) : Z :=
  match fuel with
  | O => 0
  | S fuel' => if Z.odd n then 0 else 1 + trailing_zeros_from fuel' (n / 2)
  end.

Definition log2_pow2 (n : Z) : Z := trailing_zeros_from 64 n.

Local Close Scope Z_scope.

(** ** Building the tree *)

Section build.
Context `{LightAlgorithm T}.
Implicit Types (data : list T) (links : gmap nat nat).

(** The parent of the nodes at [i] and [i + 1], and the change of [link_map]
    that comes with it. *)
Definition light_parent data links (layer_start layer_end i : nat) :
    outcome (T * option (nat * nat * option nat)) :=
  l ← expect (data !! i);
  r ← expect (data !! (i + 1));
  if bool_decide (r ≠ null_node) then Ok (la_node l r, None)
  else
    let parent_index := (i - layer_start) / 2 + layer_end in
    if bool_decide (l = null_node) then
      linked_to ← expect (links !! i);
      Ok (null_node, Some (parent_index, linked_to, Some i))
    else
      match links !! (i + 1) with
      | Some index =>
          x ← expect (data !! index);
          if bool_decide (x = null_node) then Panic else Ok (la_node l x, None)
      | None => Ok (null_node, Some (parent_index, i, None))
      end.

(** [(layer_start..layer_end).step_by(2).map(..)] *)
Fixpoint light_layer data links (layer_start layer_end i n : nat) :
    outcome (list (T * option (nat * nat * option nat))) :=
  match n with
  | 0 => Ok []
  | S n' =>
      x ← light_parent data links layer_start layer_end i;
      xs ← light_layer data links layer_start layer_end (i + 2) n';
      Ok (x :: xs)
  end.

Definition apply_link links (up : option (nat * nat * option nat)) : gmap nat nat :=
  match up with
  | Some (from, to, maybe_remove) =>
      let links := <[from := to]> links in
      match maybe_remove with Some remove => delete remove links | None => links end
  | None => links
  end.

(** One iteration of [while width > 1] after another. *)
Fixpoint light_build (fuel : nat) data links (width layer_start layer_end : nat) :
    outcome (list T * gmap nat nat) :=
  match fuel with
  | 0 => Diverge
  | S fuel' =>
      if bool_decide (width ≤ 1) then Ok (data, links)
      else
        let odd := bool_decide (width `mod` 2 = 1) in
        let data := if odd then data ++ [null_node] else data in
        let width := if odd then width + 1 else width in
        let layer_end := if odd then layer_end + 1 else layer_end in
        layer ← light_layer data links layer_start layer_end layer_start
                  ((layer_end - layer_start + 1) / 2);
        let data := data ++ layer.*1 in
        let links := foldl apply_link links layer.*2 in
        light_build fuel' data links (width / 2) layer_end (layer_end + width / 2)
  end.

(** [MerkleTree::new]; [A::leaf] keeps the leaf.  The width halves in each
    iteration, so it bounds their number. *)
Definition light_new (leaves : list T) : outcome (MerkleTree T) :=
  let n := length leaves in
  dl ← light_build (S n) leaves ∅ n 0 n;
  Ok (MerkleTree_mk dl.1 n
        (Z.to_nat (log2_pow2 (wrap64 (2 * next_pow2 (Z.of_nat n) - 1 + 1)%Z))) dl.2).

Definition light_root (mt : MerkleTree T) : outcome T := expect (last (mt_data mt)).

(** ** Proofs *)

Record light_proof := LightProof_mk { lp_lemma : list T; lp_path : list bool }.

(** [Proof::new] asserts the lengths. *)
Definition light_proof_new (hash : list T) (path : list bool) : outcome light_proof :=
  if bool_decide (2 < length hash) then
    if bool_decide (length hash - 2 = length path) then Ok (LightProof_mk hash path) else Panic
  else if bool_decide (length hash = 1 ∧ path = []) then Ok (LightProof_mk hash path)
  else Panic.

(** The index of the hash that the proof uses at one layer. *)
Definition proof_hash_index (mt : MerkleTree T) (base j : nat) : outcome (option nat) :=
  if bool_decide (j `mod` 2 = 0) then
    let right_index := base + j + 1 in
    r ← expect (mt_data mt !! right_index);
    if bool_decide (r = null_node) then
      match link_map mt !! right_index with
      | Some index =>
          x ← expect (mt_data mt !! index);
          if bool_decide (x = null_node) then Panic else Ok (Some index)
      | None => Ok None
      end
    else Ok (Some right_index)
  else Ok (Some (base + j - 1)).

Definition even_up (w : nat) : nat := if bool_decide (w `mod` 2 = 1) then w + 1 else w.

Fixpoint light_gen_loop (fuel : nat) (mt : MerkleTree T) (base width j : nat)
    (lem : list T) (pth : list bool) : outcome (list T * list bool) :=
  match fuel with
  | 0 => Diverge
  | S fuel' =>
      if bool_decide (base + 1 < length (mt_data mt)) then
        o ← proof_hash_index mt base j;
        lp ← match o with
             | Some index =>
                 x ← expect (mt_data mt !! index);
                 Ok (lem ++ [x], pth ++ [bool_decide (j `mod` 2 = 0)])
             | None => Ok (lem, pth)
             end;
        light_gen_loop fuel' mt (base + width) (even_up (width / 2)) (j / 2) lp.1 lp.2
      else Ok (lem, pth)
  end.

Definition light_gen_proof (mt : MerkleTree T) (i : nat) : outcome light_proof :=
  r ← light_root mt;
  if bool_decide (mt_leafs mt = 1) then
    if bool_decide (i = 0) then light_proof_new [r] [] else Panic
  else if bool_decide (mt_leafs mt ≤ i) then Panic
  else
    x ← expect (mt_data mt !! i);
    lp ← light_gen_loop (S (length (mt_data mt))) mt 0 (even_up (mt_leafs mt)) i [x] [];
    light_proof_new (lp.1 ++ [r]) lp.2.

(** [for i in 1..size - 1] of [Proof::validate] *)
Fixpoint light_fold (h : T) (ls : list T) (bs : list bool) : outcome T :=
  match ls with
  | [] => Ok h
  | l :: ls' =>
      match bs with
      | [] => Panic
      | b :: bs' => light_fold (if b then la_node h l else la_node l h) ls' bs'
      end
  end.

Definition light_validate (p : light_proof) : outcome bool :=
  let size := length (lp_lemma p) in
  if bool_decide (size = 1 ∧ lp_path p = []) then Ok true
  else if bool_decide (size < 2) then Ok false
  else
    item ← expect (head (lp_lemma p));
    h ← light_fold item (take (size - 2) (drop 1 (lp_lemma p))) (lp_path p);
    r ← expect (last (lp_lemma p));
    Ok (bool_decide (h = r)).

End build.
