(* ===== verification/FileTree.v ===== *)
(** The reference tree of a file, and the proof that [merkle_light] builds it.

    The leaves of a file of [n] chunks are split at the largest power of two
    below [n], and so on in both halves.  Layer by layer this is pairing
    neighbours and carrying an odd last node up unchanged, which is what the
    vector with null nodes and links represents. *)

From S2P Require Import Prelude HashElement MerkleLight.

Section reference.
Context `{LightAlgorithm T}.
Implicit Types l a b V data : list T.

(** ** By splitting *)

Definition split_size (n : nat) : nat := 2 ^ (Nat.log2_up n - 1).

Fixpoint froot_fuel (fuel : nat) l : T :=
  match fuel with
  | 0 => null_node
  | S fuel' =>
      match l with
      | [] => null_node
      | [x] => x
      | _ => let k := split_size (length l) in
             la_node (froot_fuel fuel' (take k l)) (froot_fuel fuel' (drop k l))
      end
  end.

Definition froot l : T := froot_fuel (length l) l.

(** The siblings on the way from leaf [j] to the root, with whether the node
    on the way is the left one. *)
Fixpoint fsib_fuel (fuel : nat) l (j : nat) : list (T * bool) :=
  match fuel with
  | 0 => []
  | S fuel' =>
      if bool_decide (length l ≤ 1) then []
      else
        let k := split_size (length l) in
        if bool_decide (j < k) then fsib_fuel fuel' (take k l) j ++ [(froot (drop k l), true)]
        else fsib_fuel fuel' (drop k l) (j - k) ++ [(froot (take k l), false)]
  end.

Definition fsib l j : list (T * bool) := fsib_fuel (length l) l j.

(** ** Layer by layer *)

Fixpoint ups l : list T :=
  match l with
  | x :: y :: r => la_node x y :: ups r
  | _ => l
  end.

Definition sib_step l (j : nat) : list (T * bool) :=
  if bool_decide (j `mod` 2 = 0) then
    match l !! (j + 1) with Some x => [(x, true)] | None => [] end
  else match l !! (j - 1) with Some x => [(x, false)] | None => [] end.

Fixpoint ups_n (h : nat) l : list T := match h with 0 => l | S h' => ups_n h' (ups l) end.

Fixpoint usib_n (h : nat) l (j : nat) : list (T * bool) :=
  match h with 0 => [] | S h' => sib_step l j ++ usib_n h' (ups l) (j / 2) end.

Lemma split_size_spec n : 1 < n → 0 < split_size n < n ∧ n ≤ 2 * split_size n.
Proof.
  intros Hn. unfold split_size. pose proof (Nat.log2_up_spec n Hn) as [H1 H2].
  pose proof (Nat.log2_up_pos n Hn). pose proof (pow2_pos (Nat.log2_up n - 1)).
  replace (Nat.pred (Nat.log2_up n)) with (Nat.log2_up n - 1) in H1 by lia. split; [lia|].
  rewrite <- Nat.pow_succ_r'. replace (S (Nat.log2_up n - 1)) with (Nat.log2_up n) by lia. done.
Qed.

Lemma split_size_pow h n : 2 ^ h < n ≤ 2 ^ S h → split_size n = 2 ^ h.
Proof.
  intros Hn. unfold split_size. f_equal. rewrite (Nat.log2_up_unique n (S h)); [lia|lia|].
  by rewrite Nat.pred_succ.
Qed.

Lemma froot_fuel_enough f1 f2 l :
  length l ≤ f1 → length l ≤ f2 → froot_fuel f1 l = froot_fuel f2 l.
Proof.
  revert f2 l. induction f1 as [|f1 IH]; intros f2 l H1 H2.
  { destruct l; [|simpl in H1; lia]. by destruct f2. }
  destruct f2 as [|f2]; [destruct l; [done|simpl in H2; lia]|].
  cbn [froot_fuel]. destruct l as [|x [|y l]]; [done|done|].
  pose proof (split_size_spec (length (x :: y :: l)) ltac:(cbn; lia)) as Hk.
  set (k := split_size _) in *. set (l' := x :: y :: l) in *.
  f_equal; apply IH; rewrite ?length_take, ?length_drop; lia.
Qed.

Lemma froot_split l :
  1 < length l →
  froot l = la_node (froot (take (split_size (length l)) l)) (froot (drop (split_size (length l)) l)).
Proof.
  intros Hl. pose proof (split_size_spec (length l) Hl) as Hk. unfold froot at 1.
  destruct (length l) as [|n] eqn:Hn; [lia|]. cbn [froot_fuel]. rewrite Hn.
  destruct l as [|x [|y l]]; [done|cbn in Hn; lia|].
  f_equal; apply froot_fuel_enough; rewrite ?length_take, ?length_drop; lia.
Qed.

Lemma froot_single x : froot [x] = x.
Proof. done. Qed.

Lemma fsib_fuel_enough f1 f2 l j :
  length l ≤ f1 → length l ≤ f2 → fsib_fuel f1 l j = fsib_fuel f2 l j.
Proof.
  revert f2 l j. induction f1 as [|f1 IH]; intros f2 l j H1 H2.
  { destruct f2; [done|]. cbn. by rewrite bool_decide_true by lia. }
  destruct f2 as [|f2]; [cbn; by rewrite bool_decide_true by lia|].
  cbn [fsib_fuel]. case_bool_decide as Hl; [done|].
  pose proof (split_size_spec (length l) ltac:(lia)).
  case_bool_decide; f_equal; apply IH; rewrite ?length_take, ?length_drop; lia.
Qed.

Lemma fsib_short l j : length l ≤ 1 → fsib l j = [].
Proof.
  intros Hl. unfold fsib. destruct (length l) as [|n] eqn:E; [done|].
  cbn. by rewrite bool_decide_true by lia.
Qed.

Lemma fsib_split l j :
  1 < length l →
  fsib l j = let k := split_size (length l) in
    if bool_decide (j < k) then fsib (take k l) j ++ [(froot (drop k l), true)]
    else fsib (drop k l) (j - k) ++ [(froot (take k l), false)].
Proof.
  intros Hl. pose proof (split_size_spec (length l) Hl) as Hk. unfold fsib at 1.
  destruct (length l) as [|n] eqn:Hn; [lia|]. cbn [fsib_fuel]. rewrite Hn.
  rewrite bool_decide_false by lia. cbn zeta.
  case_bool_decide; f_equal; apply fsib_fuel_enough; rewrite ?length_take, ?length_drop; lia.
Qed.

(** ** The layers agree with the splitting *)

Lemma ups_app a b : length a `mod` 2 = 0 → ups (a ++ b) = ups a ++ ups b.
Proof.
  induction a as [|x|x y a IH] using list_ind2; intros Ha; [done|done|].
  cbn in *. f_equal. apply IH. div_lia.
Qed.

Lemma length_ups l : length (ups l) = (length l + 1) / 2.
Proof. induction l as [|x|x y l IH] using list_ind2; [done|done|]. cbn. rewrite IH. div_lia. Qed.

Lemma ups_n_app h a b : length a = 2 ^ h → ups_n h (a ++ b) = ups_n h a ++ ups_n h b.
Proof.
  revert a b. induction h as [|h IH]; intros a b Ha; [done|]. cbn [ups_n].
  rewrite Nat.pow_succ_r' in Ha. rewrite ups_app by (rewrite Ha; div_lia).
  apply IH. rewrite length_ups, Ha. div_lia.
Qed.

Lemma ups_n_S h l : ups_n (S h) l = ups (ups_n h l).
Proof. revert l. induction h as [|h IH]; intros l; [done|]. cbn [ups_n] in *. by rewrite IH. Qed.

Lemma ups_n_froot h l : 0 < length l ≤ 2 ^ h → ups_n h l = [froot l].
Proof.
  revert l. induction h as [|h IH]; intros l Hl.
  { cbn in Hl. destruct l as [|x [|]]; cbn in *; [lia|done|lia]. }
  rewrite ups_n_S. destruct (decide (length l ≤ 2 ^ h)) as [Hle|Hgt]; [by rewrite IH by lia|].
  pose proof (pow2_pos h). rewrite Nat.pow_succ_r' in Hl.
  assert (split_size (length l) = 2 ^ h) as Hk
    by (apply split_size_pow; rewrite Nat.pow_succ_r'; lia).
  rewrite froot_split, Hk by lia. rewrite <- (take_drop (2 ^ h) l) at 1.
  rewrite ups_n_app by (rewrite length_take; lia).
  by rewrite !IH by (rewrite ?length_take, ?length_drop; lia).
Qed.

Lemma sib_step_app_l a b j :
  length a `mod` 2 = 0 → j < length a → sib_step (a ++ b) j = sib_step a j.
Proof.
  intros Ha Hj. unfold sib_step. case_bool_decide as Hm.
  - rewrite lookup_app_l by div_lia. done.
  - rewrite lookup_app_l by lia. done.
Qed.

Lemma sib_step_app_r a b j :
  length a `mod` 2 = 0 → sib_step (a ++ b) (length a + j) = sib_step b j.
Proof.
  intros Ha. unfold sib_step.
  rewrite (bool_decide_ext ((length a + j) `mod` 2 = 0) (j `mod` 2 = 0)) by (split; div_lia).
  case_bool_decide as Hm.
  - rewrite lookup_app_r by lia. by replace (length a + j + 1 - length a) with (j + 1) by lia.
  - assert (0 < j) by (destruct j; [done|lia]). rewrite lookup_app_r by lia.
    replace (length a + j - 1 - length a) with (j - 1) by lia. done.
Qed.

Lemma usib_n_app_l h a b j :
  length a = 2 ^ h → j < 2 ^ h → usib_n h (a ++ b) j = usib_n h a j.
Proof.
  revert a b j. induction h as [|h IH]; intros a b j Ha Hj; [done|]. cbn [usib_n].
  rewrite Nat.pow_succ_r' in Ha, Hj. rewrite sib_step_app_l by (rewrite Ha; div_lia).
  rewrite ups_app by (rewrite Ha; div_lia). f_equal.
  apply IH; [rewrite length_ups, Ha; div_lia|div_lia].
Qed.

Lemma usib_n_app_r h a b j :
  length a = 2 ^ h → usib_n h (a ++ b) (2 ^ h + j) = usib_n h b j.
Proof.
  revert a b j. induction h as [|h IH]; intros a b j Ha; [done|]. cbn [usib_n].
  rewrite <- Ha, sib_step_app_r by (rewrite Ha, Nat.pow_succ_r'; div_lia).
  rewrite Nat.pow_succ_r' in Ha.
  rewrite ups_app by (rewrite Ha; div_lia). f_equal.
  replace ((length a + j) / 2) with (2 ^ h + j / 2) by (rewrite Ha; div_lia).
  apply IH. rewrite length_ups, Ha. div_lia.
Qed.

Lemma usib_n_S h l j :
  usib_n (S h) l j = usib_n h l j ++ sib_step (ups_n h l) (j / 2 ^ h).
Proof.
  revert l j. induction h as [|h IH]; intros l j.
  { cbn. by rewrite app_nil_r, Nat.div_1_r. }
  change (usib_n (S (S h)) l j) with (sib_step l j ++ usib_n (S h) (ups l) (j / 2)).
  rewrite IH. cbn [usib_n ups_n]. rewrite app_assoc. do 2 f_equal.
  rewrite Nat.pow_succ_r', Nat.Div0.div_div. done.
Qed.

Lemma usib_fsib h l j : j < length l ≤ 2 ^ h → usib_n h l j = fsib l j.
Proof.
  revert l j. induction h as [|h IH]; intros l j Hl.
  { cbn in *. by rewrite fsib_short by lia. }
  rewrite usib_n_S. pose proof (pow2_pos h). rewrite Nat.pow_succ_r' in Hl.
  destruct (decide (length l ≤ 2 ^ h)) as [Hle|Hgt].
  { rewrite IH, ups_n_froot, Nat.div_small by lia. by rewrite app_nil_r. }
  assert (split_size (length l) = 2 ^ h) as Hk
    by (apply split_size_pow; rewrite Nat.pow_succ_r'; lia).
  assert (length (take (2 ^ h) l) = 2 ^ h) as Ht by (rewrite length_take; lia).
  assert (length (drop (2 ^ h) l) = length l - 2 ^ h) as Hd by apply length_drop.
  rewrite fsib_split, Hk by lia. cbn zeta.
  assert (ups_n h l = [froot (take (2 ^ h) l); froot (drop (2 ^ h) l)]) as ->.
  { rewrite <- (take_drop (2 ^ h) l) at 1. rewrite ups_n_app by done.
    by rewrite !ups_n_froot by lia. }
  case_bool_decide as Hj.
  - rewrite (Nat.div_small j) by done. rewrite <- (IH (take (2 ^ h) l)) by lia.
    rewrite <- (take_drop (2 ^ h) l) at 1. by rewrite usib_n_app_l.
  - replace (j / 2 ^ h) with 1 by (apply Nat.div_unique with (j - 2 ^ h); lia).
    rewrite <- (IH (drop (2 ^ h) l)) by lia. rewrite <- (take_drop (2 ^ h) l) at 1.
    replace j with (2 ^ h + (j - 2 ^ h)) at 1 by lia. by rewrite usib_n_app_r.
Qed.

(** ** Hashing along the siblings gives the root *)

Definition fold_sib (x : T) (sibs : list (T * bool)) : T :=
  foldl (λ (h : T) (sb : T * bool), if sb.2 then la_node h sb.1 else la_node sb.1 h) x sibs.

Lemma fold_sib_froot n l j x :
  length l ≤ n → l !! j = Some x → fold_sib x (fsib l j) = froot l.
Proof.
  revert l j. induction n as [|n IH]; intros l j Hn Hx.
  { destruct l; [done|simpl in Hn; lia]. }
  pose proof (lookup_lt_Some _ _ _ Hx) as Hj.
  destruct (decide (length l ≤ 1)) as [Hle|Hgt].
  { rewrite fsib_short by done. destruct l as [|y [|]]; cbn in *; [lia| |lia].
    destruct j; [|lia]. by injection Hx. }
  pose proof (split_size_spec (length l) ltac:(lia)) as Hk.
  rewrite fsib_split, froot_split by lia. cbn zeta. unfold fold_sib.
  case_bool_decide as Hjk; rewrite foldl_app; cbn [foldl fst snd]; f_equal.
  - apply IH; [rewrite length_take; lia|]. by rewrite lookup_take_lt.
  - apply IH; [rewrite length_drop; lia|]. rewrite lookup_drop. rewrite <- Hx. f_equal. lia.
Qed.

Lemma light_fold_sib (x : T) (sibs : list (T * bool)) : light_fold x sibs.*1 sibs.*2 = Ok (fold_sib x sibs).
Proof. revert x. induction sibs as [|[s b] sibs IH]; intros x; [done|]. cbn. apply IH. Qed.

(** ** The vector *)

(** The layer that is being built on: its nodes [V] start at [s], and only the
    last one may be a link. *)
Record layer_view (data : list T) (links : gmap nat nat) (s : nat) (V : list T) : Prop := {
  lv_len : length data = s + length V;
  lv_node : ∀ j x, V !! j = Some x → x ≠ null_node ∧
    (data !! (s + j) = Some x ∧ links !! (s + j) = None ∨
     (S j = length V ∧ 1 < length V ∧ data !! (s + j) = Some null_node ∧
      ∃ idx, links !! (s + j) = Some idx ∧ data !! idx = Some x));
  lv_above : ∀ k, s + length V ≤ k → links !! k = None;
}.

(** The layers of the finished vector from [s] up. *)
Inductive built (data : list T) (links : gmap nat nat) : nat → list T → Prop :=
  | built_top s x :
      length data = s + 1 → data !! s = Some x → built data links s [x]
  | built_layer s V :
      1 < length V →
      (∀ j x, V !! j = Some x → j + 1 < length V → x ≠ null_node ∧ data !! (s + j) = Some x) →
      (∀ j x, V !! j = Some x → j + 1 = length V → x ≠ null_node ∧
         (data !! (s + j) = Some x ∨
          data !! (s + j) = Some null_node ∧
          (length V `mod` 2 = 0 → ∃ idx, links !! (s + j) = Some idx ∧ data !! idx = Some x))) →
      (length V `mod` 2 = 1 →
         data !! (s + length V) = Some null_node ∧ links !! (s + length V) = None) →
      s + even_up (length V) + 1 ≤ length data →
      built data links (s + even_up (length V)) (ups V) →
      built data links s V.

Lemma even_up_spec w : even_up w = 2 * ((w + 1) / 2).
Proof. unfold even_up. case_bool_decide; div_lia. Qed.

Lemma lookup_ups l j :
  ups l !! j = match l !! (2 * j), l !! (2 * j + 1) with
               | Some x, Some y => Some (la_node x y)
               | Some x, None => Some x
               | None, _ => None
               end.
Proof.
  revert j. induction l as [|x|x y l IH] using list_ind2; intros j; [done| |].
  - destruct j as [|j]; [done|]. cbn [ups]. rewrite !lookup_ge_None_2 by (cbn; lia). done.
  - destruct j as [|j]; [done|]. cbn [ups lookup list_lookup]. rewrite IH.
    replace (2 * S j) with (S (S (2 * j))) by lia. done.
Qed.

End reference.

Section build.
Context `{LightAlgorithmLaws T}.
Implicit Types (V data : list T) (links : gmap nat nat).

(** A pair of nodes of the current layer. *)
Lemma light_parent_pair data links s e V j x y :
  layer_view data links s V →
  V !! (2 * j) = Some x → V !! (2 * j + 1) = Some y →
  ∀ data1, data `prefix_of` data1 →
  light_parent data1 links s e (s + 2 * j) = Ok (la_node x y, None).
Proof.
  intros [Hlen Hnode Habove] Hx Hy data1 Hpre.
  pose proof (lookup_lt_Some _ _ _ Hy) as Hlt.
  destruct (Hnode _ _ Hx) as [Hxn [[Hdx _]|(Hlast & _)]]; [|lia].
  destruct (Hnode _ _ Hy) as [Hyn Hdy]. unfold light_parent.
  rewrite (prefix_lookup_Some _ _ _ _ Hdx Hpre). cbn [expect]. rewrite bind_Ok.
  replace (s + 2 * j + 1) with (s + (2 * j + 1)) by lia.
  destruct Hdy as [[Hdy _]|(_ & _ & Hdy & idx & Hidx & Hdi)].
  - rewrite (prefix_lookup_Some _ _ _ _ Hdy Hpre). cbn [expect]. rewrite bind_Ok.
    by rewrite bool_decide_true.
  - rewrite (prefix_lookup_Some _ _ _ _ Hdy Hpre). cbn [expect]. rewrite bind_Ok.
    rewrite bool_decide_false by (intros Hn; by apply Hn). rewrite (bool_decide_false (x = _)) by done.
    rewrite Hidx, (prefix_lookup_Some _ _ _ _ Hdi Hpre). cbn [expect]. rewrite bind_Ok.
    by rewrite bool_decide_false.
Qed.

(** The node that an odd last node at [k] stands for, and the link that moves
    up with it. *)
Definition link_target links (k : nat) : nat * option nat :=
  match links !! k with
  | Some idx => (idx, Some k)
  | None => (k, None)
  end.

(** The odd last node of the current layer, followed by the null node. *)
Lemma light_parent_last data links s e V j x :
  layer_view data links s V → V !! (2 * j) = Some x → 2 * j + 1 = length V →
  light_parent (data ++ [null_node]) links s e (s + 2 * j) =
    Ok (null_node, Some (j + e, (link_target links (s + 2 * j)).1, (link_target links (s + 2 * j)).2)) ∧
  data !! (link_target links (s + 2 * j)).1 = Some x.
Proof.
  intros [Hlen Hnode Habove] Hx Hj. destruct (Hnode _ _ Hx) as [Hxn Hdx].
  assert (data `prefix_of` data ++ [null_node]) as Hpre by by eexists.
  unfold light_parent, link_target.
  assert ((data ++ [null_node]) !! (s + 2 * j + 1) = Some null_node) as Hr.
  { rewrite lookup_app_r by lia. by replace (s + 2 * j + 1 - length data) with 0 by lia. }
  replace ((s + 2 * j - s) / 2) with j by div_lia.
  destruct Hdx as [[Hdx Hlx]|(_ & _ & Hdx & idx & Hidx & Hdi)];
    rewrite (prefix_lookup_Some _ _ _ _ Hdx Hpre), Hr; cbn [expect]; rewrite !bind_Ok;
    rewrite (bool_decide_false (null_node ≠ null_node)) by (intros Hn; by apply Hn).
  - rewrite bool_decide_false by done. rewrite Habove by lia. by rewrite Hlx.
  - rewrite bool_decide_true by done. by rewrite Hidx.
Qed.

Lemma light_layer_pairs data links s e V j n :
  layer_view data links s V → 2 * (j + n) ≤ length V →
  ∀ data1, data `prefix_of` data1 →
  light_layer data1 links s e (s + 2 * j) n = Ok ((λ y, (y, None)) <$> take n (drop j (ups V))).
Proof.
  intros Hv Hn data1 Hpre. revert j Hn. induction n as [|n IH]; intros j Hn; [done|].
  cbn [light_layer]. destruct (lookup_lt_is_Some_2 V (2 * j)) as [x Hx]; [lia|].
  destruct (lookup_lt_is_Some_2 V (2 * j + 1)) as [y Hy]; [lia|].
  rewrite (light_parent_pair _ _ _ _ _ _ _ _ Hv Hx Hy _ Hpre), bind_Ok.
  replace (s + 2 * j + 2) with (s + 2 * S j) by lia. rewrite IH, bind_Ok by lia.
  rewrite (drop_S (ups V) (la_node x y) j); [done|]. by rewrite lookup_ups, Hx, Hy.
Qed.

Lemma light_layer_app data links s e i n m :
  light_layer data links s e i (n + m) =
    xs ← light_layer data links s e i n;
    ys ← light_layer data links s e (i + 2 * n) m;
    Ok (xs ++ ys).
Proof.
  revert i. induction n as [|n IH]; intros i.
  { rewrite Nat.add_0_r. cbn. by destruct (light_layer _ _ _ _ _ _). }
  cbn [light_layer Nat.add]. destruct (light_parent data links s e i); [|done..]. rewrite !bind_Ok, IH.
  replace (i + 2 * S n) with (i + 2 + 2 * n) by lia.
  destruct (light_layer data links s e (i + 2) n); [|done..]. rewrite !bind_Ok.
  by destruct (light_layer data links s e (i + 2 + 2 * n) m).
Qed.

Lemma foldl_no_links links (ys : list T) :
  foldl apply_link links ((λ y : T, (y, None : option (nat * nat * option nat))) <$> ys).*2 = links.
Proof. induction ys as [|y ys IH]; [done|]. apply IH. Qed.

Lemma fst_pairs (ys : list T) :
  ((λ y : T, (y, None : option (nat * nat * option nat))) <$> ys).*1 = ys.
Proof. induction ys as [|y ys IH]; [done|]. cbn. by f_equal. Qed.

(** What one iteration of the loop does. *)
Record layer_step data links s V data2 links2 : Prop := {
  ls_view : layer_view data2 links2 (s + even_up (length V)) (ups V);
  ls_prefix : data `prefix_of` data2;
  ls_pad : length V `mod` 2 = 1 → data2 !! (s + length V) = Some null_node;
  ls_links : ∀ k, k < s ∨ (s ≤ k < s + even_up (length V) ∧ (k - s) `mod` 2 = 1) →
    links2 !! k = links !! k;
}.

Lemma layer_step_even data links s V :
  layer_view data links s V → 1 < length V → length V `mod` 2 = 0 →
  light_layer data links s (s + length V) s (length V / 2) = Ok ((λ y, (y, None)) <$> ups V) ∧
  layer_step data links s V (data ++ ups V) links.
Proof.
  intros Hv Hl Hm. pose proof Hv as [Hlen Hnode Habove]. pose proof (length_ups V) as Hu.
  assert (even_up (length V) = length V) as He by (rewrite even_up_spec; div_lia).
  split.
  - pose proof (light_layer_pairs data links s (s + length V) V 0 (length V / 2) Hv
      ltac:(div_lia) data ltac:(done)) as Hp.
    rewrite Nat.mul_0_r, Nat.add_0_r, drop_0, take_ge in Hp by (rewrite Hu; div_lia). done.
  - split; [|by eexists|by rewrite Hm|done]. rewrite He. split.
    + rewrite length_app. lia.
    + intros j x Hx. split.
      { rewrite lookup_ups in Hx. destruct (V !! (2 * j)) eqn:E1; [|done].
        destruct (V !! (2 * j + 1)) eqn:E2; injection Hx as <-; [apply la_node_not_null|].
        by apply (Hnode _ _ E1). }
      left. split; [|apply Habove; lia]. rewrite lookup_app_r by lia.
      by replace (s + length V + j - length data) with j by lia.
    + intros k Hk. apply Habove. lia.
Qed.

Lemma layer_step_odd data links s V :
  layer_view data links s V → 1 < length V → length V `mod` 2 = 1 →
  ∃ layer,
  light_layer (data ++ [null_node]) links s (s + length V + 1) s ((length V + 1) / 2) = Ok layer ∧
  layer_step data links s V ((data ++ [null_node]) ++ layer.*1) (foldl apply_link links layer.*2).
Proof.
  intros Hv Hl Hm. pose proof Hv as [Hlen Hnode Habove]. pose proof (length_ups V) as Hu.
  set (h := length V / 2). assert (length V = 2 * h + 1) as HV by (unfold h; div_lia).
  assert ((length V + 1) / 2 = h + 1) as Hh by div_lia.
  assert (even_up (length V) = length V + 1) as He by (rewrite even_up_spec; div_lia).
  destruct (lookup_lt_is_Some_2 V (2 * h)) as [x Hx]; [lia|].
  set (e := s + length V + 1).
  destruct (light_parent_last data links s e V h x Hv Hx ltac:(lia)) as [Hlast Htgt].
  set (tgt := link_target links (s + 2 * h)) in *.
  pose proof (light_layer_pairs data links s e V 0 h Hv ltac:(lia) (data ++ [null_node])
    ltac:(by eexists)) as Hpairs.
  rewrite Nat.mul_0_r, Nat.add_0_r, drop_0 in Hpairs.
  rewrite Hh. eexists. split.
  { rewrite light_layer_app, Hpairs, bind_Ok. cbn [light_layer]. rewrite Hlast, !bind_Ok. done. }
  rewrite fmap_app, fst_pairs, fmap_app, foldl_app, foldl_no_links. cbn [fmap list_fmap fst snd foldl].
  cbn [apply_link].
  set (links2 := match tgt.2 with Some remove => _ | None => _ end).
  assert (∀ k, k ≠ h + e → k ≠ s + 2 * h → links2 !! k = links !! k) as Hl2.
  { intros k Hk1 Hk2. unfold links2. destruct tgt as [t [r|]] eqn:Et; cbn.
    - unfold tgt, link_target in Et. destruct (links !! (s + 2 * h)); [|done].
      injection Et as _ <-. rewrite lookup_delete_ne by lia. by rewrite lookup_insert_ne by lia.
    - by rewrite lookup_insert_ne by lia. }
  assert (links2 !! (h + e) = Some tgt.1) as Hl2e.
  { unfold links2. destruct tgt as [t [r|]] eqn:Et; cbn; [|by rewrite lookup_insert_eq].
    unfold tgt, link_target in Et. destruct (links !! (s + 2 * h)); [|done].
    injection Et as _ <-. rewrite lookup_delete_ne by (unfold e; lia). by rewrite lookup_insert_eq. }
  assert (ups V !! h = Some x) as Hux.
  { by rewrite lookup_ups, Hx, (lookup_ge_None_2 V (2 * h + 1)) by lia. }
  assert (length (take h (ups V)) = h) as Htk by (rewrite length_take, Hu; lia).
  split.
  - rewrite He. replace (s + (length V + 1)) with e by (unfold e; lia). split.
    + rewrite !length_app, Htk, Hu, Hh. cbn. unfold e. lia.
    + intros j y Hy. pose proof (lookup_lt_Some _ _ _ Hy) as Hj. rewrite Hu, Hh in Hj.
      assert (length (data ++ [null_node]) = e) as Hd1 by (rewrite length_app; cbn; unfold e; lia).
      destruct (decide (j = h)) as [->|Hne].
      * assert (y = x) as -> by congruence. split; [by apply (Hnode _ _ Hx)|]. right.
        split_and!; [lia|lia| |].
        { rewrite lookup_app_r, Hd1 by lia. rewrite lookup_app_r, Htk by lia.
          by replace (e + h - e - h) with 0 by lia. }
        exists tgt.1. rewrite (Nat.add_comm e h). split; [done|].
        rewrite <- app_assoc, lookup_app_l; [done|]. by eapply lookup_lt_Some.
      * split.
        { rewrite lookup_ups in Hy. destruct (V !! (2 * j)) eqn:E1; [|done].
          destruct (V !! (2 * j + 1)) eqn:E2; injection Hy as <-; [apply la_node_not_null|].
          by apply (Hnode _ _ E1). }
        left. split.
        { rewrite lookup_app_r, Hd1 by lia. rewrite lookup_app_l by lia.
          replace (e + j - e) with j by lia. by rewrite lookup_take_lt by lia. }
        rewrite Hl2 by (unfold e; lia). apply Habove. unfold e. lia.
    + intros k Hk. rewrite Hu, Hh in Hk. rewrite Hl2 by (unfold e in *; lia). apply Habove.
      unfold e in *. lia.
  - rewrite <- app_assoc. by eexists.
  - intros _. rewrite <- app_assoc. rewrite lookup_app_r by lia.
    by replace (s + length V - length data) with 0 by lia.
  - rewrite He. intros k Hk. apply Hl2; [unfold e; lia|]. intros ->.
    destruct Hk as [?|[_ Hk]]; [lia|]. revert Hk. replace (s + 2 * h - s) with (h * 2) by lia.
    by rewrite Nat.Div0.mod_mul.
Qed.

Lemma built_of_step data links s V data2 links2 data' (links' : gmap nat nat) :
  layer_view data links s V → 1 < length V → layer_step data links s V data2 links2 →
  data2 `prefix_of` data' → (∀ k, k < s + even_up (length V) → links' !! k = links2 !! k) →
  built data' links' (s + even_up (length V)) (ups V) → built data' links' s V.
Proof.
  intros [Hlen Hnode Habove] Hl [Hv2 Hpre Hpad Hlinks] Hpre' Hlk Hb.
  assert (data `prefix_of` data') as Hp by (by etrans). pose proof (even_up_spec (length V)) as He.
  pose proof (lv_len _ _ _ _ Hv2) as Hlen2. rewrite length_ups in Hlen2.
  apply built_layer; [done|..|done].
  - intros j x Hx Hj. destruct (Hnode j x Hx) as [Hn [[Hd _]|(? & _)]]; [|lia].
    split; [done|]. by eapply prefix_lookup_Some.
  - intros j x Hx Hj. destruct (Hnode j x Hx) as [Hn [[Hd _]|(_ & _ & Hd & idx & Hi & Hdi)]];
      (split; [done|]).
    + left. by eapply prefix_lookup_Some.
    + right. split; [by eapply prefix_lookup_Some|]. intros Hm. exists idx.
      split; [|by eapply prefix_lookup_Some]. rewrite Hlk, Hlinks; [done| |div_lia].
      right. split; [div_lia|]. replace (s + j - s) with j by lia. div_lia.
  - intros Hm. split; [eapply prefix_lookup_Some; [by apply Hpad|done]|].
    rewrite Hlk, Hlinks; [apply Habove; lia| |div_lia].
    right. split; [div_lia|]. by replace (s + length V - s) with (length V) by lia.
  - apply prefix_length in Hpre'. assert (0 < (length V + 1) / 2) by div_lia. lia.
Qed.

(** The loop of [build] terminates and leaves all layers in the vector. *)
Lemma light_build_spec fuel data links s V :
  layer_view data links s V → 0 < length V ≤ fuel →
  ∃ data' links', light_build fuel data links (length V) s (s + length V) = Ok (data', links') ∧
    built data' links' s V ∧ data `prefix_of` data' ∧ ∀ k, k < s → links' !! k = links !! k.
Proof.
  revert data links s V. induction fuel as [|fuel IH]; intros data links s V Hv Hf; [lia|].
  cbn [light_build]. destruct (decide (length V ≤ 1)) as [Hle|Hgt].
  { rewrite bool_decide_true by done. exists data, links. split_and!; [done| |done|done].
    destruct V as [|x [|]]; [simpl in *; lia| |simpl in *; lia].
    destruct (lv_node _ _ _ _ Hv 0 x eq_refl) as [_ [[Hd _]|(_ & Hlt & _)]]; [|simpl in Hlt; lia].
    rewrite Nat.add_0_r in Hd. apply built_top; [apply (lv_len _ _ _ _ Hv)|done]. }
  rewrite (bool_decide_false (length V ≤ 1)) by done.
  pose proof (even_up_spec (length V)) as He. pose proof (length_ups V) as Hu.
  assert (∀ data2 links2, layer_step data links s V data2 links2 →
    ∃ data' links', light_build fuel data2 links2 (length (ups V)) (s + even_up (length V))
        (s + even_up (length V) + length (ups V)) = Ok (data', links') ∧
      built data' links' s V ∧ data `prefix_of` data' ∧ ∀ k, k < s → links' !! k = links !! k) as Hgo.
  { intros data2 links2 Hst.
    destruct (IH data2 links2 (s + even_up (length V)) (ups V)) as (data' & links' & Hb & Hbt & Hp & Hlk);
      [apply Hst|rewrite Hu; div_lia|]. exists data', links'. split_and!; [done| | |].
    - apply (built_of_step data links s V data2 links2); [done|lia|done..].
    - etrans; [apply Hst|done].
    - intros k Hk. rewrite Hlk by lia. apply (ls_links _ _ _ _ _ _ Hst). by left. }
  destruct (decide (length V `mod` 2 = 1)) as [Hm|Hm].
  - rewrite (bool_decide_true (length V `mod` 2 = 1)) by done.
    destruct (layer_step_odd data links s V Hv ltac:(lia) Hm) as (layer & Hlayer & Hst).
    replace (s + length V + 1 - s + 1) with (length V + 2) by lia.
    replace ((length V + 2) / 2) with ((length V + 1) / 2) by div_lia. rewrite Hlayer, bind_Ok.
    destruct (Hgo _ _ Hst) as (data' & links' & Hb & Hrest). exists data', links'.
    split; [|done]. rewrite <- Hb. f_equal; [rewrite Hu; div_lia|div_lia|rewrite Hu; div_lia].
  - rewrite (bool_decide_false (length V `mod` 2 = 1)) by done.
    destruct (layer_step_even data links s V Hv ltac:(lia) ltac:(div_lia)) as [Hlayer Hst].
    replace ((s + length V - s + 1) / 2) with (length V / 2) by div_lia. rewrite Hlayer, bind_Ok.
    rewrite fst_pairs, foldl_no_links.
    destruct (Hgo _ _ Hst) as (data' & links' & Hb & Hrest). exists data', links'.
    split; [|done]. rewrite <- Hb. f_equal; [rewrite Hu; div_lia|div_lia|rewrite Hu; div_lia].
Qed.

(** ** Reading the vector *)

Lemma built_root data links s V :
  built data links s V → last data = Some (froot V) ∧ 0 < length V ∧ s < length data.
Proof.
  induction 1 as [s x Hl Hx|s V Hl Hn Hlast Hpad Hlen Hb (IH & Hu & Hs)].
  - rewrite froot_single. rewrite last_lookup, Hl. split_and!; [|cbn; lia|lia].
    by replace (pred (s + 1)) with s by lia.
  - split_and!; [|lia|lia]. rewrite IH. f_equal.
    assert (∃ h, length V ≤ 2 ^ S h) as [h Hh].
    { exists (length V). pose proof (Nat.pow_gt_lin_r 2 (S (length V))). lia. }
    assert (ups_n (S h) V = [froot V]) as H1 by (apply ups_n_froot; lia).
    cbn [ups_n] in H1. rewrite ups_n_froot in H1; [by injection H1|].
    rewrite length_ups. rewrite Nat.pow_succ_r' in Hh. div_lia.
Qed.

Lemma usib_fsib_ups V j : 1 < length V → j < length V → fsib V j = sib_step V j ++ fsib (ups V) (j / 2).
Proof.
  intros Hl Hj. assert (∃ h, length V ≤ 2 ^ S h) as [h Hh].
  { exists (length V). pose proof (Nat.pow_gt_lin_r 2 (S (length V))). lia. }
  rewrite <- (usib_fsib (S h)) by lia. cbn [usib_n]. f_equal. apply usib_fsib.
  rewrite length_ups. rewrite Nat.pow_succ_r' in Hh. div_lia.
Qed.

(** The hash that the proof takes at one layer is the sibling of the node. *)
Lemma proof_hash_index_spec mt s V j :
  built (mt_data mt) (link_map mt) s V → 1 < length V → j < length V →
  ∃ o, proof_hash_index mt s j = Ok o ∧
    match o with
    | Some index => ∃ x, mt_data mt !! index = Some x ∧
        sib_step V j = [(x, bool_decide (j `mod` 2 = 0))]
    | None => sib_step V j = []
    end.
Proof.
  intros Hb Hl Hj. inversion Hb as [s' x Hlen Hx|s' V' _ Hn Hlast Hpad Hlen _]; subst; [cbn in Hl; lia|].
  unfold proof_hash_index, sib_step. destruct (decide (j `mod` 2 = 0)) as [Hm|Hm].
  - rewrite (bool_decide_true (j `mod` 2 = 0)) by done.
    destruct (V !! (j + 1)) as [x|] eqn:Hx.
    + pose proof (lookup_lt_Some _ _ _ Hx). replace (s + j + 1) with (s + (j + 1)) by lia.
      assert (x ≠ null_node ∧ (mt_data mt !! (s + (j + 1)) = Some x ∨
        mt_data mt !! (s + (j + 1)) = Some null_node ∧
        ∃ idx, link_map mt !! (s + (j + 1)) = Some idx ∧ mt_data mt !! idx = Some x)) as [Hnx Hd].
      { destruct (decide (j + 1 + 1 < length V)) as [Hlt|Hge].
        - destruct (Hn (j + 1) x Hx Hlt). auto.
        - destruct (Hlast (j + 1) x Hx ltac:(lia)) as [? [?|[? Hi]]]; [auto|].
          split; [done|]. right. split; [done|]. apply Hi. div_lia. }
      destruct Hd as [Hd|(Hd & idx & Hi & Hdi)]; rewrite Hd; cbn [expect]; rewrite bind_Ok.
      * rewrite bool_decide_false by done. eexists. split; [done|]. by exists x.
      * rewrite bool_decide_true, Hi, Hdi by done. cbn [expect]. rewrite bind_Ok.
        rewrite bool_decide_false by done. eexists. split; [done|]. by exists x.
    + apply lookup_ge_None in Hx. assert (j + 1 = length V) as Hjl by lia.
      destruct Hpad as [Hp Hpl]; [div_lia|]. replace (s + j + 1) with (s + length V) by lia.
      rewrite Hp. cbn [expect]. rewrite bind_Ok, bool_decide_true, Hpl by done. by exists None.
  - rewrite (bool_decide_false (j `mod` 2 = 0)) by done. exists (Some (s + j - 1)).
    split; [done|]. assert (0 < j) by (destruct j; [done|lia]).
    destruct (lookup_lt_is_Some_2 V (j - 1)) as [x Hx]; [lia|]. exists x. rewrite Hx.
    split; [|done]. replace (s + j - 1) with (s + (j - 1)) by lia. apply (Hn _ _ Hx). lia.
Qed.

Lemma light_gen_loop_spec fuel mt s V j lem pth :
  built (mt_data mt) (link_map mt) s V → j < length V ≤ fuel →
  light_gen_loop fuel mt s (even_up (length V)) j lem pth =
    Ok (lem ++ (fsib V j).*1, pth ++ (fsib V j).*2).
Proof.
  revert s V j lem pth. induction fuel as [|fuel IH]; intros s V j lem pth Hb Hj; [lia|].
  cbn [light_gen_loop]. destruct (decide (length V ≤ 1)) as [Hle|Hgt].
  { inversion Hb as [s' x Hlen Hx|s' V' Hl]; subst; [|lia].
    rewrite bool_decide_false by lia. rewrite fsib_short by done. by rewrite !app_nil_r. }
  destruct (proof_hash_index_spec mt s V j Hb ltac:(lia) ltac:(lia)) as (o & Ho & Hsib).
  inversion Hb as [s' x Hlen Hx|s' V' _ _ _ _ Hlen Hb']; subst; [cbn in Hgt; lia|].
  pose proof (even_up_spec (length V)) as He. pose proof (length_ups V) as Hu.
  rewrite bool_decide_true by div_lia. rewrite Ho, bind_Ok.
  replace (even_up (even_up (length V) / 2)) with (even_up (length (ups V)))
    by (f_equal; rewrite Hu; div_lia).
  rewrite usib_fsib_ups by lia. destruct o as [index|].
  - destruct Hsib as (x & Hx & ->). rewrite Hx. cbn [expect]. rewrite !bind_Ok. cbn [fst snd].
    rewrite IH by (done || (rewrite Hu; div_lia)). cbn. by rewrite <- !app_assoc.
  - rewrite Hsib, bind_Ok. cbn [fst snd]. by rewrite IH by (done || (rewrite Hu; div_lia)).
Qed.

Definition file_lemma V (j : nat) (x : T) : list T :=
  if bool_decide (length V = 1) then [x] else x :: (fsib V j).*1 ++ [froot V].

Lemma fsib_nonempty V j : 1 < length V → fsib V j ≠ [].
Proof.
  intros Hl. rewrite fsib_split by done. cbn zeta. case_bool_decide; apply app_nil_neq_r || idtac;
    intros Hn; by apply app_eq_nil in Hn as [_ ?].
Qed.

Lemma light_validate_file V j x :
  V !! j = Some x → light_validate (LightProof_mk (file_lemma V j x) (fsib V j).*2) = Ok true.
Proof.
  intros Hx. unfold light_validate, file_lemma. cbn [lp_lemma lp_path].
  pose proof (lookup_lt_Some _ _ _ Hx). destruct (bool_decide (length V = 1)) eqn:Hl.
  { apply bool_decide_eq_true in Hl. by rewrite fsib_short by lia. }
  rewrite bool_decide_false by (cbn [length]; rewrite length_app; cbn; intros [? _]; lia).
  rewrite bool_decide_false by (cbn [length]; rewrite length_app; cbn; lia).
  cbn [head hd_error expect length]. rewrite bind_Ok. cbn [drop]. rewrite drop_0, length_app. cbn [length].
  replace (S (length (fsib V j).*1 + 1) - 2) with (length (fsib V j).*1) by lia.
  rewrite take_app_length, light_fold_sib, bind_Ok, app_comm_cons, last_snoc. cbn [expect].
  rewrite bind_Ok, bool_decide_true; [done|]. by eapply fold_sib_froot.
Qed.

Lemma light_new_spec (leaves : list T) :
  Forall (λ x, x ≠ null_node) leaves → leaves ≠ [] →
  ∃ mt, light_new leaves = Ok mt ∧ mt_leafs mt = length leaves ∧
    built (mt_data mt) (link_map mt) 0 leaves ∧ leaves `prefix_of` mt_data mt.
Proof.
  intros Hk Hne. assert (0 < length leaves) by (destruct leaves; [done|cbn; lia]).
  destruct (light_build_spec (S (length leaves)) leaves ∅ 0 leaves) as (data & links & Hb & Hbt & Hp & _).
  - split; [done| |intros; apply lookup_empty]. intros j x Hx.
    split; [by eapply (Forall_lookup_1 (λ x, x ≠ null_node))|]. left. by rewrite lookup_empty.
  - lia.
  - unfold light_new. rewrite Nat.add_0_l in Hb. rewrite Hb, bind_Ok. eexists. by split_and!.
Qed.

Lemma light_gen_proof_spec mt V j x :
  mt_leafs mt = length V → built (mt_data mt) (link_map mt) 0 V → V `prefix_of` mt_data mt →
  V !! j = Some x →
  light_gen_proof mt j = Ok (LightProof_mk (file_lemma V j x) (fsib V j).*2).
Proof.
  intros Hn Hb Hp Hx. destruct (built_root _ _ _ _ Hb) as (Hr & Hpos & _).
  pose proof (lookup_lt_Some _ _ _ Hx) as Hj.
  unfold light_gen_proof, light_root. rewrite Hr, Hn. cbn [expect]. rewrite bind_Ok.
  unfold file_lemma. destruct (decide (length V = 1)) as [Hl|Hl].
  { rewrite !(bool_decide_true (length V = 1)), bool_decide_true by lia.
    rewrite fsib_short by lia. destruct V as [|y [|]]; cbn in Hl; [lia| |lia].
    destruct j; [|cbn in Hj; lia]. injection Hx as ->. done. }
  rewrite !(bool_decide_false (length V = 1)), bool_decide_false by lia.
  rewrite (prefix_lookup_Some _ _ _ _ Hx Hp). cbn [expect]. rewrite bind_Ok.
  pose proof (prefix_length _ _ Hp).
  rewrite (light_gen_loop_spec _ mt 0 V j) by (done || lia). rewrite bind_Ok. cbn [fst snd app].
  unfold light_proof_new.
  pose proof (fsib_nonempty V j ltac:(lia)) as Hne.
  assert (0 < length (fsib V j)) by (destruct (fsib V j); [done|cbn; lia]).
  rewrite !bool_decide_true; [done| |]; cbn [length]; rewrite length_app, !length_fmap; cbn; lia.
Qed.

End build.
