(* ===== verification/SharedTypes.v ===== *)
(** Chunks, transactions and file proofs: [node/shared_types/src/lib.rs] and
    [proof.rs].

    Sizes and indices are [usize] or [u64] values in [Z]; hashes are [H256]
    with [RawLeafSha3Algorithm]. *)

From S2P Require Import Prelude HashElement Shard MerkleLight MerkleProof FileTree.
Local Open Scope Z_scope.

Definition CHUNK_SIZE : Z := 256.

Definition bytes_to_chunks (size_bytes : Z) : Z :=
  if size_bytes `mod` CHUNK_SIZE =? 0 then size_bytes / CHUNK_SIZE
  else size_bytes / CHUNK_SIZE + 1.

Definition compute_padded_chunk_size (size_bytes : Z) : Z * Z :=
  let chunk_len := bytes_to_chunks size_bytes in
  let chunks_next_pow2 := next_pow2 chunk_len in
  if chunks_next_pow2 =? chunk_len then (chunks_next_pow2, chunks_next_pow2)
  else
    let min_chunk := if chunks_next_pow2 <? 16 then 1 else Z.shiftr chunks_next_pow2 4 in
    let padded_chunks := wrap64 ((wrap64 (chunk_len - 1) / min_chunk + 1) * min_chunk) in
    (padded_chunks, chunks_next_pow2).

Definition compute_segment_size (chunks chunks_per_segment : Z) : outcome (Z * Z) :=
  if chunks_per_segment =? 0 then Panic
  else if chunks `mod` chunks_per_segment =? 0 then Ok (chunks / chunks_per_segment, chunks_per_segment)
  else Ok (chunks / chunks_per_segment + 1, chunks `mod` chunks_per_segment).

(** ** Chunk arrays *)

Record ChunkArray := ChunkArray_mk { ca_data : list Z; start_index : Z }.

(** [self.data.len() / CHUNK_SIZE] *)
Definition chunk_count (a : ChunkArray) : Z := Z.of_nat (length (ca_data a)) / CHUNK_SIZE.

(** [self.data\[lo..hi\]] in units of chunks *)
Definition chunk_slice (a : ChunkArray) (lo hi : Z) : list Z :=
  take (Z.to_nat ((hi - lo) * CHUNK_SIZE)) (drop (Z.to_nat (lo * CHUNK_SIZE)) (ca_data a)).

Definition chunk_at (a : ChunkArray) (index : Z) : option (list Z) :=
  if (wrap64 (chunk_count a + start_index a) <=? index) || (index <? start_index a) then None
  else Some (chunk_slice a (index - start_index a) (index - start_index a + 1)).

Definition first_chunk (a : ChunkArray) : option (list Z) := chunk_at a (start_index a).

(** [checked_sub(1)?] *)
Definition last_chunk (a : ChunkArray) : option (list Z) :=
  let n := wrap64 (start_index a + chunk_count a) in
  if n =? 0 then None else chunk_at a (n - 1).

Definition sub_array (a : ChunkArray) (start end_ : Z) : option ChunkArray :=
  let limit := wrap64 (chunk_count a + start_index a) in
  if (limit <=? start) || (start <? start_index a) || (limit <? end_) || (end_ <=? start_index a) || (end_ <=? start)
  then None
  else Some (ChunkArray_mk (chunk_slice a (start - start_index a) (end_ - start_index a)) start).

(** ** Transactions *)

Record Transaction := Transaction_mk {
  stream_ids : list Z;
  tx_data : list Z;
  data_merkle_root : H256;
  merkle_nodes : list (Z * H256);
  start_entry_index : Z;
  tx_byte_size : Z;
  tx_seq : Z;
}.

(** [1 << (depth - 1)]; the shift distance is taken modulo 64. *)
Definition num_entries_of_node (depth : Z) : Z := 2 ^ ((depth - 1) `mod` 64).

Definition num_entries_of_list (nodes : list (Z * H256)) : Z :=
  foldl (λ size n, wrap64 (size + num_entries_of_node n.1)) 0 nodes.

Definition num_entries (tx : Transaction) : Z := num_entries_of_list (merkle_nodes tx).

(** ** File proofs *)

Record FileProof := FileProof_mk { fp_lemma : list H256; fp_path : list bool }.

Definition file_proof_new (lem : list H256) (path : list bool) : FileProof :=
  FileProof_mk (if bool_decide (path = []) then take 1 lem else lem) path.

(** [for is_left in self.path.iter().rev()]: [path] is in reverse order. *)
Fixpoint file_position_loop (path : list bool) (left_chunk_count proof_position : Z) : outcome Z :=
  match path with
  | [] =>
      if left_chunk_count =? 1 then Ok proof_position
      else Err "Proof path too short for a tree size"
  | is_left :: path' =>
      if left_chunk_count <=? 1 then Err "Proof path too long for a tree size"
      else
        let subtree_size := Z.shiftr (next_pow2 left_chunk_count) 1 in
        if (is_left : bool) then file_position_loop path' subtree_size proof_position
        else file_position_loop path' (left_chunk_count - subtree_size)
               (proof_position + subtree_size)
  end.

Definition file_position (p : FileProof) (total_chunk_count : Z) : outcome Z :=
  file_position_loop (reverse (fp_path p)) total_chunk_count 0.

Definition ZERO_HASH : H256 := list_to_vec
  [211; 151; 179; 176; 67; 216; 127; 205; 111; 173; 18; 145; 255; 11; 253; 22;
   64; 28; 39; 72; 150; 216; 198; 58; 146; 55; 39; 240; 119; 184; 224; 181].

Section hash.
Context `{Keccak}.

(** [TryFrom<&FileProof> for RawFileProof] *)
Definition raw_file_proof (p : FileProof) : outcome (light_proof (T := H256)) :=
  if bool_decide (length (fp_lemma p) = 1%nat ∧ fp_path p = []
      ∨ (2 < length (fp_lemma p))%nat ∧ length (fp_lemma p) = (length (fp_path p) + 2)%nat)
  then light_proof_new (fp_lemma p) (fp_path p)
  else Err "Invalid proof".

Definition file_proof_validate (p : FileProof) (leaf_hash root : H256) (position leaf_count : Z) :
    outcome bool :=
  proof_position ← file_position p leaf_count;
  if bool_decide (proof_position ≠ position) then Err "wrong position"
  else
    proof ← raw_file_proof p;
    ok ← light_validate proof;
    if negb ok then Ok false
    else
      r ← expect (last (lp_lemma proof));
      if bool_decide (r ≠ root) then Err "root mismatch"
      else
        item ← expect (head (lp_lemma proof));
        if bool_decide (item ≠ leaf_hash) then Err "data hash mismatch" else Ok true.

(** [TryFrom<FileProof> for FlowProof] *)
Definition flow_proof_from_file (p : FileProof) : outcome (proof H256) :=
  lem ← (if bool_decide (fp_path p = []) then
           x ← ok_or "empty file proof" (head (fp_lemma p)); Ok (fp_lemma p ++ [x])
         else Ok (fp_lemma p));
  if bool_decide (length lem ≠ (length (fp_path p) + 2)%nat) then Err "invalid file proof"
  else proof_new lem (fp_path p).

(** [data.chunks_exact(CHUNK_SIZE)] *)
Fixpoint chunks_exact (fuel : nat) (data : list Z) : list (list Z) :=
  match fuel with
  | O => []
  | S fuel' =>
      if Z.of_nat (length data) <? CHUNK_SIZE then []
      else take 256 data :: chunks_exact fuel' (drop 256 data)
  end.

Definition compute_segment_merkle_root (data : list Z) (segment_chunks : Z) : outcome H256 :=
  let hashes := leaf_raw <$> chunks_exact (length data) data in
  let num_chunks := Z.of_nat (length data) / CHUNK_SIZE in
  let hashes := if num_chunks <? segment_chunks
                then hashes ++ replicate (Z.to_nat (segment_chunks - num_chunks)) ZERO_HASH
                else hashes in
  mt ← light_new hashes;
  light_root mt.

(** ** Segment proofs *)

Inductive NodeProofLeaf :=
  | Full (node_depth : Z)
  | Partial.

Record NodeProof := NodeProof_mk { np_proof : FileProof; np_leaf : NodeProofLeaf }.

Record ChunkArrayWithProof := ChunkArrayWithProof_mk {
  cap_chunks : ChunkArray;
  cap_proof : range_proof H256;
}.

(** [for (node_depth, node_root) in self.merkle_nodes.iter().rev().skip(1)] *)
Fixpoint merkle_root_loop (nodes : list (Z * H256)) (max_depth_exclusive : Z) (root : H256) : H256 :=
  match nodes with
  | [] => root
  | (node_depth, node_root) :: nodes' =>
      if max_depth_exclusive <=? node_depth then root
      else merkle_root_loop nodes' max_depth_exclusive (sha3_parent node_root root)
  end.

Definition compute_merkle_root (tx : Transaction) (max_depth_exclusive : Z) : option H256 :=
  match reverse (merkle_nodes tx) with
  | [] => None
  | (depth, root) :: rest =>
      if max_depth_exclusive <=? depth then None
      else Some (merkle_root_loop rest max_depth_exclusive root)
  end.

(** The loop of [compute_node_proof]: the node that contains the segment, and
    the roots of the nodes before it. *)
Fixpoint find_node (nodes : list (Z * H256)) (chunk_start_index chunks_per_segment total_chunks : Z)
    (before : list H256) : option (Z * H256) * list H256 :=
  match nodes with
  | [] => (None, before)
  | (depth, root) :: nodes' =>
      let node_chunks := num_entries_of_node depth in
      if node_chunks <? chunks_per_segment then (None, before)
      else
        let total_chunks := wrap64 (total_chunks + node_chunks) in
        if chunk_start_index <? total_chunks then (Some (depth, root), before)
        else find_node nodes' chunk_start_index chunks_per_segment total_chunks (before ++ [root])
  end.

Definition compute_node_proof (tx : Transaction) (chunk_start_index chunks_per_segment : Z) :
    outcome NodeProof :=
  let '(node, before) := find_node (merkle_nodes tx) chunk_start_index chunks_per_segment 0 [] in
  let lem := data_merkle_root tx :: before in
  let path := (λ _, false) <$> before in
  match node with
  | Some (depth, root) =>
      let '(lem, path) :=
        match compute_merkle_root tx depth with
        | Some right_root => (lem ++ [right_root], path ++ [true])
        | None => (lem, path)
        end in
      Ok (NodeProof_mk (file_proof_new (reverse (lem ++ [root])) (reverse path)) (Full depth))
  | None =>
      right_root ← expect (compute_merkle_root tx (log2_pow2 chunks_per_segment + 1));
      Ok (NodeProof_mk (file_proof_new (reverse (lem ++ [right_root])) (reverse path)) Partial)
  end.

(** [for i in segment_depth..node_depth]: the nodes copied from the flow
    proof. *)
Fixpoint copy_flow_proof (p : proof H256) (i : nat) (n : nat) : outcome (list (H256 * bool)) :=
  match n with
  | O => Ok []
  | S n' =>
      x ← expect (lemma p !! (i + 1)%nat);
      b ← expect (path p !! i);
      rest ← copy_flow_proof p (i + 1) n';
      Ok ((x, b) :: rest)
  end.

Definition compute_segment_proof_full (np : NodeProof) (node_depth : Z)
    (segment : ChunkArrayWithProof) (chunks_per_segment : Z) : outcome FileProof :=
  let segment_depth := log2_pow2 chunks_per_segment in
  if node_depth =? segment_depth then Ok (np_proof np)
  else if node_depth <? segment_depth then Panic
  else
    let flow := left_proof (cap_proof segment) in
    if Z.of_nat (length (path flow)) <? node_depth then Err "flow proof path too small"
    else
      segment_root ← compute_segment_merkle_root (ca_data (cap_chunks segment)) chunks_per_segment;
      copied ← copy_flow_proof flow (Z.to_nat segment_depth) (Z.to_nat (node_depth - segment_depth));
      let lem := segment_root :: copied.*1 in
      let pth := copied.*2 in
      if bool_decide (fp_path (np_proof np) = []) then
        root ← expect (head (fp_lemma (np_proof np)));
        Ok (file_proof_new (lem ++ [root]) pth)
      else
        match fp_lemma (np_proof np) with
        | [] => Panic
        | _ :: rest => Ok (file_proof_new (lem ++ rest) (pth ++ fp_path (np_proof np)))
        end.

Definition node_compute_segment_proof (np : NodeProof) (segment : ChunkArrayWithProof)
    (chunks_per_segment : Z) : outcome FileProof :=
  match np_leaf np with
  | Full node_depth =>
      compute_segment_proof_full np (wrap64 (node_depth - 1)) segment chunks_per_segment
  | Partial => Ok (np_proof np)
  end.

Definition compute_segment_proof (tx : Transaction) (segment : ChunkArrayWithProof)
    (chunks_per_segment : Z) : outcome FileProof :=
  let chunk_start_index := start_index (cap_chunks segment) in
  if chunks_per_segment =? 0 then Panic
  else if negb (chunk_start_index `mod` chunks_per_segment =? 0) then Err "start index not aligned"
  else
    let total_entries := num_entries tx in
    if total_entries <=? chunk_start_index then Err "start index out of bound"
    else if total_entries <? wrap64 (chunk_start_index + chunk_count (cap_chunks segment))
    then Err "end index out of bound"
    else
      node_proof ← compute_node_proof tx chunk_start_index chunks_per_segment;
      node_compute_segment_proof node_proof segment chunks_per_segment.

End hash.
