(* ===== verification/FileProofs.v ===== *)
(** Proofs of file segments.

    [next_pow2] is the least power of two that is not below its argument, so
    the position that a proof encodes follows the splitting of the reference
    tree of FileTree.v.  From this: the proofs that a file's tree generates are
    accepted at their position, what [FileProof::validate] accepts is in the
    file, padding is bounded, and the proofs assembled from a transaction's
    subtree roots are valid. *)

From Stdlib Require Import Sorted.
From S2P Require Import Prelude HashElement SymHash Shard MerkleLight MerkleProof FileTree SharedTypes.
Local Open Scope Z_scope.

(** ** [next_pow2] *)

(** Bit [i] of [m] is set iff one of the [w] bits of [n] from [i] upwards is. *)
Definition covers (w n m : Z) : Prop :=
  ∀ i, 0 ≤ i → Z.testbit m i = true ↔ ∃ j, 0 ≤ j < w ∧ Z.testbit n (i + j) = true.

Lemma covers_self n : covers 1 n n.
Proof.
  intros i Hi. split; [intros Ht; exists 0; by rewrite Z.add_0_r|].
  intros (j & Hj & Ht). by replace (i + j) with i in Ht by lia.
Qed.

Lemma covers_smear w n m k : covers w n m → 0 ≤ k ≤ w → covers (w + k) n (smear m k).
Proof.
  intros Hc Hk i Hi. unfold smear. rewrite Z.lor_spec, Z.shiftr_spec, orb_true_iff by lia.
  rewrite (Hc i), (Hc (i + k)) by lia. split.
  - intros [(j & Hj & Ht)|(j & Hj & Ht)]; [exists j; split; [lia|done]|].
    exists (k + j). rewrite Z.add_assoc. split; [lia|done].
  - intros (j & Hj & Ht). destruct (decide (j < w)) as [|Hge]; [left; exists j; split; [lia|done]|].
    right. exists (j - k). replace (i + k + (j - k)) with (i + j) by lia. split; [lia|done].
Qed.

Lemma covers_ones n m : 0 < n < 2 ^ 64 → 0 ≤ m → covers 64 n m → m = Z.ones (Z.log2 n + 1).
Proof.
  intros Hn Hm Hc. pose proof (Z.log2_nonneg n).
  assert (Z.log2 n < 64) by (apply Z.log2_lt_pow2; lia).
  apply Z.bits_inj'. intros i Hi. apply eq_true_iff_eq. rewrite (Hc i Hi).
  destruct (decide (i ≤ Z.log2 n)) as [Hle|Hgt].
  - rewrite Z.ones_spec_low by lia. split; [done|]. intros _. exists (Z.log2 n - i).
    replace (i + (Z.log2 n - i)) with (Z.log2 n) by lia. split; [lia|apply Z.bit_log2; lia].
  - rewrite Z.ones_spec_high by lia. split; [|done]. intros (j & Hj & Ht).
    rewrite Z.bits_above_log2 in Ht by lia. done.
Qed.

Lemma smear_nonneg m k : 0 ≤ m → 0 ≤ smear m k.
Proof. intros Hm. unfold smear. apply Z.lor_nonneg. split; [done|by apply Z.shiftr_nonneg]. Qed.

Lemma next_pow2_log n : 1 < n ≤ 2 ^ 63 → next_pow2 n = 2 ^ (Z.log2 (n - 1) + 1).
Proof.
  intros Hn. unfold next_pow2. rewrite (wrap64_small (n - 1)) by lia.
  set (m := smear (smear (smear (smear (smear (smear (n - 1) 1) 2) 4) 8) 16) 32).
  assert (m = Z.ones (Z.log2 (n - 1) + 1)) as ->.
  { apply covers_ones; [lia|repeat apply smear_nonneg; lia|].
    change 64 with (1 + 1 + 2 + 4 + 8 + 16 + 32). subst m. repeat (apply covers_smear; [|lia]).
    apply covers_self. }
  rewrite Z.ones_equiv. replace (Z.pred _ + 1) with (2 ^ (Z.log2 (n - 1) + 1)) by lia.
  apply wrap64_small. split; [apply Z.pow_nonneg; lia|].
  apply Z.le_lt_trans with (2 ^ 63); [|lia]. apply Z.pow_le_mono_r; [lia|].
  enough (Z.log2 (n - 1) < 63) by lia. apply Z.log2_lt_pow2; lia.
Qed.

Lemma next_pow2_bounds n : 1 ≤ n ≤ 2 ^ 63 → n ≤ next_pow2 n < 2 * n.
Proof.
  intros Hn. destruct (decide (n = 1)) as [->|]; [vm_compute; split; congruence|].
  rewrite next_pow2_log by lia. pose proof (Z.log2_spec (n - 1) ltac:(lia)) as Hl.
  rewrite Z.add_1_r. rewrite Z.pow_succ_r in * by apply Z.log2_nonneg. lia.
Qed.

Lemma next_pow2_is_pow2 n : 1 ≤ n ≤ 2 ^ 63 → ∃ h, 0 ≤ h ≤ 63 ∧ next_pow2 n = 2 ^ h.
Proof.
  intros Hn. destruct (decide (n = 1)) as [->|]; [by exists 0|].
  exists (Z.log2 (n - 1) + 1). rewrite next_pow2_log by lia. split; [|done].
  pose proof (Z.log2_nonneg (n - 1)). enough (Z.log2 (n - 1) < 63) by lia. apply Z.log2_lt_pow2; lia.
Qed.

Lemma next_pow2_split (n : nat) :
  (1 < n)%nat → Z.of_nat n ≤ 2 ^ 63 →
  Z.shiftr (next_pow2 (Z.of_nat n)) 1 = Z.of_nat (split_size n).
Proof.
  intros Hn Hb. rewrite next_pow2_log by lia. pose proof (Z.log2_nonneg (Z.of_nat n - 1)) as Hl0.
  rewrite (split_size_pow (Z.to_nat (Z.log2 (Z.of_nat n - 1)))).
  - rewrite Z.shiftr_div_pow2, Z.pow_add_r by lia. rewrite Nat2Z.inj_pow, Z2Nat.id by lia.
    rewrite Z.div_mul by lia. done.
  - pose proof (Z.log2_spec (Z.of_nat n - 1) ltac:(lia)) as Hl.
    rewrite Nat.pow_succ_r'. rewrite Z.pow_succ_r in Hl by done.
    assert (Z.of_nat (2 ^ Z.to_nat (Z.log2 (Z.of_nat n - 1))) = 2 ^ Z.log2 (Z.of_nat n - 1))
      by (rewrite Nat2Z.inj_pow, Z2Nat.id by lia; done). lia.
Qed.

(** ** Positions *)

Lemma file_position_loop_fsib `{LightAlgorithm T} n (l : list T) j pos :
  (length l ≤ n)%nat → (j < length l)%nat → Z.of_nat (length l) ≤ 2 ^ 63 →
  file_position_loop (reverse (fsib l j).*2) (Z.of_nat (length l)) pos = Ok (pos + Z.of_nat j).
Proof.
  revert l j pos. induction n as [|n IH]; intros l j pos Hn Hj Hb; [lia|].
  destruct (decide (length l ≤ 1)%nat) as [Hle|Hgt].
  { rewrite fsib_short by done. cbn. rewrite (proj2 (Z.eqb_eq _ _)) by lia. f_equal. lia. }
  pose proof (split_size_spec (length l) ltac:(lia)) as Hk.
  rewrite fsib_split by lia. cbn zeta. set (k := split_size (length l)) in *.
  assert (length (take k l) = k) as Ht by (rewrite length_take; lia).
  assert (length (drop k l) = (length l - k)%nat) as Hd by apply length_drop.
  case_bool_decide; rewrite fmap_app, reverse_app; cbn [fmap list_fmap reverse rev_append app file_position_loop snd];
    rewrite (proj2 (Z.leb_gt _ _)), next_pow2_split by lia; fold k.
  - specialize (IH (take k l) j pos). rewrite Ht in IH. apply IH; lia.
  - specialize (IH (drop k l) (j - k)%nat (pos + Z.of_nat k)). rewrite Hd, Nat2Z.inj_sub in IH by lia.
    etrans; [apply IH; lia|]. f_equal. lia.
Qed.

Lemma file_position_loop_bounds bs n pos p :
  file_position_loop bs n pos = Ok p → n ≤ 2 ^ 63 → pos ≤ p < pos + n.
Proof.
  revert n pos. induction bs as [|b bs IH]; intros n pos Hp Hn; cbn in Hp.
  { destruct (Z.eqb_spec n 1); simplify_eq. lia. }
  destruct (Z.leb_spec n 1) as [|Hgt]; [done|].
  assert (0 < Z.shiftr (next_pow2 n) 1 < n) as Hs.
  { rewrite <- (Z2Nat.id n) by lia. rewrite next_pow2_split by lia.
    pose proof (split_size_spec (Z.to_nat n) ltac:(lia)). lia. }
  destruct b; apply IH in Hp; lia.
Qed.

(** ** The pairs that are hashed *)

Section pairs.
Context `{LightAlgorithm T}.
Implicit Types l : list T.

Definition node_of_pair (p : T * T) : T := la_node p.1 p.2.

(** A pair of [P] and a different pair of [Q] with the same hash. *)
Definition node_collision (P Q : list (T * T)) : Prop :=
  ∃ p q, p ∈ P ∧ q ∈ Q ∧ p ≠ q ∧ node_of_pair p = node_of_pair q.

(** The pairs hashed in the tree over [l]. *)
Fixpoint fpairs_fuel (fuel : nat) l : list (T * T) :=
  match fuel with
  | O => []
  | S fuel' =>
      if bool_decide (length l ≤ 1)%nat then []
      else let k := split_size (length l) in
           (froot (take k l), froot (drop k l))
             :: fpairs_fuel fuel' (take k l) ++ fpairs_fuel fuel' (drop k l)
  end.

Definition fpairs l : list (T * T) := fpairs_fuel (length l) l.

(** The pairs hashed on the way up from [x]. *)
Fixpoint fold_pairs (x : T) (ls : list T) (bs : list bool) : list (T * T) :=
  match ls, bs with
  | s :: ls', b :: bs' =>
      let p := if (b : bool) then (x, s) else (s, x) in
      p :: fold_pairs (node_of_pair p) ls' bs'
  | _, _ => []
  end.

Lemma fpairs_fuel_enough f1 f2 l :
  (length l ≤ f1)%nat → (length l ≤ f2)%nat → fpairs_fuel f1 l = fpairs_fuel f2 l.
Proof.
  revert f2 l. induction f1 as [|f1 IH]; intros f2 l H1 H2.
  { destruct f2; [done|]. cbn. by rewrite bool_decide_true by lia. }
  destruct f2 as [|f2]; [cbn; by rewrite bool_decide_true by lia|].
  cbn [fpairs_fuel]. case_bool_decide as Hl; [done|].
  pose proof (split_size_spec (length l) ltac:(lia)).
  cbn zeta. f_equal. f_equal; apply IH; rewrite ?length_take, ?length_drop; lia.
Qed.

Lemma fpairs_split l :
  (1 < length l)%nat →
  fpairs l = (froot (take (split_size (length l)) l), froot (drop (split_size (length l)) l))
    :: fpairs (take (split_size (length l)) l) ++ fpairs (drop (split_size (length l)) l).
Proof.
  intros Hl. pose proof (split_size_spec (length l) Hl) as Hk. unfold fpairs at 1.
  destruct (length l) as [|n] eqn:Hn; [lia|]. cbn [fpairs_fuel]. rewrite Hn.
  rewrite bool_decide_false by lia. cbn zeta.
  f_equal. f_equal; apply fpairs_fuel_enough; rewrite ?length_take, ?length_drop; lia.
Qed.

Lemma fold_pairs_app x ls1 bs1 ls2 bs2 :
  length ls1 = length bs1 →
  fold_pairs x (ls1 ++ ls2) (bs1 ++ bs2) =
    fold_pairs x ls1 bs1 ++ fold_pairs (fold_sib x (zip ls1 bs1)) ls2 bs2.
Proof.
  revert x bs1. induction ls1 as [|s ls1 IH]; intros x [|b bs1] Hlen; try done.
  cbn. f_equal. rewrite IH by (cbn in Hlen; lia). by destruct b.
Qed.

Lemma node_collision_mono P P' Q Q' :
  P ⊆ P' → Q ⊆ Q' → node_collision P Q → node_collision P' Q'.
Proof. intros HP HQ (p & q & Hp & Hq & Hne & Heq). exists p, q. split_and!; auto. Qed.

Lemma fold_sib_snoc x ls bs s (b : bool) :
  length ls = length bs →
  fold_sib x (zip (ls ++ [s]) (bs ++ [b])) =
    node_of_pair (if b then (fold_sib x (zip ls bs), s) else (s, fold_sib x (zip ls bs))).
Proof.
  intros Hlen. rewrite zip_with_app by done. unfold fold_sib. rewrite foldl_app. by destruct b.
Qed.

(** A path that folds to the root of [l] starts at the leaf at its position. *)
Lemma fold_sib_sound n l x ls bs pos j :
  (length l ≤ n)%nat → Z.of_nat (length l) ≤ 2 ^ 63 → length ls = length bs →
  file_position_loop (reverse bs) (Z.of_nat (length l)) pos = Ok (pos + Z.of_nat j) →
  fold_sib x (zip ls bs) = froot l →
  l !! j = Some x ∨ node_collision (fold_pairs x ls bs) (fpairs l).
Proof.
  revert l ls bs pos j. induction n as [|n IH]; intros l ls bs pos j Hn Hb Hlen Hpos Hroot.
  { exfalso. apply file_position_loop_bounds in Hpos; lia. }
  destruct bs as [|b bs _] using rev_ind.
  { destruct ls; [|done]. cbn in Hpos. destruct (Z.eqb_spec (Z.of_nat (length l)) 1) as [Hl|]; [|done].
    injection Hpos as ?. left. cbn in Hroot. subst x.
    destruct l as [|x [|]]; [done| |cbn in Hl; lia]. by replace j with 0%nat by lia. }
  destruct ls as [|s ls _] using rev_ind; [rewrite length_app in Hlen; cbn in Hlen; lia|].
  rewrite !length_app in Hlen. cbn in Hlen. assert (length ls = length bs) as Hlen' by lia.
  rewrite fold_sib_snoc in Hroot by done. rewrite fold_pairs_app by done.
  rewrite reverse_app in Hpos. cbn [reverse rev_append app file_position_loop] in Hpos.
  destruct (Z.leb_spec (Z.of_nat (length l)) 1) as [|Hgt]; [done|].
  rewrite next_pow2_split in Hpos by lia. rewrite froot_split in Hroot by lia. rewrite fpairs_split by lia.
  pose proof (split_size_spec (length l) ltac:(lia)) as Hk. set (k := split_size (length l)) in *.
  assert (length (take k l) = k) as Ht by (rewrite length_take; lia).
  assert (length (drop k l) = (length l - k)%nat) as Hd by apply length_drop.
  destruct (decide ((if b then (fold_sib x (zip ls bs), s) else (s, fold_sib x (zip ls bs)))
    = (froot (take k l), froot (drop k l)))) as [Hpq|Hpq].
  - destruct b; injection Hpq as Hp1 Hp2.
    + rewrite <- Ht in Hpos. destruct (IH (take k l) ls bs pos j) as [Hj|Hj]; [lia..|done|done|done| |].
      * left. by apply lookup_take_Some in Hj as [].
      * right. revert Hj. apply node_collision_mono; set_solver.
    + rewrite <- Nat2Z.inj_sub, <- Hd in Hpos by lia.
      pose proof (file_position_loop_bounds _ _ _ _ Hpos ltac:(lia)).
      replace (pos + Z.of_nat j) with (pos + Z.of_nat k + Z.of_nat (j - k)) in Hpos by lia.
      destruct (IH (drop k l) ls bs (pos + Z.of_nat k) (j - k)%nat) as [Hj|Hj]; [lia..|done|done|done| |].
      * left. rewrite lookup_drop in Hj. by replace (k + (j - k))%nat with j in Hj by lia.
      * right. revert Hj. apply node_collision_mono; set_solver.
  - right. eexists _, _. split_and!; [|left|exact Hpq|exact Hroot]. apply elem_of_app. right. left.
Qed.

End pairs.

(** ** Sizes *)

Lemma bytes_to_chunks_bounds size :
  0 ≤ size → size ≤ bytes_to_chunks size * CHUNK_SIZE < size + CHUNK_SIZE.
Proof.
  intros Hs. unfold bytes_to_chunks. assert (CHUNK_SIZE = 256) as -> by done.
  pose proof (Z.div_mod size 256 ltac:(lia)). pose proof (Z.mod_pos_bound size 256 ltac:(lia)).
  destruct (Z.eqb_spec (size `mod` 256) 0); lia.
Qed.

Lemma round_up_bounds len m c :
  0 < m → 1 ≤ len → len ≤ m * c → len ≤ ((len - 1) / m + 1) * m < len + m ∧ ((len - 1) / m + 1) * m ≤ m * c.
Proof.
  intros Hm Hl Hc. pose proof (Z.div_mod (len - 1) m ltac:(lia)).
  pose proof (Z.mod_pos_bound (len - 1) m ltac:(lia)). split; [lia|].
  assert ((len - 1) / m < c) by (apply Z.div_lt_upper_bound; lia). nia.
Qed.

Lemma next_pow2_min_chunk n :
  1 ≤ n ≤ 2 ^ 63 →
  let m := if next_pow2 n <? 16 then 1 else Z.shiftr (next_pow2 n) 4 in
  ∃ c, next_pow2 n = m * c ∧ 0 < m ∧ m <= Z.max 1 (next_pow2 n / 16).
Proof.
  intros Hn m. subst m. pose proof (next_pow2_bounds n Hn). destruct (Z.ltb_spec (next_pow2 n) 16) as [|Hge].
  { exists (next_pow2 n). lia. }
  destruct (next_pow2_is_pow2 n Hn) as (h & Hh & Heq). rewrite Heq in *. rewrite Z.shiftr_div_pow2 by lia.
  assert (4 ≤ h). { apply (Z.pow_le_mono_r_iff 2); lia. }
  exists 16. replace h with (h - 4 + 4) by lia. rewrite Z.pow_add_r, Z.div_mul by lia.
  change (2 ^ 4) with 16. rewrite Z.div_mul by lia. pose proof (Z.pow_pos_nonneg 2 (h - 4)). lia.
Qed.

(** C34: padding a file of [size] bytes ([compute_padded_chunk_size]) keeps all
    its data and stays within the next power of two of chunks, and the padding
    is smaller than one sixteenth of that power of two (smaller than one chunk
    for fewer than 16). *)
Theorem padded_chunk_size_bounds (size : Z) :
  0 < size < 2 ^ 64 →
  let '(padded, pow2) := compute_padded_chunk_size size in
  size ≤ bytes_to_chunks size * CHUNK_SIZE ∧ bytes_to_chunks size ≤ padded ≤ pow2 ∧
  padded < bytes_to_chunks size + Z.max 1 (pow2 / 16) ∧
  pow2 < 2 * bytes_to_chunks size ∧ ∃ h, 0 ≤ h ∧ pow2 = 2 ^ h.
Proof.
  intros Hs. pose proof (bytes_to_chunks_bounds size ltac:(lia)) as Hb. unfold compute_padded_chunk_size.
  assert (CHUNK_SIZE = 256) as HC by done. rewrite HC in Hb.
  set (len := bytes_to_chunks size) in *. assert (1 ≤ len ≤ 2 ^ 63) as Hlen by lia.
  pose proof (next_pow2_bounds len Hlen) as Hp. destruct (next_pow2_is_pow2 len Hlen) as (h & Hh & Heq).
  assert (∃ h, 0 ≤ h ∧ next_pow2 len = 2 ^ h) by (exists h; split; [lia|done]).
  destruct (Z.eqb_spec (next_pow2 len) len) as [He|Hne]; [rewrite HC; split_and!; lia || done|].
  destruct (next_pow2_min_chunk len Hlen) as (c & Hc & Hm & Hm2).
  set (m := if next_pow2 len <? 16 then 1 else Z.shiftr (next_pow2 len) 4) in *. cbn zeta.
  destruct (round_up_bounds len m c) as [H1 H2]; [lia..|].
  rewrite (wrap64_small (len - 1)), wrap64_small by lia. rewrite HC. split_and!; lia || done.
Qed.

Lemma padded_chunk_size_bounds_witness :
  compute_padded_chunk_size 5000 = (20, 32) ∧ bytes_to_chunks 5000 ≤ 20 ≤ 32.
Proof.
  split; [vm_compute; reflexivity|].
  pose proof (padded_chunk_size_bounds 5000 ltac:(lia)) as Hb.
  change (compute_padded_chunk_size 5000) with (20, 32) in Hb. apply Hb.
Defined.

(** ** [FileProof::validate] *)

Section file_proofs.
Context `{Keccak}.
Implicit Types F : list H256.

(** The pairs hashed by [FileProof::validate]. *)
Definition file_proof_pairs (p : FileProof) : list (H256 * H256) :=
  match fp_lemma p with
  | [] => []
  | x :: rest => fold_pairs x (take (length rest - 1) rest) (fp_path p)
  end.

Lemma raw_file_proof_lemma F j x :
  F !! j = Some x →
  raw_file_proof (file_proof_new (file_lemma F j x) (fsib F j).*2) =
    Ok (LightProof_mk (file_lemma F j x) (fsib F j).*2).
Proof.
  intros Hx. pose proof (lookup_lt_Some _ _ _ Hx). unfold raw_file_proof, file_proof_new, file_lemma.
  cbn [fp_lemma fp_path]. destruct (decide (length F = 1%nat)) as [Hl|Hl].
  - rewrite fsib_short by lia. rewrite (bool_decide_true (length F = 1%nat)) by done. done.
  - rewrite (bool_decide_false (length F = 1%nat)) by done.
    pose proof (fsib_nonempty F j ltac:(lia)) as Hne. destruct (fsib F j) as [|sb sibs] eqn:E; [done|].
    rewrite (bool_decide_false ((sb :: sibs).*2 = [])) by done.
    assert (length (x :: (sb :: sibs).*1 ++ [froot F]) = (length (sb :: sibs).*2 + 2)%nat) as Hlen
      by (cbn; rewrite length_app, !length_fmap; cbn; lia).
    assert (2 < length (x :: (sb :: sibs).*1 ++ [froot F]))%nat as Hlen2 by (rewrite Hlen; cbn; lia).
    rewrite bool_decide_true by (right; done). unfold light_proof_new.
    rewrite bool_decide_true by done. rewrite bool_decide_true by (rewrite Hlen; lia). done.
Qed.

Lemma last_file_lemma F j x : F !! j = Some x → last (file_lemma F j x) = Some (froot F).
Proof.
  intros Hx. unfold file_lemma. case_bool_decide as Hl.
  - destruct F as [|y [|]]; [done| |done]. destruct j; [|done]. cbn in *. by simplify_eq.
  - change (x :: ?a ++ ?b) with ((x :: a) ++ b). apply last_snoc.
Qed.

(** C32: the tree that [MerkleTree::new] builds over the leaf hashes of a file
    has the root of the reference tree, and for every leaf it generates a
    proof that [FileProof::validate] accepts for that leaf, root and position.
    No leaf is the null hash and no inner node hashes to it. *)
Theorem file_proofs_complete F (j : nat) (x : H256) :
  LightAlgorithmLaws H256 → Forall (λ y, y ≠ null_node) F → F !! j = Some x →
  Z.of_nat (length F) ≤ 2 ^ 63 →
  ∃ mt p, light_new F = Ok mt ∧ light_root mt = Ok (froot F) ∧ light_gen_proof mt j = Ok p ∧
    file_proof_validate (file_proof_new (lp_lemma p) (lp_path p)) x (froot F)
      (Z.of_nat j) (Z.of_nat (length F)) = Ok true.
Proof.
  intros Hlaws Hnull Hx Hb. pose proof (lookup_lt_Some _ _ _ Hx) as Hj.
  destruct (light_new_spec F) as (mt & Hnew & Hn & Hbt & Hpre); [done|by intros ->|].
  destruct (built_root _ _ _ _ Hbt) as (Hr & _ & _).
  exists mt, (LightProof_mk (file_lemma F j x) (fsib F j).*2).
  split_and!; [done|unfold light_root; by rewrite Hr|by apply light_gen_proof_spec|].
  cbn [lp_lemma lp_path]. unfold file_proof_validate, file_position.
  cbn [fp_path file_proof_new]. rewrite (file_position_loop_fsib (length F)) by lia.
  rewrite !bind_Ok, Z.add_0_l. rewrite (bool_decide_false (_ ≠ _)) by naive_solver.
  rewrite raw_file_proof_lemma by done. rewrite !bind_Ok, light_validate_file by done.
  rewrite !bind_Ok. cbn [negb lp_lemma]. rewrite last_file_lemma by done. cbn [expect mret].
  rewrite !bind_Ok. rewrite (bool_decide_false (froot F ≠ froot F)) by naive_solver.
  assert (head (file_lemma F j x) = Some x) as -> by (unfold file_lemma; by case_bool_decide).
  cbn [expect]. rewrite !bind_Ok. by rewrite (bool_decide_false (x ≠ x)) by naive_solver.
Qed.

Lemma raw_file_proof_inv p q :
  raw_file_proof p = Ok q →
  q = LightProof_mk (fp_lemma p) (fp_path p) ∧
  ((∃ y, fp_lemma p = [y] ∧ fp_path p = []) ∨
   ∃ y ls r, fp_lemma p = y :: ls ++ [r] ∧ length ls = length (fp_path p) ∧ ls ≠ []).
Proof.
  unfold raw_file_proof, light_proof_new. intros Hq. case_bool_decide as Hs; [|done].
  assert (q = LightProof_mk (fp_lemma p) (fp_path p)) as ->
    by (repeat case_bool_decide; by simplify_eq). split; [done|].
  destruct Hs as [[Hl Hp]|[Hl Hp]].
  - left. destruct (fp_lemma p) as [|y [|]]; [done| |done]. by exists y.
  - right. destruct (fp_lemma p) as [|y rest]; [cbn in Hl; lia|].
    destruct rest as [|r ls _] using rev_ind; [cbn in Hl; lia|]. exists y, ls, r.
    cbn in Hl, Hp. rewrite length_app in Hl, Hp. cbn in Hl, Hp. split_and!; [done|lia|].
    intros ->. cbn in Hl. lia.
Qed.

Lemma light_validate_fold (y r : H256) ls bs :
  length ls = length bs → ls ≠ [] →
  light_validate (LightProof_mk (y :: ls ++ [r]) bs) = Ok (bool_decide (fold_sib y (zip ls bs) = r)).
Proof.
  intros Hlen Hne. unfold light_validate. cbn [lp_lemma lp_path].
  assert (length (y :: ls ++ [r]) = (length ls + 2)%nat) as Hl by (cbn; rewrite length_app; cbn; lia).
  rewrite Hl. rewrite bool_decide_false by (intros [? _]; lia). rewrite bool_decide_false by lia.
  cbn [head expect drop]. rewrite !bind_Ok. replace (length ls + 2 - 2)%nat with (length ls) by lia.
  rewrite drop_0, take_app_length.
  assert (light_fold y ls bs = Ok (fold_sib y (zip ls bs))) as ->
    by (rewrite <- light_fold_sib, fst_zip, snd_zip by lia; done).
  rewrite !bind_Ok. change (y :: ls ++ [r]) with ((y :: ls) ++ [r]). by rewrite last_snoc.
Qed.

Lemma file_proof_validate_inv p leaf root pos n :
  file_proof_validate p leaf root pos n = Ok true →
  file_position p n = Ok pos ∧
  ((fp_lemma p = [leaf] ∧ fp_path p = [] ∧ root = leaf) ∨
   ∃ ls, fp_lemma p = leaf :: ls ++ [root] ∧ length ls = length (fp_path p) ∧
     fold_sib leaf (zip ls (fp_path p)) = root).
Proof.
  unfold file_proof_validate. intros (pos' & Hpos & Hv)%bind_Ok_inv.
  case_bool_decide as Hp; [done|]. subst pos'. split; [done|].
  apply bind_Ok_inv in Hv as (q & Hq & Hv). apply bind_Ok_inv in Hv as ([] & Hok & Hv); [|done].
  cbn [negb] in Hv. apply raw_file_proof_inv in Hq as (-> & Hs). cbn [lp_lemma] in Hv.
  apply bind_Ok_inv in Hv as (r' & Hr & Hv). case_bool_decide; [done|]. subst r'.
  apply bind_Ok_inv in Hv as (y' & Hy & Hv). case_bool_decide; [done|]. subst y'.
  destruct Hs as [(y & Hl & Hp)|(y & ls & r & Hl & Hlen & Hne)]; rewrite Hl in *.
  - left. cbn in Hr, Hy. by simplify_eq.
  - right. cbn in Hy. change (y :: ls ++ [r]) with ((y :: ls) ++ [r]) in Hr.
    rewrite last_snoc in Hr. cbn in Hr. simplify_eq. exists ls. split_and!; [done|done|].
    rewrite light_validate_fold in Hok by done. injection Hok as Hok. by apply bool_decide_eq_true in Hok.
Qed.

(** C23: what [FileProof::validate] accepts is in the file: if the root is the
    root over the leaves [F] and the count is theirs, then the leaf at the
    given position of [F] is the given one, unless a pair hashed by the
    verifier collides with a pair hashed in the tree. *)
Theorem file_proof_validate_sound F (p : FileProof) (leaf : H256) (j : nat) :
  Z.of_nat (length F) ≤ 2 ^ 63 →
  file_proof_validate p leaf (froot F) (Z.of_nat j) (Z.of_nat (length F)) = Ok true →
  F !! j = Some leaf ∨ node_collision (file_proof_pairs p) (fpairs F).
Proof.
  intros Hb (Hpos & Hcase)%file_proof_validate_inv. unfold file_position in Hpos.
  rewrite <- (Z.add_0_l (Z.of_nat j)) in Hpos. unfold file_proof_pairs.
  destruct Hcase as [(Hl & Hp & Hr)|(ls & Hl & Hlen & Hf)]; rewrite Hl.
  - apply (fold_sib_sound (length F) F leaf [] (fp_path p) 0); rewrite Hp in *; [done..|].
    cbn. by rewrite Hr.
  - rewrite length_app. cbn [length]. replace (length ls + 1 - 1)%nat with (length ls) by lia.
    rewrite take_app_length. by apply (fold_sib_sound (length F) F leaf ls (fp_path p) 0).
Qed.

End file_proofs.

(** ** Proofs from the subtree roots of a transaction *)

Section node_proofs.
Context `{Keccak}.
Implicit Types (nodes pre post : list (Z * H256)) (tx : Transaction).

(** The root over subtrees, the last two combined first. *)
Fixpoint nodes_root nodes : option H256 :=
  match nodes with
  | [] => None
  | (_, r) :: rest =>
      Some match nodes_root rest with Some x => sha3_parent r x | None => r end
  end.

Definition entries nodes : Z := foldr (λ n s, 2 ^ (n.1 - 1) + s) 0 nodes.

(** What the flow contract guarantees of a submission: subtrees of strictly
    decreasing depth, whose combined root is the root of the data. *)
Record tx_wf tx : Prop := {
  tw_sorted : StronglySorted (λ a b : Z * H256, b.1 < a.1) (merkle_nodes tx);
  tw_depths : Forall (λ n : Z * H256, 1 ≤ n.1 ≤ 63) (merkle_nodes tx);
  tw_root : nodes_root (merkle_nodes tx) = Some (data_merkle_root tx);
}.

Definition comb pre (x : H256) : H256 := foldr (λ (n : Z * H256) acc, sha3_parent n.2 acc) x pre.

Lemma nodes_root_app pre post x :
  nodes_root post = Some x → nodes_root (pre ++ post) = Some (comb pre x).
Proof. intros Hp. induction pre as [|[d r] pre IH]; [done|]. cbn. by rewrite IH. Qed.

Lemma merkle_root_loop_spec pre post mx x :
  Forall (λ n : Z * H256, mx ≤ n.1) pre → Forall (λ n : Z * H256, n.1 < mx) post →
  merkle_root_loop (reverse post ++ reverse pre) mx x = comb post x.
Proof.
  intros Hpre. revert x. induction post as [|[d r] post IH] using rev_ind; intros x Hpost.
  - destruct pre as [|[d r] pre _] using rev_ind; [done|]. rewrite reverse_snoc. cbn.
    apply Forall_app in Hpre as [_ [Hd _]%Forall_cons]. cbn in Hd. by rewrite (proj2 (Z.leb_le _ _)).
  - rewrite reverse_snoc. cbn. apply Forall_app in Hpost as [Hpost [Hd _]%Forall_cons]. cbn in Hd.
    rewrite (proj2 (Z.leb_gt _ _)), IH by done. unfold comb. by rewrite foldr_app.
Qed.

Lemma compute_merkle_root_spec tx pre post mx :
  merkle_nodes tx = pre ++ post →
  Forall (λ n : Z * H256, mx ≤ n.1) pre → Forall (λ n : Z * H256, n.1 < mx) post →
  compute_merkle_root tx mx = nodes_root post.
Proof.
  intros Hn Hpre Hpost. unfold compute_merkle_root. rewrite Hn, reverse_app.
  destruct post as [|[d r] post _] using rev_ind.
  - destruct pre as [|[d r] pre _] using rev_ind; [done|]. rewrite reverse_snoc. cbn.
    apply Forall_app in Hpre as [_ [Hd _]%Forall_cons]. cbn in Hd. by rewrite (proj2 (Z.leb_le _ _)).
  - rewrite reverse_snoc. cbn. apply Forall_app in Hpost as [Hpost [Hd _]%Forall_cons]. cbn in Hd.
    rewrite (proj2 (Z.leb_gt _ _)), merkle_root_loop_spec by done.
    by rewrite (nodes_root_app _ _ r).
Qed.

Lemma fold_sib_pre pre x :
  fold_sib x (zip (reverse pre.*2) (reverse ((λ _, false) <$> pre.*2))) = comb pre x.
Proof.
  revert x. induction pre as [|[d r] pre IH] using rev_ind; intros x; [done|].
  trans (comb pre (sha3_parent r x)); [|unfold comb; by rewrite foldr_app].
  rewrite <- IH, sha3_parent_raw, !fmap_app, !reverse_app. done.
Qed.

Lemma num_entries_of_node_pow d : 1 ≤ d ≤ 63 → num_entries_of_node d = 2 ^ (d - 1).
Proof. intros Hd. unfold num_entries_of_node. by rewrite Z.mod_small by lia. Qed.

Lemma entries_bound nodes b :
  StronglySorted (λ a b : Z * H256, b.1 < a.1) nodes →
  Forall (λ n : Z * H256, 1 ≤ n.1 ≤ b) nodes → 0 ≤ b → 0 ≤ entries nodes < 2 ^ b.
Proof.
  revert b. induction nodes as [|[d r] nodes IH]; intros b Hs Hd Hb; cbn.
  { pose proof (Z.pow_pos_nonneg 2 b). lia. }
  apply StronglySorted_inv in Hs as [Hs Hlt]. apply Forall_cons in Hd as [Hd1 Hd]. cbn in Hd1, Hlt.
  assert (0 ≤ entries nodes < 2 ^ (d - 1)) as He.
  { apply IH; [done| |lia]. eapply Forall_impl; [apply Forall_and; split; [exact Hlt|exact Hd]|]. cbn. lia. }
  assert (2 ^ (d - 1 + 1) ≤ 2 ^ b) as Hp by (apply Z.pow_le_mono_r; lia).
  rewrite Z.pow_add_r, Z.pow_1_r in Hp by lia.
  pose proof (Z.pow_pos_nonneg 2 (d - 1)). fold (entries nodes). lia.
Qed.

Lemma entries_nonneg nodes : Forall (λ n : Z * H256, 1 ≤ n.1 ≤ 63) nodes → 0 ≤ entries nodes.
Proof.
  induction 1 as [|n nodes Hn Hd IH]; cbn; [lia|]. pose proof (Z.pow_pos_nonneg 2 (n.1 - 1)).
  fold (entries nodes). lia.
Qed.

Lemma num_entries_of_list_entries nodes s :
  Forall (λ n : Z * H256, 1 ≤ n.1 ≤ 63) nodes → 0 ≤ s → s + entries nodes < 2 ^ 64 →
  foldl (λ size n, wrap64 (size + num_entries_of_node n.1)) s nodes = s + entries nodes.
Proof.
  revert s. induction nodes as [|[d r] nodes IH]; intros s Hd Hs Hb; cbn in *; [lia|].
  apply Forall_cons in Hd as [Hd1 Hd]. cbn in Hd1. rewrite num_entries_of_node_pow by done.
  pose proof (Z.pow_pos_nonneg 2 (d - 1)).
  pose proof (entries_nonneg nodes Hd). fold (entries nodes) in *.
  rewrite wrap64_small by lia. rewrite IH by (done || lia). lia.
Qed.

Lemma log2_pow2_pow s : 0 ≤ s < 64 → log2_pow2 (2 ^ s) = s.
Proof.
  intros Hs. unfold log2_pow2. rewrite <- (Z2Nat.id s) at 1 2 by lia.
  assert (Z.to_nat s < 64)%nat as Hn by lia. revert Hn. generalize 64%nat as f. generalize (Z.to_nat s) as n.
  clear. intros n f. revert n. induction f as [|f IH]; intros n Hn; [lia|]. cbn [trailing_zeros_from].
  destruct n as [|n]; [done|]. rewrite Nat2Z.inj_succ, Z.pow_succ_r by lia.
  rewrite Z.odd_mul. cbn [Z.odd andb]. rewrite Z.mul_comm, Z.div_mul, IH by lia. lia.
Qed.

Lemma find_node_spec nodes idx cps total before :
  Forall (λ n : Z * H256, 1 ≤ n.1 ≤ 63) nodes →
  0 ≤ total ≤ idx → total + entries nodes < 2 ^ 64 →
  ∃ pre post, nodes = pre ++ post ∧
    (find_node nodes idx cps total before).2 = before ++ pre.*2 ∧
    Forall (λ n : Z * H256, cps ≤ 2 ^ (n.1 - 1)) pre ∧
    match (find_node nodes idx cps total before).1 with
    | Some n => ∃ post', post = n :: post' ∧ cps ≤ 2 ^ (n.1 - 1) ∧
        total + entries pre ≤ idx < total + entries pre + 2 ^ (n.1 - 1)
    | None => match post with
              | [] => total + entries nodes ≤ idx
              | n :: _ => 2 ^ (n.1 - 1) < cps
              end
    end.
Proof.
  revert total before. induction nodes as [|[d r] nodes IH]; intros total before Hd Ht Hb.
  { exists [], []. cbn. rewrite app_nil_r. split_and!; [done..|lia]. }
  apply Forall_cons in Hd as [Hd1 Hd]. cbn in Hd1, Hb. fold (entries nodes) in Hb.
  pose proof (entries_nonneg nodes Hd). pose proof (Z.pow_pos_nonneg 2 (d - 1)).
  cbn [find_node]. rewrite num_entries_of_node_pow by done. cbn zeta.
  rewrite wrap64_small by lia.
  destruct (Z.ltb_spec (2 ^ (d - 1)) cps) as [Hlt|Hge].
  { exists [], ((d, r) :: nodes). cbn. rewrite app_nil_r. auto. }
  destruct (Z.ltb_spec idx (total + 2 ^ (d - 1))) as [Hi|Hi].
  { exists [], ((d, r) :: nodes). cbn. rewrite app_nil_r. split_and!; [done..|].
    exists nodes. split_and!; [done|done|lia|lia]. }
  destruct (IH (total + 2 ^ (d - 1)) (before ++ [r])) as (pre & post & -> & Hbef & Hpre & Hres); [done|lia..|].
  exists ((d, r) :: pre), post. cbn [fmap list_fmap]. rewrite Hbef, <- app_assoc.
  split_and!; [done|done|by constructor|]. cbn [entries foldr app fst]. fold (entries pre).
  fold (entries (pre ++ post)). destruct (find_node _ _ _ _ _).1.
  - destruct Hres as (post' & Hp & Hc & Hi'). exists post'. split_and!; [done|done|lia|lia].
  - destruct post; [lia|done].
Qed.

(** The proof over [x], its siblings and the root of the data. *)
Lemma file_proof_new_valid (x root : H256) ls bs :
  length ls = length bs → fold_sib x (zip ls bs) = root →
  ∃ q, raw_file_proof (file_proof_new (x :: ls ++ [root]) bs) = Ok q ∧ light_validate q = Ok true ∧
    head (lp_lemma q) = Some x ∧ last (lp_lemma q) = Some root.
Proof.
  intros Hlen Hf. destruct ls as [|s ls]; destruct bs as [|b bs]; try done.
  { exists (LightProof_mk [x] []). cbn in Hf. by subst. }
  exists (LightProof_mk (x :: (s :: ls) ++ [root]) (b :: bs)).
  unfold raw_file_proof, file_proof_new, light_proof_new. cbn [fp_lemma fp_path].
  assert (length (x :: (s :: ls) ++ [root]) = (length (b :: bs) + 2)%nat) as Hl
    by (cbn in *; rewrite length_app; cbn; lia).
  rewrite (bool_decide_false (b :: bs = [])) by done. rewrite Hl.
  rewrite bool_decide_true by (right; cbn; lia). rewrite bool_decide_true by (cbn; lia).
  rewrite bool_decide_true by lia. rewrite light_validate_fold by done.
  rewrite bool_decide_true by done. split_and!; [done..|].
  cbn [lp_lemma]. change (x :: (s :: ls) ++ [root]) with ((x :: s :: ls) ++ [root]). apply last_snoc.
Qed.

Lemma sorted_split pre n post :
  StronglySorted (λ a b : Z * H256, b.1 < a.1) (pre ++ n :: post) →
  Forall (λ a : Z * H256, n.1 < a.1) pre ∧ Forall (λ a : Z * H256, a.1 < n.1) post.
Proof.
  induction pre as [|a pre IH]; cbn; intros [Hs Hall]%StronglySorted_inv; [done|].
  destruct (IH Hs) as [H1 H2]. split; [|done]. constructor; [|done].
  apply Forall_app in Hall as [_ [Hn _]%Forall_cons]. done.
Qed.

Lemma filter_depth pre post s :
  Forall (λ n : Z * H256, s < n.1) pre → Forall (λ n : Z * H256, n.1 ≤ s) post →
  filter (λ n : Z * H256, n.1 ≤ s) (pre ++ post) = post.
Proof.
  intros Hpre Hpost. induction Hpre as [|n pre Hn Hpre IH]; cbn [app].
  - induction Hpost as [|n post Hn Hpost IH]; [done|]. rewrite filter_cons, decide_True by done. by rewrite IH.
  - rewrite filter_cons, decide_False by lia. done.
Qed.

(** The node that contains the index. *)
Lemma node_proof_full tx pre d r post :
  tx_wf tx → merkle_nodes tx = pre ++ (d, r) :: post →
  ∃ q, raw_file_proof (let '(lem, path) :=
        match compute_merkle_root tx d with
        | Some right_root => ((data_merkle_root tx :: pre.*2) ++ [right_root], ((λ _, false) <$> pre.*2) ++ [true])
        | None => (data_merkle_root tx :: pre.*2, (λ _, false) <$> pre.*2)
        end in file_proof_new (reverse (lem ++ [r])) (reverse path)) = Ok q ∧ light_validate q = Ok true ∧
    head (lp_lemma q) = Some r ∧ last (lp_lemma q) = Some (data_merkle_root tx).
Proof.
  intros [Hs Hd Hr] Hn. rewrite Hn in Hs, Hr. destruct (sorted_split _ _ _ Hs) as [Hpre Hpost]. cbn in Hpre, Hpost.
  rewrite (compute_merkle_root_spec tx (pre ++ [(d, r)]) post d).
  2: by rewrite <- app_assoc.
  2: { apply Forall_app. split; [|by repeat constructor]. eapply Forall_impl; [exact Hpre|]. cbn. lia. }
  2: done.
  rewrite (nodes_root_app pre ((d, r) :: post) (match nodes_root post with Some x => sha3_parent r x | None => r end))
    in Hr by done. injection Hr as Hr.
  destruct (nodes_root post) as [rr|] eqn:Hrr.
  - destruct (file_proof_new_valid r (data_merkle_root tx) (rr :: reverse pre.*2)
      (true :: reverse ((λ _, false) <$> pre.*2))) as (q & Hq).
    { cbn. by rewrite !length_reverse, !length_fmap. }
    { rewrite <- Hr, <- fold_sib_pre, sha3_parent_raw. done. }
    exists q. by rewrite !reverse_snoc, reverse_cons.
  - destruct (file_proof_new_valid r (data_merkle_root tx) (reverse pre.*2)
      (reverse ((λ _, false) <$> pre.*2))) as (q & Hq).
    { by rewrite !length_reverse, !length_fmap. }
    { by rewrite <- Hr, <- fold_sib_pre. }
    exists q. by rewrite !reverse_snoc, reverse_cons.
Qed.

(** The subtrees that are smaller than a segment. *)
Lemma node_proof_partial tx pre n post s :
  tx_wf tx → merkle_nodes tx = pre ++ n :: post → 0 ≤ s ≤ 62 →
  Forall (λ n : Z * H256, 2 ^ s ≤ 2 ^ (n.1 - 1)) pre → 2 ^ (n.1 - 1) < 2 ^ s →
  ∃ x q, compute_merkle_root tx (s + 1) = Some x ∧
    raw_file_proof (file_proof_new (reverse ((data_merkle_root tx :: pre.*2) ++ [x]))
      (reverse ((λ _, false) <$> pre.*2))) = Ok q ∧ light_validate q = Ok true ∧
    last (lp_lemma q) = Some (data_merkle_root tx) ∧
    head (lp_lemma q) = nodes_root (filter (λ n, n.1 ≤ s) (merkle_nodes tx)).
Proof.
  intros [Hsort Hd Hr] Hn Hs Hpre Hlt. rewrite Hn in *.
  assert (Forall (λ n : Z * H256, s < n.1) pre) as Hpre'.
  { apply Forall_app in Hd as [Hd _].
    eapply Forall_impl; [apply Forall_and; split; [exact Hpre|exact Hd]|]. cbn. intros a [Hc Ha].
    apply Z.pow_le_mono_r_iff in Hc; lia. }
  assert (Forall (λ n : Z * H256, n.1 ≤ s) (n :: post)) as Hpost'.
  { apply Z.pow_lt_mono_r_iff in Hlt; [|lia|lia].
    destruct (sorted_split _ _ _ Hsort) as [_ Hp]. constructor; [lia|].
    eapply Forall_impl; [exact Hp|]. cbn. lia. }
  destruct (nodes_root (n :: post)) as [x|] eqn:Hx; [|by destruct n].
  rewrite (nodes_root_app pre (n :: post) x Hx) in Hr. injection Hr as Hr.
  destruct (file_proof_new_valid x (data_merkle_root tx) (reverse pre.*2)
    (reverse ((λ _, false) <$> pre.*2))) as (q & Hq & Hv & Hh & Hl).
  { by rewrite !length_reverse, !length_fmap. }
  { by rewrite <- Hr, <- fold_sib_pre. }
  exists x, q. rewrite reverse_snoc, reverse_cons, (filter_depth pre (n :: post)), Hx by done.
  split_and!; [|done..]. rewrite (compute_merkle_root_spec tx pre (n :: post) (s + 1)); [done|done| |].
  - eapply Forall_impl; [exact Hpre'|]. cbn. lia.
  - eapply Forall_impl; [exact Hpost'|]. cbn. lia.
Qed.

(** [Transaction::compute_node_proof] returns for every index of a
    well-formed submission a valid proof up to the root of the data.  It starts
    at the subtree that contains the index, if this has at least a segment
    ([2 ^ s] chunks), or else at the combined root of all subtrees smaller than
    a segment. *)
Theorem node_proof_valid tx (idx s : Z) :
  tx_wf tx → 0 ≤ s ≤ 62 → 0 ≤ idx < num_entries tx →
  ∃ np q, compute_node_proof tx idx (2 ^ s) = Ok np ∧ raw_file_proof (np_proof np) = Ok q ∧
    light_validate q = Ok true ∧ last (lp_lemma q) = Some (data_merkle_root tx) ∧
    match np_leaf np with
    | Full d => ∃ pre r post, merkle_nodes tx = pre ++ (d, r) :: post ∧ s < d ∧
        entries pre ≤ idx < entries pre + 2 ^ (d - 1) ∧ head (lp_lemma q) = Some r
    | Partial => head (lp_lemma q) = nodes_root (filter (λ n, n.1 ≤ s) (merkle_nodes tx))
    end.
Proof.
  intros Hwf Hs Hi. pose proof Hwf as [Hsort Hd Hr].
  pose proof (entries_bound _ 63 Hsort Hd ltac:(lia)) as Hb.
  unfold num_entries, num_entries_of_list in Hi. rewrite num_entries_of_list_entries in Hi by (done || lia).
  destruct (find_node_spec (merkle_nodes tx) idx (2 ^ s) 0 []) as (pre & post & Hn & Hbef & Hpre & Hres);
    [done|lia..|].
  unfold compute_node_proof. destruct (find_node _ _ _ _ _) as [[[d r]|] before]; cbn [fst snd] in *; subst before.
  - destruct Hres as (post' & -> & Hc & Hidx). destruct (node_proof_full tx pre d r post' Hwf Hn) as (q & Hq & Hv & Hh & Hl).
    assert (s < d).
    { apply Z.pow_le_mono_r_iff in Hc; [lia|lia|]. rewrite Hn in Hd.
      apply Forall_app in Hd as [_ [Hd _]%Forall_cons]. cbn in Hd. lia. }
    destruct (compute_merkle_root tx d); eexists _, q; split_and!; try done; cbn [np_leaf]; exists pre, r, post';
      split_and!; done || lia.
  - destruct post as [|n post]; [lia|].
    destruct (node_proof_partial tx pre n post s) as (x & q & Hx & Hq & Hv & Hl & Hh); [done..|].
    rewrite log2_pow2_pow by lia. rewrite Hx. cbn [expect]. rewrite !bind_Ok. by eexists _, q.
Qed.

End node_proofs.

(** ** Chunk arrays *)

(** The array ends within the 64-bit chunk indices. *)
Definition array_ok (a : ChunkArray) : Prop :=
  0 ≤ start_index a ∧ start_index a + chunk_count a < 2 ^ 64.

Lemma chunk_count_nonneg a : 0 ≤ chunk_count a.
Proof. unfold chunk_count. apply Z.div_pos; [lia|done]. Qed.

Lemma chunk_slice_length a lo hi :
  0 ≤ lo ≤ hi → hi ≤ chunk_count a → Z.of_nat (length (chunk_slice a lo hi)) = (hi - lo) * CHUNK_SIZE.
Proof.
  unfold chunk_count, chunk_slice. assert (CHUNK_SIZE = 256) as -> by done. intros Hlo Hhi.
  pose proof (Z.div_mod (Z.of_nat (length (ca_data a))) 256 ltac:(lia)).
  pose proof (Z.mod_pos_bound (Z.of_nat (length (ca_data a))) 256 ltac:(lia)).
  rewrite length_take, length_drop. lia.
Qed.

Lemma chunk_slice_slice a s lo hi lo' hi' :
  0 ≤ lo' ≤ hi' → hi' ≤ hi - lo → 0 ≤ lo →
  chunk_slice (ChunkArray_mk (chunk_slice a lo hi) s) lo' hi' = chunk_slice a (lo + lo') (lo + hi').
Proof.
  unfold chunk_slice. assert (CHUNK_SIZE = 256) as -> by done. intros Hlo Hhi Hl. cbn [ca_data].
  rewrite skipn_firstn_comm, take_take, drop_drop. f_equal; [lia|]. f_equal. lia.
Qed.

(** [sub_array] succeeds exactly on the non-empty ranges inside the array,
    and the array it returns has the chunks of the original at the same
    indices and no others. *)
Theorem sub_array_chunks (a : ChunkArray) (start end_ : Z) :
  array_ok a →
  (is_Some (sub_array a start end_) ↔
    start_index a ≤ start < end_ ∧ end_ ≤ start_index a + chunk_count a) ∧
  ∀ b, sub_array a start end_ = Some b →
    chunk_count b = end_ - start ∧
    ∀ i, chunk_at b i = if bool_decide (start ≤ i < end_) then chunk_at a i else None.
Proof.
  intros [Hs Hb]. pose proof (chunk_count_nonneg a) as Hc. unfold sub_array. cbn zeta.
  rewrite wrap64_small by lia.
  assert ((chunk_count a + start_index a <=? start) || (start <? start_index a)
    || (chunk_count a + start_index a <? end_) || (end_ <=? start_index a) || (end_ <=? start)
    = negb (bool_decide (start_index a ≤ start < end_ ∧ end_ ≤ start_index a + chunk_count a))) as ->.
  { case_bool_decide; lia. }
  case_bool_decide as Hr; cbn [negb]; [|split; [split; [by intros []|done]|done]].
  split; [split; [done|eauto]|]. intros b [= <-].
  assert (chunk_count (ChunkArray_mk (chunk_slice a (start - start_index a) (end_ - start_index a)) start)
    = end_ - start) as Hcb.
  { unfold chunk_count at 1. cbn [ca_data]. rewrite chunk_slice_length by lia.
    rewrite Z.div_mul by done. lia. }
  split; [done|]. intros i. unfold chunk_at. rewrite Hcb. cbn [start_index]. rewrite !wrap64_small by lia.
  case_bool_decide as Hi.
  - rewrite !(proj2 (orb_false_iff _ _)) by lia. f_equal. rewrite chunk_slice_slice by lia. f_equal; lia.
  - by rewrite (proj2 (orb_true_iff _ _)) by lia.
Qed.

Definition array3 : ChunkArray :=
  ChunkArray_mk (replicate 256 1 ++ replicate 256 2 ++ replicate 256 3) 7.

Lemma sub_array_chunks_witness :
  ∃ b, sub_array array3 8 10 = Some b ∧ chunk_count b = 2 ∧ chunk_at b 9 = chunk_at array3 9 ∧
    chunk_at b 7 = None.
Proof.
  assert (array_ok array3) as Hok by (vm_compute; split; congruence).
  destruct (sub_array_chunks array3 8 10 Hok) as [[_ Hex] Hb].
  destruct Hex as [b Hsub]; [vm_compute; repeat split; congruence|].
  destruct (Hb b Hsub) as [Hc Hi]. exists b. split; [done|]. split; [done|].
  split; [by rewrite (Hi 9)|by rewrite (Hi 7)].
Defined.

(** ** Examples *)

(** A hash that is never null. *)
Definition small_keccak : Keccak :=
  λ d, vreplicate 32 (1 + (foldl (λ acc b, acc * 31 + b + 7) 3 d) mod 251).

Section examples.
#[local] Existing Instance small_keccak.

Definition hz (z : Z) : H256 := vreplicate 32 z.

Lemma small_keccak_laws : LightAlgorithmLaws H256.
Proof.
  intros a b. cbn. unfold parent_raw, keccak256, small_keccak. set (f := foldl _ _ _).
  intros He%(f_equal Vector.hd). pose proof (Z.mod_pos_bound f 251 ltac:(lia)). cbn in He. lia.
Qed.

Lemma file_proofs_complete_witness :
  ∃ mt p, light_new [hz 1; hz 2; hz 3] = Ok mt ∧ light_root mt = Ok (froot [hz 1; hz 2; hz 3]) ∧
    light_gen_proof mt 2 = Ok p ∧
    file_proof_validate (file_proof_new (lp_lemma p) (lp_path p)) (hz 3) (froot [hz 1; hz 2; hz 3])
      2 3 = Ok true.
Proof.
  apply (file_proofs_complete [hz 1; hz 2; hz 3] 2 (hz 3)).
  - apply small_keccak_laws.
  - repeat constructor; intros He%(f_equal Vector.hd); discriminate He.
  - done.
  - done.
Defined.

Definition proof_of_3 : FileProof :=
  FileProof_mk [hz 3; parent_raw (hz 1) (hz 2); froot [hz 1; hz 2; hz 3]] [false].

Lemma file_proof_validate_sound_witness :
  file_proof_validate proof_of_3 (hz 3) (froot [hz 1; hz 2; hz 3]) 2 3 = Ok true ∧
  ([hz 1; hz 2; hz 3] !! 2%nat = Some (hz 3) ∨
   node_collision (file_proof_pairs proof_of_3) (fpairs [hz 1; hz 2; hz 3])).
Proof.
  assert (file_proof_validate proof_of_3 (hz 3) (froot [hz 1; hz 2; hz 3]) 2 3 = Ok true) as Hv
    by (vm_compute; reflexivity).
  split; [exact Hv|]. apply (file_proof_validate_sound [hz 1; hz 2; hz 3] proof_of_3 (hz 3) 2); [done|exact Hv].
Defined.

(** A file of eleven chunks: subtrees of 8, 2 and 1 chunks. *)
Definition tx11 : Transaction :=
  Transaction_mk [] [] (sha3_parent (hz 1) (sha3_parent (hz 2) (hz 3)))
    [(4, hz 1); (2, hz 2); (1, hz 3)] 0 2816 0.

Lemma node_proof_valid_witness :
  tx_wf tx11 ∧
  ∃ np q, compute_node_proof tx11 9 4 = Ok np ∧ np_leaf np = Partial ∧
    raw_file_proof (np_proof np) = Ok q ∧ light_validate q = Ok true.
Proof.
  assert (tx_wf tx11) as Hwf.
  { split; [repeat constructor|repeat constructor; done|vm_compute; reflexivity]. }
  split; [exact Hwf|].
  destruct (node_proof_valid tx11 9 2 Hwf) as (np & q & Hnp & Hq & Hv & _); [done|vm_compute; split; congruence|].
  exists np, q. split_and!; [exact Hnp| |exact Hq|exact Hv].
  change (2 ^ 2) with 4 in Hnp. assert (np_leaf <$> Some np = Some Partial) as [= ?]; [|done].
  assert (∃ np', compute_node_proof tx11 9 4 = Ok np' ∧ np_leaf np' = Partial) as (np' & Hnp' & Hp)
    by (eexists; split; [vm_compute; reflexivity|reflexivity]).
  rewrite Hnp in Hnp'. cbn. congruence.
Defined.

End examples.
