(* ===== verification/Seal.v ===== *)
(** Sealing of data: [common/zgs_seal/src/lib.rs] and the sizes of
    [common/spec/src/lib.rs].

    A sealed chunk is masked word by word: the mask of a word is the hash of
    the sealed word before it, the mask of the first word the hash of a seed
    made of the miner, the context and the position. *)

From S2P Require Import Prelude HashElement Bytes.
Local Open Scope Z_scope.

Definition BYTES_PER_SECTOR : Z := 256.
Definition BYTES_PER_SEAL : Z := 4096.
Definition BYTES_PER_LOAD : Z := 262144.
Definition SECTORS_PER_LOAD : Z := BYTES_PER_LOAD / BYTES_PER_SECTOR.
Definition SECTORS_PER_SEAL : Z := BYTES_PER_SEAL / BYTES_PER_SECTOR.
Definition SEALS_PER_LOAD : Z := BYTES_PER_LOAD / BYTES_PER_SEAL.

(** [u64::to_be_bytes] *)
Definition be64 (z : Z) : list Z := be_digit z <$> [7; 6; 5; 4; 3; 2; 1; 0]%nat.

Section seal.
Context `{Keccak}.
Implicit Types (data word mask : list Z) (miner_id context_digest : H256).

Definition compute_first_mask_seed miner_id context_digest (start_sector : Z) : list Z :=
  vec_to_list miner_id ++ vec_to_list context_digest ++ replicate 24 0 ++ be64 start_sector.

Definition keccak data : list Z := vec_to_list (keccak256 data).

(** [word.iter_mut().zip(mask.iter()).for_each(|(x, y)| *x ^= *y)]: the bytes
    beyond the shorter of the two stay. *)
Definition xor_word word mask : list Z :=
  zip_with Z.lxor word mask ++ drop (length mask) word.

(** The loops over [data.chunks_mut(32)]; each takes at least one byte off. *)
Fixpoint seal_loop (fuel : nat) data mask : list Z :=
  match fuel with
  | O => data
  | S fuel' =>
      match data with
      | [] => []
      | _ =>
          let word := xor_word (take 32 data) mask in
          word ++ seal_loop fuel' (drop 32 data) (keccak word)
      end
  end.

Fixpoint unseal_loop (fuel : nat) data mask : list Z :=
  match fuel with
  | O => data
  | S fuel' =>
      match data with
      | [] => []
      | _ =>
          let x := take 32 data in
          xor_word x mask ++ unseal_loop fuel' (drop 32 data) (keccak x)
      end
  end.

Definition seal_with_mask data (first_mask : list Z) : outcome (list Z) :=
  if bool_decide (length data `mod` 32 = 0)%nat then Ok (seal_loop (length data) data first_mask) else Panic.

Definition unseal_with_mask data (first_mask : list Z) : outcome (list Z) :=
  if bool_decide (length data `mod` 32 = 0)%nat then Ok (unseal_loop (length data) data first_mask) else Panic.

Definition seal_with_mask_seed data (first_mask_seed : list Z) : outcome (list Z) :=
  seal_with_mask data (keccak first_mask_seed).

Definition unseal_with_mask_seed data (first_mask_seed : list Z) : outcome (list Z) :=
  unseal_with_mask data (keccak first_mask_seed).

Definition seal data miner_id context_digest (start_sector : Z) : outcome (list Z) :=
  seal_with_mask_seed data (compute_first_mask_seed miner_id context_digest start_sector).

Definition unseal data miner_id context_digest (start_sector : Z) : outcome (list Z) :=
  unseal_with_mask_seed data (compute_first_mask_seed miner_id context_digest start_sector).

End seal.

(** ** Facts *)

Section facts.
Context `{Keccak}.
Implicit Types (data word mask : list Z).

Lemma length_keccak data : length (keccak data) = 32%nat.
Proof. apply length_vec_to_list. Qed.

Lemma length_xor_word word mask : length (xor_word word mask) = length word.
Proof. unfold xor_word. rewrite length_app, length_zip_with, length_drop. lia. Qed.

Lemma xor_word_xor_word word mask : xor_word (xor_word word mask) mask = word.
Proof.
  unfold xor_word. revert mask. induction word as [|x word IH]; intros [|y mask]; cbn; [done..|].
  f_equal; [|apply IH]. by rewrite Z.lxor_assoc, Z.lxor_nilpotent, Z.lxor_0_r.
Qed.

Lemma length_seal_loop fuel data mask : length (seal_loop fuel data mask) = length data.
Proof.
  revert data mask. induction fuel as [|fuel IH]; intros data mask; [done|].
  cbn [seal_loop]. destruct data as [|x data]; [done|]. set (d := x :: data).
  rewrite length_app, IH, length_xor_word, length_take, length_drop. lia.
Qed.

Lemma length_unseal_loop fuel data mask : length (unseal_loop fuel data mask) = length data.
Proof.
  revert data mask. induction fuel as [|fuel IH]; intros data mask; [done|].
  cbn [unseal_loop]. destruct data as [|x data]; [done|]. set (d := x :: data).
  rewrite length_app, IH, length_xor_word, length_take, length_drop. lia.
Qed.

Lemma unseal_loop_fuel f1 f2 data mask :
  (length data ≤ f1)%nat → (length data ≤ f2)%nat → unseal_loop f1 data mask = unseal_loop f2 data mask.
Proof.
  revert f2 data mask. induction f1 as [|f1 IH]; intros f2 data mask H1 H2.
  { destruct data; [|cbn in H1; lia]. by destruct f2. }
  destruct f2 as [|f2]; [destruct data; [done|cbn in H2; lia]|].
  cbn [unseal_loop]. destruct data as [|x data]; [done|]. set (d := x :: data) in *. f_equal.
  assert (0 < length d)%nat by (cbn; lia). apply IH; rewrite length_drop; lia.
Qed.

Lemma seal_loop_cons f word data mask :
  length word = 32%nat →
  seal_loop (S f) (word ++ data) mask =
    xor_word word mask ++ seal_loop f data (keccak (xor_word word mask)).
Proof.
  intros Hw. cbn [seal_loop]. destruct (word ++ data) as [|x d] eqn:E.
  { apply app_eq_nil in E as [-> _]. done. }
  rewrite <- E, <- Hw, take_app_length, drop_app_length. done.
Qed.

Lemma unseal_loop_cons f word data mask :
  length word = 32%nat →
  unseal_loop (S f) (word ++ data) mask = xor_word word mask ++ unseal_loop f data (keccak word).
Proof.
  intros Hw. cbn [unseal_loop]. destruct (word ++ data) as [|x d] eqn:E.
  { apply app_eq_nil in E as [-> _]. done. }
  rewrite <- E, <- Hw, take_app_length, drop_app_length. done.
Qed.

(** Data of whole words, as words. *)
Lemma words_ind (P : list Z → Prop) :
  P [] →
  (∀ word data, length word = 32%nat → (length data `mod` 32 = 0)%nat → P data → P (word ++ data)) →
  ∀ data, (length data `mod` 32 = 0)%nat → P data.
Proof.
  intros Hnil Happ data. remember (length data) as n eqn:Hn. revert data Hn.
  induction n as [n IH] using lt_wf_ind. intros data Hn Hm.
  destruct data as [|x data']; [done|]. set (data := x :: data') in *.
  assert (0 < length data)%nat by (cbn; lia).
  assert (32 ≤ length data)%nat by (subst n; div_lia).
  rewrite <- (take_drop 32 data). apply Happ.
  - rewrite length_take. lia.
  - rewrite length_drop. subst n. div_lia.
  - apply (IH (length (drop 32 data))); [rewrite length_drop; lia|done|rewrite length_drop; subst n; div_lia].
Qed.

Lemma unseal_seal_loop data mask f1 f2 :
  (length data `mod` 32 = 0)%nat → (length data ≤ f1)%nat → (length data ≤ f2)%nat →
  unseal_loop f2 (seal_loop f1 data mask) mask = data.
Proof.
  intros Hm. revert mask f1 f2. pattern data. revert data Hm. apply words_ind.
  { intros mask [|f1] [|f2] _ _; done. }
  intros word data Hw Hm IH mask f1 f2 H1 H2. rewrite length_app in H1, H2.
  destruct f1 as [|f1], f2 as [|f2]; [lia..|].
  rewrite seal_loop_cons, unseal_loop_cons by (rewrite ?length_xor_word; done).
  rewrite xor_word_xor_word, IH by lia. done.
Qed.

(** Unsealing a prefix, and the rest with the last sealed word as the seed. *)
Lemma unseal_loop_app d1 d2 mask f f1 f2 :
  (length d1 `mod` 32 = 0)%nat → (length (d1 ++ d2) ≤ f)%nat → (length d1 ≤ f1)%nat → (length d2 ≤ f2)%nat →
  unseal_loop f (d1 ++ d2) mask =
    unseal_loop f1 d1 mask ++
    unseal_loop f2 d2 (if bool_decide (d1 = []) then mask else keccak (drop (length d1 - 32) d1)).
Proof.
  intros Hm. revert mask f f1. pattern d1. revert d1 Hm. apply words_ind.
  { intros mask f [|f1] Hf _ H2; cbn; apply unseal_loop_fuel; done. }
  intros word d1 Hw Hm IH mask f f1 Hf H1 H2. rewrite <- app_assoc in *. rewrite !length_app in *.
  destruct f as [|f], f1 as [|f1]; [lia..|]. rewrite !unseal_loop_cons by done.
  rewrite (IH (keccak word) f f1) by (rewrite ?length_app; lia). rewrite <- app_assoc. do 2 f_equal. f_equal.
  rewrite (bool_decide_false (word ++ d1 = [])) by (intros [-> ->]%app_eq_nil; done).
  case_bool_decide as Hd; [subst d1; rewrite app_nil_r; cbn; rewrite Nat.add_0_r, Hw; done|].
  f_equal. assert (0 < length d1)%nat by (destruct d1; [done|cbn; lia]).
  rewrite drop_app_ge by div_lia. f_equal. div_lia.
Qed.

End facts.
