(* ===== verification/ChunkData.v ===== *)
(** The data of a batch, [node/storage/src/log_store/load_chunk/chunk_data.rs];
    first [slice::binary_search_by_key] of the Rust standard library, and what it
    returns on a slice with strictly increasing keys. *)

From S2P Require Import Prelude HashElement Shard SharedTypes Seal.
Local Open Scope Z_scope.

(** [Result<usize, usize>] *)
Inductive search :=
  | Found (i : nat)
  | Missing (i : nat).

Section search.
Context {A : Type} (key : A → Z).
Implicit Types l : list A.

(** The keys increase strictly. *)
Definition increasing l : Prop :=
  ∀ i j a b, (i < j)%nat → l !! i = Some a → l !! j = Some b → key a < key b.

(** [while left < right], with [size = right - left]. *)
Fixpoint binary_search_loop (fuel : nat) l (target : Z) (left right : nat) : search :=
  match fuel with
  | O => Missing left
  | S fuel' =>
      if bool_decide (left < right)%nat then
        let mid := (left + (right - left) / 2)%nat in
        match l !! mid with
        | None => Missing left
        | Some a =>
            match Z.compare (key a) target with
            | Lt => binary_search_loop fuel' l target (mid + 1) right
            | Gt => binary_search_loop fuel' l target left mid
            | Eq => Found mid
            end
        end
      else Missing left
  end.

Definition binary_search_by_key l (target : Z) : search :=
  binary_search_loop (S (length l)) l target 0 (length l).

(** What the result says about the slice. *)
Definition search_spec l (target : Z) (r : search) : Prop :=
  match r with
  | Found i => ∃ a, l !! i = Some a ∧ key a = target
  | Missing i => (i ≤ length l)%nat ∧ (∀ j a, (j < i)%nat → l !! j = Some a → key a < target) ∧
      ∀ j a, (i ≤ j)%nat → l !! j = Some a → target < key a
  end.

Lemma binary_search_loop_spec fuel l target left right :
  increasing l → (left ≤ right ≤ length l)%nat → (right - left < fuel)%nat →
  (∀ j a, (j < left)%nat → l !! j = Some a → key a < target) →
  (∀ j a, (right ≤ j)%nat → l !! j = Some a → target < key a) →
  search_spec l target (binary_search_loop fuel l target left right).
Proof.
  intros Hinc. revert left right. induction fuel as [|fuel IH]; intros left right Hlr Hf Hlo Hhi; [lia|].
  cbn [binary_search_loop]. case_bool_decide as Hlt.
  2: { cbn. split; [lia|]. split; [done|]. intros j a Hj. apply Hhi. lia. }
  set (mid := (left + (right - left) / 2)%nat).
  assert (left ≤ mid < right)%nat as Hmid by (unfold mid; div_lia).
  destruct (lookup_lt_is_Some_2 l mid) as [a Ha]; [lia|]. rewrite Ha.
  destruct (Z.compare_spec (key a) target) as [He|Hl|Hg].
  - cbn. eauto.
  - apply IH; [lia|lia| |done]. intros j b Hj Hb. destruct (decide (j = mid)) as [->|Hne]; [congruence|].
    assert (key b < key a); [|lia]. apply (Hinc j mid); [lia|done|done].
  - apply IH; [lia|lia|done|]. intros j b Hj Hb. destruct (decide (j = mid)) as [->|Hne]; [congruence|].
    assert (key a < key b); [|lia]. apply (Hinc mid j); [lia|done|done].
Qed.

Lemma binary_search_by_key_spec l target :
  increasing l → search_spec l target (binary_search_by_key l target).
Proof.
  intros Hinc. apply binary_search_loop_spec; [done|lia|lia|intros; lia|].
  intros j a Hj Ha%lookup_lt_Some. lia.
Qed.

Lemma increasing_nil : increasing [].
Proof. intros i j a b _ Ha. done. Qed.

Lemma increasing_app l1 l2 :
  increasing (l1 ++ l2) ↔
  increasing l1 ∧ increasing l2 ∧ ∀ a b, a ∈ l1 → b ∈ l2 → key a < key b.
Proof.
  split.
  - intros Hinc. split_and!.
    + intros i j a b Hij Ha Hb. apply (Hinc i j); [done|by apply lookup_app_l_Some..].
    + intros i j a b Hij Ha Hb. apply (Hinc (length l1 + i)%nat (length l1 + j)%nat); [lia|..];
        rewrite lookup_app_r, Nat.add_comm, Nat.add_sub by lia; done.
    + intros a b (i & Ha)%list_elem_of_lookup (j & Hb)%list_elem_of_lookup.
      apply (Hinc i (length l1 + j)%nat); [apply lookup_lt_Some in Ha; lia|by apply lookup_app_l_Some|].
      rewrite lookup_app_r by lia. by replace (length l1 + j - length l1)%nat with j by lia.
  - intros (H1 & H2 & H12) i j a b Hij Ha Hb. rewrite lookup_app in Ha, Hb.
    destruct (l1 !! j) as [b'|] eqn:Hj; simplify_eq.
    + destruct (l1 !! i) as [a'|] eqn:Hi; simplify_eq; [by apply (H1 i j)|].
      apply lookup_ge_None in Hi. apply lookup_lt_Some in Hj. lia.
    + destruct (l1 !! i) as [a'|] eqn:Hi; simplify_eq.
      * apply H12; by eapply list_elem_of_lookup_2.
      * apply lookup_ge_None in Hi, Hj. apply (H2 (i - length l1)%nat (j - length l1)%nat); [lia|done|done].
Qed.

Lemma increasing_cons a l : increasing (a :: l) ↔ (∀ b, b ∈ l → key a < key b) ∧ increasing l.
Proof.
  change (a :: l) with ([a] ++ l). rewrite increasing_app. split.
  - intros (_ & H2 & H12). split; [|done]. intros b Hb. apply H12; [by left|done].
  - intros [H1 H2]. split_and!; [|done|].
    + intros [|i] [|j] x y Hij Hx Hy; try lia; done.
    + intros x b ->%list_elem_of_singleton. apply H1.
Qed.

End search.

(** * The data of one batch (load chunk) of 1024 sectors:
    [node/storage/src/log_store/load_chunk/chunk_data.rs].

    A batch is complete, or a list of known ranges together with the roots of
    subtrees whose data is not known.  Positions are [usize] values in [Z]. *)

Record PartialBatch := PartialBatch_mk { pb_start_sector : Z; pb_data : list Z }.

Record Subtree := Subtree_mk { st_start_sector : Z; subtree_height : Z; st_root : H256 }.

Record IncompleteData := IncompleteData_mk {
  subtrees : list Subtree;
  known_data : list PartialBatch;
}.

Inductive EntryBatchData :=
  | Complete (data : list Z)
  | Incomplete (data : IncompleteData).

Definition blen (data : list Z) : Z := Z.of_nat (length data).

(** ** Ranges of sectors *)

Class DataRange (A : Type) := {
  start_sector : A → Z;
  range_size : A → Z;
}.

Definition end_sector `{DataRange A} (x : A) : Z := start_sector x + range_size x.

#[export] Instance PartialBatch_DataRange : DataRange PartialBatch := {|
  start_sector := pb_start_sector;
  range_size p := bytes_to_chunks (blen (pb_data p));
|}.

#[export] Instance Subtree_DataRange : DataRange Subtree := {|
  start_sector := st_start_sector;
  range_size t := num_entries_of_node (subtree_height t);
|}.

(** [find] returns the range that contains the sector, or where it belongs. *)
Definition find `{DataRange A} (data_list : list A) (sector_index : Z) : outcome search :=
  match binary_search_by_key start_sector data_list sector_index with
  | Missing O => Ok (Missing 0)
  | Missing (S x) | Found x =>
      r ← expect (data_list !! x);
      Ok (if sector_index <? end_sector r then Found x else Missing (S x))
  end.

(** [data.get(start..start + len)] of a byte slice *)
Definition get_range (data : list Z) (start len : Z) : option (list Z) :=
  if start + len <=? blen data then Some (take (Z.to_nat len) (drop (Z.to_nat start) data)) else None.

(** What [get_mut] gives access to: the bytes, and the way to write them. *)
Definition put_range (data : list Z) (start : Z) (new : list Z) : list Z :=
  take (Z.to_nat start) data ++ new ++ drop (Z.to_nat start + length new) data.

(** ** [IncompleteData] *)

Definition incomplete_truncate (self : IncompleteData) (sector_index : Z) : outcome IncompleteData :=
  r ← find (known_data self) sector_index;
  known ← match r with
    | Found x =>
        p ← expect (known_data self !! x);
        let truncated_byte := (sector_index - pb_start_sector p) * BYTES_PER_SECTOR in
        let data := take (Z.to_nat truncated_byte) (pb_data p) in
        let batches := <[x := PartialBatch_mk (pb_start_sector p) data]> (known_data self) in
        Ok (take (if bool_decide (data = []) then x else S x) batches)
    | Missing x => Ok (take x (known_data self))
    end;
  t ← find (subtrees self) sector_index;
  Ok (IncompleteData_mk (take (match t with Found x | Missing x => x end) (subtrees self)) known).

Definition incomplete_get (self : IncompleteData) (start_byte length_byte : Z) : outcome (option (list Z)) :=
  r ← find (known_data self) (start_byte / BYTES_PER_SECTOR);
  match r with
  | Found x =>
      p ← expect (known_data self !! x);
      Ok (get_range (pb_data p) (start_byte - pb_start_sector p * BYTES_PER_SECTOR) length_byte)
  | Missing _ => Ok None
  end.

(** ** [EntryBatchData] *)

Definition batch_data_new : EntryBatchData := Incomplete (IncompleteData_mk [] []).

Definition batch_data_is_empty (self : EntryBatchData) : bool :=
  match self with
  | Incomplete x => bool_decide (known_data x = [])
  | Complete _ => false
  end.

Definition batch_data_get (self : EntryBatchData) (start_byte length_byte : Z) : outcome (option (list Z)) :=
  if BYTES_PER_LOAD <? start_byte + length_byte then Panic
  else match self with
       | Complete data => Ok (get_range data start_byte length_byte)
       | Incomplete data => incomplete_get data start_byte length_byte
       end.

(** The bytes and the batch in which they are replaced. *)
Definition batch_data_get_mut (self : EntryBatchData) (start_byte length_byte : Z) :
    outcome (option (list Z * (list Z → EntryBatchData))) :=
  if BYTES_PER_LOAD <? start_byte + length_byte then Panic
  else match self with
       | Complete data =>
           Ok ((λ v, (v, λ w, Complete (put_range data start_byte w))) <$> get_range data start_byte length_byte)
       | Incomplete data =>
           r ← find (known_data data) (start_byte / BYTES_PER_SECTOR);
           match r with
           | Found x =>
               p ← expect (known_data data !! x);
               let start := start_byte - pb_start_sector p * BYTES_PER_SECTOR in
               Ok ((λ v, (v, λ w, Incomplete (IncompleteData_mk (subtrees data)
                     (<[x := PartialBatch_mk (pb_start_sector p) (put_range (pb_data p) start w)]>
                        (known_data data)))))
                   <$> get_range (pb_data p) start length_byte)
           | Missing _ => Ok None
           end
       end.

Definition batch_data_truncate (self : EntryBatchData) (truncated_byte : Z) : outcome EntryBatchData :=
  if negb (truncated_byte `mod` BYTES_PER_SECTOR =? 0) then Panic
  else match self with
       | Complete data =>
           Ok (Incomplete (IncompleteData_mk [] [PartialBatch_mk 0 (take (Z.to_nat truncated_byte) data)]))
       | Incomplete batch_list =>
           batch_list ← incomplete_truncate batch_list (truncated_byte / BYTES_PER_SECTOR);
           Ok (Incomplete batch_list)
       end.

(** ** [insert_data] *)

(** [as u16] *)
Definition wrap16 (z : Z) : Z := z `mod` 2 ^ 16.

(** The elements of the range [a..b]. *)
Definition range_elems (ab : Z * Z) : list Z := seqZ ab.1 (ab.2 - ab.1).

Definition get_intact_sealing_index (start_sector length_sector : Z) : Z * Z :=
  (wrap16 ((start_sector + SECTORS_PER_SEAL - 1) / SECTORS_PER_SEAL),
   wrap16 ((start_sector + length_sector) / SECTORS_PER_SEAL)).

Definition get_covered_sealing_index (start_sector length_sector : Z) : Z * Z :=
  (wrap16 (start_sector / SECTORS_PER_SEAL),
   wrap16 ((start_sector + length_sector + SECTORS_PER_SEAL - 1) / SECTORS_PER_SEAL)).

(** [list.insert(position, ..)] and the three ways to merge, with the updated
    range. *)
Definition insert_merge (batches : list PartialBatch) (position : nat) (start : Z) (data : list Z)
    (merge_prev merge_next : bool) : outcome (list PartialBatch * PartialBatch) :=
  match merge_prev, merge_next with
  | false, false =>
      let p := PartialBatch_mk start data in
      Ok (take position batches ++ p :: drop position batches, p)
  | true, false =>
      prev ← expect (batches !! (position - 1)%nat);
      let p := PartialBatch_mk (pb_start_sector prev) (pb_data prev ++ data) in
      Ok (<[(position - 1)%nat := p]> batches, p)
  | false, true =>
      next ← expect (batches !! position);
      let p := PartialBatch_mk start (data ++ pb_data next) in
      Ok (<[position := p]> batches, p)
  | true, true =>
      prev ← expect (batches !! (position - 1)%nat);
      next ← expect (batches !! position);
      let p := PartialBatch_mk (pb_start_sector prev) ((pb_data prev ++ data) ++ pb_data next) in
      Ok (<[(position - 1)%nat := p]> (delete position batches), p)
  end.

(** [for subtree_index in start_subtree_index..subtree_list.len()], over the
    subtrees that are left. *)
Fixpoint drain_subtrees (subtree_list : list Subtree) (first idx : nat) (rest : list Subtree)
    (updated_start updated_end : Z) : outcome (list Subtree) :=
  match rest with
  | [] => Ok subtree_list
  | t :: rest' =>
      if st_start_sector t <? updated_start then Panic
      else if updated_end <? end_sector t then Ok (take first subtree_list ++ drop idx subtree_list)
      else drain_subtrees subtree_list first (S idx) rest' updated_start updated_end
  end.

Definition remove_completed_subtrees (subtree_list : list Subtree) (updated : PartialBatch) :
    outcome (list Subtree) :=
  let updated_end := pb_start_sector updated + blen (pb_data updated) / BYTES_PER_SECTOR in
  let first := match binary_search_by_key st_start_sector subtree_list (pb_start_sector updated) with
               | Found x | Missing x => x
               end in
  drain_subtrees subtree_list first first (drop first subtree_list) (pb_start_sector updated) updated_end.

(** [Err] if the range at [sector] is taken. *)
Definition insert_position (batches : list PartialBatch) (sector : Z) (msg : string) : outcome nat :=
  r ← find batches sector;
  match r with Found _ => Err msg | Missing x => Ok x end.

Definition batch_data_insert_data (self : EntryBatchData) (start_byte : Z) (data : list Z) :
    outcome (EntryBatchData * list Z) :=
  if negb (start_byte `mod` BYTES_PER_SECTOR =? 0) then Panic
  else if negb (blen data `mod` BYTES_PER_SECTOR =? 0) then Panic
  else match self with
  | Complete _ => Err "overwriting a completed PoRA Chunk with conflict data"
  | Incomplete x =>
      let batches := known_data x in
      let start := start_byte / BYTES_PER_SECTOR in
      let length_sector := blen data / BYTES_PER_SECTOR in
      let end_ := start + length_sector in
      start_insert_position ← insert_position batches start "start position overlapped with existing batch";
      end_insert_position ← insert_position batches (wrap64 (end_ - 1)) "end position overlapped with existing batch";
      if bool_decide (start_insert_position ≠ end_insert_position) then
        Err "data overlapped with existing batches"
      else
        let position := start_insert_position in
        merge_prev ← (if bool_decide (position = O) then Ok false
                      else prev ← expect (batches !! (position - 1)%nat); Ok (start =? end_sector prev));
        merge_next ← (if bool_decide (position = length batches) then Ok false
                      else next ← expect (batches !! position); Ok (end_ =? pb_start_sector next));
        lu ← insert_merge batches position start data merge_prev merge_next;
        subtree_list ← remove_completed_subtrees (subtrees x) lu.2;
        let intact := get_intact_sealing_index (pb_start_sector lu.2) (blen (pb_data lu.2) / BYTES_PER_SECTOR) in
        let self' :=
          match lu.1 with
          | [p] => if (pb_start_sector p =? 0) && (bytes_to_chunks (blen (pb_data p)) =? SECTORS_PER_LOAD)
                   then Complete (pb_data p)
                   else Incomplete (IncompleteData_mk subtree_list lu.1)
          | _ => Incomplete (IncompleteData_mk subtree_list lu.1)
          end in
        Ok (self', filter (λ i, i ∈ range_elems intact)
                     (range_elems (get_covered_sealing_index start length_sector)))
  end.

Definition available_range_entries (self : EntryBatchData) : list (Z * Z) :=
  match self with
  | Complete data => [(0, blen data / BYTES_PER_SECTOR)]
  | Incomplete batch_list =>
      (λ b, (pb_start_sector b, blen (pb_data b) / BYTES_PER_SECTOR)) <$> known_data batch_list
  end.

(** [subtree_list.into_iter().filter(..).map(..).collect()] *)
Fixpoint unknown_subtrees (self : EntryBatchData) (subtree_list : list (Z * Z * H256)) :
    outcome (list Subtree) :=
  match subtree_list with
  | [] => Ok []
  | (start, height, root) :: rest =>
      known ← batch_data_get self (start * BYTES_PER_SECTOR) (num_entries_of_node height * BYTES_PER_SECTOR);
      rest ← unknown_subtrees self rest;
      Ok (if bool_decide (known = None) && negb (bool_decide (root = vreplicate 32 0))
          then Subtree_mk start height root :: rest else rest)
  end.

Definition batch_data_set_subtree_list (self : EntryBatchData) (subtree_list : list (Z * Z * H256)) :
    outcome EntryBatchData :=
  subtree_list ← unknown_subtrees self subtree_list;
  Ok match self with
     | Complete _ => self
     | Incomplete data => Incomplete (IncompleteData_mk subtree_list (known_data data))
     end.

Definition get_subtree_list (self : EntryBatchData) : list Subtree :=
  match self with
  | Complete _ => []
  | Incomplete data => subtrees data
  end.
