(* ===== verification/ChunkDataFacts.v ===== *)
(** What the operations on a batch do to its bytes.

    [known] gives the byte at an offset, if it is known.  Reading returns a
    range exactly if all its bytes are known, inserting adds the new bytes and
    is refused exactly if one of them is known already, truncating forgets the
    bytes from an offset on. *)

From stdpp Require Import sorting list_numbers.
From S2P Require Import Prelude HashElement Shard SharedTypes Seal ChunkData.
Local Open Scope Z_scope.

(** ** The bytes of a batch *)

Definition pbyte (p : PartialBatch) (i : Z) : option Z :=
  if i <? pb_start_sector p * 256 then None else pb_data p !! Z.to_nat (i - pb_start_sector p * 256).

Fixpoint content (l : list PartialBatch) (i : Z) : option Z :=
  match l with
  | [] => None
  | p :: l' => match pbyte p i with Some b => Some b | None => content l' i end
  end.

Definition known (d : EntryBatchData) (i : Z) : option Z :=
  match d with
  | Complete data => if i <? 0 then None else data !! Z.to_nat i
  | Incomplete x => content (known_data x) i
  end.

(** The bytes [start .. start + n) of [f], if all are known. *)
Definition read_range (f : Z → option Z) (start n : Z) : option (list Z) := mapM f (seqZ start n).

(** ** The invariant *)

Record pb_ok (p : PartialBatch) : Prop := {
  po_start : 0 ≤ pb_start_sector p;
  po_nonempty : pb_data p ≠ [];
  po_sectors : blen (pb_data p) `mod` 256 = 0;
  po_end : end_sector p ≤ 1024;
}.

(** There is a gap between two ranges. *)
Definition gap (a b : PartialBatch) : Prop := end_sector a < pb_start_sector b.

Record batches_ok (l : list PartialBatch) : Prop := {
  bo_ok : Forall pb_ok l;
  bo_gap : StronglySorted gap l;
}.

Definition data_ok (d : EntryBatchData) : Prop :=
  match d with
  | Complete data => blen data = BYTES_PER_LOAD
  | Incomplete x => batches_ok (known_data x) ∧ increasing st_start_sector (subtrees x)
  end.

Lemma pb_bounds p :
  pb_ok p → blen (pb_data p) = 256 * (end_sector p - pb_start_sector p) ∧ pb_start_sector p < end_sector p.
Proof.
  intros [Hs Hn Hm He]. unfold end_sector. cbn [start_sector range_size PartialBatch_DataRange].
  unfold bytes_to_chunks. assert (CHUNK_SIZE = 256) as -> by done. rewrite Hm. cbn.
  pose proof (Z.div_mod (blen (pb_data p)) 256 ltac:(lia)).
  assert (0 < blen (pb_data p)) by (unfold blen; destruct (pb_data p); [done|cbn; lia]). lia.
Qed.

Lemma pbyte_Some p i : pb_ok p → is_Some (pbyte p i) ↔ pb_start_sector p * 256 ≤ i < end_sector p * 256.
Proof.
  intros Hp. pose proof (pb_bounds p Hp) as [Hl _]. unfold pbyte, blen in *.
  destruct (Z.ltb_spec i (pb_start_sector p * 256)).
  - split; [by intros []|lia].
  - rewrite lookup_lt_is_Some. lia.
Qed.

Lemma pbyte_None p i :
  pb_ok p → i < pb_start_sector p * 256 ∨ end_sector p * 256 ≤ i → pbyte p i = None.
Proof.
  intros Hp Hi. apply eq_None_not_Some. rewrite pbyte_Some by done. lia.
Qed.

Lemma content_app l1 l2 i :
  content (l1 ++ l2) i = match content l1 i with Some b => Some b | None => content l2 i end.
Proof. induction l1 as [|p l1 IH]; cbn; [done|]. destruct (pbyte p i); done. Qed.

Lemma content_None l i :
  Forall pb_ok l → (∀ p, p ∈ l → i < pb_start_sector p * 256 ∨ end_sector p * 256 ≤ i) → content l i = None.
Proof.
  induction 1 as [|p l Hp Hl IH]; intros Hi; cbn; [done|].
  rewrite pbyte_None by (done || apply Hi; by left). apply IH. intros q Hq. apply Hi. by right.
Qed.

Lemma content_Some l i :
  Forall pb_ok l → is_Some (content l i) ↔ ∃ p, p ∈ l ∧ pb_start_sector p * 256 ≤ i < end_sector p * 256.
Proof.
  induction 1 as [|p l Hp Hl IH]; cbn.
  { split; [by intros []|by intros (p & []%not_elem_of_nil & _)]. }
  pose proof (pbyte_Some p i Hp) as Hi. destruct (pbyte p i) as [b|] eqn:Hb.
  - split; [|done]. intros _. exists p. split; [by left|]. by apply Hi.
  - rewrite IH. split; intros (q & Hq & Hr); exists q; (split; [|done]); [by right|].
    apply elem_of_cons in Hq as [->|Hq]; [|done]. apply Hi in Hr as []. done.
Qed.

(** A range of the list is the only one that knows its bytes. *)
Lemma content_lookup l k p i :
  batches_ok l → l !! k = Some p → pb_start_sector p * 256 ≤ i < end_sector p * 256 → content l i = pbyte p i.
Proof.
  intros [Hok Hgap] Hp Hi. assert (pb_ok p) as Hpok by (by eapply Forall_lookup_1).
  apply take_drop_middle in Hp. rewrite <- Hp in Hgap, Hok. rewrite <- Hp, content_app. cbn.
  apply Forall_app in Hok as [Hok _]. destruct (proj2 (pbyte_Some p i Hpok) Hi) as [b Hb]. rewrite Hb.
  rewrite content_None; [done|done|]. intros q Hq. right.
  assert (gap q p) as Hg by (eapply StronglySorted_app_1_elem_of; [exact Hgap|done|by left]).
  unfold gap in Hg. lia.
Qed.

Lemma batches_gap l p q :
  batches_ok l → p ∈ l → q ∈ l → p = q ∨ gap p q ∨ gap q p.
Proof.
  intros [_ Hs] (i & Hi)%list_elem_of_lookup (j & Hj)%list_elem_of_lookup.
  destruct (decide (i = j)) as [->|Hne]; [left; congruence|right].
  assert (∀ i j p q, (i < j)%nat → l !! i = Some p → l !! j = Some q → gap p q) as Hlt.
  { clear -Hs. intros i j p q Hij Hi Hj. rewrite <- (take_drop j l) in Hs.
    eapply StronglySorted_app_1_elem_of; [exact Hs| |].
    - apply list_elem_of_lookup. exists i. rewrite lookup_take_lt by lia. done.
    - apply list_elem_of_lookup. exists 0%nat. rewrite lookup_drop, Nat.add_0_r. done. }
  destruct (decide (i < j)%nat); [left; eauto|right]. apply (Hlt j i); [lia|done|done].
Qed.

(** Known bytes without a hole lie in one range. *)
Lemma contiguous l a b :
  batches_ok l → a < b → (∀ i, a ≤ i < b → is_Some (content l i)) →
  ∃ p, p ∈ l ∧ pb_start_sector p * 256 ≤ a ∧ b ≤ end_sector p * 256.
Proof.
  intros Hok Hab Hall. pose proof Hok as [Hpok _].
  destruct (proj1 (content_Some l a Hpok) (Hall a ltac:(lia))) as (p & Hp & Ha).
  exists p. split; [done|]. split; [lia|]. destruct (decide (b ≤ end_sector p * 256)) as [|Hgt]; [done|exfalso].
  assert (a ≤ end_sector p * 256 < b) as He by lia.
  destruct (proj1 (content_Some l (end_sector p * 256) Hpok) (Hall _ He)) as (q & Hq & Hr).
  rewrite Forall_forall in Hpok. pose proof (pb_bounds p (Hpok p Hp)). pose proof (pb_bounds q (Hpok q Hq)).
  destruct (batches_gap l p q Hok Hp Hq) as [->|[Hg|Hg]]; unfold gap in *; lia.
Qed.

(** ** [find] *)

Lemma batches_increasing l : batches_ok l → increasing (start_sector (A := PartialBatch)) l.
Proof.
  intros [Hok Hs]. induction Hs as [|p l Hs IH Hg]; [apply increasing_nil|].
  apply Forall_cons in Hok as [Hp Hok]. apply increasing_cons. split; [|by apply IH].
  intros q Hq. rewrite Forall_forall in Hg. specialize (Hg q Hq). unfold gap in Hg.
  pose proof (pb_bounds p Hp). cbn. lia.
Qed.

(** Whatever the list, the search stays inside it. *)
Lemma binary_search_loop_bound {A} (key : A → Z) fuel l target left right :
  (left ≤ right ≤ length l)%nat →
  match binary_search_loop key fuel l target left right with
  | Found i => (i < length l)%nat
  | Missing i => (i ≤ length l)%nat
  end.
Proof.
  revert left right. induction fuel as [|fuel IH]; intros left right Hlr; cbn [binary_search_loop]; [lia|].
  case_bool_decide as Hlt; [|lia]. set (mid := (left + (right - left) / 2)%nat).
  assert (left ≤ mid < right)%nat by (unfold mid; div_lia).
  destruct (l !! mid) as [a|] eqn:Ha; [|lia].
  destruct (key a ?= target); [lia|apply IH; lia|apply IH; lia].
Qed.

Lemma find_total `{DataRange A} (l : list A) s :
  ∃ r, find l s = Ok r ∧ match r with Found i => (i < length l)%nat | Missing i => (i ≤ length l)%nat end.
Proof.
  unfold find. pose proof (binary_search_loop_bound start_sector (S (length l)) l s 0 (length l) ltac:(lia)) as Hb.
  fold (binary_search_by_key start_sector l s) in Hb.
  destruct (binary_search_by_key _ _ _) as [x|[|x]]; cbn in Hb.
  - destruct (lookup_lt_is_Some_2 l x) as [a Ha]; [lia|]. rewrite Ha. cbn [expect]. rewrite bind_Ok.
    eexists. split; [done|]. destruct (_ <? _); cbn; lia.
  - eexists. split; [done|]. cbn; lia.
  - destruct (lookup_lt_is_Some_2 l x) as [a Ha]; [lia|]. rewrite Ha. cbn [expect]. rewrite bind_Ok.
    eexists. split; [done|]. destruct (_ <? _); cbn; lia.
Qed.

Definition find_result (l : list PartialBatch) (s : Z) (r : search) : Prop :=
  match r with
  | Found i => ∃ p, l !! i = Some p ∧ pb_start_sector p ≤ s < end_sector p
  | Missing i => (i ≤ length l)%nat ∧ (∀ p, p ∈ take i l → end_sector p ≤ s) ∧
      ∀ p, p ∈ drop i l → s < pb_start_sector p
  end.

Lemma sorted_take_end l i p q :
  StronglySorted gap l → Forall pb_ok l → l !! i = Some p → q ∈ take (S i) l → end_sector q ≤ end_sector p.
Proof.
  intros Hs Hok Hp Hq. rewrite (take_S_r _ _ p) in Hq by done.
  apply elem_of_app in Hq as [Hq|Hq]; [|apply list_elem_of_singleton in Hq as ->; lia].
  assert (gap q p) as Hg.
  { rewrite <- (take_drop i l) in Hs. eapply StronglySorted_app_1_elem_of; [exact Hs|done|].
    apply list_elem_of_lookup. exists 0%nat. by rewrite lookup_drop, Nat.add_0_r. }
  assert (pb_ok p) as Hpok by (by eapply Forall_lookup_1). pose proof (pb_bounds p Hpok). unfold gap in Hg. lia.
Qed.

Lemma find_spec l s : batches_ok l → ∃ r, find l s = Ok r ∧ find_result l s r.
Proof.
  intros Hok. pose proof (batches_increasing l Hok) as Hinc. pose proof Hok as [Hpok Hs].
  pose proof (binary_search_by_key_spec start_sector l s Hinc) as Hb. unfold find.
  destruct (binary_search_by_key _ _ _) as [x|[|x]]; cbn in Hb.
  - destruct Hb as (p & Hp & Hk). rewrite Hp. cbn [expect]. rewrite bind_Ok.
    assert (pb_ok p) as Hp' by (by eapply Forall_lookup_1). pose proof (pb_bounds p Hp').
    rewrite (proj2 (Z.ltb_lt _ _)) by lia. eexists. split; [done|]. exists p. split; [done|lia].
  - destruct Hb as (_ & _ & Hhi). eexists. split; [done|]. split_and!; [lia|by intros p ?%elem_of_nil|].
    intros p (j & Hj)%list_elem_of_lookup. apply (Hhi j); [lia|]. done.
  - destruct Hb as (Hx & Hlo & Hhi). destruct (lookup_lt_is_Some_2 l x) as [p Hp]; [lia|].
    rewrite Hp. cbn [expect]. rewrite bind_Ok. eexists. split; [done|].
    destruct (Z.ltb_spec s (end_sector p)) as [Hlt|Hge].
    + exists p. split; [done|]. specialize (Hlo x p ltac:(lia) Hp). lia.
    + split_and!; [lia| |].
      * intros q Hq. pose proof (sorted_take_end l x p q Hs Hpok Hp Hq). lia.
      * intros q (j & Hj)%list_elem_of_lookup. rewrite lookup_drop in Hj. apply (Hhi (S x + j)%nat); [lia|done].
Qed.

(** ** Reading *)

Lemma read_range_Some f start n v :
  read_range f start n = Some v ↔
  blen v = Z.max 0 n ∧ ∀ k, 0 ≤ k < n → f (start + k) = v !! Z.to_nat k.
Proof.
  unfold read_range, blen. rewrite mapM_Some, Forall2_lookup. split.
  - intros Hv. assert (length v = Z.to_nat n) as Hlen.
    { rewrite <- (length_seqZ start n). symmetry. apply Forall2_length with (λ x y, f x = Some y).
      by apply Forall2_lookup. }
    split; [lia|]. intros k Hk. specialize (Hv (Z.to_nat k)).
    rewrite lookup_seqZ_lt, Z2Nat.id in Hv by lia. inversion Hv as [x y Hxy Hx Hy|]; subst. done.
  - intros [Hlen Hv] i. destruct (decide (Z.of_nat i < n)) as [Hi|Hi].
    + rewrite lookup_seqZ_lt by done. specialize (Hv (Z.of_nat i) ltac:(lia)). rewrite Nat2Z.id in Hv.
      destruct (v !! i) as [y|] eqn:Hy; [by constructor|].
      apply lookup_ge_None in Hy. lia.
    + rewrite lookup_seqZ_ge by lia. rewrite (proj2 (lookup_ge_None v i)) by lia. constructor.
Qed.

Lemma read_range_None f start n i : start ≤ i < start + n → f i = None → read_range f start n = None.
Proof.
  intros Hi Hf. unfold read_range. apply mapM_None, Exists_exists. exists i. split; [|done].
  apply elem_of_seqZ. lia.
Qed.

Lemma read_range_ext f g start n :
  (∀ i, start ≤ i < start + n → f i = g i) → read_range f start n = read_range g start n.
Proof.
  intros Hfg. unfold read_range. apply Forall_mapM_ext, Forall_seqZ. intros i Hi. apply Hfg. lia.
Qed.

Lemma get_range_spec (data : list Z) start n :
  0 ≤ start → 0 < n →
  get_range data start n = read_range (λ i, if i <? 0 then None else data !! Z.to_nat i) start n.
Proof.
  intros Hs Hn. unfold get_range. destruct (Z.leb_spec (start + n) (blen data)) as [Hle|Hgt]; unfold blen in *.
  - symmetry. apply read_range_Some. unfold blen. rewrite length_take, length_drop. split; [lia|].
    intros k Hk. rewrite (proj2 (Z.ltb_ge _ _)) by lia. rewrite lookup_take_lt, lookup_drop by lia. f_equal. lia.
  - symmetry. apply (read_range_None _ _ _ (start + n - 1)); [lia|].
    destruct (Z.ltb_spec (start + n - 1) 0); [done|]. apply lookup_ge_None. lia.
Qed.

Lemma pb_get_range p start n :
  pb_ok p → pb_start_sector p * 256 ≤ start → 0 < n →
  get_range (pb_data p) (start - pb_start_sector p * 256) n = read_range (pbyte p) start n.
Proof.
  intros Hp Hs Hn. rewrite get_range_spec by lia. unfold read_range.
  replace start with (pb_start_sector p * 256 + (start - pb_start_sector p * 256)) at 2 by lia.
  rewrite <- fmap_add_seqZ. generalize (seqZ (start - pb_start_sector p * 256) n) as l. intros l.
  induction l as [|i l IH]; cbn; [done|]. rewrite IH. unfold pbyte.
  replace (pb_start_sector p * 256 + i <? pb_start_sector p * 256) with (i <? 0) by lia.
  by replace (pb_start_sector p * 256 + i - pb_start_sector p * 256) with i by lia.
Qed.

(** The byte after a range is not known. *)
Lemma content_end l p : batches_ok l → p ∈ l → content l (end_sector p * 256) = None.
Proof.
  intros Hok Hp. pose proof Hok as [Hpok _]. apply eq_None_not_Some. rewrite content_Some by done.
  intros (q & Hq & Hr). rewrite Forall_forall in Hpok.
  pose proof (pb_bounds p (Hpok p Hp)). pose proof (pb_bounds q (Hpok q Hq)).
  destruct (batches_gap l p q Hok Hp Hq) as [->|[Hg|Hg]]; unfold gap in *; lia.
Qed.

Lemma read_range_batch l k p start n :
  batches_ok l → l !! k = Some p → pb_start_sector p * 256 ≤ start < end_sector p * 256 → 0 < n →
  read_range (pbyte p) start n = read_range (content l) start n.
Proof.
  intros Hok Hp Hs Hn. assert (pb_ok p) as Hpok by (destruct Hok; by eapply Forall_lookup_1).
  destruct (decide (start + n ≤ end_sector p * 256)) as [Hle|Hgt].
  - apply read_range_ext. intros i Hi. symmetry. eapply content_lookup; [done|done|lia].
  - rewrite (read_range_None (pbyte p) _ _ (end_sector p * 256)); [|lia|apply pbyte_None; [done|lia]].
    rewrite (read_range_None (content l) _ _ (end_sector p * 256)); [done|lia|].
    apply content_end; [done|by eapply list_elem_of_lookup_2].
Qed.

Lemma find_missing_None l s i :
  batches_ok l → find_result l s (Missing i) → ∀ j, s * 256 ≤ j < s * 256 + 256 → content l j = None.
Proof.
  intros [Hok _] (Hi & Hlo & Hhi) j Hj. apply content_None; [done|]. intros p Hp.
  rewrite <- (take_drop i l) in Hp. apply elem_of_app in Hp as [Hp|Hp].
  - specialize (Hlo p Hp). lia.
  - specialize (Hhi p Hp). lia.
Qed.

Lemma sector_of_byte i : i / 256 * 256 ≤ i < i / 256 * 256 + 256.
Proof. pose proof (Z.div_mod i 256 ltac:(lia)). pose proof (Z.mod_pos_bound i 256 ltac:(lia)). lia. Qed.

Lemma batch_data_get_spec d start n :
  data_ok d → 0 ≤ start → 0 < n → start + n ≤ BYTES_PER_LOAD →
  batch_data_get d start n = Ok (read_range (known d) start n).
Proof.
  intros Hd Hs Hn Hb. unfold batch_data_get. rewrite (proj2 (Z.ltb_ge _ _)) by done.
  destruct d as [data|x]; [by rewrite get_range_spec|]. destruct Hd as [Hok _].
  unfold incomplete_get. change BYTES_PER_SECTOR with 256. pose proof (sector_of_byte start) as Hst.
  destruct (find_spec (known_data x) (start / 256) Hok) as (r & -> & Hr). rewrite bind_Ok.
  destruct r as [k|k].
  - destruct Hr as (p & Hp & Hr). rewrite Hp. cbn [expect]. rewrite bind_Ok.
    assert (pb_ok p) as Hpok by (destruct Hok; by eapply Forall_lookup_1).
    rewrite pb_get_range by (done || lia). f_equal. by eapply read_range_batch; [done|done|lia|].
  - rewrite (read_range_None (known (Incomplete x)) start n start); [done|lia|].
    by eapply find_missing_None.
Qed.

(** ** Writing *)

Lemma length_put_range data start new :
  0 ≤ start → start + blen new ≤ blen data → blen (put_range data start new) = blen data.
Proof.
  unfold put_range, blen. intros Hs Hn. rewrite !length_app, length_take, length_drop. lia.
Qed.

Lemma lookup_put_range data start new i :
  0 ≤ start → start + blen new ≤ blen data → 0 ≤ i →
  put_range data start new !! Z.to_nat i =
    if bool_decide (start ≤ i < start + blen new) then new !! Z.to_nat (i - start) else data !! Z.to_nat i.
Proof.
  unfold put_range, blen. intros Hs Hn Hi. case_bool_decide as Hr.
  - rewrite lookup_app_r by (rewrite length_take; lia). rewrite length_take.
    rewrite lookup_app_l by lia. f_equal. lia.
  - destruct (decide (i < start)).
    + rewrite lookup_app_l by (rewrite length_take; lia). rewrite lookup_take_lt by lia. done.
    + rewrite lookup_app_r by (rewrite length_take; lia). rewrite length_take.
      rewrite lookup_app_r by lia. rewrite lookup_drop. f_equal. lia.
Qed.

(** Replacing a range by one with the same bounds. *)
Lemma batches_ok_replace l k p p' :
  batches_ok l → l !! k = Some p → pb_start_sector p' = pb_start_sector p →
  blen (pb_data p') = blen (pb_data p) → batches_ok (<[k := p']> l).
Proof.
  intros [Hok Hs] Hp Hst Hlen.
  assert (end_sector p' = end_sector p) as He.
  { unfold end_sector. cbn. by rewrite Hst, Hlen. }
  assert (pb_ok p) as Hpok by (by eapply Forall_lookup_1).
  assert (pb_ok p') as Hpok'.
  { destruct Hpok as [H1 H2 H3 H4]. split; [lia| |congruence|congruence].
    intros Hn. rewrite Hn in Hlen. unfold blen in Hlen. destruct (pb_data p); [done|cbn in Hlen; lia]. }
  split; [by apply Forall_insert|].
  pose proof (lookup_lt_Some _ _ _ Hp) as Hk.
  rewrite insert_take_drop by done. apply take_drop_middle in Hp. rewrite <- Hp in Hs.
  apply StronglySorted_app in Hs as (H12 & H1 & [H2 H3]%StronglySorted_cons).
  apply StronglySorted_app. split_and!; [|done|].
  - intros a b Ha [->|Hb]%elem_of_cons; [|apply H12; [done|by right]].
    unfold gap. rewrite Hst. apply H12; [done|by left].
  - apply StronglySorted_cons. split; [|done]. eapply Forall_impl; [exact H2|].
    intros q Hq. unfold gap in *. lia.
Qed.

Lemma content_replace l k p p' i :
  batches_ok l → l !! k = Some p → pb_start_sector p' = pb_start_sector p →
  blen (pb_data p') = blen (pb_data p) →
  content (<[k := p']> l) i =
    if bool_decide (pb_start_sector p * 256 ≤ i < end_sector p * 256) then pbyte p' i else content l i.
Proof.
  intros Hok Hp Hst Hlen. pose proof (lookup_lt_Some _ _ _ Hp) as Hk.
  assert (end_sector p' = end_sector p) as He by (unfold end_sector; cbn; by rewrite Hst, Hlen).
  pose proof (batches_ok_replace l k p p' Hok Hp Hst Hlen) as Hok'.
  assert (<[k := p']> l !! k = Some p') as Hp' by (by apply list_lookup_insert_eq).
  assert (pb_ok p ∧ pb_ok p') as [Hpk Hpk'].
  { destruct Hok as [Ho _], Hok' as [Ho' _].
    split; [exact (Forall_lookup_1 _ _ _ _ Ho Hp)|exact (Forall_lookup_1 _ _ _ _ Ho' Hp')]. }
  case_bool_decide as Hr; [eapply content_lookup; [done|done|lia]|].
  rewrite insert_take_drop, content_app by done. apply take_drop_middle in Hp.
  trans (content (take k l ++ p :: drop (S k) l) i); [|by rewrite Hp].
  rewrite content_app. cbn. rewrite !pbyte_None; [done|done|lia|done|lia].
Qed.

Lemma batch_data_get_mut_spec d start n :
  data_ok d → 0 ≤ start → 0 < n → start + n ≤ BYTES_PER_LOAD →
  match read_range (known d) start n with
  | Some v => ∃ put, batch_data_get_mut d start n = Ok (Some (v, put)) ∧
      ∀ w, blen w = n → data_ok (put w) ∧
        ∀ i, known (put w) i =
          if bool_decide (start ≤ i < start + n) then w !! Z.to_nat (i - start) else known d i
  | None => batch_data_get_mut d start n = Ok None
  end.
Proof.
  intros Hd Hs Hn Hb. unfold batch_data_get_mut. rewrite (proj2 (Z.ltb_ge _ _)) by done.
  destruct d as [data|x].
  - rewrite get_range_spec by done.
    change (known (Complete data)) with (λ i, if i <? 0 then None else data !! Z.to_nat i). destruct (read_range _ start n) as [v|] eqn:Hv; [|done].
    eexists. split; [done|]. intros w Hw. unfold data_ok in Hd. split; [cbn; by rewrite length_put_range by lia|].
    intros i. cbn. destruct (Z.ltb_spec i 0); [case_bool_decide; [lia|done]|].
    rewrite lookup_put_range by lia. by rewrite Hw.
  - destruct Hd as [Hok Hsub]. change BYTES_PER_SECTOR with 256. pose proof (sector_of_byte start) as Hst.
    destruct (find_spec (known_data x) (start / 256) Hok) as (r & -> & Hr). rewrite bind_Ok.
    change (known (Incomplete x)) with (content (known_data x)).
    destruct r as [k|k].
    2: { rewrite (read_range_None _ start n start); [done|lia|]. by eapply find_missing_None. }
    destruct Hr as (p & Hp & Hr). rewrite Hp. cbn [expect]. rewrite bind_Ok.
    assert (pb_ok p) as Hpok by (destruct Hok; by eapply Forall_lookup_1).
    pose proof (pb_bounds p Hpok) as [Hl _].
    rewrite pb_get_range by (done || lia). rewrite (read_range_batch (known_data x) k) by (done || lia).
    destruct (read_range _ start n) as [v|] eqn:Hv; [|done]. eexists. split; [done|]. intros w Hw.
    assert (start + n ≤ end_sector p * 256) as Hend.
    { destruct (decide (start + n ≤ end_sector p * 256)); [done|exfalso].
      rewrite (read_range_None _ _ _ (end_sector p * 256)) in Hv; [done|lia|].
      apply content_end; [done|by eapply list_elem_of_lookup_2]. }
    assert (blen (put_range (pb_data p) (start - pb_start_sector p * 256) w) = blen (pb_data p)) as Hlp
      by (apply length_put_range; lia).
    split; [split; [|done]; by eapply batches_ok_replace|]. intros i. cbn [known known_data].
    rewrite (content_replace _ _ p) by done. case_bool_decide as Hi.
    + unfold pbyte. cbn [pb_start_sector pb_data]. rewrite (proj2 (Z.ltb_ge _ _)) by lia.
      rewrite lookup_put_range by lia. rewrite Hw. rewrite (content_lookup _ k p i) by done.
      unfold pbyte. rewrite (proj2 (Z.ltb_ge _ _)) by lia.
      repeat case_bool_decide; try lia; [|done]. f_equal. lia.
    + case_bool_decide; [lia|done].
Qed.

(** ** [truncate] *)

Lemma batches_ok_app l1 l2 :
  batches_ok (l1 ++ l2) ↔ batches_ok l1 ∧ batches_ok l2 ∧ ∀ p q, p ∈ l1 → q ∈ l2 → gap p q.
Proof.
  split.
  - intros [[Ho1 Ho2]%Forall_app (H12 & H1 & H2)%StronglySorted_app]. done.
  - intros ([Ho1 H1] & [Ho2 H2] & H12). split; [by apply Forall_app|by apply StronglySorted_app].
Qed.

Lemma batches_ok_single p : pb_ok p → batches_ok [p].
Proof. intros Hp. split; [by apply Forall_singleton|]. apply StronglySorted_cons. split; constructor. Qed.

Lemma batches_ok_take l k : batches_ok l → batches_ok (take k l).
Proof. rewrite <- (take_drop k l) at 1. by intros (? & _ & _)%batches_ok_app. Qed.

Lemma increasing_take {A} (key : A → Z) l k : increasing key l → increasing key (take k l).
Proof. rewrite <- (take_drop k l) at 1. by intros (? & _ & _)%increasing_app. Qed.

Lemma pb_cut_ok p s :
  pb_ok p → pb_start_sector p < s < end_sector p →
  let p' := PartialBatch_mk (pb_start_sector p) (take (Z.to_nat ((s - pb_start_sector p) * 256)) (pb_data p)) in
  pb_ok p' ∧ end_sector p' = s ∧
  ∀ i, pbyte p' i = if bool_decide (i < s * 256) then pbyte p i else None.
Proof.
  intros Hp Hs p'. pose proof (pb_bounds p Hp) as [Hl _]. destruct Hp as [H1 H2 H3 H4].
  assert (blen (pb_data p') = (s - pb_start_sector p) * 256) as Hlen.
  { unfold p', blen in *. cbn [pb_data]. rewrite length_take. lia. }
  assert (end_sector p' = s) as He.
  { unfold end_sector. cbn [start_sector range_size PartialBatch_DataRange]. rewrite Hlen. unfold bytes_to_chunks.
    change CHUNK_SIZE with 256. rewrite Z.mod_mul, Z.div_mul by lia. cbn. lia. }
  split_and!; [split|done|].
  - done.
  - intros Hn. rewrite Hn in Hlen. unfold blen in Hlen. cbn in Hlen. lia.
  - rewrite Hlen. by apply Z.mod_mul.
  - lia.
  - intros i. unfold pbyte, p'. cbn [pb_start_sector pb_data].
    destruct (Z.ltb_spec i (pb_start_sector p * 256)); [by case_bool_decide|].
    case_bool_decide.
    + by rewrite lookup_take_lt by lia.
    + apply lookup_take_ge. lia.
Qed.

(** The list before [k] and, if there is one, the part of the next range
    below [s]. *)
Lemma content_cut l k s tl :
  batches_ok l → (∀ p, p ∈ take k l → end_sector p ≤ s) →
  (∀ i, content tl i = if bool_decide (i < s * 256) then content (drop k l) i else None) →
  ∀ i, content (take k l ++ tl) i = if bool_decide (i < s * 256) then content l i else None.
Proof.
  intros Hok Hend Htl i. rewrite <- (take_drop k l) in Hok at 1. apply batches_ok_app in Hok as ([Ho1 _] & _ & _).
  rewrite content_app, Htl. case_bool_decide as Hi.
  - trans (content (take k l ++ drop k l) i); [by rewrite content_app|by rewrite take_drop].
  - rewrite content_None; [done|done|]. intros p Hp. specialize (Hend p Hp). lia.
Qed.

Lemma incomplete_truncate_spec x s :
  batches_ok (known_data x) → increasing st_start_sector (subtrees x) → 0 ≤ s →
  ∃ x', incomplete_truncate x s = Ok x' ∧ batches_ok (known_data x') ∧
    increasing st_start_sector (subtrees x') ∧
    ∀ i, content (known_data x') i = if bool_decide (i < s * 256) then content (known_data x) i else None.
Proof.
  intros Hok Hsub Hs. unfold incomplete_truncate. change BYTES_PER_SECTOR with 256.
  destruct (find_spec (known_data x) s Hok) as (r & -> & Hr). rewrite bind_Ok.
  destruct (find_total (subtrees x) s) as (t & Ht & _).
  set (l := known_data x) in *.
  enough (∃ known, (match r with
    | Found x0 => p ← expect (l !! x0);
        Ok (take (if bool_decide (take (Z.to_nat ((s - pb_start_sector p) * 256)) (pb_data p) = []) then x0 else S x0)
          (<[x0:=PartialBatch_mk (pb_start_sector p) (take (Z.to_nat ((s - pb_start_sector p) * 256)) (pb_data p))]> l))
    | Missing x0 => Ok (take x0 l) end) = Ok known ∧ batches_ok known ∧
    ∀ i, content known i = if bool_decide (i < s * 256) then content l i else None) as (known & Hk & Hko & Hkc).
  { eexists. rewrite Hk. rewrite bind_Ok, Ht, bind_Ok. split_and!; [done|done|by apply increasing_take|done]. }
  destruct r as [k|k].
  - destruct Hr as (p & Hp & Hr). rewrite Hp. cbn [expect]. rewrite bind_Ok.
    assert (pb_ok p) as Hpok by (destruct Hok; by eapply Forall_lookup_1).
    pose proof (pb_bounds p Hpok) as [Hl _]. pose proof (lookup_lt_Some _ _ _ Hp) as Hk.
    assert (drop k l = p :: drop (S k) l) as Hd by (by apply drop_S).
    pose proof Hok as Hok2. rewrite <- (take_drop k l), Hd in Hok2.
    apply batches_ok_app in Hok2 as (Ho1 & Ho2 & H12).
    assert (∀ q, q ∈ take k l → end_sector q ≤ s) as Hend.
    { intros q Hq. specialize (H12 q p Hq ltac:(by left)). unfold gap in H12. lia. }
    assert (∀ i, i < s * 256 → content (drop (S k) l) i = None) as Hrest.
    { intros i Hi. change (p :: drop (S k) l) with ([p] ++ drop (S k) l) in Ho2.
      apply batches_ok_app in Ho2 as (_ & [Ho2 _] & Hg). apply content_None; [done|]. intros q Hq.
      specialize (Hg p q ltac:(by left) Hq). unfold gap in Hg. lia. }
    case_bool_decide as Hnil.
    + assert (s = pb_start_sector p).
      { apply (f_equal length) in Hnil. rewrite length_take in Hnil. unfold blen in Hl. cbn in Hnil. lia. }
      rewrite take_insert_ge by lia. exists (take k l). split_and!; [done|by apply batches_ok_take|].
      rewrite <- (app_nil_r (take k l)). apply content_cut; [done|done|]. intros i. cbn. rewrite Hd. cbn.
      case_bool_decide; [|done]. rewrite pbyte_None, Hrest by (done || lia). done.
    + assert (pb_start_sector p ≠ s).
      { intros <-. rewrite Z.sub_diag in Hnil. done. }
      destruct (pb_cut_ok p s) as (Hcok & Hce & Hcb); [done|lia|].
      rewrite (take_S_r _ k _) by (by apply list_lookup_insert_eq). rewrite take_insert_ge by lia.
      eexists. split_and!; [done| |].
      * apply batches_ok_app. split_and!; [done|by apply batches_ok_single|].
        intros a b Ha ->%list_elem_of_singleton. apply (H12 a p Ha). by left.
      * apply content_cut; [done|done|]. intros i. cbn [content]. rewrite Hcb, Hd. cbn [content].
        case_bool_decide; [|done]. rewrite Hrest by done. by destruct (pbyte p i).
  - destruct Hr as (Hk & Hlo & Hhi). exists (take k l). split_and!; [done|by apply batches_ok_take|].
    rewrite <- (app_nil_r (take k l)). apply content_cut; [done|done|]. intros i. cbn. case_bool_decide; [|done].
    symmetry. pose proof Hok as Hok2. rewrite <- (take_drop k l) in Hok2.
    apply batches_ok_app in Hok2 as (_ & [Ho2 _] & _).
    apply content_None; [done|]. intros q Hq. specialize (Hhi q Hq). lia.
Qed.

Lemma batch_data_truncate_spec d s :
  data_ok d → 0 < s < 1024 →
  ∃ d', batch_data_truncate d (s * 256) = Ok d' ∧ data_ok d' ∧
    ∀ i, known d' i = if bool_decide (i < s * 256) then known d i else None.
Proof.
  intros Hd Hs. unfold batch_data_truncate. change BYTES_PER_SECTOR with 256. rewrite Z.mod_mul, Z.div_mul by lia.
  cbn [negb Z.eqb]. destruct d as [data|x].
  - assert (blen data = 262144) as Hlen by exact Hd.
    set (p := PartialBatch_mk 0 data).
    destruct (pb_cut_ok p s) as (Hcok & Hce & Hcb).
    { split; cbn; [lia| |by rewrite Hlen|unfold end_sector; cbn; by rewrite Hlen].
      intros ->. unfold blen in Hlen. cbn in Hlen. lia. }
    { unfold end_sector. cbn [start_sector range_size PartialBatch_DataRange p pb_data pb_start_sector].
      rewrite Hlen. change (bytes_to_chunks 262144) with 1024. lia. }
    cbn [pb_start_sector pb_data p] in *. rewrite Z.sub_0_r in *. eexists. split; [done|]. split.
    + split; [by apply batches_ok_single|apply increasing_nil].
    + intros i. cbn [known known_data content]. rewrite Hcb. unfold pbyte, p. cbn [pb_start_sector pb_data].
      rewrite Z.mul_0_l, Z.sub_0_r. case_bool_decide; [|done]. destruct (i <? 0); [done|]. by destruct (data !! _).
  - destruct Hd as [Hok Hsub]. destruct (incomplete_truncate_spec x s Hok Hsub ltac:(lia)) as (x' & Hx & H1 & H2 & H3).
    rewrite Hx, bind_Ok. eexists. split; [done|]. split; [done|]. exact H3.
Qed.
