(* ===== verification/ChunkDataInsert.v ===== *)
(** [EntryBatchData::insert_data]: it succeeds exactly if none of the new
    bytes is known, adds them, and reports the seals that became available. *)

From stdpp Require Import sorting list_numbers.
From S2P Require Import Prelude HashElement Shard SharedTypes Seal ChunkData ChunkDataFacts.
Local Open Scope Z_scope.

(** ** Merging ranges *)

Definition pb_join (p q : PartialBatch) : PartialBatch :=
  PartialBatch_mk (pb_start_sector p) (pb_data p ++ pb_data q).

Lemma pb_join_ok p q :
  pb_ok p → pb_ok q → end_sector p = pb_start_sector q →
  pb_ok (pb_join p q) ∧ end_sector (pb_join p q) = end_sector q ∧
  ∀ i, pbyte (pb_join p q) i = match pbyte p i with Some b => Some b | None => pbyte q i end.
Proof.
  intros Hp Hq He. pose proof (pb_bounds p Hp) as [Hlp Hp1]. pose proof (pb_bounds q Hq) as [Hlq Hq1].
  assert (blen (pb_data (pb_join p q)) = 256 * (end_sector q - pb_start_sector p)) as Hl.
  { unfold pb_join, blen in *. cbn [pb_data]. rewrite length_app. lia. }
  assert (end_sector (pb_join p q) = end_sector q) as Hend.
  { unfold end_sector at 1. cbn [start_sector range_size PartialBatch_DataRange]. rewrite Hl, Z.mul_comm.
    unfold bytes_to_chunks. change CHUNK_SIZE with 256. rewrite Z.mod_mul, Z.div_mul by lia. cbn. lia. }
  split_and!; [|done|].
  - destruct Hp as [H1 H2 H3 H4], Hq as [H5 H6 H7 H8]. split; [done| | |lia].
    + unfold pb_join. cbn. by intros [? _]%app_eq_nil.
    + rewrite Hl, Z.mul_comm. by apply Z.mod_mul.
  - intros i. unfold pbyte, pb_join. cbn [pb_start_sector pb_data].
    destruct (Z.ltb_spec i (pb_start_sector p * 256)).
    { rewrite (proj2 (Z.ltb_lt _ _)) by lia. done. }
    rewrite lookup_app. destruct (pb_data p !! _) as [b|] eqn:Hb; [done|].
    apply lookup_ge_None in Hb. unfold blen in Hlp.
    destruct (Z.ltb_spec i (pb_start_sector q * 256)); [lia|]. f_equal. lia.
Qed.

Lemma middle_ok l1 m l2 :
  batches_ok (l1 ++ l2) → pb_ok m → (∀ p, p ∈ l1 → gap p m) → (∀ q, q ∈ l2 → gap m q) →
  batches_ok (l1 ++ m :: l2).
Proof.
  intros (Ho1 & Ho2 & H12)%batches_ok_app Hm Hl Hr. change (m :: l2) with ([m] ++ l2).
  apply batches_ok_app. split_and!; [done| |].
  - apply batches_ok_app. split_and!; [by apply batches_ok_single|done|].
    intros p q ->%list_elem_of_singleton. apply Hr.
  - intros p q Hp [->%list_elem_of_singleton|Hq]%elem_of_app; [by apply Hl|by apply H12].
Qed.

Lemma ends_below l1 prev p :
  batches_ok (l1 ++ [prev]) → p ∈ l1 → gap p prev.
Proof. intros (_ & _ & Hg)%batches_ok_app Hp. apply Hg; [done|by left]. Qed.

(** Whether the neighbours touch the new range. *)
Definition touches_prev (l1 : list PartialBatch) (s : Z) : bool :=
  match last l1 with Some p => s =? end_sector p | None => false end.

Definition touches_next (l2 : list PartialBatch) (e : Z) : bool :=
  match head l2 with Some p => e =? pb_start_sector p | None => false end.

(** The parts of the list around the merged range. *)
Lemma prev_cases l1 s :
  batches_ok l1 → (∀ p, p ∈ l1 → end_sector p ≤ s) →
  (touches_prev l1 s = false ∧ ∀ p, p ∈ l1 → end_sector p < s) ∨
  ∃ l1' prev, l1 = l1' ++ [prev] ∧ touches_prev l1 s = true ∧ end_sector prev = s.
Proof.
  intros Hok Hle. unfold touches_prev. destruct l1 as [|prev l1' _] using rev_ind.
  { left. split; [done|]. by intros p ?%elem_of_nil. }
  rewrite last_snoc. destruct (Z.eqb_spec s (end_sector prev)) as [He|Hne].
  - right. by exists l1', prev.
  - left. split; [done|]. intros p [Hp| ->%list_elem_of_singleton]%elem_of_app.
    + pose proof (ends_below _ _ _ Hok Hp) as Hg. specialize (Hle prev ltac:(set_solver)).
      assert (pb_ok prev) as Hpr by (destruct Hok as [[_ Ho]%Forall_app _]; by rewrite Forall_singleton in Ho).
      pose proof (pb_bounds prev Hpr). unfold gap in Hg. lia.
    + specialize (Hle prev ltac:(set_solver)). lia.
Qed.

Lemma next_cases l2 e :
  batches_ok l2 → (∀ p, p ∈ l2 → e ≤ pb_start_sector p) →
  (touches_next l2 e = false ∧ ∀ p, p ∈ l2 → e < pb_start_sector p) ∨
  ∃ next l2', l2 = next :: l2' ∧ touches_next l2 e = true ∧ pb_start_sector next = e.
Proof.
  intros Hok Hle. unfold touches_next. destruct l2 as [|next l2'].
  { left. split; [done|]. by intros p ?%elem_of_nil. }
  cbn. destruct (Z.eqb_spec e (pb_start_sector next)) as [He|Hne].
  - right. by exists next, l2'.
  - left. split; [done|]. change (next :: l2') with ([next] ++ l2') in Hok.
    apply batches_ok_app in Hok as ([Hn _] & _ & Hg). rewrite Forall_singleton in Hn.
    specialize (Hle next ltac:(by left)).
    intros p [->|Hp]%elem_of_cons; [lia|]. specialize (Hg next p ltac:(by left) Hp).
    pose proof (pb_bounds next Hn). unfold gap in Hg. lia.
Qed.

Record merged (l1 l2 : list PartialBatch) (m : PartialBatch) (l' : list PartialBatch) (u : PartialBatch) : Prop := {
  mg_ok : batches_ok l';
  mg_in : u ∈ l';
  mg_covers : pb_start_sector u ≤ pb_start_sector m ∧ end_sector m ≤ end_sector u;
  mg_content : ∀ i, content l' i = content (l1 ++ m :: l2) i;
}.

Lemma gap_trans p q r : pb_ok q → gap p q → gap q r → gap p r.
Proof. intros Hq. pose proof (pb_bounds q Hq). unfold gap. lia. Qed.

Lemma batches_ok_cons p l : batches_ok (p :: l) ↔ pb_ok p ∧ batches_ok l ∧ ∀ q, q ∈ l → gap p q.
Proof.
  change (p :: l) with ([p] ++ l). rewrite batches_ok_app. split.
  - intros ([Hp _] & Hl & Hg). rewrite Forall_singleton in Hp. split_and!; [done|done|]. intros q. apply Hg. by left.
  - intros (Hp & Hl & Hg). split_and!; [by apply batches_ok_single|done|]. intros a q ->%list_elem_of_singleton. apply Hg.
Qed.

Lemma batches_ok_snoc l p : batches_ok (l ++ [p]) ↔ pb_ok p ∧ batches_ok l ∧ ∀ q, q ∈ l → gap q p.
Proof.
  rewrite batches_ok_app. split.
  - intros (Hl & [Hp _] & Hg). rewrite Forall_singleton in Hp. split_and!; [done|done|]. intros q Hq. apply Hg; [done|by left].
  - intros (Hp & Hl & Hg). split_and!; [done|by apply batches_ok_single|]. intros q a Hq ->%list_elem_of_singleton. by apply Hg.
Qed.

(** The new range touches the next one. *)
Lemma insert_merge_next l1 next l2 m :
  batches_ok (l1 ++ next :: l2) → pb_ok m →
  (∀ p, p ∈ l1 → gap p m) → end_sector m = pb_start_sector next →
  ∃ l' u, insert_merge (l1 ++ next :: l2) (length l1) (pb_start_sector m) (pb_data m) false true = Ok (l', u) ∧
    merged l1 (next :: l2) m l' u.
Proof.
  intros (Ho1 & (Hn & Ho2 & Hg)%batches_ok_cons & H12)%batches_ok_app Hm Hl He.
  unfold insert_merge. rewrite lookup_app_r, Nat.sub_diag by lia. cbn [lookup list_lookup expect]. rewrite bind_Ok.
  destruct (pb_join_ok m next Hm Hn He) as (Hj & Hje & Hjb).
  change (PartialBatch_mk (pb_start_sector m) (pb_data m ++ pb_data next)) with (pb_join m next).
  rewrite insert_app_r_alt, Nat.sub_diag by lia. cbn [insert list_insert].
  eexists _, _. split; [done|]. split.
  - apply middle_ok; [|done|exact Hl|].
    + apply batches_ok_app. split_and!; [done|done|]. intros p q Hp Hq. apply H12; [done|by right].
    + intros q Hq. unfold gap. rewrite Hje. by apply Hg.
  - apply elem_of_app. right. left.
  - rewrite Hje. pose proof (pb_bounds next Hn). cbn. lia.
  - intros i. rewrite !content_app. cbn [content]. rewrite Hjb. destruct (content l1 i), (pbyte m i); done.
Qed.

(** The new range touches the previous one. *)
Lemma insert_merge_prev l1 prev l2 m :
  batches_ok ((l1 ++ [prev]) ++ l2) → pb_ok m →
  end_sector prev = pb_start_sector m → (∀ q, q ∈ l2 → gap m q) →
  ∃ l' u, insert_merge ((l1 ++ [prev]) ++ l2) (length (l1 ++ [prev])) (pb_start_sector m) (pb_data m) true false
      = Ok (l', u) ∧ merged (l1 ++ [prev]) l2 m l' u.
Proof.
  intros ((Hp & Ho1 & Hg)%batches_ok_snoc & Ho2 & H12)%batches_ok_app Hm He Hr.
  unfold insert_merge. rewrite length_app, Nat.add_sub. rewrite lookup_app_l by (rewrite length_app; cbn; lia).
  rewrite lookup_app_r, Nat.sub_diag by lia. cbn [lookup list_lookup expect]. rewrite bind_Ok.
  destruct (pb_join_ok prev m Hp Hm He) as (Hj & Hje & Hjb).
  change (PartialBatch_mk (pb_start_sector prev) (pb_data prev ++ pb_data m)) with (pb_join prev m).
  rewrite <- app_assoc. rewrite insert_app_r_alt, Nat.sub_diag by lia. cbn [app insert list_insert].
  eexists _, _. split; [done|]. split.
  - apply middle_ok; [|done|exact Hg|].
    + apply batches_ok_app. split_and!; [done|done|]. intros p q Hp' Hq. apply H12; [set_solver|done].
    + intros q Hq. unfold gap. rewrite Hje. by apply Hr.
  - apply elem_of_app. right. left.
  - rewrite Hje. pose proof (pb_bounds prev Hp). cbn. lia.
  - intros i. rewrite <- app_assoc, !content_app. cbn [app content]. rewrite Hjb.
    destruct (content l1 i), (pbyte prev i), (pbyte m i); done.
Qed.

(** The new range closes the gap between two. *)
Lemma insert_merge_both l1 prev next l2 m :
  batches_ok ((l1 ++ [prev]) ++ next :: l2) → pb_ok m →
  end_sector prev = pb_start_sector m → end_sector m = pb_start_sector next →
  ∃ l' u, insert_merge ((l1 ++ [prev]) ++ next :: l2) (length (l1 ++ [prev])) (pb_start_sector m) (pb_data m) true true
      = Ok (l', u) ∧ merged (l1 ++ [prev]) (next :: l2) m l' u.
Proof.
  intros ((Hp & Ho1 & Hg)%batches_ok_snoc & (Hn & Ho2 & Hg2)%batches_ok_cons & H12)%batches_ok_app Hm He Hf.
  assert (length (l1 ++ [prev]) = S (length l1)) as Hlen by (rewrite length_app; cbn; lia).
  assert (((l1 ++ [prev]) ++ next :: l2) !! length l1 = Some prev) as Hlp
    by (rewrite lookup_app_l by lia; by apply list_lookup_middle).
  assert (((l1 ++ [prev]) ++ next :: l2) !! S (length l1) = Some next) as Hln by (by apply list_lookup_middle).
  unfold insert_merge. rewrite Hlen. replace (S (length l1) - 1)%nat with (length l1) by lia.
  rewrite Hlp, Hln. cbn [expect]. rewrite !bind_Ok.
  destruct (pb_join_ok prev m Hp Hm He) as (Hj & Hje & Hjb).
  destruct (pb_join_ok (pb_join prev m) next Hj Hn ltac:(by rewrite Hje)) as (Hk & Hke & Hkb).
  change (PartialBatch_mk (pb_start_sector prev) ((pb_data prev ++ pb_data m) ++ pb_data next))
    with (pb_join (pb_join prev m) next).
  rewrite delete_take_drop, take_app_length' by lia. rewrite drop_app_ge by lia.
  rewrite Hlen. replace (S (S (length l1)) - S (length l1))%nat with 1%nat by lia. cbn [drop].
  rewrite <- app_assoc. rewrite insert_app_r_alt, Nat.sub_diag by lia. cbn [app insert list_insert].
  eexists _, _. split; [done|]. split.
  - apply middle_ok; [|done|exact Hg|].
    + apply batches_ok_app. split_and!; [done|done|]. intros p q Hp' Hq. apply H12; set_solver.
    + intros q Hq. unfold gap. rewrite Hke. by apply Hg2.
  - apply elem_of_app. right. left.
  - rewrite Hke. pose proof (pb_bounds prev Hp). pose proof (pb_bounds next Hn). cbn. lia.
  - intros i. rewrite <- app_assoc, !content_app. cbn [app content]. rewrite Hkb, Hjb.
    destruct (content l1 i), (pbyte prev i), (pbyte m i); done.
Qed.

Lemma insert_merge_spec l1 l2 m :
  batches_ok (l1 ++ l2) → pb_ok m →
  (∀ p, p ∈ l1 → end_sector p ≤ pb_start_sector m) → (∀ p, p ∈ l2 → end_sector m ≤ pb_start_sector p) →
  ∃ l' u, insert_merge (l1 ++ l2) (length l1) (pb_start_sector m) (pb_data m)
      (touches_prev l1 (pb_start_sector m)) (touches_next l2 (end_sector m)) = Ok (l', u) ∧
    merged l1 l2 m l' u.
Proof.
  intros Hok Hm H1 H2. pose proof Hok as (Ho1 & Ho2 & H12)%batches_ok_app.
  destruct (prev_cases l1 _ Ho1 H1) as [[-> Hl]|(l1' & prev & -> & -> & Hprev)];
    destruct (next_cases l2 _ Ho2 H2) as [[-> Hr]|(next & l2' & -> & -> & Hnext)].
  - unfold insert_merge. rewrite take_app_length, drop_app_length.
    eexists _, _. split; [destruct m; done|]. destruct m as [s d]. split; [by apply middle_ok| |lia|done].
    apply elem_of_app. right. left.
  - by apply insert_merge_next.
  - by apply insert_merge_prev.
  - by apply insert_merge_both.
Qed.

(** ** Subtrees *)

Lemma drain_subtrees_ok all first idx rest us ue :
  increasing st_start_sector all → (first ≤ idx)%nat → Forall (λ t, us ≤ st_start_sector t) rest →
  ∃ t', drain_subtrees all first idx rest us ue = Ok t' ∧ increasing st_start_sector t'.
Proof.
  intros Hinc Hi Hr. revert idx Hi. induction Hr as [|t rest Ht Hr IH]; intros idx Hi; cbn [drain_subtrees]; [eauto|].
  rewrite (proj2 (Z.ltb_ge _ _)) by done. destruct (_ <? _); [|apply IH; lia].
  eexists. split; [done|]. rewrite <- (take_drop first all) in Hinc.
  apply increasing_app in Hinc as (H1 & H2 & H12). apply increasing_app.
  assert (drop idx all = drop (idx - first) (drop first all)) as -> by (rewrite drop_drop; f_equal; lia).
  rewrite <- (take_drop (idx - first) (drop first all)) in H2. apply increasing_app in H2 as (_ & H2 & _).
  split_and!; [done|done|]. intros a b Ha Hb. apply H12; [done|].
  rewrite <- (take_drop (idx - first) (drop first all)). set_solver.
Qed.

Lemma remove_completed_subtrees_ok all u :
  increasing st_start_sector all →
  ∃ t', remove_completed_subtrees all u = Ok t' ∧ increasing st_start_sector t'.
Proof.
  intros Hinc. unfold remove_completed_subtrees.
  pose proof (binary_search_by_key_spec st_start_sector all (pb_start_sector u) Hinc) as Hb.
  set (first := match binary_search_by_key _ _ _ with Found x | Missing x => x end).
  apply drain_subtrees_ok; [done|done|]. apply Forall_forall. intros t (j & Hj)%list_elem_of_lookup.
  rewrite lookup_drop in Hj. destruct (binary_search_by_key _ _ _) as [x|x]; unfold first in *; cbn in Hb.
  - destruct Hb as (a & Ha & <-). destruct j as [|j]; [rewrite Nat.add_0_r in Hj; simplify_eq; lia|].
    enough (st_start_sector a < st_start_sector t) by lia. apply (Hinc x (x + S j)%nat); [lia|done|done].
  - destruct Hb as (_ & _ & Hhi). specialize (Hhi (x + j)%nat t ltac:(lia) Hj). lia.
Qed.

(** ** Where to insert *)

Lemma insert_position_free l s msg :
  batches_ok l → content l (s * 256) = None →
  ∃ k, insert_position l s msg = Ok k ∧ find_result l s (Missing k).
Proof.
  intros Hok Hfree. unfold insert_position. destruct (find_spec l s Hok) as (r & -> & Hr). rewrite bind_Ok.
  destruct r as [k|k]; [exfalso|eauto]. destruct Hr as (p & Hp & Hr). destruct Hok as [Ho _].
  assert (is_Some (content l (s * 256))) as []; [|congruence].
  apply content_Some; [done|]. exists p. split; [by eapply list_elem_of_lookup_2|lia].
Qed.

Lemma insert_position_inv l s msg k :
  batches_ok l → insert_position l s msg = Ok k → find_result l s (Missing k).
Proof.
  intros Hok. unfold insert_position. destruct (find_spec l s Hok) as (r & -> & Hr). rewrite bind_Ok.
  destruct r; [done|]. by intros [= <-].
Qed.

Lemma insert_position_err l s msg :
  batches_ok l → (∀ k, insert_position l s msg ≠ Ok k) → insert_position l s msg = Err msg.
Proof.
  intros Hok Hn. unfold insert_position in *. destruct (find_spec l s Hok) as (r & Hr & _).
  rewrite Hr, bind_Ok in *. destruct r; [done|]. by destruct (Hn i).
Qed.

(** Both ends of a free range belong at the same place, and between the ranges
    on its two sides. *)
Lemma positions_agree l s e k1 k2 :
  batches_ok l → s < e → find_result l s (Missing k1) → find_result l (e - 1) (Missing k2) →
  (∀ i, s * 256 ≤ i < e * 256 → content l i = None) → k1 = k2.
Proof.
  intros Hok Hse (Hk1 & Hlo1 & Hhi1) (Hk2 & Hlo2 & Hhi2) Hfree. destruct Hok as [Ho _].
  destruct (lt_eq_lt_dec k1 k2) as [[Hlt|]|Hlt]; [exfalso|done|exfalso].
  - destruct (lookup_lt_is_Some_2 l k1) as [p Hp]; [lia|].
    assert (p ∈ take k2 l) as H1 by (apply list_elem_of_lookup; exists k1; by rewrite lookup_take_lt).
    assert (p ∈ drop k1 l) as H2 by (apply list_elem_of_lookup; exists 0%nat; by rewrite lookup_drop, Nat.add_0_r).
    specialize (Hlo2 p H1). specialize (Hhi1 p H2).
    assert (pb_ok p) as Hpok by (by eapply Forall_lookup_1). pose proof (pb_bounds p Hpok).
    assert (is_Some (content l (pb_start_sector p * 256))) as [b Hb].
    { apply content_Some; [done|]. exists p. split; [by eapply list_elem_of_lookup_2|lia]. }
    rewrite Hfree in Hb; [done|lia].
  - destruct (lookup_lt_is_Some_2 l k2) as [p Hp]; [lia|].
    assert (p ∈ take k1 l) as H1 by (apply list_elem_of_lookup; exists k2; by rewrite lookup_take_lt).
    assert (p ∈ drop k2 l) as H2 by (apply list_elem_of_lookup; exists 0%nat; by rewrite lookup_drop, Nat.add_0_r).
    specialize (Hlo1 p H1). specialize (Hhi2 p H2).
    assert (pb_ok p) as Hpok by (by eapply Forall_lookup_1). pose proof (pb_bounds p Hpok). lia.
Qed.

Lemma position_free l s e k :
  batches_ok l → s < e → find_result l s (Missing k) → find_result l (e - 1) (Missing k) →
  ∀ i, s * 256 ≤ i < e * 256 → content l i = None.
Proof.
  intros [Ho _] Hse (_ & Hlo & _) (_ & _ & Hhi) i Hi. apply content_None; [done|]. intros p Hp.
  rewrite <- (take_drop k l) in Hp. apply elem_of_app in Hp as [Hp|Hp].
  - specialize (Hlo p Hp). lia.
  - specialize (Hhi p Hp). lia.
Qed.

Lemma touches_prev_lookup l k s :
  (k ≤ length l)%nat →
  (if bool_decide (k = O) then Ok false
   else prev ← expect (l !! (k - 1)%nat); Ok (s =? end_sector prev)) = Ok (touches_prev (take k l) s).
Proof.
  intros Hk. unfold touches_prev. case_bool_decide as Hz; [subst; done|].
  destruct (lookup_lt_is_Some_2 l (k - 1)) as [p Hp]; [lia|]. rewrite Hp. cbn [expect]. rewrite bind_Ok.
  rewrite last_lookup, length_take. replace (pred (k `min` length l)) with (k - 1)%nat by lia.
  by rewrite lookup_take_lt, Hp by lia.
Qed.

Lemma touches_next_lookup l k e :
  (k ≤ length l)%nat →
  (if bool_decide (k = length l) then Ok false
   else next ← expect (l !! k); Ok (e =? pb_start_sector next)) = Ok (touches_next (drop k l) e).
Proof.
  intros Hk. unfold touches_next. rewrite head_lookup, lookup_drop, Nat.add_0_r. case_bool_decide as Hz.
  { by rewrite (proj2 (lookup_ge_None l k)) by lia. }
  destruct (lookup_lt_is_Some_2 l k) as [p Hp]; [lia|]. by rewrite Hp.
Qed.

(** ** [insert_data] *)

(** The new bytes as a range of their own. *)
Definition new_range (s : Z) (data : list Z) : PartialBatch := PartialBatch_mk s data.

Lemma new_range_ok s data :
  0 ≤ s → data ≠ [] → blen data `mod` 256 = 0 → s + blen data / 256 ≤ 1024 →
  pb_ok (new_range s data) ∧ end_sector (new_range s data) = s + blen data / 256 ∧
  blen data = 256 * (blen data / 256) ∧ 0 < blen data / 256.
Proof.
  intros Hs Hne Hm Hb. assert (end_sector (new_range s data) = s + blen data / 256) as He.
  { unfold end_sector. cbn [start_sector range_size PartialBatch_DataRange new_range pb_start_sector pb_data].
    unfold bytes_to_chunks. change CHUNK_SIZE with 256. rewrite Hm. cbn. lia. }
  assert (0 < blen data) by (unfold blen; destruct data; [done|cbn; lia]).
  pose proof (Z.div_mod (blen data) 256 ltac:(lia)).
  split_and!; [split; [done|done|done|lia]|done|lia|lia].
Qed.

(** A list of ranges that knows every byte is one range. *)
Lemma batches_full l :
  batches_ok l → (∀ i, 0 ≤ i < 262144 → is_Some (content l i)) →
  ∃ p, l = [p] ∧ pb_start_sector p = 0 ∧ end_sector p = 1024.
Proof.
  intros Hok Hall. destruct (contiguous l 0 262144 Hok ltac:(lia) Hall) as (p & Hp & Hs & He).
  pose proof Hok as [Ho _]. rewrite Forall_forall in Ho. pose proof (Ho p Hp) as [H1 _ _ H4].
  pose proof (pb_bounds p (Ho p Hp)).
  assert (∀ q, q ∈ l → q = p) as Hall'.
  { intros q Hq. pose proof (Ho q Hq) as [H5 _ _ H6]. pose proof (pb_bounds q (Ho q Hq)).
    destruct (batches_gap l p q Hok Hp Hq) as [->|[Hg|Hg]]; unfold gap in *; [done|lia|lia]. }
  exists p. split; [|lia]. destruct l as [|a [|b l]]; [by apply elem_of_nil in Hp| |].
  - by rewrite (Hall' a) by by left.
  - exfalso. assert (a = p) as -> by (apply Hall'; by left). assert (b = p) as -> by (apply Hall'; right; by left).
    apply batches_ok_cons in Hok as (_ & _ & Hg). specialize (Hg p ltac:(by left)). unfold gap in Hg. lia.
Qed.

(** The batch after the merge. *)
Lemma completed_spec l subs :
  batches_ok l → increasing st_start_sector subs →
  let d' := match l with
    | [p] => if (pb_start_sector p =? 0) && (bytes_to_chunks (blen (pb_data p)) =? SECTORS_PER_LOAD)
             then Complete (pb_data p) else Incomplete (IncompleteData_mk subs l)
    | _ => Incomplete (IncompleteData_mk subs l)
    end in
  data_ok d' ∧ (∀ i, known d' i = content l i) ∧
  ((∀ i, 0 ≤ i < BYTES_PER_LOAD → is_Some (content l i)) → ∃ data, d' = Complete data).
Proof.
  intros Hok Hsub d'.
  assert (∀ p, l = [p] → end_sector p = pb_start_sector p + bytes_to_chunks (blen (pb_data p))) as Hend by done.
  assert (d' = Incomplete (IncompleteData_mk subs l) ∧ ¬ (∃ p, l = [p] ∧ pb_start_sector p = 0 ∧ end_sector p = 1024) ∨
    ∃ p, l = [p] ∧ d' = Complete (pb_data p) ∧ pb_start_sector p = 0 ∧ end_sector p = 1024) as Hcase.
  { destruct l as [|p [|]]; [left; split; [done|by intros (?&?&_)]| |left; split; [done|by intros (?&?&_)]].
    specialize (Hend p eq_refl). change SECTORS_PER_LOAD with 1024 in d'. unfold d'.
    destruct (Z.eqb_spec (pb_start_sector p) 0), (Z.eqb_spec (bytes_to_chunks (blen (pb_data p))) 1024); cbn;
      [right; exists p; split_and!; [done|done|done|lia]|left; split; [done|]..];
      intros (q & [= <-] & ? & ?); lia. }
  destruct Hcase as [[-> Hn]|(p & -> & -> & Hs & He)].
  - split_and!; [done|done|]. intros Hall. by destruct Hn; apply batches_full.
  - destruct Hok as [Ho _]. rewrite Forall_singleton in Ho. pose proof (pb_bounds p Ho) as [Hl _].
    split_and!; [cbn; rewrite Hl, Hs, He; done| |eauto]. intros i. cbn. unfold pbyte. rewrite Hs, Z.mul_0_l, Z.sub_0_r.
    destruct (i <? 0); [done|]. by destruct (pb_data p !! _).
Qed.

Lemma content_middle l1 l2 m i :
  batches_ok (l1 ++ l2) → pb_ok m →
  (∀ p, p ∈ l1 → end_sector p ≤ pb_start_sector m) → (∀ p, p ∈ l2 → end_sector m ≤ pb_start_sector p) →
  content (l1 ++ m :: l2) i =
    if bool_decide (pb_start_sector m * 256 ≤ i < end_sector m * 256) then pbyte m i else content (l1 ++ l2) i.
Proof.
  intros ([Ho1 _] & [Ho2 _] & _)%batches_ok_app Hm H1 H2. rewrite !content_app. cbn [content]. case_bool_decide as Hi.
  - rewrite (content_None l1); [|done|intros p Hp; specialize (H1 p Hp); lia].
    destruct (proj2 (pbyte_Some m i Hm) Hi) as [b ->]. done.
  - by rewrite pbyte_None by (done || lia).
Qed.

Lemma elem_of_range_elems k a b : k ∈ range_elems (a, b) ↔ a ≤ k < b.
Proof. unfold range_elems. rewrite elem_of_seqZ. cbn. lia. Qed.

(** The seals reported as ready: those that the new data touches and that are
    known completely. *)
Definition ready_seals (f : Z → option Z) (s n : Z) (seals : list Z) : Prop :=
  ∀ k, k ∈ seals ↔ s < (k + 1) * 16 ∧ k * 16 < s + n ∧
    ∀ i, k * 4096 ≤ i < (k + 1) * 4096 → is_Some (f i).

Lemma ready_seals_spec l u s n :
  batches_ok l → u ∈ l → pb_start_sector u ≤ s → s + n ≤ end_sector u → 0 ≤ s → 0 < n →
  ready_seals (content l) s n
    (filter (λ i, i ∈ range_elems (get_intact_sealing_index (pb_start_sector u) (blen (pb_data u) / BYTES_PER_SECTOR)))
       (range_elems (get_covered_sealing_index s n))).
Proof.
  intros Hok Hu Hs He Hs0 Hn k. pose proof Hok as [Ho _]. rewrite Forall_forall in Ho.
  pose proof (Ho u Hu) as Huok. pose proof (pb_bounds u Huok) as [Hl Hb]. destruct Huok as [H1 _ _ H4].
  change BYTES_PER_SECTOR with 256. rewrite Hl, (Z.mul_comm 256), Z.div_mul by lia.
  rewrite list_elem_of_filter. unfold get_intact_sealing_index, get_covered_sealing_index, wrap16.
  change SECTORS_PER_SEAL with 16. rewrite !elem_of_range_elems.
  rewrite !(Z.mod_small (_ / 16)) by (Z.to_euclidean_division_equations; lia).
  replace (pb_start_sector u + (end_sector u - pb_start_sector u)) with (end_sector u) by lia.
  trans (pb_start_sector u ≤ 16 * k ∧ 16 * k + 16 ≤ end_sector u ∧ s < (k + 1) * 16 ∧ k * 16 < s + n).
  { Z.to_euclidean_division_equations. lia. }
  split.
  - intros (Ha & Hc & Hd & Hf). split_and!; [done|done|]. intros i Hi. apply content_Some; [by destruct Hok|].
    exists u. split; [done|lia].
  - intros (Hd & Hf & Hall).
    destruct (contiguous l (k * 4096) ((k + 1) * 4096) Hok ltac:(lia) Hall) as (p & Hp & Hps & Hpe).
    pose proof (pb_bounds p (Ho p Hp)).
    destruct (batches_gap l p u Hok Hp Hu) as [->|[Hg|Hg]]; unfold gap in *; lia.
Qed.

Lemma batch_data_insert_free d s data :
  data_ok d → 0 ≤ s → data ≠ [] → blen data `mod` 256 = 0 → s + blen data / 256 ≤ 1024 →
  (∀ i, s * 256 ≤ i < s * 256 + blen data → known d i = None) →
  ∃ d' seals, batch_data_insert_data d (s * 256) data = Ok (d', seals) ∧ data_ok d' ∧
    (∀ i, known d' i = if bool_decide (s * 256 ≤ i < s * 256 + blen data) then data !! Z.to_nat (i - s * 256)
                       else known d i) ∧
    ready_seals (known d') s (blen data / 256) seals ∧
    ((∀ i, 0 ≤ i < BYTES_PER_LOAD → is_Some (known d' i)) → ∃ data', d' = Complete data').
Proof.
  intros Hd Hs Hne Hm Hb Hfree. destruct (new_range_ok s data Hs Hne Hm Hb) as (Hmok & Hme & Hlen & Hpos).
  unfold batch_data_insert_data. change BYTES_PER_SECTOR with 256. rewrite Z.mod_mul, Hm, Z.div_mul by lia.
  cbn [Z.eqb negb]. set (n := blen data / 256) in *. destruct d as [all|x].
  { exfalso. cbn in Hd, Hfree. specialize (Hfree (s * 256) ltac:(lia)). rewrite (proj2 (Z.ltb_ge _ _)) in Hfree by lia.
    apply lookup_ge_None in Hfree. unfold blen in Hd. change BYTES_PER_LOAD with 262144 in Hd. lia. }
  destruct Hd as [Hok Hsub]. cbn [known] in Hfree. set (l := known_data x) in *.
  rewrite (wrap64_small (s + n - 1)) by lia.
  destruct (insert_position_free l s "start position overlapped with existing batch" Hok) as (k & -> & Hk);
    [apply Hfree; lia|].
  destruct (insert_position_free l (s + n - 1) "end position overlapped with existing batch" Hok) as (k2 & -> & Hk2);
    [apply Hfree; lia|].
  rewrite !bind_Ok.
  assert (k2 = k) as -> by (symmetry; eapply (positions_agree l s (s + n)); [done|lia|done|done|intros i Hi; apply Hfree; lia]).
  rewrite (bool_decide_false (k ≠ k)) by naive_solver. destruct Hk as (Hkl & Hlo & _), Hk2 as (_ & _ & Hhi).
  rewrite touches_prev_lookup, bind_Ok, touches_next_lookup, bind_Ok by done.
  assert (∀ p, p ∈ take k l → end_sector p ≤ pb_start_sector (new_range s data)) as Hl1 by exact Hlo.
  assert (∀ p, p ∈ drop k l → end_sector (new_range s data) ≤ pb_start_sector p) as Hl2.
  { intros p Hp. specialize (Hhi p Hp). lia. }
  destruct (insert_merge_spec (take k l) (drop k l) (new_range s data)) as (l' & u & Hmg & [Hok' Hu Hcov Hcont]);
    [by rewrite take_drop|done|done|done|].
  rewrite take_drop, length_take, Nat.min_l, Hme in Hmg by done. cbn [pb_start_sector pb_data new_range] in Hmg.
  rewrite Hmg, bind_Ok. cbn [fst snd].
  destruct (remove_completed_subtrees_ok (subtrees x) u Hsub) as (subs & -> & Hsubs). rewrite bind_Ok.
  destruct (completed_spec l' subs Hok' Hsubs) as (Hd' & Hknown & Hfull).
  eexists _, _. split; [done|]. split_and!; [exact Hd'| | |].
  - intros i. rewrite Hknown, Hcont, content_middle, take_drop by (by rewrite ?take_drop). rewrite Hme.
    cbn [pb_start_sector new_range known]. replace ((s + n) * 256) with (s * 256 + blen data) by lia.
    case_bool_decide as Hi; [|done]. unfold pbyte. cbn [pb_start_sector pb_data new_range].
    by rewrite (proj2 (Z.ltb_ge _ _)) by lia.
  - cbn [new_range pb_start_sector] in Hcov. pose proof (ready_seals_spec l' u s n Hok' Hu) as Hready.
    intros j. setoid_rewrite Hknown. apply Hready; lia.
  - intros Hall. apply Hfull. intros i Hi. rewrite <- Hknown. by apply Hall.
Qed.

Lemma batch_data_insert_overlap d s data i :
  data_ok d → 0 ≤ s → data ≠ [] → blen data `mod` 256 = 0 → s + blen data / 256 ≤ 1024 →
  s * 256 ≤ i < s * 256 + blen data → is_Some (known d i) →
  ∃ msg, batch_data_insert_data d (s * 256) data = Err msg.
Proof.
  intros Hd Hs Hne Hm Hb Hi [b Hknown]. destruct (new_range_ok s data Hs Hne Hm Hb) as (_ & _ & Hlen & Hpos).
  unfold batch_data_insert_data. change BYTES_PER_SECTOR with 256. rewrite Z.mod_mul, Hm, Z.div_mul by lia.
  cbn [Z.eqb negb]. set (n := blen data / 256) in *. destruct d as [all|x]; [eauto|].
  destruct Hd as [Hok _]. cbn [known] in Hknown. set (l := known_data x) in *. rewrite (wrap64_small (s + n - 1)) by lia.
  destruct (find_spec l s Hok) as (r & Hr & Hrs). unfold insert_position. rewrite Hr, bind_Ok.
  destruct r as [k|k]; [cbn; eauto|]. rewrite bind_Ok.
  destruct (find_spec l (s + n - 1) Hok) as (r2 & Hr2 & Hrs2). rewrite Hr2, bind_Ok.
  destruct r2 as [k2|k2]; [cbn; eauto|]. rewrite bind_Ok. case_bool_decide as Hk; [eauto|]. subst k2.
  exfalso. rewrite (position_free l s (s + n) k) in Hknown; [done|done|lia|done|done|lia].
Qed.
