(* ===== verification/SealInfo.v ===== *)
(** Which seals of a batch are sealed, and in which context:
    [node/storage/src/log_store/load_chunk/seal.rs] and [bitmap.rs].

    [Bitmap<64>] of the crate [bitmaps] is an interface with the documented
    behaviour: it is a 64-bit value of which single bits can be read and set. *)

From stdpp Require Import sorting list_numbers.
From S2P Require Import Prelude HashElement Shard Seal ChunkData.
Local Open Scope Z_scope.

Class Bitmap64 (B : Type) := {
  bm_default : B;
  bm_get : B → Z → bool;
  bm_set : B → Z → bool → B;
  into_value : B → Z;
  from_value : Z → B;
}.

Class Bitmap64Laws (B : Type) `{Bitmap64 B} := {
  bm_value_bound : ∀ b, 0 ≤ into_value b < 2 ^ 64;
  bm_from_value : ∀ b, from_value (into_value b) = b;
  bm_value_from : ∀ v, 0 ≤ v < 2 ^ 64 → into_value (from_value v) = v;
  bm_get_value : ∀ b i, 0 ≤ i < 64 → bm_get b i = Z.testbit (into_value b) i;
  bm_get_set_eq : ∀ b i v, 0 ≤ i < 64 → bm_get (bm_set b i v) i = v;
  bm_get_set_ne : ∀ b i j v, 0 ≤ i < 64 → 0 ≤ j < 64 → i ≠ j → bm_get (bm_set b i v) j = bm_get b j;
  bm_get_default : ∀ i, 0 ≤ i < 64 → bm_get bm_default i = false;
}.

Record SealContextInfo := SealContextInfo_mk {
  context_digest : H256;
  end_seal_index : Z;
}.

Record SealInfo (B : Type) := SealInfo_mk {
  bitmap : B;
  load_index : Z;
  si_miner_id : H256;
  seal_contexts : list SealContextInfo;
}.
Arguments SealInfo_mk {B} bitmap load_index si_miner_id seal_contexts.
Arguments bitmap {B} s.
Arguments load_index {B} s.
Arguments si_miner_id {B} s.
Arguments seal_contexts {B} s.

(** [1 << index] shifts by [index] modulo 64. *)
Definition truncate_u64 (value index : Z) : Z := Z.land value (wrap64 (2 ^ (index `mod` 64) - 1)).

Definition h256_zero : H256 := vreplicate 32 0.

Definition context_index (contexts : list SealContextInfo) (seal_index : Z) : nat :=
  match binary_search_by_key end_seal_index contexts (wrap16 (seal_index + 1)) with
  | Found x | Missing x => x
  end.

(** The three cases of inserting a context. *)
Definition add_context (contexts : list SealContextInfo) (new_context : SealContextInfo) : list SealContextInfo :=
  let insert_position := context_index contexts (wrap16 (end_seal_index new_context - 1)) in
  match contexts !! insert_position with
  | Some existing_context =>
      if bool_decide (context_digest existing_context = context_digest new_context) then contexts
      else take insert_position contexts ++ new_context :: drop insert_position contexts
  | None => contexts ++ [new_context]
  end.

Section seal_info.
Context `{Keccak, Bitmap64 B}.
Implicit Types self : SealInfo B.

Definition bitmap_truncate (b : B) (index : Z) : B := from_value (truncate_u64 (into_value b) index).

Definition seal_info_new (load_index : Z) : SealInfo B := SealInfo_mk bm_default load_index h256_zero [].

Definition is_sealed self (seal_index : Z) : bool := bm_get (bitmap self) seal_index.

Definition mark_sealed self (seal_index : Z) : SealInfo B :=
  SealInfo_mk (bm_set (bitmap self) seal_index true) (load_index self) (si_miner_id self) (seal_contexts self).

Definition global_seal_sector self (index : Z) : Z :=
  wrap64 (load_index self * SECTORS_PER_LOAD + index * SECTORS_PER_SEAL).

Definition get_seal_context_digest self (seal_index : Z) : option H256 :=
  context_digest <$> seal_contexts self !! context_index (seal_contexts self) seal_index.

Definition set_seal_context self (digest : H256) (global_end_seal_index : Z) (miner_id : H256) :
    outcome (SealInfo B) :=
  miner_id ← (if bool_decide (si_miner_id self = h256_zero) then Ok miner_id
              else if bool_decide (si_miner_id self = miner_id) then Ok (si_miner_id self) else Panic);
  let end_index := wrap64 (global_end_seal_index - wrap64 (load_index self * SEALS_PER_LOAD)) in
  let end_index := wrap16 (Z.min end_index SEALS_PER_LOAD) in
  Ok (SealInfo_mk (bitmap self) (load_index self) miner_id
        (add_context (seal_contexts self) (SealContextInfo_mk digest end_index))).

Definition truncated_seal_index self (reverted_seal_index : Z) : outcome Z :=
  match context_index (seal_contexts self) reverted_seal_index with
  | O => Ok 0
  | S truncated => c ← expect (seal_contexts self !! truncated); Ok (end_seal_index c)
  end.

Definition seal_info_truncate self (reverted_seal_index : Z) : outcome (SealInfo B) :=
  let truncated_context_index := context_index (seal_contexts self) reverted_seal_index in
  truncated ← truncated_seal_index self reverted_seal_index;
  Ok (SealInfo_mk (bitmap_truncate (bitmap self) truncated) (load_index self) (si_miner_id self)
        (take truncated_context_index (seal_contexts self))).

Definition seal_info_unseal self (data : list Z) (index : Z) : outcome (list Z) :=
  if negb (is_sealed self index) then Ok data
  else
    seal_context ← expect (get_seal_context_digest self index);
    unseal data (si_miner_id self) seal_context (global_seal_sector self index).

End seal_info.

(** * The contexts of a batch: as long as every answer names the context that
    its seal really has, each sealed seal finds its own context again, whatever
    the order in which seals are submitted and truncated. *)

(** The context of each seal of the batch: its digest and the seal at which it
    ends, both the same for all seals of the context. *)
Record context_map (G : Z → SealContextInfo) : Prop := {
  cm_end : ∀ s, 0 ≤ s < 64 → s < end_seal_index (G s) ≤ 64;
  cm_same : ∀ s s', 0 ≤ s → s ≤ s' < end_seal_index (G s) → G s' = G s;
  cm_digest : ∀ s s', 0 ≤ s < 64 → 0 ≤ s' < 64 → context_digest (G s) = context_digest (G s') →
    end_seal_index (G s) = end_seal_index (G s');
}.

Record contexts_ok (G : Z → SealContextInfo) (cs : list SealContextInfo) : Prop := {
  co_inc : increasing end_seal_index cs;
  co_from : ∀ c, c ∈ cs → 1 ≤ end_seal_index c ≤ 64 ∧ G (end_seal_index c - 1) = c;
}.

Section contexts.
Context (G : Z → SealContextInfo) (HG : context_map G).
Implicit Types cs : list SealContextInfo.

Lemma context_index_spec cs s :
  increasing end_seal_index cs → 0 ≤ s < 65535 →
  (context_index cs s ≤ length cs)%nat ∧
  (∀ c, c ∈ take (context_index cs s) cs → end_seal_index c ≤ s) ∧
  ∀ c, c ∈ drop (context_index cs s) cs → s < end_seal_index c.
Proof.
  intros Hinc Hs. unfold context_index, wrap16. rewrite Z.mod_small by lia.
  pose proof (binary_search_by_key_spec end_seal_index cs (s + 1) Hinc) as Hb.
  destruct (binary_search_by_key _ _ _) as [k|k]; cbn in Hb.
  - destruct Hb as (a & Ha & Hk). split_and!; [apply lookup_lt_Some in Ha; lia| |].
    + intros c (j & Hj)%list_elem_of_lookup. apply lookup_take_Some in Hj as [Hj Hlt].
      specialize (Hinc j k c a Hlt Hj Ha). lia.
    + intros c (j & Hj)%list_elem_of_lookup. rewrite lookup_drop in Hj.
      destruct j as [|j]; [rewrite Nat.add_0_r in Hj; simplify_eq; lia|].
      specialize (Hinc k (k + S j)%nat a c ltac:(lia) Ha Hj). lia.
  - destruct Hb as (Hk & Hlo & Hhi). split_and!; [done| |].
    + intros c (j & Hj)%list_elem_of_lookup. apply lookup_take_Some in Hj as [Hj Hlt].
      specialize (Hlo j c Hlt Hj). lia.
    + intros c (j & Hj)%list_elem_of_lookup. rewrite lookup_drop in Hj.
      specialize (Hhi (k + j)%nat c ltac:(lia) Hj). lia.
Qed.

Lemma context_between s e :
  0 ≤ s < e → e ≤ end_seal_index (G s) → G (e - 1) = G s.
Proof. intros Hs He. apply (cm_same G HG); lia. Qed.

(** A seal whose context was stored finds it. *)
Lemma context_found cs s :
  contexts_ok G cs → 0 ≤ s < 64 → G s ∈ cs → cs !! context_index cs s = Some (G s).
Proof.
  intros [Hinc Hfrom] Hs Hin. destruct (context_index_spec cs s Hinc ltac:(lia)) as (Hk & Hlo & Hhi).
  set (k := context_index cs s) in *. pose proof (cm_end G HG s Hs) as He.
  assert (G s ∈ drop k cs) as Hd.
  { rewrite <- (take_drop k cs) in Hin. apply elem_of_app in Hin as [Hin|Hin]; [|done].
    specialize (Hlo _ Hin). lia. }
  destruct (drop k cs) as [|c rest] eqn:E; [by apply elem_of_nil in Hd|].
  assert (cs !! k = Some c) as Hc.
  { rewrite <- (Nat.add_0_r k), <- lookup_drop, E. done. }
  rewrite Hc. f_equal. apply elem_of_cons in Hd as [->|Hd]; [done|].
  assert (end_seal_index c < end_seal_index (G s)) as Hlt.
  { rewrite <- (take_drop k cs), E in Hinc. apply increasing_app in Hinc as (_ & [Hx _]%increasing_cons & _). by apply Hx. }
  specialize (Hhi c ltac:(by left)). destruct (Hfrom c) as [_ Hg]; [by eapply list_elem_of_lookup_2|].
  rewrite <- Hg. apply context_between; lia.
Qed.

(** Adding the context of a seal keeps what was there and adds it. *)
Lemma add_context_spec cs s :
  contexts_ok G cs → 0 ≤ s < 64 →
  contexts_ok G (add_context cs (G s)) ∧ G s ∈ add_context cs (G s) ∧ cs ⊆ add_context cs (G s).
Proof.
  intros [Hinc Hfrom] Hs. pose proof (cm_end G HG s Hs) as He. set (e := end_seal_index (G s)) in *.
  assert (G (e - 1) = G s) as Hge by (apply context_between; lia).
  unfold add_context. fold e. unfold wrap16. rewrite (Z.mod_small (e - 1)) by lia.
  destruct (context_index_spec cs (e - 1) Hinc ltac:(lia)) as (Hk & Hlo & Hhi).
  set (k := context_index cs (e - 1)) in *. destruct (cs !! k) as [c|] eqn:Hc.
  - assert (c ∈ cs) as Hin by (by eapply list_elem_of_lookup_2). destruct (Hfrom c Hin) as [Hb Hg].
    assert (drop k cs = c :: drop (S k) cs) as Hd by (by apply drop_S). rewrite Hd in Hhi.
    specialize (Hhi c ltac:(by left)) as Hce. case_bool_decide as Hdig.
    + assert (end_seal_index c = e) as Hee.
      { rewrite <- Hg. apply (cm_digest G HG); [lia|lia|]. by rewrite Hg. }
      assert (c = G s) as -> by (by rewrite <- Hg, Hee). done.
    + assert (end_seal_index c ≠ e) as Hne.
      { intros Hee. rewrite Hee, Hge in Hg. by subst c. }
      assert (increasing end_seal_index (take k cs ++ G s :: drop k cs)) as Hinc'.
      { rewrite <- (take_drop k cs) in Hinc. apply increasing_app in Hinc as (H1 & H2 & H12).
        apply increasing_app. rewrite increasing_cons. split_and!; [done| |done|].
        - intros b Hb'. fold e. rewrite Hd in Hb', H2. apply increasing_cons in H2 as [H2 _].
          apply elem_of_cons in Hb' as [->|Hb']; [lia|]. specialize (H2 b Hb'). lia.
        - intros a b Ha [->|Hb']%elem_of_cons; [specialize (Hlo a Ha); fold e; lia|by apply H12]. }
      split_and!; [split; [done|]| |].
      * intros a Ha. apply elem_of_app in Ha as [Ha|Ha].
        { apply Hfrom. rewrite <- (take_drop k cs). set_solver. }
        apply elem_of_cons in Ha as [->|Ha]; [fold e; split; [lia|done]|].
        apply Hfrom. rewrite <- (take_drop k cs). set_solver.
      * set_solver.
      * rewrite <- (take_drop k cs) at 1. set_solver.
  - apply lookup_ge_None in Hc. rewrite take_ge in Hlo by lia. split_and!; [split| |].
    + apply increasing_app. split_and!; [done| |].
      * apply increasing_cons. split; [by intros b ?%elem_of_nil|apply increasing_nil].
      * intros a b Ha ->%list_elem_of_singleton. fold e. specialize (Hlo a Ha). lia.
    + intros a [Ha|Ha]%elem_of_app; [by apply Hfrom|]. apply list_elem_of_singleton in Ha as ->.
      fold e. split; [lia|done].
    + set_solver.
    + set_solver.
Qed.

End contexts.

(** ** The invariant of [SealInfo] *)

Section seal_info_facts.
Context `{Keccak, Bitmap64 B, !Bitmap64Laws B}.
Context (G : Z → SealContextInfo) (HG : context_map G) (miner : H256).
Implicit Types self : SealInfo B.

Record seal_ok self : Prop := {
  so_contexts : contexts_ok G (seal_contexts self);
  so_sealed : ∀ s, 0 ≤ s < 64 → is_sealed self s = true → G s ∈ seal_contexts self ∧ si_miner_id self = miner;
  so_miner : si_miner_id self = h256_zero ∨ si_miner_id self = miner;
}.

Lemma seal_info_new_ok n : seal_ok (seal_info_new n).
Proof.
  split; cbn.
  - split; [apply increasing_nil|]. by intros c ?%elem_of_nil.
  - intros s Hs. unfold is_sealed, seal_info_new. cbn. by rewrite bm_get_default.
  - by left.
Qed.

Lemma digest_found self s :
  seal_ok self → 0 ≤ s < 64 → is_sealed self s = true →
  get_seal_context_digest self s = Some (context_digest (G s)).
Proof.
  intros [Hc Hs _] Hr Hsealed. unfold get_seal_context_digest.
  by rewrite (context_found G HG) by (done || by apply Hs).
Qed.

Lemma set_seal_context_spec self s global_end :
  seal_ok self → 0 ≤ s < 64 →
  wrap16 (Z.min (wrap64 (global_end - wrap64 (load_index self * SEALS_PER_LOAD))) SEALS_PER_LOAD)
    = end_seal_index (G s) →
  ∃ self', set_seal_context self (context_digest (G s)) global_end miner = Ok self' ∧
    seal_ok self' ∧ G s ∈ seal_contexts self' ∧ si_miner_id self' = miner ∧
    bitmap self' = bitmap self ∧ load_index self' = load_index self.
Proof.
  intros [Hc Hs Hm] Hr He. unfold set_seal_context. rewrite He.
  assert (SealContextInfo_mk (context_digest (G s)) (end_seal_index (G s)) = G s) as -> by (by destruct (G s)).
  destruct (add_context_spec G HG (seal_contexts self) s Hc Hr) as (Hc' & Hin & Hsub).
  assert ((if bool_decide (si_miner_id self = h256_zero) then Ok miner
    else if bool_decide (si_miner_id self = miner) then Ok (si_miner_id self) else Panic) = Ok miner) as ->.
  { case_bool_decide; [done|]. destruct Hm as [|Hm]; [done|]. by rewrite bool_decide_true, Hm. }
  rewrite bind_Ok. eexists. split; [done|]. split_and!; [split; cbn|done|done|done|done].
  - done.
  - intros s' Hs' Hsealed. destruct (Hs s' Hs' Hsealed) as [Hg _]. split; [by apply Hsub|done].
  - by right.
Qed.

Lemma mark_sealed_ok self s :
  seal_ok self → 0 ≤ s < 64 → G s ∈ seal_contexts self → si_miner_id self = miner →
  seal_ok (mark_sealed self s) ∧
  ∀ s', 0 ≤ s' < 64 → is_sealed (mark_sealed self s) s' = (if bool_decide (s' = s) then true else is_sealed self s').
Proof.
  intros [Hc Hs Hm] Hr Hin Hmi. unfold is_sealed, mark_sealed. cbn.
  assert (∀ s', 0 ≤ s' < 64 → bm_get (bm_set (bitmap self) s true) s' =
    (if bool_decide (s' = s) then true else bm_get (bitmap self) s')) as Hget.
  { intros s' Hs'. case_bool_decide as He; [subst; by rewrite bm_get_set_eq|by rewrite bm_get_set_ne]. }
  split; [|done]. split; [done| |done]. intros s' Hs'. unfold is_sealed. cbn. rewrite Hget by done.
  case_bool_decide as He; [subst; done|]. by apply Hs.
Qed.

Lemma truncate_u64_mod v t : 0 ≤ t < 64 → truncate_u64 v t = v `mod` 2 ^ t.
Proof.
  intros Ht. unfold truncate_u64. rewrite (Z.mod_small t) by lia.
  assert (2 ^ t - 1 = Z.ones t) as -> by (rewrite Z.ones_equiv; lia).
  rewrite wrap64_small; [apply Z.land_ones; lia|].
  rewrite Z.ones_equiv. pose proof (Z.pow_pos_nonneg 2 t). pose proof (Z.pow_le_mono_r 2 t 63). lia.
Qed.

Lemma testbit_truncate v t i :
  0 ≤ t < 64 → 0 ≤ i < 64 → Z.testbit (truncate_u64 v t) i = Z.testbit v i && (i <? t).
Proof.
  intros Ht Hi. rewrite truncate_u64_mod by done. destruct (Z.ltb_spec i t).
  - by rewrite Z.mod_pow2_bits_low, andb_true_r by lia.
  - by rewrite Z.mod_pow2_bits_high, andb_false_r by lia.
Qed.

Lemma bitmap_truncate_get b t i :
  0 ≤ t < 64 → 0 ≤ i < 64 → bm_get (bitmap_truncate b t) i = bm_get b i && (i <? t).
Proof.
  intros Ht Hi. unfold bitmap_truncate. rewrite !bm_get_value by done.
  pose proof (bm_value_bound b) as Hb.
  rewrite bm_value_from; [by apply testbit_truncate|]. rewrite truncate_u64_mod by done.
  pose proof (Z.mod_pos_bound (into_value b) (2 ^ t)). pose proof (Z.pow_pos_nonneg 2 t).
  pose proof (Z.pow_le_mono_r 2 t 63). lia.
Qed.

Lemma truncated_seal_index_spec self r :
  seal_ok self → 0 ≤ r < 64 →
  ∃ t, truncated_seal_index self r = Ok t ∧ 0 ≤ t ≤ r ∧
    (t = 0 ∨ ∃ c, c ∈ take (context_index (seal_contexts self) r) (seal_contexts self) ∧ end_seal_index c = t) ∧
    ∀ c, c ∈ take (context_index (seal_contexts self) r) (seal_contexts self) → end_seal_index c ≤ t.
Proof.
  intros [[Hinc Hfrom] _ _] Hr. destruct (context_index_spec (seal_contexts self) r Hinc ltac:(lia)) as (Hk & Hlo & _).
  unfold truncated_seal_index. set (cs := seal_contexts self) in *. destruct (context_index cs r) as [|k].
  { exists 0. split_and!; [done|lia|lia|by left|]. by intros c ?%elem_of_nil. }
  destruct (lookup_lt_is_Some_2 cs k) as [c Hc]; [lia|]. rewrite Hc. cbn [expect]. rewrite bind_Ok.
  assert (c ∈ take (S k) cs) as Hin by (rewrite (take_S_r _ _ c) by done; set_solver).
  exists (end_seal_index c). destruct (Hfrom c) as [Hb _]; [by eapply list_elem_of_lookup_2|].
  split_and!; [done|lia|by apply Hlo|by right; eauto|]. intros a Ha. rewrite (take_S_r _ _ c) in Ha by done.
  apply elem_of_app in Ha as [Ha|Ha]; [|apply list_elem_of_singleton in Ha as ->; lia].
  apply list_elem_of_lookup in Ha as (j & Hj). apply lookup_take_Some in Hj as [Hj Hlt].
  specialize (Hinc j k a c Hlt Hj Hc). lia.
Qed.

(** After truncating, the seals below the index are sealed as before, and no
    others. *)
Lemma seal_info_truncate_spec self r t :
  seal_ok self → 0 ≤ r < 64 → truncated_seal_index self r = Ok t →
  ∃ self', seal_info_truncate self r = Ok self' ∧ seal_ok self' ∧
    load_index self' = load_index self ∧ si_miner_id self' = si_miner_id self ∧
    ∀ s, 0 ≤ s < 64 → is_sealed self' s = is_sealed self s && (s <? t).
Proof.
  intros Hok Hr Ht. destruct (truncated_seal_index_spec self r Hok Hr) as (t' & Ht' & Hb & Hcase & Hle).
  rewrite Ht in Ht'. injection Ht' as <-. destruct Hok as [[Hinc Hfrom] Hs Hm].
  unfold seal_info_truncate. rewrite Ht, bind_Ok. set (cs := seal_contexts self) in *.
  destruct (context_index_spec cs r Hinc ltac:(lia)) as (Hk & Hlo & Hhi). set (k := context_index cs r) in *.
  assert (∀ s, 0 ≤ s < 64 → bm_get (bitmap_truncate (bitmap self) t) s = bm_get (bitmap self) s && (s <? t)) as Hget
    by (intros s Hs'; apply bitmap_truncate_get; lia).
  eexists. split; [done|]. split_and!; [split; cbn|done|done|done].
  - rewrite <- (take_drop k cs) in Hinc. apply increasing_app in Hinc as (Hinc & _ & _). split; [done|].
    intros c Hc. apply Hfrom. rewrite <- (take_drop k cs). set_solver.
  - intros s Hs'. unfold is_sealed. cbn. rewrite Hget by done. intros [Hsealed Hlt%Z.ltb_lt]%andb_prop.
    destruct (Hs s Hs' Hsealed) as [Hin Hmi]. split; [|done].
    destruct Hcase as [|(c & Hc & He)]; [lia|]. pose proof (cm_end G HG s Hs') as Hend.
    assert (end_seal_index (G s) ≤ t) as Hge.
    { destruct (decide (end_seal_index (G s) ≤ t)) as [|Hgt]; [done|exfalso].
      destruct (Hfrom c) as [_ Hg]; [rewrite <- (take_drop k cs); set_solver|].
      rewrite He in Hg. assert (G (t - 1) = G s) as Hts by (apply (cm_same G HG); lia).
      rewrite Hts in Hg. rewrite Hg in Hgt. lia. }
    rewrite <- (take_drop k cs) in Hin. apply elem_of_app in Hin as [|Hin]; [done|].
    specialize (Hhi _ Hin). lia.
  - done.
Qed.

End seal_info_facts.
