(* ===== verification/EntryBatch.v ===== *)
(** A batch of the flow with its seals:
    [node/storage/src/log_store/load_chunk/mod.rs]. *)

From S2P Require Import Prelude HashElement Shard SharedTypes Seal ChunkData SealInfo.
From S2P Require Import MerkleSpec MerkleProof NodeStore AppendMerkle.
Local Open Scope Z_scope.

Record EntryBatch (B : Type) := EntryBatch_mk { eb_seal : SealInfo B; eb_data : EntryBatchData }.
Arguments EntryBatch_mk {B} eb_seal eb_data.
Arguments eb_seal {B} e.
Arguments eb_data {B} e.

Record SealAnswer := SealAnswer_mk {
  sa_seal_index : Z;
  sa_version : Z;
  sealed_data : list Z;
  sa_miner_id : H256;
  seal_context : H256;
  context_end_seal : Z;
}.

Section entry_batch.
Context `{Keccak, Bitmap64 B}.
Implicit Types self : EntryBatch B.

Definition entry_batch_new (load_index_global : Z) : EntryBatch B :=
  EntryBatch_mk (seal_info_new load_index_global) batch_data_new.

Definition entry_batch_is_empty self : bool := batch_data_is_empty (eb_data self).

Definition is_complete self : bool := match eb_data self with Complete _ => true | Incomplete _ => false end.

Definition is_seal_sealed self (seal_index : Z) : bool := is_sealed (eb_seal self) seal_index.

Definition get_sealed_data self (seal_index : Z) : outcome (option (list Z)) :=
  if is_sealed (eb_seal self) seal_index
  then batch_data_get (eb_data self) (seal_index * BYTES_PER_SEAL) BYTES_PER_SEAL
  else Ok None.

Definition get_non_sealed_data self (seal_index : Z) : outcome (option (list Z)) :=
  if negb (is_sealed (eb_seal self) seal_index)
  then batch_data_get (eb_data self) (seal_index * BYTES_PER_SEAL) BYTES_PER_SEAL
  else Ok None.

(** [complete_chunks.chunks_mut(BYTES_PER_SEAL).enumerate()]: each chunk takes
    at least one byte, so the length bounds their number. *)
Fixpoint unseal_chunks (fuel : nat) (seal : SealInfo B) (data : list Z) (seal_index : Z) : outcome (list Z) :=
  match fuel with
  | O => Ok []
  | S fuel' =>
      match data with
      | [] => Ok []
      | _ =>
          chunk ← seal_info_unseal seal (take 4096 data) (wrap16 seal_index);
          rest ← unseal_chunks fuel' seal (drop 4096 data) (seal_index + 1);
          Ok (chunk ++ rest)
      end
  end.

(** What follows the loading: unseal the first incomplete seal with the seed,
    then the complete ones. *)
Definition unseal_loaded (seal : SealInfo B) (start_byte : Z) (loaded : list Z) (seed : option (list Z)) :
    outcome (list Z) :=
  let incomplete := wrap64 (BYTES_PER_LOAD - start_byte) `mod` BYTES_PER_SEAL in
  loaded ← match seed with
    | Some seed =>
        if blen loaded <? incomplete then unseal_with_mask_seed loaded seed
        else
          head ← unseal_with_mask_seed (take (Z.to_nat incomplete) loaded) seed;
          Ok (head ++ drop (Z.to_nat incomplete) loaded)
    | None => Ok loaded
    end;
  if incomplete <? blen loaded then
    let start_seal := (start_byte + incomplete) / BYTES_PER_SEAL in
    rest ← unseal_chunks (length loaded) seal (drop (Z.to_nat incomplete) loaded) start_seal;
    Ok (take (Z.to_nat incomplete) loaded ++ rest)
  else Ok loaded.

Definition get_unsealed_data self (start_sector length_sector : Z) : outcome (option (list Z)) :=
  let advanced_by_one :=
    if start_sector `mod` SECTORS_PER_SEAL =? 0 then false
    else is_sealed (eb_seal self) (wrap16 (start_sector / SECTORS_PER_SEAL)) in
  let start_byte := start_sector * BYTES_PER_SECTOR in
  let length_byte := length_sector * BYTES_PER_SECTOR in
  if (advanced_by_one : bool) then
    o ← batch_data_get (eb_data self) (start_byte - 32) (length_byte + 32);
    match o with
    | None => Ok None
    | Some hinted =>
        data ← unseal_loaded (eb_seal self) start_byte (drop 32 hinted) (Some (take 32 hinted));
        Ok (Some data)
    end
  else
    o ← batch_data_get (eb_data self) start_byte length_byte;
    match o with
    | None => Ok None
    | Some loaded => data ← unseal_loaded (eb_seal self) start_byte loaded None; Ok (Some data)
    end.

Definition insert_data self (offset : Z) (data : list Z) : outcome (EntryBatch B * list Z) :=
  if bool_decide (data = []) then Ok (self, [])
  else
    old ← get_unsealed_data self offset (blen data / BYTES_PER_SECTOR);
    if bool_decide (old = Some data) then Ok (self, [])
    else
      r ← batch_data_insert_data (eb_data self) (offset * BYTES_PER_SECTOR) data;
      Ok (EntryBatch_mk (eb_seal self) r.1, r.2).

(** [for unseal_index in first_unseal_index..=last_unseal_index] *)
Fixpoint unseal_from (n : nat) (seal : SealInfo B) (data : EntryBatchData) (truncated_sector unseal_index : Z) :
    outcome (EntryBatchData * list Z) :=
  match n with
  | O => Ok (data, [])
  | S n' =>
      if negb (is_sealed seal unseal_index) then unseal_from n' seal data truncated_sector (unseal_index + 1)
      else
        let truncated_byte := truncated_sector * BYTES_PER_SECTOR in
        let first_unseal_byte := unseal_index * BYTES_PER_SEAL in
        let len := Z.min (wrap64 (truncated_byte - first_unseal_byte)) BYTES_PER_SEAL in
        o ← batch_data_get_mut data first_unseal_byte len;
        vp ← expect o;
        w ← seal_info_unseal seal vp.1 unseal_index;
        r ← unseal_from n' seal (vp.2 w) truncated_sector (unseal_index + 1);
        Ok (r.1, unseal_index :: r.2)
  end.

Definition truncate_seal self (truncated_sector : Z) : outcome (EntryBatch B * list Z) :=
  let reverted_seal_index := wrap16 (truncated_sector / SECTORS_PER_SEAL) in
  first_unseal_index ← truncated_seal_index (eb_seal self) reverted_seal_index;
  let last_unseal_index := wrap16 ((truncated_sector - 1) / SECTORS_PER_SEAL) in
  r ← unseal_from (Z.to_nat (last_unseal_index + 1 - first_unseal_index)) (eb_seal self) (eb_data self)
        truncated_sector first_unseal_index;
  seal ← seal_info_truncate (eb_seal self) reverted_seal_index;
  Ok (EntryBatch_mk seal r.1, r.2).

Definition entry_batch_truncate self (truncated_sector : Z) : outcome (EntryBatch B * list Z) :=
  if (0 <? truncated_sector) && (truncated_sector <? SECTORS_PER_LOAD) then
    data ← batch_data_truncate (eb_data self) (truncated_sector * BYTES_PER_SECTOR);
    truncate_seal (EntryBatch_mk (eb_seal self) data) truncated_sector
  else Panic.

(** [available_range_entries().into_iter().map(..).collect()] *)
Fixpoint data_list_of self (global_start_entry : Z) (ranges : list (Z * Z)) : outcome (list ChunkArray) :=
  match ranges with
  | [] => Ok []
  | (start_entry, length_entry) :: ranges' =>
      o ← get_unsealed_data self start_entry length_entry;
      data ← expect o;
      rest ← data_list_of self global_start_entry ranges';
      Ok (ChunkArray_mk data (wrap64 (global_start_entry + start_entry)) :: rest)
  end.

Definition into_data_list self (global_start_entry : Z) : outcome (list ChunkArray) :=
  data_list_of self global_start_entry (available_range_entries (eb_data self)).

(** [for bit in 0..SEALS_PER_LOAD] of a complete batch *)
Fixpoint unsealed_complete self (n : nat) (bit : Z) : outcome (option (list Z)) :=
  match n with
  | O => Ok (Some [])
  | S n' =>
      o ← batch_data_get (eb_data self) (bit * BYTES_PER_SEAL) BYTES_PER_SEAL;
      match o with
      | None => Ok None
      | Some slice =>
          slice ← (if is_sealed (eb_seal self) bit then seal_info_unseal (eb_seal self) slice bit else Ok slice);
          rest ← unsealed_complete self n' (bit + 1);
          Ok (option_map (app slice) rest)
      end
  end.

(** [for seal_index in start_seal_index..=end_seal_index] of a known range *)
Fixpoint unsealed_partial self (p : PartialBatch) (n : nat) (seal_index : Z) : outcome (option (list Z)) :=
  match n with
  | O => Ok (Some [])
  | S n' =>
      let partial_start_byte := pb_start_sector p * BYTES_PER_SECTOR in
      let partial_end_byte := partial_start_byte + blen (pb_data p) in
      let seal_start_byte := seal_index * BYTES_PER_SEAL in
      let seal_end_byte := seal_start_byte + BYTES_PER_SEAL in
      let is_full_seal := (partial_start_byte <=? seal_start_byte) && (seal_end_byte <=? partial_end_byte) in
      part ← (if is_full_seal && is_sealed (eb_seal self) seal_index then
                o ← batch_data_get (eb_data self) seal_start_byte BYTES_PER_SEAL;
                match o with
                | None => Ok None
                | Some seal_data => d ← seal_info_unseal (eb_seal self) seal_data seal_index; Ok (Some d)
                end
              else
                let overlap_start := Z.max partial_start_byte seal_start_byte in
                let overlap_end := Z.min partial_end_byte seal_end_byte in
                o ← expect (get_range (pb_data p) (overlap_start - partial_start_byte) (overlap_end - overlap_start));
                Ok (Some o));
      match part with
      | None => Ok None
      | Some part =>
          rest ← unsealed_partial self p n' (seal_index + 1);
          Ok (option_map (app part) rest)
      end
  end.

Fixpoint unsealed_ranges self (batches : list PartialBatch) : outcome (option (list (list Z))) :=
  match batches with
  | [] => Ok (Some [])
  | p :: batches' =>
      if blen (pb_data p) =? 0 then unsealed_ranges self batches'
      else
        let start_seal_index := wrap16 (pb_start_sector p / SECTORS_PER_SEAL) in
        let end_seal_index :=
          wrap16 ((pb_start_sector p * BYTES_PER_SECTOR + blen (pb_data p) - 1) / BYTES_PER_SEAL) in
        o ← unsealed_partial self p (Z.to_nat (end_seal_index + 1 - start_seal_index)) start_seal_index;
        match o with
        | None => Ok None
        | Some d => rest ← unsealed_ranges self batches'; Ok (option_map (cons d) rest)
        end
  end.

(** The chunks of the [UnsealedDataList]. *)
Definition to_unsealed_data self : outcome (option (list (list Z))) :=
  match eb_data self with
  | Complete _ =>
      o ← unsealed_complete self (Z.to_nat SEALS_PER_LOAD) 0;
      Ok (option_map (λ d, [d]) o)
  | Incomplete incomplete_data => unsealed_ranges self (known_data incomplete_data)
  end.

Definition submit_seal_result self (answer : SealAnswer) : outcome (EntryBatch B) :=
  let local_seal_index := sa_seal_index answer `mod` SEALS_PER_LOAD in
  if is_sealed (eb_seal self) local_seal_index then Panic
  else if negb (sa_seal_index answer / SEALS_PER_LOAD =? load_index (eb_seal self)) then Panic
  else
    seal ← set_seal_context (eb_seal self) (seal_context answer) (context_end_seal answer) (sa_miner_id answer);
    o ← batch_data_get_mut (eb_data self) (local_seal_index * BYTES_PER_SEAL) BYTES_PER_SEAL;
    vp ← expect o;
    if bool_decide (length vp.1 = length (sealed_data answer)) then
      Ok (EntryBatch_mk (mark_sealed seal local_seal_index) (vp.2 (sealed_data answer)))
    else Panic.

Definition entry_batch_set_subtree_list self (subtree_list : list (Z * Z * H256)) : outcome (EntryBatch B) :=
  data ← batch_data_set_subtree_list (eb_data self) subtree_list;
  Ok (EntryBatch_mk (eb_seal self) data).

(** ** Merkle trees *)

(** [data_to_merkle_leaves] of [log_manager.rs]: the parallel iterator yields
    the same list as the sequential one. *)
Definition data_to_merkle_leaves (leaf_data : list Z) : outcome (list OptionalHash) :=
  if negb (blen leaf_data `mod` 256 =? 0) then Err "merkle_tree: mismatched data size"
  else Ok ((λ c, Some (sha3_leaf c)) <$> chunks_exact (length leaf_data) leaf_data).

Context {NM : Type} `{!NodeStore NM OptionalHash}.
Local Abbreviation tree := (AppendMerkleTree NM OptionalHash).

(** Run a method of the tree: [?] and panics propagate. *)
Definition run (m : M tree ()) (t : tree) : outcome tree :=
  match m t with
  | (Ok _, t') => Ok t'
  | (Err e, _) => Err e
  | (Panic, _) => Panic
  | (Diverge, _) => Diverge
  end.

(** Append the leaves of the sectors from the current length up to [upto]. *)
Definition append_known self (upto : Z) (t : tree) : outcome (option tree) :=
  n ← leaves t;
  if Z.of_nat n =? upto then Ok (Some t)
  else
    o ← get_unsealed_data self (Z.of_nat n) (wrap64 (upto - Z.of_nat n));
    match o with
    | None => Ok None
    | Some leaf_data =>
        lvs ← expect_ok (data_to_merkle_leaves leaf_data);
        t ← run (append_list lvs) t;
        Ok (Some t)
    end.

Fixpoint append_subtrees self (subtree_list : list Subtree) (t : tree) : outcome (option tree) :=
  match subtree_list with
  | [] => Ok (Some t)
  | s :: subtree_list' =>
      o ← append_known self (st_start_sector s) t;
      match o with
      | None => Ok None
      | Some t =>
          t ← run (append_subtree (Z.to_nat (subtree_height s)) (Some (st_root s))) t;
          append_subtrees self subtree_list' t
      end
  end.

Fixpoint fill_known_leaves self (n : nat) (index : nat) (t : tree) : outcome tree :=
  match n with
  | O => Ok t
  | S n' =>
      o ← leaf_at t index;
      t ← match o with
          | Some _ => Ok t
          | None =>
              d ← get_unsealed_data self (Z.of_nat index) 1;
              match d with
              | Some leaf_data => run (fill_leaf index (Some (sha3_leaf leaf_data))) t
              | None => Ok t
              end
          end;
      fill_known_leaves self n' (S index) t
  end.

Definition to_merkle_tree self (is_first_chunk : bool) : outcome (option tree) :=
  let initial_leaves := if is_first_chunk then [Some h256_zero] else [] in
  t ← tree_new initial_leaves 0 None;
  o ← append_subtrees self (get_subtree_list (eb_data self)) t;
  match o with
  | None => Ok None
  | Some t =>
      o ← append_known self SECTORS_PER_LOAD t;
      match o with
      | None => Ok None
      | Some t =>
          n ← leaves t;
          t ← fill_known_leaves self n 0 t;
          Ok (Some t)
      end
  end.

(** The fast check of [build_root]: whether the last sector is known or in the
    last subtree. *)
Definition maybe_full self : outcome bool :=
  match eb_data self with
  | Complete _ => Ok true
  | Incomplete d =>
      o ← get_unsealed_data self (SECTORS_PER_LOAD - 1) 1;
      match o with
      | Some _ => Ok true
      | None =>
          match last (subtrees d) with
          | Some t => Ok (end_sector t =? SECTORS_PER_LOAD)
          | None => Ok false
          end
      end
  end.

(** The root is converted to [Option<H256>]. *)
Definition build_root self (is_first_chunk : bool) : outcome (option H256) :=
  b ← maybe_full self;
  if negb b then Ok None
  else
    o ← to_merkle_tree self is_first_chunk;
    match o with
    | None => Ok None
    | Some t => root t
    end.

End entry_batch.
