(* ===== verification/EntryBatchFacts.v ===== *)
(** What a batch stores, seen through its seals.

    [plain] gives the unsealed byte at an offset.  Reading returns plain
    bytes, sealing a chunk does not change them, inserting adds to them and
    truncating cuts them, whatever is sealed. *)

From stdpp Require Import sorting list_numbers.
From S2P Require Import Prelude HashElement Shard SharedTypes Seal ChunkData ChunkDataFacts ChunkDataInsert.
From S2P Require Import SealInfo EntryBatch.
Local Open Scope Z_scope.

(** ** Ranges of bytes *)

Lemma read_range_is_Some f a n : is_Some (read_range f a n) ↔ ∀ i, a ≤ i < a + n → is_Some (f i).
Proof. unfold read_range. rewrite mapM_is_Some, Forall_seqZ. done. Qed.

Lemma read_range_slice f a n v o m :
  read_range f a n = Some v → 0 ≤ o → 0 ≤ m → o + m ≤ n →
  read_range f (a + o) m = Some (take (Z.to_nat m) (drop (Z.to_nat o) v)).
Proof.
  intros [Hl Hv]%read_range_Some Ho Hm Hom. apply read_range_Some. unfold blen in *.
  rewrite length_take, length_drop. split; [lia|]. intros k Hk. rewrite <- Z.add_assoc, Hv by lia.
  rewrite lookup_take_lt, lookup_drop by lia. f_equal. lia.
Qed.

Lemma read_range_join f a n m u v :
  read_range f a n = Some u → read_range f (a + n) m = Some v → 0 ≤ n → 0 ≤ m →
  read_range f a (n + m) = Some (u ++ v).
Proof.
  intros [Hu Hu']%read_range_Some [Hv Hv']%read_range_Some Hn Hm. apply read_range_Some. unfold blen in *.
  rewrite length_app. split; [lia|]. intros k Hk. destruct (decide (k < n)).
  - rewrite lookup_app_l by lia. apply Hu'. lia.
  - rewrite lookup_app_r by lia. replace (a + k) with (a + n + (k - n)) by lia.
    rewrite Hv' by lia. f_equal. lia.
Qed.

Lemma read_range_length f a n v : read_range f a n = Some v → 0 ≤ n → blen v = n.
Proof. intros [Hl _]%read_range_Some Hn. lia. Qed.

(** ** Unsealing a part of a sealed chunk *)

Lemma unseal_part `{Keccak} (c mask : list Z) (o n : nat) :
  (length c `mod` 32 = 0)%nat → (o `mod` 32 = 0)%nat → (n `mod` 32 = 0)%nat → (o + n ≤ length c)%nat →
  unseal_loop n (take n (drop o c)) (if bool_decide (o = 0%nat) then mask else keccak (take 32 (drop (o - 32) c))) =
    take n (drop o (unseal_loop (length c) c mask)).
Proof.
  intros Hc Ho Hn Hon. set (d1 := take o c). set (d2 := take n (drop o c)). set (d3 := drop n (drop o c)).
  assert (length d1 = o) as Hl1 by (unfold d1; rewrite length_take; lia).
  assert (length d2 = n) as Hl2 by (unfold d2; rewrite length_take, length_drop; lia).
  assert (c = d1 ++ d2 ++ d3) as Hsplit by (unfold d1, d2, d3; by rewrite !take_drop).
  rewrite Hsplit at 2 3. rewrite (unseal_loop_app d1 (d2 ++ d3) mask _ o (length c)).
  - rewrite drop_app_length' by (rewrite length_unseal_loop; done).
    set (m := if bool_decide (d1 = []) then mask else keccak (drop (length d1 - 32) d1)).
    rewrite (unseal_loop_app d2 d3 m _ n (length c)).
    + rewrite take_app_length' by (rewrite length_unseal_loop; done). f_equal. unfold m.
      destruct (decide (o = 0%nat)) as [->|Hne].
      { rewrite !bool_decide_true; [done|by destruct d1|done]. }
      rewrite !bool_decide_false by (done || intros Hd; rewrite Hd in Hl1; cbn in Hl1; lia).
      f_equal. rewrite Hl1. unfold d1. rewrite skipn_firstn_comm. f_equal. div_lia.
    + rewrite Hl2. done.
    + rewrite !length_app. pose proof (f_equal length Hsplit) as Hls. rewrite !length_app in Hls. lia.
    + lia.
    + pose proof (f_equal length Hsplit) as Hls. rewrite !length_app in Hls. lia.
  - by rewrite Hl1.
  - by rewrite <- Hsplit.
  - lia.
  - pose proof (f_equal length Hsplit) as Hls. rewrite !length_app in Hls. rewrite length_app. lia.
Qed.

(** ** The plain bytes of a batch *)

Section facts.
Context `{Keccak, Bitmap64 B, !Bitmap64Laws B}.
Implicit Types (self : EntryBatch B) (si : SealInfo B).

(** The mask of the first word of a seal. *)
Definition seal_mask si (s : Z) : list Z :=
  keccak (compute_first_mask_seed (si_miner_id si) (default h256_zero (get_seal_context_digest si s))
    (global_seal_sector si s)).

Definition unseal_chunk si (s : Z) (c : list Z) : list Z := unseal_loop (length c) c (seal_mask si s).

Definition plain self (i : Z) : option Z :=
  let s := i / 4096 in
  if is_sealed (eb_seal self) s then
    match read_range (known (eb_data self)) (s * 4096) 4096 with
    | Some c => unseal_chunk (eb_seal self) s c !! Z.to_nat (i - s * 4096)
    | None => None
    end
  else known (eb_data self) i.

Context (G : Z → SealContextInfo) (HG : context_map G) (miner : H256).

Record batch_ok self : Prop := {
  bk_data : data_ok (eb_data self);
  bk_seal : seal_ok G miner (eb_seal self);
  bk_known : ∀ s, 0 ≤ s < 64 → is_sealed (eb_seal self) s = true →
    is_Some (read_range (known (eb_data self)) (s * 4096) 4096);
}.

Lemma seal_of_byte i : i / 4096 * 4096 ≤ i < i / 4096 * 4096 + 4096.
Proof. pose proof (Z.div_mod i 4096 ltac:(lia)). pose proof (Z.mod_pos_bound i 4096 ltac:(lia)). lia. Qed.

Lemma seal_of_byte_eq i s : s * 4096 ≤ i < s * 4096 + 4096 → i / 4096 = s.
Proof. intros Hi. pose proof (seal_of_byte i). lia. Qed.

Lemma unseal_sealed si s c :
  seal_ok G miner si → 0 ≤ s < 64 → is_sealed si s = true → (length c `mod` 32 = 0)%nat →
  seal_info_unseal si c s = Ok (unseal_chunk si s c).
Proof.
  intros Hok Hs Hsealed Hc. unfold seal_info_unseal, unseal_chunk, seal_mask. rewrite Hsealed. cbn [negb].
  rewrite (digest_found G HG miner) by done. cbn [expect default]. rewrite bind_Ok.
  unfold unseal, unseal_with_mask_seed, unseal_with_mask. by rewrite bool_decide_true.
Qed.

Lemma unseal_unsealed si s c : is_sealed si s = false → seal_info_unseal si c s = Ok c.
Proof. intros Hs. unfold seal_info_unseal. by rewrite Hs. Qed.

(** Plain bytes inside one seal. *)
Lemma plain_sealed self s c :
  is_sealed (eb_seal self) s = true → read_range (known (eb_data self)) (s * 4096) 4096 = Some c →
  read_range (plain self) (s * 4096) 4096 = Some (unseal_chunk (eb_seal self) s c).
Proof.
  intros Hs Hc. apply read_range_length in Hc as Hl; [|lia]. apply read_range_Some. unfold blen, unseal_chunk in *.
  rewrite length_unseal_loop. split; [lia|]. intros k Hk. unfold plain.
  rewrite (seal_of_byte_eq _ s) by lia. rewrite Hs, Hc. unfold unseal_chunk. f_equal. lia.
Qed.

Lemma plain_unsealed self s i :
  is_sealed (eb_seal self) s = false → s * 4096 ≤ i < s * 4096 + 4096 → plain self i = known (eb_data self) i.
Proof. intros Hs Hi. unfold plain. by rewrite (seal_of_byte_eq i s), Hs. Qed.

Lemma plain_is_Some self i :
  batch_ok self → 0 ≤ i < 262144 → is_Some (plain self i) ↔ is_Some (known (eb_data self) i).
Proof.
  intros [_ _ Hk] Hi. pose proof (seal_of_byte i) as Hs. set (s := i / 4096) in *.
  destruct (is_sealed (eb_seal self) s) eqn:Hsealed; [|by rewrite (plain_unsealed self s)].
  destruct (Hk s ltac:(lia) Hsealed) as [c Hc]. pose proof (plain_sealed self s c Hsealed Hc) as Hp.
  split; intros _.
  - apply (read_range_is_Some _ (s * 4096) 4096); [by rewrite Hc|lia].
  - apply (read_range_is_Some _ (s * 4096) 4096); [by rewrite Hp|lia].
Qed.

Lemma plain_range_is_Some self a n :
  batch_ok self → 0 ≤ a → a + n ≤ 262144 →
  is_Some (read_range (plain self) a n) ↔ is_Some (read_range (known (eb_data self)) a n).
Proof.
  intros Hok Ha Hn. rewrite !read_range_is_Some. split; intros Hall i Hi; specialize (Hall i Hi);
    revert Hall; apply plain_is_Some; done || lia.
Qed.

(** Unsealing the bytes at the start of a seal. *)
Lemma unseal_start self s n v :
  batch_ok self → 0 ≤ s < 64 → 0 ≤ n ≤ 4096 → n `mod` 32 = 0 →
  read_range (known (eb_data self)) (s * 4096) n = Some v →
  ∃ p, seal_info_unseal (eb_seal self) v s = Ok p ∧ read_range (plain self) (s * 4096) n = Some p.
Proof.
  intros Hok Hs Hn Hm Hv. destruct (is_sealed (eb_seal self) s) eqn:Hsealed.
  - destruct Hok as [_ Hseal Hk]. destruct (Hk s Hs Hsealed) as [c Hc].
    pose proof (read_range_length _ _ _ _ Hv ltac:(lia)) as Hlv. pose proof (read_range_length _ _ _ _ Hc ltac:(lia)) as Hlc.
    unfold blen in *. rewrite unseal_sealed by (done || Z.to_euclidean_division_equations; lia).
    eexists. split; [done|].
    pose proof (read_range_slice _ _ _ _ 0 n Hc ltac:(lia) ltac:(lia) ltac:(lia)) as Hv'.
    rewrite Z.add_0_r, Hv in Hv'. injection Hv' as ->.
    pose proof (read_range_slice _ _ _ _ 0 n (plain_sealed self s c Hsealed Hc) ltac:(lia) ltac:(lia) ltac:(lia)) as Hp.
    rewrite Z.add_0_r in Hp. rewrite Hp. f_equal. unfold unseal_chunk.
    rewrite <- (unseal_part c (seal_mask (eb_seal self) s) (Z.to_nat 0) (Z.to_nat n)) by (cbn; Z.to_euclidean_division_equations; lia).
    rewrite bool_decide_true by done. f_equal. rewrite length_take, length_drop. lia.
  - rewrite unseal_unsealed by done. exists v. split; [done|]. rewrite <- Hv. apply read_range_ext.
    intros i Hi. apply (plain_unsealed self s); [done|lia].
Qed.

(** Unsealing bytes inside a sealed seal, with the sealed word before them. *)
Lemma unseal_middle self s a n v w :
  batch_ok self → 0 ≤ s < 64 → is_sealed (eb_seal self) s = true →
  s * 4096 < a → 0 ≤ n → a + n ≤ (s + 1) * 4096 → a `mod` 32 = 0 → n `mod` 32 = 0 →
  read_range (known (eb_data self)) a n = Some v →
  read_range (known (eb_data self)) (a - 32) 32 = Some w →
  ∃ p, unseal_with_mask_seed v w = Ok p ∧ read_range (plain self) a n = Some p.
Proof.
  intros [_ Hseal Hk] Hs Hsealed Ha Hn Han Hma Hmn Hv Hw. destruct (Hk s Hs Hsealed) as [c Hc].
  pose proof (read_range_length _ _ _ _ Hv Hn) as Hlv. pose proof (read_range_length _ _ _ _ Hc ltac:(lia)) as Hlc.
  unfold blen in *. unfold unseal_with_mask_seed, unseal_with_mask.
  rewrite bool_decide_true by (Z.to_euclidean_division_equations; lia). eexists. split; [done|].
  assert (32 ≤ a - s * 4096) as Ho by (Z.to_euclidean_division_equations; lia).
  pose proof (read_range_slice _ _ _ _ (a - s * 4096) n Hc ltac:(lia) ltac:(lia) ltac:(lia)) as Hv'.
  replace (s * 4096 + (a - s * 4096)) with a in Hv' by lia. rewrite Hv in Hv'. injection Hv' as Hv'.
  pose proof (read_range_slice _ _ _ _ (a - 32 - s * 4096) 32 Hc ltac:(lia) ltac:(lia) ltac:(lia)) as Hw'.
  replace (s * 4096 + (a - 32 - s * 4096)) with (a - 32) in Hw' by lia. rewrite Hw in Hw'. injection Hw' as Hw'.
  pose proof (read_range_slice _ _ _ _ (a - s * 4096) n (plain_sealed self s c Hsealed Hc) ltac:(lia) ltac:(lia) ltac:(lia)) as Hp.
  replace (s * 4096 + (a - s * 4096)) with a in Hp by lia. rewrite Hp. f_equal. unfold unseal_chunk.
  rewrite <- (unseal_part c (seal_mask (eb_seal self) s) (Z.to_nat (a - s * 4096)) (Z.to_nat n))
    by (Z.to_euclidean_division_equations; lia).
  rewrite bool_decide_false by lia.
  replace (Z.to_nat (a - s * 4096) - 32)%nat with (Z.to_nat (a - 32 - s * 4096)) by lia.
  change (Z.to_nat 32) with 32%nat in Hw'. rewrite <- Hw', <- Hv'. f_equal. lia.
Qed.

(** ** Reading *)

Lemma read_range_zero f a : read_range f a 0 = Some [].
Proof. unfold read_range. by rewrite seqZ_nil. Qed.

Lemma unseal_chunks_spec self fuel s n v :
  batch_ok self → 0 ≤ s → 0 ≤ n → s * 4096 + n ≤ 262144 → n `mod` 32 = 0 → (length v ≤ fuel)%nat →
  read_range (known (eb_data self)) (s * 4096) n = Some v →
  ∃ p, unseal_chunks fuel (eb_seal self) v s = Ok p ∧ read_range (plain self) (s * 4096) n = Some p.
Proof.
  intros Hok. revert s n v. induction fuel as [|fuel IH]; intros s n v Hs Hn Hb Hm Hf Hv.
  { pose proof (read_range_length _ _ _ _ Hv Hn) as Hl. unfold blen in Hl. assert (n = 0) as -> by lia.
    exists []. split; [done|]. by rewrite read_range_zero. }
  pose proof (read_range_length _ _ _ _ Hv Hn) as Hl. unfold blen in Hl. cbn [unseal_chunks].
  destruct v as [|x v']. { cbn in Hl. assert (n = 0) as -> by lia. exists []. by rewrite read_range_zero. }
  set (v := x :: v') in *. assert (0 < n) by (cbn in Hl; lia). set (n1 := Z.min n 4096).
  pose proof (read_range_slice _ _ _ _ 0 n1 Hv ltac:(lia) ltac:(lia) ltac:(lia)) as Hr1.
  rewrite Z.add_0_r in Hr1. change (Z.to_nat 0) with 0%nat in Hr1. rewrite drop_0 in Hr1.
  assert (take 4096 v = take (Z.to_nat n1) v) as ->.
  { unfold n1. destruct (Z.min_spec n 4096) as [[? ->]|[? ->]]; [rewrite !take_ge by lia; done|].
    by change (Z.to_nat 4096) with 4096%nat. }
  destruct (unseal_start self s n1 _ Hok ltac:(lia) ltac:(lia)
    ltac:(unfold n1; destruct (Z.min_spec n 4096) as [[_ ->]|[_ ->]]; done) Hr1) as (p & Hp & Hpp).
  unfold wrap16. rewrite (Z.mod_small s) by lia. rewrite Hp, bind_Ok.
  destruct (decide (n ≤ 4096)) as [Hle|Hgt].
  - rewrite drop_ge by lia. assert (unseal_chunks fuel (eb_seal self) [] (s + 1) = Ok []) as -> by (by destruct fuel).
    rewrite bind_Ok, app_nil_r. exists p. split; [done|]. by replace n with n1 by lia.
  - pose proof (read_range_slice _ _ _ _ 4096 (n - 4096) Hv ltac:(lia) ltac:(lia) ltac:(lia)) as Hr2.
    rewrite take_ge in Hr2 by (rewrite length_drop; lia). change (Z.to_nat 4096) with 4096%nat in Hr2.
    replace (s * 4096 + 4096) with ((s + 1) * 4096) in Hr2 by lia.
    destruct (IH (s + 1) (n - 4096) (drop 4096 v)) as (q & Hq & Hqq); try done; try lia.
    { rewrite length_drop. lia. }
    rewrite Hq, bind_Ok. exists (p ++ q). split; [done|]. replace n with (4096 + (n - 4096)) by lia.
    replace n1 with 4096 in Hpp by lia. apply read_range_join; [done| |lia|lia].
    by replace (s * 4096 + 4096) with ((s + 1) * 4096) by lia.
Qed.

Lemma incomplete_length start :
  0 ≤ start ≤ 262144 →
  wrap64 (BYTES_PER_LOAD - start) `mod` BYTES_PER_SEAL = (start + 4095) / 4096 * 4096 - start.
Proof.
  intros Hs. change BYTES_PER_LOAD with 262144. change BYTES_PER_SEAL with 4096. rewrite wrap64_small by lia.
  Z.to_euclidean_division_equations. lia.
Qed.

(** The whole seals after the first incomplete one. *)
Lemma unseal_tail_spec self a n inc v :
  batch_ok self → 0 ≤ a → 0 ≤ n → a + n ≤ 262144 → a `mod` 32 = 0 → n `mod` 32 = 0 →
  inc = (a + 4095) / 4096 * 4096 - a → inc < n →
  read_range (known (eb_data self)) a n = Some v →
  ∃ p, unseal_chunks (length v) (eb_seal self) (drop (Z.to_nat inc) v) ((a + inc) / BYTES_PER_SEAL) = Ok p ∧
    read_range (plain self) (a + inc) (n - inc) = Some p.
Proof.
  intros Hok Ha Hn Hb Hma Hmn -> Hlt Hv. set (s := (a + 4095) / 4096) in *.
  change BYTES_PER_SEAL with 4096. replace (a + (s * 4096 - a)) with (s * 4096) by lia. rewrite Z.div_mul by lia.
  pose proof (read_range_length _ _ _ _ Hv Hn) as Hl. unfold blen in Hl.
  assert (0 ≤ s * 4096 - a) by (unfold s; Z.to_euclidean_division_equations; lia).
  pose proof (read_range_slice _ _ _ _ (s * 4096 - a) (n - (s * 4096 - a)) Hv ltac:(lia) ltac:(lia) ltac:(lia)) as Hd.
  rewrite take_ge in Hd by (rewrite length_drop; lia). replace (a + (s * 4096 - a)) with (s * 4096) in Hd by lia.
  apply unseal_chunks_spec; [done|unfold s; Z.to_euclidean_division_equations; lia|lia|lia| | |done].
  - Z.to_euclidean_division_equations; lia.
  - rewrite length_drop. lia.
Qed.

(** Nothing to unseal before the first whole seal. *)
Lemma unseal_loaded_none self a n v :
  batch_ok self → 0 ≤ a → 0 < n → a + n ≤ 262144 → a `mod` 32 = 0 → n `mod` 32 = 0 →
  (a `mod` 4096 ≠ 0 → is_sealed (eb_seal self) (a / 4096) = false) →
  read_range (known (eb_data self)) a n = Some v →
  ∃ p, unseal_loaded (eb_seal self) a v None = Ok p ∧ read_range (plain self) a n = Some p.
Proof.
  intros Hok Ha Hn Hb Hma Hmn Hnot Hv. unfold unseal_loaded. rewrite incomplete_length by lia.
  set (inc := (a + 4095) / 4096 * 4096 - a). pose proof (seal_of_byte a) as Hsa.
  pose proof (read_range_length _ _ _ _ Hv ltac:(lia)) as Hl. rewrite bind_Ok, Hl.
  assert (0 ≤ inc < 4096) as Hinc by (unfold inc; Z.to_euclidean_division_equations; lia).
  assert (∀ m, 0 ≤ m ≤ inc → m ≤ n → read_range (plain self) a m = read_range (known (eb_data self)) a m) as Hfirst.
  { intros m Hm Hmn'. apply read_range_ext. intros i Hi. apply (plain_unsealed self (a / 4096)).
    - apply Hnot. unfold inc in *. Z.to_euclidean_division_equations; lia.
    - unfold inc in *. Z.to_euclidean_division_equations; lia. }
  destruct (Z.ltb_spec inc n) as [Hlt|Hge].
  - destruct (unseal_tail_spec self a n inc v) as (p & Hp & Hpp); [done|lia|lia|lia|done|done|done|done|done|].
    rewrite Hp, bind_Ok. eexists. split; [done|]. replace n with (inc + (n - inc)) by lia.
    apply read_range_join; [|done|lia|lia]. rewrite Hfirst by lia.
    pose proof (read_range_slice _ _ _ _ 0 inc Hv ltac:(lia) ltac:(lia) ltac:(lia)) as Ht. by rewrite Z.add_0_r in Ht.
  - exists v. split; [done|]. by rewrite Hfirst by lia.
Qed.

(** The first seal is sealed and starts before the range. *)
Lemma unseal_loaded_seed self a n v w :
  batch_ok self → 0 ≤ a → 0 < n → a + n ≤ 262144 → a `mod` 32 = 0 → n `mod` 32 = 0 →
  a `mod` 4096 ≠ 0 → is_sealed (eb_seal self) (a / 4096) = true →
  read_range (known (eb_data self)) a n = Some v → read_range (known (eb_data self)) (a - 32) 32 = Some w →
  ∃ p, unseal_loaded (eb_seal self) a v (Some w) = Ok p ∧ read_range (plain self) a n = Some p.
Proof.
  intros Hok Ha Hn Hb Hma Hmn Hna Hsealed Hv Hw. unfold unseal_loaded. rewrite incomplete_length by lia.
  set (inc := (a + 4095) / 4096 * 4096 - a). pose proof (seal_of_byte a) as Hsa.
  pose proof (read_range_length _ _ _ _ Hv ltac:(lia)) as Hl. rewrite Hl.
  assert (0 < inc < 4096 ∧ a + inc = (a / 4096 + 1) * 4096) as [Hinc Hai]
    by (unfold inc; Z.to_euclidean_division_equations; lia).
  assert (0 ≤ a / 4096 < 64) by (Z.to_euclidean_division_equations; lia).
  destruct (Z.ltb_spec n inc) as [Hlt|Hge].
  - destruct (unseal_middle self (a / 4096) a n v w) as (p & Hp & Hpp); try done; try lia.
    rewrite Hp, bind_Ok. apply read_range_length in Hpp as Hlp; [|lia]. rewrite Hlp.
    rewrite (proj2 (Z.ltb_ge _ _)) by lia. by exists p.
  - pose proof (read_range_slice _ _ _ _ 0 inc Hv ltac:(lia) ltac:(lia) ltac:(lia)) as Ht.
    rewrite Z.add_0_r in Ht. change (Z.to_nat 0) with 0%nat in Ht. rewrite drop_0 in Ht.
    destruct (unseal_middle self (a / 4096) a inc (take (Z.to_nat inc) v) w) as (p & Hp & Hpp); try done; try lia.
    apply read_range_length in Hpp as Hlp; [|lia]. rewrite Hp, !bind_Ok.
    assert (blen (p ++ drop (Z.to_nat inc) v) = n) as Hla.
    { unfold blen in *. rewrite length_app, length_drop. lia. }
    rewrite Hla. unfold blen in *. destruct (Z.ltb_spec inc n) as [Hlt|Hge2].
    + destruct (unseal_tail_spec self a n inc v) as (q & Hq & Hqq); try done; try lia.
      rewrite drop_app_length' by lia. rewrite take_app_length' by lia.
      replace (length (p ++ drop (Z.to_nat inc) v)) with (length v) by lia.
      rewrite Hq, bind_Ok. eexists. split; [done|]. replace n with (inc + (n - inc)) by lia.
      by apply read_range_join; [| |lia|lia].
    + rewrite drop_ge, app_nil_r by lia. exists p. split; [done|]. by replace n with inc by lia.
Qed.

Lemma plain_range_None self a n :
  batch_ok self → 0 ≤ a → a + n ≤ 262144 →
  read_range (known (eb_data self)) a n = None → read_range (plain self) a n = None.
Proof.
  intros Hok Ha Hn Hv. apply eq_None_not_Some. rewrite plain_range_is_Some by done. rewrite Hv. by intros [].
Qed.

(** The word before a position inside a sealed seal. *)
Lemma word_before self a :
  batch_ok self → 0 ≤ a < 262144 → a `mod` 32 = 0 → a `mod` 4096 ≠ 0 →
  is_sealed (eb_seal self) (a / 4096) = true →
  ∃ w, read_range (known (eb_data self)) (a - 32) 32 = Some w ∧ length w = 32%nat.
Proof.
  intros [_ _ Hk] Ha Hm Hne Hsealed.
  destruct (Hk (a / 4096)) as [c Hc]; [Z.to_euclidean_division_equations; lia|done|].
  pose proof (read_range_slice _ _ _ _ (a - 32 - a / 4096 * 4096) 32 Hc
    ltac:(Z.to_euclidean_division_equations; lia) ltac:(lia) ltac:(Z.to_euclidean_division_equations; lia)) as Hw.
  replace (a / 4096 * 4096 + (a - 32 - a / 4096 * 4096)) with (a - 32) in Hw by lia.
  eexists. split; [exact Hw|]. apply read_range_length in Hw; [|lia]. unfold blen in Hw. lia.
Qed.

Lemma get_unsealed_advanced self a n :
  batch_ok self → 0 ≤ a → 0 < n → a + n ≤ 262144 → a `mod` 32 = 0 → n `mod` 32 = 0 →
  a `mod` 4096 ≠ 0 → is_sealed (eb_seal self) (a / 4096) = true →
  (o ← batch_data_get (eb_data self) (a - 32) (n + 32);
   match o with
   | None => Ok None
   | Some hinted =>
       data ← unseal_loaded (eb_seal self) a (drop 32 hinted) (Some (take 32 hinted));
       Ok (Some data)
   end) = Ok (read_range (plain self) a n).
Proof.
  intros Hok Ha Hn Hb Hma Hmn Hne Hsealed. pose proof Hok as [Hd _ _].
  destruct (word_before self a Hok ltac:(lia) Hma Hne Hsealed) as (w & Hw & Hlw).
  rewrite batch_data_get_spec; [|done|Z.to_euclidean_division_equations; lia|lia|change BYTES_PER_LOAD with 262144; lia].
  rewrite bind_Ok. replace (n + 32) with (32 + n) by lia.
  destruct (read_range (known (eb_data self)) a n) as [v|] eqn:Hv.
  - rewrite (read_range_join _ _ 32 n w v) by (done || lia || by replace (a - 32 + 32) with a by lia).
    rewrite drop_app_length', take_app_length' by lia.
    destruct (unseal_loaded_seed self a n v w) as (p & Hp & Hpp); try done; try lia.
    by rewrite Hp, bind_Ok, Hpp.
  - rewrite (plain_range_None self a n) by done.
    destruct (read_range _ (a - 32) (32 + n)) as [u|] eqn:Hu; [exfalso|done].
    apply (read_range_slice _ _ _ _ 32 n) in Hu; [|lia..].
    replace (a - 32 + 32) with a in Hu by lia. congruence.
Qed.

Lemma get_unsealed_data_spec self start len :
  batch_ok self → 0 ≤ start → 0 < len → start + len ≤ 1024 →
  get_unsealed_data self start len = Ok (read_range (plain self) (start * 256) (len * 256)).
Proof.
  intros Hok Hs Hl Hb. unfold get_unsealed_data. change SECTORS_PER_SEAL with 16. change BYTES_PER_SECTOR with 256.
  pose proof Hok as [Hd _ _].
  assert (start * 256 / 4096 = start / 16) as Hseal by (Z.to_euclidean_division_equations; lia).
  assert ((start * 256) `mod` 4096 = start `mod` 16 * 256) as Hmod by (Z.to_euclidean_division_equations; lia).
  assert ((start * 256) `mod` 32 = 0 ∧ (len * 256) `mod` 32 = 0) as [Hm1 Hm2] by (Z.to_euclidean_division_equations; lia).
  unfold wrap16. rewrite (Z.mod_small (start / 16)) by (Z.to_euclidean_division_equations; lia).
  set (adv := if start `mod` 16 =? 0 then false else is_sealed (eb_seal self) (start / 16)).
  destruct adv eqn:Hadv; unfold adv in Hadv.
  - destruct (Z.eqb_spec (start `mod` 16) 0) as [|Hne]; [done|].
    apply get_unsealed_advanced; try done; try lia. by rewrite Hseal.
  - rewrite batch_data_get_spec; [|done|lia|lia|change BYTES_PER_LOAD with 262144; lia].
    rewrite bind_Ok. destruct (read_range (known (eb_data self)) (start * 256) (len * 256)) as [v|] eqn:Hv.
    + destruct (unseal_loaded_none self (start * 256) (len * 256) v) as (p & Hp & Hpp); try done; try lia.
      { rewrite Hseal, Hmod. intros Hne. destruct (Z.eqb_spec (start `mod` 16) 0); [lia|done]. }
      by rewrite Hp, bind_Ok, Hpp.
    + by rewrite (plain_range_None self) by (done || lia).
Qed.

End facts.

(** * What inserting, sealing and truncating do to the plain bytes of a batch. *)

Section ops.
Context `{Keccak, Bitmap64 B, !Bitmap64Laws B}.
Context (G : Z → SealContextInfo) (HG : context_map G) (miner : H256).
Implicit Types (self : EntryBatch B).

Lemma entry_batch_new_ok n : batch_ok G miner (entry_batch_new n).
Proof.
  split.
  - split; [split; [constructor|constructor]|apply increasing_nil].
  - apply seal_info_new_ok.
  - intros s Hs. unfold is_sealed. cbn. by rewrite bm_get_default.
Qed.

(** ** [insert_data] *)

Lemma unknown_unsealed self i :
  batch_ok G miner self → 0 ≤ i < 262144 → known (eb_data self) i = None →
  is_sealed (eb_seal self) (i / 4096) = false.
Proof.
  intros [_ _ Hk] Hi Hn. destruct (is_sealed _ _) eqn:Hs; [exfalso|done].
  destruct (Hk (i / 4096)) as [c Hc]; [Z.to_euclidean_division_equations; lia|done|].
  assert (is_Some (known (eb_data self) i)) as []; [|congruence].
  apply (read_range_is_Some _ (i / 4096 * 4096) 4096); [by rewrite Hc|pose proof (seal_of_byte i); lia].
Qed.

(** New bytes where none were known do not touch a sealed seal. *)
Lemma plain_insert self d' a n (data : list Z) :
  batch_ok G miner self → 0 ≤ a → a + n ≤ 262144 →
  (∀ i, a ≤ i < a + n → known (eb_data self) i = None) →
  (∀ i, known d' i = if bool_decide (a ≤ i < a + n) then data !! Z.to_nat (i - a) else known (eb_data self) i) →
  (∀ s, 0 ≤ s < 64 → is_sealed (eb_seal self) s = true →
     read_range (known d') (s * 4096) 4096 = read_range (known (eb_data self)) (s * 4096) 4096) ∧
  ∀ i, 0 ≤ i < 262144 →
    plain (EntryBatch_mk (eb_seal self) d') i =
      if bool_decide (a ≤ i < a + n) then data !! Z.to_nat (i - a) else plain self i.
Proof.
  intros Hok Ha Hb Hfree Hk'.
  assert (∀ s, 0 ≤ s < 64 → is_sealed (eb_seal self) s = true →
    read_range (known d') (s * 4096) 4096 = read_range (known (eb_data self)) (s * 4096) 4096) as Hsame.
  { intros s Hs Hsealed. apply read_range_ext. intros i Hi. rewrite Hk'. case_bool_decide as Hr; [exfalso|done].
    pose proof (unknown_unsealed self i Hok ltac:(lia) (Hfree i Hr)) as Hu. rewrite (seal_of_byte_eq i s) in Hu by lia.
    congruence. }
  split; [done|]. intros i Hi. case_bool_decide as Hr.
  - pose proof (unknown_unsealed self i Hok Hi (Hfree i Hr)) as Hu.
    rewrite (plain_unsealed _ (i / 4096)); [|done|apply seal_of_byte]. cbn [eb_data]. rewrite Hk'.
    by rewrite bool_decide_true.
  - unfold plain. cbn [eb_seal eb_data]. destruct (is_sealed (eb_seal self) (i / 4096)) eqn:Hs.
    + by rewrite Hsame by (done || Z.to_euclidean_division_equations; lia).
    + rewrite Hk'. by rewrite bool_decide_false.
Qed.

Lemma insert_data_spec self off (data : list Z) :
  batch_ok G miner self → 0 ≤ off → data ≠ [] → blen data `mod` 256 = 0 → off + blen data / 256 ≤ 1024 →
  let a := off * 256 in let n := blen data in
  (read_range (plain self) a n = Some data → insert_data self off data = Ok (self, [])) ∧
  ((∀ i, a ≤ i < a + n → plain self i = None) →
   ∃ self' seals, insert_data self off data = Ok (self', seals) ∧ batch_ok G miner self' ∧
     eb_seal self' = eb_seal self ∧
     (∀ i, 0 ≤ i < 262144 → plain self' i =
        if bool_decide (a ≤ i < a + n) then data !! Z.to_nat (i - a) else plain self i) ∧
     ready_seals (known (eb_data self')) off (n / 256) seals) ∧
  (read_range (plain self) a n ≠ Some data → (∃ i, a ≤ i < a + n ∧ is_Some (plain self i)) →
   ∃ msg, insert_data self off data = Err msg).
Proof.
  intros Hok Hoff Hne Hm Hb a n. destruct (new_range_ok off data Hoff Hne Hm Hb) as (_ & _ & Hlen & Hpos).
  assert (a + n ≤ 262144) as Hbound by (unfold a, n; lia).
  assert (insert_data self off data =
    if bool_decide (read_range (plain self) a n = Some data) then Ok (self, [])
    else r ← batch_data_insert_data (eb_data self) a data; Ok (EntryBatch_mk (eb_seal self) r.1, r.2)) as Hdef.
  { unfold insert_data. rewrite bool_decide_false by done. change BYTES_PER_SECTOR with 256.
    rewrite (get_unsealed_data_spec G HG miner), bind_Ok by (done || lia). unfold a, n.
    by replace (blen data / 256 * 256) with (blen data) by lia. }
  pose proof Hok as [Hd Hs Hk].
  assert (∀ i, a ≤ i < a + n → is_Some (plain self i) ↔ is_Some (known (eb_data self) i)) as Hiff
    by (intros i Hi; apply (plain_is_Some G miner); [done|unfold a in *; lia]).
  rewrite Hdef. split_and!.
  - intros ->. by rewrite bool_decide_true.
  - intros Hfree.
    assert (∀ i, a ≤ i < a + n → known (eb_data self) i = None) as Hfree'.
    { intros i Hi. apply eq_None_not_Some. rewrite <- Hiff by done. by rewrite Hfree. }
    rewrite bool_decide_false.
    2: { rewrite (read_range_None _ _ _ a); [done|unfold n; lia|apply Hfree; unfold n; lia]. }
    destruct (batch_data_insert_free (eb_data self) off data) as (d' & seals & Hins & Hd' & Hk' & Hready & _); [done..|].
    fold a in Hins. rewrite Hins, bind_Ok. destruct (plain_insert self d' a n data Hok ltac:(unfold a; lia) Hbound Hfree' Hk') as [Hsame Hplain].
    eexists _, _. split; [done|]. split_and!; [split; [done|done|]|done|done|done].
    intros s Hs' Hsealed. cbn [eb_data fst]. rewrite Hsame by done. by apply Hk.
  - intros Hne' (i & Hi & Hsome). rewrite bool_decide_false by done.
    destruct (batch_data_insert_overlap (eb_data self) off data i) as [msg Herr]; [done..|by apply Hiff|].
    fold a in Herr. rewrite Herr. by exists msg.
Qed.

(** ** [submit_seal_result] *)

(** An answer for seal [s] of the batch: the sealed plain bytes, and the
    context of the seal. *)
Record answer_ok self (s : Z) (ans : SealAnswer) : Prop := {
  ao_index : sa_seal_index ans = load_index (eb_seal self) * 64 + s;
  ao_local : 0 ≤ s < 64;
  ao_fresh : is_sealed (eb_seal self) s = false;
  ao_context : seal_context ans = context_digest (G s);
  ao_end : wrap16 (Z.min (wrap64 (context_end_seal ans - wrap64 (load_index (eb_seal self) * SEALS_PER_LOAD))) SEALS_PER_LOAD)
    = end_seal_index (G s);
  ao_miner : sa_miner_id ans = miner;
  ao_data : ∃ c, read_range (plain self) (s * 4096) 4096 = Some c ∧
    seal c miner (context_digest (G s)) (global_seal_sector (eb_seal self) s) = Ok (sealed_data ans);
}.

Lemma seal_spec c m ctx sec v :
  seal c m ctx sec = Ok v →
  (length c `mod` 32 = 0)%nat ∧ v = seal_loop (length c) c (keccak (compute_first_mask_seed m ctx sec)).
Proof.
  unfold seal, seal_with_mask_seed, seal_with_mask. case_bool_decide as Hm; [|done]. intros [= <-]. done.
Qed.

Lemma submit_seal_result_spec self s ans :
  batch_ok G miner self → answer_ok self s ans →
  ∃ self', submit_seal_result self ans = Ok self' ∧ batch_ok G miner self' ∧
    (∀ s', 0 ≤ s' < 64 → is_sealed (eb_seal self') s' = (if bool_decide (s' = s) then true else is_sealed (eb_seal self) s')) ∧
    (∀ i, 0 ≤ i < 262144 → plain self' i = plain self i) ∧
    load_index (eb_seal self') = load_index (eb_seal self).
Proof.
  intros Hok [Hidx Hloc Hfresh Hctx Hend Hmin (c & Hc & Hsealed)]. pose proof Hok as [Hd Hseal Hk].
  destruct (seal_spec _ _ _ _ _ Hsealed) as [Hm Hv].
  assert (read_range (known (eb_data self)) (s * 4096) 4096 = Some c) as Hkc.
  { rewrite <- Hc. apply read_range_ext. intros i Hi. symmetry. by apply (plain_unsealed self s). }
  apply read_range_length in Hc as Hlc; [|lia].
  assert (blen (sealed_data ans) = 4096) as Hlv by (rewrite Hv; unfold blen in *; rewrite length_seal_loop; lia).
  unfold submit_seal_result. change SEALS_PER_LOAD with 64 in *. rewrite Hidx.
  rewrite Z.add_comm, Z.mod_add, Z.div_add, Z.mod_small, Z.div_small by lia. rewrite Hfresh, Z.add_0_l, Z.eqb_refl.
  cbn [negb]. rewrite Hctx, Hmin.
  destruct (set_seal_context_spec G HG miner (eb_seal self) s (context_end_seal ans) Hseal Hloc Hend)
    as (si & -> & Hsi & Hin & Hmi & Hbm & Hli). rewrite bind_Ok.
  pose proof (batch_data_get_mut_spec (eb_data self) (s * 4096) 4096 Hd ltac:(lia) ltac:(lia)
    ltac:(change BYTES_PER_LOAD with 262144; lia)) as Hmut.
  rewrite Hkc in Hmut. destruct Hmut as (put & Hput & Hw). change BYTES_PER_SEAL with 4096.
  rewrite Hput, bind_Ok. cbn [expect]. rewrite bind_Ok. cbn [fst snd].
  rewrite bool_decide_true by (unfold blen in *; lia).
  destruct (Hw (sealed_data ans) Hlv) as [Hd' Hk'].
  destruct (mark_sealed_ok G miner si s Hsi Hloc Hin Hmi) as [Hsi' Hbits].
  assert (∀ s', 0 ≤ s' < 64 → is_sealed (mark_sealed si s) s' =
    (if bool_decide (s' = s) then true else is_sealed (eb_seal self) s')) as Hbits'.
  { intros s' Hs'. rewrite Hbits by done. unfold is_sealed. by rewrite Hbm. }
  assert (∀ s', 0 ≤ s' < 64 → s' ≠ s →
    read_range (known (put (sealed_data ans))) (s' * 4096) 4096 = read_range (known (eb_data self)) (s' * 4096) 4096) as Hother.
  { intros s' Hs' Hne. apply read_range_ext. intros i Hi. rewrite Hk'. by rewrite bool_decide_false by lia. }
  assert (read_range (known (put (sealed_data ans))) (s * 4096) 4096 = Some (sealed_data ans)) as Hthis.
  { apply read_range_Some. split; [lia|]. intros k Hk0. rewrite Hk', bool_decide_true by lia. f_equal. lia. }
  eexists. split; [done|]. split_and!; [split; cbn [eb_seal eb_data]; [done|done|]|done| |done].
  - intros s' Hs'. rewrite Hbits' by done. case_bool_decide as He; [subst; by rewrite Hthis|].
    intros Hs2. rewrite Hother by done. by apply Hk.
  - intros i Hi. pose proof (seal_of_byte i) as Hib. unfold plain at 1. cbn [eb_seal eb_data].
    rewrite Hbits' by lia. case_bool_decide as He.
    + rewrite He, Hthis. rewrite Hv. unfold unseal_chunk. rewrite length_seal_loop. unfold seal_mask.
      rewrite (digest_found G HG miner) by (done || rewrite Hbits', bool_decide_true; done). cbn [default].
      assert (si_miner_id (mark_sealed si s) = miner) as -> by done.
      assert (global_seal_sector (mark_sealed si s) s = global_seal_sector (eb_seal self) s) as ->
        by (unfold global_seal_sector, mark_sealed; cbn; by rewrite Hli).
      rewrite unseal_seal_loop by done. apply read_range_Some in Hc as [_ Hc].
      rewrite <- (Hc (i - s * 4096)) by lia. f_equal. lia.
    + unfold plain. destruct (is_sealed (eb_seal self) (i / 4096)) eqn:Hs2.
      * rewrite Hother by (done || lia). destruct (Hk (i / 4096)) as [c' Hc']; [lia|done|]. rewrite Hc'.
        unfold unseal_chunk, seal_mask.
        rewrite (digest_found G HG miner (mark_sealed si s)) by (done || lia || rewrite Hbits', bool_decide_false by (done || lia); done).
        rewrite (digest_found G HG miner (eb_seal self)) by (done || lia).
        destruct Hseal as [_ Hss _]. destruct (Hss (i / 4096)) as [_ Hm2]; [lia|done|].
        unfold global_seal_sector, mark_sealed. cbn. by rewrite Hli, Hmi, Hm2.
      * rewrite Hk'. rewrite bool_decide_false; [done|]. intros Hr. apply He. by apply seal_of_byte_eq.
Qed.

(** ** [truncate] *)

Lemma unseal_from_spec self n u d t :
  batch_ok G miner self → 0 ≤ u → 0 < t < 1024 → u + Z.of_nat n ≤ (t - 1) / 16 + 1 → data_ok d →
  (∀ i, u * 4096 ≤ i < t * 256 → known d i = known (eb_data self) i) →
  ∃ d' seals, unseal_from n (eb_seal self) d t u = Ok (d', seals) ∧ data_ok d' ∧
    (∀ s, s ∈ seals ↔ u ≤ s < u + Z.of_nat n ∧ is_sealed (eb_seal self) s = true) ∧
    ∀ i, known d' i = if bool_decide (u * 4096 ≤ i < Z.min ((u + Z.of_nat n) * 4096) (t * 256)) then plain self i
                      else known d i.
Proof.
  intros Hok. revert u d. induction n as [|n IH]; intros u d Hu Ht Hn Hd Hsame.
  { exists d, []. split_and!; [done|done| |].
    - intros s. split; [by intros ?%elem_of_nil|lia].
    - intros i. by rewrite bool_decide_false by lia. }
  assert (u * 16 < t) as Hut by (Z.to_euclidean_division_equations; lia).
  cbn [unseal_from]. destruct (is_sealed (eb_seal self) u) eqn:Hs; cbn [negb].
  - change BYTES_PER_SECTOR with 256. change BYTES_PER_SEAL with 4096. rewrite wrap64_small by lia.
    set (len := Z.min (t * 256 - u * 4096) 4096).
    assert (read_range (known d) (u * 4096) len = read_range (known (eb_data self)) (u * 4096) len) as Hrd
      by (apply read_range_ext; intros i Hi; apply Hsame; lia).
    destruct (bk_known _ _ _ Hok u ltac:(lia) Hs) as [c Hc].
    pose proof (read_range_slice _ _ _ _ 0 len Hc ltac:(lia) ltac:(lia) ltac:(lia)) as Hv.
    rewrite Z.add_0_r in Hv. set (v := take _ _) in Hv. rewrite Hv in Hrd.
    pose proof (batch_data_get_mut_spec d (u * 4096) len Hd ltac:(lia) ltac:(lia)
      ltac:(change BYTES_PER_LOAD with 262144; lia)) as Hmut.
    rewrite Hrd in Hmut. destruct Hmut as (put & -> & Hw). rewrite bind_Ok. cbn [expect]. rewrite bind_Ok. cbn [fst snd].
    destruct (unseal_start G HG miner self u len v Hok ltac:(lia) ltac:(lia)
      ltac:(Z.to_euclidean_division_equations; lia) Hv) as (p & -> & Hp). rewrite bind_Ok.
    destruct (Hw p (read_range_length _ _ _ _ Hp ltac:(lia))) as [Hd1 Hk1].
    destruct (IH (u + 1) (put p) ltac:(lia) Ht ltac:(lia) Hd1) as (d' & seals & -> & Hd' & Hin & Hk').
    { intros i Hi. rewrite Hk1, bool_decide_false by lia. apply Hsame. lia. }
    rewrite bind_Ok. eexists _, _. split; [done|]. split_and!; [done| |].
    + intros s. cbn [fst snd]. rewrite elem_of_cons, Hin. split.
      * intros [->|[? ?]]; split; done || lia.
      * intros [? ?]. destruct (decide (s = u)); [by left|right; split; [lia|done]].
    + intros i. cbn [fst snd]. rewrite Hk', Hk1. apply read_range_Some in Hp as [_ Hp].
      destruct (decide (u * 4096 ≤ i < u * 4096 + len)) as [Hi|Hi].
      * rewrite bool_decide_false, !bool_decide_true by lia. rewrite <- Hp by lia. f_equal. lia.
      * rewrite (bool_decide_false (u * 4096 ≤ i < u * 4096 + len)) by done.
        erewrite bool_decide_ext; [reflexivity|lia].
  - destruct (IH (u + 1) d ltac:(lia) Ht ltac:(lia) Hd) as (d' & seals & -> & Hd' & Hin & Hk').
    { intros i Hi. apply Hsame. lia. }
    eexists _, _. split; [done|]. split_and!; [done| |].
    + intros s. rewrite Hin. split; intros [? ?]; (split; [|done]); [lia|].
      destruct (decide (s = u)); [congruence|lia].
    + intros i. rewrite Hk'. destruct (decide (u * 4096 ≤ i < Z.min ((u + 1) * 4096) (t * 256))) as [Hi|Hi].
      * rewrite bool_decide_false, bool_decide_true by lia. rewrite (plain_unsealed self u) by (done || lia).
        apply Hsame. lia.
      * erewrite bool_decide_ext; [reflexivity|lia].
Qed.

(** Two seal infos that agree on the sealed seals below [t] show the same
    plain bytes there. *)
Lemma plain_below self si' d' t :
  batch_ok G miner self → seal_ok G miner si' → 0 ≤ t ≤ 64 →
  load_index si' = load_index (eb_seal self) → si_miner_id si' = si_miner_id (eb_seal self) →
  (∀ s, 0 ≤ s < 64 → is_sealed si' s = is_sealed (eb_seal self) s && (s <? t)) →
  (∀ i, 0 ≤ i < t * 4096 → known d' i = known (eb_data self) i) →
  (∀ s, 0 ≤ s < 64 → is_sealed si' s = true → is_Some (read_range (known d') (s * 4096) 4096)) ∧
  ∀ i, 0 ≤ i < 262144 → plain (EntryBatch_mk si' d') i = if bool_decide (i < t * 4096) then plain self i else known d' i.
Proof.
  intros Hok Hsi Ht Hl Hm Hbits Hsame.
  assert (∀ s, 0 ≤ s < t → read_range (known d') (s * 4096) 4096 = read_range (known (eb_data self)) (s * 4096) 4096)
    as Hr by (intros s Hs; apply read_range_ext; intros i Hi; apply Hsame; lia).
  split.
  - intros s Hs Hs1. pose proof Hs1 as Hs2. rewrite Hbits in Hs2 by done.
    apply andb_true_iff in Hs2 as [Hs2 Hlt%Z.ltb_lt]. rewrite Hr by lia. by apply Hok.
  - intros i Hi. pose proof (seal_of_byte i) as Hib. unfold plain at 1. cbn [eb_seal eb_data].
    rewrite Hbits by lia. case_bool_decide as Hit.
    + assert (i / 4096 < t) as Hlt by lia. rewrite (proj2 (Z.ltb_lt _ _) Hlt), andb_true_r. unfold plain.
      rewrite Hr by lia. destruct (is_sealed (eb_seal self) (i / 4096)) eqn:Hs; [|by apply Hsame; lia].
      assert (seal_mask si' (i / 4096) = seal_mask (eb_seal self) (i / 4096)) as Hmask.
      { unfold seal_mask, global_seal_sector. rewrite Hl, Hm.
        rewrite (digest_found G HG miner si') by (done || lia || (rewrite Hbits, Hs by lia; by apply Z.ltb_lt)).
        by rewrite (digest_found G HG miner (eb_seal self)) by (done || lia || apply Hok). }
      unfold unseal_chunk. by rewrite Hmask.
    + by rewrite (proj2 (Z.ltb_ge (i / 4096) t)), andb_false_r by lia.
Qed.

Lemma entry_batch_truncate_spec self t :
  batch_ok G miner self → 0 < t < 1024 →
  ∃ self' seals, entry_batch_truncate self t = Ok (self', seals) ∧ batch_ok G miner self' ∧
    (∀ i, 0 ≤ i < 262144 → plain self' i = if bool_decide (i < t * 256) then plain self i else None) ∧
    (∀ s, 0 ≤ s < 64 → s ∈ seals ↔
       s * 16 < t ∧ is_sealed (eb_seal self) s = true ∧ is_sealed (eb_seal self') s = false) ∧
    load_index (eb_seal self') = load_index (eb_seal self) ∧
    (∀ c, c ∈ seal_contexts (eb_seal self') → end_seal_index c ≤ t / 16) ∧
    (∀ s, 0 ≤ s < 64 → is_sealed (eb_seal self') s = true → is_sealed (eb_seal self) s = true) ∧
    ∀ s, s ∈ seals → 0 ≤ s < 64.
Proof.
  intros Hok Ht. pose proof Hok as [Hd Hs _]. unfold entry_batch_truncate. change SECTORS_PER_LOAD with 1024.
  rewrite (proj2 (Z.ltb_lt 0 t)), (proj2 (Z.ltb_lt t 1024)) by lia. cbn [andb]. change BYTES_PER_SECTOR with 256.
  destruct (batch_data_truncate_spec (eb_data self) t Hd Ht) as (d1 & -> & Hd1 & Hk1). rewrite bind_Ok.
  unfold truncate_seal. cbn [eb_seal eb_data]. change SECTORS_PER_SEAL with 16. unfold wrap16.
  rewrite (Z.mod_small (t / 16)), (Z.mod_small ((t - 1) / 16)) by (Z.to_euclidean_division_equations; lia).
  assert (0 ≤ t / 16 < 64) as Hr by (Z.to_euclidean_division_equations; lia).
  destruct (truncated_seal_index_spec G HG miner (eb_seal self) (t / 16) Hs Hr) as (f & Hf & Hfb & _ & _).
  destruct (seal_info_truncate_spec G HG miner (eb_seal self) (t / 16) f Hs Hr Hf) as (si' & Hsi & Hsok & Hl & Hm & Hbits).
  rewrite Hf, bind_Ok. set (n := Z.to_nat _).
  assert (f + Z.of_nat n = (t - 1) / 16 + 1) as Hn by (unfold n; Z.to_euclidean_division_equations; lia).
  assert (t * 256 ≤ (f + Z.of_nat n) * 4096) as Hcover by (rewrite Hn; Z.to_euclidean_division_equations; lia).
  destruct (unseal_from_spec self n f d1 t Hok ltac:(lia) Ht ltac:(lia) Hd1) as (d' & seals & -> & Hd' & Hin & Hk').
  { intros i Hi. by rewrite Hk1, bool_decide_true by lia. }
  rewrite bind_Ok, Hsi, bind_Ok. cbn [fst snd].
  destruct (plain_below self si' d' f Hok Hsok ltac:(lia) Hl Hm Hbits) as [Hknown Hplain].
  { intros i Hi. rewrite Hk', bool_decide_false, Hk1, bool_decide_true by (Z.to_euclidean_division_equations; lia). done. }
  eexists _, _. split; [done|]. split_and!; [by split| | |done| | |].
  - intros i Hi. rewrite Hplain by done. destruct (decide (i < f * 4096)) as [Hif|Hif].
    { by rewrite !bool_decide_true by (Z.to_euclidean_division_equations; lia). }
    rewrite (bool_decide_false (i < f * 4096)) by done. rewrite Hk', Hk1.
    destruct (decide (i < t * 256)); [by rewrite !bool_decide_true by lia|by rewrite !bool_decide_false by lia].
  - intros s Hs'. rewrite Hin, Hn. cbn [eb_seal]. rewrite Hbits by done. split.
    + intros [Hb Hs1]. rewrite Hs1, (proj2 (Z.ltb_ge s f)) by lia. split; [|done].
      Z.to_euclidean_division_equations; lia.
    + intros (Hb & Hs1 & Hs2). rewrite Hs1 in Hs2. cbn in Hs2. apply Z.ltb_ge in Hs2. split; [|done].
      Z.to_euclidean_division_equations; lia.
  - intros c Hc. destruct (context_index_spec (seal_contexts (eb_seal self)) (t / 16)) as (_ & Hlo & _);
      [apply Hs|lia|]. apply Hlo. unfold seal_info_truncate in Hsi. rewrite Hf, bind_Ok in Hsi. by injection Hsi as <-.
  - intros s Hs'. cbn [eb_seal]. rewrite Hbits by done. by intros [? _]%andb_true_iff.
  - intros s [Hs' _]%Hin. rewrite Hn in Hs'. Z.to_euclidean_division_equations; lia.
Qed.

(** A batch whose contexts end before [k] only depends on the contexts of [G]
    that end there. *)
Lemma batch_ok_change G' self k :
  batch_ok G miner self → (∀ c, c ∈ seal_contexts (eb_seal self) → end_seal_index c ≤ k) →
  (∀ s, 0 ≤ s < 64 → end_seal_index (G s) ≤ k → G' s = G s) →
  batch_ok G' miner self.
Proof.
  intros [Hd [[Hinc Hfrom] Hs Hm] Hk] Hend Hsame. split; [done|split; [split; [done|]| |done]|done].
  - intros c Hc. destruct (Hfrom c Hc) as [Hb Hg]. split; [done|]. rewrite Hsame; [done|lia|].
    rewrite Hg. by apply Hend.
  - intros s Hs' Hsealed. destruct (Hs s Hs' Hsealed) as [Hin Hmi]. by rewrite Hsame by (done || by apply Hend).
Qed.

End ops.
