(* ===== verification/BatchTheorems.v ===== *)
(** Properties of sealing and of a batch of entries. *)

From stdpp Require Import sorting list_numbers.
From S2P Require Import Prelude HashElement Shard SharedTypes Seal ChunkData ChunkDataFacts ChunkDataInsert.
From S2P Require Import SealInfo EntryBatch EntryBatchFacts.
Local Open Scope Z_scope.

(** ** What a batch stores *)

(** The bytes of a batch as a partial function of the offset: writing the
    sectors from [off] on, and dropping the sectors from [t] on. *)
Definition put_bytes (f : Z → option Z) (off : Z) (data : list Z) (i : Z) : option Z :=
  if bool_decide (off * 256 ≤ i < off * 256 + blen data) then data !! Z.to_nat (i - off * 256) else f i.

Definition cut_bytes (f : Z → option Z) (t i : Z) : option Z :=
  if bool_decide (i < t * 256) then f i else None.

Section theorems.
Context `{Keccak, Bitmap64 B, !Bitmap64Laws B}.
Context (miner : H256).
Implicit Types (self : EntryBatch B) (G : Z → SealContextInfo).

(** The states of a batch, with the bytes written to it and the contexts of
    its seals.  A truncation may change the contexts that end after it. *)
Inductive batch_reach : (Z → SealContextInfo) → EntryBatch B → (Z → option Z) → Prop :=
  | reach_new G n :
      context_map G → batch_reach G (entry_batch_new n) (λ _, None)
  | reach_insert G self f off data self' seals :
      batch_reach G self f → 0 ≤ off → blen data `mod` 256 = 0 → off + blen data / 256 ≤ 1024 →
      insert_data self off data = Ok (self', seals) →
      batch_reach G self' (put_bytes f off data)
  | reach_seal G self f s ans self' :
      batch_reach G self f → answer_ok G miner self s ans → submit_seal_result self ans = Ok self' →
      batch_reach G self' f
  | reach_truncate G G' self f t self' seals :
      batch_reach G self f → 0 < t < 1024 → entry_batch_truncate self t = Ok (self', seals) →
      context_map G' → (∀ s, 0 ≤ s < 64 → end_seal_index (G s) ≤ t / 16 → G' s = G s) →
      batch_reach G' self' (cut_bytes f t).

Lemma put_bytes_same f off data :
  read_range f (off * 256) (blen data) = Some data → ∀ i, put_bytes f off data i = f i.
Proof.
  intros [_ Hf]%read_range_Some i. unfold put_bytes. case_bool_decide as Hi; [|done].
  rewrite <- Hf by lia. f_equal. lia.
Qed.

Lemma read_put_bytes f off data : read_range (put_bytes f off data) (off * 256) (blen data) = Some data.
Proof.
  apply read_range_Some. split; [unfold blen; lia|]. intros k Hk. unfold put_bytes.
  rewrite bool_decide_true by lia. f_equal. lia.
Qed.

Lemma insert_ok_plain G self off data self' seals :
  context_map G → batch_ok G miner self → 0 ≤ off → blen data `mod` 256 = 0 → off + blen data / 256 ≤ 1024 →
  insert_data self off data = Ok (self', seals) →
  batch_ok G miner self' ∧ ∀ i, 0 ≤ i < 262144 → plain self' i = put_bytes (plain self) off data i.
Proof.
  intros HG Hok Hoff Hm Hb Hins. destruct (decide (data = [])) as [->|Hne].
  { unfold insert_data in Hins. rewrite bool_decide_true in Hins by done. injection Hins as <- <-. split; [done|].
    intros i Hi. unfold put_bytes. rewrite bool_decide_false; [done|]. unfold blen. cbn. lia. }
  destruct (insert_data_spec G HG miner self off data Hok Hoff Hne Hm Hb) as (Hsame & Hfree & Herr).
  destruct (decide (read_range (plain self) (off * 256) (blen data) = Some data)) as [Hold|Hold].
  { rewrite (Hsame Hold) in Hins. injection Hins as <- <-. split; [done|]. intros i Hi. by rewrite put_bytes_same. }
  destruct (decide (Forall (λ i, plain self i = None) (seqZ (off * 256) (blen data)))) as [Hall|Hall].
  - rewrite Forall_seqZ in Hall. destruct Hfree as (self1 & seals1 & Hins1 & Hok1 & _ & Hp1 & _); [done|].
    rewrite Hins1 in Hins. injection Hins as <- <-. by split.
  - exfalso. apply not_Forall_Exists, Exists_exists in Hall as (i & Hi & Hsome); [|apply _].
    apply elem_of_seqZ in Hi. destruct Herr as [msg Herr]; [done| |congruence].
    exists i. split; [done|]. by apply not_eq_None_Some.
Qed.

Lemma batch_reach_ok G self f :
  batch_reach G self f →
  context_map G ∧ batch_ok G miner self ∧ ∀ i, 0 ≤ i < 262144 → plain self i = f i.
Proof.
  induction 1 as [G n HG|G self f off data self' seals _ (HG & Hok & Hp) Hoff Hm Hb Hins
    |G self f s ans self' _ (HG & Hok & Hp) Hans Hsub|G G' self f t self' seals _ (HG & Hok & Hp) Ht Htr HG' Hsame].
  - split_and!; [done|apply entry_batch_new_ok|]. intros i Hi. unfold plain, is_sealed. cbn.
    by rewrite bm_get_default by (Z.to_euclidean_division_equations; lia).
  - destruct (insert_ok_plain G self off data self' seals HG Hok Hoff Hm Hb Hins) as [Hok' Hp'].
    split_and!; [done|done|]. intros i Hi. rewrite Hp' by done. unfold put_bytes. case_bool_decide; [done|by apply Hp].
  - destruct (submit_seal_result_spec G HG miner self s ans Hok Hans) as (self1 & Hsub1 & Hok1 & _ & Hp1 & _).
    rewrite Hsub in Hsub1. injection Hsub1 as <-. split_and!; [done|done|]. intros i Hi. rewrite Hp1 by done. by apply Hp.
  - destruct (entry_batch_truncate_spec G HG miner self t Hok Ht) as (self1 & seals1 & Htr1 & Hok1 & Hp1 & _ & _ & Hend & _).
    rewrite Htr in Htr1. injection Htr1 as <- <-.
    split_and!; [done|by apply (batch_ok_change G miner G' self' (t / 16))|].
    intros i Hi. rewrite Hp1 by done. unfold cut_bytes. case_bool_decide; [by apply Hp|done].
Qed.

(** C15: In every state a batch reaches by inserting, sealing and truncating,
    reading sectors returns exactly the bytes that were inserted last and not
    truncated since (or nothing, when one of them is missing), whatever seals
    are sealed and in whatever order they were. *)
Theorem batch_reads_what_was_written G self f start len :
  batch_reach G self f → 0 ≤ start → 0 < len → start + len ≤ 1024 →
  get_unsealed_data self start len = Ok (read_range f (start * 256) (len * 256)).
Proof.
  intros (HG & Hok & Hp)%batch_reach_ok Hs Hl Hb. rewrite (get_unsealed_data_spec G HG miner) by done.
  f_equal. apply read_range_ext. intros i Hi. apply Hp. lia.
Qed.

(** C29: In every reachable state an insertion of whole sectors is ignored when
    the batch already holds the same bytes there, succeeds when it holds none
    of them, and fails otherwise; the seals it reports are exactly the seals it
    touches whose bytes are now all known. *)
Theorem batch_insert_outcome G self f off data :
  batch_reach G self f → 0 ≤ off → data ≠ [] → blen data `mod` 256 = 0 → off + blen data / 256 ≤ 1024 →
  (read_range f (off * 256) (blen data) = Some data → insert_data self off data = Ok (self, [])) ∧
  ((∀ i, off * 256 ≤ i < off * 256 + blen data → f i = None) →
   ∃ self' seals, insert_data self off data = Ok (self', seals) ∧
     ready_seals (known (eb_data self')) off (blen data / 256) seals) ∧
  (read_range f (off * 256) (blen data) ≠ Some data →
   (∃ i, off * 256 ≤ i < off * 256 + blen data ∧ is_Some (f i)) →
   ∃ msg, insert_data self off data = Err msg).
Proof.
  intros (HG & Hok & Hp)%batch_reach_ok Hoff Hne Hm Hb.
  destruct (new_range_ok off data Hoff Hne Hm Hb) as (_ & _ & Hlen & _).
  destruct (insert_data_spec G HG miner self off data Hok Hoff Hne Hm Hb) as (Hsame & Hfree & Herr).
  assert (read_range (plain self) (off * 256) (blen data) = read_range f (off * 256) (blen data)) as Hr
    by (apply read_range_ext; intros i Hi; apply Hp; lia).
  rewrite Hr in Hsame, Herr. split_and!.
  - exact Hsame.
  - intros Hnone. destruct Hfree as (self' & seals & ? & _ & _ & _ & ?); [|by exists self', seals].
    intros i Hi. rewrite Hp by lia. by apply Hnone.
  - intros Hd (i & Hi & Hsome). apply Herr; [done|]. exists i. split; [done|]. by rewrite Hp by lia.
Qed.

(** In every reachable state truncating inside the batch terminates
    without panic, keeps the bytes before the cut and returns exactly the
    seals that were sealed, reach before the cut and have to be sealed again. *)
Theorem batch_truncate_outcome G self f t :
  batch_reach G self f → 0 < t < 1024 →
  ∃ self' seals, entry_batch_truncate self t = Ok (self', seals) ∧
    (∀ i, 0 ≤ i < 262144 → plain self' i = cut_bytes f t i) ∧
    ∀ s, 0 ≤ s < 64 → s ∈ seals ↔
      s * 16 < t ∧ is_seal_sealed self s = true ∧ is_seal_sealed self' s = false.
Proof.
  intros (HG & Hok & Hp)%batch_reach_ok Ht.
  destruct (entry_batch_truncate_spec G HG miner self t Hok Ht) as (self' & seals & Htr & _ & Hp' & Hin & _).
  exists self', seals. split_and!; [done| |done]. intros i Hi. rewrite Hp' by done. unfold cut_bytes.
  case_bool_decide; [by apply Hp|done].
Qed.

(** In every reachable state a correct answer for a complete, unsealed
    seal is accepted: the seal becomes sealed, no other seal changes, and every
    byte of the batch can still be read unsealed. *)
Theorem batch_seal_outcome G self f s ans :
  batch_reach G self f → answer_ok G miner self s ans →
  ∃ self', submit_seal_result self ans = Ok self' ∧
    (∀ s', 0 ≤ s' < 64 → is_seal_sealed self' s' = (if bool_decide (s' = s) then true else is_seal_sealed self s')) ∧
    ∀ i, 0 ≤ i < 262144 → plain self' i = f i.
Proof.
  intros (HG & Hok & Hp)%batch_reach_ok Hans.
  destruct (submit_seal_result_spec G HG miner self s ans Hok Hans) as (self' & Hsub & _ & Hbits & Hp' & _).
  exists self'. split_and!; [done|done|]. intros i Hi. rewrite Hp' by done. by apply Hp.
Qed.

(** C36: Sealing data of whole words succeeds, keeps its length, and unsealing
    with the same miner, context and sector gives the data back; data that is
    not made of whole words is refused by both. *)
Theorem seal_roundtrip data ctx sector :
  if bool_decide (length data `mod` 32 = 0)%nat then
    ∃ sealed, seal data miner ctx sector = Ok sealed ∧ length sealed = length data ∧
      unseal sealed miner ctx sector = Ok data
  else seal data miner ctx sector = Panic ∧ unseal data miner ctx sector = Panic.
Proof.
  unfold seal, unseal, seal_with_mask_seed, unseal_with_mask_seed, seal_with_mask, unseal_with_mask.
  case_bool_decide as Hm; [|done]. eexists. split; [done|]. rewrite length_seal_loop. split; [done|].
  rewrite bool_decide_true by done. by rewrite unseal_seal_loop.
Qed.

End theorems.

(** ** Examples *)

Section examples.

(** A hash, and bitmaps as integers. *)
#[local] Instance toy_keccak : Keccak :=
  λ d, vreplicate 32 (match d with x :: _ => Z.lxor x 85 | [] => 1 end).

Definition is_u64 (z : Z) : bool := (0 <=? z) && (z <? 2 ^ 64).
Record bits64 := Bits64 { bits : Z; bits_u64 : is_u64 bits = true }.

Definition to_bits64 (z : Z) : bits64 :=
  match Bool.bool_dec (is_u64 z) true with
  | left p => Bits64 z p
  | right _ => Bits64 0 eq_refl
  end.

Lemma is_u64_spec z : is_u64 z = true ↔ 0 ≤ z < 2 ^ 64.
Proof. unfold is_u64. rewrite andb_true_iff, Z.leb_le, Z.ltb_lt. done. Qed.

Lemma bits64_bound (b : bits64) : 0 ≤ bits b < 2 ^ 64.
Proof. apply is_u64_spec, bits_u64. Qed.

Lemma to_bits64_val z : 0 ≤ z < 2 ^ 64 → bits (to_bits64 z) = z.
Proof. intros Hz%is_u64_spec. unfold to_bits64. by destruct (Bool.bool_dec _ _). Qed.

#[local] Instance z_bitmap : Bitmap64 bits64 := {|
  bm_default := to_bits64 0;
  bm_get b i := Z.testbit (bits b) i;
  bm_set b i v := to_bits64 ((if v then Z.setbit (bits b) i else Z.clearbit (bits b) i) `mod` 2 ^ 64);
  into_value b := bits b;
  from_value v := to_bits64 v;
|}.

#[local] Instance z_bitmap_laws : Bitmap64Laws bits64.
Proof.
  split; cbn -[to_bits64].
  - apply bits64_bound.
  - intros [z Hz]. unfold to_bits64. destruct (Bool.bool_dec _ _) as [Hz'|]; [|done].
    f_equal. apply proof_irrel.
  - apply to_bits64_val.
  - done.
  - intros b i v Hi. rewrite to_bits64_val, Z.mod_pow2_bits_low by (lia || by apply Z.mod_pos_bound).
    destruct v; [apply Z.setbit_eq; lia|apply Z.clearbit_eq].
  - intros b i j v Hi Hj Hne. rewrite to_bits64_val, Z.mod_pow2_bits_low by (lia || by apply Z.mod_pos_bound).
    destruct v; [apply Z.setbit_neq; lia|apply Z.clearbit_neq; lia].
  - intros i Hi. rewrite to_bits64_val by lia. apply Z.bits_0.
Qed.

Definition toy_miner : H256 := vreplicate 32 9.
Definition toy_context : SealContextInfo := SealContextInfo_mk (vreplicate 32 5) 64.
Definition toy_contexts (_ : Z) : SealContextInfo := toy_context.

Definition toy_data : list Z := replicate (Z.to_nat 4096) 7.
Definition toy_value {A} (d : A) (o : outcome A) : A := match o with Ok a => a | _ => d end.

(** An empty batch, then with its first seal inserted, then sealed. *)
Definition toy_empty : EntryBatch bits64 := entry_batch_new 3.
Definition toy_inserted : EntryBatch bits64 := Eval vm_compute in (toy_value (toy_empty, []) (insert_data toy_empty 0 toy_data)).1.
Definition toy_answer : SealAnswer := Eval vm_compute in
  SealAnswer_mk 192 0 (toy_value [] (seal toy_data toy_miner (context_digest toy_context) 3072))
    toy_miner (context_digest toy_context) 256.
Definition toy_sealed : EntryBatch bits64 := Eval vm_compute in toy_value toy_empty (submit_seal_result toy_inserted toy_answer).

Lemma toy_context_map : context_map toy_contexts.
Proof. split; cbn; intros; lia || done. Qed.

Lemma toy_insert_eq : insert_data toy_empty 0 toy_data = Ok (toy_inserted, [0]).
Proof. vm_compute. reflexivity. Qed.

Lemma toy_submit_eq : submit_seal_result toy_inserted toy_answer = Ok toy_sealed.
Proof. vm_compute. reflexivity. Qed.

Lemma toy_reach_inserted : batch_reach toy_miner toy_contexts toy_inserted (put_bytes (λ _, None) 0 toy_data).
Proof.
  apply (reach_insert toy_miner toy_contexts toy_empty (λ _, None) 0 toy_data toy_inserted [0]).
  - apply reach_new, toy_context_map.
  - lia.
  - vm_compute. reflexivity.
  - vm_compute. discriminate.
  - apply toy_insert_eq.
Qed.

Lemma toy_answer_ok : answer_ok toy_contexts toy_miner toy_inserted 0 toy_answer.
Proof.
  split; [vm_compute; reflexivity|lia|vm_compute; reflexivity|reflexivity|vm_compute; reflexivity|reflexivity|].
  exists toy_data. split; [|vm_compute; reflexivity].
  destruct (batch_reach_ok toy_miner _ _ _ toy_reach_inserted) as (_ & _ & Hp).
  trans (read_range (put_bytes (λ _, None) 0 toy_data) (0 * 256) (blen toy_data)); [|apply read_put_bytes].
  replace (blen toy_data) with 4096 by (vm_compute; reflexivity). apply read_range_ext. intros i Hi. apply Hp. lia.
Qed.

Lemma toy_reach_sealed : batch_reach toy_miner toy_contexts toy_sealed (put_bytes (λ _, None) 0 toy_data).
Proof.
  apply (reach_seal toy_miner toy_contexts toy_inserted _ 0 toy_answer toy_sealed).
  - apply toy_reach_inserted.
  - apply toy_answer_ok.
  - apply toy_submit_eq.
Qed.

Lemma batch_reads_what_was_written_witness :
  is_seal_sealed toy_sealed 0 = true ∧ get_unsealed_data toy_sealed 3 2 = Ok (Some (replicate 512 7)).
Proof.
  split; [vm_compute; reflexivity|].
  rewrite (batch_reads_what_was_written toy_miner toy_contexts toy_sealed _ 3 2 toy_reach_sealed)
    by (intros; discriminate || lia).
  vm_compute. reflexivity.
Defined.

Lemma batch_insert_outcome_witness :
  insert_data toy_sealed 0 toy_data = Ok (toy_sealed, []) ∧
  ∃ msg, insert_data toy_sealed 0 (replicate 256 8) = Err msg.
Proof.
  split.
  - apply (batch_insert_outcome toy_miner toy_contexts toy_sealed _ 0 toy_data toy_reach_sealed);
      [lia|discriminate|vm_compute; reflexivity|vm_compute; discriminate|apply read_put_bytes].
  - apply (batch_insert_outcome toy_miner toy_contexts toy_sealed _ 0 (replicate 256 8) toy_reach_sealed);
      [lia|discriminate|vm_compute; reflexivity|vm_compute; discriminate|vm_compute; discriminate|].
    exists 0. split; [split; vm_compute; (reflexivity || discriminate)|]. vm_compute. by eexists.
Defined.

Lemma batch_truncate_outcome_witness :
  is_seal_sealed toy_sealed 0 = true ∧
  ∃ self' seals, entry_batch_truncate toy_sealed 5 = Ok (self', seals) ∧
    (∀ i, 0 ≤ i < 262144 → plain self' i = cut_bytes (put_bytes (λ _, None) 0 toy_data) 5 i) ∧
    ∀ s, 0 ≤ s < 64 → s ∈ seals ↔
      s * 16 < 5 ∧ is_seal_sealed toy_sealed s = true ∧ is_seal_sealed self' s = false.
Proof.
  split; [vm_compute; reflexivity|].
  apply (batch_truncate_outcome toy_miner toy_contexts toy_sealed _ 5 toy_reach_sealed). lia.
Defined.

Lemma batch_seal_outcome_witness :
  ∃ self', submit_seal_result toy_inserted toy_answer = Ok self' ∧
    (∀ s', 0 ≤ s' < 64 →
       is_seal_sealed self' s' = (if bool_decide (s' = 0) then true else is_seal_sealed toy_inserted s')) ∧
    ∀ i, 0 ≤ i < 262144 → plain self' i = put_bytes (λ _, None) 0 toy_data i.
Proof.
  apply (batch_seal_outcome toy_miner toy_contexts toy_inserted _ 0 toy_answer toy_reach_inserted toy_answer_ok).
Defined.

End examples.
