(* ===== verification/Serde.v ===== *)
(** How a batch is stored:
    [node/storage/src/log_store/load_chunk/serde.rs], the encoding of
    [bitmap.rs], and the derived encodings of the structs of the batch. *)

From S2P Require Import Prelude HashElement Ssz SszFacts Bytes Shard SharedTypes Seal ChunkData ChunkDataFacts ChunkDataInsert.
From S2P Require Import SealInfo EntryBatch EntryBatchFacts.
Local Open Scope Z_scope.

Definition COMPLETE_BATCH_TYPE : Z := 0.
Definition INCOMPLETE_BATCH_TYPE : Z := 1.

(** [for PartialBatch] *)
Definition partial_batch_ssz_append (self : PartialBatch) (buf : list Z) : list Z :=
  (buf ++ to_be_bytes (Z.to_nat (pb_start_sector self))) ++ pb_data self.

Definition partial_batch_from_ssz_bytes (bytes : list Z) : outcome PartialBatch :=
  if blen bytes <? 8 then Panic
  else
    start ← expect (from_be_bytes (take 8 bytes));
    Ok (PartialBatch_mk (Z.of_nat start) (drop 8 bytes)).

#[export] Instance PartialBatch_encode : Encode PartialBatch := {|
  enc_fixed := false;
  enc_fixed_len := BYTES_PER_LENGTH_OFFSET;
  ssz_append := partial_batch_ssz_append;
  ssz_bytes_len self := (1 + length (pb_data self))%nat;
|}.

#[export] Instance PartialBatch_decode : Decode PartialBatch := {|
  dec_fixed := false;
  dec_fixed_len := BYTES_PER_LENGTH_OFFSET;
  from_ssz_bytes := partial_batch_from_ssz_bytes;
|}.

(** [derive(Encode, Decode)] of [Subtree] and [IncompleteData] *)
Definition subtree_fields (self : Subtree) : usize * usize * H256 :=
  (st_start_sector self, subtree_height self, st_root self).
Definition subtree_make (x : usize * usize * H256) : Subtree := Subtree_mk x.1.1 x.1.2 x.2.

#[export] Instance Subtree_encode : Encode Subtree := encode_as subtree_fields.
#[export] Instance Subtree_decode : Decode Subtree := decode_as subtree_make.

Definition incomplete_fields (self : IncompleteData) : list Subtree * list PartialBatch := (subtrees self, known_data self).
Definition incomplete_make (x : list Subtree * list PartialBatch) : IncompleteData := IncompleteData_mk x.1 x.2.

#[export] Instance IncompleteData_encode : Encode IncompleteData := encode_as incomplete_fields.
#[export] Instance IncompleteData_decode : Decode IncompleteData := decode_as incomplete_make.

(** [for EntryBatchData] *)
Definition batch_data_ssz_append (self : EntryBatchData) (buf : list Z) : list Z :=
  match self with
  | Complete data => (buf ++ [COMPLETE_BATCH_TYPE]) ++ data
  | Incomplete data_list => (buf ++ [INCOMPLETE_BATCH_TYPE]) ++ as_ssz_bytes data_list
  end.

Definition batch_data_ssz_bytes_len (self : EntryBatchData) : nat :=
  match self with
  | Complete data => 1 + length data
  | Incomplete batch_list => 1 + ssz_bytes_len batch_list
  end.

Definition batch_data_from_ssz_bytes (bytes : list Z) : outcome EntryBatchData :=
  first ← or_err (head bytes) ZeroLengthItem;
  if first =? COMPLETE_BATCH_TYPE then Ok (Complete (drop 1 bytes))
  else if first =? INCOMPLETE_BATCH_TYPE then x ← from_ssz_bytes (drop 1 bytes); Ok (Incomplete x)
  else decode_err (BytesInvalid "Unrecognized EntryBatchData identifier").

#[export] Instance EntryBatchData_encode : Encode EntryBatchData := {|
  enc_fixed := false;
  enc_fixed_len := BYTES_PER_LENGTH_OFFSET;
  ssz_append := batch_data_ssz_append;
  ssz_bytes_len := batch_data_ssz_bytes_len;
|}.

#[export] Instance EntryBatchData_decode : Decode EntryBatchData := {|
  dec_fixed := false;
  dec_fixed_len := BYTES_PER_LENGTH_OFFSET;
  from_ssz_bytes := batch_data_from_ssz_bytes;
|}.

(** [derive(Encode, Decode)] of [SealContextInfo] *)
Definition context_fields (self : SealContextInfo) : H256 * u16 := (context_digest self, end_seal_index self).
Definition context_make (x : H256 * u16) : SealContextInfo := SealContextInfo_mk x.1 x.2.

#[export] Instance SealContextInfo_encode : Encode SealContextInfo := encode_as context_fields.
#[export] Instance SealContextInfo_decode : Decode SealContextInfo := decode_as context_make.

Section serde.
Context `{Bitmap64 B}.

(** [for WrappedBitmap] *)
Definition bitmap_ssz_append (b : B) (buf : list Z) : list Z := buf ++ as_ssz_bytes (into_value b : u64).

Definition bitmap_from_ssz_bytes (bytes : list Z) : outcome B :=
  v ← (from_ssz_bytes (T := u64) bytes : outcome Z); Ok (from_value v).

#[export] Instance bitmap_encode : Encode B := {|
  enc_fixed := true;
  enc_fixed_len := enc_fixed_len u64;
  ssz_append := bitmap_ssz_append;
  ssz_bytes_len _ := enc_fixed_len u64;
|}.

#[export] Instance bitmap_decode : Decode B := {|
  dec_fixed := true;
  dec_fixed_len := dec_fixed_len u64;
  from_ssz_bytes := bitmap_from_ssz_bytes;
|}.

(** [derive(Encode, Decode)] of [SealInfo] and [EntryBatch] *)
Definition seal_info_fields (self : SealInfo B) : B * u64 * H256 * list SealContextInfo :=
  (bitmap self, load_index self, si_miner_id self, seal_contexts self).
Definition seal_info_make (x : B * u64 * H256 * list SealContextInfo) : SealInfo B :=
  SealInfo_mk x.1.1.1 x.1.1.2 x.1.2 x.2.

#[export] Instance SealInfo_encode : Encode (SealInfo B) := encode_as seal_info_fields.
#[export] Instance SealInfo_decode : Decode (SealInfo B) := decode_as seal_info_make.

Definition entry_batch_fields (self : EntryBatch B) : SealInfo B * EntryBatchData := (eb_seal self, eb_data self).
Definition entry_batch_make (x : SealInfo B * EntryBatchData) : EntryBatch B := EntryBatch_mk x.1 x.2.

#[export] Instance EntryBatch_encode : Encode (EntryBatch B) := encode_as entry_batch_fields.
#[export] Instance EntryBatch_decode : Decode (EntryBatch B) := decode_as entry_batch_make.

End serde.

(** ** The encodings are lawful *)

Definition u64_ok (z : Z) : Prop := 0 ≤ z < 2 ^ 64.

Lemma length_be_u64 z : u64_ok z → length (to_be_bytes (Z.to_nat z)) = 8%nat.
Proof.
  intros Hz. destruct (to_be_bytes_shape (Z.to_nat z)) as [(d & Hd & Hb)|[? _]]; [exfalso|done]. unfold u64_ok in Hz.
  unfold to_be_bytes in Hd. rewrite (proj2 (Z.ltb_lt (Z.of_nat (Z.to_nat z)) (2 ^ 64))) in Hd by lia. discriminate Hd.
Qed.

#[export] Instance partial_batch_lawful : SszLawful PartialBatch (λ p, u64_ok (pb_start_sector p)).
Proof.
  split; [done|done| |done|].
  - intros p buf. cbn. unfold as_ssz_bytes. cbn. unfold partial_batch_ssz_append. by rewrite <- !app_assoc.
  - intros p Hs. unfold as_ssz_bytes. cbn. unfold partial_batch_from_ssz_bytes, partial_batch_ssz_append. cbn [app].
    pose proof (length_be_u64 _ Hs) as Hl. unfold blen. rewrite length_app, (proj2 (Z.ltb_ge _ _)) by lia.
    rewrite take_app_length', drop_app_length', from_to_be_bytes by done. cbn [expect]. rewrite bind_Ok.
    rewrite Z2Nat.id by (destruct Hs; lia). by destruct p.
Qed.

Definition subtree_typed (t : Subtree) : Prop := u64_ok (st_start_sector t) ∧ u64_ok (subtree_height t).

Lemma length_subtree_bytes (t : Subtree) : length (as_ssz_bytes t) = 48%nat.
Proof.
  change (length (container_append [field_of (st_start_sector t : usize); field_of (subtree_height t : usize); field_of (st_root t)] []) = 48%nat).
  rewrite container_fixed_len; [done|repeat constructor; apply field_of_ok|by repeat constructor].
Qed.

#[export] Instance subtree_lawful : SszLawful Subtree subtree_typed.
Proof.
  pose proof (encode_as_lawful subtree_fields subtree_make ltac:(by intros [])) as Hl. destruct Hl as [H1 H2 H3 H4 H5].
  split; [done|done|done|done|]. intros t [Hs Hh]. apply H5. split; [exact Hs|]. split; [exact Hh|]. split; [exact I|].
  change (length (as_ssz_bytes t) < u32_max)%nat. rewrite length_subtree_bytes. unfold u32_max. lia.
Qed.

Lemma length_context_bytes (c : SealContextInfo) : length (as_ssz_bytes c) = 34%nat.
Proof.
  change (length (container_append [field_of (context_digest c); field_of (end_seal_index c : u16)] []) = 34%nat).
  rewrite container_fixed_len; [done|repeat constructor; apply field_of_ok|by repeat constructor].
Qed.

#[export] Instance context_lawful : SszLawful SealContextInfo (λ c, 0 ≤ end_seal_index c < 2 ^ 16).
Proof.
  pose proof (encode_as_lawful context_fields context_make ltac:(by intros [])) as Hl. destruct Hl as [H1 H2 H3 H4 H5].
  split; [done|done|done|done|]. intros c Hc. apply H5. split; [exact I|]. split; [exact Hc|].
  change (length (as_ssz_bytes c) < u32_max)%nat. rewrite length_context_bytes. unfold u32_max. lia.
Qed.

(** ** Sizes *)

(** Strictly increasing keys of an interval are no more than it has numbers. *)
Lemma increasing_length {A} (key : A → Z) l lo hi :
  increasing key l → (∀ a, a ∈ l → lo ≤ key a < hi) → Z.of_nat (length l) ≤ Z.max 0 (hi - lo).
Proof.
  revert lo. induction l as [|a l IH]; intros lo Hinc Hb; [cbn; lia|].
  apply increasing_cons in Hinc as [Ha Hinc]. pose proof (Hb a ltac:(left)).
  assert (Z.of_nat (length l) ≤ Z.max 0 (hi - (lo + 1))); [|cbn; lia].
  apply IH; [done|]. intros b Hbl. pose proof (Hb b ltac:(by right)). specialize (Ha b Hbl). lia.
Qed.

Lemma ranges_size l s :
  batches_ok l → s ≤ 1024 → (∀ p, p ∈ l → s ≤ pb_start_sector p) →
  Z.of_nat (length (as_ssz_bytes l)) ≤ 268 * (1024 - s).
Proof.
  rewrite length_vec_var by done. revert s. induction l as [|p l IH]; intros s Hok Hs Hge; [cbn; lia|].
  apply batches_ok_cons in Hok as (Hp & Hl & Hg). pose proof (pb_bounds p Hp) as [Hlen Hlt]. destruct Hp as [_ _ _ He].
  pose proof (Hge p ltac:(left)). cbn [fmap list_fmap concat length].
  assert (Z.of_nat (4 * length l + length (concat (as_ssz_bytes <$> l))) ≤ 268 * (1024 - end_sector p)) as Hrest.
  { apply IH; [done|lia|]. intros q Hq. specialize (Hg q Hq). unfold gap in Hg. lia. }
  assert (Z.of_nat (length (as_ssz_bytes p)) ≤ 8 + blen (pb_data p)).
  { unfold as_ssz_bytes. cbn. unfold partial_batch_ssz_append, blen. cbn [app]. rewrite length_app.
    destruct (to_be_bytes_shape (Z.to_nat (pb_start_sector p))) as [(z & -> & _)|[-> _]]; cbn [length]; lia. }
  rewrite length_app. unfold blen in *. lia.
Qed.

(** What is known of the subtrees of a stored batch: they start inside it. *)
Definition subtrees_typed (d : EntryBatchData) : Prop :=
  match d with
  | Complete _ => True
  | Incomplete x => Forall (λ t, 0 ≤ st_start_sector t < 1024 ∧ u64_ok (subtree_height t)) (subtrees x)
  end.

(** A struct with two fields of variable length. *)
Lemma length_pair_var `{SszLawful T1 ok1, SszLawful T2 ok2} (x : T1 * T2) :
  enc_fixed T1 = false → enc_fixed T2 = false →
  length (as_ssz_bytes x) = (8 + length (as_ssz_bytes x.1) + length (as_ssz_bytes x.2))%nat.
Proof.
  intros Hf1 Hf2. unfold as_ssz_bytes at 1. cbn [ssz_append tuple2_encode].
  rewrite length_container by (repeat constructor; apply field_of_ok). rewrite !var_part_cons. cbn [fld_fixed field_of].
  rewrite Hf1, Hf2, !fbytes_field_of. cbn [var_part]. rewrite length_app. cbn [fixed_len_sum foldr fld_fixed_len field_of].
  pose proof (ssz_fixed_len_ok x.1) as H81. pose proof (ssz_fixed_len_ok x.2) as H82. rewrite Hf1 in H81. rewrite Hf2 in H82.
  rewrite H81, H82, app_nil_r. lia.
Qed.

Lemma subtree_list_lawful :
  SszLawful (list Subtree) (λ l, Forall subtree_typed l ∧ (length (as_ssz_bytes l) < u32_max)%nat).
Proof. apply vec_lawful. intros _. change (0 < 48)%nat. lia. Qed.

Lemma partial_list_lawful :
  SszLawful (list PartialBatch) (λ l, Forall (λ p, u64_ok (pb_start_sector p)) l ∧ (length (as_ssz_bytes l) < u32_max)%nat).
Proof. apply vec_lawful. done. Qed.

Lemma context_list_lawful :
  SszLawful (list SealContextInfo)
    (λ l, Forall (λ c, 0 ≤ end_seal_index c < 2 ^ 16) l ∧ (length (as_ssz_bytes l) < u32_max)%nat).
Proof. apply vec_lawful. intros _. change (0 < 34)%nat. lia. Qed.

#[local] Existing Instances subtree_list_lawful partial_list_lawful context_list_lawful.

Lemma incomplete_lawful :
  SszLawful IncompleteData (λ x, Forall subtree_typed (subtrees x) ∧ Forall (λ p, u64_ok (pb_start_sector p)) (known_data x) ∧
    (length (as_ssz_bytes x) < u32_max)%nat).
Proof.
  pose proof (encode_as_lawful incomplete_fields incomplete_make ltac:(by intros [])) as [H1 H2 H3 H4 H5].
  split; [done|done|done|done|]. intros x (Hs & Hk & Hlen). apply H5.
  assert (length (as_ssz_bytes x) = (8 + length (as_ssz_bytes (subtrees x)) + length (as_ssz_bytes (known_data x)))%nat) as Heq
    by exact (length_pair_var (incomplete_fields x) eq_refl eq_refl).
  split; [split; [exact Hs|cbn [incomplete_fields fst snd]; lia]|]. split; [|exact Hlen].
  split; [exact Hk|cbn [incomplete_fields fst snd]; lia].
Qed.

(** The data of a batch. *)
Lemma batch_data_ssz d :
  data_ok d → subtrees_typed d →
  batch_data_from_ssz_bytes (as_ssz_bytes d) = Ok d ∧ blen (as_ssz_bytes d) < 2 ^ 20.
Proof.
  destruct d as [data|x]; cbn [data_ok subtrees_typed].
  { intros Hd _. change (as_ssz_bytes (Complete data)) with (COMPLETE_BATCH_TYPE :: data). split; [done|].
    unfold blen in *. cbn [length]. change BYTES_PER_LOAD with 262144 in Hd. lia. }
  intros [Hok Hinc] Hsub. rewrite Forall_forall in Hsub. set (subs := subtrees x) in *. set (l := known_data x) in *.
  assert (Z.of_nat (length subs) ≤ 1024) as Hn
    by (pose proof (increasing_length _ subs 0 1024 Hinc (λ a Ha, proj1 (Hsub a Ha))); lia).
  assert (∀ p, p ∈ l → 0 ≤ pb_start_sector p ∧ pb_start_sector p < 1024) as Hge.
  { intros p Hp. destruct Hok as [Ho _]. rewrite Forall_forall in Ho. pose proof (Ho p Hp) as Hp'. pose proof (pb_bounds p Hp').
    destruct Hp'. lia. }
  pose proof (ranges_size l 0 Hok ltac:(lia) ltac:(intros p Hp; by apply Hge)) as Hsize.
  assert (length (as_ssz_bytes subs) = (48 * length subs)%nat) as Hls by exact (length_vec_fixed subs eq_refl).
  assert (length (as_ssz_bytes x) = (8 + length (as_ssz_bytes subs) + length (as_ssz_bytes l))%nat) as Hlx
    by exact (length_pair_var (incomplete_fields x) eq_refl eq_refl).
  change (as_ssz_bytes (Incomplete x)) with (INCOMPLETE_BATCH_TYPE :: as_ssz_bytes x). split.
  - change (batch_data_from_ssz_bytes (INCOMPLETE_BATCH_TYPE :: as_ssz_bytes x)) with
      (y ← from_ssz_bytes (as_ssz_bytes x); Ok (Incomplete y)).
    rewrite (ssz_roundtrip (SszLawful := incomplete_lawful) x); [done|]. split_and!.
    + apply Forall_forall. intros t Ht. destruct (Hsub t Ht). unfold subtree_typed, u64_ok in *. lia.
    + apply Forall_forall. intros p Hp. destruct (Hge p Hp). unfold u64_ok. lia.
    + unfold u32_max. lia.
  - unfold blen. cbn [length]. lia.
Qed.

Lemma batch_data_append_app (d : EntryBatchData) buf : ssz_append d buf = buf ++ as_ssz_bytes d.
Proof. destruct d; unfold as_ssz_bytes; cbn; unfold batch_data_ssz_append; cbn [app]; by rewrite <- ?app_assoc. Qed.

#[local] Instance batch_data_lawful : SszLawful EntryBatchData (λ d, data_ok d ∧ subtrees_typed d).
Proof.
  split; [done|done|intros; apply batch_data_append_app|done|]. intros d [Hd Hs]. by apply batch_data_ssz.
Qed.

Section roundtrip.
Context `{Bitmap64 B, !Bitmap64Laws B}.
Implicit Types (self : EntryBatch B).

#[local] Instance bitmap_lawful : SszLawful B (λ _, True).
Proof.
  split; [done|done|done|done|]. intros b _.
  change (from_ssz_bytes (as_ssz_bytes b)) with
    (v ← (from_ssz_bytes (T := u64) (as_ssz_bytes (into_value b : u64)) : outcome Z); Ok (from_value v : B)).
  rewrite (ssz_roundtrip (T := u64) (into_value b)) by apply bm_value_bound. rewrite bind_Ok. by rewrite bm_from_value.
Qed.

Lemma length_seal_info (si : SealInfo B) : length (as_ssz_bytes si) = (52 + length (as_ssz_bytes (seal_contexts si)))%nat.
Proof.
  change (length (container_append [field_of (bitmap si); field_of (load_index si : u64); field_of (si_miner_id si);
    field_of (seal_contexts si)] []) = (52 + length (as_ssz_bytes (seal_contexts si)))%nat).
  rewrite length_container by (repeat constructor; apply field_of_ok). rewrite !var_part_cons. cbn [fld_fixed field_of enc_fixed].
  rewrite fbytes_field_of. cbn [enc_fixed bitmap_encode u64_encode uint_encode h256_encode vec_encode var_part].
  unfold var_part. cbn [filter list_filter fmap list_fmap concat]. rewrite app_nil_r. done.
Qed.

Lemma seal_info_lawful :
  SszLawful (SealInfo B) (λ si, u64_ok (load_index si) ∧ Forall (λ c, 0 ≤ end_seal_index c < 2 ^ 16) (seal_contexts si) ∧
    (length (as_ssz_bytes si) < u32_max)%nat).
Proof.
  pose proof (encode_as_lawful (seal_info_fields (B := B)) seal_info_make ltac:(by intros [])) as [H1 H2 H3 H4 H5].
  split; [exact H1|exact H2|exact H3|exact H4|]. intros si (Hl & Hc & Hlen). apply H5. pose proof (length_seal_info si) as Heq.
  split; [exact I|]. split; [exact Hl|]. split; [exact I|]. split; [|exact Hlen]. split; [exact Hc|cbn [seal_info_fields fst snd]; lia].
Qed.

#[local] Existing Instance seal_info_lawful.

Lemma entry_batch_ssz G miner self :
  batch_ok G miner self → u64_ok (load_index (eb_seal self)) → subtrees_typed (eb_data self) →
  from_ssz_bytes (as_ssz_bytes self) = Ok self.
Proof.
  intros [Hd [[Hinc Hfrom] _ _] _] Hl Hsub. destruct (batch_data_ssz (eb_data self) Hd Hsub) as [_ Hsize].
  assert (Z.of_nat (length (seal_contexts (eb_seal self))) ≤ 64) as Hn.
  { enough (Z.of_nat (length (seal_contexts (eb_seal self))) ≤ Z.max 0 (65 - 1)) by lia.
    apply (increasing_length end_seal_index); [done|]. intros c Hc. destruct (Hfrom c Hc). lia. }
  pose proof (encode_as_lawful (entry_batch_fields (B := B)) entry_batch_make ltac:(by intros [])) as [_ _ _ _ H5].
  pose proof (length_seal_info (eb_seal self)) as Hsi.
  assert (length (as_ssz_bytes (seal_contexts (eb_seal self))) = (34 * length (seal_contexts (eb_seal self)))%nat) as Hcs
    by exact (length_vec_fixed (seal_contexts (eb_seal self)) eq_refl).
  assert (length (as_ssz_bytes self) = (8 + length (as_ssz_bytes (eb_seal self)) + length (as_ssz_bytes (eb_data self)))%nat) as Heq
    by exact (length_pair_var (entry_batch_fields self) eq_refl eq_refl).
  unfold blen in Hsize. apply H5. split; [split; [exact Hl|split]|split; [by split|]].
  - apply Forall_forall. intros c Hc. destruct (Hfrom c Hc). lia.
  - unfold u32_max. cbn [entry_batch_fields fst]. lia.
  - unfold u32_max. change (length (as_ssz_bytes self) < Z.to_nat (2 ^ 32))%nat. lia.
Qed.

End roundtrip.
