(* ===== verification/BatchRoot.v ===== *)
(** The Merkle root of a batch: [build_root] builds a tree from the known
    sectors and the roots of the subtrees that are not known, and returns the
    root of the batch exactly if together they cover it. *)

From stdpp Require Import sorting list_numbers.
From S2P Require Import Prelude HashElement Shard SharedTypes Seal ChunkData ChunkDataFacts ChunkDataInsert.
From S2P Require Import SealInfo EntryBatch EntryBatchFacts.
From S2P Require Import MerkleSpec MerkleProof MerkleProofComplete NodeStore AppendMerkle TreeRules Recompute TreeOps TreeFill.
From S2P Require Import TreeHistory TreeRefine TreeSpec.
Local Open Scope Z_scope.

(** ** The leaves of sectors *)

Lemma chunks_exact_spec fuel data n :
  length data = (256 * n)%nat → (length data ≤ fuel)%nat →
  length (chunks_exact fuel data) = n ∧
  ∀ k, (k < n)%nat → chunks_exact fuel data !! k = Some (take 256 (drop (256 * k) data)).
Proof.
  revert data n. induction fuel as [|fuel IH]; intros data n Hl Hf.
  { assert (n = 0%nat) as -> by lia. split; [done|lia]. }
  cbn [chunks_exact]. change CHUNK_SIZE with 256. destruct n as [|n].
  { rewrite (proj2 (Z.ltb_lt _ _)) by lia. split; [done|lia]. }
  rewrite (proj2 (Z.ltb_ge _ _)) by lia.
  destruct (IH (drop 256 data) n) as [Hlen Hlk]; [rewrite length_drop; lia..|].
  split; [cbn; lia|]. intros [|k] Hk; [by rewrite drop_0|]. cbn. rewrite Hlk by lia. rewrite drop_drop.
  do 3 f_equal. lia.
Qed.

Section root.
Context `{Keccak, Bitmap64 B, !Bitmap64Laws B}.
Context {NM : Type} `{!NodeStore NM OptionalHash, !NodeStoreLaws NM OptionalHash}.
Context (G : Z → SealContextInfo) (HG : context_map G) (miner : H256).
Implicit Types (self : EntryBatch B) (F : list OptionalHash) (t : AppendMerkleTree NM OptionalHash).

(** The plain bytes of a sector. *)
Definition sector self (i : Z) : option (list Z) := read_range (plain self) (i * 256) 256.

(** Subtrees from sector [from] on: aligned, disjoint, and with the roots of
    their part of the leaves [F]. *)
Fixpoint subtrees_at F (from : Z) (l : list Subtree) : Prop :=
  match l with
  | [] => from ≤ 1024
  | s :: l' =>
      from ≤ st_start_sector s ∧ 1 ≤ subtree_height s ≤ 11 ∧
      st_start_sector s `mod` 2 ^ (subtree_height s - 1) = 0 ∧
      subtree_of (E := OptionalHash) 0 (Z.to_nat (subtree_height s - 1)) (Some (st_root s))
        (take (Z.to_nat (2 ^ (subtree_height s - 1))) (drop (Z.to_nat (st_start_sector s)) F)) ∧
      subtrees_at F (end_sector s) l'
  end.

(** [F] are the leaves of the batch; the first [first] of them are given. *)
Record batch_leaves self (first : nat) F : Prop := {
  bl_len : length F = 1024%nat;
  bl_nonnull : Forall (λ x, x ≠ null) F;
  bl_first : (first ≤ 1)%nat;
  bl_given : ∀ i, (i < first)%nat → F !! i = Some (Some h256_zero) ∧ sector self (Z.of_nat i) = None;
  bl_known : ∀ i c, Z.of_nat first ≤ i < 1024 → sector self i = Some c → F !! Z.to_nat i = Some (Some (sha3_leaf c));
  bl_subtrees : subtrees_at F (Z.of_nat first) (get_subtree_list (eb_data self));
}.

(** Every sector from [from] on is known or in a subtree. *)
Definition covered self (from : Z) (l : list Subtree) : Prop :=
  ∀ i, from ≤ i < 1024 → is_Some (sector self i) ∨ ∃ s, s ∈ l ∧ st_start_sector s ≤ i < end_sector s.

Lemma subtrees_at_bound F from l s : subtrees_at F from l → s ∈ l → from ≤ st_start_sector s.
Proof.
  revert from. induction l as [|s' l IH]; intros from Hl Hs; [by apply elem_of_nil in Hs|].
  destruct Hl as (Hle & Hh & _ & _ & Hl). apply elem_of_cons in Hs as [->|Hs]; [done|].
  specialize (IH _ Hl Hs). unfold end_sector in IH. cbn in IH. unfold num_entries_of_node in IH.
  pose proof (Z.pow_nonneg 2 ((subtree_height s' - 1) `mod` 64)). lia.
Qed.

Lemma end_sector_subtree s :
  1 ≤ subtree_height s ≤ 11 → end_sector s = st_start_sector s + 2 ^ (subtree_height s - 1).
Proof. intros Hh. unfold end_sector. cbn. unfold num_entries_of_node. by rewrite Z.mod_small by lia. Qed.

(** The part of [F] after the first [n] leaves. *)
Lemma take_app_take F n m : (n ≤ m ≤ length F)%nat → take m F = take n F ++ take (m - n) (drop n F).
Proof.
  intros Hn. rewrite <- (take_drop n F) at 1. rewrite take_app_ge by (rewrite length_take; lia).
  rewrite length_take. f_equal. f_equal. lia.
Qed.

Lemma sectors_known self n m :
  0 ≤ n ≤ m → is_Some (read_range (plain self) (n * 256) ((m - n) * 256)) ↔ ∀ i, n ≤ i < m → is_Some (sector self i).
Proof.
  intros Hn. unfold sector. setoid_rewrite read_range_is_Some. split.
  - intros Hall i Hi j Hj. apply Hall. lia.
  - intros Hall j Hj. apply (Hall (j / 256)); Z.to_euclidean_division_equations; lia.
Qed.

Lemma merkle_leaves_of_sectors self first F n m data :
  batch_leaves self first F → Z.of_nat first ≤ n ≤ m → m ≤ 1024 →
  read_range (plain self) (n * 256) ((m - n) * 256) = Some data →
  data_to_merkle_leaves data = Ok (take (Z.to_nat (m - n)) (drop (Z.to_nat n) F)).
Proof.
  intros Hbl Hn Hm Hdata. pose proof (read_range_length _ _ _ _ Hdata ltac:(lia)) as Hlen.
  unfold data_to_merkle_leaves. rewrite Hlen, Z.mod_mul by lia. cbn [Z.eqb negb]. f_equal.
  destruct (chunks_exact_spec (length data) data (Z.to_nat (m - n))) as [Hcl Hck]; [unfold blen in Hlen; lia|done|].
  apply list_eq. intros k. rewrite list_lookup_fmap. destruct (decide (k < Z.to_nat (m - n))%nat) as [Hk|Hk].
  - rewrite Hck, lookup_take_lt, lookup_drop by done. cbn.
    rewrite <- (Nat2Z.id (Z.to_nat n + k)). symmetry. apply (bl_known _ _ _ Hbl); [lia|].
    unfold sector. rewrite (Nat2Z.inj_add _ k), Z2Nat.id by lia. replace ((n + Z.of_nat k) * 256) with (n * 256 + Z.of_nat k * 256) by lia.
    rewrite (read_range_slice _ _ _ _ (Z.of_nat k * 256) 256 Hdata) by lia. do 2 f_equal. f_equal. lia.
  - rewrite !(proj2 (lookup_ge_None _ _)); [done|rewrite length_take; lia|lia].
Qed.

(** ** The tree *)

Definition tree_of F n t : Prop :=
  leaf_height t = 0%nat ∧ ∃ a L, tree_inv 1 (take n F) a L t.

Lemma tree_of_leaves F n t : tree_of F n t → (n ≤ length F)%nat → leaves t = Ok n.
Proof.
  intros (_ & a & L & Hi) Hn. destruct (tree_inv_layers _ _ _ _ _ Hi) as (_ & _ & l & Hl & _ & Hlen).
  unfold leaves. rewrite (reads_len _ _ _ (rep_reads _ _ _ (ti_rep _ _ _ _ _ Hi)) _ _ Hl), Hlen, length_take.
  f_equal. lia.
Qed.

Lemma run_wp (m : M (AppendMerkleTree NM OptionalHash) ()) t (Q : AppendMerkleTree NM OptionalHash → Prop) :
  wp m (λ _ t', Q t') t → ∃ t', run m t = Ok t' ∧ Q t'.
Proof. intros (u & t' & Hm & HQ)%wp_run. exists t'. unfold run. by rewrite Hm. Qed.

Lemma append_known_spec self first F n m t :
  batch_ok G miner self → batch_leaves self first F → tree_of F n t →
  (first ≤ n)%nat → Z.of_nat n ≤ m ≤ 1024 →
  ((∀ i, Z.of_nat n ≤ i < m → is_Some (sector self i)) →
   ∃ t', append_known self m t = Ok (Some t') ∧ tree_of F (Z.to_nat m) t') ∧
  (¬ (∀ i, Z.of_nat n ≤ i < m → is_Some (sector self i)) → append_known self m t = Ok None).
Proof.
  intros Hok Hbl Ht Hf Hm. pose proof (bl_len _ _ _ Hbl) as HF. unfold append_known.
  rewrite (tree_of_leaves F n t) by (done || lia). rewrite bind_Ok.
  destruct (Z.eqb_spec (Z.of_nat n) m) as [Heq|Hne].
  { split; [|intros Hno; exfalso; apply Hno; intros i; lia]. intros _. exists t. split; [done|].
    by rewrite <- Heq, Nat2Z.id. }
  rewrite wrap64_small by lia. rewrite (get_unsealed_data_spec G HG miner), bind_Ok by (done || lia).
  pose proof (sectors_known self (Z.of_nat n) m ltac:(lia)) as Hk.
  destruct (read_range (plain self) (Z.of_nat n * 256) ((m - Z.of_nat n) * 256)) as [data|] eqn:Hdata.
  - split; [intros _|intros Hno; exfalso; apply Hno, Hk; done].
    rewrite (merkle_leaves_of_sectors self first F (Z.of_nat n) m data) by (done || lia). cbn [expect_ok]. rewrite bind_Ok.
    destruct Ht as (Hlh & a & L & Hi). rewrite Nat2Z.id.
    destruct (run_wp (append_list (take (Z.to_nat (m - Z.of_nat n)) (drop n F))) t (tree_of F (Z.to_nat m))) as (t' & -> & Ht').
    { eapply wp_mono; [apply (append_list_spec _ _ _ _ _ _ Hi)|].
      - apply Forall_take, Forall_drop, (bl_nonnull _ _ _ Hbl).
      - intros [] t' [(_ & _ & _ & Hlh') (L' & Hi' & _)]. split; [by rewrite Hlh'|].
        rewrite (take_app_take F n (Z.to_nat m)) by lia. replace (Z.to_nat m - n)%nat with (Z.to_nat (m - Z.of_nat n)) by lia.
        by eauto. }
    rewrite bind_Ok. by exists t'.
  - split; [intros Hall; exfalso; apply Hk in Hall as [? ?]; congruence|done].
Qed.

(** Appending the root of a subtree. *)
Lemma append_one_subtree self first F s from l t :
  batch_leaves self first F → subtrees_at F from (s :: l) → tree_of F (Z.to_nat (st_start_sector s)) t →
  0 ≤ st_start_sector s →
  st_start_sector s < end_sector s ≤ 1024 ∧
  ∃ t', run (append_subtree (Z.to_nat (subtree_height s)) (Some (st_root s))) t = Ok t' ∧
    tree_of F (Z.to_nat (end_sector s)) t'.
Proof.
  intros Hbl (_ & Hh & Hal & Hst & _) (Hlh & a & L & Hi) Hs. rewrite end_sector_subtree by done.
  set (k := subtree_height s - 1) in *. assert (0 < 2 ^ k) as Hk by (apply Z.pow_pos_nonneg; lia).
  pose proof (bl_len _ _ _ Hbl) as HF.
  pose proof (so_len _ _ _ _ Hst) as Hlen. rewrite length_take, length_drop, HF in Hlen.
  assert (Z.to_nat (2 ^ k) = (2 ^ Z.to_nat k)%nat) as Hpow by (rewrite Z2Nat.inj_pow by lia; done).
  pose proof (pow2_pos (Z.to_nat k)) as Hkp. split; [lia|].
  apply run_wp. replace (Z.to_nat (subtree_height s)) with (Z.to_nat k + 1)%nat by lia.
  eapply wp_mono; [eapply (append_subtree_spec _ _ _ _ _ _ _ _ Hi)|].
  - rewrite length_take, Nat.min_l, <- Hpow by lia. rewrite <- Z2Nat.inj_mod by lia. by rewrite Hal.
  - rewrite Hlh. exact Hst.
  - intros [] t' [(_ & _ & _ & Hlh') (L' & Hi' & _)]. split; [by rewrite Hlh'|].
    rewrite (take_app_take F (Z.to_nat (st_start_sector s))) by lia.
    replace (Z.to_nat (st_start_sector s + 2 ^ k) - Z.to_nat (st_start_sector s))%nat with (Z.to_nat (2 ^ k)) by lia.
    by eauto.
Qed.

(** What the first subtree leaves to cover. *)
Lemma covered_cons self F from s l :
  subtrees_at F from (s :: l) →
  covered self from (s :: l) ↔
  (∀ i, from ≤ i < Z.min 1024 (st_start_sector s) → is_Some (sector self i)) ∧ covered self (end_sector s) l.
Proof.
  intros (Hle & Hh & _ & _ & Hl). pose proof (end_sector_subtree s Hh) as He.
  pose proof (Z.pow_pos_nonneg 2 (subtree_height s - 1) ltac:(lia) ltac:(lia)).
  split.
  - intros Hc. split; intros i Hi.
    + destruct (Hc i ltac:(lia)) as [?|(s' & Hs' & Hb)]; [done|exfalso].
      apply elem_of_cons in Hs' as [->|Hs']; [lia|]. pose proof (subtrees_at_bound _ _ _ _ Hl Hs'). lia.
    + destruct (Hc i ltac:(lia)) as [?|(s' & Hs' & Hb)]; [by left|]. apply elem_of_cons in Hs' as [->|Hs']; [lia|].
      right. by exists s'.
  - intros [Hgap Hc] i Hi. destruct (decide (i < st_start_sector s)); [left; apply Hgap; lia|].
    destruct (decide (i < end_sector s)); [right; exists s; split; [by left|lia]|].
    destruct (Hc i ltac:(lia)) as [?|(s' & Hs' & Hr)]; [by left|right]. exists s'. split; [by right|done].
Qed.

(** The tree before the last known sectors: [covered] then only depends on
    the sectors after its [n'] leaves. *)
Definition appended self first F (from : Z) (l : list Subtree) (o : option (AppendMerkleTree NM OptionalHash)) : Prop :=
  match o with
  | None => ¬ covered self from l
  | Some t' => ∃ n', tree_of F n' t' ∧ (first ≤ n' ≤ 1024)%nat ∧
      (covered self from l ↔ ∀ i, Z.of_nat n' ≤ i < 1024 → is_Some (sector self i))
  end.

Lemma append_subtrees_spec self first F l n t :
  batch_ok G miner self → batch_leaves self first F → tree_of F n t → (first ≤ n)%nat →
  subtrees_at F (Z.of_nat n) l →
  ∃ o, append_subtrees self l t = Ok o ∧ appended self first F (Z.of_nat n) l o.
Proof.
  intros Hok Hbl. revert n t. induction l as [|s l IH]; intros n t Ht Hf Hl.
  { cbn in Hl. exists (Some t). split; [done|]. exists n. split_and!; [done|done|lia|]. unfold covered.
    setoid_rewrite elem_of_nil. split; intros Hc i Hi; [|by left; apply Hc].
    destruct (Hc i Hi) as [?|(? & [] & _)]; done. }
  pose proof Hl as (Hle & _ & _ & _ & Hl'). pose proof (covered_cons self _ _ _ _ Hl) as Hcov.
  assert (∀ t', tree_of F (Z.to_nat (st_start_sector s)) t' → st_start_sector s < end_sector s ≤ 1024) as Hb
    by (intros t' Ht'; by apply (append_one_subtree self first F s (Z.of_nat n) l t' Hbl Hl Ht' ltac:(lia))).
  assert (st_start_sector s ≤ 1024) as Hs.
  { destruct Hl as (_ & Hh & _ & Hst & _). pose proof (so_len _ _ _ _ Hst) as Hlen.
    rewrite length_take, length_drop, (bl_len _ _ _ Hbl) in Hlen.
    pose proof (pow2_pos (Z.to_nat (subtree_height s - 1))). lia. }
  rewrite Z.min_r in Hcov by lia. cbn [append_subtrees].
  destruct (append_known_spec self first F n (st_start_sector s) t Hok Hbl Ht Hf ltac:(lia)) as [Hyes Hno].
  destruct (decide (is_Some (read_range (plain self) (Z.of_nat n * 256) ((st_start_sector s - Z.of_nat n) * 256)))) as [Hgap|Hgap];
    rewrite (sectors_known self (Z.of_nat n) (st_start_sector s)) in Hgap by lia.
  - destruct (Hyes Hgap) as (t1 & -> & Ht1). rewrite bind_Ok.
    destruct (append_one_subtree self first F s (Z.of_nat n) l t1 Hbl Hl Ht1 ltac:(lia)) as (He & t2 & -> & Ht2).
    rewrite bind_Ok. destruct (IH _ t2 Ht2 ltac:(lia)) as (o & Ho & Happ); [by rewrite Z2Nat.id by lia|].
    exists o. split; [done|]. rewrite Z2Nat.id in Happ by lia.
    assert (covered self (Z.of_nat n) (s :: l) ↔ covered self (end_sector s) l) as Hiff by (rewrite Hcov; naive_solver).
    destruct o as [t'|]; cbn in *; [|by rewrite Hiff].
    destruct Happ as (n' & ? & ? & ?). exists n'. by rewrite Hiff.
  - rewrite (Hno Hgap), bind_Ok. exists None. split; [done|]. cbn. rewrite Hcov. naive_solver.
Qed.

Lemma fill_known_leaves_spec self first F n idx t :
  batch_ok G miner self → batch_leaves self first F → tree_of F 1024 t → (idx + n ≤ 1024)%nat →
  ∃ t', fill_known_leaves self n idx t = Ok t' ∧ tree_of F 1024 t'.
Proof.
  intros Hok Hbl. revert idx t. induction n as [|n IH]; intros idx t Ht Hn; [by exists t|].
  cbn [fill_known_leaves]. pose proof Ht as (Hlh & a & L & Hi). pose proof (bl_len _ _ _ Hbl) as HF.
  rewrite take_ge in Hi by lia. destruct (tree_inv_layers _ _ _ _ _ Hi) as (_ & _ & l & Hl & _ & Hlen).
  destruct (lookup_lt_is_Some_2 l idx) as [z Hz]; [lia|].
  rewrite (leaf_at_rep t false L l idx z (ti_rep _ _ _ _ _ Hi) Hl Hz), bind_Ok.
  destruct (is_null z); [|by rewrite bind_Ok; apply IH; [done|lia]].
  rewrite (get_unsealed_data_spec G HG miner) by (done || lia). rewrite bind_Ok. change (1 * 256) with 256.
  fold (sector self (Z.of_nat idx)). destruct (sector self (Z.of_nat idx)) as [c|] eqn:Hc;
    [|rewrite bind_Ok; apply IH; [done|lia]].
  assert (F !! idx = Some (Some (sha3_leaf c))) as HFi.
  { destruct (decide (idx < first)%nat) as [Hlt|Hge].
    - destruct (bl_given _ _ _ Hbl idx Hlt) as [_ Hnone]. congruence.
    - rewrite <- (Nat2Z.id idx). apply (bl_known _ _ _ Hbl); [lia|done]. }
  destruct (run_wp (fill_leaf idx (Some (sha3_leaf c))) t (tree_of F 1024)) as (t' & -> & Ht').
  { eapply wp_mono; [apply (fill_leaf_spec _ _ _ _ _ _ _ Hi HFi)|].
    intros [] t' [(_ & _ & _ & Hlh') (L' & l' & Hi' & _)]. split; [by rewrite Hlh'|]. rewrite take_ge by lia. by eauto. }
  rewrite bind_Ok. apply IH; [done|lia].
Qed.

Lemma to_merkle_tree_spec self (is_first : bool) F :
  let first := if is_first then 1%nat else 0%nat in
  batch_ok G miner self → batch_leaves self first F →
  ∃ o, to_merkle_tree self is_first = Ok o ∧
    match o with
    | Some t => tree_of F 1024 t ∧ covered self (Z.of_nat first) (get_subtree_list (eb_data self))
    | None => ¬ covered self (Z.of_nat first) (get_subtree_list (eb_data self))
    end.
Proof.
  intros first Hok Hbl. pose proof (bl_len _ _ _ Hbl) as HF. unfold to_merkle_tree.
  set (init := if is_first then [Some h256_zero] else []).
  assert (take first F = init) as Hinit.
  { destruct is_first; [|done]. destruct (bl_given _ _ _ Hbl 0 ltac:(cbn; lia)) as [Hzero _].
    destruct F as [|x F']; [done|]. cbn in Hzero |- *. injection Hzero as ->. done. }
  destruct (tree_new_spec (NM := NM) init 0) as (t & -> & Hlh & L & Hi & _).
  { destruct is_first; repeat constructor. done. }
  rewrite bind_Ok. cbn [log_leaves log_front] in Hi.
  assert (tree_of F first t) as Ht by (split; [done|]; rewrite Hinit; eauto).
  destruct (append_subtrees_spec self first F _ first t Hok Hbl Ht ltac:(lia) (bl_subtrees _ _ _ Hbl)) as (o & -> & Happ).
  rewrite bind_Ok. destruct o as [t1|]; [|by exists None].
  destruct Happ as (n' & Ht1 & Hn' & Hiff).
  destruct (append_known_spec self first F n' 1024 t1 Hok Hbl Ht1 ltac:(lia) ltac:(lia)) as [Hyes Hno].
  change SECTORS_PER_LOAD with 1024.
  destruct (decide (is_Some (read_range (plain self) (Z.of_nat n' * 256) ((1024 - Z.of_nat n') * 256)))) as [Hk|Hk];
    rewrite (sectors_known self (Z.of_nat n') 1024) in Hk by lia.
  - destruct (Hyes Hk) as (t2 & -> & Ht2). rewrite bind_Ok. change (Z.to_nat 1024) with 1024%nat in Ht2.
    rewrite (tree_of_leaves F 1024 t2) by (done || lia). rewrite bind_Ok.
    destruct (fill_known_leaves_spec self first F 1024 0 t2 Hok Hbl Ht2 ltac:(lia)) as (t3 & -> & Ht3).
    rewrite bind_Ok. exists (Some t3). split; [done|]. split; [done|by apply Hiff].
  - rewrite (Hno Hk), bind_Ok. exists None. split; [done|]. by rewrite Hiff.
Qed.

Lemma maybe_full_spec self first F :
  batch_ok G miner self → batch_leaves self first F →
  ∃ b, maybe_full self = Ok b ∧ (b = false → ¬ covered self (Z.of_nat first) (get_subtree_list (eb_data self))).
Proof.
  intros Hok Hbl. unfold maybe_full. destruct (eb_data self) as [data|d] eqn:Hd; [by exists true|].
  pose proof (bl_first _ _ _ Hbl) as Hf. pose proof (bl_subtrees _ _ _ Hbl) as Hsub. rewrite Hd in Hsub.
  change (SECTORS_PER_LOAD - 1) with 1023. change SECTORS_PER_LOAD with 1024.
  rewrite (get_unsealed_data_spec G HG miner), bind_Ok by (done || lia). change (1 * 256) with 256.
  fold (sector self 1023). destruct (sector self 1023) as [c|] eqn:Hs; [by exists true|].
  cbn [get_subtree_list] in *. set (l := subtrees d) in *.
  assert (∀ from l, subtrees_at F from l → from ≤ 1024 →
    ∀ s, s ∈ l → st_start_sector s ≤ 1023 < end_sector s → ∃ s', last l = Some s' ∧ end_sector s' = 1024) as Hlast.
  { clear -Hbl. intros from l. revert from. induction l as [|s' l IH]; intros from Hl Hfrom s Hs Hb; [by apply elem_of_nil in Hs|].
    pose proof Hl as (_ & Hh & _ & Hst & Hl'). pose proof (so_len _ _ _ _ Hst) as Hlen.
    rewrite length_take, length_drop, (bl_len _ _ _ Hbl) in Hlen.
    assert (Z.to_nat (2 ^ (subtree_height s' - 1)) = (2 ^ Z.to_nat (subtree_height s' - 1))%nat) as Hpow
      by (rewrite Z2Nat.inj_pow by lia; done).
    pose proof (pow2_pos (Z.to_nat (subtree_height s' - 1))).
    pose proof (end_sector_subtree s' Hh) as He.
    assert (end_sector s' ≤ 1024) by lia.
    apply elem_of_cons in Hs as [->|Hs].
    - destruct l as [|s'' l].
      + exists s'. split; [done|lia].
      + destruct Hl' as (? & Hh'' & _ & Hst'' & _). pose proof (so_len _ _ _ _ Hst'') as Hlen''.
        rewrite length_take, length_drop, (bl_len _ _ _ Hbl) in Hlen''.
        pose proof (pow2_pos (Z.to_nat (subtree_height s'' - 1))). lia.
    - destruct (IH _ Hl' ltac:(lia) s Hs Hb) as (s0 & Hs0 & He0). exists s0. split; [|done].
      destruct l; [by apply elem_of_nil in Hs|done]. }
  destruct (last l) as [s|] eqn:Hl.
  - exists (end_sector s =? 1024). split; [done|]. intros Hne%Z.eqb_neq Hc.
    destruct (Hc 1023 ltac:(lia)) as [[? ?]|(s' & Hs' & Hb)]; [congruence|].
    destruct (Hlast _ _ Hsub ltac:(lia) s' Hs' Hb) as (s0 & Hs0 & He). simplify_eq.
  - exists false. split; [done|]. intros _ Hc. destruct (Hc 1023 ltac:(lia)) as [[? ?]|(s' & Hs' & _)]; [congruence|].
    apply last_None in Hl. rewrite Hl in Hs'. by apply elem_of_nil in Hs'.
Qed.

Lemma build_root_spec self (is_first : bool) F :
  let first := if is_first then 1%nat else 0%nat in
  batch_ok G miner self → batch_leaves self first F →
  ∃ o, build_root self is_first = Ok o ∧
    (is_Some o ↔ covered self (Z.of_nat first) (get_subtree_list (eb_data self))) ∧
    ∀ r, o = Some r → ideal_root 0 1 F = Some (Some r).
Proof.
  intros first Hok Hbl. unfold build_root.
  destruct (maybe_full_spec self first F Hok Hbl) as (b & -> & Hb). rewrite bind_Ok.
  destruct b; cbn [negb]; [|exists None; split; [done|]; specialize (Hb eq_refl); split; [|done];
    split; [by intros []|done]].
  destruct (to_merkle_tree_spec self is_first F Hok Hbl) as (o & -> & Ho). rewrite bind_Ok.
  destruct o as [t|]; [|exists None; split; [done|]; split; [|done]; split; [by intros []|done]].
  destruct Ho as [(Hlh & a & L & Hi) Hc]. pose proof (bl_len _ _ _ Hbl) as HF. rewrite take_ge in Hi by lia.
  destruct Hi as [Hd Hr Hlok Hfr Ha]. rewrite Hlh in Hlok.
  destruct (reads_root t 0 1 F L a) as (r & Hrt & Hn & Hroot); [done| |done|done|done|by destruct F|].
  { rewrite <- Hlh. by eapply rep_reads. }
  exists r. split; [exact Hrt|]. destruct r as [r|]; [|done]. split; [by split|]. by intros r' [= <-].
Qed.

End root.
