(* ===== verification/BatchStored.v ===== *)
(** The batches of the store: what an insertion, a sealing and a truncation do
    to the subtrees and the leaves of a batch. *)

From stdpp Require Import sorting list_numbers.
From S2P Require Import Prelude HashElement MerkleSpec MerkleProof NodeStore AppendMerkle TreeOps.
From S2P Require Import Shard SharedTypes Seal ChunkData ChunkDataFacts ChunkDataInsert.
From S2P Require Import SealInfo EntryBatch EntryBatchFacts Serde BatchRoot BatchTheorems.
Local Open Scope Z_scope.

(** ** Subtrees *)

Lemma drain_subtrees_sublist all first idx rest us ue subs :
  (first ≤ idx)%nat → drain_subtrees all first idx rest us ue = Ok subs → subs `sublist_of` all.
Proof.
  revert idx. induction rest as [|s rest IH]; intros idx Hi; cbn [drain_subtrees]; [by intros [= <-]|].
  destruct (_ <? _); [done|]. destruct (_ <? _).
  - intros [= <-]. rewrite <- (take_drop first all) at 3. apply sublist_app; [done|].
    replace (drop idx all) with (drop (idx - first) (drop first all)) by (rewrite drop_drop; f_equal; lia).
    apply sublist_drop.
  - apply IH. lia.
Qed.

Lemma insert_subtrees d a data d' seals :
  batch_data_insert_data d a data = Ok (d', seals) → get_subtree_list d' `sublist_of` get_subtree_list d.
Proof.
  unfold batch_data_insert_data. destruct (negb _); [done|]. destruct (negb _); [done|]. destruct d as [all|x]; [done|].
  intros (k & _ & Hr)%bind_Ok_inv. apply bind_Ok_inv in Hr as (k2 & _ & Hr). case_bool_decide; [done|].
  apply bind_Ok_inv in Hr as (mp & _ & Hr). apply bind_Ok_inv in Hr as (mn & _ & Hr).
  apply bind_Ok_inv in Hr as (lu & _ & Hr). apply bind_Ok_inv in Hr as (subs & Hsubs & Hr).
  injection Hr as <- _. unfold remove_completed_subtrees in Hsubs.
  apply drain_subtrees_sublist in Hsubs; [|lia].
  destruct lu.1 as [|p []]; [done| |done]. destruct (_ && _); [apply sublist_nil_l|done].
Qed.

Lemma put_subtrees d a n v put w :
  batch_data_get_mut d a n = Ok (Some (v, put)) → get_subtree_list (put w) = get_subtree_list d.
Proof.
  unfold batch_data_get_mut. destruct (_ <? _); [done|]. destruct d as [data|x].
  - destruct (get_range _ _ _) as [v'|]; [|done]. cbn. by intros [= _ <-].
  - intros (r & _ & Hr)%bind_Ok_inv. destruct r as [k|]; [|done]. apply bind_Ok_inv in Hr as (p & _ & Hr).
    destruct (get_range _ _ _) as [v'|]; [|done]. cbn in Hr. by injection Hr as _ <-.
Qed.

Section subtrees.
Context `{Keccak}.
Implicit Types (F : list OptionalHash) (l : list Subtree) (s a b : Subtree).

(** Disjoint subtrees. *)
Lemma subtrees_at_disjoint F from l j k a b :
  subtrees_at F from l → l !! j = Some a → l !! k = Some b → (j < k)%nat → end_sector a ≤ st_start_sector b.
Proof.
  revert from j k. induction l as [|s l IH]; intros from j k Hl Ha Hb Hjk; [done|].
  destruct Hl as (_ & _ & _ & _ & Hl). destruct k as [|k]; [lia|]. destruct j as [|j].
  - cbn in Ha. injection Ha as ->. apply (subtrees_at_bound F _ l); [done|]. by eapply list_elem_of_lookup_2.
  - by apply (IH _ j k Hl Ha Hb); lia.
Qed.

Lemma subtree_nonempty s : 1 ≤ subtree_height s ≤ 11 → st_start_sector s < end_sector s.
Proof. intros Hh. rewrite end_sector_subtree by done. pose proof (Z.pow_pos_nonneg 2 (subtree_height s - 1)). lia. Qed.

Lemma subtrees_at_le F from l : subtrees_at F from l → from ≤ 1024.
Proof.
  revert from. induction l as [|s l IH]; intros from Hl; [done|]. destruct Hl as (Hle & Hh & _ & _ & Hl).
  specialize (IH _ Hl). pose proof (subtree_nonempty s Hh). lia.
Qed.

Lemma subtrees_at_mono F from from' l : subtrees_at F from l → from' ≤ from → subtrees_at F from' l.
Proof.
  destruct l as [|s l]; cbn; [lia|]. intros (Hle & Hl) Hf. split; [lia|done].
Qed.

Lemma subtrees_at_sublist F l l' from : l' `sublist_of` l → subtrees_at F from l → subtrees_at F from l'.
Proof.
  intros Hsub. revert from. induction Hsub as [|s l' l Hsub IH|s l' l Hsub IH]; intros from Hl; [done| |].
  - destruct Hl as (? & ? & ? & ? & Hl). cbn. split_and!; [done|lia|lia|done|done|]. by apply IH.
  - destruct Hl as (? & Hh & _ & _ & Hl). apply (subtrees_at_mono _ (end_sector s)); [by apply IH|].
    pose proof (subtree_nonempty s Hh). lia.
Qed.

(** Leaves that agree up to [t] have the same subtrees there. *)
Lemma subtrees_at_agree F F' from l t :
  subtrees_at F from l → (∀ s, s ∈ l → end_sector s ≤ t) → t ≤ 1024 → from ≤ 1024 → 0 ≤ from →
  (∀ i, (i < Z.to_nat t)%nat → F' !! i = F !! i) → subtrees_at F' from l.
Proof.
  intros Hl Hend Ht Hfrom H0 Hag. revert from Hl Hfrom H0. induction l as [|s l IH]; intros from Hl Hfrom H0; [done|].
  pose proof Hl as (Hle & Hh & Hal & Hst & Hl'). pose proof (subtrees_at_le _ _ _ Hl') as He.
  pose proof (subtree_nonempty s Hh) as Hne. pose proof (Hend s ltac:(left)) as Hes.
  cbn. split_and!; [done|lia|lia|done| |apply IH; [|done|lia|lia]; intros s' Hs'; apply Hend; by right].
  replace (take _ (drop _ F')) with (take (Z.to_nat (2 ^ (subtree_height s - 1))) (drop (Z.to_nat (st_start_sector s)) F));
    [done|].
  rewrite end_sector_subtree in Hes by done. apply list_eq. intros i.
  destruct (decide (i < Z.to_nat (2 ^ (subtree_height s - 1)))%nat) as [Hi|Hi].
  - rewrite !lookup_take_lt, !lookup_drop by done. symmetry. apply Hag. lia.
  - by rewrite !lookup_take_ge by lia.
Qed.

(** [truncate] keeps the subtrees before the cut. *)
Lemma truncate_subtrees F from d t d' :
  data_ok d → subtrees_at F from (get_subtree_list d) → batch_data_truncate d (t * 256) = Ok d' →
  get_subtree_list d' `sublist_of` get_subtree_list d ∧ ∀ s, s ∈ get_subtree_list d' → end_sector s ≤ t.
Proof.
  intros Hd Hl. unfold batch_data_truncate. change BYTES_PER_SECTOR with 256. rewrite Z.mod_mul, Z.div_mul by lia.
  cbn [Z.eqb negb]. destruct d as [data|x].
  { intros [= <-]. cbn. split; [done|]. by intros s ?%elem_of_nil. }
  destruct Hd as [_ Hinc]. cbn [get_subtree_list] in *. set (l := subtrees x) in *.
  intros (x' & Hx' & [= <-])%bind_Ok_inv. unfold incomplete_truncate in Hx'.
  apply bind_Ok_inv in Hx' as (r & _ & Hx'). apply bind_Ok_inv in Hx' as (kn & _ & Hx').
  apply bind_Ok_inv in Hx' as (r' & Hr' & [= <-]). cbn [get_subtree_list subtrees]. fold l in Hr' |- *.
  split; [destruct r'; apply sublist_take|].
  unfold find in Hr'. change (start_sector (A := Subtree)) with st_start_sector in Hr'.
  pose proof (binary_search_by_key_spec st_start_sector l t Hinc) as Hb.
  assert (∀ x a, l !! x = Some a → st_start_sector a ≤ t →
    ∀ s, s ∈ take x l → end_sector s ≤ t) as Hbelow.
  { intros k a Ha Hle s (j & Hj)%list_elem_of_lookup. apply lookup_take_Some in Hj as [Hj Hlt].
    pose proof (subtrees_at_disjoint F from l j k s a Hl Hj Ha Hlt). lia. }
  destruct (binary_search_by_key _ _ _) as [k|[|k]]; cbn in Hb.
  - apply bind_Ok_inv in Hr' as (a & Ha & Hr'). destruct Hb as (a' & Ha' & Hk).
    unfold expect in Ha. rewrite Ha' in Ha. injection Ha as <-.
    assert ((t <? end_sector a') = true) as Ht.
    { apply Z.ltb_lt. unfold end_sector. cbn. unfold num_entries_of_node.
      pose proof (Z.pow_pos_nonneg 2 ((subtree_height a' - 1) `mod` 64) ltac:(lia) ltac:(apply Z.mod_pos_bound; lia)). lia. }
    rewrite Ht in Hr'. injection Hr' as <-. apply (Hbelow k a'); [done|lia].
  - injection Hr' as <-. by intros s ?%elem_of_nil.
  - apply bind_Ok_inv in Hr' as (a & Ha & Hr'). unfold expect in Ha. destruct (l !! k) as [a'|] eqn:Ha'; [|done].
    injection Ha as <-. destruct Hb as (_ & Hlo & _). pose proof (Hlo k a' ltac:(lia) Ha') as Hlt.
    destruct (Z.ltb_spec t (end_sector a')); injection Hr' as <-; intros s Hs; [by apply (Hbelow k a'); [done|lia|]|].
    rewrite (take_S_r _ _ a') in Hs by done. apply elem_of_app in Hs as [Hs|Hs]; [apply (Hbelow k a'); [done|lia|done]|].
    apply list_elem_of_singleton in Hs as ->. lia.
Qed.

End subtrees.

(** ** Stored batches *)

(** The first sector of the flow is not stored; its leaf is given. *)
Definition given (b : Z) : nat := if b =? 0 then 1%nat else 0%nat.

(** The leaves of batch [b]. *)
Record leaves_ok (b : Z) (F : list OptionalHash) : Prop := {
  lo_len : length F = 1024%nat;
  lo_nonnull : Forall (λ x, x ≠ None) F;
  lo_given : ∀ i, (i < given b)%nat → F !! i = Some (Some h256_zero);
}.

Lemma given_le b : (given b ≤ 1)%nat.
Proof. unfold given. destruct (b =? 0); lia. Qed.

Section stored.
Context `{Keccak, Bitmap64 B, !Bitmap64Laws B}.
Context (G : Z → SealContextInfo) (HG : context_map G) (miner : H256).
Implicit Types (self : EntryBatch B) (F : list OptionalHash).

Record stored_ok (b : Z) F self : Prop := {
  st_ok : batch_ok G miner self;
  st_index : load_index (eb_seal self) = b;
  st_subtrees : subtrees_typed (eb_data self);
  st_leaves : batch_leaves self (given b) F;
}.

Lemma subtrees_typed_sublist d d' :
  get_subtree_list d' `sublist_of` get_subtree_list d → subtrees_typed d → subtrees_typed d'.
Proof.
  destruct d' as [|x']; [done|]. intros Hs%sublist_submseteq Hd. cbn. apply Forall_forall. intros t Ht.
  apply (elem_of_submseteq _ _ t Ht) in Hs. destruct d as [|x]; [by apply elem_of_nil in Hs|]. cbn in Hd. rewrite Forall_forall in Hd. by apply Hd.
Qed.

Lemma entry_batch_new_stored b F : leaves_ok b F → stored_ok b F (entry_batch_new b).
Proof.
  intros [Hlen Hnn Hg].
  assert (∀ i, 0 ≤ i < 1024 → sector (entry_batch_new (B := B) b) i = None) as Hnone.
  { intros i Hi. unfold sector. apply (read_range_None _ _ _ (i * 256)); [lia|].
    unfold plain, is_sealed. cbn. by rewrite bm_get_default by (Z.to_euclidean_division_equations; lia). }
  split; [apply entry_batch_new_ok|done|constructor|].
  pose proof (given_le b). split; [done|done|done| | |cbn; lia].
  - intros i Hi. split; [by apply Hg|]. apply Hnone. lia.
  - intros i c Hi Hc. rewrite Hnone in Hc by lia. done.
Qed.

(** Data whose sectors are those of the leaves from [off] on. *)
Definition authentic F (off : Z) (data : list Z) : Prop :=
  ∀ k, 0 ≤ k < blen data / 256 →
    F !! Z.to_nat (off + k) = Some (Some (sha3_leaf (take 256 (drop (Z.to_nat (k * 256)) data)))).

Lemma sector_put self self' off (data : list Z) i :
  0 ≤ off → blen data `mod` 256 = 0 → off + blen data / 256 ≤ 1024 →
  (∀ i, 0 ≤ i < 262144 → plain self' i = put_bytes (plain self) off data i) → 0 ≤ i < 1024 →
  sector self' i =
    if bool_decide (off ≤ i < off + blen data / 256)
    then Some (take 256 (drop (Z.to_nat ((i - off) * 256)) data)) else sector self i.
Proof.
  intros Hoff Hm Hb Hp Hi. pose proof (Z.div_mod (blen data) 256 ltac:(lia)) as Hlen.
  unfold sector. rewrite (read_range_ext _ (put_bytes (plain self) off data)) by (intros j Hj; apply Hp; lia).
  case_bool_decide as Hr.
  - pose proof (read_put_bytes (plain self) off data) as Hread.
    pose proof (read_range_slice _ _ _ _ ((i - off) * 256) 256 Hread ltac:(lia) ltac:(lia) ltac:(lia)) as Hs.
    replace (off * 256 + (i - off) * 256) with (i * 256) in Hs by lia. done.
  - apply read_range_ext. intros j Hj. unfold put_bytes. rewrite bool_decide_false; [done|].
    intros Hin. apply Hr. lia.
Qed.

Lemma insert_stored b F self off data self' seals :
  stored_ok b F self → Z.of_nat (given b) ≤ off → blen data `mod` 256 = 0 → off + blen data / 256 ≤ 1024 →
  authentic F off data → insert_data self off data = Ok (self', seals) →
  stored_ok b F self' ∧ ∀ i, 0 ≤ i < 262144 → plain self' i = put_bytes (plain self) off data i.
Proof.
  intros [Hok Hidx Hsub Hl] Hoff Hm Hb Hau Hins.
  destruct (insert_ok_plain miner G self off data self' seals HG Hok ltac:(lia) Hm Hb Hins) as [Hok' Hp].
  assert (eb_seal self' = eb_seal self ∧ get_subtree_list (eb_data self') `sublist_of` get_subtree_list (eb_data self))
    as [Hseal Hsubs].
  { unfold insert_data in Hins. case_bool_decide; [by injection Hins as <- _|].
    apply bind_Ok_inv in Hins as (old & _ & Hins). case_bool_decide; [by injection Hins as <- _|].
    apply bind_Ok_inv in Hins as ([d' sl] & Hd' & Hins). injection Hins as <- _. split; [done|].
    by eapply insert_subtrees. }
  split; [|done]. destruct Hl as [Hlen Hnn Hf Hg Hk Hst].
  split; [done|by rewrite Hseal|by eapply subtrees_typed_sublist|]. split; [done|done|done| | |by eapply subtrees_at_sublist].
  - intros i Hi. destruct (Hg i Hi) as [HF Hs]. split; [done|].
    rewrite (sector_put self self' off data) by (done || lia). rewrite bool_decide_false by lia. done.
  - intros i c Hi. rewrite (sector_put self self' off data) by (done || lia). case_bool_decide as Hr; [|by apply Hk].
    intros [= <-]. replace i with (off + (i - off)) by lia.
    rewrite Hau by lia. by replace (off + (i - off) - off) with (i - off) by lia.
Qed.

(** Batches with the same plain bytes and subtrees have the same leaves. *)
Lemma same_plain_leaves b F self self' :
  (∀ i, 0 ≤ i < 262144 → plain self' i = plain self i) →
  get_subtree_list (eb_data self') = get_subtree_list (eb_data self) →
  batch_leaves self (given b) F → batch_leaves self' (given b) F.
Proof.
  intros Hp Hs [Hlen Hnn Hf Hg Hk Hst].
  assert (∀ i, 0 ≤ i < 1024 → sector self' i = sector self i) as Hsec
    by (intros i Hi; apply read_range_ext; intros j Hj; apply Hp; lia).
  split; [done|done|done| | |by rewrite Hs].
  - intros i Hi. rewrite Hsec by lia. by apply Hg.
  - intros i c Hi. rewrite Hsec by lia. by apply Hk.
Qed.

Lemma submit_stored b F self s ans :
  stored_ok b F self → answer_ok G miner self s ans →
  ∃ self', submit_seal_result self ans = Ok self' ∧ stored_ok b F self' ∧
    (∀ s', 0 ≤ s' < 64 → is_seal_sealed self' s' = (if bool_decide (s' = s) then true else is_seal_sealed self s')) ∧
    ∀ i, 0 ≤ i < 262144 → plain self' i = plain self i.
Proof.
  intros [Hok Hidx Hsub Hl] Hans.
  destruct (submit_seal_result_spec G HG miner self s ans Hok Hans) as (self' & Hr & Hok' & Hbits & Hp & Hli).
  assert (get_subtree_list (eb_data self') = get_subtree_list (eb_data self)) as Hs.
  { unfold submit_seal_result in Hr. destruct (is_sealed _ _); [done|]. destruct (negb _); [done|].
    apply bind_Ok_inv in Hr as (si & _ & Hr). apply bind_Ok_inv in Hr as ([[v put]|] & Hput & Hr); [|done].
    cbn [expect] in Hr. rewrite bind_Ok in Hr. case_bool_decide; [|done]. injection Hr as <-. by eapply put_subtrees. }
  exists self'. split_and!; [done| |done|done]. split; [done|by rewrite Hli| |by eapply same_plain_leaves].
  eapply subtrees_typed_sublist; [|done]. by rewrite Hs.
Qed.

Lemma unseal_from_subtrees n si d t u d' seals :
  unseal_from n si d t u = Ok (d', seals) → get_subtree_list d' = get_subtree_list d.
Proof.
  revert d u d' seals. induction n as [|n IH]; intros d u d' seals; cbn [unseal_from]; [by intros [= <- _]|].
  destruct (negb _); [apply IH|]. intros ([[v put]|] & Hput & Hr)%bind_Ok_inv; [|done]. cbn [expect] in Hr.
  rewrite bind_Ok in Hr. apply bind_Ok_inv in Hr as (w & _ & Hr). apply bind_Ok_inv in Hr as ([d2 sl] & Hrec & Hr).
  injection Hr as <- _. rewrite (IH _ _ _ _ Hrec). by eapply put_subtrees.
Qed.

Lemma truncate_stored b F G' F' self t :
  stored_ok b F self → Z.of_nat (given b) ≤ t → 0 < t < 1024 → leaves_ok b F' →
  (∀ i, (i < Z.to_nat t)%nat → F' !! i = F !! i) → context_map G' →
  (∀ s, 0 ≤ s < 64 → end_seal_index (G s) ≤ t / 16 → G' s = G s) →
  ∃ self' seals, entry_batch_truncate self t = Ok (self', seals) ∧
    batch_ok G' miner self' ∧ load_index (eb_seal self') = b ∧ subtrees_typed (eb_data self') ∧
    batch_leaves self' (given b) F' ∧
    (∀ i, 0 ≤ i < 262144 → plain self' i = cut_bytes (plain self) t i) ∧
    (∀ s, s ∈ seals → 0 ≤ s < 64) ∧
    (∀ s, 0 ≤ s < 64 → s ∈ seals ↔
      s * 16 < t ∧ is_seal_sealed self s = true ∧ is_seal_sealed self' s = false) ∧
    ∀ s, 0 ≤ s < 64 → is_seal_sealed self' s = true → is_seal_sealed self s = true.
Proof.
  intros [Hok Hidx Hsub Hl] Hgt Ht [HFlen HFnn HFg] Hag HG' HGsame.
  destruct (entry_batch_truncate_spec G HG miner self t Hok Ht) as (self' & seals & Hr & Hok' & Hp & Hin & Hli & Hend & Hmono & Hrange).
  exists self', seals. pose proof Hl as [Hlen Hnn Hf Hg Hk Hst].
  assert (get_subtree_list (eb_data self') `sublist_of` get_subtree_list (eb_data self) ∧
          ∀ s, s ∈ get_subtree_list (eb_data self') → end_sector s ≤ t) as [Hsl Hse].
  { unfold entry_batch_truncate in Hr. destruct (_ && _); [|done]. apply bind_Ok_inv in Hr as (d1 & Hd1 & Hr).
    destruct (truncate_subtrees F _ _ t d1 (bk_data _ _ _ Hok) Hst Hd1) as [Hs1 Hs2].
    unfold truncate_seal in Hr. apply bind_Ok_inv in Hr as (fu & _ & Hr). apply bind_Ok_inv in Hr as ([d2 sl] & Hu & Hr).
    apply bind_Ok_inv in Hr as (si & _ & Hr). injection Hr as <- _. cbn [eb_data fst].
    apply unseal_from_subtrees in Hu. cbn [eb_data] in Hu. by rewrite Hu. }
  assert (∀ i c, 0 ≤ i < 1024 → sector self' i = Some c → i < t ∧ sector self i = Some c) as Hsec.
  { intros i c Hi Hc. destruct (decide (i < t)) as [Hlt|Hge].
    - split; [done|]. rewrite <- Hc. symmetry. apply read_range_ext. intros j Hj. rewrite Hp by lia.
      by rewrite bool_decide_true by lia.
    - exfalso. unfold sector in Hc. rewrite (read_range_None _ _ _ (i * 256)) in Hc; [done|lia|].
      rewrite Hp by lia. by rewrite bool_decide_false by lia. }
  split_and!; [done|by apply (batch_ok_change G miner G' self' (t / 16))|by rewrite Hli|by eapply subtrees_typed_sublist| |done|done|done|done].
  split; [done|done|done| | |].
  - intros i Hi. split; [by apply HFg|]. destruct (sector self' (Z.of_nat i)) as [c|] eqn:Hc; [exfalso|done].
    destruct (Hsec (Z.of_nat i) c ltac:(lia) Hc) as [_ Hc']. destruct (Hg i Hi). congruence.
  - intros i c Hi Hc. destruct (Hsec i c ltac:(lia) Hc) as [Hlt Hc']. rewrite Hag by lia. by apply Hk.
  - eapply (subtrees_at_agree F); [by eapply subtrees_at_sublist|done|lia|lia|lia|done].
Qed.

End stored.
