(* ===== verification/FlowStore.v ===== *)
(** The flow store, [node/storage/src/log_store/flow_store.rs], and first its seal
    tasks: [node/storage/src/log_store/seal_task_manager.rs].

    [BTreeMap<usize, u64>] is a [gmap] whose entries are visited in the order
    of the keys.  The clock is an argument of the operations that read it. *)

From stdpp Require Import sorting list_numbers.
From S2P Require Import Prelude HashElement Ssz MerkleProof NodeStore AppendMerkle ProofConvert Bytes FlowDb.
From S2P Require Import Shard SharedTypes Seal ChunkData SealInfo EntryBatch Serde.
Local Open Scope Z_scope.

(** ** Ordered maps *)

Definition key_le (x y : Z * Z) : Prop := x.1 ≤ y.1.

#[export] Instance key_le_dec : RelDecision key_le.
Proof. intros x y. unfold key_le. apply _. Defined.

(** [BTreeMap::iter] *)
Definition btree_iter (m : gmap Z Z) : list (Z * Z) := merge_sort key_le (map_to_list m).

(** [m.split_off(&k);]: what remains. *)
Definition btree_below (k : Z) (m : gmap Z Z) : gmap Z Z := filter (λ kv, kv.1 < k) m.

(** ** [SealTaskManager] *)

Record SealTaskManager := SealTaskManager_mk {
  to_seal_set : gmap Z Z;
  to_seal_version : Z;
  last_pull_time : Z;
}.

Definition set_to_seal_set (m : gmap Z Z) (self : SealTaskManager) : SealTaskManager :=
  SealTaskManager_mk m (to_seal_version self) (last_pull_time self).

Definition SEAL_TASK_PULL_TIMEOUT_SECONDS : Z := 300.

(** [default()] *)
Definition seal_manager_default (now : Z) : SealTaskManager := SealTaskManager_mk ∅ 0 now.

Definition tasks_delete_batch_list (batch_list : list Z) (self : SealTaskManager) : SealTaskManager :=
  set_to_seal_set
    (foldl (λ m batch_index,
       foldl (λ m seal_index, delete seal_index m) m
         (seqZ (batch_index * SEALS_PER_LOAD) ((batch_index + 1) * SEALS_PER_LOAD - batch_index * SEALS_PER_LOAD)))
       (to_seal_set self) batch_list) self.

Definition update_pull_time (now : Z) (self : SealTaskManager) : SealTaskManager :=
  SealTaskManager_mk (to_seal_set self) (to_seal_version self) now.

Definition seal_worker_available (now : Z) (self : SealTaskManager) : bool :=
  Z.max 0 (now - last_pull_time self) <? SEAL_TASK_PULL_TIMEOUT_SECONDS.

Definition inc_seal_version (self : SealTaskManager) : Z * SealTaskManager :=
  (wrap64 (to_seal_version self + 1),
   SealTaskManager_mk (to_seal_set self) (wrap64 (to_seal_version self + 1)) (last_pull_time self)).

(** ** Facts *)

#[export] Instance key_le_trans : Transitive key_le.
Proof. intros x y z. unfold key_le. lia. Qed.

#[export] Instance key_le_total : Total key_le.
Proof. intros x y. unfold key_le. lia. Qed.

Lemma elem_of_btree_iter m k v : (k, v) ∈ btree_iter m ↔ m !! k = Some v.
Proof. unfold btree_iter. by rewrite merge_sort_Permutation, elem_of_map_to_list. Qed.

Lemma btree_iter_sorted m : StronglySorted key_le (btree_iter m).
Proof. apply (StronglySorted_merge_sort key_le). Qed.

Lemma btree_iter_NoDup m : NoDup (btree_iter m).*1.
Proof.
  unfold btree_iter. rewrite merge_sort_Permutation. apply NoDup_fst_map_to_list.
Qed.

Lemma btree_iter_nil m : btree_iter m = [] ↔ m = ∅.
Proof.
  split; [|by intros ->]. intros Hn. apply map_empty. intros k. apply eq_None_not_Some. intros [v Hv%elem_of_btree_iter].
  rewrite Hn in Hv. by apply elem_of_nil in Hv.
Qed.

(** The first entry has the least key. *)
Lemma btree_iter_least m k v rest :
  btree_iter m = (k, v) :: rest → m !! k = Some v ∧ ∀ k', is_Some (m !! k') → k ≤ k'.
Proof.
  intros Hm. split; [apply elem_of_btree_iter; rewrite Hm; by left|].
  intros k' [v' Hv'%elem_of_btree_iter]. pose proof (btree_iter_sorted m) as Hs. rewrite Hm in *.
  apply elem_of_cons in Hv' as [[= -> ->]|Hin]; [done|]. apply StronglySorted_inv in Hs as [_ Hall].
  rewrite Forall_forall in Hall. apply (Hall (k', v')). done.
Qed.

Lemma lookup_btree_below k m i : btree_below k m !! i = if bool_decide (i < k) then m !! i else None.
Proof.
  unfold btree_below. rewrite map_lookup_filter. destruct (m !! i) as [v|]; cbn.
  - case_guard; [by rewrite bool_decide_true|by rewrite bool_decide_false].
  - by case_bool_decide.
Qed.

Lemma lookup_delete_list (m : gmap Z Z) (l : list Z) i :
  foldl (λ m k, delete k m) m l !! i = if bool_decide (i ∈ l) then None else m !! i.
Proof.
  revert m. induction l as [|k l IH]; intros m; [done|]. cbn [foldl]. rewrite IH.
  destruct (decide (i ∈ l)) as [Hin|Hin].
  - rewrite !bool_decide_true; [done|by right|done].
  - rewrite (bool_decide_false (i ∈ l)) by done. destruct (decide (i = k)) as [->|Hne].
    + rewrite lookup_delete_eq. rewrite bool_decide_true; [done|by left].
    + rewrite lookup_delete_ne by done. rewrite bool_decide_false; [done|]. by rewrite elem_of_cons; intros [?|?].
Qed.

Lemma lookup_tasks_delete self batch_list i :
  to_seal_set (tasks_delete_batch_list batch_list self) !! i =
    if bool_decide (i / 64 ∈ batch_list) then None else to_seal_set self !! i.
Proof.
  unfold tasks_delete_batch_list. cbn [to_seal_set set_to_seal_set]. generalize (to_seal_set self) as m.
  induction batch_list as [|b l IH]; intros m; [done|]. cbn [foldl]. rewrite IH, lookup_delete_list.
  change SEALS_PER_LOAD with 64. replace ((b + 1) * 64 - b * 64) with 64 by lia.
  assert (i ∈ seqZ (b * 64) 64 ↔ i / 64 = b) as Hiff by (rewrite elem_of_seqZ; Z.to_euclidean_division_equations; lia).
  destruct (decide (i / 64 ∈ l)) as [Hin|Hin].
  - rewrite !bool_decide_true; [done|by right|done].
  - rewrite (bool_decide_false (i / 64 ∈ l)) by done. rewrite (bool_decide_ext _ _ Hiff).
    destruct (decide (i / 64 = b)) as [He|Hne].
    + rewrite !bool_decide_true; [done|rewrite He; by left|done].
    + rewrite !bool_decide_false; [done|by rewrite elem_of_cons; intros [?|?]|done].
Qed.

(** * The store of the flow data: [FlowStore] and [FlowDBStore] of
    [node/storage/src/log_store/flow_store.rs].

    A batch is stored under its index; the seal tasks are kept in memory.  The
    clock is an argument of the operations that read it. *)

Definition COL_ENTRY_BATCH : nat := 1.
Definition COL_PAD_DATA_LIST : nat := 7.
Definition COL_PAD_DATA_SYNC_HEIGH : nat := 8.
Definition PORA_CHUNK_SIZE : Z := 1024.

Definition bytes_to_entries (size_bytes : Z) : Z :=
  if size_bytes `mod` 256 =? 0 then size_bytes / 256 else size_bytes / 256 + 1.

(** What the crate [kvdb] has besides reading and writing keys: the last key of
    a column, and the number of keys. *)
Class KeyValueIter (KV : Type) := {
  kv_last_key : KV → nat → outcome (option (list Z));
  kv_num_keys : KV → nat → outcome Z;
}.

(** ** Batches of an index range *)

(** The iterator [(first..end).step_by(batch_size)]. *)
Definition batch_iter (start end_ batch_size : Z) : outcome (list (Z * Z)) :=
  if batch_size =? 0 then Panic
  else
    let first := start / batch_size * batch_size in
    let n := if first <? end_ then (end_ - first + batch_size - 1) / batch_size else 0 in
    Ok ((λ k, let i := first + k * batch_size in
              (Z.max start i, Z.min end_ (wrap64 (i + batch_size)))) <$> seqZ 0 n).

Definition batch_iter_sharded (start end_ batch_size : Z) (shard_config : ShardConfig) : outcome (list (Z * Z)) :=
  l ← batch_iter start end_ batch_size;
  if bool_decide (l = []) then Ok []
  else if num_shard shard_config =? 0 then Panic
  else Ok (filter (λ se, (se.1 / batch_size) `mod` num_shard shard_config = shard_id shard_config) l).

Record PadPair := PadPair_mk { pad_start_index : Z; pad_data_size : Z }.

(** [derive(Encode, Decode)] of [PadPair] *)
Definition pad_pair_fields (self : PadPair) : u64 * u64 := (pad_start_index self, pad_data_size self).
Definition pad_pair_make (x : u64 * u64) : PadPair := PadPair_mk x.1 x.2.

#[export] Instance PadPair_encode : Encode PadPair := encode_as pad_pair_fields.
#[export] Instance PadPair_decode : Decode PadPair := decode_as pad_pair_make.

Record SealTask := SealTask_mk { task_seal_index : Z; task_version : Z; non_sealed_data : list Z }.

Record MineLoadChunk := MineLoadChunk_mk { loaded_chunk : list (list Z); availabilities : list bool }.

(** [default()] *)
Definition mine_load_chunk_default : MineLoadChunk :=
  MineLoadChunk_mk (replicate 64 (replicate (Z.to_nat BYTES_PER_SEAL) 0)) (replicate 64 false).

(** [itertools::chunk_by]: runs of items with the same key. *)
Fixpoint chunk_by {A} (key : A → Z) (l : list A) : list (Z * list A) :=
  match l with
  | [] => []
  | a :: l' =>
      match chunk_by key l' with
      | (k, g) :: rest => if key a =? k then (k, a :: g) :: rest else (key a, [a]) :: (k, g) :: rest
      | [] => [(key a, [a])]
      end
  end.

Section flow_db_store.
Context `{Keccak, Bitmap64 B, KeyValueDB KV, !KeyValueIter KV}.
Context {NM : Type} `{!NodeStore NM OptionalHash}.
Implicit Types (self kvdb : KV) (batch : EntryBatch B).

(** ** [FlowDBStore] *)

Definition batch_key (batch_index : Z) : list Z := to_be_bytes (Z.to_nat batch_index).

Definition put_batch_op (batch_index : Z) batch : DBOp :=
  Insert COL_ENTRY_BATCH (batch_key batch_index) (as_ssz_bytes batch).

(** The loop of [put_entry_batch_list]: the operations and the roots. *)
Fixpoint batch_list_roots (batch_list : list (Z * EntryBatch B)) : outcome (DBTransaction * list (Z * H256)) :=
  match batch_list with
  | [] => Ok ([], [])
  | (batch_index, batch) :: rest =>
      o ← build_root (NM := NM) batch (batch_index =? 0);
      r ← batch_list_roots rest;
      Ok (put_batch_op batch_index batch :: r.1,
          match o with Some root => (batch_index, root) :: r.2 | None => r.2 end)
  end.

Definition put_entry_batch_list (batch_list : list (Z * EntryBatch B)) : M KV (list (Z * H256)) :=
  r ← lift (batch_list_roots batch_list);
  _ ← kv_write r.1;
  mret r.2.

Definition put_entry_raw (batch_list : list (Z * EntryBatch B)) : M KV () :=
  kv_write ((λ p, put_batch_op p.1 p.2) <$> batch_list).

Definition get_entry_batch self (batch_index : Z) : outcome (option (EntryBatch B)) :=
  o ← kv_get self COL_ENTRY_BATCH (batch_key batch_index);
  match o with
  | None => Ok None
  | Some raw => b ← from_ssz_bytes raw; Ok (Some b)
  end.

Definition decode_batch_index (data : list Z) : outcome Z :=
  n ← try_decode_usize data; Ok (Z.of_nat n).

(** The first batch of [truncate]: the operations and the seals to reseal. *)
Definition truncate_first_batch self (start_batch_index first_batch_offset : Z) :
    outcome (DBTransaction * list Z) :=
  o ← get_entry_batch self start_batch_index;
  match o with
  | None => Ok ([], [])
  | Some first_batch =>
      r ← entry_batch_truncate first_batch first_batch_offset;
      Ok ([if entry_batch_is_empty r.1 then Delete COL_ENTRY_BATCH (batch_key start_batch_index)
           else put_batch_op start_batch_index r.1],
          map (λ x, start_batch_index * SEALS_PER_LOAD + x) r.2)
  end.

Definition db_truncate (start_index batch_size : Z) : M KV (list Z) :=
  if batch_size =? 0 then panic
  else
    let start_batch_index := start_index / batch_size in
    let first_batch_offset := start_index `mod` batch_size in
    r ← gets_ok (λ self, if first_batch_offset =? 0 then Ok ([], [])
                         else truncate_first_batch self start_batch_index first_batch_offset);
    let start_batch_index := if first_batch_offset =? 0 then start_batch_index else start_batch_index + 1 in
    o ← gets_ok (λ self, kv_last_key self COL_ENTRY_BATCH);
    match o with
    | None => mret r.2
    | Some k =>
        end_ ← lift (decode_batch_index k);
        _ ← kv_write (r.1 ++ ((λ i, Delete COL_ENTRY_BATCH (batch_key i)) <$>
                                seqZ start_batch_index (end_ - start_batch_index + 1)));
        mret r.2
    end.

Definition db_delete_batch_list (batch_list : list Z) : M KV () :=
  kv_write ((λ i, Delete COL_ENTRY_BATCH (batch_key i)) <$> batch_list).

Definition db_put_pad_data (data_sizes : list PadPair) (tx_seq : Z) : M KV () :=
  kv_write [Insert COL_PAD_DATA_LIST (batch_key tx_seq) (concat (as_ssz_bytes <$> data_sizes))].

Definition db_get_pad_data self (tx_seq : Z) : outcome (option (list PadPair)) :=
  o ← kv_get self COL_PAD_DATA_LIST (batch_key tx_seq);
  match o with
  | Some v => l ← (from_ssz_bytes (T := list PadPair) v); Ok (Some l)
  | None => Ok None
  end.

(** [b"sync_height"] *)
Definition sync_height_key : list Z := [115; 121; 110; 99; 95; 104; 101; 105; 103; 104; 116].

Definition db_put_pad_data_sync_height (tx_seq : Z) : M KV () :=
  kv_write [Insert COL_PAD_DATA_SYNC_HEIGH sync_height_key (to_be_bytes (Z.to_nat tx_seq))].

Definition db_get_pad_data_sync_height self : outcome (option Z) :=
  o ← kv_get self COL_PAD_DATA_SYNC_HEIGH sync_height_key;
  match o with
  | Some v => n ← ok_or "TryFromSliceError" (from_be_bytes v); Ok (Some (Z.of_nat n))
  | None => Ok None
  end.

End flow_db_store.

(** ** [FlowStore] *)

Record FlowStore (KV : Type) := FlowStore_mk {
  flow_db : KV;
  data_db : KV;
  seal_manager : SealTaskManager;
  fs_batch_size : Z;
  fs_shard_config : ShardConfig;
}.
Arguments FlowStore_mk {KV} flow_db data_db seal_manager fs_batch_size fs_shard_config.
Arguments flow_db {KV} f.
Arguments data_db {KV} f.
Arguments seal_manager {KV} f.
Arguments fs_batch_size {KV} f.
Arguments fs_shard_config {KV} f.

Definition set_data_db {KV} (d : KV) (self : FlowStore KV) : FlowStore KV :=
  FlowStore_mk (flow_db self) d (seal_manager self) (fs_batch_size self) (fs_shard_config self).

Definition set_flow_db {KV} (d : KV) (self : FlowStore KV) : FlowStore KV :=
  FlowStore_mk d (data_db self) (seal_manager self) (fs_batch_size self) (fs_shard_config self).

Definition set_seal_manager {KV} (m : SealTaskManager) (self : FlowStore KV) : FlowStore KV :=
  FlowStore_mk (flow_db self) (data_db self) m (fs_batch_size self) (fs_shard_config self).

Definition modify_seal_set {KV} (f : gmap Z Z → gmap Z Z) : M (FlowStore KV) () :=
  modify (λ self, set_seal_manager (set_to_seal_set (f (to_seal_set (seal_manager self))) (seal_manager self)) self).

Section flow_store.
Context `{Keccak, Bitmap64 B, KeyValueDB KV, !KeyValueIter KV}.
Context {NM : Type} `{!NodeStore NM OptionalHash}.
Implicit Types (self : FlowStore KV) (batch : EntryBatch B).

Definition on_data_db {A} (m : M KV A) : M (FlowStore KV) A := zoom data_db set_data_db m.

Definition flow_store_new (flow_db data_db : KV) (batch_size : Z) (shard_config : ShardConfig) (now : Z) :
    FlowStore KV :=
  FlowStore_mk flow_db data_db (seal_manager_default now) batch_size shard_config.

(** [get_entry_batch(..)?.unwrap_or_else(|| EntryBatch::new(..))] *)
Definition load_batch (batch_index : Z) : M (FlowStore KV) (EntryBatch B) :=
  o ← gets_ok (λ self, get_entry_batch (data_db self) batch_index);
  mret (default (entry_batch_new batch_index) o).

Definition insert_subtree_list_for_batch (batch_index : Z) (subtree_list : list (Z * Z * H256)) :
    M (FlowStore KV) () :=
  batch ← load_batch batch_index;
  batch ← lift (entry_batch_set_subtree_list batch subtree_list);
  on_data_db (put_entry_raw [(batch_index, batch)]).

Definition gen_proof_in_batch self (batch_index sector_index : Z) : outcome (proof H256) :=
  o ← get_entry_batch (B := B) (data_db self) batch_index;
  batch ← ok_or "batch missing" o;
  o ← to_merkle_tree (NM := NM) batch (batch_index =? 0);
  merkle ← ok_or "batch data incomplete for building a merkle tree" o;
  optional_proof ← gen_proof merkle (Z.to_nat sector_index);
  convert_proof_to_h256 optional_proof.

Definition delete_batch_list (batch_list : list Z) : M (FlowStore KV) () :=
  _ ← modify (λ self, set_seal_manager (tasks_delete_batch_list batch_list (seal_manager self)) self);
  on_data_db (db_delete_batch_list batch_list).

(** ** [FlowRead] *)

(** The loop of [get_entries]: [Ok(None)] as soon as a part is missing. *)
Fixpoint collect_entries self (ranges : list (Z * Z)) : outcome (option (list Z)) :=
  match ranges with
  | [] => Ok (Some [])
  | (start_entry_index, end_entry_index) :: ranges' =>
      let chunk_index := start_entry_index / fs_batch_size self in
      let offset := start_entry_index - chunk_index * fs_batch_size self in
      let length := end_entry_index - start_entry_index in
      let first := (chunk_index =? 0) && (offset =? 0) in
      let offset := if first then 1 else offset in
      let length := if first then wrap64 (length - 1) else length in
      o ← get_entry_batch (B := B) (data_db self) chunk_index;
      match o with
      | None => Ok None
      | Some entry_batch =>
          o ← get_unsealed_data entry_batch offset length;
          match o with
          | None => Ok None
          | Some entry_batch_data =>
              o ← collect_entries self ranges';
              Ok (option_map (app entry_batch_data) o)
          end
      end
  end.

Definition get_entries self (index_start index_end : Z) : outcome (option ChunkArray) :=
  if index_end <=? index_start then Err "invalid entry index"
  else
    ranges ← batch_iter index_start index_end (fs_batch_size self);
    o ← collect_entries self ranges;
    Ok (option_map (λ data, ChunkArray_mk data index_start) o).

(** Appending the list of one batch, merged with the last entry if adjacent. *)
Definition merge_entries (entry_list data_list : list ChunkArray) : list ChunkArray :=
  match data_list, last entry_list with
  | first :: rest, Some prev =>
      if wrap64 (start_index prev + bytes_to_entries (blen (ca_data prev))) =? start_index first
      then take (length entry_list - 1) entry_list
             ++ ChunkArray_mk (ca_data prev ++ ca_data first) (start_index prev) :: rest
      else entry_list ++ data_list
  | _, _ => entry_list ++ data_list
  end.

Fixpoint collect_available self (ranges : list (Z * Z)) (entry_list : list ChunkArray) :
    outcome (list ChunkArray) :=
  match ranges with
  | [] => Ok entry_list
  | (start_entry_index, _) :: ranges' =>
      let chunk_index := start_entry_index / fs_batch_size self in
      o ← get_entry_batch (B := B) (data_db self) chunk_index;
      entry_list ← match o with
        | None => Ok entry_list
        | Some b => data_list ← into_data_list b start_entry_index; Ok (merge_entries entry_list data_list)
        end;
      collect_available self ranges' entry_list
  end.

Definition get_available_entries self (index_start index_end : Z) : outcome (list ChunkArray) :=
  if index_end <=? index_start then Err "invalid entry index"
  else if fs_batch_size self =? 0 then Panic
  else if negb (index_start `mod` fs_batch_size self =? 0) || negb (index_end `mod` fs_batch_size self =? 0)
  then Err "invalid entry index"
  else
    ranges ← batch_iter index_start index_end (fs_batch_size self);
    collect_available self ranges [].

(** [for (seal_index, (sealed, validity)) in ..] *)
Fixpoint load_seals batch (n : nat) (seal_index : Z) (chunk : MineLoadChunk) : outcome MineLoadChunk :=
  match n with
  | O => Ok chunk
  | S n' =>
      o ← get_sealed_data batch seal_index;
      let chunk := match o with
        | Some data => MineLoadChunk_mk (<[Z.to_nat seal_index := data]> (loaded_chunk chunk))
                         (<[Z.to_nat seal_index := true]> (availabilities chunk))
        | None => chunk
        end in
      load_seals batch n' (seal_index + 1) chunk
  end.

Definition load_sealed_data self (chunk_index : Z) : outcome (option MineLoadChunk) :=
  o ← get_entry_batch (B := B) (data_db self) chunk_index;
  match o with
  | None => Ok None
  | Some batch => chunk ← load_seals batch 64 0 mine_load_chunk_default; Ok (Some chunk)
  end.

Definition load_raw_data self (chunk_index length : Z) : outcome (option (EntryBatch B)) :=
  get_entry_batch (data_db self) chunk_index.

Definition get_num_entries self : outcome Z :=
  num_batches ← kv_num_keys (data_db self) COL_ENTRY_BATCH;
  Ok (wrap64 (num_batches * PORA_CHUNK_SIZE)).

(** ** [FlowWrite] *)

Definition add_seal_tasks batch (chunk_index : Z) : M (FlowStore KV) () :=
  for_each (seqZ 0 SEALS_PER_LOAD) (λ seal_index,
    when (negb (is_seal_sealed batch seal_index))
      (version ← gets (λ self, to_seal_version (seal_manager self));
       modify_seal_set (insert (chunk_index * SEALS_PER_LOAD + seal_index) version))).

(** One iteration of the loop of [append_entries]; [now] is the time. *)
Definition append_batch (data : ChunkArray) (now : Z → Z) (batch_list : list (Z * EntryBatch B)) (range : Z * Z) :
    M (FlowStore KV) (list (Z * EntryBatch B)) :=
  batch_size ← gets fs_batch_size;
  chunk ← lift (expect (sub_array data range.1 range.2));
  let chunk_index := start_index chunk / batch_size in
  config ← gets fs_shard_config;
  if num_shard config =? 0 then panic
  else if negb (in_range config chunk_index) then mret batch_list
  else
    batch ← load_batch chunk_index;
    r ← lift (insert_data batch (start_index chunk `mod` batch_size) (ca_data chunk));
    available ← gets (λ self, seal_worker_available (now chunk_index) (seal_manager self));
    _ ← when (available && is_complete r.1) (add_seal_tasks r.1 chunk_index);
    mret (batch_list ++ [(chunk_index, r.1)]).

Definition append_entries (data : ChunkArray) (now : Z → Z) : M (FlowStore KV) (list (Z * H256)) :=
  if negb (blen (ca_data data) `mod` BYTES_PER_SECTOR =? 0) then bail "append_entries: invalid data size"
  else
    batch_size ← gets fs_batch_size;
    ranges ← lift (batch_iter (start_index data)
      (wrap64 (start_index data + bytes_to_entries (blen (ca_data data)))) batch_size);
    batch_list ← fold_for ranges [] (append_batch data now);
    on_data_db (put_entry_batch_list (NM := NM) batch_list).

Definition truncate (start_index : Z) : M (FlowStore KV) () :=
  batch_size ← gets fs_batch_size;
  to_reseal ← on_data_db (db_truncate start_index batch_size);
  _ ← modify_seal_set (btree_below (start_index / SECTORS_PER_SEAL));
  version ← gets (λ self, (inc_seal_version (seal_manager self)).1);
  _ ← modify (λ self, set_seal_manager (inc_seal_version (seal_manager self)).2 self);
  for_each to_reseal (λ x, modify_seal_set (insert x version)).

Definition update_shard_config (shard_config : ShardConfig) : M (FlowStore KV) () :=
  modify (λ self, FlowStore_mk (flow_db self) (data_db self) (seal_manager self) (fs_batch_size self) shard_config).

(** The padding, by transaction, is in [flow_db]; the height in [data_db]. *)
Definition put_pad_data (data_sizes : list PadPair) (tx_seq : Z) :
    M (FlowStore KV) () :=
  zoom flow_db set_flow_db (db_put_pad_data data_sizes tx_seq).

Definition get_pad_data self (start_index : Z) :
    outcome (option (list PadPair)) :=
  db_get_pad_data (flow_db self) start_index.

Definition put_pad_data_sync_height (sync_index : Z) : M (FlowStore KV) () :=
  on_data_db (db_put_pad_data_sync_height sync_index).

Definition get_pad_data_sync_height self : outcome (option Z) := db_get_pad_data_sync_height (data_db self).

(** ** [FlowSeal] *)

Fixpoint seal_tasks batch (items : list (Z * Z)) : outcome (list SealTask) :=
  match items with
  | [] => Ok []
  | (seal_index, version) :: items' =>
      o ← get_non_sealed_data batch (seal_index `mod` SEALS_PER_LOAD);
      data ← expect o;
      rest ← seal_tasks batch items';
      Ok (SealTask_mk seal_index version data :: rest)
  end.

Definition pull_seal_chunk (seal_index_max now : Z) : M (FlowStore KV) (option (list SealTask)) :=
  items ← gets (λ self, btree_iter (to_seal_set (seal_manager self)));
  _ ← modify (λ self, set_seal_manager (update_pull_time now (seal_manager self)) self);
  match items with
  | [] => mret None
  | (first_index, first_version) :: to_seal_iter =>
      if seal_index_max <=? first_index then mret None
      else
        o ← gets_ok (λ self, get_entry_batch (B := B) (data_db self) (first_index / SEALS_PER_LOAD));
        batch_data ← lift (expect o);
        tasks ← lift (seal_tasks batch_data
          ((first_index, first_version) ::
             filter (λ x, first_index / SEALS_PER_LOAD = x.1 / SEALS_PER_LOAD ∧ x.1 < seal_index_max) to_seal_iter));
        mret (Some tasks)
  end.

Definition is_consistent (set : gmap Z Z) (answer : SealAnswer) : bool :=
  match set !! sa_seal_index answer with
  | Some cur_ver => cur_ver =? sa_version answer
  | None => false
  end.

Fixpoint submit_answers batch (answers : list SealAnswer) : outcome (EntryBatch B) :=
  match answers with
  | [] => Ok batch
  | a :: answers' => batch ← submit_seal_result batch a; submit_answers batch answers'
  end.

Definition submit_group (updated_chunk : list (Z * EntryBatch B)) (group : Z * list SealAnswer) :
    M (FlowStore KV) (list (Z * EntryBatch B)) :=
  o ← gets_ok (λ self, get_entry_batch (data_db self) group.1);
  batch_chunk ← lift (expect o);
  batch_chunk ← lift (submit_answers batch_chunk group.2);
  mret (updated_chunk ++ [(group.1, batch_chunk)]).

Definition flow_submit_seal_result (answers : list SealAnswer) : M (FlowStore KV) () :=
  set ← gets (λ self, to_seal_set (seal_manager self));
  let groups := chunk_by (λ a, sa_seal_index a / SEALS_PER_LOAD) (filter (λ a, is_consistent set a = true) answers) in
  updated_chunk ← fold_for groups [] submit_group;
  _ ← for_each (concat (map (λ g, map sa_seal_index g.2) groups)) (λ idx, modify_seal_set (delete idx));
  on_data_db (put_entry_raw updated_chunk).

End flow_store.
