(* ===== verification/FlowStoreFacts.v ===== *)
(** The facts on the flow store and on an in-memory data base for it.

    What the flow store holds: the bytes of the flow, batch by batch, in the
    data base; and what writing and deleting batches do to them. *)

From stdpp Require Import sorting list_numbers.
From S2P Require Import Prelude HashElement Ssz SszFacts MerkleSpec MerkleProof NodeStore AppendMerkle Bytes FlowDb.
From S2P Require Import Shard SharedTypes Seal ChunkData ChunkDataFacts ChunkDataInsert.
From S2P Require Import SealInfo EntryBatch EntryBatchFacts Serde BatchRoot BatchTheorems.
From S2P Require Import BatchStored FlowStore.
Local Open Scope Z_scope.

(** ** Keys *)

(** The order of keys as byte strings. *)
Fixpoint bytes_le (a b : list Z) : bool :=
  match a, b with
  | [], _ => true
  | _ :: _, [] => false
  | x :: a', y :: b' => (x <? y) || (x =? y) && bytes_le a' b'
  end.

(** The last key of a column in that order. *)
Class KeyValueIterLaws (KV : Type) `{KeyValueDBLaws KV, !KeyValueIter KV} :=
  kv_last_key_map : ∀ d c, ∃ o, kv_last_key d c = Ok o ∧
    match o with
    | None => ∀ k, kv_map d !! (c, k) = None
    | Some k => is_Some (kv_map d !! (c, k)) ∧ ∀ k', is_Some (kv_map d !! (c, k')) → bytes_le k' k = true
    end.

Lemma digits_bound l acc :
  Forall (λ b, 0 ≤ b < 256) l → 0 ≤ acc →
  acc * 256 ^ Z.of_nat (length l) ≤ foldl (λ acc b, acc * 256 + b) acc l < (acc + 1) * 256 ^ Z.of_nat (length l).
Proof.
  intros Hl. revert acc. induction Hl as [|b l Hb Hl IH]; intros acc Ha; cbn [foldl length]; [lia|].
  specialize (IH (acc * 256 + b) ltac:(lia)). rewrite Nat2Z.inj_succ, Z.pow_succ_r by lia.
  pose proof (Z.pow_pos_nonneg 256 (Z.of_nat (length l)) ltac:(lia) ltac:(lia)). nia.
Qed.

Lemma bytes_le_digits a b acc :
  length a = length b → Forall (λ b, 0 ≤ b < 256) a → Forall (λ b, 0 ≤ b < 256) b → 0 ≤ acc → bytes_le a b = true →
  foldl (λ acc b, acc * 256 + b) acc a ≤ foldl (λ acc b, acc * 256 + b) acc b.
Proof.
  intros Hlen Ha. revert b acc Hlen. induction Ha as [|x a Hx Ha IH]; intros [|y b] acc Hlen Hb Hacc Hle; try done.
  apply Forall_cons in Hb as [Hy Hb]. cbn [length] in Hlen. injection Hlen as Hlen. cbn [bytes_le foldl] in *.
  destruct (Z.ltb_spec x y) as [Hlt|Hge].
  - pose proof (digits_bound a (acc * 256 + x) Ha ltac:(lia)). pose proof (digits_bound b (acc * 256 + y) Hb ltac:(lia)).
    rewrite <- Hlen in *. pose proof (Z.pow_pos_nonneg 256 (Z.of_nat (length a)) ltac:(lia) ltac:(lia)). nia.
  - cbn in Hle. apply andb_true_iff in Hle as [->%Z.eqb_eq Hle]. apply IH; done || lia.
Qed.

Lemma batch_key_le a b :
  0 ≤ a < 2 ^ 64 → 0 ≤ b < 2 ^ 64 → bytes_le (batch_key a) (batch_key b) = true → a ≤ b.
Proof.
  intros Ha Hb Hle. unfold batch_key, to_be_bytes in Hle. rewrite !Z2Nat.id in Hle by lia.
  rewrite !(proj2 (Z.ltb_lt _ _)) in Hle by lia.
  assert (∀ z, Forall (λ b, 0 ≤ b < 256) (be_digit z <$> [7; 6; 5; 4; 3; 2; 1; 0]%nat)) as Hd.
  { intros z. apply Forall_fmap, Forall_true. intros i. unfold be_digit. cbn. by apply Z.mod_pos_bound. }
  apply (bytes_le_digits _ _ 0) in Hle; [|done|apply Hd|apply Hd|lia].
  change (from_digits (be_digit a <$> [7; 6; 5; 4; 3; 2; 1; 0]%nat) ≤ from_digits (be_digit b <$> [7; 6; 5; 4; 3; 2; 1; 0]%nat)) in Hle.
  by rewrite !from_digits_be in Hle by lia.
Qed.

Lemma batch_key_inj a b : 0 ≤ a → 0 ≤ b → batch_key a = batch_key b → a = b.
Proof. unfold batch_key. intros Ha Hb Heq%(inj _). lia. Qed.

Lemma decode_batch_key b : 0 ≤ b → decode_batch_index (batch_key b) = Ok b.
Proof.
  intros Hb. unfold decode_batch_index, batch_key. rewrite decode_usize, bind_Ok. by rewrite Z2Nat.id.
Qed.

(** ** Transactions with distinct keys *)

Lemma NoDup_fst_unique {A} (l : list (Z * A)) k a a' : NoDup l.*1 → (k, a) ∈ l → (k, a') ∈ l → a = a'.
Proof.
  intros Hnd (i & Hi)%list_elem_of_lookup (j & Hj)%list_elem_of_lookup.
  assert (i = j) as ->; [|congruence].
  eapply (NoDup_lookup l.*1); [done|by rewrite list_lookup_fmap, Hi|by rewrite list_lookup_fmap, Hj].
Qed.

Section flow_facts.
Context `{Keccak, Bitmap64 B, !Bitmap64Laws B, KeyValueDBLaws KV, !KeyValueIter KV, !KeyValueIterLaws KV}.
Context {NM : Type} `{!NodeStore NM OptionalHash, !NodeStoreLaws NM OptionalHash}.
Context (miner : H256).

(** The contexts of the seals and the leaves, by batch. *)
Implicit Types (GS : Z → Z → SealContextInfo) (LF : Z → list OptionalHash) (f : Z → option Z) (kv : KV).
Implicit Types (batch : EntryBatch B).

(** The batch at an index holds the bytes of [f]. *)
Definition holds GS LF f (b : Z) (o : option (EntryBatch B)) : Prop :=
  match o with
  | None => ∀ i, 0 ≤ i < 262144 → f (b * 262144 + i) = None
  | Some batch => stored_ok (GS b) miner b (LF b) batch ∧ ∀ i, 0 ≤ i < 262144 → plain batch i = f (b * 262144 + i)
  end.

Definition batch_index_ok (b : Z) : Prop := 0 ≤ b < 2 ^ 54.

Record db_ok GS LF f kv : Prop := {
  do_writable : kv_writable kv;
  do_contexts : ∀ b, context_map (GS b);
  do_leaves : ∀ b, batch_index_ok b → leaves_ok b (LF b);
  do_keys : ∀ k, is_Some (kv_map kv !! (COL_ENTRY_BATCH, k)) → ∃ b, batch_index_ok b ∧ k = batch_key b;
  do_batch : ∀ b, batch_index_ok b → ∃ o, get_entry_batch kv b = Ok o ∧ holds GS LF f b o;
}.

(** What a transaction writes: batches and deletions. *)
Definition batch_op (p : Z * option (EntryBatch B)) : DBOp :=
  match p.2 with
  | Some batch => put_batch_op p.1 batch
  | None => Delete COL_ENTRY_BATCH (batch_key p.1)
  end.

Lemma batch_op_key p : op_key (batch_op p) = (COL_ENTRY_BATCH, batch_key p.1).
Proof. unfold batch_op. by destruct p.2. Qed.

Lemma get_after_write kv kv' (l : list (Z * option (EntryBatch B))) b :
  kv_map kv' = foldl apply_op (kv_map kv) (batch_op <$> l) → NoDup l.*1 → (∀ b, b ∈ l.*1 → 0 ≤ b) → 0 ≤ b →
  kv_map kv' !! (COL_ENTRY_BATCH, batch_key b) =
    match list_find (λ p, p.1 = b) l with
    | Some (_, p) => op_value (batch_op p)
    | None => kv_map kv !! (COL_ENTRY_BATCH, batch_key b)
    end.
Proof.
  intros Hkv Hnd Hpos Hb. rewrite Hkv, lookup_apply_ops.
  assert (NoDup (op_key <$> (batch_op <$> l))) as Hnd'.
  { rewrite <- list_fmap_compose. apply NoDup_fmap_2_strong with (f := λ p, op_key (batch_op p)).
    - intros p q Hp Hq. rewrite !batch_op_key. intros [= Heq].
      apply batch_key_inj in Heq; [|apply Hpos; by apply list_elem_of_fmap_2..].
      destruct p as [p1 p2], q as [q1 q2]. cbn in Heq. subst q1. f_equal.
      by eapply (NoDup_fst_unique l).
    - by eapply NoDup_fmap_1. }
  destruct (list_find (λ p, p.1 = b) l) as [[k p]|] eqn:Hf.
  - apply list_find_Some in Hf as (Hp & <- & _). rewrite <- batch_op_key.
    rewrite pending_in; [done|done|]. apply list_elem_of_fmap_2. by eapply list_elem_of_lookup_2.
  - rewrite pending_notin; [done|]. apply list_find_None in Hf. rewrite <- list_fmap_compose.
    intros (p & Hk & Hp)%list_elem_of_fmap. cbn in Hk. rewrite batch_op_key in Hk. injection Hk as Hk.
    apply batch_key_inj in Hk; [|done|apply Hpos; by apply list_elem_of_fmap_2].
    rewrite Forall_forall in Hf. by apply (Hf p Hp).
Qed.

(** The batches after a write. *)
Definition after_write (kv : KV) (l : list (Z * option (EntryBatch B))) (b : Z) : outcome (option (EntryBatch B)) :=
  match list_find (λ p, p.1 = b) l with
  | Some (_, p) => Ok p.2
  | None => get_entry_batch kv b
  end.

Lemma holds_decodes GS LF f b batch :
  batch_index_ok b → holds GS LF f b (Some batch) →
  from_ssz_bytes (as_ssz_bytes batch) = Ok batch.
Proof.
  intros Hb [[Hok Hidx Hsub _] _]. eapply entry_batch_ssz; [done| |done]. unfold batch_index_ok, u64_ok in *. lia.
Qed.

Lemma key_after_write kv kv' (l : list (Z * option (EntryBatch B))) k :
  kv_map kv' = foldl apply_op (kv_map kv) (batch_op <$> l) →
  is_Some (kv_map kv' !! (COL_ENTRY_BATCH, k)) →
  (∃ b, b ∈ l.*1 ∧ k = batch_key b) ∨ is_Some (kv_map kv !! (COL_ENTRY_BATCH, k)).
Proof.
  intros Hkv. rewrite Hkv, lookup_apply_ops. destruct (decide ((COL_ENTRY_BATCH, k) ∈ op_key <$> (batch_op <$> l))) as [Hin|Hin].
  - intros _. left. rewrite <- list_fmap_compose in Hin. apply list_elem_of_fmap in Hin as (p & Hk & Hp). cbn in Hk.
    rewrite batch_op_key in Hk. injection Hk as ->. exists p.1. split; [by apply list_elem_of_fmap_2|done].
  - rewrite pending_notin by done. by right.
Qed.

Lemma db_write_spec GS GS' LF LF' f f' kv (l : list (Z * option (EntryBatch B))) :
  db_ok GS LF f kv → NoDup l.*1 →
  (∀ b o, (b, o) ∈ l → batch_index_ok b ∧ holds GS' LF' f' b o) →
  (∀ b o, batch_index_ok b → b ∉ l.*1 → get_entry_batch kv b = Ok o → holds GS LF f b o → holds GS' LF' f' b o) →
  (∀ b, context_map (GS' b)) → (∀ b, batch_index_ok b → leaves_ok b (LF' b)) →
  wp (kv_write (batch_op <$> l))
    (λ _ kv', db_ok GS' LF' f' kv' ∧ ∀ b, batch_index_ok b → get_entry_batch kv' b = after_write kv l b) kv.
Proof.
  intros Hdb Hnd Hnew Hold HG' HL'. destruct (kv_write_ok (batch_op <$> l) kv (do_writable _ _ _ _ Hdb)) as [Hok Hmap].
  unfold wp. destruct (kv_write _ kv) as [r kv'] eqn:Hw. cbn in Hok, Hmap. subst r.
  assert (∀ b, b ∈ l.*1 → batch_index_ok b) as Hidx.
  { intros b (p & -> & Hp)%list_elem_of_fmap. destruct p as [b o]. by apply (Hnew b o). }
  assert (∀ b, batch_index_ok b → get_entry_batch kv' b = after_write kv l b) as Hget.
  { intros b Hb. unfold get_entry_batch, after_write. rewrite kv_get_map, bind_Ok.
    rewrite (get_after_write kv kv' l b Hmap Hnd) by (done || (intros; by apply Hidx) || apply Hb).
    destruct (list_find _ l) as [[k p]|] eqn:Hf; [|unfold get_entry_batch; by rewrite kv_get_map].
    apply list_find_Some in Hf as (Hp & <- & _). apply list_elem_of_lookup_2 in Hp. destruct p as [b [batch|]]; [|done].
    cbn [op_value batch_op put_batch_op fst snd]. destruct (Hnew b (Some batch) Hp) as [_ Hh]. rewrite (holds_decodes GS' LF' f' b batch) by done. done. }
  split; [|done]. split; [|done|done| |].
  - change kv' with (Ok tt, kv').2. rewrite <- Hw. apply kv_writable_write, (do_writable _ _ _ _ Hdb).
  - intros k Hk. destruct (key_after_write kv kv' l k Hmap Hk) as [(b & Hb & ->)|Hk']; [|by apply (do_keys _ _ _ _ Hdb)].
    exists b. split; [by apply Hidx|done].
  - intros b Hb. rewrite Hget by done. unfold after_write. destruct (list_find _ l) as [[k p]|] eqn:Hf.
    + apply list_find_Some in Hf as (Hp & <- & _). apply list_elem_of_lookup_2 in Hp. destruct p as [b o].
      exists o. split; [done|]. by apply (Hnew b o).
    + apply list_find_None in Hf. destruct (do_batch _ _ _ _ Hdb b Hb) as (o & Ho & Hh). exists o. split; [done|].
      apply Hold; [done| |done|done]. intros (p & -> & Hp)%list_elem_of_fmap. rewrite Forall_forall in Hf. by apply (Hf p Hp).
Qed.

End flow_facts.

(** * Reading, appending and truncating the flow, across batches. *)

(** ** Batches of a range *)

Definition batch_range (start end_ b : Z) : Z * Z := (Z.max start (b * 1024), Z.min end_ ((b + 1) * 1024)).

Lemma batch_iter_spec start end_ :
  0 ≤ start < end_ → end_ ≤ 2 ^ 63 →
  batch_iter start end_ 1024 =
    Ok (batch_range start end_ <$> seqZ (start / 1024) ((end_ - 1) / 1024 - start / 1024 + 1)).
Proof.
  intros Hs He. unfold batch_iter. cbn [Z.eqb]. f_equal.
  rewrite (proj2 (Z.ltb_lt _ _)) by (Z.to_euclidean_division_equations; lia).
  replace ((end_ - start / 1024 * 1024 + 1024 - 1) / 1024) with ((end_ - 1) / 1024 - start / 1024 + 1)
    by (Z.to_euclidean_division_equations; lia).
  set (n := (end_ - 1) / 1024 - start / 1024 + 1). 
  replace (seqZ (start / 1024) n) with (Z.add (start / 1024) <$> seqZ 0 n) by (rewrite fmap_add_seqZ; f_equal; lia).
  rewrite <- list_fmap_compose. apply list_fmap_ext. intros i k Hk.
  apply lookup_seqZ in Hk as [-> Hi]. cbn. unfold batch_range. rewrite wrap64_small; [f_equal; f_equal; lia|].
  unfold n in Hi. Z.to_euclidean_division_equations; lia.
Qed.

Lemma read_range_app f a n m :
  0 ≤ n → 0 ≤ m →
  read_range f a (n + m) =
    match read_range f a n with
    | Some u => option_map (app u) (read_range f (a + n) m)
    | None => None
    end.
Proof.
  intros Hn Hm. destruct (read_range f a n) as [u|] eqn:Hu.
  - destruct (read_range f (a + n) m) as [v|] eqn:Hv; [by apply read_range_join|].
    apply eq_None_not_Some in Hv. apply eq_None_not_Some. rewrite read_range_is_Some in Hv |- *. intros Hall. apply Hv.
    intros i Hi. apply Hall. lia.
  - apply eq_None_not_Some in Hu. apply eq_None_not_Some. rewrite read_range_is_Some in Hu |- *. intros Hall. apply Hu.
    intros i Hi. apply Hall. lia.
Qed.

Lemma read_range_shift f a d n : read_range (λ i, f (d + i)) a n = read_range f (d + a) n.
Proof.
  unfold read_range. rewrite <- (fmap_add_seqZ d a). generalize (seqZ a n). intros l.
  induction l as [|x l IH]; [done|]. cbn. by rewrite IH.
Qed.

Section flow_ops.
Context `{Keccak, Bitmap64 B, !Bitmap64Laws B, KeyValueDBLaws KV, !KeyValueIter KV, !KeyValueIterLaws KV}.
Context {NM : Type} `{!NodeStore NM OptionalHash, !NodeStoreLaws NM OptionalHash}.
Context (miner : H256).
Implicit Types (GS : Z → Z → SealContextInfo) (LF : Z → list OptionalHash) (f : Z → option Z).
Implicit Types (self : FlowStore KV) (batch : EntryBatch B).

Record flow_ok GS LF f self : Prop := {
  fo_size : fs_batch_size self = 1024;
  fo_db : db_ok miner GS LF f (data_db self);
  fo_shard : num_shard (fs_shard_config self) ≠ 0;
}.

(** ** [get_entries] *)

(** The part of a read in one batch. *)
Lemma read_in_batch GS LF f b (o : option (EntryBatch B)) off len :
  (∀ b, context_map (GS b)) → holds miner GS LF f b o → 0 ≤ off → 0 < len → off + len ≤ 1024 →
  match o with
  | None => read_range f (b * 262144 + off * 256) (len * 256) = None
  | Some batch => get_unsealed_data batch off len = Ok (read_range f (b * 262144 + off * 256) (len * 256))
  end.
Proof.
  intros HG Hh Hoff Hlen Hb. destruct o as [batch|].
  - destruct Hh as [[Hok _ _ _] Hp]. rewrite (get_unsealed_data_spec (GS b) (HG b) miner) by done. f_equal.
    rewrite <- (read_range_shift f). apply read_range_ext. intros i Hi. apply Hp. lia.
  - apply (read_range_None _ _ _ (b * 262144 + off * 256)); [lia|]. apply Hh. lia.
Qed.

Lemma collect_entries_spec GS LF f self start end_ n b :
  flow_ok GS LF f self → 1 ≤ start < end_ → start / 1024 ≤ b → 0 ≤ n → (b + n) * 1024 < end_ → end_ ≤ 2 ^ 63 →
  collect_entries self (batch_range start end_ <$> seqZ b (n + 1)) =
    Ok (read_range f (Z.max start (b * 1024) * 256)
          ((Z.min end_ ((b + n + 1) * 1024) - Z.max start (b * 1024)) * 256)).
Proof.
  intros [Hsz Hdb] Hs Hb Hn He Hend. revert b Hb He. pattern n. revert n Hn. apply natlike_ind.
  2: intros n Hn IH.
  all: intros b Hb He; rewrite seqZ_cons by lia; cbn [fmap list_fmap collect_entries batch_range].
  all: rewrite Hsz; assert (Z.max start (b * 1024) / 1024 = b) as -> by (Z.to_euclidean_division_equations; lia).
  all: assert (((b =? 0) && (Z.max start (b * 1024) - b * 1024 =? 0)) = false) as ->
    by (destruct (Z.eqb_spec b 0); [apply Z.eqb_neq; Z.to_euclidean_division_equations; lia|done]).
  all: destruct (do_batch _ _ _ _ _ Hdb b ltac:(unfold batch_index_ok; Z.to_euclidean_division_equations; lia)) as (o & -> & Ho).
  all: rewrite bind_Ok.
  all: set (s := Z.max start (b * 1024)); set (e := Z.min end_ ((b + 1) * 1024)).
  all: pose proof (read_in_batch GS LF f b o (s - b * 1024) (e - s) (do_contexts _ _ _ _ _ Hdb) Ho ltac:(unfold s; lia)
    ltac:(unfold s, e; Z.to_euclidean_division_equations; lia) ltac:(unfold e; lia)) as Hread.
  all: replace (b * 262144 + (s - b * 1024) * 256) with (s * 256) in Hread by lia.
  - replace (b + 0 + 1) with (b + 1) by lia. fold e. destruct o as [batch|]; [|by rewrite Hread].
    rewrite Hread, bind_Ok. destruct (read_range f (s * 256) _); [|done].
    change (Z.pred (0 + 1)) with 0. rewrite seqZ_nil by lia. cbn. by rewrite app_nil_r.
  - specialize (IH (Z.succ b) ltac:(lia) ltac:(lia)). replace (Z.pred (Z.succ n + 1)) with (n + 1) by lia.
    replace (Z.max start (Z.succ b * 1024)) with e in IH by (unfold e; Z.to_euclidean_division_equations; lia).
    replace (Z.succ b + n + 1) with (b + Z.succ n + 1) in IH by lia.
    set (e2 := Z.min end_ ((b + Z.succ n + 1) * 1024)) in *.
    replace ((e2 - s) * 256) with ((e - s) * 256 + (e2 - e) * 256) by lia.
    rewrite read_range_app by (unfold e, e2, s; Z.to_euclidean_division_equations; lia).
    replace (s * 256 + (e - s) * 256) with (e * 256) by lia.
    destruct o as [batch|]; [|by rewrite Hread]. rewrite Hread, bind_Ok.
    destruct (read_range f (s * 256) ((e - s) * 256)); [|done]. by rewrite IH, bind_Ok.
Qed.

Lemma get_entries_spec GS LF f self start end_ :
  flow_ok GS LF f self → 1 ≤ start < end_ → end_ ≤ 2 ^ 63 →
  get_entries (B := B) self start end_ =
    Ok (option_map (λ data, ChunkArray_mk data start) (read_range f (start * 256) ((end_ - start) * 256))).
Proof.
  intros Hok Hs He. unfold get_entries. rewrite (proj2 (Z.leb_gt _ _)) by lia. rewrite (fo_size _ _ _ _ Hok).
  rewrite batch_iter_spec, bind_Ok by lia.
  rewrite (collect_entries_spec GS LF f) by (done || lia || Z.to_euclidean_division_equations; lia).
  rewrite bind_Ok. do 3 f_equal; Z.to_euclidean_division_equations; lia.
Qed.

End flow_ops.

(** * The last key of a column of the in-memory data base: the iteration that the
    stores of the flow rely on, implemented on the finite map of the model. *)

Abbreviation memory := (gmap (nat * list Z) (list Z)).

Definition bytes_leP (a b : list Z) : Prop := bytes_le a b = true.

#[export] Instance bytes_leP_dec : RelDecision bytes_leP.
Proof. intros a b. unfold bytes_leP. apply _. Defined.

Lemma bytes_le_refl a : bytes_le a a = true.
Proof. induction a as [|x a IH]; [done|]. cbn. by rewrite Z.ltb_irrefl, Z.eqb_refl. Qed.

#[export] Instance bytes_leP_trans : Transitive bytes_leP.
Proof.
  unfold bytes_leP. intros a. induction a as [|x a IH]; intros [|y b] [|z c]; try done. cbn.
  rewrite !orb_true_iff, !andb_true_iff, !Z.ltb_lt, !Z.eqb_eq.
  intros [|[-> ?]] [|[-> ?]]; [left; lia|by left|by left|right; split; [done|by apply (IH b)]].
Qed.

#[export] Instance bytes_leP_total : Total bytes_leP.
Proof.
  unfold bytes_leP. intros a. induction a as [|x a IH]; intros [|y b]; try by auto. cbn.
  rewrite !orb_true_iff, !andb_true_iff, !Z.ltb_lt, !Z.eqb_eq.
  destruct (Z.lt_trichotomy x y) as [|[->|]]; [auto| |auto]. destruct (IH b); auto.
Qed.

Definition column_keys (d : memory) (c : nat) : list (list Z) :=
  (λ p, p.1.2) <$> filter (λ p, p.1.1 = c) (map_to_list d).

Lemma elem_of_column_keys d c k : k ∈ column_keys d c ↔ is_Some (d !! (c, k)).
Proof.
  unfold column_keys. rewrite list_elem_of_fmap. setoid_rewrite list_elem_of_filter. split.
  - intros ([[c' k'] v] & -> & Hc & Hin). cbn in *. subst c'. apply elem_of_map_to_list in Hin. by exists v.
  - intros [v Hv]. exists ((c, k), v). split_and!; [done|done|]. by apply elem_of_map_to_list.
Qed.

#[export] Instance memory_iter : KeyValueIter memory := {|
  kv_last_key d c := Ok (last (merge_sort bytes_leP (column_keys d c)));
  kv_num_keys d c := Ok (Z.of_nat (length (column_keys d c)));
|}.

Lemma sorted_last l k : StronglySorted bytes_leP l → last l = Some k → ∀ k', k' ∈ l → bytes_le k' k = true.
Proof.
  induction 1 as [|x l Hs IH Hx]; [done|]. intros Hlast k' Hk'. destruct l as [|y l].
  - cbn in Hlast. injection Hlast as ->. apply list_elem_of_singleton in Hk' as ->. apply bytes_le_refl.
  - rewrite last_cons_cons in Hlast. apply elem_of_cons in Hk' as [->|Hk']; [|by apply IH].
    rewrite Forall_forall in Hx. apply Hx. by apply last_Some_elem_of.
Qed.

#[export] Instance memory_iter_laws : KeyValueIterLaws memory.
Proof.
  intros d c. eexists. split; [done|]. destruct (last _) as [k|] eqn:Hl.
  - pose proof (StronglySorted_merge_sort bytes_leP (column_keys d c)) as Hs. split.
    + apply (elem_of_column_keys d c k). apply last_Some_elem_of in Hl. by rewrite merge_sort_Permutation in Hl.
    + intros k' Hk'%elem_of_column_keys. apply (sorted_last _ _ Hs Hl). by rewrite merge_sort_Permutation.
  - intros k. apply eq_None_not_Some. intros Hk%elem_of_column_keys. apply last_None in Hl.
    pose proof (merge_sort_Permutation bytes_leP (column_keys d c)) as Hp. rewrite Hl in Hp.
    apply Permutation_nil_l in Hp. change (k ∈ column_keys d c) in Hk. rewrite <- Hp in Hk. by apply elem_of_nil in Hk.
Qed.
