(* ===== verification/FlowAppend.v ===== *)
(** [append_entries]: the batches it touches, the roots it returns and the
    seal tasks it adds. *)

From stdpp Require Import sorting list_numbers.
From S2P Require Import Prelude HashElement Ssz SszFacts MerkleSpec MerkleProof NodeStore AppendMerkle Bytes FlowDb.
From S2P Require Import Shard SharedTypes Seal ChunkData ChunkDataFacts ChunkDataInsert.
From S2P Require Import SealInfo EntryBatch EntryBatchFacts Serde BatchRoot BatchTheorems.
From S2P Require Import BatchStored FlowStore FlowStoreFacts.
Local Open Scope Z_scope.

(** ** Data of the flow *)

(** The bytes of [arr], by their position in the flow. *)
Definition array_byte (arr : ChunkArray) (x : Z) : option Z :=
  if x <? start_index arr * 256 then None else ca_data arr !! Z.to_nat (x - start_index arr * 256).

Definition in_array (arr : ChunkArray) (x : Z) : Prop :=
  start_index arr * 256 ≤ x < start_index arr * 256 + blen (ca_data arr).

#[export] Instance in_array_dec arr x : Decision (in_array arr x).
Proof. unfold in_array. apply _. Defined.

(** The flow with the part of [arr] that belongs to the shard. *)
Definition put_flow (config : ShardConfig) (arr : ChunkArray) (f : Z → option Z) (x : Z) : option Z :=
  if bool_decide (in_array arr x ∧ in_range config (x / 262144) = true) then array_byte arr x else f x.

Definition end_index (arr : ChunkArray) : Z := start_index arr + blen (ca_data arr) / 256.

(** Sorted lists. *)
Lemma StronglySorted_sublist {A} (R : relation A) l k :
  l `sublist_of` k → StronglySorted R k → StronglySorted R l.
Proof.
  induction 1 as [|x l k Hsub IH|x l k Hsub IH]; intros Hs; [constructor| |].
  - apply StronglySorted_inv in Hs as [Hs Hx]. constructor; [by apply IH|].
    rewrite Forall_forall in Hx |- *. intros y Hy. apply Hx. eapply elem_of_submseteq; [done|by apply sublist_submseteq].
  - apply IH. by apply StronglySorted_inv in Hs as [Hs _].
Qed.

Lemma StronglySorted_seqZ a n : StronglySorted Z.lt (seqZ a n).
Proof.
  destruct (Z.le_gt_cases 0 n) as [Hn|Hn]; [|rewrite seqZ_nil by lia; constructor].
  revert a. pattern n. revert n Hn. apply natlike_ind.
  - intros a. rewrite seqZ_nil by lia. constructor.
  - intros n Hn IH a. rewrite seqZ_cons by lia. constructor; [rewrite Z.pred_succ; apply IH|].
    apply Forall_forall. intros x Hx. apply elem_of_seqZ in Hx. lia.
Qed.

Section append.
Context `{Keccak, Bitmap64 B, !Bitmap64Laws B, KeyValueDBLaws KV, !KeyValueIter KV, !KeyValueIterLaws KV}.
Context {NM : Type} `{!NodeStore NM OptionalHash, !NodeStoreLaws NM OptionalHash}.
Context (miner : H256).
Implicit Types (GS : Z → Z → SealContextInfo) (LF : Z → list OptionalHash) (f : Z → option Z).
Implicit Types (self : FlowStore KV) (batch : EntryBatch B) (arr : ChunkArray).

(** Whole sectors with the leaves of the flow, after its first sector. *)
Record array_ok LF arr : Prop := {
  ao_start : 1 ≤ start_index arr;
  ao_nonempty : ca_data arr ≠ [];
  ao_sectors : blen (ca_data arr) `mod` 256 = 0;
  ao_end_index : end_index arr ≤ 2 ^ 63;
  ao_leaves : ∀ k, 0 ≤ k < blen (ca_data arr) / 256 →
    LF ((start_index arr + k) / 1024) !! Z.to_nat ((start_index arr + k) `mod` 1024) =
      Some (Some (sha3_leaf (take 256 (drop (Z.to_nat (k * 256)) (ca_data arr)))));
}.

(** Each batch of the shard holds all or nothing of its part of [arr]. *)
Definition insertable (config : ShardConfig) arr f : Prop :=
  ∀ b, in_range config b = true →
    (∀ x, in_array arr x → x / 262144 = b → f x = None) ∨
    (∀ x, in_array arr x → x / 262144 = b → f x = array_byte arr x).

Lemma array_blen LF arr :
  array_ok LF arr → blen (ca_data arr) = 256 * (end_index arr - start_index arr) ∧ start_index arr < end_index arr.
Proof.
  intros [_ Hne Hm _ _]. unfold end_index. pose proof (Z.div_mod (blen (ca_data arr)) 256 ltac:(lia)).
  assert (0 < blen (ca_data arr)) by (unfold blen; destruct (ca_data arr); [done|cbn; lia]). lia.
Qed.

(** The part of [arr] in batch [b]. *)
Definition part arr (b : Z) : list Z :=
  let '(s, e) := batch_range (start_index arr) (end_index arr) b in
  chunk_slice arr (s - start_index arr) (e - start_index arr).

Definition part_offset arr (b : Z) : Z := (batch_range (start_index arr) (end_index arr) b).1 - b * 1024.

Definition touched arr (b : Z) : Prop := start_index arr / 1024 ≤ b ≤ (end_index arr - 1) / 1024.

Lemma part_spec LF arr b :
  array_ok LF arr → touched arr b →
  let o := part_offset arr b in let n := blen (part arr b) in
  0 ≤ o ∧ Z.of_nat (given b) ≤ o ∧ part arr b ≠ [] ∧ n `mod` 256 = 0 ∧ o + n / 256 ≤ 1024 ∧
  (∀ i, 0 ≤ i < 262144 → o * 256 ≤ i < o * 256 + n ↔ in_array arr (b * 262144 + i)) ∧
  (∀ i, o * 256 ≤ i < o * 256 + n → part arr b !! Z.to_nat (i - o * 256) = array_byte arr (b * 262144 + i)) ∧
  authentic (LF b) o (part arr b).
Proof.
  intros Hao [Hlo Hhi]. destruct (array_blen LF arr Hao) as [Hlen Hlt]. destruct Hao as [Hs Hne Hm He Hl].
  set (a := start_index arr) in *. set (z := end_index arr) in *.
  set (s := Z.max a (b * 1024)). set (e := Z.min z ((b + 1) * 1024)).
  assert (a ≤ s < e ∧ e ≤ z ∧ b * 1024 ≤ s ∧ e ≤ (b + 1) * 1024) as Hse
    by (unfold s, e; Z.to_euclidean_division_equations; lia).
  assert (part arr b = take (Z.to_nat ((e - s) * 256)) (drop (Z.to_nat ((s - a) * 256)) (ca_data arr))) as Hp.
  { unfold part, batch_range, chunk_slice. fold a z s e. change CHUNK_SIZE with 256.
    by replace (e - a - (s - a)) with (e - s) by lia. }
  assert (blen (part arr b) = (e - s) * 256) as Hn.
  { rewrite Hp. unfold blen in *. rewrite length_take, length_drop. lia. }
  assert (part_offset arr b = s - b * 1024) as Ho by done.
  cbn zeta. rewrite Hn, Ho, Z.div_mul, Z.mod_mul by lia. split_and!; [lia| | |done|lia| | |].
  - unfold given. destruct (Z.eqb_spec b 0); lia.
  - intros Hnil. rewrite Hnil in Hn. unfold blen in Hn. cbn in Hn. lia.
  - intros i Hi. unfold in_array. fold a. unfold s, e in *. lia.
  - intros i Hi. rewrite Hp. rewrite lookup_take_lt, lookup_drop by lia. unfold array_byte. fold a.
    rewrite (proj2 (Z.ltb_ge _ _)) by lia. f_equal. lia.
  - intros k Hk. rewrite Hn, Z.div_mul in Hk by lia. specialize (Hl (s - a + k) ltac:(lia)).
    replace (a + (s - a + k)) with (s + k) in Hl by lia.
    assert ((s + k) / 1024 = b ∧ (s + k) `mod` 1024 = s - b * 1024 + k) as [Hdiv Hmod]
      by (Z.to_euclidean_division_equations; lia).
    rewrite Hdiv, Hmod in Hl. rewrite Hl. do 3 f_equal. rewrite Hp.
    rewrite skipn_firstn_comm, take_take, drop_drop. f_equal; [lia|f_equal; lia].
Qed.

(** The batch before the insertion. *)
Lemma old_batch_spec GS LF f b (o : option (EntryBatch B)) :
  leaves_ok b (LF b) → holds miner GS LF f b o →
  stored_ok (GS b) miner b (LF b) (default (entry_batch_new b) o) ∧
  ∀ i, 0 ≤ i < 262144 → plain (default (entry_batch_new b) o) i = f (b * 262144 + i).
Proof.
  intros HL Ho. destruct o as [batch|]; [done|]. cbn [default]. split; [by apply entry_batch_new_stored|].
  intros i Hi. rewrite Ho by done. unfold plain, is_sealed. cbn.
  by rewrite bm_get_default by (Z.to_euclidean_division_equations; lia).
Qed.

(** Inserting data does not add subtrees. *)
Definition fewer_subtrees (b : Z) (o : option (EntryBatch B)) batch' : Prop :=
  get_subtree_list (eb_data batch') `sublist_of` get_subtree_list (eb_data (default (entry_batch_new b) o)).

Lemma insert_fewer_subtrees b o off data batch' seals :
  insert_data (default (entry_batch_new b) o) off data = Ok (batch', seals) → fewer_subtrees b o batch'.
Proof.
  unfold insert_data, fewer_subtrees. case_bool_decide; [by intros [= <- _]|].
  intros (old & _ & Hr)%bind_Ok_inv. destruct (bool_decide (old = Some data)); [by injection Hr as <- _|].
  apply bind_Ok_inv in Hr as ([d sl] & Hd & Hr). injection Hr as <- _. by apply insert_subtrees in Hd.
Qed.

Lemma append_one GS LF f config arr b (o : option (EntryBatch B)) :
  context_map (GS b) → leaves_ok b (LF b) → holds miner GS LF f b o →
  array_ok LF arr → insertable config arr f → touched arr b → in_range config b = true →
  ∃ batch' seals,
    insert_data (default (entry_batch_new b) o) (part_offset arr b) (part arr b) = Ok (batch', seals) ∧
    holds miner GS LF (put_flow config arr f) b (Some batch') ∧
    eb_seal batch' = eb_seal (default (entry_batch_new b) o) ∧ fewer_subtrees b o batch'.
Proof.
  intros HG HL Ho Hao Hins Ht Hr. destruct (old_batch_spec GS LF f b o HL Ho) as [Hst Hp].
  set (batch := default (entry_batch_new b) o) in *.
  destruct (part_spec LF arr b Hao Ht) as (Hof & Hg & Hne & Hm & Hb & Hin & Hbyte & Hau).
  set (off := part_offset arr b) in *. set (data := part arr b) in *.
  assert (∀ i, 0 ≤ i < 262144 → (b * 262144 + i) / 262144 = b) as Hdiv by (intros i Hi; Z.to_euclidean_division_equations; lia).
  destruct (insert_data_spec (GS b) HG miner batch off data (st_ok _ _ _ _ _ Hst) Hof Hne Hm Hb) as (Hsame & Hfree & _).
  pose proof (Z.div_mod (blen data) 256 ltac:(lia)) as Hdm.
  assert (∃ batch' seals, insert_data batch off data = Ok (batch', seals) ∧ eb_seal batch' = eb_seal batch)
    as (batch' & seals & Hi & Hs).
  { destruct (Hins b Hr) as [Hnone|Hall].
    - destruct Hfree as (batch' & seals & Hi & _ & Hs & _); [|by exists batch', seals].
      intros i Hri. rewrite Hp by lia. apply Hnone; [by apply Hin; lia|by apply Hdiv; lia].
    - exists batch, []. split; [|done]. apply Hsame. apply read_range_Some. split; [unfold blen; lia|].
      intros k Hk. rewrite Hp by lia. rewrite Hall; [|by apply Hin; lia|by apply Hdiv; lia].
      rewrite <- Hbyte by lia. f_equal. lia. }
  exists batch', seals. split_and!; [done| |done|by eapply insert_fewer_subtrees].
  destruct (insert_stored (GS b) HG miner b (LF b) batch off data batch' seals Hst Hg Hm Hb Hau Hi) as [Hst' Hp'].
  split; [done|]. intros i Hri. rewrite Hp' by done. unfold put_bytes, put_flow. rewrite Hdiv by done.
  destruct (decide (off * 256 ≤ i < off * 256 + blen data)) as [Hr1|Hr1].
  - rewrite !bool_decide_true; [by apply Hbyte|split; [by apply Hin|done]|done].
  - rewrite !bool_decide_false; [by apply Hp| |done]. intros [Hx _]. apply Hr1. by apply Hin.
Qed.

(** ** The loop *)

(** The store with other seal tasks. *)
Definition with_tasks (m : gmap Z Z) self : FlowStore KV :=
  set_seal_manager (set_to_seal_set m (seal_manager self)) self.

Definition tasks self : gmap Z Z := to_seal_set (seal_manager self).

Lemma with_tasks_self self : with_tasks (tasks self) self = self.
Proof. by destruct self as [fd dd [m v t] sz c]. Qed.

(** The tasks of a complete batch: its seals that are not sealed. *)
Definition new_task self batch (b idx : Z) : Prop := idx / 64 = b ∧ is_seal_sealed batch (idx `mod` 64) = false.

#[export] Instance new_task_dec self batch b idx : Decision (new_task self batch b idx).
Proof. unfold new_task. apply _. Defined.

Lemma add_seal_tasks_spec self batch b :
  wp (add_seal_tasks batch b) (λ _ self', ∃ m, self' = with_tasks m self ∧
    ∀ idx, m !! idx = if bool_decide (new_task self batch b idx) then Some (to_seal_version (seal_manager self))
                      else tasks self !! idx) self.
Proof.
  unfold add_seal_tasks. change SEALS_PER_LOAD with 64.
  apply wp_for_each with (I := λ dn self', ∃ m, self' = with_tasks m self ∧
    ∀ idx, m !! idx = if bool_decide (new_task self batch b idx ∧ idx `mod` 64 ∈ dn)
                      then Some (to_seal_version (seal_manager self)) else tasks self !! idx).
  - exists (tasks self). rewrite with_tasks_self. split; [done|]. intros idx. rewrite bool_decide_false; [done|].
    by intros [_ ?%elem_of_nil].
  - intros dn s todo self' Hxs (m & -> & Hm).
    assert (0 ≤ s < 64) as Hs.
    { enough (s ∈ seqZ 0 64) as Hin by (apply elem_of_seqZ in Hin; lia). rewrite Hxs. set_solver. }
    apply wp_when; intros Hsealed.
    + apply wp_bind, wp_gets, wp_modify. exists (<[b * 64 + s := to_seal_version (seal_manager self)]> m). split; [done|].
      intros idx. apply negb_true_iff in Hsealed. destruct (decide (idx = b * 64 + s)) as [->|Hne].
      * rewrite lookup_insert_eq, bool_decide_true; [done|]. unfold new_task.
        assert ((b * 64 + s) `mod` 64 = s) as -> by (Z.to_euclidean_division_equations; lia).
        split_and!; [Z.to_euclidean_division_equations; lia|done|set_solver].
      * rewrite lookup_insert_ne by done. rewrite Hm. erewrite bool_decide_ext; [done|].
        rewrite elem_of_app, list_elem_of_singleton. unfold new_task. split; [tauto|].
        intros [[Hb Hu] [Hin|Hs']]; [done|]. exfalso. apply Hne. rewrite <- Hb, <- Hs'. Z.to_euclidean_division_equations; lia.
    + apply negb_false_iff in Hsealed. exists m. split; [done|]. intros idx. rewrite Hm. erewrite bool_decide_ext; [done|].
      rewrite elem_of_app, list_elem_of_singleton. split; [tauto|]. intros [[Hb Hu] [Hin|Hs']]; [done|].
      rewrite Hs' in Hu. congruence.
  - intros self' (m & -> & Hm). exists m. split; [done|]. intros idx. rewrite Hm. erewrite bool_decide_ext; [done|].
    rewrite elem_of_seqZ. pose proof (Z.mod_pos_bound idx 64). split; [tauto|]. intros Hn. split; [done|lia].
Qed.

(** What one iteration produces for batch [b]. *)
Definition appended_batch GS LF f arr self (now : Z → Z) (b : Z) batch' (m m' : gmap Z Z) : Prop :=
  holds miner GS LF (put_flow (fs_shard_config self) arr f) b (Some batch') ∧
  (∃ o, get_entry_batch (data_db self) b = Ok o ∧ eb_seal batch' = eb_seal (default (entry_batch_new b) o) ∧
     fewer_subtrees b o batch') ∧
  ∀ idx, m' !! idx =
    if bool_decide (seal_worker_available (now b) (seal_manager self) = true ∧ is_complete batch' = true ∧
                    new_task self batch' b idx)
    then Some (to_seal_version (seal_manager self)) else m !! idx.

(** ... and for a list of batches, of which those of the shard are touched. *)
Fixpoint appended_list GS LF f arr self (now : Z → Z) (bs : list Z) (l : list (Z * EntryBatch B)) (m m' : gmap Z Z) : Prop :=
  match bs with
  | [] => l = [] ∧ m' = m
  | b :: bs' =>
      if in_range (fs_shard_config self) b then
        ∃ batch' l' m1, l = (b, batch') :: l' ∧ appended_batch GS LF f arr self now b batch' m m1 ∧
          appended_list GS LF f arr self now bs' l' m1 m'
      else appended_list GS LF f arr self now bs' l m m'
  end.

(** One iteration, after the batch is loaded. *)
Definition append_loaded now acc (b : Z) batch (off : Z) (data : list Z) : M (FlowStore KV) (list (Z * EntryBatch B)) :=
  r ← lift (insert_data batch off data);
  available ← gets (λ self, seal_worker_available (now b) (seal_manager self));
  _ ← when (available && is_complete r.1) (add_seal_tasks r.1 b);
  mret (acc ++ [(b, r.1)]).

Lemma append_batch_eq GS LF f arr now acc self m b :
  flow_ok miner GS LF f self → array_ok LF arr → touched arr b →
  ∃ o, get_entry_batch (data_db self) b = Ok o ∧ holds miner GS LF f b o ∧
    append_batch arr now acc (batch_range (start_index arr) (end_index arr) b) (with_tasks m self) =
      if in_range (fs_shard_config self) b
      then append_loaded now acc b (default (entry_batch_new b) o) (part_offset arr b) (part arr b) (with_tasks m self)
      else (Ok acc, with_tasks m self).
Proof.
  intros [Hsz Hdb Hsh] Hao Ht. destruct (array_blen LF arr Hao) as [Hlen Hlt]. pose proof Hao as [Hs Hne Hm He _].
  assert (batch_index_ok b) as Hb by (unfold batch_index_ok, touched in *; Z.to_euclidean_division_equations; lia).
  destruct (do_batch _ _ _ _ _ Hdb b Hb) as (o & Ho & Hh). exists o. split; [done|]. split; [done|].
  set (s := (batch_range (start_index arr) (end_index arr) b).1).
  assert (sub_array arr s (batch_range (start_index arr) (end_index arr) b).2 = Some (ChunkArray_mk (part arr b) s)) as Hsub.
  { unfold sub_array, part, chunk_count. unfold blen in Hlen. change CHUNK_SIZE with 256. rewrite Hlen, (Z.mul_comm 256), Z.div_mul by lia.
    rewrite wrap64_small by lia. subst s. unfold touched in Ht. cbn [batch_range fst snd].
    rewrite !(proj2 (Z.leb_gt _ _)), !(proj2 (Z.ltb_ge _ _)) by (Z.to_euclidean_division_equations; lia). done. }
  assert (s / 1024 = b ∧ s `mod` 1024 = part_offset arr b) as [Hdiv Hmod].
  { unfold part_offset. fold s. unfold touched in Ht. subst s. cbn [batch_range fst].
    split; Z.to_euclidean_division_equations; lia. }
  unfold append_batch, mbind, M_bind, gets, lift. fold s. rewrite Hsub. cbn [expect start_index ca_data].
  change (fs_batch_size (with_tasks m self)) with (fs_batch_size self). rewrite Hsz, Hdiv, Hmod.
  change (fs_shard_config (with_tasks m self)) with (fs_shard_config self). rewrite (proj2 (Z.eqb_neq _ _) Hsh).
  destruct (in_range (fs_shard_config self) b); cbn [negb]; [|done].
  unfold load_batch, mbind, M_bind, gets_ok. change (data_db (with_tasks m self)) with (data_db self). by rewrite Ho.
Qed.

Lemma append_batch_spec GS LF f arr now acc self m b :
  flow_ok miner GS LF f self → array_ok LF arr → insertable (fs_shard_config self) arr f → touched arr b →
  wp (append_batch arr now acc (batch_range (start_index arr) (end_index arr) b))
    (λ acc' self',
       if in_range (fs_shard_config self) b then
         ∃ batch' m', acc' = acc ++ [(b, batch')] ∧ self' = with_tasks m' self ∧
           appended_batch GS LF f arr self now b batch' m m'
       else acc' = acc ∧ self' = with_tasks m self) (with_tasks m self).
Proof.
  intros Hok Hao Hins Ht. destruct (append_batch_eq GS LF f arr now acc self m b Hok Hao Ht) as (o & Ho & Hh & Heq).
  unfold wp. rewrite Heq. destruct (in_range (fs_shard_config self) b) eqn:Hr; [|done]. pose proof Hok as [_ Hdb _].
  assert (batch_index_ok b) as Hb.
  { destruct (array_blen LF arr Hao). destruct Hao. unfold batch_index_ok, touched in *. Z.to_euclidean_division_equations; lia. }
  destruct (append_one GS LF f (fs_shard_config self) arr b o) as (batch' & seals & Hi & Hh' & Hseal & Hfew);
    [apply (do_contexts _ _ _ _ _ Hdb)|by apply (do_leaves _ _ _ _ _ Hdb)|done..|].
  match goal with |- match ?r with _ => _ end =>
    enough (wp (append_loaded now acc b (default (entry_batch_new b) o) (part_offset arr b) (part arr b)) (λ acc' self',
      ∃ batch' m', acc' = acc ++ [(b, batch')] ∧ self' = with_tasks m' self ∧
        appended_batch GS LF f arr self now b batch' m m') (with_tasks m self)) as Hw by exact Hw end.
  unfold append_loaded. apply wp_bind. eapply wp_lift; [exact Hi|]. apply wp_bind, wp_gets. cbn [fst].
  change (seal_manager (with_tasks m self)) with (set_to_seal_set m (seal_manager self)).
  assert (seal_worker_available (now b) (set_to_seal_set m (seal_manager self)) =
    seal_worker_available (now b) (seal_manager self)) as -> by done.
  apply wp_bind. apply wp_when; intros Hav.
  - apply andb_true_iff in Hav as [Hav Hc]. eapply wp_mono; [apply add_seal_tasks_spec|].
    intros [] self' (m' & -> & Hm'). apply wp_ret. exists batch', m'. split_and!; [done|done|]. split; [done|]. split; [by exists o|].
    intros idx. rewrite Hm'. erewrite bool_decide_ext; [done|]. unfold new_task. tauto.
  - apply wp_ret. exists batch', m. split_and!; [done|done|]. split; [done|]. split; [by exists o|]. intros idx. rewrite bool_decide_false; [done|].
    intros (Hav' & Hc & _). rewrite Hav', Hc in Hav. done.
Qed.

Lemma append_loop_spec GS LF f arr now acc self m bs :
  flow_ok miner GS LF f self → array_ok LF arr → insertable (fs_shard_config self) arr f → Forall (touched arr) bs →
  wp (fold_for (batch_range (start_index arr) (end_index arr) <$> bs) acc (append_batch arr now))
    (λ acc' self', ∃ l m', acc' = acc ++ l ∧ self' = with_tasks m' self ∧
       appended_list GS LF f arr self now bs l m m') (with_tasks m self).
Proof.
  intros Hok Hao Hins Hbs. revert acc m. induction Hbs as [|b bs Hb Hbs IH]; intros acc m; cbn [fmap list_fmap fold_for].
  { apply wp_ret. exists [], m. by rewrite app_nil_r. }
  apply wp_bind. eapply wp_mono; [by apply append_batch_spec|]. intros acc1 self1. cbn [appended_list].
  destruct (in_range (fs_shard_config self) b).
  - intros (batch' & m1 & -> & -> & Hap). eapply wp_mono; [apply IH|].
    intros acc' self' (l & m' & -> & -> & Hl). exists ((b, batch') :: l), m'. rewrite <- app_assoc.
    split_and!; [done|done|]. by exists batch', l, m1.
  - intros [-> ->]. apply IH.
Qed.

(** What holds of the batches that were touched. *)
Lemma appended_list_spec GS LF f arr self now bs l m m' :
  appended_list GS LF f arr self now bs l m m' →
  l.*1 = filter (λ b, in_range (fs_shard_config self) b = true) bs ∧
  (∀ b batch, (b, batch) ∈ l → b ∈ bs ∧ in_range (fs_shard_config self) b = true ∧
     holds miner GS LF (put_flow (fs_shard_config self) arr f) b (Some batch) ∧
     ∃ o, get_entry_batch (data_db self) b = Ok o ∧ eb_seal batch = eb_seal (default (entry_batch_new b) o) ∧
       fewer_subtrees b o batch) ∧
  ∀ idx v, m' !! idx = Some v → m !! idx = Some v ∨
    ∃ batch, (idx / 64, batch) ∈ l ∧ is_complete batch = true ∧ is_seal_sealed batch (idx `mod` 64) = false.
Proof.
  revert l m. induction bs as [|b bs IH]; intros l m; cbn [appended_list].
  { intros [-> ->]. split_and!; [done|by intros b batch ?%elem_of_nil|by left]. }
  rewrite filter_cons. destruct (in_range (fs_shard_config self) b) eqn:Hr.
  - intros (batch' & l' & m1 & -> & (Hh & Hs & Hm1) & Hl). destruct (IH l' m1 Hl) as (Hf & Hall & Htask).
    rewrite decide_True by done. split_and!; [cbn; by rewrite Hf| |].
    + intros b2 batch2 [Heq|Hin]%elem_of_cons.
      * injection Heq as -> ->. split_and!; [by left|done|done|done].
      * destruct (Hall b2 batch2 Hin) as (? & ? & ? & ?). split_and!; [by right|done..].
    + intros idx v Hv. destruct (Htask idx v Hv) as [Hv'|(batch2 & Hin & ?)].
      * rewrite Hm1 in Hv'. case_bool_decide as Hn; [right|by left]. destruct Hn as (_ & Hc & <- & Hu).
        exists batch'. split; [by left|done].
      * right. exists batch2. split; [by right|done].
  - intros Hl. destruct (IH l m Hl) as (Hf & Hall & Htask). rewrite decide_False by congruence.
    split_and!; [done| |done]. intros b2 batch2 Hin. destruct (Hall b2 batch2 Hin) as (? & ? & ? & ?).
    split_and!; [by right|done..].
Qed.

(** The write of a list of batches. *)
Definition puts (l : list (Z * EntryBatch B)) : list (Z * option (EntryBatch B)) := (λ p, (p.1, Some p.2)) <$> l.

Lemma puts_fst l : (puts l).*1 = l.*1.
Proof. unfold puts. rewrite <- list_fmap_compose. apply list_fmap_ext. by intros i []. Qed.

(** The roots of the batches that are covered. *)
Definition root_of LF (b : Z) batch (r : H256) : Prop :=
  covered batch (Z.of_nat (given b)) (get_subtree_list (eb_data batch)) ∧ ideal_root 0 1 (LF b) = Some (Some r).

Lemma batch_list_roots_spec GS LF f (l : list (Z * EntryBatch B)) :
  (∀ b, context_map (GS b)) → (∀ b batch, (b, batch) ∈ l → holds miner GS LF f b (Some batch)) →
  ∃ roots, batch_list_roots (NM := NM) l = Ok (batch_op <$> puts l, roots) ∧
    roots.*1 `sublist_of` l.*1 ∧
    ∀ b r, (b, r) ∈ roots ↔ ∃ batch, (b, batch) ∈ l ∧ root_of LF b batch r.
Proof.
  intros HG. induction l as [|[b batch] l IH]; intros Hall.
  { exists []. split_and!; [done|done|]. intros b r. split; [by intros ?%elem_of_nil|]. by intros (batch & ?%elem_of_nil & _). }
  destruct IH as (roots & Hr & Hsub & Hin); [intros b' batch' Hin; apply Hall; by right|].
  destruct (Hall b batch ltac:(left)) as [[Hok _ _ Hl] _].
  assert (given b = (if b =? 0 then 1%nat else 0%nat)) as Hg by done. rewrite Hg in Hl.
  destruct (build_root_spec (NM := NM) (GS b) (HG b) miner batch (b =? 0) (LF b) Hok Hl) as (o & Ho & Hcov & Hroot).
  cbn [batch_list_roots]. rewrite Ho, bind_Ok, Hr, bind_Ok. cbn [fst snd]. eexists. split; [done|].
  destruct o as [r0|].
  - split; [by apply sublist_skip|]. intros b' r. rewrite elem_of_cons, Hin. split.
    + intros [[= -> ->]|(batch' & Hb' & Hr')].
      * exists batch. split; [by left|]. split; [apply Hcov; done|by apply Hroot].
      * exists batch'. split; [by right|done].
    + intros (batch' & [Heq|Hb']%elem_of_cons & Hr'); [left|right; by exists batch'].
      injection Heq as -> ->. destruct Hr' as [_ Hr']. rewrite (Hroot r0) in Hr' by done. congruence.
  - split; [by apply sublist_cons|]. intros b' r. rewrite Hin. split.
    + intros (batch' & Hb' & Hr'). exists batch'. split; [by right|done].
    + intros (batch' & [Heq|Hb']%elem_of_cons & Hr'); [|by exists batch']. injection Heq as -> ->.
      destruct Hr' as [Hc _]. apply Hcov in Hc as [? ?]. done.
Qed.

(** Where the bytes of the flow do not change. *)
Lemma put_flow_other GS LF f config arr b (o : option (EntryBatch B)) :
  array_ok LF arr → ¬ (touched arr b ∧ in_range config b = true) →
  holds miner GS LF f b o → holds miner GS LF (put_flow config arr f) b o.
Proof.
  intros Hao Hn Hh. destruct (array_blen LF arr Hao) as [Hlen Hlt].
  assert (∀ i, 0 ≤ i < 262144 → put_flow config arr f (b * 262144 + i) = f (b * 262144 + i)) as Heq.
  { intros i Hi. unfold put_flow. assert ((b * 262144 + i) / 262144 = b) as -> by (Z.to_euclidean_division_equations; lia).
    rewrite bool_decide_false; [done|]. intros [Hin Hr]. apply Hn. split; [|done].
    unfold in_array, touched in *. Z.to_euclidean_division_equations; lia. }
  destruct o as [batch|].
  - destruct Hh as [Hst Hp]. split; [done|]. intros i Hi. rewrite Heq by done. by apply Hp.
  - intros i Hi. rewrite Heq by done. by apply Hh.
Qed.

(** The seal tasks name seals that are complete and not sealed. *)
Definition task_ok self f (idx : Z) : Prop :=
  0 ≤ idx ∧ batch_index_ok (idx / 64) ∧
  (∃ batch : EntryBatch B, get_entry_batch (data_db self) (idx / 64) = Ok (Some batch) ∧
     is_seal_sealed batch (idx `mod` 64) = false) ∧
  ∀ x, idx * 4096 ≤ x < (idx + 1) * 4096 → is_Some (f x).

Definition tasks_ok self f : Prop := ∀ idx v, tasks self !! idx = Some v → task_ok self f idx.

(** ** Data that a batch holds in part *)

(** The batch [b] of the shard holds a byte in the range of [arr], and not all
    the bytes of [arr] there. *)
Definition clashes (config : ShardConfig) arr f (b : Z) : Prop :=
  in_range config b = true ∧
  (∃ x, in_array arr x ∧ x / 262144 = b ∧ is_Some (f x)) ∧
  ∃ x, in_array arr x ∧ x / 262144 = b ∧ f x ≠ array_byte arr x.

Lemma insert_any GS LF f config arr b (o : option (EntryBatch B)) :
  context_map (GS b) → leaves_ok b (LF b) → holds miner GS LF f b o → array_ok LF arr → touched arr b →
  let r := insert_data (default (entry_batch_new b) o) (part_offset arr b) (part arr b) in
  ((∃ p, r = Ok p) ∨ ∃ msg, r = Err msg) ∧ (clashes config arr f b → ∃ msg, r = Err msg).
Proof.
  intros HG HL Ho Hao Ht r. destruct (old_batch_spec GS LF f b o HL Ho) as [Hst Hp]. set (batch := default (entry_batch_new b) o) in *.
  destruct (part_spec LF arr b Hao Ht) as (Hof & Hg & Hne & Hm & Hb & Hin & Hbyte & _).
  set (off := part_offset arr b) in *. set (data := part arr b) in *.
  destruct (insert_data_spec (GS b) HG miner batch off data (st_ok _ _ _ _ _ Hst) Hof Hne Hm Hb) as (Hsame & Hfree & Herr).
  fold r in Hsame, Hfree, Herr. pose proof (Z.div_mod (blen data) 256 ltac:(lia)) as Hdm. split.
  - destruct (decide (read_range (plain batch) (off * 256) (blen data) = Some data)) as [Hs|Hs]; [left; eexists; by apply Hsame|].
    destruct (decide (Exists (λ i, is_Some (plain batch i)) (seqZ (off * 256) (blen data)))) as [He|He].
    + right. apply Herr; [done|]. apply Exists_exists in He as (i & Hi%elem_of_seqZ & Hsome). exists i. split; [lia|done].
    + left. destruct Hfree as (batch' & seals & Hi & _); [|by eexists]. intros i Hi. apply eq_None_not_Some. intros Hsome.
      apply He, Exists_exists. exists i. split; [apply elem_of_seqZ; lia|done].
  - intros (_ & (x & Hx & Hxb & Hsome) & y & Hy & Hyb & Hdiff).
    assert (∀ z, in_array arr z → z / 262144 = b → off * 256 ≤ z - b * 262144 < off * 256 + blen data ∧ 0 ≤ z - b * 262144 < 262144) as Hpos.
    { intros z Hz Hzb. assert (0 ≤ z - b * 262144 < 262144) as Hr by (Z.to_euclidean_division_equations; lia). split; [|done].
      apply Hin; [done|]. by replace (b * 262144 + (z - b * 262144)) with z by lia. }
    destruct (Hpos x Hx Hxb) as [Hx1 Hx2]. destruct (Hpos y Hy Hyb) as [Hy1 Hy2]. apply Herr.
    + intros [_ Hall]%read_range_Some. apply Hdiff. specialize (Hall (y - b * 262144 - off * 256) ltac:(lia)).
      replace (off * 256 + (y - b * 262144 - off * 256)) with (y - b * 262144) in Hall by lia.
      rewrite Hp in Hall by done. replace (b * 262144 + (y - b * 262144)) with y in Hall by lia.
      rewrite Hall, Hbyte by done. f_equal. lia.
    + exists (x - b * 262144). split; [done|]. rewrite Hp by done. by replace (b * 262144 + (x - b * 262144)) with x by lia.
Qed.

(** One iteration changes at most the seal tasks, and fails on a clash. *)
Lemma append_batch_any GS LF f arr now acc self m b :
  flow_ok miner GS LF f self → array_ok LF arr → touched arr b →
  ∃ r m', append_batch arr now acc (batch_range (start_index arr) (end_index arr) b) (with_tasks m self) = (r, with_tasks m' self) ∧
    ((∃ acc', r = Ok acc') ∨ ∃ msg, r = Err msg) ∧ (clashes (fs_shard_config self) arr f b → ∃ msg, r = Err msg).
Proof.
  intros Hok Hao Ht. destruct (append_batch_eq GS LF f arr now acc self m b Hok Hao Ht) as (o & _ & Hh & ->).
  destruct (in_range (fs_shard_config self) b) eqn:Hr.
  2:{ eexists _, _. split; [done|]. split; [left; by eexists|]. intros [Hr' _]. congruence. }
  assert (batch_index_ok b) as Hb.
  { destruct (array_blen LF arr Hao). destruct Hao. unfold batch_index_ok, touched in *. Z.to_euclidean_division_equations; lia. }
  pose proof Hok as [_ Hdb _].
  destruct (insert_any GS LF f (fs_shard_config self) arr b o) as [Hany Hcl];
    [apply (do_contexts _ _ _ _ _ Hdb)|by apply (do_leaves _ _ _ _ _ Hdb)|done..|].
  unfold append_loaded, mbind, M_bind, lift, gets. destruct Hany as [[[batch' seals] Hi]|[msg Hi]].
  - rewrite Hi in Hcl |- *. cbn [fst]. destruct (_ && _); cbn [when].
    + pose proof (add_seal_tasks_spec (with_tasks m self) batch' b) as Hw. unfold wp in Hw.
      destruct (add_seal_tasks _ _ _) as [[[]| | |] s']; [|done..]. destruct Hw as (m' & -> & _).
      eexists _, m'. split; [done|]. split; [left; by eexists|]. intros Hc. by destruct (Hcl Hc).
    + eexists _, _. split; [done|]. split; [left; by eexists|]. intros Hc. by destruct (Hcl Hc).
  - rewrite Hi. eexists _, _. split; [done|]. split; [right|intros _]; by eexists.
Qed.

Lemma append_loop_clash GS LF f arr now acc self m bs b :
  flow_ok miner GS LF f self → array_ok LF arr → Forall (touched arr) bs → b ∈ bs → clashes (fs_shard_config self) arr f b →
  ∃ msg m', fold_for (batch_range (start_index arr) (end_index arr) <$> bs) acc (append_batch arr now) (with_tasks m self) =
    (Err msg, with_tasks m' self).
Proof.
  intros Hok Hao Hbs Hin Hc. revert acc m. induction Hbs as [|b' bs Hb Hbs IH]; [by apply elem_of_nil in Hin|].
  intros acc m. cbn [fmap list_fmap fold_for]. unfold mbind, M_bind.
  destruct (append_batch_any GS LF f arr now acc self m b' Hok Hao Hb) as (r & m1 & -> & Hr & Hcl).
  destruct Hr as [[acc' ->]|[msg ->]]; [|by eexists _, _]. apply elem_of_cons in Hin as [<-|Hin]; [by destruct (Hcl Hc)|].
  by apply IH.
Qed.

(** ** The whole operation *)

Lemma put_flow_is_Some config arr f x : is_Some (f x) → is_Some (put_flow config arr f x).
Proof.
  intros Hf. unfold put_flow. case_bool_decide as Hin; [|done]. destruct Hin as [[Hlo Hhi] _]. unfold array_byte.
  rewrite (proj2 (Z.ltb_ge _ _)) by lia. apply lookup_lt_is_Some_2. unfold blen in Hhi. lia.
Qed.

(** A complete batch knows all its bytes. *)
Lemma complete_known GS LF f b batch i :
  holds miner GS LF f b (Some batch) → is_complete batch = true → 0 ≤ i < 262144 → is_Some (f (b * 262144 + i)).
Proof.
  intros [[Hok _ _ _] Hp] Hc Hi. rewrite <- Hp by done. apply (plain_is_Some (GS b) miner); [done|done|].
  destruct Hok as [Hd _ _]. unfold is_complete in Hc. destruct (eb_data batch) as [data|]; [|done]. cbn in Hd |- *.
  change BYTES_PER_LOAD with 262144 in Hd. rewrite (proj2 (Z.ltb_ge _ _)) by lia. apply lookup_lt_is_Some_2.
  unfold blen in Hd. lia.
Qed.

Lemma after_write_in kv l b batch : NoDup l.*1 → (b, batch) ∈ l → after_write kv (puts l) b = Ok (Some batch).
Proof.
  intros Hnd Hin. unfold after_write. destruct (list_find _ _) as [[k p]|] eqn:Hf.
  - apply list_find_Some in Hf as (Hp & Hb & _). apply list_elem_of_lookup_2, list_elem_of_fmap in Hp as ([b' batch'] & -> & Hp).
    cbn in Hb |- *. subst b'. by rewrite (NoDup_fst_unique l b batch batch').
  - apply list_find_None in Hf. exfalso. rewrite Forall_forall in Hf. apply (Hf (b, Some batch)); [|done].
    by apply (list_elem_of_fmap_2 (λ p, (p.1, Some p.2)) l (b, batch)).
Qed.

Lemma after_write_notin kv l b : b ∉ l.*1 → after_write kv (puts l) b = get_entry_batch kv b.
Proof.
  intros Hnot. unfold after_write. destruct (list_find _ _) as [[k p]|] eqn:Hf; [exfalso|done].
  apply list_find_Some in Hf as (Hp & <- & _). apply Hnot. rewrite <- puts_fst. apply list_elem_of_fmap_2.
  by eapply list_elem_of_lookup_2.
Qed.

Lemma fst_elem (l : list (Z * EntryBatch B)) b : b ∈ l.*1 → ∃ batch, (b, batch) ∈ l.
Proof. intros ([b' batch] & -> & Hp)%list_elem_of_fmap. by exists batch. Qed.

Lemma tasks_ok_appended GS LF f arr self now bs l m' self' :
  tasks_ok self f → appended_list GS LF f arr self now bs l (tasks self) m' → NoDup l.*1 →
  Forall batch_index_ok bs → tasks self' = m' →
  (∀ b, batch_index_ok b → get_entry_batch (data_db self') b = after_write (data_db self) (puts l) b) →
  tasks_ok self' (put_flow (fs_shard_config self) arr f).
Proof.
  intros Htk Hl Hnd Hbs Hm Hget idx v Hv. rewrite Hm in Hv. set (f' := put_flow _ _ _).
  destruct (appended_list_spec _ _ _ _ _ _ _ _ _ _ Hl) as (_ & Hall & Htask).
  destruct (Htask idx v Hv) as [Hold|(batch & Hin & Hc & Hu)].
  - destruct (Htk idx v Hold) as (Hidx & Hb & (batch & Hbatch & Hu) & Hf). split_and!; [done|done| |].
    + rewrite Hget by done. destruct (decide (idx / 64 ∈ l.*1)) as [(batch' & Hin)%fst_elem|Hno];
        [|rewrite after_write_notin by done; by exists batch].
      rewrite (after_write_in _ l _ batch') by done. exists batch'. split; [done|].
      destruct (Hall _ _ Hin) as (_ & _ & _ & o & Ho & Hs & _). rewrite Hbatch in Ho. injection Ho as <-.
      unfold is_seal_sealed in *. by rewrite Hs.
    + intros x Hx. apply put_flow_is_Some. by apply Hf.
  - destruct (Hall _ _ Hin) as (Hbb & _ & Hh & _). rewrite Forall_forall in Hbs. pose proof (Hbs _ Hbb) as Hb.
    assert (0 ≤ idx) as Hidx by (unfold batch_index_ok in Hb; Z.to_euclidean_division_equations; lia).
    split_and!; [done|done| |].
    + exists batch. split; [|done]. rewrite Hget by done. by apply after_write_in.
    + intros x Hx. replace x with (idx / 64 * 262144 + (x - idx / 64 * 262144)) by lia.
      apply (complete_known GS LF f' (idx / 64) batch); [done|done|Z.to_euclidean_division_equations; lia].
Qed.

Lemma append_entries_spec GS LF f arr now self :
  flow_ok miner GS LF f self → array_ok LF arr → insertable (fs_shard_config self) arr f → tasks_ok self f →
  let f' := put_flow (fs_shard_config self) arr f in
  wp (append_entries (NM := NM) (B := B) arr now)
    (λ roots self', flow_ok miner GS LF f' self' ∧ tasks_ok self' f' ∧ fs_shard_config self' = fs_shard_config self ∧
       StronglySorted Z.lt roots.*1 ∧
       (∀ b r, (b, r) ∈ roots ↔ touched arr b ∧ in_range (fs_shard_config self) b = true ∧
         ∃ batch : EntryBatch B, get_entry_batch (data_db self') b = Ok (Some batch) ∧ root_of LF b batch r) ∧
       ∀ b batch', batch_index_ok b → get_entry_batch (data_db self') b = Ok (Some batch') →
         ∃ o, get_entry_batch (data_db self) b = Ok o ∧ fewer_subtrees b o batch') self.
Proof.
  intros Hok Hao Hins Htk f'. destruct (array_blen LF arr Hao) as [Hlen Hlt]. pose proof Hao as [Hs Hne Hm He _].
  pose proof Hok as [Hsz Hdb Hsh]. unfold append_entries. change BYTES_PER_SECTOR with 256. rewrite Hm. cbn [Z.eqb negb].
  apply wp_bind, wp_gets. rewrite Hsz. unfold bytes_to_entries. rewrite Hm. cbn [Z.eqb].
  fold (end_index arr). rewrite wrap64_small by lia.
  apply wp_bind. eapply wp_lift; [by apply batch_iter_spec; lia|].
  set (bs := seqZ (start_index arr / 1024) ((end_index arr - 1) / 1024 - start_index arr / 1024 + 1)).
  assert (∀ b, b ∈ bs ↔ touched arr b) as Hbs.
  { intros b. unfold bs, touched. rewrite elem_of_seqZ. lia. }
  assert (∀ b, touched arr b → batch_index_ok b) as Hidx
    by (intros b Hb; unfold batch_index_ok, touched in *; Z.to_euclidean_division_equations; lia).
  pose proof (append_loop_spec GS LF f arr now [] self (tasks self) bs Hok Hao Hins) as Hloop.
  rewrite with_tasks_self in Hloop. apply wp_bind. eapply wp_mono.
  { apply Hloop, Forall_forall. intros b Hb. by apply Hbs. }
  intros batch_list self1 (l & m' & -> & -> & Hl). cbn [app].
  destruct (appended_list_spec _ _ _ _ _ _ _ _ _ _ Hl) as (Hfst & Hall & _).
  assert (NoDup l.*1) as Hnd by (rewrite Hfst; apply NoDup_filter, NoDup_seqZ).
  destruct (batch_list_roots_spec GS LF f' l) as (roots & Hroots & Hsub & Hin).
  { apply (do_contexts _ _ _ _ _ Hdb). }
  { intros b batch Hb. by apply (Hall b batch). }
  apply wp_zoom. unfold put_entry_batch_list. apply wp_bind. eapply wp_lift; [exact Hroots|]. cbn [fst snd].
  apply wp_bind. eapply wp_mono.
  { apply (db_write_spec miner GS GS LF LF f f' (data_db self) (puts l) Hdb).
    - by rewrite puts_fst.
    - intros b o ([b' batch] & [= -> ->] & Hp)%list_elem_of_fmap. destruct (Hall b' batch Hp) as (Hb & _ & Hh & _).
      split; [by apply Hidx, Hbs|done].
    - intros b o Hb Hnot Ho Hh. apply (put_flow_other GS LF f _ arr b o); [done| |done]. intros [Ht Hr]. apply Hnot.
      by rewrite puts_fst, Hfst, list_elem_of_filter, Hbs.
    - apply (do_contexts _ _ _ _ _ Hdb).
    - apply (do_leaves _ _ _ _ _ Hdb). }
  intros [] kv' [Hdb' Hget]. apply wp_ret. split; [by split|].
  assert (∀ b, touched arr b → get_entry_batch kv' b = after_write (data_db self) (puts l) b) as Hget'
    by (intros b Hb; by apply Hget, Hidx).
  split; [eapply (tasks_ok_appended GS LF f arr self now bs l m'); [done|done|done| |done|done];
    apply Forall_forall; intros b Hb; by apply Hidx, Hbs|].
  split; [done|]. split_and!.
  - eapply StronglySorted_sublist; [exact Hsub|]. rewrite Hfst.
    eapply StronglySorted_sublist; [apply sublist_filter|apply StronglySorted_seqZ].
  - intros b r. rewrite Hin. cbn [data_db set_data_db]. split.
    + intros (batch & Hb & Hr). destruct (Hall b batch Hb) as (Hbb & Hrange & _). apply Hbs in Hbb.
      split_and!; [done|done|]. exists batch. split; [|done]. rewrite Hget' by done. by apply after_write_in.
    + intros (Ht & Hrange & batch & Hb & Hr). exists batch. split; [|done]. rewrite Hget' in Hb by done.
      assert (b ∈ l.*1) as [batch' Hb']%fst_elem by (rewrite Hfst, list_elem_of_filter, Hbs; done).
      rewrite (after_write_in _ l b batch') in Hb by done. by injection Hb as <-.
  - intros b batch' Hb Hbatch'. cbn [data_db set_data_db] in Hbatch'. rewrite Hget in Hbatch' by done.
    destruct (decide (b ∈ l.*1)) as [[batch Hbl]%fst_elem|Hno].
    + rewrite (after_write_in _ l b batch) in Hbatch' by done. injection Hbatch' as <-.
      destruct (Hall b batch Hbl) as (_ & _ & _ & o & Ho & _ & Hfew). by exists o.
    + rewrite after_write_notin in Hbatch' by done. exists (Some batch'). split; [done|]. unfold fewer_subtrees. reflexivity.
Qed.

(** A batch that holds another part of the data makes the whole operation fail
    before anything is written. *)
Lemma append_entries_clash GS LF f arr now self b :
  flow_ok miner GS LF f self → array_ok LF arr → clashes (fs_shard_config self) arr f b →
  ∃ msg m', append_entries (NM := NM) (B := B) arr now self = (Err msg, with_tasks m' self).
Proof.
  intros Hok Hao Hc. destruct (array_blen LF arr Hao) as [Hlen Hlt]. pose proof Hao as [Hs Hne Hm He _].
  pose proof Hok as [Hsz _ _]. unfold append_entries. change BYTES_PER_SECTOR with 256. rewrite Hm. cbn [Z.eqb negb].
  unfold mbind, M_bind, gets, lift. rewrite Hsz. unfold bytes_to_entries. rewrite Hm. cbn [Z.eqb].
  fold (end_index arr). rewrite wrap64_small, batch_iter_spec by lia.
  set (bs := seqZ (start_index arr / 1024) ((end_index arr - 1) / 1024 - start_index arr / 1024 + 1)).
  destruct (append_loop_clash GS LF f arr now [] self (tasks self) bs b) as (msg & m' & Heq); [done|done| | |done|].
  - apply Forall_forall. intros b' Hb'. unfold bs in Hb'. apply elem_of_seqZ in Hb'. unfold touched. lia.
  - destruct Hc as (_ & (x & Hx & <- & _) & _). unfold bs. apply elem_of_seqZ. unfold in_array in Hx.
    Z.to_euclidean_division_equations; lia.
  - rewrite with_tasks_self in Heq. rewrite Heq. by eexists _, _.
Qed.

End append.
