(* ===== verification/FlowTruncate.v ===== *)
(** [truncate] of the flow store, across batches, and the seal tasks. *)

From stdpp Require Import sorting list_numbers.
From S2P Require Import Prelude HashElement Ssz SszFacts MerkleSpec MerkleProof NodeStore AppendMerkle Bytes FlowDb.
From S2P Require Import Shard SharedTypes Seal ChunkData ChunkDataFacts ChunkDataInsert.
From S2P Require Import SealInfo EntryBatch EntryBatchFacts Serde BatchRoot BatchTheorems.
From S2P Require Import BatchStored FlowStore FlowStoreFacts FlowAppend.
Local Open Scope Z_scope.

(** The flow without the sectors from [start] on. *)
Definition cut_flow (f : Z → option Z) (start x : Z) : option Z :=
  if bool_decide (x < start * 256) then f x else None.

(** What may change of the contexts and the leaves when the flow is cut at
    [start]: what ends after it. *)
Record reorg (GS GS' : Z → Z → SealContextInfo) (LF LF' : Z → list OptionalHash) (start : Z) : Prop := {
  ro_contexts : ∀ b, context_map (GS' b);
  ro_leaves : ∀ b, batch_index_ok b → leaves_ok b (LF' b);
  ro_below : ∀ b, b < start / 1024 → GS' b = GS b ∧ LF' b = LF b;
  ro_cut_leaves : ∀ i, (i < Z.to_nat (start `mod` 1024))%nat → LF' (start / 1024) !! i = LF (start / 1024) !! i;
  ro_cut_contexts : ∀ s, 0 ≤ s < 64 → end_seal_index (GS (start / 1024) s) ≤ start `mod` 1024 / 16 →
    GS' (start / 1024) s = GS (start / 1024) s;
}.

Section truncate.
Context `{Keccak, Bitmap64 B, !Bitmap64Laws B, KeyValueDBLaws KV, !KeyValueIter KV, !KeyValueIterLaws KV}.
Context (miner : H256).
Implicit Types (GS : Z → Z → SealContextInfo) (LF : Z → list OptionalHash) (f : Z → option Z).
Implicit Types (self : FlowStore KV) (batch : EntryBatch B) (kv : KV).

(** A batch before the cut is not touched. *)
Lemma cut_below GS GS' LF LF' f start b (o : option (EntryBatch B)) :
  reorg GS GS' LF LF' start → 0 ≤ start → b < start / 1024 →
  holds miner GS LF f b o → holds miner GS' LF' (cut_flow f start) b o.
Proof.
  intros Hro Hs Hb. destruct (ro_below _ _ _ _ _ Hro b Hb) as [HG HL]. unfold holds. rewrite HG, HL.
  assert (∀ i, 0 ≤ i < 262144 → cut_flow f start (b * 262144 + i) = f (b * 262144 + i)) as Heq.
  { intros i Hi. unfold cut_flow. rewrite bool_decide_true; [done|]. Z.to_euclidean_division_equations; lia. }
  destruct o as [batch|]; [intros [Hst Hp]; split; [done|]|intros Hn]; intros i Hi; rewrite Heq by done; auto.
Qed.

(** Nothing is left after the cut. *)
Lemma cut_after GS' LF' f start b :
  0 ≤ start → start / 1024 < b ∨ b = start / 1024 ∧ start `mod` 1024 = 0 →
  holds miner GS' LF' (cut_flow f start) b (None : option (EntryBatch B)).
Proof.
  intros Hs Hb i Hi. unfold cut_flow. rewrite bool_decide_false; [done|]. Z.to_euclidean_division_equations; lia.
Qed.

Lemma empty_batch_none GS LF b batch :
  stored_ok (GS b) miner b (LF b) batch → entry_batch_is_empty batch = true →
  ∀ i, 0 ≤ i < 262144 → plain batch i = None.
Proof.
  intros [Hok _ _ _] He i Hi. apply eq_None_not_Some. rewrite (plain_is_Some (GS b) miner) by done.
  unfold entry_batch_is_empty, batch_data_is_empty in He. destruct (eb_data batch) as [|x]; [done|].
  apply bool_decide_eq_true in He. cbn. rewrite He. by intros [].
Qed.

(** The batch that is cut: the operation, the batch it leaves behind, and the
    seals to seal again. *)
Definition reseals batch (batch' : EntryBatch B) (off s : Z) : Prop :=
  0 ≤ s < 64 ∧ s * 16 < off ∧ is_seal_sealed batch s = true ∧ is_seal_sealed batch' s = false.

Lemma truncate_first_spec GS GS' LF LF' f start kv batch :
  db_ok miner GS LF f kv → reorg GS GS' LF LF' start → 0 ≤ start < 2 ^ 63 → start `mod` 1024 ≠ 0 →
  let b := start / 1024 in
  get_entry_batch kv b = Ok (Some batch) →
  ∃ batch' o' l, truncate_first_batch (B := B) kv b (start `mod` 1024) = Ok ([batch_op (b, o')], l) ∧
    holds miner GS' LF' (cut_flow f start) b o' ∧ (o' = Some batch' ∨ o' = None ∧ ∀ i, 0 ≤ i < 262144 → cut_flow f start (b * 262144 + i) = None) ∧
    (∀ idx, idx ∈ l ↔ idx / 64 = b ∧ reseals batch batch' (start `mod` 1024) (idx `mod` 64)) ∧
    ∀ s, 0 ≤ s < 64 → is_seal_sealed batch' s = true → is_seal_sealed batch s = true.
Proof.
  intros Hdb Hro Hs Hoff b Hget. set (t := start `mod` 1024) in *.
  assert (0 < t < 1024) as Ht by (unfold t in *; pose proof (Z.mod_pos_bound start 1024); lia).
  assert (batch_index_ok b) as Hb by (unfold b, batch_index_ok; Z.to_euclidean_division_equations; lia).
  destruct (do_batch _ _ _ _ _ Hdb b Hb) as (o & Ho & Hh). rewrite Hget in Ho. injection Ho as <-. destruct Hh as [Hst Hp].
  destruct (truncate_stored (GS b) (do_contexts _ _ _ _ _ Hdb b) miner b (LF b) (GS' b) (LF' b) batch t)
    as (batch' & seals & Htr & Hok' & Hli & Hsub & Hl & Hp' & Hrange & Hin & Hmono).
  { done. }
  { unfold given. destruct (b =? 0); lia. }
  { done. }
  { by apply (ro_leaves _ _ _ _ _ Hro). }
  { apply (ro_cut_leaves _ _ _ _ _ Hro). }
  { apply (ro_contexts _ _ _ _ _ Hro). }
  { apply (ro_cut_contexts _ _ _ _ _ Hro). }
  assert (∀ i, 0 ≤ i < 262144 → plain batch' i = cut_flow f start (b * 262144 + i)) as Hpf.
  { intros i Hi. rewrite Hp' by done. unfold cut_bytes, cut_flow. rewrite Hp by done.
    erewrite bool_decide_ext; [done|]. unfold t, b. Z.to_euclidean_division_equations; lia. }
  unfold truncate_first_batch. rewrite Hget, bind_Ok, Htr, bind_Ok. cbn [fst snd].
  assert (∀ idx, idx ∈ map (λ x, b * SEALS_PER_LOAD + x) seals ↔ idx / 64 = b ∧ reseals batch batch' t (idx `mod` 64)) as Hidx.
  { intros idx. change SEALS_PER_LOAD with 64. rewrite (list_elem_of_fmap (λ x, b * 64 + x)). split.
    - intros (s & -> & Hsl). pose proof (Hrange s Hsl) as Hs64. apply Hin in Hsl; [|done].
      assert ((b * 64 + s) / 64 = b ∧ (b * 64 + s) `mod` 64 = s) as [-> ->] by (Z.to_euclidean_division_equations; lia).
      by split.
    - intros [Hb' [Hs64 Hr]]. exists (idx `mod` 64). split; [Z.to_euclidean_division_equations; lia|]. by apply Hin. }
  destruct (entry_batch_is_empty batch') eqn:He.
  - exists batch', None. eexists. split; [done|].
    assert (∀ i, 0 ≤ i < 262144 → cut_flow f start (b * 262144 + i) = None) as Hnone.
    { intros i Hi. rewrite <- Hpf by done. by apply (empty_batch_none GS' LF' b batch'). }
    split_and!; [done|by right|done|done].
  - exists batch', (Some batch'). eexists. split; [done|]. split_and!; [by split|by left|done|done].
Qed.

Lemma stored_key kv b batch :
  get_entry_batch kv b = Ok (Some batch) → is_Some (kv_map kv !! (COL_ENTRY_BATCH, batch_key b)).
Proof. unfold get_entry_batch. rewrite kv_get_map, bind_Ok. by destruct (kv_map kv !! _). Qed.

Lemma no_key_none kv b :
  kv_map kv !! (COL_ENTRY_BATCH, batch_key b) = None → get_entry_batch kv b = Ok (None : option (EntryBatch B)).
Proof. unfold get_entry_batch. rewrite kv_get_map, bind_Ok. by intros ->. Qed.

(** The first batch that is deleted. *)
Definition first_deleted (start : Z) : Z := if start `mod` 1024 =? 0 then start / 1024 else start / 1024 + 1.

(** The batch that is cut has been dealt with by [p]. *)
Definition cut_done GS' LF' f start kv (p : list (Z * option (EntryBatch B))) : Prop :=
  (p = [] ∧ (start `mod` 1024 = 0 ∨ get_entry_batch kv (start / 1024) = Ok (None : option (EntryBatch B)))) ∨
  (∃ o' batch, p = [(start / 1024, o')] ∧ start `mod` 1024 ≠ 0 ∧ holds miner GS' LF' (cut_flow f start) (start / 1024) o' ∧
     get_entry_batch kv (start / 1024) = Ok (Some batch)).

(** A batch that is neither cut nor deleted, after the cut. *)
Lemma cut_other GS GS' LF LF' f start kv p b (o : option (EntryBatch B)) :
  reorg GS GS' LF LF' start → 0 ≤ start → cut_done GS' LF' f start kv p → b ∉ p.*1 →
  get_entry_batch kv b = Ok o → holds miner GS LF f b o → (b < first_deleted start ∨ o = None) →
  holds miner GS' LF' (cut_flow f start) b o.
Proof.
  intros Hro Hs Hdone Hnot Hget Hh Hlt. destruct (decide (b < start / 1024)) as [Hb|Hb]; [by eapply cut_below|].
  assert (o = None) as ->.
  { destruct Hlt as [Hlt|]; [|done]. unfold first_deleted in Hlt. destruct (Z.eqb_spec (start `mod` 1024) 0); [lia|].
    assert (b = start / 1024) as -> by lia. destruct Hdone as [[-> [?|Hn]]|(o' & batch & -> & _)]; [done|congruence|].
    exfalso. apply Hnot. by left. }
  destruct (decide (start / 1024 < b ∨ b = start / 1024 ∧ start `mod` 1024 = 0)) as [Ha|Ha]; [by apply cut_after|].
  assert (b = start / 1024) as -> by lia. intros i Hi. unfold cut_flow. case_bool_decide; [by apply Hh|done].
Qed.

Lemma truncate_rest GS GS' LF LF' f start kv p (l : list Z) :
  db_ok miner GS LF f kv → reorg GS GS' LF LF' start → 0 ≤ start < 2 ^ 63 → cut_done GS' LF' f start kv p →
  wp (o ← gets_ok (λ d : KV, kv_last_key d COL_ENTRY_BATCH);
      match o with
      | None => mret l
      | Some k =>
          end_ ← lift (decode_batch_index k);
          _ ← kv_write ((batch_op <$> p) ++ ((λ i, Delete COL_ENTRY_BATCH (batch_key i)) <$>
                seqZ (first_deleted start) (end_ - first_deleted start + 1)));
          mret l
      end)
    (λ l' kv', l' = l ∧ db_ok miner GS' LF' (cut_flow f start) kv' ∧
       ∀ b, batch_index_ok b → b < first_deleted start →
         get_entry_batch kv' b = match p with [(b', o')] => if b =? b' then Ok o' else get_entry_batch kv b
                                 | _ => get_entry_batch kv b end) kv.
Proof.
  intros Hdb Hro Hs Hdone. apply wp_bind. destruct (kv_last_key_map kv COL_ENTRY_BATCH) as (o & Ho & Hlast).
  eapply wp_gets_ok; [exact Ho|].
  assert (∀ b, b ∈ p.*1 → b = start / 1024 ∧ start `mod` 1024 ≠ 0) as Hp.
  { intros b Hb. destruct Hdone as [[-> _]|(o' & batch & -> & ? & _)]; [by apply elem_of_nil in Hb|].
    by apply list_elem_of_singleton in Hb. }
  destruct o as [k|].
  - destruct Hlast as [Hk Hmax]. destruct (do_keys _ _ _ _ _ Hdb k Hk) as (e & He & ->).
    apply wp_bind. eapply wp_lift; [apply decode_batch_key, He|]. apply wp_bind.
    set (dels := seqZ (first_deleted start) (e - first_deleted start + 1)).
    assert (∀ b, b ∈ dels ↔ first_deleted start ≤ b ≤ e) as Hdels by (intros b; unfold dels; rewrite elem_of_seqZ; lia).
    set (all := p ++ ((λ b, (b, None)) <$> dels) : list (Z * option (EntryBatch B))).
    assert (all.*1 = p.*1 ++ dels) as Hfst.
    { unfold all. rewrite fmap_app. f_equal. rewrite <- list_fmap_compose. apply list_fmap_id. }
    assert ((batch_op <$> p) ++ ((λ i, Delete COL_ENTRY_BATCH (batch_key i)) <$> dels) = batch_op <$> all) as ->
      by (unfold all; rewrite fmap_app, <- (list_fmap_compose (λ b, (b, None)) batch_op); done).
    assert (first_deleted start = start / 1024 ∧ start `mod` 1024 = 0 ∨ first_deleted start = start / 1024 + 1 ∧ start `mod` 1024 ≠ 0)
      as Hfd by (unfold first_deleted; destruct (Z.eqb_spec (start `mod` 1024) 0); lia).
    eapply wp_mono; [apply (db_write_spec miner GS GS' LF LF' f (cut_flow f start) kv all Hdb)|].
    + rewrite Hfst. apply NoDup_app. split_and!; [|intros b Hb Hd; apply Hp in Hb as [-> ?]; apply Hdels in Hd; lia|apply NoDup_seqZ].
      destruct Hdone as [[-> _]|(o' & batch & -> & _)]; [constructor|apply NoDup_singleton].
    + intros b o [Hb|Hb]%elem_of_app.
      * destruct Hdone as [[-> _]|(o' & batch & -> & ? & Hh & _)]; [by apply elem_of_nil in Hb|].
        apply list_elem_of_singleton in Hb as [= -> ->]. split; [|done].
        unfold batch_index_ok. Z.to_euclidean_division_equations; lia.
      * apply list_elem_of_fmap in Hb as (b' & [= -> ->] & Hb%Hdels). unfold batch_index_ok in *.
        split; [Z.to_euclidean_division_equations; lia|]. apply cut_after; lia.
    + intros b o Hb Hnot Hget Hh. rewrite Hfst, elem_of_app in Hnot.
      apply (cut_other GS GS' LF LF' f start kv p b o); [done|lia|done|tauto|done|done|].
      destruct (decide (b < first_deleted start)); [by left|right]. destruct o as [batch|]; [exfalso|done].
      apply stored_key in Hget. apply Hmax in Hget. apply batch_key_le in Hget; [|unfold batch_index_ok in *; lia..].
      apply Hnot. right. apply Hdels. lia.
    + apply (ro_contexts _ _ _ _ _ Hro).
    + apply (ro_leaves _ _ _ _ _ Hro).
    + intros [] kv' [Hdb' Hget]. apply wp_ret. split_and!; [done|done|]. intros b Hb Hlt. rewrite Hget by done.
      unfold after_write, all. destruct (list_find _ _) as [[k q]|] eqn:Hf.
      * apply list_find_Some in Hf as (Hq & <- & _). apply list_elem_of_lookup_2, elem_of_app in Hq as [Hq|Hq].
        -- destruct Hdone as [[-> _]|(o' & batch & -> & _)]; [by apply elem_of_nil in Hq|].
           apply list_elem_of_singleton in Hq as ->. cbn. by rewrite Z.eqb_refl.
        -- apply list_elem_of_fmap in Hq as (b' & -> & Hb'%Hdels). cbn in Hlt. lia.
      * apply list_find_None in Hf. apply Forall_app in Hf as [Hf _].
        destruct Hdone as [[-> _]|(o' & batch & -> & _)]; [done|]. rewrite Forall_singleton in Hf. cbn in Hf.
        by rewrite (proj2 (Z.eqb_neq b (start / 1024))).
  - apply wp_ret. assert (∀ b, get_entry_batch kv b = Ok (None : option (EntryBatch B))) as Hnone
      by (intros b; apply no_key_none, Hlast).
    assert (p = []) as -> by (destruct Hdone as [[-> _]|(o' & batch & _ & _ & _ & Hget)]; [done|by rewrite Hnone in Hget]).
    split_and!; [done| |done]. split; [apply (do_writable _ _ _ _ _ Hdb)|apply (ro_contexts _ _ _ _ _ Hro)
      |apply (ro_leaves _ _ _ _ _ Hro)|apply (do_keys _ _ _ _ _ Hdb)|].
    intros b Hb. exists None. split; [done|]. destruct (do_batch _ _ _ _ _ Hdb b Hb) as (o & Ho' & Hh).
    rewrite Hnone in Ho'. injection Ho' as <-. intros i Hi. unfold cut_flow. case_bool_decide; [by apply Hh|done].
Qed.

(** The seals to seal again, and the batch that was cut. *)
Definition cut_result f start kv kv' (l : list Z) : Prop :=
  (start `mod` 1024 ≠ 0 ∧ ∃ (batch batch' : EntryBatch B) o',
     get_entry_batch kv (start / 1024) = Ok (Some batch) ∧ get_entry_batch kv' (start / 1024) = Ok o' ∧
     (o' = Some batch' ∨
      o' = None ∧ ∀ i, 0 ≤ i < 262144 → cut_flow f start (start / 1024 * 262144 + i) = None) ∧
     (∀ idx, idx ∈ l ↔ idx / 64 = start / 1024 ∧ reseals batch batch' (start `mod` 1024) (idx `mod` 64)) ∧
     ∀ s, 0 ≤ s < 64 → is_seal_sealed batch' s = true → is_seal_sealed batch s = true) ∨
  (l = [] ∧ (start `mod` 1024 = 0 ∨ get_entry_batch kv (start / 1024) = Ok (None : option (EntryBatch B)))).

Lemma db_truncate_spec GS GS' LF LF' f start kv :
  db_ok miner GS LF f kv → reorg GS GS' LF LF' start → 0 ≤ start < 2 ^ 63 →
  wp (db_truncate (B := B) start 1024)
    (λ l kv', db_ok miner GS' LF' (cut_flow f start) kv' ∧ cut_result f start kv kv' l ∧
       ∀ b, batch_index_ok b → b < start / 1024 →
         get_entry_batch kv' b = (get_entry_batch kv b : outcome (option (EntryBatch B)))) kv.
Proof.
  intros Hdb Hro Hs. unfold db_truncate. cbn [Z.eqb]. apply wp_bind.
  assert (batch_index_ok (start / 1024)) as Hb0 by (unfold batch_index_ok; Z.to_euclidean_division_equations; lia).
  assert (start / 1024 ≤ first_deleted start) as Hfd by (unfold first_deleted; destruct (_ =? 0); lia).
  assert (∀ b, b < start / 1024 → b < first_deleted start) as Hlt by lia.
  destruct (Z.eqb_spec (start `mod` 1024) 0) as [Hz|Hz].
  - eapply wp_gets_ok; [done|]. cbn [fst snd app].
    pose proof (truncate_rest GS GS' LF LF' f start kv [] [] Hdb Hro Hs ltac:(left; split; [done|by left])) as Hw.
    unfold first_deleted in Hw at 1 2. rewrite Hz in Hw. eapply wp_mono; [exact Hw|].
    intros l kv' (-> & Hdb' & Hget). split_and!; [done|right; split; [done|by left]|]. intros b Hb Hb'. by apply Hget; auto.
  - destruct (do_batch _ _ _ _ _ Hdb _ Hb0) as (o & Ho & _).
    assert ((if start `mod` 1024 =? 0 then start / 1024 else start / 1024 + 1) = start / 1024 + 1) as Hfd1
      by (by rewrite (proj2 (Z.eqb_neq _ _))).
    destruct o as [batch|].
    + destruct (truncate_first_spec GS GS' LF LF' f start kv batch Hdb Hro Hs Hz Ho) as (batch' & o' & l & Hf & Hh & Ho' & Hin & Hmono).
      eapply wp_gets_ok; [exact Hf|]. cbn [fst snd].
      pose proof (truncate_rest GS GS' LF LF' f start kv [(start / 1024, o')] l Hdb Hro Hs) as Hw.
      unfold first_deleted in Hw at 1 2. rewrite Hfd1 in Hw. eapply wp_mono; [apply Hw; right; by exists o', batch|].
      intros l' kv' (-> & Hdb' & Hget). split_and!; [done| |].
      * left. split; [done|]. exists batch, batch', o'. split_and!; [done| |done|done|done].
        rewrite Hget by (done || unfold first_deleted; lia). by rewrite Z.eqb_refl.
      * intros b Hb Hb'. rewrite Hget by auto. by rewrite (proj2 (Z.eqb_neq b (start / 1024))) by lia.
    + eapply wp_gets_ok; [unfold truncate_first_batch; by rewrite Ho, bind_Ok|]. cbn [fst snd].
      pose proof (truncate_rest GS GS' LF LF' f start kv [] [] Hdb Hro Hs ltac:(left; split; [done|by right])) as Hw.
      unfold first_deleted in Hw at 1 2. rewrite Hfd1 in Hw. eapply wp_mono; [exact Hw|].
      intros l kv' (-> & Hdb' & Hget). split_and!; [done|right; split; [done|by right]|]. intros b Hb Hb'. by apply Hget; auto.
Qed.

(** ** The flow store *)

Lemma insert_tasks_spec self (l : list Z) v :
  wp (for_each l (λ x, modify_seal_set (insert x v)))
    (λ _ self', ∃ m, self' = with_tasks m self ∧
       ∀ idx, m !! idx = if bool_decide (idx ∈ l) then Some v else tasks self !! idx) self.
Proof.
  apply wp_for_each with (I := λ dn self', ∃ m, self' = with_tasks m self ∧
    ∀ idx, m !! idx = if bool_decide (idx ∈ dn) then Some v else tasks self !! idx).
  - exists (tasks self). by rewrite with_tasks_self.
  - intros dn x todo self' _ (m & -> & Hm). apply wp_modify. exists (<[x := v]> m). split; [done|]. intros idx.
    destruct (decide (idx = x)) as [->|Hne].
    + rewrite lookup_insert_eq, bool_decide_true; [done|set_solver].
    + rewrite lookup_insert_ne, Hm by done. erewrite bool_decide_ext; [done|set_solver].
  - done.
Qed.

Lemma truncate_spec GS GS' LF LF' f start self :
  flow_ok miner GS LF f self → reorg GS GS' LF LF' start → 0 ≤ start < 2 ^ 63 →
  wp (truncate (B := B) start)
    (λ _ self', flow_ok miner GS' LF' (cut_flow f start) self' ∧ fs_shard_config self' = fs_shard_config self ∧
       ∃ l, cut_result f start (data_db self) (data_db self') l ∧
         (∀ b, batch_index_ok b → b < start / 1024 →
            get_entry_batch (data_db self') b = (get_entry_batch (data_db self) b : outcome (option (EntryBatch B)))) ∧
         ∀ idx, tasks self' !! idx =
           if bool_decide (idx ∈ l) then Some (wrap64 (to_seal_version (seal_manager self) + 1))
           else if bool_decide (idx < start / 16) then tasks self !! idx else None) self.
Proof.
  intros [Hsz Hdb] Hro Hs. unfold truncate. apply wp_bind, wp_gets. rewrite Hsz. apply wp_bind, wp_zoom.
  eapply wp_mono; [by apply (db_truncate_spec GS GS' LF LF' f)|]. intros l kv' (Hdb' & Hcut & Hbelow). cbn [set_data_db].
  apply wp_bind, wp_modify. apply wp_bind, wp_gets. apply wp_bind, wp_modify.
  eapply wp_mono; [apply insert_tasks_spec|]. intros [] self' (m & -> & Hm). split; [by split|]. split; [done|].
  exists l. split_and!; [done|done|]. intros idx. unfold tasks at 1. cbn. rewrite Hm. case_bool_decide; [done|].
  unfold tasks. cbn. change SECTORS_PER_SEAL with 16. apply lookup_btree_below.
Qed.

(** The tasks stay correct when the cut does not go through a sealed seal. *)
Lemma truncate_tasks GS GS' LF LF' f start self self' (l : list Z) :
  flow_ok miner GS LF f self → flow_ok miner GS' LF' (cut_flow f start) self' → 0 ≤ start < 2 ^ 63 →
  tasks_ok (B := B) self f → cut_result f start (data_db self) (data_db self') l →
  (∀ b, batch_index_ok b → b < start / 1024 →
     get_entry_batch (data_db self') b = (get_entry_batch (data_db self) b : outcome (option (EntryBatch B)))) →
  (∀ idx v, tasks self' !! idx = Some v → idx ∈ l ∨ idx < start / 16 ∧ is_Some (tasks self !! idx)) →
  (∀ idx, idx ∈ l → (idx + 1) * 16 ≤ start) →
  tasks_ok (B := B) self' (cut_flow f start).
Proof.
  intros Hok Hok' Hs Htk Hcut Hbelow Htasks Hl idx v Hv.
  assert (∀ x, x < (start / 16) * 4096 → is_Some (f x) → is_Some (cut_flow f start x)) as Hkeep.
  { intros x Hx Hf. unfold cut_flow. rewrite bool_decide_true; [done|]. Z.to_euclidean_division_equations; lia. }
  destruct (Htasks idx v Hv) as [Hin|[Hlt [v' Hv']]].
  - destruct Hcut as [(Hoff & batch & batch' & o' & Hget & Hget' & Ho' & Hiff & Hmono)|[-> _]]; [|by apply elem_of_nil in Hin].
    pose proof (Hl idx Hin) as Hle. apply Hiff in Hin as [Hb [Hs64 (Hs16 & Hsealed & Hunsealed)]].
    assert (batch_index_ok (start / 1024)) as Hb0 by (unfold batch_index_ok; Z.to_euclidean_division_equations; lia).
    destruct Hok as [_ Hdb]. destruct (do_batch _ _ _ _ _ Hdb _ Hb0) as (o & Ho & Hh). rewrite Hget in Ho. injection Ho as <-.
    destruct Hh as [[Hbok _ _ _] Hp].
    assert (∀ x, idx * 4096 ≤ x < (idx + 1) * 4096 → is_Some (cut_flow f start x)) as Hknown.
    { intros x Hx. apply Hkeep; [Z.to_euclidean_division_equations; lia|].
      replace x with (start / 1024 * 262144 + (x - start / 1024 * 262144)) by lia.
      rewrite <- Hp by (Z.to_euclidean_division_equations; lia). apply (plain_is_Some (GS (start / 1024)) miner); [done| |].
      - Z.to_euclidean_division_equations; lia.
      - apply (read_range_is_Some _ (idx `mod` 64 * 4096) 4096); [by apply (bk_known _ _ _ Hbok)|].
        Z.to_euclidean_division_equations; lia. }
    split_and!; [Z.to_euclidean_division_equations; lia|by rewrite Hb| |done].
    rewrite Hb, Hget'. destruct Ho' as [->|[-> Hnone]]; [by exists batch'|exfalso].
    destruct (Hknown (idx * 4096) ltac:(lia)) as [y Hy].
    replace (idx * 4096) with (start / 1024 * 262144 + (idx * 4096 - start / 1024 * 262144)) in Hy by lia.
    rewrite Hnone in Hy; [done|]. Z.to_euclidean_division_equations; lia.
  - destruct (Htk idx v' Hv') as (Hidx & Hb & (batch & Hget & Hu) & Hf).
    assert (∀ x, idx * 4096 ≤ x < (idx + 1) * 4096 → is_Some (cut_flow f start x)) as Hknown.
    { intros x Hx. apply Hkeep; [lia|by apply Hf]. }
    split_and!; [done|done| |done].
    destruct (decide (idx / 64 < start / 1024)) as [Hlt'|Hge]; [rewrite Hbelow by done; by exists batch|].
    assert (idx / 64 = start / 1024) as Heq by (Z.to_euclidean_division_equations; lia). rewrite Heq in *.
    destruct Hcut as [(Hoff & batch0 & batch' & o' & Hget0 & Hget' & Ho' & _ & Hmono)|[_ [Hz|Hn]]].
    + rewrite Hget in Hget0. injection Hget0 as <-. rewrite Hget'. destruct Ho' as [->|[-> Hnone]].
      * exists batch'. split; [done|]. destruct (is_seal_sealed batch' (idx `mod` 64)) eqn:Hs'; [|done].
        rewrite (Hmono (idx `mod` 64)) in Hu; [done| |done]. apply Z.mod_pos_bound. lia.
      * exfalso. destruct (Hknown (idx * 4096) ltac:(lia)) as [y Hy].
        replace (idx * 4096) with (start / 1024 * 262144 + (idx * 4096 - start / 1024 * 262144)) in Hy by lia.
        rewrite Hnone in Hy; [done|]. Z.to_euclidean_division_equations; lia.
    + exfalso. Z.to_euclidean_division_equations; lia.
    + congruence.
Qed.

End truncate.
