(* ===== verification/FlowSeal.v ===== *)
(** Pulling seal tasks and submitting answers. *)

From stdpp Require Import sorting list_numbers.
From S2P Require Import Prelude HashElement Ssz SszFacts MerkleSpec MerkleProof NodeStore AppendMerkle Bytes FlowDb.
From S2P Require Import Shard SharedTypes Seal ChunkData ChunkDataFacts ChunkDataInsert.
From S2P Require Import SealInfo EntryBatch EntryBatchFacts Serde BatchRoot BatchTheorems.
From S2P Require Import BatchStored FlowStore FlowStoreFacts FlowAppend.
Local Open Scope Z_scope.

(** ** Groups of answers *)

Lemma chunk_by_concat {A} (key : A → Z) l : concat ((chunk_by key l).*2) = l.
Proof.
  induction l as [|a l IH]; [done|]. cbn [chunk_by]. destruct (chunk_by key l) as [|[k g] rest]; cbn in IH |- *; [by subst|].
  destruct (_ =? _); cbn; by rewrite <- IH.
Qed.

Lemma chunk_by_key {A} (key : A → Z) l k g a : (k, g) ∈ chunk_by key l → a ∈ g → key a = k.
Proof.
  revert k g. induction l as [|x l IH]; intros k g; cbn [chunk_by]; [by intros ?%elem_of_nil|].
  destruct (chunk_by key l) as [|[k' g'] rest].
  - intros Hin Ha. apply list_elem_of_singleton in Hin as [= -> ->]. by apply list_elem_of_singleton in Ha as ->.
  - destruct (Z.eqb_spec (key x) k') as [He|He]; intros [[= -> ->]|Hin]%elem_of_cons Ha.
    + apply elem_of_cons in Ha as [->|Ha]; [done|]. apply (IH k' g'); [by left|done].
    + apply (IH k g); [by right|done].
    + by apply list_elem_of_singleton in Ha as ->.
    + by apply (IH k g).
Qed.

Lemma chunk_by_nonempty {A} (key : A → Z) l k g : (k, g) ∈ chunk_by key l → g ≠ [].
Proof.
  revert k g. induction l as [|x l IH]; intros k g; cbn [chunk_by]; [by intros ?%elem_of_nil|].
  destruct (chunk_by key l) as [|[k' g'] rest].
  - intros Hin. by apply list_elem_of_singleton in Hin as [= -> ->].
  - destruct (_ =? _); intros [[= -> ->]|Hin]%elem_of_cons; [done|apply (IH k g); by right|done|by apply (IH k g)].
Qed.

Lemma NoDup_concat_part {A C} (f : A → C) (ls : list (list A)) g : NoDup (f <$> concat ls) → g ∈ ls → NoDup (f <$> g).
Proof.
  induction ls as [|l ls IH]; intros Hnd Hg; [by apply elem_of_nil in Hg|]. cbn in Hnd. rewrite fmap_app in Hnd.
  apply NoDup_app in Hnd as (H1 & _ & H2). apply elem_of_cons in Hg as [->|Hg]; [done|by apply IH].
Qed.

Section seal.
Context `{Keccak, Bitmap64 B, !Bitmap64Laws B, KeyValueDBLaws KV, !KeyValueIter KV, !KeyValueIterLaws KV}.
Context (miner : H256).
Implicit Types (GS : Z → Z → SealContextInfo) (LF : Z → list OptionalHash) (f : Z → option Z).
Implicit Types (self : FlowStore KV) (batch : EntryBatch B).

(** ** [pull_seal_chunk] *)

(** The bytes of a seal, by its index in the flow. *)
Definition seal_bytes f (idx : Z) : option (list Z) := read_range f (idx * 4096) 4096.

Lemma non_sealed_spec GS LF f b batch idx :
  holds miner GS LF f b (Some batch) → idx / 64 = b → is_seal_sealed batch (idx `mod` 64) = false →
  get_non_sealed_data batch (idx `mod` 64) = Ok (seal_bytes f idx).
Proof.
  intros [[[Hd _ _] _ _ _] Hp] Hb Hu. unfold get_non_sealed_data. unfold is_seal_sealed in Hu. rewrite Hu. cbn [negb].
  change BYTES_PER_SEAL with 4096. pose proof (Z.mod_pos_bound idx 64 ltac:(lia)).
  rewrite batch_data_get_spec by (done || (change BYTES_PER_LOAD with 262144; lia) || lia). f_equal. unfold seal_bytes.
  replace (idx * 4096) with (b * 262144 + idx `mod` 64 * 4096) by (Z.to_euclidean_division_equations; lia).
  rewrite <- (read_range_shift f). apply read_range_ext. intros i Hi.
  rewrite <- Hp by lia. symmetry. by apply (plain_unsealed batch (idx `mod` 64)).
Qed.

(** A task with the bytes of its seal. *)
Definition task_of f (t : SealTask) : Prop := seal_bytes f (task_seal_index t) = Some (non_sealed_data t).

Lemma seal_tasks_spec GS LF f b batch items :
  holds miner GS LF f b (Some batch) →
  (∀ idx v, (idx, v) ∈ items → idx / 64 = b ∧ is_seal_sealed batch (idx `mod` 64) = false ∧ is_Some (seal_bytes f idx)) →
  ∃ ts, seal_tasks batch items = Ok ts ∧ (λ t, (task_seal_index t, task_version t)) <$> ts = items ∧ Forall (task_of f) ts.
Proof.
  intros Hh. induction items as [|[idx v] items IH]; intros Hall; [by exists []|].
  destruct (Hall idx v ltac:(left)) as (Hb & Hu & [data Hdata]).
  destruct IH as (ts & Hts & Hmap & Hf); [intros idx' v' Hin; apply (Hall idx' v'); by right|].
  cbn [seal_tasks]. change SEALS_PER_LOAD with 64. rewrite (non_sealed_spec GS LF f b) by done.
  rewrite Hdata, bind_Ok. cbn [expect]. rewrite bind_Ok, Hts, bind_Ok.
  eexists. split; [done|]. split; [cbn; by rewrite Hmap|]. by constructor.
Qed.

Definition with_pull_time (now : Z) self : FlowStore KV :=
  set_seal_manager (update_pull_time now (seal_manager self)) self.

Lemma task_seal_bytes f self idx v :
  tasks_ok (B := B) self f → tasks self !! idx = Some v → is_Some (seal_bytes f idx).
Proof.
  intros Htk Hv. destruct (Htk idx v Hv) as (_ & _ & _ & Hf). apply read_range_is_Some. intros i Hi. apply Hf. lia.
Qed.

Lemma pull_seal_chunk_spec GS LF f self seal_index_max now :
  flow_ok miner GS LF f self → tasks_ok (B := B) self f →
  wp (pull_seal_chunk (B := B) seal_index_max now)
    (λ o self', self' = with_pull_time now self ∧
       match o with
       | None => ∀ idx v, tasks self !! idx = Some v → seal_index_max ≤ idx
       | Some ts => ts ≠ [] ∧ NoDup (task_seal_index <$> ts) ∧ Forall (task_of f) ts ∧
           ∃ b, ∀ t, t ∈ ts → task_seal_index t / 64 = b ∧ task_seal_index t < seal_index_max ∧
             tasks self !! task_seal_index t = Some (task_version t)
       end) self.
Proof.
  intros [_ Hdb] Htk. unfold pull_seal_chunk. apply wp_bind, wp_gets. apply wp_bind, wp_modify.
  fold (tasks self) (with_pull_time now self). change SEALS_PER_LOAD with 64.
  destruct (btree_iter (tasks self)) as [|[first v] rest] eqn:Hit.
  { apply wp_ret. split; [done|]. intros idx v Hv. apply btree_iter_nil in Hit. rewrite Hit in Hv. done. }
  destruct (btree_iter_least _ _ _ _ Hit) as [Hfirst Hleast].
  destruct (Z.leb_spec seal_index_max first) as [Hle|Hlt].
  { apply wp_ret. split; [done|]. intros idx v' Hv'. specialize (Hleast idx ltac:(done)). lia. }
  destruct (Htk first v Hfirst) as (_ & Hb & (batch & Hget & _) & _).
  destruct (do_batch _ _ _ _ _ Hdb _ Hb) as (o & Ho & Hh). rewrite Hget in Ho. injection Ho as <-.
  apply wp_bind. eapply wp_gets_ok; [exact Hget|]. apply wp_bind. eapply wp_lift; [done|].
  set (items := (first, v) :: filter _ rest).
  assert (items `sublist_of` btree_iter (tasks self)) as Hsub
    by (rewrite Hit; apply sublist_skip, sublist_filter).
  assert (∀ idx w, (idx, w) ∈ items → tasks self !! idx = Some w ∧ idx / 64 = first / 64 ∧ idx < seal_index_max) as Hitems.
  { intros idx w Hin. split.
    - apply elem_of_btree_iter. eapply elem_of_submseteq; [done|by apply sublist_submseteq].
    - apply elem_of_cons in Hin as [[= -> ->]|Hin]; [done|]. apply list_elem_of_filter in Hin as [[Hd Hm] _]. cbn in Hd, Hm. by split. }
  destruct (seal_tasks_spec GS LF f (first / 64) batch items Hh) as (ts & Hts & Hmap & Hf).
  { intros idx w Hin. destruct (Hitems idx w Hin) as (Hw & Hd & _). split_and!; [done| |by eapply task_seal_bytes].
    destruct (Htk idx w Hw) as (_ & _ & (batch' & Hget' & Hu) & _). rewrite Hd, Hget in Hget'. by injection Hget' as <-. }
  apply wp_bind. eapply wp_lift; [exact Hts|]. apply wp_ret. split; [done|].
  assert (∀ t, t ∈ ts → (task_seal_index t, task_version t) ∈ items) as Hin.
  { intros t Ht. rewrite <- Hmap. by apply (list_elem_of_fmap_2 (λ t, (task_seal_index t, task_version t))). }
  split_and!; [intros ->; done| |done|].
  - assert (task_seal_index <$> ts = items.*1) as ->.
    { rewrite <- Hmap, <- list_fmap_compose. apply list_fmap_ext. by intros i t. }
    eapply sublist_NoDup; [apply (btree_iter_NoDup (tasks self))|]. by apply fmap_sublist.
  - exists (first / 64). intros t Ht. destruct (Hitems _ _ (Hin t Ht)) as (? & ? & ?). by split_and!.
Qed.

(** ** [submit_seal_result] *)

(** A correct answer for a seal: its bytes sealed with its context. *)
Record good_answer GS f (a : SealAnswer) : Prop := {
  ga_context : seal_context a = context_digest (GS (sa_seal_index a / 64) (sa_seal_index a `mod` 64));
  ga_end : wrap16 (Z.min (wrap64 (context_end_seal a - wrap64 (sa_seal_index a / 64 * SEALS_PER_LOAD))) SEALS_PER_LOAD)
    = end_seal_index (GS (sa_seal_index a / 64) (sa_seal_index a `mod` 64));
  ga_miner : sa_miner_id a = miner;
  ga_data : ∃ c, seal_bytes f (sa_seal_index a) = Some c ∧
    seal c miner (seal_context a) (wrap64 (sa_seal_index a * SECTORS_PER_SEAL)) = Ok (sealed_data a);
}.

Lemma good_answer_ok GS LF f b batch a :
  stored_ok (GS b) miner b (LF b) batch → (∀ i, 0 ≤ i < 262144 → plain batch i = f (b * 262144 + i)) →
  good_answer GS f a → sa_seal_index a / 64 = b → is_seal_sealed batch (sa_seal_index a `mod` 64) = false →
  answer_ok (GS b) miner batch (sa_seal_index a `mod` 64) a.
Proof.
  intros [_ Hli _ _] Hp [Hc He Hm (c & Hdata & Hseal)] Hb Hu. pose proof (Z.mod_pos_bound (sa_seal_index a) 64 ltac:(lia)).
  rewrite Hb in *. split; [rewrite Hli; Z.to_euclidean_division_equations; lia|done|done|done|by rewrite Hli|done|].
  exists c. split.
  - rewrite <- Hdata. unfold seal_bytes.
    replace (sa_seal_index a * 4096) with (b * 262144 + sa_seal_index a `mod` 64 * 4096)
      by (Z.to_euclidean_division_equations; lia).
    rewrite <- (read_range_shift f). apply read_range_ext. intros i Hi. apply Hp. lia.
  - rewrite <- Hc. unfold global_seal_sector. rewrite Hli. change SECTORS_PER_LOAD with 1024. change SECTORS_PER_SEAL with 16 in *.
    replace (b * 1024 + sa_seal_index a `mod` 64 * 16) with (sa_seal_index a * 16)
      by (Z.to_euclidean_division_equations; lia). done.
Qed.

Lemma submit_answers_spec GS LF f b batch answers :
  context_map (GS b) → holds miner GS LF f b (Some batch) → NoDup (sa_seal_index <$> answers) →
  (∀ a, a ∈ answers → good_answer GS f a ∧ sa_seal_index a / 64 = b ∧ is_seal_sealed batch (sa_seal_index a `mod` 64) = false) →
  ∃ batch', submit_answers batch answers = Ok batch' ∧ holds miner GS LF f b (Some batch') ∧
    ∀ s, 0 ≤ s < 64 → is_seal_sealed batch' s =
      (if bool_decide (b * 64 + s ∈ sa_seal_index <$> answers) then true else is_seal_sealed batch s).
Proof.
  intros HG. revert batch. induction answers as [|a answers IH]; intros batch Hh Hnd Hall.
  { exists batch. by split_and!. }
  apply NoDup_cons in Hnd as [Hnot Hnd]. destruct (Hall a ltac:(left)) as (Hgood & Hb & Hu). destruct Hh as [Hst Hp].
  destruct (submit_stored (GS b) HG miner b (LF b) batch (sa_seal_index a `mod` 64) a Hst) as (batch1 & Hsub & Hst1 & Hbits & Hp1).
  { by eapply good_answer_ok. }
  assert (∀ s, 0 ≤ s < 64 → b * 64 + s = sa_seal_index a ↔ s = sa_seal_index a `mod` 64) as Heq
    by (intros s Hs; Z.to_euclidean_division_equations; lia).
  destruct (IH batch1) as (batch' & Hrest & Hh' & Hbits'); [|done| |].
  { split; [done|]. intros i Hi. rewrite Hp1 by done. by apply Hp. }
  { intros a' Ha'. destruct (Hall a' ltac:(by right)) as (Hg' & Hb' & Hu'). split_and!; [done|done|].
    rewrite Hbits by (apply Z.mod_pos_bound; lia). rewrite bool_decide_false; [done|]. intros Heq'. apply Hnot.
    apply list_elem_of_fmap. exists a'. split; [Z.to_euclidean_division_equations; lia|done]. }
  exists batch'. cbn [submit_answers]. rewrite Hsub, bind_Ok. split_and!; [done|done|].
  intros s Hs. rewrite Hbits', Hbits by done. cbn [fmap list_fmap].
  destruct (decide (b * 64 + s ∈ sa_seal_index <$> answers)) as [Hin|Hin].
  - rewrite !bool_decide_true; [done|by right|done].
  - rewrite (bool_decide_false (b * 64 + s ∈ sa_seal_index <$> answers)) by done.
    erewrite (bool_decide_ext (s = _)); [done|]. rewrite elem_of_cons, Heq by done. tauto.
Qed.

(** The batch of a group with its answers. *)
Definition submitted GS LF f self (g : Z * list SealAnswer) (p : Z * EntryBatch B) : Prop :=
  p.1 = g.1 ∧ holds miner GS LF f g.1 (Some p.2) ∧ batch_index_ok g.1 ∧
  ∃ batch, get_entry_batch (data_db self) g.1 = Ok (Some batch) ∧
    ∀ s, 0 ≤ s < 64 → is_seal_sealed p.2 s =
      (if bool_decide (g.1 * 64 + s ∈ sa_seal_index <$> g.2) then true else is_seal_sealed batch s).

Lemma submit_groups_spec GS LF f self (groups : list (Z * list SealAnswer)) :
  flow_ok miner GS LF f self → tasks_ok (B := B) self f →
  (∀ b g, (b, g) ∈ groups → g ≠ [] ∧ NoDup (sa_seal_index <$> g)) →
  (∀ b g a, (b, g) ∈ groups → a ∈ g → good_answer GS f a ∧ sa_seal_index a / 64 = b ∧ is_Some (tasks self !! sa_seal_index a)) →
  wp (fold_for groups [] submit_group) (λ l self', self' = self ∧ Forall2 (submitted GS LF f self) groups l) self.
Proof.
  intros [_ Hdb] Htk Hnd Hall.
  apply wp_fold_for with (I := λ dn l self', self' = self ∧ Forall2 (submitted GS LF f self) dn l); [by split| |done].
  intros dn [b g] todo l self' Hgs [-> Hl].
  assert ((b, g) ∈ groups) as Hin by (rewrite Hgs; set_solver). destruct (Hnd b g Hin) as [Hne Hnd'].
  destruct g as [|a0 g0] eqn:Hg; [done|]. rewrite <- Hg in *.
  destruct (Hall b g a0 Hin ltac:(rewrite Hg; left)) as (_ & Hb0 & [v0 Hv0]).
  destruct (Htk _ _ Hv0) as (_ & Hb & (batch & Hget & _) & _). rewrite Hb0 in Hb, Hget.
  destruct (do_batch _ _ _ _ _ Hdb b Hb) as (o & Ho & Hh). rewrite Hget in Ho. injection Ho as <-.
  destruct (submit_answers_spec GS LF f b batch g (do_contexts _ _ _ _ _ Hdb b) Hh Hnd') as (batch' & Hsub & Hh' & Hbits).
  { intros a Ha. destruct (Hall b g a Hin Ha) as (Hgood & Hba & [v Hv]). split_and!; [done|done|].
    destruct (Htk _ _ Hv) as (_ & _ & (batch2 & Hget2 & Hu) & _). rewrite Hba, Hget in Hget2. by injection Hget2 as <-. }
  unfold submit_group. cbn [fst snd]. apply wp_bind. eapply wp_gets_ok; [exact Hget|].
  apply wp_bind. eapply wp_lift; [done|]. apply wp_bind. eapply wp_lift; [exact Hsub|]. apply wp_ret.
  split; [done|]. apply Forall2_app; [done|]. constructor; [|constructor].
  split_and!; [done|done|done|]. by exists batch.
Qed.

Lemma remove_tasks_spec self (l : list Z) :
  wp (for_each l (λ idx, modify_seal_set (delete idx)))
    (λ _ self', ∃ m, self' = with_tasks m self ∧
       ∀ idx, m !! idx = if bool_decide (idx ∈ l) then None else tasks self !! idx) self.
Proof.
  apply wp_for_each with (I := λ dn self', ∃ m, self' = with_tasks m self ∧
    ∀ idx, m !! idx = if bool_decide (idx ∈ dn) then None else tasks self !! idx).
  - exists (tasks self). by rewrite with_tasks_self.
  - intros dn x todo self' _ (m & -> & Hm). apply wp_modify. exists (delete x m). split; [done|]. intros idx.
    destruct (decide (idx = x)) as [->|Hne].
    + rewrite lookup_delete_eq, bool_decide_true; [done|set_solver].
    + rewrite lookup_delete_ne, Hm by done. erewrite bool_decide_ext; [done|set_solver].
  - done.
Qed.

(** The answers that still match a task. *)
Definition consistent_answers self (answers : list SealAnswer) : list SealAnswer :=
  filter (λ a, is_consistent (tasks self) a = true) answers.

Definition answer_groups self (answers : list SealAnswer) : list (Z * list SealAnswer) :=
  chunk_by (λ a, sa_seal_index a / 64) (consistent_answers self answers).

Lemma consistent_task self answers a :
  a ∈ consistent_answers self answers → tasks self !! sa_seal_index a = Some (sa_version a).
Proof.
  intros [Hc _]%list_elem_of_filter. unfold is_consistent in Hc. destruct (tasks self !! _) as [v|]; [|done].
  by apply Z.eqb_eq in Hc as ->.
Qed.

Lemma in_group self answers b g a :
  (b, g) ∈ answer_groups self answers → a ∈ g → a ∈ consistent_answers self answers ∧ sa_seal_index a / 64 = b.
Proof.
  intros Hg Ha. split; [|by eapply (chunk_by_key (λ a, sa_seal_index a / 64))].
  rewrite <- (chunk_by_concat (λ a, sa_seal_index a / 64) (consistent_answers self answers)).
  apply list_elem_of_In, in_concat. exists g. split; apply list_elem_of_In; [|done]. by apply (list_elem_of_fmap_2 snd _ (b, g)).
Qed.

Lemma group_of self answers a :
  a ∈ consistent_answers self answers → ∃ g, (sa_seal_index a / 64, g) ∈ answer_groups self answers ∧ a ∈ g.
Proof.
  intros Hin. rewrite <- (chunk_by_concat (λ a, sa_seal_index a / 64) (consistent_answers self answers)) in Hin.
  fold (answer_groups self answers) in Hin. apply list_elem_of_In, in_concat in Hin as (g & Hg & Hin).
  apply list_elem_of_In in Hg, Hin. apply list_elem_of_fmap in Hg as ([b g'] & -> & Hg). cbn in Hin.
  destruct (in_group self answers b g' a Hg Hin) as [_ <-]. by exists g'.
Qed.

Lemma submitted_fst GS LF f self groups l : Forall2 (submitted GS LF f self) groups l → l.*1 = groups.*1.
Proof. induction 1 as [|g p gs ps [Hp _] _ IH]; [done|]. cbn. by rewrite Hp, IH. Qed.

(** The write after the groups. *)
Lemma submitted_write GS LF f self groups l :
  flow_ok miner GS LF f self → NoDup groups.*1 → Forall2 (submitted GS LF f self) groups l →
  wp (kv_write (batch_op <$> puts l))
    (λ _ kv', db_ok miner GS LF f kv' ∧
       ∀ b, batch_index_ok b → get_entry_batch kv' b = after_write (data_db self) (puts l) b) (data_db self).
Proof.
  intros [_ Hdb] Hnd Hl.
  pose proof (submitted_fst _ _ _ _ _ _ Hl) as Hfst.
  apply (db_write_spec miner GS GS LF LF f f); [done|by rewrite puts_fst, Hfst| |done| |].
  - intros b o ([b' batch'] & [= -> ->] & Hp)%list_elem_of_fmap.
    apply list_elem_of_lookup in Hp as [k Hp].
    destruct (Forall2_lookup_r _ _ _ _ _ Hl Hp) as (g & Hg & (Heq & Hh & Hb & _)). cbn in Heq, Hh. by subst.
  - apply (do_contexts _ _ _ _ _ Hdb).
  - apply (do_leaves _ _ _ _ _ Hdb).
Qed.

(** The seals of a batch after the answers. *)
Definition seals_after self answers (kv' : KV) (b : Z) batch : Prop :=
  ∃ batch' : EntryBatch B, get_entry_batch kv' b = Ok (Some batch') ∧
    ∀ s, 0 ≤ s < 64 → is_seal_sealed batch' s =
      (if bool_decide (b * 64 + s ∈ sa_seal_index <$> consistent_answers self answers) then true
       else is_seal_sealed batch s).

Lemma submitted_seals GS LF f self answers l kv' b batch :
  Forall2 (submitted GS LF f self) (answer_groups self answers) l → NoDup (answer_groups self answers).*1 →
  (∀ b, batch_index_ok b → get_entry_batch kv' b = after_write (data_db self) (puts l) b) →
  batch_index_ok b → get_entry_batch (data_db self) b = Ok (Some batch) → seals_after self answers kv' b batch.
Proof.
  intros Hl Hnd Hget Hb Hbatch. pose proof (submitted_fst _ _ _ _ _ _ Hl) as Hfst. set (groups := answer_groups self answers) in *.
  unfold seals_after. rewrite Hget by done. destruct (decide (b ∈ l.*1)) as [(batch' & Hin)%fst_elem|Hnot].
  - rewrite (after_write_in _ l b batch') by (by rewrite ?Hfst). exists batch'. split; [done|]. intros s Hs.
    apply list_elem_of_lookup in Hin as [k Hk].
    destruct (Forall2_lookup_r _ _ _ _ _ Hl Hk) as ([b2 g] & Hg & (Heq & _ & _ & batch2 & Hget2 & Hbits)). cbn in *. subst b2.
    rewrite Hbatch in Hget2. injection Hget2 as <-. rewrite Hbits by done. erewrite bool_decide_ext; [done|].
    apply list_elem_of_lookup_2 in Hg. split; intros (a & Ha & Hin)%list_elem_of_fmap; rewrite Ha; apply list_elem_of_fmap_2.
    + by apply (in_group self answers b g a Hg).
    + destruct (group_of self answers a Hin) as (g' & Hg' & Ha').
      replace (sa_seal_index a / 64) with b in Hg' by (Z.to_euclidean_division_equations; lia).
      by rewrite (NoDup_fst_unique groups b g g').
  - rewrite after_write_notin by done. exists batch. split; [done|]. intros s Hs. rewrite bool_decide_false; [done|].
    intros (a & Ha & Hin)%list_elem_of_fmap. apply Hnot. rewrite Hfst. destruct (group_of self answers a Hin) as (g' & Hg' & _).
    replace (sa_seal_index a / 64) with b in Hg' by (Z.to_euclidean_division_equations; lia).
    by apply (list_elem_of_fmap_2 fst groups (b, g')).
Qed.

Lemma flow_submit_spec GS LF f self answers :
  flow_ok miner GS LF f self → tasks_ok (B := B) self f →
  let good := consistent_answers self answers in
  NoDup (sa_seal_index <$> good) → NoDup (answer_groups self answers).*1 →
  (∀ a, a ∈ good → good_answer GS f a) →
  wp (flow_submit_seal_result (B := B) answers)
    (λ _ self', flow_ok miner GS LF f self' ∧ tasks_ok (B := B) self' f ∧ fs_shard_config self' = fs_shard_config self ∧
       (∀ idx, tasks self' !! idx = if bool_decide (idx ∈ sa_seal_index <$> good) then None else tasks self !! idx) ∧
       ∀ b batch, batch_index_ok b → get_entry_batch (data_db self) b = Ok (Some batch) →
         seals_after self answers (data_db self') b batch) self.
Proof.
  intros Hok Htk good Hnd Hkeys Hgood. unfold flow_submit_seal_result. apply wp_bind, wp_gets.
  change SEALS_PER_LOAD with 64. fold (tasks self). fold (consistent_answers self answers). fold (answer_groups self answers).
  set (groups := answer_groups self answers).
  assert (concat (groups.*2) = good) as Hconcat by apply chunk_by_concat.
  assert (concat (map (λ g, map sa_seal_index g.2) groups) = sa_seal_index <$> good) as Hidx.
  { rewrite <- Hconcat. rewrite <- (map_map snd (map sa_seal_index)). symmetry. apply concat_map. }
  apply wp_bind. eapply wp_mono; [apply (submit_groups_spec GS LF f self groups Hok Htk)|].
  { intros b g Hg. split; [by eapply chunk_by_nonempty|]. eapply NoDup_concat_part; [by rewrite Hconcat|].
    by apply (list_elem_of_fmap_2 snd groups (b, g)). }
  { intros b g a Hg Ha. destruct (in_group self answers b g a Hg Ha) as [Hin Hb].
    split_and!; [by apply Hgood|done|]. rewrite (consistent_task self answers) by done. done. }
  intros l self1 [-> Hl]. apply wp_bind. rewrite Hidx. eapply wp_mono; [apply remove_tasks_spec|].
  intros [] self2 (m & -> & Hm). apply wp_zoom. unfold put_entry_raw.
  replace (λ p : Z * EntryBatch B, put_batch_op p.1 p.2) with (batch_op ∘ (λ p : Z * EntryBatch B, (p.1, Some p.2))) by done.
  rewrite list_fmap_compose. fold (puts l).
  eapply wp_mono; [apply (submitted_write GS LF f self groups l Hok Hkeys Hl)|]. intros [] kv' [Hdb' Hget].
  assert (∀ b batch, batch_index_ok b → get_entry_batch (data_db self) b = Ok (Some batch) → seals_after self answers kv' b batch)
    as Hseals by (intros b batch Hb Hbatch; by apply (submitted_seals GS LF f self answers l)).
  split_and!; [split; [apply Hok|done|apply Hok]| |done|done|done].
  intros idx v Hv. assert (m !! idx = Some v) as Hv' by exact Hv. rewrite Hm in Hv'. case_bool_decide as Hnot; [done|].
  destruct (Htk idx v Hv') as (Hi & Hb & (batch & Hbatch & Hu) & Hf). split_and!; [done|done| |done].
  destruct (Hseals (idx / 64) batch Hb Hbatch) as (batch' & Hb' & Hbits). exists batch'. split; [done|].
  rewrite Hbits by (apply Z.mod_pos_bound; lia).
  replace (idx / 64 * 64 + idx `mod` 64) with idx by (Z.to_euclidean_division_equations; lia).
  by rewrite bool_decide_false.
Qed.

End seal.
