(* ===== verification/FlowReach.v ===== *)
(** The flow store from its creation on, operation by operation: the bytes it
    holds and its seal tasks. *)

From stdpp Require Import sorting list_numbers.
From S2P Require Import Prelude HashElement Ssz SszFacts MerkleSpec MerkleProof NodeStore AppendMerkle TreeOps Bytes FlowDb.
From S2P Require Import Shard SharedTypes Seal ChunkData ChunkDataFacts ChunkDataInsert.
From S2P Require Import SealInfo EntryBatch EntryBatchFacts Serde BatchRoot BatchTheorems.
From S2P Require Import BatchStored FlowStore FlowStoreFacts FlowAppend FlowTruncate FlowSeal.
Local Open Scope Z_scope.

(** The flow without some batches. *)
Definition drop_batches (l : list Z) (f : Z → option Z) (x : Z) : option Z :=
  if bool_decide (x / 262144 ∈ l) then None else f x.

Definition subtree_arg (p : Z * Z * H256) : Subtree := Subtree_mk p.1.1 p.1.2 p.2.

Section reach.
Context `{Keccak, Bitmap64 B, !Bitmap64Laws B, KeyValueDBLaws KV, !KeyValueIter KV, !KeyValueIterLaws KV}.
Context {NM : Type} `{!NodeStore NM OptionalHash, !NodeStoreLaws NM OptionalHash}.
Context (miner : H256).
Implicit Types (GS : Z → Z → SealContextInfo) (LF : Z → list OptionalHash) (f : Z → option Z).
Implicit Types (self : FlowStore KV) (batch : EntryBatch B) (arr : ChunkArray).

(** Reading any range of sectors of the store gives the bytes of [f] if all of
    them are there, and nothing otherwise. *)
Definition reads_as f self : Prop :=
  ∀ start end_, 1 ≤ start < end_ → end_ ≤ 2 ^ 63 →
    get_entries (B := B) self start end_ =
      Ok (option_map (λ data, ChunkArray_mk data start) (read_range f (start * 256) ((end_ - start) * 256))).

Lemma flow_ok_reads GS LF f self : flow_ok (B := B) miner GS LF f self → reads_as f self.
Proof. intros Hok start end_. by apply (get_entries_spec miner GS LF f). Qed.

(** ** Setting the subtrees of a batch *)

(** Subtrees that lie in the batch; those that are kept, with a root that is
    not zero, are subtrees of its leaves. *)
Definition placeable F from (subs : list (Z * Z * H256)) : Prop :=
  Forall (λ p, 0 ≤ p.1.1 ∧ 1 ≤ p.1.2 ≤ 11 ∧ p.1.1 + 2 ^ (p.1.2 - 1) ≤ 1024) subs ∧
  subtrees_at F from (subtree_arg <$> filter (λ p, p.2 ≠ h256_zero) subs).

Lemma unknown_subtrees_spec batch subs :
  data_ok (eb_data batch) → Forall (λ p, 0 ≤ p.1.1 ∧ 1 ≤ p.1.2 ≤ 11 ∧ p.1.1 + 2 ^ (p.1.2 - 1) ≤ 1024) subs →
  ∃ l, unknown_subtrees (eb_data batch) subs = Ok l ∧
    l `sublist_of` (subtree_arg <$> filter (λ p, p.2 ≠ h256_zero) subs).
Proof.
  intros Hd. induction 1 as [|[[st h] r] subs (Hs & Hh & He) _ (l & Hu & Hsub)]; [by exists []|]. cbn in Hs, Hh, He.
  pose proof (Z.pow_pos_nonneg 2 (h - 1) ltac:(lia) ltac:(lia)) as Hpow.
  cbn [unknown_subtrees]. change BYTES_PER_SECTOR with 256. unfold num_entries_of_node. rewrite Z.mod_small by lia.
  rewrite batch_data_get_spec by (done || (change BYTES_PER_LOAD with 262144; lia) || lia). rewrite bind_Ok, Hu, bind_Ok.
  eexists. split; [done|]. rewrite filter_cons. cbn [snd]. change (vreplicate 32 0) with h256_zero.
  destruct (decide (r = h256_zero)) as [->|Hr].
  - rewrite decide_False by auto. rewrite (bool_decide_true (h256_zero = h256_zero)), andb_false_r by done. done.
  - rewrite decide_True by done. cbn [fmap list_fmap]. destruct (_ && _); [by apply sublist_skip|by apply sublist_cons].
Qed.

Lemma subtrees_at_increasing F from l : subtrees_at F from l → increasing st_start_sector l.
Proof.
  intros Hl i j a b Hij Ha Hb. pose proof (subtrees_at_disjoint F from l i j a b Hl Ha Hb Hij) as Hd.
  enough (st_start_sector a < end_sector a) by lia. apply subtree_nonempty.
  clear Hb Hd. revert from i Hij Hl Ha. induction l as [|s l IH]; intros from i Hij Hl Ha; [done|].
  destruct Hl as (_ & Hh & _ & _ & Hl). destruct i as [|i]; [by injection Ha as <-|].
  by apply (IH _ i ltac:(lia) Hl).
Qed.

Lemma subtrees_at_typed F from l : 0 ≤ from → subtrees_at F from l →
  Forall (λ t, 0 ≤ st_start_sector t < 1024 ∧ u64_ok (subtree_height t)) l.
Proof.
  revert from. induction l as [|s l IH]; intros from Hf Hl; [done|]. destruct Hl as (Hle & Hh & _ & _ & Hl).
  pose proof (subtree_nonempty s Hh). pose proof (subtrees_at_le _ _ _ Hl).
  constructor; [unfold u64_ok; lia|]. by apply (IH (end_sector s)); [lia|].
Qed.

Lemma with_subtrees_stored (G : Z → SealContextInfo) b F batch x l :
  stored_ok G miner b F batch → eb_data batch = Incomplete x → subtrees_at F (Z.of_nat (given b)) l →
  let batch' := EntryBatch_mk (eb_seal batch) (Incomplete (IncompleteData_mk l (known_data x))) in
  stored_ok G miner b F batch' ∧ ∀ i, plain batch' i = plain batch i.
Proof.
  intros [[Hd Hse Hk] Hli Hty Hbl] Hx Hs batch'.
  assert (∀ i, plain batch' i = plain batch i) as Hpl by (intros i; unfold plain; cbn; by rewrite Hx).
  split; [|done]. split; [|done|by apply (subtrees_at_typed F (Z.of_nat (given b))); [lia|]|].
  - rewrite Hx in Hd, Hk. split; [|done|done]. destruct Hd as [Hd1 _]. split; [done|]. by eapply subtrees_at_increasing.
  - destruct Hbl as [Hlen Hnn Hf Hg Hkn _]. split; [done|done|done| | |done].
    + intros i Hi. destruct (Hg i Hi) as [HF Hsec]. split; [done|]. rewrite <- Hsec. by apply read_range_ext.
    + intros i c Hi Hc. apply Hkn; [done|]. rewrite <- Hc. by apply read_range_ext.
Qed.

Lemma set_subtrees_stored GS LF f b batch subs :
  holds miner GS LF f b (Some batch) → placeable (LF b) (Z.of_nat (given b)) subs →
  ∃ batch', entry_batch_set_subtree_list batch subs = Ok batch' ∧ holds miner GS LF f b (Some batch') ∧
    eb_seal batch' = eb_seal batch.
Proof.
  intros [Hst Hp] [Hin Hs]. pose proof (bk_data _ _ _ (st_ok _ _ _ _ _ Hst)) as Hd.
  destruct (unknown_subtrees_spec batch subs Hd Hin) as (l & Hu & Hsub).
  apply (subtrees_at_sublist _ _ _ _ Hsub) in Hs. unfold entry_batch_set_subtree_list, batch_data_set_subtree_list.
  rewrite Hu, !bind_Ok. eexists. split; [done|]. split; [|done].
  destruct (eb_data batch) as [data|x] eqn:Hx; [by destruct batch; cbn in Hx; subst|].
  destruct (with_subtrees_stored (GS b) b (LF b) batch x l Hst Hx Hs) as [Hst' Hpl].
  split; [done|]. intros i Hi. rewrite Hpl. by apply Hp.
Qed.

Lemma insert_subtree_list_spec GS LF f self b subs :
  flow_ok miner GS LF f self → tasks_ok (B := B) self f → batch_index_ok b →
  placeable (LF b) (Z.of_nat (given b)) subs →
  wp (insert_subtree_list_for_batch (B := B) b subs)
    (λ _ self', flow_ok miner GS LF f self' ∧ tasks_ok (B := B) self' f ∧ fs_shard_config self' = fs_shard_config self ∧
       ∀ b', batch_index_ok b' → b' ≠ b →
         get_entry_batch (B := B) (data_db self') b' = get_entry_batch (data_db self) b') self.
Proof.
  intros Hok Htk Hb Hs. pose proof Hok as [Hsz Hdb Hsh]. destruct (do_batch _ _ _ _ _ Hdb b Hb) as (o & Ho & Hh).
  assert (holds miner GS LF f b (Some (default (entry_batch_new b) o))) as Hh0.
  { apply (old_batch_spec miner GS LF f b o); [by apply (do_leaves _ _ _ _ _ Hdb)|done]. }
  destruct (set_subtrees_stored GS LF f b _ subs Hh0 Hs) as (batch' & Hset & Hh' & Hseal).
  unfold insert_subtree_list_for_batch, load_batch. apply wp_bind, wp_bind. eapply wp_gets_ok; [exact Ho|]. apply wp_ret.
  apply wp_bind. eapply wp_lift; [exact Hset|]. apply wp_zoom. unfold put_entry_raw.
  change ((λ p : Z * EntryBatch B, put_batch_op p.1 p.2) <$> [(b, batch')]) with (batch_op <$> [(b, Some batch')]).
  eapply wp_mono; [apply (db_write_spec miner GS GS LF LF f f _ _ Hdb)|].
  - apply NoDup_singleton.
  - intros b' o' [= -> ->]%list_elem_of_singleton. by split.
  - done.
  - apply (do_contexts _ _ _ _ _ Hdb).
  - apply (do_leaves _ _ _ _ _ Hdb).
  - intros [] kv' [Hdb' Hget]. split_and!; [by split| |done|].
    2:{ intros b' Hb' Hne. cbn [data_db set_data_db]. rewrite Hget by done. unfold after_write. cbn.
        by rewrite decide_False by auto. }
    intros idx v Hv.
    destruct (Htk idx v Hv) as (Hi & Hbi & (batch & Hbatch & Hu) & Hf). split_and!; [done|done| |done].
    cbn [data_db set_data_db]. rewrite Hget by done. unfold after_write. cbn. destruct (decide (b = idx / 64)) as [->|Hne]; cbn.
    + exists batch'. split; [done|]. rewrite Hbatch in Ho. injection Ho as <-. unfold is_seal_sealed in *. by rewrite Hseal.
    + by exists batch.
Qed.

(** ** Deleting batches *)

Lemma delete_batch_list_spec GS LF f self l :
  flow_ok miner GS LF f self → tasks_ok (B := B) self f → NoDup l → Forall batch_index_ok l →
  wp (delete_batch_list l)
    (λ _ self', flow_ok miner GS LF (drop_batches l f) self' ∧ tasks_ok (B := B) self' (drop_batches l f) ∧
       fs_shard_config self' = fs_shard_config self ∧
       ∀ b batch, batch_index_ok b → get_entry_batch (data_db self') b = Ok (Some batch) →
         get_entry_batch (data_db self) b = Ok (Some batch)) self.
Proof.
  intros [Hsz Hdb Hsh] Htk Hnd Hl. rewrite Forall_forall in Hl. unfold delete_batch_list. apply wp_bind, wp_modify. apply wp_zoom. unfold db_delete_batch_list.
  set (dels := (λ i, (i, None : option (EntryBatch B))) <$> l).
  assert (((λ i, Delete COL_ENTRY_BATCH (batch_key i)) <$> l) = batch_op <$> dels) as ->
    by (unfold dels; by rewrite <- list_fmap_compose).
  assert (dels.*1 = l) as Hfst by (unfold dels; rewrite <- list_fmap_compose; apply list_fmap_id).
  assert (∀ b i, 0 ≤ i < 262144 → (b * 262144 + i) / 262144 = b) as Hdiv by (intros; Z.to_euclidean_division_equations; lia).
  eapply wp_mono; [apply (db_write_spec miner GS GS LF LF f (drop_batches l f) _ dels Hdb)|].
  - by rewrite Hfst.
  - intros b o (i & [= -> ->] & Hi)%list_elem_of_fmap. split; [by apply Hl|]. intros k Hk. unfold drop_batches.
    by rewrite Hdiv, bool_decide_true.
  - intros b o Hb Hnot _ Hh. rewrite Hfst in Hnot. unfold holds, drop_batches in *.
    destruct o as [batch|]; [destruct Hh as [Hst Hp]; split; [done|]|]; intros i Hi; rewrite Hdiv, bool_decide_false by done; auto.
  - apply (do_contexts _ _ _ _ _ Hdb).
  - apply (do_leaves _ _ _ _ _ Hdb).
  - intros [] kv' [Hdb' Hget]. split_and!; [by split| |done|].
    2:{ intros b batch Hb. cbn [data_db set_data_db]. rewrite Hget by done. unfold after_write.
        destruct (list_find _ dels) as [[k p]|] eqn:Hfind; [|done]. apply list_find_Some in Hfind as (Hp & _).
        apply list_elem_of_lookup_2, list_elem_of_fmap in Hp as (i & -> & _). done. }
    intros idx v Hv. unfold tasks in Hv. cbn [set_data_db seal_manager set_seal_manager] in Hv. rewrite lookup_tasks_delete in Hv.
    case_bool_decide as Hnot; [done|]. destruct (Htk idx v Hv) as (Hi & Hb & (batch & Hbatch & Hu) & Hf).
    split_and!; [done|done| |].
    + cbn [data_db set_data_db]. rewrite Hget by done. exists batch. split; [|done]. rewrite <- Hbatch. unfold after_write.
      destruct (list_find _ dels) as [[k p]|] eqn:Hfind; [exfalso|done]. apply list_find_Some in Hfind as (Hp & Hpb & _).
      apply Hnot. rewrite <- Hpb, <- Hfst. apply list_elem_of_fmap_2. by eapply list_elem_of_lookup_2.
    + intros x Hx. unfold drop_batches. rewrite bool_decide_false; [by apply Hf|].
      by replace (x / 262144) with (idx / 64) by (Z.to_euclidean_division_equations; lia).
Qed.

(** ** Truncation between seals *)

(** The cut does not go through a sealed seal. *)
Definition whole_cut self (start : Z) : Prop :=
  ∀ batch, get_entry_batch (data_db self) (start / 1024) = Ok (Some batch) → start `mod` 16 ≠ 0 →
    is_seal_sealed batch (start `mod` 1024 / 16) = false.

Lemma cut_result_whole f start self kv' (l : list Z) idx :
  cut_result (B := B) f start (data_db self) kv' l → whole_cut self start → idx ∈ l → (idx + 1) * 16 ≤ start.
Proof.
  intros [(Hoff & batch & batch' & o' & Hget & _ & _ & Hiff & _)|[-> _]] Hw Hin; [|by apply elem_of_nil in Hin].
  apply Hiff in Hin as [Hb (Hs & Hs16 & Hse & _)]. destruct (decide ((idx + 1) * 16 ≤ start)) as [|Hn]; [done|exfalso].
  assert (start `mod` 1024 / 16 = idx `mod` 64 ∧ start `mod` 16 ≠ 0) as [Heq Hm] by (Z.to_euclidean_division_equations; lia).
  specialize (Hw batch Hget Hm). rewrite Heq in Hw. congruence.
Qed.

Lemma truncate_whole_spec GS GS' LF LF' f start self :
  flow_ok miner GS LF f self → tasks_ok (B := B) self f → reorg GS GS' LF LF' start → 0 ≤ start < 2 ^ 63 →
  whole_cut self start →
  wp (truncate (B := B) start)
    (λ _ self', flow_ok miner GS' LF' (cut_flow f start) self' ∧ tasks_ok (B := B) self' (cut_flow f start) ∧
       fs_shard_config self' = fs_shard_config self) self.
Proof.
  intros Hok Htk Hro Hs Hw. eapply wp_mono; [by apply (truncate_spec miner GS GS' LF LF' f)|].
  intros [] self' (Hok' & Hcfg & l & Hcut & Hbelow & Htasks). split_and!; [done| |done].
  eapply (truncate_tasks miner GS GS' LF LF' f start self self' l); [done..| |].
  - intros idx v. rewrite Htasks. case_bool_decide as Hin; [by left|]. case_bool_decide; [|done]. intros Hv. right.
    split; [done|by eexists].
  - intros idx Hin. by eapply cut_result_whole.
Qed.

(** ** Reachable stores *)

(** [flow_reach GS LF f self]: [self] is reached from a new store on an empty
    data base, and the bytes of [f] are what was written and not cut off. *)
Inductive flow_reach : (Z → Z → SealContextInfo) → (Z → list OptionalHash) → (Z → option Z) → FlowStore KV → Prop :=
  | flow_reach_new GS LF flow_kv kv config now :
      kv_writable kv → (∀ k, kv_map kv !! (COL_ENTRY_BATCH, k) = None) → num_shard config ≠ 0 →
      (∀ b, context_map (GS b)) → (∀ b, batch_index_ok b → leaves_ok b (LF b)) →
      flow_reach GS LF (λ _, None) (flow_store_new flow_kv kv 1024 config now)
  | flow_reach_append GS LF f self arr now roots self' :
      flow_reach GS LF f self → array_ok LF arr → insertable (fs_shard_config self) arr f →
      append_entries (NM := NM) (B := B) arr now self = (Ok roots, self') →
      flow_reach GS LF (put_flow (fs_shard_config self) arr f) self'
  | flow_reach_truncate GS GS' LF LF' f self start self' :
      flow_reach GS LF f self → reorg GS GS' LF LF' start → 0 ≤ start < 2 ^ 63 → whole_cut self start →
      truncate (B := B) start self = (Ok tt, self') →
      flow_reach GS' LF' (cut_flow f start) self'
  | flow_reach_delete GS LF f self l self' :
      flow_reach GS LF f self → NoDup l → Forall batch_index_ok l → delete_batch_list l self = (Ok tt, self') →
      flow_reach GS LF (drop_batches l f) self'
  | flow_reach_subtrees GS LF f self b subs self' :
      flow_reach GS LF f self → batch_index_ok b →
      placeable (LF b) (Z.of_nat (given b)) subs →
      insert_subtree_list_for_batch (B := B) b subs self = (Ok tt, self') →
      flow_reach GS LF f self'
  | flow_reach_shard GS LF f self config self' :
      flow_reach GS LF f self → num_shard config ≠ 0 → update_shard_config config self = (Ok tt, self') →
      flow_reach GS LF f self'
  | flow_reach_pull GS LF f self max now o self' :
      flow_reach GS LF f self → pull_seal_chunk (B := B) max now self = (Ok o, self') →
      flow_reach GS LF f self'
  | flow_reach_submit GS LF f self answers self' :
      flow_reach GS LF f self → NoDup (sa_seal_index <$> consistent_answers self answers) →
      NoDup (answer_groups self answers).*1 → (∀ a, a ∈ consistent_answers self answers → good_answer miner GS f a) →
      flow_submit_seal_result (B := B) answers self = (Ok tt, self') →
      flow_reach GS LF f self'.

Lemma flow_new_ok GS LF flow_kv kv config now :
  kv_writable kv → (∀ k, kv_map kv !! (COL_ENTRY_BATCH, k) = None) → num_shard config ≠ 0 →
  (∀ b, context_map (GS b)) → (∀ b, batch_index_ok b → leaves_ok b (LF b)) →
  flow_ok miner GS LF (λ _, None) (flow_store_new flow_kv kv 1024 config now).
Proof.
  intros Hw Hk Hsh HG HL. split; [done| |done]. split; [done|done|done| |].
  - intros k [v Hv]. cbn in Hv. by rewrite Hk in Hv.
  - intros b Hb. exists None. split; [|done]. unfold get_entry_batch. cbn. by rewrite kv_get_map, Hk, bind_Ok.
Qed.

Lemma wp_of_eq {S A} (m : M S A) (Q : A → S → Prop) s a s' : m s = (Ok a, s') → wp m Q s → Q a s'.
Proof. unfold wp. by intros ->. Qed.

(** What holds in every reachable store. *)
Lemma flow_reach_ok GS LF f self : flow_reach GS LF f self → flow_ok miner GS LF f self ∧ tasks_ok (B := B) self f.
Proof.
  induction 1 as [GS LF flow_kv kv config now Hw Hk Hsh HG HL
    |GS LF f self arr now roots self' _ [Hok Htk] Hao Hins Hr
    |GS GS' LF LF' f self start self' _ [Hok Htk] Hro Hs Hw Hr
    |GS LF f self l self' _ [Hok Htk] Hnd Hl Hr
    |GS LF f self b subs self' _ [Hok Htk] Hb Hs Hr
    |GS LF f self config self' _ [Hok Htk] Hsh Hr
    |GS LF f self max now o self' _ [Hok Htk] Hr
    |GS LF f self answers self' _ [Hok Htk] Hnd Hkeys Hgood Hr].
  - split; [by apply flow_new_ok|]. intros idx v Hv. done.
  - pose proof (append_entries_spec miner GS LF f arr now self Hok Hao Hins Htk) as Hwp. by destruct (wp_of_eq _ _ _ _ _ Hr Hwp) as (? & ? & _).
  - pose proof (truncate_whole_spec GS GS' LF LF' f start self Hok Htk Hro Hs Hw) as Hwp. by destruct (wp_of_eq _ _ _ _ _ Hr Hwp) as (? & ? & _).
  - pose proof (delete_batch_list_spec GS LF f self l Hok Htk Hnd Hl) as Hwp. by destruct (wp_of_eq _ _ _ _ _ Hr Hwp) as (? & ? & _).
  - pose proof (insert_subtree_list_spec GS LF f self b subs Hok Htk Hb Hs) as Hwp. by destruct (wp_of_eq _ _ _ _ _ Hr Hwp) as (? & ? & _).
  - injection Hr as <-. destruct Hok as [Hsz Hdb _]. by split.
  - pose proof (pull_seal_chunk_spec miner GS LF f self max now Hok Htk) as Hwp.
    destruct (wp_of_eq _ _ _ _ _ Hr Hwp) as [-> _]. by destruct Hok.
  - pose proof (flow_submit_spec miner GS LF f self answers Hok Htk Hnd Hkeys Hgood) as Hwp. by destruct (wp_of_eq _ _ _ _ _ Hr Hwp) as (? & ? & _).
Qed.

(** A truncation through a sealed seal: the seal is queued again although it is
    cut, and the next pull of its chunk panics. *)
Lemma pull_panics GS LF f self idx v max now batch :
  flow_ok miner GS LF f self → tasks self !! idx = Some v → 0 ≤ idx < max → batch_index_ok (idx / 64) →
  (∀ idx', is_Some (tasks self !! idx') → idx' / 64 = idx / 64) →
  get_entry_batch (data_db self) (idx / 64) = Ok (Some batch) →
  (∀ idx', is_Some (tasks self !! idx') → is_seal_sealed batch (idx' `mod` 64) = false) →
  seal_bytes f idx = None →
  (pull_seal_chunk (B := B) max now self).1 = Panic.
Proof.
  intros Hok Hv Hidx Hb Hone Hget Hu Hnone. pose proof Hok as [_ Hdb _].
  destruct (do_batch _ _ _ _ _ Hdb _ Hb) as (o & Ho & Hh). rewrite Hget in Ho. injection Ho as <-.
  unfold pull_seal_chunk. unfold mbind, M_bind, gets, modify. cbn [fst snd]. fold (tasks self). change SEALS_PER_LOAD with 64.
  assert ((idx, v) ∈ btree_iter (tasks self)) as Hin by by apply elem_of_btree_iter.
  destruct (btree_iter (tasks self)) as [|[first v1] rest] eqn:Hit; [by apply elem_of_nil in Hin|].
  destruct (btree_iter_least _ _ _ _ Hit) as [Hfirst Hleast]. specialize (Hleast idx ltac:(done)).
  rewrite (proj2 (Z.leb_gt _ _)) by lia. unfold gets_ok. cbn [data_db set_seal_manager].
  rewrite (Hone first ltac:(done)), Hget. cbn [lift expect].
  set (items := (first, v1) :: filter _ rest).
  assert ((idx, v) ∈ items) as Hidxin.
  { apply elem_of_cons in Hin as [Heq|Hin]; [rewrite Heq; by left|]. right. apply list_elem_of_filter. cbn. split; [|done].
    split; [done|lia]. }
  assert (∀ i w, (i, w) ∈ items → tasks self !! i = Some w) as Hall.
  { intros i w Hi. apply elem_of_btree_iter. rewrite Hit. apply elem_of_cons in Hi as [->|Hi]; [by left|].
    apply list_elem_of_filter in Hi as [_ Hi]. by right. }
  enough (seal_tasks batch items = Panic) as -> by done. clearbody items.
  induction items as [|[i w] items IH]; [by apply elem_of_nil in Hidxin|]. cbn [seal_tasks]. change SEALS_PER_LOAD with 64.
  pose proof (Hall i w ltac:(left)) as Hi.
  rewrite (non_sealed_spec miner GS LF f (idx / 64)) by (done || (by apply Hone) || (by apply Hu)). rewrite bind_Ok.
  destruct (seal_bytes f i) as [data|] eqn:Hdata; [|done]. cbn [expect]. rewrite bind_Ok.
  rewrite IH; [done| |intros i' w' Hi'; apply Hall; by right].
  apply elem_of_cons in Hidxin as [[= -> ->]|]; [congruence|done].
Qed.

End reach.
