(* ===== verification/Sealer.v ===== *)
(** The sealer of the miner: [node/miner/src/sealer.rs].

    It pulls seal tasks from the store, looks up the context of each seal in
    its cache or on the chain, seals the data and submits it. *)

From stdpp Require Import sorting list_numbers.
From S2P Require Import Prelude HashElement Ssz SszFacts MerkleSpec MerkleProof NodeStore AppendMerkle Bytes FlowDb.
From S2P Require Import Shard SharedTypes Seal ChunkData ChunkDataFacts ChunkDataInsert.
From S2P Require Import SealInfo EntryBatch EntryBatchFacts Serde BatchRoot BatchTheorems.
From S2P Require Import BatchStored FlowStore FlowStoreFacts FlowAppend FlowSeal.
Local Open Scope Z_scope.

(** [EpochRangeWithContextDigest] of the contract interface *)
Record Epoch := Epoch_mk { epoch_start : Z; epoch_end : Z; epoch_digest : H256 }.

(** The calls to the flow contract. *)
Class FlowContract := {
  make_context_with_result : outcome (Z * H256);
  get_epoch_range : H256 → outcome (Z * Z);
  query_context_at_position : Z → outcome Epoch;
}.

Record Sealer := Sealer_mk {
  context_cache : gmap Z Epoch;
  last_context_flow_length : Z;
  sealer_miner_id : H256;
}.

(** [map.range(..=k).next_back()]: the entry with the greatest key up to [k]. *)
Definition epoch_le (x y : Z * Epoch) : Prop := x.1 ≤ y.1.

#[export] Instance epoch_le_dec : RelDecision epoch_le.
Proof. intros x y. unfold epoch_le. apply _. Defined.

Definition range_next_back (m : gmap Z Epoch) (k : Z) : option (Z * Epoch) :=
  last (merge_sort epoch_le (filter (λ x, x.1 ≤ k) (map_to_list m))).

Section sealer.
Context `{Keccak, Bitmap64 B, KeyValueDB KV, !FlowContract}.

Definition insert_context (start : Z) (e : Epoch) : M Sealer () :=
  modify (λ self, Sealer_mk (<[start := e]> (context_cache self)) (last_context_flow_length self) (sealer_miner_id self)).

Definition update_flow_length : M Sealer () :=
  recent_context ← lift make_context_with_result;
  let recent_flow_length := recent_context.1 in
  last ← gets last_context_flow_length;
  when (last <? recent_flow_length)
    (epoch_range ← lift (get_epoch_range recent_context.2);
     _ ← insert_context epoch_range.1 (Epoch_mk epoch_range.1 epoch_range.2 recent_context.2);
     modify (λ self, Sealer_mk (context_cache self) recent_flow_length (sealer_miner_id self))).

(** A failed query is not an error. *)
Definition fetch_context (seal_index : Z) : M Sealer (option (H256 * Z)) :=
  let last_entry := wrap64 ((seal_index + 1) * SECTORS_PER_SEAL - 1) in
  len ← gets last_context_flow_length;
  if len <=? last_entry then mret None
  else
    cached ← gets (λ self, range_next_back (context_cache self) last_entry);
    let query :=
      match query_context_at_position last_entry with
      | Ok context =>
          _ ← insert_context (epoch_start context) context;
          mret (Some (epoch_digest context, wrap64 (epoch_end context) / SECTORS_PER_SEAL))
      | Err _ => mret None
      | Panic => panic
      | Diverge => λ s, (Diverge, s)
      end in
    match cached with
    | Some (_, context) =>
        if (epoch_start context <=? last_entry) && (last_entry <? epoch_end context)
        then mret (Some (epoch_digest context, wrap64 (epoch_end context) / SECTORS_PER_SEAL))
        else query
    | None => query
    end.

(** The sealer and the store it works on. *)
Definition on_sealer {A} (m : M Sealer A) : M (Sealer * FlowStore KV) A := zoom fst (λ s st, (s, st.2)) m.
Definition on_store {A} (m : M (FlowStore KV) A) : M (Sealer * FlowStore KV) A := zoom snd (λ f st, (st.1, f)) m.

Definition fetch_task (now : Z) : M (Sealer * FlowStore KV) (option (list SealTask)) :=
  len ← gets (λ st, last_context_flow_length st.1);
  on_store (pull_seal_chunk (B := B) (len / SECTORS_PER_SEAL) now).

(** One iteration of [for task in tasks]. *)
Definition seal_task (answers : list SealAnswer) (task : SealTask) : M (Sealer * FlowStore KV) (list SealAnswer) :=
  context ← on_sealer (fetch_context (task_seal_index task));
  match context with
  | None => mret answers
  | Some (context_digest, end_seal) =>
      miner_id ← gets (λ st, sealer_miner_id st.1);
      data ← lift (seal (non_sealed_data task) miner_id context_digest
        (wrap64 (task_seal_index task * SECTORS_PER_SEAL)));
      mret (answers ++ [SealAnswer_mk (task_seal_index task) (task_version task) data miner_id context_digest end_seal])
  end.

Definition seal_iteration (now : Z) : M (Sealer * FlowStore KV) bool :=
  tasks ← fetch_task now;
  match tasks with
  | Some (t :: ts) =>
      answers ← fold_for (t :: ts) [] seal_task;
      _ ← on_store (flow_submit_seal_result (B := B) answers);
      mret true
  | _ => mret false
  end.

(** The loop of [start] until there is no task: [n] iterations at most, with
    the time of each. *)
Fixpoint seal_until_idle (now : nat → Z) (n : nat) : M (Sealer * FlowStore KV) bool :=
  match n with
  | O => mret false
  | S n' => more ← seal_iteration (now n'); if (more : bool) then seal_until_idle now n' else mret true
  end.

End sealer.

(** * The sealer seals every task: each iteration answers all the tasks it
    pulled, with the right context, so that the tasks run out. *)

(** ** The contexts of the chain *)

(** The epoch of each position of the flow: an interval with a digest of its
    own. *)
Record chain_ok (epoch : Z → Epoch) : Prop := {
  ch_in : ∀ p, 0 ≤ p → epoch_start (epoch p) ≤ p < epoch_end (epoch p);
  ch_start : ∀ p, 0 ≤ p → 0 ≤ epoch_start (epoch p);
  ch_same : ∀ p q, 0 ≤ p → epoch_start (epoch p) ≤ q < epoch_end (epoch p) → epoch q = epoch p;
  ch_digest : ∀ p q, 0 ≤ p → 0 ≤ q → epoch_digest (epoch p) = epoch_digest (epoch q) → epoch p = epoch q;
}.

(** The context of a seal is that of its last sector. *)
Definition seal_epoch (epoch : Z → Epoch) (idx : Z) : Epoch := epoch ((idx + 1) * 16 - 1).

Definition chain_contexts (epoch : Z → Epoch) (b s : Z) : SealContextInfo :=
  let e := seal_epoch epoch (Z.max 0 b * 64 + s) in
  SealContextInfo_mk (epoch_digest e) (Z.min (epoch_end e / 16 - Z.max 0 b * 64) 64).

Section chain.
Context (epoch : Z → Epoch) (Hch : chain_ok epoch).

Lemma seal_epoch_end idx : 0 ≤ idx → idx + 1 ≤ epoch_end (seal_epoch epoch idx) / 16.
Proof.
  intros Hi. pose proof (ch_in _ Hch ((idx + 1) * 16 - 1) ltac:(lia)) as Hin. unfold seal_epoch.
  Z.to_euclidean_division_equations; lia.
Qed.

Lemma seal_epoch_same idx idx' :
  0 ≤ idx ≤ idx' → idx' < epoch_end (seal_epoch epoch idx) / 16 → seal_epoch epoch idx' = seal_epoch epoch idx.
Proof.
  intros Hi Hlt. unfold seal_epoch in *. pose proof (ch_in _ Hch ((idx + 1) * 16 - 1) ltac:(lia)) as Hin.
  apply (ch_same _ Hch); [lia|]. Z.to_euclidean_division_equations; lia.
Qed.

Lemma chain_context_map b : context_map (chain_contexts epoch b).
Proof.
  unfold chain_contexts. set (c := Z.max 0 b). assert (0 ≤ c) as Hc by (unfold c; lia).
  split; cbn [end_seal_index context_digest].
  - intros s Hs. pose proof (seal_epoch_end (c * 64 + s) ltac:(lia)). lia.
  - intros s s' Hs Hs'. by rewrite (seal_epoch_same (c * 64 + s) (c * 64 + s')) by lia.
  - intros s s' Hs Hs' Hd. unfold seal_epoch in *. apply (ch_digest _ Hch) in Hd; [|lia..]. by rewrite Hd.
Qed.

(** ** The cache *)

Lemma range_next_back_Some m k x : range_next_back m k = Some x → m !! x.1 = Some x.2.
Proof.
  unfold range_next_back. intros Hl%last_Some_elem_of. rewrite merge_sort_Permutation in Hl.
  apply list_elem_of_filter in Hl as [_ Hl]. destruct x. by apply elem_of_map_to_list in Hl.
Qed.

Context `{!FlowContract}.

Record sealer_ok (miner : H256) (s : Sealer) : Prop := {
  sl_cache : ∀ k e, context_cache s !! k = Some e → 0 ≤ k ∧ e = epoch k;
  sl_query : ∀ p, 0 ≤ p < last_context_flow_length s → query_context_at_position p = Ok (epoch p);
  sl_u64 : ∀ p, 0 ≤ p < last_context_flow_length s → epoch_end (epoch p) < 2 ^ 64;
  sl_miner : sealer_miner_id s = miner;
}.

Lemma fetch_context_spec miner s idx :
  sealer_ok miner s → 0 ≤ idx → idx < last_context_flow_length s / 16 →
  wp (fetch_context idx)
    (λ o s', o = Some (epoch_digest (seal_epoch epoch idx), epoch_end (seal_epoch epoch idx) / 16) ∧
       sealer_ok miner s' ∧ last_context_flow_length s' = last_context_flow_length s) s.
Proof.
  intros Hok Hi Hlt. pose proof Hok as [Hcache Hquery Hu64 Hm]. unfold fetch_context. change SECTORS_PER_SEAL with 16. set (p := (idx + 1) * 16 - 1).
  assert (0 ≤ p < last_context_flow_length s) as Hp by (unfold p; Z.to_euclidean_division_equations; lia).
  pose proof (ch_in _ Hch p ltac:(lia)) as Hin. pose proof (Hu64 p Hp) as Hu. rewrite (wrap64_small p) by lia.
  apply wp_bind, wp_gets. rewrite (proj2 (Z.leb_gt _ _)) by lia. apply wp_bind, wp_gets. unfold seal_epoch. fold p.
  assert (wp (match query_context_at_position p with
      | Ok context => _ ← insert_context (epoch_start context) context;
          mret (Some (epoch_digest context, wrap64 (epoch_end context) / 16))
      | Err _ => mret None
      | Panic => panic
      | Diverge => λ s, (Diverge, s)
      end) (λ o s', o = Some (epoch_digest (epoch p), epoch_end (epoch p) / 16) ∧
       sealer_ok miner s' ∧ last_context_flow_length s' = last_context_flow_length s) s) as Hq.
  { rewrite Hquery by done. apply wp_bind, wp_modify, wp_ret. rewrite wrap64_small by lia. split_and!; [done| |done].
    split; [|done|done|done]. cbn. intros k e. destruct (decide (k = epoch_start (epoch p))) as [->|Hne].
    - rewrite lookup_insert_eq. intros [= <-]. split; [by apply (ch_start _ Hch); lia|].
      symmetry. apply (ch_same _ Hch); lia.
    - rewrite lookup_insert_ne by done. apply Hcache. }
  destruct (range_next_back (context_cache s) p) as [[k e]|] eqn:Hr; [|exact Hq].
  apply range_next_back_Some in Hr. cbn in Hr. apply Hcache in Hr as [Hk ->].
  destruct (_ && _) eqn:Hb; [|exact Hq]. apply andb_true_iff in Hb as [Hb1%Z.leb_le Hb2%Z.ltb_lt].
  assert (epoch p = epoch k) as Hpk by (apply (ch_same _ Hch); lia). rewrite Hpk in *.
  apply wp_ret. pose proof (ch_start _ Hch k Hk). rewrite wrap64_small by lia. done.
Qed.

(** The contract knows the epochs up to the length of the flow. *)
Record contract_ok (len : Z) (digest : H256) (range : Z * Z) : Prop := {
  co_recent : make_context_with_result = Ok (len, digest);
  co_range : get_epoch_range digest = Ok range;
  co_epoch : 0 ≤ range.1 ∧ epoch range.1 = Epoch_mk range.1 range.2 digest;
  co_query : ∀ p, 0 ≤ p < len → query_context_at_position p = Ok (epoch p) ∧ epoch_end (epoch p) < 2 ^ 64;
}.

Lemma update_flow_length_spec miner s len digest range :
  contract_ok len digest range → sealer_ok miner s →
  wp update_flow_length
    (λ _ s', sealer_ok miner s' ∧ last_context_flow_length s' = Z.max (last_context_flow_length s) len) s.
Proof.
  intros [Hrec Hrange [H0 He] Hq] Hs. pose proof Hs as [Hcache Hquery Hu64 Hm].
  unfold update_flow_length. apply wp_bind. eapply wp_lift; [exact Hrec|]. cbn [fst snd]. apply wp_bind, wp_gets.
  apply wp_when; [intros Hlt%Z.ltb_lt|intros Hge%Z.ltb_ge; split; [done|lia]].
  apply wp_bind. eapply wp_lift; [exact Hrange|]. apply wp_bind, wp_modify, wp_modify. cbn. split; [|lia].
  split; cbn; [|by intros p Hp; apply Hq|by intros p Hp; apply Hq|done]. intros k e.
  destruct (decide (k = range.1)) as [->|Hne].
  - rewrite lookup_insert_eq. intros [= <-]. by split.
  - rewrite lookup_insert_ne by done. apply Hcache.
Qed.

End chain.

Lemma filter_same {A} (P : A → Prop) `{!∀ x, Decision (P x)} (l : list A) : (∀ x, x ∈ l → P x) → filter P l = l.
Proof.
  induction l as [|x l IH]; intros Hall; [done|]. rewrite filter_cons_True by (apply Hall; left).
  rewrite IH; [done|]. intros y Hy. apply Hall. by right.
Qed.

Lemma chunk_by_same {A} (key : A → Z) b a l :
  (∀ x, x ∈ a :: l → key x = b) → chunk_by key (a :: l) = [(b, a :: l)].
Proof.
  revert a. induction l as [|y l IH]; intros a Hall.
  - cbn. by rewrite (Hall a ltac:(left)).
  - change (chunk_by key (a :: y :: l)) with
      (match chunk_by key (y :: l) with
       | (k, g) :: rest => if key a =? k then (k, a :: g) :: rest else (key a, [a]) :: (k, g) :: rest
       | [] => [(key a, [a])]
       end).
    rewrite IH by (intros x Hx; apply Hall; by right). rewrite (Hall a ltac:(left)), Z.eqb_refl. done.
Qed.

(** ** An iteration *)

Section iteration.
Context `{Keccak, Bitmap64 B, !Bitmap64Laws B, KeyValueDBLaws KV, !KeyValueIter KV, !KeyValueIterLaws KV}.
Context `{!FlowContract} (epoch : Z → Epoch) (Hch : chain_ok epoch) (miner : H256).
Implicit Types (LF : Z → list OptionalHash) (f : Z → option Z) (st : Sealer * FlowStore KV).

(** The answer to a task. *)
Definition answer_for (t : SealTask) (data : list Z) : SealAnswer :=
  let e := seal_epoch epoch (task_seal_index t) in
  SealAnswer_mk (task_seal_index t) (task_version t) data miner (epoch_digest e) (epoch_end e / 16).

Definition answers_task (t : SealTask) (a : SealAnswer) : Prop :=
  ∃ data, a = answer_for t data ∧
    seal (non_sealed_data t) miner (seal_context a) (wrap64 (task_seal_index t * 16)) = Ok data.

Lemma answer_good f t a :
  task_of f t → answers_task t a → 0 ≤ task_seal_index t → batch_index_ok (task_seal_index t / 64) →
  epoch_end (seal_epoch epoch (task_seal_index t)) < 2 ^ 64 →
  good_answer miner (chain_contexts epoch) f a.
Proof.
  intros Ht (data & -> & Hs) Hi Hb Hu. unfold batch_index_ok in Hb. set (idx := task_seal_index t) in *.
  assert (Z.max 0 (idx / 64) * 64 + idx `mod` 64 = idx) as Hidx by (Z.to_euclidean_division_equations; lia).
  split; cbn [answer_for sa_seal_index seal_context context_end_seal sa_miner_id sealed_data].
  - fold idx. unfold chain_contexts. by rewrite Hidx.
  - fold idx. unfold chain_contexts. rewrite Hidx. cbn [end_seal_index]. change SEALS_PER_LOAD with 64.
    pose proof (seal_epoch_end epoch Hch idx Hi) as He.
    rewrite (wrap64_small (idx / 64 * 64)) by (Z.to_euclidean_division_equations; lia).
    rewrite wrap64_small by (Z.to_euclidean_division_equations; lia).
    rewrite (Z.max_r 0) by (Z.to_euclidean_division_equations; lia). unfold wrap16. apply Z.mod_small.
    Z.to_euclidean_division_equations; lia.
  - done.
  - exists (non_sealed_data t). split; [exact Ht|]. exact Hs.
Qed.

Lemma seal_task_bytes f t : task_of f t → (length (non_sealed_data t) `mod` 32 = 0)%nat.
Proof.
  intros Ht. apply read_range_length in Ht; [|lia]. unfold blen in Ht.
  assert (length (non_sealed_data t) = 4096%nat) as -> by lia. done.
Qed.

Lemma seal_tasks_answers f ts acc st :
  sealer_ok epoch miner st.1 → Forall (task_of f) ts →
  (∀ t, t ∈ ts → 0 ≤ task_seal_index t < last_context_flow_length st.1 / 16) →
  wp (fold_for ts acc (seal_task (KV := KV)))
    (λ answers st', ∃ l, answers = acc ++ l ∧ Forall2 answers_task ts l ∧ st'.2 = st.2 ∧
       sealer_ok epoch miner st'.1 ∧ last_context_flow_length st'.1 = last_context_flow_length st.1) st.
Proof.
  intros Hs Hts. revert acc st Hs. induction Hts as [|t ts Ht Hts IH]; intros acc st Hs Hlt; cbn [fold_for].
  { apply wp_ret. exists []. by rewrite app_nil_r. }
  apply wp_bind. unfold seal_task. apply wp_bind, wp_zoom. eapply wp_mono.
  { apply (fetch_context_spec epoch Hch miner st.1 (task_seal_index t) Hs); apply Hlt; by left. }
  intros o s' (-> & Hs' & Hlen). cbn. apply wp_bind, wp_gets. cbn [fst].
  set (e := seal_epoch epoch (task_seal_index t)).
  destruct (seal (non_sealed_data t) miner (epoch_digest e) (wrap64 (task_seal_index t * 16))) as [data|?| |] eqn:Hseal.
  2-4: exfalso; unfold seal, seal_with_mask_seed, seal_with_mask in Hseal;
    rewrite bool_decide_true in Hseal by (by eapply seal_task_bytes); discriminate Hseal.
  rewrite (sl_miner _ _ _ Hs'). apply wp_bind. eapply wp_lift; [exact Hseal|]. apply wp_ret.
  eapply wp_mono; [apply (IH _ (s', st.2)); [exact Hs'|]|].
  - intros t' Ht'. cbn. rewrite Hlen. apply Hlt. by right.
  - intros answers st' (l & -> & Hl & Hst & Hok & Hlen'). cbn in *.
    exists (answer_for t data :: l). rewrite <- app_assoc. split_and!; [done| |done|done|congruence].
    constructor; [|done]. by exists data.
Qed.

(** The state of the store and the sealer. *)
Record sealing LF f st : Prop := {
  sg_flow : flow_ok miner (chain_contexts epoch) LF f st.2;
  sg_tasks : tasks_ok (B := B) st.2 f;
  sg_sealer : sealer_ok epoch miner st.1;
}.

Definition sealed_in (st : Sealer * FlowStore KV) (idx : Z) : Prop :=
  ∃ batch : EntryBatch B, get_entry_batch (data_db st.2) (idx / 64) = Ok (Some batch) ∧
    is_seal_sealed batch (idx `mod` 64) = true.

(** A task stays or its seal is sealed, and what is sealed stays sealed. *)
Record progress st st' : Prop := {
  pg_task : ∀ idx v, tasks st.2 !! idx = Some v → tasks st'.2 !! idx = Some v ∨ tasks st'.2 !! idx = None ∧ sealed_in st' idx;
  pg_sub : tasks st'.2 ⊆ tasks st.2;
  pg_sealed : ∀ idx, batch_index_ok (idx / 64) → sealed_in st idx → sealed_in st' idx;
  pg_length : last_context_flow_length st'.1 = last_context_flow_length st.1;
}.

Lemma progress_trans st1 st2 st3 :
  (∀ idx v, tasks st1.2 !! idx = Some v → batch_index_ok (idx / 64)) → progress st1 st2 → progress st2 st3 → progress st1 st3.
Proof.
  intros Hb [Ht1 Hs1 Hk1 Hl1] [Ht2 Hs2 Hk2 Hl2]. split; [|by trans (tasks st2.2)|naive_solver|congruence].
  intros idx v Hv. destruct (Ht1 idx v Hv) as [Hv2|[Hn Hse]]; [by apply Ht2|]. right. split.
  - by eapply lookup_weaken_None.
  - apply Hk2; [by eapply Hb|done].
Qed.

Lemma answers_indices ts l : Forall2 answers_task ts l → sa_seal_index <$> l = task_seal_index <$> ts.
Proof. induction 1 as [|t a ts l (data & -> & _) _ IH]; [done|]. cbn. by rewrite IH. Qed.

Lemma answers_elem ts l a : Forall2 answers_task ts l → a ∈ l → ∃ t, t ∈ ts ∧ answers_task t a.
Proof.
  intros Hl (i & Hi)%list_elem_of_lookup. destruct (Forall2_lookup_r _ _ _ _ _ Hl Hi) as (t & Ht & Ha).
  exists t. split; [by eapply list_elem_of_lookup_2|done].
Qed.

(** All answers to pulled tasks are consistent. *)
Lemma answers_consistent (self : FlowStore KV) ts l :
  Forall2 answers_task ts l → (∀ t, t ∈ ts → tasks self !! task_seal_index t = Some (task_version t)) →
  consistent_answers self l = l.
Proof.
  intros Hl Hts. unfold consistent_answers. apply filter_same. intros a Ha.
  destruct (answers_elem ts l a Hl Ha) as (t & Ht & data & -> & _). unfold is_consistent. cbn.
  rewrite Hts by done. apply Z.eqb_refl.
Qed.

(** Submitting the answers to the tasks of one chunk. *)
Lemma submit_tasks LF f st b ts l :
  sealing LF f st → ts ≠ [] → NoDup (task_seal_index <$> ts) → Forall (task_of f) ts →
  (∀ t, t ∈ ts → task_seal_index t / 64 = b ∧ task_seal_index t < last_context_flow_length st.1 / 16 ∧
     tasks st.2 !! task_seal_index t = Some (task_version t)) →
  Forall2 answers_task ts l →
  wp (on_store (flow_submit_seal_result (B := B) l))
    (λ _ st', sealing LF f st' ∧ progress st st' ∧ (size (tasks st'.2) < size (tasks st.2))%nat) st.
Proof.
  intros [Hok Htk Hs] Hne Hnd Hf Hts Hl. apply wp_zoom.
  pose proof (answers_consistent st.2 ts l Hl ltac:(naive_solver)) as Hcons. pose proof (answers_indices ts l Hl) as Hidx.
  eapply wp_mono; [apply (flow_submit_spec miner (chain_contexts epoch) LF f st.2 l Hok Htk)|].
  - by rewrite Hcons, Hidx.
  - unfold answer_groups. rewrite Hcons. destruct l as [|a l']; [inversion Hl; by subst|].
    rewrite (chunk_by_same (λ a, sa_seal_index a / 64) b); [apply NoDup_singleton|].
    intros x Hx. destruct (answers_elem _ _ x Hl Hx) as (t & Ht & data & -> & _). by apply Hts.
  - rewrite Hcons. intros a Ha. destruct (answers_elem _ _ a Hl Ha) as (t & Ht & Hat).
    destruct (Hts t Ht) as (_ & Hlt & Hv). destruct (Htk _ _ Hv) as (Hi & Hb & _).
    apply (answer_good f t); [|done|lia|done|apply (sl_u64 _ _ _ Hs); Z.to_euclidean_division_equations; lia]. by eapply Forall_forall.
  - intros [] self' (Hok' & Htk' & _ & Htasks & Hseals). rewrite Hcons, Hidx in Htasks. cbn [fst snd].
    assert (tasks self' ⊆ tasks st.2) as Hsub.
    { apply map_subseteq_spec. intros idx v. rewrite Htasks. by case_bool_decide. }
    split_and!; [by split| |].
    + split; cbn [fst snd]; [|done| |done].
      * intros idx v Hv. rewrite Htasks. case_bool_decide as Hin; [right|by left]. split; [done|].
        destruct (Htk _ _ Hv) as (_ & Hb & (batch & Hget & _) & _). destruct (Hseals _ _ Hb Hget) as (batch' & Hget' & Hbits).
        exists batch'. split; [done|]. rewrite Hbits by (apply Z.mod_pos_bound; lia). rewrite Hcons, Hidx.
        rewrite bool_decide_true; [done|].
        by replace (idx / 64 * 64 + idx `mod` 64) with idx by (Z.to_euclidean_division_equations; lia).
      * intros idx Hb (batch & Hget & Hse). destruct (Hseals _ _ Hb Hget) as (batch' & Hget' & Hbits).
        exists batch'. split; [done|]. rewrite Hbits by (apply Z.mod_pos_bound; lia). by destruct (bool_decide _).
    + destruct ts as [|t ts']; [done|]. apply map_subset_size, strict_spec_alt. split; [done|]. intros Heq.
      destruct (Hts t ltac:(left)) as (_ & _ & Hv). specialize (Htasks (task_seal_index t)).
      rewrite bool_decide_true in Htasks by (left). rewrite Heq, Hv in Htasks. done.
Qed.

Lemma seal_iteration_spec LF f now st :
  sealing LF f st →
  wp (seal_iteration (B := B) now)
    (λ more st', sealing LF f st' ∧ progress st st' ∧
       if (more : bool) then (size (tasks st'.2) < size (tasks st.2))%nat
       else ∀ idx v, tasks st'.2 !! idx = Some v → last_context_flow_length st.1 / 16 ≤ idx) st.
Proof.
  intros Hst. pose proof Hst as [Hok Htk Hs]. unfold seal_iteration, fetch_task. apply wp_bind, wp_bind, wp_gets, wp_zoom.
  change SECTORS_PER_SEAL with 16. set (st1 := (st.1, with_pull_time now st.2)).
  assert (sealing LF f st1) as Hst1 by (split; [split; apply Hok|exact Htk|exact Hs]).
  assert (progress st st1) as Hp1 by (split; [intros; by left|done|done|done]).
  eapply wp_mono; [apply (pull_seal_chunk_spec miner _ LF f st.2 _ now Hok Htk)|]. intros o self' [-> Ho]. fold st1.
  destruct o as [[|t ts']|].
  - by destruct Ho.
  - set (ts := t :: ts') in *. destruct Ho as (Hne & Hnd & Hf & b & Hts). apply wp_bind.
    eapply wp_mono; [apply (seal_tasks_answers f ts [] st1); [apply Hst1|done|]|].
    { intros t' Ht'. destruct (Hts t' Ht') as (_ & Hlt & Hv). destruct (Htk _ _ Hv) as (Hi & _). cbn. lia. }
    intros answers st2 (l & -> & Hl & Heq & Hs2 & Hlen). destruct st2 as [s2 self2]. cbn in Heq, Hs2, Hlen. subst self2.
    apply wp_bind. eapply wp_mono; [apply (submit_tasks LF f (s2, with_pull_time now st.2) b ts l); try done|].
    { split; [apply Hst1|apply Hst1|done]. }
    { cbn. by rewrite Hlen. }
    intros [] st3 (Hst3 & [Hp Hsub Hk Hlen3] & Hsize). apply wp_ret. split_and!; [done| |done].
    split; [done|done|done|]. cbn in Hlen3. congruence.
  - apply wp_ret. by split_and!.
Qed.

(** ** The loop *)

Lemma seal_until_idle_spec LF f now n st :
  sealing LF f st → (size (tasks st.2) < n)%nat →
  wp (seal_until_idle (B := B) now n)
    (λ idle st', idle = true ∧ sealing LF f st' ∧ progress st st' ∧
       ∀ idx v, tasks st'.2 !! idx = Some v → last_context_flow_length st.1 / 16 ≤ idx) st.
Proof.
  revert st. induction n as [|n IH]; intros st Hst Hn; [lia|]. cbn [seal_until_idle]. apply wp_bind.
  eapply wp_mono; [by apply (seal_iteration_spec LF f)|]. intros [] st1 (Hst1 & Hp1 & Hmore).
  - eapply wp_mono; [apply IH; [done|lia]|]. intros idle st2 (-> & Hst2 & Hp2 & Hdone). rewrite (pg_length _ _ Hp1) in Hdone.
    split_and!; [done|done| |done]. eapply progress_trans; [|done|done]. intros idx v Hv. by apply (sg_tasks _ _ _ Hst idx v).
  - apply wp_ret. by split_and!.
Qed.

End iteration.
