(* ===== verification/SszTheorems.v ===== *)
(** The theorems on the SSZ code: every type built from the implemented ones is
    a one-to-one code, with the places where the source departs from that; and
    the padding records stored with it. *)

From S2P Require Import Prelude HashElement Ssz SszFacts SszCanonical NodeStore Bytes FlowDb.
From S2P Require Import Shard SharedTypes Seal ChunkData SealInfo EntryBatch Serde FlowStore FlowStoreFacts.

(** The types with an implementation, and the values that are encoded: integers
    in range, containers and lists shorter than [2^32] bytes.  An [Option] is
    missing: see [option_not_canonical]. *)
Inductive ssz_type : ∀ (T : Type), Encode T → Decode T → (T → Prop) → Prop :=
  | ssz_uint n : ssz_type Z (uint_encode n) (uint_decode n) (λ z, 0 <= z < 256 ^ Z.of_nat n)%Z
  | ssz_nonzero : ssz_type NonZeroUsize _ _ (λ z, 0 < z < 2 ^ 64)%Z
  | ssz_bool : ssz_type bool _ _ (λ _, True)
  | ssz_array n : ssz_type (vec Z n) (u8_array_encode n) (u8_array_decode n) (λ _, True)
  | ssz_tuple2 A EA DA okA B EB DB okB :
      ssz_type A EA DA okA → ssz_type B EB DB okB →
      ssz_type (A * B) tuple2_encode tuple2_decode
        (λ x, okA x.1 ∧ okB x.2 ∧ length (as_ssz_bytes x) < u32_max)
  | ssz_tuple3 A EA DA okA B EB DB okB C EC DC okC :
      ssz_type A EA DA okA → ssz_type B EB DB okB → ssz_type C EC DC okC →
      ssz_type (A * B * C) tuple3_encode tuple3_decode
        (λ x, okA x.1.1 ∧ okB x.1.2 ∧ okC x.2 ∧ length (as_ssz_bytes x) < u32_max)
  | ssz_tuple4 A EA DA okA B EB DB okB C EC DC okC D ED DD okD :
      ssz_type A EA DA okA → ssz_type B EB DB okB → ssz_type C EC DC okC → ssz_type D ED DD okD →
      ssz_type (A * B * C * D) tuple4_encode tuple4_decode
        (λ x, okA x.1.1.1 ∧ okB x.1.1.2 ∧ okC x.1.2 ∧ okD x.2 ∧ length (as_ssz_bytes x) < u32_max)
  | ssz_vec T ET DT ok :
      ssz_type T ET DT ok → item_type T →
      ssz_type (list T) vec_encode vec_decode (λ l, Forall ok l ∧ length (as_ssz_bytes l) < u32_max)
  | ssz_struct T F okT A (f : A → T) (g : T → A) :
      ssz_fields T F okT → (∀ x, g (f x) = x) → (∀ y, f (g y) = y) →
      ssz_type A (struct_encode f) (struct_decode g)
        (λ x, okT (f x) ∧ length (as_ssz_bytes (H := struct_encode f) x) < u32_max)
with ssz_fields : ∀ (T : Type), Fields T → (T → Prop) → Prop :=
  | ssz_fields_nil : ssz_fields () fields_nil (λ _, True)
  | ssz_fields_cons A EA DA ok T F okT :
      ssz_type A EA DA ok → ssz_fields T F okT → ssz_fields (A * T) fields_cons (λ x, ok x.1 ∧ okT x.2).

Scheme ssz_type_mut := Induction for ssz_type Sort Prop
  with ssz_fields_mut := Induction for ssz_fields Sort Prop.

Lemma ssz_type_codec T E D ok : ssz_type T E D ok → SszCodec T ok.
Proof.
  revert T E D ok. apply (ssz_type_mut (λ T E D ok _, SszCodec T ok) (λ T F ok _, FieldsCodec T ok)).
  - intros n. split; [apply uint_lawful|apply uint_total|apply uint_canonical].
  - split; apply _.
  - split; apply _.
  - intros n. split; [apply u8_array_lawful|apply u8_array_total|apply u8_array_canonical].
  - intros. split; apply _.
  - intros. split; apply _.
  - intros. split; apply _.
  - intros. by apply vec_codec.
  - intros. by apply struct_codec.
  - apply _.
  - intros. apply _.
Qed.

(** C22: Every type of the SSZ implementation built from integers, booleans,
    byte arrays, tuples, lists and derived structs is a one-to-one code.
    Decoding arbitrary bytes returns a value or an error and never panics; if
    it returns a value, the bytes are exactly the encoding of it; and every
    value within the bounds decodes to itself from its encoding. *)
Theorem ssz_codec_bijective T E D ok (bytes : list Z) (x : T) :
  ssz_type T E D ok → Forall is_byte bytes →
  no_panic (from_ssz_bytes (T := T) bytes) ∧
  (from_ssz_bytes bytes = Ok x → as_ssz_bytes x = bytes) ∧
  (ok x → from_ssz_bytes (as_ssz_bytes x) = Ok x).
Proof.
  intros Ht Hb. pose proof (ssz_type_codec T E D ok Ht) as Hc. split_and!.
  - apply decode_total.
  - by apply ssz_canonical.
  - apply ssz_roundtrip.
Qed.

Lemma ssz_codec_bijective_witness :
  let bytes := [4; 0; 0; 0; 7; 0; 0; 0; 0; 0; 0; 0; 12; 0; 0; 0; 1; 2; 3]%Z in
  from_ssz_bytes (T := list (u64 * list u8)) bytes = Ok [(7%Z, [1; 2; 3]%Z)] ∧
  as_ssz_bytes (T := list (u64 * list u8)) [(7%Z, [1; 2; 3]%Z)] = bytes.
Proof.
  split; [vm_compute; reflexivity|].
  refine (proj1 (proj2 (ssz_codec_bijective (list (u64 * list u8)) _ _ _ _ [(7%Z, [1; 2; 3]%Z)] _ _)) _).
  - refine (ssz_vec _ _ _ _ (ssz_tuple2 _ _ _ _ _ _ _ _ (ssz_uint 8) (ssz_vec _ _ _ _ (ssz_uint 1) _)) _).
    + intros _. cbn. lia.
    + discriminate.
  - repeat constructor; lia.
  - vm_compute. reflexivity.
Defined.

(** The body of a [None] is not looked at: encodings of it are not unique. *)
Example option_not_canonical :
  from_ssz_bytes (T := option u64) [0]%Z = Ok None ∧ from_ssz_bytes (T := option u64) [0; 5; 5]%Z = Ok None.
Proof. done. Qed.

(** ** Stored records *)

Lemma partial_batch_short bytes : length bytes < 8 → from_ssz_bytes (T := PartialBatch) bytes = Panic.
Proof.
  intros Hl. cbn. unfold partial_batch_from_ssz_bytes, blen. by rewrite (proj2 (Z.ltb_lt _ _)) by lia.
Qed.

(** Decoding a range of sectors ([PartialBatch]) from fewer than eight bytes
    panics instead of returning an error, and so does decoding the data of a
    batch that contains one: a damaged record stops the node. *)
Theorem damaged_batch_panics bytes :
  length bytes < 8 →
  let record := INCOMPLETE_BATCH_TYPE :: encode_length 8 ++ encode_length 8 ++ encode_length 4 ++ bytes in
  from_ssz_bytes (T := PartialBatch) bytes = Panic ∧ from_ssz_bytes (T := EntryBatchData) record = Panic.
Proof.
  intros Hl record. split; [by apply partial_batch_short|].
  destruct bytes as [|b0 [|b1 [|b2 [|b3 [|b4 [|b5 [|b6 [|b7 bytes]]]]]]]]; [vm_compute; reflexivity..|cbn in Hl; lia].
Qed.

Lemma damaged_batch_panics_witness : from_ssz_bytes (T := EntryBatchData) [1; 8; 0; 0; 0; 8; 0; 0; 0; 4; 0; 0; 0; 9]%Z = Panic.
Proof. apply (damaged_batch_panics [9%Z]). cbn. lia. Defined.

Section pad_data.
Context `{KeyValueDBLaws KV}.
Implicit Types (self : FlowStore KV).
Local Open Scope Z_scope.

Definition pad_pair_typed (p : PadPair) : Prop := u64_ok (pad_start_index p) ∧ u64_ok (pad_data_size p).

Lemma length_pad_pair (p : PadPair) : length (as_ssz_bytes p) = 16%nat.
Proof.
  change (length (container_append [field_of (pad_start_index p : u64); field_of (pad_data_size p : u64)] []) = 16%nat).
  rewrite container_fixed_len; [done|repeat constructor; apply field_of_ok|by repeat constructor].
Qed.

#[local] Instance pad_pair_lawful : SszLawful PadPair pad_pair_typed.
Proof.
  pose proof (encode_as_lawful pad_pair_fields pad_pair_make ltac:(by intros [])) as [H1 H2 H3 H4 H5].
  split; [done|done|done|done|]. intros t [Hs Hh]. apply H5. split; [exact Hs|]. split; [exact Hh|].
  change (length (as_ssz_bytes t) < u32_max)%nat. rewrite length_pad_pair. unfold u32_max. lia.
Qed.

Lemma pad_list_decode (l : list PadPair) :
  Forall pad_pair_typed l → from_ssz_bytes (concat (as_ssz_bytes <$> l)) = Ok l.
Proof.
  intros Hl. unfold from_ssz_bytes. cbn [vec_decode]. change (dec_fixed PadPair) with true. change (dec_fixed_len PadPair) with 16%nat.
  rewrite bool_decide_false by lia.
  pose proof (fixed_list_decode l 16 (length (concat (as_ssz_bytes <$> l))) ltac:(lia) length_pad_pair Hl ltac:(lia)) as Hd.
  destruct (concat (as_ssz_bytes <$> l)) eqn:Hc; [|exact Hd]. cbn in Hd. exact Hd.
Qed.

(** What [put_pad_data] records for a transaction is what [get_pad_data]
    returns, for that transaction only: the records of the others and the synced
    height stay. *)
Lemma put_pad_data_spec self (l : list PadPair) (tx_seq : Z) :
  kv_writable (flow_db self) → Forall pad_pair_typed l → 0 ≤ tx_seq →
  wp (put_pad_data l tx_seq) (λ _ self',
    get_pad_data self' tx_seq = Ok (Some l) ∧
    (∀ s, 0 ≤ s → s ≠ tx_seq → get_pad_data self' s = get_pad_data self s) ∧
    data_db self' = data_db self) self.
Proof.
  intros Hw Hl Hs. unfold put_pad_data. apply wp_zoom. unfold db_put_pad_data, wp.
  set (ops := [Insert COL_PAD_DATA_LIST (batch_key tx_seq) (concat (as_ssz_bytes <$> l))]).
  destruct (kv_write_ok ops (flow_db self) Hw) as [Hok Hmap]. destruct (kv_write ops (flow_db self)) as [r kv]. cbn in Hok, Hmap. subst r.
  unfold get_pad_data, db_get_pad_data. cbn [flow_db set_flow_db]. split_and!; [| |done].
  - rewrite kv_get_map, Hmap, bind_Ok. cbn [apply_op]. rewrite lookup_insert_eq. by rewrite pad_list_decode, bind_Ok.
  - intros s Hs0 Hne. rewrite !kv_get_map, Hmap. cbn [apply_op]. rewrite lookup_insert_ne; [done|].
    intros [= Heq]. by apply Hne, batch_key_inj.
Qed.

End pad_data.
