(* ===== verification/FlowTheorems.v ===== *)
(** The properties of the flow store and of the sealer that works on it. *)

From stdpp Require Import sorting list_numbers.
From S2P Require Import Prelude HashElement Ssz SszFacts MerkleSpec MerkleProof NodeStore NodeManager NodeManagerFacts AppendMerkle TreeOps Bytes FlowDb.
From S2P Require Import Shard SharedTypes Seal ChunkData ChunkDataFacts ChunkDataInsert.
From S2P Require Import SealInfo EntryBatch EntryBatchFacts Serde BatchRoot BatchTheorems.
From S2P Require Import BatchStored FlowStore FlowStoreFacts FlowAppend FlowTruncate FlowSeal FlowReach.
From S2P Require Import Sealer.
Local Open Scope Z_scope.

Section theorems.
Context `{Keccak, Bitmap64 B, !Bitmap64Laws B, KeyValueDBLaws KV, !KeyValueIter KV, !KeyValueIterLaws KV}.
Context {NM : Type} `{!NodeStore NM OptionalHash, !NodeStoreLaws NM OptionalHash}.
Context (miner : H256).
Implicit Types (GS : Z → Z → SealContextInfo) (LF : Z → list OptionalHash) (f : Z → option Z).
Implicit Types (self : FlowStore KV) (batch : EntryBatch B) (arr : ChunkArray).

(** C3: Reading a range of sectors of a reachable flow store gives the bytes of
    the abstract flow if all of them are there, and nothing otherwise,
    whichever batches are complete or partial, sealed or not. *)
Theorem flow_get_entries GS LF f self start end_ :
  flow_reach (B := B) (NM := NM) miner GS LF f self → 1 ≤ start < end_ → end_ ≤ 2 ^ 63 →
  get_entries (B := B) self start end_ =
    Ok (option_map (λ data, ChunkArray_mk data start) (read_range f (start * 256) ((end_ - start) * 256))).
Proof. intros [Hok _]%flow_reach_ok. by apply (get_entries_spec miner GS LF f). Qed.

(** C14: Appending whole sectors that agree with the leaves of the flow succeeds
    if each batch of the shard holds either none of its part of them or exactly
    these bytes.  Afterwards every read gives the flow with the sectors of the
    shard added, and the roots that are returned are, in order, those of the
    batches that were touched and are covered by data and subtree roots.  If a
    batch of the shard holds some but not all of the bytes, the operation is an
    error and every read gives what it gave before. *)
Theorem flow_append_outcome GS LF f self arr now :
  flow_reach (B := B) (NM := NM) miner GS LF f self → array_ok LF arr →
  (insertable (fs_shard_config self) arr f →
   ∃ roots self', append_entries (NM := NM) (B := B) arr now self = (Ok roots, self') ∧
    reads_as (B := B) (put_flow (fs_shard_config self) arr f) self' ∧
    flow_reach (B := B) (NM := NM) miner GS LF (put_flow (fs_shard_config self) arr f) self' ∧
    StronglySorted Z.lt roots.*1 ∧
    ∀ b r, (b, r) ∈ roots ↔ touched arr b ∧ in_range (fs_shard_config self) b = true ∧
      ∃ batch : EntryBatch B, get_entry_batch (data_db self') b = Ok (Some batch) ∧ root_of LF b batch r) ∧
  (∀ b, clashes (fs_shard_config self) arr f b →
   ∃ msg self', append_entries (NM := NM) (B := B) arr now self = (Err msg, self') ∧
    data_db self' = data_db self ∧ reads_as (B := B) f self').
Proof.
  intros Hr Hao. pose proof (flow_reach_ok _ _ _ _ _ Hr) as [Hok Htk]. split.
  - intros Hins.
    destruct (wp_run _ _ _ (append_entries_spec (NM := NM) miner GS LF f arr now self Hok Hao Hins Htk))
      as (roots & self' & Heq & Hok' & _ & _ & Hsort & Hin & _).
    exists roots, self'. split_and!; [done|by eapply flow_ok_reads|by eapply flow_reach_append|done|done].
  - intros b Hc. destruct (append_entries_clash (NM := NM) miner GS LF f arr now self b Hok Hao Hc) as (msg & m' & Heq).
    exists msg, (with_tasks m' self). split_and!; [done|done|]. eapply (flow_ok_reads miner GS LF). by destruct Hok.
Qed.

(** C17: Truncating at a sector that is not inside a sealed seal succeeds; every
    read then gives the flow up to the cut and nothing of it after, and no seal
    task beyond the cut is left, also when the chain has reorganised and the
    leaves and contexts after the cut differ. *)
Theorem flow_truncate_outcome GS GS' LF LF' f self start :
  flow_reach (B := B) (NM := NM) miner GS LF f self → reorg GS GS' LF LF' start → 0 ≤ start < 2 ^ 63 →
  whole_cut (B := B) self start →
  ∃ self', truncate (B := B) start self = (Ok tt, self') ∧
    reads_as (B := B) (cut_flow f start) self' ∧
    flow_reach (B := B) (NM := NM) miner GS' LF' (cut_flow f start) self' ∧
    ∀ idx, start / 16 ≤ idx → (idx + 1) * 16 > start → tasks self' !! idx = None.
Proof.
  intros Hr Hro Hs Hw. pose proof (flow_reach_ok _ _ _ _ _ Hr) as [Hok Htk].
  destruct (wp_run _ _ _ (truncate_spec miner GS GS' LF LF' f start self Hok Hro Hs))
    as ([] & self' & Heq & Hok' & _ & l & Hcut & _ & Htasks).
  exists self'. split_and!; [done|by eapply flow_ok_reads|by eapply flow_reach_truncate|]. intros idx Hidx Hgt. rewrite Htasks.
  rewrite bool_decide_false, bool_decide_false; [done|lia|]. intros Hin.
  pose proof (cut_result_whole _ _ _ _ _ _ Hcut Hw Hin). lia.
Qed.

(** C30: Pulling seal tasks never fails.  What is pulled are tasks of one chunk
    below the limit, each once, with the bytes of its seal; nothing is pulled
    only if there is no task below the limit. *)
Theorem flow_pull_outcome GS LF f self max now :
  flow_reach (B := B) (NM := NM) miner GS LF f self →
  ∃ o self', pull_seal_chunk (B := B) max now self = (Ok o, self') ∧ tasks self' = tasks self ∧
    match o with
    | None => ∀ idx v, tasks self !! idx = Some v → max ≤ idx
    | Some ts => ts ≠ [] ∧ NoDup (task_seal_index <$> ts) ∧
        Forall (λ t, read_range f (task_seal_index t * 4096) 4096 = Some (non_sealed_data t)) ts ∧
        ∃ b, ∀ t, t ∈ ts → task_seal_index t / 64 = b ∧ task_seal_index t < max ∧
          tasks self !! task_seal_index t = Some (task_version t)
    end.
Proof.
  intros [Hok Htk]%flow_reach_ok.
  destruct (wp_run _ _ _ (pull_seal_chunk_spec miner GS LF f self max now Hok Htk)) as (o & self' & Heq & -> & Ho).
  exists o, (with_pull_time now self). by split_and!.
Qed.

(** What remains of a seal that the cut goes through. *)
Lemma cut_seal_result GS GS' LF LF' f self start self' (l : list Z) batch :
  flow_ok miner GS LF f self → flow_ok miner GS' LF' (cut_flow f start) self' → 0 ≤ start < 2 ^ 63 →
  get_entry_batch (data_db self) (start / 1024) = Ok (Some batch) → start `mod` 16 ≠ 0 →
  is_seal_sealed batch (start `mod` 1024 / 16) = true →
  cut_result (B := B) f start (data_db self) (data_db self') l →
  start / 16 ∈ l ∧ ∃ batch' : EntryBatch B, get_entry_batch (data_db self') (start / 1024) = Ok (Some batch') ∧
    ∀ idx, idx ∈ l → idx / 64 = start / 1024 ∧ is_seal_sealed batch' (idx `mod` 64) = false.
Proof.
  intros [_ Hdb _] [_ Hdb' _] Hs Hget Hm Hse Hcut. set (s := start `mod` 1024 / 16) in *. set (b := start / 1024) in *.
  assert (batch_index_ok b) as Hb by (unfold batch_index_ok; Z.to_euclidean_division_equations; lia).
  assert (0 ≤ s < 64 ∧ start / 16 / 64 = b ∧ (start / 16) `mod` 64 = s ∧ s * 16 < start `mod` 1024 < (s + 1) * 16)
    as (Hs64 & Hdiv & Hmod & Hin) by (Z.to_euclidean_division_equations; lia).
  destruct (do_batch _ _ _ _ _ Hdb b Hb) as (o & Ho & Hh). rewrite Hget in Ho. injection Ho as <-. destruct Hh as [[Hok _ _ _] Hp].
  assert (is_Some (cut_flow f start (b * 262144 + s * 4096))) as Hfirst.
  { unfold cut_flow. rewrite bool_decide_true by (Z.to_euclidean_division_equations; lia). rewrite <- Hp by lia.
    apply (plain_is_Some (GS b) miner); [done|lia|].
    apply (read_range_is_Some _ (s * 4096) 4096); [by apply (bk_known _ _ _ Hok)|lia]. }
  destruct Hcut as [(Hoff & batch1 & batch' & o' & Hget1 & Hget' & Ho' & Hiff & _)|[_ [Hz|Hz]]];
    [|exfalso; Z.to_euclidean_division_equations; lia|unfold b in Hget; congruence].
  fold b in Hget1, Hget', Ho', Hiff. rewrite Hget in Hget1. injection Hget1 as <-. destruct Ho' as [->|[_ Hnone]].
  2: { rewrite Hnone in Hfirst by lia. by destruct Hfirst. }
  split; [|exists batch'; split; [done|]; intros idx [Hb' (_ & _ & _ & Hu)]%Hiff; done].
  apply Hiff. unfold reseals. rewrite Hdiv, Hmod. split_and!; [done|lia|lia|lia|done|].
  destruct (do_batch _ _ _ _ _ Hdb' b Hb) as (o & Ho & Hh'). rewrite Hget' in Ho. injection Ho as <-. destruct Hh' as [[Hok' _ _ _] Hp'].
  destruct (is_seal_sealed batch' s) eqn:Hs'; [exfalso|done].
  assert (is_Some (plain batch' (start `mod` 1024 * 256))) as Hx.
  { apply (plain_is_Some (GS' b) miner); [done|lia|].
    apply (read_range_is_Some _ (s * 4096) 4096); [by apply (bk_known _ _ _ Hok')|lia]. }
  rewrite Hp' in Hx by lia. unfold cut_flow in Hx. rewrite bool_decide_false in Hx; [by destruct Hx|].
  Z.to_euclidean_division_equations; lia.
Qed.

(** C31: Truncating through a sealed seal succeeds, but queues the rest of that
    seal for sealing although it is not complete: the next pull that reaches it
    panics. *)
Theorem truncate_breaks_pull GS GS' LF LF' f self start batch max now :
  flow_ok miner GS LF f self → tasks self = ∅ → reorg GS GS' LF LF' start → 0 ≤ start < 2 ^ 63 →
  get_entry_batch (data_db self) (start / 1024) = Ok (Some batch) → start `mod` 16 ≠ 0 →
  is_seal_sealed batch (start `mod` 1024 / 16) = true → start / 16 < max →
  ∃ self', truncate (B := B) start self = (Ok tt, self') ∧
    flow_ok miner GS' LF' (cut_flow f start) self' ∧
    (pull_seal_chunk (B := B) max now self').1 = Panic.
Proof.
  intros Hok Ht Hro Hs Hget Hm Hse Hmax.
  destruct (wp_run _ _ _ (truncate_spec miner GS GS' LF LF' f start self Hok Hro Hs))
    as ([] & self' & Heq & Hok' & _ & l & Hcut & _ & Htasks).
  exists self'. split_and!; [done|done|].
  destruct (cut_seal_result GS GS' LF LF' f self start self' l batch) as (Hin & batch' & Hget' & Hl); [done..|].
  assert (∀ idx, is_Some (tasks self' !! idx) → idx ∈ l) as Honly.
  { intros idx. rewrite Htasks, Ht, lookup_empty. case_bool_decide; [done|]. destruct (bool_decide _); by intros []. }
  assert (start / 16 / 64 = start / 1024) as Hdiv by (Z.to_euclidean_division_equations; lia).
  eapply (pull_panics miner GS' LF' (cut_flow f start) self' (start / 16) _ max now batch' Hok').
  - by rewrite Htasks, bool_decide_true.
  - Z.to_euclidean_division_equations; lia.
  - rewrite Hdiv. unfold batch_index_ok. Z.to_euclidean_division_equations; lia.
  - intros idx Hidx. rewrite Hdiv. by apply Hl, Honly.
  - by rewrite Hdiv.
  - intros idx Hidx. by apply Hl, Honly.
  - unfold seal_bytes. apply (read_range_None _ _ _ (start * 256)); [Z.to_euclidean_division_equations; lia|].
    unfold cut_flow. by rewrite bool_decide_false by lia.
Qed.

(** C10: The sealer drains the queue.  With more iterations than there are tasks
    it comes to rest; then every task up to the length of the flow that it knew
    is done and its seal is stored sealed, and the flow still has the same
    bytes. *)
Theorem sealer_drains_tasks `{!FlowContract} epoch LF f now n st :
  chain_ok epoch → sealing (B := B) (KV := KV) epoch miner LF f st → (size (tasks st.2) < n)%nat →
  ∃ st', seal_until_idle (B := B) now n st = (Ok true, st') ∧
    flow_ok miner (chain_contexts epoch) LF f st'.2 ∧
    ∀ idx, is_Some (tasks st.2 !! idx) → idx < last_context_flow_length st.1 / 16 →
      tasks st'.2 !! idx = None ∧ sealed_in (B := B) st' idx.
Proof.
  intros Hch Hst Hn.
  destruct (wp_run _ _ _ (seal_until_idle_spec epoch Hch miner LF f now n st Hst Hn)) as (idle & st' & Heq & -> & Hst' & Hp & Hdone).
  exists st'. split_and!; [done|apply Hst'|]. intros idx [v Hv] Hlt.
  destruct (pg_task _ _ Hp idx v Hv) as [Hv'|]; [|done]. specialize (Hdone idx v Hv'). lia.
Qed.

(** C24: The Merkle root of a batch.  [build_root] never fails; it gives a root
    exactly if every sector is known or in a subtree, and then it is the root of
    the tree over all the leaves of the batch, whichever of them are known by
    their data and whichever only through the root of a subtree. *)
Theorem batch_root_correct (G : Z → SealContextInfo) (is_first : bool) (F : list OptionalHash) batch :
  context_map G → let first := if is_first then 1%nat else 0%nat in
  batch_ok G miner batch → batch_leaves batch first F →
  ∃ o, build_root (NM := NM) batch is_first = Ok o ∧
    (is_Some o ↔ covered batch (Z.of_nat first) (get_subtree_list (eb_data batch))) ∧
    ∀ r, o = Some r → ideal_root 0 1 F = Some (Some r).
Proof. intros HG first Hok Hl. by apply (build_root_spec G HG miner). Qed.

(** C28: What the store writes for a batch decodes to the same batch: seals,
    contexts, data and subtrees. *)
Theorem stored_batch_roundtrip GS LF b batch :
  stored_ok (GS b) miner b (LF b) batch → batch_index_ok b →
  from_ssz_bytes (as_ssz_bytes batch) = Ok batch.
Proof.
  intros [Hok Hli Hty _] Hb. apply (entry_batch_ssz (GS b) miner); [done| |done].
  rewrite Hli. unfold u64_ok, batch_index_ok in *. lia.
Qed.

End theorems.

(** ** Examples *)

Section examples.
#[local] Existing Instance BatchTheorems.toy_keccak.
#[local] Existing Instance z_bitmap.
#[local] Existing Instance z_bitmap_laws.

Abbreviation NM := (memory_manager OptionalHash).

(** A flow whose sectors are all the same. *)
Definition toy_leaf : OptionalHash := Some (sha3_leaf (replicate 256 7)).
Definition toy_leaves (b : Z) : list OptionalHash :=
  if b =? 0 then Some h256_zero :: replicate 1023 toy_leaf else replicate 1024 toy_leaf.
Definition toy_array (start : Z) (n : nat) : ChunkArray := ChunkArray_mk (replicate (n * 256) 7) start.
Definition toy_config : ShardConfig := ShardConfig_mk 0 1.
Definition toy_flow0 : FlowStore memory := flow_store_new ∅ ∅ 1024 toy_config 0.

Lemma toy_leaves_ok b : leaves_ok b (toy_leaves b).
Proof.
  unfold toy_leaves. split.
  - destruct (b =? 0); cbn [length]; by rewrite length_replicate.
  - destruct (b =? 0); [constructor; [done|]|]; apply Forall_replicate; done.
  - unfold given. destruct (b =? 0); intros i Hi; [|lia]. by destruct i; [|lia].
Qed.

Lemma toy_leaves_lookup b i : 0 ≤ i < 1024 → 0 < b ∨ 0 < i → 0 ≤ b → toy_leaves b !! Z.to_nat i = Some toy_leaf.
Proof.
  intros Hi Hor Hb. unfold toy_leaves. destruct (Z.eqb_spec b 0).
  - destruct (Z.to_nat i) as [|k] eqn:Hk; [lia|]. rewrite lookup_cons, lookup_replicate_2; [done|lia].
  - rewrite lookup_replicate_2; [done|lia].
Qed.

Lemma toy_array_ok start n : 1 ≤ start → (0 < n)%nat → start + Z.of_nat n ≤ 2 ^ 63 → array_ok toy_leaves (toy_array start n).
Proof.
  intros Hs Hn He.
  assert (blen (ca_data (toy_array start n)) = Z.of_nat n * 256) as Hlen by (unfold blen; cbn; rewrite length_replicate; lia).
  split; [done| | | |].
  - intros Heq%(f_equal length). cbn in Heq. rewrite length_replicate in Heq. lia.
  - rewrite Hlen. by apply Z.mod_mul.
  - unfold end_index. rewrite Hlen, Z.div_mul by lia. done.
  - rewrite Hlen, Z.div_mul by lia. intros k Hk. cbn [start_index toy_array ca_data].
    rewrite toy_leaves_lookup by (Z.to_euclidean_division_equations; lia). unfold toy_leaf. do 3 f_equal.
    rewrite drop_replicate, take_replicate. f_equal. lia.
Qed.

Lemma toy_flow0_reach : flow_reach (B := bits64) (NM := NM) toy_miner (λ _, toy_contexts) toy_leaves (λ _, None) toy_flow0.
Proof.
  apply flow_reach_new; [done|intros k; exact (lookup_empty (COL_ENTRY_BATCH, k))|done|intros b; apply toy_context_map|intros b _; apply toy_leaves_ok].
Qed.

Lemma toy_insertable arr : insertable toy_config arr (λ _, None).
Proof. intros b _. by left. Qed.

(** A store with the sectors 1 to 20. *)
Definition toy_bytes20 : Z → option Z := put_flow toy_config (toy_array 1 20) (λ _, None).
Definition toy_flow20 : FlowStore memory := (append_entries (NM := NM) (B := bits64) (toy_array 1 20) (λ _, 0) toy_flow0).2.

Lemma toy_flow20_made :
  flow_reach (B := bits64) (NM := NM) toy_miner (λ _, toy_contexts) toy_leaves toy_bytes20 toy_flow20 ∧
  fs_shard_config toy_flow20 = toy_config.
Proof.
  pose proof (flow_reach_ok _ _ _ _ _ toy_flow0_reach) as [Hok Htk].
  assert (array_ok toy_leaves (toy_array 1 20)) as Hao by (by apply toy_array_ok; [|lia|]).
  destruct (wp_run _ _ _ (append_entries_spec (NM := NM) _ _ _ _ (toy_array 1 20) (λ _, 0) _ Hok Hao (toy_insertable _) Htk))
    as (roots & self' & Heq & _ & _ & Hc & _).
  unfold toy_flow20. rewrite Heq. split; [|exact Hc].
  by apply (flow_reach_append _ _ _ _ _ _ _ _ _ toy_flow0_reach Hao (toy_insertable _) Heq).
Qed.

Lemma toy_flow20_reach : flow_reach (B := bits64) (NM := NM) toy_miner (λ _, toy_contexts) toy_leaves toy_bytes20 toy_flow20.
Proof. apply toy_flow20_made. Qed.

Lemma toy_clash : clashes (fs_shard_config toy_flow20) (toy_array 15 11) toy_bytes20 0.
Proof.
  rewrite (proj2 toy_flow20_made). split; [reflexivity|]. split.
  - exists (15 * 256). split; [vm_compute; split; [discriminate|reflexivity]|]. split; [reflexivity|]. vm_compute. by eexists.
  - exists (25 * 256). split; [vm_compute; split; [discriminate|reflexivity]|]. split; [reflexivity|]. vm_compute. discriminate.
Qed.

(** Sectors 1 to 20 are stored as given; sectors 15 to 25, of which the store
    holds the first six, are refused. *)
Lemma flow_append_outcome_witness :
  (∃ roots self', append_entries (NM := NM) (B := bits64) (toy_array 1 20) (λ _, 0) toy_flow0 = (Ok roots, self') ∧
     get_entries (B := bits64) self' 3 5 = Ok (Some (ChunkArray_mk (replicate 512 7) 3))) ∧
  ∃ msg self', append_entries (NM := NM) (B := bits64) (toy_array 15 11) (λ _, 0) toy_flow20 = (Err msg, self') ∧
     data_db self' = data_db toy_flow20.
Proof.
  split.
  - destruct (flow_append_outcome toy_miner (λ _, toy_contexts) toy_leaves (λ _, None) toy_flow0 (toy_array 1 20) (λ _, 0))
      as [Hput _]; [apply toy_flow0_reach|by apply toy_array_ok; [|lia|]|].
    destruct (Hput (toy_insertable _)) as (roots & self' & Heq & Hreads & _). exists roots, self'. split; [exact Heq|].
    rewrite Hreads by lia. vm_compute. reflexivity.
  - destruct (flow_append_outcome toy_miner (λ _, toy_contexts) toy_leaves toy_bytes20 toy_flow20 (toy_array 15 11) (λ _, 0))
      as [_ Hclash]; [apply toy_flow20_reach|by apply toy_array_ok; [|lia|]|].
    destruct (Hclash 0 toy_clash) as (msg & self' & Heq & Hdb & _). exists msg, self'. split; [exact Heq|exact Hdb].
Defined.

Lemma flow_get_entries_witness :
  get_entries (B := bits64) toy_flow20 3 5 = Ok (Some (ChunkArray_mk (replicate 512 7) 3)) ∧
  get_entries (B := bits64) toy_flow20 20 22 = Ok None.
Proof.
  split.
  - rewrite (flow_get_entries toy_miner _ _ _ _ 3 5 toy_flow20_reach) by lia. vm_compute. reflexivity.
  - rewrite (flow_get_entries toy_miner _ _ _ _ 20 22 toy_flow20_reach) by lia. vm_compute. reflexivity.
Defined.

Lemma toy_reorg start : 0 ≤ start → reorg (λ _, toy_contexts) (λ _, toy_contexts) toy_leaves toy_leaves start.
Proof. intros Hs. split; [intros b; apply toy_context_map|intros b _; apply toy_leaves_ok|done|done|done]. Qed.

Lemma flow_truncate_outcome_witness :
  ∃ self', truncate (B := bits64) 16 toy_flow20 = (Ok tt, self') ∧
    get_entries (B := bits64) self' 14 16 = Ok (Some (ChunkArray_mk (replicate 512 7) 14)) ∧
    get_entries (B := bits64) self' 15 17 = Ok None.
Proof.
  destruct (flow_truncate_outcome toy_miner (λ _, toy_contexts) (λ _, toy_contexts) toy_leaves toy_leaves toy_bytes20 toy_flow20 16)
    as (self' & Heq & Hreads & _); [apply toy_flow20_reach|by apply toy_reorg|lia|by intros batch _ Hm|].
  exists self'. split; [exact Heq|]. split.
  - rewrite Hreads by lia. vm_compute. reflexivity.
  - rewrite Hreads by lia. vm_compute. reflexivity.
Defined.

Lemma flow_pull_outcome_witness :
  ∃ o self', pull_seal_chunk (B := bits64) 100 0 toy_flow20 = (Ok o, self') ∧ tasks self' = tasks toy_flow20 ∧
    match o with
    | None => ∀ idx v, tasks toy_flow20 !! idx = Some v → 100 ≤ idx
    | Some ts => ts ≠ [] ∧ NoDup (task_seal_index <$> ts) ∧
        Forall (λ t, read_range toy_bytes20 (task_seal_index t * 4096) 4096 = Some (non_sealed_data t)) ts ∧
        ∃ b, ∀ t, t ∈ ts → task_seal_index t / 64 = b ∧ task_seal_index t < 100 ∧
          tasks toy_flow20 !! task_seal_index t = Some (task_version t)
    end.
Proof.
  apply (flow_pull_outcome toy_miner (λ _, toy_contexts) toy_leaves toy_bytes20 toy_flow20 100 0 toy_flow20_reach).
Defined.

(** A store with one batch, of which the first seal is known. *)
Definition toy_bytes3 (x : Z) : option Z := put_bytes (λ _, None) 0 toy_data (x - 786432).

Lemma toy_holds_inserted GS :
  (∀ b, context_map (GS b)) → holds toy_miner GS toy_leaves toy_bytes3 3 (Some toy_inserted).
Proof.
  intros HG. assert (blen toy_data = 4096) as Hlen by (vm_compute; reflexivity).
  destruct (insert_stored (GS 3) (HG 3) toy_miner 3 (toy_leaves 3) toy_empty 0 toy_data toy_inserted [0]) as [Hst Hp].
  - apply entry_batch_new_stored, toy_leaves_ok.
  - done.
  - by rewrite Hlen.
  - by rewrite Hlen.
  - intros k Hk. rewrite Hlen in Hk. change (4096 / 256) with 16 in Hk. rewrite toy_leaves_lookup by lia. unfold toy_leaf. do 3 f_equal.
    unfold toy_data. rewrite drop_replicate, take_replicate. f_equal. lia.
  - apply toy_insert_eq.
  - split; [done|]. intros i Hi. rewrite Hp by done. unfold toy_bytes3. replace (3 * 262144 + i - 786432) with i by lia.
    unfold put_bytes. case_bool_decide; [done|]. unfold plain. cbn. rewrite Z.bits_0. done.
Qed.

Lemma toy_holds_sealed : holds toy_miner (λ _, toy_contexts) toy_leaves toy_bytes3 3 (Some toy_sealed).
Proof.
  destruct (toy_holds_inserted (λ _, toy_contexts)) as [Hst Hp]; [intros b; apply toy_context_map|].
  destruct (submit_stored toy_contexts toy_context_map toy_miner 3 _ _ 0 toy_answer Hst toy_answer_ok) as (b' & Hsub & Hst' & _ & Hp').
  rewrite toy_submit_eq in Hsub. injection Hsub as <-. split; [done|]. intros i Hi. rewrite Hp' by done. by apply Hp.
Qed.

Definition toy_db (batch : EntryBatch bits64) : memory := (kv_write [put_batch_op 3 batch] (∅ : memory)).2.

Definition toy_flow3 (batch : EntryBatch bits64) (m : gmap Z Z) : FlowStore memory :=
  FlowStore_mk ∅ (toy_db batch) (SealTaskManager_mk m 0 0) 1024 toy_config.

Lemma toy_flow3_ok GS batch m :
  (∀ b, context_map (GS b)) → holds toy_miner GS toy_leaves toy_bytes3 3 (Some batch) →
  flow_ok toy_miner GS toy_leaves toy_bytes3 (toy_flow3 batch m) ∧
  get_entry_batch (toy_db batch) 3 = Ok (Some batch).
Proof.
  intros HG Hh.
  assert (db_ok (B := bits64) toy_miner GS toy_leaves (λ _, None) (∅ : memory)) as Hdb.
  { apply (flow_new_ok toy_miner GS toy_leaves ∅ ∅ toy_config 0); [done| |done|done|intros b _; apply toy_leaves_ok].
    intros k. exact (lookup_empty (COL_ENTRY_BATCH, k)). }
  destruct (wp_run _ _ _ (db_write_spec toy_miner GS GS toy_leaves toy_leaves (λ _, None) toy_bytes3 (∅ : memory)
    [(3, Some batch)] Hdb (NoDup_singleton _)
    ltac:(intros b o [= -> ->]%list_elem_of_singleton; done)
    ltac:(intros b o Hb Hnot Ho Hold; destruct o; [discriminate Ho|]; intros i Hi; unfold toy_bytes3, put_bytes;
          rewrite bool_decide_false; [done|]; intros Hin; apply Hnot; apply list_elem_of_singleton; change (blen toy_data) with 4096 in Hin; cbn; lia)
    HG ltac:(intros b _; apply toy_leaves_ok))) as ([] & kv' & Heq & Hdb' & Hget).
  assert (toy_db batch = kv') as Hkv by (unfold toy_db; change [put_batch_op 3 batch] with (batch_op <$> [(3, Some batch)]); by rewrite Heq).
  split; [split; [done| |done]|].
  - cbn [data_db toy_flow3]. by rewrite Hkv.
  - rewrite Hkv, Hget by done. done.
Qed.

Lemma truncate_breaks_pull_witness :
  ∃ self', truncate (B := bits64) 3077 (toy_flow3 toy_sealed ∅) = (Ok tt, self') ∧
    flow_ok (B := bits64) toy_miner (λ _, toy_contexts) toy_leaves (cut_flow toy_bytes3 3077) self' ∧
    (pull_seal_chunk (B := bits64) 1000 0 self').1 = Panic.
Proof.
  destruct (toy_flow3_ok (λ _, toy_contexts) toy_sealed ∅) as [Hok Hget]; [intros b; apply toy_context_map|apply toy_holds_sealed|].
  apply (truncate_breaks_pull toy_miner (λ _, toy_contexts) (λ _, toy_contexts) toy_leaves toy_leaves toy_bytes3
    (toy_flow3 toy_sealed ∅) 3077 toy_sealed 1000 0 Hok).
  - reflexivity.
  - by apply toy_reorg.
  - lia.
  - exact Hget.
  - discriminate.
  - vm_compute. reflexivity.
  - reflexivity.
Defined.

Lemma stored_batch_roundtrip_witness :
  is_seal_sealed toy_sealed 0 = true ∧
  from_ssz_bytes (as_ssz_bytes toy_sealed) = Ok toy_sealed.
Proof.
  split; [vm_compute; reflexivity|].
  apply (stored_batch_roundtrip toy_miner (λ _, toy_contexts) toy_leaves 3 toy_sealed); [apply toy_holds_sealed|done].
Defined.

(** A batch of which only the root is known. *)
Definition toy_subtree_batch (r : H256) : EntryBatch bits64 :=
  EntryBatch_mk (eb_seal toy_empty) (Incomplete (IncompleteData_mk [Subtree_mk 0 11 r] [])).

Lemma toy_root_exists : ∃ r, ideal (E := OptionalHash) 0 (toy_leaves 3) 10 !! 0%nat = Some (Some r).
Proof.
  pose proof (ideal_known (E := OptionalHash) 0 (toy_leaves 3) 10 (lo_nonnull _ _ (toy_leaves_ok 3))) as Hk.
  destruct (lookup_lt_is_Some_2 (ideal (E := OptionalHash) 0 (toy_leaves 3) 10) 0) as [[r|] Hr].
  - rewrite length_ideal, (lo_len _ _ (toy_leaves_ok 3)). vm_compute. lia.
  - by exists r.
  - exfalso. rewrite Forall_lookup in Hk. by apply (Hk 0%nat None Hr).
Qed.

Lemma toy_subtree_stored r :
  ideal (E := OptionalHash) 0 (toy_leaves 3) 10 !! 0%nat = Some (Some r) →
  stored_ok toy_contexts toy_miner 3 (toy_leaves 3) (toy_subtree_batch r).
Proof.
  intros Hr. pose proof (entry_batch_new_stored toy_contexts toy_miner 3 (toy_leaves 3) (toy_leaves_ok 3)) as Hst.
  apply (with_subtrees_stored toy_miner toy_contexts 3 (toy_leaves 3) toy_empty _ [Subtree_mk 0 11 r] Hst eq_refl).
  cbn [subtrees_at st_start_sector subtree_height st_root].
  assert (take (Z.to_nat (2 ^ (11 - 1))) (drop (Z.to_nat 0) (toy_leaves 3)) = toy_leaves 3) as ->.
  { change (Z.to_nat 0) with 0%nat. rewrite drop_0. apply take_ge. rewrite (lo_len _ _ (toy_leaves_ok 3)). vm_compute. done. }
  split; [done|]. split; [lia|]. split; [reflexivity|]. split; [|vm_compute; discriminate].
  split; [apply (lo_len _ _ (toy_leaves_ok 3))|apply (lo_nonnull _ _ (toy_leaves_ok 3))|exact Hr].
Qed.

Lemma batch_root_correct_witness :
  ∃ s r, build_root (NM := NM) (toy_subtree_batch s) false = Ok (Some r) ∧
    ideal_root (E := OptionalHash) 0 1 (toy_leaves 3) = Some (Some r).
Proof.
  destruct toy_root_exists as [s Hs]. destruct (toy_subtree_stored s Hs) as [Hok _ _ Hl].
  destruct (batch_root_correct (NM := NM) toy_miner toy_contexts false (toy_leaves 3) (toy_subtree_batch s) toy_context_map Hok Hl)
    as (o & Ho & Hiff & Hr).
  destruct (proj2 Hiff) as [r ->].
  - intros i Hi. right. exists (Subtree_mk 0 11 s). split; [by left|]. change (0 ≤ i < 1024). cbn in Hi. lia.
  - exists s, r. split; [exact Ho|]. by apply Hr.
Defined.

(** ** The sealer *)

(** A chain with an epoch for each chunk of the flow. *)
Definition toy_epoch (p : Z) : Epoch :=
  Epoch_mk (p / 1024 * 1024) (p / 1024 * 1024 + 1024) (vreplicate 32 (p / 1024)).

#[local] Instance toy_contract : FlowContract := {|
  make_context_with_result := Ok (8192, vreplicate 32 7);
  get_epoch_range _ := Ok (7168, 8192);
  query_context_at_position p := Ok (toy_epoch p);
|}.

Lemma toy_chain_ok : chain_ok toy_epoch.
Proof.
  split; cbn.
  - intros p Hp. Z.to_euclidean_division_equations; lia.
  - intros p Hp. Z.to_euclidean_division_equations; lia.
  - intros p q Hp Hq. unfold toy_epoch. by replace (q / 1024) with (p / 1024) by (Z.to_euclidean_division_equations; lia).
  - intros p q _ _ [=Heq]. unfold toy_epoch. by rewrite Heq.
Qed.

Definition toy_sealer : Sealer := Sealer_mk ∅ 8192 toy_miner.
Definition toy_state : Sealer * FlowStore memory := (toy_sealer, toy_flow3 toy_inserted {[192 := 0]}).

Lemma toy_sealing : sealing (B := bits64) toy_epoch toy_miner toy_leaves toy_bytes3 toy_state.
Proof.
  destruct (toy_flow3_ok (chain_contexts toy_epoch) toy_inserted {[192 := 0]}) as [Hok Hget].
  - intros b. apply chain_context_map, toy_chain_ok.
  - apply toy_holds_inserted. intros b. apply chain_context_map, toy_chain_ok.
  - split; [done| |].
    + intros idx v Hv. change (({[192 := 0]} : gmap Z Z) !! idx = Some v) in Hv. apply lookup_singleton_Some in Hv as [<- <-]. split; [lia|]. split; [unfold batch_index_ok; cbn; lia|]. split.
      * exists toy_inserted. split; [exact Hget|]. vm_compute. reflexivity.
      * intros x Hx. unfold toy_bytes3, put_bytes. change (blen toy_data) with 4096.
        rewrite bool_decide_true by lia. unfold toy_data. rewrite lookup_replicate_2 by lia. done.
    + split; cbn; [by intros k e Hk|done| |done]. intros p Hp. Z.to_euclidean_division_equations; lia.
Qed.

Lemma sealer_drains_tasks_witness :
  tasks toy_state.2 !! 192 = Some 0 ∧
  ∃ st', seal_until_idle (B := bits64) (λ _, 0) 2 toy_state = (Ok true, st') ∧
    flow_ok (B := bits64) toy_miner (chain_contexts toy_epoch) toy_leaves toy_bytes3 st'.2 ∧
    ∀ idx, is_Some (tasks toy_state.2 !! idx) → idx < last_context_flow_length toy_state.1 / 16 →
      tasks st'.2 !! idx = None ∧ sealed_in (B := bits64) st' idx.
Proof.
  split; [reflexivity|].
  apply (sealer_drains_tasks toy_miner toy_epoch toy_leaves toy_bytes3 (λ _, 0) 2 toy_state toy_chain_ok toy_sealing).
  vm_compute. lia.
Defined.

End examples.
