(* ===== verification/TxStore.v ===== *)
(** The transaction store: [node/storage/src/log_store/tx_store.rs].

    Transactions are kept by sequence number in a column of the flow data base,
    next to an index from data roots to the numbers of the transactions with
    that root; whether a transaction is finalized or pruned is kept in the data
    data base.  [next_tx_seq] is held in memory and written with every change. *)

From stdpp Require Import sorting list_numbers.
From S2P Require Import Prelude HashElement Ssz Bytes Shard MerkleLight SharedTypes.
From S2P Require Import Seal ChunkData SealInfo EntryBatch.
Local Open Scope Z_scope.

Definition COL_TX : nat := 0.
Definition COL_TX_DATA_ROOT_INDEX : nat := 2.
Definition COL_TX_COMPLETED : nat := 3.
Definition COL_MISC : nat := 4.
Definition COL_BLOCK_PROGRESS : nat := 6.

Definition ENTRY_SIZE : Z := 256.

(** [str::as_bytes] *)
Fixpoint str_bytes (s : string) : list Z :=
  match s with
  | EmptyString => []
  | String c s' => Z.of_N (Ascii.N_of_ascii c) :: str_bytes s'
  end.

Definition LOG_SYNC_PROGRESS_KEY : list Z := str_bytes "log_sync_progress".
Definition NEXT_TX_KEY : list Z := str_bytes "next_tx_seq".
Definition LOG_LATEST_BLOCK_NUMBER_KEY : list Z := str_bytes "log_latest_block_number_key".

(** [seq.to_be_bytes()] of a [u64] *)
Definition seq_key (seq : Z) : list Z := to_be_bytes (Z.to_nat seq).

Inductive TxStatus := Finalized | Pruned.

Definition tx_status_to_u8 (value : TxStatus) : Z := match value with Finalized => 0 | Pruned => 1 end.

Definition tx_status_try_from (value : Z) : outcome TxStatus :=
  if value =? 0 then Ok Finalized else if value =? 1 then Ok Pruned else Err "invalid value for tx status".

Record BlockHashAndSubmissionIndex := BlockHashAndSubmissionIndex_mk {
  block_hash : H256;
  first_submission_index : option Z;
}.

(** [derive(Encode, Decode)] of [Transaction] *)
Definition tx_fields (tx : Transaction) :
    list u256 * (list u8 * (H256 * (list (usize * H256) * (u64 * (u64 * (u64 * ())))))) :=
  (stream_ids tx, (tx_data tx, (data_merkle_root tx, (merkle_nodes tx,
    (start_entry_index tx, (tx_byte_size tx, (tx_seq tx, ()))))))).

Definition tx_make (x : list u256 * (list u8 * (H256 * (list (usize * H256) * (u64 * (u64 * (u64 * ()))))))) : Transaction :=
  match x with
  | (ids, (data, (root, (nodes, (start, (size, (seq, _))))))) => Transaction_mk ids data root nodes start size seq
  end.

#[export] Instance Transaction_encode : Encode Transaction := struct_encode tx_fields.
#[export] Instance Transaction_decode : Decode Transaction := struct_decode tx_make.

(** [kvdb]'s iterator over a column, in the order of the keys *)
Class KeyValueScan (KV : Type) := kv_iter : KV → nat → outcome (list (list Z * list Z)).

Record TransactionStore (KV : Type) := TransactionStore_mk {
  flow_kvdb : KV;
  data_kvdb : KV;
  next_tx_seq : Z;
}.
Arguments TransactionStore_mk {KV} flow_kvdb data_kvdb next_tx_seq.
Arguments flow_kvdb {KV} t.
Arguments data_kvdb {KV} t.
Arguments next_tx_seq {KV} t.

Section tx_store.
Context `{Keccak, KeyValueDB KV}.
Implicit Types (self : TransactionStore KV) (tx : Transaction).

Definition set_flow_kvdb (kv : KV) self : TransactionStore KV := TransactionStore_mk kv (data_kvdb self) (next_tx_seq self).
Definition set_data_kvdb (kv : KV) self : TransactionStore KV := TransactionStore_mk (flow_kvdb self) kv (next_tx_seq self).
Definition set_next_tx_seq (seq : Z) self : TransactionStore KV := TransactionStore_mk (flow_kvdb self) (data_kvdb self) seq.

(** [self.flow_kvdb.write(..)], [self.data_kvdb.write(..)] *)
Definition write_flow (ops : DBTransaction) : M (TransactionStore KV) () := zoom flow_kvdb set_flow_kvdb (kv_write ops).
Definition write_data (ops : DBTransaction) : M (TransactionStore KV) () := zoom data_kvdb set_data_kvdb (kv_write ops).

Definition decode_tx_seq (data : list Z) : outcome Z :=
  n ← ok_or "TryFromSliceError" (from_be_bytes data); Ok (Z.of_nat n).

Definition tx_store_new (flow_kvdb data_kvdb : KV) : outcome (TransactionStore KV) :=
  o ← kv_get flow_kvdb COL_TX NEXT_TX_KEY;
  next ← match o with Some a => decode_tx_seq a | None => Ok 0 end;
  Ok (TransactionStore_mk flow_kvdb data_kvdb next).

(** ** Reading *)

Definition get_tx_by_seq_number self (seq : Z) : outcome (option Transaction) :=
  if next_tx_seq self <=? seq then Ok None
  else
    o ← kv_get (flow_kvdb self) COL_TX (seq_key seq);
    match o with
    | None => Ok None
    | Some value => tx ← (from_ssz_bytes (T := Transaction) value); Ok (Some tx)
    end.

Definition get_tx_seq_list_by_data_root self (data_root : H256) : outcome (list Z) :=
  o ← kv_get (flow_kvdb self) COL_TX_DATA_ROOT_INDEX (vec_to_list data_root);
  match o with
  | Some value => (from_ssz_bytes (T := list u64) value : outcome (list Z))
  | None => Ok []
  end.

Definition get_tx_status self (tx_seq : Z) : outcome (option TxStatus) :=
  o ← kv_get (data_kvdb self) COL_TX_COMPLETED (seq_key tx_seq);
  match o with
  | None => Ok None
  | Some value =>
      match head value with
      | Some v => s ← tx_status_try_from v; Ok (Some s)
      | None => Ok None
      end
  end.

Definition check_tx_completed self (tx_seq : Z) : outcome bool :=
  status ← get_tx_status self tx_seq;
  Ok (match status with Some Finalized => true | _ => false end).

Definition check_tx_pruned self (tx_seq : Z) : outcome bool :=
  status ← get_tx_status self tx_seq;
  Ok (match status with Some Pruned => true | _ => false end).

(** ** Inserting *)

Definition data_to_merkle_leaves_h256 (leaf_data : list Z) : outcome (list H256) :=
  optional_hashes ← data_to_merkle_leaves leaf_data;
  expect (mapM (M := option) id optional_hashes).

Definition sub_merkle_tree (leaf_data : list Z) : outcome (MerkleTree H256) :=
  leaves ← data_to_merkle_leaves_h256 leaf_data;
  light_new leaves.

(** The data root and size of a transaction that carries its data. *)
Definition fill_data_root tx : outcome Transaction :=
  if bool_decide (tx_data tx = []) then Ok tx
  else
    let size := blen (tx_data tx) in
    let extra := size `mod` ENTRY_SIZE in
    let padded_data := if extra =? 0 then tx_data tx
                       else tx_data tx ++ replicate (Z.to_nat (ENTRY_SIZE - extra)) 0 in
    mt ← sub_merkle_tree padded_data;
    data_root ← light_root mt;
    Ok (Transaction_mk (stream_ids tx) (tx_data tx) data_root (merkle_nodes tx) (start_entry_index tx) size (tx_seq tx)).

Definition put_tx tx : M (TransactionStore KV) (list Z) :=
  old_tx_seq_list ← gets_ok (λ self, get_tx_seq_list_by_data_root self (data_merkle_root tx));
  if bool_decide (last old_tx_seq_list = Some (tx_seq tx)) then
    _ ← modify (set_next_tx_seq (wrap64 (tx_seq tx + 1)));
    mret old_tx_seq_list
  else
    tx ← lift (fill_data_root tx);
    let db_tx := [Insert COL_TX (seq_key (tx_seq tx)) (as_ssz_bytes tx);
                  Insert COL_TX NEXT_TX_KEY (seq_key (wrap64 (tx_seq tx + 1)))] in
    if match last old_tx_seq_list with Some l => l <? tx_seq tx | None => true end then
      let new_tx_seq_list := old_tx_seq_list ++ [tx_seq tx] in
      let db_tx := db_tx ++ [Insert COL_TX_DATA_ROOT_INDEX (vec_to_list (data_merkle_root tx))
                               (as_ssz_bytes (T := list u64) new_tx_seq_list)] in
      _ ← modify (set_next_tx_seq (wrap64 (tx_seq tx + 1)));
      _ ← write_flow db_tx;
      mret old_tx_seq_list
    else panic.

(** ** Removing *)

(** The loop over [min_seq..max_seq]: what is to be deleted, the lists of the
    touched roots and the removed transactions. *)
Fixpoint remove_loop self (seqs : list Z) (roots : gmap H256 (list Z)) (flow_tx data_tx : DBTransaction)
    (removed : list Transaction) : outcome (gmap H256 (list Z) * DBTransaction * DBTransaction * list Transaction) :=
  match seqs with
  | [] => Ok (roots, flow_tx, data_tx, removed)
  | seq :: rest =>
      o ← get_tx_by_seq_number self seq;
      match o with
      | None => Ok (roots, flow_tx, data_tx, removed)
      | Some tx =>
          tx_seq_list ← match roots !! data_merkle_root tx with
                        | Some l => Ok l
                        | None => get_tx_seq_list_by_data_root self (data_merkle_root tx)
                        end;
          remove_loop self rest (<[data_merkle_root tx := filter (λ e, e < seq) tx_seq_list]> roots)
            (flow_tx ++ [Delete COL_TX (seq_key seq)]) (data_tx ++ [Delete COL_TX_COMPLETED (seq_key seq)])
            (removed ++ [tx])
      end
  end.

(** A root whose list became empty is dropped from the index. *)
Definition index_op (p : H256 * list Z) : DBOp :=
  if bool_decide (p.2 = []) then Delete COL_TX_DATA_ROOT_INDEX (vec_to_list p.1)
  else Insert COL_TX_DATA_ROOT_INDEX (vec_to_list p.1) (as_ssz_bytes (T := list u64) p.2).

Definition remove_tx_after (min_seq : Z) : M (TransactionStore KV) (list Transaction) :=
  max_seq ← gets next_tx_seq;
  r ← gets_ok (λ self, remove_loop self (seqZ min_seq (max_seq - min_seq)) ∅ [] [] []);
  match r with
  | (roots, flow_tx, data_tx, removed) =>
      let flow_tx := flow_tx ++ (index_op <$> map_to_list roots) ++ [Insert COL_TX NEXT_TX_KEY (seq_key min_seq)] in
      _ ← modify (set_next_tx_seq min_seq);
      _ ← write_data data_tx;
      _ ← write_flow flow_tx;
      mret removed
  end.

(** ** Status *)

Definition finalize_tx (tx_seq : Z) : M (TransactionStore KV) () :=
  write_data [Insert COL_TX_COMPLETED (seq_key tx_seq) [tx_status_to_u8 Finalized]].

Definition prune_tx (seq : Z) : M (TransactionStore KV) () :=
  o ← gets_ok (λ self, get_tx_by_seq_number self seq);
  tx ← lift (ok_or "prune_tx with tx missing" o);
  tx_seq_list ← gets_ok (λ self, get_tx_seq_list_by_data_root self (data_merkle_root tx));
  let tx_seq_list := filter (λ s, s ≠ seq) tx_seq_list in
  _ ← write_data [Insert COL_TX_COMPLETED (seq_key seq) [tx_status_to_u8 Pruned]];
  write_flow [index_op (data_merkle_root tx, tx_seq_list)].

(** ** Progress of the log synchronisation *)

Definition put_progress (progress : Z * H256 * option (option Z)) : M (TransactionStore KV) () :=
  match progress with
  | (block, hash, p) =>
      write_flow (Insert COL_MISC LOG_SYNC_PROGRESS_KEY (as_ssz_bytes ((block, hash) : u64 * H256)) ::
        match p with
        | Some p => [Insert COL_BLOCK_PROGRESS (seq_key block) (as_ssz_bytes ((hash, p) : H256 * option u64))]
        | None => []
        end)
  end.

Definition get_progress self : outcome (option (Z * H256)) :=
  o ← kv_get (flow_kvdb self) COL_MISC LOG_SYNC_PROGRESS_KEY;
  match o with
  | None => Ok None
  | Some v => x ← (from_ssz_bytes (T := u64 * H256) v : outcome (Z * H256)); Ok (Some x)
  end.

Definition put_log_latest_block_number (block_number : Z) : M (TransactionStore KV) () :=
  write_flow [Insert COL_MISC LOG_LATEST_BLOCK_NUMBER_KEY (as_ssz_bytes (block_number : u64))].

Definition get_log_latest_block_number self : outcome (option Z) :=
  o ← kv_get (flow_kvdb self) COL_MISC LOG_LATEST_BLOCK_NUMBER_KEY;
  match o with
  | None => Ok None
  | Some v => x ← (from_ssz_bytes (T := u64) v : outcome Z); Ok (Some x)
  end.

Definition get_block_hash_by_number self (block_number : Z) : outcome (option (H256 * option Z)) :=
  o ← kv_get (flow_kvdb self) COL_BLOCK_PROGRESS (seq_key block_number);
  match o with
  | None => Ok None
  | Some v => x ← (from_ssz_bytes (T := H256 * option u64) v : outcome (H256 * option Z)); Ok (Some x)
  end.

Fixpoint decode_block_hashes (entries : list (list Z * list Z)) : outcome (list (Z * BlockHashAndSubmissionIndex)) :=
  match entries with
  | [] => Ok []
  | (key, val) :: rest =>
      block_number ← decode_tx_seq key;
      val ← (from_ssz_bytes (T := H256 * option u64) val : outcome (H256 * option Z));
      l ← decode_block_hashes rest;
      Ok ((block_number, BlockHashAndSubmissionIndex_mk val.1 val.2) :: l)
  end.

Definition get_block_hashes `{!KeyValueScan KV} self : outcome (list (Z * BlockHashAndSubmissionIndex)) :=
  entries ← kv_iter (flow_kvdb self) COL_BLOCK_PROGRESS;
  decode_block_hashes entries.

Definition delete_block_hash_by_number (block_number : Z) : M (TransactionStore KV) () :=
  write_flow [Delete COL_BLOCK_PROGRESS (seq_key block_number)].

End tx_store.
