(* ===== verification/TxStoreFacts.v ===== *)
(** The transaction store implements a log of transactions: what is appended is
    read back by number and by data root, removing takes the end away, and the
    store found after a restart is the one that was left. *)

From stdpp Require Import sorting list_numbers.
From S2P Require Import Prelude HashElement Ssz SszFacts SszCanonical Bytes Shard MerkleLight SharedTypes.
From S2P Require Import Seal ChunkData SealInfo EntryBatch TxStore.
Local Open Scope Z_scope.

(** ** The encoding of transactions *)

#[export] Instance u8_codec : SszCodec u8 (λ z, 0 <= z < 2 ^ 8).
Proof. split; [exact u8_lawful|exact u8_total|exact u8_canonical]. Qed.
#[export] Instance u64_codec : SszCodec u64 (λ z, 0 <= z < 2 ^ 64).
Proof. split; [exact u64_lawful|exact u64_total|exact u64_canonical]. Qed.
#[export] Instance u256_codec : SszCodec u256 (λ z, 0 <= z < 2 ^ 256).
Proof. split; [exact u256_lawful|exact u256_total|exact u256_canonical]. Qed.
#[export] Instance h256_codec : SszCodec H256 (λ _, True).
Proof. split; [exact h256_lawful|exact h256_total|exact h256_canonical]. Qed.

Lemma length_node_bytes (x : usize * H256) : length (as_ssz_bytes x) = 40%nat.
Proof.
  change (length (container_append [field_of (x.1 : usize); field_of (x.2 : H256)] []) = 40%nat).
  rewrite container_fixed_len; [done|repeat constructor; apply field_of_ok|by repeat constructor].
Qed.

#[export] Instance node_codec : SszCodec (usize * H256) (λ x, 0 <= x.1 < 2 ^ 64).
Proof.
  split; [|exact tuple2_total|exact tuple2_canonical]. destruct (tuple2_lawful (A := usize) (B := H256)) as [H1 H2 H3 H4 H5].
  split; [exact H1|exact H2|exact H3|exact H4|]. intros x Hx. apply H5. split; [exact Hx|]. split; [exact I|]. rewrite length_node_bytes. unfold u32_max. lia.
Qed.

#[export] Instance u8_list_codec :
  SszCodec (list u8) (λ l, Forall (λ z, 0 <= z < 2 ^ 8) l ∧ (length (as_ssz_bytes l) < u32_max)%nat).
Proof. apply (vec_codec (H1 := u8_codec)). intros _. exact Nat.lt_0_1. Qed.
#[export] Instance u64_list_codec :
  SszCodec (list u64) (λ l, Forall (λ z, 0 <= z < 2 ^ 64) l ∧ (length (as_ssz_bytes l) < u32_max)%nat).
Proof. apply (vec_codec (H1 := u64_codec)). intros _. apply Nat.lt_0_succ. Qed.
#[export] Instance u256_list_codec :
  SszCodec (list u256) (λ l, Forall (λ z, 0 <= z < 2 ^ 256) l ∧ (length (as_ssz_bytes l) < u32_max)%nat).
Proof. apply (vec_codec (H1 := u256_codec)). intros _. apply Nat.lt_0_succ. Qed.
#[export] Instance node_list_codec :
  SszCodec (list (usize * H256)) (λ l, Forall (λ x, 0 <= x.1 < 2 ^ 64) l ∧ (length (as_ssz_bytes l) < u32_max)%nat).
Proof. apply (vec_codec (H1 := node_codec)). intros _. apply Nat.lt_0_succ. Qed.

Record tx_typed (tx : Transaction) : Prop := {
  tt_streams : Forall (λ z, 0 <= z < 2 ^ 256) (stream_ids tx);
  tt_data : Forall (λ z, 0 <= z < 2 ^ 8) (tx_data tx);
  tt_nodes : Forall (λ n, 0 <= n.1 < 2 ^ 64) (merkle_nodes tx);
  tt_start : 0 <= start_entry_index tx < 2 ^ 64;
  tt_size : 0 <= tx_byte_size tx < 2 ^ 64;
  tt_seq : 0 <= tx_seq tx < 2 ^ 64;
  tt_length : (length (as_ssz_bytes tx) < u32_max)%nat;
}.

Lemma var_part_length (f : field) fields : f ∈ fields → fld_fixed f = false → (length (fbytes f) ≤ length (var_part fields))%nat.
Proof.
  intros Hin Hf. induction fields as [|g fields IH]; [by apply not_elem_of_nil in Hin|]. rewrite var_part_cons.
  apply elem_of_cons in Hin as [->|Hin].
  - rewrite Hf, length_app. lia.
  - specialize (IH Hin). destruct (fld_fixed g); [done|]. rewrite length_app. lia.
Qed.

(** A field of a transaction is no longer than its encoding. *)
Lemma tx_part_length tx (f : field) :
  f ∈ fields_of (tx_fields tx) → fld_fixed f = false → (length (as_ssz_bytes tx) < u32_max)%nat → (length (fbytes f) < u32_max)%nat.
Proof.
  intros Hin Hf Hlen. change (as_ssz_bytes tx) with (container_append (fields_of (tx_fields tx)) []) in Hlen.
  rewrite length_container in Hlen by apply (fc_fields (T := _)). pose proof (var_part_length f _ Hin Hf). lia.
Qed.

Lemma tx_roundtrip tx : tx_typed tx → from_ssz_bytes (as_ssz_bytes tx) = Ok tx.
Proof.
  intros [Hids Hdata Hnodes Hstart Hsize Hseq Hlen].
  pose proof (struct_codec tx_fields tx_make ltac:(by intros []) ltac:(by intros (?&?&?&?&?&?&?&[]))) as Hc.
  apply (ssz_roundtrip (SszLawful := codec_lawful (SszCodec := Hc))). split; [|exact Hlen].
  cbn [tx_fields fst snd]. split; [split; [exact Hids|]|split; [split; [exact Hdata|]|split; [exact I|split; [split; [exact Hnodes|]|done]]]].
  - apply (tx_part_length tx (field_of (stream_ids tx : list u256))); [left|done|done].
  - apply (tx_part_length tx (field_of (tx_data tx : list u8))); [right; left|done|done].
  - apply (tx_part_length tx (field_of (merkle_nodes tx : list (usize * H256)))); [do 3 right; left|done|done].
Qed.

(** Lists of sequence numbers, of any length. *)
Lemma u64_list_roundtrip (l : list u64) :
  Forall (λ z, 0 <= z < 2 ^ 64) l → from_ssz_bytes (as_ssz_bytes l) = Ok l.
Proof.
  intros Hl. unfold from_ssz_bytes. cbn [vec_decode]. change (dec_fixed u64) with true. change (dec_fixed_len u64) with 8%nat.
  rewrite bool_decide_false by lia.
  assert (as_ssz_bytes l = concat (as_ssz_bytes <$> l)) as ->.
  { unfold as_ssz_bytes at 1. cbn [ssz_append vec_encode]. change (enc_fixed u64) with true. cbn iota.
    by rewrite (fixed_list_append (T := u64)). }
  assert (∀ x : u64, length (as_ssz_bytes x) = 8%nat) as Hlen by (intros x; apply length_to_le).
  pose proof (fixed_list_decode (T := u64) l 8 (length (concat (as_ssz_bytes <$> l))) ltac:(lia) Hlen Hl ltac:(lia)) as Hd.
  destruct (concat (as_ssz_bytes <$> l)) eqn:Hc; [|exact Hd]. cbn in Hd. exact Hd.
Qed.

(** ** Keys *)

Lemma seq_key_inj a b : 0 ≤ a → 0 ≤ b → seq_key a = seq_key b → a = b.
Proof. unfold seq_key. intros Ha Hb Heq%(inj _). lia. Qed.

Lemma seq_key_not_next a : 0 ≤ a < 2 ^ 64 → seq_key a ≠ NEXT_TX_KEY.
Proof.
  intros Ha Heq. apply (f_equal length) in Heq. unfold seq_key in Heq.
  destruct (to_be_bytes_shape (Z.to_nat a)) as [(z & Hz & _)|[Hl _]]; [rewrite Hz in Heq; done|]. rewrite Hl in Heq. done.
Qed.

Lemma decode_seq_key a : 0 ≤ a → decode_tx_seq (seq_key a) = Ok a.
Proof. intros Ha. unfold decode_tx_seq, seq_key. rewrite from_to_be_bytes. cbn. by rewrite Z2Nat.id. Qed.

(** ** The log *)

(** The transactions in order; the state of some of them; those that are no
    longer found by their data root. *)
Record tx_log := TxLog {
  tl_txs : list Transaction;
  tl_status : gmap Z TxStatus;
  tl_hidden : gset Z;
}.

Definition tl_len (log : tx_log) : Z := Z.of_nat (length (tl_txs log)).

Definition tx_root_at (log : tx_log) (i : Z) : option H256 := data_merkle_root <$> tl_txs log !! Z.to_nat i.

(** The numbers of the transactions with a root, in increasing order. *)
Definition root_index (log : tx_log) (r : H256) : list Z :=
  filter (λ i, tx_root_at log i = Some r ∧ i ∉ tl_hidden log) (seqZ 0 (tl_len log)).

Definition index_value (l : list Z) : option (list Z) :=
  if bool_decide (l = []) then None else Some (as_ssz_bytes (T := list u64) l).

Definition log_append (log : tx_log) (tx : Transaction) : tx_log :=
  TxLog (tl_txs log ++ [tx]) (tl_status log) (tl_hidden log).
Definition log_truncate (log : tx_log) (n : Z) : tx_log :=
  TxLog (take (Z.to_nat n) (tl_txs log)) (filter (λ p, p.1 < n) (tl_status log)) (filter (λ i, i < n) (tl_hidden log)).
Definition log_finalize (log : tx_log) (i : Z) : tx_log :=
  TxLog (tl_txs log) (<[i := Finalized]> (tl_status log)) (tl_hidden log).
Definition log_prune (log : tx_log) (i : Z) : tx_log :=
  TxLog (tl_txs log) (<[i := Pruned]> (tl_status log)) ({[i]} ∪ tl_hidden log).

(** *** The index under changes of the log *)

Lemma filter_ext_elem {A} (P Q : A → Prop) `{∀ x, Decision (P x), ∀ x, Decision (Q x)} (l : list A) :
  (∀ x, x ∈ l → P x ↔ Q x) → filter P l = filter Q l.
Proof.
  induction l as [|x l IH]; intros Hpq; [done|]. rewrite !filter_cons. rewrite IH by (intros y Hy; apply Hpq; by right).
  by rewrite (decide_ext (P x) (Q x)) by (apply Hpq; by left).
Qed.

Lemma filter_all {A} (P : A → Prop) `{∀ x, Decision (P x)} (l : list A) : (∀ x, x ∈ l → P x) → filter P l = l.
Proof.
  induction l as [|x l IH]; intros Hp; [done|]. rewrite filter_cons_True by (apply Hp; by left).
  rewrite IH; [done|]. intros y Hy. apply Hp. by right.
Qed.

Lemma filter_nothing {A} (P : A → Prop) `{∀ x, Decision (P x)} (l : list A) : (∀ x, x ∈ l → ¬ P x) → filter P l = [].
Proof.
  induction l as [|x l IH]; intros Hp; [done|]. rewrite filter_cons_False by (apply Hp; by left).
  apply IH. intros y Hy. apply Hp. by right.
Qed.

Lemma elem_of_root_index log r i :
  i ∈ root_index log r ↔ (tx_root_at log i = Some r ∧ i ∉ tl_hidden log) ∧ 0 ≤ i < tl_len log.
Proof. unfold root_index. rewrite list_elem_of_filter, elem_of_seqZ. by rewrite Z.add_0_l. Qed.

Lemma tl_len_append log tx : tl_len (log_append log tx) = tl_len log + 1.
Proof. unfold tl_len. cbn. rewrite length_app. cbn. lia. Qed.

Lemma tl_len_truncate log n : 0 ≤ n ≤ tl_len log → tl_len (log_truncate log n) = n.
Proof. unfold tl_len. cbn. rewrite length_take. lia. Qed.

Lemma tx_root_at_append log tx i : 0 ≤ i < tl_len log → tx_root_at (log_append log tx) i = tx_root_at log i.
Proof. unfold tl_len, tx_root_at. intros Hi. cbn. by rewrite lookup_app_l by lia. Qed.

Lemma tx_root_at_last log tx : tx_root_at (log_append log tx) (tl_len log) = Some (data_merkle_root tx).
Proof. unfold tl_len, tx_root_at. cbn. rewrite Nat2Z.id. by rewrite list_lookup_middle. Qed.

Lemma root_index_append log tx r :
  (∀ i, i ∈ tl_hidden log → i < tl_len log) →
  root_index (log_append log tx) r =
    root_index log r ++ (if bool_decide (data_merkle_root tx = r) then [tl_len log] else []).
Proof.
  intros Hh. unfold root_index at 1. rewrite tl_len_append. unfold tl_len at 1.
  replace (Z.of_nat (length (tl_txs log)) + 1) with (Z.of_nat (S (length (tl_txs log)))) by lia.
  rewrite seqZ_S, filter_app, Z.add_0_l. fold (tl_len log). f_equal.
  - apply filter_ext_elem. intros i Hi%elem_of_seqZ. by rewrite tx_root_at_append by lia.
  - rewrite filter_cons, tx_root_at_last. cbn [tl_hidden log_append]. rewrite filter_nil.
    assert (tl_len log ∉ tl_hidden log) as Hn by (intros Hin%Hh; lia).
    case_bool_decide as Hr; case_decide as Hd; try done; [destruct Hd; by rewrite Hr|]. destruct Hd as [[= ?] _]. done.
Qed.

Lemma root_index_truncate log n r :
  0 ≤ n ≤ tl_len log → root_index (log_truncate log n) r = filter (λ e, e < n) (root_index log r).
Proof.
  intros Hn. unfold root_index. rewrite tl_len_truncate by done.
  replace (tl_len log) with (n + (tl_len log - n)) by lia. rewrite seqZ_app, !filter_app by lia.
  rewrite Z.add_0_l. rewrite (filter_nothing _ (filter _ (seqZ n _))), app_nil_r.
  - rewrite list_filter_filter. apply filter_ext_elem. intros i Hi%elem_of_seqZ. cbn [tl_hidden log_truncate].
    rewrite elem_of_filter. unfold tx_root_at. cbn [tl_txs log_truncate]. rewrite lookup_take_lt by lia. split; intros; naive_solver lia.
  - intros i. rewrite list_elem_of_filter, elem_of_seqZ. lia.
Qed.

Lemma root_index_prune log i r : root_index (log_prune log i) r = filter (λ s, s ≠ i) (root_index log r).
Proof.
  unfold root_index. rewrite list_filter_filter. apply filter_ext_elem. intros j _. cbn. unfold tx_root_at. cbn. set_solver.
Qed.

Section store.
Context `{Keccak, KeyValueDBLaws KV}.
Implicit Types (self : TransactionStore KV) (log : tx_log).

Record store_ok log self : Prop := {
  so_flow : kv_writable (flow_kvdb self);
  so_data : kv_writable (data_kvdb self);
  so_next : next_tx_seq self = tl_len log;
  so_len : tl_len log < 2 ^ 64;
  so_tx : ∀ i tx, tl_txs log !! i = Some tx →
    kv_map (flow_kvdb self) !! (COL_TX, seq_key (Z.of_nat i)) = Some (as_ssz_bytes tx) ∧ tx_typed tx ∧ tx_seq tx = Z.of_nat i;
  so_next_key : kv_map (flow_kvdb self) !! (COL_TX, NEXT_TX_KEY) = Some (seq_key (tl_len log)) ∨
    kv_map (flow_kvdb self) !! (COL_TX, NEXT_TX_KEY) = None ∧ tl_len log = 0;
  so_index : ∀ r : H256, kv_map (flow_kvdb self) !! (COL_TX_DATA_ROOT_INDEX, vec_to_list r) = index_value (root_index log r);
  so_status : ∀ i, 0 ≤ i < 2 ^ 64 →
    kv_map (data_kvdb self) !! (COL_TX_COMPLETED, seq_key i) = (λ s, [tx_status_to_u8 s]) <$> tl_status log !! i;
  so_status_dom : ∀ i, is_Some (tl_status log !! i) → 0 ≤ i < tl_len log;
  so_hidden_dom : ∀ i, i ∈ tl_hidden log → 0 ≤ i < tl_len log;
}.

(** *** Reading *)

Lemma get_tx_spec log self seq :
  store_ok log self → 0 ≤ seq → get_tx_by_seq_number self seq = Ok (tl_txs log !! Z.to_nat seq).
Proof.
  intros Hok Hs. unfold get_tx_by_seq_number. rewrite (so_next _ _ Hok). unfold tl_len.
  destruct (Z.leb_spec (Z.of_nat (length (tl_txs log))) seq) as [Hle|Hlt].
  { by rewrite lookup_ge_None_2 by lia. }
  destruct (lookup_lt_is_Some_2 (tl_txs log) (Z.to_nat seq)) as [tx Htx]; [lia|].
  destruct (so_tx _ _ Hok _ _ Htx) as (Hkv & Hty & _). rewrite Z2Nat.id in Hkv by lia.
  rewrite kv_get_map, Hkv, bind_Ok, Htx. by rewrite (tx_roundtrip tx Hty), bind_Ok.
Qed.

Lemma root_index_typed log self r : store_ok log self → Forall (λ z, 0 <= z < 2 ^ 64) (root_index log r).
Proof.
  intros Hok. pose proof (so_len _ _ Hok). apply Forall_forall. intros i. unfold root_index.
  rewrite list_elem_of_filter, elem_of_seqZ. lia.
Qed.

Lemma get_list_spec log self r :
  store_ok log self → get_tx_seq_list_by_data_root self r = Ok (root_index log r).
Proof.
  intros Hok. unfold get_tx_seq_list_by_data_root. rewrite kv_get_map, (so_index _ _ Hok), bind_Ok. unfold index_value.
  case_bool_decide as Hn; [by rewrite Hn|]. exact (u64_list_roundtrip _ (root_index_typed log self r Hok)).
Qed.

Lemma get_status_spec log self i :
  store_ok log self → 0 ≤ i < 2 ^ 64 → get_tx_status self i = Ok (tl_status log !! i).
Proof.
  intros Hok Hi. unfold get_tx_status. rewrite kv_get_map, (so_status _ _ Hok), bind_Ok by done.
  by destruct (tl_status log !! i) as [[]|].
Qed.

(** A restart finds the store as it was. *)
Lemma restart_spec log self : store_ok log self → tx_store_new (flow_kvdb self) (data_kvdb self) = Ok self.
Proof.
  intros Hok. unfold tx_store_new. rewrite kv_get_map, bind_Ok.
  assert (self = TransactionStore_mk (flow_kvdb self) (data_kvdb self) (tl_len log)) as Hself
    by (rewrite <- (so_next _ _ Hok); by destruct self).
  destruct (so_next_key _ _ Hok) as [-> |[-> Hz]]; cbn.
  - rewrite decode_seq_key, bind_Ok by (unfold tl_len; lia). by rewrite <- Hself.
  - by rewrite <- Hz, <- Hself.
Qed.


(** *** Writing *)

Lemma wp_write_flow ops self (Q : () → TransactionStore KV → Prop) :
  kv_writable (flow_kvdb self) →
  (∀ kv, kv_writable kv → kv_map kv = foldl apply_op (kv_map (flow_kvdb self)) ops → Q tt (set_flow_kvdb kv self)) →
  wp (write_flow ops) Q self.
Proof. intros Hw HQ. apply wp_zoom, wp_kv_write; [done|]. by apply HQ. Qed.

Lemma wp_write_data ops self (Q : () → TransactionStore KV → Prop) :
  kv_writable (data_kvdb self) →
  (∀ kv, kv_writable kv → kv_map kv = foldl apply_op (kv_map (data_kvdb self)) ops → Q tt (set_data_kvdb kv self)) →
  wp (write_data ops) Q self.
Proof. intros Hw HQ. apply wp_zoom, wp_kv_write; [done|]. by apply HQ. Qed.

Lemma tl_len_nonneg log : 0 ≤ tl_len log.
Proof. unfold tl_len. lia. Qed.

(** A transaction whose data, if it carries any, has the root it claims. *)
Definition root_consistent (tx tx' : Transaction) : Prop :=
  fill_data_root tx = Ok tx' ∧ data_merkle_root tx' = data_merkle_root tx.

Lemma fill_data_root_seq tx tx' : fill_data_root tx = Ok tx' → tx_seq tx' = tx_seq tx.
Proof.
  unfold fill_data_root. case_bool_decide; [by intros [= <-]|]. cbv zeta.
  intros (mt & _ & Ht)%bind_Ok_inv. apply bind_Ok_inv in Ht as (r & _ & Ht). by injection Ht as <-.
Qed.

Lemma last_root_index log r i : last (root_index log r) = Some i → i < tl_len log.
Proof. intros Hl%last_Some_elem_of. apply elem_of_root_index in Hl. lia. Qed.

Lemma put_tx_spec log self tx tx' :
  store_ok log self → tx_seq tx = tl_len log → tl_len log + 1 < 2 ^ 64 → root_consistent tx tx' → tx_typed tx' →
  wp (put_tx tx) (λ l self', l = root_index log (data_merkle_root tx) ∧ store_ok (log_append log tx') self') self.
Proof.
  intros Hok Hseq Hlt [Hfill Hroot] Hty. pose proof (tl_len_nonneg log) as Hnn. unfold put_tx. apply wp_bind.
  eapply wp_gets_ok; [by apply (get_list_spec log)|].
  rewrite bool_decide_false by (intros Hl%last_root_index; lia). apply wp_bind. eapply wp_lift; [done|].
  pose proof (fill_data_root_seq _ _ Hfill) as Hseq'. rewrite Hseq', Hseq.
  assert (match last (root_index log (data_merkle_root tx)) with Some l => l <? tl_len log | None => true end = true) as ->.
  { destruct (last _) as [l|] eqn:Hl; [|done]. apply last_root_index in Hl. by apply Z.ltb_lt. }
  apply wp_bind, wp_modify, wp_bind. unfold wrap64. rewrite Z.mod_small by lia.
  apply wp_write_flow; [apply Hok|]. intros kv Hw Hkv. apply wp_ret. split; [done|].
  assert (∀ i : nat, (i < length (tl_txs log))%nat → seq_key (Z.of_nat i) ≠ seq_key (tl_len log)) as Hk1
    by (intros i Hi Heq%seq_key_inj; unfold tl_len in *; lia).
  assert (∀ i : nat, (i ≤ length (tl_txs log))%nat → seq_key (Z.of_nat i) ≠ NEXT_TX_KEY) as Hk2
    by (intros i Hi; apply seq_key_not_next; unfold tl_len in *; lia).
  cbn [foldl apply_op app flow_kvdb set_next_tx_seq] in Hkv.
  split; cbn [flow_kvdb data_kvdb next_tx_seq set_flow_kvdb set_next_tx_seq tl_status tl_hidden log_append];
    rewrite ?tl_len_append; try done; try apply Hok.
  - intros i t Ht. rewrite Hkv. apply lookup_app_Some in Ht as [Ht|[Hge Ht]].
    + pose proof (lookup_lt_Some _ _ _ Ht) as Hi. rewrite lookup_insert_ne by done.
      rewrite lookup_insert_ne by (intros [= Heq]; apply (Hk2 i); [lia|done]).
      rewrite lookup_insert_ne by (intros [= Heq]; by apply (Hk1 i)). by apply (so_tx _ _ Hok).
    + apply list_lookup_singleton_Some in Ht as [Hi <-]. assert (Z.of_nat i = tl_len log) as Hz by (unfold tl_len; lia).
      rewrite lookup_insert_ne by done. rewrite lookup_insert_ne by (intros [= Heq]; apply (Hk2 i); [lia|done]).
      rewrite Hz, lookup_insert_eq. split; [done|]. split; [done|]. by rewrite Hseq'.
  - left. rewrite Hkv. rewrite lookup_insert_ne by done. by rewrite lookup_insert_eq.
  - intros r. rewrite Hkv, root_index_append by (intros i Hi; by apply (so_hidden_dom _ _ Hok)).
    case_bool_decide as Hr.
    + rewrite Hroot in Hr. subst r. rewrite Hroot, lookup_insert_eq. unfold index_value. rewrite bool_decide_false; [done|].
      by destruct (root_index log (data_merkle_root tx)).
    + rewrite app_nil_r. rewrite lookup_insert_ne by (intros [= Heq%vec_to_list_inj2]; done). rewrite !lookup_insert_ne by done. apply Hok.
  - intros i Hi. pose proof (so_status_dom _ _ Hok i Hi). lia.
  - intros i Hi. pose proof (so_hidden_dom _ _ Hok i Hi). lia.
Qed.

(** Putting the last transaction again changes nothing. *)
Lemma root_index_last log i r :
  tx_root_at log i = Some r → i ∉ tl_hidden log → i + 1 = tl_len log → 0 ≤ i → last (root_index log r) = Some i.
Proof.
  intros Hr Hh Hlen Hi. unfold root_index. rewrite <- Hlen. rewrite seqZ_app, filter_app, Z.add_0_l by lia.
  change (seqZ i 1) with [i]. rewrite filter_cons_True by done. by rewrite filter_nil, last_snoc.
Qed.

Lemma put_tx_again_spec log self tx :
  store_ok log self → tx_seq tx + 1 = tl_len log → tx_root_at log (tx_seq tx) = Some (data_merkle_root tx) →
  tx_seq tx ∉ tl_hidden log → 0 ≤ tx_seq tx →
  wp (put_tx tx) (λ l self', l = root_index log (data_merkle_root tx) ∧ self' = self) self.
Proof.
  intros Hok Hseq Hroot Hh Hnn. unfold put_tx. apply wp_bind. eapply wp_gets_ok; [by apply (get_list_spec log)|].
  rewrite bool_decide_true by (by apply root_index_last). apply wp_bind, wp_modify, wp_ret. split; [done|].
  pose proof (so_len _ _ Hok). unfold wrap64. rewrite Z.mod_small by lia. rewrite Hseq, <- (so_next _ _ Hok). by destruct self.
Qed.

(** The state of one transaction. *)
Lemma status_write_ok log self kv i st hidden :
  store_ok log self → 0 ≤ i < tl_len log → kv_writable kv →
  kv_map kv = foldl apply_op (kv_map (data_kvdb self)) [Insert COL_TX_COMPLETED (seq_key i) [tx_status_to_u8 st]] →
  hidden = tl_hidden log → store_ok (TxLog (tl_txs log) (<[i := st]> (tl_status log)) hidden) (set_data_kvdb kv self).
Proof.
  intros Hok Hi Hw Hkv ->. pose proof (so_len _ _ Hok). cbn [foldl apply_op] in Hkv.
  split; cbn [flow_kvdb data_kvdb next_tx_seq set_data_kvdb tl_status tl_hidden]; try done; try apply Hok.
  - intros j Hj. rewrite Hkv. destruct (decide (i = j)) as [<-|Hne]; [by rewrite !lookup_insert_eq|].
    rewrite lookup_insert_ne by (intros [= Heq%seq_key_inj]; lia). rewrite lookup_insert_ne by done. by apply Hok.
  - intros j Hj. destruct (decide (i = j)) as [<-|Hne]; [done|]. rewrite lookup_insert_ne in Hj by done. by apply (so_status_dom _ _ Hok).
Qed.

Lemma finalize_tx_spec log self i :
  store_ok log self → 0 ≤ i < tl_len log → wp (finalize_tx i) (λ _ self', store_ok (log_finalize log i) self') self.
Proof.
  intros Hok Hi. apply wp_write_data; [apply Hok|]. intros kv Hw Hkv. by apply (status_write_ok log).
Qed.

Lemma index_op_value p : op_value (index_op p) = index_value p.2.
Proof. unfold index_op, index_value. by case_bool_decide. Qed.

Lemma index_op_key p : op_key (index_op p) = (COL_TX_DATA_ROOT_INDEX, vec_to_list p.1).
Proof. unfold index_op. by case_bool_decide. Qed.

Lemma prune_tx_spec log self i :
  store_ok log self → 0 ≤ i < tl_len log → wp (prune_tx i) (λ _ self', store_ok (log_prune log i) self') self.
Proof.
  intros Hok Hi. unfold prune_tx. apply wp_bind. eapply wp_gets_ok; [apply (get_tx_spec log); [done|lia]|].
  destruct (lookup_lt_is_Some_2 (tl_txs log) (Z.to_nat i)) as [tx Htx]; [unfold tl_len in Hi; lia|]. rewrite Htx.
  apply wp_bind. eapply wp_lift; [done|]. apply wp_bind. eapply wp_gets_ok; [by apply (get_list_spec log)|]. cbv zeta.
  apply wp_bind, wp_write_data; [apply Hok|]. intros kd Hwd Hkd.
  pose proof (status_write_ok log self kd i Pruned _ Hok Hi Hwd Hkd eq_refl) as Hok1.
  apply wp_write_flow; [apply Hok|]. intros kv Hw Hkv. cbn [foldl] in Hkv. cbn [flow_kvdb set_data_kvdb] in Hkv.
  assert (∀ k, k ≠ (COL_TX_DATA_ROOT_INDEX, vec_to_list (data_merkle_root tx)) → kv_map kv !! k = kv_map (flow_kvdb self) !! k) as Hne.
  { intros k Hk. rewrite Hkv. apply (lookup_ops_notin _ [_]). cbn. rewrite index_op_key. set_solver. }
  split; cbn [flow_kvdb data_kvdb next_tx_seq set_flow_kvdb tl_hidden log_prune]; try done; try apply Hok1.
  - intros j t Ht. rewrite Hne by done. by apply (so_tx _ _ Hok).
  - rewrite !Hne by done. apply Hok.
  - intros r. rewrite root_index_prune. destruct (decide (r = data_merkle_root tx)) as [->|Hr].
    + rewrite Hkv. pose proof (lookup_ops_in (kv_map (flow_kvdb self)) [index_op (data_merkle_root tx, filter (λ s, s ≠ i) (root_index log (data_merkle_root tx)))] _
        ltac:(apply NoDup_singleton) ltac:(by left)) as Hv. rewrite index_op_key, index_op_value in Hv. exact Hv.
    + rewrite Hne by (intros [= Heq%vec_to_list_inj2]; done). rewrite (so_index _ _ Hok). f_equal. symmetry. apply filter_all.
      intros j Hj ->. apply elem_of_root_index in Hj as ((Hj & _) & _). unfold tx_root_at in Hj. rewrite Htx in Hj. cbn in Hj. congruence.
  - intros j Hj. apply elem_of_union in Hj as [->%elem_of_singleton|Hj]; [done|]. by apply (so_hidden_dom _ _ Hok).
Qed.

(** A transaction that is not there cannot be pruned. *)
Lemma prune_missing_spec log self i :
  store_ok log self → tl_len log ≤ i → prune_tx i self = (Err "prune_tx with tx missing", self).
Proof.
  intros Hok Hi. unfold prune_tx, mbind, M_bind, gets_ok. pose proof (tl_len_nonneg log). rewrite (get_tx_spec log) by (done || lia).
  unfold tl_len in Hi. by rewrite lookup_ge_None_2 by lia.
Qed.

(** *** Removing the end *)

(** The lists collected up to [n]: every root of a removed transaction, with
    the numbers before [min]. *)
Record roots_ok log (min n : Z) (roots : gmap H256 (list Z)) : Prop := {
  ro_list : ∀ r l, roots !! r = Some l → l = filter (λ e, e < min) (root_index log r);
  ro_dom : ∀ r, is_Some (roots !! r) ↔ ∃ i, min ≤ i < n ∧ tx_root_at log i = Some r;
}.

(** No transaction with the root between [min] and [n]. *)
Lemma filter_before log r min n :
  min ≤ n → (∀ i, min ≤ i < n → tx_root_at log i ≠ Some r) →
  filter (λ e, e < n) (root_index log r) = filter (λ e, e < min) (root_index log r).
Proof.
  intros Hmn Hno. apply filter_ext_elem. intros i ((Hr & _) & _)%elem_of_root_index. split; [|lia]. intros Hi.
  destruct (Z.lt_ge_cases i min); [done|]. by destruct (Hno i).
Qed.

Lemma roots_ok_step log min n roots tx l :
  min ≤ n → roots_ok log min n roots → tx_root_at log n = Some (data_merkle_root tx) →
  match roots !! data_merkle_root tx with Some l' => l = l' | None => l = root_index log (data_merkle_root tx) end →
  roots_ok log min (n + 1) (<[data_merkle_root tx := filter (λ e, e < n) l]> roots).
Proof.
  intros Hmn [Hl Hd] Htx Hm. set (r := data_merkle_root tx) in *.
  assert (filter (λ e, e < n) l = filter (λ e, e < min) (root_index log r)) as ->.
  { destruct (roots !! r) as [l'|] eqn:Hr; subst l.
    - rewrite (Hl r l' Hr), list_filter_filter. apply filter_ext_elem. intros i _. lia.
    - apply filter_before; [done|]. intros i Hi Hri. destruct (proj2 (Hd r)) as [? ?]; [by exists i|congruence]. }
  split.
  - intros r' l'. destruct (decide (r' = r)) as [->|Hne].
    + rewrite lookup_insert_eq. by intros [= <-].
    + rewrite lookup_insert_ne by done. apply Hl.
  - intros r'. destruct (decide (r' = r)) as [->|Hne].
    + rewrite lookup_insert_eq. split; [|done]. intros _. exists n. split; [lia|done].
    + rewrite lookup_insert_ne, Hd by done. split; intros (i & Hi & Hri).
      * exists i. split; [lia|done].
      * exists i. split; [|done]. destruct (decide (i = n)) as [->|]; [congruence|lia].
Qed.

Lemma remove_loop_spec log self min k roots ftx dtx rem :
  store_ok log self → let n := tl_len log - Z.of_nat k in 0 ≤ min ≤ n → roots_ok log min n roots →
  ∃ roots', remove_loop self (seqZ n (Z.of_nat k)) roots ftx dtx rem =
    Ok (roots', ftx ++ ((λ i, Delete COL_TX (seq_key i)) <$> seqZ n (Z.of_nat k)),
        dtx ++ ((λ i, Delete COL_TX_COMPLETED (seq_key i)) <$> seqZ n (Z.of_nat k)), rem ++ drop (Z.to_nat n) (tl_txs log)) ∧
    roots_ok log min (tl_len log) roots'.
Proof.
  intros Hok. revert roots ftx dtx rem. induction k as [|k IH]; intros roots ftx dtx rem n Hn Hro.
  - exists roots. assert (n = tl_len log) as Hz by lia. rewrite Hz in *. cbn. rewrite drop_ge by (unfold tl_len; lia). rewrite !app_nil_r. done.
  - rewrite (seqZ_cons n) by lia. cbn [remove_loop fmap list_fmap].
    rewrite (get_tx_spec log) by (done || lia). rewrite bind_Ok.
    destruct (lookup_lt_is_Some_2 (tl_txs log) (Z.to_nat n)) as [tx Htx]; [unfold n, tl_len in *; lia|]. rewrite Htx.
    assert (∃ l, (match roots !! data_merkle_root tx with
                  | Some l => Ok l | None => get_tx_seq_list_by_data_root self (data_merkle_root tx) end) = Ok l ∧
       match roots !! data_merkle_root tx with Some l' => l = l' | None => l = root_index log (data_merkle_root tx) end) as (l & -> & Hl).
    { destruct (roots !! data_merkle_root tx); [by eexists|]. rewrite (get_list_spec log) by done. by eexists. }
    rewrite bind_Ok. replace (Z.pred (Z.of_nat (S k))) with (Z.of_nat k) by lia.
    destruct (IH (<[data_merkle_root tx := filter (λ e, e < n) l]> roots) (ftx ++ [Delete COL_TX (seq_key n)])
      (dtx ++ [Delete COL_TX_COMPLETED (seq_key n)]) (rem ++ [tx])) as (roots' & Hrun & Hro'); [lia| |].
    + replace (tl_len log - Z.of_nat k) with (n + 1) by lia. apply roots_ok_step; [lia|done| |done]. unfold tx_root_at. by rewrite Htx.
    + exists roots'. split; [|done]. replace (Z.succ n) with (tl_len log - Z.of_nat k) by lia. rewrite Hrun.
      rewrite <- !app_assoc. cbn [app]. rewrite (drop_S _ tx (Z.to_nat n)) by done.
      by replace (Z.to_nat (tl_len log - Z.of_nat k)) with (S (Z.to_nat n)) by lia.
Qed.

Lemma lookup_deletes (m : gmap (nat * list Z) (list Z)) c (seqs : list Z) k :
  foldl apply_op m ((λ i, Delete c (seq_key i)) <$> seqs) !! k =
    if bool_decide (k ∈ (λ i, (c, seq_key i)) <$> seqs) then None else m !! k.
Proof.
  revert m. induction seqs as [|i seqs IH]; intros m; [done|]. cbn [fmap list_fmap foldl apply_op]. rewrite IH.
  case_bool_decide as Hin; [by rewrite bool_decide_true by (by right)|].
  destruct (decide (k = (c, seq_key i))) as [->|Hne].
  - rewrite lookup_delete_eq. by rewrite bool_decide_true by (by left).
  - rewrite lookup_delete_ne by done. rewrite bool_decide_false; [done|]. rewrite elem_of_cons. tauto.
Qed.

Lemma elem_of_seq_keys (c : nat) (seqs : list Z) i :
  0 ≤ i → Forall (λ j, 0 ≤ j) seqs → ((c, seq_key i) ∈ (λ j, (c, seq_key j)) <$> seqs ↔ i ∈ seqs).
Proof.
  intros Hi Hs. rewrite list_elem_of_fmap. split; [|by exists i]. intros (j & [= Heq] & Hj).
  rewrite Forall_forall in Hs. apply seq_key_inj in Heq as ->; [done|done|by apply Hs].
Qed.

(** What the two transactions of the removal leave of the data bases. *)
Lemma removal_flow log self min roots kv :
  store_ok log self → 0 ≤ min ≤ tl_len log → roots_ok log min (tl_len log) roots →
  kv_map kv = foldl apply_op (kv_map (flow_kvdb self))
    (((λ i, Delete COL_TX (seq_key i)) <$> seqZ min (tl_len log - min)) ++
     (index_op <$> map_to_list roots) ++ [Insert COL_TX NEXT_TX_KEY (seq_key min)]) →
  (∀ i, 0 ≤ i < min → kv_map kv !! (COL_TX, seq_key i) = kv_map (flow_kvdb self) !! (COL_TX, seq_key i)) ∧
  kv_map kv !! (COL_TX, NEXT_TX_KEY) = Some (seq_key min) ∧
  (∀ r : H256, kv_map kv !! (COL_TX_DATA_ROOT_INDEX, vec_to_list r) = index_value (filter (λ e, e < min) (root_index log r))).
Proof.
  intros Hok Hmin [Hl Hd] Hkv. pose proof (so_len _ _ Hok) as Hlen.
  assert (Forall (λ j, 0 ≤ j) (seqZ min (tl_len log - min))) as Hpos by (apply Forall_forall; intros j ?%elem_of_seqZ; lia).
  assert (∀ k, k ∈ op_key <$> (index_op <$> map_to_list roots) → ∃ r : H256, k = (COL_TX_DATA_ROOT_INDEX, vec_to_list r) ∧ is_Some (roots !! r)) as Hkeys.
  { intros k (op & -> & (p & -> & Hp)%list_elem_of_fmap)%list_elem_of_fmap. exists p.1. rewrite index_op_key. split; [done|].
    destruct p as [r l]. apply elem_of_map_to_list in Hp. by eexists. }
  rewrite !foldl_app in Hkv. cbn [foldl apply_op] in Hkv. split_and!.
  - intros i Hi. rewrite Hkv, lookup_insert_ne by (intros [= Heq]; symmetry in Heq; apply (seq_key_not_next i) in Heq; lia).
    rewrite lookup_ops_notin by (intros (r & Heq & _)%Hkeys; done). rewrite lookup_deletes, bool_decide_false; [done|].
    rewrite elem_of_seq_keys, elem_of_seqZ by (done || lia). lia.
  - by rewrite Hkv, lookup_insert_eq.
  - intros r. rewrite Hkv, lookup_insert_ne by done. destruct (roots !! r) as [l|] eqn:Hr.
    + rewrite <- (Hl r l Hr). change l with (r, l).2. rewrite <- index_op_value.
      change (COL_TX_DATA_ROOT_INDEX, vec_to_list r) with (COL_TX_DATA_ROOT_INDEX, vec_to_list (r, l).1). rewrite <- index_op_key.
      apply lookup_ops_in; [|by apply list_elem_of_fmap_2, elem_of_map_to_list].
      rewrite <- list_fmap_compose, (list_fmap_ext _ ((λ q : H256, (COL_TX_DATA_ROOT_INDEX, vec_to_list q)) ∘ fst))
        by (intros; apply index_op_key). rewrite list_fmap_compose.
      apply NoDup_fmap_2; [intros ?? [= Heq%vec_to_list_inj2]; done|]. apply NoDup_fst_map_to_list.
    + rewrite lookup_ops_notin by (intros (r' & [= Heq%vec_to_list_inj2] & Hs)%Hkeys; subst r'; rewrite Hr in Hs; by destruct Hs).
      rewrite lookup_deletes, bool_decide_false by (intros (j & ? & _)%list_elem_of_fmap; done). rewrite (so_index _ _ Hok). f_equal.
      symmetry. apply filter_all. intros i Hi. destruct (Z.lt_ge_cases i min); [done|].
      apply elem_of_root_index in Hi as ((Hi & _) & ?). destruct (proj2 (Hd r)) as [? ?]; [exists i; split; [lia|done]|congruence].
Qed.

Lemma remove_tx_after_spec log self min :
  store_ok log self → 0 ≤ min ≤ tl_len log →
  wp (remove_tx_after min) (λ removed self',
    removed = drop (Z.to_nat min) (tl_txs log) ∧ store_ok (log_truncate log min) self') self.
Proof.
  intros Hok Hmin. unfold remove_tx_after. apply wp_bind, wp_gets. rewrite (so_next _ _ Hok). apply wp_bind.
  destruct (remove_loop_spec log self min (Z.to_nat (tl_len log - min)) ∅ [] [] [] Hok) as (roots & Hrun & Hro); [lia| |].
  { split; [by intros r l; rewrite lookup_empty|]. intros r. rewrite lookup_empty. split; [by intros []|]. intros (i & Hi & _). lia. }
  rewrite Z2Nat.id in Hrun by lia. replace (tl_len log - (tl_len log - min)) with min in Hrun by lia.
  eapply wp_gets_ok; [exact Hrun|]. cbn [app]. apply wp_bind, wp_modify, wp_bind, wp_write_data; [apply Hok|]. intros kd Hwd Hkd.
  apply wp_bind, wp_write_flow; [apply Hok|]. intros kf Hwf Hkf. apply wp_ret. split; [done|].
  destruct (removal_flow log self min roots kf Hok Hmin Hro Hkf) as (Htx & Hnk & Hidx). pose proof (so_len _ _ Hok) as Hlen.
  cbn [data_kvdb set_next_tx_seq] in Hkd.
  split; cbn [flow_kvdb data_kvdb next_tx_seq set_flow_kvdb set_data_kvdb set_next_tx_seq]; rewrite ?tl_len_truncate by done; try done; try lia.
  - intros i tx Hi. cbn in Hi. apply lookup_take_Some in Hi as [Hi Hlt]. rewrite Htx by lia. by apply (so_tx _ _ Hok).
  - by left.
  - intros r. by rewrite Hidx, root_index_truncate.
  - intros i Hi. rewrite Hkd, lookup_deletes. cbn [tl_status log_truncate].
    assert (Forall (λ j, 0 ≤ j) (seqZ min (tl_len log - min))) as Hpos by (apply Forall_forall; intros j ?%elem_of_seqZ; lia).
    case_bool_decide as Hin; [rewrite elem_of_seq_keys, elem_of_seqZ in Hin by (done || lia)|rewrite elem_of_seq_keys, elem_of_seqZ in Hin by (done || lia)].
    + rewrite map_lookup_filter_None_2; [done|]. right. intros s _ ?. cbn in *. lia.
    + rewrite (so_status _ _ Hok) by done. destruct (tl_status log !! i) as [s|] eqn:Hs.
      * pose proof (so_status_dom _ _ Hok i ltac:(by eexists)). by rewrite (map_lookup_filter_Some_2 _ _ i s) by (done || (cbn; lia)).
      * by rewrite map_lookup_filter_None_2 by (by left).
  - intros i [s Hs]. cbn in Hs. apply map_lookup_filter_Some in Hs as [Hs Hlt]. pose proof (so_status_dom _ _ Hok i ltac:(by eexists)). cbn in Hlt. lia.
  - intros i Hi. cbn in Hi. apply elem_of_filter in Hi as [Hlt Hi]. pose proof (so_hidden_dom _ _ Hok i Hi). lia.
Qed.

End store.
