(* ===== verification/TxTheorems.v ===== *)
(** The theorems on the transaction store, over every sequence of operations
    and restarts from an empty data base. *)

From stdpp Require Import sorting list_numbers.
From S2P Require Import Prelude HashElement Ssz SszFacts SszCanonical Bytes Shard MerkleLight SharedTypes.
From S2P Require Import Seal ChunkData SealInfo EntryBatch FlowStore FlowStoreFacts BatchTheorems TxStore TxStoreFacts.
Local Open Scope Z_scope.

(** ** Commands *)

(** [CPut tx tx']: [tx'] is [tx] with the size and root of the data it carries.
    [CPutAgain]: the last transaction is put once more, as after a restart. *)
Inductive tx_cmd :=
  | CPut (tx tx' : Transaction)
  | CPutAgain (tx : Transaction)
  | CRemove (min : Z)
  | CFinalize (i : Z)
  | CPrune (i : Z).

Inductive tx_out := OSeqs (l : list Z) | OTxs (l : list Transaction) | OUnit.

Section commands.
Context `{Keccak, KeyValueDBLaws KV}.
Implicit Types (self : TransactionStore KV) (log : tx_log).

Definition cmd_ok log (c : tx_cmd) : Prop :=
  match c with
  | CPut tx tx' => tx_seq tx = tl_len log ∧ tl_len log + 1 < 2 ^ 64 ∧ root_consistent tx tx' ∧ tx_typed tx'
  | CPutAgain tx => tx_seq tx + 1 = tl_len log ∧ tx_root_at log (tx_seq tx) = Some (data_merkle_root tx) ∧
      (tx_seq tx ∉ tl_hidden log) ∧ 0 ≤ tx_seq tx
  | CRemove min => 0 ≤ min ≤ tl_len log
  | CFinalize i | CPrune i => 0 ≤ i < tl_len log
  end.

Definition cmd_run (c : tx_cmd) : M (TransactionStore KV) tx_out :=
  match c with
  | CPut tx _ | CPutAgain tx => l ← put_tx tx; mret (OSeqs l)
  | CRemove min => l ← remove_tx_after min; mret (OTxs l)
  | CFinalize i => _ ← finalize_tx i; mret OUnit
  | CPrune i => _ ← prune_tx i; mret OUnit
  end.

Definition cmd_log log (c : tx_cmd) : tx_log :=
  match c with
  | CPut _ tx' => log_append log tx'
  | CPutAgain _ => log
  | CRemove min => log_truncate log min
  | CFinalize i => log_finalize log i
  | CPrune i => log_prune log i
  end.

Definition cmd_out log (c : tx_cmd) : tx_out :=
  match c with
  | CPut tx _ | CPutAgain tx => OSeqs (root_index log (data_merkle_root tx))
  | CRemove min => OTxs (drop (Z.to_nat min) (tl_txs log))
  | _ => OUnit
  end.

(** The stores that can come about, with the log they hold. *)
Inductive tx_reach : tx_log → TransactionStore KV → Prop :=
  | tx_reach_new flow data self :
      kv_writable flow → kv_writable data →
      (∀ c k, c ∈ [COL_TX; COL_TX_DATA_ROOT_INDEX] → kv_map flow !! (c, k) = None) →
      (∀ k, kv_map data !! (COL_TX_COMPLETED, k) = None) →
      tx_store_new flow data = Ok self → tx_reach (TxLog [] ∅ ∅) self
  | tx_reach_cmd log self c o self' :
      tx_reach log self → cmd_ok log c → cmd_run c self = (Ok o, self') → tx_reach (cmd_log log c) self'
  | tx_reach_restart log self self' :
      tx_reach log self → tx_store_new (flow_kvdb self) (data_kvdb self) = Ok self' → tx_reach log self'.

Lemma cmd_spec log self c :
  store_ok log self → cmd_ok log c → wp (cmd_run c) (λ o self', o = cmd_out log c ∧ store_ok (cmd_log log c) self') self.
Proof.
  intros Hok Hc. destruct c as [tx tx'|tx|min|i|i]; cbn [cmd_ok cmd_run cmd_log cmd_out] in *.
  - destruct Hc as (? & ? & ? & ?). eapply wp_bind_mono; [by apply (put_tx_spec log self tx tx')|]. intros l s' [-> Hs]. by apply wp_ret.
  - destruct Hc as (? & ? & ? & ?). eapply wp_bind_mono; [by apply (put_tx_again_spec log)|]. intros l s' [-> ->]. by apply wp_ret.
  - eapply wp_bind_mono; [by apply (remove_tx_after_spec log)|]. intros l s' [-> Hs]. by apply wp_ret.
  - eapply wp_bind_mono; [by apply (finalize_tx_spec log)|]. intros l s' Hs. by apply wp_ret.
  - eapply wp_bind_mono; [by apply (prune_tx_spec log)|]. intros l s' Hs. by apply wp_ret.
Qed.

Lemma tx_reach_ok log self : tx_reach log self → store_ok log self.
Proof.
  induction 1 as [flow data self Hwf Hwd Hf Hd Hnew|log self c o self' _ IH Hc Hrun|log self self' _ IH Hnew].
  - assert (self = TransactionStore_mk flow data 0) as ->.
    { unfold tx_store_new in Hnew. rewrite kv_get_map, Hf in Hnew by (by left). by injection Hnew as <-. }
    split; cbn; try done; try lia.
    + right. split; [|done]. apply Hf. by left.
    + intros r. rewrite Hf by (right; by left). by unfold index_value, root_index.
    + by intros i [? ?].
  - pose proof (cmd_spec log self c IH Hc) as Hw. unfold wp in Hw. rewrite Hrun in Hw. apply Hw.
  - rewrite (restart_spec log self IH) in Hnew. by injection Hnew as <-.
Qed.

(** What the readers of a store return when it holds [log]: the transactions by
    number, by data root the numbers of those with that root in increasing order
    (pruned ones excepted), their state and the next number; and a restart on
    its data bases finds the same store. *)
Definition shows log self : Prop :=
  (∀ seq, 0 ≤ seq → get_tx_by_seq_number self seq = Ok (tl_txs log !! Z.to_nat seq)) ∧
  (∀ r, get_tx_seq_list_by_data_root self r = Ok (root_index log r)) ∧
  (∀ i, 0 ≤ i < 2 ^ 64 → get_tx_status self i = Ok (tl_status log !! i)) ∧
  next_tx_seq self = tl_len log ∧
  tx_store_new (flow_kvdb self) (data_kvdb self) = Ok self.

Lemma store_shows log self : store_ok log self → shows log self.
Proof.
  intros Hok. split_and!.
  - intros seq Hs. by apply get_tx_spec.
  - intros r. by apply get_list_spec.
  - intros i Hi. by apply get_status_spec.
  - apply Hok.
  - by apply (restart_spec log).
Qed.

Lemma prune_missing log self i :
  store_ok log self → tl_len log ≤ i → prune_tx i self = (Err "prune_tx with tx missing", self).
Proof.
  intros Hok Hi. pose proof (tl_len_nonneg log). unfold prune_tx, mbind, M_bind, gets_ok.
  rewrite (get_tx_spec log) by (done || lia). by rewrite lookup_ge_None_2 by (unfold tl_len in *; lia).
Qed.

(** C11: Each operation of the store, applied to a reachable store within its
    precondition, succeeds, returns what the operation on the log returns, and
    leaves a store whose readers, also after a restart, show the changed log: it
    appends, leaves a repeated transaction alone, cuts the end off and returns
    it, or records a state.  Pruning a transaction that is not there is the
    error of the source and changes nothing. *)
Theorem tx_store_simulates_log log self c :
  tx_reach log self →
  (cmd_ok log c →
     wp (cmd_run c) (λ o self', o = cmd_out log c ∧ shows (cmd_log log c) self' ∧ tx_reach (cmd_log log c) self') self) ∧
  (∀ i, c = CPrune i → tl_len log ≤ i → cmd_run c self = (Err "prune_tx with tx missing", self)).
Proof.
  intros Hr. pose proof (tx_reach_ok _ _ Hr) as Hok. split.
  - intros Hc. destruct (wp_run _ _ _ (cmd_spec log self c Hok Hc)) as (o & self' & Hrun & -> & Hok').
    unfold wp. rewrite Hrun. split_and!; [done|by apply store_shows|by eapply tx_reach_cmd].
  - intros i -> Hi. cbn [cmd_run]. unfold mbind, M_bind. by rewrite (prune_missing log).
Qed.

(** C37: A transaction that carries its data under another root than it claims
    makes the index forget: the list is read under the claimed root and written
    under the computed one, and the earlier transactions with the computed root
    are no longer found by it. *)
Theorem put_tx_inline_root_forgets log self tx tx' :
  tx_reach log self → tx_seq tx = tl_len log → tl_len log + 1 < 2 ^ 64 → fill_data_root tx = Ok tx' →
  data_merkle_root tx' ≠ data_merkle_root tx → root_index log (data_merkle_root tx) = [] →
  wp (put_tx tx) (λ _ self', get_tx_seq_list_by_data_root self' (data_merkle_root tx') = Ok [tx_seq tx]) self.
Proof.
  intros Hok%tx_reach_ok Hseq Hlt Hfill Hne Hnil. pose proof (tl_len_nonneg log). unfold put_tx. apply wp_bind.
  eapply wp_gets_ok; [by apply (get_list_spec log)|]. rewrite Hnil. cbn [last].
  rewrite bool_decide_false by done. apply wp_bind. eapply wp_lift; [done|]. rewrite (fill_data_root_seq _ _ Hfill).
  apply wp_bind, wp_modify, wp_bind, wp_write_flow; [apply Hok|]. intros kv Hw Hkv. apply wp_ret.
  cbn [foldl apply_op app] in Hkv. unfold get_tx_seq_list_by_data_root. cbn [flow_kvdb set_flow_kvdb].
  rewrite kv_get_map, Hkv, lookup_insert_eq, bind_Ok. apply u64_list_roundtrip. constructor; [|done]. lia.
Qed.

End commands.

(** ** The progress of the log synchronisation *)

(** The iterator of a column: its entries, in the order of the keys. *)
Class KeyValueScanLaws (KV : Type) `{KeyValueDBLaws KV, !KeyValueScan KV} :=
  kv_iter_map : ∀ d c, ∃ l, kv_iter d c = Ok l ∧ StronglySorted (λ a b, bytes_le a b = true) l.*1 ∧ NoDup l.*1 ∧
    ∀ k v, (k, v) ∈ l ↔ kv_map d !! (c, k) = Some v.

Section progress.
Context `{Keccak, KeyValueDBLaws KV}.
Implicit Types (self : TransactionStore KV).

Abbreviation block_entry := (H256 * option Z)%type.

Definition entry_bytes (e : block_entry) : list Z := as_ssz_bytes (e : H256 * option u64).

Definition entry_typed (e : block_entry) : Prop := ∀ z, e.2 = Some z → 0 <= z < 2 ^ 64.

(** The blocks that are recorded. *)
Record blocks_ok (blk : gmap Z block_entry) self : Prop := {
  bk_writable : kv_writable (flow_kvdb self);
  bk_get : ∀ b, 0 ≤ b < 2 ^ 64 → kv_map (flow_kvdb self) !! (COL_BLOCK_PROGRESS, seq_key b) = entry_bytes <$> blk !! b;
  bk_keys : ∀ k, is_Some (kv_map (flow_kvdb self) !! (COL_BLOCK_PROGRESS, k)) → ∃ b, 0 ≤ b < 2 ^ 64 ∧ k = seq_key b;
  bk_typed : ∀ b e, blk !! b = Some e → 0 ≤ b < 2 ^ 64 ∧ entry_typed e;
}.

Lemma length_entry_bytes (e : block_entry) : (length (entry_bytes e) ≤ 45)%nat.
Proof.
  change (length (container_append [field_of (e.1 : H256); field_of (e.2 : option u64)] []) ≤ 45)%nat.
  rewrite length_container by (repeat constructor; apply field_of_ok). rewrite !var_part_cons. cbn [fld_fixed field_of enc_fixed].
  cbn [h256_encode option_encode enc_fixed]. rewrite fbytes_field_of. destruct e as [h [z|]]; cbn; lia.
Qed.

Lemma entry_roundtrip (e : block_entry) :
  entry_typed e → from_ssz_bytes (T := H256 * option u64) (entry_bytes e) = Ok e.
Proof.
  intros He. apply (ssz_roundtrip (T := H256 * option u64)). split; [exact I|]. split; [exact He|].
  pose proof (length_entry_bytes e). unfold entry_bytes in *. unfold u32_max. lia.
Qed.

Lemma progress_pair_roundtrip (b : Z) (h : H256) :
  0 <= b < 2 ^ 64 → from_ssz_bytes (T := u64 * H256) (as_ssz_bytes ((b, h) : u64 * H256)) = Ok (b, h).
Proof.
  intros Hb. apply (ssz_roundtrip (T := u64 * H256)). split; [exact Hb|]. split; [exact I|].
  change (length (container_append [field_of (b : u64); field_of h] []) < u32_max)%nat.
  rewrite container_fixed_len; [unfold u32_max; cbn; lia|repeat constructor; apply field_of_ok|by repeat constructor].
Qed.

Lemma block_put_ok blk self kv b e :
  blocks_ok blk self → 0 ≤ b < 2 ^ 64 → entry_typed e → kv_writable kv →
  (∀ k, kv_map kv !! (COL_BLOCK_PROGRESS, k) = if bool_decide (k = seq_key b) then Some (entry_bytes e)
     else kv_map (flow_kvdb self) !! (COL_BLOCK_PROGRESS, k)) →
  blocks_ok (<[b := e]> blk) (set_flow_kvdb kv self).
Proof.
  intros [Hw Hget Hkeys Hty] Hb He Hkw Hkv. split; cbn [flow_kvdb set_flow_kvdb]; [done| | |].
  - intros c Hc. rewrite Hkv. case_bool_decide as Hk.
    + apply seq_key_inj in Hk as ->; [by rewrite lookup_insert_eq|lia..].
    + rewrite lookup_insert_ne by congruence. by apply Hget.
  - intros k. rewrite Hkv. case_bool_decide as Hk; [by exists b|]. apply Hkeys.
  - intros c f. destruct (decide (b = c)) as [<-|Hne]; [rewrite lookup_insert_eq; by intros [= <-]|].
    rewrite lookup_insert_ne by done. apply Hty.
Qed.

Definition block_update (b : Z) (h : H256) (p : option (option Z)) (blk : gmap Z block_entry) : gmap Z block_entry :=
  match p with Some q => <[b := (h, q)]> blk | None => blk end.

Lemma put_progress_spec blk self b h p :
  blocks_ok blk self → 0 ≤ b < 2 ^ 64 → (∀ q, p = Some q → entry_typed (h, q)) →
  wp (put_progress (b, h, p)) (λ _ self', blocks_ok (block_update b h p blk) self' ∧ get_progress self' = Ok (Some (b, h))) self.
Proof.
  intros Hok Hb Hp. unfold put_progress. apply wp_write_flow; [apply Hok|]. intros kv Hw Hkv. split.
  - destruct p as [q|]; cbn [foldl apply_op block_update] in *.
    + apply (block_put_ok blk); [done|done|by apply Hp|done|]. intros k. rewrite Hkv. case_bool_decide as Hk.
      * subst k. by rewrite lookup_insert_eq.
      * rewrite lookup_insert_ne by congruence. by rewrite lookup_insert_ne by done.
    + destruct Hok as [? Hget Hkeys ?]. split; cbn [flow_kvdb set_flow_kvdb]; [done| | |done].
      * intros c Hc. rewrite Hkv, lookup_insert_ne by done. by apply Hget.
      * intros k. rewrite Hkv, lookup_insert_ne by done. apply Hkeys.
  - unfold get_progress. cbn [flow_kvdb set_flow_kvdb]. rewrite kv_get_map, Hkv, bind_Ok.
    assert (foldl apply_op (kv_map (flow_kvdb self))
      (Insert COL_MISC LOG_SYNC_PROGRESS_KEY (as_ssz_bytes ((b, h) : u64 * H256)) ::
        match p with Some p => [Insert COL_BLOCK_PROGRESS (seq_key b) (as_ssz_bytes ((h, p) : H256 * option u64))] | None => [] end)
      !! (COL_MISC, LOG_SYNC_PROGRESS_KEY) = Some (as_ssz_bytes ((b, h) : u64 * H256))) as ->.
    { destruct p; cbn [foldl apply_op]; [rewrite lookup_insert_ne by done|]; by rewrite lookup_insert_eq. }
    by rewrite progress_pair_roundtrip, bind_Ok.
Qed.

Lemma delete_block_spec blk self b :
  blocks_ok blk self → 0 ≤ b < 2 ^ 64 →
  wp (delete_block_hash_by_number b) (λ _ self', blocks_ok (delete b blk) self') self.
Proof.
  intros [Hw Hget Hkeys Hty] Hb. apply wp_write_flow; [done|]. intros kv Hkw Hkv. cbn [foldl apply_op] in Hkv.
  split; cbn [flow_kvdb set_flow_kvdb]; [done| | |].
  - intros c Hc. rewrite Hkv. destruct (decide (b = c)) as [<-|Hne]; [by rewrite !lookup_delete_eq|].
    rewrite lookup_delete_ne by (intros [= Heq%seq_key_inj]; lia). rewrite lookup_delete_ne by done. by apply Hget.
  - intros k. rewrite Hkv. intros [v Hv]. apply lookup_delete_Some in Hv as [_ Hv]. apply Hkeys. by eexists.
  - intros c e [_ Hc]%lookup_delete_Some. by apply Hty.
Qed.

Lemma block_hash_spec blk self b :
  blocks_ok blk self → 0 ≤ b < 2 ^ 64 → get_block_hash_by_number self b = Ok (blk !! b).
Proof.
  intros Hok Hb. unfold get_block_hash_by_number. rewrite kv_get_map, (bk_get _ _ Hok), bind_Ok by done.
  destruct (blk !! b) as [e|] eqn:He; [|done]. cbn [fmap option_fmap option_map].
  by rewrite entry_roundtrip, bind_Ok by (by apply (bk_typed _ _ Hok b)).
Qed.

(** An entry of the column, as it is decoded. *)
Definition decoded (b : Z) (e : block_entry) : Z * BlockHashAndSubmissionIndex := (b, BlockHashAndSubmissionIndex_mk e.1 e.2).

Lemma decode_entries_spec blk self (l : list (list Z * list Z)) :
  blocks_ok blk self → (∀ k v, (k, v) ∈ l → kv_map (flow_kvdb self) !! (COL_BLOCK_PROGRESS, k) = Some v) →
  ∃ r : list (Z * block_entry), decode_block_hashes l = Ok ((λ x, decoded x.1 x.2) <$> r) ∧ l.*1 = seq_key <$> r.*1 ∧
    Forall (λ x, blk !! x.1 = Some x.2) r.
Proof.
  intros Hok. induction l as [|[k v] l IH]; intros Hl; [by exists []|].
  destruct IH as (r & Hr & Hk & Hf); [intros; apply Hl; by right|].
  pose proof (Hl k v ltac:(by left)) as Hkv. destruct (bk_keys _ _ Hok k) as (b & Hb & ->); [by eexists|].
  rewrite (bk_get _ _ Hok b Hb) in Hkv. apply fmap_Some in Hkv as (e & He & ->). exists ((b, e) :: r).
  cbn [decode_block_hashes]. rewrite decode_seq_key, bind_Ok by lia. rewrite entry_roundtrip, bind_Ok by (by apply (bk_typed _ _ Hok b)).
  rewrite Hr, bind_Ok. split; [done|]. split; [cbn; by rewrite Hk|]. by constructor.
Qed.

Lemma seq_keys_sorted (r : list Z) :
  Forall (λ b, 0 ≤ b < 2 ^ 64) r → StronglySorted (λ a b, bytes_le a b = true) (seq_key <$> r) → NoDup (seq_key <$> r) →
  StronglySorted Z.lt r.
Proof.
  induction r as [|b r IH]; intros Hr Hs Hnd; [constructor|]. cbn in Hs, Hnd. apply Forall_cons in Hr as [Hb Hr].
  apply StronglySorted_inv in Hs as [Hs' Hf]. apply NoDup_cons in Hnd as [Hn Hnd]. constructor; [by apply IH|].
  rewrite Forall_forall in Hr. rewrite Forall_forall in Hf. apply Forall_forall. intros c Hc. specialize (Hf (seq_key c) ltac:(by apply list_elem_of_fmap_2)).
  apply (batch_key_le b c) in Hf; [|done|by apply Hr]. assert (b ≠ c) as Hne; [|lia].
  intros ->. apply Hn. by apply list_elem_of_fmap_2.
Qed.

(** The blocks recorded with the synchronisation progress are read back by
    number, and all together in increasing order of their numbers. *)
Theorem block_hashes_complete `{!KeyValueScan KV, !KeyValueScanLaws KV} (blk : gmap Z block_entry) self :
  blocks_ok blk self →
  (∀ b, 0 ≤ b < 2 ^ 64 → get_block_hash_by_number self b = Ok (blk !! b)) ∧
  ∃ r : list (Z * block_entry), get_block_hashes self = Ok ((λ x, decoded x.1 x.2) <$> r) ∧
    StronglySorted Z.lt r.*1 ∧ ∀ b e, (b, e) ∈ r ↔ blk !! b = Some e.
Proof.
  intros Hok. split; [intros b Hb; by apply block_hash_spec|].
  destruct (kv_iter_map (flow_kvdb self) COL_BLOCK_PROGRESS) as (l & Hl & Hs & Hnd & Hin).
  destruct (decode_entries_spec blk self l Hok) as (r & Hr & Hk & Hf); [intros k v; by rewrite Hin|].
  exists r. unfold get_block_hashes. rewrite Hl, bind_Ok. split; [done|]. rewrite Hk in Hs, Hnd. rewrite Forall_forall in Hf. split.
  - apply seq_keys_sorted; [|done|done]. apply Forall_forall. intros b (x & -> & Hx)%list_elem_of_fmap.
    exact (proj1 (bk_typed _ _ Hok x.1 x.2 (Hf x Hx))).
  - intros b e. split; [intros Hx; by apply (Hf (b, e))|]. intros He. destruct (bk_typed _ _ Hok b e He) as [Hb _].
    pose proof (bk_get _ _ Hok b Hb) as Hget. rewrite He in Hget. apply Hin in Hget. apply (list_elem_of_fmap_2 fst) in Hget.
    rewrite Hk in Hget. apply list_elem_of_fmap in Hget as (b' & Heq & (x & -> & Hx)%list_elem_of_fmap). cbn in Heq.
    pose proof (Hf x Hx) as Hxe. destruct (bk_typed _ _ Hok _ _ Hxe) as [Hb' _]. apply seq_key_inj in Heq; [|lia..].
    destruct x as [b' e']. cbn in *. subst b'. congruence.
Qed.

End progress.

(** ** The iterator of the in-memory data base *)

#[export] Instance memory_scan : KeyValueScan memory := λ d c,
  Ok ((λ k, (k, default [] (d !! (c, k)))) <$> merge_sort bytes_leP (column_keys d c)).

Lemma NoDup_column_keys d c : NoDup (column_keys d c).
Proof.
  unfold column_keys. pose proof (NoDup_map_to_list d) as Hnd. apply (NoDup_filter (λ p, p.1.1 = c)) in Hnd.
  apply NoDup_fmap_2_strong; [|done]. intros [[c1 k1] v1] [[c2 k2] v2]. rewrite !list_elem_of_filter. cbn.
  intros [-> H1] [-> H2] ->. apply elem_of_map_to_list in H1, H2. congruence.
Qed.

#[export] Instance memory_scan_laws : KeyValueScanLaws memory.
Proof.
  intros d c. eexists. split; [done|]. rewrite <- list_fmap_compose. rewrite (list_fmap_ext _ id) by done. rewrite list_fmap_id.
  split_and!.
  - apply (StronglySorted_merge_sort bytes_leP).
  - rewrite merge_sort_Permutation. apply NoDup_column_keys.
  - intros k v. rewrite list_elem_of_fmap. split.
    + intros (k' & [= -> ->] & Hin). rewrite merge_sort_Permutation in Hin. apply elem_of_column_keys in Hin as [v Hv].
      change (d !! (c, k') = Some (default [] (d !! (c, k')))). by rewrite Hv.
    + intros Hv. change (d !! (c, k) = Some v) in Hv. exists k. rewrite Hv. split; [done|]. rewrite merge_sort_Permutation.
      apply elem_of_column_keys. by eexists.
Qed.

(** ** Examples *)

Section examples.
#[local] Existing Instance BatchTheorems.toy_keccak.

Definition toy_tx (data : list Z) (root : H256) (seq : Z) : Transaction :=
  Transaction_mk [] data root [(1, root)] (1 + seq) 256 seq.

Definition toy_root : H256 := vreplicate 32 7.

Definition empty_store : TransactionStore memory := TransactionStore_mk ∅ ∅ 0.

Lemma empty_store_reach : tx_reach (TxLog [] ∅ ∅) empty_store.
Proof. by apply (tx_reach_new (KV := memory) ∅ ∅). Qed.

Lemma toy_tx_typed root seq : 0 ≤ seq < 2 ^ 32 → tx_typed (toy_tx [] root seq).
Proof.
  intros Hs. split; [constructor|constructor| |cbn; lia..|].
  - constructor; [cbn; lia|constructor].
  - change (length (container_append (fields_of (tx_fields (toy_tx [] root seq))) []) < u32_max)%nat.
    rewrite length_container by apply (fc_fields (T := _)).
    assert (length (var_part (fields_of (tx_fields (toy_tx [] root seq)))) = 40%nat) as ->.
    { change (length (as_ssz_bytes ([(1, root)] : list (usize * H256)) ++ []) = 40%nat). rewrite app_nil_r.
      exact (length_vec_fixed [(1, root) : usize * H256] eq_refl). }
    apply (Nat.lt_le_trans _ 200); [cbn; lia|unfold u32_max; lia].
Qed.

Lemma toy_put_ok log root : tl_len log < 2 ^ 32 → cmd_ok log (CPut (toy_tx [] root (tl_len log)) (toy_tx [] root (tl_len log))).
Proof. intros Hl. pose proof (tl_len_nonneg log). split_and!; [done|lia|done|]. apply toy_tx_typed. lia. Qed.

(** Two transactions with the same root, the first finalized and pruned; then
    the second is removed. *)
Definition toy_log1 : tx_log := cmd_log (TxLog [] ∅ ∅) (CPut (toy_tx [] toy_root 0) (toy_tx [] toy_root 0)).
Definition toy_log2 : tx_log := cmd_log toy_log1 (CPut (toy_tx [] toy_root 1) (toy_tx [] toy_root 1)).
Definition toy_log3 : tx_log := cmd_log toy_log2 (CPrune 0).

Lemma reach_wp log self c :
  tx_reach log self → cmd_ok log c → tx_reach (KV := memory) (cmd_log log c) (cmd_run c self).2.
Proof.
  intros Hr Hc. destruct (wp_run _ _ _ (cmd_spec log self c (tx_reach_ok _ _ Hr) Hc)) as (o & self' & Hrun & _).
  rewrite Hrun. by eapply tx_reach_cmd.
Qed.

Definition toy_store1 : TransactionStore memory := (cmd_run (CPut (toy_tx [] toy_root 0) (toy_tx [] toy_root 0)) empty_store).2.
Definition toy_store2 : TransactionStore memory := (cmd_run (CPut (toy_tx [] toy_root 1) (toy_tx [] toy_root 1)) toy_store1).2.
Definition toy_store3 : TransactionStore memory := (cmd_run (CPrune 0) toy_store2).2.

Lemma toy_reach1 : tx_reach toy_log1 toy_store1.
Proof. apply reach_wp; [apply empty_store_reach|]. by apply (toy_put_ok (TxLog [] ∅ ∅)). Qed.

Lemma toy_reach2 : tx_reach toy_log2 toy_store2.
Proof. apply reach_wp; [apply toy_reach1|]. by apply (toy_put_ok toy_log1). Qed.

Lemma toy_reach3 : tx_reach toy_log3 toy_store3.
Proof. apply reach_wp; [apply toy_reach2|]. vm_compute. by split. Qed.

Lemma tx_store_simulates_log_witness :
  (cmd_run (CRemove 1) toy_store3).1 = Ok (OTxs [toy_tx [] toy_root 1]) ∧
  get_tx_seq_list_by_data_root (cmd_run (CPrune 0) toy_store2).2 toy_root = Ok [1] ∧
  get_tx_status (cmd_run (CFinalize 1) toy_store3).2 1 = Ok (Some Finalized) ∧
  (cmd_run (CPrune 2) toy_store3).1 = Err "prune_tx with tx missing".
Proof.
  split; [|split; [|split]].
  - destruct (tx_store_simulates_log toy_log3 toy_store3 (CRemove 1) toy_reach3) as [Hw _].
    specialize (Hw ltac:(vm_compute; by split)). unfold wp in Hw.
    destruct (cmd_run (CRemove 1) toy_store3) as [[o| | |] s]; [|destruct Hw..]. destruct Hw as [-> _]. cbn [fst].
    vm_compute. reflexivity.
  - destruct (tx_store_simulates_log toy_log2 toy_store2 (CPrune 0) toy_reach2) as [Hw _].
    specialize (Hw ltac:(vm_compute; by split)). unfold wp in Hw.
    destruct (cmd_run (CPrune 0) toy_store2) as [[o| | |] s]; [|destruct Hw..]. destruct Hw as (_ & (_ & Hroot & _) & _). cbn [snd].
    rewrite Hroot. vm_compute. reflexivity.
  - destruct (tx_store_simulates_log toy_log3 toy_store3 (CFinalize 1) toy_reach3) as [Hw _].
    specialize (Hw ltac:(vm_compute; by split)). unfold wp in Hw.
    destruct (cmd_run (CFinalize 1) toy_store3) as [[o| | |] s]; [|destruct Hw..]. destruct Hw as (_ & (_ & _ & Hst & _) & _). cbn [snd].
    rewrite Hst by lia. vm_compute. reflexivity.
  - destruct (tx_store_simulates_log toy_log3 toy_store3 (CPrune 2) toy_reach3) as [_ He].
    rewrite (He 2 eq_refl ltac:(vm_compute; discriminate)). reflexivity.
Defined.

(** A transaction that carries one byte but claims the root [toy_other]. *)
Definition toy_other : H256 := vreplicate 32 9.
Definition toy_inline : Transaction := toy_tx [5] toy_other 1.
Definition toy_computed : H256 := match fill_data_root toy_inline with Ok tx => data_merkle_root tx | _ => toy_other end.

Definition inline_log1 : tx_log := cmd_log (TxLog [] ∅ ∅) (CPut (toy_tx [] toy_computed 0) (toy_tx [] toy_computed 0)).
Definition inline_store1 : TransactionStore memory := (cmd_run (CPut (toy_tx [] toy_computed 0) (toy_tx [] toy_computed 0)) empty_store).2.

Lemma put_tx_inline_root_forgets_witness :
  root_index inline_log1 toy_computed = [0] ∧
  wp (put_tx toy_inline) (λ _ s, get_tx_seq_list_by_data_root s toy_computed = Ok [1]) inline_store1.
Proof.
  split; [vm_compute; reflexivity|].
  assert (tx_reach inline_log1 inline_store1) as Hr.
  { apply reach_wp; [apply empty_store_reach|]. by apply (toy_put_ok (TxLog [] ∅ ∅)). }
  destruct (fill_data_root toy_inline) as [tx'| | |] eqn:Hf; [|vm_compute in Hf; discriminate Hf..].
  assert (toy_computed = data_merkle_root tx') as -> by (unfold toy_computed; by rewrite Hf).
  apply (put_tx_inline_root_forgets inline_log1 inline_store1 toy_inline tx' Hr eq_refl); [vm_compute; reflexivity|exact Hf| |].
  - vm_compute in Hf. injection Hf as <-. intros Heq. vm_compute in Heq. discriminate Heq.
  - vm_compute. reflexivity.
Defined.

End examples.

Definition toy_blocks : gmap Z (H256 * option Z) := {[300 := (toy_root, Some 4); 20 := (toy_other, None)]}.
Definition toy_block_store : TransactionStore memory :=
  (put_progress (20, toy_other, Some None) (put_progress (300, toy_root, Some (Some 4)) empty_store).2).2.

Lemma toy_blocks_ok : blocks_ok toy_blocks toy_block_store.
Proof.
  assert (blocks_ok ∅ empty_store) as H0 by (split; cbn; [done|done|by intros k [? ?]|done]).
  pose proof (put_progress_spec ∅ empty_store 300 toy_root (Some (Some 4)) H0 ltac:(lia)
    ltac:(intros q [= <-] z [= <-]; lia)) as H1.
  apply wp_run in H1 as ([] & s1 & Hr1 & H1 & _).
  pose proof (put_progress_spec _ s1 20 toy_other (Some None) H1 ltac:(lia) ltac:(intros q [= <-] z [=])) as H2.
  apply wp_run in H2 as ([] & s2 & Hr2 & H2 & _). unfold toy_block_store. rewrite Hr1. cbn [snd]. rewrite Hr2. cbn [snd].
  assert (toy_blocks = block_update 20 toy_other (Some None) (block_update 300 toy_root (Some (Some 4)) ∅)) as ->; [|exact H2].
  cbn [block_update]. unfold toy_blocks. by rewrite insert_insert_ne by lia.
Qed.

Lemma block_hashes_complete_witness :
  get_block_hash_by_number toy_block_store 300 = Ok (toy_blocks !! 300) ∧ ∃ r, get_block_hashes toy_block_store = Ok r.
Proof.
  split; [apply (proj1 (block_hashes_complete toy_blocks toy_block_store toy_blocks_ok)); lia|].
  destruct (block_hashes_complete toy_blocks toy_block_store toy_blocks_ok) as (_ & r & Hr & _). eexists. exact Hr.
Defined.
