(* ===== verification/ChunkRoots.v ===== *)
(** The tree over the flow in two levels.

    [pora_chunks_merkle] has one leaf for every chunk of [2 ^ c] leaves of the
    flow (the program has [c = 10]); the last chunk may be incomplete and, while
    it is the only one, its tree is no deeper than its leaves need.  The root
    over the roots of the chunks is the root of the tree over all leaves. *)

From S2P Require Import Prelude HashElement MerkleSpec MerkleProof MerkleProofComplete.

Section chunks.
Context `{AlgorithmLaws E}.
Context (c : nat).
Implicit Types (F G : list E).

(** The smallest number of layers of the tree of the last chunk. *)
Definition chunk_depth (n : nat) : nat := if bool_decide (n < 2 ^ c) then 1 else c + 1.

(** The first leaf of the last chunk. *)
Definition last_start (n : nat) : nat := n / 2 ^ c * 2 ^ c.

Definition chunks_of F : list E := take (last_start (length F)) F.
Definition last_of F : list E := drop (last_start (length F)) F.

(** The leaves of [pora_chunks_merkle]. *)
Definition top_leaves F : list E :=
  ideal 0 (chunks_of F) c ++ option_list (ideal_root 0 (chunk_depth (length F)) (last_of F)).

(** ** Arithmetic of chunks *)

Lemma last_start_le n : last_start n ≤ n < last_start n + 2 ^ c.
Proof.
  unfold last_start. pose proof (pow2_pos c). pose proof (Nat.div_mod_eq n (2 ^ c)).
  pose proof (Nat.mod_upper_bound n (2 ^ c) ltac:(lia)). lia.
Qed.

Lemma last_start_mod n : last_start n `mod` 2 ^ c = 0.
Proof. apply Nat.Div0.mod_mul. Qed.

Lemma last_start_unique n m : m `mod` 2 ^ c = 0 → m ≤ n < m + 2 ^ c → last_start n = m.
Proof.
  intros [q ->]%Nat.Lcm0.mod_divide Hn. unfold last_start. pose proof (pow2_pos c). f_equal.
  symmetry. apply Nat.div_unique with (n - q * 2 ^ c); lia.
Qed.

Lemma mod_last_start n : n `mod` 2 ^ c = n - last_start n.
Proof. unfold last_start. pose proof (Nat.div_mod_eq n (2 ^ c)). lia. Qed.

Lemma length_chunks_of F : length (chunks_of F) = last_start (length F).
Proof. unfold chunks_of. rewrite length_take. pose proof (last_start_le (length F)). lia. Qed.

Lemma length_last_of F : length (last_of F) = length F - last_start (length F).
Proof. unfold last_of. by rewrite length_drop. Qed.

Lemma chunks_last F : chunks_of F ++ last_of F = F.
Proof. apply take_drop. Qed.

(** ** Layers of layers *)

Lemma ideal_add lh F h k : ideal lh F (h + k) = ideal (lh + h) (ideal lh F h) k.
Proof.
  induction k as [|k IH]; [by rewrite Nat.add_0_r|]. rewrite Nat.add_succ_r. cbn [ideal].
  rewrite IH. by replace (h + k + lh) with (k + (lh + h)) by lia.
Qed.

Lemma ideal_nil lh h : ideal lh ([] : list E) h = [].
Proof. induction h as [|h IH]; [done|]. cbn [ideal]. by rewrite IH. Qed.

Lemma ideal_root_nil lh d : ideal_root lh d ([] : list E) = None.
Proof. unfold ideal_root. by rewrite ideal_nil. Qed.

(** A chunk has one node at the height of the chunks. *)
Lemma ideal_chunk lh F k : F ≠ [] → length F ≤ 2 ^ k → ∃ r, ideal lh F k = [r].
Proof.
  intros HF Hle. assert (length (ideal lh F k) = 1) as Hlen.
  { rewrite length_ideal. pose proof (proj2 (width_le_1 (length F) k) Hle).
    pose proof (width_pos (length F) k). destruct F; [done|]. cbn [length] in *. lia. }
  destruct (ideal lh F k) as [|r [|]]; try done. by exists r.
Qed.

Lemma depth_of_chunk d n : 1 ≤ d → d ≤ c + 1 → 2 ^ (c - 1) < n ∨ d = c + 1 → n ≤ 2 ^ c → depth_of d n = c + 1.
Proof.
  intros Hd1 Hd Hn Hle. symmetry. apply depth_of_spec; [done|]. split_and!; [done| |].
  - by replace (c + 1 - 1) with c by lia.
  - destruct Hn as [Hn|Hn]; [right|left]; [|done]. by replace (c + 1 - 2) with (c - 1) by lia.
Qed.

(** A full chunk has the depth of chunks, however its tree started. *)
Lemma full_chunk_root d F : 1 ≤ d ≤ c + 1 → length F = 2 ^ c → option_list (ideal_root 0 d F) = ideal 0 F c.
Proof.
  intros [Hd1 Hd] HF. unfold ideal_root. pose proof (pow2_pos c).
  rewrite depth_of_chunk; [|done|done| |lia].
  - replace (c + 1 - 1) with c by lia. destruct (ideal_chunk 0 F c) as [r ->]; [|lia|done].
    intros ->. cbn in HF. lia.
  - destruct c as [|c']; [right; lia|]. left. replace (S c' - 1) with c' by lia. rewrite HF. apply Nat.pow_lt_mono_r; lia.
Qed.

(** Incomplete chunks after the first are padded to the depth of chunks. *)
Lemma deep_chunk_root F : F ≠ [] → length F ≤ 2 ^ c → option_list (ideal_root 0 (c + 1) F) = ideal 0 F c.
Proof.
  intros HF Hle. unfold ideal_root. rewrite depth_of_chunk by (done || lia || by right).
  replace (c + 1 - 1) with c by lia. by destruct (ideal_chunk 0 F c HF Hle) as [r ->].
Qed.

(** ** The root of the whole *)

Lemma top_leaves_deep F : 2 ^ c ≤ length F → top_leaves F = ideal 0 F c.
Proof.
  intros Hn. unfold top_leaves, chunk_depth. rewrite bool_decide_false by lia.
  transitivity (ideal 0 (chunks_of F ++ last_of F) c); [|by rewrite chunks_last].
  rewrite ideal_app by (rewrite length_chunks_of; apply last_start_mod). f_equal.
  pose proof (last_start_le (length F)). pose proof (length_last_of F).
  destruct (decide (last_of F = [])) as [->|Hne]; [by rewrite ideal_root_nil, ideal_nil|].
  apply deep_chunk_root; [done|lia].
Qed.

Lemma top_leaves_first F : length F < 2 ^ c → top_leaves F = option_list (ideal_root 0 1 F).
Proof.
  intros Hn. unfold top_leaves, chunk_depth, chunks_of, last_of. rewrite bool_decide_true by done.
  assert (last_start (length F) = 0) as ->; [|by rewrite ideal_nil].
  unfold last_start. by rewrite Nat.div_small.
Qed.

Lemma ideal_root_some lh d F : 1 ≤ d → F ≠ [] → ∃ r, ideal_root lh d F = Some r.
Proof.
  intros Hd HF. unfold ideal_root.
  destruct (proj1 (depth_of_spec d (length F) _ Hd) eq_refl) as (_ & Hle & _).
  destruct (ideal_chunk lh F (depth_of d (length F) - 1)) as [r ->]; [done|done|by exists r].
Qed.

Lemma top_leaves_known F : Forall (λ x, x ≠ null) F → Forall (λ x, x ≠ null) (top_leaves F).
Proof.
  intros HF. apply Forall_app. split; [by apply ideal_known, Forall_take|].
  destruct (ideal_root _ _ _) as [r|] eqn:Hr; [|done]. cbn. constructor; [|done].
  apply head_Some_elem_of in Hr. eapply (proj1 (Forall_forall (λ x, x ≠ null) _)); [|exact Hr]. by apply ideal_known, Forall_drop.
Qed.

Lemma length_top_leaves F : length (top_leaves F) = width (length F) c.
Proof.
  pose proof (pow2_pos c). destruct (decide (length F < 2 ^ c)) as [Hlt|Hge].
  - rewrite top_leaves_first by done. destruct (decide (F = [])) as [->|HF].
    + by rewrite ideal_root_nil, width_0.
    + destruct (ideal_root_some 0 1 F ltac:(lia) HF) as [r ->]. cbn.
      pose proof (proj2 (width_le_1 (length F) c) ltac:(lia)). pose proof (width_pos (length F) c).
      destruct F; [done|]. cbn [length] in *. lia.
  - rewrite top_leaves_deep by lia. apply length_ideal.
Qed.

(** The root over the roots of the chunks is the root over the leaves. *)
Lemma top_root F : ideal_root c 1 (top_leaves F) = ideal_root 0 1 F.
Proof.
  pose proof (pow2_pos c). destruct (decide (F = [])) as [->|HF].
  { rewrite top_leaves_first by done. by rewrite !ideal_root_nil. }
  destruct (decide (length F < 2 ^ c)) as [Hlt|Hge].
  - rewrite top_leaves_first by done. by destruct (ideal_root_some 0 1 F ltac:(lia) HF) as [r ->].
  - rewrite top_leaves_deep by lia. unfold ideal_root. rewrite length_ideal.
    rewrite <-(ideal_add 0 F c).
    do 2 f_equal. set (w := width (length F) c).
    enough (depth_of 1 (length F) = c + depth_of 1 w) as -> by (unfold depth_of; lia). symmetry.
    apply depth_of_spec; [lia|].
    destruct (proj1 (depth_of_spec 1 w _ ltac:(lia)) eq_refl) as (Hd & Hle & Hor).
    set (D := depth_of 1 w) in *. split_and!; [lia| |].
    + replace (c + D - 1) with (D - 1 + c) by lia. rewrite Nat.pow_add_r. by apply width_le.
    + destruct (decide (D = 1)) as [HD|HD].
      * assert (w ≤ 1) as Hw by by rewrite HD in Hle. apply width_le_1 in Hw.
        destruct c as [|c']; [left; lia|right]. replace (S c' + D - 2) with c' by lia.
        rewrite Nat.pow_succ_r' in *. pose proof (pow2_pos c'). lia.
      * destruct Hor as [|Hor]; [lia|]. right. apply width_spec in Hor.
        replace (c + D - 2) with (D - 2 + c) by lia. by rewrite Nat.pow_add_r.
Qed.

(** ** Growing *)

Lemma top_leaves_split F :
  last_of F ≠ [] →
  ∃ r, ideal_root 0 (chunk_depth (length F)) (last_of F) = Some r ∧ top_leaves F = ideal 0 (chunks_of F) c ++ [r] ∧
    take (length (top_leaves F) - 1) (top_leaves F) = ideal 0 (chunks_of F) c.
Proof.
  intros Hne. assert (1 ≤ chunk_depth (length F)) as Hd by (unfold chunk_depth; case_bool_decide; lia).
  destruct (ideal_root_some 0 _ (last_of F) Hd Hne) as [r Hr]. exists r. split; [done|].
  unfold top_leaves. rewrite Hr. cbn [option_list]. split; [done|]. rewrite length_app. cbn [length].
  by rewrite Nat.add_sub, take_app_length.
Qed.

(** Leaves that stay within the last chunk. *)
Lemma grow_within F G :
  length (last_of F) + length G < 2 ^ c →
  chunks_of (F ++ G) = chunks_of F ∧ last_of (F ++ G) = last_of F ++ G ∧
  chunk_depth (length (F ++ G)) = chunk_depth (length F).
Proof.
  rewrite length_last_of. intros Hlt. pose proof (last_start_le (length F)) as Hle.
  assert (last_start (length (F ++ G)) = last_start (length F)) as Heq.
  { apply last_start_unique; [apply last_start_mod|]. rewrite length_app. lia. }
  unfold chunks_of, last_of. rewrite Heq. split_and!.
  - by rewrite take_app_le by lia.
  - by rewrite drop_app_le by lia.
  - unfold chunk_depth. rewrite length_app.
    destruct (decide (length F < 2 ^ c)) as [Hn|Hn]; [|by rewrite !bool_decide_false by lia].
    assert (last_start (length F) = 0) as Hz by (unfold last_start; by rewrite Nat.div_small).
    by rewrite !bool_decide_true by lia.
Qed.

(** Leaves that complete the last chunk. *)
Lemma grow_complete F G :
  length (last_of F) + length G = 2 ^ c → chunks_of (F ++ G) = F ++ G ∧ last_of (F ++ G) = [].
Proof.
  rewrite length_last_of. intros Heq. pose proof (last_start_le (length F)) as Hle. pose proof (pow2_pos c).
  assert (last_start (length (F ++ G)) = length (F ++ G)) as Hls.
  { apply last_start_unique; [|lia]. rewrite length_app.
    replace (length F + length G) with (last_start (length F) + 1 * 2 ^ c) by lia.
    rewrite Nat.Div0.mod_add. apply last_start_mod. }
  unfold chunks_of, last_of. rewrite Hls. split; [by rewrite take_ge|by rewrite drop_ge].
Qed.

Lemma top_leaves_within F G :
  length (last_of F) + length G ≤ 2 ^ c → length (last_of F) + length G ≠ 0 →
  top_leaves (F ++ G) = ideal 0 (chunks_of F) c ++ option_list (ideal_root 0 (chunk_depth (length F)) (last_of F ++ G)).
Proof.
  intros Hle Hne. destruct (decide (length (last_of F) + length G = 2 ^ c)) as [Heq|Hlt].
  - destruct (grow_complete F G Heq) as [Hc Hl]. unfold top_leaves. rewrite Hc, Hl, ideal_root_nil, app_nil_r.
    rewrite full_chunk_root; [|unfold chunk_depth; case_bool_decide; lia|by rewrite length_app].
    rewrite <-ideal_app by (rewrite length_chunks_of; apply last_start_mod). by rewrite app_assoc, chunks_last.
  - destruct (grow_within F G) as (Hc & Hl & Hd); [lia|]. unfold top_leaves. by rewrite Hc, Hl, Hd.
Qed.

(** Whole chunks after whole chunks. *)
Lemma top_leaves_app F G :
  F ≠ [] → last_of F = [] → top_leaves (F ++ G) = top_leaves F ++ ideal 0 G c.
Proof.
  intros HF Hl. apply (f_equal length) in Hl. rewrite length_last_of in Hl. cbn in Hl.
  pose proof (last_start_le (length F)) as Hle. pose proof (last_start_mod (length F)) as Hm.
  assert (2 ^ c ≤ length F) as Hge.
  { destruct (decide (2 ^ c ≤ length F)); [done|]. exfalso. unfold last_start in *. rewrite Nat.div_small in * by lia.
    destruct F; [done|]. cbn in *. lia. }
  rewrite !top_leaves_deep by (rewrite ?length_app; lia). apply ideal_app.
  by replace (length F) with (last_start (length F)) by lia.
Qed.

End chunks.
