(* ===== verification/LogManager.v ===== *)
(** The log manager: [node/storage/src/log_store/log_manager.rs], with
    [rebuild_last_chunk_merkle] of [tx_store.rs].

    It puts the transaction store, the flow store and two Merkle trees
    together: [pora_chunks_merkle] over the roots of the chunks of 1024
    entries, and [last_chunk_merkle] over the entries of the last chunk.  The
    two stores work on the same two data bases, so the state holds the data
    bases once and each store is a view of it.  [pora_chunks_merkle] keeps its
    nodes in a column of its own, which is part of its node store. *)

From stdpp Require Import sorting list_numbers.
From S2P Require Import Prelude HashElement Ssz MerkleProof NodeStore AppendMerkle ProofConvert Bytes FlowDb.
From S2P Require Import Shard MerkleLight SharedTypes Seal ChunkData SealInfo EntryBatch Serde FlowStore.
From S2P Require Import TxStore.
Local Open Scope Z_scope.

Definition PAD_MAX_SIZE : Z := 2 ^ 20.
Definition U64_MAX : Z := 2 ^ 64 - 1.

(** ** Helpers at the end of the file *)

(** [vec!\[0; n\]]: more than [isize::MAX] bytes panic. *)
Definition vec_zero (n : Z) : outcome (list Z) :=
  if n <? 2 ^ 63 then Ok (replicate (Z.to_nat n) 0) else Panic.

Definition sector_to_segment (sector_index : Z) : Z := sector_index / PORA_CHUNK_SIZE.
Definition segment_to_sector (segment_index : Z) : Z := wrap64 (segment_index * PORA_CHUNK_SIZE).

Definition padding_raw (len : Z) : outcome (list Z) := vec_zero (wrap64 (len * ENTRY_SIZE)).

Definition padding (len : Z) : outcome (list (list Z)) :=
  let remainder := len `mod` PAD_MAX_SIZE in
  let n := len / PAD_MAX_SIZE in
  iter ← mapM_outcome (λ _, padding_raw PAD_MAX_SIZE) (seqZ 0 n);
  if remainder =? 0 then Ok iter
  else first ← padding_raw remainder; Ok (first :: iter).

Definition entry_proof (top_proof sub_proof : proof H256) : outcome (proof H256) :=
  top_leaf ← item top_proof;
  sub_root ← proof_root sub_proof;
  if bool_decide (top_leaf ≠ sub_root) then Err "top tree and sub tree mismatch"
  else
    proof_new (take (length (lemma sub_proof) - 1) (lemma sub_proof) ++ drop 1 (lemma top_proof))
      (path sub_proof ++ path top_proof).

(** [while padded_chunks > 0] *)
Fixpoint split_loop (fuel : nat) (padded_chunks next_chunk_size : Z) : outcome (list Z) :=
  match fuel with
  | O => Diverge
  | S fuel' =>
      if 0 <? padded_chunks then
        if next_chunk_size <=? padded_chunks then
          nodes ← split_loop fuel' (padded_chunks - next_chunk_size) (Z.shiftr next_chunk_size 1);
          Ok (next_chunk_size :: nodes)
        else split_loop fuel' padded_chunks (Z.shiftr next_chunk_size 1)
      else Ok []
  end.

(** A power of two below [2 ^ 64] is shifted to zero in 64 steps. *)
Definition split_nodes (data_size : Z) : outcome (list Z) :=
  let p := compute_padded_chunk_size data_size in
  split_loop 66 p.1 p.2.

Section tx_subtrees.
Context `{Keccak}.

Definition subtree_data (data : list Z) (start_index end_ tree_size : Z) : list Z :=
  if blen data <=? start_index then replicate (Z.to_nat (tree_size * ENTRY_SIZE)) 0
  else if blen data <? end_ then
    drop (Z.to_nat start_index) data ++ replicate (Z.to_nat (end_ - blen data)) 0
  else take (Z.to_nat (end_ - start_index)) (drop (Z.to_nat start_index) data).

Fixpoint root_list_loop (data : list Z) (nodes : list Z) (start_index : Z) : outcome (list (Z * H256)) :=
  match nodes with
  | [] => Ok []
  | tree_size :: nodes' =>
      let end_ := start_index + tree_size * ENTRY_SIZE in
      mt ← expect_ok (sub_merkle_tree (subtree_data data start_index end_ tree_size));
      submerkle_root ← light_root mt;
      rest ← root_list_loop data nodes' end_;
      Ok ((log2_pow2 tree_size + 1, submerkle_root) :: rest)
  end.

Definition tx_subtree_root_list_padded (data : list Z) : outcome (list (Z * H256)) :=
  nodes ← split_nodes (blen data);
  root_list_loop data nodes 0.

(** [Transaction::hash] *)
Definition tx_hash (tx : Transaction) : H256 := keccak256 (as_ssz_bytes tx).

End tx_subtrees.

(** ** The two trees *)

Section merkle_manager.
Context `{Keccak, KeyValueDB KV, Bitmap64 B, !KeyValueIter KV}.
Context {NMt NM : Type} `{!NodeStore NMt OptionalHash, !NodeStore NM OptionalHash}.
Local Abbreviation top_tree := (AppendMerkleTree NMt OptionalHash).
Local Abbreviation sub_tree := (AppendMerkleTree NM OptionalHash).

Record MerkleManager := MerkleManager_mk {
  pora_chunks_merkle : top_tree;
  last_chunk_merkle : sub_tree;
}.

Definition set_pora (t : top_tree) (m : MerkleManager) : MerkleManager := MerkleManager_mk t (last_chunk_merkle m).
Definition set_last (t : sub_tree) (m : MerkleManager) : MerkleManager := MerkleManager_mk (pora_chunks_merkle m) t.

Definition on_pora {A} (m : M top_tree A) : M MerkleManager A := zoom pora_chunks_merkle set_pora m.
Definition on_last {A} (m : M sub_tree A) : M MerkleManager A := zoom last_chunk_merkle set_last m.

Definition pora_leaves (m : MerkleManager) : outcome Z := n ← leaves (pora_chunks_merkle m); Ok (Z.of_nat n).
Definition last_leaves (m : MerkleManager) : outcome Z := n ← leaves (last_chunk_merkle m); Ok (Z.of_nat n).

Definition last_chunk_start_index (m : MerkleManager) : outcome Z :=
  p ← pora_leaves m;
  if p =? 0 then Ok 0
  else
    l ← last_leaves m;
    Ok (wrap64 (PORA_CHUNK_SIZE * (if l =? 0 then p else p - 1))).

Definition commit_merkle (tx_seq : Z) : M MerkleManager () :=
  _ ← on_pora (commit (Some (Z.to_nat tx_seq)));
  on_last (commit (Some (Z.to_nat tx_seq))).

(** [self.pora_chunks_merkle.update_last(self.last_chunk_merkle.root())] *)
Definition update_pora : M MerkleManager () :=
  r ← gets_ok (λ m, root (last_chunk_merkle m));
  on_pora (update_last r).

(** *** [TransactionStore::rebuild_last_chunk_merkle] *)

(** The index after the first subtree that ends at the chunk boundary. *)
Fixpoint subtree_ending_at (nodes : list (Z * H256)) (i : nat) (start_index boundary : Z) : option nat :=
  match nodes with
  | [] => None
  | (depth, _) :: nodes' =>
      let start_index := wrap64 (start_index + num_entries_of_node depth) in
      if start_index =? boundary then Some (S i) else subtree_ending_at nodes' (S i) start_index boundary
  end.

(** The loop that walks back to the first transaction in the chunk; the list
    is returned with the last transaction first.  [tx_seq] decreases. *)
Fixpoint find_chunk_txs (tx_store : TransactionStore KV) (fuel : nat) (seq : Z) (last_chunk_start_index : Z)
    (tx_list : list (Z * list (Z * H256))) : outcome (list (Z * list (Z * H256))) :=
  match fuel with
  | O => Diverge
  | S fuel' =>
      o ← get_tx_by_seq_number tx_store seq;
      tx ← expect o;
      let next tx_list :=
        if seq =? 0 then Ok tx_list else find_chunk_txs tx_store fuel' (seq - 1) last_chunk_start_index tx_list in
      match start_entry_index tx ?= last_chunk_start_index with
      | Gt =>
          let tx_list := tx_list ++ [(seq, merkle_nodes tx)] in
          if wrap64 (last_chunk_start_index + PORA_CHUNK_SIZE) <=? start_entry_index tx then Ok tx_list
          else next tx_list
      | Eq => Ok (tx_list ++ [(seq, merkle_nodes tx)])
      | Lt =>
          match subtree_ending_at (merkle_nodes tx) 0 (start_entry_index tx) last_chunk_start_index with
          | Some first_index =>
              if bool_decide (first_index ≠ length (merkle_nodes tx))
              then Ok (tx_list ++ [(seq, drop first_index (merkle_nodes tx))])
              else if bool_decide (tx_list = []) then Ok tx_list else Panic
          | None => Ok tx_list
          end
      end
  end.

Definition optional_nodes (nodes : list (Z * H256)) : list (nat * OptionalHash) :=
  (λ dr, (Z.to_nat dr.1, Some dr.2)) <$> nodes.

(** One transaction of the rebuilt chunk. *)
Definition rebuild_tx (st : Z * list (Z * H256)) : M sub_tree () :=
  first ← lift (expect (head st.2));
  let first_subtree := num_entries_of_node first.1 in
  n ← get_layer_len 0;
  let rest := Z.of_nat n `mod` first_subtree in
  _ ← when (negb (rest =? 0))
    (pad ← lift (padding_raw (wrap64 (Z.min first_subtree PORA_CHUNK_SIZE - rest)));
     lvs ← lift (data_to_merkle_leaves pad);
     append_list lvs);
  _ ← AppendMerkle.append_subtree_list (optional_nodes st.2);
  commit (Some (Z.to_nat st.1)).

Definition rebuild_last_chunk_merkle (tx_store : TransactionStore KV) (pora_chunk_index seq : Z) : outcome sub_tree :=
  let last_chunk_start_index := wrap64 (pora_chunk_index * PORA_CHUNK_SIZE) in
  tx_list ← find_chunk_txs tx_store (S (Z.to_nat seq)) seq last_chunk_start_index [];
  merkle ← (if last_chunk_start_index =? 0 then new_with_depth [Some h256_zero] 1 None
            else new_with_depth [] (Z.to_nat (log2_pow2 PORA_CHUNK_SIZE + 1)) None);
  run (for_each (reverse tx_list) rebuild_tx) merkle.

Definition revert_merkle_tree (seq : Z) (tx_store : TransactionStore KV) : M MerkleManager () :=
  if seq =? U64_MAX then _ ← on_pora reset; on_last reset
  else
    old_leaves ← gets_ok pora_leaves;
    _ ← on_pora (AppendMerkle.revert_to (Z.to_nat seq));
    new_leaves ← gets_ok pora_leaves;
    if old_leaves =? new_leaves then on_last (AppendMerkle.revert_to (Z.to_nat seq))
    else
      t ← lift (rebuild_last_chunk_merkle tx_store (wrap64 (new_leaves - 1)) seq);
      modify (set_last t).

(** The entries of one array of [try_initialize]; the loop breaks at the end of
    the tree. *)
Fixpoint fill_entries (index : Z) (entries : list (list Z)) : M sub_tree () :=
  match entries with
  | [] => mret tt
  | e :: entries' =>
      n ← get_layer_len 0;
      if Z.of_nat n <=? index then mret tt
      else
        _ ← fill_leaf (Z.to_nat index) (Some (sha3_leaf e));
        fill_entries (index + 1) entries'
  end.

Definition try_initialize (flow_store : FlowStore KV) : M MerkleManager () :=
  p ← gets_ok pora_leaves;
  l ← gets_ok last_leaves;
  if (p =? 0) && (l =? 0) then
    _ ← on_last (append (Some h256_zero));
    update_pora
  else
    when (negb (l =? 0))
      (start ← gets_ok last_chunk_start_index;
       last_chunk_data ← lift (get_available_entries (B := B) flow_store start (wrap64 (start + PORA_CHUNK_SIZE)));
       for_each last_chunk_data (λ e,
         on_last (fill_entries (wrap64 (start_index e - start)) (chunks_exact (length (ca_data e)) (ca_data e))))).

End merkle_manager.
Arguments MerkleManager {_} NMt NM : assert.

(** ** [LogManager] *)

Record LogManager (KV MM : Type) := LogManager_mk {
  lm_flow_db : KV;
  lm_data_db : KV;
  lm_next_tx_seq : Z;
  lm_seal_manager : SealTaskManager;
  lm_batch_size : Z;
  lm_shard_config : ShardConfig;
  lm_merkle : MM;
}.
Arguments LogManager_mk {KV MM} lm_flow_db lm_data_db lm_next_tx_seq lm_seal_manager lm_batch_size lm_shard_config lm_merkle.
Arguments lm_flow_db {KV MM} l.
Arguments lm_data_db {KV MM} l.
Arguments lm_next_tx_seq {KV MM} l.
Arguments lm_seal_manager {KV MM} l.
Arguments lm_batch_size {KV MM} l.
Arguments lm_shard_config {KV MM} l.
Arguments lm_merkle {KV MM} l.

(** [map_err(|_| anyhow!(..))] *)
Definition map_err {S A} (msg : string) (m : M S A) : M S A :=
  λ s, match m s with (Err _, s') => (Err msg, s') | r => r end.

(** [.unwrap()] on the result of a call *)
Definition unwrap {S A} (m : M S A) : M S A :=
  λ s, match m s with (Err _, s') => (Panic, s') | r => r end.

Section log_manager.
Context `{Keccak, KeyValueDB KV, Bitmap64 B, !KeyValueIter KV}.
Context {NMt NM : Type} `{!NodeStore NMt OptionalHash, !NodeStore NM OptionalHash}.
Local Abbreviation manager := (LogManager KV (MerkleManager NMt NM)).
Implicit Types (self : manager) (tx : Transaction).

(** The clock: the time at which the batch of an array is reached. *)
Context (now : ChunkArray → Z → Z).

(** *** The stores *)

Definition tx_store self : TransactionStore KV :=
  TransactionStore_mk (lm_flow_db self) (lm_data_db self) (lm_next_tx_seq self).

Definition set_tx_store (s : TransactionStore KV) self : manager :=
  LogManager_mk (flow_kvdb s) (data_kvdb s) (next_tx_seq s) (lm_seal_manager self) (lm_batch_size self)
    (lm_shard_config self) (lm_merkle self).

Definition flow_store self : FlowStore KV :=
  FlowStore_mk (lm_flow_db self) (lm_data_db self) (lm_seal_manager self) (lm_batch_size self) (lm_shard_config self).

Definition set_flow_store (s : FlowStore KV) self : manager :=
  LogManager_mk (flow_db s) (data_db s) (lm_next_tx_seq self) (seal_manager s) (fs_batch_size s)
    (fs_shard_config s) (lm_merkle self).

Definition set_merkle (m : MerkleManager NMt NM) self : manager :=
  LogManager_mk (lm_flow_db self) (lm_data_db self) (lm_next_tx_seq self) (lm_seal_manager self) (lm_batch_size self)
    (lm_shard_config self) m.

Definition on_tx {A} (m : M (TransactionStore KV) A) : M manager A := zoom tx_store set_tx_store m.
Definition on_flow {A} (m : M (FlowStore KV) A) : M manager A := zoom flow_store set_flow_store m.
Definition on_merkle {A} (m : M (MerkleManager NMt NM) A) : M manager A := zoom lm_merkle set_merkle m.

(** *** Appending to the trees *)

Definition pad_segment_root : outcome OptionalHash :=
  h256_leaves ← expect_ok (data_to_merkle_leaves (replicate (Z.to_nat (ENTRY_SIZE * PORA_CHUNK_SIZE)) 0));
  t ← tree_new (NM := NM) h256_leaves 0 None;
  root t.

(** [(start_index, subtree_height, root.unwrap())] of consecutive subtrees *)
Fixpoint placed_subtrees (start_index : Z) (l : list (nat * OptionalHash)) : outcome (list (Z * Z * H256)) :=
  match l with
  | [] => Ok []
  | (subtree_height, r) :: l' =>
      r ← expect r;
      rest ← placed_subtrees (start_index + num_entries_of_node (Z.of_nat subtree_height)) l';
      Ok ((start_index, Z.of_nat subtree_height, r) :: rest)
  end.

Definition complete_last_chunk_merkle (index : Z) : M manager () :=
  subtree_list ← gets_ok (λ self, get_subtrees (last_chunk_merkle (lm_merkle self)));
  t ← lift (new_with_depth [] (Z.to_nat (log2_pow2 PORA_CHUNK_SIZE + 1)) None);
  _ ← on_merkle (modify (set_last t));
  to_insert_subtrees ← lift (placed_subtrees 0 subtree_list);
  on_flow (insert_subtree_list_for_batch (B := B) index to_insert_subtrees).

(** [while pad_data.len() >= (start_index + PORA_CHUNK_SIZE) * ENTRY_SIZE] *)
Fixpoint pad_segments (fuel : nat) (len start_index : Z) : M (MerkleManager NMt NM) Z :=
  match fuel with
  | O => lift Diverge
  | S fuel' =>
      if (start_index + PORA_CHUNK_SIZE) * ENTRY_SIZE <=? len then
        r ← lift pad_segment_root;
        _ ← on_pora (append r);
        pad_segments fuel' len (start_index + PORA_CHUNK_SIZE)
      else mret start_index
  end.

(** The trees and one piece of padding: the completed chunk, if any, and
    whether all of it is in new chunks. *)
Definition pad_merkle (pad_data : list Z) : M (MerkleManager NMt NM) (option Z * bool) :=
  l ← gets_ok last_leaves;
  let last_chunk_pad := if l =? 0 then 0 else wrap64 ((PORA_CHUNK_SIZE - l) * ENTRY_SIZE) in
  if blen pad_data <? last_chunk_pad then
    pad_leaves ← lift (data_to_merkle_leaves pad_data);
    _ ← on_last (append_list pad_leaves);
    _ ← update_pora;
    mret (None, false)
  else
    completed_chunk_index ←
      (if negb (last_chunk_pad =? 0) then
        last_chunk_leaves ← lift (data_to_merkle_leaves (take (Z.to_nat last_chunk_pad) pad_data));
        _ ← on_last (append_list last_chunk_leaves);
        _ ← update_pora;
        p ← gets_ok pora_leaves;
        mret (Some (wrap64 (p - 1)))
      else mret None : M (MerkleManager NMt NM) (option Z));
    let start_index := last_chunk_pad / ENTRY_SIZE in
    end_ ← pad_segments (S (length pad_data)) (blen pad_data) start_index;
    if blen pad_data =? end_ * ENTRY_SIZE then mret (completed_chunk_index, last_chunk_pad =? 0) else panic.

Definition pad_piece (acc : Z * list PadPair) (pad_data : list Z) : M manager (Z * list PadPair) :=
  let '(tx_start_flow_index, pad_list) := acc in
  r ← on_merkle (pad_merkle pad_data);
  let completed_chunk_index : option Z := r.1 in
  let is_full_empty : bool := r.2 in
  let data_size := blen pad_data / ENTRY_SIZE in
  pad_list ←
    (if is_full_empty then mret (pad_list ++ [PadPair_mk tx_start_flow_index (blen pad_data)])
     else
       let arr := ChunkArray_mk pad_data tx_start_flow_index in
       _ ← on_flow (FlowStore.append_entries (B := B) (NM := NM) arr (now arr));
       mret pad_list : M manager (list PadPair));
  _ ← match completed_chunk_index with
      | Some index => complete_last_chunk_merkle index
      | None => mret tt
      end;
  mret (wrap64 (tx_start_flow_index + data_size), pad_list).

Definition pad_tx (seq tx_start_index : Z) : M manager () :=
  start ← gets_ok (λ self, last_chunk_start_index (lm_merkle self));
  l ← gets_ok (λ self, last_leaves (lm_merkle self));
  let tx_start_flow_index := wrap64 (start + l) in
  let pad_size := wrap64 (tx_start_index - tx_start_flow_index) in
  pieces ← lift (if pad_size =? 0 then Ok [] else padding pad_size);
  acc ← fold_for pieces (tx_start_flow_index, []) pad_piece;
  on_flow (put_pad_data acc.2 seq).

(** One subtree of a transaction. *)
Definition append_one_subtree (dr : Z * H256) : M manager () :=
  let '(subtree_depth, subtree_root) := dr in
  let subtree_size := num_entries_of_node subtree_depth in
  l ← gets_ok (λ self, last_leaves (lm_merkle self));
  if l + subtree_size <=? PORA_CHUNK_SIZE then
    _ ← on_merkle (on_last (append_subtree (Z.to_nat subtree_depth) (Some subtree_root)));
    l ← gets_ok (λ self, last_leaves (lm_merkle self));
    _ ← on_merkle
      (if l =? subtree_size then
         r ← gets_ok (λ m, root (last_chunk_merkle m));
         on_pora (append_subtree 1 r)
       else update_pora);
    when (l =? PORA_CHUNK_SIZE)
      (p ← gets_ok (λ self, pora_leaves (lm_merkle self));
       complete_last_chunk_merkle (wrap64 (p - 1)))
  else if negb (l =? 0) then panic
  else if subtree_size <? PORA_CHUNK_SIZE then panic
  else
    on_merkle (on_pora (append_subtree (Z.to_nat (wrap64 (subtree_depth - log2_pow2 PORA_CHUNK_SIZE))) (Some subtree_root))).

Definition append_subtree_list (seq tx_start_index : Z) (merkle_list : list (Z * H256)) : M manager () :=
  if bool_decide (merkle_list = []) then mret tt
  else
    _ ← pad_tx seq tx_start_index;
    for_each merkle_list append_one_subtree.

(** *** Entries *)

Definition append_entries (flow_entry_array : ChunkArray) : M manager () :=
  let start_index := start_index flow_entry_array in
  let data := ca_data flow_entry_array in
  last_start ← gets_ok (λ self, last_chunk_start_index (lm_merkle self));
  _ ← when (last_start <? wrap64 (start_index + bytes_to_chunks (blen data)))
    (let '(chunk_start_index, flow_entry_data_index) :=
       if last_start <=? start_index then (start_index - last_start, 0)
       else (0, wrap64 ((last_start - start_index) * ENTRY_SIZE)) in
     if blen data <? flow_entry_data_index then panic
     else
       let entries := drop (Z.to_nat flow_entry_data_index) data in
       on_merkle (
         _ ← for_each (imap (λ i e, (i, e)) (chunks_exact (length entries) entries)) (λ ie,
           on_last (fill_leaf (Z.to_nat chunk_start_index + ie.1) (Some (sha3_leaf ie.2))));
         update_pora));
  chunk_roots ← on_flow (FlowStore.append_entries (B := B) (NM := NM) flow_entry_array (now flow_entry_array));
  for_each chunk_roots (λ cr,
    p ← gets_ok (λ self, pora_leaves (lm_merkle self));
    if cr.1 <? p then on_merkle (on_pora (fill_leaf (Z.to_nat cr.1) (Some cr.2))) else panic).

(** *** Reading *)

Definition get_chunks_by_tx_and_index_range self (seq index_start index_end : Z) : outcome (option ChunkArray) :=
  o ← get_tx_by_seq_number (tx_store self) seq;
  match o with
  | None => Ok None
  | Some tx =>
      if bytes_to_entries (tx_byte_size tx) <? index_end then Err "end entry index exceeds tx size"
      else
        let start_flow_index := wrap64 (start_entry_index tx + index_start) in
        let end_flow_index := wrap64 (start_entry_index tx + index_end) in
        o ← get_entries (B := B) (flow_store self) start_flow_index end_flow_index;
        Ok (option_map (λ tx_chunk,
          ChunkArray_mk (ca_data tx_chunk) (wrap64 (start_index tx_chunk - start_entry_index tx))) o)
  end.

(** [Chunk(data.as_slice().try_into()?)] *)
Definition chunk_try_from (data : list Z) : outcome (list Z) :=
  if bool_decide (blen data = ENTRY_SIZE) then Ok data else Err "TryFromSliceError".

Definition get_chunk_by_tx_and_index self (seq index : Z) : outcome (option (list Z)) :=
  o ← get_chunks_by_tx_and_index_range self seq index (wrap64 (index + 1));
  match o with
  | None => Ok None
  | Some single_chunk_array => c ← chunk_try_from (ca_data single_chunk_array); Ok (Some c)
  end.

Definition get_chunk_by_flow_index self (index length : Z) : outcome (option ChunkArray) :=
  get_entries (B := B) (flow_store self) index (wrap64 (index + length)).

Definition get_node_hash_by_index self (index : Z) : outcome OptionalHash :=
  opt ← leaf_at (pora_chunks_merkle (lm_merkle self)) (Z.to_nat index);
  ok_or "node hash not found" opt.

(** The loop of [get_tx_seq_by_data_root]: a finalized transaction, or else the
    first that is not pruned. *)
Fixpoint find_available (s : TransactionStore KV) (need_available : bool) (seqs : list Z) (available_seq : option Z) :
    outcome (option Z * option Z) :=
  match seqs with
  | [] => Ok (None, available_seq)
  | seq :: seqs' =>
      completed ← check_tx_completed s seq;
      if (completed : bool) then Ok (Some seq, available_seq)
      else if need_available && bool_decide (available_seq = None) then
        pruned ← check_tx_pruned s seq;
        find_available s need_available seqs' (if (pruned : bool) then available_seq else Some seq)
      else find_available s need_available seqs' available_seq
  end.

Definition get_tx_seq_by_data_root self (data_root : H256) (need_available : bool) : outcome (option Z) :=
  seq_list ← TxStore.get_tx_seq_list_by_data_root (tx_store self) data_root;
  r ← find_available (tx_store self) need_available seq_list None;
  match r.1 with
  | Some seq => Ok (Some seq)
  | None => Ok (if need_available then r.2 else head seq_list)
  end.

(** The list from its first transaction on that is not pruned. *)
Fixpoint skip_pruned (s : TransactionStore KV) (seqs : list Z) : outcome (list Z) :=
  match seqs with
  | [] => Ok []
  | seq :: seqs' =>
      pruned ← check_tx_pruned s seq;
      if (pruned : bool) then skip_pruned s seqs' else Ok seqs
  end.

Definition get_tx_seq_list_by_data_root self (data_root : H256) : outcome (list Z) :=
  seq_list ← TxStore.get_tx_seq_list_by_data_root (tx_store self) data_root;
  skip_pruned (tx_store self) seq_list.

Definition get_chunks_by_data_root_and_index_range self (data_root : H256) (index_start index_end : Z) :
    outcome (option ChunkArray) :=
  o ← get_tx_seq_by_data_root self data_root true;
  match o with
  | None => Ok None
  | Some seq => get_chunks_by_tx_and_index_range self seq index_start index_end
  end.

Definition get_context self : outcome (H256 * Z) :=
  r ← root (pora_chunks_merkle (lm_merkle self));
  r ← expect r;
  start ← last_chunk_start_index (lm_merkle self);
  l ← last_leaves (lm_merkle self);
  Ok (r, wrap64 (start + l)).

(** *** Proofs *)

(** [self.at_version(tx_seq)?.gen_proof(index)?] or the current tree's *)
Definition gen_tree_proof {S} `{!NodeStore S OptionalHash} (t : AppendMerkleTree S OptionalHash)
    (maybe_tx_seq : option Z) (index : Z) : outcome (proof H256) :=
  p ← match maybe_tx_seq with
      | None => MerkleProof.gen_proof t (Z.to_nat index)
      | Some seq => ht ← at_version t (Z.to_nat seq); MerkleProof.gen_proof ht (Z.to_nat index)
      end;
  convert_proof_to_h256 p.

Definition gen_proof_at_version self (flow_index : Z) (maybe_tx_seq : option Z) : outcome (proof H256) :=
  let merkle := lm_merkle self in
  let seg_index := sector_to_segment flow_index in
  top_proof ← gen_tree_proof (pora_chunks_merkle merkle) maybe_tx_seq seg_index;
  p ← pora_leaves merkle;
  l ← last_leaves merkle;
  sub_proof ←
    (if negb (seg_index =? wrap64 (p - 1)) || (l =? 0)
     then gen_proof_in_batch (NM := NM) (B := B) (flow_store self) seg_index (flow_index `mod` PORA_CHUNK_SIZE)
     else gen_tree_proof (last_chunk_merkle merkle) maybe_tx_seq (flow_index `mod` PORA_CHUNK_SIZE));
  entry_proof top_proof sub_proof.

Definition gen_proof self (flow_index : Z) (maybe_root : option H256) : outcome (proof H256) :=
  match maybe_root with
  | None => gen_proof_at_version self flow_index None
  | Some r =>
      seq ← tx_seq_at_root (pora_chunks_merkle (lm_merkle self)) (Some r);
      gen_proof_at_version self flow_index (Some (Z.of_nat seq))
  end.

Definition get_proof_at_root self (r : option H256) (index length : Z) : outcome (range_proof H256) :=
  left_proof ← gen_proof self index r;
  right_proof ← gen_proof self (wrap64 (index + length - 1)) r;
  Ok (RangeProof_mk left_proof right_proof).

Definition get_chunks_with_proof_by_tx_and_index_range self (seq index_start index_end : Z) (merkle_tx_seq : option Z) :
    outcome (option ChunkArrayWithProof) :=
  o ← get_tx_by_seq_number (tx_store self) seq;
  match o with
  | None => Ok None
  | Some tx =>
      o ← get_chunks_by_tx_and_index_range self seq index_start index_end;
      match o with
      | None => Ok None
      | Some chunks =>
          left_proof ← gen_proof_at_version self (wrap64 (start_entry_index tx + index_start)) merkle_tx_seq;
          right_proof ← gen_proof_at_version self (wrap64 (start_entry_index tx + index_end - 1)) merkle_tx_seq;
          Ok (Some (ChunkArrayWithProof_mk chunks (RangeProof_mk left_proof right_proof)))
      end
  end.

Definition get_chunk_with_proof_by_tx_and_index self (seq index : Z) : outcome (option (list Z * proof H256)) :=
  o ← get_chunks_with_proof_by_tx_and_index_range self seq index (wrap64 (index + 1)) None;
  match o with
  | None => Ok None
  | Some a =>
      c ← chunk_try_from (ca_data (cap_chunks a));
      Ok (Some (c, left_proof (cap_proof a)))
  end.

Definition validate_range_proof self (seq : Z) (data : ChunkArrayWithProof) : outcome bool :=
  o ← get_tx_by_seq_number (tx_store self) seq;
  tx ← ok_or "tx missing" o;
  lvs ← data_to_merkle_leaves_h256 (ca_data (cap_chunks data));
  _ ← range_validate (cap_proof data) lvs (Z.to_nat (wrap64 (start_index (cap_chunks data) + start_entry_index tx)));
  r ← range_root (cap_proof data);
  Ok (check_root (pora_chunks_merkle (lm_merkle self)) (Some r)).

(** *** Writing chunks *)

(** The range check that [put_chunks] and [put_chunks_with_tx_hash] share. *)
Definition out_of_tx_range tx (chunks : ChunkArray) : bool :=
  wrap64 ((compute_padded_chunk_size (tx_byte_size tx)).1 * ENTRY_SIZE) <?
  wrap64 (Z.min (start_index chunks * ENTRY_SIZE) U64_MAX + blen (ca_data chunks)).

Definition flow_array tx (chunks : ChunkArray) : ChunkArray :=
  ChunkArray_mk (ca_data chunks) (wrap64 (start_index chunks + start_entry_index tx)).

Definition put_chunks (seq : Z) (chunks : ChunkArray) : M manager () :=
  o ← gets_ok (λ self, get_tx_by_seq_number (tx_store self) seq);
  tx ← lift (ok_or "put chunks with missing tx" o);
  if out_of_tx_range tx chunks then bail "put chunks with data out of tx range"
  else append_entries (flow_array tx chunks).

Definition put_chunks_with_tx_hash (seq : Z) (hash : H256) (chunks : ChunkArray) (maybe_file_proof : option (proof H256)) :
    M manager bool :=
  o ← gets_ok (λ self, get_tx_by_seq_number (tx_store self) seq);
  tx ← lift (ok_or "put chunks with missing tx" o);
  if bool_decide (tx_hash tx ≠ hash) then mret false
  else if out_of_tx_range tx chunks then bail "put chunks with data out of tx range"
  else
    _ ← append_entries (flow_array tx chunks);
    _ ← match maybe_file_proof with
        | Some file_proof =>
            optional_proof ← lift (convert_proof_from_h256 file_proof);
            _ ← on_merkle (on_pora (fill_with_file_proof optional_proof (optional_nodes (merkle_nodes tx))
                  (Z.to_nat (start_entry_index tx))));
            mret tt
        | None => mret tt
        end;
    mret true.

Definition remove_chunks_batch (batch_list : list Z) : M manager () := on_flow (delete_batch_list batch_list).

(** *** Finalization *)

(** [while segments_for_file <= segments_for_proof] *)
Fixpoint rear_loop (fuel : nat) tx (segments_for_proof last_segment_size_for_proof segments_for_file
    last_segment_size_for_file : Z) : M manager () :=
  match fuel with
  | O => lift Diverge
  | S fuel' =>
      if segments_for_file <=? segments_for_proof then
        let padding_size :=
          wrap64 (((if segments_for_file =? segments_for_proof then last_segment_size_for_proof else PORA_CHUNK_SIZE)
                   - last_segment_size_for_file) * ENTRY_SIZE) in
        let padding_start_index :=
          wrap64 ((segments_for_file - 1) * PORA_CHUNK_SIZE + last_segment_size_for_file) in
        _ ← when (0 <? padding_size)
          (data ← lift (vec_zero padding_size);
           _ ← put_chunks_with_tx_hash (tx_seq tx) (tx_hash tx) (ChunkArray_mk data padding_start_index) None;
           mret tt);
        rear_loop fuel' tx segments_for_proof last_segment_size_for_proof (segments_for_file + 1) 0
      else mret tt
  end.

Definition padding_rear_data tx : M manager () :=
  sp ← lift (compute_segment_size (compute_padded_chunk_size (tx_byte_size tx)).1 PORA_CHUNK_SIZE);
  sf ← lift (compute_segment_size (bytes_to_entries (tx_byte_size tx)) PORA_CHUNK_SIZE);
  rear_loop (S (Z.to_nat (sp.1 + 1 - sf.1))) tx sp.1 sp.2 sf.1 sf.2.

Fixpoint all_present (s : FlowStore KV) (ranges : list (Z * Z)) : outcome bool :=
  match ranges with
  | [] => Ok true
  | (batch_start, batch_end) :: ranges' =>
      o ← get_entries (B := B) s batch_start batch_end;
      match o with None => Ok false | Some _ => all_present s ranges' end
  end.

Definition check_data_completed self (start end_ : Z) : outcome bool :=
  ranges ← batch_iter_sharded start end_ PORA_CHUNK_SIZE (lm_shard_config self);
  all_present (flow_store self) ranges.

(** The transactions to copy to, with the offset of their data. *)
Fixpoint copy_offsets self (from_tx_seq : Z) (old_tx : Transaction) (seqs : list Z) : outcome (list (Z * Z)) :=
  match seqs with
  | [] => Ok []
  | seq :: seqs' =>
      completed ← check_tx_completed (tx_store self) seq;
      if (completed : bool) || (from_tx_seq =? seq) then copy_offsets self from_tx_seq old_tx seqs'
      else
        o ← get_tx_by_seq_number (tx_store self) seq;
        tx ← ok_or "to tx missing" o;
        let num_shard := num_shard (lm_shard_config self) in
        if num_shard =? 0 then Panic
        else if sector_to_segment (start_entry_index tx) `mod` num_shard =?
                sector_to_segment (start_entry_index old_tx) `mod` num_shard then
          rest ← copy_offsets self from_tx_seq old_tx seqs';
          Ok ((tx_seq tx, wrap64 (start_entry_index tx - start_entry_index old_tx)) :: rest)
        else copy_offsets self from_tx_seq old_tx seqs'
  end.

Definition copy_batch (to_tx_offset_list : list (Z * Z)) (range : Z * Z) : M manager () :=
  o ← gets_ok (λ self, get_chunk_by_flow_index self range.1 (wrap64 (range.2 - range.1)));
  batch_data ← lift (ok_or "tx data missing" o);
  for_each to_tx_offset_list (λ so,
    append_entries (ChunkArray_mk (ca_data batch_data) (wrap64 (start_index batch_data + so.2)))).

Definition copy_tx_and_finalize (from_tx_seq : Z) (to_tx_seq_list : list Z) : M manager () :=
  o ← gets_ok (λ self, get_tx_by_seq_number (tx_store self) from_tx_seq);
  old_tx ← lift (ok_or "from tx missing" o);
  to_tx_offset_list ← gets_ok (λ self, copy_offsets self from_tx_seq old_tx to_tx_seq_list);
  if bool_decide (to_tx_offset_list = []) then mret tt
  else
    ranges ← gets_ok (λ self, batch_iter_sharded (start_entry_index old_tx)
      (wrap64 (start_entry_index old_tx + num_entries old_tx)) PORA_CHUNK_SIZE (lm_shard_config self));
    _ ← for_each ranges (copy_batch to_tx_offset_list);
    for_each to_tx_offset_list (λ so, on_tx (TxStore.finalize_tx so.1)).

Definition finalize_tx_common tx : M manager () :=
  let seq := tx_seq tx in
  _ ← padding_rear_data tx;
  let tx_end_index := wrap64 (start_entry_index tx + bytes_to_entries (tx_byte_size tx)) in
  completed ← gets_ok (λ self, check_data_completed self (start_entry_index tx) tx_end_index);
  if (completed : bool) then
    same_root_seq_list ← gets_ok (λ self, get_tx_seq_list_by_data_root self (data_merkle_root tx));
    _ ← match same_root_seq_list with
        | [] => mret tt
        | first_seq :: rest =>
            if first_seq =? seq then copy_tx_and_finalize seq rest
            else
              first_completed ← gets_ok (λ self, check_tx_completed (tx_store self) first_seq);
              when (negb first_completed) (copy_tx_and_finalize seq same_root_seq_list)
        end;
    on_tx (TxStore.finalize_tx seq)
  else bail "data missing".

Definition finalize_tx (seq : Z) : M manager () :=
  o ← gets_ok (λ self, get_tx_by_seq_number (tx_store self) seq);
  tx ← lift (ok_or "finalize_tx with tx missing" o);
  map_err "finalize tx with data missing" (finalize_tx_common tx).

Definition finalize_tx_with_hash (seq : Z) (hash : H256) : M manager bool :=
  o ← gets_ok (λ self, get_tx_by_seq_number (tx_store self) seq);
  tx ← lift (ok_or "finalize_tx with tx missing" o);
  if bool_decide (tx_hash tx ≠ hash) then mret false
  else _ ← map_err "finalize tx hash with data missing" (finalize_tx_common tx); mret true.

Definition prune_tx (seq : Z) : M manager () := on_tx (TxStore.prune_tx seq).

(** *** Transactions *)

Definition put_tx tx : M manager () :=
  expected_seq ← gets lm_next_tx_seq;
  _ ← (if tx_seq tx =? expected_seq then mret tt
       else
         completed ← (if wrap64 (tx_seq tx + 1) =? expected_seq
                      then gets_ok (λ self, check_tx_completed (tx_store self) (tx_seq tx))
                      else mret true : M manager bool);
         if (completed : bool) then bail "unexpected tx!" else mret tt);
  old_list ← on_tx (TxStore.put_tx tx);
  _ ← append_subtree_list (tx_seq tx) (start_entry_index tx) (merkle_nodes tx);
  _ ← on_merkle (commit_merkle (tx_seq tx));
  match head old_list with
  | Some old_tx_seq =>
      completed ← gets_ok (λ self, check_tx_completed (tx_store self) old_tx_seq);
      when completed (copy_tx_and_finalize old_tx_seq [tx_seq tx])
  | None => mret tt
  end.

Definition put_sync_progress (progress : Z * H256 * option (option Z)) : M manager () := on_tx (put_progress progress).

(** The other writes go to one of the stores. *)
Definition lm_put_log_latest_block_number (block_number : Z) : M manager () := on_tx (put_log_latest_block_number block_number).
Definition lm_delete_block_hash_by_number (block_number : Z) : M manager () := on_tx (delete_block_hash_by_number block_number).
Definition lm_update_shard_config (shard_config : ShardConfig) : M manager () := on_flow (update_shard_config shard_config).
Definition lm_submit_seal_result (answers : list SealAnswer) : M manager () :=
  on_flow (flow_submit_seal_result (B := B) answers).
Definition lm_pull_seal_chunk (seal_index_max now : Z) : M manager (option (list SealTask)) :=
  on_flow (pull_seal_chunk (B := B) seal_index_max now).

Definition revert_to (seq : Z) : M manager (list Transaction) :=
  s ← gets tx_store;
  _ ← on_merkle (revert_merkle_tree seq s);
  fs ← gets flow_store;
  _ ← on_merkle (try_initialize (B := B) fs);
  r ← gets_ok (λ self, root (last_chunk_merkle (lm_merkle self)));
  n ← gets_ok (λ self, leaves (pora_chunks_merkle (lm_merkle self)));
  lf ← gets_ok (λ self, if bool_decide (n = 0%nat) then Err "Out of bound"
                        else leaf_at (pora_chunks_merkle (lm_merkle self)) (n - 1));
  if bool_decide (Some r ≠ lf) then panic
  else
    start ← gets_ok (λ self, last_chunk_start_index (lm_merkle self));
    l ← gets_ok (λ self, last_leaves (lm_merkle self));
    let start_index := wrap64 (wrap64 (start * PORA_CHUNK_SIZE) + l) in
    _ ← on_flow (truncate (B := B) start_index);
    let start := if seq =? U64_MAX then 0 else seq + 1 in
    on_tx (remove_tx_after start).

Definition validate_and_insert_range_proof (seq : Z) (data : ChunkArrayWithProof) : M manager bool :=
  valid ← gets_ok (λ self, validate_range_proof self seq data);
  _ ← when valid
    (p ← lift (convert_range_proof_from_h256 (cap_proof data));
     _ ← on_merkle (on_pora (fill_with_range_proof p));
     mret tt);
  mret valid.

(** *** The background task of [start_padding] *)

(** One round of the loop gives the next index.  After an error of the data
    base the task sleeps and tries the same index again. *)
Definition padding_round (start_index : Z) : M (FlowStore KV) Z :=
  o ← gets (λ s, get_pad_data s start_index);
  match o with
  | Ok data =>
      _ ← for_each (default [] data) (λ pad,
        zeros ← lift (vec_zero (pad_data_size pad));
        let arr := ChunkArray_mk zeros (pad_start_index pad) in
        _ ← unwrap (FlowStore.append_entries (B := B) (NM := NM) arr (now arr));
        mret tt);
      _ ← unwrap (put_pad_data_sync_height start_index);
      mret (wrap64 (start_index + 1))
  | Err _ => mret start_index
  | Panic => panic
  | Diverge => lift Diverge
  end.

(** The first [n] rounds of the task. *)
Fixpoint padding_rounds (n : nat) (start_index : Z) : M (FlowStore KV) Z :=
  match n with
  | O => mret start_index
  | S n' => next ← padding_round start_index; padding_rounds n' next
  end.

Definition start_padding (n : nat) : M (FlowStore KV) Z :=
  current_height ← unwrap (gets_ok get_pad_data_sync_height);
  padding_rounds n (default 0 current_height).

(** *** Opening *)

(** The tree of the chunks for the transactions before the last, if the last
    was not inserted completely: the first transaction to build from, the
    transaction to insert again, and the tree. *)
Definition recover_last_tx (s : TransactionStore KV) (pora : AppendMerkleTree NMt OptionalHash) (last_tx_seq : Z) :
    outcome (option Z * option Transaction * AppendMerkleTree NMt OptionalHash) :=
  completed ← check_tx_completed s last_tx_seq;
  if (completed : bool) then Ok (Some last_tx_seq, None, pora)
  else
    o ← get_tx_by_seq_number s last_tx_seq;
    last_tx ← expect o;
    n ← leaves pora;
    let current_len := Z.of_nat n in
    let expected_len :=
      sector_to_segment (wrap64 (start_entry_index last_tx + num_entries last_tx + PORA_CHUNK_SIZE - 1)) in
    match expected_len ?= current_len with
    | Lt => Err "Unexpected DB: merkle tree larger than the known data size"
    | Eq => Ok (Some last_tx_seq, None, pora)
    | Gt =>
        if last_tx_seq =? 0 then Ok (None, Some last_tx, pora)
        else
          o ← get_tx_by_seq_number s (last_tx_seq - 1);
          previous_tx ← expect o;
          let expected_len := sector_to_segment (wrap64 (start_entry_index previous_tx + num_entries previous_tx)) in
          pora ← (if expected_len <? current_len then EntryBatch.run (revert_to_leaves (Z.to_nat expected_len)) pora
                  else if current_len =? expected_len then Ok pora else Panic);
          Ok (Some (tx_seq previous_tx), Some last_tx, pora)
    end.

(** [top] is the result of opening the node store of [pora_chunks_merkle]. *)
Definition log_manager_new (flow_kv data_kv : KV) (top : outcome NMt) (batch_size : Z) (shard_config : ShardConfig)
    (created : Z) : outcome manager :=
  s ← tx_store_new flow_kv data_kv;
  let fs := flow_store_new flow_kv data_kv batch_size shard_config created in
  pora ← new_with_subtrees top (Z.to_nat (log2_pow2 PORA_CHUNK_SIZE));
  r ← (if 0 <? next_tx_seq s then recover_last_tx s pora (next_tx_seq s - 1) else Ok (None, None, pora));
  let '(start_tx_seq, last_tx_to_insert, pora) := r in
  pl ← match start_tx_seq with
       | Some seq =>
           o ← get_tx_by_seq_number s seq;
           tx ← expect o;
           if wrap64 (start_entry_index tx + num_entries tx) `mod` PORA_CHUNK_SIZE =? 0 then
             t ← new_with_depth [] (Z.to_nat (log2_pow2 PORA_CHUNK_SIZE + 1)) None; Ok (pora, t)
           else
             n ← leaves pora;
             t ← rebuild_last_chunk_merkle s (wrap64 (Z.of_nat n - 1)) seq; Ok (pora, t)
       | None =>
           pora ← EntryBatch.run reset pora;
           t ← new_with_depth [] 1 None; Ok (pora, t)
       end;
  let '(pora, last) := pl in
  n ← leaves last;
  pora ← (if bool_decide (n = 0%nat) then Ok pora else r ← root last; EntryBatch.run (update_last r) pora);
  pora ← EntryBatch.run (commit (Z.to_nat <$> start_tx_seq)) pora;
  let self := LogManager_mk flow_kv data_kv (next_tx_seq s) (seal_manager fs) batch_size shard_config
                (MerkleManager_mk pora last) in
  let open : M manager () :=
    _ ← match last_tx_to_insert with Some tx => put_tx tx | None => mret tt end;
    fs ← gets flow_store;
    _ ← on_merkle (try_initialize (B := B) fs);
    _ ← gets_ok get_context;
    mret tt in
  match open self with
  | (Ok _, self') => Ok self'
  | (Err e, _) => Err e
  | (Panic, _) => Panic
  | (Diverge, _) => Diverge
  end.

End log_manager.
