(* ===== verification/DbFrame.v ===== *)
(** What an operation leaves alone.

    The transaction store and the flow store share two data bases but write
    different columns.  [keeps R m]: whatever the outcome, [m] takes a state to
    one that is related by [R]; for the data bases, to one that has the same
    contents in the other columns. *)

From stdpp Require Import sorting list_numbers.
From S2P Require Import Prelude HashElement Ssz MerkleProof NodeStore AppendMerkle Bytes FlowDb Shard MerkleLight SharedTypes.
From S2P Require Import Seal ChunkData SealInfo EntryBatch Serde FlowStore TxStore.

Definition keeps {S A} (R : S → S → Prop) (m : M S A) : Prop := ∀ s, R s (m s).2.

Section keeps.
Context {S : Type} (R : S → S → Prop) `{!PreOrder R}.

Lemma keeps_ret {A} (a : A) : keeps R (mret a).
Proof. intros s. reflexivity. Qed.

Lemma keeps_gets {A} (f : S → A) : keeps R (gets f).
Proof. intros s. reflexivity. Qed.

Lemma keeps_gets_ok {A} (f : S → outcome A) : keeps R (gets_ok f).
Proof. intros s. reflexivity. Qed.

Lemma keeps_lift {A} (o : outcome A) : keeps R (lift o).
Proof. intros s. reflexivity. Qed.

Lemma keeps_panic {A} : keeps R (panic : M S A).
Proof. intros s. reflexivity. Qed.

Lemma keeps_bail {A} msg : keeps R (bail msg : M S A).
Proof. intros s. reflexivity. Qed.

Lemma keeps_modify f : (∀ s, R s (f s)) → keeps R (modify f).
Proof. intros Hf s. apply Hf. Qed.

(** The second computation only has to be considered for the results that the
    first can have. *)
Lemma keeps_bind_strong {A C} (m : M S A) (k : A → M S C) :
  keeps R m → (∀ s a s', m s = (Ok a, s') → keeps R (k a)) → keeps R (m ≫= k).
Proof.
  intros Hm Hk s. specialize (Hm s). unfold mbind, M_bind. destruct (m s) as [[a| | |] s'] eqn:Heq; [|exact Hm..].
  transitivity s'; [exact Hm|]. by apply (Hk s a s').
Qed.

Lemma keeps_bind {A C} (m : M S A) (k : A → M S C) : keeps R m → (∀ a, keeps R (k a)) → keeps R (m ≫= k).
Proof. intros Hm Hk. by apply keeps_bind_strong. Qed.

Lemma keeps_when b (m : M S ()) : keeps R m → keeps R (when b m).
Proof. intros Hm. destruct b; [done|apply keeps_ret]. Qed.

Lemma keeps_for_each {A} (xs : list A) body : (∀ x, keeps R (body x)) → keeps R (for_each xs body).
Proof. intros Hb. induction xs as [|x xs IH]; [apply keeps_ret|]. by apply keeps_bind. Qed.

Lemma keeps_fold_for {A C} (xs : list A) (c : C) body : (∀ c x, keeps R (body c x)) → keeps R (fold_for xs c body).
Proof. intros Hb. revert c. induction xs as [|x xs IH]; intros c; [apply keeps_ret|]. by apply keeps_bind. Qed.

End keeps.

Lemma keeps_zoom {S T A} (R : S → S → Prop) (RT : T → T → Prop) (proj : S → T) set (m : M T A) :
  (∀ s t, RT (proj s) t → R s (set t s)) → keeps RT m → keeps R (zoom proj set m).
Proof. intros Hset Hm s. unfold zoom. specialize (Hm (proj s)). destruct (m (proj s)). by apply Hset. Qed.

(** What an operation does, together with what it leaves alone. *)
Lemma wp_keeps {S A} (R : S → S → Prop) (m : M S A) (Q : A → S → Prop) s :
  keeps R m → wp m Q s → wp m (λ a s', Q a s' ∧ R s s') s.
Proof. intros Hk. specialize (Hk s). unfold wp. by destruct (m s) as [[]]. Qed.

(** Decompose an operation down to its writes. *)
Ltac solve_keeps :=
  repeat first
    [ solve [auto]
    | first [apply keeps_ret | apply keeps_gets | apply keeps_gets_ok | apply keeps_lift | apply keeps_panic
            | apply keeps_bail]; apply _
    | apply keeps_bind; [apply _| |intros ?]
    | apply keeps_when; [apply _|]
    | apply keeps_for_each; [apply _|intros ?]
    | apply keeps_fold_for; [apply _|intros ? ?]
    | match goal with |- keeps _ (match ?x with _ => _ end) => destruct x end ].

(** ** Data bases *)

Section frames.
Context `{Keccak, Bitmap64 B, KeyValueDBLaws KV, !KeyValueIter KV}.
Context {NM : Type} `{!NodeStore NM OptionalHash}.
Implicit Types (d : KV) (cols : list nat).

(** [d'] differs from [d] in the columns [cols] only. *)
Definition kv_keeps cols d d' : Prop :=
  (∀ c k, c ∉ cols → kv_map d' !! (c, k) = kv_map d !! (c, k)) ∧ (kv_writable d' ↔ kv_writable d).

#[export] Instance kv_keeps_preorder cols : PreOrder (kv_keeps cols).
Proof.
  split; [by intros d|]. intros d1 d2 d3 [H12 Hw12] [H23 Hw23]. split; [|by rewrite Hw23].
  intros c k Hc. by rewrite H23, H12.
Qed.

Lemma keeps_write cols ops : Forall (λ op, (op_key op).1 ∈ cols) ops → keeps (kv_keeps cols) (kv_write ops).
Proof.
  intros Hops d. split; [|apply kv_writable_write]. intros c k Hc.
  destruct (kv_write_atomic ops d) as [-> | ->]; [|done]. apply lookup_ops_notin.
  intros (op & Hk & Hop)%list_elem_of_fmap. rewrite Forall_forall in Hops. specialize (Hops op Hop).
  by rewrite <-Hk in Hops.
Qed.

(** *** The flow store *)

Definition flow_frame (s s' : FlowStore KV) : Prop :=
  kv_keeps [COL_PAD_DATA_LIST] (flow_db s) (flow_db s') ∧
  kv_keeps [COL_ENTRY_BATCH; COL_PAD_DATA_SYNC_HEIGH] (data_db s) (data_db s') ∧
  fs_batch_size s' = fs_batch_size s ∧ fs_shard_config s' = fs_shard_config s.

#[export] Instance flow_frame_preorder : PreOrder flow_frame.
Proof.
  split; [by intros s|]. intros s1 s2 s3 (Hf & Hd & Hb & Hc) (Hf' & Hd' & Hb' & Hc').
  split_and!; [by etrans|by etrans|congruence|congruence].
Qed.

Lemma keeps_data_db {A} (m : M KV A) :
  keeps (kv_keeps [COL_ENTRY_BATCH; COL_PAD_DATA_SYNC_HEIGH]) m → keeps flow_frame (on_data_db m).
Proof. apply keeps_zoom. intros s t Ht. by split_and!. Qed.

Lemma keeps_flow_db {A} (m : M KV A) :
  keeps (kv_keeps [COL_PAD_DATA_LIST]) m → keeps flow_frame (zoom flow_db set_flow_db m).
Proof. apply keeps_zoom. intros s t Ht. by split_and!. Qed.

Lemma keeps_seal_set f : keeps flow_frame (modify_seal_set f).
Proof. apply keeps_modify. by intros s. Qed.

Lemma batch_roots_columns (l : list (Z * EntryBatch B)) r :
  batch_list_roots (NM := NM) l = Ok r → Forall (λ op, (op_key op).1 ∈ [COL_ENTRY_BATCH]) r.1.
Proof.
  revert r. induction l as [|[b batch] l IH]; intros r; cbn [batch_list_roots]; [by intros [= <-]|].
  intros (o & _ & Hr)%bind_Ok_inv. apply bind_Ok_inv in Hr as (r' & Hr' & Hr). injection Hr as <-. cbn [fst].
  constructor; [by left|by apply IH].
Qed.

Lemma columns_weaken (ops : DBTransaction) cols cols' :
  cols ⊆ cols' → Forall (λ op, (op_key op).1 ∈ cols) ops → Forall (λ op, (op_key op).1 ∈ cols') ops.
Proof. intros Hsub Hops. eapply Forall_impl; [exact Hops|]. intros op. apply Hsub. Qed.

Lemma load_batch_frame b : keeps flow_frame (load_batch (B := B) b).
Proof. unfold load_batch. solve_keeps. Qed.

Lemma append_batch_frame arr now acc range : keeps flow_frame (append_batch (B := B) arr now acc range).
Proof.
  unfold append_batch. pose proof load_batch_frame. pose proof keeps_seal_set. unfold add_seal_tasks. solve_keeps.
Qed.

Lemma append_entries_frame arr now : keeps flow_frame (append_entries (B := B) (NM := NM) arr now).
Proof.
  unfold append_entries. pose proof (append_batch_frame arr now). solve_keeps. apply keeps_data_db.
  unfold put_entry_batch_list. apply keeps_bind_strong; [apply _|solve_keeps|]. intros d r d' [= Hr _].
  apply keeps_bind; [apply _| |intros ?; solve_keeps]. apply keeps_write.
  eapply columns_weaken; [|by eapply batch_roots_columns]. set_solver.
Qed.

Lemma insert_subtree_frame b subs : keeps flow_frame (insert_subtree_list_for_batch (B := B) b subs).
Proof.
  unfold insert_subtree_list_for_batch. pose proof load_batch_frame. solve_keeps. apply keeps_data_db. apply keeps_write.
  constructor; [by left|done].
Qed.

Lemma put_pad_data_frame l seq : keeps flow_frame (put_pad_data l seq : M (FlowStore KV) ()).
Proof. apply keeps_flow_db. apply keeps_write. constructor; [by left|done]. Qed.

Lemma delete_batch_frame l : keeps flow_frame (delete_batch_list l : M (FlowStore KV) ()).
Proof.
  unfold delete_batch_list. apply keeps_bind; [apply _|by apply keeps_modify|intros ?]. apply keeps_data_db, keeps_write.
  apply Forall_fmap, Forall_true. intros b. by left.
Qed.

Lemma put_sync_height_frame h : keeps flow_frame (put_pad_data_sync_height h : M (FlowStore KV) ()).
Proof. apply keeps_data_db, keeps_write. constructor; [by right; left|done]. Qed.

(** *** The transaction store *)

Definition tx_frame (s s' : TransactionStore KV) : Prop :=
  kv_keeps [COL_TX; COL_TX_DATA_ROOT_INDEX; COL_MISC; COL_BLOCK_PROGRESS] (flow_kvdb s) (flow_kvdb s') ∧
  kv_keeps [COL_TX_COMPLETED] (data_kvdb s) (data_kvdb s').

#[export] Instance tx_frame_preorder : PreOrder tx_frame.
Proof. split; [by intros s|]. intros s1 s2 s3 [Hf Hd] [Hf' Hd']. split; by etrans. Qed.

Lemma keeps_write_flow ops :
  Forall (λ op, (op_key op).1 ∈ [COL_TX; COL_TX_DATA_ROOT_INDEX; COL_MISC; COL_BLOCK_PROGRESS]) ops →
  keeps tx_frame (write_flow ops : M (TransactionStore KV) ()).
Proof. intros Hops. eapply keeps_zoom; [|by apply keeps_write]. intros s t Ht. by split. Qed.

Lemma keeps_write_data ops :
  Forall (λ op, (op_key op).1 ∈ [COL_TX_COMPLETED]) ops → keeps tx_frame (write_data ops : M (TransactionStore KV) ()).
Proof. intros Hops. eapply keeps_zoom; [|by apply keeps_write]. intros s t Ht. by split. Qed.

Lemma keeps_next_seq seq : keeps tx_frame (modify (set_next_tx_seq seq) : M (TransactionStore KV) ()).
Proof. by apply keeps_modify. Qed.

Lemma put_tx_frame tx : keeps tx_frame (put_tx tx : M (TransactionStore KV) (list Z)).
Proof.
  unfold put_tx. pose proof keeps_next_seq. solve_keeps; apply keeps_write_flow;
    repeat (apply Forall_cons; split; [set_solver|]); constructor.
Qed.

Lemma finalize_tx_frame seq : keeps tx_frame (finalize_tx seq : M (TransactionStore KV) ()).
Proof. apply keeps_write_data. constructor; [by left|done]. Qed.

Lemma index_op_column p : (op_key (index_op p)).1 = COL_TX_DATA_ROOT_INDEX.
Proof. unfold index_op. by case_bool_decide. Qed.

Lemma prune_tx_frame seq : keeps tx_frame (prune_tx seq : M (TransactionStore KV) ()).
Proof.
  unfold prune_tx. solve_keeps.
  - apply keeps_write_data. constructor; [by left|done].
  - apply keeps_write_flow. constructor; [rewrite index_op_column; set_solver|done].
Qed.

End frames.
