(* ===== verification/LogTrees.v ===== *)
(** The two trees of the log manager, as the tree over one list of leaves.

    [trees_ok F vs m]: [m] holds the flow with the leaves [F]: the tree over
    the chunks has their roots, with the versions [vs], and the tree of the
    last chunk has the leaves that are left. *)

From stdpp Require Import sorting list_numbers.
From S2P Require Import Prelude HashElement Ssz MerkleSpec MerkleProof MerkleProofComplete NodeStore AppendMerkle.
From S2P Require Import TreeRules Recompute TreeOps TreeFill TreeHistory TreeRefine TreeSpec TreeTiles.
From S2P Require Import ProofConvert ChunkRoots Bytes FlowDb Shard MerkleLight SharedTypes Seal ChunkData SealInfo EntryBatch.
From S2P Require Import Serde FlowStore TxStore LogManager.
Local Open Scope nat_scope.

Section trees.
Context `{Keccak}.
Context {NMt NM : Type} `{!NodeStore NMt OptionalHash, !NodeStoreLaws NMt OptionalHash}.
Context `{!NodeStore NM OptionalHash, !NodeStoreLaws NM OptionalHash}.
Local Abbreviation merkle := (MerkleManager NMt NM).
Implicit Types (F G Zc X xs : list OptionalHash) (r rt x : OptionalHash) (m : merkle) (vs : gmap nat (list OptionalHash * bool)).

Local Abbreviation c := 10.
Local Abbreviation top := (top_leaves c).
Local Abbreviation last_of := (last_of c).
Local Abbreviation chunks_of := (chunks_of c).

(** Versions that end at the current last chunk know its path. *)
Definition sealed_at vs (n : nat) : Prop := ∀ s Fw b, vs !! s = Some (Fw, b) → length Fw = n → b = true.

(** The tree of the chunks implements [X]; if [open], its last leaf can still
    change. *)
Definition pora_ok (X : list OptionalHash) (opn : Prop) vs m : Prop :=
  ∃ a, refines c 1 (Log X a vs) (pora_chunks_merkle m) ∧ (opn → a ≤ length X - 1 ∧ sealed_at vs (length X)).

(** The tree of the last chunk has the leaves [X]; in the first chunk the first
    leaf is known on its own. *)
Definition last_ok (d : nat) (X : list OptionalHash) m : Prop :=
  leaf_height (last_chunk_merkle m) = 0 ∧
  ∃ a L ks, tree_inv d X a L (last_chunk_merkle m) ∧ tiles L 0 ks (length X) ∧ (d = 1 → ∃ ks', ks = 0 :: ks').

Record trees_ok F vs m : Prop := {
  tk_known : Forall (λ x, x ≠ None) F;
  tk_nonempty : F ≠ [];
  tk_pora : pora_ok (top F) (last_of F ≠ []) vs m;
  tk_last : last_ok (chunk_depth c (length F)) (last_of F) m;
}.

(** [G] was appended to the last chunk, and the tree of the chunks is up to
    date; the last chunk may be complete. *)
Record trees_grown F G vs m : Prop := {
  tg_known : Forall (λ x, x ≠ None) (F ++ G);
  tg_nonempty : F ≠ [];
  tg_pora : pora_ok (top (F ++ G)) True vs m;
  tg_last : last_ok (chunk_depth c (length F)) (last_of F ++ G) m;
}.

(** ** Reading *)

Lemma refines_leaves {ST : Type} `{!NodeStore ST OptionalHash, !NodeStoreLaws ST OptionalHash} lh d A (t : AppendMerkleTree ST OptionalHash) :
  refines lh d A t → leaves t = Ok (length (log_leaves A)).
Proof.
  intros (_ & L & Hi & _). destruct (tree_inv_layers _ _ _ _ _ Hi) as (_ & _ & l & Hl & _ & Hlen).
  unfold leaves. by rewrite (reads_len _ _ _ (rep_reads _ _ _ (ti_rep _ _ _ _ _ Hi)) 0 l Hl), Hlen.
Qed.

Lemma pora_ok_leaves X o vs m : pora_ok X o vs m → pora_leaves m = Ok (Z.of_nat (length X)).
Proof. intros (a & Hr & _). unfold pora_leaves. by rewrite (refines_leaves _ _ _ _ Hr). Qed.

Lemma tree_leaves d X a L (t : AppendMerkleTree NM OptionalHash) : tree_inv d X a L t → leaves t = Ok (length X).
Proof.
  intros Hi. destruct (tree_inv_layers _ _ _ _ _ Hi) as (_ & _ & l & Hl & _ & Hlen).
  unfold leaves. by rewrite (reads_len _ _ _ (rep_reads _ _ _ (ti_rep _ _ _ _ _ Hi)) 0 l Hl), Hlen.
Qed.

Lemma last_ok_leaves d X m : last_ok d X m → last_leaves m = Ok (Z.of_nat (length X)).
Proof. intros (_ & a & L & ks & Hi & _). unfold last_leaves. by rewrite (tree_leaves _ _ _ _ _ Hi). Qed.

Lemma last_ok_root d X m :
  last_ok d X m → X ≠ [] → ∃ r : OptionalHash, root (last_chunk_merkle m) = Ok r ∧ r ≠ None ∧ ideal_root 0 d X = Some r.
Proof.
  intros (Hlh & a & L & ks & [Hd Hr Hok Hf Ha] & _) HX. apply rep_reads in Hr. rewrite Hlh in *.
  exact (reads_root _ _ _ _ _ _ Hd Hr Hok Hf Ha HX).
Qed.

Lemma last_chunk_start_spec F vs m :
  trees_ok F vs m → (Z.of_nat (length F) < 2 ^ 64)%Z →
  last_chunk_start_index m = Ok (Z.of_nat (last_start c (length F))).
Proof.
  intros [Hk HF Hp Hl] Hlt. unfold last_chunk_start_index. rewrite (pora_ok_leaves _ _ _ _ Hp), bind_Ok.
  rewrite (last_ok_leaves _ _ _ Hl), bind_Ok. rewrite length_top_leaves, length_last_of.
  pose proof (last_start_le c (length F)) as Hls. pose proof (width_pos (length F) c) as Hw.
  assert (0 < length F) as Hpos by (destruct F; [done|cbn; lia]).
  rewrite (proj2 (Z.eqb_neq _ _)) by lia.
  assert (Z.of_nat (2 ^ c) = 1024%Z) as Hc by done.
  assert (∀ q, last_start c (length F) = q * 2 ^ c → wrap64 (PORA_CHUNK_SIZE * Z.of_nat q) = Z.of_nat (last_start c (length F))) as Hq.
  { intros q Hq. assert (Z.of_nat (last_start c (length F)) = (Z.of_nat q * 1024)%Z) by (by rewrite Hq, Nat2Z.inj_mul, Hc).
    unfold PORA_CHUNK_SIZE. rewrite wrap64_small; lia. }
  destruct (decide (length F `mod` 2 ^ c = 0)) as [Hm|Hm]; rewrite (mod_last_start c) in Hm.
  - rewrite (proj2 (Z.eqb_eq _ _)) by lia. rewrite Hq; [done|]. unfold last_start. f_equal.
    symmetry. apply width_aligned. rewrite (mod_last_start c). lia.
  - rewrite (proj2 (Z.eqb_neq _ _)) by lia. replace (Z.of_nat (width (length F) c) - 1)%Z with (Z.of_nat (width (length F) c - 1)) by lia.
    rewrite Hq; [done|].
    rewrite width_unaligned by (rewrite (mod_last_start c); lia). unfold last_start. f_equal. lia.
Qed.

(** ** The tree of the chunks *)

Lemma version_length lh d A (t : AppendMerkleTree NMt OptionalHash) s Fw b :
  refines lh d A t → log_versions A !! s = Some (Fw, b) → length Fw ≤ length (log_leaves A).
Proof.
  intros (_ & L & _ & Hvs) Hv. destruct (proj2 (vs_dom _ _ _ _ _ Hvs s)) as [dl Hdl]; [by eexists|].
  by destruct (vs_ok _ _ _ _ _ Hvs s dl Fw b Hdl Hv) as (_ & [Hle _] & _).
Qed.

(** A step of the log on the tree of the chunks. *)
Lemma wp_pora_step A A' (op : M (AppendMerkleTree NMt OptionalHash) ()) m :
  refines c 1 A (pora_chunks_merkle m) → log_step c 1 A op A' →
  wp (on_pora op) (λ _ m', refines c 1 A' (pora_chunks_merkle m') ∧ last_chunk_merkle m' = last_chunk_merkle m) m.
Proof. intros Hr Hst. apply wp_zoom. eapply wp_mono; [by eapply sim_step|]. by intros [] t Ht. Qed.

(** The last chunk is a new leaf. *)
Lemma wp_pora_leaf X o vs m x (op : M (AppendMerkleTree NMt OptionalHash) ()) :
  op = append x ∨ op = append_subtree 1 x → pora_ok X o vs m → x ≠ None →
  wp (on_pora op) (λ _ m', pora_ok (X ++ [x]) True vs m' ∧ last_chunk_merkle m' = last_chunk_merkle m) m.
Proof.
  intros Hop (a & Hr & _) Hx.
  assert (log_step c 1 (Log X a vs) op (Log (X ++ [x]) (length X) vs)) as Hst
    by (destruct Hop as [-> | ->]; by constructor).
  eapply wp_mono; [by apply (wp_pora_step _ _ _ _ Hr Hst)|]. intros [] m' [Hr' Hl]. split; [|done].
  exists (length X). split; [done|]. intros _. rewrite length_app. cbn. split; [lia|].
  intros s Fw b Hv Hlen. pose proof (version_length _ _ _ _ _ _ _ Hr Hv) as Hle. cbn in Hle. lia.
Qed.

(** The last leaf changes to the root of the last chunk. *)
Lemma wp_pora_update A r0 vs d X m :
  pora_ok (A ++ [r0]) True vs m → last_ok d X m → X ≠ [] →
  wp update_pora (λ _ m', pora_ok (A ++ option_list (ideal_root 0 d X)) True vs m' ∧
    last_chunk_merkle m' = last_chunk_merkle m) m.
Proof.
  intros (a & Hr & Ho) Hl HX. destruct (Ho I) as [Ha Hs].
  destruct (last_ok_root _ _ _ Hl HX) as (r & Hroot & Hn & Hir). rewrite Hir. cbn [option_list].
  unfold update_pora. apply wp_bind. eapply wp_gets_ok; [exact Hroot|].
  eapply wp_mono; [eapply (wp_pora_step _ _ _ _ Hr); by apply ls_update_last|].
  intros [] m' [Hr' Hlast]. split; [|done]. rewrite length_app in *. cbn [length] in *.
  rewrite Nat.add_sub, take_app_length in Hr'.
  exists (length A). split; [done|]. intros _. rewrite length_app. cbn. split; [lia|]. exact Hs.
Qed.

(** Whole chunks at once. *)
Lemma wp_pora_subtree X o vs m k rt G :
  pora_ok X o vs m → length X `mod` 2 ^ k = 0 → subtree_of c k rt G →
  wp (on_pora (append_subtree (k + 1) rt))
    (λ _ m', pora_ok (X ++ G) False vs m' ∧ last_chunk_merkle m' = last_chunk_merkle m) m.
Proof.
  intros (a & Hr & _) Hm Hst.
  eapply wp_mono; [eapply (wp_pora_step _ _ _ _ Hr); by apply (ls_append_subtree _ _ _ _ _ k rt G)|].
  intros [] m' [Hr' Hl]. split; [|done]. exists (length (X ++ G)). by split.
Qed.

Lemma wp_pora_fill X o vs m i x :
  pora_ok X o vs m → X !! i = Some x →
  wp (on_pora (fill_leaf i x)) (λ _ m', pora_ok X o vs m' ∧ last_chunk_merkle m' = last_chunk_merkle m) m.
Proof.
  intros (a & Hr & Ho) Hx. eapply wp_mono; [eapply (wp_pora_step _ _ _ _ Hr); by apply ls_fill_leaf|].
  intros [] m' [Hr' Hl]. split; [|done]. by exists a.
Qed.

Lemma wp_pora_commit X o vs m s :
  pora_ok X o vs m → X ≠ [] → (∀ s', is_Some (vs !! s') → s' < s ∧ is_Some (vs !! (s - 1))) →
  wp (on_pora (commit (Some s)))
    (λ _ m', ∃ b, pora_ok X o (<[s := (X, b)]> vs) m' ∧ last_chunk_merkle m' = last_chunk_merkle m) m.
Proof.
  intros (a & Hr & Ho) HX Hs.
  eapply wp_mono; [eapply (wp_pora_step _ _ _ _ Hr); by apply ls_commit|].
  intros [] m' [Hr' Hl]. eexists. split; [|done]. exists a. split; [done|]. intros Hopn.
  destruct (Ho Hopn) as [Ha Hse]. split; [done|]. intros s' Fw b.
  rewrite lookup_insert_Some. intros [(_ & [= _ <-])|[_ Hv]] Hlen; [by apply bool_decide_eq_true|by eapply Hse].
Qed.

(** ** The tree of the last chunk *)

Lemma last_ok_appended d X m a L ks xs (t' : AppendMerkleTree NM OptionalHash) L' :
  leaf_height (last_chunk_merkle m) = 0 → tree_inv d X a L (last_chunk_merkle m) → tiles L 0 ks (length X) →
  (d = 1 → xs ≠ [] → ∃ ks', ks ++ replicate (length xs) 0 = 0 :: ks') → (d = 1 → xs = [] → ∃ ks', ks = 0 :: ks') →
  same_versions (last_chunk_merkle m) t' → tree_inv d (X ++ xs) (length X) L' t' → kept (length X) L L' →
  last_ok d (X ++ xs) (set_last t' m).
Proof.
  intros Hlh Hi Ht Hd Hd0 (_ & _ & _ & Hlh') Hi' Hk. split; [exact (eq_trans Hlh' Hlh)|].
  exists (length X), L', (ks ++ replicate (length xs) 0). split_and!; [done| |].
  - apply tiles_app. exists (length X). split; [by eapply tiles_kept|].
    destruct (tree_inv_layers _ _ _ _ _ Hi') as (_ & _ & l & Hl & _ & Hlen). rewrite length_app in Hlen.
    rewrite length_app. eapply tiles_leaves; [done|exact (Nat.eq_le_incl _ _ (eq_sym Hlen))|]. apply (ti_frontier _ _ _ _ _ Hi').
  - intros Hd1. destruct (decide (xs = [])) as [->|Hne]; [|by apply Hd]. destruct (Hd0 Hd1 eq_refl) as [ks' ->]. by eexists.
Qed.

Lemma wp_last_list d X m xs :
  last_ok d X m → Forall (λ x, x ≠ None) xs →
  wp (on_last (append_list xs))
    (λ _ m', last_ok d (X ++ xs) m' ∧ pora_chunks_merkle m' = pora_chunks_merkle m) m.
Proof.
  intros (Hlh & a & L & ks & Hi & Ht & Hd) Hxs. apply wp_zoom.
  eapply wp_mono; [apply (append_list_spec _ _ _ _ xs _ Hi Hxs)|].
  intros [] t' (Hs & L' & Hi' & Hk). split; [|done].
  eapply last_ok_appended; [done..| | |done|done|done].
  - intros Hd1 _. destruct (Hd Hd1) as [ks' ->]. by eexists.
  - intros Hd1 _. by apply Hd.
Qed.

(** The first leaf of the flow. *)
Lemma wp_last_first m (t : AppendMerkleTree NM OptionalHash) x :
  new_with_depth ([] : list OptionalHash) 1 None = Ok t → last_chunk_merkle m = t → x ≠ None →
  wp (on_last (append x)) (λ _ m', last_ok 1 [x] m' ∧ pora_chunks_merkle m' = pora_chunks_merkle m) m.
Proof.
  intros Hnew Hm Hx. destruct (new_with_depth_spec (NM := NM) (E := OptionalHash) [] 1) as (t0 & Ht0 & Hlh & L & Hi & _);
    [lia|done|]. assert (t0 = t) as -> by congruence. subst t. apply wp_zoom.
  eapply wp_mono; [apply (append_spec _ _ _ _ x _ Hi Hx)|].
  intros [] t' (Hs & L' & Hi' & Hk). split; [|done].
  apply (last_ok_appended 1 [] m 0 L [] [x] t' L'); try done. intros _ _. by exists [].
Qed.

Lemma wp_last_subtree d X m k rt G :
  last_ok d X m → length X `mod` 2 ^ k = 0 → subtree_of 0 k rt G →
  wp (on_last (append_subtree (k + 1) rt))
    (λ _ m', last_ok d (X ++ G) m' ∧ pora_chunks_merkle m' = pora_chunks_merkle m) m.
Proof.
  intros (Hlh & a & L & ks & Hi & Ht & Hd) Hm Hst. apply wp_zoom. pose proof Hst as Hst0. rewrite <-Hlh in Hst.
  eapply wp_mono; [apply (append_subtree_spec _ _ _ _ _ _ _ _ Hi Hm Hst)|].
  intros [] t' ((_ & _ & _ & Hlh') & L' & Hi' & Hk & Hf). split; [|done]. split; [exact (eq_trans Hlh' Hlh)|].
  exists (length (X ++ G)), L', (ks ++ [k]). split_and!; [done| |].
  - apply tiles_app. exists (length X). split; [by eapply tiles_kept|].
    eapply (tiles_subtree (leaf_height t') d); [apply Hi'|by rewrite Hlh', Hlh|done|done|apply Hi].
  - intros Hd1. destruct (Hd Hd1) as [ks' ->]. by eexists.
Qed.

Lemma wp_last_fill d X m i x :
  last_ok d X m → X !! i = Some x →
  wp (on_last (fill_leaf i x)) (λ _ m', last_ok d X m' ∧ pora_chunks_merkle m' = pora_chunks_merkle m) m.
Proof.
  intros (Hlh & a & L & ks & Hi & Ht & Hd) Hx. apply wp_zoom.
  eapply wp_mono; [apply (fill_leaf_spec _ _ _ _ _ _ _ Hi Hx)|].
  intros [] t' ((_ & _ & _ & Hlh') & L' & l & Hi' & Hm & _). split; [|done]. split; [exact (eq_trans Hlh' Hlh)|].
  exists a, L', ks. split_and!; [done| |done]. eapply tiles_mono; [|exact Ht].
  intros h l0 j y Hl0 Hy Hny. destruct (proj2 Hm h l0 Hl0) as (l' & Hl' & _ & Hk). eauto.
Qed.

Lemma wp_last_commit d X m s :
  last_ok d X m →
  wp (on_last (commit (Some s))) (λ _ m', last_ok d X m' ∧ pora_chunks_merkle m' = pora_chunks_merkle m) m.
Proof.
  intros (Hlh & a & L & ks & Hi & Ht & Hd). apply wp_zoom.
  assert (∀ dm rm, last_ok d X (set_last (set_versions dm rm (last_chunk_merkle m)) m)) as Hset.
  { intros dm rm. split; [done|]. exists a, L, ks. split_and!; [|done|done]. destruct Hi. by split. }
  destruct (decide (X = [])) as [->|HX].
  - unfold commit. apply wp_bind. unfold get_layer_len. eapply wp_gets_ok; [apply (tree_leaves _ _ _ _ _ Hi)|].
    apply wp_modify. by split.
  - destruct (commit_spec d X a L _ s Hi HX) as (r & _ & Hc). unfold wp. rewrite Hc. by split.
Qed.

(** ** Growing the flow *)

Lemma pora_ok_weaken X (o o' : Prop) vs m : (o' → o) → pora_ok X o vs m → pora_ok X o' vs m.
Proof. intros Hi (a & Hr & Ho). exists a. split; [done|]. intros Ho'. by apply Ho, Hi. Qed.

Lemma grown_within F G vs m :
  trees_grown F G vs m → length (last_of F) + length G < 2 ^ c → trees_ok (F ++ G) vs m.
Proof.
  intros [Hk HF Hp Hl] Hlt. destruct (grow_within c F G Hlt) as (_ & Hlo & Hd). split; [done| | |].
  - by destruct F.
  - eapply pora_ok_weaken; [|exact Hp]. done.
  - by rewrite Hlo, Hd.
Qed.

(** The last chunk has more leaves, which the tree of the chunks gets to know. *)
Lemma wp_grow_update F G vs m :
  Forall (λ x, x ≠ None) (F ++ G) → pora_ok (top F) True vs m → last_of F ≠ [] →
  last_ok (chunk_depth c (length F)) (last_of F ++ G) m → length (last_of F) + length G ≤ 2 ^ c →
  wp update_pora (λ _ m', trees_grown F G vs m') m.
Proof.
  intros Hk Hp Hne Hl Hle. destruct (top_leaves_split c F Hne) as (r0 & _ & Hr0 & _). rewrite Hr0 in Hp.
  eapply wp_mono; [apply (wp_pora_update _ _ _ _ _ _ Hp Hl); by destruct (last_of F)|].
  intros [] m' [Hp' Hm']. assert (length (last_of F) ≠ 0) by by destruct (last_of F).
  rewrite <-top_leaves_within in Hp' by lia. split; [done| |done|].
  - intros ->. done.
  - unfold last_ok. by rewrite Hm'.
Qed.

Lemma full_flow F : F ≠ [] → last_of F = [] → chunks_of F = F ∧ top F = ideal 0 F c ∧ chunk_depth c (length F) = c + 1 ∧
  length F `mod` 2 ^ c = 0.
Proof.
  intros HF Hl. pose proof (chunks_last c F) as Hcl. rewrite Hl, app_nil_r in Hcl.
  pose proof (top_leaves_app c F [] HF Hl) as Htop. rewrite app_nil_r, ideal_nil, app_nil_r in Htop.
  pose proof (length_chunks_of c F) as Hlen. rewrite Hcl in Hlen.
  assert (length F `mod` 2 ^ c = 0) as Hm by (rewrite Hlen at 1; apply last_start_mod).
  assert (chunk_depth c (length F) = c + 1) as Hd.
  { unfold chunk_depth. rewrite bool_decide_false; [done|]. intros Hlt. rewrite Nat.mod_small in Hm by done.
    by destruct F. }
  split_and!; [done| |done|done]. unfold top_leaves. by rewrite Hcl, Hl, ideal_root_nil, app_nil_r.
Qed.

(** The first leaves of a new chunk. *)
Lemma wp_grow_new F G vs m o :
  Forall (λ x, x ≠ None) (F ++ G) → F ≠ [] → last_of F = [] → pora_ok (top F) o vs m → G ≠ [] → length G ≤ 2 ^ c →
  last_ok (chunk_depth c (length F)) G m →
  wp (r ← gets_ok (λ m, root (last_chunk_merkle m)); on_pora (append_subtree 1 r))
    (λ _ m', trees_grown F G vs m') m.
Proof.
  intros Hk HF Hlo Hp HG Hle Hl. destruct (last_ok_root _ _ _ Hl HG) as (r & Hroot & Hn & Hir).
  apply wp_bind. eapply wp_gets_ok; [exact Hroot|].
  eapply wp_mono; [apply (wp_pora_leaf _ _ _ _ r _ (or_intror eq_refl) Hp Hn)|].
  intros [] m' [Hp' Hm']. destruct (full_flow F HF Hlo) as (Hc & Htop & _).
  assert (length G ≠ 0) by by destruct G.
  split; [done|done| |by rewrite Hlo; unfold last_ok; rewrite Hm'].
  rewrite top_leaves_within; rewrite Hlo; cbn [length app]; [|lia|lia]. rewrite Hir. cbn [option_list].
  by rewrite Hc, <-Htop.
Qed.

(** A chunk of padding. *)
Lemma wp_pad_chunk F Zc vs m r :
  trees_ok F vs m → last_of F = [] → Forall (λ x, x ≠ None) Zc → length Zc = 2 ^ c → ideal 0 Zc c = [r] →
  wp (on_pora (append r)) (λ _ m', trees_ok (F ++ Zc) vs m') m.
Proof.
  intros [Hk HF Hp Hl] Hlo HZ Hlen Hr. assert (r ≠ None) as Hn.
  { assert (Forall (λ x, x ≠ null) (ideal 0 Zc c)) as Hkn by by apply ideal_known. rewrite Hr in Hkn.
    inversion_clear Hkn as [|? ? Hr' _]. exact Hr'. }
  eapply wp_mono; [apply (wp_pora_leaf _ _ _ _ r _ (or_introl eq_refl) Hp Hn)|]. intros [] m' [Hp' Hm'].
  destruct (full_flow F HF Hlo) as (_ & _ & Hd & _).
  destruct (grow_complete c F Zc) as [_ Hlo']; [by rewrite Hlo|]. split.
  - by apply Forall_app.
  - by destruct F.
  - rewrite top_leaves_app, Hr by done. eapply pora_ok_weaken; [|exact Hp']. done.
  - unfold chunk_depth in *. rewrite bool_decide_false, Hlo'; [|rewrite length_app; pose proof (pow2_pos c); lia].
    unfold last_ok. rewrite Hm', <-Hlo. by rewrite Hd in Hl.
Qed.

(** A subtree of whole chunks is a subtree of the tree of the chunks. *)
Lemma chunks_subtree k rt G : c ≤ k → subtree_of 0 k rt G → subtree_of c (k - c) rt (ideal 0 G c).
Proof.
  intros Hk [Hlen Hkn Hrt]. split; [|by apply ideal_known|].
  - rewrite length_ideal, Hlen. replace k with (k - c + c) at 1 by lia. rewrite Nat.pow_add_r.
    rewrite width_aligned by apply Nat.Div0.mod_mul. apply Nat.div_mul. pose proof (pow2_pos c). lia.
  - rewrite <-(ideal_add 0 G c). by replace (c + (k - c)) with k by lia.
Qed.

Lemma wp_grow_chunks F vs m k rt G :
  trees_ok F vs m → last_of F = [] → c ≤ k → length F `mod` 2 ^ k = 0 → subtree_of 0 k rt G →
  wp (on_pora (append_subtree (k - c + 1) rt)) (λ _ m', trees_ok (F ++ G) vs m') m.
Proof.
  intros [Hk HF Hp Hl] Hlo Hck Hm Hst. destruct (full_flow F HF Hlo) as (_ & Htop & Hd & Hmc).
  pose proof (pow2_pos c). pose proof (so_len _ _ _ _ Hst) as Hlen.
  assert (2 ^ k = 2 ^ (k - c) * 2 ^ c) as Hpow by (rewrite <-Nat.pow_add_r; f_equal; lia).
  eapply wp_mono; [eapply (wp_pora_subtree _ _ _ _ (k - c) rt (ideal 0 G c) Hp)|].
  - rewrite length_top_leaves, width_aligned by done. apply Nat.Lcm0.mod_divide in Hm as [q Hq]. rewrite Hq, Hpow.
    rewrite Nat.mul_assoc, Nat.div_mul by lia. apply Nat.Div0.mod_mul.
  - by apply chunks_subtree.
  - intros [] m' [Hp' Hm']. assert (last_of (F ++ G) = []) as Hlo'.
    { apply nil_length_inv. rewrite length_last_of, length_app, Hlen.
      assert (last_start c (length F + 2 ^ k) = length F + 2 ^ k) as ->; [|lia].
      apply last_start_unique; [|lia]. by rewrite Hpow, Nat.Div0.mod_add. }
    split; [apply Forall_app; split; [done|apply Hst]|by destruct F| |].
    + rewrite top_leaves_app by done. eapply pora_ok_weaken; [|exact Hp']. done.
    + unfold chunk_depth in *. rewrite Hlo'. rewrite bool_decide_false.
      * unfold last_ok. rewrite Hm', <-Hlo. by rewrite Hd in Hl.
      * rewrite length_app, Hlen, Hpow. pose proof (pow2_pos (k - c)). nia.
Qed.

(** ** Completing the last chunk *)

(** [G] completed the last chunk of [F], whose tree is still there, and the tree
    of the chunks has the roots of [W]. *)
Record trees_pending W F G vs m : Prop := {
  tp_known : Forall (λ x, x ≠ None) W;
  tp_whole : last_of W = [];
  tp_long : 2 ^ c ≤ length W;
  tp_pora : pora_ok (top W) False vs m;
  tp_last : last_ok (chunk_depth c (length F)) (last_of F ++ G) m;
}.

Lemma grown_pending F G vs m :
  trees_grown F G vs m → length (last_of F) + length G = 2 ^ c → trees_pending (F ++ G) F G vs m.
Proof.
  intros [Hk HF Hp Hl] Hlen. destruct (grow_complete c F G Hlen) as [_ Hlo]. split; try done.
  - rewrite length_app. rewrite length_last_of in Hlen. lia.
  - eapply pora_ok_weaken; [|exact Hp]. done.
Qed.

(** Another chunk of padding after it. *)
Lemma wp_pending_chunk W F G Zc vs m r :
  trees_pending W F G vs m → Forall (λ x, x ≠ None) Zc → length Zc = 2 ^ c → ideal 0 Zc c = [r] →
  wp (on_pora (append r)) (λ _ m', trees_pending (W ++ Zc) F G vs m') m.
Proof.
  intros [Hk Hlo Hlong Hp Hl] HZ Hlen Hr. assert (r ≠ None) as Hn.
  { assert (Forall (λ x, x ≠ null) (ideal 0 Zc c)) as Hkn by by apply ideal_known. rewrite Hr in Hkn.
    inversion_clear Hkn as [|? ? Hr' _]. exact Hr'. }
  eapply wp_mono; [apply (wp_pora_leaf _ _ _ _ r _ (or_introl eq_refl) Hp Hn)|]. intros [] m' [Hp' Hm'].
  destruct (grow_complete c W Zc) as [_ Hlo']; [by rewrite Hlo|]. split; [by apply Forall_app|done| | |].
  - rewrite length_app. lia.
  - rewrite top_leaves_app, Hr; [|intros ->; cbn in Hlong; lia|done]. eapply pora_ok_weaken; [|exact Hp']. done.
  - unfold last_ok. by rewrite Hm'.
Qed.

Lemma last_subtrees d X m :
  last_ok d X m → X ≠ [] →
  ∃ rts L, get_subtrees (last_chunk_merkle m) = Ok rts ∧ placed L 0 rts (length X) ∧ layers_ok 0 d X L ∧
    (d = 1 → ∃ x, head rts = Some (1, x)).
Proof.
  intros (Hlh & a & L & ks & Hi & Ht & Hd) HX.
  destruct (get_subtrees_spec _ _ _ _ _ _ Hi Ht) as (rts & Hg & Hpl & Hfirst). exists rts, L. split_and!; [done..| |].
  - pose proof (ti_ok _ _ _ _ _ Hi) as Hok. by rewrite Hlh in Hok.
  - intros Hd1. destruct (Hd Hd1) as [ks' ->]. apply (Hfirst ks' eq_refl). destruct X; [done|cbn; lia].
Qed.

Lemma complete_last W F G vs m :
  trees_pending W F G vs m →
  ∃ t, new_with_depth (NM := NM) ([] : list OptionalHash) (c + 1) None = Ok t ∧ trees_ok W vs (set_last t m).
Proof.
  intros [Hk Hlo Hlong Hp _]. destruct (new_with_depth_spec (NM := NM) (E := OptionalHash) [] (c + 1)) as (t & Ht & Hlh & L & Hi & _);
    [lia|done|]. exists t. split; [done|]. split; [done|intros ->; cbn in Hlong; lia| |].
  - eapply pora_ok_weaken; [|exact Hp]. done.
  - rewrite Hlo. unfold chunk_depth. rewrite bool_decide_false by lia.
    split; [done|]. exists 0, L, []. by split_and!; [exact Hi|done|lia].
Qed.

(** ** Committing a transaction *)

Lemma wp_commit_merkle F vs m (s : Z) :
  trees_ok F vs m → (∀ s', is_Some (vs !! s') → s' < Z.to_nat s ∧ is_Some (vs !! (Z.to_nat s - 1))) →
  wp (commit_merkle s) (λ _ m', ∃ b, trees_ok F (<[Z.to_nat s := (top F, b)]> vs) m') m.
Proof.
  intros [Hk HF Hp Hl] Hs. unfold commit_merkle. apply wp_bind.
  assert (top F ≠ []) as Htop.
  { intros Hn%(f_equal length). rewrite length_top_leaves in Hn. pose proof (width_pos (length F) c).
    destruct F; [done|]. cbn [length] in *. lia. }
  eapply wp_mono; [apply (wp_pora_commit _ _ _ _ (Z.to_nat s) Hp Htop Hs)|]. intros [] m1 (b & Hp1 & Hm1).
  assert (last_ok (chunk_depth c (length F)) (last_of F) m1) as Hl1 by (unfold last_ok; by rewrite Hm1).
  eapply wp_mono; [apply (wp_last_commit _ _ _ (Z.to_nat s) Hl1)|]. intros [] m2 [Hl2 Hm2].
  exists b. split; [done|done| |done]. unfold pora_ok. by rewrite Hm2.
Qed.

End trees.
