(* ===== verification/LogInv.v ===== *)
(** What the log manager holds: the leaves of the flow in its trees, the bytes
    of the flow and the transactions in its stores.

    The flow is [LF]: the leaves of every batch, those of the first [n] sectors
    being final.  The stores share their data bases; an operation of one leaves
    the other as it is because it writes other columns. *)

From stdpp Require Import sorting list_numbers.
From S2P Require Import Prelude HashElement Ssz SszFacts MerkleSpec MerkleProof MerkleProofComplete NodeStore AppendMerkle.
From S2P Require Import TreeRules Recompute TreeOps TreeFill TreeHistory TreeRefine TreeSpec TreeTiles.
From S2P Require Import ProofConvert ChunkRoots Bytes FlowDb Shard MerkleLight SharedTypes Seal ChunkData ChunkDataFacts.
From S2P Require Import ChunkDataInsert SealInfo EntryBatch EntryBatchFacts Serde BatchRoot BatchTheorems.
From S2P Require Import BatchStored FlowStore FlowStoreFacts FlowAppend FlowTruncate FlowSeal FlowReach.
From S2P Require Import TxStore TxStoreFacts LogManager DbFrame LogTrees.
Local Open Scope Z_scope.

(** ** Leaves of the flow *)

Section seg.
Context `{Keccak}.
Implicit Types (LF : Z → list OptionalHash).

Definition leaf_of LF (i : nat) : OptionalHash :=
  match LF (Z.of_nat (i / 2 ^ 10)) !! (i `mod` 2 ^ 10)%nat with Some x => x | None => None end.

(** [n] leaves from [s] on. *)
Definition seg LF (s n : nat) : list OptionalHash := leaf_of LF <$> List.seq s n.

Lemma length_seg LF s n : length (seg LF s n) = n.
Proof. unfold seg. by rewrite length_fmap, length_seq. Qed.

Lemma seg_app LF s n m : seg LF s (n + m) = seg LF s n ++ seg LF (s + n) m.
Proof. unfold seg. by rewrite seq_app, fmap_app. Qed.

Lemma lookup_seg LF s n i : (i < n)%nat → seg LF s n !! i = Some (leaf_of LF (s + i)).
Proof. intros Hi. unfold seg. by rewrite list_lookup_fmap, lookup_seq_lt. Qed.

Lemma take_seg LF s n i : (i ≤ n)%nat → take i (seg LF s n) = seg LF s i.
Proof. intros Hi. unfold seg. rewrite <-fmap_take, take_seq. by rewrite Nat.min_l. Qed.

Lemma drop_seg LF s n i : drop i (seg LF s n) = seg LF (s + i) (n - i).
Proof. unfold seg. by rewrite <-fmap_drop, drop_seq. Qed.

Lemma last_of_seg LF n : last_of 10 (seg LF 0 n) = seg LF (last_start 10 n) (n - last_start 10 n).
Proof. unfold last_of. by rewrite length_seg, drop_seg. Qed.

Definition sectors_ok (n : nat) : Prop := Z.of_nat n < 2 ^ 53.

Definition flow_leaves_ok LF : Prop := ∀ b, batch_index_ok b → leaves_ok b (LF b).

Lemma chunk_index_ok n : sectors_ok n → batch_index_ok (Z.of_nat (n / 2 ^ 10)).
Proof.
  unfold sectors_ok, batch_index_ok. intros Hn. split; [lia|].
  enough (n / 2 ^ 10 ≤ n)%nat by lia. apply Nat.Div0.div_le_upper_bound. nia.
Qed.

Lemma leaf_of_known LF i : flow_leaves_ok LF → sectors_ok i → leaf_of LF i ≠ None.
Proof.
  intros HL Hi. destruct (HL _ (chunk_index_ok i Hi)) as [Hlen Hnn _]. unfold leaf_of.
  destruct (LF _ !! _) as [x|] eqn:Hx; [exact (Forall_lookup_1 _ _ _ _ Hnn Hx)|]. exfalso.
  apply lookup_ge_None in Hx. pose proof (Nat.mod_upper_bound i (2 ^ 10) ltac:(done)) as Hm.
  apply (Nat.lt_irrefl (i `mod` 2 ^ 10)). eapply Nat.lt_le_trans; [exact Hm|]. etrans; [|exact Hx].
  exact (Nat.eq_le_incl _ _ (eq_sym Hlen)).
Qed.

Lemma seg_known LF s n : flow_leaves_ok LF → sectors_ok (s + n) → Forall (λ x, x ≠ None) (seg LF s n).
Proof.
  intros HL Hn. apply Forall_lookup. intros i x Hx. pose proof (lookup_lt_Some _ _ _ Hx) as Hi. rewrite length_seg in Hi.
  rewrite lookup_seg in Hx by done. injection Hx as <-. apply leaf_of_known; [done|]. unfold sectors_ok in *. lia.
Qed.

(** The leaves of a whole batch. *)
Lemma seg_batch LF (b : nat) :
  flow_leaves_ok LF → batch_index_ok (Z.of_nat b) → seg LF (b * 2 ^ 10) (2 ^ 10) = LF (Z.of_nat b).
Proof.
  intros HL Hb. destruct (HL _ Hb) as [Hlen _ _].
  apply (list_eq_same_length (A := OptionalHash) _ _ (2 ^ 10)%nat); [exact Hlen|apply length_seg|].
  intros i x y Hi Hx Hy. rewrite lookup_seg in Hx by done. injection Hx as <-. unfold leaf_of.
  rewrite Nat.add_comm, Nat.Div0.mod_add, Nat.mod_small, Nat.div_add, Nat.div_small by (done || lia).
  rewrite Nat.add_0_l. by rewrite Hy.
Qed.

(** What the flow says of the sectors of an array. *)
Lemma leaf_of_array LF i : sectors_ok i → leaf_of LF i ≠ None →
  LF (Z.of_nat i / 1024) !! Z.to_nat (Z.of_nat i `mod` 1024) = Some (leaf_of LF i).
Proof.
  intros Hi Hn. unfold leaf_of in *. assert (Z.of_nat (2 ^ 10) = 1024) as Hc by done.
  rewrite <-Hc, <-Nat2Z.inj_div, <-Nat2Z.inj_mod, Nat2Z.id. by destruct (LF _ !! _).
Qed.

End seg.

(** ** The stores *)

Section stores.
Context `{Keccak, Bitmap64 B, !Bitmap64Laws B, KeyValueDBLaws KV, !KeyValueIter KV, !KeyValueIterLaws KV}.
Context {NMt NM : Type} `{!NodeStore NMt OptionalHash, !NodeStoreLaws NMt OptionalHash}.
Context `{!NodeStore NM OptionalHash, !NodeStoreLaws NM OptionalHash}.
Context (miner : H256).
Local Abbreviation manager := (LogManager KV (MerkleManager NMt NM)).
Implicit Types (GS : Z → Z → SealContextInfo) (LF : Z → list OptionalHash) (f : Z → option Z) (log : tx_log).
Implicit Types (self : manager) (batch : EntryBatch B).

(** From batch [b0] on, no batch has subtrees. *)
Definition no_subtrees (b0 : Z) (s : FlowStore KV) : Prop :=
  ∀ b batch, b0 ≤ b → batch_index_ok b → get_entry_batch (data_db s) b = Ok (Some batch) →
    get_subtree_list (eb_data batch) = [].

Definition flow_part GS LF f (b0 : Z) (s : FlowStore KV) : Prop :=
  flow_ok (B := B) miner GS LF f s ∧ tasks_ok (B := B) s f ∧ no_subtrees b0 s.

Record stores_ok GS LF f log (b0 : Z) self : Prop := {
  sk_tx : store_ok log (tx_store self);
  sk_flow : flow_part GS LF f b0 (flow_store self);
}.

Lemma stores_ok_merkle GS LF f log b0 self m : stores_ok GS LF f log b0 self → stores_ok GS LF f log b0 (set_merkle m self).
Proof. intros [? ?]. by split. Qed.

(** *** Other columns *)

Lemma store_ok_frame log (s s' : TransactionStore KV) :
  store_ok log s → next_tx_seq s' = next_tx_seq s →
  kv_keeps [COL_PAD_DATA_LIST] (flow_kvdb s) (flow_kvdb s') →
  kv_keeps [COL_ENTRY_BATCH; COL_PAD_DATA_SYNC_HEIGH] (data_kvdb s) (data_kvdb s') → store_ok log s'.
Proof.
  intros Hok Hn [Hf Hfw] [Hd Hdw]. destruct Hok as [? ? ? ? Htx Hnext Hidx Hst ? ?].
  assert (∀ c k, c ∈ [COL_TX; COL_TX_DATA_ROOT_INDEX] → kv_map (flow_kvdb s') !! (c, k) = kv_map (flow_kvdb s) !! (c, k)) as Hf'.
  { intros c k Hc. apply Hf. set_unfold. unfold COL_TX, COL_TX_DATA_ROOT_INDEX, COL_PAD_DATA_LIST in *. lia. }
  split; try done.
  - by apply Hfw.
  - by apply Hdw.
  - by rewrite Hn.
  - intros i tx Hi. rewrite Hf' by set_solver. by apply Htx.
  - rewrite Hf' by set_solver. done.
  - intros r. rewrite Hf' by set_solver. apply Hidx.
  - intros i Hi. rewrite Hd; [by apply Hst|]. set_unfold. unfold COL_TX_COMPLETED, COL_ENTRY_BATCH, COL_PAD_DATA_SYNC_HEIGH. lia.
Qed.

Lemma get_batch_frame (d d' : KV) cols b :
  kv_keeps cols d d' → COL_ENTRY_BATCH ∉ cols → get_entry_batch (B := B) d' b = get_entry_batch d b.
Proof. intros [Hd _] Hc. unfold get_entry_batch. rewrite !kv_get_map. by rewrite Hd. Qed.

Lemma flow_part_frame GS LF f b0 (s s' : FlowStore KV) cols :
  flow_part GS LF f b0 s → kv_keeps cols (data_db s) (data_db s') → COL_ENTRY_BATCH ∉ cols →
  seal_manager s' = seal_manager s → fs_batch_size s' = fs_batch_size s → fs_shard_config s' = fs_shard_config s →
  flow_part GS LF f b0 s'.
Proof.
  intros ([Hsz Hdb Hsh] & Htk & Hns) Hd Hc Hm Hb Hcfg.
  assert (∀ b, get_entry_batch (B := B) (data_db s') b = get_entry_batch (data_db s) b) as Hget by (intros b; by eapply get_batch_frame).
  split_and!.
  - split; [congruence| |congruence]. destruct Hdb as [Hw HG HL Hk Hbt]. split; [|done|done| |].
    + by apply Hd.
    + intros k. rewrite (proj1 Hd) by done. apply Hk.
    + intros b Hbo. rewrite Hget. by apply Hbt.
  - intros idx v Hv. unfold tasks in Hv. rewrite Hm in Hv. destruct (Htk idx v Hv) as (? & ? & Hex & ?).
    split_and!; [done|done| |done]. by rewrite Hget.
  - intros b batch Hb0 Hbo. rewrite Hget. by apply Hns.
Qed.

(** *** Operations of the stores *)

(** An operation of the flow store. *)
Lemma wp_on_flow {A} GS LF f GS' LF' f' log b0 b0' self (m : M (FlowStore KV) A) (Q : A → FlowStore KV → Prop) :
  stores_ok GS LF f log b0 self → keeps flow_frame m →
  wp m (λ a s', flow_part GS' LF' f' b0' s' ∧ Q a s') (flow_store self) →
  wp (on_flow m) (λ a self', stores_ok GS' LF' f' log b0' self' ∧ Q a (flow_store self') ∧
    lm_merkle self' = lm_merkle self ∧ lm_shard_config self' = lm_shard_config self) self.
Proof.
  intros [Htx _] Hk Hwp. apply wp_zoom. eapply wp_mono; [apply (wp_keeps _ _ _ _ Hk Hwp)|].
  intros a s' ([Hfp HQ] & Hf & Hd & Hb & Hc). split_and!; [split| |done|done].
  - by eapply store_ok_frame.
  - by destruct s'.
  - by destruct s'.
Qed.

(** An operation of the transaction store. *)
Lemma wp_on_tx {A} GS LF f log log' b0 self (m : M (TransactionStore KV) A) (Q : A → Prop) :
  stores_ok GS LF f log b0 self → keeps tx_frame m →
  wp m (λ a s', store_ok log' s' ∧ Q a) (tx_store self) →
  wp (on_tx m) (λ a self', stores_ok GS LF f log' b0 self' ∧ Q a ∧
    lm_merkle self' = lm_merkle self ∧ lm_shard_config self' = lm_shard_config self) self.
Proof.
  intros [_ Hfp] Hk Hwp. apply wp_zoom. eapply wp_mono; [apply (wp_keeps _ _ _ _ Hk Hwp)|].
  intros a s' ([Hok HQ] & Hf & Hd). split_and!; [split|done|done|done].
  - by destruct s'.
  - eapply flow_part_frame; [exact Hfp|exact Hd| |done..]. set_unfold. unfold COL_ENTRY_BATCH, COL_TX_COMPLETED. lia.
Qed.

(** *** Appending data *)

Lemma wp_flow_append GS LF f log b0 self arr now :
  stores_ok GS LF f log b0 self → array_ok LF arr → insertable (lm_shard_config self) arr f →
  wp (on_flow (FlowStore.append_entries (B := B) (NM := NM) arr now))
    (λ roots self', stores_ok GS LF (put_flow (lm_shard_config self) arr f) log b0 self' ∧
       (StronglySorted Z.lt roots.*1 ∧
        ∀ b r, (b, r) ∈ roots ↔ touched arr b ∧ in_range (lm_shard_config self) b = true ∧
          ∃ batch : EntryBatch B, get_entry_batch (lm_data_db self') b = Ok (Some batch) ∧ root_of LF b batch r) ∧
       lm_merkle self' = lm_merkle self ∧ lm_shard_config self' = lm_shard_config self) self.
Proof.
  intros Hok Hao Hins. pose proof Hok as [_ (Hfo & Htk & Hns)].
  apply (wp_on_flow GS LF f GS LF _ log b0 b0 self _ (λ roots s', StronglySorted Z.lt roots.*1 ∧
        ∀ b r, (b, r) ∈ roots ↔ touched arr b ∧ in_range (lm_shard_config self) b = true ∧
          ∃ batch : EntryBatch B, get_entry_batch (data_db s') b = Ok (Some batch) ∧ root_of LF b batch r)); [done|apply append_entries_frame|].
  eapply wp_mono; [by apply (append_entries_spec miner GS LF f arr now (flow_store self))|].
  intros roots s' (Hfo' & Htk' & _ & Hsort & Hin & Hfew). split; [|done]. split_and!; [done|done|].
  intros b batch Hb0 Hbo Hget. destruct (Hfew b batch Hbo Hget) as (o & Ho & Hsub). unfold fewer_subtrees in Hsub.
  assert (get_subtree_list (eb_data (default (entry_batch_new b) o)) = []) as Hnil.
  { destruct o as [old|]; [|done]. by apply (Hns b old). }
  rewrite Hnil in Hsub. by apply sublist_nil_r in Hsub.
Qed.

(** *** Inserting the subtrees of a complete chunk *)

Lemma wp_flow_subtrees GS LF f log self b subs :
  stores_ok GS LF f log b self → batch_index_ok b → placeable (LF b) (Z.of_nat (given b)) subs →
  wp (on_flow (insert_subtree_list_for_batch (B := B) b subs))
    (λ _ self', stores_ok GS LF f log (b + 1) self' ∧ True ∧
       lm_merkle self' = lm_merkle self ∧ lm_shard_config self' = lm_shard_config self) self.
Proof.
  intros Hok Hb Hs. pose proof Hok as [_ (Hfo & Htk & Hns)].
  apply (wp_on_flow GS LF f GS LF f log b (b + 1) self _ (λ _ _, True)); [done|apply insert_subtree_frame|].
  eapply wp_mono; [by apply (insert_subtree_list_spec miner GS LF f (flow_store self) b subs)|].
  intros [] s' (Hfo' & Htk' & _ & Hother). split; [|done]. split_and!; [done|done|].
  intros b' batch Hb' Hbo. rewrite Hother by (done || lia). apply Hns; [lia|done].
Qed.

Lemma wp_flow_pad_data GS LF f log b0 self l seq :
  stores_ok GS LF f log b0 self →
  wp (on_flow (put_pad_data l seq))
    (λ _ self', stores_ok GS LF f log b0 self' ∧ True ∧ lm_merkle self' = lm_merkle self ∧ lm_shard_config self' = lm_shard_config self) self.
Proof.
  intros Hok. pose proof Hok as [Htx Hfp].
  apply (wp_on_flow GS LF f GS LF f log b0 b0 self _ (λ _ _, True)); [done|apply put_pad_data_frame|].
  apply wp_zoom. apply wp_kv_write; [apply Htx|]. intros kv _ _. split; [|done].
  eapply flow_part_frame with (cols := []); [exact Hfp|reflexivity|set_solver|done..].
Qed.

End stores.

(** * The log manager appends subtrees: the trees have the leaves of the flow
    after each, and the subtrees of a chunk go to its batch when it is
    complete. *)

Section log_append.
Context `{Keccak, Bitmap64 B, !Bitmap64Laws B, KeyValueDBLaws KV, !KeyValueIter KV, !KeyValueIterLaws KV}.
Context {NMt NM : Type} `{!NodeStore NMt OptionalHash, !NodeStoreLaws NMt OptionalHash}.
Context `{!NodeStore NM OptionalHash, !NodeStoreLaws NM OptionalHash}.
Context (miner : H256).
Local Abbreviation manager := (LogManager KV (MerkleManager NMt NM)).
Implicit Types (GS : Z → Z → SealContextInfo) (LF : Z → list OptionalHash) (f : Z → option Z) (log : tx_log).
Implicit Types (self : manager) (vs : gmap nat (list OptionalHash * bool)).
Implicit Types (L : list (list OptionalHash)) (X : list OptionalHash) (rts : list (nat * OptionalHash)).

(** ** Subtrees with their places *)

Lemma placed_subtrees_spec d X L (s : nat) rts (from : Z) :
  layers_ok 0 d X L → placed L s rts (length X) → length X = 1024%nat → 0 ≤ from ≤ Z.of_nat s →
  ∃ subs, placed_subtrees (Z.of_nat s) rts = Ok subs ∧ placeable X from subs.
Proof.
  intros Hok. revert s from. induction rts as [|[h x] rts IH]; intros s from Hp Hlen Hf.
  { exists []. cbn in Hp. split; [done|]. split; [done|]. cbn. lia. }
  pose proof Hp as (_ & _ & (l & _ & _ & Hx) & _).
  destruct (placed_subtree _ _ _ _ _ _ _ _ _ Hok Hp) as (Hh & Hs & He & Hst & Hp'); [done|].
  rewrite Hlen in He. assert (2 ^ (h - 1) ≤ 2 ^ 10)%nat as Hpow by (change (2 ^ 10)%nat with 1024%nat; lia).
  apply Nat.pow_le_mono_r_iff in Hpow; [|lia].
  destruct x as [r|]; [|done]. cbn [placed_subtrees expect]. rewrite bind_Ok.
  assert (num_entries_of_node (Z.of_nat h) = Z.of_nat (2 ^ (h - 1))) as Hn.
  { unfold num_entries_of_node. rewrite Z.mod_small, Nat2Z.inj_pow by lia. f_equal. lia. }
  destruct (IH _ (if bool_decide (r ≠ h256_zero) then Z.of_nat (s + 2 ^ (h - 1)) else from) Hp' Hlen) as (subs & Hsubs & [Hb Hat]).
  { case_bool_decide; lia. }
  rewrite Hn, <-Nat2Z.inj_add, Hsubs, bind_Ok. eexists. split; [done|].
  assert (2 ^ (Z.of_nat h - 1) = Z.of_nat (2 ^ (h - 1))) as Hpw by (rewrite Nat2Z.inj_pow; f_equal; lia).
  split.
  - constructor; [|done]. cbn. rewrite Hpw. lia.
  - rewrite filter_cons. cbn [snd]. destruct (decide (r ≠ h256_zero)) as [Hr|Hr];
      [rewrite bool_decide_true in Hat by done|by rewrite bool_decide_false in Hat by done].
    rewrite fmap_cons. cbn [subtree_arg subtrees_at st_start_sector subtree_height st_root fst snd].
    rewrite Hpw. split_and!; [lia|lia|lia| | |].
    + rewrite <-Nat2Z.inj_mod. by rewrite Hs.
    + rewrite !Nat2Z.id. replace (Z.to_nat (Z.of_nat h - 1)) with (h - 1)%nat by lia. exact Hst.
    + change (end_sector _) with (Z.of_nat s + num_entries_of_node (Z.of_nat h)). by rewrite Hn, <-Nat2Z.inj_add.
Qed.

(** The subtrees of a whole batch. *)
Lemma batch_subtrees b X d L rts :
  leaves_ok b X → layers_ok 0 d X L → placed L 0 rts (length X) → (b = 0 → ∃ x, head rts = Some (1%nat, x)) →
  ∃ subs, placed_subtrees 0 rts = Ok subs ∧ placeable X (Z.of_nat (given b)) subs.
Proof.
  intros HX Hok Hp Hfirst. pose proof (lo_len _ _ HX) as Hlen. unfold given. destruct (Z.eqb_spec b 0) as [->|Hb].
  - destruct (Hfirst eq_refl) as [x Hx]. destruct rts as [|[h y] rts]; [done|]. injection Hx as -> ->.
    destruct (placed_subtree _ _ _ _ _ _ _ _ _ Hok Hp) as (_ & _ & _ & Hst & Hp'); [done|].
    assert (x = Some h256_zero) as ->.
    { pose proof (so_root _ _ _ _ Hst) as Hr. cbn [Nat.sub ideal] in Hr.
      rewrite lookup_take_lt, drop_0 in Hr by (cbn; lia). pose proof (lo_given _ _ HX 0%nat ltac:(cbn; lia)) as Hg.
      exact (Some_inj _ _ (eq_trans (eq_sym Hr) Hg)). }
    destruct (placed_subtrees_spec d X L 1 rts 1 Hok Hp' Hlen ltac:(lia)) as (subs & Hs & Hb & Hat).
    cbn [placed_subtrees expect]. rewrite bind_Ok. change (0 + num_entries_of_node (Z.of_nat 1)) with (Z.of_nat 1).
    rewrite Hs, bind_Ok. eexists. split; [done|]. split; [by constructor|].
    by rewrite filter_cons_False by (cbn; auto).
  - exact (placed_subtrees_spec d X L 0 rts 0 Hok Hp Hlen ltac:(lia)).
Qed.

(** ** Completing a chunk *)

Lemma last_chunk_leaves LF (n g : nat) :
  flow_leaves_ok LF → sectors_ok n → (last_start 10 n + 2 ^ 10 = n + g)%nat →
  last_of 10 (seg LF 0 n) ++ seg LF n g = LF (Z.of_nat (n / 2 ^ 10)).
Proof.
  intros HL Hn Hg. rewrite last_of_seg. pose proof (last_start_le 10 n) as [Hle _].
  transitivity (seg LF (last_start 10 n) (n - last_start 10 n) ++ seg LF (last_start 10 n + (n - last_start 10 n)) g).
  { do 2 f_equal. lia. }
  rewrite <-seg_app.
  replace (n - last_start 10 n + g)%nat with (2 ^ 10)%nat by lia. unfold last_start.
  by apply seg_batch; [|apply chunk_index_ok].
Qed.

Lemma wp_complete GS LF f log (n g N : nat) vs self :
  stores_ok miner GS LF f log (Z.of_nat (n / 2 ^ 10)) self → flow_leaves_ok LF → sectors_ok n →
  (last_start 10 n + 2 ^ 10 = n + g)%nat →
  trees_pending (seg LF 0 N) (seg LF 0 n) (seg LF n g) vs (lm_merkle self) →
  wp (complete_last_chunk_merkle (B := B) (Z.of_nat (n / 2 ^ 10)))
    (λ _ self', trees_ok (seg LF 0 N) vs (lm_merkle self') ∧
       stores_ok miner GS LF f log (Z.of_nat (n / 2 ^ 10) + 1) self' ∧ lm_shard_config self' = lm_shard_config self) self.
Proof.
  intros Hst HL Hn Hg Hp. pose proof (chunk_index_ok n Hn) as Hb. pose proof (HL _ Hb) as Hlo.
  pose proof (tp_last _ _ _ _ _ Hp) as Hlast. rewrite (last_chunk_leaves LF n g HL Hn Hg), length_seg in Hlast.
  destruct (last_subtrees _ _ _ Hlast) as (rts & L & Hrts & Hpl & Hok & Hfirst).
  { pose proof (lo_len _ _ Hlo) as Hlen. intros Hnil. by rewrite Hnil in Hlen. }
  destruct (batch_subtrees _ _ _ _ _ Hlo Hok Hpl) as (subs & Hsubs & Hplace).
  { intros Hz. apply Hfirst. unfold chunk_depth. rewrite bool_decide_true; [done|].
    apply Nat.div_small_iff; [done|]. lia. }
  destruct (complete_last _ _ _ _ _ Hp) as (t & Ht & Htrees).
  unfold complete_last_chunk_merkle. apply wp_bind. eapply wp_gets_ok; [exact Hrts|].
  apply wp_bind. eapply wp_lift; [exact Ht|]. apply wp_bind, wp_zoom, wp_modify.
  apply wp_bind. eapply wp_lift; [exact Hsubs|].
  eapply wp_mono; [apply (wp_flow_subtrees miner GS LF f log); [by apply stores_ok_merkle|done|exact Hplace]|].
  intros [] self' (Hst' & _ & Hm & Hc). split_and!; [|done|done]. by rewrite Hm.
Qed.

(** ** One subtree *)

Lemma aligned_sub (a b k : nat) : (a `mod` 2 ^ k = 0 → b `mod` 2 ^ k = 0 → (a - b) `mod` 2 ^ k = 0)%nat.
Proof.
  intros [p ->]%Nat.Lcm0.mod_divide [q ->]%Nat.Lcm0.mod_divide. rewrite <-Nat.mul_sub_distr_r. apply Nat.Div0.mod_mul.
Qed.

(** The trees hold the first [n] sectors, the stores the bytes [f]. *)
Definition holds_flow GS LF f log (n : nat) vs self : Prop :=
  trees_ok (seg LF 0 n) vs (lm_merkle self) ∧ stores_ok miner GS LF f log (Z.of_nat (n / 2 ^ 10)) self.

Lemma stores_ok_later GS LF f log b0 b1 self :
  stores_ok miner GS LF f log b0 self → b0 ≤ b1 → stores_ok miner GS LF f log b1 self.
Proof. intros [Htx (Hf & Ht & Hn)] Hle. split; [done|]. split_and!; [done..|]. intros b batch Hb. apply Hn. lia. Qed.

(** An operation of the trees. *)
Lemma wp_on_merkle {A} GS LF f log b0 self (m : M (MerkleManager NMt NM) A) (Q : A → MerkleManager NMt NM → Prop) :
  stores_ok miner GS LF f log b0 self → wp m Q (lm_merkle self) →
  wp (on_merkle m) (λ a self', Q a (lm_merkle self') ∧ stores_ok miner GS LF f log b0 self' ∧
    lm_shard_config self' = lm_shard_config self) self.
Proof.
  intros Hst Hwp. apply wp_zoom. eapply wp_mono; [exact Hwp|]. intros a m' HQ.
  split_and!; [done| |done]. by apply stores_ok_merkle.
Qed.

(** What [append_one_subtree] appends at [n]. *)
Definition node_at LF (n : nat) (dr : Z * H256) : Prop :=
  1 ≤ dr.1 ∧ (n `mod` 2 ^ (Z.to_nat dr.1 - 1) = 0)%nat ∧ sectors_ok (n + 2 ^ (Z.to_nat dr.1 - 1)) ∧
  subtree_of 0 (Z.to_nat dr.1 - 1) (Some dr.2) (seg LF n (2 ^ (Z.to_nat dr.1 - 1))).

(** A subtree that fits in the last chunk. *)
Lemma wp_append_inside LF (n k : nat) (r : H256) vs (m : MerkleManager NMt NM) :
  trees_ok (seg LF 0 n) vs m → (n `mod` 2 ^ k = 0)%nat →
  subtree_of 0 k (Some r) (seg LF n (2 ^ k)) → (n - last_start 10 n + 2 ^ k ≤ 2 ^ 10)%nat →
  wp (on_last (append_subtree (k + 1) (Some r)))
    (λ _ m', last_ok (chunk_depth 10 n) (last_of 10 (seg LF 0 n) ++ seg LF n (2 ^ k)) m' ∧
       pora_chunks_merkle m' = pora_chunks_merkle m) m.
Proof.
  intros [Hk Hne Hp Hl] Hm Hst Hfit. rewrite length_seg in Hl.
  apply (wp_last_subtree _ _ _ k (Some r) _ Hl); [|done].
  rewrite length_last_of, length_seg. apply aligned_sub; [exact Hm|]. eapply aligned_le; [apply last_start_mod|].
  destruct (decide (k ≤ 10)%nat) as [|Hgt]; [done|]. exfalso.
  assert (2 ^ 11 ≤ 2 ^ k)%nat by (apply Nat.pow_le_mono_r; lia). change (2 ^ 11)%nat with (2 * 2 ^ 10)%nat in *.
  pose proof (pow2_pos 10). lia.
Qed.

(** The tree of the chunks follows. *)
Lemma wp_append_follow LF (n g : nat) vs (m m1 : MerkleManager NMt NM) :
  flow_leaves_ok LF → sectors_ok (n + g) → trees_ok (seg LF 0 n) vs m → (0 < g)%nat →
  (n - last_start 10 n + g ≤ 2 ^ 10)%nat → pora_chunks_merkle m1 = pora_chunks_merkle m →
  last_ok (chunk_depth 10 n) (last_of 10 (seg LF 0 n) ++ seg LF n g) m1 →
  wp (if Z.of_nat (n - last_start 10 n + g) =? Z.of_nat g
      then r ← gets_ok (λ m, root (last_chunk_merkle m)); on_pora (append_subtree 1 r) else update_pora)
    (λ _ m', trees_grown (seg LF 0 n) (seg LF n g) vs m') m1.
Proof.
  intros HL Hsec [Hk Hne Hp _] Hg Hfit Hp1 Hl1. pose proof (length_seg LF 0 n) as HF. pose proof (length_seg LF n g) as HG.
  assert (Forall (λ x, x ≠ None) (seg LF 0 n ++ seg LF n g)) as HFG.
  { rewrite <-(Nat.add_0_l n) at 2. rewrite <-seg_app. by apply seg_known. }
  revert Hk Hne Hp Hl1 HFG HF HG. generalize (seg LF 0 n) as F, (seg LF n g) as G. intros F G Hk Hne Hp Hl1 HFG HF HG.
  assert (length (last_of 10 F) = n - last_start 10 n)%nat as Hlast by by rewrite length_last_of, HF.
  assert (∀ o, (o → last_of 10 F ≠ []) → pora_ok (top_leaves 10 F) o vs m1) as Hpo.
  { intros o Ho. unfold pora_ok. rewrite Hp1. by eapply pora_ok_weaken, Hp. }
  rewrite <-HF in Hl1. destruct (Z.eqb_spec (Z.of_nat (n - last_start 10 n + g)) (Z.of_nat g)) as [Heq|Hneq].
  - assert (last_of 10 F = []) as Hnil by (apply nil_length_inv; lia). rewrite Hnil in Hl1.
    eapply (wp_grow_new _ _ _ _ False); [done..|by apply Hpo| | |done].
    + intros ->. cbn in HG. lia.
    + lia.
  - assert (last_of 10 F ≠ []) as Hnn by (intros Hnil; rewrite Hnil in Hlast; cbn in Hlast; lia).
    eapply wp_grow_update; [done|by apply Hpo|done|done|lia].
Qed.

Lemma last_leaves_seg LF n vs (m : MerkleManager NMt NM) :
  trees_ok (seg LF 0 n) vs m → last_leaves m = Ok (Z.of_nat (n - last_start 10 n)).
Proof. intros [_ _ _ Hl]. by rewrite (last_ok_leaves _ _ _ Hl), length_last_of, length_seg. Qed.

Lemma wrap64_pred (n : nat) : (0 < n)%nat → Z.of_nat n < 2 ^ 64 → wrap64 (Z.of_nat n - 1) = Z.of_nat (n - 1).
Proof. intros. rewrite wrap64_small; lia. Qed.

(** The last chunk has grown by [g], and is completed if it is full. *)
Lemma wp_finish_chunk GS LF f log (n g : nat) vs self :
  stores_ok miner GS LF f log (Z.of_nat (n / 2 ^ 10)) self → flow_leaves_ok LF → sectors_ok (n + g) →
  (n - last_start 10 n + g ≤ 2 ^ 10)%nat → trees_grown (seg LF 0 n) (seg LF n g) vs (lm_merkle self) →
  wp (when (Z.of_nat (n - last_start 10 n + g) =? PORA_CHUNK_SIZE)
        (p ← gets_ok (λ self, pora_leaves (lm_merkle self)); complete_last_chunk_merkle (B := B) (wrap64 (p - 1))))
    (λ _ self', holds_flow GS LF f log (n + g) vs self' ∧ lm_shard_config self' = lm_shard_config self) self.
Proof.
  intros Hst HL Hsec Hfit Hg. pose proof (last_start_le 10 n) as Hls. assert (Z.of_nat (2 ^ 10) = PORA_CHUNK_SIZE) as Hc by done.
  assert (n / 2 ^ 10 * 2 ^ 10 = last_start 10 n)%nat as Hdiv by done.
  assert (seg LF 0 n ++ seg LF n g = seg LF 0 (n + g)) as Happ by by rewrite seg_app.
  rewrite <-Hc. destruct (Z.eqb_spec (Z.of_nat (n - last_start 10 n + g)) (Z.of_nat (2 ^ 10))) as [Heq|Hneq]; cbn [when].
  - assert (last_start 10 n + 2 ^ 10 = n + g)%nat as Hfull by lia.
    assert (n + g = (n / 2 ^ 10 + 1) * 2 ^ 10)%nat as Hng by (rewrite Nat.mul_add_distr_r, Nat.mul_1_l; lia).
    assert ((n + g) / 2 ^ 10 = n / 2 ^ 10 + 1)%nat as Hq by (rewrite Hng; by apply Nat.div_mul).
    apply grown_pending in Hg; [|rewrite length_last_of, !length_seg; lia]. rewrite Happ in Hg.
    apply wp_bind. eapply wp_gets_ok; [apply (pora_ok_leaves _ _ _ _ (tp_pora _ _ _ _ _ Hg))|].
    rewrite length_top_leaves, length_seg, width_aligned by (rewrite Hng; apply Nat.Div0.mod_mul).
    rewrite Hq, wrap64_pred, Nat.add_sub; [|lia|unfold sectors_ok in Hsec; nia].
    eapply wp_mono; [apply (wp_complete GS LF f log n g (n + g) vs self Hst HL); [unfold sectors_ok in *; lia|done|done]|].
    intros [] self' (Ht & Hs & Hcfg). split; [|done]. split; [done|]. rewrite Hq. by rewrite Nat2Z.inj_add.
  - apply wp_ret. split; [|done]. split.
    + rewrite <-Happ. apply grown_within; [done|]. rewrite length_last_of, !length_seg. lia.
    + eapply stores_ok_later; [done|]. apply inj_le, Nat.Div0.div_le_mono. lia.
Qed.

(** [append_one_subtree] *)
Lemma wp_append_one GS LF f log (n : nat) vs self dr :
  holds_flow GS LF f log n vs self → flow_leaves_ok LF → node_at LF n dr →
  wp (append_one_subtree (B := B) dr)
    (λ _ self', holds_flow GS LF f log (n + 2 ^ (Z.to_nat dr.1 - 1)) vs self' ∧
       lm_shard_config self' = lm_shard_config self) self.
Proof.
  destruct dr as [d r]. intros [Ht Hst] HL (Hd & Hm & Hsec & Hsub). cbn [fst snd] in *.
  set (k := (Z.to_nat d - 1)%nat) in *. assert (Z.to_nat d = k + 1)%nat as Hdk by lia.
  assert (2 ^ k < 2 ^ 53)%nat as Hpow53.
  { apply Nat2Z.inj_lt. rewrite (Nat2Z.inj_pow 2 53). unfold sectors_ok in Hsec. change (Z.of_nat 2 ^ Z.of_nat 53) with (2 ^ 53). lia. }
  apply Nat.pow_lt_mono_r_iff in Hpow53; [|lia].
  assert (num_entries_of_node d = Z.of_nat (2 ^ k)) as Hn.
  { unfold num_entries_of_node. rewrite Z.mod_small, Nat2Z.inj_pow by lia. f_equal. lia. }
  unfold append_one_subtree. rewrite Hn, Hdk. apply wp_bind. eapply wp_gets_ok; [by eapply last_leaves_seg|].
  pose proof (last_start_le 10 n) as Hls. pose proof (pow2_pos k) as Hpos. rewrite <-Nat2Z.inj_add.
  assert (Z.of_nat (2 ^ 10) = PORA_CHUNK_SIZE) as Hc by done. rewrite <-Hc.
  destruct (Z.leb_spec (Z.of_nat (n - last_start 10 n + 2 ^ k)) (Z.of_nat (2 ^ 10))) as [Hfit|Hover].
  - apply Nat2Z.inj_le in Hfit. apply wp_bind.
    eapply wp_mono; [exact (wp_on_merkle GS LF f log _ _ _ _ Hst (wp_append_inside LF n k r vs _ Ht Hm Hsub Hfit))|].
    intros [] s1 ([Hl1 Hp1] & Hst1 & Hc1). apply wp_bind. eapply wp_gets_ok; [apply (last_ok_leaves _ _ _ Hl1)|].
    rewrite length_app, length_last_of, !length_seg. apply wp_bind.
    eapply wp_mono; [exact (wp_on_merkle GS LF f log _ _ _ _ Hst1 (wp_append_follow LF n (2 ^ k) vs _ _ HL Hsec Ht Hpos Hfit Hp1 Hl1))|].
    intros [] s2 (Hg & Hst2 & Hc2). eapply wp_mono; [by apply (wp_finish_chunk GS LF f log n (2 ^ k) vs)|].
    intros [] s3 [Hh Hc3]. split; [done|congruence].
  - apply Nat2Z.inj_lt in Hover.
    assert (10 < k)%nat as Hk.
    { destruct (decide (10 < k)%nat) as [|Hle]; [done|]. exfalso.
      assert ((n - last_start 10 n) `mod` 2 ^ k = 0)%nat as [q Hq]%Nat.Lcm0.mod_divide
        by (apply aligned_sub; [done|]; eapply aligned_le; [apply last_start_mod|lia]).
      assert (2 ^ 10 = 2 ^ (10 - k) * 2 ^ k)%nat as Hp10 by (rewrite <-Nat.pow_add_r; f_equal; lia).
      assert (q < 2 ^ (10 - k))%nat as Hlt by (apply (Nat.mul_lt_mono_pos_r (2 ^ k)); lia).
      assert ((q + 1) * 2 ^ k ≤ 2 ^ (10 - k) * 2 ^ k)%nat by (apply Nat.mul_le_mono_r; lia). lia. }
    assert (n - last_start 10 n = 0)%nat as Hz.
    { rewrite <-mod_last_start. eapply aligned_le; [exact Hm|lia]. }
    rewrite Hz. cbn [Z.of_nat Z.eqb negb]. assert (2 ^ 10 < 2 ^ k)%nat by (apply Nat.pow_lt_mono_r; lia).
    rewrite (proj2 (Z.ltb_ge _ _)) by lia.
    rewrite Hc. replace (Z.to_nat (wrap64 (d - log2_pow2 PORA_CHUNK_SIZE))) with (k - 10 + 1)%nat
      by (change (log2_pow2 PORA_CHUNK_SIZE) with 10; rewrite wrap64_small; lia).
    eapply wp_mono; [eapply (wp_on_merkle GS LF f log _ _ _ _ Hst), (wp_grow_chunks _ _ _ k (Some r) _ Ht); [|lia| |exact Hsub]|].
    + apply nil_length_inv. by rewrite length_last_of, length_seg.
    + by rewrite length_seg.
    + intros [] s1 (Ht1 & Hst1 & Hc1). split; [|done]. split; [by rewrite seg_app|].
      eapply stores_ok_later; [done|]. apply inj_le, Nat.Div0.div_le_mono. lia.
Qed.

(** ** All subtrees of a transaction *)

Fixpoint nodes_at LF (n : nat) (nodes : list (Z * H256)) (n' : nat) : Prop :=
  match nodes with
  | [] => n' = n
  | dr :: nodes' => node_at LF n dr ∧ nodes_at LF (n + 2 ^ (Z.to_nat dr.1 - 1)) nodes' n'
  end.

Lemma wp_append_tx_nodes GS LF f log (n n' : nat) vs self nodes :
  holds_flow GS LF f log n vs self → flow_leaves_ok LF → nodes_at LF n nodes n' →
  wp (for_each nodes (append_one_subtree (B := B)))
    (λ _ self', holds_flow GS LF f log n' vs self' ∧ lm_shard_config self' = lm_shard_config self) self.
Proof.
  intros Hh HL. revert n self Hh. induction nodes as [|dr nodes IH]; intros n self Hh; cbn [nodes_at].
  { intros ->. by apply wp_ret. }
  intros [Hn Hns]. cbn [for_each]. apply wp_bind.
  eapply wp_mono; [by apply (wp_append_one GS LF f log n vs)|]. intros [] s1 [Hh1 Hc1].
  eapply wp_mono; [by eapply IH|]. intros [] s2 [Hh2 Hc2]. split; [done|congruence].
Qed.

End log_append.
