(* ===== verification/LogPad.v ===== *)
(** The log manager pads the flow with empty sectors up to the start of a
    transaction. *)

From stdpp Require Import sorting list_numbers.
From S2P Require Import Prelude HashElement Ssz SszFacts MerkleSpec MerkleProof MerkleProofComplete NodeStore AppendMerkle.
From S2P Require Import TreeRules Recompute TreeOps TreeFill TreeHistory TreeRefine TreeSpec TreeTiles.
From S2P Require Import ProofConvert ChunkRoots Bytes FlowDb Shard MerkleLight SharedTypes Seal ChunkData ChunkDataFacts.
From S2P Require Import ChunkDataInsert SealInfo EntryBatch EntryBatchFacts Serde BatchRoot BatchTheorems.
From S2P Require Import BatchStored FlowStore FlowStoreFacts FlowAppend FlowTruncate FlowSeal FlowReach.
From S2P Require Import TxStore TxStoreFacts LogManager DbFrame LogTrees LogInv.
Local Open Scope Z_scope.

Section log_pad.
Context `{Keccak, Bitmap64 B, !Bitmap64Laws B, KeyValueDBLaws KV, !KeyValueIter KV, !KeyValueIterLaws KV}.
Context {NMt NM : Type} `{!NodeStore NMt OptionalHash, !NodeStoreLaws NMt OptionalHash}.
Context `{!NodeStore NM OptionalHash, !NodeStoreLaws NM OptionalHash}.
Context (miner : H256).
Local Abbreviation manager := (LogManager KV (MerkleManager NMt NM)).
Implicit Types (GS : Z → Z → SealContextInfo) (LF : Z → list OptionalHash) (f : Z → option Z) (log : tx_log).
Implicit Types (self : manager) (vs : gmap nat (list OptionalHash * bool)) (m : MerkleManager NMt NM).

(** ** Leaves of padding *)

Definition zero_leaf : OptionalHash := Some (sha3_leaf (replicate 256 0)).

(** The flow is padding from [n] on for [p] sectors. *)
Definition zeros_at LF (n p : nat) : Prop := ∀ i, (i < p)%nat → leaf_of LF (n + i) = zero_leaf.

Lemma zeros_seg LF n p : zeros_at LF n p → seg LF n p = replicate p zero_leaf.
Proof.
  intros Hz. apply (list_eq_same_length (A := OptionalHash) _ _ p); [apply length_replicate|apply length_seg|].
  intros i x y Hi Hx Hy. rewrite lookup_seg in Hx by done. apply lookup_replicate in Hy as [-> _]. injection Hx as <-. by apply Hz.
Qed.

Lemma zeros_at_sub LF n p i q : zeros_at LF n p → (i + q ≤ p)%nat → zeros_at LF (n + i) q.
Proof. intros Hz Hle j Hj. rewrite <-Nat.add_assoc. apply Hz. lia. Qed.

Lemma zero_bytes_leaves (q : nat) : data_to_merkle_leaves (replicate (q * 256) 0) = Ok (replicate q zero_leaf).
Proof.
  unfold data_to_merkle_leaves, blen. rewrite length_replicate, Nat2Z.inj_mul, Z.mod_mul by done. cbn [Z.eqb negb]. f_equal.
  destruct (chunks_exact_spec (q * 256) (replicate (q * 256) 0) q) as [Hcl Hck]; [rewrite length_replicate; lia|by rewrite length_replicate|].
  apply list_eq. intros k. rewrite list_lookup_fmap. destruct (decide (k < q)%nat) as [Hk|Hk].
  - rewrite Hck, lookup_replicate_2 by done. cbn [fmap option_fmap option_map]. rewrite drop_replicate, take_replicate.
    unfold zero_leaf. rewrite Nat.min_l by lia. done.
  - rewrite !(proj2 (lookup_ge_None _ _)); [done|rewrite length_replicate; lia|lia].
Qed.

Lemma zero_leaves_known p : Forall (λ x : OptionalHash, x ≠ None) (replicate p zero_leaf).
Proof. by apply Forall_replicate. Qed.

Lemma chunk_tree_root (lvs : list OptionalHash) :
  Forall (λ x : OptionalHash, x ≠ None) lvs → length lvs = (2 ^ 10)%nat →
  ∃ r, (t ← tree_new (NM := NM) lvs 0 None; root t) = Ok r ∧ ideal 0 lvs 10 = [r].
Proof.
  intros Hk Hlen. destruct (tree_new_spec (NM := NM) lvs 0) as (t & -> & Hlh & L & [Hd Hr Hok Hf Ha] & _); [exact Hk|].
  rewrite bind_Ok. apply rep_reads in Hr. rewrite Hlh in *. cbn [log_leaves log_front] in *.
  destruct (reads_root _ _ _ _ _ _ Hd Hr Hok Hf Ha) as (r & Hroot & _ & Hir); [by intros ->|]. exists r. split; [exact Hroot|].
  rewrite <-(full_chunk_root 10 1); [by rewrite Hir|lia|done].
Qed.

(** The leaf of [pora_chunks_merkle] for a chunk of padding. *)
Lemma pad_segment_root_spec :
  ∃ r, pad_segment_root (NM := NM) = Ok r ∧ ideal 0 (replicate (2 ^ 10) zero_leaf) 10 = [r].
Proof.
  destruct (chunk_tree_root (replicate (2 ^ 10) zero_leaf)) as (r & Hr & Hi); [apply zero_leaves_known|apply length_replicate|].
  exists r. split; [|exact Hi]. unfold pad_segment_root.
  assert (Z.to_nat (ENTRY_SIZE * PORA_CHUNK_SIZE) = 2 ^ 10 * 256)%nat as Hn.
  { apply Nat2Z.inj. by rewrite Nat2Z.inj_mul, Z2Nat.id. }
  by rewrite Hn, zero_bytes_leaves.
Qed.

(** ** Whole chunks *)

Lemma wp_pad_segments (I : nat → MerkleManager NMt NM → Prop) (cnt fuel : nat) (si : Z) m :
  (∀ j m r, (j < cnt)%nat → I j m → ideal 0 (replicate (2 ^ 10) zero_leaf) 10 = [r] →
    wp (on_pora (append r)) (λ _ m', I (S j) m') m) → I 0%nat m → (cnt < fuel)%nat →
  wp (pad_segments fuel ((si + Z.of_nat cnt * 1024) * 256) si) (λ e m', e = si + Z.of_nat cnt * 1024 ∧ I cnt m') m.
Proof.
  intros Hstep. destruct pad_segment_root_spec as (r & Hroot & Hr). enough (∀ j k fuel m, (j + k = cnt)%nat → I j m → (k < fuel)%nat →
    wp (pad_segments fuel ((si + Z.of_nat cnt * 1024) * 256) (si + Z.of_nat j * 1024))
      (λ e m', e = si + Z.of_nat cnt * 1024 ∧ I cnt m') m) as Hg.
  { intros HI Hf. specialize (Hg 0%nat cnt fuel m eq_refl HI Hf). rewrite Z.add_0_r in Hg. exact Hg. }
  intros j k. revert j. induction k as [|k IH]; intros j [|fu] mm Hjk HI Hf; try lia; cbn [pad_segments];
    unfold PORA_CHUNK_SIZE, ENTRY_SIZE.
  - rewrite (proj2 (Z.leb_gt _ _)) by lia. apply wp_ret. replace j with cnt in HI by lia. split; [lia|exact HI].
  - rewrite (proj2 (Z.leb_le _ _)) by lia. apply wp_bind. eapply wp_lift; [exact Hroot|].
    apply wp_bind. eapply wp_mono; [apply (Hstep j); [lia|exact HI|exact Hr]|]. intros [] m' HI'.
    replace (si + Z.of_nat j * 1024 + 1024) with (si + Z.of_nat (S j) * 1024) by lia. apply IH; [lia|exact HI'|lia].
Qed.

(** ** The trees and one piece *)

Lemma blen_zeros (q : nat) : blen (replicate (q * 256) 0) = Z.of_nat q * 256.
Proof. unfold blen. rewrite length_replicate. lia. Qed.

(** The bytes to the end of the last chunk. *)
Definition last_pad (n : nat) : Z := if Z.of_nat (n - last_start 10 n) =? 0 then 0 else Z.of_nat (2 ^ 10 - (n - last_start 10 n)) * 256.

Lemma last_pad_eq (n : nat) :
  (if Z.of_nat (n - last_start 10 n) =? 0 then 0 else wrap64 ((PORA_CHUNK_SIZE - Z.of_nat (n - last_start 10 n)) * ENTRY_SIZE)) = last_pad n.
Proof.
  unfold last_pad, PORA_CHUNK_SIZE, ENTRY_SIZE. pose proof (last_start_le 10 n). change (2 ^ 10)%nat with 1024%nat in *.
  destruct (_ =? 0); [done|]. rewrite wrap64_small; lia.
Qed.

(** Leaves of padding go to the last chunk, and the tree of the chunks follows. *)
Lemma wp_pad_last LF (n g : nat) vs m :
  trees_ok (seg LF 0 n) vs m → flow_leaves_ok LF → sectors_ok (n + g) → zeros_at LF n g → (0 < g)%nat →
  (0 < n - last_start 10 n)%nat → (n - last_start 10 n + g ≤ 2 ^ 10)%nat →
  wp (_ ← on_last (append_list (replicate g zero_leaf)); update_pora)
    (λ _ m', trees_grown (seg LF 0 n) (seg LF n g) vs m') m.
Proof.
  intros Ht HL Hsec Hz Hg Hl Hfit. pose proof (tk_last _ _ _ Ht) as Hlast. rewrite length_seg in Hlast. rewrite <-(zeros_seg _ _ _ Hz).
  apply wp_bind. eapply wp_mono; [apply (wp_last_list _ _ _ _ Hlast); by apply seg_known|].
  intros [] m1 [Hl1 Hp1]. pose proof (wp_append_follow LF n g vs m m1 HL Hsec Ht Hg Hfit Hp1 Hl1) as Hwp.
  rewrite (proj2 (Z.eqb_neq _ _)) in Hwp by lia. exact Hwp.
Qed.

(** Padding inside the last chunk. *)
Lemma wp_pad_inside LF (n q : nat) vs m :
  trees_ok (seg LF 0 n) vs m → flow_leaves_ok LF → sectors_ok (n + q) → zeros_at LF n q → (0 < q)%nat →
  (0 < n - last_start 10 n)%nat → (n - last_start 10 n + q < 2 ^ 10)%nat →
  wp (pad_merkle (replicate (q * 256) 0)) (λ r m', r = (None, false) ∧ trees_ok (seg LF 0 (n + q)) vs m') m.
Proof.
  intros Ht HL Hsec Hz Hq Hl Hfit. unfold pad_merkle. apply wp_bind. eapply wp_gets_ok; [by eapply last_leaves_seg|].
  rewrite last_pad_eq. unfold last_pad. rewrite (proj2 (Z.eqb_neq _ _)) by lia. rewrite blen_zeros.
  rewrite (proj2 (Z.ltb_lt _ _)) by lia. apply wp_bind. eapply wp_lift; [apply zero_bytes_leaves|].
  apply wp_assoc. eapply wp_bind_mono; [apply (wp_pad_last LF n q vs m Ht HL Hsec Hz Hq Hl); lia|].
  intros [] m' Hg. apply wp_ret. split; [done|]. rewrite seg_app. apply grown_within; [exact Hg|].
  rewrite length_last_of, !length_seg. exact Hfit.
Qed.

Lemma zero_chunk LF (n : nat) : zeros_at LF n (2 ^ 10) → seg LF n (2 ^ 10) = replicate (2 ^ 10) zero_leaf.
Proof. apply zeros_seg. Qed.

Lemma chunk_end (n g : nat) :
  (n - last_start 10 n + g = 2 ^ 10)%nat → ((n + g) `mod` 2 ^ 10 = 0 ∧ (n + g) / 2 ^ 10 = n / 2 ^ 10 + 1)%nat.
Proof.
  intros Hg. pose proof (last_start_le 10 n) as Hls. unfold last_start in *.
  assert (n + g = (n / 2 ^ 10 + 1) * 2 ^ 10)%nat as -> by (rewrite Nat.mul_add_distr_r, Nat.mul_1_l; lia).
  split; [apply Nat.Div0.mod_mul|by apply Nat.div_mul].
Qed.

(** Padding to the end of the last chunk, and chunks after it. *)
Lemma wp_pad_across LF (n cnt : nat) vs m :
  let g := (2 ^ 10 - (n - last_start 10 n))%nat in
  trees_ok (seg LF 0 n) vs m → flow_leaves_ok LF → sectors_ok (n + (g + cnt * 2 ^ 10)) → zeros_at LF n (g + cnt * 2 ^ 10) →
  (0 < n - last_start 10 n)%nat →
  wp (pad_merkle (replicate ((g + cnt * 2 ^ 10) * 256) 0))
    (λ r m', r = (Some (Z.of_nat (n / 2 ^ 10)), false) ∧
       trees_pending (seg LF 0 (n + (g + cnt * 2 ^ 10))) (seg LF 0 n) (seg LF n g) vs m') m.
Proof.
  intros g Ht HL Hsec Hz Hl. pose proof (last_start_le 10 n) as Hls. assert (0 < g)%nat as Hg by lia.
  assert (n - last_start 10 n + g = 2 ^ 10)%nat as Hfull by lia. assert (Z.of_nat (2 ^ 10) = 1024) as Hc by done.
  unfold pad_merkle. apply wp_bind. eapply wp_gets_ok; [by eapply last_leaves_seg|].
  rewrite last_pad_eq. unfold last_pad. rewrite (proj2 (Z.eqb_neq _ 0)) by lia. fold g. rewrite blen_zeros.
  rewrite (proj2 (Z.ltb_ge _ _)) by lia. rewrite (proj2 (Z.eqb_neq (Z.of_nat g * 256) 0)) by lia. cbn [negb].
  assert (take (Z.to_nat (Z.of_nat g * 256)) (replicate ((g + cnt * 2 ^ 10) * 256) 0) = replicate (g * 256) 0) as ->.
  { rewrite take_replicate. f_equal. nia. }
  apply wp_bind, wp_bind. eapply wp_lift; [apply zero_bytes_leaves|]. apply wp_assoc.
  assert (sectors_ok (n + g)) as Hsg by (unfold sectors_ok in *; lia).
  eapply wp_bind_mono.
  { apply (wp_pad_last LF n g vs m Ht HL Hsg); [|done|done|lia].
    pose proof (zeros_at_sub LF n _ 0 g Hz ltac:(lia)) as Hz0. by rewrite Nat.add_0_r in Hz0. }
  intros [] m1 Hgr. apply grown_pending in Hgr; [|by rewrite length_last_of, !length_seg]. rewrite <-seg_app in Hgr.
  destruct (chunk_end n g Hfull) as [Hng Hq]. apply wp_bind.
  eapply wp_gets_ok; [apply (pora_ok_leaves _ _ _ _ (tp_pora _ _ _ _ _ Hgr))|]. apply wp_ret.
  rewrite length_top_leaves, length_seg, width_aligned, Hq, wrap64_pred, Nat.add_sub by (done || unfold sectors_ok in Hsg; lia).
  rewrite Z.div_mul by done. apply wp_bind. eapply wp_mono.
  { replace (Z.of_nat (g + cnt * 2 ^ 10) * 256) with ((Z.of_nat g + Z.of_nat cnt * 1024) * 256) by lia.
    apply (wp_pad_segments (λ j m', trees_pending (seg LF 0 (n + (g + j * 2 ^ 10))) (seg LF 0 n) (seg LF n g) vs m') cnt).
    - intros j m2 r Hj Hp Hr. assert (zeros_at LF (n + (g + j * 2 ^ 10)) (2 ^ 10)) as Hzj by (apply (zeros_at_sub LF n _ _ _ Hz); nia).
      replace (n + (g + S j * 2 ^ 10))%nat with (n + (g + j * 2 ^ 10) + 2 ^ 10)%nat by lia. rewrite (seg_app LF 0).
      apply wp_pending_chunk; [exact Hp| |apply length_seg|by rewrite zero_chunk].
      apply seg_known; [exact HL|]. unfold sectors_ok in *. nia.
    - by rewrite Nat.mul_0_l, Nat.add_0_r.
    - rewrite length_replicate. nia. }
  intros e m2 [-> Hp2]. rewrite (proj2 (Z.eqb_eq _ _)) by (unfold ENTRY_SIZE; lia). apply wp_ret. split; [done|exact Hp2].
Qed.

(** Chunks of padding after a complete chunk. *)
Lemma wp_pad_whole LF (n cnt : nat) vs m :
  trees_ok (seg LF 0 n) vs m → flow_leaves_ok LF → sectors_ok (n + cnt * 2 ^ 10) → zeros_at LF n (cnt * 2 ^ 10) →
  (n `mod` 2 ^ 10 = 0)%nat →
  wp (pad_merkle (replicate (cnt * 2 ^ 10 * 256) 0))
    (λ r m', r = (None, true) ∧ trees_ok (seg LF 0 (n + cnt * 2 ^ 10)) vs m') m.
Proof.
  intros Ht HL Hsec Hz Hmod. pose proof Hmod as Hl. rewrite mod_last_start in Hl. assert (Z.of_nat (2 ^ 10) = 1024) as Hc by done.
  unfold pad_merkle. apply wp_bind. eapply wp_gets_ok; [by eapply last_leaves_seg|].
  rewrite last_pad_eq. assert (last_pad n = 0) as -> by (unfold last_pad; by rewrite Hl). rewrite blen_zeros.
  rewrite (proj2 (Z.ltb_ge _ _)) by lia. cbn [Z.eqb negb]. apply wp_bind, wp_ret. rewrite Z.div_0_l by done.
  apply wp_bind. eapply wp_mono.
  { replace (Z.of_nat (cnt * 2 ^ 10) * 256) with ((0 + Z.of_nat cnt * 1024) * 256) by lia.
    apply (wp_pad_segments (λ j m', trees_ok (seg LF 0 (n + j * 2 ^ 10)) vs m') cnt).
    - intros j m2 r Hj Hp Hr. assert (zeros_at LF (n + j * 2 ^ 10) (2 ^ 10)) as Hzj by (apply (zeros_at_sub LF n _ _ _ Hz); nia).
      replace (n + S j * 2 ^ 10)%nat with (n + j * 2 ^ 10 + 2 ^ 10)%nat by lia. rewrite (seg_app LF 0).
      apply (wp_pad_chunk _ _ _ _ r Hp); [| |apply length_seg|by rewrite zero_chunk].
      + apply nil_length_inv. by rewrite length_last_of, length_seg, <-mod_last_start, Nat.Div0.mod_add.
      + apply seg_known; [exact HL|]. unfold sectors_ok in *. nia.
    - by rewrite Nat.mul_0_l, Nat.add_0_r.
    - rewrite length_replicate. nia. }
  intros e m2 [-> Hp2]. rewrite (proj2 (Z.eqb_eq _ _)) by (unfold ENTRY_SIZE; lia). apply wp_ret. split; [done|exact Hp2].
Qed.

(** ** The stores and one piece *)

(** The bytes of the flow end where its sectors end. *)
Definition ends_at f (n : nat) : Prop := ∀ x, Z.of_nat n * 256 ≤ x → f x = None.

Definition zero_array (n q : nat) : ChunkArray := ChunkArray_mk (replicate (q * 256) 0) (Z.of_nat n).

Lemma zero_array_ok LF (n q : nat) :
  flow_leaves_ok LF → zeros_at LF n q → sectors_ok (n + q) → (0 < n)%nat → (0 < q)%nat → array_ok LF (zero_array n q).
Proof.
  intros HL Hz Hsec Hn Hq. pose proof (blen_zeros q) as Hb. unfold sectors_ok in Hsec.
  split; cbn [start_index ca_data zero_array]; rewrite ?Hb.
  - lia.
  - intros Hnil%(f_equal length). rewrite length_replicate in Hnil. cbn [length] in Hnil. lia.
  - by rewrite Z.mod_mul.
  - unfold end_index. cbn [start_index ca_data zero_array]. rewrite Hb, Z.div_mul by done. lia.
  - rewrite Z.div_mul by done. intros k Hk. specialize (Hz (Z.to_nat k) ltac:(lia)).
    replace (Z.of_nat n + k) with (Z.of_nat (n + Z.to_nat k)) by lia.
    rewrite leaf_of_array; [|unfold sectors_ok; lia|by rewrite Hz]. rewrite Hz, drop_replicate, take_replicate.
    unfold zero_leaf. rewrite Nat.min_l by lia. done.
Qed.

Lemma zero_array_insertable config f (n q : nat) : ends_at f n → insertable config (zero_array n q) f.
Proof. intros He b _. left. intros x [Hlo _] _. apply He. cbn in Hlo. lia. Qed.

Lemma zero_array_ends config f (n q : nat) : ends_at f n → ends_at (put_flow config (zero_array n q) f) (n + q).
Proof.
  intros He x Hx. unfold put_flow. rewrite bool_decide_false; [apply He; lia|].
  intros [[_ Hhi] _]. cbn [zero_array start_index ca_data] in Hhi. rewrite blen_zeros in Hhi. lia.
Qed.

(** ** The pieces of the padding *)

Lemma trees_pos LF n vs m : trees_ok (seg LF 0 n) vs m → (0 < n)%nat.
Proof. intros Ht. destruct n; [|lia]. by destruct (tk_nonempty _ _ _ Ht). Qed.

Lemma pad_step (n q : nat) : sectors_ok (n + q) → wrap64 (Z.of_nat n + blen (replicate (q * 256) 0) / ENTRY_SIZE) = Z.of_nat (n + q).
Proof. unfold sectors_ok, ENTRY_SIZE. intros Hs. rewrite blen_zeros, Z.div_mul by done. rewrite wrap64_small; lia. Qed.

Lemma padding_raw_spec (q : nat) : Z.of_nat q < 2 ^ 54 → padding_raw (Z.of_nat q) = Ok (replicate (q * 256) 0).
Proof.
  intros Hq. unfold padding_raw, vec_zero, ENTRY_SIZE. rewrite wrap64_small by lia. rewrite (proj2 (Z.ltb_lt _ _)) by lia.
  do 2 f_equal. lia.
Qed.

Lemma pad_max_chunks : ∃ c P : nat, P = (c * 2 ^ 10)%nat ∧ Z.of_nat P = PAD_MAX_SIZE.
Proof. exists (2 ^ 10)%nat, (2 ^ 10 * 2 ^ 10)%nat. split; [reflexivity|]. by rewrite Nat2Z.inj_mul. Qed.

(** The remainder first, then pieces of the largest size. *)
Definition pad_remainder (p : nat) : nat := Z.to_nat (Z.of_nat p `mod` PAD_MAX_SIZE).

Lemma padding_spec (p P : nat) :
  sectors_ok p → Z.of_nat P = PAD_MAX_SIZE →
  ∃ k, p = (pad_remainder p + k * P)%nat ∧
    padding (Z.of_nat p) = Ok ((if bool_decide (pad_remainder p = 0%nat) then [] else [replicate (pad_remainder p * 256) 0]) ++
                               replicate k (replicate (P * 256) 0)).
Proof.
  intros Hp HP. unfold sectors_ok in Hp. exists (Z.to_nat (Z.of_nat p / PAD_MAX_SIZE)).
  assert (0 ≤ Z.of_nat p `mod` PAD_MAX_SIZE < PAD_MAX_SIZE) as Hm by by apply Z.mod_pos_bound.
  assert (0 ≤ Z.of_nat p / PAD_MAX_SIZE) as Hd by by apply Z.div_pos; [lia|].
  pose proof (Z.div_mod (Z.of_nat p) PAD_MAX_SIZE ltac:(done)) as Hdm.
  assert (Z.of_nat (pad_remainder p) = Z.of_nat p `mod` PAD_MAX_SIZE) as Hr by (unfold pad_remainder; lia). split; [nia|].
  unfold padding. rewrite <-Hr, <-HP in *. rewrite (mapM_outcome_Ok _ _ (replicate (Z.to_nat (Z.of_nat p / Z.of_nat P)) (replicate (P * 256) 0))).
  - rewrite bind_Ok. case_bool_decide as Hz.
    + by rewrite (proj2 (Z.eqb_eq _ _)) by lia.
    + rewrite (proj2 (Z.eqb_neq _ _)) by lia. rewrite padding_raw_spec, bind_Ok; [done|]. change PAD_MAX_SIZE with (2 ^ 20) in HP. lia.
  - by rewrite length_seqZ, length_replicate.
  - intros i x y _ [-> _]%lookup_replicate. apply padding_raw_spec. change PAD_MAX_SIZE with (2 ^ 20) in HP. lia.
Qed.

(** What is written of the padding from [n] to [s]: the piece that starts in a
    chunk with data. *)
Definition pad_flow (config : ShardConfig) (n s : nat) f : Z → option Z :=
  if bool_decide (n `mod` 2 ^ 10 = 0 ∨ s = n)%nat then f else put_flow config (zero_array n (pad_remainder (s - n))) f.

(** The padding stays in the last chunk or ends at the end of a chunk. *)
Definition pad_fits (n s : nat) : Prop :=
  (s = n ∨ 0 < n `mod` 2 ^ 10 ∧ n `mod` 2 ^ 10 + (s - n) < 2 ^ 10 ∨ s `mod` 2 ^ 10 = 0)%nat.

Lemma pad_flow_ends config (n s : nat) f : ends_at f n → (n ≤ s)%nat → ends_at (pad_flow config n s f) s.
Proof.
  intros He Hle. unfold pad_flow. case_bool_decide as Hc.
  - intros x Hx. apply He. lia.
  - assert (pad_remainder (s - n) ≤ s - n)%nat as Hr.
    { unfold pad_remainder. pose proof (Z.mod_le (Z.of_nat (s - n)) PAD_MAX_SIZE ltac:(lia) ltac:(done)). lia. }
    intros x Hx. apply (zero_array_ends config f n (pad_remainder (s - n)) He). lia.
Qed.

(** Where the remainder ends. *)
Lemma remainder_end (n s k P c : nat) :
  let r := pad_remainder (s - n) in
  (s - n = r + k * P)%nat → P = (c * 2 ^ 10)%nat → Z.of_nat P = PAD_MAX_SIZE → (n < s)%nat → pad_fits n s →
  (k = 0 ∨ (n + r) `mod` 2 ^ 10 = 0)%nat ∧
  (n `mod` 2 ^ 10 ≠ 0 → 0 < r ∧ (n `mod` 2 ^ 10 + r < 2 ^ 10 ∨ (n + r) `mod` 2 ^ 10 = 0))%nat ∧
  (n `mod` 2 ^ 10 = 0 → ∃ cnt, r = cnt * 2 ^ 10)%nat.
Proof.
  intros r Hk HPc HP Hlt Hfit. assert (1024 ≤ P)%nat as HP1 by (change PAD_MAX_SIZE with (2 ^ 20) in HP; lia).
  assert (s `mod` 2 ^ 10 = 0 → (n + r) `mod` 2 ^ 10 = 0)%nat as Hal.
  { intros Hs. replace (n + r)%nat with (s - k * P)%nat by lia. apply aligned_sub; [done|].
    rewrite HPc, Nat.mul_assoc. apply Nat.Div0.mod_mul. }
  destruct Hfit as [->|[[Hn Hfit]|Hs]]; [lia| |].
  - assert (k = 0)%nat as -> by (destruct k; [done|]; change (2 ^ 10)%nat with 1024%nat in Hfit; nia).
    split_and!; [by left| |lia]. intros _. lia.
  - specialize (Hal Hs). split_and!; [by right| |].
    + intros Hn. split; [|by right]. destruct r; [|lia]. rewrite Nat.add_0_r in Hal. lia.
    + intros Hn. apply Nat.Lcm0.mod_divide in Hn as [a ->], Hal as [b Hb]. exists (b - a)%nat. lia.
Qed.

Lemma flow_length_spec LF n vs m :
  trees_ok (seg LF 0 n) vs m → sectors_ok n →
  ∃ start l, last_chunk_start_index m = Ok start ∧ last_leaves m = Ok l ∧ wrap64 (start + l) = Z.of_nat n.
Proof.
  intros Ht Hsec. unfold sectors_ok in Hsec. pose proof (last_start_le 10 n) as Hls.
  exists (Z.of_nat (last_start 10 n)), (Z.of_nat (n - last_start 10 n)). split_and!; [|by eapply last_leaves_seg|].
  - rewrite (last_chunk_start_spec _ _ _ Ht); rewrite length_seg; [done|lia].
  - rewrite wrap64_small; lia.
Qed.

(** ** Writing the pieces *)

Context (now : ChunkArray → Z → Z).

Lemma wp_append_zeros GS LF f log b0 self (n q : nat) :
  stores_ok miner GS LF f log b0 self → flow_leaves_ok LF → zeros_at LF n q → sectors_ok (n + q) → (0 < n)%nat → (0 < q)%nat →
  ends_at f n →
  wp (on_flow (FlowStore.append_entries (B := B) (NM := NM) (zero_array n q) (now (zero_array n q))))
    (λ _ self', stores_ok miner GS LF (put_flow (lm_shard_config self) (zero_array n q) f) log b0 self' ∧
       lm_merkle self' = lm_merkle self ∧ lm_shard_config self' = lm_shard_config self) self.
Proof.
  intros Hst HL Hz Hsec Hn Hq He.
  eapply wp_mono; [apply (wp_flow_append miner GS LF f log b0 self _ _ Hst); [by apply zero_array_ok|by apply zero_array_insertable]|].
  intros roots self' (Hst' & _ & Hm & Hc). done.
Qed.

(** A piece that starts in the last chunk is written. *)
Lemma wp_pad_first GS LF f log (n q : nat) vs self pl :
  holds_flow miner GS LF f log n vs self → flow_leaves_ok LF → sectors_ok (n + q) → zeros_at LF n q → ends_at f n → (0 < q)%nat →
  (0 < n - last_start 10 n)%nat → (n - last_start 10 n + q < 2 ^ 10 ∨ (n + q) `mod` 2 ^ 10 = 0)%nat →
  wp (pad_piece (B := B) now (Z.of_nat n, pl) (replicate (q * 256) 0))
    (λ acc self', acc = (Z.of_nat (n + q), pl) ∧
       holds_flow miner GS LF (put_flow (lm_shard_config self) (zero_array n q) f) log (n + q) vs self' ∧
       lm_shard_config self' = lm_shard_config self) self.
Proof.
  intros [Ht Hst] HL Hsec Hz He Hq Hl Hfit. pose proof (trees_pos _ _ _ _ Ht) as Hn. unfold pad_piece. rewrite pad_step by done.
  destruct (decide (n - last_start 10 n + q < 2 ^ 10)%nat) as [Hin|Hout].
  - eapply wp_bind_mono; [exact (wp_on_merkle miner GS LF f log _ _ _ _ Hst (wp_pad_inside LF n q vs _ Ht HL Hsec Hz Hq Hl Hin))|].
    intros r s1 ((-> & Ht1) & Hst1 & Hc1). cbn [fst snd]. apply wp_bind, wp_bind.
    eapply wp_mono; [by apply (wp_append_zeros GS LF f log _ s1 n q Hst1)|]. intros ? s2 (Hst2 & Hm2 & Hc2).
    apply wp_ret, wp_bind, wp_ret, wp_ret. rewrite Hc1 in Hst2. split_and!; [done|split|congruence].
    + by rewrite Hm2.
    + eapply stores_ok_later; [exact Hst2|]. apply inj_le, Nat.Div0.div_le_mono. lia.
  - destruct Hfit as [|Hend]; [done|]. set (g := (2 ^ 10 - (n - last_start 10 n))%nat).
    assert (n - last_start 10 n + g = 2 ^ 10)%nat as Hfull by (pose proof (last_start_le 10 n); lia).
    assert (∃ cnt, q = g + cnt * 2 ^ 10)%nat as [cnt Hqc].
    { destruct (chunk_end n g Hfull) as [Hg0 _]. assert ((n + q - (n + g)) `mod` 2 ^ 10 = 0)%nat as [c Hc]%Nat.Lcm0.mod_divide by by apply aligned_sub.
      exists c. lia. }
    subst q. eapply wp_bind_mono; [exact (wp_on_merkle miner GS LF f log _ _ _ _ Hst (wp_pad_across LF n cnt vs _ Ht HL Hsec Hz Hl))|].
    fold g. intros r s1 ((-> & Ht1) & Hst1 & Hc1). cbn [fst snd]. apply wp_bind, wp_bind.
    eapply wp_mono; [by apply (wp_append_zeros GS LF f log _ s1 n _ Hst1)|]. intros ? s2 (Hst2 & Hm2 & Hc2).
    apply wp_ret, wp_bind. rewrite <-Hm2 in Ht1. rewrite Hc1 in Hst2.
    eapply wp_mono; [apply (wp_complete miner GS LF _ log n g (n + (g + cnt * 2 ^ 10)) vs s2 Hst2 HL); [unfold sectors_ok in *; lia|lia|exact Ht1]|].
    intros [] s3 (Ht3 & Hst3 & Hc3). apply wp_ret. split_and!; [done|split; [done|]|congruence].
    eapply stores_ok_later; [exact Hst3|]. destruct (chunk_end n g Hfull) as [_ Hdiv].
    assert ((n + g) / 2 ^ 10 ≤ (n + (g + cnt * 2 ^ 10)) / 2 ^ 10)%nat by (apply Nat.Div0.div_le_mono; lia). lia.
Qed.

(** A piece of whole chunks is left to the background task. *)
Lemma wp_pad_next GS LF f log (n cnt : nat) vs self pl :
  holds_flow miner GS LF f log n vs self → flow_leaves_ok LF → sectors_ok (n + cnt * 2 ^ 10) →
  zeros_at LF n (cnt * 2 ^ 10) → (n `mod` 2 ^ 10 = 0)%nat →
  wp (pad_piece (B := B) now (Z.of_nat n, pl) (replicate (cnt * 2 ^ 10 * 256) 0))
    (λ acc self', acc = (Z.of_nat (n + cnt * 2 ^ 10), pl ++ [PadPair_mk (Z.of_nat n) (Z.of_nat (cnt * 2 ^ 10) * 256)]) ∧
       holds_flow miner GS LF f log (n + cnt * 2 ^ 10) vs self' ∧ lm_shard_config self' = lm_shard_config self) self.
Proof.
  intros [Ht Hst] HL Hsec Hz Hmod. unfold pad_piece. rewrite pad_step by done.
  eapply wp_bind_mono; [exact (wp_on_merkle miner GS LF f log _ _ _ _ Hst (wp_pad_whole LF n cnt vs _ Ht HL Hsec Hz Hmod))|].
  intros r s1 ((-> & Ht1) & Hst1 & Hc1). cbn [fst snd]. rewrite blen_zeros. apply wp_bind, wp_ret, wp_bind, wp_ret, wp_ret.
  split_and!; [done|split; [done|]|done]. eapply stores_ok_later; [exact Hst1|]. apply inj_le, Nat.Div0.div_le_mono. lia.
Qed.

Lemma wp_pad_rest GS LF f log (n k c P : nat) vs self pl :
  P = (c * 2 ^ 10)%nat → holds_flow miner GS LF f log n vs self → flow_leaves_ok LF → sectors_ok (n + k * P) →
  zeros_at LF n (k * P) → (k = 0 ∨ n `mod` 2 ^ 10 = 0)%nat →
  wp (fold_for (replicate k (replicate (P * 256) 0)) (Z.of_nat n, pl) (pad_piece (B := B) now))
    (λ acc self', holds_flow miner GS LF f log (n + k * P) vs self' ∧ lm_shard_config self' = lm_shard_config self) self.
Proof.
  intros HP. revert n pl self. induction k as [|k IH]; intros n pl self Hh HL Hsec Hz Hm; cbn [replicate fold_for].
  - apply wp_ret. by rewrite Nat.mul_0_l, Nat.add_0_r.
  - destruct Hm as [|Hm]; [done|]. rewrite Nat.mul_succ_l, (Nat.add_comm (k * P)), Nat.add_assoc in *. apply wp_bind.
    pose proof (zeros_at_sub LF n _ 0 P Hz ltac:(lia)) as Hz0. rewrite Nat.add_0_r in Hz0.
    pose proof (zeros_at_sub LF n _ P (k * P) Hz ltac:(lia)) as Hz1.
    eapply wp_mono. { rewrite HP in Hz0 |- *. apply (wp_pad_next GS LF f log n c vs self pl Hh HL); [|exact Hz0|exact Hm].
      rewrite <-HP. unfold sectors_ok in *. lia. }
    intros acc s1 (-> & Hh1 & Hc1). rewrite <-HP in Hh1 |- *.
    eapply wp_mono; [apply (IH (n + P)%nat); [exact Hh1|exact HL|exact Hsec|exact Hz1|]|].
    + right. rewrite HP. by rewrite Nat.Div0.mod_add.
    + intros acc s2 [Hh2 Hc2]. split; [exact Hh2|congruence].
Qed.

Lemma wp_pad_pieces GS LF f log (n s : nat) vs self :
  holds_flow miner GS LF f log n vs self → flow_leaves_ok LF → sectors_ok s → (n < s)%nat → zeros_at LF n (s - n) → ends_at f n →
  pad_fits n s →
  wp (pieces ← lift (padding (Z.of_nat (s - n))); fold_for pieces (Z.of_nat n, []) (pad_piece (B := B) now))
    (λ acc self', holds_flow miner GS LF (pad_flow (lm_shard_config self) n s f) log s vs self' ∧
       lm_shard_config self' = lm_shard_config self) self.
Proof.
  intros Hh HL Hsec Hlt Hz He Hfit. destruct pad_max_chunks as (c & P & HPc & HP).
  destruct (padding_spec (s - n) P) as (k & Hk & Hpad); [unfold sectors_ok in *; lia|done|].
  destruct (remainder_end n s k P c Hk HPc HP Hlt Hfit) as (Hrest & Hfirst & Hwhole).
  pose proof (zeros_at_sub LF n _ 0 (pad_remainder (s - n)) Hz ltac:(lia)) as Hz0. rewrite Nat.add_0_r in Hz0.
  pose proof (zeros_at_sub LF n _ (pad_remainder (s - n)) (k * P) Hz ltac:(lia)) as Hz1.
  apply wp_bind. eapply wp_lift; [exact Hpad|]. unfold pad_flow.
  generalize dependent (pad_remainder (s - n)). intros r Hk Hpad Hrest Hfirst Hwhole Hz0 Hz1.
  assert (s = n + r + k * P)%nat as Hs by lia. pose proof Hsec as Hsec0. rewrite Hs in Hsec0.
  destruct (decide (n `mod` 2 ^ 10 = 0)%nat) as [Hn0|Hn0].
  - rewrite (bool_decide_true (n `mod` 2 ^ 10 = 0 ∨ s = n)%nat) by by left. destruct (Hwhole Hn0) as [cnt Hcnt]. case_bool_decide as Hr0; cbn [app fold_for].
    + rewrite Hr0, Nat.add_0_r in *. eapply wp_mono; [by apply (wp_pad_rest GS LF f log n k c P vs self [])|].
      intros acc s1 (Hh1 & Hc1). rewrite <-Hs in Hh1. done.
    + apply wp_bind. rewrite Hcnt in *. assert (sectors_ok (n + cnt * 2 ^ 10)) as Hsr by (unfold sectors_ok in *; lia).
      eapply wp_mono; [by apply (wp_pad_next GS LF f log n cnt vs self [])|]. intros acc s1 (-> & Hh1 & Hc1).
      eapply wp_mono; [by apply (wp_pad_rest GS LF f log _ k c P vs s1)|]. intros acc s2 (Hh2 & Hc2). rewrite <-Hs in Hh2. split; [done|congruence].
  - rewrite (bool_decide_false (n `mod` 2 ^ 10 = 0 ∨ s = n)%nat) by lia. destruct (Hfirst Hn0) as [Hr Hfr].
    rewrite bool_decide_false by lia. cbn [app fold_for]. apply wp_bind. rewrite mod_last_start in Hn0, Hfr.
    assert (sectors_ok (n + r)) as Hsr by (unfold sectors_ok in *; lia).
    eapply wp_mono; [apply (wp_pad_first GS LF f log n r vs self []); done || lia|]. intros acc s1 (-> & Hh1 & Hc1).
    eapply wp_mono; [exact (wp_pad_rest GS LF _ log _ k c P vs s1 [] HPc Hh1 HL Hsec0 Hz1 Hrest)|].
    intros acc s2 (Hh2 & Hc2). rewrite <-Hs in Hh2. split; [done|congruence].
Qed.

Lemma wp_pad_tx GS LF f log (n s : nat) vs self (seq : Z) :
  holds_flow miner GS LF f log n vs self → flow_leaves_ok LF → sectors_ok s → (n ≤ s)%nat → zeros_at LF n (s - n) → ends_at f n →
  pad_fits n s →
  wp (pad_tx (B := B) now seq (Z.of_nat s))
    (λ _ self', holds_flow miner GS LF (pad_flow (lm_shard_config self) n s f) log s vs self' ∧
       lm_shard_config self' = lm_shard_config self) self.
Proof.
  intros Hh HL Hsec Hle Hz He Hfit. unfold pad_tx. assert (sectors_ok n) as Hsn by (unfold sectors_ok in *; lia).
  destruct (flow_length_spec LF n vs _ (proj1 Hh) Hsn) as (start & l & Hstart & Hl & Hn).
  apply wp_bind. eapply wp_gets_ok; [exact Hstart|]. apply wp_bind. eapply wp_gets_ok; [exact Hl|]. rewrite Hn.
  replace (wrap64 (Z.of_nat s - Z.of_nat n)) with (Z.of_nat (s - n)) by (unfold sectors_ok in Hsec; rewrite wrap64_small; lia).
  assert (wp (pieces ← lift (if Z.of_nat (s - n) =? 0 then Ok [] else padding (Z.of_nat (s - n)));
    fold_for pieces (Z.of_nat n, []) (pad_piece (B := B) now))
    (λ acc self', holds_flow miner GS LF (pad_flow (lm_shard_config self) n s f) log s vs self' ∧
       lm_shard_config self' = lm_shard_config self) self) as Hwp.
  { destruct (Z.eqb_spec (Z.of_nat (s - n)) 0) as [Heq|Hne]; [|by apply wp_pad_pieces; try done; lia].
    replace s with n by lia. apply wp_bind. eapply wp_lift; [done|]. apply wp_ret. unfold pad_flow.
    by rewrite bool_decide_true by by right. }
  apply wp_assoc. eapply wp_bind_mono; [exact Hwp|]. intros acc s1 ([Ht1 Hst1] & Hc1).
  eapply wp_mono; [apply (wp_flow_pad_data miner GS LF _ log _ s1 _ _ Hst1)|]. intros [] s2 (Hst2 & _ & Hm2 & Hc2).
  split; [|congruence]. split; [by rewrite Hm2|done].
Qed.

End log_pad.
