(* ===== verification/LogSpec.v ===== *)
(** The contract of the log manager.

    It takes data: the leaves and the roots it computes from the
    data are those of its trees. *)

From stdpp Require Import sorting list_numbers.
From S2P Require Import Prelude HashElement Ssz SszFacts MerkleSpec MerkleProof MerkleProofComplete NodeStore AppendMerkle.
From S2P Require Import TreeRules Recompute TreeOps TreeFill TreeHistory TreeRefine TreeSpec TreeTiles.
From S2P Require Import ProofConvert ChunkRoots Bytes FlowDb Shard MerkleLight SharedTypes Seal ChunkData ChunkDataFacts.
From S2P Require Import ChunkDataInsert SealInfo EntryBatch EntryBatchFacts Serde BatchRoot BatchTheorems.
From S2P Require Import BatchStored FlowStore FlowStoreFacts FlowAppend FlowTruncate FlowSeal FlowReach.
From S2P Require Import TxStore TxStoreFacts TxTheorems LogManager DbFrame LogTrees LogInv LogPad.
Local Open Scope Z_scope.

Section log_entries.
Context `{Keccak, Bitmap64 B, !Bitmap64Laws B, KeyValueDBLaws KV, !KeyValueIter KV, !KeyValueIterLaws KV}.
Context {NMt NM : Type} `{!NodeStore NMt OptionalHash, !NodeStoreLaws NMt OptionalHash}.
Context `{!NodeStore NM OptionalHash, !NodeStoreLaws NM OptionalHash}.
Context (miner : H256) (now : ChunkArray → Z → Z).
Local Abbreviation manager := (LogManager KV (MerkleManager NMt NM)).
Implicit Types (GS : Z → Z → SealContextInfo) (LF : Z → list OptionalHash) (f : Z → option Z) (log : tx_log).
Implicit Types (self : manager) (vs : gmap nat (list OptionalHash * bool)) (m : MerkleManager NMt NM) (arr : ChunkArray).

(** ** The tree of the last chunk *)

(** The entries of an array from its byte [off] on. *)
Lemma array_entry LF arr (off i : nat) e :
  array_ok LF arr → (off `mod` 256 = 0)%nat → (off ≤ length (ca_data arr))%nat →
  chunks_exact (length (drop off (ca_data arr))) (drop off (ca_data arr)) !! i = Some e →
  (off + 256 * i < length (ca_data arr))%nat ∧
  ∀ j : nat, Z.of_nat j = start_index arr + Z.of_nat (off / 256 + i) → sectors_ok j → leaf_of LF j = Some (sha3_leaf e).
Proof.
  intros Hao Hoff Hle He. apply Nat.Lcm0.mod_divide in Hoff as [o ->]. rewrite Nat.div_mul by done.
  pose proof (ao_sectors _ _ Hao) as Hsec. unfold blen in Hsec.
  apply Z.mod_divide in Hsec as [z Hz]; [|done]. set (data := ca_data arr) in *.
  assert (length data = 256 * Z.to_nat z)%nat as Hlen by lia.
  destruct (chunks_exact_spec (length (drop (o * 256) data)) (drop (o * 256) data) (Z.to_nat z - o)) as [Hcl Hck];
    [rewrite length_drop; lia|done|].
  pose proof (lookup_lt_Some _ _ _ He) as Hi. rewrite Hcl in Hi. rewrite Hck in He by done. injection He as <-.
  split; [lia|]. intros j Hj Hsj. rewrite drop_drop.
  pose proof (ao_leaves _ _ Hao (Z.of_nat (o + i))) as Hl. fold data in Hl. unfold blen in Hl.
  rewrite Hz, Z.div_mul in Hl by done. specialize (Hl ltac:(lia)). rewrite <-Hj in Hl.
  unfold leaf_of. assert (Z.of_nat (2 ^ 10) = 1024) as Hc by done. rewrite <-Hc, <-Nat2Z.inj_div, <-Nat2Z.inj_mod, Nat2Z.id in Hl.
  etransitivity; [exact (f_equal (λ o : option OptionalHash, match o with Some x => x | None => None end) Hl)|].
  do 4 f_equal. lia.
Qed.

Lemma wp_fill_last d (X : list OptionalHash) (p0 : nat) (l : list (nat * list Z)) m :
  last_ok d X m → (∀ i e, (i, e) ∈ l → X !! (p0 + i)%nat = Some (Some (sha3_leaf e))) →
  wp (for_each l (λ ie, on_last (fill_leaf (p0 + ie.1) (Some (sha3_leaf ie.2)))))
    (λ _ m', last_ok d X m' ∧ pora_chunks_merkle m' = pora_chunks_merkle m) m.
Proof.
  revert m. induction l as [|[i e] l IH]; intros m Hl Hall; cbn [for_each]; [by apply wp_ret|].
  apply wp_bind. eapply wp_mono; [apply (wp_last_fill _ _ _ _ _ Hl), Hall; by left|].
  intros [] m1 [Hl1 Hp1]. eapply wp_mono; [apply IH; [exact Hl1|intros; apply Hall; by right]|].
  intros [] m2 [Hl2 Hp2]. split; [done|congruence].
Qed.

(** The root of the last chunk again. *)
Lemma wp_update_again F vs m m1 :
  trees_ok F vs m → last_of 10 F ≠ [] → last_ok (chunk_depth 10 (length F)) (last_of 10 F) m1 →
  pora_chunks_merkle m1 = pora_chunks_merkle m → wp update_pora (λ _ m', trees_ok F vs m') m1.
Proof.
  intros [Hk HF Hp Hl] Hne Hl1 Hp1. assert (pora_ok (top_leaves 10 F) True vs m1) as Hpo.
  { unfold pora_ok. rewrite Hp1. eapply pora_ok_weaken; [|exact Hp]. done. }
  assert (Forall (λ x : OptionalHash, x ≠ None) (F ++ [])) as Hk0 by by rewrite app_nil_r.
  assert (last_ok (chunk_depth 10 (length F)) (last_of 10 F ++ []) m1) as Hl0 by by rewrite app_nil_r.
  eapply wp_mono; [apply (wp_grow_update F [] vs m1 Hk0 Hpo Hne Hl0)|].
  - cbn. rewrite length_last_of. pose proof (last_start_le 10 (length F)). lia.
  - intros [] m2 Hg. apply grown_within in Hg; [by rewrite app_nil_r in Hg|].
    cbn. rewrite length_last_of. pose proof (last_start_le 10 (length F)). lia.
Qed.

Lemma wp_fill_entries LF arr (n p0 off : nat) vs m :
  let entries := drop off (ca_data arr) in
  trees_ok (seg LF 0 n) vs m → sectors_ok n → array_ok LF arr → end_index arr ≤ Z.of_nat n →
  Z.of_nat (last_start 10 n) < end_index arr → (off `mod` 256 = 0)%nat → (off ≤ length (ca_data arr))%nat →
  Z.of_nat (last_start 10 n + p0) = start_index arr + Z.of_nat (off / 256) →
  wp (_ ← for_each (imap (λ i e, (i, e)) (chunks_exact (length entries) entries)) (λ ie,
        on_last (fill_leaf (p0 + ie.1) (Some (sha3_leaf ie.2))));
      update_pora) (λ _ m', trees_ok (seg LF 0 n) vs m') m.
Proof.
  intros entries Ht Hsec Hao Hend Hls Hoff Hle Hp0. pose proof (tk_last _ _ _ Ht) as Hl. apply wp_bind.
  pose proof (array_blen _ _ Hao) as [Hbl _]. unfold blen in Hbl.
  eapply wp_mono; [apply (wp_fill_last _ _ p0 _ _ Hl)|].
  - intros i e Hin. apply list_elem_of_lookup in Hin as [k Hk]. rewrite list_lookup_imap in Hk.
    apply fmap_Some in Hk as (e' & He & [= -> ->]).
    destruct (array_entry LF arr off k e' Hao Hoff Hle He) as [Hlt Hleaf].
    assert (256 * (off / 256) = off)%nat as Hdiv by (pose proof (Nat.div_mod_eq off 256); lia).
    assert (p0 + k < n - last_start 10 n)%nat as Hpos by lia.
    rewrite last_of_seg, lookup_seg by done. f_equal. apply Hleaf; [lia|]. unfold sectors_ok in *. lia.
  - intros [] m1 [Hl1 Hp1]. apply (wp_update_again _ vs m m1 Ht); [|exact Hl1|exact Hp1].
    intros Hnil%(f_equal length). rewrite last_of_seg, length_seg in Hnil. cbn in Hnil. lia.
Qed.

(** ** The roots of the chunks *)

Lemma top_leaf LF (n b : nat) :
  flow_leaves_ok LF → sectors_ok n → (b < n / 2 ^ 10)%nat →
  top_leaves 10 (seg LF 0 n) !! b = ideal_root 0 1 (LF (Z.of_nat b)).
Proof.
  intros HL Hsec Hb. assert ((b + 1) * 2 ^ 10 ≤ n)%nat as Hle.
  { transitivity (n / 2 ^ 10 * 2 ^ 10)%nat; [apply Nat.mul_le_mono_r; lia|]. pose proof (Nat.div_mod_eq n (2 ^ 10)). lia. }
  assert (batch_index_ok (Z.of_nat b)) as Hbo.
  { unfold batch_index_ok, sectors_ok in *. change (2 ^ 10)%nat with 1024%nat in *. lia. }
  pose proof (lo_len _ _ (HL _ Hbo)) as Hlen. rewrite top_leaves_deep by (rewrite length_seg; lia).
  replace n with (b * 2 ^ 10 + (2 ^ 10 + (n - (b + 1) * 2 ^ 10)))%nat at 1 by lia.
  rewrite seg_app, ideal_app by (rewrite length_seg; apply Nat.Div0.mod_mul).
  rewrite lookup_app_r; rewrite length_ideal, length_seg, width_aligned, Nat.div_mul by (done || apply Nat.Div0.mod_mul); [|done].
  rewrite Nat.sub_diag, Nat.add_0_l, seg_app, ideal_app by (rewrite length_seg; apply Nat.Div0.mod_same).
  rewrite seg_batch by done. destruct (ideal_root_some 0 1 (LF (Z.of_nat b))) as [r Hr]; [lia|by intros Hn; rewrite Hn in Hlen|].
  rewrite <-(full_chunk_root 10 1) by (done || lia). by rewrite Hr.
Qed.

(** A root comes from a complete chunk only. *)
Lemma root_complete GS LF f log (n : nat) b0 self b batch r :
  stores_ok miner GS LF f log b0 self → ends_at f n → b0 ≤ b → batch_index_ok b → Z.of_nat n < (b + 1) * 1024 →
  get_entry_batch (B := B) (lm_data_db self) b = Ok (Some batch) → root_of LF b batch r → False.
Proof.
  intros [_ (Hfo & _ & Hns)] He Hb0 Hbo Hn Hget [Hcov _]. rewrite (Hns b batch Hb0 Hbo Hget) in Hcov.
  destruct (Hcov 1023) as [Hs|(s & Hs & _)]; [pose proof (given_le b); lia| |by apply elem_of_nil in Hs].
  destruct (do_batch _ _ _ _ _ (fo_db _ _ _ _ _ Hfo) b Hbo) as (o & Ho & Hh).
  assert (o = Some batch) as -> by (change (data_db (flow_store self)) with (lm_data_db self) in Ho; congruence).
  destruct Hh as [_ Hplain]. unfold sector in Hs. rewrite read_range_is_Some in Hs. specialize (Hs 262143 ltac:(lia)).
  rewrite Hplain, He in Hs by lia. by destruct Hs.
Qed.

Lemma wp_fill_roots GS LF f log (n : nat) b0 vs self (roots : list (Z * H256)) :
  trees_ok (seg LF 0 n) vs (lm_merkle self) → stores_ok miner GS LF f log b0 self → flow_leaves_ok LF → sectors_ok n →
  (∀ b r, (b, r) ∈ roots → 0 ≤ b < Z.of_nat (n / 2 ^ 10) ∧ ideal_root 0 1 (LF b) = Some (Some r)) →
  wp (for_each roots (λ cr,
        p ← gets_ok (λ self, pora_leaves (lm_merkle self));
        if cr.1 <? p then on_merkle (on_pora (fill_leaf (Z.to_nat cr.1) (Some cr.2))) else panic))
    (λ _ self', trees_ok (seg LF 0 n) vs (lm_merkle self') ∧ stores_ok miner GS LF f log b0 self' ∧
       lm_shard_config self' = lm_shard_config self) self.
Proof.
  intros Ht Hst HL Hsec. revert self Ht Hst. induction roots as [|[b r] roots IH]; intros self Ht Hst Hall; cbn [for_each].
  { by apply wp_ret. }
  destruct (Hall b r) as [Hb Hr]; [by left|]. apply wp_bind, wp_bind.
  eapply wp_gets_ok; [apply (pora_ok_leaves _ _ _ _ (tk_pora _ _ _ Ht))|]. rewrite length_top_leaves, length_seg. cbn [fst snd].
  assert (n / 2 ^ 10 ≤ width n 10)%nat as Hw.
  { destruct (decide (n `mod` 2 ^ 10 = 0)%nat); [by rewrite width_aligned|]. rewrite width_unaligned by done. lia. }
  rewrite (proj2 (Z.ltb_lt _ _)) by lia.
  pose proof (top_leaf LF n (Z.to_nat b) HL Hsec ltac:(lia)) as Htop. rewrite Z2Nat.id, Hr in Htop by lia.
  destruct Ht as [Hk Hne Hp Hl].
  eapply wp_mono; [exact (wp_on_merkle miner GS LF f log _ _ _ _ Hst (wp_pora_fill _ _ _ _ _ _ Hp Htop))|].
  intros [] s1 ([Hp1 Hl1] & Hst1 & Hc1). eapply wp_mono; [apply IH; [split|exact Hst1|]|].
  - done.
  - done.
  - exact Hp1.
  - unfold last_ok. by rewrite Hl1.
  - intros b' r' Hin. apply Hall. by right.
  - intros [] s2 (Ht2 & Hst2 & Hc2). split_and!; [done|done|congruence].
Qed.

(** ** [append_entries] *)

(** The part of the data that is in the last chunk. *)
Lemma wp_entries_last GS LF f log (n : nat) vs self arr :
  let last_start := Z.of_nat (last_start 10 n) in
  holds_flow miner GS LF f log n vs self → sectors_ok n → array_ok LF arr → end_index arr ≤ Z.of_nat n →
  wp (when (last_start <? end_index arr)
    (let '(chunk_start_index, flow_entry_data_index) :=
       if last_start <=? start_index arr then (start_index arr - last_start, 0)
       else (0, wrap64 ((last_start - start_index arr) * ENTRY_SIZE)) in
     if blen (ca_data arr) <? flow_entry_data_index then panic
     else
       let entries := drop (Z.to_nat flow_entry_data_index) (ca_data arr) in
       on_merkle (
         _ ← for_each (imap (λ i e, (i, e)) (chunks_exact (length entries) entries)) (λ ie,
           on_last (fill_leaf (Z.to_nat chunk_start_index + ie.1) (Some (sha3_leaf ie.2))));
         update_pora)))
    (λ _ self', holds_flow miner GS LF f log n vs self' ∧ lm_shard_config self' = lm_shard_config self) self.
Proof.
  intros ls [Ht Hst] Hsec Hao Hend. pose proof (array_blen _ _ Hao) as [Hbl Hse]. pose proof (ao_start _ _ Hao) as Hs1.
  unfold sectors_ok in Hsec. destruct (Z.ltb_spec ls (end_index arr)) as [Hlt|Hge]; cbn [when]; [|by apply wp_ret].
  assert (∀ p0 off : nat, (off `mod` 256 = 0)%nat → (off ≤ length (ca_data arr))%nat →
    ls + Z.of_nat p0 = start_index arr + Z.of_nat (off / 256) →
    wp (on_merkle (_ ← for_each (imap (λ i e, (i, e)) (chunks_exact (length (drop off (ca_data arr))) (drop off (ca_data arr)))) (λ ie,
           on_last (fill_leaf (p0 + ie.1) (Some (sha3_leaf ie.2)))); update_pora))
      (λ _ self', holds_flow miner GS LF f log n vs self' ∧ lm_shard_config self' = lm_shard_config self) self) as Hfill.
  { intros p0 off Hoff Hle Hp0. eapply wp_mono.
    - eapply (wp_on_merkle miner GS LF f log _ _ _ _ Hst), wp_fill_entries; [exact Ht|done..|]. lia.
    - intros [] s1 (Ht1 & Hst1 & Hc1). done. }
  destruct (Z.leb_spec ls (start_index arr)) as [Hin|Hcut].
  - rewrite (proj2 (Z.ltb_ge _ _)) by (unfold blen; lia). change (Z.to_nat 0) with 0%nat.
    apply Hfill; [done|lia|]. rewrite Nat.Div0.div_0_l. lia.
  - assert (Z.of_nat (Z.to_nat (ls - start_index arr) * 256) = wrap64 ((ls - start_index arr) * ENTRY_SIZE)) as Hoff.
    { unfold ENTRY_SIZE. rewrite wrap64_small; lia. }
    rewrite <-Hoff. rewrite (proj2 (Z.ltb_ge _ _)) by lia. rewrite Nat2Z.id. change (Z.to_nat 0) with 0%nat.
    apply Hfill; [apply Nat.Div0.mod_mul|unfold blen in Hbl; lia|]. rewrite Nat.div_mul by done. lia.
Qed.

Lemma put_flow_ends config f arr (n : nat) LF : array_ok LF arr → end_index arr ≤ Z.of_nat n → ends_at f n → ends_at (put_flow config arr f) n.
Proof.
  intros Hao Hend He x Hx. pose proof (array_blen _ _ Hao) as [Hbl _]. unfold put_flow. rewrite bool_decide_false; [by apply He|].
  intros [[_ Hhi] _]. lia.
Qed.

Lemma wp_append_entries GS LF f log (n : nat) vs self arr :
  holds_flow miner GS LF f log n vs self → flow_leaves_ok LF → sectors_ok n → ends_at f n →
  array_ok LF arr → end_index arr ≤ Z.of_nat n → insertable (lm_shard_config self) arr f →
  wp (LogManager.append_entries (B := B) now arr)
    (λ _ self', holds_flow miner GS LF (put_flow (lm_shard_config self) arr f) log n vs self' ∧
       lm_shard_config self' = lm_shard_config self) self.
Proof.
  intros Hh HL Hsec He Hao Hend Hins. unfold LogManager.append_entries. pose proof (ao_start _ _ Hao) as Hs1.
  pose proof (array_blen _ _ Hao) as [Hbl Hse].
  assert (wrap64 (start_index arr + bytes_to_chunks (blen (ca_data arr))) = end_index arr) as ->.
  { unfold bytes_to_chunks, end_index, CHUNK_SIZE. rewrite (ao_sectors _ _ Hao). cbn [Z.eqb].
    unfold sectors_ok, end_index in *. rewrite wrap64_small; lia. }
  apply wp_bind. eapply wp_gets_ok.
  { rewrite (last_chunk_start_spec _ _ _ (proj1 Hh)); rewrite length_seg; [done|unfold sectors_ok in Hsec; lia]. }
  apply wp_bind. eapply wp_mono; [by apply (wp_entries_last GS LF f log n vs self arr Hh)|]. intros [] s1 [[Ht1 Hst1] Hc1].
  rewrite <-Hc1 in Hins. apply wp_bind.
  eapply wp_mono; [apply (wp_flow_append miner GS LF f log _ s1 arr _ Hst1 Hao Hins)|].
  intros roots s2 (Hst2 & [_ Hroots] & Hm2 & Hc2). rewrite <-Hm2 in Ht1. rewrite Hc1 in Hst2.
  eapply wp_mono; [apply (wp_fill_roots GS LF _ log n _ vs s2 roots Ht1 Hst2 HL Hsec)|].
  - intros b r Hin. apply Hroots in Hin as (Htouch & _ & batch & Hget & Hroot). split; [|apply Hroot].
    assert (0 ≤ b) as Hb0 by (unfold touched in Htouch; pose proof (Z.div_pos (start_index arr) 1024); lia). split; [done|].
    destruct (Z.lt_ge_cases b (Z.of_nat (n / 2 ^ 10))) as [|Hge]; [done|]. exfalso.
    assert (Z.of_nat (n / 2 ^ 10) = Z.of_nat n / 1024) as Hdiv by apply (Nat2Z.inj_div n (2 ^ 10)).
    assert (b ≤ Z.of_nat n / 1024) as Hble.
    { unfold touched in Htouch. transitivity ((end_index arr - 1) / 1024); [lia|]. apply Z.div_le_mono; lia. }
    eapply (root_complete GS LF _ log n _ s2 b batch r Hst2); [by eapply put_flow_ends|done| |lia|exact Hget|exact Hroot].
    unfold batch_index_ok, sectors_ok in *. lia.
  - intros [] s3 (Ht3 & Hst3 & Hc3). split; [done|congruence].
Qed.

(** Data that a batch holds in part is refused, after its leaves are filled in. *)
Lemma append_entries_refused GS LF f log (n : nat) vs self arr b :
  holds_flow miner GS LF f log n vs self → sectors_ok n → array_ok LF arr → end_index arr ≤ Z.of_nat n →
  clashes (lm_shard_config self) arr f b →
  ∃ msg self', LogManager.append_entries (B := B) now arr self = (Err msg, self') ∧
    trees_ok (seg LF 0 n) vs (lm_merkle self') ∧ flow_ok (B := B) miner GS LF f (flow_store self').
Proof.
  intros Hh Hsec Hao Hend Hc. unfold LogManager.append_entries. pose proof (ao_start _ _ Hao) as Hs1.
  pose proof (array_blen _ _ Hao) as [Hbl Hse].
  assert (wrap64 (start_index arr + bytes_to_chunks (blen (ca_data arr))) = end_index arr) as ->.
  { unfold bytes_to_chunks, end_index, CHUNK_SIZE. rewrite (ao_sectors _ _ Hao). cbn [Z.eqb].
    unfold sectors_ok, end_index in *. rewrite wrap64_small; lia. }
  destruct (wp_run _ _ _ (wp_entries_last GS LF f log n vs self arr Hh Hsec Hao Hend)) as ([] & s1 & Hrun & [Ht1 Hst1] & Hc1).
  rewrite <-Hc1 in Hc. destruct Hst1 as [_ (Hfo & _ & _)].
  destruct (append_entries_clash (NM := NM) miner GS LF f arr (now arr) (flow_store s1) b Hfo Hao Hc) as (msg & m' & Herr).
  exists msg, (set_flow_store (with_tasks m' (flow_store s1)) s1). split_and!.
  - unfold mbind at 1, M_bind at 1, gets_ok. rewrite (last_chunk_start_spec _ _ _ (proj1 Hh)); [|rewrite length_seg; unfold sectors_ok in Hsec; lia].
    rewrite length_seg. unfold mbind, M_bind in Hrun |- *. rewrite Hrun. unfold on_flow, zoom. by rewrite Herr.
  - exact Ht1.
  - by destruct Hfo.
Qed.

End log_entries.

(** * What the log manager promises: it holds a log of transactions, the leaves
    of the flow they make up and the bytes that were given for it, and keeps
    them under its operations. *)

(** ** Opening an empty tree *)

Section fresh.
Context `{Keccak}.
Context {NMt : Type} `{!NodeStore NMt OptionalHash, !NodeStoreLaws NMt OptionalHash}.

Lemma tree_run_wp {NM : Type} (m : M (AppendMerkleTree NM OptionalHash) ()) (t : AppendMerkleTree NM OptionalHash) (Q : AppendMerkleTree NM OptionalHash → Prop) :
  wp m (λ _ t', Q t') t → ∃ t', EntryBatch.run m t = Ok t' ∧ Q t'.
Proof. intros (u & t' & Hm & HQ)%wp_run. exists t'. unfold EntryBatch.run. by rewrite Hm. Qed.

Lemma fresh_top (s : NMt) (lh : nat) :
  rep s false [] →
  ∃ t t' : AppendMerkleTree NMt OptionalHash, new_with_subtrees (Ok s) lh = Ok t ∧ leaves t = Ok 0%nat ∧
    EntryBatch.run reset t = Ok t' ∧ refines lh 1 (Log [] 0 ∅) t'.
Proof.
  intros Hr. set (t0 := Tree_mk s ∅ ∅ None lh : AppendMerkleTree NMt OptionalHash).
  assert (∃ t, new_with_subtrees (Ok s) lh = Ok t ∧ tree_at t0 false [[]] t) as (t & Hnew & Hat).
  { unfold new_with_subtrees. rewrite bind_Ok. apply build_wp. fold t0.
    assert (tree_at t0 false [] t0) as Hat0 by by apply tree_at_init.
    apply wp_bind. eapply wp_get_height; [done|]. cbn [length]. rewrite bool_decide_true by done.
    unfold when. apply wp_bind. eapply wp_start; [done|]. intros t1 Hat1.
    apply wp_bind. eapply wp_add_layer; [done|]. intros t2 Hat2. by eapply wp_commit_tx. }
  assert (∃ t', EntryBatch.run reset t = Ok t' ∧ tree_at t0 false [[]] t') as (t' & Hreset & Hat').
  { apply tree_run_wp. unfold reset. apply wp_bind. eapply wp_start; [done|]. intros t1 Hat1.
    apply wp_bind. eapply wp_get_height; [done|]. apply wp_bind.
    change (length [[]]) with (length [[] : list OptionalHash] - 0)%nat. eapply wp_truncate_layers; [done|lia|]. intros t2 Hat2.
    apply wp_bind, wp_gets. destruct (tree_at_same _ _ _ _ Hat2) as (_ & _ & -> & _). cbn [min_depth t0].
    apply wp_bind. eapply wp_add_layer; [done|]. intros t3 Hat3. by eapply wp_commit_tx. }
  exists t, t'. destruct (tree_at_same _ _ _ _ Hat') as (Hd & Hrt & _ & Hlh). split_and!; [done| |done|].
  - unfold leaves. eapply (reads_len _ _ _ (rep_reads _ _ _ (tree_at_rep _ _ _ _ Hat)) 0 []). done.
  - split; [by rewrite Hlh|]. exists [[]]. split; [|by apply versions_empty].
    eapply tree_at_inv; [lia|done|rewrite <-Hlh; by apply (empty_layers_ok _ 1)|apply (empty_frontier 1)|cbn; lia].
Qed.

End fresh.

Section log_spec.
Context `{Keccak, Bitmap64 B, !Bitmap64Laws B, KeyValueDBLaws KV, !KeyValueIter KV, !KeyValueIterLaws KV}.
Context {NMt NM : Type} `{!NodeStore NMt OptionalHash, !NodeStoreLaws NMt OptionalHash}.
Context `{!NodeStore NM OptionalHash, !NodeStoreLaws NM OptionalHash}.
Context (miner : H256).
Local Abbreviation manager := (LogManager KV (MerkleManager NMt NM)).
Implicit Types (GS : Z → Z → SealContextInfo) (LF : Z → list OptionalHash) (f : Z → option Z) (log : tx_log).
Implicit Types (self : manager) (vs : gmap nat (list OptionalHash * bool)) (m : MerkleManager NMt NM) (arr : ChunkArray).
Implicit Types (tx : Transaction) (hist : gmap nat nat).

(** [hist] gives for a committed transaction the length of the flow after it. *)
Definition hist_ok LF hist vs : Prop :=
  ∀ s, fst <$> vs !! s = (λ n, top_leaves 10 (seg LF 0 n)) <$> hist !! s.

Record manager_ok GS LF f log (n : nat) hist self : Prop := {
  mo_flow : ∃ vs, holds_flow miner GS LF f log n vs self ∧ hist_ok LF hist vs;
  mo_hist : ∀ s, is_Some (hist !! s) → Z.of_nat s < tl_len log ∧ is_Some (hist !! (Z.to_nat (tl_len log) - 1)%nat);
  mo_sectors : sectors_ok n;
  mo_ends : ends_at f n;
}.

Lemma hist_is_Some LF hist vs s : hist_ok LF hist vs → is_Some (vs !! s) ↔ is_Some (hist !! s).
Proof.
  intros Hh. specialize (Hh s). destruct (vs !! s), (hist !! s); cbn in Hh; try done; split; intros [? ?]; eauto; done.
Qed.

Lemma holds_leaves GS LF f log n vs self : holds_flow miner GS LF f log n vs self → flow_leaves_ok LF.
Proof. intros [_ [_ (Hfo & _ & _)]] b Hb. by apply (do_leaves _ _ _ _ _ (fo_db _ _ _ _ _ Hfo)). Qed.

(** ** A new node *)

Definition kv_fresh (kv : KV) : Prop := kv_writable kv ∧ kv_map kv = ∅.

Lemma fresh_stores GS LF (flow_kv data_kv : KV) config created m :
  kv_fresh flow_kv → kv_fresh data_kv → num_shard config ≠ 0 → (∀ b, context_map (GS b)) → flow_leaves_ok LF →
  stores_ok miner GS LF (λ _, None) (TxLog [] ∅ ∅) 0
    (LogManager_mk flow_kv data_kv 0 (seal_manager (flow_store_new flow_kv data_kv 1024 config created)) 1024 config m).
Proof.
  intros [Hwf Hf] [Hwd Hd] Hsh HG HL. split.
  - apply tx_reach_ok, (tx_reach_new flow_kv data_kv); try done.
    + intros. by rewrite Hf.
    + intros. by rewrite Hd.
    + unfold tx_store_new. rewrite kv_get_map, Hf, bind_Ok. done.
  - pose proof (flow_new_ok (B := B) miner GS LF flow_kv data_kv config created Hwd ltac:(by intros; rewrite Hd) Hsh HG HL) as Hfo.
    split_and!; [exact Hfo|by intros idx v Hv|].
    intros b batch _ Hb. unfold get_entry_batch. cbn. by rewrite kv_get_map, Hd, bind_Ok.
Qed.

(** The trees of a new node have the first leaf of the flow. *)
Lemma wp_try_initialize LF (fs : FlowStore KV) m (t : AppendMerkleTree NM OptionalHash) :
  flow_leaves_ok LF → refines 10 1 (Log [] 0 ∅) (pora_chunks_merkle m) →
  new_with_depth ([] : list OptionalHash) 1 None = Ok t → last_chunk_merkle m = t →
  wp (try_initialize (B := B) fs) (λ _ m', trees_ok (seg LF 0 1) ∅ m') m.
Proof.
  intros HL Hp Hnew Hm. assert (seg LF 0 1 = [Some h256_zero]) as Hseg.
  { unfold seg. cbn. f_equal. unfold leaf_of.
    pose proof (lo_given _ _ (HL 0 ltac:(done)) 0%nat ltac:(cbn; lia)) as Hg.
    exact (f_equal (λ o : option OptionalHash, match o with Some x => x | None => None end) Hg). }
  assert (pora_ok [] False ∅ m) as Hpo by (by exists 0%nat).
  destruct (new_with_depth_spec (NM := NM) (E := OptionalHash) [] 1) as (t0 & Ht0 & Hlh & L & Hi & _); [lia|done|].
  assert (t0 = t) as -> by congruence.
  unfold try_initialize. apply wp_bind. eapply wp_gets_ok; [apply (pora_ok_leaves _ _ _ _ Hpo)|].
  apply wp_bind. eapply wp_gets_ok; [unfold last_leaves; by rewrite Hm, (tree_leaves _ _ _ _ _ Hi)|].
  cbn [length Z.of_nat Z.eqb andb]. apply wp_bind.
  eapply wp_mono; [by apply (wp_last_first m t (Some h256_zero) Hnew Hm)|]. intros [] m1 [Hl1 Hp1].
  destruct (last_ok_root _ _ _ Hl1 ltac:(done)) as (r & Hroot & Hn & Hir).
  unfold update_pora. apply wp_bind. eapply wp_gets_ok; [exact Hroot|]. rewrite <-Hp1 in Hp.
  eapply wp_mono; [eapply (wp_pora_step _ _ _ _ Hp); apply (ls_update_last 10 1 [] 0 ∅ r); [done|cbn; lia|done]|].
  intros [] m2 [Hp2 Hl2]. rewrite Hseg.
  assert (top_leaves 10 ([Some h256_zero] : list OptionalHash) = [r]) as Htop.
  { rewrite top_leaves_first; [exact (f_equal option_list Hir)|]. apply Nat.ltb_lt. reflexivity. }
  split.
  - by repeat constructor.
  - done.
  - exists 0%nat. rewrite Htop. split; [exact Hp2|]. intros _. split; [cbn; lia|done].
  - unfold last_ok. rewrite Hl2. exact Hl1.
Qed.

Lemma pora_root X o vs m :
  pora_ok X o vs m → X ≠ [] → ∃ r : H256, root (pora_chunks_merkle m) = Ok (Some r) ∧ ideal_root 10 1 X = Some (Some r).
Proof.
  intros (a & (Hlh & L & [Hd Hr Hok Hf Ha] & _) & _) HX. apply rep_reads in Hr. rewrite Hlh in *.
  destruct (reads_root _ _ _ _ _ _ Hd Hr Hok Hf Ha HX) as ([r|] & Hroot & Hn & Hir); [|done]. by exists r.
Qed.

Lemma get_context_spec LF (n : nat) vs self :
  trees_ok (seg LF 0 n) vs (lm_merkle self) → sectors_ok n →
  ∃ r, get_context self = Ok (r, Z.of_nat n) ∧ ideal_root 0 1 (seg LF 0 n) = Some (Some r).
Proof.
  intros Ht Hn. destruct (pora_root _ _ _ _ (tk_pora _ _ _ Ht)) as (r & Hroot & Hir).
  { intros Htop%(f_equal length). rewrite length_top_leaves, length_seg in Htop. pose proof (trees_pos _ _ _ _ Ht).
    pose proof (width_pos n 10). cbn in Htop. lia. }
  rewrite top_root in Hir. exists r. split; [|done]. unfold get_context. rewrite Hroot, bind_Ok. cbn [expect]. rewrite bind_Ok.
  destruct (flow_length_spec LF n vs _ Ht Hn) as (start & l & -> & Hl & Hlen). by rewrite bind_Ok, Hl, bind_Ok, Hlen.
Qed.

Context (now : ChunkArray → Z → Z).

Lemma log_manager_new_spec GS LF (flow_kv data_kv : KV) (top : NMt) config created :
  kv_fresh flow_kv → kv_fresh data_kv → rep top false [] → num_shard config ≠ 0 → (∀ b, context_map (GS b)) → flow_leaves_ok LF →
  ∃ self, log_manager_new (B := B) (NM := NM) now flow_kv data_kv (Ok top) 1024 config created = Ok self ∧
    manager_ok GS LF (λ _, None) (TxLog [] ∅ ∅) 1 ∅ self.
Proof.
  intros Hf Hd Hr Hsh HG HL. destruct (fresh_top top 10 Hr) as (t & t' & Hnew & _ & Hreset & Href).
  destruct (new_with_depth_spec (NM := NM) (E := OptionalHash) [] 1) as (tl & Htl & Hlh & L & Hi & _); [lia|done|].
  assert (tx_store_new flow_kv data_kv = Ok (TransactionStore_mk flow_kv data_kv 0)) as Hts.
  { unfold tx_store_new. by rewrite kv_get_map, (proj2 Hf), bind_Ok. }
  unfold log_manager_new. rewrite Hts, bind_Ok. change (Z.to_nat (log2_pow2 PORA_CHUNK_SIZE)) with 10%nat.
  rewrite Hnew, bind_Ok. cbn [next_tx_seq]. change (0 <? 0) with false. cbv iota. rewrite bind_Ok.
  rewrite Hreset, bind_Ok, Htl, !bind_Ok, (tree_leaves _ _ _ _ _ Hi), bind_Ok. cbn [length log_leaves].
  rewrite bool_decide_true, bind_Ok by done. cbn [fmap option_fmap option_map commit EntryBatch.run mret M_ret]. rewrite bind_Ok.
  set (self0 := LogManager_mk _ _ _ _ _ _ _).
  pose proof (fresh_stores GS LF flow_kv data_kv config created (MerkleManager_mk t' tl) Hf Hd Hsh HG HL) as Hst. fold self0 in Hst.
  match goal with |- ∃ _, (let (_, _) := ?m self0 in _) = _ ∧ _ =>
    assert (wp m (λ _ self', holds_flow miner GS LF (λ _, None) (TxLog [] ∅ ∅) 1 ∅ self') self0) as Hwp end.
  { apply wp_bind, wp_ret, wp_bind, wp_gets, wp_bind.
    eapply wp_mono; [exact (wp_on_merkle miner GS LF _ _ _ _ _ _ Hst (wp_try_initialize LF _ (lm_merkle self0) tl HL Href Htl eq_refl))|].
    intros [] s1 (Ht1 & Hst1 & _). destruct (get_context_spec LF 1 ∅ s1 Ht1 ltac:(done)) as (r & Hctx & _).
    apply wp_bind. eapply wp_gets_ok; [exact Hctx|]. apply wp_ret. split; [done|]. eapply stores_ok_later; [exact Hst1|done]. }
  apply wp_run in Hwp as ([] & s1 & -> & Hh). exists s1. split; [done|]. split; [| |done|done].
  - exists ∅. split; [done|]. intros s. by rewrite !lookup_empty.
  - intros s [? Hs]. by rewrite lookup_empty in Hs.
Qed.

(** ** A transaction *)

Lemma nodes_at_sectors LF (n n' : nat) nodes : nodes_at LF n nodes n' → sectors_ok n → sectors_ok n'.
Proof.
  revert n. induction nodes as [|dr nodes IH]; intros n; cbn [nodes_at]; [by intros ->|].
  intros [(_ & _ & Hs & _) Hns] _. by eapply IH.
Qed.

Lemma nodes_at_le LF (n n' : nat) nodes : nodes_at LF n nodes n' → (n ≤ n')%nat.
Proof. revert n. induction nodes as [|dr nodes IH]; intros n; cbn [nodes_at]; [by intros ->|]. intros [_ Hns%IH]. lia. Qed.

(** The subtrees of [tx] are those of the flow: [n] sectors before the
    transaction, [n'] after it, padding up to its start. *)
Definition tx_extends LF (n n' : nat) tx : Prop :=
  if bool_decide (merkle_nodes tx = []) then n' = n
  else ∃ s : nat, start_entry_index tx = Z.of_nat s ∧ (n ≤ s)%nat ∧ sectors_ok s ∧ zeros_at LF n (s - n) ∧ pad_fits n s ∧
         nodes_at LF s (merkle_nodes tx) n'.

(** The bytes that inserting [tx] writes. *)
Definition tx_flow config (n : nat) tx f : Z → option Z :=
  if bool_decide (merkle_nodes tx = []) then f else pad_flow config n (Z.to_nat (start_entry_index tx)) f.

Lemma wp_append_subtrees GS LF f log (n n' : nat) vs self tx seq :
  holds_flow miner GS LF f log n vs self → ends_at f n → sectors_ok n → tx_extends LF n n' tx →
  wp (append_subtree_list (B := B) now seq (start_entry_index tx) (merkle_nodes tx))
    (λ _ self', holds_flow miner GS LF (tx_flow (lm_shard_config self) n tx f) log n' vs self' ∧
       lm_shard_config self' = lm_shard_config self) self ∧
  sectors_ok n' ∧ ends_at (tx_flow (lm_shard_config self) n tx f) n'.
Proof.
  intros Hh He Hsec Hx. pose proof (holds_leaves _ _ _ _ _ _ _ Hh) as HL. unfold append_subtree_list, tx_extends, tx_flow in *.
  destruct (bool_decide (merkle_nodes tx = [])); [subst n'; split; [by apply wp_ret|done]|].
  destruct Hx as (s & Hs & Hle & Hss & Hz & Hfit & Hnodes). rewrite Hs, Nat2Z.id. split_and!.
  - apply wp_bind. eapply wp_mono; [by apply (wp_pad_tx miner now GS LF f log n s vs self seq Hh HL)|]. intros [] s1 [Hh1 Hc1].
    eapply wp_mono; [exact (wp_append_tx_nodes miner GS LF _ log s n' vs s1 _ Hh1 HL Hnodes)|]. intros [] s2 [Hh2 Hc2].
    split; [done|congruence].
  - by eapply nodes_at_sectors.
  - pose proof (nodes_at_le _ _ _ _ Hnodes). intros x Hxx. apply (pad_flow_ends _ n s f He Hle). lia.
Qed.

(** A transaction after those in the log, with no finalized one to copy from. *)
Record next_tx LF log (n n' : nat) tx tx' : Prop := {
  nt_seq : tx_seq tx = tl_len log;
  nt_len : tl_len log + 1 < 2 ^ 64;
  nt_root : root_consistent tx tx';
  nt_typed : tx_typed tx';
  nt_flow : tx_extends LF n n' tx;
  nt_new : ∀ old, head (root_index log (data_merkle_root tx)) = Some old → tl_status log !! old ≠ Some Finalized;
}.

Lemma commit_hist LF hist vs (s n : nat) b :
  hist_ok LF hist vs → hist_ok LF (<[s := n]> hist) (<[s := (top_leaves 10 (seg LF 0 n), b)]> vs).
Proof.
  intros Hh i. destruct (decide (s = i)) as [->|Hne]; [by rewrite !lookup_insert_eq|]. rewrite !lookup_insert_ne by done. apply Hh.
Qed.

Lemma wp_put_tx GS LF f log (n n' : nat) hist self tx tx' :
  manager_ok GS LF f log n hist self → next_tx LF log n n' tx tx' →
  wp (LogManager.put_tx (B := B) now tx)
    (λ _ self', manager_ok GS LF (tx_flow (lm_shard_config self) n tx f) (log_append log tx') n'
                  (<[Z.to_nat (tl_len log) := n']> hist) self' ∧
       lm_shard_config self' = lm_shard_config self) self.
Proof.
  intros [(vs & Hh & Hhist) Hdom Hsec He] [Hseq Hlen Hroot Hty Hx Hnew]. pose proof (proj2 Hh) as Hst.
  pose proof (tl_len_nonneg log) as Hnn. unfold LogManager.put_tx. apply wp_bind, wp_gets.
  assert (lm_next_tx_seq self = tl_len log) as Hnext by exact (so_next _ _ (sk_tx _ _ _ _ _ _ _ Hst)).
  rewrite Hnext, Hseq, Z.eqb_refl. apply wp_bind, wp_ret, wp_bind.
  eapply wp_mono; [eapply (wp_on_tx miner GS LF f log (log_append log tx') _ self _ (λ l, l = root_index log (data_merkle_root tx)) Hst)|].
  { apply put_tx_frame. }
  { eapply wp_mono; [by apply (put_tx_spec log (tx_store self) tx tx' (sk_tx _ _ _ _ _ _ _ Hst))|]. by intros l s' [-> Hs']. }
  intros l s1 (Hst1 & -> & Hm1 & Hc1).
  assert (holds_flow miner GS LF f (log_append log tx') n vs s1) as Hh1 by (split; [rewrite Hm1; apply Hh|done]).
  destruct (wp_append_subtrees GS LF f _ n n' vs s1 tx (tl_len log) Hh1 He Hsec Hx) as (Hwp & Hsec' & He').
  rewrite Hc1 in Hwp, He'. apply wp_bind. eapply wp_mono; [exact Hwp|]. intros [] s2 [[Ht2 Hst2] Hc2]. apply wp_bind.
  assert (∀ s', is_Some (vs !! s') → (s' < Z.to_nat (tl_len log))%nat ∧ is_Some (vs !! (Z.to_nat (tl_len log) - 1)%nat)) as Hvs.
  { intros s' Hs'. apply (hist_is_Some _ _ _ _ Hhist) in Hs'. destruct (Hdom s' Hs') as [Hlt Hsome].
    split; [lia|]. by apply (hist_is_Some _ _ _ _ Hhist). }
  eapply wp_mono; [exact (wp_on_merkle miner GS LF _ _ _ _ _ _ Hst2 (wp_commit_merkle _ _ _ (tl_len log) Ht2 Hvs))|].
  intros [] s3 ((b & Ht3) & Hst3 & Hc3).
  assert (manager_ok GS LF (tx_flow (lm_shard_config self) n tx f) (log_append log tx') n' (<[Z.to_nat (tl_len log) := n']> hist) s3) as Hok.
  { split; [|rewrite tl_len_append|done|done].
    - eexists. split; [by split|]. by apply commit_hist.
    - intros s. replace (Z.to_nat (tl_len log + 1) - 1)%nat with (Z.to_nat (tl_len log)) by lia. rewrite lookup_insert_eq.
      intros Hs. split; [|by eexists]. destruct (decide (Z.to_nat (tl_len log) = s)) as [<-|Hne]; [lia|].
      rewrite lookup_insert_ne in Hs by done. destruct (Hdom s Hs). lia. }
  assert (lm_shard_config s3 = lm_shard_config self) as Hcfg by congruence.
  destruct (head (root_index log (data_merkle_root tx))) as [old|] eqn:Hold; [|by apply wp_ret].
  apply wp_bind. assert (check_tx_completed (tx_store s3) old = Ok false) as Hdone.
  { unfold check_tx_completed. rewrite (get_status_spec (log_append log tx') _ old (sk_tx _ _ _ _ _ _ _ Hst3)).
    - rewrite bind_Ok. cbn [tl_status log_append]. specialize (Hnew old eq_refl). by destruct (tl_status log !! old) as [[]|].
    - apply head_Some_elem_of, elem_of_root_index in Hold. lia. }
  eapply wp_gets_ok; [exact Hdone|]. by apply wp_ret.
Qed.

End log_spec.
