(* ===== verification/LogOps.v ===== *)
(** The log manager for its readers: proofs for the sectors of the flow, ranges of
    transactions, and the chunks it is given. *)

From stdpp Require Import sorting list_numbers.
From S2P Require Import Prelude HashElement Ssz SszFacts MerkleSpec MerkleProof MerkleProofComplete MerkleProofSound NodeStore AppendMerkle.
From S2P Require Import TreeRules Recompute TreeOps TreeFill TreeHistory TreeRefine TreeSpec TreeTiles.
From S2P Require Import ProofConvert ChunkRoots Bytes FlowDb Shard MerkleLight SharedTypes Seal ChunkData ChunkDataFacts.
From S2P Require Import ChunkDataInsert SealInfo EntryBatch EntryBatchFacts Serde BatchRoot BatchTheorems.
From S2P Require Import BatchStored FlowStore FlowStoreFacts FlowAppend FlowTruncate FlowSeal FlowReach.
From S2P Require Import TxStore TxStoreFacts LogManager DbFrame LogTrees LogInv LogPad LogSpec.
Local Open Scope nat_scope.

Section compose.
Context `{Keccak}.
Implicit Types (p top sub : proof H256) (x y r : H256).

(** A proof as it is built: the leaf, the siblings, the root. *)
Definition proof_wf p : Prop := length (lemma p) = length (path p) + 2.

Lemma proof_wf_split p : proof_wf p → ∃ x ss r, lemma p = x :: ss ++ [r] ∧ length ss = length (path p).
Proof.
  unfold proof_wf. destruct (lemma p) as [|x l]; [cbn; lia|]. destruct l as [|r ss _] using rev_ind; [cbn; lia|].
  intros Hlen. exists x, ss, r. split; [done|]. cbn in Hlen. rewrite length_app in Hlen. cbn in Hlen. lia.
Qed.

Lemma integrity_loop_app (h : H256) ls ls' bs bs' :
  length bs = length ls → integrity_loop h (ls ++ ls') (bs ++ bs') = (h' ← integrity_loop h ls bs; integrity_loop h' ls' bs').
Proof.
  revert h bs. induction ls as [|l ls IH]; intros h [|b bs] Hlen; try done. cbn [app integrity_loop]. apply IH. cbn in Hlen. lia.
Qed.

Lemma validate_cons_snoc (x r : H256) ss bs y pos :
  validate (Proof_mk (x :: ss ++ [r]) bs) y pos = Ok tt ↔ integrity_loop x ss bs = Ok r ∧ y = x ∧ pos = position_from 0 bs.
Proof.
  unfold validate. rewrite validate_integrity_cons_snoc. unfold item, position. cbn [lemma head expect path].
  destruct (integrity_loop x ss bs) as [h| | |]; cbn; [|naive_solver..].
  destruct (bool_decide (h = r)) eqn:Hh; cbn; [apply bool_decide_eq_true in Hh|apply bool_decide_eq_false in Hh; naive_solver].
  subst h. case_bool_decide; [naive_solver|]. case_bool_decide; naive_solver.
Qed.

Lemma entry_proof_spec top sub x y i j :
  proof_wf top → proof_wf sub → validate sub x j = Ok tt → proof_root sub = Ok y → validate top y i = Ok tt →
  ∃ p, entry_proof top sub = Ok p ∧ proof_wf p ∧ validate p x (j + 2 ^ length (path sub) * i) = Ok tt ∧ proof_root p = proof_root top.
Proof.
  intros (xt & st & rt & Ht & Hlt)%proof_wf_split (xs & ss & rs & Hs & Hls)%proof_wf_split.
  destruct top as [lt bt], sub as [lsub bs]. cbn [lemma path] in *. subst lt lsub.
  rewrite validate_cons_snoc, proof_root_cons_snoc, validate_cons_snoc. intros (Hsub & -> & ->) [= ->] (Htop & -> & ->).
  unfold entry_proof. cbn [item lemma head expect]. unfold item. cbn [lemma head expect].
  rewrite bind_Ok, proof_root_cons_snoc, bind_Ok, bool_decide_false by auto. cbn [lemma path].
  assert (take (length (xs :: ss ++ [xt]) - 1) (xs :: ss ++ [xt]) ++ drop 1 (xt :: st ++ [rt]) = xs :: (ss ++ st) ++ [rt]) as ->.
  { cbn [length drop]. rewrite length_app, drop_0. cbn [length]. replace (S (length ss + 1) - 1) with (S (length ss)) by lia.
    cbn [take app]. rewrite take_app_length. by rewrite <-app_assoc. }
  unfold proof_new. rewrite bool_decide_false by (cbn [length]; rewrite !length_app; cbn [length]; lia).
  eexists. split; [done|]. split_and!.
  - unfold proof_wf. cbn [lemma path length]. rewrite !length_app. cbn [length]. lia.
  - apply validate_cons_snoc. split_and!; [|done|].
    + by rewrite integrity_loop_app, Hsub, bind_Ok by lia.
    + rewrite position_from_app, Nat.add_0_l, (position_inv (length bs)). lia.
  - by rewrite !proof_root_cons_snoc.
Qed.

End compose.

(** ** One tree *)

(** What a call may give: an error, or a value with [P]; it does not panic. *)
Definition or_error {A} (P : A → Prop) (o : outcome A) : Prop :=
  match o with Ok a => P a | Err _ => True | Panic | Diverge => False end.

Lemma or_error_bind {A B} (P : A → Prop) (Q : B → Prop) (o : outcome A) (f : A → outcome B) :
  or_error P o → (∀ a, P a → or_error Q (f a)) → or_error Q (o ≫= f).
Proof. destruct o; cbn; auto. Qed.

Lemma or_error_mono {A} (P Q : A → Prop) (o : outcome A) : or_error P o → (∀ a, P a → Q a) → or_error Q o.
Proof. destruct o; cbn; auto. Qed.

Section tree_proof.
Context `{Keccak}.
Context `{!MerkleTreeRead T OptionalHash}.
Implicit Types (F : list OptionalHash) (L : list (list OptionalHash)) (t : T).

Lemma gen_proof_or_error t lh d F L i :
  1 ≤ d → reads t lh L → layers_ok lh d F L → i < length F → or_error (λ _, True) (MerkleProof.gen_proof t i).
Proof.
  intros Hd Hr Hok Hi. pose proof (lok_depth _ _ _ _ Hok) as HL.
  destruct (proj1 (depth_of_spec d (length F) (length L) Hd) HL) as (Hd' & Hn & _).
  destruct (lookup_lt_is_Some_2 L 0) as [l0 Hl0]; [lia|]. destruct (lookup_lt_is_Some_2 L (length L - 1)) as [lt Hlt]; [lia|].
  pose proof (consistent_length _ _ (lok_layer _ _ _ _ Hok _ _ Hl0)) as Hlen0. cbn [ideal] in Hlen0.
  pose proof (consistent_length _ _ (lok_layer _ _ _ _ Hok _ _ Hlt)) as Hlent. rewrite length_ideal in Hlent.
  destruct (lookup_lt_is_Some_2 l0 i) as [x Hx]; [exact (Nat.lt_le_trans _ _ _ Hi (Nat.eq_le_incl _ _ (eq_sym Hlen0)))|].
  destruct (lookup_lt_is_Some_2 lt 0) as [r Hrt]; [rewrite Hlent; apply width_pos; lia|].
  unfold MerkleProof.gen_proof, leaves. rewrite (reads_len _ _ _ Hr _ _ Hl0), bind_Ok. case_bool_decide; [done|].
  rewrite (reads_node _ _ _ Hr _ _ _ _ Hl0 Hx), bind_Ok. destruct (is_null x); [done|].
  unfold root. rewrite (reads_height _ _ _ Hr), (reads_node _ _ _ Hr _ _ _ _ Hlt Hrt), !bind_Ok.
  case_bool_decide; [done|].
  destruct (gen_proof_loop_spec t lh d F L 0 i (length L - 1) [x] []) as (ss & -> & _); [done|done|lia|exact Hi|].
  rewrite !bind_Ok. destruct (existsb is_null _); [done|]. unfold proof_new. by case_bool_decide.
Qed.

(** A proof of leaf [i] that the root of the tree validates. *)
Definition proves lh d F (i : nat) (p : proof H256) : Prop :=
  ∃ x r : H256, F !! i = Some (Some x) ∧ ideal_root lh d F = Some (Some r) ∧ validate p x i = Ok tt ∧ proof_root p = Ok r ∧
    proof_wf p ∧ length (path p) = depth_of d (length F) - 1.

Lemma tree_proof_outcome t lh d F L i :
  1 ≤ d → reads t lh L → layers_ok lh d F L → i < length F →
  or_error (proves lh d F i) (p ← MerkleProof.gen_proof t i; convert_proof_to_h256 p).
Proof.
  intros Hd Hr Hok Hi. pose proof (gen_proof_or_error t lh d F L i Hd Hr Hok Hi) as Hoe.
  destruct (MerkleProof.gen_proof t i) as [p|e| |] eqn:Hp; [|done..]. rewrite bind_Ok.
  destruct (gen_proof_inv _ _ _ _ _ _ _ Hd Hr Hok Hp) as (x & r & Hx & Hrt & Htop & ->).
  pose proof (lok_known _ _ _ _ Hok) as HF.
  assert (x ≠ null) as Hnx by by eapply (Forall_lookup_1 (λ x, x ≠ null)).
  assert (r ≠ null) as Hnr by (eapply (Forall_lookup_1 (λ x, x ≠ null)); [by apply ideal_known|done]).
  destruct (convert_roundtrip (ideal_proof lh F (length L - 1) i x r)) as (p' & Hto & _ & Hlem & Hpath).
  { rewrite ideal_proof_length. cbn [lemma ideal_proof length]. rewrite length_app, length_ideal_siblings. cbn. lia. }
  { by apply ideal_proof_known. }
  rewrite Hto. cbn [or_error]. destruct x as [x|], r as [r|]; [|done..]. exists x, r.
  pose proof (ideal_proof_length lh F (length L - 1) i (Some x) (Some r)) as Hpl. rewrite <-Hpath in Hpl.
  pose proof (f_equal length Hlem) as Hll. cbn [lemma ideal_proof length] in Hll.
  rewrite length_app, length_ideal_siblings, length_fmap in Hll. cbn [length] in Hll.
  split_and!; [done| | | | |].
  - unfold ideal_root. rewrite head_lookup. rewrite <-(lok_depth _ _ _ _ Hok). exact Hrt.
  - rewrite <-validate_some, <-Hlem, Hpath. by apply (ideal_proof_validate lh F (length L - 1) i (Some x) (Some r)).
  - unfold proof_root. assert (last (Some <$> lemma p') = Some (Some r)) as Hlast.
    { rewrite <-Hlem. cbn [lemma ideal_proof]. by rewrite app_comm_cons, last_snoc. }
    rewrite fmap_last in Hlast. by destruct (last (lemma p')) as [z|]; [injection Hlast as ->|].
  - unfold proof_wf. lia.
  - by rewrite Hpl, <-(lok_depth _ _ _ _ Hok).
Qed.

End tree_proof.

Section log_proofs.
Context `{Keccak, Bitmap64 B, !Bitmap64Laws B, KeyValueDBLaws KV, !KeyValueIter KV, !KeyValueIterLaws KV}.
Context {NMt NM : Type} `{!NodeStore NMt OptionalHash, !NodeStoreLaws NMt OptionalHash}.
Context `{!NodeStore NM OptionalHash, !NodeStoreLaws NM OptionalHash}.
Context (miner : H256).
Local Abbreviation manager := (LogManager KV (MerkleManager NMt NM)).
Implicit Types (GS : Z → Z → SealContextInfo) (LF : Z → list OptionalHash) (f : Z → option Z) (log : tx_log).
Implicit Types (self : manager) (vs : gmap nat (list OptionalHash * bool)) (hist : gmap nat nat).

(** ** The proof inside a complete chunk *)

Lemma batch_proof_outcome GS LF f log b0 self (b : Z) (j : nat) :
  stores_ok miner GS LF f log b0 self → batch_index_ok b → (j < 1024)%nat →
  or_error (proves 0 1 (LF b) j) (gen_proof_in_batch (NM := NM) (B := B) (flow_store self) b (Z.of_nat j)).
Proof.
  intros [_ (Hfo & _ & _)] Hb Hj. pose proof (fo_db _ _ _ _ _ Hfo) as Hdb.
  destruct (do_batch _ _ _ _ _ Hdb b Hb) as (o & Ho & Hh). unfold gen_proof_in_batch. rewrite Ho, bind_Ok.
  destruct o as [batch|]; [|done]. cbn [ok_or]. rewrite bind_Ok. destruct Hh as [[Hbok _ _ Hbl] _].
  destruct (to_merkle_tree_spec (NM := NM) (GS b) (do_contexts _ _ _ _ _ Hdb b) miner batch (b =? 0)%Z (LF b) Hbok Hbl) as (o & -> & Ht).
  rewrite bind_Ok. destruct o as [t|]; [|done]. destruct Ht as [(Hlh & a & L & [Hd Hr Hok Hf Ha]) _]. cbn [ok_or]. rewrite bind_Ok.
  pose proof (lo_len _ _ (do_leaves _ _ _ _ _ Hdb b Hb)) as Hlen.
  rewrite take_ge in Hok by (exact (Nat.eq_le_incl _ _ Hlen)). apply rep_reads in Hr. rewrite Hlh in *. rewrite Nat2Z.id.
  apply (tree_proof_outcome t 0 1 (LF b) L j Hd Hr Hok). exact (Nat.lt_le_trans _ _ _ Hj (Nat.eq_le_incl _ _ (eq_sym Hlen))).
Qed.

(** ** The two proofs together *)

Lemma chunk_leaf LF (i : nat) : LF (Z.of_nat (i / 2 ^ 10)) !! (i `mod` 2 ^ 10) = Some (leaf_of LF i) ∨ leaf_of LF i = None.
Proof. unfold leaf_of. destruct (LF _ !! _); [by left|by right]. Qed.

(** The proof of the chunk and the proof of the sector in it. *)
Lemma entry_proof_proves LF (n i : nat) d X top sub :
  proves 10 1 (top_leaves 10 (seg LF 0 n)) (i / 2 ^ 10) top → proves 0 d X (i - i / 2 ^ 10 * 2 ^ 10) sub →
  top_leaves 10 (seg LF 0 n) !! (i / 2 ^ 10) = ideal_root 0 d X →
  (depth_of d (length X) = 11 ∨ i / 2 ^ 10 = 0) →
  ∃ p x r, entry_proof top sub = Ok p ∧ X !! (i - i / 2 ^ 10 * 2 ^ 10) = Some (Some x) ∧
    ideal_root 0 1 (seg LF 0 n) = Some (Some r) ∧ validate p x i = Ok tt ∧ proof_root p = Ok r.
Proof.
  intros (y & R & Hy & HR & Htop & Hrt & Hwt & _) (x & r & Hx & Hr & Hsub & Hrs & Hws & Hlen) Hroot Hdepth.
  pose proof (eq_trans (eq_sym Hy) (eq_trans Hroot Hr)) as [= ->].
  destruct (entry_proof_spec top sub x r _ _ Hwt Hws Hsub Hrs Htop) as (p & Hp & _ & Hval & Hpr).
  exists p, x, R. rewrite top_root in HR. split_and!; [done..| |congruence].
  rewrite <-Hval. f_equal. rewrite Hlen. pose proof (Nat.div_mod_eq i (2 ^ 10)) as Hdm.
  destruct Hdepth as [-> | ->]; [|lia]. change (11 - 1) with 10. lia.
Qed.

(** The sector is in a complete chunk: the batch has its proof. *)
Lemma batch_sub_proof GS LF f log b0 self (n i : nat) top :
  stores_ok miner GS LF f log b0 self → flow_leaves_ok LF → sectors_ok n → i / 2 ^ 10 < n / 2 ^ 10 →
  proves 10 1 (top_leaves 10 (seg LF 0 n)) (i / 2 ^ 10) top →
  or_error (λ p, ∃ x r, leaf_of LF i = Some x ∧ ideal_root 0 1 (seg LF 0 n) = Some (Some r) ∧
      validate p x i = Ok tt ∧ proof_root p = Ok r)
    (sub ← gen_proof_in_batch (NM := NM) (B := B) (flow_store self) (Z.of_nat (i / 2 ^ 10)) (Z.of_nat (i - i / 2 ^ 10 * 2 ^ 10));
     entry_proof top sub).
Proof.
  intros Hst HL Hsec Hin Htop.
  assert (batch_index_ok (Z.of_nat (i / 2 ^ 10))) as Hb by (pose proof (chunk_index_ok n Hsec); unfold batch_index_ok in *; lia).
  pose proof (Nat.div_mod_eq i (2 ^ 10)) as Hdm. pose proof (Nat.mod_upper_bound i (2 ^ 10) ltac:(done)) as Hmb.
  assert (i - i / 2 ^ 10 * 2 ^ 10 = i `mod` 2 ^ 10) as Hj by lia.
  eapply or_error_bind; [apply (batch_proof_outcome GS LF f log b0 self _ _ Hst Hb); rewrite Hj; exact Hmb|].
  intros sub Hsub. pose proof (lo_len _ _ (HL _ Hb)) as Hlen.
  destruct (entry_proof_proves LF n i 1 (LF (Z.of_nat (i / 2 ^ 10))) top sub Htop Hsub) as (p & x & r & -> & Hx & Hr & Hv & Hp).
  - by apply top_leaf.
  - left. etransitivity; [exact (f_equal (depth_of 1) Hlen)|]. apply (depth_of_chunk 10 1 1024); [lia|lia| |].
    + left. apply Nat.ltb_lt. reflexivity.
    + apply Nat.leb_le. reflexivity.
  - exists x, r. split_and!; [|done..]. rewrite Hj in Hx. destruct (chunk_leaf LF i) as [Hc|Hc].
    + exact (Some_inj _ _ (eq_trans (eq_sym Hc) Hx)).
    + exfalso. unfold leaf_of in Hc. exact (eq_ind (Some (Some x)) (λ o : option OptionalHash, match o with Some x => x | None => None end = None → False) (λ Hf, ltac:(discriminate Hf)) _ (eq_sym Hx) Hc).
Qed.

(** The sector is in the last chunk. *)
Lemma last_sub_proof LF (n i : nat) vs (m : MerkleManager NMt NM) top :
  trees_ok (seg LF 0 n) vs m → i < n → i / 2 ^ 10 = n / 2 ^ 10 →
  proves 10 1 (top_leaves 10 (seg LF 0 n)) (i / 2 ^ 10) top →
  or_error (λ p, ∃ x r, leaf_of LF i = Some x ∧ ideal_root 0 1 (seg LF 0 n) = Some (Some r) ∧
      validate p x i = Ok tt ∧ proof_root p = Ok r)
    (sub ← gen_tree_proof (last_chunk_merkle m) None (Z.of_nat (i - i / 2 ^ 10 * 2 ^ 10));
     entry_proof top sub).
Proof.
  intros Ht Hi Hq Htop. destruct (tk_last _ _ _ Ht) as (Hlh & a & L & ks & [Hd Hr Hok Hf Ha] & _ & _).
  apply rep_reads in Hr. rewrite Hlh in *. rewrite length_seg in *.
  assert (last_start 10 n = i / 2 ^ 10 * 2 ^ 10) as Hls by (unfold last_start; by rewrite Hq).
  pose proof (last_start_le 10 n) as Hle. pose proof (Nat.div_mod_eq i (2 ^ 10)) as Hdm.
  assert (length (last_of 10 (seg LF 0 n)) = n - last_start 10 n) as Hlen by by rewrite length_last_of, length_seg.
  unfold gen_tree_proof. rewrite Nat2Z.id. eapply or_error_bind.
  { eapply (tree_proof_outcome _ 0 (chunk_depth 10 n) (last_of 10 (seg LF 0 n)) L _ Hd Hr Hok). lia. }
  intros sub Hsub.
  destruct (entry_proof_proves LF n i (chunk_depth 10 n) (last_of 10 (seg LF 0 n)) top sub Htop Hsub) as (p & x & r & -> & Hx & Hrr & Hv & Hp).
  - unfold top_leaves. rewrite length_seg. rewrite lookup_app_r.
    + rewrite length_ideal, length_chunks_of, length_seg, width_aligned by apply last_start_mod. unfold last_start. rewrite Nat.div_mul by done.
      rewrite Hq, Nat.sub_diag. by destruct (ideal_root _ _ _).
    + rewrite length_ideal, length_chunks_of, length_seg, width_aligned by apply last_start_mod. unfold last_start. rewrite Nat.div_mul by done. lia.
  - unfold chunk_depth in *. case_bool_decide as Hlt.
    + right. rewrite Hq. by apply Nat.div_small.
    + left. apply (depth_of_chunk 10 11); lia.
  - exists x, r. split_and!; [|done..]. rewrite last_of_seg, lookup_seg in Hx by lia. injection Hx as Hx. rewrite <-Hx. f_equal. lia.
Qed.

(** The proof of the chunk. *)
Lemma top_proof LF (n i : nat) vs (m : MerkleManager NMt NM) :
  trees_ok (seg LF 0 n) vs m → i < n →
  or_error (proves 10 1 (top_leaves 10 (seg LF 0 n)) (i / 2 ^ 10))
    (gen_tree_proof (pora_chunks_merkle m) None (Z.of_nat (i / 2 ^ 10))).
Proof.
  intros Ht Hi. destruct (tk_pora _ _ _ Ht) as (a & (Hlh & L & [Hd Hr Hok Hf Ha] & _) & _). apply rep_reads in Hr. rewrite Hlh in *.
  cbn [log_leaves log_front] in *. unfold gen_tree_proof. rewrite Nat2Z.id.
  eapply (tree_proof_outcome _ 10 1 _ L (i / 2 ^ 10) Hd Hr Hok). rewrite length_top_leaves, length_seg. apply width_spec.
  pose proof (Nat.div_mod_eq i (2 ^ 10)). lia.
Qed.

Lemma gen_proof_spec GS LF f log (n : nat) hist self (i : nat) :
  manager_ok miner GS LF f log n hist self → (i < n)%nat →
  or_error (λ p, ∃ x r, leaf_of LF i = Some x ∧ get_context self = Ok (r, Z.of_nat n) ∧
      validate p x i = Ok tt ∧ proof_root p = Ok r)
    (gen_proof_at_version (B := B) self (Z.of_nat i) None).
Proof.
  intros [(vs & Hh & _) _ Hsec _] Hi. pose proof Hh as [Ht Hst]. pose proof (holds_leaves _ _ _ _ _ _ _ _ Hh) as HL.
  destruct (get_context_spec LF n vs self Ht Hsec) as (R & Hctx & HR).
  apply (or_error_mono (λ p, ∃ x r, leaf_of LF i = Some x ∧ ideal_root 0 1 (seg LF 0 n) = Some (Some r) ∧
      validate p x i = Ok tt ∧ proof_root p = Ok r)); cycle 1.
  { intros p (x & r & Hx & Hr & Hv & Hp). exists x, r.
    pose proof (eq_trans (eq_sym Hr) HR) as [= ->]. done. }
  unfold gen_proof_at_version, sector_to_segment. assert (Z.of_nat (2 ^ 10) = PORA_CHUNK_SIZE) as Hc by done.
  pose proof (Nat.div_mod_eq i (2 ^ 10)) as Hdm. assert (i - i / 2 ^ 10 * 2 ^ 10 = i `mod` 2 ^ 10) as Hj by lia.
  rewrite <-Hc, <-Nat2Z.inj_div, <-Nat2Z.inj_mod, <-Hj.
  eapply or_error_bind; [by apply (top_proof LF n i vs)|]. intros top Htop.
  rewrite (pora_ok_leaves _ _ _ _ (tk_pora _ _ _ Ht)), bind_Ok, (last_leaves_seg _ _ _ _ Ht), bind_Ok.
  assert (0 < n) as Hn by lia. pose proof (width_pos n 10 Hn). pose proof (width_div_succ n 10). pose proof (Nat.div_mod_eq n (2 ^ 10)).
  rewrite length_top_leaves, length_seg, wrap64_pred by (unfold sectors_ok in Hsec; nia).
  assert (i / 2 ^ 10 ≤ n / 2 ^ 10) as Hle by (apply Nat.Div0.div_le_mono; lia).
  destruct (decide (i / 2 ^ 10 = n / 2 ^ 10)) as [Heq|Hne].
  - assert (n `mod` 2 ^ 10 ≠ 0) as Hm by lia. rewrite width_unaligned, Nat.add_sub, <-Heq, Z.eqb_refl by done.
    rewrite mod_last_start in Hm. rewrite (proj2 (Z.eqb_neq _ _)) by lia. cbn [negb orb]. by apply (last_sub_proof LF n i vs).
  - assert (negb (Z.of_nat (i / 2 ^ 10) =? Z.of_nat (width n 10 - 1))%Z || (Z.of_nat (n - last_start 10 n) =? 0)%Z = true) as ->.
    { destruct (decide (n `mod` 2 ^ 10 = 0)) as [Hm|Hm].
      - rewrite mod_last_start in Hm. rewrite Hm. apply orb_true_r.
      - rewrite width_unaligned, Nat.add_sub by done. rewrite (proj2 (Z.eqb_neq _ _)) by lia. done. }
    apply (batch_sub_proof GS LF f log _ self n i top Hst HL Hsec); [lia|done].
Qed.

End log_proofs.

(** * Reading the log manager and writing chunks of a transaction. *)

Local Open Scope Z_scope.

Section log_ops.
Context `{Keccak, Bitmap64 B, !Bitmap64Laws B, KeyValueDBLaws KV, !KeyValueIter KV, !KeyValueIterLaws KV}.
Context {NMt NM : Type} `{!NodeStore NMt OptionalHash, !NodeStoreLaws NMt OptionalHash}.
Context `{!NodeStore NM OptionalHash, !NodeStoreLaws NM OptionalHash}.
Context (miner : H256).
Local Abbreviation manager := (LogManager KV (MerkleManager NMt NM)).
Implicit Types (GS : Z → Z → SealContextInfo) (LF : Z → list OptionalHash) (f : Z → option Z) (log : tx_log).
Implicit Types (self : manager) (arr chunks : ChunkArray) (tx : Transaction) (hist : gmap nat nat).

Lemma manager_stores GS LF f log n hist self :
  manager_ok miner GS LF f log n hist self →
  store_ok log (tx_store self) ∧ flow_ok (B := B) miner GS LF f (flow_store self) ∧ flow_leaves_ok LF.
Proof.
  intros [(vs & Hh & _) _ _ _]. pose proof (holds_leaves _ _ _ _ _ _ _ _ Hh). destruct Hh as [_ [? (? & _ & _)]]. done.
Qed.

(** ** Transactions *)

Definition finalized log (i : Z) : bool := match tl_status log !! i with Some Finalized => true | _ => false end.
Definition pruned log (i : Z) : bool := match tl_status log !! i with Some Pruned => true | _ => false end.

(** The first finalized one, or else the first that is not pruned. *)
Definition best_tx log (need_available : bool) (l : list Z) : option Z :=
  match head (filter (λ i, finalized log i = true) l) with
  | Some i => Some i
  | None => if need_available then head (filter (λ i, pruned log i = false) l) else head l
  end.

Lemma tx_completed_spec log (s : TransactionStore KV) i :
  store_ok log s → 0 ≤ i < 2 ^ 64 → check_tx_completed s i = Ok (finalized log i).
Proof. intros Hok Hi. unfold check_tx_completed. by rewrite (get_status_spec log), bind_Ok. Qed.

Lemma pruned_spec log (s : TransactionStore KV) i :
  store_ok log s → 0 ≤ i < 2 ^ 64 → check_tx_pruned s i = Ok (pruned log i).
Proof. intros Hok Hi. unfold check_tx_pruned. by rewrite (get_status_spec log), bind_Ok. Qed.

Lemma find_available_spec log (s : TransactionStore KV) need l avail :
  store_ok log s → Forall (λ i, 0 ≤ i < 2 ^ 64) l →
  ∃ a, find_available s need l avail = Ok (head (filter (λ i, finalized log i = true) l), a) ∧
    (head (filter (λ i, finalized log i = true) l) = None →
     a = if need then match avail with Some x => Some x | None => head (filter (λ i, pruned log i = false) l) end else avail).
Proof.
  intros Hok. revert avail. induction l as [|i l IH]; intros avail Hl; cbn [find_available].
  { exists avail. split; [done|]. intros _. by destruct need, avail. }
  inversion_clear Hl as [|? ? Hi Hl']. rewrite (tx_completed_spec log), bind_Ok by done. rewrite !filter_cons.
  destruct (finalized log i) eqn:Hfin; cbn [decide].
  { rewrite decide_True by done. by eexists. }
  rewrite decide_False by done. destruct need; cbn [andb].
  - case_bool_decide as Hav; [|destruct (IH avail Hl') as (a & Ha & Hn); exists a; split; [done|]; intros Hh; rewrite (Hn Hh); by destruct avail].
    subst avail. rewrite (pruned_spec log), bind_Ok by done. destruct (pruned log i) eqn:Hpr.
    + rewrite decide_False by done. by apply IH.
    + rewrite decide_True by done. destruct (IH (Some i) Hl') as (a & Ha & Hn). exists a. split; [done|]. intros Hh. by rewrite (Hn Hh).
  - destruct (IH avail Hl') as (a & Ha & Hn). by exists a.
Qed.

Lemma get_tx_seq_spec GS LF f log n hist self (r : H256) need :
  manager_ok miner GS LF f log n hist self →
  get_tx_seq_by_data_root self r need = Ok (best_tx log need (root_index log r)).
Proof.
  intros (Hok & _ & _)%manager_stores. unfold get_tx_seq_by_data_root. rewrite (get_list_spec log), bind_Ok by done.
  destruct (find_available_spec log (tx_store self) need (root_index log r) None Hok) as (a & -> & Hn); [by eapply root_index_typed|].
  rewrite bind_Ok. unfold best_tx. cbn [fst snd]. destruct (head (filter _ _)) as [i|]; [done|]. rewrite (Hn eq_refl). by destruct need.
Qed.

(** ** Data *)

(** What reading a range of a transaction gives. *)
Definition tx_range f tx (index_start index_end : Z) : option ChunkArray :=
  option_map (λ data, ChunkArray_mk data index_start)
    (read_range f ((start_entry_index tx + index_start) * 256) ((index_end - index_start) * 256)).

Lemma get_chunks_spec GS LF f log n hist self (seq s e : Z) :
  manager_ok miner GS LF f log n hist self → 0 ≤ seq →
  (∀ tx, tl_txs log !! Z.to_nat seq = Some tx → 1 ≤ start_entry_index tx + s ∧ start_entry_index tx + e ≤ 2 ^ 63) →
  0 ≤ s < e →
  get_chunks_by_tx_and_index_range (B := B) self seq s e =
    match tl_txs log !! Z.to_nat seq with
    | None => Ok None
    | Some tx => if bytes_to_entries (tx_byte_size tx) <? e then Err "end entry index exceeds tx size" else Ok (tx_range f tx s e)
    end.
Proof.
  intros (Hok & Hfo & _)%manager_stores Hseq Hb Hs. unfold get_chunks_by_tx_and_index_range.
  rewrite (get_tx_spec log), bind_Ok by done. destruct (tl_txs log !! Z.to_nat seq) as [tx|] eqn:Htx; [|done].
  destruct (so_tx _ _ Hok _ _ Htx) as (_ & Hty & _). pose proof (tt_start _ Hty).
  specialize (Hb tx eq_refl) as [Hb1 Hb2]. destruct (Z.ltb_spec (bytes_to_entries (tx_byte_size tx)) e) as [Hlt|Hge]; [done|].
  cbv zeta. rewrite (wrap64_small (start_entry_index tx + s)), (wrap64_small (start_entry_index tx + e)) by lia. rewrite (get_entries_spec miner GS LF f) by (done || lia). rewrite bind_Ok. unfold tx_range.
  replace (start_entry_index tx + e - (start_entry_index tx + s)) with (e - s) by lia.
  destruct (read_range f _ _) as [data|]; [|done]. cbn. do 3 f_equal. replace (start_entry_index tx + s - start_entry_index tx) with s by lia. apply wrap64_small. lia.
Qed.

Context (now : ChunkArray → Z → Z).

Lemma wp_put_chunks GS LF f log n hist self (seq : Z) tx chunks :
  let arr := flow_array tx chunks in
  manager_ok miner GS LF f log n hist self → 0 ≤ seq → tl_txs log !! Z.to_nat seq = Some tx →
  out_of_tx_range tx chunks = false → array_ok LF arr → end_index arr ≤ Z.of_nat n → insertable (lm_shard_config self) arr f →
  wp (put_chunks (B := B) now seq chunks)
    (λ _ self', manager_ok miner GS LF (put_flow (lm_shard_config self) arr f) log n hist self' ∧
       lm_shard_config self' = lm_shard_config self) self.
Proof.
  intros arr Hok Hseq Htx Hr Hao Hend Hins. pose proof (manager_stores _ _ _ _ _ _ _ Hok) as (Hst & _ & HL).
  destruct Hok as [(vs & Hh & Hhist) Hdom Hsec He]. unfold put_chunks. apply wp_bind.
  eapply wp_gets_ok; [by apply (get_tx_spec log)|]. rewrite Htx. apply wp_bind. eapply wp_lift; [done|]. rewrite Hr.
  eapply wp_mono; [by apply (wp_append_entries miner now GS LF f log n vs self arr Hh HL)|]. intros [] s1 [Hh1 Hc1].
  split; [|done]. split; [by exists vs|done|done|by eapply put_flow_ends].
Qed.

Lemma put_chunks_errors GS LF f log n hist self (seq : Z) chunks :
  manager_ok miner GS LF f log n hist self → 0 ≤ seq →
  (tl_txs log !! Z.to_nat seq = None → put_chunks (B := B) now seq chunks self = (Err "put chunks with missing tx", self)) ∧
  (∀ tx, tl_txs log !! Z.to_nat seq = Some tx → out_of_tx_range tx chunks = true →
     put_chunks (B := B) now seq chunks self = (Err "put chunks with data out of tx range", self)).
Proof.
  intros (Hst & _ & _)%manager_stores Hseq. unfold put_chunks, mbind, M_bind, gets_ok, lift.
  rewrite (get_tx_spec log) by done. split.
  - by intros ->.
  - intros tx -> Hr. cbn. by rewrite Hr.
Qed.

(** ** Pruning *)

Lemma wp_prune_tx GS LF f log n hist self (i : Z) :
  manager_ok miner GS LF f log n hist self → 0 ≤ i < tl_len log →
  wp (LogManager.prune_tx i) (λ _ self', manager_ok miner GS LF f (log_prune log i) n hist self' ∧
    lm_shard_config self' = lm_shard_config self) self.
Proof.
  intros [(vs & [Ht Hst] & Hhist) Hdom Hsec He] Hi.
  eapply wp_mono; [eapply (wp_on_tx miner GS LF f log (log_prune log i) _ self _ (λ _, True) Hst)|].
  { apply prune_tx_frame. }
  { eapply wp_mono; [by apply (prune_tx_spec log _ i (sk_tx _ _ _ _ _ _ _ Hst))|]. by intros [] s' Hs'. }
  intros [] s1 (Hst1 & _ & Hm1 & Hc1). split; [|done]. split; [|done|done|done].
  exists vs. split; [split; [by rewrite Hm1|done]|done].
Qed.

(** ** Removing batches *)

Lemma wp_remove_chunks GS LF f log n hist self (l : list Z) :
  manager_ok miner GS LF f log n hist self → NoDup l → Forall batch_index_ok l →
  wp (remove_chunks_batch l) (λ _ self', manager_ok miner GS LF (drop_batches l f) log n hist self' ∧
    lm_shard_config self' = lm_shard_config self) self.
Proof.
  intros [(vs & [Ht Hst] & Hhist) Hdom Hsec He] Hnd Hl. pose proof Hst as [_ (Hfo & Htk & Hns)].
  eapply wp_mono; [eapply (wp_on_flow miner GS LF f GS LF (drop_batches l f) log _ (Z.of_nat (n / 2 ^ 10)) self _ (λ _ _, True) Hst)|].
  { apply delete_batch_frame. }
  { eapply wp_mono; [by apply (delete_batch_list_spec miner GS LF f (flow_store self) l)|].
    intros [] s' (Hfo' & Htk' & _ & Hget). split; [|done]. split_and!; [done|done|].
    intros b batch Hb Hbo Hb'. apply (Hns b); [done|done|by apply Hget]. }
  intros [] s1 (Hst1 & _ & Hm1 & Hc1). split; [|done]. split; [|done|done|].
  - exists vs. split; [split; [by rewrite Hm1|done]|done].
  - intros x Hx. unfold drop_batches. case_bool_decide; [done|by apply He].
Qed.

(** ** Finalization *)

(** Finalizing [tx] leaves the bytes of the flow alone: its padded size is its
    size, and no other transaction with its data gets a copy, each being
    finalized already or starting in a segment of another shard. *)
Definition copies_nothing (config : ShardConfig) log tx : Prop :=
  (compute_padded_chunk_size (tx_byte_size tx)).1 = bytes_to_entries (tx_byte_size tx) ∧
  ∀ i tx2, i ∈ root_index log (data_merkle_root tx) → i ≠ tx_seq tx → finalized log i = false →
    tl_txs log !! Z.to_nat i = Some tx2 →
    sector_to_segment (start_entry_index tx2) `mod` num_shard config ≠
    sector_to_segment (start_entry_index tx) `mod` num_shard config.

Lemma padding_rear_nothing tx self :
  (compute_padded_chunk_size (tx_byte_size tx)).1 = bytes_to_entries (tx_byte_size tx) →
  padding_rear_data (B := B) now tx self = (Ok tt, self).
Proof.
  intros Heq. unfold padding_rear_data. rewrite Heq. unfold compute_segment_size. cbn [Z.eqb PORA_CHUNK_SIZE].
  assert (∀ a c, rear_loop (B := B) now (S (Z.to_nat (a + 1 - a))) tx a c a c self = (Ok tt, self)) as Hr.
  { intros a c. replace (Z.to_nat (a + 1 - a)) with 1%nat by lia. cbn [rear_loop]. rewrite Z.leb_refl, Z.eqb_refl, Z.sub_diag.
    cbn [when wrap64 Z.mul]. by rewrite (proj2 (Z.leb_gt _ _)) by lia. }
  destruct (_ =? 0); apply Hr.
Qed.

Lemma skip_pruned_subset log (s : TransactionStore KV) l :
  store_ok log s → Forall (λ i, 0 ≤ i < 2 ^ 64) l → ∃ l', skip_pruned s l = Ok l' ∧ l' ⊆ l.
Proof.
  intros Hok. induction 1 as [|i l Hi _ (l' & Hl' & Hsub)]; [by exists []|]. cbn [skip_pruned].
  rewrite (pruned_spec log), bind_Ok by done. destruct (pruned log i); [exists l'|exists (i :: l)]; set_solver.
Qed.

Lemma copy_offsets_nothing log self seq tx l :
  store_ok log (tx_store self) → num_shard (lm_shard_config self) ≠ 0 → tx_seq tx = seq → copies_nothing (lm_shard_config self) log tx →
  l ⊆ root_index log (data_merkle_root tx) → copy_offsets self seq tx l = Ok [].
Proof.
  intros Hok Hsh Hseq [_ Hnone]. induction l as [|i l IH]; intros Hsub; [done|]. cbn [copy_offsets].
  assert (i ∈ root_index log (data_merkle_root tx)) as Hi by set_solver.
  pose proof (so_len _ _ Hok). pose proof Hi as Hi'. apply elem_of_root_index in Hi' as [_ Hil].
  rewrite (tx_completed_spec log), bind_Ok by (done || lia). rewrite IH by set_solver.
  destruct (finalized log i) eqn:Hfin; [done|]. cbn [orb]. destruct (Z.eqb_spec seq i) as [|Hne]; [done|].
  rewrite (get_tx_spec log) by (done || lia). destruct (lookup_lt_is_Some_2 (tl_txs log) (Z.to_nat i)) as [tx2 Htx2]; [unfold tl_len in *; lia|].
  rewrite Htx2, bind_Ok. unfold ok_or at 1. rewrite bind_Ok. cbv zeta. rewrite (proj2 (Z.eqb_neq _ _) Hsh).
  rewrite (proj2 (Z.eqb_neq _ _)); [done|]. apply (Hnone i); [done|congruence|done|done].
Qed.

Lemma copy_nothing log self seq tx l :
  store_ok log (tx_store self) → num_shard (lm_shard_config self) ≠ 0 → 0 ≤ seq → tl_txs log !! Z.to_nat seq = Some tx → tx_seq tx = seq →
  copies_nothing (lm_shard_config self) log tx → l ⊆ root_index log (data_merkle_root tx) →
  copy_tx_and_finalize (B := B) now seq l self = (Ok tt, self).
Proof.
  intros Hok Hsh Hs Htx Hseq Hcn Hl. unfold copy_tx_and_finalize, mbind, M_bind, gets_ok, lift.
  rewrite (get_tx_spec log), Htx by done. cbn [ok_or]. by rewrite (copy_offsets_nothing log self seq tx l).
Qed.

Lemma finalize_common_step GS LF f log n hist self tx self' :
  manager_ok miner GS LF f log n hist self → 0 ≤ tx_seq tx → tl_txs log !! Z.to_nat (tx_seq tx) = Some tx →
  copies_nothing (lm_shard_config self) log tx → finalize_tx_common (B := B) now tx self = (Ok tt, self') →
  manager_ok miner GS LF f (log_finalize log (tx_seq tx)) n hist self'.
Proof.
  intros Hmo Hs Htx Hcn. pose proof (manager_stores _ _ _ _ _ _ _ Hmo) as (Hok & Hfo & _).
  destruct Hmo as [(vs & [Ht Hst] & Hhist) Hdom Hsec He]. unfold finalize_tx_common.
  unfold mbind at 1, M_bind at 1. rewrite padding_rear_nothing by apply Hcn.
  unfold mbind at 1, M_bind at 1, gets_ok at 1. destruct (check_data_completed _ _ _) as [[]| | |]; [|done..].
  unfold mbind at 1, M_bind at 1, gets_ok at 1. unfold get_tx_seq_list_by_data_root. rewrite (get_list_spec log), bind_Ok by done.
  destruct (skip_pruned_subset log (tx_store self) (root_index log (data_merkle_root tx)) Hok) as (l & -> & Hl); [by eapply root_index_typed|].
  assert (∀ l', l' ⊆ l → copy_tx_and_finalize (B := B) now (tx_seq tx) l' self = (Ok tt, self)) as Hcopy.
  { intros l' Hl'. apply (copy_nothing log self (tx_seq tx) tx); [done|apply (fo_shard _ _ _ _ _ Hfo)|done..|set_solver]. }
  unfold mbind at 1, M_bind at 1.
  assert (match l with
    | [] => mret tt
    | first_seq :: rest => if first_seq =? tx_seq tx then copy_tx_and_finalize (B := B) now (tx_seq tx) rest
        else first_completed ← gets_ok (λ self, check_tx_completed (tx_store self) first_seq);
             when (negb first_completed) (copy_tx_and_finalize (B := B) now (tx_seq tx) l)
    end self = (Ok tt, self)) as Hcase.
  { destruct l as [|i l]; [done|]. destruct (i =? tx_seq tx); [apply Hcopy; set_solver|].
    assert (i ∈ root_index log (data_merkle_root tx)) as Hi%elem_of_root_index by set_solver. pose proof (so_len _ _ Hok).
    unfold mbind, M_bind, gets_ok. rewrite (tx_completed_spec log) by (done || lia). destruct (finalized log i); [done|]. by apply Hcopy. }
  rewrite Hcase. intros Hrun.
  assert (0 ≤ tx_seq tx < tl_len log) as Hi by (apply lookup_lt_Some in Htx; unfold tl_len; lia).
  assert (wp (on_tx (TxStore.finalize_tx (tx_seq tx))) (λ _ s1, stores_ok miner GS LF f (log_finalize log (tx_seq tx)) (Z.of_nat (n / 2 ^ 10)) s1 ∧
    True ∧ lm_merkle s1 = lm_merkle self ∧ lm_shard_config s1 = lm_shard_config self) self) as Hw.
  { eapply (wp_on_tx miner GS LF f log _ _ self _ (λ _, True) Hst); [apply finalize_tx_frame|].
    eapply wp_mono; [by apply (finalize_tx_spec log)|]. by intros [] s' Hs'. }
  destruct (wp_of_eq _ _ _ _ _ Hrun Hw) as (Hst1 & _ & Hm1 & _). split; [|done|done|done].
  exists vs. split; [split; [by rewrite Hm1|done]|done].
Qed.

Lemma finalize_step GS LF f log n hist self seq tx self' :
  manager_ok miner GS LF f log n hist self → 0 ≤ seq → tl_txs log !! Z.to_nat seq = Some tx →
  copies_nothing (lm_shard_config self) log tx → LogManager.finalize_tx (B := B) now seq self = (Ok tt, self') →
  manager_ok miner GS LF f (log_finalize log seq) n hist self'.
Proof.
  intros Hmo Hs Htx Hcn. pose proof (manager_stores _ _ _ _ _ _ _ Hmo) as (Hok & _ & _).
  destruct (so_tx _ _ Hok _ _ Htx) as (_ & _ & Hseq). rewrite Z2Nat.id in Hseq by done. subst seq.
  unfold LogManager.finalize_tx. unfold mbind, M_bind, gets_ok, lift. rewrite (get_tx_spec log), Htx by done. cbn [ok_or]. unfold map_err.
  destruct (finalize_tx_common (B := B) now tx self) as [[[]| | |] s1] eqn:Hrun; [|done..]. intros [= <-].
  by eapply finalize_common_step.
Qed.

(** ** Data that is there in part *)

Lemma put_chunks_refused GS LF f log n hist self (seq : Z) tx chunks b :
  let arr := flow_array tx chunks in
  manager_ok miner GS LF f log n hist self → 0 ≤ seq → tl_txs log !! Z.to_nat seq = Some tx →
  out_of_tx_range tx chunks = false → array_ok LF arr → end_index arr ≤ Z.of_nat n → clashes (lm_shard_config self) arr f b →
  ∃ msg self', put_chunks (B := B) now seq chunks self = (Err msg, self') ∧
    (∃ vs, trees_ok (seg LF 0 n) vs (lm_merkle self')) ∧ flow_ok (B := B) miner GS LF f (flow_store self').
Proof.
  intros arr Hok Hseq Htx Hr Hao Hend Hc. pose proof (manager_stores _ _ _ _ _ _ _ Hok) as (Hst & _ & _).
  destruct Hok as [(vs & Hh & _) _ Hsec _].
  destruct (append_entries_refused miner now GS LF f log n vs self arr b Hh Hsec Hao Hend Hc) as (msg & self' & Heq & Ht & Hf).
  exists msg, self'. split_and!; [|by exists vs|done]. unfold put_chunks, mbind, M_bind, gets_ok, lift.
  rewrite (get_tx_spec log), Htx by done. cbn [ok_or]. by rewrite Hr.
Qed.

End log_ops.
