(* ===== verification/LogTheorems.v ===== *)
(** Theorems about the log manager: what its trees, stores and proofs say of
    the flow that its transactions make up. *)

From stdpp Require Import sorting list_numbers.
From S2P Require Import Prelude HashElement Ssz SszFacts MerkleSpec MerkleProof MerkleProofComplete MerkleProofSound NodeStore AppendMerkle.
From S2P Require Import NodeManager NodeManagerFacts TreeRules Recompute TreeOps TreeFill TreeHistory TreeRefine TreeSpec TreeTiles.
From S2P Require Import ProofConvert ChunkRoots Bytes FlowDb Shard MerkleLight SharedTypes Seal ChunkData ChunkDataFacts.
From S2P Require Import ChunkDataInsert SealInfo EntryBatch EntryBatchFacts Serde BatchRoot BatchTheorems.
From S2P Require Import BatchStored FlowStore FlowStoreFacts FlowAppend FlowTruncate FlowSeal FlowReach SszTheorems FlowTheorems.
From S2P Require Import TxStore TxStoreFacts TxTheorems LogManager DbFrame LogTrees LogInv LogPad LogSpec LogOps.
Local Open Scope Z_scope.

Section theorems.
Context `{Keccak, Bitmap64 B, !Bitmap64Laws B, KeyValueDBLaws KV, !KeyValueIter KV, !KeyValueIterLaws KV}.
Context {NMt NM : Type} `{!NodeStore NMt OptionalHash, !NodeStoreLaws NMt OptionalHash}.
Context `{!NodeStore NM OptionalHash, !NodeStoreLaws NM OptionalHash}.
Context (miner : H256) (now : ChunkArray → Z → Z).
Local Abbreviation manager := (LogManager KV (MerkleManager NMt NM)).
Implicit Types (GS : Z → Z → SealContextInfo) (LF : Z → list OptionalHash) (f : Z → option Z) (log : tx_log).
Implicit Types (self : manager) (arr chunks : ChunkArray) (tx : Transaction) (hist : gmap nat nat) (n : nat).

(** The managers that come about from an empty data base by inserting
    transactions, giving their data, finalizing and pruning them and removing
    batches: [n] sectors of the flow [LF], the bytes [f] of it, and for each
    transaction the length of the flow after it.  Transactions are finalized
    here where nothing has to be copied or padded ([copies_nothing]); reverting
    transactions, copying data to transactions with the same root and opening
    a manager on a data base that is not empty are not among the steps. *)
Inductive log_reach GS LF : (Z → option Z) → tx_log → nat → gmap nat nat → manager → Prop :=
  | log_reach_new flow_kv data_kv top config created self :
      kv_fresh flow_kv → kv_fresh data_kv → rep top false [] → num_shard config ≠ 0 → (∀ b, context_map (GS b)) →
      flow_leaves_ok LF → log_manager_new (B := B) now flow_kv data_kv (Ok top) 1024 config created = Ok self →
      log_reach GS LF (λ _, None) (TxLog [] ∅ ∅) 1 ∅ self
  | log_reach_put_tx f log n n' hist self tx tx' self' :
      log_reach GS LF f log n hist self → next_tx LF log n n' tx tx' →
      LogManager.put_tx (B := B) now tx self = (Ok tt, self') →
      log_reach GS LF (tx_flow (lm_shard_config self) n tx f) (log_append log tx') n' (<[Z.to_nat (tl_len log) := n']> hist) self'
  | log_reach_put_chunks f log n hist self seq tx chunks self' :
      log_reach GS LF f log n hist self → 0 ≤ seq → tl_txs log !! Z.to_nat seq = Some tx →
      array_ok LF (flow_array tx chunks) → end_index (flow_array tx chunks) ≤ Z.of_nat n →
      insertable (lm_shard_config self) (flow_array tx chunks) f →
      put_chunks (B := B) now seq chunks self = (Ok tt, self') →
      log_reach GS LF (put_flow (lm_shard_config self) (flow_array tx chunks) f) log n hist self'
  | log_reach_prune f log n hist self i self' :
      log_reach GS LF f log n hist self → 0 ≤ i < tl_len log → LogManager.prune_tx i self = (Ok tt, self') →
      log_reach GS LF f (log_prune log i) n hist self'
  | log_reach_finalize f log n hist self seq tx self' :
      log_reach GS LF f log n hist self → 0 ≤ seq → tl_txs log !! Z.to_nat seq = Some tx →
      copies_nothing (lm_shard_config self) log tx → LogManager.finalize_tx (B := B) now seq self = (Ok tt, self') →
      log_reach GS LF f (log_finalize log seq) n hist self'
  | log_reach_remove f log n hist self l self' :
      log_reach GS LF f log n hist self → NoDup l → Forall batch_index_ok l → remove_chunks_batch l self = (Ok tt, self') →
      log_reach GS LF (drop_batches l f) log n hist self'.

Lemma log_reach_ok GS LF f log n hist self : log_reach GS LF f log n hist self → manager_ok (B := B) miner GS LF f log n hist self.
Proof.
  induction 1 as [flow_kv data_kv top config created self Hf Hd Hr Hsh HG HL Hnew
    |f log n n' hist self tx tx' self' _ IH Hnext Hput
    |f log n hist self seq tx chunks self' _ IH Hseq Htx Hao Hend Hins Hput
    |f log n hist self i self' _ IH Hi Hp
    |f log n hist self seq tx self' _ IH Hs Htx Hcn Hfin
    |f log n hist self l self' _ IH Hnd Hl Hrm].
  - destruct (log_manager_new_spec (B := B) (NM := NM) miner now GS LF flow_kv data_kv top config created Hf Hd Hr Hsh HG HL) as (s & Hs & Hok).
    congruence.
  - by apply (wp_of_eq _ _ _ _ _ Hput (wp_put_tx (B := B) miner now GS LF f log n n' hist self tx tx' IH Hnext)).
  - destruct (out_of_tx_range tx chunks) eqn:Hr.
    + destruct (put_chunks_errors (B := B) miner now GS LF f log n hist self seq chunks IH Hseq) as [_ He].
      by rewrite (He tx Htx Hr) in Hput.
    + by apply (wp_of_eq _ _ _ _ _ Hput (wp_put_chunks (B := B) miner now GS LF f log n hist self seq tx chunks IH Hseq Htx Hr Hao Hend Hins)).
  - by apply (wp_of_eq _ _ _ _ _ Hp (wp_prune_tx (B := B) miner GS LF f log n hist self i IH Hi)).
  - by apply (finalize_step miner now GS LF f log n hist self seq tx).
  - by apply (wp_of_eq _ _ _ _ _ Hrm (wp_remove_chunks (B := B) miner GS LF f log n hist self l IH Hnd Hl)).
Qed.

Lemma context_same LF n vs vs' self self' :
  trees_ok (seg LF 0 n) vs (lm_merkle self) → trees_ok (seg LF 0 n) vs' (lm_merkle self') → sectors_ok n →
  get_context self' = get_context self.
Proof.
  intros Ht Ht' Hsec.
  destruct (get_context_spec LF n vs self Ht Hsec) as (r & -> & Hroot), (get_context_spec LF n vs' self' Ht' Hsec) as (r' & -> & Hroot').
  by pose proof (eq_trans (eq_sym Hroot) Hroot') as [= ->].
Qed.


(** C18: [LogManager::put_chunks] on every branch.  Data of an unknown transaction
    or beyond the padded size of the transaction is refused and nothing
    changes.  Otherwise let the sectors be sectors of the flow, with its leaves.
    If each batch of the shard holds none of its part of the data or exactly
    these bytes, the data is stored: every read gives the flow with the sectors
    of the shard added.  If a batch of the shard holds some but not all of the
    bytes, it is an error and every read gives what it gave before.  The
    context is the same in all cases. *)
Theorem log_put_chunks_outcome GS LF f log n hist self seq chunks :
  log_reach GS LF f log n hist self → 0 ≤ seq →
  match tl_txs log !! Z.to_nat seq with
  | None => put_chunks (B := B) now seq chunks self = (Err "put chunks with missing tx", self)
  | Some tx =>
      if out_of_tx_range tx chunks then put_chunks (B := B) now seq chunks self = (Err "put chunks with data out of tx range", self)
      else array_ok LF (flow_array tx chunks) → end_index (flow_array tx chunks) ≤ Z.of_nat n →
        (insertable (lm_shard_config self) (flow_array tx chunks) f →
         ∃ self', put_chunks (B := B) now seq chunks self = (Ok tt, self') ∧
          reads_as (B := B) (put_flow (lm_shard_config self) (flow_array tx chunks) f) (flow_store self') ∧
          log_reach GS LF (put_flow (lm_shard_config self) (flow_array tx chunks) f) log n hist self' ∧
          get_context self' = get_context self) ∧
        (∀ b, clashes (lm_shard_config self) (flow_array tx chunks) f b →
         ∃ msg self', put_chunks (B := B) now seq chunks self = (Err msg, self') ∧
          reads_as (B := B) f (flow_store self') ∧ get_context self' = get_context self)
  end.
Proof.
  intros Hr Hseq. pose proof (log_reach_ok _ _ _ _ _ _ _ Hr) as Hok.
  destruct (put_chunks_errors (B := B) miner now GS LF f log n hist self seq chunks Hok Hseq) as [Hmiss Hrange].
  destruct (tl_txs log !! Z.to_nat seq) as [tx|] eqn:Htx; [|by apply Hmiss].
  destruct (out_of_tx_range tx chunks) eqn:Ho; [by eapply Hrange|]. intros Hao Hend.
  pose proof Hok as [(vs & [Ht _] & _) _ Hsec _]. split.
  - intros Hins.
    destruct (wp_run _ _ _ (wp_put_chunks (B := B) miner now GS LF f log n hist self seq tx chunks Hok Hseq Htx Ho Hao Hend Hins))
      as ([] & self' & Hput & Hok' & _). pose proof (manager_stores _ _ _ _ _ _ _ _ Hok') as (_ & Hfo' & _).
    exists self'. split_and!; [done|by eapply flow_ok_reads|by eapply log_reach_put_chunks|].
    destruct Hok' as [(vs' & [Ht' _] & _) _ _ _]. by eapply context_same.
  - intros b Hc.
    destruct (put_chunks_refused miner now GS LF f log n hist self seq tx chunks b Hok Hseq Htx Ho Hao Hend Hc)
      as (msg & self' & Heq & [vs' Ht'] & Hfo'). exists msg, self'.
    split_and!; [done|by eapply flow_ok_reads|by eapply context_same].
Qed.

(** C19: Reading the log manager: a range of a transaction gives the bytes of the
    flow at its place if they are all known, an error beyond its size, and
    nothing for an unknown transaction; a data root gives its first finalized
    transaction, or else, as asked, its first that is not pruned or its first. *)
Theorem log_reads GS LF f log n hist self :
  log_reach GS LF f log n hist self →
  (∀ seq s e, 0 ≤ seq → 0 ≤ s < e →
     (∀ tx, tl_txs log !! Z.to_nat seq = Some tx → 1 ≤ start_entry_index tx + s ∧ start_entry_index tx + e ≤ 2 ^ 63) →
     get_chunks_by_tx_and_index_range (B := B) self seq s e =
       match tl_txs log !! Z.to_nat seq with
       | None => Ok None
       | Some tx => if bytes_to_entries (tx_byte_size tx) <? e then Err "end entry index exceeds tx size" else Ok (tx_range f tx s e)
       end) ∧
  (∀ (r : H256) need, get_tx_seq_by_data_root self r need = Ok (best_tx log need (root_index log r))).
Proof.
  intros Hr. pose proof (log_reach_ok _ _ _ _ _ _ _ Hr) as Hok. split.
  - intros seq s e Hseq Hs Hb. by apply (get_chunks_spec (B := B) miner GS LF f log n hist self seq s e Hok Hseq Hb Hs).
  - intros r need. by apply (get_tx_seq_spec (B := B) miner GS LF f log n hist self r need Hok).
Qed.

(** C5: Proofs of the log manager.  For a sector of the flow [gen_proof] does
    not panic: it gives an error when nodes it needs are not known, and
    otherwise a proof, made of the proof in the chunk and the proof of the
    chunk, that validates for the leaf of that sector at its index in the flow
    against the root that [get_context] returns. *)
Theorem log_proofs_validate GS LF f log n hist self (i : nat) :
  log_reach GS LF f log n hist self → (i < n)%nat →
  match LogManager.gen_proof (B := B) self (Z.of_nat i) None with
  | Ok p => ∃ x r, leaf_of LF i = Some x ∧ get_context self = Ok (r, Z.of_nat n) ∧ validate p x i = Ok tt ∧ proof_root p = Ok r
  | Err _ => True
  | Panic | Diverge => False
  end.
Proof. intros Hr Hi. exact (gen_proof_spec miner GS LF f log n hist self i (log_reach_ok _ _ _ _ _ _ _ Hr) Hi). Qed.

End theorems.

(** ** The padding task *)

Section padding_task.
Context `{Keccak, Bitmap64 B, KeyValueDBLaws KV, !KeyValueIter KV}.
Context {NM : Type} `{!NodeStore NM OptionalHash}.
Context (now : ChunkArray → Z → Z).
Implicit Types (s : FlowStore KV).

Lemma wp_unwrap {S A} (m : M S A) (Q : A → S → Prop) (s : S) : wp m Q s → wp (unwrap m) Q s.
Proof. unfold wp, unwrap. by destruct (m s) as [[] ?]. Qed.

(** The batches of two stores are the same, and both can be written. *)
Definition same_batches s s' : Prop :=
  flow_db s' = flow_db s ∧ (kv_writable (data_db s) → kv_writable (data_db s')) ∧
  ∀ b, get_entry_batch (B := B) (data_db s') b = get_entry_batch (data_db s) b.

(** A round without pad data. *)
Lemma wp_padding_round s (k : Z) :
  kv_writable (data_db s) → get_pad_data s k = Ok None → 0 ≤ k → k + 1 < 2 ^ 64 →
  wp (padding_round (B := B) (NM := NM) now k)
    (λ next s', next = k + 1 ∧ same_batches s s' ∧ get_pad_data_sync_height s' = Ok (Some k)) s.
Proof.
  intros Hw Hn Hk Hlt. unfold padding_round. apply wp_bind, wp_gets. rewrite Hn. cbn [default for_each].
  apply wp_bind, wp_ret, wp_bind, wp_unwrap. unfold put_pad_data_sync_height, on_data_db. apply wp_zoom.
  apply wp_kv_write; [done|]. intros kv Hwk Hkv. apply wp_ret. cbn [foldl apply_op] in Hkv. split_and!.
  - rewrite wrap64_small; lia.
  - split_and!; [done|intros _; exact Hwk|]. intros b. unfold get_entry_batch. cbn [data_db set_data_db].
    rewrite !kv_get_map, Hkv. by rewrite lookup_insert_ne.
  - unfold get_pad_data_sync_height, db_get_pad_data_sync_height. cbn [data_db set_data_db].
    rewrite kv_get_map, Hkv, lookup_insert_eq, bind_Ok. rewrite from_to_be_bytes. cbn [ok_or]. rewrite bind_Ok, Z2Nat.id by done. done.
Qed.

Lemma wp_padding_rounds (n : nat) s (k : Z) :
  kv_writable (data_db s) → (∀ i, k ≤ i → get_pad_data s i = Ok None) → 0 ≤ k → k + Z.of_nat n < 2 ^ 64 →
  wp (padding_rounds (B := B) (NM := NM) now n k)
    (λ next s', next = k + Z.of_nat n ∧ same_batches s s' ∧
       match n with O => s' = s | _ => get_pad_data_sync_height s' = Ok (Some (k + Z.of_nat n - 1)) end) s.
Proof.
  revert k s. induction n as [|n IH]; intros k s Hw Hn Hk Hlt; cbn [padding_rounds].
  { apply wp_ret. split_and!; [lia|done|done]. }
  apply wp_bind. eapply wp_mono; [apply wp_padding_round; [done|by apply Hn|done|lia]|].
  intros next s1 (-> & (Hf & Hw1 & Hb) & Hh). eapply wp_mono; [apply IH; [by apply Hw1| |lia|lia]|].
  - intros i Hi. unfold get_pad_data. rewrite Hf. apply Hn. lia.
  - intros next s2 (-> & (Hf2 & Hw2 & Hb2) & Hh2). split_and!; [lia| |].
    + split_and!; [congruence|auto|intros b; by rewrite Hb2].
    + destruct n as [|n]; [subst s2; rewrite Hh|rewrite Hh2]; do 2 f_equal; lia.
Qed.

(** C38: The background task of [start_padding] does not wait for transactions.
    While a transaction has no pad data yet, which is also the case before it is
    inserted, the task counts it as done: after [n] rounds its height is [n]
    transactions further.  The pad data that is recorded for one of them
    afterwards stays recorded, but the task, also after a restart from its
    stored height, changes no batch in the following rounds: the padding is
    never written. *)
Theorem padding_task_runs_ahead s (k : Z) (n m : nat) l :
  kv_writable (data_db s) → kv_writable (flow_db s) → 0 ≤ k → (1 < n)%nat → k + Z.of_nat n + Z.of_nat m < 2 ^ 64 →
  (∀ i, k ≤ i → get_pad_data s i = Ok None) → Forall pad_pair_typed l →
  ∃ s1 s2 s3,
    padding_rounds (B := B) (NM := NM) now n k s = (Ok (k + Z.of_nat n), s1) ∧
    put_pad_data l k s1 = (Ok tt, s2) ∧ get_pad_data s2 k = Ok (Some l) ∧
    start_padding (B := B) (NM := NM) now m s2 = (Ok (k + Z.of_nat n - 1 + Z.of_nat m), s3) ∧
    ∀ b, get_entry_batch (B := B) (data_db s3) b = get_entry_batch (data_db s) b.
Proof.
  intros Hwd Hwf Hk Hn Hlt Hnone Hl.
  destruct (wp_run _ _ _ (wp_padding_rounds n s k Hwd Hnone Hk ltac:(lia))) as (next & s1 & Hrun & -> & (Hf1 & Hw1 & Hb1) & Hh1).
  destruct n as [|n]; [lia|]. rewrite <-Hf1 in Hwf.
  destruct (wp_run _ _ _ (put_pad_data_spec s1 l k Hwf Hl Hk)) as ([] & s2 & Hput & Hget & Hother & Hd2).
  set (k' := k + Z.of_nat (S n) - 1). assert (∀ i, k' ≤ i → get_pad_data s2 i = Ok None) as Hnone2.
  { intros i Hi. rewrite Hother by lia. unfold get_pad_data. rewrite Hf1. apply Hnone. lia. }
  assert (kv_writable (data_db s2)) as Hw2 by (rewrite Hd2; by apply Hw1).
  destruct (wp_run _ _ _ (wp_padding_rounds m s2 k' Hw2 Hnone2 ltac:(lia) ltac:(lia))) as (next & s3 & Hrun2 & -> & (_ & _ & Hb3) & _).
  exists s1, s2, s3. split_and!; [done..| |].
  - unfold start_padding, mbind, M_bind, unwrap, gets_ok. unfold get_pad_data_sync_height in *. rewrite Hd2, Hh1. exact Hrun2.
  - intros b. by rewrite Hb3, Hd2, Hb1.
Qed.

End padding_task.

(** ** Examples *)

Section examples.
#[local] Existing Instance BatchTheorems.toy_keccak.
#[local] Existing Instance z_bitmap.
#[local] Existing Instance z_bitmap_laws.

Local Abbreviation MM := (MerkleManager (memory_manager OptionalHash) (memory_manager OptionalHash)).
Local Abbreviation now0 := (λ (_ : ChunkArray) (_ : Z), 0).
Local Abbreviation reach := (log_reach (B := bits64) (KV := memory) (NMt := memory_manager OptionalHash) (NM := memory_manager OptionalHash) now0 (λ _, toy_contexts) toy_leaves).

Definition toy_hash : H256 := sha3_leaf (replicate 256 7).

Definition toy_top : memory_manager OptionalHash := nm_new_dummy (E := OptionalHash).

(** A new node, a node with one transaction of one sector, and with its data. *)
Definition toy_manager0 : LogManager memory MM :=
  match log_manager_new (B := bits64) now0 ∅ ∅ (Ok toy_top) 1024 toy_config 0 with
  | Ok self => self
  | _ => LogManager_mk ∅ ∅ 0 (seal_manager toy_flow0) 1024 toy_config
           (MerkleManager_mk (Tree_mk toy_top ∅ ∅ None 10) (Tree_mk toy_top ∅ ∅ None 0))
  end.
Definition toy_manager1 : LogManager memory MM := (LogManager.put_tx (B := bits64) now0 (toy_tx [] toy_hash 0) toy_manager0).2.
Definition toy_chunk : ChunkArray := toy_array 0 1.
Definition toy_manager2 : LogManager memory MM := (put_chunks (B := bits64) now0 0 toy_chunk toy_manager1).2.

Definition log0 : tx_log := TxLog [] ∅ ∅.
Definition log1 : tx_log := log_append log0 (toy_tx [] toy_hash 0).

Lemma toy_flow_leaves : flow_leaves_ok toy_leaves.
Proof. intros b _. apply toy_leaves_ok. Qed.

Lemma toy_manager0_spec :
  log_manager_new (B := bits64) now0 ∅ ∅ (Ok toy_top) 1024 toy_config 0 = Ok toy_manager0 ∧
  manager_ok (B := bits64) toy_miner (λ _, toy_contexts) toy_leaves (λ _, None) log0 1 ∅ toy_manager0.
Proof.
  destruct (log_manager_new_spec (B := bits64) (KV := memory) (NMt := memory_manager OptionalHash) (NM := memory_manager OptionalHash)
    toy_miner now0 (λ _, toy_contexts) toy_leaves ∅ ∅ toy_top toy_config 0) as (self & Hnew & Hok).
  - by split.
  - by split.
  - apply rep_new_dummy.
  - done.
  - intros b. apply toy_context_map.
  - apply toy_flow_leaves.
  - unfold toy_manager0. rewrite Hnew. split; [reflexivity|exact Hok].
Qed.

Lemma manager0_reach : reach (λ _, None) log0 1 ∅ toy_manager0.
Proof.
  eapply (log_reach_new _ _ _ ∅ ∅ toy_top toy_config 0).
  - by split.
  - by split.
  - apply rep_new_dummy.
  - done.
  - intros b. apply toy_context_map.
  - apply toy_flow_leaves.
  - apply toy_manager0_spec.
Qed.

Lemma toy_leaf_of (i : nat) : (0 < i)%nat → leaf_of toy_leaves i = toy_leaf.
Proof.
  intros Hi. unfold leaf_of. pose proof (Nat.div_mod_eq i (2 ^ 10)) as Hdm. pose proof (Nat.mod_upper_bound i (2 ^ 10) ltac:(done)) as Hmb.
  change (2 ^ 10)%nat with 1024%nat in *. pose proof (toy_leaves_lookup (Z.of_nat (i / 1024)) (Z.of_nat (i `mod` 1024)) ltac:(lia) ltac:(lia) ltac:(lia)) as Hl.
  rewrite Nat2Z.id in Hl. by rewrite Hl.
Qed.

Lemma toy_next_tx : next_tx toy_leaves log0 1 2 (toy_tx [] toy_hash 0) (toy_tx [] toy_hash 0).
Proof.
  split; [done|done|done|by apply toy_tx_typed| |done].
  unfold tx_extends. rewrite bool_decide_false by done. exists 1%nat. split_and!; [done|lia|done|intros i; lia|by left|].
  split; [|done]. split_and!; [done|apply Nat.mod_1_r|done|]. split.
  - apply length_seg.
  - apply seg_known; [apply toy_flow_leaves|done].
  - exact (eq_trans (lookup_seg toy_leaves 1 1 0 ltac:(lia)) (f_equal Some (toy_leaf_of 1 ltac:(lia)))).
Qed.


Lemma manager0_config : lm_shard_config toy_manager0 = toy_config.
Proof. vm_compute. reflexivity. Qed.

Lemma manager1_config : lm_shard_config toy_manager1 = toy_config.
Proof.
  destruct (wp_run _ _ _ (wp_put_tx (B := bits64) toy_miner now0 _ _ _ _ _ _ _ _ _ _ (log_reach_ok toy_miner _ _ _ _ _ _ _ _ manager0_reach) toy_next_tx))
    as ([] & self' & Hput & _ & Hc). unfold toy_manager1. rewrite Hput. cbn [snd]. rewrite Hc. apply manager0_config.
Qed.

Lemma manager1_reach : reach (λ _, None) log1 2 {[0%nat := 2%nat]} toy_manager1.
Proof.
  destruct (wp_run _ _ _ (wp_put_tx (B := bits64) toy_miner now0 _ _ _ _ _ _ _ _ _ _ (log_reach_ok toy_miner _ _ _ _ _ _ _ _ manager0_reach) toy_next_tx))
    as ([] & self' & Hput & _). unfold toy_manager1. rewrite Hput.
  exact (log_reach_put_tx _ _ _ _ _ _ _ _ _ _ _ _ manager0_reach toy_next_tx Hput).
Qed.

Lemma toy_chunk_array : flow_array (toy_tx [] toy_hash 0) toy_chunk = toy_array 1 1.
Proof. reflexivity. Qed.

Lemma toy_chunk_ok : array_ok toy_leaves (flow_array (toy_tx [] toy_hash 0) toy_chunk).
Proof. rewrite toy_chunk_array. by apply toy_array_ok; [|lia|]. Qed.

Lemma toy_chunk_insertable config : insertable config (flow_array (toy_tx [] toy_hash 0) toy_chunk) (λ _, None).
Proof. intros b _. by left. Qed.

Lemma log_put_chunks_outcome_witness :
  put_chunks (B := bits64) now0 5 toy_chunk toy_manager1 = (Err "put chunks with missing tx", toy_manager1) ∧
  put_chunks (B := bits64) now0 0 (toy_array 0 2) toy_manager1 = (Err "put chunks with data out of tx range", toy_manager1) ∧
  ∃ self', put_chunks (B := bits64) now0 0 toy_chunk toy_manager1 = (Ok tt, self') ∧
    get_entries (B := bits64) (flow_store self') 1 2 = Ok (Some (toy_array 1 1)) ∧
    get_context self' = get_context toy_manager1.
Proof.
  pose proof (λ seq chunks, log_put_chunks_outcome toy_miner now0 _ _ _ _ _ _ _ seq chunks manager1_reach) as Hp.
  assert (tl_txs log1 !! Z.to_nat 5 = None) as H5 by reflexivity.
  assert (tl_txs log1 !! Z.to_nat 0 = Some (toy_tx [] toy_hash 0)) as H0 by reflexivity.
  assert (out_of_tx_range (toy_tx [] toy_hash 0) (toy_array 0 2) = true) as Hout by reflexivity.
  assert (out_of_tx_range (toy_tx [] toy_hash 0) toy_chunk = false) as Hin by reflexivity.
  split; [|split].
  - specialize (Hp 5 toy_chunk ltac:(lia)). rewrite H5 in Hp. exact Hp.
  - specialize (Hp 0 (toy_array 0 2) ltac:(lia)). rewrite H0, Hout in Hp. exact Hp.
  - specialize (Hp 0 toy_chunk ltac:(lia)). rewrite H0, Hin in Hp.
    destruct (Hp toy_chunk_ok ltac:(rewrite toy_chunk_array; vm_compute; discriminate)) as [Hput _].
    destruct (Hput (toy_chunk_insertable _)) as (self' & Heq & Hreads & _ & Hctx). exists self'. split; [exact Heq|]. split; [|exact Hctx].
    rewrite Hreads by lia. rewrite manager1_config, toy_chunk_array. vm_compute. reflexivity.
Defined.

Lemma manager2_reach : reach (put_flow (lm_shard_config toy_manager1) (toy_array 1 1) (λ _, None)) log1 2 {[0%nat := 2%nat]} toy_manager2.
Proof.
  destruct (wp_run _ _ _ (wp_put_chunks (B := bits64) toy_miner now0 _ _ _ _ _ _ _ 0 (toy_tx [] toy_hash 0) toy_chunk
    (log_reach_ok toy_miner _ _ _ _ _ _ _ _ manager1_reach) ltac:(lia) eq_refl eq_refl toy_chunk_ok ltac:(done) (toy_chunk_insertable _)))
    as ([] & self' & Hput & _). unfold toy_manager2. rewrite Hput.
  exact (log_reach_put_chunks _ _ _ _ _ _ _ _ 0 (toy_tx [] toy_hash 0) toy_chunk _ manager1_reach ltac:(lia) eq_refl toy_chunk_ok ltac:(done) (toy_chunk_insertable _) Hput).
Qed.

(** A node that keeps the even segments, with two transactions of the same data:
    the first starts in segment 1, the second in segment 0.  The second one is
    finalized, and the first is not, its segment being of another shard. *)
Definition toy_even : ShardConfig := ShardConfig_mk 0 2.
Definition toy_far : Transaction := Transaction_mk [] [] toy_hash [] 1024 256 0.
Definition toy_near : Transaction := Transaction_mk [] [] toy_hash [(1, toy_hash)] 1 256 1.
Definition log_near : tx_log := log_append (log_append log0 toy_far) toy_near.

Lemma toy_far_typed : tx_typed toy_far.
Proof.
  split; [constructor|constructor|constructor|cbn; lia..|]. apply (Nat.lt_le_trans _ 200); [apply Nat.ltb_lt; vm_compute; reflexivity|unfold u32_max; lia].
Qed.

Lemma toy_near_typed : tx_typed toy_near.
Proof.
  split; [constructor|constructor| |cbn; lia..|].
  - constructor; [cbn; lia|constructor].
  - apply (Nat.lt_le_trans _ 200); [apply Nat.ltb_lt; vm_compute; reflexivity|unfold u32_max; lia].
Qed.

Lemma toy_far_next : next_tx toy_leaves log0 1 1 toy_far toy_far.
Proof. split; [done|done|done|apply toy_far_typed|done|done]. Qed.

Lemma toy_near_next : next_tx toy_leaves (log_append log0 toy_far) 1 2 toy_near toy_near.
Proof.
  destruct toy_next_tx as [_ _ _ _ Hx _]. split; [done|done|done|apply toy_near_typed|exact Hx|]. by intros old _.
Qed.

Definition toy_even0 : LogManager memory MM :=
  match log_manager_new (B := bits64) now0 ∅ ∅ (Ok toy_top) 1024 toy_even 0 with Ok self => self | _ => toy_manager0 end.
Definition toy_even1 : LogManager memory MM := (LogManager.put_tx (B := bits64) now0 toy_far toy_even0).2.
Definition toy_even2 : LogManager memory MM := (LogManager.put_tx (B := bits64) now0 toy_near toy_even1).2.
Definition toy_even3 : LogManager memory MM := (put_chunks (B := bits64) now0 1 toy_chunk toy_even2).2.
Definition toy_even4 : LogManager memory MM := (LogManager.finalize_tx (B := bits64) now0 1 toy_even3).2.

Lemma even0_reach : reach (λ _, None) log0 1 ∅ toy_even0 ∧ lm_shard_config toy_even0 = toy_even.
Proof.
  split; [|vm_compute; reflexivity].
  destruct (log_manager_new_spec (B := bits64) (KV := memory) (NMt := memory_manager OptionalHash) (NM := memory_manager OptionalHash)
    toy_miner now0 (λ _, toy_contexts) toy_leaves ∅ ∅ toy_top toy_even 0) as (s0 & Hnew & _);
    [by split|by split|apply rep_new_dummy|done|intros b; apply toy_context_map|apply toy_flow_leaves|].
  unfold toy_even0. rewrite Hnew.
  apply (log_reach_new now0 _ _ ∅ ∅ toy_top toy_even 0); [by split|by split|apply rep_new_dummy|done|intros b; apply toy_context_map|apply toy_flow_leaves|exact Hnew].
Qed.

Lemma even1_reach : reach (λ _, None) (log_append log0 toy_far) 1 {[0%nat := 1%nat]} toy_even1 ∧ lm_shard_config toy_even1 = toy_even.
Proof.
  destruct even0_reach as [Hr Hc].
  destruct (wp_run _ _ _ (wp_put_tx (B := bits64) toy_miner now0 _ _ _ _ _ _ _ _ _ _ (log_reach_ok toy_miner _ _ _ _ _ _ _ _ Hr) toy_far_next))
    as ([] & self' & Hput & _ & Hc'). unfold toy_even1. rewrite Hput. split; [|cbn [snd]; congruence].
  exact (log_reach_put_tx _ _ _ _ _ _ _ _ _ _ _ _ Hr toy_far_next Hput).
Qed.

Lemma even2_reach : reach (λ _, None) log_near 2 {[1%nat := 2%nat; 0%nat := 1%nat]} toy_even2 ∧ lm_shard_config toy_even2 = toy_even.
Proof.
  destruct even1_reach as [Hr Hc].
  destruct (wp_run _ _ _ (wp_put_tx (B := bits64) toy_miner now0 _ _ _ _ _ _ _ _ _ _ (log_reach_ok toy_miner _ _ _ _ _ _ _ _ Hr) toy_near_next))
    as ([] & self' & Hput & _ & Hc'). unfold toy_even2. rewrite Hput. split; [|cbn [snd]; congruence].
  exact (log_reach_put_tx _ _ _ _ _ _ _ _ _ _ _ _ Hr toy_near_next Hput).
Qed.

Lemma even3_reach :
  reach (put_flow toy_even (toy_array 1 1) (λ _, None)) log_near 2 {[1%nat := 2%nat; 0%nat := 1%nat]} toy_even3 ∧
  lm_shard_config toy_even3 = toy_even.
Proof.
  destruct even2_reach as [Hr Hc].
  destruct (wp_run _ _ _ (wp_put_chunks (B := bits64) toy_miner now0 _ _ _ _ _ _ _ 1 toy_near toy_chunk
    (log_reach_ok toy_miner _ _ _ _ _ _ _ _ Hr) ltac:(lia) eq_refl eq_refl toy_chunk_ok ltac:(done) (toy_chunk_insertable _)))
    as ([] & self' & Hput & _ & Hc'). unfold toy_even3. rewrite Hput. split; [|cbn [snd]; congruence]. rewrite <- Hc.
  exact (log_reach_put_chunks _ _ _ _ _ _ _ _ 1 toy_near toy_chunk _ Hr ltac:(lia) eq_refl toy_chunk_ok ltac:(done) (toy_chunk_insertable _) Hput).
Qed.

Lemma toy_near_alone : copies_nothing toy_even log_near toy_near.
Proof.
  split; [reflexivity|]. intros i tx2 Hi Hne _ Htx. apply elem_of_root_index in Hi as [_ Hi]. change (tl_len log_near) with 2 in Hi.
  change (tx_seq toy_near) with 1 in Hne. replace i with 0 in Htx by lia. injection Htx as <-. vm_compute. discriminate.
Qed.

Lemma even4_reach :
  reach (put_flow toy_even (toy_array 1 1) (λ _, None)) (log_finalize log_near 1) 2 {[1%nat := 2%nat; 0%nat := 1%nat]} toy_even4.
Proof.
  destruct even3_reach as [Hr Hc].
  assert (match (LogManager.finalize_tx (B := bits64) now0 1 toy_even3).1 with Ok _ => true | _ => false end = true) as Hok by (vm_compute; reflexivity).
  unfold toy_even4. destruct (LogManager.finalize_tx (B := bits64) now0 1 toy_even3) as [[[]| | |] s'] eqn:Hfin; [|discriminate..].
  apply (log_reach_finalize now0 _ _ _ _ _ _ toy_even3 1 toy_near s' Hr); [lia|reflexivity| |exact Hfin].
  rewrite Hc. apply toy_near_alone.
Qed.

Lemma log_reads_witness :
  get_chunks_by_tx_and_index_range (B := bits64) toy_manager2 0 0 1 = Ok (Some toy_chunk) ∧
  get_chunks_by_tx_and_index_range (B := bits64) toy_manager2 0 0 2 = Err "end entry index exceeds tx size" ∧
  get_tx_seq_by_data_root toy_manager2 toy_hash true = Ok (Some 0) ∧
  root_index (log_finalize log_near 1) toy_hash = [0; 1] ∧
  get_tx_seq_by_data_root toy_even4 toy_hash false = Ok (Some 1).
Proof.
  split; [|split; [|split; [|split]]].
  - rewrite (proj1 (log_reads toy_miner now0 _ _ _ _ _ _ _ manager2_reach) 0 0 1); [vm_compute; reflexivity|lia|lia|].
    intros tx [= <-]. cbn. lia.
  - rewrite (proj1 (log_reads toy_miner now0 _ _ _ _ _ _ _ manager2_reach) 0 0 2); [vm_compute; reflexivity|lia|lia|].
    intros tx [= <-]. cbn. lia.
  - rewrite (proj2 (log_reads toy_miner now0 _ _ _ _ _ _ _ manager2_reach)). vm_compute. reflexivity.
  - vm_compute. reflexivity.
  - rewrite (proj2 (log_reads toy_miner now0 _ _ _ _ _ _ _ even4_reach)). vm_compute. reflexivity.
Defined.

Lemma log_proofs_validate_witness :
  ∃ p x r, LogManager.gen_proof (B := bits64) toy_manager2 1 None = Ok p ∧
    leaf_of toy_leaves 1 = Some x ∧ get_context toy_manager2 = Ok (r, 2) ∧ validate p x 1 = Ok tt ∧ proof_root p = Ok r.
Proof.
  pose proof (log_proofs_validate toy_miner now0 _ _ _ _ _ _ _ 1 manager2_reach ltac:(lia)) as Hp. change (Z.of_nat 1) with 1 in Hp.
  assert (match LogManager.gen_proof (B := bits64) toy_manager2 1 None with Ok _ => true | _ => false end = true) as Hgen by (vm_compute; reflexivity).
  destruct (LogManager.gen_proof (B := bits64) toy_manager2 1 None) as [p| | |]; [|discriminate..].
  destruct Hp as (x & r & Hp). exists p, x, r. split; [reflexivity|exact Hp].
Defined.

(** One transaction's pad data recorded after two rounds of the task. *)
Lemma padding_task_runs_ahead_witness :
  ∃ s1 s2 s3,
    padding_rounds (B := bits64) (NM := memory_manager OptionalHash) now0 2 0 toy_flow0 = (Ok 2, s1) ∧
    put_pad_data [PadPair_mk 1 256] 0 s1 = (Ok tt, s2) ∧ get_pad_data s2 0 = Ok (Some [PadPair_mk 1 256]) ∧
    start_padding (B := bits64) (NM := memory_manager OptionalHash) now0 3 s2 = (Ok 4, s3) ∧
    ∀ b, get_entry_batch (B := bits64) (data_db s3) b = get_entry_batch (data_db toy_flow0) b.
Proof.
  apply (padding_task_runs_ahead (B := bits64) (NM := memory_manager OptionalHash) now0 toy_flow0 0 2 3 [PadPair_mk 1 256]).
  - by split.
  - by split.
  - lia.
  - lia.
  - lia.
  - intros i _. reflexivity.
  - repeat constructor; cbn; lia.
Defined.

End examples.
