(* ===== verification/SyncStore.v ===== *)
(** The queues of files to synchronize: [node/sync/src/auto_sync/tx_store.rs]
    and [sync_store.rs], with the configuration values they are stored in
    ([node/storage/src/log_store/config.rs]).

    A queue is an enumerable set: its size, the element at every index and the
    index of every element are configuration values of the data base.  The store
    is shared with the rest of the node; it is the first half of the state of
    every operation. *)

From stdpp Require Import pretty sorting list_numbers.
From S2P Require Import Prelude HashElement Ssz MerkleProof NodeStore AppendMerkle Bytes FlowDb Shard MerkleLight SharedTypes.
From S2P Require Import Seal ChunkData SealInfo EntryBatch Serde FlowStore TxStore LogManager.
Local Open Scope Z_scope.

(** ** Configuration values *)

Definition DATA_DB_KEY : string := "data_db".
Definition FLOW_DB_KEY : string := "flow_db".

Definition ConfigTx := list DBOp.

Definition configtx_append (self other : ConfigTx) : ConfigTx := self ++ other.
Definition configtx_set_config {T} `{Encode T} (self : ConfigTx) (key : string) (value : T) : ConfigTx :=
  self ++ [Insert COL_MISC (str_bytes key) (as_ssz_bytes value)].
Definition configtx_remove_config (self : ConfigTx) (key : string) : ConfigTx :=
  self ++ [Delete COL_MISC (str_bytes key)].

Section config.
Context `{KeyValueDB KV} {MM : Type}.
Local Abbreviation manager := (LogManager KV MM).
Implicit Types (store : manager).

Definition set_lm_data_db (kv : KV) store : manager :=
  LogManager_mk (lm_flow_db store) kv (lm_next_tx_seq store) (lm_seal_manager store) (lm_batch_size store)
    (lm_shard_config store) (lm_merkle store).
Definition set_lm_flow_db (kv : KV) store : manager :=
  LogManager_mk kv (lm_data_db store) (lm_next_tx_seq store) (lm_seal_manager store) (lm_batch_size store)
    (lm_shard_config store) (lm_merkle store).

Definition get_config store (key : list Z) (dest : string) : outcome (option (list Z)) :=
  if bool_decide (dest = DATA_DB_KEY) then kv_get (lm_data_db store) COL_MISC key
  else if bool_decide (dest = FLOW_DB_KEY) then kv_get (lm_flow_db store) COL_MISC key
  else Err "Invalid destination".

Definition exec_configs (tx : ConfigTx) (dest : string) : M manager () :=
  if bool_decide (dest = DATA_DB_KEY) then zoom lm_data_db set_lm_data_db (kv_write tx)
  else if bool_decide (dest = FLOW_DB_KEY) then zoom lm_flow_db set_lm_flow_db (kv_write tx)
  else bail "Invalid destination".

(** [db.put] and [db.delete] write a transaction of one operation. *)
Definition set_config (key value : list Z) (dest : string) : M manager () :=
  exec_configs [Insert COL_MISC key value] dest.
Definition remove_config (key : list Z) (dest : string) : M manager () :=
  exec_configs [Delete COL_MISC key] dest.

Definition get_config_decoded {T} `{Decode T} store (key : string) (dest : string) : outcome (option T) :=
  o ← get_config store (str_bytes key) dest;
  match o with
  | None => Ok None
  | Some val =>
      match from_ssz_bytes (T := T) val with
      | Ok v => Ok (Some v)
      | Err _ => Err "SSZ decode error"
      | Panic => Panic
      | Diverge => Diverge
      end
  end.

Definition set_config_encoded {T} `{Encode T} (key : string) (value : T) (dest : string) : M manager () :=
  set_config (str_bytes key) (as_ssz_bytes value) dest.

End config.

(** ** [TxStore] *)

Record TxStore := TxStore_mk {
  ts_name : string;
  ts_key_count : string;
}.

Definition sync_tx_new (name : string) : TxStore :=
  TxStore_mk name ("sync.manager.txs." +:+ name +:+ ".count").

Definition key_seq_to_index (self : TxStore) (tx_seq : Z) : string :=
  "sync.manager.txs." +:+ ts_name self +:+ ".seq2index." +:+ pretty tx_seq.
Definition key_index_to_seq (self : TxStore) (index : Z) : string :=
  "sync.manager.txs." +:+ ts_name self +:+ ".index2seq." +:+ pretty index.

(** What the operations draw at random: [thread_rng().gen_range(0..n)] and
    [cache.iter().choose(..)]. *)
Record Rng := Rng_mk { gen_range : Z → Z; choose : gset Z → option Z }.

Section tx_store.
Context `{KeyValueDB KV} {MM : Type}.
Local Abbreviation manager := (LogManager KV MM).
Implicit Types (self : TxStore) (store : manager) (db_tx : option ConfigTx).

Definition index_of self store (tx_seq : Z) : outcome (option Z) :=
  get_config_decoded (T := usize) store (key_seq_to_index self tx_seq) DATA_DB_KEY.

Definition at_index self store (index : Z) : outcome (option Z) :=
  get_config_decoded (T := u64) store (key_index_to_seq self index) DATA_DB_KEY.

Definition tx_has self store (tx_seq : Z) : outcome bool :=
  idx ← index_of self store tx_seq; Ok (bool_decide (is_Some idx)).

Definition tx_count self store : outcome Z :=
  x ← (get_config_decoded (T := usize) store (ts_key_count self) DATA_DB_KEY : outcome (option Z)); Ok (default 0 x).

(** The operations go to the caller's transaction, or are written at once. *)
Definition exec_or_append db_tx (tx : ConfigTx) : M manager (option ConfigTx) :=
  match db_tx with
  | Some db_tx => mret (Some (configtx_append db_tx tx))
  | None => _ ← exec_configs tx DATA_DB_KEY; mret None
  end.

Definition add_ops self (count tx_seq : Z) : ConfigTx :=
  let tx := configtx_set_config (T := u64) [] (key_index_to_seq self count) tx_seq in
  let tx := configtx_set_config (T := usize) tx (key_seq_to_index self tx_seq) count in
  configtx_set_config (T := usize) tx (ts_key_count self) (wrap64 (count + 1)).

Definition tx_add self db_tx (tx_seq : Z) : M manager (bool * option ConfigTx) :=
  exists_ ← gets_ok (λ store, tx_has self store tx_seq);
  if (exists_ : bool) then mret (false, db_tx)
  else
    count ← gets_ok (tx_count self);
    db_tx ← exec_or_append db_tx (add_ops self count tx_seq);
    mret (true, db_tx).

Definition tx_random (rng : Rng) self store : outcome (option Z) :=
  count ← tx_count self store;
  if count =? 0 then Ok None
  else
    o ← at_index self store (gen_range rng count);
    tx_seq ← expect o;
    Ok (Some tx_seq).

(** The last element moves to the removed slot. *)
Definition swap_ops self (tx : ConfigTx) (index count last_tx : Z) : ConfigTx :=
  let tx := configtx_set_config (T := u64) tx (key_index_to_seq self index) last_tx in
  let tx := configtx_remove_config tx (key_index_to_seq self (count - 1)) in
  configtx_set_config (T := usize) tx (key_seq_to_index self last_tx) index.

Definition remove_ops self store (index count tx_seq : Z) : outcome ConfigTx :=
  let tx := configtx_set_config (T := usize) [] (ts_key_count self) (count - 1) in
  let tx := configtx_remove_config tx (key_seq_to_index self tx_seq) in
  if index =? count - 1 then Ok (configtx_remove_config tx (key_index_to_seq self index))
  else
    o ← (at_index self store (count - 1) : outcome (option Z));
    last_tx ← expect o;
    Ok (swap_ops self tx index count last_tx).

Definition tx_remove self db_tx (tx_seq : Z) : M manager (bool * option ConfigTx) :=
  o ← gets_ok (λ store, index_of self store tx_seq);
  match o with
  | None => mret (false, db_tx)
  | Some index =>
      count ← gets_ok (tx_count self);
      if count =? 0 then panic
      else
        tx ← gets_ok (λ store, remove_ops self store index count tx_seq);
        db_tx ← exec_or_append db_tx tx;
        mret (true, db_tx)
  end.

End tx_store.

(** ** [CachedTxStore] *)

Record CachedTxStore := CachedTxStore_mk {
  ct_store : TxStore;
  cache_cap : Z;
  cache : gset Z;
}.

Definition cached_new (name : string) (cap : Z) : CachedTxStore := CachedTxStore_mk (sync_tx_new name) cap ∅.

Definition set_cache (c : gset Z) (self : CachedTxStore) : CachedTxStore :=
  CachedTxStore_mk (ct_store self) (cache_cap self) c.

(** A new element enters the cache; above the capacity a random one leaves. *)
Definition cache_insert (rng : Rng) (tx_seq : Z) (self : CachedTxStore) : CachedTxStore :=
  let c := {[tx_seq]} ∪ cache self in
  if cache_cap self <? Z.of_nat (size c)
  then set_cache (match choose rng c with Some popped => c ∖ {[popped]} | None => c end) self
  else set_cache c self.

Section cached.
Context `{KeyValueDB KV} {MM : Type}.
Local Abbreviation manager := (LogManager KV MM).
Implicit Types (self : CachedTxStore) (store : manager).

(** Running an operation of the store, of either half of the state. *)
Definition on_store {X A} (m : M manager A) : M (manager * X) A := zoom fst (λ st s, (st, s.2)) m.
Definition on_snd {X A} (m : M X A) : M (manager * X) A := zoom snd (λ x s, (s.1, x)) m.

Definition get_self {X} : M (manager * X) X := gets snd.

Definition cached_has self store (tx_seq : Z) : outcome bool := tx_has (ct_store self) store tx_seq.

Definition cached_count self store : outcome (Z * Z) :=
  n ← tx_count (ct_store self) store;
  Ok (n, if cache_cap self =? 0 then 0 else Z.of_nat (size (cache self))).

Definition cached_add (rng : Rng) (db_tx : option ConfigTx) (tx_seq : Z) :
    M (manager * CachedTxStore) (bool * option ConfigTx) :=
  self ← get_self;
  added ← on_store (tx_add (ct_store self) db_tx tx_seq);
  _ ← when (negb (cache_cap self =? 0) && added.1) (on_snd (modify (cache_insert rng tx_seq)));
  mret added.

Definition cached_random (rng : Rng) self store : outcome (option Z) :=
  if cache_cap self =? 0 then tx_random rng (ct_store self) store
  else
    match choose rng (cache self) with
    | Some v => Ok (Some v)
    | None => tx_random rng (ct_store self) store
    end.

Definition cached_remove (db_tx : option ConfigTx) (tx_seq : Z) : M (manager * CachedTxStore) (bool * option ConfigTx) :=
  self ← get_self;
  removed ← on_store (tx_remove (ct_store self) db_tx tx_seq);
  _ ← when (negb (cache_cap self =? 0) && removed.1) (on_snd (modify (λ self, set_cache (cache self ∖ {[tx_seq]}) self)));
  mret removed.

End cached.

(** ** [SyncStore] *)

Definition KEY_NEXT_TX_SEQ : string := "sync.manager.next_tx_seq".
Definition KEY_MAX_TX_SEQ : string := "sync.manager.max_tx_seq".

Inductive Queue := Ready | Pending.
Inductive InsertResult := NewAdded | AlreadyExists | Upgraded | Downgraded.

#[export] Instance Queue_eq_dec : EqDecision Queue.
Proof. solve_decision. Defined.
#[export] Instance InsertResult_eq_dec : EqDecision InsertResult.
Proof. solve_decision. Defined.

(** [store] is the other half of the state. *)
Record SyncStore := SyncStore_mk { pending_txs : TxStore; ready_txs : CachedTxStore }.

Definition sync_store_new_with_name (ready_txs_cache_cap : Z) (pending ready : string) : SyncStore :=
  SyncStore_mk (sync_tx_new pending) (cached_new ready ready_txs_cache_cap).
Definition sync_store_new (ready_txs_cache_cap : Z) : SyncStore :=
  sync_store_new_with_name ready_txs_cache_cap "pending" "ready".

Section sync_store.
Context `{KeyValueDB KV} {MM : Type}.
Local Abbreviation manager := (LogManager KV MM).
Implicit Types (self : SyncStore) (store : manager) (s : manager * SyncStore).

Definition on_ready {A} (m : M (manager * CachedTxStore) A) : M (manager * SyncStore) A :=
  zoom (λ s : manager * SyncStore, (s.1, ready_txs s.2)) (λ t s, (t.1, SyncStore_mk (pending_txs s.2) t.2)) m.

(** The transaction [Some(&mut tx)] that a call hands back. *)
Definition tx_of (r : bool * option ConfigTx) : ConfigTx := default [] r.2.

Definition sync_stat s : outcome (Z * Z * Z) :=
  num_pending_txs ← tx_count (pending_txs s.2) s.1;
  r ← cached_count (ready_txs s.2) s.1;
  Ok (num_pending_txs, r.1, r.2).

Definition get_tx_seq_range s : outcome (option Z * option Z) :=
  next_tx_seq ← (get_config_decoded (T := u64) s.1 KEY_NEXT_TX_SEQ DATA_DB_KEY : outcome (option Z));
  max_tx_seq ← (get_config_decoded (T := u64) s.1 KEY_MAX_TX_SEQ DATA_DB_KEY : outcome (option Z));
  Ok (next_tx_seq, max_tx_seq).

Definition set_next_tx_seq (tx_seq : Z) : M (manager * SyncStore) () :=
  on_store (set_config_encoded KEY_NEXT_TX_SEQ (tx_seq : u64) DATA_DB_KEY).

Definition set_max_tx_seq (tx_seq : Z) : M (manager * SyncStore) () :=
  on_store (set_config_encoded KEY_MAX_TX_SEQ (tx_seq : u64) DATA_DB_KEY).

Definition sync_contains s (tx_seq : Z) : outcome (option Queue) :=
  ready ← cached_has (ready_txs s.2) s.1 tx_seq;
  if (ready : bool) then Ok (Some Ready)
  else
    pending ← tx_has (pending_txs s.2) s.1 tx_seq;
    if (pending : bool) then Ok (Some Pending) else Ok None.

Definition sync_insert (rng : Rng) (tx_seq : Z) (queue : Queue) : M (manager * SyncStore) InsertResult :=
  match queue with
  | Ready =>
      added ← on_ready (cached_add rng (Some []) tx_seq);
      if negb added.1 then mret AlreadyExists
      else
        self ← get_self;
        removed ← on_store (tx_remove (pending_txs self) (Some (tx_of added)) tx_seq);
        _ ← on_store (exec_configs (tx_of removed) DATA_DB_KEY);
        mret (if (removed.1 : bool) then Upgraded else NewAdded)
  | Pending =>
      self ← get_self;
      added ← on_store (tx_add (pending_txs self) (Some []) tx_seq);
      if negb added.1 then mret AlreadyExists
      else
        removed ← on_ready (cached_remove (Some (tx_of added)) tx_seq);
        _ ← on_store (exec_configs (tx_of removed) DATA_DB_KEY);
        mret (if (removed.1 : bool) then Downgraded else NewAdded)
  end.

Definition sync_upgrade (rng : Rng) (tx_seq : Z) : M (manager * SyncStore) bool :=
  self ← get_self;
  removed ← on_store (tx_remove (pending_txs self) (Some []) tx_seq);
  if negb removed.1 then mret false
  else
    added ← on_ready (cached_add rng (Some (tx_of removed)) tx_seq);
    _ ← on_store (exec_configs (tx_of added) DATA_DB_KEY);
    mret added.1.

Definition sync_random (rng : Rng) s : outcome (option Z) :=
  o ← cached_random rng (ready_txs s.2) s.1;
  match o with
  | Some val => Ok (Some val)
  | None => tx_random rng (pending_txs s.2) s.1
  end.

Definition sync_remove (tx_seq : Z) : M (manager * SyncStore) (option Queue) :=
  removed ← on_ready (cached_remove None tx_seq);
  if (removed.1 : bool) then mret (Some Ready)
  else
    self ← get_self;
    removed ← on_store (tx_remove (pending_txs self) None tx_seq);
    mret (if (removed.1 : bool) then Some Pending else None).

End sync_store.
