(* ===== verification/SyncStoreFacts.v ===== *)
(** A queue of files is an enumerable set: what its operations do to the list of
    its elements, and that the keys of different queues do not overlap. *)

From stdpp Require Import pretty sorting list_numbers.
From S2P Require Import Prelude HashElement Ssz SszFacts MerkleProof NodeStore AppendMerkle Bytes FlowDb Shard MerkleLight SharedTypes.
From S2P Require Import Seal ChunkData SealInfo EntryBatch Serde FlowStore TxStore LogManager SyncStore.
Local Open Scope Z_scope.

(** ** Keys *)

#[export] Instance str_bytes_inj : Inj (=) (=) str_bytes.
Proof.
  intros s. induction s as [|c s IH]; intros [|c' s']; cbn; [done|done|done|]. intros [= Hc Hs].
  apply IH in Hs as ->. f_equal. apply N2Z.inj in Hc.
  by rewrite <- (Ascii.ascii_N_embedding c), Hc, Ascii.ascii_N_embedding.
Qed.

Definition DOT : Ascii.ascii := Ascii.ascii_of_nat 46.

Fixpoint no_dot (s : string) : bool :=
  match s with EmptyString => true | String c s' => negb (bool_decide (c = DOT)) && no_dot s' end.

Lemma app_dot_inj a b r r' : no_dot a → no_dot b → (a +:+ String DOT r)%string = (b +:+ String DOT r')%string → a = b ∧ r = r'.
Proof.
  revert b. induction a as [|c a IH]; intros [|c' b]; cbn; intros Ha Hb Heq.
  - by injection Heq.
  - injection Heq as <- _. by rewrite bool_decide_true in Hb.
  - injection Heq as -> _. by rewrite bool_decide_true in Ha.
  - injection Heq as -> Heq. apply andb_prop_elim in Ha as [_ Ha], Hb as [_ Hb]. by destruct (IH b Ha Hb Heq) as [-> ->].
Qed.

(** The keys of a queue. *)
Inductive queue_key := KCount | KIndex (i : Z) | KSeq (x : Z).

Definition key_tail (k : queue_key) : string :=
  match k with
  | KCount => "count"
  | KIndex i => "index2seq." +:+ pretty i
  | KSeq x => "seq2index." +:+ pretty x
  end.

Definition key_of (name : string) (k : queue_key) : nat * list Z :=
  (COL_MISC, str_bytes ("sync.manager.txs." +:+ name +:+ String DOT (key_tail k))).

Lemma key_of_inj n n' k k' : no_dot n → no_dot n' → key_of n k = key_of n' k' → n = n' ∧ k = k'.
Proof.
  intros Hn Hn' [= Heq]. apply (inj str_bytes) in Heq. apply (inj (String.app _)) in Heq.
  destruct (app_dot_inj _ _ _ _ Hn Hn' Heq) as [-> Ht]. split; [done|].
  destruct k as [|i|x], k' as [|i'|x']; try done; cbn in Ht; injection Ht as Ht; f_equal; by apply (inj pretty).
Qed.

Lemma key_count_of name : (COL_MISC, str_bytes (ts_key_count (sync_tx_new name))) = key_of name KCount.
Proof. done. Qed.
Lemma key_index_of name i : (COL_MISC, str_bytes (key_index_to_seq (sync_tx_new name) i)) = key_of name (KIndex i).
Proof. done. Qed.
Lemma key_seq_of name x : (COL_MISC, str_bytes (key_seq_to_index (sync_tx_new name) x)) = key_of name (KSeq x).
Proof. done. Qed.

#[export] Instance queue_key_eq_dec : EqDecision queue_key.
Proof. solve_decision. Defined.

(** The values under the keys of a queue. *)
Definition view (name : string) (m : gmap (nat * list Z) (list Z)) (k : queue_key) : option (list Z) := m !! key_of name k.
Definition upd (f : queue_key → option (list Z)) (k : queue_key) (v : option (list Z)) : queue_key → option (list Z) :=
  λ k', if decide (k' = k) then v else f k'.

(** An operation on a queue's key. *)
Definition queue_op (name : string) (o : queue_key * option (list Z)) : DBOp :=
  match o.2 with
  | Some v => Insert COL_MISC (key_of name o.1).2 v
  | None => Delete COL_MISC (key_of name o.1).2
  end.

Lemma view_ops name m ops k : no_dot name →
  view name (foldl apply_op m (queue_op name <$> ops)) k = foldl (λ f o, upd f o.1 o.2) (view name m) ops k.
Proof.
  intros Hn. revert m k. induction ops as [|[k' v] ops IH]; intros m k; [done|]. cbn [foldl fmap list_fmap fst snd].
  rewrite IH. revert k. generalize ops. clear ops IH.
  assert (∀ k, view name (apply_op m (queue_op name (k', v))) k = upd (view name m) k' v k) as Hk.
  { intros k. unfold view, upd. case_decide as Hkk; [subst k'|].
    - destruct v as [v|]; cbn; [apply lookup_insert_eq|apply lookup_delete_eq].
    - destruct v as [v|]; cbn; [apply lookup_insert_ne|apply lookup_delete_ne]; 
      intros Heq; destruct (key_of_inj name name k' k Hn Hn Heq) as [_ ->]; done. }
  intros ops. induction ops as [|[k2 v2] ops IH] using rev_ind; intros k; [apply Hk|]. rewrite !foldl_app. cbn.
  unfold upd at 1 3. case_decide; [done|apply IH].
Qed.

Lemma queue_op_key name o : op_key (queue_op name o) = key_of name o.1.
Proof. by destruct o as [k [v|]]. Qed.

Lemma view_ops_other name name' m ops k : no_dot name → no_dot name' → name ≠ name' →
  view name (foldl apply_op m (queue_op name' <$> ops)) k = view name m k.
Proof.
  intros Hn Hn' Hne. unfold view. apply lookup_ops_notin. rewrite <- list_fmap_compose.
  intros ([k' v] & Heq & _)%list_elem_of_fmap_1. cbn in Heq. rewrite queue_op_key in Heq.
  by destruct (key_of_inj name name' k k' Hn Hn' Heq).
Qed.

(** ** The elements of a queue *)

Definition pos (l : list Z) (x : Z) : option nat := fst <$> list_find (x =.) l.

Lemma pos_Some l x i : NoDup l → pos l x = Some i ↔ l !! i = Some x.
Proof.
  intros Hnd. unfold pos. rewrite fmap_Some. split.
  - intros ([j y] & (Hl & -> & _)%list_find_Some & ->). done.
  - intros Hl. exists (i, x). split; [|done]. apply list_find_Some. split_and!; [done|done|].
    intros j y Hj Hji <-. pose proof (NoDup_lookup _ _ _ _ Hnd Hl Hj). lia.
Qed.

Lemma pos_None l x : pos l x = None ↔ x ∉ l.
Proof. unfold pos. rewrite fmap_None, list_find_None, Forall_forall. naive_solver. Qed.

(** [Vec::swap_remove] *)
Definition swap_remove (l : list Z) (i : nat) : list Z :=
  match last l with Some y => take (length l - 1) (<[i := y]> l) | None => [] end.

Section swap.
Context (l : list Z) (i : nat) (x y : Z).
Hypotheses (Hnd : NoDup l) (Hx : l !! i = Some x) (Hy : l !! (length l - 1)%nat = Some y).

Lemma swap_eq : swap_remove l i = take (length l - 1) (<[i := y]> l).
Proof. unfold swap_remove. apply last_lookup_Some in Hy. by rewrite Hy. Qed.

Lemma length_swap : length (swap_remove l i) = (length l - 1)%nat.
Proof. rewrite swap_eq, length_take, length_insert. lia. Qed.

Lemma lookup_swap j : swap_remove l i !! j = if decide (j < length l - 1)%nat then if decide (j = i) then Some y else l !! j else None.
Proof.
  rewrite swap_eq. case_decide as Hj; [|apply lookup_take_ge; lia]. rewrite lookup_take_lt by done. case_decide as Hji.
  - subst j. apply list_lookup_insert_eq. by eapply lookup_lt_Some.
  - by apply list_lookup_insert_ne.
Qed.

Lemma NoDup_swap : NoDup (swap_remove l i).
Proof.
  apply NoDup_alt. intros j k z. rewrite !lookup_swap.
  destruct (decide (j < _)%nat), (decide (k < _)%nat), (decide (j = i)), (decide (k = i)); intros Hj Hk; try done; try congruence.
  - injection Hj as <-. pose proof (NoDup_lookup _ _ _ _ Hnd Hy Hk). lia.
  - injection Hk as <-. pose proof (NoDup_lookup _ _ _ _ Hnd Hy Hj). lia.
  - by eapply NoDup_lookup.
Qed.

Lemma elem_of_swap z : z ∈ swap_remove l i ↔ z ∈ l ∧ z ≠ x.
Proof.
  rewrite !list_elem_of_lookup. setoid_rewrite lookup_swap. split.
  - intros [j Hj]. repeat case_decide; simplify_eq.
    + split; [by eexists|]. intros ->. pose proof (NoDup_lookup _ _ _ _ Hnd Hx Hy). lia.
    + split; [by eexists|]. intros ->. by pose proof (NoDup_lookup _ _ _ _ Hnd Hx Hj).
  - intros [[j Hj] Hne]. pose proof (lookup_lt_Some _ _ _ Hj). destruct (decide (j = length l - 1)%nat) as [->|Hl].
    + rewrite Hy in Hj. injection Hj as <-. exists i. pose proof (lookup_lt_Some _ _ _ Hx).
      assert (i ≠ length l - 1)%nat by (intros ->; congruence). rewrite decide_True by lia. by rewrite decide_True.
    + exists j. rewrite decide_True by lia. rewrite decide_False; [done|]. intros ->. congruence.
Qed.

Lemma pos_swap z : pos (swap_remove l i) z = if decide (z = x) then None else if decide (z = y) then Some i else pos l z.
Proof.
  case_decide as Hzx; [apply pos_None; rewrite elem_of_swap; naive_solver|]. apply option_eq. intros j.
  rewrite pos_Some by apply NoDup_swap. rewrite lookup_swap. pose proof (lookup_lt_Some _ _ _ Hx).
  destruct (decide (z = y)) as [->|Hzy].
  - assert (i ≠ length l - 1)%nat by (intros ->; congruence). repeat case_decide; try naive_solver lia.
    split; [|naive_solver]. intros Hj. pose proof (NoDup_lookup _ _ _ _ Hnd Hy Hj). lia.
  - rewrite pos_Some by done. repeat case_decide; try naive_solver.
    split; [done|]. intros Hj. pose proof (lookup_lt_Some _ _ _ Hj). assert (j = length l - 1)%nat as -> by lia. congruence.
Qed.
End swap.

(** ** What the data base holds for a queue *)

(** Sequence numbers: [u64::MAX] stands for no number. *)
Definition seq_ok (x : Z) : Prop := 0 ≤ x < 2 ^ 64 - 1.

Definition enc (z : Z) : list Z := as_ssz_bytes (T := u64) z.

Record holds_queue (f : queue_key → option (list Z)) (l : list Z) : Prop := {
  hq_nodup : NoDup l;
  hq_typed : Forall seq_ok l;
  hq_count : f KCount = Some (enc (Z.of_nat (length l))) ∨ l = [] ∧ f KCount = None;
  hq_index i : 0 ≤ i → f (KIndex i) = enc <$> l !! Z.to_nat i;
  hq_seq x : seq_ok x → f (KSeq x) = enc ∘ Z.of_nat <$> pos l x;
}.

Lemma holds_queue_ext f g l : (∀ k, g k = f k) → holds_queue f l → holds_queue g l.
Proof. intros Hfg [Hnd Hty Hc Hi Hs]. split; [done|done| |intros; rewrite Hfg; auto..]. by rewrite Hfg. Qed.

Lemma holds_queue_nil f : (∀ k, f k = None) → holds_queue f [].
Proof. intros Hf. split; [constructor|constructor|by right|by intros; rewrite Hf..]. Qed.

Lemma queue_length f l : holds_queue f l → Z.of_nat (length l) < 2 ^ 64.
Proof.
  intros [Hnd Hty _ _ _]. assert (length l ≤ length (seqZ 0 (2 ^ 64 - 1)))%nat as Hle.
  { apply submseteq_length, NoDup_submseteq; [done|]. intros x Hx. rewrite elem_of_seqZ. by apply (Forall_forall seq_ok l). }
  rewrite length_seqZ in Hle. lia.
Qed.

Lemma enc_decode z : 0 ≤ z < 2 ^ 64 → from_ssz_bytes (T := u64) (enc z) = Ok z.
Proof. intros Hz. apply (uint_roundtrip 8). change (256 ^ Z.of_nat 8) with (2 ^ 64). lia. Qed.

(** Adding an element that is not there. *)
Definition add_updates (l : list Z) (x : Z) : list (queue_key * option (list Z)) :=
  [(KIndex (Z.of_nat (length l)), Some (enc x)); (KSeq x, Some (enc (Z.of_nat (length l))));
   (KCount, Some (enc (Z.of_nat (length l) + 1)))].

Lemma holds_add f l x : holds_queue f l → seq_ok x → x ∉ l →
  holds_queue (foldl (λ f o, upd f o.1 o.2) f (add_updates l x)) (l ++ [x]).
Proof.
  intros [Hnd Hty Hc Hi Hs] Hx Hxl. split.
  - apply NoDup_app. split_and!; [done|set_solver|apply NoDup_singleton].
  - by apply Forall_app_2; [|constructor].
  - left. by rewrite length_app, Nat2Z.inj_add.
  - intros i Hpos. cbn. unfold upd. rewrite decide_False by done. rewrite decide_False by done. case_decide as Hik.
    + injection Hik as ->. by rewrite Nat2Z.id, list_lookup_snoc_eq.
    + rewrite Hi by done. destruct (decide (Z.to_nat i < length l)%nat); [by rewrite lookup_app_l|].
      rewrite !lookup_ge_None_2; [done|rewrite length_app; cbn|lia]. assert (i ≠ Z.of_nat (length l)) by congruence. lia.
  - intros z Hz. cbn. unfold upd. rewrite decide_False by done. assert (NoDup (l ++ [x])) as Hnd'.
    { apply NoDup_app. split_and!; [done|set_solver|apply NoDup_singleton]. } case_decide as Hzx.
    + injection Hzx as ->. assert (pos (l ++ [x]) x = Some (length l)) as ->; [|done]. apply pos_Some; [done|apply list_lookup_snoc_eq].
    + rewrite decide_False by done. rewrite Hs by done. f_equal. apply option_eq. intros j. rewrite !pos_Some by done.
      rewrite lookup_app_Some. assert (z ≠ x) by congruence. split; [by left|]. intros [?|[_ Hj]]; [done|].
      apply list_lookup_singleton_Some in Hj as [_ ?]. congruence.
Qed.

(** Removing an element: the last one takes its place. *)
Definition remove_updates (l : list Z) (i : nat) (x y : Z) : list (queue_key * option (list Z)) :=
  (KCount, Some (enc (Z.of_nat (length l) - 1))) :: (KSeq x, None) ::
  if bool_decide (i = length l - 1)%nat then [(KIndex (Z.of_nat i), None)]
  else [(KIndex (Z.of_nat i), Some (enc y)); (KIndex (Z.of_nat (length l) - 1), None); (KSeq y, Some (enc (Z.of_nat i)))].

Lemma holds_remove f l i x y : holds_queue f l → l !! i = Some x → l !! (length l - 1)%nat = Some y →
  holds_queue (foldl (λ f o, upd f o.1 o.2) f (remove_updates l i x y)) (swap_remove l i).
Proof.
  intros [Hnd Hty Hc Hi Hs] Hx Hy. pose proof (lookup_lt_Some _ _ _ Hx) as Hil.
  assert (i = (length l - 1)%nat → x = y) as Hxy by (intros ->; congruence).
  assert (x = y → i = (length l - 1)%nat) as Hyx by (intros ->; by eapply NoDup_lookup).
  split.
  - by eapply NoDup_swap.
  - apply Forall_forall. intros z Hz. rewrite (elem_of_swap l i x y Hnd Hx Hy) in Hz. by apply (Forall_forall seq_ok l); [|apply Hz].
  - left. rewrite (length_swap l i y Hy). rewrite Nat2Z.inj_sub by lia.
    unfold remove_updates. by case_bool_decide.
  - intros j Hj. rewrite (lookup_swap l i x y Hx Hy). unfold remove_updates. case_bool_decide as Hib; cbn; unfold upd.
    + case_decide as Hji; [injection Hji as ->; rewrite Nat2Z.id, decide_False by lia; done|].
      rewrite !decide_False by done. rewrite Hi by done. assert (j ≠ Z.of_nat i) by congruence.
      rewrite (decide_False (P := Z.to_nat j = i)) by lia. case_decide; [done|]. by rewrite lookup_ge_None_2 by lia.
    + rewrite (decide_False (P := KIndex j = KSeq y)) by done. case_decide as Hjl.
      { injection Hjl as ->. rewrite decide_False by lia. done. }
      assert (j ≠ Z.of_nat (length l) - 1) by congruence. case_decide as Hji.
      { injection Hji as ->. rewrite Nat2Z.id, decide_True by lia. by rewrite decide_True. }
      assert (j ≠ Z.of_nat i) by congruence. rewrite !decide_False by done. rewrite Hi by done.
      rewrite (decide_False (P := Z.to_nat j = i)) by lia. case_decide; [done|]. by rewrite lookup_ge_None_2 by lia.
  - intros z Hz. rewrite (pos_swap l i x y Hnd Hx Hy). unfold remove_updates. case_bool_decide as Hib; cbn; unfold upd.
    + rewrite (decide_False (P := KSeq z = KIndex _)) by done. case_decide as Hzx.
      { injection Hzx as ->. by rewrite decide_True. }
      assert (z ≠ x) by congruence. rewrite !decide_False by (try done; rewrite <- Hxy; done). by apply Hs.
    + case_decide as Hzy.
      { injection Hzy as ->. rewrite decide_False by (intros ->; apply Hib; auto). by rewrite decide_True. }
      assert (z ≠ y) by congruence. rewrite !(decide_False (P := KSeq z = KIndex _)) by done. case_decide as Hzx.
      { injection Hzx as ->. by rewrite decide_True. }
      assert (z ≠ x) by congruence. rewrite !decide_False by done. by apply Hs.
Qed.

(** ** The operations of a queue *)

Section queue.
Context `{KeyValueDBLaws KV} {MM : Type}.
Local Abbreviation manager := (LogManager KV MM).
Implicit Types (store : manager).

Definition queue_at (name : string) store (l : list Z) : Prop := holds_queue (view name (kv_map (lm_data_db store))) l.

Lemma get_decoded store key (z : option Z) :
  kv_map (lm_data_db store) !! (COL_MISC, str_bytes key) = enc <$> z → (∀ x, z = Some x → 0 ≤ x < 2 ^ 64) →
  get_config_decoded (T := u64) store key DATA_DB_KEY = Ok z.
Proof.
  intros Hk Hz. unfold get_config_decoded, get_config. rewrite bool_decide_true by done. rewrite kv_get_map, Hk, bind_Ok.
  destruct z as [x|]; [|done]. cbn [fmap option_fmap option_map]. by rewrite enc_decode by (by apply Hz).
Qed.

Lemma index_of_spec name store l x : queue_at name store l → seq_ok x →
  index_of (sync_tx_new name) store x = Ok (Z.of_nat <$> pos l x).
Proof.
  intros Hq Hx. pose proof (queue_length _ _ Hq). destruct Hq as [Hnd _ _ _ Hs]. apply get_decoded.
  - etransitivity; [by apply Hs|]. by destruct (pos l x).
  - intros z Hz. destruct (pos l x) as [i|] eqn:Hp; [|done]. injection Hz as <-.
    apply pos_Some, lookup_lt_Some in Hp; [lia|done].
Qed.

Lemma at_index_spec name store l i : queue_at name store l → 0 ≤ i →
  at_index (sync_tx_new name) store i = Ok (l !! Z.to_nat i).
Proof.
  intros [_ Hty _ Hi _] Hpos. apply get_decoded; [by apply Hi|]. intros x Hx.
  pose proof (Forall_lookup_1 _ _ _ _ Hty Hx) as Hs. unfold seq_ok in Hs. lia.
Qed.

Lemma tx_count_spec name store l : queue_at name store l → tx_count (sync_tx_new name) store = Ok (Z.of_nat (length l)).
Proof.
  intros Hq. pose proof (queue_length _ _ Hq). destruct Hq as [_ _ [Hc|[-> Hc]] _ _]; unfold tx_count.
  - erewrite (get_decoded _ _ (Some (Z.of_nat (length l)))); [done|exact Hc|]. intros ? [= <-]. lia.
  - erewrite (get_decoded _ _ None); [done|exact Hc|done].
Qed.

Lemma tx_has_spec name store l x : queue_at name store l → seq_ok x →
  tx_has (sync_tx_new name) store x = Ok (bool_decide (x ∈ l)).
Proof.
  intros Hq Hx. unfold tx_has. rewrite (index_of_spec name store l) by done. rewrite bind_Ok. f_equal. apply bool_decide_ext.
  rewrite fmap_is_Some. destruct (pos l x) as [i|] eqn:Hp; split; try done.
  - intros _. destruct Hq as [Hnd _ _ _ _]. apply pos_Some in Hp; [by eapply list_elem_of_lookup_2|done].
  - intros Hin. apply pos_None in Hp. done.
Qed.

Lemma tx_random_spec name store l rng : queue_at name store l → (∀ n, 0 < n → 0 ≤ gen_range rng n < n) →
  ∃ o, tx_random rng (sync_tx_new name) store = Ok o ∧ match o with Some x => x ∈ l | None => l = [] end.
Proof.
  intros Hq Hr. unfold tx_random. rewrite (tx_count_spec name store l), bind_Ok by done. case_match eqn:Hn.
  - exists None. split; [done|]. apply length_zero_iff_nil. lia.
  - specialize (Hr (Z.of_nat (length l)) ltac:(lia)). rewrite (at_index_spec name store l) by (done || lia). rewrite bind_Ok.
    destruct (lookup_lt_is_Some_2 l (Z.to_nat (gen_range rng (Z.of_nat (length l))))) as [x Hx]; [lia|].
    rewrite Hx. exists (Some x). split; [done|]. by eapply list_elem_of_lookup_2.
Qed.

(** With a transaction the operations are appended to it. *)
Lemma tx_add_tx name store l ops x : queue_at name store l → seq_ok x →
  tx_add (sync_tx_new name) (Some ops) x store =
    (Ok (if bool_decide (x ∈ l) then (false, Some ops) else (true, Some (ops ++ (queue_op name <$> add_updates l x)))), store).
Proof.
  intros Hq Hx. pose proof (queue_length _ _ Hq). unfold tx_add, mbind, M_bind, gets_ok. rewrite (tx_has_spec name store l) by done.
  case_bool_decide as Hin; [done|]. rewrite (tx_count_spec name store l) by done. cbn. do 5 f_equal.
  unfold add_ops. rewrite wrap64_small; [done|]. pose proof (queue_length _ _ (holds_add _ _ _ Hq Hx Hin)) as Hl.
  rewrite length_app in Hl. cbn in Hl. lia.
Qed.

Lemma remove_ops_spec name store l i x y : queue_at name store l → l !! i = Some x → l !! (length l - 1)%nat = Some y →
  remove_ops (sync_tx_new name) store (Z.of_nat i) (Z.of_nat (length l)) x = Ok (queue_op name <$> remove_updates l i x y).
Proof.
  intros Hq Hx Hy. pose proof (lookup_lt_Some _ _ _ Hx). unfold remove_ops, remove_updates.
  case_match eqn:Hn; case_bool_decide; try lia; [done|].
  rewrite (at_index_spec name store l), bind_Ok by (done || lia).
  replace (Z.to_nat (Z.of_nat (length l) - 1)) with (length l - 1)%nat by lia. by rewrite Hy.
Qed.

Lemma tx_remove_tx name store l ops x : queue_at name store l → seq_ok x →
  (∀ db_tx, pos l x = None → tx_remove (sync_tx_new name) db_tx x store = (Ok (false, db_tx), store)) ∧
  (∀ i, pos l x = Some i → ∃ y, l !! i = Some x ∧ l !! (length l - 1)%nat = Some y ∧
     tx_remove (sync_tx_new name) (Some ops) x store = (Ok (true, Some (ops ++ (queue_op name <$> remove_updates l i x y))), store) ∧
     tx_remove (sync_tx_new name) None x store =
       (r ← exec_configs (queue_op name <$> remove_updates l i x y) DATA_DB_KEY; mret (true, None)) store).
Proof.
  intros Hq Hx. split.
  - intros db_tx Hp. unfold tx_remove, mbind, M_bind, gets_ok. rewrite (index_of_spec name store l) by done. by rewrite Hp.
  - intros i Hp. pose proof Hp as Hi. apply pos_Some in Hi; [|by destruct Hq]. pose proof (lookup_lt_Some _ _ _ Hi).
    destruct (lookup_lt_is_Some_2 l (length l - 1)%nat) as [y Hy]; [lia|]. exists y. split_and!; [done|done|..];
      unfold tx_remove, mbind, M_bind, gets_ok; rewrite (index_of_spec name store l) by done; rewrite Hp; cbn [fmap option_fmap option_map];
      rewrite (tx_count_spec name store l) by done; case_match; try lia; rewrite (remove_ops_spec name store l i x y) by done; [done|].
    unfold exec_or_append, mbind, M_bind, mret, M_ret. by destruct (exec_configs _ _ store) as [[] ?].
Qed.

End queue.
