(* ===== verification/SyncTheorems.v ===== *)
(** The properties of the sync store ([node/sync/src/auto_sync/sync_store.rs]).

    It is two disjoint sets of transactions, pending and ready.

    Every operation is given for any data base, also for one that refuses the
    write: the sets are then as before or as after the operation. *)

From stdpp Require Import pretty sorting list_numbers.
From S2P Require Import Prelude HashElement Ssz SszFacts MerkleProof NodeStore AppendMerkle Bytes FlowDb Shard MerkleLight SharedTypes.
From S2P Require Import Seal ChunkData SealInfo EntryBatch Serde FlowStore TxStore LogManager SyncStore SyncStoreFacts.
Local Open Scope Z_scope.

(** ** The sets *)

(** What inserting does to the sets. *)
Definition insert_spec (x : Z) (q : Queue) (P R : gset Z) : InsertResult * gset Z * gset Z :=
  match q with
  | Ready => if decide (x ∈ R) then (AlreadyExists, P, R)
             else (if decide (x ∈ P) then Upgraded else NewAdded, P ∖ {[x]}, {[x]} ∪ R)
  | Pending => if decide (x ∈ P) then (AlreadyExists, P, R)
               else (if decide (x ∈ R) then Downgraded else NewAdded, {[x]} ∪ P, R ∖ {[x]})
  end.

Definition upgrade_spec (x : Z) (P R : gset Z) : bool * gset Z * gset Z :=
  if decide (x ∈ P) then (true, P ∖ {[x]}, {[x]} ∪ R) else (false, P, R).

Definition remove_spec (x : Z) (P R : gset Z) : option Queue * gset Z * gset Z :=
  if decide (x ∈ R) then (Some Ready, P, R ∖ {[x]})
  else if decide (x ∈ P) then (Some Pending, P ∖ {[x]}, R) else (None, P, R).

(** The queues [pn] and [rn] of the data base hold [P] and [R]. *)
Definition queues (m : gmap (nat * list Z) (list Z)) (pn rn : string) (P R : gset Z) : Prop :=
  ∃ lp lr, holds_queue (view pn m) lp ∧ holds_queue (view rn m) lr ∧ list_to_set lp = P ∧ list_to_set lr = R ∧ P ## R.

Definition sync_names (self : SyncStore) (pn rn : string) : Prop :=
  pending_txs self = sync_tx_new pn ∧ ct_store (ready_txs self) = sync_tx_new rn ∧ no_dot pn ∧ no_dot rn ∧ pn ≠ rn.

(** ** Updates of one queue *)

Section updates.
Context (m : gmap (nat * list Z) (list Z)) (pn rn : string).
Hypotheses (Hpn : no_dot pn) (Hrn : no_dot rn) (Hne : pn ≠ rn).
Implicit Types (lp lr : list Z).

Lemma holds_own ops l f : (∀ k, f k = foldl (λ f o, upd f o.1 o.2) (view pn m) ops k) →
  holds_queue f l → holds_queue (view pn (foldl apply_op m (queue_op pn <$> ops))) l.
Proof. intros Hf. apply holds_queue_ext. intros k. by rewrite view_ops, Hf. Qed.

Lemma holds_after_add l x : holds_queue (view pn m) l → seq_ok x → x ∉ l →
  holds_queue (view pn (foldl apply_op m (queue_op pn <$> add_updates l x))) (l ++ [x]).
Proof. intros Hl Hx Hxl. eapply holds_own; [|by apply holds_add]. done. Qed.

Lemma holds_after_remove l i x y : holds_queue (view pn m) l → l !! i = Some x → l !! (length l - 1)%nat = Some y →
  holds_queue (view pn (foldl apply_op m (queue_op pn <$> remove_updates l i x y))) (swap_remove l i).
Proof. intros Hl Hx Hy. eapply holds_own; [|by apply holds_remove]. done. Qed.

Lemma holds_other ops l : holds_queue (view pn m) l → holds_queue (view pn (foldl apply_op m (queue_op rn <$> ops))) l.
Proof. apply holds_queue_ext. intros k. by apply view_ops_other. Qed.

End updates.

Lemma set_snoc (l : list Z) (x : Z) : (list_to_set (l ++ [x]) : gset Z) = {[x]} ∪ list_to_set l.
Proof. set_solver. Qed.

Lemma set_swap f l i x : holds_queue f l → l !! i = Some x → (list_to_set (swap_remove l i) : gset Z) = list_to_set l ∖ {[x]}.
Proof.
  intros Hf Hx. pose proof (lookup_lt_Some _ _ _ Hx). destruct (lookup_lt_is_Some_2 l (length l - 1)%nat) as [y Hy]; [lia|].
  apply set_eq. intros z. rewrite elem_of_difference, !elem_of_list_to_set, elem_of_singleton.
  apply (elem_of_swap l i x y (hq_nodup _ _ Hf) Hx Hy).
Qed.

(** Both queues, as lists. *)
Definition qlists (m : gmap (nat * list Z) (list Z)) (pn rn : string) (lp lr : list Z) : Prop :=
  holds_queue (view pn m) lp ∧ holds_queue (view rn m) lr.

Lemma qlists_sym m pn rn lp lr : qlists m pn rn lp lr → qlists m rn pn lr lp.
Proof. by intros []. Qed.

Section qlists.
Context (pn rn : string).
Hypotheses (Hpn : no_dot pn) (Hrn : no_dot rn) (Hne : pn ≠ rn).

Lemma qlists_add m lp lr x : qlists m pn rn lp lr → seq_ok x → x ∉ lp →
  qlists (foldl apply_op m (queue_op pn <$> add_updates lp x)) pn rn (lp ++ [x]) lr.
Proof. intros [Hp Hr] Hx Hxl. split; [by apply holds_after_add|by apply holds_other]. Qed.

Lemma qlists_remove m lp lr i x y : qlists m pn rn lp lr → lp !! i = Some x → lp !! (length lp - 1)%nat = Some y →
  qlists (foldl apply_op m (queue_op pn <$> remove_updates lp i x y)) pn rn (swap_remove lp i) lr ∧
  (list_to_set (swap_remove lp i) : gset Z) = list_to_set lp ∖ {[x]}.
Proof. intros [Hp Hr] Hx Hy. split; [split; [by apply holds_after_remove|by apply holds_other]|by eapply set_swap]. Qed.

End qlists.

(** ** Writing *)

Section sync.
Context `{KeyValueDBLaws KV} {MM : Type}.
Local Abbreviation manager := (LogManager KV MM).
Implicit Types (store : manager) (s : manager * SyncStore).

(** A write succeeds and is applied, or fails and is applied or not. *)
Lemma exec_data ops store : ∃ r kv, exec_configs ops DATA_DB_KEY store = (r, set_lm_data_db kv store) ∧
  (kv_writable kv ↔ kv_writable (lm_data_db store)) ∧ (kv_writable (lm_data_db store) → r = Ok tt) ∧
  (kv_map kv = foldl apply_op (kv_map (lm_data_db store)) ops ∨ kv_map kv = kv_map (lm_data_db store) ∧ r ≠ Ok tt).
Proof.
  unfold exec_configs. rewrite bool_decide_true by done. unfold zoom.
  destruct (kv_write ops (lm_data_db store)) as [r kv] eqn:Hw. exists r, kv.
  pose proof (kv_writable_write ops (lm_data_db store)) as Hwr. pose proof (kv_write_ok ops (lm_data_db store)) as Hok.
  pose proof (kv_write_atomic ops (lm_data_db store)) as Hat. pose proof (kv_write_done ops (lm_data_db store)) as Hd.
  rewrite Hw in *. cbn in *. split; [done|]. split; [exact Hwr|]. split; [naive_solver|].
  destruct Hat as [?|Heq]; [by left|]. destruct (decide (r = Ok tt)) as [Hr|Hr]; [left; auto|right; by rewrite Heq].
Qed.

(** The store, and the data base apart from the keys of the queues, is as before. *)
Definition sync_frame (pn rn : string) s s' : Prop :=
  sync_names s'.2 pn rn ∧ cache_cap (ready_txs s'.2) = cache_cap (ready_txs s.2) ∧
  (∃ kv, s'.1 = set_lm_data_db kv s.1 ∧ (kv_writable kv ↔ kv_writable (lm_data_db s.1)) ∧
     ∀ k, (∀ q, k ≠ key_of pn q ∧ k ≠ key_of rn q) → kv_map kv !! k = kv_map (lm_data_db s.1) !! k).

(** The outcome of an operation with the result [res] that changes the sets from
    [P], [R] to [P'], [R']. *)
Definition sync_post {A} (pn rn : string) (res : A) (P' R' P R : gset Z) s (r : outcome A) s' : Prop :=
  sync_frame pn rn s s' ∧ (kv_writable (lm_data_db s.1) → r = Ok res) ∧ (∀ a, r = Ok a → a = res) ∧
  (queues (kv_map (lm_data_db s'.1)) pn rn P' R' ∨ r ≠ Ok res ∧ queues (kv_map (lm_data_db s'.1)) pn rn P R).

(** The keys of a transaction of operations on the two queues. *)
Definition queue_ops (pn rn : string) (ops : ConfigTx) : Prop :=
  ∀ op, op ∈ ops → ∃ q, op_key op = key_of pn q ∨ op_key op = key_of rn q.

Lemma queue_ops_app pn rn ops ops' : queue_ops pn rn ops → queue_ops pn rn ops' → queue_ops pn rn (ops ++ ops').
Proof. intros Ho Ho' op [Hin|Hin]%elem_of_app; auto. Qed.

Lemma queue_ops_l pn rn l : queue_ops pn rn (queue_op pn <$> l).
Proof. intros op ([q v] & -> & _)%list_elem_of_fmap_1. exists q. rewrite queue_op_key. by left. Qed.

Lemma queue_ops_r pn rn l : queue_ops pn rn (queue_op rn <$> l).
Proof. intros op ([q v] & -> & _)%list_elem_of_fmap_1. exists q. rewrite queue_op_key. by right. Qed.

Definition with_cache (c : gset Z) s : manager * SyncStore :=
  (s.1, SyncStore_mk (pending_txs s.2) (set_cache c (ready_txs s.2))).

(** Such a transaction was written, or not. *)
Lemma written_post {A} (a : A) pn rn ops s c P' R' P R r kv (r' : outcome A) :
  sync_names s.2 pn rn → queues (kv_map (lm_data_db s.1)) pn rn P R → queue_ops pn rn ops →
  queues (foldl apply_op (kv_map (lm_data_db s.1)) ops) pn rn P' R' →
  (kv_writable kv ↔ kv_writable (lm_data_db s.1)) → (kv_writable (lm_data_db s.1) → r = Ok tt) →
  (kv_map kv = foldl apply_op (kv_map (lm_data_db s.1)) ops ∨ kv_map kv = kv_map (lm_data_db s.1) ∧ r ≠ Ok tt) →
  (r' = Ok a ↔ r = Ok tt) → (∀ b, r' = Ok b → b = a) →
  sync_post pn rn a P' R' P R s r' (set_lm_data_db kv s.1, (with_cache c s).2).
Proof.
  intros Hn Hq Hops Hq' Hwr Hok Hkv Hr' Hb. split; [split; [|split]|split; [|split]].
  - destruct Hn as (Hp & Hr & ? & ? & ?). repeat split; done.
  - done.
  - exists kv. split; [done|]. split; [exact Hwr|]. intros k Hk. destruct Hkv as [->|[-> _]]; [|done].
    apply lookup_ops_notin. intros (op & -> & Hin)%list_elem_of_fmap_1. destruct (Hops op Hin) as (q & Hkq).
    destruct (Hk q) as [? ?]. naive_solver.
  - intros Hw. apply Hr'. by apply Hok.
  - done.
  - cbn. destruct Hkv as [->|[-> Hnr]]; [by left|]. right. split; [|done]. by rewrite Hr'.
Qed.

Lemma exec_queues {A} (a : A) pn rn ops s c P' R' P R :
  sync_names s.2 pn rn → queues (kv_map (lm_data_db s.1)) pn rn P R → queue_ops pn rn ops →
  queues (foldl apply_op (kv_map (lm_data_db s.1)) ops) pn rn P' R' →
  let '(r, s') := (_ ← on_store (exec_configs ops DATA_DB_KEY); mret a : M (manager * SyncStore) A) (with_cache c s) in
  sync_post pn rn a P' R' P R s r s' ∧ cache (ready_txs s'.2) = c.
Proof.
  intros Hn Hq Hops Hq'. destruct (exec_data ops s.1) as (r & kv & Hex & Hwr & Hok & Hkv).
  unfold mbind, M_bind, on_store, zoom. cbn [with_cache fst snd]. rewrite Hex.
  pose proof (λ r', written_post a pn rn ops s c P' R' P R r kv r' Hn Hq Hops Hq' Hwr Hok Hkv) as Hpost.
  destruct r as [[]|e| |]; cbn; (split; [apply Hpost|done]); naive_solver.
Qed.

(** ** The cached queue *)

Definition cache_after_add (rng : Rng) (x : Z) (self : CachedTxStore) : gset Z :=
  if cache_cap self =? 0 then cache self else cache (cache_insert rng x self).
Definition cache_after_remove (x : Z) (self : CachedTxStore) : gset Z :=
  if cache_cap self =? 0 then cache self else cache self ∖ {[x]}.

Lemma set_cache_insert rng x self : set_cache (cache (cache_insert rng x self)) self = cache_insert rng x self.
Proof. unfold cache_insert. by case_match. Qed.

Lemma set_cache_id self : set_cache (cache self) self = self.
Proof. by destruct self. Qed.

Lemma cached_add_run rn store l ops x rng self : ct_store self = sync_tx_new rn → queue_at rn store l → seq_ok x →
  cached_add rng (Some ops) x (store, self) =
    if bool_decide (x ∈ l) then (Ok (false, Some ops), (store, self))
    else (Ok (true, Some (ops ++ (queue_op rn <$> add_updates l x))), (store, set_cache (cache_after_add rng x self) self)).
Proof.
  intros Hrn Hq Hx. unfold cached_add, get_self, gets, on_store, zoom, mbind, M_bind. cbn [fst snd]. rewrite Hrn.
  rewrite (tx_add_tx rn store l) by done. case_bool_decide; cbn [fst snd]; [by rewrite andb_false_r|].
  unfold cache_after_add. destruct (cache_cap self =? 0); cbn; [by rewrite set_cache_id|by rewrite set_cache_insert].
Qed.

Lemma cached_remove_run rn store l ops x self : ct_store self = sync_tx_new rn → queue_at rn store l → seq_ok x →
  (x ∉ l → cached_remove (Some ops) x (store, self) = (Ok (false, Some ops), (store, self))) ∧
  (x ∈ l → ∃ i y, l !! i = Some x ∧ l !! (length l - 1)%nat = Some y ∧
     cached_remove (Some ops) x (store, self) =
       (Ok (true, Some (ops ++ (queue_op rn <$> remove_updates l i x y))), (store, set_cache (cache_after_remove x self) self))).
Proof.
  intros Hrn Hq Hx. destruct (tx_remove_tx rn store l ops x Hq Hx) as [Hnone Hsome].
  assert (∀ b ops', tx_remove (sync_tx_new rn) (Some ops) x store = (Ok (b, ops'), store) →
    cached_remove (Some ops) x (store, self) = (Ok (b, ops'), (store, if b then set_cache (cache_after_remove x self) self else self))) as Hrun.
  { intros b ops' Heq. unfold cached_remove, get_self, gets, on_store, zoom, mbind, M_bind. cbn [fst snd]. rewrite Hrn, Heq.
    cbn [fst snd]. unfold cache_after_remove. destruct b; [|by rewrite andb_false_r].
    destruct (cache_cap self =? 0); cbn; [by rewrite set_cache_id|done]. }
  split; intros Hin.
  - apply Hrun, Hnone. by apply pos_None.
  - destruct (pos l x) as [i|] eqn:Hp; [|by apply pos_None in Hp]. destruct (Hsome i eq_refl) as (y & Hi & Hy & Hrm & _).
    exists i, y. split_and!; [done|done|]. by apply Hrun.
Qed.

(** ** Operations on both queues *)

Lemma run_bind {S A B} (m : M S A) (f : A → M S B) (s : S) (a : A) (s' : S) : m s = (Ok a, s') → (m ≫= f) s = f a s'.
Proof. unfold mbind, M_bind. by intros ->. Qed.

Lemma on_store_run {X A} (m : M manager A) (s : manager * X) r : m s.1 = (r, s.1) → on_store m s = (r, s).
Proof. unfold on_store, zoom. intros ->. by destruct s. Qed.

Lemma tx_of_some b o : tx_of (b, Some o) = o.
Proof. done. Qed.

Section ops.
Context (pn rn : string) (rng : Rng) (x : Z).

(** What is true before an operation. *)
Definition sync_pre s (P R : gset Z) : Prop :=
  sync_names s.2 pn rn ∧ queues (kv_map (lm_data_db s.1)) pn rn P R ∧ seq_ok x.

Inductive sync_lists_spec s (P R : gset Z) : Prop :=
  | sync_lists_intro lp lr : queue_at pn s.1 lp → queue_at rn s.1 lr → list_to_set lp = P → list_to_set lr = R → P ## R →
      (x ∈ P ↔ x ∈ lp) → (x ∈ R ↔ x ∈ lr) → sync_lists_spec s P R.

Lemma sync_lists s P R : sync_pre s P R → sync_lists_spec s P R.
Proof.
  intros (_ & (lp & lr & Hlp & Hlr & <- & <- & Hdis) & _).
  apply (sync_lists_intro s _ _ lp lr); [done..|by rewrite elem_of_list_to_set|by rewrite elem_of_list_to_set].
Qed.

Lemma sync_post_id {A} (a : A) s P R : sync_pre s P R → sync_post pn rn a P R P R s (Ok a) s.
Proof.
  intros (Hn & Hq & _). split; [split; [done|split; [done|]]|split; [done|split; [naive_solver|by left]]].
  exists (lm_data_db s.1). split; [by destruct s as [[] ?]|done].
Qed.

Lemma sync_insert_ready s P R : sync_pre s P R →
  let '(res, P', R') := insert_spec x Ready P R in
  let '(r, s') := sync_insert rng x Ready s in
  sync_post pn rn res P' R' P R s r s' ∧
  cache (ready_txs s'.2) = if decide (x ∈ R) then cache (ready_txs s.2) else cache_after_add rng x (ready_txs s.2).
Proof.
  intros Hpre. pose proof Hpre as (Hn & _ & Hx). destruct (sync_lists s P R Hpre) as [lp lr Hlp Hlr HP HR Hdis HxP HxR].
  pose proof Hn as (Hpt & Hrt & Hpn & Hrn & Hne).
  unfold sync_insert, insert_spec.
  assert (on_ready (cached_add rng (Some []) x) s = if bool_decide (x ∈ lr) then (Ok (false, Some []), s)
    else (Ok (true, Some (queue_op rn <$> add_updates lr x)), with_cache (cache_after_add rng x (ready_txs s.2)) s)) as Hadd.
  { unfold on_ready, zoom. rewrite (cached_add_run rn s.1 lr) by done. case_bool_decide; [by destruct s as [? []]|done]. }
  destruct (decide (x ∈ R)) as [HinR|HninR].
  { rewrite bool_decide_true in Hadd by tauto. rewrite (run_bind _ _ _ _ _ Hadd). split; [by apply sync_post_id|done]. }
  rewrite bool_decide_false in Hadd by tauto. rewrite (run_bind _ _ _ _ _ Hadd). cbn [fst negb].
  destruct (tx_remove_tx pn s.1 lp (queue_op rn <$> add_updates lr x) x Hlp Hx) as [Hnone Hsome].
  set (s1 := with_cache (cache_after_add rng x (ready_txs s.2)) s). rewrite (run_bind get_self _ s1 s1.2 s1) by done.
  assert (pending_txs s1.2 = sync_tx_new pn) as Hpt1 by exact Hpt.
  assert (qlists (foldl apply_op (kv_map (lm_data_db s.1)) (queue_op rn <$> add_updates lr x)) rn pn (lr ++ [x]) lp) as Hql.
  { apply qlists_add; [done..|tauto]. }
  destruct (decide (x ∈ P)) as [HinP|HninP].
  - destruct (pos lp x) as [i|] eqn:Hp; [|apply pos_None in Hp; tauto]. destruct (Hsome i eq_refl) as (y & Hi & Hy & Hrm & _).
    erewrite run_bind; [|apply on_store_run; rewrite Hpt1; exact Hrm].
    eapply (exec_queues Upgraded pn rn); [done|by exists lp, lr|apply queue_ops_app; [apply queue_ops_r|apply queue_ops_l]|].
    rewrite tx_of_some, foldl_app. destruct (qlists_remove pn rn Hpn Hrn Hne _ _ _ i x y (qlists_sym _ _ _ _ _ Hql) Hi Hy) as [[H1 H2] Hset].
    exists (swap_remove lp i), (lr ++ [x]). rewrite Hset, set_snoc, HP, HR. split_and!; [done..|set_solver].
  - erewrite run_bind; [|apply on_store_run; rewrite Hpt1; apply Hnone, pos_None; tauto].
    eapply (exec_queues NewAdded pn rn); [done|by exists lp, lr|apply queue_ops_r|].
    destruct Hql as [H1 H2]. exists lp, (lr ++ [x]). rewrite set_snoc, HP, HR. split_and!; [done..|set_solver|done|set_solver].
Qed.

(** [s] is [s] with its cache. *)
Lemma with_cache_id s : with_cache (cache (ready_txs s.2)) s = s.
Proof. unfold with_cache. rewrite set_cache_id. by destruct s as [? []]. Qed.

Lemma sync_insert_pending s P R : sync_pre s P R →
  let '(res, P', R') := insert_spec x Pending P R in
  let '(r, s') := sync_insert rng x Pending s in
  sync_post pn rn res P' R' P R s r s' ∧
  cache (ready_txs s'.2) = if decide (x ∈ R) then cache_after_remove x (ready_txs s.2) else cache (ready_txs s.2).
Proof.
  intros Hpre. pose proof Hpre as (Hn & _ & Hx). destruct (sync_lists s P R Hpre) as [lp lr Hlp Hlr HP HR Hdis HxP HxR].
  pose proof Hn as (Hpt & Hrt & Hpn & Hrn & Hne).
  unfold sync_insert, insert_spec. rewrite (run_bind get_self _ s s.2 s) by done.
  pose proof (tx_add_tx pn s.1 lp [] x Hlp Hx) as Hadd. rewrite <- Hpt in Hadd.
  cbn [app] in Hadd. apply on_store_run in Hadd.
  destruct (decide (x ∈ P)) as [HinP|HninP].
  { rewrite bool_decide_true in Hadd by tauto. rewrite (run_bind _ _ _ _ _ Hadd). rewrite decide_False by set_solver.
    split; [by apply sync_post_id|done]. }
  rewrite bool_decide_false in Hadd by tauto. rewrite (run_bind _ _ _ _ _ Hadd). cbn [fst negb].
  destruct (cached_remove_run rn s.1 lr (queue_op pn <$> add_updates lp x) x (ready_txs s.2) Hrt Hlr Hx) as [Hnone Hsome].
  assert (qlists (foldl apply_op (kv_map (lm_data_db s.1)) (queue_op pn <$> add_updates lp x)) pn rn (lp ++ [x]) lr) as Hql.
  { apply qlists_add; [done..|tauto]. }
  destruct (decide (x ∈ R)) as [HinR|HninR].
  - destruct Hsome as (i & y & Hi & Hy & Hrm); [tauto|].
    erewrite run_bind; [|unfold on_ready, zoom; by rewrite tx_of_some, Hrm].
    eapply (exec_queues Downgraded pn rn); [done|by exists lp, lr|apply queue_ops_app; [apply queue_ops_l|apply queue_ops_r]|].
    rewrite tx_of_some, foldl_app. destruct (qlists_remove rn pn Hrn Hpn (not_eq_sym Hne) _ _ _ i x y (qlists_sym _ _ _ _ _ Hql) Hi Hy) as [[H1 H2] Hset].
    exists (lp ++ [x]), (swap_remove lr i). rewrite Hset, set_snoc, HP, HR. split_and!; [done..|set_solver].
  - erewrite run_bind; [|unfold on_ready, zoom; by rewrite tx_of_some, Hnone by tauto].
    replace (s.1, SyncStore_mk _ _) with (with_cache (cache (ready_txs s.2)) s) by (rewrite with_cache_id; by destruct s as [? []]).
    eapply (exec_queues NewAdded pn rn); [done|by exists lp, lr|apply queue_ops_l|].
    destruct Hql as [H1 H2]. exists (lp ++ [x]), lr. rewrite set_snoc, HP, HR. split_and!; [done..|set_solver|set_solver].
Qed.

Lemma sync_upgrade_run s P R : sync_pre s P R →
  let '(res, P', R') := upgrade_spec x P R in
  let '(r, s') := sync_upgrade rng x s in
  sync_post pn rn res P' R' P R s r s' ∧
  cache (ready_txs s'.2) = if decide (x ∈ P) then cache_after_add rng x (ready_txs s.2) else cache (ready_txs s.2).
Proof.
  intros Hpre. pose proof Hpre as (Hn & _ & Hx). destruct (sync_lists s P R Hpre) as [lp lr Hlp Hlr HP HR Hdis HxP HxR].
  pose proof Hn as (Hpt & Hrt & Hpn & Hrn & Hne). unfold sync_upgrade, upgrade_spec. rewrite (run_bind get_self _ s s.2 s) by done.
  destruct (tx_remove_tx pn s.1 lp [] x Hlp Hx) as [Hnone Hsome]. rewrite <- Hpt in Hnone, Hsome.
  destruct (decide (x ∈ P)) as [HinP|HninP].
  - destruct (pos lp x) as [i|] eqn:Hp; [|apply pos_None in Hp; tauto]. destruct (Hsome i eq_refl) as (y & Hi & Hy & Hrm & _).
    cbn [app] in Hrm. apply on_store_run in Hrm. rewrite (run_bind _ _ _ _ _ Hrm). cbn [fst negb].
    erewrite run_bind; [|unfold on_ready, zoom; rewrite tx_of_some, (cached_add_run rn s.1 lr) by done;
      rewrite bool_decide_false by set_solver; done]. cbn [fst].
    eapply (exec_queues true pn rn); [done|by exists lp, lr|apply queue_ops_app; [apply queue_ops_l|apply queue_ops_r]|].
    rewrite tx_of_some, foldl_app. destruct (qlists_remove pn rn Hpn Hrn Hne (kv_map (lm_data_db s.1)) lp lr i x y) as [Hql Hset]; [done..|].
    destruct (qlists_add rn pn Hrn Hpn (not_eq_sym Hne) _ _ _ x (qlists_sym _ _ _ _ _ Hql) Hx) as [H1 H2]; [set_solver|].
    exists (swap_remove lp i), (lr ++ [x]). rewrite Hset, set_snoc, HP, HR. split_and!; [done..|set_solver].
  - assert (pos lp x = None) as Hp by (apply pos_None; tauto). rewrite (run_bind _ _ _ _ _ (on_store_run _ _ _ (Hnone _ Hp))).
    split; [by apply sync_post_id|done].
Qed.

(** Removing at once: the cache changes if the write succeeded. *)
Lemma cached_remove_now l s r kv :
  ct_store (ready_txs s.2) = sync_tx_new rn → queue_at rn s.1 l → seq_ok x →
  tx_remove (sync_tx_new rn) None x s.1 = (r, set_lm_data_db kv s.1) →
  on_ready (cached_remove None x) s =
    (r, (set_lm_data_db kv s.1, (with_cache (match r with Ok (true, _) => cache_after_remove x (ready_txs s.2) | _ => cache (ready_txs s.2) end) s).2)).
Proof.
  intros Hrt Hl Hx Hrm. unfold on_ready, zoom, cached_remove.
  rewrite (run_bind get_self _ _ (ready_txs s.2) (s.1, ready_txs s.2)) by done. unfold mbind, M_bind, on_store, zoom. cbn [fst snd].
  rewrite Hrt, Hrm. unfold cache_after_remove.
  destruct r as [[[] o]|e| |]; cbn; rewrite ?andb_true_r, ?andb_false_r; cbn; [|by rewrite set_cache_id..].
  by destruct (cache_cap (ready_txs s.2) =? 0); cbn; [rewrite set_cache_id|].
Qed.

Lemma sync_remove_pending s P R : sync_pre s P R → x ∉ R →
  let '(res, P', R') := if decide (x ∈ P) then (Some Pending, P ∖ {[x]}, R) else (None, P, R) in
  let '(r, s') := (self ← get_self; removed ← on_store (tx_remove (pending_txs self) None x);
                   mret (if (removed.1 : bool) then Some Pending else None) : M (manager * SyncStore) (option Queue)) s in
  sync_post pn rn res P' R' P R s r s' ∧ cache (ready_txs s'.2) = cache (ready_txs s.2).
Proof.
  intros Hpre HnR. pose proof Hpre as (Hn & Hq & Hx). destruct (sync_lists s P R Hpre) as [lp lr Hlp Hlr HP HR Hdis HxP HxR].
  pose proof Hn as (Hpt & Hrt & Hpn & Hrn & Hne). destruct (tx_remove_tx pn s.1 lp [] x Hlp Hx) as [Hnone Hsome].
  rewrite (run_bind get_self _ s s.2 s) by done. rewrite Hpt. destruct (decide (x ∈ P)) as [HinP|HninP].
  - destruct (pos lp x) as [i|] eqn:Hp; [|apply pos_None in Hp; tauto]. destruct (Hsome i eq_refl) as (y & Hi & Hy & _ & Hrm).
    destruct (qlists_remove pn rn Hpn Hrn Hne (kv_map (lm_data_db s.1)) lp lr i x y) as [[H1 H2] Hset]; [done..|].
    destruct (exec_data (queue_op pn <$> remove_updates lp i x y) s.1) as (r & kv & Hex & Hwr & Hok & Hkv).
    assert (queues (foldl apply_op (kv_map (lm_data_db s.1)) (queue_op pn <$> remove_updates lp i x y)) pn rn (P ∖ {[x]}) R) as Hq'.
    { exists (swap_remove lp i), lr. rewrite Hset, HP, HR. split_and!; [done..|set_solver]. }
    pose proof (λ r', written_post (Some Pending) pn rn _ s (cache (ready_txs s.2)) (P ∖ {[x]}) R P R r kv r' Hn Hq
      (queue_ops_l pn rn _) Hq' Hwr Hok Hkv) as Hpost.
    rewrite with_cache_id in Hpost. unfold mbind at 1, M_bind at 1 in Hrm. rewrite Hex in Hrm.
    unfold mbind, M_bind, on_store, zoom. destruct r as [[]|e| |]; rewrite Hrm; cbn; (split; [apply Hpost|done]); naive_solver.
  - assert (pos lp x = None) as Hp by (apply pos_None; tauto). rewrite (run_bind _ _ _ _ _ (on_store_run _ _ _ (Hnone _ Hp))).
    split; [by apply sync_post_id|done].
Qed.

Lemma sync_remove_run s P R : sync_pre s P R →
  let '(res, P', R') := remove_spec x P R in
  let '(r, s') := sync_remove x s in
  sync_post pn rn res P' R' P R s r s' ∧
  cache (ready_txs s'.2) = if decide (x ∈ R ∧ r = Ok res) then cache_after_remove x (ready_txs s.2) else cache (ready_txs s.2).
Proof.
  intros Hpre. pose proof Hpre as (Hn & Hq & Hx). destruct (sync_lists s P R Hpre) as [lp lr Hlp Hlr HP HR Hdis HxP HxR].
  pose proof Hn as (Hpt & Hrt & Hpn & Hrn & Hne). unfold sync_remove, remove_spec.
  destruct (tx_remove_tx rn s.1 lr [] x Hlr Hx) as [Hrnone Hrsome], (tx_remove_tx pn s.1 lp [] x Hlp Hx) as [Hpnone Hpsome].
  destruct (decide (x ∈ R)) as [HinR|HninR].
  - destruct (pos lr x) as [i|] eqn:Hp; [|apply pos_None in Hp; tauto]. destruct (Hrsome i eq_refl) as (y & Hi & Hy & _ & Hrm).
    destruct (qlists_remove rn pn Hrn Hpn (not_eq_sym Hne) (kv_map (lm_data_db s.1)) lr lp i x y) as [[H1 H2] Hset]; [done..|].
    destruct (exec_data (queue_op rn <$> remove_updates lr i x y) s.1) as (r & kv & Hex & Hwr & Hok & Hkv).
    assert (queues (foldl apply_op (kv_map (lm_data_db s.1)) (queue_op rn <$> remove_updates lr i x y)) pn rn P (R ∖ {[x]})) as Hq'.
    { exists lp, (swap_remove lr i). rewrite Hset, HP, HR. split_and!; [done..|set_solver]. }
    pose proof (λ c r', written_post (Some Ready) pn rn _ s c P (R ∖ {[x]}) P R r kv r' Hn Hq (queue_ops_r pn rn _) Hq' Hwr Hok Hkv) as Hpost.
    unfold mbind at 1, M_bind at 1 in Hrm. rewrite Hex in Hrm. unfold mbind at 1, M_bind at 1.
    destruct r as [[]|e| |]; rewrite (cached_remove_now lr s _ kv Hrt Hlr Hx Hrm); cbn;
      (split; [apply Hpost; naive_solver|]); [by rewrite decide_True|rewrite decide_False by (by intros [])..]; done.
  - assert (pos lr x = None) as Hp by (apply pos_None; tauto).
    assert (s.1 = set_lm_data_db (lm_data_db s.1) s.1) as Hs1 by (by destruct s as [[] ?]).
    pose proof (Hrnone None Hp) as Hrm. rewrite Hs1 in Hrm at 2. apply (cached_remove_now lr) in Hrm; [|done..].
    rewrite <- Hs1, with_cache_id, <- surjective_pairing in Hrm. rewrite (run_bind _ _ _ _ _ Hrm). cbn [fst].
    pose proof (sync_remove_pending s P R Hpre HninR) as Hpend. revert Hpend.
    destruct (if decide (x ∈ P) then _ else _) as [[res P'] R'].
    lazymatch goal with |- context [(get_self ≫= ?f) s] => destruct ((get_self ≫= f) s) as [r s'] end. by rewrite decide_False by tauto.
Qed.

(** *** Reading *)

Lemma sync_contains_run s P R : sync_pre s P R →
  sync_contains s x = Ok (if decide (x ∈ R) then Some Ready else if decide (x ∈ P) then Some Pending else None).
Proof.
  intros Hpre. pose proof Hpre as (Hn & _ & Hx). destruct (sync_lists s P R Hpre) as [lp lr Hlp Hlr HP HR Hdis HxP HxR].
  pose proof Hn as (Hpt & Hrt & _). unfold sync_contains, cached_has. rewrite Hrt, Hpt.
  rewrite (tx_has_spec rn s.1 lr), (tx_has_spec pn s.1 lp), !bind_Ok by done.
  repeat case_decide; repeat case_bool_decide; tauto.
Qed.

Lemma sync_stat_run s P R : sync_pre s P R →
  sync_stat s = Ok (Z.of_nat (size P), Z.of_nat (size R),
    if cache_cap (ready_txs s.2) =? 0 then 0 else Z.of_nat (size (cache (ready_txs s.2)))).
Proof.
  intros Hpre. pose proof Hpre as (Hn & _ & Hx). destruct (sync_lists s P R Hpre) as [lp lr Hlp Hlr <- <- _ _ _].
  pose proof Hn as (Hpt & Hrt & _). unfold sync_stat, cached_count. rewrite Hrt, Hpt.
  rewrite (tx_count_spec pn s.1 lp), (tx_count_spec rn s.1 lr), !bind_Ok by done.
  by rewrite !size_list_to_set by (by eapply hq_nodup).
Qed.

End ops.

(** What [rand] promises. *)
Definition rng_ok (rng : Rng) : Prop :=
  (∀ n, 0 < n → 0 ≤ gen_range rng n < n) ∧ ∀ c, match choose rng c with Some p => p ∈ c | None => c = ∅ end.

(** The cache has elements of the queue, within its capacity. *)
Definition cache_ok (self : CachedTxStore) (R : gset Z) : Prop :=
  0 ≤ cache_cap self ∧ cache self ⊆ R ∧ Z.of_nat (size (cache self)) ≤ cache_cap self.

Lemma cache_ok_mono self c (R R' : gset Z) : cache_ok self R → c ⊆ cache self → c ⊆ R' → cache_ok (set_cache c self) R'.
Proof. intros (? & _ & ?) Hc HR. split_and!; [done|done|]. apply subseteq_size in Hc. cbn. lia. Qed.

Lemma cache_ok_add rng x self R : rng_ok rng → cache_ok self R → cache_ok (set_cache (cache_after_add rng x self) self) ({[x]} ∪ R).
Proof.
  intros [_ Hch] (Hcap & Hsub & Hsize). unfold cache_after_add. case_match eqn:Hz.
  { split_and!; cbn; [done|set_solver|lia]. }
  unfold cache_insert. set (c := {[x]} ∪ cache self).
  assert (size c ≤ size (cache self) + 1)%nat as Hc.
  { unfold c. rewrite size_union_alt, size_singleton. pose proof (subseteq_size (cache self ∖ {[x]}) (cache self) ltac:(set_solver)). lia. }
  case_match eqn:Hbig; cbn.
  - specialize (Hch c). destruct (choose rng c) as [p|]; [|exfalso; set_solver].
    split_and!; cbn; [done|set_solver|]. rewrite size_difference by set_solver. rewrite size_singleton. lia.
  - split_and!; cbn; [done|set_solver|lia].
Qed.

Lemma cache_ok_remove x self R : cache_ok self R → cache_ok (set_cache (cache_after_remove x self) self) (R ∖ {[x]}).
Proof.
  intros Hok. pose proof Hok as (Hcap & Hsub & Hsize). unfold cache_after_remove. case_match eqn:Hz.
  - assert (cache self = ∅) as -> by (apply leibniz_equiv, size_empty_inv; lia). eapply cache_ok_mono; [done|set_solver..].
  - eapply cache_ok_mono; [done|set_solver..].
Qed.

Lemma sync_random_run pn rn rng s P R : sync_names s.2 pn rn → queues (kv_map (lm_data_db s.1)) pn rn P R →
  rng_ok rng → cache_ok (ready_txs s.2) R →
  ∃ o, sync_random rng s = Ok o ∧
    match o with Some y => y ∈ R ∨ R = ∅ ∧ y ∈ P | None => R = ∅ ∧ P = ∅ end.
Proof.
  intros (Hpt & Hrt & _) (lp & lr & Hlp & Hlr & <- & <- & _) [Hr Hch] (_ & Hsub & _). unfold sync_random, cached_random. rewrite Hpt, Hrt.
  destruct (tx_random_spec pn s.1 lp rng Hlp Hr) as (op & Hop & Hp), (tx_random_spec rn s.1 lr rng Hlr Hr) as (or & Hor & Hrd).
  assert (∃ o, (o' ← (Ok or : outcome (option Z)); match o' with Some val => Ok (Some val) | None => Ok op end) = Ok o ∧
    match o with Some y => y ∈ (list_to_set lr : gset Z) ∨ (list_to_set lr : gset Z) = ∅ ∧ y ∈ (list_to_set lp : gset Z)
    | None => (list_to_set lr : gset Z) = ∅ ∧ (list_to_set lp : gset Z) = ∅ end) as Hgoal.
  { rewrite bind_Ok. destruct or as [y|]; [exists (Some y); split; [done|left; by apply elem_of_list_to_set]|].
    exists op. split; [done|]. subst lr. destruct op as [y|]; [right; split; [done|by apply elem_of_list_to_set]|by subst lp]. }
  rewrite Hop, Hor. destruct (cache_cap (ready_txs s.2) =? 0); [exact Hgoal|].
  specialize (Hch (cache (ready_txs s.2))). destruct (choose rng (cache (ready_txs s.2))) as [v|]; [|exact Hgoal].
  exists (Some v). split; [done|left; set_solver].
Qed.


End sync.

(** * The sync store implements two disjoint sets, over writes that fail and
    restarts as well. *)

Section theorems.
Context `{KeyValueDBLaws KV} {MM : Type} (pn rn : string).
Local Abbreviation manager := (LogManager KV MM).
Implicit Types (store : manager) (s : manager * SyncStore) (P R : gset Z).

(** The store holds the pending transactions [P] and the ready ones [R]. *)
Definition sync_repr s P R : Prop :=
  sync_names s.2 pn rn ∧ queues (kv_map (lm_data_db s.1)) pn rn P R ∧ cache_ok (ready_txs s.2) R.

(** An operation does what [spec] says.  Whether or not the data base accepts
    the write, a store that is opened again has the sets before or after it, and
    those after it if the operation succeeded. *)
Definition simulates {A} (op : M (manager * SyncStore) A) (spec : gset Z → gset Z → A * gset Z * gset Z) s P R : Prop :=
  let '(res, P', R') := spec P R in
  let '(r, s') := op s in
  (kv_writable (lm_data_db s.1) → r = Ok res ∧ sync_repr s' P' R' ∧ kv_writable (lm_data_db s'.1)) ∧
  ∀ cap, 0 ≤ cap → sync_repr (s'.1, sync_store_new_with_name cap pn rn) P' R' ∨
    r ≠ Ok res ∧ sync_repr (s'.1, sync_store_new_with_name cap pn rn) P R.

Lemma sync_reopen cap s P R : 0 ≤ cap → sync_names s.2 pn rn → queues (kv_map (lm_data_db s.1)) pn rn P R →
  sync_repr (s.1, sync_store_new_with_name cap pn rn) P R.
Proof.
  intros Hcap (_ & _ & Hp & Hr & Hne) Hq. split; [done|]. split; [done|]. split_and!; cbn; [done|set_solver|by rewrite size_empty].
Qed.

Lemma sync_open cap store : 0 ≤ cap → no_dot pn → no_dot rn → pn ≠ rn →
  (∀ k, view pn (kv_map (lm_data_db store)) k = None ∧ view rn (kv_map (lm_data_db store)) k = None) →
  sync_repr (store, sync_store_new_with_name cap pn rn) ∅ ∅.
Proof.
  intros Hcap Hp Hr Hne Hnone. split; [done|]. split; [|by split_and!; cbn; [|set_solver|rewrite size_empty]].
  exists [], []. split_and!; [by apply holds_queue_nil; intros k; destruct (Hnone k)..|done|done|set_solver].
Qed.

Lemma simulates_intro {A} (op : M (manager * SyncStore) A) (spec : gset Z → gset Z → A * gset Z * gset Z) s P R (c : outcome A → gset Z) :
  sync_names s.2 pn rn →
  (let '(res, P', R') := spec P R in
   let '(r, s') := op s in
   sync_post pn rn res P' R' P R s r s' ∧ cache (ready_txs s'.2) = c r) →
  (let '(res, P', R') := spec P R in cache_ok (set_cache (c (Ok res)) (ready_txs s.2)) R') →
  simulates op spec s P R.
Proof.
  intros Hn Hrun Hc. unfold simulates. destruct (spec P R) as [[res P'] R'], (op s) as [r s'].
  destruct Hrun as [((Hn' & Hcap & kv & Hs' & Hwr & _) & Hok & Hres & Hq) Hcache]. split.
  - intros Hw. pose proof (Hok Hw) as ->. destruct Hq as [Hq|[? _]]; [|done]. split; [done|]. split; [split; [done|split; [done|]]|].
    + unfold cache_ok in *. cbn in Hc. by rewrite Hcap, Hcache.
    + rewrite Hs'. cbn. by apply Hwr.
  - intros cap Hcap'. destruct Hq as [Hq|[Hr Hq]]; [left|right; split; [done|]]; by apply sync_reopen.
Qed.

Lemma cache_ok_same self R : cache_ok self R → cache_ok (set_cache (cache self) self) R.
Proof. by rewrite set_cache_id. Qed.

Lemma cache_ok_grow self c R R' : cache_ok (set_cache c self) R → R ⊆ R' → cache_ok (set_cache c self) R'.
Proof. intros (? & ? & ?) ?. split_and!; [done|set_solver|done]. Qed.

Lemma insert_simulates rng x q s P R : sync_repr s P R → rng_ok rng → seq_ok x →
  simulates (sync_insert rng x q) (insert_spec x q) s P R.
Proof.
  intros (Hn & Hq & Hc) Hrng Hx. assert (sync_pre pn rn x s P R) as Hpre by done. destruct q.
  - eapply (simulates_intro _ _ _ _ _ (λ _, _)); [done|by apply sync_insert_ready|]. cbn. destruct (decide (x ∈ R)); [by apply cache_ok_same|].
    by apply cache_ok_add.
  - eapply (simulates_intro _ _ _ _ _ (λ _, _)); [done|by apply (sync_insert_pending pn rn rng)|]. cbn.
    assert (P ## R) as Hdis by (by destruct Hq as (? & ? & ? & ? & ? & ? & ?)).
    destruct (decide (x ∈ P)), (decide (x ∈ R)); [set_solver|by apply cache_ok_same|by apply cache_ok_remove|].
    eapply cache_ok_mono; [done|done|]. destruct Hc as (_ & Hsub & _). set_solver.
Qed.

Lemma upgrade_simulates rng x s P R : sync_repr s P R → rng_ok rng → seq_ok x → simulates (sync_upgrade rng x) (upgrade_spec x) s P R.
Proof.
  intros (Hn & Hq & Hc) Hrng Hx. assert (sync_pre pn rn x s P R) as Hpre by done.
  eapply (simulates_intro _ _ _ _ _ (λ _, _)); [done|by apply sync_upgrade_run|]. unfold upgrade_spec.
  destruct (decide (x ∈ P)); [by apply cache_ok_add|by apply cache_ok_same].
Qed.

Lemma remove_simulates x s P R : sync_repr s P R → seq_ok x → simulates (sync_remove x) (remove_spec x) s P R.
Proof.
  intros (Hn & Hq & Hc) Hx. assert (sync_pre pn rn x s P R) as Hpre by done.
  eapply (simulates_intro _ _ _ _ _ (λ r, if decide (x ∈ R ∧ r = Ok (remove_spec x P R).1.1) then _ else _)); [done| |].
  - pose proof (sync_remove_run pn rn x s P R Hpre) as Hrun. destruct (remove_spec x P R) as [[res P'] R']. exact Hrun.
  - unfold remove_spec. destruct (decide (x ∈ R)) as [Hin|Hnin]; cbn.
    + rewrite decide_True by done. by apply cache_ok_remove.
    + destruct (decide (x ∈ P)); cbn; (rewrite decide_False by tauto); by apply cache_ok_same.
Qed.

(** C9: The queues of files to synchronize implement two disjoint sets of
    transactions, pending and ready: opened on an unused data base both are
    empty, inserting, upgrading and removing report and do what the sets say,
    membership and sizes are those of the sets, and a random element is a ready
    one if there is any, otherwise a pending one.  The sets are kept by the data
    base: opened again, also after a write that failed, the store has the sets
    from before or after the last operation. *)
Theorem sync_store_refines_sets :
  (∀ cap store, 0 ≤ cap → no_dot pn → no_dot rn → pn ≠ rn →
     (∀ k, view pn (kv_map (lm_data_db store)) k = None ∧ view rn (kv_map (lm_data_db store)) k = None) →
     sync_repr (store, sync_store_new_with_name cap pn rn) ∅ ∅) ∧
  ∀ s P R, sync_repr s P R → P ## R ∧
    (∀ rng x q, rng_ok rng → seq_ok x → simulates (sync_insert rng x q) (insert_spec x q) s P R) ∧
    (∀ rng x, rng_ok rng → seq_ok x → simulates (sync_upgrade rng x) (upgrade_spec x) s P R) ∧
    (∀ x, seq_ok x → simulates (sync_remove x) (remove_spec x) s P R) ∧
    (∀ x, seq_ok x → sync_contains s x = Ok (if decide (x ∈ R) then Some Ready else if decide (x ∈ P) then Some Pending else None)) ∧
    (∃ cached, sync_stat s = Ok (Z.of_nat (size P), Z.of_nat (size R), cached) ∧ 0 ≤ cached ≤ Z.of_nat (size R)) ∧
    ∀ rng, rng_ok rng → ∃ o, sync_random rng s = Ok o ∧
      match o with Some y => y ∈ R ∨ R = ∅ ∧ y ∈ P | None => R = ∅ ∧ P = ∅ end.
Proof.
  split; [intros; by apply sync_open|]. intros s P R Hs. pose proof Hs as (Hn & Hq & Hc). split_and!.
  - by destruct Hq as (? & ? & ? & ? & ? & ? & ?).
  - intros. by apply insert_simulates.
  - intros. by apply upgrade_simulates.
  - intros. by apply remove_simulates.
  - intros x Hx. by apply (sync_contains_run pn rn).
  - eexists. split; [by apply (sync_stat_run pn rn 0)|]. destruct Hc as (_ & Hsub%subseteq_size & _). case_match; lia.
  - intros rng Hrng. by apply (sync_random_run pn rn).
Qed.

End theorems.

(** ** A run over the data base in memory *)

Section example.

Definition example_manager : LogManager (gmap (nat * list Z) (list Z)) unit :=
  LogManager_mk ∅ ∅ 0 (seal_manager_default 0) 1 shard_default tt.

Definition least_rng : Rng := Rng_mk (λ _, 0) (λ c, head (elements c)).

Lemma least_rng_ok : rng_ok least_rng.
Proof.
  split; [cbn; lia|]. intros c. cbn. destruct (elements c) as [|p l] eqn:Hc; cbn.
  - by apply leibniz_equiv, elements_empty_inv.
  - apply elem_of_elements. rewrite Hc. by left.
Qed.

Lemma sync_store_refines_sets_witness :
  let s := (example_manager, sync_store_new 2) in
  sync_repr "pending" "ready" s ∅ ∅ ∧
  (sync_insert least_rng 7 Pending s).1 = Ok NewAdded ∧
  sync_repr "pending" "ready" (sync_insert least_rng 7 Pending s).2 {[7]} ∅.
Proof.
  cbv zeta. destruct (sync_store_refines_sets (KV := gmap (nat * list Z) (list Z)) (MM := unit) "pending" "ready") as [Hnew Hops].
  assert (sync_repr (KV := gmap (nat * list Z) (list Z)) "pending" "ready" (example_manager, sync_store_new 2) ∅ ∅) as Hs.
  { apply Hnew; [done|by vm_compute..|done]. }
  destruct (Hops _ _ _ Hs) as (_ & Hins & _). specialize (Hins least_rng 7 Pending least_rng_ok ltac:(by split)). unfold simulates in Hins.
  replace (insert_spec 7 Pending ∅ ∅) with (NewAdded, ({[7]} : gset Z), (∅ : gset Z)) in Hins.
  - destruct (sync_insert least_rng 7 Pending (example_manager, sync_store_new 2)) as [r s'].
    destruct (proj1 Hins I) as (-> & Hs' & _). done.
  - vm_compute. reflexivity.
Defined.

End example.
