(* ===== verification/FileLocationCache.v ===== *)
(** The cache of announced files:
    [node/file_location_cache/src/file_location_cache.rs], with the messages of
    [node/network/src/types/pubsub.rs] that it keeps.

    For every file the announcements of a few peers are kept, the oldest are
    evicted.  Two priority queues of the crate [priority_queue] find the oldest
    announcement of a file and the file with the oldest announcement; the crate
    is the class [PriorityQueue] with its documented behaviour. *)

From stdpp Require Import sorting list_numbers.
From S2P Require Import Prelude HashElement Shard.
Local Open Scope Z_scope.

(** ** Messages *)

Record TxID := TxID_mk { id_seq : Z; id_hash : H256 }.

#[export] Instance TxID_eq_dec : EqDecision TxID.
Proof. solve_decision. Defined.
#[export] Instance TxID_countable : Countable TxID.
Proof.
  apply (inj_countable (λ t, (id_seq t, vec_to_list (id_hash t))) (λ p,
    match decide (length p.2 = 32%nat) with
    | left e => Some (TxID_mk p.1 (eq_rect _ (vec Z) (list_to_vec p.2) _ e))
    | right _ => None
    end)).
  intros [s h]. cbn. destruct (decide (length h = 32%nat)) as [e|Hn]; [|by rewrite length_vec_to_list in Hn].
  do 2 f_equal. apply vec_to_list_inj2. assert (∀ n (e' : length h = n), vec_to_list (eq_rect _ (vec Z) (list_to_vec h) n e') = h) as Hr.
  { intros n []. cbn. by rewrite vec_to_list_to_vec. }
  apply Hr.
Defined.

Record AnnounceFile (PeerId Multiaddr : Type) := AnnounceFile_mk {
  af_tx_ids : list TxID;
  af_shard_config : ShardConfig;
  af_peer_id : PeerId;
  af_at : Multiaddr;
}.
Arguments AnnounceFile_mk {PeerId Multiaddr}.
Arguments af_tx_ids {PeerId Multiaddr}.
Arguments af_shard_config {PeerId Multiaddr}.
Arguments af_peer_id {PeerId Multiaddr}.
Arguments af_at {PeerId Multiaddr}.

Record TimedMessage (T : Type) := TimedMessage_mk { tm_inner : T; timestamp : Z }.
Arguments TimedMessage_mk {T}.
Arguments tm_inner {T}.
Arguments timestamp {T}.

Record SignedMessage (T : Type) := SignedMessage_mk { sm_inner : T; signature : list Z; resend_timestamp : Z }.
Arguments SignedMessage_mk {T}.
Arguments sm_inner {T}.
Arguments signature {T}.
Arguments resend_timestamp {T}.

(** ** The crate [priority_queue]

    [PriorityQueue<K, Reverse<u32>>]: the first element has the least number. *)

Class PriorityQueue (K Q : Type) := {
  pq_new : Q;
  pq_peek : Q → option (K * Z);
  pq_push : K → Z → Q → Q;
  pq_pop : Q → option (K * Z) * Q;
  pq_remove : K → Q → option (K * Z) * Q;
  pq_change_priority : K → Z → Q → Q;
}.

(** [u32] arithmetic *)
Definition wrap32 (z : Z) : Z := z `mod` 2 ^ 32.

Section cache.
Context {PeerId Multiaddr PQ FQ : Type} `{Countable PeerId}.
Context `{!PriorityQueue PeerId PQ, !PriorityQueue TxID FQ}.
Local Abbreviation SignedAnnounceFile := (SignedMessage (TimedMessage (AnnounceFile PeerId Multiaddr))).

Definition ann_peer_id (a : SignedAnnounceFile) : PeerId := af_peer_id (tm_inner (sm_inner a)).
Definition ann_at (a : SignedAnnounceFile) : Multiaddr := af_at (tm_inner (sm_inner a)).
Definition ann_timestamp (a : SignedAnnounceFile) : Z := timestamp (sm_inner a).
Definition ann_tx_ids (a : SignedAnnounceFile) : list TxID := af_tx_ids (tm_inner (sm_inner a)).

(** ** [AnnouncementCache] *)

Record AnnouncementCache := AnnouncementCache_mk {
  ac_capacity : Z;
  ac_timeout_secs : Z;
  ac_items : gmap PeerId SignedAnnounceFile;
  ac_priorities : PQ;
}.

Definition ac_new (capacity timeout_secs : Z) : outcome AnnouncementCache :=
  if 0 <? capacity then Ok (AnnouncementCache_mk capacity timeout_secs ∅ pq_new) else Panic.

Definition peek_priority (self : AnnouncementCache) : option Z := snd <$> pq_peek (ac_priorities self).

Definition ac_pop (self : AnnouncementCache) : option SignedAnnounceFile * AnnouncementCache :=
  let '(o, q) := pq_pop (ac_priorities self) in
  match o with
  | None => (None, AnnouncementCache_mk (ac_capacity self) (ac_timeout_secs self) (ac_items self) q)
  | Some (peer_id, _) =>
      (ac_items self !! peer_id,
       AnnouncementCache_mk (ac_capacity self) (ac_timeout_secs self) (delete peer_id (ac_items self)) q)
  end.

Definition ac_len (self : AnnouncementCache) : Z := Z.of_nat (size (ac_items self)).

(** [while let Some(..) = self.priorities.peek()]: every iteration removes one
    of the items. *)
Fixpoint gc_loop (fuel : nat) (now collected : Z) (self : AnnouncementCache) : outcome (Z * AnnouncementCache) :=
  match pq_peek (ac_priorities self) with
  | None => Ok (collected, self)
  | Some (_, ts) =>
      if now <? wrap32 (ts + ac_timeout_secs self) then Ok (collected, self)
      else
        match fuel with
        | O => Diverge
        | S fuel' => gc_loop fuel' now (collected + 1) (ac_pop self).2
        end
  end.

Definition garbage_collect (now : Z) (self : AnnouncementCache) : outcome (Z * AnnouncementCache) :=
  gc_loop (size (ac_items self)) now 0 self.

Definition do_insert_or_update (announcement : SignedAnnounceFile) (self : AnnouncementCache) : AnnouncementCache :=
  let peer_id := ann_peer_id announcement in
  AnnouncementCache_mk (ac_capacity self) (ac_timeout_secs self) (<[peer_id := announcement]> (ac_items self))
    (pq_push peer_id (ann_timestamp announcement) (ac_priorities self)).

(** An announcement that is not newer than the one of the peer is ignored. *)
Definition older (announcement : SignedAnnounceFile) (self : AnnouncementCache) : bool :=
  match ac_items self !! ann_peer_id announcement with
  | Some existing => ann_timestamp announcement <=? ann_timestamp existing
  | None => false
  end.

Definition ac_insert (now : Z) (announcement : SignedAnnounceFile) (self : AnnouncementCache) : outcome AnnouncementCache :=
  r ← garbage_collect now self;
  let self := r.2 in
  if older announcement self then Ok self
  else
    let self := do_insert_or_update announcement self in
    if ac_capacity self <? ac_len self then Ok (ac_pop self).2 else Ok self.

(** [pick]: what [choose] returns. *)
Definition ac_random (now : Z) (pick : list SignedAnnounceFile → option SignedAnnounceFile) (self : AnnouncementCache) :
    outcome (option SignedAnnounceFile * Z * AnnouncementCache) :=
  r ← garbage_collect now self;
  let self := r.2 in
  if bool_decide (ac_items self = ∅) then Ok (None, r.1, self)
  else Ok (pick ((map_to_list (ac_items self)).*2), r.1, self).

Definition ac_all (now : Z) (self : AnnouncementCache) : outcome (list SignedAnnounceFile * Z * AnnouncementCache) :=
  r ← garbage_collect now self;
  Ok ((map_to_list (ac_items r.2)).*2, r.1, r.2).

Definition ac_remove (peer_id : PeerId) (self : AnnouncementCache) : option SignedAnnounceFile * AnnouncementCache :=
  let '(o, q) := pq_remove peer_id (ac_priorities self) in
  match o with
  | None => (None, AnnouncementCache_mk (ac_capacity self) (ac_timeout_secs self) (ac_items self) q)
  | Some _ =>
      (ac_items self !! peer_id,
       AnnouncementCache_mk (ac_capacity self) (ac_timeout_secs self) (delete peer_id (ac_items self)) q)
  end.

(** ** [FileCache] *)

Record Config := Config_mk {
  max_entries_total : Z;
  max_entries_per_file : Z;
  entry_expiration_time_secs : Z;
}.

Definition config_default : Config := Config_mk 1000000 4 86400.

Record FileCache := FileCache_mk {
  fc_config : Config;
  total_announcements : Z;
  files : gmap TxID AnnouncementCache;
  fc_priorities : FQ;
}.

Definition file_cache_new (config : Config) : FileCache := FileCache_mk config 0 ∅ pq_new.

Definition set_total (n : Z) (self : FileCache) : FileCache :=
  FileCache_mk (fc_config self) n (files self) (fc_priorities self).
Definition set_files (m : gmap TxID AnnouncementCache) (self : FileCache) : FileCache :=
  FileCache_mk (fc_config self) (total_announcements self) m (fc_priorities self).
Definition set_fc_priorities (q : FQ) (self : FileCache) : FileCache :=
  FileCache_mk (fc_config self) (total_announcements self) (files self) q.

Definition update_on_announcement_cache_changed (tx_id : TxID) (removed : Z) : M FileCache () :=
  if removed =? 0 then mret tt
  else
    total ← gets total_announcements;
    if total <? removed then panic
    else
      _ ← modify (set_total (total - removed));
      self ← get;
      match files self !! tx_id with
      | None => mret tt
      | Some item =>
          match peek_priority item with
          | Some priority => modify (λ self, set_fc_priorities (pq_change_priority tx_id priority (fc_priorities self)) self)
          | None => modify (λ self, set_fc_priorities (pq_remove tx_id (fc_priorities self)).2 (set_files (delete tx_id (files self)) self))
          end
      end.

Definition fc_pop : M FileCache (option SignedAnnounceFile) :=
  self ← get;
  match pq_peek (fc_priorities self) with
  | None => mret None
  | Some (tx_id, _) =>
      match files self !! tx_id with
      | None => mret None
      | Some item =>
          let '(o, item) := ac_pop item in
          _ ← modify (λ self, set_files (<[tx_id := item]> (files self)) self);
          match o with
          | None => mret None
          | Some result => _ ← update_on_announcement_cache_changed tx_id 1; mret (Some result)
          end
      end
  end.

(** The item of a file, created if there is none. *)
Definition fc_entry (tx_id : TxID) (self : FileCache) : outcome AnnouncementCache :=
  match files self !! tx_id with
  | Some item => Ok item
  | None => ac_new (max_entries_per_file (fc_config self)) (entry_expiration_time_secs (fc_config self))
  end.

Definition fc_insert (now : Z) (tx_id : TxID) (announcement : SignedAnnounceFile) : M FileCache () :=
  item ← gets_ok (fc_entry tx_id);
  _ ← modify (λ self, set_files (<[tx_id := item]> (files self)) self);
  total ← gets total_announcements;
  if total <? ac_len item then panic
  else
    _ ← modify (set_total (total - ac_len item));
    item ← lift (ac_insert now announcement item);
    _ ← modify (λ self, set_files (<[tx_id := item]> (files self)) self);
    _ ← match peek_priority item with
        | Some priority => modify (λ self, set_fc_priorities (pq_push tx_id priority (fc_priorities self)) self)
        | None => mret tt
        end;
    _ ← modify (λ self, set_total (total_announcements self + ac_len item) self);
    self ← get;
    when (max_entries_total (fc_config self) <? total_announcements self) (_ ← fc_pop; mret tt).

Definition fc_random (now : Z) (pick : list SignedAnnounceFile → option SignedAnnounceFile) (tx_id : TxID) :
    M FileCache (option SignedAnnounceFile) :=
  self ← get;
  match files self !! tx_id with
  | None => mret None
  | Some item =>
      r ← lift (ac_random now pick item);
      let '(result, collected, item) := r in
      _ ← modify (λ self, set_files (<[tx_id := item]> (files self)) self);
      _ ← update_on_announcement_cache_changed tx_id collected;
      mret result
  end.

Definition fc_all (now : Z) (tx_id : TxID) : M FileCache (option (list SignedAnnounceFile)) :=
  self ← get;
  match files self !! tx_id with
  | None => mret None
  | Some item =>
      r ← lift (ac_all now item);
      let '(result, collected, item) := r in
      _ ← modify (λ self, set_files (<[tx_id := item]> (files self)) self);
      _ ← update_on_announcement_cache_changed tx_id collected;
      mret (Some result)
  end.

Definition fc_remove (tx_id : TxID) (peer_id : PeerId) : M FileCache (option SignedAnnounceFile) :=
  self ← get;
  match files self !! tx_id with
  | None => mret None
  | Some item =>
      let '(o, item) := ac_remove peer_id item in
      _ ← modify (λ self, set_files (<[tx_id := item]> (files self)) self);
      match o with
      | None => mret None
      | Some result => _ ← update_on_announcement_cache_changed tx_id 1; mret (Some result)
      end
  end.

(** ** [FileLocationCache] *)

Record FileLocationCache := FileLocationCache_mk {
  flc_cache : FileCache;
  peer_cache : gmap PeerId ShardConfig;
}.

Definition flc_new (config : Config) : FileLocationCache := FileLocationCache_mk (file_cache_new config) ∅.

Definition on_cache {A} (m : M FileCache A) : M FileLocationCache A :=
  zoom flc_cache (λ c self, FileLocationCache_mk c (peer_cache self)) m.

Definition insert_peer_config (peer : PeerId) (shard_config : ShardConfig) : M FileLocationCache (option ShardConfig) :=
  old ← gets (λ self, peer_cache self !! peer);
  _ ← modify (λ self, FileLocationCache_mk (flc_cache self) (<[peer := shard_config]> (peer_cache self)));
  mret old.

Definition get_peer_config (self : FileLocationCache) (peer : PeerId) : option ShardConfig := peer_cache self !! peer.

Definition flc_insert (now : Z) (announcement : SignedAnnounceFile) : M FileLocationCache () :=
  let config := af_shard_config (tm_inner (sm_inner announcement)) in
  match shard_new (shard_id config) (num_shard config) with
  | Ok shard_config =>
      _ ← insert_peer_config (ann_peer_id announcement) shard_config;
      on_cache (for_each (ann_tx_ids announcement) (λ tx_id, fc_insert now tx_id announcement))
  | Err _ => mret tt
  | Panic => panic
  | Diverge => lift Diverge
  end.

Definition get_one (now : Z) (pick : list SignedAnnounceFile → option SignedAnnounceFile) (tx_id : TxID) :
    M FileLocationCache (option SignedAnnounceFile) := on_cache (fc_random now pick tx_id).

Definition get_all (now : Z) (tx_id : TxID) : M FileLocationCache (list SignedAnnounceFile) :=
  o ← on_cache (fc_all now tx_id); mret (default [] o).

Definition flc_remove (tx_id : TxID) (peer_id : PeerId) : M FileLocationCache (option SignedAnnounceFile) :=
  on_cache (fc_remove tx_id peer_id).

End cache.
