(* ===== verification/FileCacheTheorems.v ===== *)
(** The properties of the location cache
    ([node/file_location_cache/src/file_location_cache.rs]).

    What the cache of announced files keeps: exact counts within the bounds of
    its configuration, and the newest announcements. *)

From stdpp Require Import sorting list_numbers.
From S2P Require Import Prelude HashElement Shard FileLocationCache.
Local Open Scope Z_scope.

(** ** The documented behaviour of the queue *)

Class PriorityQueueLaws (K Q : Type) `{Countable K, !PriorityQueue K Q} := {
  pq_map : Q → gmap K Z;
  pq_map_new : pq_map pq_new = ∅;
  pq_peek_none q : pq_peek q = None → pq_map q = ∅;
  pq_peek_some q k p : pq_peek q = Some (k, p) → pq_map q !! k = Some p ∧ ∀ k' p', pq_map q !! k' = Some p' → p ≤ p';
  pq_push_map k p q : pq_map (pq_push k p q) = <[k := p]> (pq_map q);
  pq_pop_peek q : (pq_pop q).1 = pq_peek q;
  pq_pop_map q : pq_map (pq_pop q).2 = match pq_peek q with Some (k, _) => delete k (pq_map q) | None => pq_map q end;
  pq_remove_found k q : (pq_remove k q).1 = (k,.) <$> pq_map q !! k;
  pq_remove_map k q : pq_map (pq_remove k q).2 = delete k (pq_map q);
  pq_change_map k p q : pq_map (pq_change_priority k p q) = alter (λ _, p) k (pq_map q);
}.

Section facts.
Context {PeerId Multiaddr PQ FQ : Type} `{Countable PeerId}.
Context `{!PriorityQueue PeerId PQ, !PriorityQueue TxID FQ, !PriorityQueueLaws PeerId PQ, !PriorityQueueLaws TxID FQ}.
Local Abbreviation SignedAnnounceFile := (SignedMessage (TimedMessage (AnnounceFile PeerId Multiaddr))).
Local Abbreviation AC := (AnnouncementCache (PeerId := PeerId) (Multiaddr := Multiaddr) (PQ := PQ)).
Local Abbreviation FC := (FileCache (PeerId := PeerId) (Multiaddr := Multiaddr) (PQ := PQ) (FQ := FQ)).
Implicit Types (self item : AC) (a : SignedAnnounceFile) (p : PeerId) (m : gmap PeerId SignedAnnounceFile).

(** ** One file *)

(** The queue has the timestamps of the items. *)
Record ac_ok (cap timeout : Z) self : Prop := {
  ao_cap : ac_capacity self = cap;
  ao_timeout : ac_timeout_secs self = timeout;
  ao_prio : pq_map (ac_priorities self) = ann_timestamp <$> ac_items self;
  ao_peer p a : ac_items self !! p = Some a → ann_peer_id a = p;
}.

(** [a] is the oldest of [m]. *)
Definition oldest a m : Prop := ∀ p a', m !! p = Some a' → ann_timestamp a ≤ ann_timestamp a'.

Lemma peek_items cap timeout self : ac_ok cap timeout self →
  match pq_peek (ac_priorities self) with
  | None => ac_items self = ∅
  | Some (p, ts) => ∃ a, ac_items self !! p = Some a ∧ ann_timestamp a = ts ∧ oldest a (ac_items self)
  end.
Proof.
  intros [_ _ Hq _]. destruct (pq_peek (ac_priorities self)) as [[p ts]|] eqn:Hpk.
  - destruct (pq_peek_some _ _ _ Hpk) as [Hp Hmin]. rewrite Hq, lookup_fmap, fmap_Some in Hp. destruct Hp as (a & Ha & ->).
    exists a. split_and!; [done|done|]. intros p' a' Ha'. apply (Hmin p'). by rewrite Hq, lookup_fmap, Ha'.
  - apply pq_peek_none in Hpk. rewrite Hq in Hpk. by apply fmap_empty_inv in Hpk.
Qed.

(** Popping removes an oldest item. *)
Lemma ac_pop_spec cap timeout self : ac_ok cap timeout self → ac_items self ≠ ∅ →
  ∃ p a, ac_items self !! p = Some a ∧ oldest a (ac_items self) ∧
    (ac_pop self).1 = Some a ∧ ac_items (ac_pop self).2 = delete p (ac_items self) ∧
    pq_peek (ac_priorities self) = Some (p, ann_timestamp a) ∧ ac_len (ac_pop self).2 = ac_len self - 1 ∧
    ac_ok cap timeout (ac_pop self).2.
Proof.
  intros Hok Hne. pose proof (peek_items _ _ _ Hok) as Hpk. pose proof (pq_pop_peek (ac_priorities self)) as Hp1.
  pose proof (pq_pop_map (ac_priorities self)) as Hp2. destruct Hok as [Hcap Hto Hq Hpeer].
  destruct (pq_peek (ac_priorities self)) as [[p ts]|]; [|done]. destruct Hpk as (a & Ha & <- & Hold). exists p, a.
  unfold ac_pop. destruct (pq_pop (ac_priorities self)) as [o q]. cbn in Hp1, Hp2. subst o. cbn.
  assert (Z.of_nat (size (delete p (ac_items self))) = ac_len self - 1) as Hsz.
  { rewrite map_size_delete_Some by done. unfold ac_len. assert (size (ac_items self) ≠ 0)%nat by (apply (map_size_ne_0_lookup_2 _ p); by eexists). lia. }
  split_and!; [done..|]. split; cbn; [done|done| |].
  - by rewrite Hp2, Hq, fmap_delete.
  - intros p' a' [_ Ha']%lookup_delete_Some. by apply Hpeer.
Qed.

(** What collecting leaves, [n] items less: a part of the items with all that
    are not expired; exactly those if their timestamps are at least a timeout
    away from the end of [u32]. *)
Definition collected (now timeout : Z) m (n : Z) m' : Prop :=
  m' ⊆ m ∧ 0 ≤ n ∧ Z.of_nat (size m') = Z.of_nat (size m) - n ∧
  (∀ p a, m !! p = Some a → now < wrap32 (ann_timestamp a + timeout) → m' !! p = Some a) ∧
  ((∀ p a, m !! p = Some a → 0 ≤ ann_timestamp a + timeout < 2 ^ 32) →
   m' = filter (λ pa, now < ann_timestamp pa.2 + timeout) m).

Lemma gc_loop_spec cap timeout now self n fuel : ac_ok cap timeout self → (size (ac_items self) ≤ fuel)%nat → 0 ≤ n →
  ∃ k self', gc_loop fuel now n self = Ok (n + k, self') ∧ ac_ok cap timeout self' ∧
    collected now timeout (ac_items self) k (ac_items self').
Proof.
  unfold collected. revert n self. induction fuel as [|fuel IH]; intros n self Hok Hfuel Hn; pose proof (peek_items _ _ _ Hok) as Hpk; cbn [gc_loop].
  all: destruct (pq_peek (ac_priorities self)) as [[p ts]|] eqn:Hq;
    [|exists 0, self; rewrite Z.add_0_r, Hpk; split_and!; [done|done|done|lia|lia|done|by rewrite map_filter_empty]].
  all: destruct Hpk as (a & Ha & <- & Hold); rewrite (ao_timeout _ _ _ Hok); destruct (Z.ltb_spec now (wrap32 (ann_timestamp a + timeout))) as [Hlt|Hge].
  1, 3: exists 0, self; rewrite Z.add_0_r; split_and!; [done|done|done|lia|lia|done|]; intros Hsane; symmetry; apply map_filter_id;
    intros p' a' Ha'; cbn; pose proof (Hold p' a' Ha'); unfold wrap32 in Hlt; rewrite Z.mod_small in Hlt by (by apply (Hsane p)); lia.
  - assert (size (ac_items self) ≠ 0)%nat by (apply (map_size_ne_0_lookup_2 _ p); by eexists). lia.
  - assert (ac_items self ≠ ∅) as Hne by (intros Hemp; by rewrite Hemp, lookup_empty in Ha).
    destruct (ac_pop_spec _ _ _ Hok Hne) as (p1 & a1 & Ha1 & Hold1 & _ & Hitems & Hpk & Hlen & Hok').
    rewrite Hq in Hpk. injection Hpk as <- Hts.
    destruct (IH (n + 1) (ac_pop self).2 Hok') as (k & self' & Hrun & Hok2 & Hsub & Hk & Hsz & Hfresh & Hexact); [unfold ac_len in Hlen; lia|lia|].
    exists (k + 1), self'. rewrite Hrun. unfold ac_len in Hlen. split_and!; [do 2 f_equal; lia|done| |lia|lia| |].
    + etrans; [done|]. rewrite Hitems. apply delete_subseteq.
    + intros p' a' Ha' Hlt. apply Hfresh; [|done]. rewrite Hitems. apply lookup_delete_Some. split; [|done].
      intros <-. rewrite Ha1 in Ha'. injection Ha' as <-. rewrite Hts in Hge. lia.
    + intros Hsane. rewrite Hexact.
      * rewrite Hitems, map_filter_delete, delete_id; [done|]. apply map_lookup_filter_None_2. right. intros b Hb. cbn.
        rewrite Ha1 in Hb. injection Hb as <-. unfold wrap32 in Hge. rewrite Hts, Z.mod_small in Hge by (by apply (Hsane p)). lia.
      * intros p' a' Ha'. rewrite Hitems in Ha'. apply lookup_delete_Some in Ha' as [_ Ha']. by apply (Hsane p').
Qed.

Lemma garbage_collect_spec cap timeout now self : ac_ok cap timeout self →
  ∃ k self', garbage_collect now self = Ok (k, self') ∧ ac_ok cap timeout self' ∧ collected now timeout (ac_items self) k (ac_items self').
Proof. intros Hok. by apply (gc_loop_spec cap timeout now self 0). Qed.

(** What inserting [a] makes of the collected items [g]: nothing if the peer's
    item is at least as new, else [a] is there, unless one is too many and an
    oldest leaves. *)
Definition inserted (cap : Z) a g m' : Prop :=
  (∃ e, g !! ann_peer_id a = Some e ∧ ann_timestamp a ≤ ann_timestamp e ∧ m' = g) ∨
  ((∀ e, g !! ann_peer_id a = Some e → ann_timestamp e < ann_timestamp a) ∧
   (m' = <[ann_peer_id a := a]> g ∨
    ∃ p b, <[ann_peer_id a := a]> g !! p = Some b ∧ oldest b (<[ann_peer_id a := a]> g) ∧
      m' = delete p (<[ann_peer_id a := a]> g) ∧ Z.of_nat (size m') = cap)).

Lemma ac_insert_spec cap timeout now a self : ac_ok cap timeout self → 0 < cap → ac_len self ≤ cap →
  ∃ self' k g, ac_insert now a self = Ok self' ∧ ac_ok cap timeout self' ∧ collected now timeout (ac_items self) k g ∧
    inserted cap a g (ac_items self') ∧ ac_items self' ≠ ∅ ∧ ac_len self' ≤ cap ∧ ac_len self' ≤ ac_len self + 1.
Proof.
  intros Hok Hcap Hlen. destruct (garbage_collect_spec cap timeout now self Hok) as (k & s1 & Hgc & Hok1 & Hcol).
  pose proof Hcol as (_ & Hk & Hsz & _). unfold ac_insert. rewrite Hgc, bind_Ok. cbn [snd]. unfold older, ac_len in *.
  destruct (ac_items s1 !! ann_peer_id a) as [e|] eqn:He; [destruct (Z.leb_spec (ann_timestamp a) (ann_timestamp e)) as [Hle|Hgt]|].
  1: exists s1, k, (ac_items s1); split_and!; [done..|left; by exists e|intros Hemp; by rewrite Hemp, lookup_empty in He|lia|lia].
  all: set (s2 := do_insert_or_update a s1).
  all: assert (ac_ok cap timeout s2) as Hok2 by
    (destruct Hok1 as [Hc1 Ht1 Hq1 Hp1]; split; cbn; [done|done|by rewrite pq_push_map, Hq1, fmap_insert|];
     intros p b [[<- <-]|[_ Hb]]%lookup_insert_Some; [done|by apply Hp1]).
  all: assert (ac_items s2 = <[ann_peer_id a := a]> (ac_items s1)) as Hi2 by done.
  all: assert (Z.of_nat (size (ac_items s2)) ≤ Z.of_nat (size (ac_items s1)) + 1) as Hs2 by
    (rewrite Hi2, map_size_insert, He; cbn; lia).
  all: assert (∀ e', ac_items s1 !! ann_peer_id a = Some e' → ann_timestamp e' < ann_timestamp a) as Hnew by
    (intros e' He'; rewrite He in He'; by inversion He'; subst).
  all: assert (ac_items s2 ≠ ∅) as Hne by (rewrite Hi2; apply insert_non_empty).
  all: rewrite (ao_cap _ _ _ Hok2); destruct (Z.ltb_spec cap (Z.of_nat (size (ac_items s2)))) as [Hbig|Hsmall].
  2, 4: exists s2, k, (ac_items s1); split_and!; [done..|right; split; [done|by left]|done|lia|lia].
  all: destruct (ac_pop_spec _ _ _ Hok2 Hne) as (p & b & Hb & Hold & _ & Hitems & _ & Hl & Hok3); unfold ac_len in Hl.
  all: exists (ac_pop s2).2, k, (ac_items s1); split_and!; [done..| | |lia|lia];
    [right; split; [done|right; exists p, b; rewrite <- Hi2; split_and!; [done..|lia]]|intros Hemp; rewrite Hemp, map_size_empty in Hl; lia].
Qed.

(** ** All files *)

Implicit Types (cc : FC) (t : TxID) (fs : gmap TxID AC).

Definition total_of fs : Z := map_fold (λ _ item n, n + ac_len item) 0 fs.

Lemma total_insert fs t item : fs !! t = None → total_of (<[t := item]> fs) = total_of fs + ac_len item.
Proof. intros Ht. unfold total_of. rewrite map_fold_insert_L; [done| |done]. intros; lia. Qed.

Lemma total_delete fs t item : fs !! t = Some item → total_of (delete t fs) = total_of fs - ac_len item.
Proof.
  intros Ht. rewrite <- (insert_delete_id fs t item Ht) at 2. rewrite total_insert by apply lookup_delete_eq. lia.
Qed.

Lemma total_update fs t item item' : fs !! t = Some item → total_of (<[t := item']> fs) = total_of fs - ac_len item + ac_len item'.
Proof.
  intros Ht. rewrite <- insert_delete_eq, total_insert by apply lookup_delete_eq. by rewrite (total_delete fs t item).
Qed.

Lemma total_nonneg fs : 0 ≤ total_of fs.
Proof.
  unfold total_of. apply (map_fold_weak_ind (λ n _, 0 ≤ n)); [lia|]. intros t item fs' n _ Hn. unfold ac_len. lia.
Qed.

Lemma total_ge fs t item : fs !! t = Some item → ac_len item ≤ total_of fs.
Proof. intros Ht. pose proof (total_delete fs t item Ht). pose proof (total_nonneg (delete t fs)). lia. Qed.

Definition item_ok (cfg : Config) item : Prop :=
  ac_ok (max_entries_per_file cfg) (entry_expiration_time_secs cfg) item ∧ ac_len item ≤ max_entries_per_file cfg.

(** The counter is exact and the queue has the oldest timestamp of every file. *)
Record fc_inv (cfg : Config) cc : Prop := {
  fi_config : fc_config cc = cfg;
  fi_files t item : files cc !! t = Some item → item_ok cfg item ∧ ac_items item ≠ ∅;
  fi_total : total_announcements cc = total_of (files cc);
  fi_prio t : pq_map (fc_priorities cc) !! t = files cc !! t ≫= peek_priority;
}.

(** The same after a change of the file [t] by which [removed] items left. *)
Record fc_mid (cfg : Config) t (removed : Z) item cc : Prop := {
  fm_config : fc_config cc = cfg;
  fm_item : files cc !! t = Some item ∧ item_ok cfg item;
  fm_files t' item' : t' ≠ t → files cc !! t' = Some item' → item_ok cfg item' ∧ ac_items item' ≠ ∅;
  fm_total : total_announcements cc = total_of (files cc) + removed;
  fm_prio t' : t' ≠ t → pq_map (fc_priorities cc) !! t' = files cc !! t' ≫= peek_priority;
  fm_removed : 0 ≤ removed;
  fm_same : is_Some (pq_map (fc_priorities cc) !! t) ∧
    (removed = 0 → ac_items item ≠ ∅ ∧ pq_map (fc_priorities cc) !! t = peek_priority item);
}.

Lemma peek_priority_spec cfg item : item_ok cfg item →
  match peek_priority item with
  | None => ac_items item = ∅
  | Some ts => ∃ p a, ac_items item !! p = Some a ∧ ann_timestamp a = ts ∧ oldest a (ac_items item)
  end.
Proof.
  intros [Hok _]. pose proof (peek_items _ _ _ Hok) as Hpk. unfold peek_priority.
  destruct (pq_peek (ac_priorities item)) as [[p ts]|]; [|done]. destruct Hpk as (a & ? & ? & ?). by exists p, a.
Qed.

Lemma wp_update cfg t removed item cc : fc_mid cfg t removed item cc →
  wp (update_on_announcement_cache_changed t removed)
    (λ _ s', fc_inv cfg s' ∧ files s' = if decide (ac_items item = ∅) then delete t (files cc) else files cc) cc.
Proof.
  intros [Hcfg [Ht Hitem] Hfiles Htotal Hprio Hrem [Hin Hsame]]. unfold update_on_announcement_cache_changed.
  destruct (Z.eqb_spec removed 0) as [Hz|Hnz].
  { destruct (Hsame Hz) as [Hne Hp]. apply wp_ret. rewrite decide_False by done. split; [|done]. split; [done| |lia|].
    - intros t' item' Ht'. destruct (decide (t' = t)) as [->|]; [|by eapply Hfiles]. rewrite Ht in Ht'. by injection Ht' as <-.
    - intros t'. destruct (decide (t' = t)) as [->|]; [|by apply Hprio]. by rewrite Ht. }
  apply wp_bind, wp_gets. pose proof (total_nonneg (files cc)). destruct (Z.ltb_spec (total_announcements cc) removed); [lia|].
  apply wp_bind, wp_modify, wp_bind, wp_get. cbn [files set_total]. rewrite Ht. pose proof (peek_priority_spec cfg item Hitem) as Hpk.
  destruct (peek_priority item) as [ts|] eqn:Hpp; apply wp_modify.
  - destruct Hpk as (p & a & Ha & _). assert (ac_items item ≠ ∅) as Hne by (intros Hemp; by rewrite Hemp, lookup_empty in Ha).
    rewrite decide_False by done. split; [|done]. split; cbn; [done| |lia|].
    + intros t' item' Ht'. destruct (decide (t' = t)) as [->|]; [|by eapply Hfiles]. rewrite Ht in Ht'. by injection Ht' as <-.
    + intros t'. rewrite pq_change_map. destruct (decide (t' = t)) as [->|]; [|rewrite lookup_alter_ne by done; by apply Hprio].
      rewrite lookup_alter_eq, Ht. destruct Hin as [x ->]. cbn. by rewrite Hpp.
  - rewrite decide_True by done. split; [|done]. split; cbn; [done| | |].
    + intros t' item' [Hne Ht']%lookup_delete_Some. by eapply Hfiles.
    + rewrite (total_delete _ _ item) by done. assert (ac_len item = 0) by (unfold ac_len; by rewrite Hpk, map_size_empty). lia.
    + intros t'. rewrite pq_remove_map. destruct (decide (t' = t)) as [->|]; [by rewrite !lookup_delete_eq|].
      rewrite !lookup_delete_ne by done. by apply Hprio.
Qed.

(** *** Operations *)

Definition entry cc t p : option SignedAnnounceFile := files cc !! t ≫= λ item, ac_items item !! p.

(** Every entry of the cache is at least as new as [a]. *)
Definition oldest_of_all a cc : Prop := ∀ t p b, entry cc t p = Some b → ann_timestamp a ≤ ann_timestamp b.

(** The oldest timestamp depends on the items only. *)
Lemma peek_priority_items cfg item item' : item_ok cfg item → item_ok cfg item' → ac_items item = ac_items item' →
  peek_priority item = peek_priority item'.
Proof.
  intros Hok Hok' Heq. pose proof (peek_priority_spec cfg item Hok) as Hp. pose proof (peek_priority_spec cfg item' Hok') as Hp'.
  rewrite Heq in Hp. destruct (peek_priority item), (peek_priority item'); [|destruct Hp as (p & a & Ha & _)|destruct Hp' as (p & a & Ha & _)|done].
  - destruct Hp as (p & a & Ha & <- & Hold), Hp' as (p' & a' & Ha' & <- & Hold'). f_equal.
    specialize (Hold _ _ Ha'). specialize (Hold' _ _ Ha). lia.
  - by rewrite Hp', lookup_empty in Ha.
  - by rewrite Hp, lookup_empty in Ha.
Qed.

(** [fc_mid] after replacing the item of a file by one with less items. *)
Lemma mid_of_inv cfg cc t item item' removed : fc_inv cfg cc → files cc !! t = Some item → item_ok cfg item' →
  ac_len item' = ac_len item - removed → 0 ≤ removed → (removed = 0 → ac_items item' = ac_items item) →
  fc_mid cfg t removed item' (set_files (<[t := item']> (files cc)) cc).
Proof.
  intros [Hcfg Hfiles Htotal Hprio] Ht Hok Hlen Hrem Hz. split; cbn.
  - done.
  - by rewrite lookup_insert_eq.
  - intros t' item1 Hne. rewrite lookup_insert_ne by done. apply Hfiles.
  - rewrite (total_update _ t item) by done. lia.
  - intros t' Hne. rewrite lookup_insert_ne by done. apply Hprio.
  - done.
  - rewrite Hprio, Ht. cbn. destruct (Hfiles t item Ht) as [Hok0 Hne]. split.
    + pose proof (peek_priority_spec cfg item Hok0). destruct (peek_priority item); [by eexists|done].
    + intros Hr. rewrite (Hz Hr). split; [done|]. symmetry. apply (peek_priority_items cfg); auto.
Qed.

(** What changed when the items of [t] are now those of [item']. *)
Lemma entry_after cc cc' t item' : files cc' = (if decide (ac_items item' = ∅) then delete t (<[t := item']> (files cc)) else <[t := item']> (files cc)) →
  ∀ t' p, entry cc' t' p = if decide (t' = t) then ac_items item' !! p else entry cc t' p.
Proof.
  intros Hf t' p. unfold entry. rewrite Hf. case_decide as Hemp; case_decide as Ht.
  - subst t'. by rewrite lookup_delete_eq, Hemp, lookup_empty.
  - by rewrite lookup_delete_ne, lookup_insert_ne.
  - subst t'. by rewrite lookup_insert_eq.
  - by rewrite lookup_insert_ne.
Qed.

Lemma wp_fc_pop cfg cc : fc_inv cfg cc → files cc ≠ ∅ →
  wp fc_pop (λ o cc', fc_inv cfg cc' ∧ total_announcements cc' = total_announcements cc - 1 ∧
    ∃ t p a, o = Some a ∧ entry cc t p = Some a ∧ oldest_of_all a cc ∧
      ∀ t' p', entry cc' t' p' = if decide (t' = t ∧ p' = p) then None else entry cc t' p') cc.
Proof.
  intros Hinv Hne. pose proof Hinv as [Hcfg Hfiles Htotal Hprio]. unfold fc_pop. apply wp_bind, wp_get.
  destruct (pq_peek (fc_priorities cc)) as [[t ts]|] eqn:Hpk.
  2: { exfalso. apply Hne, map_empty. intros t. apply pq_peek_none in Hpk. specialize (Hprio t). rewrite Hpk, lookup_empty in Hprio.
       destruct (files cc !! t) as [item|] eqn:Ht; [|done]. destruct (Hfiles t item Ht) as [Hok Hi].
       pose proof (peek_priority_spec cfg item Hok) as Hp. cbn in Hprio. by rewrite <- Hprio in Hp. }
  destruct (pq_peek_some _ _ _ Hpk) as [Hts Hmin]. rewrite Hprio in Hts. destruct (files cc !! t) as [item|] eqn:Ht; [|done].
  destruct (Hfiles t item Ht) as [Hok Hi]. destruct (ac_pop_spec _ _ _ (proj1 Hok) Hi) as (p & a & Ha & Hold & Ho & Hitems & Hpp & Hlen & Hok').
  destruct (ac_pop item) as [o item'] eqn:Hpop. cbn in Ho, Hitems, Hlen, Hok'. subst o.
  apply wp_bind, wp_modify. apply wp_bind. eapply wp_mono; [apply wp_update, (mid_of_inv cfg cc t item item' 1 Hinv Ht)|].
  - split; [done|]. destruct Hok. lia.
  - lia.
  - lia.
  - lia.
  - intros [] cc' [Hinv' Hf']. apply wp_ret. split; [done|]. split.
    { rewrite (fi_total _ _ Hinv'), Hf', Htotal. cbn. case_decide as Hemp.
      - assert (ac_len item' = 0) by (unfold ac_len; by rewrite Hemp, map_size_empty).
        rewrite (total_delete _ t item'), (total_update _ t item) by (done || apply lookup_insert_eq). lia.
      - rewrite (total_update _ t item) by done. lia. }
    exists t, p, a. assert (oldest_of_all a cc) as Hall.
    { intros t' p' b Hb. unfold entry in Hb. destruct (files cc !! t') as [item1|] eqn:Ht'; [|done]. cbn in Hb.
      destruct (Hfiles t' item1 Ht') as [Hok1 Hi1]. pose proof (peek_priority_spec cfg item1 Hok1) as Hp1.
      destruct (peek_priority item1) as [ts1|] eqn:Hpp1; [|done]. destruct Hp1 as (p1 & a1 & Ha1 & <- & Hold1).
      specialize (Hmin t' (ann_timestamp a1)). rewrite Hprio, Ht' in Hmin. specialize (Hmin Hpp1). specialize (Hold1 p' b Hb).
      cbn in Hts. unfold peek_priority in Hts. rewrite Hpp in Hts. injection Hts as <-. lia. }
    split_and!; [done|unfold entry; by rewrite Ht|done|]. intros t' p'.
    rewrite (entry_after cc cc' t item' Hf'). destruct (decide (t' = t)) as [->|Hnt].
    + rewrite Hitems. destruct (decide (p' = p)) as [->|Hnp]; [by rewrite lookup_delete_eq, decide_True|].
      rewrite lookup_delete_ne, decide_False by naive_solver. unfold entry. by rewrite Ht.
    + by rewrite decide_False by naive_solver.
Qed.

Lemma fc_entry_spec cfg cc t : fc_inv cfg cc → 0 < max_entries_per_file cfg →
  ∃ item, fc_entry t cc = Ok item ∧ item_ok cfg item ∧ (∀ p, ac_items item !! p = entry cc t p) ∧
    (∀ item', total_of (<[t := item']> (files cc)) = total_of (files cc) - ac_len item + ac_len item') ∧ ac_len item ≤ total_of (files cc).
Proof.
  intros [Hcfg Hfiles Htotal Hprio] Hper. unfold fc_entry, entry. destruct (files cc !! t) as [item|] eqn:Ht.
  - exists item. split_and!; [done|by apply (Hfiles t)|done|intros; by apply total_update|by eapply total_ge].
  - unfold ac_new. rewrite Hcfg. destruct (Z.ltb_spec 0 (max_entries_per_file cfg)); [|lia].
    eexists. split; [done|]. pose proof (total_nonneg (files cc)). split_and!; cbn.
    + split; [split; cbn; [done|done|by rewrite pq_map_new, fmap_empty|intros p a; by rewrite lookup_empty]|unfold ac_len; cbn; rewrite map_size_empty; lia].
    + intros p. apply lookup_empty.
    + intros item'. rewrite total_insert by done. unfold ac_len at 2. cbn. rewrite map_size_empty. lia.
    + unfold ac_len. cbn. rewrite map_size_empty. lia.
Qed.

(** [a] is found, or one at least as new of its peer, or all that is found, of
    the file or at all, is at least as new and fills the cache. *)
Definition kept (cfg : Config) cc t a : Prop :=
  (∃ b, entry cc t (ann_peer_id a) = Some b ∧ ann_timestamp a ≤ ann_timestamp b) ∨
  (∃ item, files cc !! t = Some item ∧ ac_len item = max_entries_per_file cfg ∧ oldest a (ac_items item)) ∨
  (oldest_of_all a cc ∧ total_announcements cc = max_entries_total cfg).

(** The cache holds [a] at most in addition to what it had. *)
Definition only_adds cc cc' t a : Prop :=
  ∀ t' p b, entry cc' t' p = Some b → entry cc t' p = Some b ∨ t' = t ∧ p = ann_peer_id a ∧ b = a.

Lemma inserted_kept cap a g m' : inserted cap a g m' →
  (∀ p b, m' !! p = Some b → g !! p = Some b ∨ p = ann_peer_id a ∧ b = a) ∧
  ((∃ b, m' !! ann_peer_id a = Some b ∧ ann_timestamp a ≤ ann_timestamp b) ∨
   Z.of_nat (size m') = cap ∧ cap ≤ Z.of_nat (size g) ∧ oldest a m').
Proof.
  intros [(e & He & Hle & ->)|[Hnew [->|(p & b & Hb & Hold & -> & Hsz)]]].
  - split; [by left|]. left. by exists e.
  - split; [intros p b [[<- <-]|[_ Hb]]%lookup_insert_Some; [by right|by left]|]. left. exists a. by rewrite lookup_insert_eq.
  - split; [intros p' b' [_ [[<- <-]|[_ Hb']]%lookup_insert_Some]%lookup_delete_Some; [by right|by left]|].
    destruct (decide (p = ann_peer_id a)) as [->|Hne].
    + right. split; [done|]. split.
      * rewrite map_size_delete_Some in Hsz by (by eexists). rewrite map_size_insert in Hsz. destruct (g !! ann_peer_id a); cbn in Hsz; lia.
      * rewrite lookup_insert_eq in Hb. injection Hb as <-. intros p' b' [_ Hb']%lookup_delete_Some. by eapply Hold.
    + left. exists a. by rewrite lookup_delete_ne, lookup_insert_eq.
Qed.

Lemma inserted_survive cap a g m' : inserted cap a g m' → ∀ p b, g !! p = Some b →
  m' !! p = Some b ∨ (p = ann_peer_id a ∧ ann_timestamp b < ann_timestamp a) ∨
  (oldest b m' ∧ Z.of_nat (size m') = cap ∧ cap ≤ Z.of_nat (size g)).
Proof.
  intros [(e & He & Hle & ->)|[Hnew [->|(p0 & b0 & Hb0 & Hold & -> & Hsz)]]] p b Hb; [by left| |].
  all: destruct (decide (p = ann_peer_id a)) as [->|Hne]; [right; left; split; [done|by apply Hnew]|].
  - left. by rewrite lookup_insert_ne.
  - destruct (decide (p = p0)) as [->|Hne0]; [|left; by rewrite lookup_delete_ne, lookup_insert_ne].
    right. right. rewrite lookup_insert_ne, Hb in Hb0 by done. injection Hb0 as <-. split_and!; [|done|].
    + intros p' b' [_ Hb']%lookup_delete_Some. by eapply Hold.
    + rewrite map_size_delete_Some in Hsz by (rewrite lookup_insert_ne by done; by eexists). rewrite map_size_insert in Hsz.
      destruct (g !! ann_peer_id a); cbn in Hsz; lia.
Qed.

(** Inserting [a] for the file [t] takes away only what is expired, of this
    file, what a newer announcement of the same peer replaces, and the oldest of
    a full file or cache. *)
Definition survive cfg now cc cc' t a : Prop :=
  ∀ t' p b, entry cc t' p = Some b → (t' = t → now < wrap32 (ann_timestamp b + entry_expiration_time_secs cfg)) →
    entry cc' t' p = Some b ∨
    (t' = t ∧ p = ann_peer_id a ∧ ann_timestamp b < ann_timestamp a) ∨
    (t' = t ∧ ∃ item, files cc' !! t = Some item ∧ ac_len item = max_entries_per_file cfg ∧ oldest b (ac_items item)) ∨
    (oldest_of_all b cc' ∧ total_announcements cc' = max_entries_total cfg).

(** The cache with a new item for [t]. *)
Lemma fc_inv_insert cfg cc t item' ts n : fc_inv cfg cc → item_ok cfg item' → ac_items item' ≠ ∅ → peek_priority item' = Some ts →
  n = total_of (<[t := item']> (files cc)) →
  let cc1 := FileCache_mk (fc_config cc) n (<[t := item']> (files cc)) (pq_push t ts (fc_priorities cc)) in
  fc_inv cfg cc1 ∧ ∀ t' p, entry cc1 t' p = if decide (t' = t) then ac_items item' !! p else entry cc t' p.
Proof.
  intros [Hcfg Hfiles Htotal Hprio] Hok Hne Hpp -> cc1. split.
  - split; cbn; [done| |done|].
    + intros t' i [[<- <-]|[_ Hi]]%lookup_insert_Some; [done|by eapply Hfiles].
    + intros t'. rewrite pq_push_map. destruct (decide (t' = t)) as [->|]; [by rewrite !lookup_insert_eq|by rewrite !lookup_insert_ne].
  - intros t' p. apply (entry_after cc cc1 t item'). by rewrite decide_False.
Qed.

(** Evicting the oldest entry keeps what is newer. *)
Lemma kept_after_pop cfg cc cc' t a t0 p0 a0 : total_announcements cc' = max_entries_total cfg →
  entry cc t0 p0 = Some a0 → oldest_of_all a0 cc →
  (∀ t' p', entry cc' t' p' = if decide (t' = t0 ∧ p' = p0) then None else entry cc t' p') →
  (∃ b, entry cc t (ann_peer_id a) = Some b ∧ ann_timestamp a ≤ ann_timestamp b) → kept cfg cc' t a.
Proof.
  intros Htot He0 Hold Heq (b & Hb & Hts). destruct (decide (t = t0 ∧ ann_peer_id a = p0)) as [[-> <-]|Hne].
  - right. right. split; [|done]. intros t' p' b' Hb'. rewrite Heq in Hb'. case_decide; [done|].
    rewrite He0 in Hb. injection Hb as ->. specialize (Hold t' p' b' Hb'). lia.
  - left. exists b. rewrite Heq, decide_False by done. done.
Qed.

Lemma wp_fc_insert cfg cc now t a : fc_inv cfg cc → 0 < max_entries_per_file cfg → 0 ≤ max_entries_total cfg →
  total_announcements cc ≤ max_entries_total cfg →
  wp (fc_insert now t a) (λ _ cc', fc_inv cfg cc' ∧ total_announcements cc' ≤ max_entries_total cfg ∧
    only_adds cc cc' t a ∧ kept cfg cc' t a ∧ survive cfg now cc cc' t a) cc.
Proof.
  intros Hinv Hper Hmax Hle. pose proof Hinv as [Hcfg Hfiles Htotal Hprio].
  destruct (fc_entry_spec cfg cc t Hinv Hper) as (item & Hentry & Hok & Hitems & Htot & Hge). unfold fc_insert. apply wp_bind.
  eapply wp_gets_ok; [done|]. apply wp_bind, wp_modify, wp_bind, wp_gets. cbn [total_announcements set_files].
  destruct (Z.ltb_spec (total_announcements cc) (ac_len item)); [lia|]. apply wp_bind, wp_modify, wp_bind.
  destruct (ac_insert_spec _ _ now a item (proj1 Hok) Hper (proj2 Hok)) as (item' & k & g & Hins & Hok' & Hcol & Hinsd & Hne & Hlen & Hlen').
  eapply wp_lift; [done|]. apply wp_bind, wp_modify, wp_bind. pose proof (peek_priority_spec cfg item' (conj Hok' Hlen)) as Hpk.
  destruct (peek_priority item') as [ts|] eqn:Hpp; [|done]. apply wp_modify, wp_bind, wp_modify, wp_bind, wp_get.
  unfold set_files, set_total, set_fc_priorities. cbn [files total_announcements fc_config fc_priorities]. rewrite insert_insert_eq.
  destruct (fc_inv_insert cfg cc t item' ts (total_announcements cc - ac_len item + ac_len item') Hinv (conj Hok' Hlen) Hne Hpp) as [Hinv1 He1];
    [by rewrite Htot, Htotal|].
  set (cc1 := FileCache_mk _ _ _ _) in *. destruct (inserted_kept _ _ _ _ Hinsd) as [Hsrc Hk].
  pose proof (inserted_survive _ _ _ _ Hinsd) as Hsv. destruct Hcol as (Hsub & Hk0 & Hgsz & Hfresh & _).
  assert (only_adds cc cc1 t a) as Hadds.
  { intros t' p b. rewrite He1. case_decide as Ht'; [|by left]. subst t'. intros Hb. destruct (Hsrc p b Hb) as [Hg|[-> ->]]; [|by right].
    left. rewrite <- Hitems. by eapply lookup_weaken. }
  assert (kept cfg cc1 t a) as Hkept.
  { destruct Hk as [(b & Hb & Hts)|(Hsz & _ & Hold)]; [left; exists b; by rewrite He1, decide_True|].
    right. left. exists item'. cbn. by rewrite lookup_insert_eq. }
  assert (total_announcements cc1 = total_announcements cc - ac_len item + ac_len item') as Ht1 by done.
  assert (∀ t' p b, entry cc t' p = Some b → (t' = t → now < wrap32 (ann_timestamp b + entry_expiration_time_secs cfg)) →
    entry cc1 t' p = Some b ∨ (t' = t ∧ p = ann_peer_id a ∧ ann_timestamp b < ann_timestamp a) ∨
    (t' = t ∧ oldest b (ac_items item') ∧ ac_len item' = max_entries_per_file cfg ∧ max_entries_per_file cfg ≤ Z.of_nat (size g))) as Hsurv.
  { intros t' p b Hb Hexp. rewrite He1. case_decide as Ht'; [|by left]. subst t'. rewrite <- Hitems in Hb.
    destruct (Hsv p b (Hfresh p b Hb (Hexp eq_refl))) as [|[[-> ?]|(? & ? & ?)]];
      [by left|right; by left|right; right; by split_and!]. }
  apply wp_when; intros Hbig.
  2: { split_and!; [done|cbn in Hbig; rewrite Hcfg in Hbig; lia|done|done|]. intros t' p b Hb Hexp.
       destruct (Hsurv t' p b Hb Hexp) as [|[|(-> & Hold & Hfull & _)]]; [by left|right; by left|].
       right. right. left. split; [done|]. exists item'. cbn. by rewrite lookup_insert_eq. }
  cbn in Hbig. rewrite Hcfg in Hbig.
  destruct Hk as [(b & Hb & Hts)|(Hsz & Hg & _)]; [|unfold ac_len in *; lia]. unfold ac_len in *.
  apply wp_bind. eapply wp_mono; [apply (wp_fc_pop cfg cc1 Hinv1); cbn; apply insert_non_empty|].
  intros o cc2 (Hinv2 & Ht2 & t0 & p0 & a0 & _ & He0 & Hold0 & He2). apply wp_ret. split_and!; [done|lia| | |].
  - intros t' p' b' Hb'. rewrite He2 in Hb'. case_decide; [done|]. by apply Hadds.
  - eapply kept_after_pop; [lia|done..|]. exists b. by rewrite He1, decide_True.
  - intros t' p' b' Hb' Hexp. destruct (Hsurv t' p' b' Hb' Hexp) as [Hin|[|(_ & _ & Hfull & Hsz)]]; [|right; by left|lia].
    rewrite He2. case_decide as Hpop; [|by left]. destruct Hpop as [-> ->]. rewrite He0 in Hin. injection Hin as ->.
    right. right. right. split; [|lia]. intros t'' p'' b'' Hb''. rewrite He2 in Hb''. case_decide; [done|]. by eapply Hold0.
Qed.

(** An operation that only takes entries away, of the file [t]. *)
Definition shrinks cfg cc cc' : Prop :=
  fc_inv cfg cc' ∧ total_announcements cc' ≤ total_announcements cc ∧ ∀ t p b, entry cc' t p = Some b → entry cc t p = Some b.

Lemma wp_shrink {A} (r : A) cfg cc t item item' k : fc_inv cfg cc → files cc !! t = Some item → item_ok cfg item' →
  ac_items item' ⊆ ac_items item → ac_len item' = ac_len item - k → 0 ≤ k →
  wp (_ ← modify (λ cc0 : FC, set_files (<[t := item']> (files cc0)) cc0); _ ← update_on_announcement_cache_changed t k; mret r)
    (λ r' cc', r' = r ∧ shrinks cfg cc cc' ∧ ∀ p, entry cc' t p = ac_items item' !! p) cc.
Proof.
  intros Hinv Ht Hok Hsub Hlen Hk. apply wp_bind, wp_modify, wp_bind.
  eapply wp_mono; [apply wp_update, (mid_of_inv cfg cc t item item' k Hinv Ht Hok Hlen Hk)|].
  { intros ->. apply (map_subseteq_size_eq _ _ Hsub). unfold ac_len in Hlen. lia. }
  intros [] cc' [Hinv' Hf]. apply wp_ret. pose proof (entry_after cc cc' t item' Hf) as He. split; [done|]. split; [split; [done|split]|].
  - rewrite (fi_total _ _ Hinv'), (fi_total _ _ Hinv), Hf. cbn. pose proof (total_update (files cc) t item item' Ht). case_decide; [|lia].
    rewrite (total_delete _ t item') by apply lookup_insert_eq. assert (0 ≤ ac_len item') by (unfold ac_len; lia). lia.
  - intros t' p b. rewrite He. destruct (decide (t' = t)) as [->|]; [|done]. intros Hb. unfold entry. rewrite Ht. cbn. by eapply lookup_weaken.
  - intros p. by rewrite He, decide_True.
Qed.

(** The announcements that are returned for a file: all that are not expired. *)
Definition fresh_entries cfg now cc t (l : list SignedAnnounceFile) : Prop :=
  (∀ p b, entry cc t p = Some b → 0 ≤ ann_timestamp b + entry_expiration_time_secs cfg < 2 ^ 32) →
  ∀ b, b ∈ l ↔ ∃ p, entry cc t p = Some b ∧ now < ann_timestamp b + entry_expiration_time_secs cfg.

Lemma collected_fresh cfg now cc t item k m' : files cc !! t = Some item →
  collected now (entry_expiration_time_secs cfg) (ac_items item) k m' → fresh_entries cfg now cc t ((map_to_list m').*2).
Proof.
  intros Ht (_ & _ & _ & _ & Hexact) Hsane b. unfold entry in *. rewrite Ht in *. cbn in *. rewrite Hexact by done. split.
  - intros ([p b'] & -> & Hin)%list_elem_of_fmap_1. apply elem_of_map_to_list, map_lookup_filter_Some in Hin as [Hb Hf]. by exists p.
  - intros (p & Hb & Hf). apply (list_elem_of_fmap_2 snd _ (p, b)). apply elem_of_map_to_list. by apply map_lookup_filter_Some.
Qed.

Lemma item_ok_collected cfg now item k item' : item_ok cfg item →
  ac_ok (max_entries_per_file cfg) (entry_expiration_time_secs cfg) item' →
  collected now (entry_expiration_time_secs cfg) (ac_items item) k (ac_items item') →
  item_ok cfg item' ∧ ac_len item' = ac_len item - k ∧ ac_items item' ⊆ ac_items item ∧ 0 ≤ k.
Proof. intros [_ Hl] Hok (Hsub & Hk & Hsz & _). unfold item_ok, ac_len in *. split_and!; [done|lia|lia|done|done]. Qed.

Lemma wp_fc_all cfg cc now t : fc_inv cfg cc →
  wp (fc_all now t) (λ o cc', shrinks cfg cc cc' ∧ fresh_entries cfg now cc t (default [] o)) cc.
Proof.
  intros Hinv. unfold fc_all. apply wp_bind, wp_get. destruct (files cc !! t) as [item|] eqn:Ht.
  2: { apply wp_ret. split; [by split|]. intros _ b. unfold entry. rewrite Ht. cbn. set_solver. }
  destruct (fi_files _ _ Hinv t item Ht) as [Hok Hne]. unfold ac_all.
  destruct (garbage_collect_spec _ _ now item (proj1 Hok)) as (k & item' & Hgc & Hok' & Hcol). rewrite Hgc, bind_Ok.
  destruct (item_ok_collected cfg now item k item' Hok Hok' Hcol) as (Hik & Hlen & Hsub & Hk). apply wp_bind. eapply wp_lift; [done|].
  eapply wp_mono; [by apply (wp_shrink _ cfg cc t item item' k)|]. intros o cc' (-> & Hs & _). split; [done|]. by eapply collected_fresh.
Qed.

Lemma wp_fc_random cfg cc now pick t : fc_inv cfg cc → (∀ l b, pick l = Some b → b ∈ l) →
  wp (fc_random now pick t) (λ o cc', shrinks cfg cc cc' ∧
    ∀ b, o = Some b → (∃ p, entry cc t p = Some b) ∧ ∃ l, b ∈ l ∧ fresh_entries cfg now cc t l) cc.
Proof.
  intros Hinv Hpick. unfold fc_random. apply wp_bind, wp_get. destruct (files cc !! t) as [item|] eqn:Ht.
  2: { apply wp_ret. by split; [split|]. }
  destruct (fi_files _ _ Hinv t item Ht) as [Hok Hne]. unfold ac_random.
  destruct (garbage_collect_spec _ _ now item (proj1 Hok)) as (k & item' & Hgc & Hok' & Hcol). rewrite Hgc, bind_Ok.
  destruct (item_ok_collected cfg now item k item' Hok Hok' Hcol) as (Hik & Hlen & Hsub & Hk). apply wp_bind. cbn [fst snd]. case_bool_decide.
  - eapply wp_lift; [done|]. eapply wp_mono; [by apply (wp_shrink _ cfg cc t item item' k)|]. intros o cc' (-> & Hs & _). by split.
  - eapply wp_lift; [done|]. eapply wp_mono; [by apply (wp_shrink _ cfg cc t item item' k)|]. intros o cc' (-> & Hs & He).
    split; [done|]. intros b Hb. apply Hpick in Hb. split.
    + apply list_elem_of_fmap_1 in Hb as ([p b'] & -> & Hin%elem_of_map_to_list). exists p. unfold entry. rewrite Ht. cbn.
      by eapply lookup_weaken.
    + eexists. split; [done|]. by eapply collected_fresh.
Qed.

Lemma wp_fc_remove cfg cc t p : fc_inv cfg cc →
  wp (fc_remove t p) (λ o cc', shrinks cfg cc cc' ∧ o = entry cc t p ∧ entry cc' t p = None) cc.
Proof.
  intros Hinv. unfold fc_remove. apply wp_bind, wp_get. destruct (files cc !! t) as [item|] eqn:Ht.
  2: { apply wp_ret. unfold entry. rewrite Ht. split; [by split|done]. }
  destruct (fi_files _ _ Hinv t item Ht) as [[Hok Hl] Hne]. unfold ac_remove.
  pose proof (pq_remove_found p (ac_priorities item)) as Hfound. pose proof (pq_remove_map p (ac_priorities item)) as Hmap.
  destruct (pq_remove p (ac_priorities item)) as [o q]. cbn in Hfound, Hmap. destruct Hok as [Hcap Hto Hq Hpeer].
  rewrite Hq, lookup_fmap in Hfound. assert (entry cc t p = ac_items item !! p) as He by (unfold entry; by rewrite Ht).
  rewrite Hq in Hmap. destruct (ac_items item !! p) as [b|] eqn:Hb; subst o; cbn [fmap option_fmap option_map].
  - set (item' := AnnouncementCache_mk _ _ _ _). assert (Z.of_nat (size (delete p (ac_items item))) = ac_len item - 1) as Hsz.
    { rewrite map_size_delete_Some by (by eexists). unfold ac_len. assert (size (ac_items item) ≠ 0)%nat by (apply (map_size_ne_0_lookup_2 _ p); by eexists). lia. }
    assert (item_ok cfg item') as Hok'.
    { split; [split; cbn; [done|done|by rewrite Hmap, fmap_delete|]|unfold ac_len; cbn; lia]. intros p' b' [_ Hb']%lookup_delete_Some. by apply Hpeer. }
    eapply wp_mono; [apply (wp_shrink (Some b) cfg cc t item item' 1 Hinv Ht Hok'); [apply delete_subseteq|done|lia]|].
    intros r cc' (-> & Hs & He'). rewrite He', He. split; [done|]. split; [done|]. cbn. by rewrite lookup_delete_eq.
  - apply wp_bind, wp_modify, wp_ret. set (item' := AnnouncementCache_mk _ _ _ _).
    assert (item_ok cfg item') as Hok'.
    { split; [split; cbn; [done|done| |done]|done]. rewrite Hmap, delete_id; [done|]. by rewrite lookup_fmap, Hb. }
    assert (∀ t' p', entry (set_files (<[t := item']> (files cc)) cc) t' p' = entry cc t' p') as He'.
    { intros t' p'. unfold entry. cbn. destruct (decide (t' = t)) as [->|]; [by rewrite lookup_insert_eq, Ht|by rewrite lookup_insert_ne]. }
    split; [split; [|split; [done|intros t' p' b'; by rewrite He']]|rewrite He'; by rewrite He].
    destruct Hinv as [Hcfg Hfiles Htotal Hprio]. split; cbn; [done| | |].
    + intros t' i [[<- <-]|[_ Hi]]%lookup_insert_Some; [done|by eapply Hfiles].
    + rewrite (total_update _ t item) by done. unfold ac_len. cbn. lia.
    + intros t'. rewrite Hprio. destruct (decide (t' = t)) as [->|]; [|by rewrite lookup_insert_ne]. rewrite lookup_insert_eq, Ht. cbn.
      by apply (peek_priority_items cfg).
Qed.

End facts.

(** * The cache of announced files over any sequence of calls. *)

(** A priority queue that searches a finite map. *)
Definition least_of {K} `{Countable K} (q : gmap K Z) : option (K * Z) :=
  map_fold (λ k p o, match o with Some (k', p') => if p <? p' then Some (k, p) else o | None => Some (k, p) end) None q.

#[export] Instance map_queue {K} `{Countable K} : PriorityQueue K (gmap K Z) := {
  pq_new := ∅;
  pq_peek := least_of;
  pq_push k p q := <[k := p]> q;
  pq_pop q := (least_of q, match least_of q with Some (k, _) => delete k q | None => q end);
  pq_remove k q := ((k,.) <$> q !! k, delete k q);
  pq_change_priority k p q := alter (λ _, p) k q;
}.

Lemma least_of_spec {K} `{Countable K} (q : gmap K Z) :
  match least_of q with
  | None => q = ∅
  | Some (k, p) => q !! k = Some p ∧ ∀ k' p', q !! k' = Some p' → p ≤ p'
  end.
Proof.
  unfold least_of. apply (map_fold_weak_ind (λ (o : option (K * Z)) q,
    match o with None => q = ∅ | Some (k, p) => q !! k = Some p ∧ ∀ k' p', q !! k' = Some p' → p ≤ p' end)); [done|].
  intros k p m o Hk IH. destruct o as [[k' p']|].
  - destruct IH as [Hk' Hmin]. destruct (Z.ltb_spec p p').
    + rewrite lookup_insert_eq. split; [done|]. intros k1 p1 [[<- <-]|[_ H1]]%lookup_insert_Some; [lia|]. specialize (Hmin _ _ H1). lia.
    + split; [apply lookup_insert_Some; right; split; [congruence|done]|]. intros k1 p1 [[<- <-]|[_ H1]]%lookup_insert_Some; [lia|by eapply Hmin].
  - subst m. rewrite lookup_insert_eq. split; [done|]. intros k1 p1 [[<- <-]|[_ H1]]%lookup_insert_Some; [lia|by rewrite lookup_empty in H1].
Qed.

#[export] Instance map_queue_laws {K} `{Countable K} : PriorityQueueLaws K (gmap K Z).
Proof.
  refine {| pq_map q := q |}; try done.
  - intros q Hq. pose proof (least_of_spec q) as Hs. cbn in Hq. by rewrite Hq in Hs.
  - intros q k p Hq. pose proof (least_of_spec q) as Hs. cbn in Hq. by rewrite Hq in Hs.
Defined.

Section theorems.
Context {PeerId Multiaddr PQ FQ : Type} `{Countable PeerId}.
Context `{!PriorityQueue PeerId PQ, !PriorityQueue TxID FQ, !PriorityQueueLaws PeerId PQ, !PriorityQueueLaws TxID FQ}.
Local Abbreviation SignedAnnounceFile := (SignedMessage (TimedMessage (AnnounceFile PeerId Multiaddr))).
Local Abbreviation FC := (FileCache (PeerId := PeerId) (Multiaddr := Multiaddr) (PQ := PQ) (FQ := FQ)).
Local Abbreviation FLC := (FileLocationCache (PeerId := PeerId) (Multiaddr := Multiaddr) (PQ := PQ) (FQ := FQ)).
Implicit Types (c : FLC) (cc : FC) (a b : SignedAnnounceFile) (seen : list SignedAnnounceFile).

(** The states after any calls, at any times and whatever they return, and the
    announcements that were inserted. *)
Inductive flc_reach (cfg : Config) : FLC → list SignedAnnounceFile → Prop :=
  | reach_new : flc_reach cfg (flc_new cfg) []
  | reach_insert c seen now a : flc_reach cfg c seen → flc_reach cfg (flc_insert now a c).2 (a :: seen)
  | reach_get_one c seen now pick t : (∀ l b, pick l = Some b → b ∈ l) → flc_reach cfg c seen → flc_reach cfg (get_one now pick t c).2 seen
  | reach_get_all c seen now t : flc_reach cfg c seen → flc_reach cfg (get_all now t c).2 seen
  | reach_remove c seen t p : flc_reach cfg c seen → flc_reach cfg (flc_remove t p c).2 seen
  | reach_peer c seen p s : flc_reach cfg c seen → flc_reach cfg (insert_peer_config p s c).2 seen.

(** Within the bounds, and with inserted announcements only. *)
Record flc_ok (cfg : Config) seen cc : Prop := {
  ok_inv : fc_inv cfg cc;
  ok_total : total_announcements cc ≤ max_entries_total cfg;
  ok_seen t p b : entry cc t p = Some b → b ∈ seen ∧ t ∈ ann_tx_ids b;
}.

Lemma wp_snd {S A} (m : M S A) (P : S → Prop) s : wp m (λ _ s', P s') s → P (m s).2.
Proof. unfold wp. destruct (m s) as [[] s']; naive_solver. Qed.

Lemma flc_ok_new cfg : 0 ≤ max_entries_total cfg → flc_ok cfg [] (file_cache_new cfg : FC).
Proof.
  intros Htot. split; [split; cbn|done|]; [done| | | |].
  - intros t item. by rewrite lookup_empty.
  - done.
  - intros t. by rewrite pq_map_new, !lookup_empty.
  - intros t p b. unfold entry. cbn. by rewrite lookup_empty.
Qed.

Lemma flc_ok_shrinks cfg seen cc cc' : flc_ok cfg seen cc → shrinks cfg cc cc' → flc_ok cfg seen cc'.
Proof. intros [_ Htot Hseen] (Hinv & Hle & Hsub). split; [done|lia|]. intros t p b Hb. by eapply Hseen, Hsub. Qed.

Section config.
Variable cfg : Config.
Hypotheses (Hper : 0 < max_entries_per_file cfg) (Htot : 0 ≤ max_entries_total cfg).

Lemma wp_flc_insert seen now a c : flc_ok cfg seen (flc_cache c) →
  wp (flc_insert now a) (λ _ c', flc_ok cfg (a :: seen) (flc_cache c')) c ∨
  ∃ msg, shard_new (shard_id (af_shard_config (tm_inner (sm_inner a)))) (num_shard (af_shard_config (tm_inner (sm_inner a)))) = Err msg ∧
    flc_insert now a c = (Ok tt, c).
Proof.
  intros Hok. unfold flc_insert. destruct (shard_new _ _) as [s|msg| |] eqn:Hs.
  - left. apply wp_bind. unfold insert_peer_config. apply wp_bind, wp_gets, wp_bind, wp_modify, wp_ret.
    apply wp_zoom. cbn. apply (wp_for_each _ _ (λ _ cc, flc_ok cfg (a :: seen) cc)).
    + destruct Hok as [Hinv Ht Hseen]. split; [done|done|]. intros t p b Hb. destruct (Hseen _ _ _ Hb). by split; [right|].
    + intros done t todo cc' Hin [Hinv Ht Hseen]. eapply wp_mono; [by apply (wp_fc_insert cfg)|].
      intros [] cc'' (Hinv' & Ht' & Hadd & _). split; [done|done|]. intros t' p b Hb.
      destruct (Hadd _ _ _ Hb) as [Hb'|(-> & -> & ->)]; [by eapply Hseen|]. split; [left|]. rewrite Hin. set_solver.
    + done.
  - right. by exists msg.
  - exfalso. revert Hs. unfold shard_new, shard_validate. by repeat case_match; simplify_eq/=.
  - exfalso. revert Hs. unfold shard_new, shard_validate. by repeat case_match; simplify_eq/=.
Qed.

Lemma flc_reach_ok c seen : flc_reach cfg c seen → flc_ok cfg seen (flc_cache c).
Proof.
  induction 1 as [|c seen now a Hr IH|c seen now pick t Hpick Hr IH|c seen now t Hr IH|c seen t p Hr IH|c seen p s Hr IH].
  - by apply flc_ok_new.
  - destruct (wp_flc_insert seen now a c IH) as [Hw|(msg & _ & ->)]; [exact (wp_snd _ (λ c, flc_ok cfg (a :: seen) (flc_cache c)) _ Hw)|]. cbn. destruct IH as [Hi Ht Hs].
    split; [done|done|]. intros t p b Hb. destruct (Hs _ _ _ Hb). by split; [right|].
  - apply (wp_snd _ (λ c, flc_ok cfg seen (flc_cache c))), wp_zoom. eapply wp_mono; [apply (wp_fc_random cfg _ now pick t (ok_inv _ _ _ IH) Hpick)|].
    intros o cc' [Hsh _]. by eapply flc_ok_shrinks.
  - apply (wp_snd _ (λ c, flc_ok cfg seen (flc_cache c))). unfold get_all. apply wp_bind, wp_zoom.
    eapply wp_mono; [apply (wp_fc_all cfg _ now t (ok_inv _ _ _ IH))|]. intros o cc' [Hsh _]. apply wp_ret. by eapply flc_ok_shrinks.
  - apply (wp_snd _ (λ c, flc_ok cfg seen (flc_cache c))), wp_zoom. eapply wp_mono; [apply (wp_fc_remove cfg _ t p (ok_inv _ _ _ IH))|].
    intros o cc' [Hsh _]. by eapply flc_ok_shrinks.
  - done.
Qed.

(** C20: The cache of file locations, from its creation through any announcements
    and lookups at any times: it stays within the configured sizes with an exact
    count, and holds inserted announcements for the announced files only.
    Inserting an announcement never panics and keeps the newest announcements:
    the new one is found, or one of the peer that is at least as new, or it is no
    newer than all of a full file or cache; and of what was there, only expired
    announcements of the file, the one of the same peer if it is older than the
    new one, and the oldest of a full file or cache leave, so that an older
    announcement never replaces a newer one.  [get_all] returns exactly the unexpired
    announcements, [get_one] one of them, and [remove] the one that it
    deletes. *)
Theorem file_cache_serves_newest c seen : flc_reach cfg c seen →
  (total_announcements (flc_cache c) = total_of (files (flc_cache c)) ∧ total_announcements (flc_cache c) ≤ max_entries_total cfg) ∧
  (∀ t item, files (flc_cache c) !! t = Some item → 0 < ac_len item ≤ max_entries_per_file cfg) ∧
  (∀ t p b, entry (flc_cache c) t p = Some b → b ∈ seen ∧ t ∈ ann_tx_ids b ∧ ann_peer_id b = p) ∧
  (∀ now a, (flc_insert now a c).1 = Ok tt) ∧
  (∀ now t a, wp (fc_insert now t a) (λ _ cc', kept cfg cc' t a ∧ survive cfg now (flc_cache c) cc' t a) (flc_cache c)) ∧
  (∀ now t, wp (get_all now t) (λ l _, fresh_entries cfg now (flc_cache c) t l) c) ∧
  (∀ now pick t, (∀ l b, pick l = Some b → b ∈ l) → wp (get_one now pick t) (λ o _, ∀ b, o = Some b →
     (∃ p, entry (flc_cache c) t p = Some b) ∧ ∃ l, b ∈ l ∧ fresh_entries cfg now (flc_cache c) t l) c) ∧
  (∀ t p, wp (flc_remove t p) (λ o c', o = entry (flc_cache c) t p ∧ entry (flc_cache c') t p = None) c).
Proof.
  intros Hr%flc_reach_ok. pose proof (ok_inv _ _ _ Hr) as Hinv. pose proof (ok_total _ _ _ Hr) as Hle. split_and!.
  - apply Hinv.
  - done.
  - intros t item Hi. destruct (fi_files _ _ Hinv t item Hi) as [[_ Hlen] Hne]. split; [|done]. unfold ac_len.
    assert (size (ac_items item) ≠ 0%nat); [by apply map_size_non_empty_iff|lia].
  - intros t p b Hb. destruct (ok_seen _ _ _ Hr _ _ _ Hb) as [Hs Ht]. split_and!; [done..|].
    unfold entry in Hb. destruct (files (flc_cache c) !! t) as [item|] eqn:Hi; [|done].
    by eapply (ao_peer _ _ _ (proj1 (proj1 (fi_files _ _ Hinv t item Hi)))).
  - intros now a. destruct (wp_flc_insert seen now a c Hr) as [([] & s' & -> & _)%wp_run|(msg & _ & ->)]; done.
  - intros now t a. eapply wp_mono; [by apply (wp_fc_insert cfg)|]. by intros [] cc' (_ & _ & _ & Hk & Hs).
  - intros now t. unfold get_all. apply wp_bind, wp_zoom. eapply wp_mono; [by apply (wp_fc_all cfg)|]. intros o cc' [_ Hf]. by apply wp_ret.
  - intros now pick t Hpick. apply wp_zoom. eapply wp_mono; [by apply (wp_fc_random cfg)|]. by intros o cc' [_ Hb].
  - intros t p. apply wp_zoom. eapply wp_mono; [by apply (wp_fc_remove cfg)|]. by intros o cc' (_ & Ho & He).
Qed.

End config.

End theorems.

(** ** A run over a concrete queue *)

Section example.

Definition example_announcement (p ts : Z) (txs : list TxID) : SignedMessage (TimedMessage (AnnounceFile Z unit)) :=
  SignedMessage_mk (TimedMessage_mk (AnnounceFile_mk txs (ShardConfig_mk 0 1) p tt) ts) [] ts.

Definition example_tx : TxID := TxID_mk 7 (vreplicate 32 0).

(** Two entries in all, one per file. *)
Definition example_cache : FileLocationCache (PeerId := Z) (Multiaddr := unit) (PQ := gmap Z Z) (FQ := gmap TxID Z) :=
  (flc_insert 105 (example_announcement 2 101 [example_tx]) (flc_insert 100 (example_announcement 1 100 [example_tx])
     (flc_new (Config_mk 2 1 10))).2).2.

Lemma file_cache_serves_newest_witness :
  wp (get_all 106 example_tx) (λ l _, example_announcement 2 101 [example_tx] ∈ l) example_cache ∧
  kept (Config_mk 2 1 10) (fc_insert 106 example_tx (example_announcement 3 104 [example_tx]) (flc_cache example_cache)).2 example_tx
    (example_announcement 3 104 [example_tx]).
Proof.
  assert (flc_reach (Config_mk 2 1 10) example_cache
    [example_announcement 2 101 [example_tx]; example_announcement 1 100 [example_tx]]) as Hr by exact (reach_insert _ _ _ _ _ (reach_insert _ _ _ _ _ (reach_new _))).
  assert ((λ item, map_to_list (ac_items item)) <$> files (flc_cache example_cache) !! example_tx =
    Some [(2, example_announcement 2 101 [example_tx])]) as Hc by (vm_compute; reflexivity).
  destruct (file_cache_serves_newest (Config_mk 2 1 10) eq_refl ltac:(cbn; lia) _ _ Hr) as (_ & _ & _ & _ & Hk & Hall & _). split.
  - eapply wp_mono; [apply Hall|]. intros l s' Hf. apply Hf.
    + intros p b. unfold entry. destruct (files (flc_cache example_cache) !! example_tx) as [item|]; [|done].
      injection Hc as Hc. cbn. intros Hb%elem_of_map_to_list. rewrite Hc in Hb. apply list_elem_of_singleton in Hb as [= -> ->]. done.
    + exists 2. split; [|done]. unfold entry. destruct (files (flc_cache example_cache) !! example_tx) as [item|]; [|done].
      injection Hc as Hc. cbn. apply elem_of_map_to_list. rewrite Hc. by left.
  - apply (wp_snd _ (λ cc, kept (Config_mk 2 1 10) cc example_tx (example_announcement 3 104 [example_tx]))).
    eapply wp_mono; [apply Hk|]. intros [] cc' [Hkept _]. exact Hkept.
Defined.

End example.
