(* ===== verification/SyncController.v ===== *)
(** The download of one file: [node/sync/src/controllers/serial.rs], [peers.rs]
    and [mod.rs], with the configuration of [node/sync/src/lib.rs] and the
    messages of [context.rs].

    A controller finds peers that together have all shards of the file,
    connects to them and requests one segment after the other.  It is driven by
    calls of [transition] and by the events of the network; what it sends is the
    list [ctx].  The log store is the interface [ChunkStore], which the log
    manager implements. *)

From stdpp Require Import sorting list_numbers.
From S2P Require Import Prelude HashElement Ssz MerkleProof NodeStore AppendMerkle Bytes FlowDb Shard MerkleLight SharedTypes.
From S2P Require Import Seal ChunkData SealInfo EntryBatch Serde FlowStore TxStore LogManager FileLocationCache.
Local Open Scope Z_scope.

(** ** Configuration *)

(** Durations and instants are numbers of milliseconds. *)
Record SyncConfig := SyncConfig_mk {
  neighbors_only : bool;
  heartbeat_interval : Z;
  auto_sync_enabled : bool;
  max_sync_files : Z;
  sync_file_by_rpc_enabled : bool;
  sync_file_on_announcement_enabled : bool;
  max_chunks_to_request : Z;
  max_request_failures : Z;
  peer_connect_timeout : Z;
  peer_disconnect_timeout : Z;
  peer_find_timeout : Z;
  peer_chunks_download_timeout : Z;
  peer_wait_outgoing_connection_timeout : Z;
  peer_next_chunks_request_wait_timeout : Z;
  max_bandwidth_bytes : Z;
  bandwidth_wait_timeout : Z;
  auto_sync_idle_interval : Z;
  auto_sync_error_interval : Z;
  max_sequential_workers : Z;
  max_random_workers : Z;
  sequential_find_peer_timeout : Z;
  random_find_peer_timeout : Z;
  ready_txs_cache_cap : Z;
}.

Definition sync_config_default : SyncConfig := {|
  neighbors_only := true;
  heartbeat_interval := 3000;
  auto_sync_enabled := false;
  max_sync_files := 16;
  sync_file_by_rpc_enabled := true;
  sync_file_on_announcement_enabled := false;
  max_chunks_to_request := 2 * 1024;
  max_request_failures := 3;
  peer_connect_timeout := 15000;
  peer_disconnect_timeout := 15000;
  peer_find_timeout := 5000;
  peer_chunks_download_timeout := 15000;
  peer_wait_outgoing_connection_timeout := 10000;
  peer_next_chunks_request_wait_timeout := 3000;
  max_bandwidth_bytes := 0;
  bandwidth_wait_timeout := 5000;
  auto_sync_idle_interval := 3000;
  auto_sync_error_interval := 10000;
  max_sequential_workers := 0;
  max_random_workers := 8;
  sequential_find_peer_timeout := 5000;
  random_find_peer_timeout := 5000;
  ready_txs_cache_cap := 1000000;
|}.

(** [Instant::elapsed] saturates at zero. *)
Definition elapsed (now since : Z) : Z := Z.max 0 (now - since).

(** ** The goal of a download *)

Record FileSyncGoal := FileSyncGoal_mk {
  num_chunks : Z;
  index_start : Z;
  index_end : Z;
  all_chunks : bool;
}.

Definition goal_new (num_chunks index_start index_end : Z) (all_chunks : bool) : outcome FileSyncGoal :=
  if (index_start <? index_end) && (index_end <=? num_chunks)
  then Ok (FileSyncGoal_mk num_chunks index_start index_end all_chunks) else Panic.

Definition goal_new_file (num_chunks : Z) : outcome FileSyncGoal := goal_new num_chunks 0 num_chunks true.

(** ** States *)

Inductive PeerState := Found | Connecting | Connected | Disconnecting | Disconnected.

#[export] Instance PeerState_eq_dec : EqDecision PeerState.
Proof. solve_decision. Defined.

Inductive FailureReason :=
  | DBError (msg : string)
  | TxReverted (id : TxID)
  | TimeoutFindFile.

Inductive SyncState (PeerId : Type) :=
  | Idle
  | FindingPeers (origin since : Z)
  | FoundPeers
  | ConnectingPeers (origin since : Z)
  | AwaitingOutgoingConnection (since : Z)
  | AwaitingDownload (since : Z)
  | Downloading (peer_id : PeerId) (from_chunk to_chunk since : Z)
  | Completed
  | Failed (reason : FailureReason).
Arguments Idle {PeerId}.
Arguments FindingPeers {PeerId}.
Arguments FoundPeers {PeerId}.
Arguments ConnectingPeers {PeerId}.
Arguments AwaitingOutgoingConnection {PeerId}.
Arguments AwaitingDownload {PeerId}.
Arguments Downloading {PeerId}.
Arguments Completed {PeerId}.
Arguments Failed {PeerId}.

(** [libp2p::swarm::DialError], as far as it is told apart *)
Inductive DialError := ConnectionLimit | OtherDialError.

(** ** Messages to the network service *)

Inductive PeerAction := Fatal | LowToleranceError | MidToleranceError | HighToleranceError.

Record GetChunksRequest := GetChunksRequest_mk {
  gcr_tx_id : TxID;
  gcr_index_start : Z;
  gcr_index_end : Z;
  gcr_merkle_tx_seq : Z;
}.

(** The gossip messages that the synchronization publishes, without the time that
    they are stamped with. *)
Inductive PubsubMessage :=
  | FindFile (tx_id : TxID) (maybe_shard_config : option ShardConfig)
  | FindChunks (tx_id : TxID) (index_start index_end : Z)
  | AskFile (tx_id : TxID) (shard_config : ShardConfig).

Inductive RPCResponseErrorCode := RateLimited | InvalidRequest | ServerError | ResourceUnavailable | UnknownError.

(** The messages to the network service that the synchronization sends; all its
    requests and responses are for chunks. *)
Inductive NetworkMessage (PeerId Multiaddr : Type) :=
  | Publish (messages : list PubsubMessage)
  | DialPeer (address : Multiaddr) (peer_id : PeerId)
  | SendRequest (peer_id : PeerId) (request_id : TxID) (request : GetChunksRequest)
  | ReportPeer (peer_id : PeerId) (action : PeerAction) (msg : string)
  | AnnounceLocalFile (tx_id : TxID)
  | SendResponse (peer_id : PeerId) (id : Z) (response : ChunkArrayWithProof)
  | SendErrorResponse (peer_id : PeerId) (id : Z) (error : RPCResponseErrorCode) (reason : string).
Arguments Publish {PeerId Multiaddr}.
Arguments DialPeer {PeerId Multiaddr}.
Arguments SendRequest {PeerId Multiaddr}.
Arguments ReportPeer {PeerId Multiaddr}.
Arguments AnnounceLocalFile {PeerId Multiaddr}.
Arguments SendResponse {PeerId Multiaddr}.
Arguments SendErrorResponse {PeerId Multiaddr}.

(** [Multiaddr] of libp2p: [Multiaddr::empty()] and [push(Protocol::P2p(..))] *)
Class MultiaddrOps (PeerId Multiaddr : Type) := {
  multiaddr_empty : Multiaddr;
  push_p2p : PeerId → Multiaddr → Multiaddr;
}.

(** ** The store, as the download uses it *)

Class ChunkStore (S : Type) := {
  cs_shard_config : S → ShardConfig;
  cs_next_tx_seq : S → Z;
  cs_validate_and_insert_range_proof : Z → ChunkArrayWithProof → M S bool;
  cs_put_chunks_with_tx_hash : Z → H256 → ChunkArray → option (proof H256) → M S bool;
  cs_finalize_tx_with_hash : Z → H256 → M S bool;
}.

(** [match call { Ok(v) => .., Err(err) => .. }] *)
Definition attempt {S A} (m : M S A) : M S (A + string) :=
  λ s, match m s with
  | (Ok a, s') => (Ok (inl a), s')
  | (Err e, s') => (Ok (inr e), s')
  | (Panic, s') => (Panic, s')
  | (Diverge, s') => (Diverge, s')
  end.

Section log_manager_store.
Context `{Keccak, KeyValueDB KV, Bitmap64 B, !KeyValueIter KV}.
Context {NMt NM : Type} `{!NodeStore NMt OptionalHash, !NodeStore NM OptionalHash}.

(** The log manager is such a store. *)
Definition log_manager_store (clock : ChunkArray → Z → Z) : ChunkStore (LogManager KV (MerkleManager NMt NM)) := {|
  cs_shard_config := lm_shard_config;
  cs_next_tx_seq := lm_next_tx_seq;
  cs_validate_and_insert_range_proof := validate_and_insert_range_proof;
  cs_put_chunks_with_tx_hash := put_chunks_with_tx_hash (B := B) clock;
  cs_finalize_tx_with_hash := finalize_tx_with_hash (B := B) clock;
|}.

End log_manager_store.

(** ** Peers of a download *)

Record PeerInfo (Multiaddr : Type) := PeerInfo_mk {
  pi_addr : Multiaddr;
  pi_state : PeerState;
  pi_shard_config : ShardConfig;
  pi_since : Z;
}.
Arguments PeerInfo_mk {Multiaddr}.
Arguments pi_addr {Multiaddr}.
Arguments pi_state {Multiaddr}.
Arguments pi_shard_config {Multiaddr}.
Arguments pi_since {Multiaddr}.

Section peers.
Context {PeerId Multiaddr : Type} `{Countable PeerId}.
Local Abbreviation Peers := (gmap PeerId (PeerInfo Multiaddr)).
Implicit Types (self : Peers) (states : list PeerState).

Definition info_update_state (now : Z) (new_state : PeerState) (info : PeerInfo Multiaddr) : PeerInfo Multiaddr :=
  PeerInfo_mk (pi_addr info) new_state (pi_shard_config info) now.

Definition add_new_peer_with_config (now : Z) (peer_id : PeerId) (addr : Multiaddr) (shard_config : ShardConfig) self : bool * Peers :=
  let fresh := (true, <[peer_id := PeerInfo_mk addr Found shard_config now]> self) in
  match self !! peer_id with
  | Some info => if bool_decide (pi_shard_config info = shard_config) then (false, self) else fresh
  | None => fresh
  end.

Definition update_state (now : Z) (peer_id : PeerId) (from to : PeerState) self : option bool * Peers :=
  match self !! peer_id with
  | None => (None, self)
  | Some info =>
      if bool_decide (pi_state info = from) then (Some true, <[peer_id := info_update_state now to info]> self)
      else (Some false, self)
  end.

(** The time of the last change is kept. *)
Definition update_state_force (peer_id : PeerId) (state : PeerState) self : option PeerState * Peers :=
  match self !! peer_id with
  | None => (None, self)
  | Some info => (Some (pi_state info), <[peer_id := PeerInfo_mk (pi_addr info) state (pi_shard_config info) (pi_since info)]> self)
  end.

Definition peer_state self (peer_id : PeerId) : option PeerState := pi_state <$> self !! peer_id.
Definition peer_shard_config self (peer_id : PeerId) : option ShardConfig := pi_shard_config <$> self !! peer_id.

(** [HashMap<PeerState, u64>] of [states()] *)
Definition peer_states self (state : PeerState) : Z :=
  Z.of_nat (length (filter (λ p, pi_state p.2 = state) (map_to_list self))).

(** [pick]: what [choose] returns. *)
Definition random_peer (pick : list (PeerId * Multiaddr) → option (PeerId * Multiaddr)) (state : PeerState) self :
    option (PeerId * Multiaddr) :=
  pick ((λ p, (p.1, pi_addr p.2)) <$> filter (λ p, pi_state p.2 = state) (map_to_list self)).

Definition filter_peers states self : list PeerId :=
  fst <$> filter (λ p, pi_state p.2 ∈ states) (map_to_list self).

Definition peers_all_shards_available states self : outcome bool :=
  shard_configs ← mapM (λ peer_id, expect (pi_shard_config <$> self !! peer_id)) (filter_peers states self);
  all_shards_available shard_configs.

End peers.

(** ** The controller *)

(** What a call reads from outside: the two clocks, the rate of received bytes
    and the random choices. *)
Record Env (PeerId Multiaddr : Type) := Env_mk {
  env_now : Z;
  env_timestamp : Z;
  env_bandwidth : Z;
  env_pick : list (PeerId * Multiaddr) → option (PeerId * Multiaddr);
  env_gen_range : Z → Z;
}.
Arguments Env_mk {PeerId Multiaddr}.
Arguments env_now {PeerId Multiaddr}.
Arguments env_timestamp {PeerId Multiaddr}.
Arguments env_bandwidth {PeerId Multiaddr}.
Arguments env_pick {PeerId Multiaddr}.
Arguments env_gen_range {PeerId Multiaddr}.

Section controller.
Context {PeerId Multiaddr PQ FQ : Type} `{Countable PeerId}.
Context `{!PriorityQueue PeerId PQ, !PriorityQueue TxID FQ, !MultiaddrOps PeerId Multiaddr}.
Context {St : Type} `{!ChunkStore St}.
Local Abbreviation Cache := (FileLocationCache (PeerId := PeerId) (Multiaddr := Multiaddr) (PQ := PQ) (FQ := FQ)).
Local Abbreviation Peers := (gmap PeerId (PeerInfo Multiaddr)).
Local Abbreviation Message := (NetworkMessage PeerId Multiaddr).

Record SerialSyncController := Controller_mk {
  c_config : SyncConfig;
  tx_id : TxID;
  tx_start_chunk_in_flow : Z;
  c_since : Z;
  goal : FileSyncGoal;
  next_chunk : Z;
  failures : Z;
  state : SyncState PeerId;
  peers : Peers;
  ctx : list Message;
  store : St;
  file_location_cache : Cache;
}.
Implicit Types (self : SerialSyncController).

Definition tx_seq self : Z := id_seq (tx_id self).

Definition set_goal (g : FileSyncGoal) self := Controller_mk (c_config self) (tx_id self) (tx_start_chunk_in_flow self) (c_since self)
  g (next_chunk self) (failures self) (state self) (peers self) (ctx self) (store self) (file_location_cache self).
Definition set_next_chunk (n : Z) self := Controller_mk (c_config self) (tx_id self) (tx_start_chunk_in_flow self) (c_since self)
  (goal self) n (failures self) (state self) (peers self) (ctx self) (store self) (file_location_cache self).
Definition set_failures (n : Z) self := Controller_mk (c_config self) (tx_id self) (tx_start_chunk_in_flow self) (c_since self)
  (goal self) (next_chunk self) n (state self) (peers self) (ctx self) (store self) (file_location_cache self).
Definition set_state (st : SyncState PeerId) self := Controller_mk (c_config self) (tx_id self) (tx_start_chunk_in_flow self) (c_since self)
  (goal self) (next_chunk self) (failures self) st (peers self) (ctx self) (store self) (file_location_cache self).
Definition set_peers (p : Peers) self := Controller_mk (c_config self) (tx_id self) (tx_start_chunk_in_flow self) (c_since self)
  (goal self) (next_chunk self) (failures self) (state self) p (ctx self) (store self) (file_location_cache self).
Definition set_ctx (l : list Message) self := Controller_mk (c_config self) (tx_id self) (tx_start_chunk_in_flow self) (c_since self)
  (goal self) (next_chunk self) (failures self) (state self) (peers self) l (store self) (file_location_cache self).
Definition set_store (s : St) self := Controller_mk (c_config self) (tx_id self) (tx_start_chunk_in_flow self) (c_since self)
  (goal self) (next_chunk self) (failures self) (state self) (peers self) (ctx self) s (file_location_cache self).
Definition set_file_location_cache (c : Cache) self := Controller_mk (c_config self) (tx_id self) (tx_start_chunk_in_flow self) (c_since self)
  (goal self) (next_chunk self) (failures self) (state self) (peers self) (ctx self) (store self) c.

Definition controller_new (now : Z) (config : SyncConfig) (tx_id : TxID) (tx_start_chunk_in_flow : Z) (goal : FileSyncGoal)
    (ctx : list Message) (store : St) (file_location_cache : Cache) : SerialSyncController :=
  Controller_mk config tx_id tx_start_chunk_in_flow now goal (index_start goal) 0 Idle ∅ ctx store file_location_cache.

Definition is_completed_or_failed self : bool :=
  match state self with Completed | Failed _ => true | _ => false end.

(** *** [SyncNetworkContext] *)

Definition ctx_send (msg : Message) : M SerialSyncController () := modify (λ self, set_ctx (ctx self ++ [msg]) self).
Definition ctx_publish (msg : PubsubMessage) : M SerialSyncController () := ctx_send (Publish [msg]).
Definition ctx_report_peer (peer_id : PeerId) (action : PeerAction) (msg : string) : M SerialSyncController () :=
  ctx_send (ReportPeer peer_id action msg).
Definition ctx_ban_peer (peer_id : PeerId) (msg : string) : M SerialSyncController () := ctx_send (ReportPeer peer_id Fatal msg).

(** *** Fields *)

Definition to_state (st : SyncState PeerId) : M SerialSyncController () := modify (set_state st).
Definition on_peers {A} (f : Peers → A * Peers) : M SerialSyncController A :=
  λ self, let '(a, p) := f (peers self) in (Ok a, set_peers p self).
Definition on_store_ {A} (m : M St A) : M SerialSyncController A := zoom store set_store m.
Definition on_location_cache {A} (m : M Cache A) : M SerialSyncController A := zoom file_location_cache set_file_location_cache m.
Definition shards_available (states : list PeerState) : M SerialSyncController bool :=
  gets_ok (λ self, peers_all_shards_available states (peers self)).

Section call.
Context (env : Env PeerId Multiaddr).
Local Abbreviation now := (env_now env).

(** [SyncPeers::transition]: drops the peers that do not respond. *)
Definition peers_transition : M SerialSyncController () :=
  self ← get;
  let config := c_config self in
  bad_peers ← fold_for (map_to_list (peers self)) [] (λ bad_peers '(peer_id, info),
    match pi_state info with
    | Found | Connected => mret bad_peers
    | Connecting =>
        if peer_connect_timeout config <=? elapsed now (pi_since info) then
          _ ← ctx_report_peer peer_id LowToleranceError "Dial timeout";
          _ ← on_location_cache (flc_remove (tx_id self) peer_id);
          mret (bad_peers ++ [peer_id])
        else mret bad_peers
    | Disconnecting =>
        if peer_disconnect_timeout config <=? elapsed now (pi_since info) then mret (bad_peers ++ [peer_id])
        else mret bad_peers
    | Disconnected => mret (bad_peers ++ [peer_id])
    end);
  on_peers (λ ps, (tt, foldl (λ ps peer_id, delete peer_id ps) ps bad_peers)).

Definition reset (maybe_range : option (Z * Z)) : M SerialSyncController () :=
  self ← get;
  _ ← match maybe_range with
      | Some (start, end_) =>
          g ← lift (goal_new (num_chunks (goal self)) start end_ false);
          _ ← modify (set_goal g);
          modify (set_next_chunk start)
      | None =>
          if all_chunks (goal self) then mret tt
          else
            g ← lift (goal_new_file (num_chunks (goal self)));
            _ ← modify (set_goal g);
            modify (set_next_chunk 0)
      end;
  _ ← modify (set_failures 0);
  _ ← to_state Idle;
  peers_transition.

(** *** Finding peers *)

Definition on_peer_found (peer_id : PeerId) (addr : Multiaddr) : M SerialSyncController bool :=
  o ← gets (λ self, get_peer_config (file_location_cache self) peer_id);
  match o with
  | Some shard_config => on_peers (add_new_peer_with_config now peer_id addr shard_config)
  | None => mret false
  end.

Definition do_publish_find_file : M SerialSyncController () :=
  self ← get;
  let shard_config := cs_shard_config (store self) in
  ctx_publish (if neighbors_only (c_config self) then AskFile (tx_id self) shard_config else FindFile (tx_id self) (Some shard_config)).

Definition publish_find_chunks : M SerialSyncController () :=
  self ← get;
  ctx_publish (FindChunks (tx_id self) (index_start (goal self)) (index_end (goal self))).

Definition publish_find_file : M SerialSyncController (bool * Z) :=
  self ← get;
  announcements ← on_location_cache (get_all (env_timestamp env) (tx_id self));
  num_new_peers ← fold_for announcements 0 (λ n a,
    found ← on_peer_found (ann_peer_id a) (push_p2p (ann_peer_id a) (ann_at a));
    mret (if (found : bool) then n + 1 else n));
  available ← (if 0 <? num_new_peers then shards_available [Found; Connecting; Connected] else mret false);
  if (available : bool) then mret (false, num_new_peers)
  else _ ← do_publish_find_file; mret (true, num_new_peers).

Definition try_find_peers : M SerialSyncController () :=
  self ← get;
  _ ← (if negb (all_chunks (goal self)) then _ ← publish_find_chunks; mret (true, 0)
       else if neighbors_only (c_config self) then _ ← do_publish_find_file; mret (true, 0)
       else publish_find_file);
  to_state (FindingPeers (c_since self) now).

(** *** Connecting *)

(** Every iteration dials a peer that was found. *)
Definition dial_loop : nat → M SerialSyncController bool :=
  λ fuel, loop fuel (λ _ : (),
    available ← shards_available [Connecting; Connected];
    if (available : bool) then mret (inr true)
    else
      o ← gets (λ self, random_peer (env_pick env) Found (peers self));
      match o with
      | None => _ ← to_state Idle; mret (inr false)
      | Some (peer_id, address) =>
          _ ← ctx_send (DialPeer address peer_id);
          _ ← on_peers (update_state now peer_id Found Connecting);
          mret (inl tt)
      end) tt.

Definition try_connect : M SerialSyncController () :=
  self ← get;
  connected ← dial_loop (S (size (peers self)));
  when connected (to_state (ConnectingPeers (c_since self) now)).

(** *** Requesting *)

Definition select_peer_for_request self (request : GetChunksRequest) : outcome (option PeerId) :=
  let segment_index := sector_to_segment (wrap64 (gcr_index_start request + tx_start_chunk_in_flow self)) in
  let ps := filter (λ peer_id, match peer_shard_config (peers self) peer_id with
                               | Some v => in_range v segment_index
                               | None => false
                               end = true) (filter_peers [Connected] (peers self)) in
  if bool_decide (ps = []) then Ok None
  else peer_id ← expect (ps !! Z.to_nat (env_gen_range env (Z.of_nat (length ps)))); Ok (Some peer_id).

Definition try_request_next : M SerialSyncController () :=
  self ← get;
  if (0 <? max_bandwidth_bytes (c_config self)) && (max_bandwidth_bytes (c_config self) <? env_bandwidth env)
  then to_state (AwaitingDownload (now + bandwidth_wait_timeout (c_config self)))
  else
    let from_chunk := next_chunk self in
    let to_chunk := Z.min (wrap64 (from_chunk + PORA_CHUNK_SIZE)) (index_end (goal self)) in
    let committed_tx_seq := Z.max 0 (cs_next_tx_seq (store self) - 1) in
    let request := GetChunksRequest_mk (tx_id self) from_chunk to_chunk committed_tx_seq in
    o ← lift (select_peer_for_request self request);
    match o with
    | None => to_state Idle
    | Some peer_id =>
        _ ← ctx_send (SendRequest peer_id (tx_id self) request);
        to_state (Downloading peer_id from_chunk to_chunk now)
    end.

Definition ban_peer (peer_id : PeerId) (reason : string) : M SerialSyncController () :=
  _ ← ctx_ban_peer peer_id reason;
  _ ← on_peers (update_state now peer_id Connected Disconnecting);
  mret tt.

Definition handle_response_failure (peer_id : PeerId) (reason : string) : M SerialSyncController () :=
  _ ← modify (λ self, set_failures (failures self + 1) self);
  self ← get;
  if failures self <=? max_request_failures (c_config self)
  then to_state (AwaitingDownload (now + peer_next_chunks_request_wait_timeout (c_config self)))
  else _ ← ban_peer peer_id reason; to_state Idle.

(** *** Events *)

Definition on_peer_announced (peer_id : PeerId) (shard_config : ShardConfig) : M SerialSyncController () :=
  _ ← on_peers (add_new_peer_with_config now peer_id multiaddr_empty shard_config);
  _ ← on_peers (update_state_force peer_id Connected);
  mret tt.

Definition on_dial_failed (peer_id : PeerId) (err : DialError) : M SerialSyncController () :=
  match err with
  | ConnectionLimit =>
      r ← on_peers (update_state now peer_id Connecting Found);
      when (bool_decide (r = Some true)) (to_state (AwaitingOutgoingConnection now))
  | OtherDialError =>
      r ← on_peers (update_state now peer_id Connecting Disconnected);
      when (bool_decide (r = Some true)) (to_state Idle)
  end.

Definition on_peer_connected (peer_id : PeerId) : M SerialSyncController () :=
  _ ← on_peers (update_state now peer_id Connecting Connected); mret tt.

Definition on_peer_disconnected (peer_id : PeerId) : M SerialSyncController () :=
  _ ← on_peers (update_state_force peer_id Disconnected); mret tt.

Definition handle_on_response_mismatch (from_peer_id : PeerId) : M SerialSyncController bool :=
  self ← get;
  match state self with
  | Downloading peer_id _ _ _ =>
      if bool_decide (from_peer_id = peer_id) then mret false
      else _ ← ctx_report_peer from_peer_id LowToleranceError "Peer id mismatch"; mret true
  | _ => _ ← ctx_report_peer from_peer_id LowToleranceError "Sync state mismatch"; mret true
  end.

(** The last segment is stored: the file is complete. *)
Definition finish_download : M SerialSyncController () :=
  self ← get;
  if negb (all_chunks (goal self)) then to_state Completed
  else
    r ← on_store_ (attempt (cs_finalize_tx_with_hash (id_seq (tx_id self)) (id_hash (tx_id self))));
    match r with
    | inl true => _ ← to_state Completed; ctx_send (AnnounceLocalFile (tx_id self))
    | inl false => to_state (Failed (TxReverted (tx_id self)))
    | inr err => to_state (Failed (DBError err))
    end.

Definition store_response (from_chunk : Z) (chunks : ChunkArray) : M SerialSyncController () :=
  _ ← modify (set_failures 0);
  self ← get;
  let shard_config := cs_shard_config (store self) in
  let next := segment_to_sector (next_segment_index shard_config (sector_to_segment from_chunk)
                (sector_to_segment (tx_start_chunk_in_flow self))) in
  r ← on_store_ (attempt (cs_put_chunks_with_tx_hash (id_seq (tx_id self)) (id_hash (tx_id self)) chunks None));
  match r with
  | inl true =>
      _ ← modify (set_next_chunk next);
      if next <? index_end (goal self) then to_state Idle else finish_download
  | inl false => to_state (Failed (TxReverted (tx_id self)))
  | inr err => to_state (Failed (DBError err))
  end.

Definition on_response (from_peer_id : PeerId) (response : ChunkArrayWithProof) : M SerialSyncController () :=
  mismatch ← handle_on_response_mismatch from_peer_id;
  if (mismatch : bool) then mret tt
  else
    self ← get;
    match state self with
    | Downloading _ from_chunk to_chunk _ =>
        let data_len := blen (ca_data (cap_chunks response)) in
        if (data_len =? 0) || (0 <? data_len `mod` ENTRY_SIZE) then
          _ ← ban_peer from_peer_id "Invalid chunk response data length";
          to_state Idle
        else
          let start := start_index (cap_chunks response) in
          let end_ := wrap64 (start + data_len / ENTRY_SIZE) in
          if negb (start =? from_chunk) || negb (end_ =? to_chunk) then
            ctx_report_peer from_peer_id LowToleranceError "Got response with unexpected chunk range"
          else
            r ← on_store_ (attempt (cs_validate_and_insert_range_proof (tx_seq self) response));
            match r with
            | inl true => store_response from_chunk (cap_chunks response)
            | inl false => to_state (AwaitingDownload (now + peer_next_chunks_request_wait_timeout (c_config self)))
            | inr _ => _ ← ban_peer from_peer_id "Chunk array validation failed"; to_state Idle
            end
    | _ => mret tt
    end.

Definition on_request_failed (peer_id : PeerId) : M SerialSyncController () :=
  mismatch ← handle_on_response_mismatch peer_id;
  if (mismatch : bool) then mret tt else handle_response_failure peer_id "RPC Error".

(** *** The state machine *)

(** One iteration of the loop of [transition]; [inr] sets [completed]. *)
Definition transition_step (_ : ()) : M SerialSyncController (() + ()) :=
  self ← get;
  let config := c_config self in
  let continue_ (m : M SerialSyncController ()) : M SerialSyncController (() + ()) := _ ← m; mret (inl tt) in
  match state self with
  | Idle =>
      available ← shards_available [Found; Connecting; Connected];
      continue_ (if (available : bool) then to_state FoundPeers else try_find_peers)
  | FindingPeers _ since =>
      available ← shards_available [Found; Connecting; Connected];
      if (available : bool) then continue_ (to_state FoundPeers)
      else
        _ ← when (peer_find_timeout config <=? elapsed now since)
              (if all_chunks (goal self) && neighbors_only config then to_state (Failed TimeoutFindFile) else try_find_peers);
        mret (inr tt)
  | FoundPeers =>
      available ← shards_available [Connecting; Connected];
      continue_ (if (available : bool) then to_state (ConnectingPeers (c_since self) now) else try_connect)
  | ConnectingPeers _ _ =>
      connected ← shards_available [Connected];
      if (connected : bool) then continue_ (to_state (AwaitingDownload now))
      else
        available ← shards_available [Connecting; Connected];
        if (available : bool) then mret (inr tt) else continue_ (to_state Idle)
  | AwaitingOutgoingConnection since =>
      if elapsed now since <? peer_wait_outgoing_connection_timeout config then mret (inr tt)
      else continue_ (to_state Idle)
  | AwaitingDownload since =>
      if now <? since then mret (inr tt) else continue_ try_request_next
  | Downloading peer_id _ _ since =>
      if negb (bool_decide (peer_state (peers self) peer_id = Some Connected)) then continue_ (to_state Idle)
      else if peer_chunks_download_timeout config <=? elapsed now since
           then continue_ (handle_response_failure peer_id "RPC timeout")
           else mret (inr tt)
  | Completed | Failed _ => mret (inr tt)
  end.

(** The fuel of seven rounds is enough when the timeouts are positive. *)
Definition transition : M SerialSyncController () :=
  _ ← peers_transition;
  loop 7 transition_step tt.

End call.

End controller.
