(* ===== verification/SyncControllerFacts.v ===== *)
(** What the parts of a download do: which peers cover the file, that dialling
    them ends, and that the state machine comes to rest. *)

From stdpp Require Import sorting list_numbers.
From S2P Require Import Prelude HashElement Ssz MerkleProof NodeStore AppendMerkle Bytes FlowDb Shard MerkleLight SharedTypes.
From S2P Require Import Seal ChunkData SealInfo EntryBatch Serde FlowStore TxStore LogManager.
From S2P Require Import FileLocationCache FileCacheTheorems SyncController.
Local Open Scope Z_scope.

(** ** Peers *)

Section peers.
Context {PeerId Multiaddr : Type} `{Countable PeerId}.
Local Abbreviation Peers := (gmap PeerId (PeerInfo Multiaddr)).
Implicit Types (ps : Peers) (states : list PeerState) (p : PeerId) (i : PeerInfo Multiaddr).

(** The numbers of a configuration are of type [usize]. *)
Definition config_typed (c : ShardConfig) : Prop := 0 ≤ shard_id c ∧ num_shard c < 2 ^ 64.

Definition peers_ok ps : Prop := ∀ p i, ps !! p = Some i → config_typed (pi_shard_config i).

(** Every segment is in the valid shard of a peer in one of the states. *)
Definition peers_cover states ps : Prop :=
  ∀ segment, 0 ≤ segment → ∃ p i, ps !! p = Some i ∧ pi_state i ∈ states ∧
    valid_in_range (pi_shard_config i) segment = true.

Lemma elem_filter_peers states ps p : p ∈ filter_peers states ps ↔ ∃ i, ps !! p = Some i ∧ pi_state i ∈ states.
Proof.
  unfold filter_peers. rewrite list_elem_of_fmap. split.
  - intros ([p' i] & -> & [Hst Hin]%list_elem_of_filter). apply elem_of_map_to_list in Hin. by exists i.
  - intros (i & Hp & Hst). exists (p, i). split; [done|]. apply list_elem_of_filter. split; [done|]. by apply elem_of_map_to_list.
Qed.

Lemma available_run states ps : peers_ok ps →
  ∃ b, peers_all_shards_available states ps = Ok b ∧ (b = true ↔ peers_cover states ps).
Proof.
  intros Hok. set (cfg_of := λ p, default shard_default (pi_shard_config <$> ps !! p)). unfold peers_all_shards_available.
  assert (mapM (λ p, expect (pi_shard_config <$> ps !! p)) (filter_peers states ps) = Ok (cfg_of <$> filter_peers states ps)) as ->.
  { assert (∀ l, (∀ p, p ∈ l → is_Some (ps !! p)) → mapM (λ p, expect (pi_shard_config <$> ps !! p)) l = Ok (cfg_of <$> l)) as Hm.
    { induction l as [|p l IH]; intros Hl; [done|]. destruct (Hl p) as [i Hi]; [by left|]. cbn [mapM]. rewrite Hi. cbn [fmap option_fmap option_map expect].
      rewrite bind_Ok, IH, bind_Ok by (intros; apply Hl; by right). cbn. unfold cfg_of at 2. by rewrite Hi. }
    apply Hm. intros p (i & Hi & _)%elem_filter_peers. by eexists. }
  rewrite bind_Ok. destruct (all_shards_loop_spec (seg_new 1) (cfg_of <$> filter_peers states ps)) as (b & Hb & Hiff); [done|done| |].
  { apply Forall_fmap, Forall_forall. intros p (i & Hi & _)%elem_filter_peers. unfold compose, cfg_of. rewrite Hi. by eapply Hok. }
  exists b. split; [done|]. rewrite Hiff. apply forall_proper. intros segment. apply forall_proper. intros _. cbn. rewrite existsb_exists. split.
  - intros (c & Hc & Hv). apply list_elem_of_In, list_elem_of_fmap in Hc as (p & -> & (i & Hi & Hst)%elem_filter_peers).
    exists p, i. split_and!; [done|done|]. revert Hv. unfold cfg_of. by rewrite Hi.
  - intros (p & i & Hi & Hst & Hr). exists (cfg_of p). split; [|unfold cfg_of; by rewrite Hi].
    apply list_elem_of_In, list_elem_of_fmap. exists p. split; [done|]. apply elem_filter_peers. by exists i.
Qed.

(** Peers move on: none disappears, and one that was found may be dialled. *)
Definition moved ps ps' : Prop :=
  ∀ p i, ps !! p = Some i → ∃ i', ps' !! p = Some i' ∧ pi_shard_config i' = pi_shard_config i ∧
    (pi_state i' = pi_state i ∨ pi_state i = Found ∧ pi_state i' = Connecting).

Lemma moved_refl ps : moved ps ps.
Proof. intros p i Hi. exists i. auto. Qed.

Lemma moved_trans ps1 ps2 ps3 : moved ps1 ps2 → moved ps2 ps3 → moved ps1 ps3.
Proof.
  intros H12 H23 p i Hi. destruct (H12 p i Hi) as (i2 & Hi2 & Hc2 & Hs2), (H23 p i2 Hi2) as (i3 & Hi3 & Hc3 & Hs3).
  exists i3. split_and!; [done|congruence|]. destruct Hs2 as [Hs2|[Hf Hs2]], Hs3 as [Hs3|[Hf' Hs3]]; rewrite Hs2 in *; auto.
Qed.

Lemma peers_cover_moved states ps ps' : moved ps ps' → Connecting ∈ states ∨ Found ∉ states → peers_cover states ps → peers_cover states ps'.
Proof.
  intros Hm Hst Hcov segment Hs. destruct (Hcov segment Hs) as (p & i & Hi & Hin & Hr). destruct (Hm p i Hi) as (i' & Hi' & Hc & Hs').
  exists p, i'. rewrite Hc. split_and!; [done| |done]. destruct Hs' as [->|[Hf ->]]; [done|]. rewrite Hf in Hin. tauto.
Qed.

Lemma peers_cover_mono states states' ps : (∀ st, st ∈ states → st ∈ states' ∨ ∀ p i, ps !! p = Some i → pi_state i ≠ st) →
  peers_cover states ps → peers_cover states' ps.
Proof.
  intros Hsub Hcov segment Hs. destruct (Hcov segment Hs) as (p & i & Hi & Hin & Hr). exists p, i. split_and!; [done| |done].
  destruct (Hsub _ Hin) as [?|Hno]; [done|]. by destruct (Hno p i Hi).
Qed.

Definition num_found ps : nat := size (filter (λ q : PeerId * PeerInfo Multiaddr, pi_state q.2 = Found) ps).

Lemma num_found_size ps : (num_found ps ≤ size ps)%nat.
Proof. apply map_subseteq_size, map_filter_subseteq. Qed.

(** Dialling a peer that was found. *)
Lemma dial_found now ps p i : ps !! p = Some i → pi_state i = Found → peers_ok ps →
  let ps' := <[p := info_update_state now Connecting i]> ps in
  moved ps ps' ∧ peers_ok ps' ∧ (num_found ps' < num_found ps)%nat.
Proof.
  intros Hi Hf Hok. cbn. split_and!.
  - intros p' j Hj. destruct (decide (p' = p)) as [->|Hne].
    + rewrite lookup_insert_eq. assert (j = i) as -> by congruence. eexists. split_and!; [done|done|]. by right.
    + rewrite lookup_insert_ne by done. exists j. auto.
  - intros p' j [[<- <-]|[_ Hj]]%lookup_insert_Some; [exact (Hok p i Hi)|by eapply Hok].
  - unfold num_found. rewrite map_filter_insert_False by done. rewrite map_filter_delete.
    assert (filter (λ q : PeerId * PeerInfo Multiaddr, pi_state q.2 = Found) ps !! p = Some i) as Hp by (by apply map_lookup_filter_Some).
    rewrite map_size_delete_Some by (by eexists).
    assert (size (filter (λ q : PeerId * PeerInfo Multiaddr, pi_state q.2 = Found) ps) ≠ 0)%nat; [|lia]. by eapply map_size_ne_0_lookup_2.
Qed.

Lemma random_peer_spec pick state ps : (∀ l, match pick l with Some x => x ∈ l | None => l = [] end) →
  match random_peer pick state ps with
  | Some (p, a) => ∃ i, ps !! p = Some i ∧ pi_state i = state
  | None => ∀ p i, ps !! p = Some i → pi_state i ≠ state
  end.
Proof.
  intros Hpick. unfold random_peer. specialize (Hpick ((λ q, (q.1, pi_addr q.2)) <$> filter (λ q : PeerId * PeerInfo Multiaddr, pi_state q.2 = state) (map_to_list ps))).
  destruct (pick _) as [[p a]|].
  - apply list_elem_of_fmap in Hpick as ([p' i] & [= -> ->] & [Hst Hin%elem_of_map_to_list]%list_elem_of_filter). by exists i.
  - intros p i Hi Hst. apply fmap_nil_inv in Hpick. assert ((p, i) ∈ filter (λ q : PeerId * PeerInfo Multiaddr, pi_state q.2 = state) (map_to_list ps)) as Hin.
    { apply list_elem_of_filter. split; [done|]. by apply elem_of_map_to_list. }
    rewrite Hpick in Hin. by apply elem_of_nil in Hin.
Qed.

End peers.

(** ** The controller *)

Section controller.
Context {PeerId Multiaddr PQ FQ : Type} `{Countable PeerId}.
Context `{!PriorityQueue PeerId PQ, !PriorityQueue TxID FQ, !MultiaddrOps PeerId Multiaddr}.
Context `{!PriorityQueueLaws PeerId PQ, !PriorityQueueLaws TxID FQ}.
Context {St : Type} `{!ChunkStore St}.
Local Abbreviation Cache := (FileLocationCache (PeerId := PeerId) (Multiaddr := Multiaddr) (PQ := PQ) (FQ := FQ)).
Local Abbreviation Controller := (SerialSyncController (PeerId := PeerId) (Multiaddr := Multiaddr) (PQ := PQ) (FQ := FQ) (St := St)).
Implicit Types (self : Controller) (c : Cache) (p : PeerId) (env : Env PeerId Multiaddr).

(** What the random choices promise. *)
Definition env_ok env : Prop :=
  (∀ l, match env_pick env l with Some x => x ∈ l | None => l = [] end) ∧ ∀ n, 0 < n → 0 ≤ env_gen_range env n < n.

(** The timeouts that have to be positive for [transition] to rest. *)
Definition timeouts_ok (cfg : SyncConfig) : Prop :=
  0 < peer_find_timeout cfg ∧ 0 < peer_chunks_download_timeout cfg ∧
  0 < peer_next_chunks_request_wait_timeout cfg ∧ 0 < bandwidth_wait_timeout cfg.

(** The cache of locations is one that its operations built. *)
Definition location_ok c : Prop :=
  (∃ cfg seen, 0 < max_entries_per_file cfg ∧ 0 ≤ max_entries_total cfg ∧ flc_ok cfg seen (flc_cache c)) ∧
  ∀ p s, peer_cache c !! p = Some s → config_typed s.

Record ctrl_ok self : Prop := {
  co_peers : peers_ok (peers self);
  co_cache : location_ok (file_location_cache self);
}.

(** What [transition] and the events about peers do not change; a download is
    not completed by them. *)
Record frame self self' : Prop := {
  fr_config : c_config self' = c_config self;
  fr_tx_id : tx_id self' = tx_id self;
  fr_tx_start : tx_start_chunk_in_flow self' = tx_start_chunk_in_flow self;
  fr_since : c_since self' = c_since self;
  fr_goal : goal self' = goal self;
  fr_next : next_chunk self' = next_chunk self;
  fr_store : store self' = store self;
  fr_completed : state self' = Completed → state self = Completed;
}.

Lemma frame_refl self : frame self self.
Proof. done. Qed.

Lemma frame_trans self1 self2 self3 : frame self1 self2 → frame self2 self3 → frame self1 self3.
Proof. intros [] []. split; [congruence..|auto]. Qed.

(** The peers stay as they are. *)
Definition keeps self self' : Prop := frame self self' ∧ peers self' = peers self ∧ ctrl_ok self'.

Lemma wp_available states self (Q : bool → Controller → Prop) : ctrl_ok self →
  (∀ b, (b = true ↔ peers_cover states (peers self)) → Q b self) → wp (shards_available states) Q self.
Proof.
  intros [Hok _] HQ. destruct (available_run states (peers self) Hok) as (b & Hb & Hiff). unfold wp, shards_available, gets_ok.
  rewrite Hb. by apply HQ.
Qed.

Lemma wp_location_cache {A} (m : M Cache A) (Q : A → Controller → Prop) self :
  wp m (λ a c, Q a (set_file_location_cache c self)) (file_location_cache self) → wp (on_location_cache m) Q self.
Proof. apply wp_zoom. Qed.

Lemma wp_on_peers {A} (f : gmap PeerId (PeerInfo Multiaddr) → A * gmap PeerId (PeerInfo Multiaddr)) (Q : A → Controller → Prop) self :
  Q (f (peers self)).1 (set_peers (f (peers self)).2 self) → wp (on_peers f) Q self.
Proof. unfold wp, on_peers. by destruct (f (peers self)). Qed.

(** *** The cache of locations *)

Lemma wp_get_all now t c : location_ok c → wp (get_all now t) (λ l c', location_ok c' ∧ peer_cache c' = peer_cache c) c.
Proof.
  intros [(cfg & seen & Hper & Htot & Hok) Hcfg]. unfold get_all. apply wp_bind, wp_zoom.
  eapply wp_mono; [apply (wp_fc_all cfg), Hok|]. intros o cc' [Hsh _]. apply wp_ret. split; [split|done]; [|done].
  exists cfg, seen. split_and!; [done|done|]. by eapply flc_ok_shrinks.
Qed.

Lemma wp_flc_remove t p c : location_ok c → wp (flc_remove t p) (λ _ c', location_ok c' ∧ peer_cache c' = peer_cache c) c.
Proof.
  intros [(cfg & seen & Hper & Htot & Hok) Hcfg]. unfold flc_remove. apply wp_zoom.
  eapply wp_mono; [apply (wp_fc_remove cfg), Hok|]. intros o cc' [Hsh _]. split; [split|done]; [|done].
  exists cfg, seen. split_and!; [done|done|]. by eapply flc_ok_shrinks.
Qed.

(** *** Peers that do not respond *)

Lemma lookup_delete_all (ps : gmap PeerId (PeerInfo Multiaddr)) bad p i :
  foldl (λ ps p, delete p ps) ps bad !! p = Some i ↔ ps !! p = Some i ∧ p ∉ bad.
Proof.
  revert ps. induction bad as [|q bad IH]; intros ps; cbn; [set_solver|]. rewrite IH, lookup_delete_Some. set_solver.
Qed.

(** Connected peers stay. *)
Lemma wp_peers_transition env self : ctrl_ok self →
  wp (peers_transition env) (λ _ self', frame self self' ∧ ctrl_ok self' ∧ state self' = state self ∧
    ∀ p i, peers self !! p = Some i → pi_state i = Connected → peers self' !! p = Some i) self.
Proof.
  intros Hok. unfold peers_transition. apply wp_bind, wp_get. apply wp_bind.
  set (dropped := λ bad : list PeerId, ∀ p, p ∈ bad → ∃ i, peers self !! p = Some i ∧ pi_state i ≠ Connected).
  eapply (wp_fold_for _ _ _ (λ _ bad s, (keeps self s ∧ state s = state self) ∧ dropped bad)).
  - split; [split; [by split|done]|]. intros p Hp%elem_of_nil. done.
  - intros done [p i] todo bad s Hsplit [[(Hf & Hp & [Hpo Hco]) Hst] Hbad].
    assert (peers self !! p = Some i) as Hi. { apply elem_of_map_to_list. rewrite Hsplit. set_solver. }
    assert (wp (mret bad) (λ b s', (keeps self s' ∧ state s' = state self) ∧ dropped b) s) as Hret by (by apply wp_ret).
    assert (pi_state i ≠ Connected → dropped (bad ++ [p])) as Hadd.
    { intros Hne q [Hq| ->%list_elem_of_singleton]%elem_of_app; [by apply Hbad|by exists i]. }
    assert (pi_state i ≠ Connected → wp (mret (bad ++ [p])) (λ b s', (keeps self s' ∧ state s' = state self) ∧ dropped b) s) as Hret'.
    { intros Hne. apply wp_ret. split; [done|]. by apply Hadd. }
    destruct (pi_state i); [apply Hret| |apply Hret|case_match; auto|auto]. case_match; [|apply Hret].
    apply wp_bind. unfold ctx_report_peer, ctx_send. apply wp_modify, wp_bind, wp_location_cache.
    eapply wp_mono; [by apply wp_flc_remove|]. intros o c' [Hc' _]. apply wp_ret.
    split; [|by apply Hadd]. split; [|done]. split; [|split; [done|by split]]. eapply frame_trans; [done|]. done.
  - intros bad s [[(Hf & Hp & [Hpo Hco]) Hst] Hbad]. apply wp_on_peers. cbn. split; [by eapply frame_trans|]. split; [|split; [done|]].
    + split; [|done]. intros p i [Hi _]%lookup_delete_all. by eapply Hpo.
    + intros p i Hi Hc. apply lookup_delete_all. split; [by rewrite Hp|]. intros (j & Hj & Hne)%Hbad. congruence.
Qed.

(** *** Finding peers *)

Lemma peers_ok_insert (ps : gmap PeerId (PeerInfo Multiaddr)) p i : peers_ok ps → config_typed (pi_shard_config i) → peers_ok (<[p := i]> ps).
Proof. intros Hok Hi p' j [[<- <-]|[_ Hj]]%lookup_insert_Some; [done|by eapply Hok]. Qed.

Lemma add_new_peer_ok now p a cfg (ps : gmap PeerId (PeerInfo Multiaddr)) : peers_ok ps → config_typed cfg →
  peers_ok (add_new_peer_with_config now p a cfg ps).2.
Proof.
  intros Hok Hcfg. unfold add_new_peer_with_config. repeat case_match; cbn; try done; by apply peers_ok_insert.
Qed.

Lemma update_state_ok now p from to (ps : gmap PeerId (PeerInfo Multiaddr)) : peers_ok ps → peers_ok (update_state now p from to ps).2.
Proof.
  intros Hok. unfold update_state. destruct (ps !! p) as [i|] eqn:Hi; [|done]. case_bool_decide; [|done]. cbn.
  apply peers_ok_insert; [done|]. exact (Hok p i Hi).
Qed.

Lemma update_state_force_ok p st (ps : gmap PeerId (PeerInfo Multiaddr)) : peers_ok ps → peers_ok (update_state_force p st ps).2.
Proof.
  intros Hok. unfold update_state_force. destruct (ps !! p) as [i|] eqn:Hi; [|done]. cbn.
  apply peers_ok_insert; [done|]. exact (Hok p i Hi).
Qed.

(** Nothing but the peers, the messages and the cache changes. *)
Definition searches self self' : Prop := frame self self' ∧ ctrl_ok self' ∧ state self' = state self.

Lemma searches_trans self1 self2 self3 : searches self1 self2 → searches self2 self3 → searches self1 self3.
Proof. intros (H1 & _ & Hs1) (H2 & Hok & Hs2). split_and!; [by eapply frame_trans|done|congruence]. Qed.

Lemma wp_on_peer_found env p a self : ctrl_ok self → wp (on_peer_found env p a) (λ _ self', searches self self') self.
Proof.
  intros [Hp Hc]. unfold on_peer_found. apply wp_bind, wp_gets. destruct (get_peer_config _ p) as [cfg|] eqn:Hcfg; [|by apply wp_ret].
  apply wp_on_peers. split_and!; [done| |done]. split; [|done]. apply add_new_peer_ok; [done|]. destruct Hc as [_ Hc]. by eapply Hc.
Qed.

Lemma wp_publish msg self : ctrl_ok self → wp (ctx_publish msg) (λ _ self', searches self self') self.
Proof. intros [Hp Hc]. apply wp_modify. by split_and!. Qed.

Lemma wp_publish_find_file env self : ctrl_ok self → wp (publish_find_file env) (λ _ self', searches self self') self.
Proof.
  intros Hok. unfold publish_find_file. apply wp_bind, wp_get, wp_bind, wp_location_cache.
  eapply wp_mono; [apply wp_get_all, Hok|]. intros l c' [Hc' _]. apply wp_bind.
  apply (wp_fold_for _ _ _ (λ _ _ s, searches self s)).
  - split_and!; [done| |done]. split; [apply Hok|done].
  - intros done a todo n s _ Hs. pose proof Hs as (_ & Hok' & _). apply wp_bind. eapply wp_mono; [by apply wp_on_peer_found|].
    intros b s' Hs'. apply wp_ret. by eapply searches_trans.
  - intros n s Hs. pose proof Hs as (_ & Hok' & _).
    assert (wp (do_publish_find_file ≫= λ _, mret (true, n)) (λ _ self', searches self self') s) as Hpub.
    { apply wp_bind. unfold do_publish_find_file. apply wp_bind, wp_get. eapply wp_mono; [by apply wp_publish|].
      intros [] s' Hs'. apply wp_ret. by eapply searches_trans. }
    apply wp_bind. case_match.
    + apply wp_available; [done|]. intros [] _; [by apply wp_ret|done].
    + by apply wp_ret.
Qed.

Lemma wp_try_find_peers env self : ctrl_ok self →
  wp (try_find_peers env) (λ _ self', frame self self' ∧ ctrl_ok self' ∧ state self' = FindingPeers (c_since self) (env_now env)) self.
Proof.
  intros Hok. unfold try_find_peers. apply wp_bind, wp_get, wp_bind.
  assert (∀ s, searches self s → wp (to_state (FindingPeers (c_since self) (env_now env)))
    (λ _ self', frame self self' ∧ ctrl_ok self' ∧ state self' = FindingPeers (c_since self) (env_now env)) s) as Hend.
  { intros s (Hf & [Hp Hc] & _). apply wp_modify. split_and!; [by eapply frame_trans|done|done]. }
  case_match; [|case_match].
  - apply wp_bind. unfold publish_find_chunks. apply wp_bind, wp_get. eapply wp_mono; [by apply wp_publish|]. intros [] s Hs. apply wp_ret. auto.
  - apply wp_bind. unfold do_publish_find_file. apply wp_bind, wp_get. eapply wp_mono; [by apply wp_publish|]. intros [] s Hs. apply wp_ret. auto.
  - eapply wp_mono; [by apply wp_publish_find_file|]. auto.
Qed.

(** *** Connecting *)

Lemma wp_dial_loop env fuel self : env_ok env → ctrl_ok self → (num_found (peers self) < fuel)%nat →
  wp (dial_loop env fuel) (λ b self', frame self self' ∧ ctrl_ok self' ∧ moved (peers self) (peers self') ∧
    if b then peers_cover [Connecting; Connected] (peers self') ∧ state self' = state self
    else ¬ peers_cover [Found; Connecting; Connected] (peers self) ∧ state self' = Idle) self.
Proof.
  intros [Hpick _]. revert self. induction fuel as [|fuel IH]; intros self Hok Hn; [lia|]. unfold dial_loop. cbn [loop].
  apply wp_bind, wp_bind, wp_available; [done|]. intros [] Hiff.
  { apply wp_ret, wp_ret. split_and!; [done|done|apply moved_refl|by apply Hiff|done]. }
  apply wp_bind, wp_gets. pose proof (random_peer_spec (env_pick env) Found (peers self) Hpick) as Hrnd.
  destruct (random_peer (env_pick env) Found (peers self)) as [[p a]|].
  - destruct Hrnd as (i & Hi & Hst). apply wp_bind. unfold ctx_send. apply wp_modify, wp_bind, wp_on_peers. cbn [peers set_ctx].
    unfold update_state. rewrite Hi, bool_decide_true by done. cbn [fst snd]. apply wp_ret.
    destruct (dial_found (env_now env) (peers self) p i Hi Hst (co_peers _ Hok)) as (Hmv & Hpo & Hlt).
    eapply wp_mono; [apply IH|].
    + split; [done|apply Hok].
    + cbn. lia.
    + intros b self' (Hf & Hok' & Hmv' & Hb). split_and!; [eapply frame_trans; [|exact Hf]; done|done|by eapply moved_trans|].
      destruct b; [done|]. destruct Hb as [Hnc Hs]. split; [|done]. intros Hcov. apply Hnc. eapply peers_cover_moved; [done|left; set_solver|done].
  - apply wp_bind. unfold to_state. apply wp_modify, wp_ret, wp_ret. split_and!; [done|by split; apply Hok|apply moved_refl| |done].
    intros Hcov. assert (peers_cover [Connecting; Connected] (peers self)) as Hc; [|apply Hiff in Hc; done].
    eapply peers_cover_mono; [|done]. intros st Hin. destruct (decide (st = Found)) as [->|]; [by right|left; set_solver].
Qed.

Lemma wp_try_connect env self : env_ok env → ctrl_ok self →
  wp (try_connect env) (λ _ self', frame self self' ∧ ctrl_ok self' ∧
    (state self' = ConnectingPeers (c_since self) (env_now env) ∧ peers_cover [Connecting; Connected] (peers self') ∨
     state self' = Idle ∧ ¬ peers_cover [Found; Connecting; Connected] (peers self))) self.
Proof.
  intros Henv Hok. unfold try_connect. apply wp_bind, wp_get, wp_bind.
  eapply wp_mono; [apply wp_dial_loop; [done|done|pose proof (num_found_size (peers self)); lia]|].
  intros [] self' (Hf & Hok' & Hmv & Hb); cbn [when].
  - apply wp_modify. destruct Hok', Hb. split_and!; [by eapply frame_trans|done|by left].
  - apply wp_ret. split_and!; [done|done|]. right. tauto.
Qed.

(** *** Requesting *)

Lemma select_peer_spec env self request : env_ok env →
  ∃ o, select_peer_for_request env self request = Ok o ∧
    match o with
    | Some p => ∃ i, peers self !! p = Some i ∧ pi_state i = Connected ∧
        in_range (pi_shard_config i) (sector_to_segment (wrap64 (gcr_index_start request + tx_start_chunk_in_flow self))) = true
    | None => ¬ peers_cover [Connected] (peers self)
    end.
Proof.
  intros [_ Hgen]. unfold select_peer_for_request. set (seg := sector_to_segment _).
  assert (0 ≤ seg) as Hseg by (apply Z.div_pos; [apply Z.mod_pos_bound; lia|done]).
  set (l := filter _ (filter_peers [Connected] (peers self))).
  assert (∀ p, p ∈ l ↔ ∃ i, peers self !! p = Some i ∧ pi_state i = Connected ∧ in_range (pi_shard_config i) seg = true) as Hl.
  { intros p. unfold l. rewrite list_elem_of_filter, elem_filter_peers. unfold peer_shard_config. split.
    - intros [Hr (i & Hi & Hst)]. rewrite Hi in Hr. exists i. split_and!; [done|set_solver|done].
    - intros (i & Hi & Hst & Hr). rewrite Hi. split; [done|]. exists i. split; [done|set_solver]. }
  destruct (decide (l = [])) as [Hnil|Hne].
  - rewrite bool_decide_true by done. exists None. split; [done|]. intros Hcov. destruct (Hcov seg Hseg) as (p & i & Hi & Hst & Hr).
    apply (not_elem_of_nil p). rewrite <- Hnil. apply Hl. exists i. split_and!; [done|set_solver|]. unfold valid_in_range in Hr. by case_match.
  - rewrite bool_decide_false by done. assert (0 < length l)%nat by (destruct l; [done|cbn; lia]).
    destruct (Hgen (Z.of_nat (length l))) as [H1 H2]; [lia|].
    destruct (lookup_lt_is_Some_2 l (Z.to_nat (env_gen_range env (Z.of_nat (length l))))) as [q Hq]; [lia|].
    rewrite Hq. cbn [expect]. rewrite bind_Ok. exists (Some q). split; [done|]. apply Hl. by eapply list_elem_of_lookup_2.
Qed.

End controller.

(** * The state machine of a download comes to rest. *)

Section transition.
Context {PeerId Multiaddr PQ FQ : Type} `{Countable PeerId}.
Context `{!PriorityQueue PeerId PQ, !PriorityQueue TxID FQ, !MultiaddrOps PeerId Multiaddr}.
Context `{!PriorityQueueLaws PeerId PQ, !PriorityQueueLaws TxID FQ}.
Context {St : Type} `{!ChunkStore St}.
Local Abbreviation Controller := (SerialSyncController (PeerId := PeerId) (Multiaddr := Multiaddr) (PQ := PQ) (FQ := FQ) (St := St)).
Implicit Types (self : Controller) (p : PeerId) (env : Env PeerId Multiaddr).

(** The range that is being downloaded. *)
Definition dl_ok self : Prop :=
  match state self with
  | Downloading _ from to _ => from = next_chunk self ∧ to = Z.min (wrap64 (from + PORA_CHUNK_SIZE)) (index_end (goal self))
  | _ => True
  end.

(** Nothing can be done before the next event or the next timeout. *)
Definition rests env self : Prop :=
  match state self with
  | Idle | FoundPeers => False
  | Completed | Failed _ => True
  | FindingPeers _ since => ¬ peers_cover [Found; Connecting; Connected] (peers self) ∧
      elapsed (env_now env) since < peer_find_timeout (c_config self)
  | ConnectingPeers _ _ => peers_cover [Connecting; Connected] (peers self) ∧ ¬ peers_cover [Connected] (peers self)
  | AwaitingOutgoingConnection since =>
      elapsed (env_now env) since < peer_wait_outgoing_connection_timeout (c_config self)
  | AwaitingDownload since => env_now env < since
  | Downloading p _ _ since => peer_state (peers self) p = Some Connected ∧
      elapsed (env_now env) since < peer_chunks_download_timeout (c_config self)
  end.

Definition settled env self self' : Prop := frame self self' ∧ ctrl_ok self' ∧ dl_ok self' ∧ rests env self'.

(** A search for peers that has timed out. *)
Definition overdue env self : Prop :=
  ∃ o since, state self = FindingPeers o since ∧ peer_find_timeout (c_config self) ≤ elapsed (env_now env) since.

(** A search that was overdue was repeated.  The call ends with it, even if it
    found all the peers in the cache at once: these are left for the next call. *)
Definition searched env self self' : Prop :=
  frame self self' ∧ ctrl_ok self' ∧ dl_ok self' ∧ overdue env self ∧ ∃ o, state self' = FindingPeers o (env_now env).

Section env.
Variable env : Env PeerId Multiaddr.
Hypothesis Henv : env_ok env.
Local Abbreviation now := (env_now env).

Definition ready self : Prop := ctrl_ok self ∧ dl_ok self ∧ timeouts_ok (c_config self).

Definition runs (n : nat) self : Prop := wp (loop n (transition_step env) tt) (λ _ self', settled env self self') self.

Lemma runs_step n self :
  wp (transition_step env tt) (λ r self1, match r with inl _ => frame self self1 ∧ runs n self1 | inr _ => settled env self self1 end) self →
  runs (S n) self.
Proof.
  intros Hw. unfold runs. cbn [loop]. apply wp_bind. eapply wp_mono; [exact Hw|]. intros [[]|[]] self1.
  - intros [Hf Hr]. eapply wp_mono; [exact Hr|]. intros [] self' (Hf' & Hrest). split; [by eapply frame_trans|done].
  - intros Hs. by apply wp_ret.
Qed.

Lemma ready_step self self1 : ready self → frame self self1 → ctrl_ok self1 → dl_ok self1 → ready self1.
Proof. intros (_ & _ & Ht) Hf Hok Hd. split_and!; [done|done|by rewrite (fr_config _ _ Hf)]. Qed.

Lemma settled_self self : ready self → rests env self → settled env self self.
Proof. intros (Hok & Hd & _) Hr. by split_and!. Qed.

Lemma ready_to_state st self : ready self → (∀ p f t s, st ≠ Downloading p f t s) → ready (set_state st self).
Proof. intros ([Hp Hc] & Hd & Ht) Hst. split_and!; [by split| |done]. unfold dl_ok. cbn. destruct st; try done. by edestruct Hst. Qed.

Lemma elapsed_now z : 0 < z → elapsed now now < z.
Proof. unfold elapsed. lia. Qed.

(** *** From each state *)

Lemma runs_waiting n self since : ready self → state self = AwaitingDownload since → now < since → runs (1 + n) self.
Proof.
  intros Hr Hst Hlt. apply runs_step. unfold transition_step. apply wp_bind, wp_get. rewrite Hst.
  rewrite (proj2 (Z.ltb_lt _ _) Hlt). apply wp_ret. apply settled_self; [done|]. unfold rests. by rewrite Hst.
Qed.

Lemma runs_downloading n self p f t since : ready self → state self = Downloading p f t since →
  peer_state (peers self) p = Some Connected → elapsed now since < peer_chunks_download_timeout (c_config self) → runs (1 + n) self.
Proof.
  intros Hr Hst Hp Hlt. apply runs_step. unfold transition_step. apply wp_bind, wp_get. rewrite Hst.
  rewrite bool_decide_true by done. cbn [negb]. rewrite (proj2 (Z.leb_gt _ _) Hlt). apply wp_ret. apply settled_self; [done|].
  unfold rests. by rewrite Hst.
Qed.

(** The next request, if a peer has the segment. *)
Lemma wp_try_request_next self : ready self → (∃ since, state self = AwaitingDownload since) →
  wp (try_request_next env) (λ _ self', frame self self' ∧ ready self' ∧
    ((∃ since, state self' = AwaitingDownload since ∧ now < since) ∨
     (∃ p f t, state self' = Downloading p f t now ∧ peer_state (peers self') p = Some Connected) ∨
     state self' = Idle ∧ ¬ peers_cover [Connected] (peers self))) self.
Proof.
  intros Hr [since Hst]. pose proof Hr as (Hok & _ & Ht). unfold try_request_next. apply wp_bind, wp_get. case_match.
  { apply wp_modify. split; [done|]. split; [by apply ready_to_state|]. left. eexists. split; [done|]. destruct Ht as (_ & _ & _ & Hb). lia. }
  set (req := GetChunksRequest_mk _ _ _ _). apply wp_bind.
  destruct (select_peer_spec env self req Henv) as (o & Ho & Hsel).
  eapply wp_lift; [done|]. destruct o as [p|].
  - apply wp_bind. unfold ctx_send, to_state. apply wp_modify, wp_modify. split; [done|]. split.
    + destruct Hok. split_and!; [done|done|done].
    + right. left. eexists _, _, _. split; [done|]. destruct Hsel as (i & Hi & Hc & _).
      unfold peer_state. cbn. by rewrite Hi, <- Hc.
  - apply wp_modify. split; [done|]. split; [by apply ready_to_state|]. right. right. done.
Qed.

(** After a step that leaves the state machine ready. *)
Lemma wp_continue (m : M Controller ()) n self :
  wp m (λ _ self1, frame self self1 ∧ runs n self1) self →
  wp (_ ← m; mret (inl tt) : M Controller (() + ())) (λ r self1, match r with inl _ => frame self self1 ∧ runs n self1 | inr _ => settled env self self1 end) self.
Proof. intros Hw. apply wp_bind. eapply wp_mono; [exact Hw|]. intros [] self1 Hr. by apply wp_ret. Qed.

Lemma wp_goto st n self : st ≠ Completed → runs n (set_state st self) → wp (to_state st) (λ _ self1, frame self self1 ∧ runs n self1) self.
Proof. intros Hst Hr. by apply wp_modify. Qed.

Lemma runs_request n self : ready self → (∃ since, state self = AwaitingDownload since) →
  (¬ peers_cover [Connected] (peers self) → ∀ self1, ready self1 → state self1 = Idle → runs (1 + n) self1) →
  runs (2 + n) self.
Proof.
  intros Hr [since Hst] Hidle. apply runs_step. unfold transition_step. apply wp_bind, wp_get. rewrite Hst. case_match eqn:Hnow.
  { apply wp_ret, settled_self; [done|]. unfold rests. rewrite Hst. lia. }
  apply wp_continue. eapply wp_mono; [apply wp_try_request_next; [done|by eexists]|].
  intros [] self1 (Hf & Hr1 & [(s1 & Hs1 & Hlt)|[(p & f & t & Hs1 & Hp)|[Hs1 Hnc]]]); (split; [done|]).
  - by eapply runs_waiting.
  - eapply runs_downloading; [done..|]. apply elapsed_now. apply Hr1.
  - by apply Hidle.
Qed.

Lemma runs_await n self since : ready self → state self = AwaitingDownload since → peers_cover [Connected] (peers self) → runs (2 + n) self.
Proof. intros Hr Hst Hcov. apply runs_request; [done|by eexists|]. by intros []. Qed.

Lemma runs_connecting n self o since : ready self → state self = ConnectingPeers o since →
  peers_cover [Connecting; Connected] (peers self) → runs (3 + n) self.
Proof.
  intros Hr Hst Hcov. pose proof Hr as (Hok & _). apply runs_step. unfold transition_step. apply wp_bind, wp_get. rewrite Hst.
  apply wp_bind, wp_available; [done|]. intros [] Hiff.
  - apply wp_continue, wp_goto; [done|]. apply (runs_await n _ now); [by apply ready_to_state|done|]. cbn. by apply Hiff.
  - apply wp_bind, wp_available; [done|]. intros [] Hiff'; [|by apply Hiff' in Hcov]. apply wp_ret, settled_self; [done|].
    unfold rests. rewrite Hst. split; [done|]. intros Hc. by apply Hiff in Hc.
Qed.

Lemma runs_found n self : ready self → state self = FoundPeers → peers_cover [Found; Connecting; Connected] (peers self) → runs (4 + n) self.
Proof.
  intros Hr Hst Hcov. pose proof Hr as (Hok & _). apply runs_step. unfold transition_step. apply wp_bind, wp_get. rewrite Hst.
  apply wp_bind, wp_available; [done|]. intros [] Hiff; apply wp_continue.
  - apply wp_goto; [done|]. eapply runs_connecting; [by apply ready_to_state|done|]. cbn. by apply Hiff.
  - eapply wp_mono; [by apply wp_try_connect|]. intros [] self1 (Hf & Hok1 & [[Hs1 Hc1]|[_ Hnc]]); [|done]. split; [done|].
    eapply runs_connecting; [|done|done]. eapply ready_step; [done..|]. unfold dl_ok. by rewrite Hs1.
Qed.

Lemma runs_finding n self o : ready self → state self = FindingPeers o now → runs (5 + n) self.
Proof.
  intros Hr Hst. pose proof Hr as (Hok & _ & Ht & _). apply runs_step. unfold transition_step. apply wp_bind, wp_get. rewrite Hst.
  apply wp_bind, wp_available; [done|]. intros [] Hiff.
  - apply wp_continue, wp_goto; [done|]. apply runs_found; [by apply ready_to_state|done|]. cbn. by apply Hiff.
  - apply wp_bind. rewrite (proj2 (Z.leb_gt _ _)) by (by apply elapsed_now). apply wp_ret, wp_ret, settled_self; [done|].
    unfold rests. rewrite Hst. split; [intros Hc; by apply Hiff in Hc|by apply elapsed_now].
Qed.

Lemma runs_idle n self : ready self → state self = Idle → runs (6 + n) self.
Proof.
  intros Hr Hst. pose proof Hr as (Hok & _). apply runs_step. unfold transition_step. apply wp_bind, wp_get. rewrite Hst.
  apply wp_bind, wp_available; [done|]. intros [] Hiff; apply wp_continue.
  - apply wp_goto; [done|]. apply (runs_found (1 + n)); [by apply ready_to_state|done|]. cbn. by apply Hiff.
  - eapply wp_mono; [by apply wp_try_find_peers|]. intros [] self1 (Hf & Hok1 & Hs1). split; [done|].
    eapply runs_finding; [|done]. eapply ready_step; [done..|]. unfold dl_ok. by rewrite Hs1.
Qed.

(** *** Other states in which a call may find the controller *)

Lemma wp_ban_peer p reason self : ctrl_ok self →
  wp (ban_peer env p reason) (λ _ self', searches self self' ∧ failures self' = failures self) self.
Proof.
  intros [Hp Hc]. unfold ban_peer. apply wp_bind. unfold ctx_ban_peer, ctx_send. apply wp_modify, wp_bind, wp_on_peers, wp_ret.
  split; [|done]. split_and!; [done| |done]. split; [|done]. by apply update_state_ok.
Qed.

Lemma wp_failure p reason self : ready self →
  wp (handle_response_failure env p reason) (λ _ self', frame self self' ∧ ready self' ∧
    (state self' = Idle ∨ ∃ since, state self' = AwaitingDownload since ∧ now < since)) self.
Proof.
  intros (Hok & Hd & Ht). unfold handle_response_failure. apply wp_bind, wp_modify, wp_bind, wp_get. case_match.
  - apply wp_modify. split; [done|]. split; [split_and!; [by destruct Hok|done|done]|]. right. eexists. split; [done|].
    destruct Ht as (_ & _ & Hw & _). cbn. lia.
  - apply wp_bind. eapply wp_mono; [apply wp_ban_peer; by destruct Hok|]. intros [] self1 [(Hf & [Hp Hc] & _) _]. apply wp_modify.
    split; [eapply frame_trans; [|eapply frame_trans; [exact Hf|]]; done|]. split; [|by left].
    split_and!; [done|done|]. cbn. by rewrite (fr_config _ _ Hf).
Qed.

Lemma runs_any n self : ready self → ¬ overdue env self → runs (7 + n) self.
Proof.
  intros Hr Hnot. pose proof Hr as (Hok & Hd & Ht). apply runs_step. unfold transition_step. apply wp_bind, wp_get.
  assert (∀ self1, ready self1 → state self1 = Idle → runs (6 + n) self1) as Hidle by (intros; by apply runs_idle).
  assert (rests env self → wp (mret (inr tt) : M Controller (() + ())) (λ r self1, match r with inl _ => frame self self1 ∧ runs (6 + n) self1
    | inr _ => settled env self self1 end) self) as Hstop by (intros; by apply wp_ret, settled_self).
  unfold rests in Hstop. destruct (state self) as [|o since| |o since|since|since|p f t since| |reason] eqn:Hst.
  - apply wp_bind, wp_available; [done|]. intros [] Hiff; apply wp_continue.
    + apply wp_goto; [done|]. apply (runs_found (2 + n)); [by apply ready_to_state|done|]. by apply Hiff.
    + eapply wp_mono; [by apply wp_try_find_peers|]. intros [] self1 (Hf & Hok1 & Hs1). split; [done|].
      eapply (runs_finding (1 + n)); [|done]. eapply ready_step; [done..|]. unfold dl_ok. by rewrite Hs1.
  - apply wp_bind, wp_available; [done|]. intros [] Hiff.
    + apply wp_continue, wp_goto; [done|]. apply (runs_found (2 + n)); [by apply ready_to_state|done|]. by apply Hiff.
    + apply wp_bind, wp_when; intros Hto; [exfalso; apply Hnot; exists o, since; split; [done|lia]|].
      apply Hstop. split; [intros Hc; by apply Hiff in Hc|lia].
  - apply wp_bind, wp_available; [done|]. intros [] Hiff; apply wp_continue.
    + apply wp_goto; [done|]. eapply (runs_connecting (3 + n)); [by apply ready_to_state|done|]. by apply Hiff.
    + eapply wp_mono; [by apply wp_try_connect|]. intros [] self1 (Hf & Hok1 & Hcase). split; [done|].
      assert (ready self1) as Hr1. { eapply ready_step; [done..|]. unfold dl_ok. destruct Hcase as [[-> _]|[-> _]]; done. }
      destruct Hcase as [[Hs1 Hc1]|[Hs1 _]]; [by eapply (runs_connecting (3 + n))|by apply Hidle].
  - apply wp_bind, wp_available; [done|]. intros [] Hiff.
    + apply wp_continue, wp_goto; [done|]. apply (runs_await (4 + n) _ now); [by apply ready_to_state|done|]. by apply Hiff.
    + apply wp_bind, wp_available; [done|]. intros [] Hiff'; [|apply wp_continue, wp_goto; [done|apply Hidle]; [by apply ready_to_state|done]].
      apply Hstop. split; [by apply Hiff'|]. intros Hc. by apply Hiff in Hc.
  - case_match; [apply Hstop; lia|]. apply wp_continue, wp_goto; [done|apply Hidle]; [by apply ready_to_state|done].
  - case_match; [apply Hstop; lia|]. apply wp_continue. eapply wp_mono; [apply wp_try_request_next; [done|by eexists]|].
    intros [] self1 (Hf & Hr1 & [(s1 & Hs1 & Hlt)|[(p & f & t & Hs1 & Hp)|[Hs1 Hnc]]]); (split; [done|]).
    + by eapply (runs_waiting (5 + n)).
    + eapply (runs_downloading (5 + n)); [done..|]. apply elapsed_now. apply Hr1.
    + by apply Hidle.
  - case_bool_decide; cbn [negb]; [|apply wp_continue, wp_goto; [done|apply Hidle]; [by apply ready_to_state|done]].
    case_match; [|apply Hstop; split; [done|lia]]. apply wp_continue. eapply wp_mono; [by apply wp_failure|].
    intros [] self1 (Hf & Hr1 & [Hs1|(s1 & Hs1 & Hlt)]); (split; [done|]); [by apply Hidle|by eapply (runs_waiting (5 + n))].
  - auto.
  - auto.
Qed.

(** From a search that is overdue: it is repeated unless all the peers are there. *)
Lemma runs_overdue n self : ready self → overdue env self →
  wp (loop (7 + n) (transition_step env) tt) (λ _ self', settled env self self' ∨ searched env self self') self.
Proof.
  intros Hr (o & since & Hst & Hto). pose proof Hr as (Hok & Hd & Ht). cbn [loop Nat.add]. apply wp_bind.
  unfold transition_step at 1. apply wp_bind, wp_get. rewrite Hst. apply wp_bind, wp_available; [done|]. intros [] Hiff.
  - apply wp_bind, wp_modify, wp_ret. eapply wp_mono; [apply (runs_found (2 + n)); [by apply ready_to_state|done|by apply Hiff]|].
    intros [] self' (Hf & Hrest). left. split; [by eapply frame_trans; [|exact Hf]|done].
  - apply wp_bind. rewrite (proj2 (Z.leb_le _ _) Hto). cbn [when]. case_match.
    + apply wp_modify, wp_ret, wp_ret. left. split_and!; [done|by destruct Hok|done|done].
    + eapply wp_mono; [by apply wp_try_find_peers|]. intros [] self1 (Hf & Hok1 & Hs1). apply wp_ret, wp_ret. right.
      split_and!; [done|done|unfold dl_ok; by rewrite Hs1|by exists o, since|by exists (c_since self)].
Qed.

Lemma overdue_dec self : overdue env self ∨ ¬ overdue env self.
Proof.
  unfold overdue. destruct (state self) as [|o since| | | | | | |];
    try (right; by intros (? & ? & ? & _)). destruct (Z.le_gt_cases (peer_find_timeout (c_config self)) (elapsed now since)).
  - left. by exists o, since.
  - right. intros (o' & s' & [= <- <-] & ?). lia.
Qed.

Lemma overdue_peers self self1 : frame self self1 → state self1 = state self → overdue env self1 ↔ overdue env self.
Proof. intros Hf Hs. unfold overdue. by rewrite Hs, (fr_config _ _ Hf). Qed.

Lemma wp_transition self : ready self →
  wp (transition env) (λ _ self', settled env self self' ∨ searched env self self') self.
Proof.
  intros (Hok & Hd & Ht). unfold transition. apply wp_bind. eapply wp_mono; [by apply wp_peers_transition|]. intros [] self1 (Hf & Hok1 & Hs1 & _).
  assert (ready self1) as Hr1.
  { split_and!; [done| |by rewrite (fr_config _ _ Hf)]. unfold dl_ok in *. rewrite Hs1, (fr_next _ _ Hf), (fr_goal _ _ Hf). done. }
  destruct (overdue_dec self1) as [Ho|Ho].
  - eapply wp_mono; [exact (runs_overdue 0 self1 Hr1 Ho)|]. intros [] self' [(Hf' & Hrest)|(Hf' & ? & ? & Ho' & ?)].
    + left. split; [by eapply frame_trans|done].
    + right. apply (overdue_peers self) in Ho'; [|done..]. split_and!; [by eapply frame_trans|done..].
  - eapply wp_mono; [exact (runs_any 0 self1 Hr1 Ho)|]. intros [] self' (Hf' & Hrest). left. split; [by eapply frame_trans|done].
Qed.

(** A second call at the same instant leaves nothing to do. *)
Lemma wp_transition_rests self : ready self → ¬ overdue env self → wp (transition env) (λ _ self', rests env self') self.
Proof.
  intros Hr Hn. eapply wp_mono; [by apply wp_transition|]. intros [] self' [(_ & _ & _ & Hrest)|(_ & _ & _ & Ho & _)]; [done|by destruct Hn].
Qed.

Lemma settled_not_overdue self self' : ready self → settled env self self' ∨ searched env self self' → ready self' ∧ ¬ overdue env self'.
Proof.
  intros Hr [(Hf & Hok & Hd & Hrest)|(Hf & Hok & Hd & _ & o & Hst)]; (split; [by eapply ready_step|]); intros (o' & s' & Hs' & Hto).
  - unfold rests in Hrest. rewrite Hs' in Hrest. lia.
  - rewrite Hst in Hs'. injection Hs' as <- <-. destruct Hr as (_ & _ & Ht & _). rewrite (fr_config _ _ Hf) in Hto.
    pose proof (elapsed_now _ Ht). lia.
Qed.

(** *** Requests are sent when all shards are connected *)

(** No bandwidth limit applies. *)
Definition unlimited self : Prop :=
  (0 <? max_bandwidth_bytes (c_config self)) && (max_bandwidth_bytes (c_config self) <? env_bandwidth env) = false.

Definition next_request self (req : GetChunksRequest) : Prop :=
  gcr_tx_id req = tx_id self ∧ gcr_index_start req = next_chunk self ∧
  gcr_index_end req = Z.min (wrap64 (next_chunk self + PORA_CHUNK_SIZE)) (index_end (goal self)).

(** A request for the next segment is under way, to a peer that has it. *)
Definition requested self self' : Prop := ∃ p i req, state self' = Downloading p (gcr_index_start req) (gcr_index_end req) now ∧
  last (ctx self') = Some (SendRequest p (tx_id self) req) ∧ next_request self req ∧ peers self' !! p = Some i ∧ pi_state i = Connected ∧
  in_range (pi_shard_config i) (sector_to_segment (wrap64 (next_chunk self + tx_start_chunk_in_flow self))) = true.

Lemma wp_round n self (Q : () → Controller → Prop) :
  wp (transition_step env tt) (λ r self1, match r with inl _ => wp (loop n (transition_step env) tt) Q self1 | inr _ => Q tt self1 end) self →
  wp (loop (S n) (transition_step env) tt) Q self.
Proof. intros Hw. cbn [loop]. apply wp_bind. eapply wp_mono; [exact Hw|]. intros [[]|[]] self1 H1; [done|by apply wp_ret]. Qed.

Lemma wp_request_connected n self since : ready self → state self = AwaitingDownload since → since ≤ now →
  peers_cover [Connected] (peers self) → unlimited self →
  wp (loop (2 + n) (transition_step env) tt) (λ _ self', requested self self') self.
Proof.
  intros Hr Hst Hle Hcov Hun. pose proof Hr as (Hok & Hd & Ht). apply (wp_round (1 + n)). unfold transition_step. apply wp_bind, wp_get.
  rewrite Hst, (proj2 (Z.ltb_ge _ _) Hle). apply wp_bind. unfold try_request_next. apply wp_bind, wp_get.
  unfold unlimited in Hun. rewrite Hun. set (req := GetChunksRequest_mk _ _ _ _). apply wp_bind.
  destruct (select_peer_spec env self req Henv) as ([p|] & Ho & Hsel); [|done]. destruct Hsel as (i & Hi & Hc & Hin). eapply wp_lift; [done|].
  apply wp_bind. unfold ctx_send, to_state. apply wp_modify, wp_modify, wp_ret. apply (wp_round n). unfold transition_step.
  apply wp_bind, wp_get. cbn [state set_state peers c_config set_ctx]. rewrite bool_decide_true by (unfold peer_state; rewrite Hi; cbn; by rewrite Hc).
  cbn [negb]. rewrite (proj2 (Z.leb_gt _ _)) by (apply elapsed_now, Ht). apply wp_ret.
  exists p, i, req. split_and!; [done|apply last_snoc|done..|exact Hi|exact Hc|exact Hin].
Qed.

Lemma wp_idle_requests self : ready self → state self = Idle → peers_cover [Connected] (peers self) → unlimited self →
  wp (transition env) (λ _ self', requested self self') self.
Proof.
  intros (Hok & _ & Ht) Hst Hcov Hun. unfold transition. apply wp_bind. eapply wp_mono; [by apply wp_peers_transition|].
  intros [] self1 (Hf & Hok1 & Hs1 & Hkeep). rewrite Hst in Hs1.
  assert (peers_cover [Connected] (peers self1)) as Hcov1.
  { intros segment Hs. destruct (Hcov segment Hs) as (p & i & Hi & Hc & Hr). exists p, i. split_and!; [apply Hkeep; [done|set_solver]|done|done]. }
  assert (∀ states, Connected ∈ states → peers_cover states (peers self1)) as Hcovs.
  { intros states Hin. eapply peers_cover_mono; [|exact Hcov1]. intros st ->%list_elem_of_singleton. by left. }
  assert (timeouts_ok (c_config self1)) as Ht1 by (by rewrite (fr_config _ _ Hf)).
  apply (wp_round 6). unfold transition_step. apply wp_bind, wp_get. rewrite Hs1.
  apply wp_bind, wp_available; [done|]. intros [] Hiff; [|by discriminate (proj2 Hiff (Hcovs [Found; Connecting; Connected] ltac:(set_solver)))].
  apply wp_bind, wp_modify, wp_ret. apply (wp_round 5). unfold transition_step. apply wp_bind, wp_get. cbn [state set_state].
  apply wp_bind, wp_available; [by destruct Hok1|]. intros [] Hiff'; [|by discriminate (proj2 Hiff' (Hcovs [Connecting; Connected] ltac:(set_solver)))].
  apply wp_bind, wp_modify, wp_ret. apply (wp_round 4). unfold transition_step. apply wp_bind, wp_get. cbn [state set_state].
  apply wp_bind, wp_available; [by destruct Hok1|]. intros [] Hiff''; [|by discriminate (proj2 Hiff'' Hcov1)].
  apply wp_bind, wp_modify, wp_ret. eapply wp_mono; [apply (wp_request_connected 2 _ now)|].
  - destruct Hok1. by split_and!.
  - done.
  - lia.
  - exact Hcov1.
  - unfold unlimited in *. cbn. by rewrite (fr_config _ _ Hf).
  - intros [] self' (p & i & req & H1 & H2 & (H3 & H4 & H5) & H6). cbn in *. exists p, i, req. unfold next_request.
    rewrite <- (fr_tx_id _ _ Hf), <- (fr_next _ _ Hf), <- (fr_goal _ _ Hf), <- (fr_tx_start _ _ Hf). destruct H6 as (? & ? & ?). auto 12.
Qed.

End env.

End transition.
