(* ===== verification/SyncDownload.v ===== *)
(** What a download writes to the store.

    Operations that leave a part of the state alone, also when they fail; and
    the log manager as the store of a download: its shard stays the same. *)

From stdpp Require Import sorting list_numbers.
From S2P Require Import Prelude HashElement Ssz MerkleProof NodeStore AppendMerkle Bytes FlowDb Shard MerkleLight SharedTypes.
From S2P Require Import Seal ChunkData SealInfo EntryBatch Serde FlowStore TxStore LogManager.
From S2P Require Import FileLocationCache FileCacheTheorems SyncController SyncControllerFacts.
Local Open Scope Z_scope.

(** ** Parts that are kept *)

Definition keeps_part {S T A} (f : S → T) (m : M S A) : Prop := ∀ s, f (m s).2 = f s.

Create HintDb keeps discriminated.

Section rules.
Context {S T : Type} (f : S → T).

Lemma part_ret {A} (a : A) : keeps_part f (mret a).
Proof. done. Qed.

Lemma part_bind {A B} (m : M S A) (k : A → M S B) : keeps_part f m → (∀ a, keeps_part f (k a)) → keeps_part f (m ≫= k).
Proof.
  intros Hm Hk s. unfold mbind, M_bind. specialize (Hm s). destruct (m s) as [[a|e| |] s']; cbn in *; [|done..]. by rewrite Hk.
Qed.

Lemma part_gets_ok {A} (g : S → outcome A) : keeps_part f (gets_ok g).
Proof. done. Qed.

Lemma part_lift {A} (o : outcome A) : keeps_part f (lift o).
Proof. done. Qed.

Lemma keeps_get : keeps_part f get.
Proof. done. Qed.

Lemma part_gets {A} (g : S → A) : keeps_part f (gets g).
Proof. done. Qed.

Lemma part_bail {A} e : keeps_part f (bail e : M S A).
Proof. done. Qed.

Lemma part_panic {A} : keeps_part f (panic : M S A).
Proof. done. Qed.

Lemma part_when b (m : M S ()) : keeps_part f m → keeps_part f (when b m).
Proof. by destruct b. Qed.

Lemma keeps_map_err {A} e (m : M S A) : keeps_part f m → keeps_part f (map_err e m).
Proof. intros Hm s. unfold map_err. specialize (Hm s). by destruct (m s) as [[] s']. Qed.

Lemma part_for_each {A} (xs : list A) (body : A → M S ()) : (∀ x, keeps_part f (body x)) → keeps_part f (for_each xs body).
Proof. intros Hb. induction xs as [|x xs IH]; [done|]. apply part_bind; [apply Hb|done]. Qed.

Lemma part_fold_for {A B} (xs : list A) (b : B) (body : B → A → M S B) :
  (∀ b x, keeps_part f (body b x)) → keeps_part f (fold_for xs b body).
Proof. intros Hb. revert b. induction xs as [|x xs IH]; intros b; [done|]. apply part_bind; [apply Hb|done]. Qed.

(** A method of a field that does not hold the part. *)
Lemma part_zoom {U A} (proj : S → U) (set : U → S → S) (m : M U A) : (∀ u s, f (set u s) = f s) → keeps_part f (zoom proj set m).
Proof. intros Hset s. unfold zoom. destruct (m (proj s)). apply Hset. Qed.

End rules.

#[export] Hint Resolve part_ret part_gets_ok part_lift keeps_get part_gets part_bail part_panic : keeps.

(** Follows the structure of a computation. *)
Ltac keeps_step :=
  lazymatch goal with
  | |- keeps_part _ (mbind _ _) => apply part_bind; [|intro]
  | |- keeps_part _ (when _ _) => apply part_when
  | |- keeps_part _ (map_err _ _) => apply keeps_map_err
  | |- keeps_part _ (for_each _ _) => apply part_for_each; intro
  | |- keeps_part _ (fold_for _ _ _) => apply part_fold_for; intros ? ?
  | |- keeps_part _ _ => first [solve [eauto 2 with keeps] | case_match]
  end.
Ltac keeps := repeat keeps_step.

(** ** The log manager *)

Section flow.
Context `{Keccak, KeyValueDB KV, Bitmap64 B, !KeyValueIter KV}.
Context {NMt NM : Type} `{!NodeStore NMt OptionalHash, !NodeStore NM OptionalHash}.
Local Abbreviation manager := (LogManager KV (MerkleManager NMt NM)).

Lemma add_seal_tasks_keeps (batch : EntryBatch B) i : keeps_part fs_shard_config (add_seal_tasks (KV := KV) batch i).
Proof. unfold add_seal_tasks. keeps. done. Qed.
Hint Resolve add_seal_tasks_keeps : keeps.

Lemma on_data_db_keeps {A} (m : M KV A) : keeps_part fs_shard_config (on_data_db m).
Proof. by apply part_zoom. Qed.
Hint Resolve on_data_db_keeps : keeps.

Lemma flow_append_keeps data clock : keeps_part fs_shard_config (FlowStore.append_entries (B := B) (NM := NM) (KV := KV) data clock).
Proof. unfold FlowStore.append_entries, append_batch, load_batch. keeps. Qed.

Lemma on_flow_keeps {A} (m : M (FlowStore KV) A) : keeps_part fs_shard_config m → keeps_part lm_shard_config (on_flow (NMt := NMt) (NM := NM) m).
Proof. intros Hm s. unfold on_flow, zoom. specialize (Hm (flow_store s)). destruct (m (flow_store s)). exact Hm. Qed.

Lemma on_merkle_keeps {A} (m : M (MerkleManager NMt NM) A) : keeps_part lm_shard_config (on_merkle (KV := KV) m).
Proof. by apply part_zoom. Qed.

Lemma on_tx_keeps {A} (m : M (TransactionStore KV) A) : keeps_part lm_shard_config (on_tx (NMt := NMt) (NM := NM) m).
Proof. by apply part_zoom. Qed.
Hint Resolve on_merkle_keeps on_tx_keeps : keeps.

Section clock.
Context (clock : ChunkArray → Z → Z).

Lemma append_keeps data : keeps_part lm_shard_config (append_entries (B := B) (NMt := NMt) (NM := NM) (KV := KV) clock data).
Proof. unfold append_entries. keeps. apply on_flow_keeps, flow_append_keeps. Qed.
Hint Resolve append_keeps : keeps.

Lemma put_chunks_keeps seq hash chunks o :
  keeps_part lm_shard_config (put_chunks_with_tx_hash (B := B) (NMt := NMt) (NM := NM) (KV := KV) clock seq hash chunks o).
Proof. unfold put_chunks_with_tx_hash. keeps. Qed.
Hint Resolve put_chunks_keeps : keeps.

Lemma rear_loop_keeps fuel tx a b c d : keeps_part lm_shard_config (rear_loop (B := B) (NMt := NMt) (NM := NM) (KV := KV) clock fuel tx a b c d).
Proof. revert a b c d. induction fuel as [|fuel IH]; intros; cbn [rear_loop]; keeps. Qed.
Hint Resolve rear_loop_keeps : keeps.

Lemma finalize_keeps seq hash : keeps_part lm_shard_config (finalize_tx_with_hash (B := B) (NMt := NMt) (NM := NM) (KV := KV) clock seq hash).
Proof. unfold finalize_tx_with_hash, finalize_tx_common, padding_rear_data, copy_tx_and_finalize, copy_batch. keeps. Qed.

Lemma validate_keeps seq data : keeps_part lm_shard_config (validate_and_insert_range_proof (NMt := NMt) (NM := NM) (KV := KV) seq data).
Proof. unfold validate_and_insert_range_proof. keeps. Qed.

End clock.

End flow.

(** * What a download stores: only validated data, and all of it that belongs to
    the shard of the node before the file is finalized. *)

(** ** What the download relies on *)

(** A shard that is far from the end of the numbers. *)
Definition shard_fits (c : ShardConfig) : Prop := shard_ok c ∧ num_shard c ≤ 2 ^ 50.

Class ChunkStoreLaws (St : Type) `{!ChunkStore St} := {
  cs_inv : St → Prop;
  cs_inv_shard s : cs_inv s → shard_fits (cs_shard_config s);
  cs_inv_validate seq data s : cs_inv s → cs_inv (cs_validate_and_insert_range_proof seq data s).2;
  cs_inv_put seq hash chunks o s : cs_inv s → cs_inv (cs_put_chunks_with_tx_hash seq hash chunks o s).2;
  cs_inv_finalize seq hash s : cs_inv s → cs_inv (cs_finalize_tx_with_hash seq hash s).2;
}.

(** The log manager keeps its promise. *)
Lemma log_manager_store_laws `{Keccak, KeyValueDB KV, Bitmap64 B, !KeyValueIter KV} {NMt NM : Type}
    `{!NodeStore NMt OptionalHash, !NodeStore NM OptionalHash} (clock : ChunkArray → Z → Z) :
  ChunkStoreLaws (LogManager KV (MerkleManager NMt NM)) (ChunkStore0 := log_manager_store (B := B) clock).
Proof.
  refine {| cs_inv := λ s, shard_fits (lm_shard_config s) |}.
  - done.
  - intros seq data s Hs. cbn. by rewrite (validate_keeps seq data s).
  - intros seq hash chunks o s Hs. cbn. by rewrite (put_chunks_keeps clock seq hash chunks o s).
  - intros seq hash s Hs. cbn. by rewrite (finalize_keeps clock seq hash s).
Qed.

(** ** A store that remembers the calls *)

Inductive StoreCall :=
  | CValidate (seq : Z) (data : ChunkArrayWithProof) (r : outcome bool)
  | CPut (shard : ShardConfig) (seq : Z) (hash : H256) (chunks : ChunkArray) (r : outcome bool)
  | CFinalize (seq : Z) (hash : H256) (r : outcome bool).

Section download.
Context {PeerId Multiaddr PQ FQ : Type} `{Countable PeerId}.
Context `{!PriorityQueue PeerId PQ, !PriorityQueue TxID FQ, !MultiaddrOps PeerId Multiaddr}.
Context `{!PriorityQueueLaws PeerId PQ, !PriorityQueueLaws TxID FQ}.
Context {St : Type} `{!ChunkStore St, !ChunkStoreLaws St}.

Definition record {A} (call : St → outcome A → StoreCall) (m : M St A) : M (St * list StoreCall) A :=
  λ s, let '(r, s') := m s.1 in (r, (s', s.2 ++ [call s.1 r])).

#[local] Instance recorded : ChunkStore (St * list StoreCall) := {|
  cs_shard_config s := cs_shard_config s.1;
  cs_next_tx_seq s := cs_next_tx_seq s.1;
  cs_validate_and_insert_range_proof seq data :=
    record (λ _, CValidate seq data) (cs_validate_and_insert_range_proof seq data);
  cs_put_chunks_with_tx_hash seq hash chunks o :=
    record (λ s, CPut (cs_shard_config s) seq hash chunks) (cs_put_chunks_with_tx_hash seq hash chunks o);
  cs_finalize_tx_with_hash seq hash := record (λ _, CFinalize seq hash) (cs_finalize_tx_with_hash seq hash);
|}.

Local Abbreviation Controller :=
  (SerialSyncController (PeerId := PeerId) (Multiaddr := Multiaddr) (PQ := PQ) (FQ := FQ) (St := St * list StoreCall)).
Implicit Types (self : Controller) (p : PeerId) (env : Env PeerId Multiaddr) (log : list StoreCall).

Definition calls self : list StoreCall := (store self).2.

(** Segment [i] of the file [id] with [n] chunks was stored in full. *)
Definition segment_stored (id : TxID) (n : Z) log (i : Z) : Prop :=
  ∃ shard chunks, CPut shard (id_seq id) (id_hash id) chunks (Ok true) ∈ log ∧
    start_index chunks = i * PORA_CHUNK_SIZE ∧
    blen (ca_data chunks) = (Z.min ((i + 1) * PORA_CHUNK_SIZE) n - i * PORA_CHUNK_SIZE) * ENTRY_SIZE.

(** It was outside of the shard that the store had when it was passed over. *)
Definition segment_foreign (id : TxID) (tx_start : Z) log (i : Z) : Prop :=
  ∃ shard chunks r, CPut shard (id_seq id) (id_hash id) chunks r ∈ log ∧
    in_range shard (sector_to_segment tx_start + i) = false.

Definition accounted self (i : Z) : Prop :=
  segment_stored (tx_id self) (num_chunks (goal self)) (calls self) i ∨
  segment_foreign (tx_id self) (tx_start_chunk_in_flow self) (calls self) i.

(** Every array that is stored was validated right before. *)
Definition puts_validated self : Prop :=
  ∀ k shard seq hash chunks r, calls self !! k = Some (CPut shard seq hash chunks r) →
    ∃ k' data, k = S k' ∧ calls self !! k' = Some (CValidate (id_seq (tx_id self)) data (Ok true)) ∧ cap_chunks data = chunks.

Record goal_ok (n : Z) self : Prop := {
  go_num : num_chunks (goal self) = n;
  go_range : 0 ≤ index_start (goal self) < index_end (goal self) ∧ index_end (goal self) ≤ n;
  go_next : 0 ≤ next_chunk self ≤ 2 ^ 61;
  go_aligned : all_chunks (goal self) = true →
    index_end (goal self) = n ∧ (PORA_CHUNK_SIZE | next_chunk self) ∧
    ∀ i, index_start (goal self) ≤ i * PORA_CHUNK_SIZE < next_chunk self → i * PORA_CHUNK_SIZE < n → accounted self i;
  go_completed : state self = Completed → all_chunks (goal self) = true →
    n ≤ next_chunk self ∧ CFinalize (id_seq (tx_id self)) (id_hash (tx_id self)) (Ok true) ∈ calls self;
}.

Record dl_inv (n : Z) self : Prop := {
  di_ctrl : ctrl_ok self;
  di_timeouts : timeouts_ok (c_config self);
  di_store : cs_inv (store self).1;
  di_goal : goal_ok n self;
  di_puts : puts_validated self;
}.

(** ** Partial correctness, for calls of the store that may panic *)

Definition wlp {S A} (m : M S A) (Q : A → S → Prop) (s : S) : Prop :=
  match m s with (Ok a, s') => Q a s' | _ => True end.

Lemma wlp_bind {S A B} (m : M S A) (k : A → M S B) (Q : B → S → Prop) s :
  wlp m (λ a s', wlp (k a) Q s') s → wlp (m ≫= k) Q s.
Proof. unfold wlp, mbind, M_bind. by destruct (m s) as [[] s']. Qed.

Lemma wlp_wp {S A} (m : M S A) (Q : A → S → Prop) s : wp m Q s → wlp m Q s.
Proof. unfold wlp, wp. by destruct (m s) as [[] s']. Qed.

Lemma wlp_mono {S A} (m : M S A) (P Q : A → S → Prop) s : wlp m P s → (∀ a s', P a s' → Q a s') → wlp m Q s.
Proof. unfold wlp. destruct (m s) as [[] s']; auto. Qed.

Lemma wlp_recorded {A} (call : St → outcome A → StoreCall) (m : M St A) (Q : A + string → Controller → Prop) self :
  (∀ s' o, (m (store self).1).2 = s' →
     Q o (set_store (s', calls self ++ [call (store self).1 (match o with inl a => Ok a | inr e => Err e end)]) self)) →
  wlp (on_store_ (attempt (record call m))) Q self.
Proof.
  intros HQ. unfold wlp, on_store_, zoom, attempt, record. destruct (m (store self).1) as [[a|e| |] s']; cbn; [|exact (HQ _ (inr e) eq_refl)|done..].
  exact (HQ _ (inl a) eq_refl).
Qed.

(** ** Steps that keep the invariant *)

Lemma accounted_mono self self' i : tx_id self' = tx_id self → goal self' = goal self →
  tx_start_chunk_in_flow self' = tx_start_chunk_in_flow self → (∀ c, c ∈ calls self → c ∈ calls self') → accounted self i → accounted self' i.
Proof.
  unfold accounted, segment_stored, segment_foreign. intros -> -> -> Hsub [(sh & ch & Hin & Hr)|(sh & ch & r & Hin & Hr)].
  - left. exists sh, ch. auto.
  - right. exists sh, ch, r. auto.
Qed.

(** The peers change, or the state to one in which nothing is complete. *)
Lemma inv_frame n self self' : dl_inv n self → frame self self' → ctrl_ok self' → dl_inv n self'.
Proof.
  intros [Hc Ht Hs [Hn Hr Hnx Ha Hco] Hp] [Fc Fi Fs _ Fg Fn Fst Fcomp] Hc'.
  assert (calls self' = calls self) as Hcalls by (unfold calls; by rewrite Fst).
  split; [done|by rewrite Fc|by rewrite Fst| |unfold puts_validated; by rewrite Hcalls, Fi].
  split; rewrite ?Fg, ?Fn; [done|done|done| |].
  - intros Hall. destruct (Ha Hall) as (He & Hal & Hacc). split_and!; [done|done|]. intros i Hi Hin.
    apply (accounted_mono self); [done..|by rewrite Hcalls|auto].
  - intros Hst Hall. rewrite Hcalls, Fi. auto.
Qed.

Lemma inv_state n self st : dl_inv n self → st ≠ Completed → dl_inv n (set_state st self).
Proof. intros Hi Hst. apply (inv_frame n self); [done|done|by destruct Hi as [[] _ _ _ _]]. Qed.

(** A call of the store that does not write chunks. *)
Lemma inv_call n self s' call : dl_inv n self → cs_inv s' → (∀ sh q h c r, call ≠ CPut sh q h c r) →
  dl_inv n (set_store (s', calls self ++ [call]) self).
Proof.
  intros [Hc Ht Hs [Hn Hr Hnx Ha Hco] Hp] Hs' Hcall.
  assert (∀ c, c ∈ calls self → c ∈ calls (set_store (s', calls self ++ [call]) self)) as Hsub by (intros; apply elem_of_app; by left).
  split; [by destruct Hc|done|done| |].
  - split; cbn [goal next_chunk set_store state tx_id]; [done|done|done| |].
    + intros Hall. destruct (Ha Hall) as (He & Hal & Hacc). split_and!; [done|done|]. intros i Hi Hin. by apply (accounted_mono self); auto.
    + intros Hst Hall. destruct (Hco Hst Hall). split; [done|]. by apply Hsub.
  - intros k sh q h c r Hk. cbn in *. apply lookup_snoc_Some in Hk as [[Hlt Hk]|[_ Hk]].
    + destruct (Hp k sh q h c r Hk) as (k' & data & -> & Hk' & Hdata). exists k', data. split_and!; [done| |done].
      by apply lookup_app_l_Some.
    + by edestruct Hcall.
Qed.

Lemma inv_failures n self z : dl_inv n self → dl_inv n (set_failures z self).
Proof. intros Hi. apply (inv_frame n self); [done|done|by destruct Hi as [[] _ _ _ _]]. Qed.

(** Chunks that were just validated are written. *)
Lemma inv_put n self s' shard seq hash data r : dl_inv n self → cs_inv s' →
  last (calls self) = Some (CValidate (id_seq (tx_id self)) data (Ok true)) →
  dl_inv n (set_store (s', calls self ++ [CPut shard seq hash (cap_chunks data) r]) self).
Proof.
  intros [Hc Ht Hs [Hn Hr Hnx Ha Hco] Hp] Hs' Hlast. set (call := CPut _ _ _ _ _).
  assert (∀ c, c ∈ calls self → c ∈ calls (set_store (s', calls self ++ [call]) self)) as Hsub by (intros; apply elem_of_app; by left).
  split; [by destruct Hc|done|done| |].
  - split; cbn [goal next_chunk set_store state tx_id]; [done|done|done| |].
    + intros Hall. destruct (Ha Hall) as (He & Hal & Hacc). split_and!; [done|done|]. intros i Hi Hin. by apply (accounted_mono self); auto.
    + intros Hst Hall. destruct (Hco Hst Hall). split; [done|]. by apply Hsub.
  - intros k sh q h c r' Hk. cbn in *. apply lookup_snoc_Some in Hk as [[Hlt Hk]|[-> Hk]].
    + destruct (Hp k sh q h c r' Hk) as (k' & d & -> & Hk' & Hdata). exists k', d. split_and!; [done| |done]. by apply lookup_app_l_Some.
    + injection Hk as <- <- <- <- <-. apply last_Some in Hlast as [l' Hl']. exists (length l'), data. rewrite Hl'. split_and!; [|by rewrite lookup_app_l, lookup_app_r, Nat.sub_diag by (rewrite ?length_app; cbn; lia)|done].
      rewrite length_app. cbn. lia.
Qed.

(** The position after a segment of the file is stored. *)
Lemma next_position shard start from n : shard_fits shard → 0 ≤ from < n → n ≤ 2 ^ 60 →
  let next := segment_to_sector (next_segment_index shard (sector_to_segment from) (sector_to_segment start)) in
  0 ≤ next ≤ 2 ^ 61 ∧ (PORA_CHUNK_SIZE | next) ∧
  ∀ i, from < i * PORA_CHUNK_SIZE < next → in_range shard (sector_to_segment start + i) = false.
Proof.
  intros [Hok Hnum] Hfrom Hn. unfold sector_to_segment, segment_to_sector, PORA_CHUNK_SIZE in *.
  set (m := from / 1024). assert (0 ≤ m < 2 ^ 50) by (unfold m; split; [apply Z.div_pos; lia|apply Z.div_lt_upper_bound; lia]).
  assert (from < (m + 1) * 1024) by (unfold m; pose proof (Z.mod_pos_bound from 1024); pose proof (Z.div_mod from 1024); lia).
  destruct (next_segment_index_least shard m (start / 1024) Hok) as (Hnext & _ & Hskip); [lia|lia|].
  set (k := next_segment_index shard m (start / 1024)) in *. cbv zeta. rewrite (wrap64_small (k * 1024)) by lia.
  assert (m * 1024 ≤ from) by (unfold m; pose proof (Z.mod_pos_bound from 1024); pose proof (Z.div_mod from 1024); lia).
  split; [lia|]. split; [by exists k|]. intros i Hi. apply Hskip. lia.
Qed.

(** A segment was stored: the position moves on. *)
Lemma inv_next n self shard chunks from to : dl_inv n self → n ≤ 2 ^ 60 → shard_fits shard → state self ≠ Completed →
  CPut shard (id_seq (tx_id self)) (id_hash (tx_id self)) chunks (Ok true) ∈ calls self →
  from = next_chunk self → to = Z.min (wrap64 (from + PORA_CHUNK_SIZE)) (index_end (goal self)) →
  start_index chunks = from → from < to → blen (ca_data chunks) = (to - from) * ENTRY_SIZE →
  dl_inv n (set_next_chunk (segment_to_sector (next_segment_index shard (sector_to_segment from)
    (sector_to_segment (tx_start_chunk_in_flow self)))) self).
Proof.
  intros [Hc Ht Hs [Hn Hr Hnx Ha Hco] Hp] Hnmax Hfits Hnc Hin Hfrom Hto Hstart Hlt Hlen.
  assert (0 ≤ from < n) as Hfn by (rewrite Hto in Hlt; lia).
  destruct (next_position shard (tx_start_chunk_in_flow self) from n Hfits Hfn Hnmax) as (Hb & Hdiv & Hskip).
  set (next := segment_to_sector _) in *. split; [by destruct Hc|done|done| |done].
  split; cbn [goal next_chunk set_next_chunk state tx_id]; [done|done|lia| |done]. intros Hall. destruct (Ha Hall) as (He & Hal & Hacc).
  split_and!; [done|done|]. intros i Hi Hin'. destruct (decide (i * PORA_CHUNK_SIZE < from)) as [Hb'|Hb'].
  { apply (accounted_mono self); [done..|]. apply Hacc; [lia|done]. }
  destruct (decide (i * PORA_CHUNK_SIZE = from)) as [Heq|Hne].
  - left. exists shard, chunks. split_and!; [done|by rewrite Hstart|]. cbn [goal set_next_chunk]. rewrite Hlen, Hto, Hn, He.
    unfold PORA_CHUNK_SIZE in *. rewrite wrap64_small by lia. rewrite Heq. f_equal. lia.
  - right. exists shard, chunks, (Ok true). split; [done|]. apply Hskip. lia.
Qed.

Lemma inv_completed n self : dl_inv n self →
  (all_chunks (goal self) = true → n ≤ next_chunk self ∧ CFinalize (id_seq (tx_id self)) (id_hash (tx_id self)) (Ok true) ∈ calls self) →
  dl_inv n (set_state Completed self).
Proof.
  intros [Hc Ht Hs [Hn Hr Hnx Ha Hco] Hp] Hfin. split; [by destruct Hc|done|done| |done].
  split; cbn [goal next_chunk set_state state tx_id]; [done|done|done| |by intros _].
  intros Hall. destruct (Ha Hall) as (He & Hal & Hacc). split_and!; [done|done|]. intros i Hi Hin. apply (accounted_mono self); [done..|auto].
Qed.

(** ** Responses *)

(** The result of a step that is not a request. *)
Definition stepped n self : Prop := dl_inv n self ∧ dl_ok self.

Lemma stepped_state n self st : dl_inv n self → st ≠ Completed → (∀ p f t s, st ≠ Downloading p f t s) → stepped n (set_state st self).
Proof. intros Hi Hst Hdl. split; [by apply inv_state|]. unfold dl_ok. cbn. destruct st; try done. by edestruct Hdl. Qed.

Lemma wlp_to_state n self st : dl_inv n self → st ≠ Completed → (∀ p f t s, st ≠ Downloading p f t s) →
  wlp (to_state st) (λ _ self', stepped n self') self.
Proof. intros. by apply wlp_wp, wp_modify, stepped_state. Qed.

Lemma wlp_finish n self : dl_inv n self → n ≤ next_chunk self ∨ all_chunks (goal self) = false →
  wlp finish_download (λ _ self', stepped n self') self.
Proof.
  intros Hi Hn. unfold finish_download. apply wlp_bind, wlp_wp, wp_get. destruct (all_chunks (goal self)) eqn:Hall; cbn [negb].
  - apply wlp_bind, wlp_recorded. intros s' o Hs'. set (self1 := set_store _ self).
    assert (dl_inv n self1) as Hi1.
    { apply inv_call; [done| |done]. rewrite <- Hs'. apply cs_inv_finalize, Hi. }
    destruct o as [[]|e]; [|by apply wlp_to_state..]. apply wlp_bind, wlp_wp, wp_modify, wlp_wp. unfold ctx_send. apply wp_modify.
    assert (dl_inv n (set_state Completed self1)) as Hi2.
    { apply inv_completed; [done|]. intros _. split; [destruct Hn as [Hn|?]; [exact Hn|congruence]|]. apply elem_of_app. right. by left. }
    split; [|done]. apply (inv_frame n _ _ Hi2); [done|]. by destruct Hi2 as [[] _ _ _ _].
  - apply wlp_wp, wp_modify. split; [|done]. apply inv_completed; [done|]. by rewrite Hall.
Qed.

Lemma wlp_store_response n self p from to since data : dl_inv n self → n ≤ 2 ^ 60 → state self = Downloading p from to since →
  dl_ok self → last (calls self) = Some (CValidate (id_seq (tx_id self)) data (Ok true)) →
  start_index (cap_chunks data) = from → from < to → blen (ca_data (cap_chunks data)) = (to - from) * ENTRY_SIZE →
  wlp (store_response from (cap_chunks data)) (λ _ self', stepped n self') self.
Proof.
  intros Hi Hn Hst Hd Hlast Hstart Hlt Hlen. unfold dl_ok in Hd. rewrite Hst in Hd. destruct Hd as [Hfrom Hto].
  unfold store_response. apply wlp_bind, wlp_wp, wp_modify, wlp_bind, wlp_wp, wp_get, wlp_bind, wlp_recorded. intros s' o Hs'.
  set (self1 := set_failures 0 self) in *. set (self2 := set_store _ self1). assert (dl_inv n self1) as Hi1 by (by apply inv_failures).
  assert (dl_inv n self2) as Hi2.
  { apply inv_put; [done| |exact Hlast]. rewrite <- Hs'. apply cs_inv_put, Hi1. }
  destruct o as [[]|e]; [|by apply wlp_to_state..]. apply wlp_bind, wlp_wp, wp_modify.
  assert (dl_inv n (set_next_chunk (segment_to_sector (next_segment_index (cs_shard_config (store self1)) (sector_to_segment from)
    (sector_to_segment (tx_start_chunk_in_flow self1)))) self2)) as Hi3.
  { eapply (inv_next n self2 _ (cap_chunks data) from to); [done|done|exact (cs_inv_shard (store self1).1 (di_store _ _ Hi1))|by cbn; rewrite Hst| |done..].
    apply elem_of_app. right. by left. }
  destruct (Z.ltb_spec (segment_to_sector (next_segment_index (cs_shard_config (store self1)) (sector_to_segment from)
    (sector_to_segment (tx_start_chunk_in_flow self1)))) (index_end (goal self1))) as [Hnx|Hnx].
  - by apply wlp_to_state.
  - apply wlp_finish; [done|]. destruct (all_chunks (goal self)) eqn:Hall; [left|by right].
    destruct (go_aligned _ _ (di_goal _ _ Hi) Hall) as [He _]. cbn in *. lia.
Qed.

Lemma wlp_on_response n env self p response : dl_inv n self → dl_ok self → n ≤ 2 ^ 60 → blen (ca_data (cap_chunks response)) < 2 ^ 64 →
  wlp (on_response env p response) (λ _ self', stepped n self') self.
Proof.
  intros Hi Hd Hn Hbl. unfold on_response. apply wlp_bind.
  assert (∀ a m b, wp (ctx_report_peer a m b) (λ _ self', stepped n self' ∧ state self' = state self ∧ calls self' = calls self) self) as Hrep.
  { intros. unfold ctx_report_peer, ctx_send. apply wp_modify. split; [|done]. split; [|done]. apply (inv_frame n self); [done|done|].
    by destruct Hi as [[] _ _ _ _]. }
  assert (wlp (handle_on_response_mismatch p) (λ b self', if b then stepped n self' else self' = self ∧ ∃ f t s, state self = Downloading p f t s) self) as Hmis.
  { unfold handle_on_response_mismatch. apply wlp_bind, wlp_wp, wp_get.
    assert (∀ msg, wlp (_ ← ctx_report_peer p LowToleranceError msg; mret true)
      (λ b self', if (b : bool) then stepped n self' else self' = self ∧ ∃ f t s, state self = Downloading p f t s) self) as Hr.
    { intros msg. apply wlp_bind, wlp_wp. eapply wp_mono; [apply Hrep|]. intros [] s' [Hs' _]. by apply wlp_wp, wp_ret. }
    destruct (state self) as [| | | | | |p' f t since| |]; try apply Hr. case_bool_decide; [subst p'|apply Hr].
    apply wlp_wp, wp_ret. split; [done|]. by eexists _, _, _. }
  eapply wlp_mono; [exact Hmis|]. clear Hmis. intros [] self1; [intros ?; by apply wlp_wp, wp_ret|]. intros [-> (from & to & since & Hst)].
  apply wlp_bind, wlp_wp, wp_get. rewrite Hst. pose proof Hd as Hd'. unfold dl_ok in Hd'. rewrite Hst in Hd'. destruct Hd' as [Hfrom Hto].
  assert (∀ msg s1, dl_inv n s1 → wlp (_ ← ban_peer env p msg; to_state Idle) (λ _ self', stepped n self') s1) as Hban.
  { intros msg s1 Hi1. apply wlp_bind, wlp_wp. eapply wp_mono; [apply wp_ban_peer, Hi1|]. intros [] s2 [(Hf & Hc2 & _) _].
    apply wlp_to_state; [by apply (inv_frame n s1)|done|done]. }
  destruct (orb _ _) eqn:Hsize; [by apply Hban|]. apply orb_false_iff in Hsize as [Hpos Hmod].
  case_match eqn:Hrange; [apply wlp_wp; eapply wp_mono; [apply Hrep|]; by intros [] s' [Hs' _]|].
  apply orb_false_iff in Hrange as [Hstart%negb_false_iff%Z.eqb_eq Hend%negb_false_iff%Z.eqb_eq].
  apply wlp_bind, wlp_recorded. intros s' o Hs'. set (self1 := set_store _ self).
  assert (dl_inv n self1) as Hi1. { apply inv_call; [done| |done]. rewrite <- Hs'. apply cs_inv_validate, Hi. }
  destruct o as [[]|e]; [|by apply wlp_to_state|by apply Hban].
  pose proof (go_next _ _ (di_goal _ _ Hi)) as Hnb. assert (0 ≤ blen (ca_data (cap_chunks response))) as Hbl0 by (unfold blen; lia).
  unfold ENTRY_SIZE in *. set (len := blen (ca_data (cap_chunks response))) in *.
  assert (len = 256 * (len / 256)) as Hdiv by (pose proof (Z.div_mod len 256); pose proof (Z.mod_pos_bound len 256); lia).
  rewrite wrap64_small in Hend by lia.
  eapply (wlp_store_response n self1 p from to since response); [done|done|done|done|by apply last_snoc|done|lia|unfold ENTRY_SIZE; lia].
Qed.

End download.
