(* ===== verification/DownloadTheorems.v ===== *)
(** Downloads, through any events. *)

From stdpp Require Import sorting list_numbers.
From S2P Require Import Prelude HashElement Ssz MerkleProof NodeStore AppendMerkle Bytes FlowDb Shard MerkleLight SharedTypes.
From S2P Require Import Seal ChunkData SealInfo EntryBatch Serde FlowStore TxStore LogManager.
From S2P Require Import FileLocationCache FileCacheTheorems SyncController SyncControllerFacts SyncDownload.
Local Open Scope Z_scope.

Section theorems.
Context {PeerId Multiaddr PQ FQ : Type} `{Countable PeerId}.
Context `{!PriorityQueue PeerId PQ, !PriorityQueue TxID FQ, !MultiaddrOps PeerId Multiaddr}.
Context `{!PriorityQueueLaws PeerId PQ, !PriorityQueueLaws TxID FQ}.
Context {St : Type} `{!ChunkStore St, !ChunkStoreLaws St}.
#[local] Existing Instance recorded.
Local Abbreviation Cache := (FileLocationCache (PeerId := PeerId) (Multiaddr := Multiaddr) (PQ := PQ) (FQ := FQ)).
Local Abbreviation Controller :=
  (SerialSyncController (PeerId := PeerId) (Multiaddr := Multiaddr) (PQ := PQ) (FQ := FQ) (St := St * list StoreCall)).
Implicit Types (self : Controller) (p : PeerId) (env : Env PeerId Multiaddr).

(** The calls that drive a download.  [reset] follows a completed or failed
    download; between two calls other tasks use the store and the cache. *)
Inductive dl_step : Controller → Controller → Prop :=
  | step_transition env self self' : env_ok env → transition env self = (Ok tt, self') → dl_step self self'
  | step_found env p a b self self' : on_peer_found env p a self = (Ok b, self') → dl_step self self'
  | step_announced env p sc self self' : config_typed sc → on_peer_announced env p sc self = (Ok tt, self') → dl_step self self'
  | step_dial_failed env p e self self' : on_dial_failed env p e self = (Ok tt, self') → dl_step self self'
  | step_connected env p self self' : on_peer_connected env p self = (Ok tt, self') → dl_step self self'
  | step_disconnected p self self' : on_peer_disconnected p self = (Ok tt, self') → dl_step self self'
  | step_response env p r self self' : blen (ca_data (cap_chunks r)) < 2 ^ 64 → on_response env p r self = (Ok tt, self') → dl_step self self'
  | step_request_failed env p self self' : on_request_failed env p self = (Ok tt, self') → dl_step self self'
  | step_reset env range self self' : is_completed_or_failed self = true → (∀ s e, range = Some (s, e) → 0 ≤ s) →
      reset env range self = (Ok tt, self') → dl_step self self'
  | step_shared (s : St) (c : Cache) self : cs_inv s → location_ok c →
      dl_step self (set_store (s, calls self) (set_file_location_cache c self)).

(** From the creation for a file of [n] chunks. *)
Inductive dl_reach (n : Z) : Controller → Prop :=
  | reach_start now config id start st en all g net (s : St) (c : Cache) :
      timeouts_ok config → n ≤ 2 ^ 60 → 0 ≤ st → goal_new n st en all = Ok g → (all = true → en = n ∧ (PORA_CHUNK_SIZE | st)) →
      cs_inv s → location_ok c → dl_reach n (controller_new now config id start g net (s, []) c)
  | reach_step self self' : dl_reach n self → dl_step self self' → dl_reach n self'.

Lemma dl_reach_bound n self : dl_reach n self → n ≤ 2 ^ 60.
Proof. by induction 1. Qed.

Lemma wlp_run {S A} (m : M S A) (Q : A → S → Prop) s a s' : m s = (Ok a, s') → wlp m Q s → Q a s'.
Proof. unfold wlp. by intros ->. Qed.

Lemma stepped_searches n self self' : dl_inv n self → dl_ok self → searches self self' → stepped n self'.
Proof.
  intros Hi Hd (Hf & Hc & Hs). split; [by apply (inv_frame n self)|]. unfold dl_ok in *. rewrite Hs, (fr_next _ _ Hf), (fr_goal _ _ Hf). done.
Qed.

(** An event about a peer, which may change the state. *)
Lemma stepped_peers n self ps st : dl_inv n self → dl_ok self → peers_ok ps → st = state self ∨ st = Idle ∨ (∃ z, st = AwaitingOutgoingConnection z) →
  stepped n (set_state st (set_peers ps self)).
Proof.
  intros Hi Hd Hps Hst. pose proof (di_ctrl _ _ Hi) as [_ Hc]. split.
  - apply (inv_frame n self); [done| |by split]. split; try done. cbn. by intros ->; destruct Hst as [->|[|[]]].
  - unfold dl_ok in *. cbn. by destruct Hst as [->|[->|[z ->]]].
Qed.

Lemma set_state_id self ps : set_peers ps self = set_state (state self) (set_peers ps self).
Proof. done. Qed.

Lemma inv_reset n env range self : dl_inv n self → (∀ s e, range = Some (s, e) → 0 ≤ s) → n ≤ 2 ^ 60 →
  wlp (reset env range) (λ _ self', stepped n self') self.
Proof.
  intros Hi Hrange Hn. unfold reset. apply wlp_bind, wlp_wp, wp_get, wlp_bind.
  assert (∀ s1 : Controller, dl_inv n (set_state Idle (set_failures 0 s1)) →
    wlp (_ ← modify (set_failures 0); _ ← to_state Idle; peers_transition env) (λ _ self', stepped n self') s1) as Hend.
  { intros s1 Hi1. apply wlp_bind, wlp_wp, wp_modify, wlp_bind, wlp_wp, wp_modify, wlp_wp.
    eapply wp_mono; [apply wp_peers_transition, Hi1|]. intros [] s2 (Hf & Hc & Hs & _). apply (stepped_searches n _ _ Hi1); [done|]. by split_and!. }
  assert (∀ s1 : Controller, dl_inv n s1 → dl_inv n (set_state Idle (set_failures 0 s1))) as Hset.
  { intros s1 Hi1. apply inv_state; [by apply inv_failures|done]. }
  pose proof Hi as [Hc Ht Hs [Hnum Hr Hnx Ha Hco] Hp].
  assert (∀ st en all g, goal_new (num_chunks (goal self)) st en all = Ok g → 0 ≤ st → (all = true → en = n ∧ st = 0) →
    dl_inv n (set_state Idle (set_failures 0 (set_next_chunk st (set_goal g self))))) as Hnew.
  { intros st en all g Hg Hst Hall. unfold goal_new in Hg. case_match eqn:Hb; [|done]. injection Hg as <-. apply andb_true_iff in Hb as [Hb1%Z.ltb_lt Hb2%Z.leb_le].
    split; [by destruct Hc|done|done| |done]. split; cbn; [done|lia|lia| |done]. intros Hat. destruct (Hall Hat) as [-> ->].
    split_and!; [done|by exists 0|]. intros i Hi1 Hi2. unfold PORA_CHUNK_SIZE in *. lia. }
  destruct range as [[st en]|].
  - destruct (goal_new (num_chunks (goal self)) st en false) as [g|e| |] eqn:Hg; [|done..].
    apply wlp_bind, wlp_wp. eapply wp_lift; [done|]. apply wlp_bind, wlp_wp, wp_modify, wlp_wp, wp_modify, Hend.
    by apply (Hnew st en false g Hg); [eapply Hrange|].
  - destruct (all_chunks (goal self)) eqn:Hall.
    + apply wlp_wp, wp_ret, Hend, Hset, Hi.
    + destruct (goal_new_file (num_chunks (goal self))) as [g|e| |] eqn:Hg; [|done..].
      apply wlp_bind, wlp_wp. eapply wp_lift; [done|]. apply wlp_bind, wlp_wp, wp_modify, wlp_wp, wp_modify, Hend.
      by apply (Hnew 0 _ true g Hg).
Qed.

Lemma stepped_event n self self' : dl_inv n self → dl_ok self → n ≤ 2 ^ 60 → dl_step self self' → stepped n self'.
Proof.
  intros Hi Hd Hn Hstep. pose proof (di_ctrl _ _ Hi) as Hc. pose proof (co_peers _ Hc) as Hps.
  destruct Hstep as [env self self' Henv Hrun|env p a b self self' Hrun|env p sc self self' Hsc Hrun|env p e self self' Hrun
    |env p self self' Hrun|p self self' Hrun|env p r self self' Hr Hrun|env p self self' Hrun|env range self self' Hcf Hrange Hrun|s c self Hs Hcc];
    try (apply (wlp_run _ (λ _, stepped n) _ _ _ Hrun)).
  - apply wlp_wp. eapply wp_mono; [apply (wp_transition env Henv); split_and!; [done|done|apply Hi]|].
    intros [] s' [(Hf & Hc' & Hd' & _)|(Hf & Hc' & Hd' & _)]; (split; [by apply (inv_frame n self)|done]).
  - apply wlp_wp. eapply wp_mono; [by apply wp_on_peer_found|]. intros b' s' Hs'. by eapply stepped_searches.
  - unfold on_peer_announced. apply wlp_wp, wp_bind, wp_on_peers, wp_bind, wp_on_peers, wp_ret. rewrite set_state_id.
    apply (stepped_peers n self); [done|done| |by left]. by apply update_state_force_ok, add_new_peer_ok.
  - unfold on_dial_failed. apply wlp_wp. destruct e; apply wp_bind, wp_on_peers, wp_when; intros _; unfold to_state; try apply wp_modify;
      try rewrite set_state_id; (apply (stepped_peers n self); [done|done|by apply update_state_ok|]); [by eauto|by left|by auto|by left].
  - unfold on_peer_connected. apply wlp_wp, wp_bind, wp_on_peers, wp_ret. rewrite set_state_id.
    apply (stepped_peers n self); [done|done|by apply update_state_ok|by left].
  - unfold on_peer_disconnected. apply wlp_wp, wp_bind, wp_on_peers, wp_ret. rewrite set_state_id.
    apply (stepped_peers n self); [done|done|by apply update_state_force_ok|by left].
  - by apply wlp_on_response.
  - unfold on_request_failed. apply wlp_bind.
    assert (∀ msg, wlp (_ ← ctx_report_peer p LowToleranceError msg; mret true) (λ b s', if (b : bool) then stepped n s' else s' = self) self) as Hrep.
    { intros msg. unfold ctx_report_peer, ctx_send. apply wlp_bind, wlp_wp, wp_modify, wlp_wp, wp_ret.
      apply (stepped_searches n self); [done|done|]. split_and!; [done|by destruct Hc|done]. }
    assert (wlp (handle_on_response_mismatch p) (λ b s', if b then stepped n s' else s' = self) self) as Hmis.
    { unfold handle_on_response_mismatch. apply wlp_bind, wlp_wp, wp_get. destruct (state self); try apply Hrep.
      case_bool_decide; [by apply wlp_wp, wp_ret|apply Hrep]. }
    eapply wlp_mono; [exact Hmis|]. intros [] s1 Hs1; [by apply wlp_wp, wp_ret|]. subst s1. apply wlp_wp.
    eapply wp_mono; [apply wp_failure; split_and!; [done|done|apply Hi]|]. intros [] s2 (Hf & (Hc2 & Hd2 & _) & _). split; [by apply (inv_frame n self)|done].
  - by apply inv_reset.
  - split; [|done]. destruct Hi as [_ Ht Hst [Hnum Hr Hnx Ha Hco] Hp]. split; [by split|done|done|by split|done].
Qed.

Lemma dl_reach_inv n self : dl_reach n self → stepped n self.
Proof.
  induction 1 as [now config id start st en all g net s c Ht Hn Hst Hg Hall Hs Hc|self self' Hr IH Hstep].
  - unfold goal_new in Hg. case_match eqn:Hb; [|done]. injection Hg as <-. apply andb_true_iff in Hb as [Hb1%Z.ltb_lt Hb2%Z.leb_le].
    split; [|done]. split; [split; [intros p i; cbn; by rewrite lookup_empty|done]|done|done| |intros k; cbn; by rewrite lookup_nil].
    split; cbn; [done|lia|lia| |done]. intros Hat. destruct (Hall Hat) as [-> Hdiv]. split_and!; [done|done|]. intros i Hi. lia.
  - destruct IH as [Hi Hd]. eapply stepped_event; [done|done|by eapply dl_reach_bound|done].
Qed.


(** C7: Downloads store what they have to, and only what was validated.  Through
    any sequence of events, every array that a download writes is one whose
    proof the store accepted in the call right before; and when the download of
    a file is complete the store has finalized the file, and every segment of
    it from the first one requested on was written in full or was outside of the
    shard of the node. *)
Theorem download_stores_shard n self : dl_reach n self →
  puts_validated self ∧
  (state self = Completed → all_chunks (goal self) = true →
   CFinalize (id_seq (tx_id self)) (id_hash (tx_id self)) (Ok true) ∈ calls self ∧
   ∀ i, index_start (goal self) ≤ i * PORA_CHUNK_SIZE < n → accounted self i).
Proof.
  intros Hr. destruct (dl_reach_inv n self Hr) as [[_ _ _ Hg Hp] _]. split; [done|]. intros Hst Hall.
  destruct (go_completed _ _ Hg Hst Hall) as [Hn Hfin], (go_aligned _ _ Hg Hall) as (_ & _ & Hacc). split; [done|]. intros i Hi. apply Hacc; lia.
Qed.

End theorems.

(** ** A download of one sector *)

Section example.

(** A store that accepts everything. *)
#[local] Instance accepting_store : ChunkStore unit := {|
  cs_shard_config _ := shard_default;
  cs_next_tx_seq _ := 1;
  cs_validate_and_insert_range_proof _ _ := mret true;
  cs_put_chunks_with_tx_hash _ _ _ _ := mret true;
  cs_finalize_tx_with_hash _ _ := mret true;
|}.
#[local] Instance accepting_store_laws : ChunkStoreLaws unit.
Proof. refine {| cs_inv := λ _, True |}; done. Defined.

#[local] Instance z_multiaddr : MultiaddrOps Z Z := {| multiaddr_empty := 0; push_p2p := λ _ a, a |}.
#[local] Existing Instance recorded.

Definition example_env : Env Z Z := Env_mk 0 0 0 head (λ _, 0).
Definition example_locations : FileLocationCache (PeerId := Z) (Multiaddr := Z) (PQ := gmap Z Z) (FQ := gmap TxID Z) :=
  (insert_peer_config 6 shard_default (flc_new config_default)).2.
Definition example_file : ChunkArrayWithProof :=
  ChunkArrayWithProof_mk (ChunkArray_mk (replicate 256 7) 0) (RangeProof_mk (Proof_mk [] []) (Proof_mk [] [])).

(** A peer is found and dialled, another one announces the file and sends it. *)
Definition example_start : SerialSyncController (PeerId := Z) (Multiaddr := Z) (PQ := gmap Z Z) (FQ := gmap TxID Z) (St := unit * list StoreCall) :=
  controller_new 0 sync_config_default example_tx 1024 (FileSyncGoal_mk 1 0 1 true) [] (tt, []) example_locations.
Definition example_found := (on_peer_found example_env 6 0 example_start).2.
Definition example_dialled := (transition example_env example_found).2.
Definition example_connected := (on_peer_announced example_env 5 shard_default example_dialled).2.
Definition example_requested := (transition example_env example_connected).2.
Definition example_completed := (on_response example_env 5 example_file example_requested).2.

Lemma example_env_ok : env_ok example_env.
Proof. split; [|cbn; lia]. intros [|x l]; [done|]. cbn. by left. Qed.

Lemma example_start_reach : dl_reach 1 example_start.
Proof.
  eapply (reach_start 1 0 sync_config_default example_tx 1024 0 1 true).
  - by split_and!.
  - done.
  - done.
  - done.
  - intros _. split; [done|by exists 0].
  - done.
  - split.
    + exists config_default, []. split_and!; [done|done|]. exact (flc_ok_new config_default ltac:(cbn; lia)).
    + intros p s Hs. change (<[6 := shard_default]> (∅ : gmap Z ShardConfig) !! p = Some s) in Hs.
      apply lookup_insert_Some in Hs as [[<- <-]|[_ Hs]]; [done|by rewrite lookup_empty in Hs].
Qed.

Lemma snd_run {S} (m : M S ()) s : (m s).1 = Ok tt → m s = (Ok tt, (m s).2).
Proof. destruct (m s). by intros [= ->]. Qed.

Lemma example_requested_reach : dl_reach 1 example_connected ∧ dl_reach 1 example_requested.
Proof.
  assert (dl_reach 1 example_found) as H1.
  { eapply reach_step; [exact example_start_reach|]. apply (step_found example_env 6 0 true). vm_compute. reflexivity. }
  assert (dl_reach 1 example_dialled) as H2.
  { eapply reach_step; [exact H1|]. apply (step_transition example_env); [exact example_env_ok|]. apply snd_run. vm_compute. reflexivity. }
  assert (dl_reach 1 example_connected) as H3.
  { eapply reach_step; [exact H2|]. apply (step_announced example_env 5 shard_default); [done|]. apply snd_run. vm_compute. reflexivity. }
  split; [done|]. eapply reach_step; [exact H3|]. apply (step_transition example_env); [exact example_env_ok|]. apply snd_run. vm_compute. reflexivity.
Qed.

Lemma example_completed_reach : dl_reach 1 example_completed.
Proof.
  eapply reach_step; [apply example_requested_reach|]. apply (step_response example_env 5 example_file); [by vm_compute|].
  apply snd_run. vm_compute. reflexivity.
Qed.


Lemma download_stores_shard_witness : state example_completed = Completed ∧ puts_validated example_completed ∧ accounted example_completed 0.
Proof.
  destruct (download_stores_shard 1 example_completed example_completed_reach) as [Hp Hc].
  assert (state example_completed = Completed) as Hst by (vm_compute; reflexivity).
  destruct (Hc Hst ltac:(by vm_compute)) as [_ Ha]. split; [exact Hst|]. split; [exact Hp|]. apply Ha. vm_compute. split; done.
Defined.

End example.
