(* ===== verification/SyncService.v ===== *)
(** The sync service: [node/sync/src/service.rs].

    The service owns the downloads, one controller for every transaction, serves
    chunks to other nodes and passes announcements on to the automatic
    synchronization.  The controllers share the network, the store and the
    cache of the service: a call runs on the controller with the current ones. *)

From stdpp Require Import sorting list_numbers.
From S2P Require Import Prelude HashElement Ssz MerkleProof NodeStore AppendMerkle Bytes FlowDb Shard MerkleLight SharedTypes.
From S2P Require Import Seal ChunkData SealInfo EntryBatch Serde FlowStore TxStore LogManager FileLocationCache SyncController.
Local Open Scope Z_scope.

(** [Transaction::id] *)
Definition tx_get_id `{Keccak} (tx : Transaction) : TxID := TxID_mk (SharedTypes.tx_seq tx) (tx_hash tx).

Section service.
Context `{Keccak, KeyValueDB KV, Bitmap64 B, !KeyValueIter KV}.
Context {NMt NM : Type} `{!NodeStore NMt OptionalHash, !NodeStore NM OptionalHash}.
Context {PeerId Multiaddr PQ FQ : Type} `{Countable PeerId}.
Context `{!PriorityQueue PeerId PQ, !PriorityQueue TxID FQ, !MultiaddrOps PeerId Multiaddr}.
Context (clock : ChunkArray → Z → Z).
Local Abbreviation manager := (LogManager KV (MerkleManager NMt NM)).
Local Abbreviation Cache := (FileLocationCache (PeerId := PeerId) (Multiaddr := Multiaddr) (PQ := PQ) (FQ := FQ)).
Local Abbreviation Controller := (SerialSyncController (PeerId := PeerId) (Multiaddr := Multiaddr) (PQ := PQ) (FQ := FQ) (St := manager)).
Local Abbreviation Message := (NetworkMessage PeerId Multiaddr).
#[local] Instance service_store : ChunkStore manager := log_manager_store (B := B) clock.

(** The two channels of [AutoSyncManager] that the service sends to. *)
Record AutoSyncChannels := AutoSyncChannels_mk { file_announcement_send : list Z; new_file_send : list Z }.

Record SyncService := SyncService_mk {
  ss_config : SyncConfig;
  ss_ctx : list Message;
  ss_store : manager;
  ss_cache : Cache;
  controllers : gmap Z Controller;
  auto_sync_manager : option AutoSyncChannels;
}.
Implicit Types (self : SyncService) (c : Controller).

Definition set_ss_ctx (l : list Message) self := SyncService_mk (ss_config self) l (ss_store self) (ss_cache self) (controllers self) (auto_sync_manager self).
Definition set_ss_store (s : manager) self := SyncService_mk (ss_config self) (ss_ctx self) s (ss_cache self) (controllers self) (auto_sync_manager self).
Definition set_controllers (m : gmap Z Controller) self := SyncService_mk (ss_config self) (ss_ctx self) (ss_store self) (ss_cache self) m (auto_sync_manager self).
Definition set_auto_sync (a : option AutoSyncChannels) self := SyncService_mk (ss_config self) (ss_ctx self) (ss_store self) (ss_cache self) (controllers self) a.

Definition ss_send (msg : Message) : M SyncService () := modify (λ self, set_ss_ctx (ss_ctx self ++ [msg]) self).
Definition ss_ban_peer (peer_id : PeerId) (msg : string) : M SyncService () := ss_send (ReportPeer peer_id Fatal msg).

(** The shared parts of a controller. *)
Definition load self c : Controller := set_ctx (ss_ctx self) (set_store (ss_store self) (set_file_location_cache (ss_cache self) c)).
Definition save (tx_seq : Z) c self : SyncService :=
  SyncService_mk (ss_config self) (ctx c) (store c) (file_location_cache c) (<[tx_seq := c]> (controllers self)) (auto_sync_manager self).

(** A call on the controller of a transaction, if there is one. *)
Definition with_controller {A} (tx_seq : Z) (none : M SyncService A) (m : M Controller A) : M SyncService A :=
  λ self, match controllers self !! tx_seq with
  | None => none self
  | Some c => let '(r, c') := m (load self c) in (r, save tx_seq c' self)
  end.

(** [for controller in self.controllers.values_mut()] *)
Definition all_controllers (m : M Controller ()) : M SyncService () :=
  self ← get;
  for_each (fst <$> map_to_list (controllers self)) (λ tx_seq, with_controller tx_seq (mret tt) m).

Section call.
Context (env : Env PeerId Multiaddr).

(** ** Events about peers *)

Definition service_on_dial_failed (peer_id : PeerId) (err : DialError) : M SyncService () :=
  all_controllers (_ ← on_dial_failed env peer_id err; transition env).
Definition service_on_peer_connected (peer_id : PeerId) : M SyncService () :=
  all_controllers (_ ← on_peer_connected env peer_id; transition env).
Definition service_on_peer_disconnected (peer_id : PeerId) : M SyncService () :=
  all_controllers (_ ← on_peer_disconnected peer_id; transition env).

(** ** Serving chunks *)

Definition handle_chunks_request_with_db_err (peer_id : PeerId) (request_id : Z) (request : GetChunksRequest) : M SyncService () :=
  self ← get;
  if gcr_index_end request <=? gcr_index_start request then ss_ban_peer peer_id "Invalid chunk indices"
  else if max_chunks_to_request (ss_config self) <? gcr_index_end request - gcr_index_start request
       then ss_ban_peer peer_id "Too many chunks requested"
  else
    o ← gets_ok (λ self, get_tx_by_seq_number (tx_store (ss_store self)) (id_seq (gcr_tx_id request)));
    match o with
    | None => ss_ban_peer peer_id "Tx not found"
    | Some tx =>
        _ ← when (bool_decide (tx_get_id tx ≠ gcr_tx_id request))
              (ss_send (SendErrorResponse peer_id request_id InvalidRequest "Tx not found (Reverted)"));
        if bytes_to_chunks (tx_byte_size tx) <? gcr_index_end request then ss_ban_peer peer_id "Chunk index out of bound"
        else
          result ← gets_ok (λ self, get_chunks_with_proof_by_tx_and_index_range (B := B) (ss_store self) (id_seq (gcr_tx_id request))
                     (gcr_index_start request) (gcr_index_end request) (Some (gcr_merkle_tx_seq request)));
          match result with
          | Some chunks => ss_send (SendResponse peer_id request_id chunks)
          | None => ss_send (SendErrorResponse peer_id request_id InvalidRequest "Chunks not found")
          end
    end.

Definition on_get_chunks_request (peer_id : PeerId) (request_id : Z) (request : GetChunksRequest) : M SyncService () :=
  r ← attempt (handle_chunks_request_with_db_err peer_id request_id request);
  match r with
  | inl _ => mret tt
  | inr _ => ss_send (SendErrorResponse peer_id request_id ServerError "DB error")
  end.

(** ** Responses *)

Definition on_chunks_response (peer_id : PeerId) (request_tx_id : TxID) (response : ChunkArrayWithProof) : M SyncService () :=
  with_controller (id_seq request_tx_id) (mret tt) (_ ← on_response env peer_id response; transition env).
Definition on_rpc_error (peer_id : PeerId) (request_tx_id : TxID) : M SyncService () :=
  with_controller (id_seq request_tx_id) (mret tt) (_ ← on_request_failed env peer_id; transition env).

(** ** Starting downloads *)

Definition on_find_file (tx_seq : Z) : M SyncService () :=
  status ← gets_ok (λ self, get_tx_status (tx_store (ss_store self)) tx_seq);
  if bool_decide (is_Some status) then mret tt
  else
    o ← gets_ok (λ self, get_tx_by_seq_number (tx_store (ss_store self)) tx_seq);
    match o with
    | Some tx => ss_send (Publish [FindFile (tx_get_id tx) None])
    | None => bail "Transaction not found"
    end.

(** [while start < end]; every round moves to a later segment. *)
Fixpoint start_index_loop (fuel : nat) (s : manager) (tx : Transaction) (end_ start : Z) : outcome (option Z) :=
  if start <? end_ then
    match fuel with
    | O => Diverge
    | S fuel' =>
        o ← get_chunks_by_tx_and_index_range (B := B) s (SharedTypes.tx_seq tx) start (Z.min (wrap64 (start + PORA_CHUNK_SIZE)) end_);
        match o with
        | None => Ok (Some start)
        | Some _ =>
            start_index_loop fuel' s tx end_ (segment_to_sector
              (next_segment_index (lm_shard_config s) (sector_to_segment start) (sector_to_segment (start_entry_index tx))))
        end
    end
  else Ok None.

Definition tx_sync_start_index (s : manager) (tx : Transaction) : outcome (option Z) :=
  let start_segment := sector_to_segment (start_entry_index tx) in
  let end_ := bytes_to_chunks (tx_byte_size tx) in
  let start := if in_range (lm_shard_config s) start_segment then 0
               else segment_to_sector (next_segment_index (lm_shard_config s) 0 start_segment) in
  start_index_loop (Z.to_nat (end_ / PORA_CHUNK_SIZE + 1)) s tx end_ start.

(** A new controller; [None] if the file needs no more data. *)
Definition start_controller (tx_seq : Z) (maybe_range : option (Z * Z)) : M SyncService (option Controller) :=
  o ← gets_ok (λ self, get_tx_by_seq_number (tx_store (ss_store self)) tx_seq);
  match o with
  | None => bail "Transaction not found"
  | Some tx =>
      let num_chunks := bytes_to_chunks (tx_byte_size tx) in
      status ← gets_ok (λ self, get_tx_status (tx_store (ss_store self)) tx_seq);
      if bool_decide (is_Some status) then bail "File already exists"
      else
        r ← match maybe_range with
            | Some (start, end_) => mret (Some (start, end_, false))
            | None =>
                o ← gets_ok (λ self, tx_sync_start_index (ss_store self) tx);
                match o with
                | Some s => mret (Some (s, num_chunks, true))
                | None =>
                    finalized ← zoom ss_store set_ss_store (finalize_tx_with_hash (B := B) clock (SharedTypes.tx_seq tx) (tx_hash tx));
                    _ ← when finalized (ss_send (AnnounceLocalFile (tx_get_id tx)));
                    mret None
                end
            end;
        match r with
        | None => mret None
        | Some (index_start, index_end, all_chunks) =>
            if (index_end <=? index_start) || (num_chunks <? index_end) then bail "Invalid chunk range"
            else
              g ← lift (goal_new num_chunks index_start index_end all_chunks);
              self ← get;
              mret (Some (controller_new (env_now env) (ss_config self) (tx_get_id tx) (start_entry_index tx) g (ss_ctx self) (ss_store self) (ss_cache self)))
        end
  end.

Definition tx_reverted c : bool := match state c with Failed (TxReverted _) => true | _ => false end.

(** [maybe_range] and a peer that has the file. *)
Definition on_start_sync_file (tx_seq : Z) (maybe_range : option (Z * Z)) (maybe_peer : option (PeerId * Multiaddr)) : M SyncService () :=
  self ← get;
  _ ← when (match controllers self !! tx_seq with Some c => tx_reverted c | None => false end)
        (modify (λ self, set_controllers (delete tx_seq (controllers self)) self));
  self ← get;
  go ← match controllers self !! tx_seq with
       | Some _ => mret true
       | None =>
           o ← start_controller tx_seq maybe_range;
           match o with
           | Some c => _ ← modify (λ self, set_controllers (<[tx_seq := c]> (controllers self)) self); mret true
           | None => mret false
           end
       end;
  when go
    (with_controller tx_seq (mret tt)
       (c ← get;
        _ ← when (is_completed_or_failed c) (reset env maybe_range);
        _ ← match maybe_peer with Some (peer_id, addr) => _ ← on_peer_found env peer_id addr; mret tt | None => mret tt end;
        transition env)).

(** The error message, empty on success. *)
Definition on_sync_file_request (tx_seq : Z) (maybe_range : option (Z * Z)) : M SyncService string :=
  self ← get;
  if bool_decide (maybe_range = None) && negb (sync_file_by_rpc_enabled (ss_config self)) then mret "Disabled to sync file"
  else if bool_decide (controllers self !! tx_seq = None) && (max_sync_files (ss_config self) <=? Z.of_nat (size (controllers self)))
       then mret "Max sync file limitation reached"
  else
    r ← attempt (on_start_sync_file tx_seq maybe_range None);
    mret (match r with inl _ => "" | inr e => e end).

Definition on_find_file_request (tx_seq : Z) : M SyncService string :=
  r ← attempt (on_find_file tx_seq);
  mret (match r with inl _ => "" | inr e => e end).

(** ** Announcements *)

Definition on_announce_file_gossip (announced : TxID) (peer_id : PeerId) (addr : Multiaddr) : M SyncService () :=
  let tx_seq := id_seq announced in
  _ ← modify (λ self, set_auto_sync ((λ a, AutoSyncChannels_mk (file_announcement_send a ++ [tx_seq]) (new_file_send a)) <$> auto_sync_manager self) self);
  with_controller tx_seq
    (self ← get;
     if negb (sync_file_on_announcement_enabled (ss_config self)) then mret tt
     else
       r ← attempt (gets_ok (λ self, get_tx_status (tx_store (ss_store self)) tx_seq));
       match r with
       | inl None => _ ← attempt (on_start_sync_file tx_seq None (Some (peer_id, addr))); mret tt
       | _ => mret tt
       end)
    (c ← get;
     when (all_chunks (goal c)) (_ ← on_peer_found env peer_id addr; transition env)).

Definition on_announce_chunks_gossip (announced : TxID) (announced_start announced_end : Z) (peer_id : PeerId) (at_ : Multiaddr) : M SyncService () :=
  with_controller (id_seq announced) (mret tt)
    (c ← get;
     when (negb (all_chunks (goal c)) && (index_start (goal c) =? announced_start) && (index_end (goal c) =? announced_end))
       (_ ← on_peer_found env peer_id at_; transition env)).

(** [ShardedFile]: a transaction and the shard of the sender *)
Definition peer_announced (from : PeerId) (shard_config : ShardConfig) : M Controller () :=
  match shard_new (shard_id shard_config) (num_shard shard_config) with
  | Ok sc => _ ← on_peer_announced env from sc; transition env
  | _ => mret tt
  end.

Definition on_new_file_gossip (from : PeerId) (file_tx_id : TxID) (shard_config : ShardConfig) : M SyncService () :=
  with_controller (id_seq file_tx_id)
    (modify (λ self, set_auto_sync ((λ a, AutoSyncChannels_mk (file_announcement_send a) (new_file_send a ++ [id_seq file_tx_id])) <$> auto_sync_manager self) self))
    (peer_announced from shard_config).

Definition on_answer_file (from : PeerId) (file_tx_id : TxID) (shard_config : ShardConfig) : M SyncService () :=
  with_controller (id_seq file_tx_id) (mret tt) (peer_announced from shard_config).

(** ** Ending downloads *)

Definition on_terminate_file_sync (min_tx_seq : Z) (is_reverted : bool) : M SyncService Z :=
  self ← get;
  let to_terminate :=
    if is_reverted then filter (λ tx_seq, min_tx_seq ≤ tx_seq) (fst <$> map_to_list (controllers self))
    else if bool_decide (is_Some (controllers self !! min_tx_seq)) then [min_tx_seq] else [] in
  _ ← modify (λ self, set_controllers (foldl (λ m tx_seq, delete tx_seq m) (controllers self) to_terminate) self);
  mret (Z.of_nat (length to_terminate)).

Definition on_heartbeat : M SyncService () :=
  _ ← all_controllers (transition env);
  modify (λ self, set_controllers (filter (λ p, match state p.2 with Completed => false | _ => true end = true) (controllers self)) self).

End call.

End service.
