(* ===== verification/ServiceTheorems.v ===== *)
(** The sync service over the log manager: where a download starts, and what
    happens to requests that should not have been sent. *)

From stdpp Require Import sorting list_numbers.
From S2P Require Import Prelude HashElement Ssz SszFacts MerkleSpec MerkleProof MerkleProofComplete MerkleProofSound NodeStore AppendMerkle.
From S2P Require Import NodeManager NodeManagerFacts TreeRules Recompute TreeOps TreeFill TreeHistory TreeRefine TreeSpec TreeTiles.
From S2P Require Import ProofConvert ChunkRoots Bytes FlowDb Shard MerkleLight SharedTypes Seal ChunkData ChunkDataFacts.
From S2P Require Import ChunkDataInsert SealInfo EntryBatch EntryBatchFacts Serde BatchRoot BatchTheorems.
From S2P Require Import BatchStored FlowStore FlowStoreFacts FlowAppend FlowTruncate FlowSeal FlowReach SszTheorems FlowTheorems.
From S2P Require Import TxStore TxStoreFacts TxTheorems LogManager DbFrame LogTrees LogInv LogPad LogSpec LogOps LogTheorems.
From S2P Require Import FileLocationCache FileCacheTheorems SyncController SyncControllerFacts SyncDownload DownloadTheorems SyncService.
Local Open Scope Z_scope.

(** ** Where a download starts *)

Section start.
Context `{Keccak, Bitmap64 B, !Bitmap64Laws B, KeyValueDBLaws KV, !KeyValueIter KV, !KeyValueIterLaws KV}.
Context {NMt NM : Type} `{!NodeStore NMt OptionalHash, !NodeStoreLaws NMt OptionalHash}.
Context `{!NodeStore NM OptionalHash, !NodeStoreLaws NM OptionalHash}.
Context (miner : H256) (now : ChunkArray → Z → Z).
Local Abbreviation manager := (LogManager KV (MerkleManager NMt NM)).
Implicit Types (s self : manager) (tx : Transaction).

(** The segments of the file [tx] that belong to the shard. *)
Definition own_segment s tx (i : Z) : Prop :=
  0 ≤ i ∧ i * PORA_CHUNK_SIZE < bytes_to_chunks (tx_byte_size tx) ∧
  in_range (lm_shard_config s) (sector_to_segment (start_entry_index tx) + i) = true.

(** The data of a segment that the store has. *)
Definition segment_data (f : Z → option Z) tx (i : Z) : option ChunkArray :=
  tx_range f tx (i * PORA_CHUNK_SIZE) (Z.min ((i + 1) * PORA_CHUNK_SIZE) (bytes_to_chunks (tx_byte_size tx))).

Lemma start_index_loop_spec s tx (present : Z → option ChunkArray) n fuel k : shard_fits (lm_shard_config s) → n = bytes_to_chunks (tx_byte_size tx) →
  n ≤ 2 ^ 60 → 0 ≤ k ≤ 2 ^ 51 → (Z.to_nat (n / PORA_CHUNK_SIZE + 1 - k) ≤ fuel)%nat →
  (∀ i, 0 ≤ i → i * PORA_CHUNK_SIZE < n → get_chunks_by_tx_and_index_range (B := B) s (SharedTypes.tx_seq tx) (i * PORA_CHUNK_SIZE)
     (Z.min ((i + 1) * PORA_CHUNK_SIZE) n) = Ok (present i)) →
  (∀ i, own_segment s tx i → i < k → present i ≠ None) → own_segment s tx k ∨ n ≤ k * PORA_CHUNK_SIZE →
  ∃ o, start_index_loop (B := B) fuel s tx n (k * PORA_CHUNK_SIZE) = Ok o ∧
    match o with
    | Some st => ∃ i, st = i * PORA_CHUNK_SIZE ∧ own_segment s tx i ∧ present i = None ∧ ∀ j, own_segment s tx j → j < i → present j ≠ None
    | None => ∀ j, own_segment s tx j → present j ≠ None
    end.
Proof.
  intros [Hsh Hnum] Hn Hmax. assert (PORA_CHUNK_SIZE = 1024) as HP by done. rewrite HP.
  revert k. induction fuel as [|fuel IH]; intros k Hk Hfuel Hread Hbefore Hown; cbn [start_index_loop];
    (destruct (Z.ltb_spec (k * 1024) n) as [Hlt|Hge]; [|exists None; split; [done|]; intros j Hj; apply Hbefore; [done|]; destruct Hj as (_ & Hj & _); rewrite HP in *; lia]).
  { exfalso. assert (k ≤ n / 1024) by (apply Z.div_le_lower_bound; lia). lia. }
  destruct Hown as [Hown|?]; [|lia]. rewrite HP, wrap64_small by lia.
  replace (k * 1024 + 1024) with ((k + 1) * 1024) by lia. rewrite Hread, bind_Ok by lia. destruct (present k) as [chunks|] eqn:Hpk.
  - unfold sector_to_segment. rewrite HP, Z.div_mul by done. set (st := start_entry_index tx / 1024).
    destruct (next_segment_index_least (lm_shard_config s) k st Hsh) as (Hnext & Hin & Hskip); [lia|lia|].
    set (k' := next_segment_index (lm_shard_config s) k st) in *. assert (k < 2 ^ 50) by lia.
    unfold segment_to_sector. rewrite HP, wrap64_small by lia. apply IH; [lia|lia|done| |].
    + intros i Hi Hik. destruct (decide (i < k)) as [?|?]; [by apply Hbefore|]. destruct (decide (i = k)) as [->|?]; [by rewrite Hpk|].
      exfalso. destruct Hi as (_ & _ & Hi). unfold sector_to_segment in Hi. rewrite HP in Hi. rewrite Hskip in Hi by lia. done.
    + destruct (decide (n ≤ k' * 1024)) as [?|?]; [by right|left]. split_and!; [lia|lia|exact Hin].
  - exists (Some (k * 1024)). split; [done|]. exists k. by split_and!.
Qed.

Lemma get_segment_spec GS LF f log n hist self tx seq (i : Z) : manager_ok (B := B) miner GS LF f log n hist self → 0 ≤ seq →
  tl_txs log !! Z.to_nat seq = Some tx → 1 ≤ start_entry_index tx →
  start_entry_index tx + bytes_to_chunks (tx_byte_size tx) ≤ 2 ^ 63 → 0 ≤ i → i * PORA_CHUNK_SIZE < bytes_to_chunks (tx_byte_size tx) →
  get_chunks_by_tx_and_index_range (B := B) self (SharedTypes.tx_seq tx) (i * PORA_CHUNK_SIZE)
    (Z.min ((i + 1) * PORA_CHUNK_SIZE) (bytes_to_chunks (tx_byte_size tx))) = Ok (segment_data f tx i).
Proof.
  intros Hok Hseq Htx Hst Hend Hi Hin. assert (PORA_CHUNK_SIZE = 1024) as HP by done. rewrite HP in *.
  assert (SharedTypes.tx_seq tx = seq) as ->.
  { pose proof Hok as (Hs & _)%manager_stores. destruct (so_tx _ _ Hs _ _ Htx) as (_ & _ & Heq). lia. }
  rewrite (get_chunks_spec (B := B) miner GS LF f log n hist self seq) by (done || lia || (intros tx'; rewrite Htx; intros [= <-]; lia)).
  rewrite Htx. assert (bytes_to_entries (tx_byte_size tx) = bytes_to_chunks (tx_byte_size tx)) as -> by done.
  rewrite (proj2 (Z.ltb_ge _ _)) by lia. done.
Qed.

(** C21: The download of a file starts at its first segment that is missing: of
    the segments that belong to the shard of the node, all before it are in the
    store, and if there is none all of them are. *)
Theorem sync_starts_at_first_gap GS LF f log n hist self tx seq :
  log_reach (B := B) now GS LF f log n hist self → 0 ≤ seq → tl_txs log !! Z.to_nat seq = Some tx →
  shard_fits (lm_shard_config self) → 1 ≤ start_entry_index tx → bytes_to_chunks (tx_byte_size tx) ≤ 2 ^ 60 →
  start_entry_index tx + bytes_to_chunks (tx_byte_size tx) ≤ 2 ^ 63 →
  ∃ o, tx_sync_start_index (B := B) self tx = Ok o ∧
    match o with
    | Some st => ∃ i, st = i * PORA_CHUNK_SIZE ∧ own_segment self tx i ∧ segment_data f tx i = None ∧
        ∀ j, own_segment self tx j → j < i → segment_data f tx j ≠ None
    | None => ∀ j, own_segment self tx j → segment_data f tx j ≠ None
    end.
Proof.
  intros Hr%(log_reach_ok miner) Hseq Htx Hsh Hst Hn Hend. unfold tx_sync_start_index.
  set (c := bytes_to_chunks (tx_byte_size tx)) in *. set (st := sector_to_segment (start_entry_index tx)).
  assert (0 ≤ c) as Hc. { unfold c, bytes_to_chunks. pose proof Hr as (Hs & _)%manager_stores. destruct (so_tx _ _ Hs _ _ Htx) as (_ & Hty & _).
    pose proof (tt_size _ Hty). assert (CHUNK_SIZE = 256) as -> by done. pose proof (Z.div_pos (tx_byte_size tx) 256). case_match; lia. }
  assert (PORA_CHUNK_SIZE = 1024) as HP by done.
  set (k := if in_range (lm_shard_config self) st then 0 else next_segment_index (lm_shard_config self) 0 st).
  assert (0 ≤ k ≤ 2 ^ 51 ∧ (∀ i, own_segment self tx i → ¬ i < k) ∧ (own_segment self tx k ∨ c ≤ k * PORA_CHUNK_SIZE) ∧
    (if in_range (lm_shard_config self) st then 0 else segment_to_sector (next_segment_index (lm_shard_config self) 0 st)) = k * PORA_CHUNK_SIZE)
    as (Hk & Hbefore & Hown & ->).
  { unfold k. pose proof Hsh as [Hok Hnum]. destruct (in_range (lm_shard_config self) st) eqn:Hin.
    - split_and!; [lia|lia|intros i (Hi & _); lia| |done].
      destruct (decide (c ≤ 0)); [right; lia|left]. split_and!; [lia|lia|]. by rewrite Z.add_0_r.
    - destruct (next_segment_index_least (lm_shard_config self) 0 st Hok) as (Hnx & Hin' & Hskip); [lia|lia|].
      set (k' := next_segment_index (lm_shard_config self) 0 st) in *. split_and!; [lia|lia| | |].
      + intros i (Hi & _ & Hr') Hlt. destruct (decide (i = 0)) as [->|?]; [rewrite Z.add_0_r in Hr'; unfold st in Hin; congruence|].
        fold st in Hr'. rewrite Hskip in Hr' by lia. done.
      + destruct (decide (c ≤ k' * PORA_CHUNK_SIZE)); [by right|left]. split_and!; [lia|lia|done].
      + unfold segment_to_sector. rewrite HP, wrap64_small by lia. done. }
  apply (start_index_loop_spec self tx (segment_data f tx) c); [done|done|done|done| |intros i Hi Hlt; by apply (get_segment_spec GS LF f log n hist self tx seq)| |done].
  - assert (0 ≤ c / PORA_CHUNK_SIZE) by (apply Z.div_pos; lia). lia.
  - intros i Hi Hlt. by destruct (Hbefore i Hi).
Qed.

End start.

(** ** A download that restarts *)

Section restart.
Context {PeerId Multiaddr PQ FQ : Type} `{Countable PeerId}.
Context `{!PriorityQueue PeerId PQ, !PriorityQueue TxID FQ, !MultiaddrOps PeerId Multiaddr}.
Context `{!PriorityQueueLaws PeerId PQ, !PriorityQueueLaws TxID FQ}.
Context {St : Type} `{!ChunkStore St, !ChunkStoreLaws St}.
Context `{Keccak, KeyValueDB KV, Bitmap64 B, !KeyValueIter KV}.
Context {NMt NM : Type} `{!NodeStore NMt OptionalHash, !NodeStore NM OptionalHash}.
#[local] Existing Instance recorded.
Local Abbreviation Controller :=
  (SerialSyncController (PeerId := PeerId) (Multiaddr := Multiaddr) (PQ := PQ) (FQ := FQ) (St := St * list StoreCall)).
Local Abbreviation Service :=
  (SyncService (PeerId := PeerId) (Multiaddr := Multiaddr) (PQ := PQ) (FQ := FQ) (KV := KV) (NMt := NMt) (NM := NM)).
Implicit Types (self : Controller) (server : Service) (p q : PeerId) (env : Env PeerId Multiaddr).

(** A node that serves the request bans the peer that sent it. *)
Definition banned_for (req : GetChunksRequest) : Prop :=
  ∀ server (client : PeerId) id, on_get_chunks_request (B := B) client id req server =
    (Ok tt, set_ss_ctx (ss_ctx server ++ [ReportPeer client Fatal "Invalid chunk indices"]) server).

Lemma empty_range_banned req : gcr_index_end req ≤ gcr_index_start req → banned_for req.
Proof.
  intros Hle server client id. unfold on_get_chunks_request, handle_chunks_request_with_db_err, attempt.
  unfold mbind, M_bind, get. by rewrite (proj2 (Z.leb_le _ _) Hle).
Qed.

(** C39: A failed dial restarts a completed download.  The state of a controller
    becomes idle when a peer that it was still connecting to cannot be dialled,
    also when all data is already there.  The next transition then sends a
    request for an empty range of chunks after the end of the file, and every
    node that receives it bans the sender. *)
Theorem dial_failure_restarts_download n env self q i : dl_reach n self → env_ok env →
  state self = Completed → all_chunks (goal self) = true → peers self !! q = Some i → pi_state i = Connecting →
  peers_cover [Connected] (peers self) → unlimited env self →
  wp (_ ← on_dial_failed env q OtherDialError; transition env)
    (λ _ self', ∃ p req, last (ctx self') = Some (SendRequest p (tx_id self) req) ∧ banned_for req) self.
Proof.
  intros Hr Henv Hst Hall Hq Hqi Hcov Hun. pose proof (dl_reach_inv n self Hr) as [Hi Hd].
  destruct (go_completed _ _ (di_goal _ _ Hi) Hst Hall) as [Hdone _], (go_aligned _ _ (di_goal _ _ Hi) Hall) as [Hend _].
  unfold on_dial_failed. apply wp_bind, wp_bind, wp_on_peers. unfold update_state. rewrite Hq, (bool_decide_true (pi_state i = Connecting)) by done. cbn [fst snd].
  rewrite bool_decide_true by done. cbn [when]. apply wp_modify. set (ps := <[q := _]> _).
  assert (stepped n (set_state Idle (set_peers ps self))) as [Hi' Hd'].
  { apply stepped_peers; [done|done| |by auto]. apply peers_ok_insert; [apply Hi|]. exact (co_peers _ (di_ctrl _ _ Hi) q i Hq). }
  eapply wp_mono; [apply (wp_idle_requests env Henv)|].
  - split_and!; [apply Hi'|done|apply Hi'].
  - done.
  - intros segment Hs. destruct (Hcov segment Hs) as (p & j & Hj & Hc & Hv). exists p, j. split_and!; [|done|done]. cbn. unfold ps.
    rewrite lookup_insert_ne; [done|]. intros ->. assert (i = j) as -> by congruence. rewrite Hqi in Hc. by apply list_elem_of_singleton in Hc.
  - done.
  - intros [] self' (p & j & req & _ & Hlast & (_ & Hs & He) & _). exists p, req. split; [exact Hlast|]. apply empty_range_banned.
    rewrite Hs, He. cbn. lia.
Qed.

End restart.

(** ** A request that is answered twice *)

Section twice.
Context `{Keccak, KeyValueDB KV, Bitmap64 B, !KeyValueIter KV}.
Context {NMt NM : Type} `{!NodeStore NMt OptionalHash, !NodeStore NM OptionalHash}.
Context {PeerId Multiaddr PQ FQ : Type} `{Countable PeerId}.
Context `{!PriorityQueue PeerId PQ, !PriorityQueue TxID FQ, !MultiaddrOps PeerId Multiaddr}.
Local Abbreviation Service :=
  (SyncService (PeerId := PeerId) (Multiaddr := Multiaddr) (PQ := PQ) (FQ := FQ) (KV := KV) (NMt := NMt) (NM := NM)).

(** The request names a transaction that was replaced in a reorganization: the
    error is sent, and then the chunks of the other transaction as well. *)
Lemma reverted_request_answered_twice (peer : PeerId) id req (self : Service) tx chunks :
  gcr_index_start req < gcr_index_end req → gcr_index_end req - gcr_index_start req ≤ max_chunks_to_request (ss_config self) →
  get_tx_by_seq_number (tx_store (ss_store self)) (id_seq (gcr_tx_id req)) = Ok (Some tx) → tx_get_id tx ≠ gcr_tx_id req →
  gcr_index_end req ≤ bytes_to_chunks (tx_byte_size tx) →
  get_chunks_with_proof_by_tx_and_index_range (B := B) (ss_store self) (id_seq (gcr_tx_id req)) (gcr_index_start req) (gcr_index_end req)
    (Some (gcr_merkle_tx_seq req)) = Ok (Some chunks) →
  on_get_chunks_request (B := B) peer id req self =
    (Ok tt, set_ss_ctx (ss_ctx self ++ [SendErrorResponse peer id InvalidRequest "Tx not found (Reverted)"; SendResponse peer id chunks]) self).
Proof.
  intros Hlt Hmax Htx Hne Hend Hget. unfold on_get_chunks_request, attempt.
  assert (handle_chunks_request_with_db_err (B := B) peer id req self =
    (Ok tt, set_ss_ctx (ss_ctx self ++ [SendErrorResponse peer id InvalidRequest "Tx not found (Reverted)"; SendResponse peer id chunks]) self)) as Hh.
  { unfold handle_chunks_request_with_db_err, mbind, M_bind, get, gets_ok. rewrite (proj2 (Z.leb_gt _ _) Hlt), (proj2 (Z.ltb_ge _ _) Hmax), Htx.
    rewrite bool_decide_true by done. unfold ss_send, modify, set_ss_ctx. cbn [when ss_store ss_ctx ss_config ss_cache controllers auto_sync_manager].
    rewrite (proj2 (Z.ltb_ge _ _) Hend). cbn [ss_store]. rewrite Hget. cbn [ss_store ss_ctx ss_config ss_cache controllers auto_sync_manager]. by rewrite <- app_assoc. }
  unfold mbind, M_bind. by rewrite Hh.
Qed.

End twice.

(** ** Examples *)

Section example.
#[local] Existing Instance accepting_store.
#[local] Existing Instance accepting_store_laws.
#[local] Existing Instance z_multiaddr.
#[local] Existing Instance recorded.
#[local] Existing Instance toy_keccak.
#[local] Existing Instance z_bitmap.
#[local] Existing Instance z_bitmap_laws.

Lemma example_completed_covers : peers_cover [Connected] (peers example_completed).
Proof.
  intros segment Hs. exists 5, (PeerInfo_mk 0 Connected shard_default 0). split_and!; [vm_compute; reflexivity|by left|].
  unfold valid_in_range, in_range. cbn. by rewrite Z.mod_1_r.
Qed.

Lemma dial_failure_restarts_download_witness :
  wp (_ ← on_dial_failed example_env 6 OtherDialError; transition example_env)
    (λ _ self', ∃ p req, last (ctx self') = Some (SendRequest p example_tx req) ∧
       banned_for (KV := memory) (B := bits64) (NMt := memory_manager OptionalHash) (NM := memory_manager OptionalHash)
         (PeerId := Z) (Multiaddr := Z) (PQ := gmap Z Z) (FQ := gmap TxID Z) req) example_completed.
Proof.
  apply (dial_failure_restarts_download 1 example_env example_completed 6 (PeerInfo_mk 0 Connecting shard_default 0)
    example_completed_reach example_env_ok); [by vm_compute..|exact example_completed_covers|by vm_compute].
Defined.

(** The file of one transaction whose data is not there yet. *)
Lemma sync_starts_at_first_gap_witness :
  tx_sync_start_index (B := bits64) toy_manager1 (toy_tx [] toy_hash 0) = Ok (Some 0) ∧
  own_segment toy_manager1 (toy_tx [] toy_hash 0) 0.
Proof.
  assert (shard_fits (lm_shard_config toy_manager1)) as Hf.
  { assert (lm_shard_config toy_manager1 = toy_config) as -> by (vm_compute; reflexivity). split; [by split_and!|done]. }
  assert (tl_txs log1 !! Z.to_nat 0 = Some (toy_tx [] toy_hash 0)) as Htx by reflexivity.
  assert (1 ≤ start_entry_index (toy_tx [] toy_hash 0)) as H1 by (vm_compute; done).
  assert (bytes_to_chunks (tx_byte_size (toy_tx [] toy_hash 0)) ≤ 2 ^ 60) as H2 by (vm_compute; done).
  assert (start_entry_index (toy_tx [] toy_hash 0) + bytes_to_chunks (tx_byte_size (toy_tx [] toy_hash 0)) ≤ 2 ^ 63) as H3 by (vm_compute; done).
  pose proof (sync_starts_at_first_gap toy_miner (λ _ _, 0) _ _ _ _ _ _ _ _ 0 manager1_reach ltac:(lia) Htx Hf H1 H2 H3) as (o & Ho & Hcase).
  assert (tx_sync_start_index (B := bits64) toy_manager1 (toy_tx [] toy_hash 0) = Ok (Some 0)) as H0 by (vm_compute; reflexivity).
  rewrite H0 in Ho. injection Ho as <-. destruct Hcase as (i & Hi & Hown & _). split; [exact H0|].
  assert (i = 0) as -> by (unfold PORA_CHUNK_SIZE in Hi; lia). exact Hown.
Defined.

End example.
