(* ===== verification/AutoSync.v ===== *)
(** Automatic synchronization: [node/sync/src/auto_sync/batcher.rs],
    [batcher_serial.rs], [batcher_random.rs], [historical_tx_writer.rs] and
    [manager.rs].

    The serial batcher downloads the files in the order of their transactions,
    a few at a time, and keeps in the data base how far it is; files that fail
    go to the queues of the sync store, from which the random batcher tries them
    again.  Requests to the sync service go over a channel: what is sent is
    recorded, and the answers are arguments of the operations. *)

From stdpp Require Import pretty sorting list_numbers.
From S2P Require Import Prelude HashElement Ssz MerkleProof NodeStore AppendMerkle Bytes FlowDb Shard MerkleLight SharedTypes.
From S2P Require Import Seal ChunkData SealInfo EntryBatch Serde FlowStore TxStore LogManager SyncStore FileLocationCache SyncController.
Local Open Scope Z_scope.

(** ** Requests to the sync service *)

Inductive SyncResult := SyncCompleted | SyncFailed | SyncTimeout.

#[export] Instance SyncResult_eq_dec : EqDecision SyncResult.
Proof. solve_decision. Defined.

Record SerialBatcherState := SerialBatcherState_mk {
  bs_tasks : list Z;
  bs_next : Z;
  bs_max : Z;
  bs_pendings : gmap Z SyncResult;
  bs_next_in_db : Z;
}.

Record RandomBatcherState := RandomBatcherState_mk {
  rs_name : string;
  rs_tasks : list Z;
  rs_pending_txs : Z;
  rs_ready_txs : Z;
  rs_cached_ready_txs : Z;
}.

Record SyncServiceState := SyncServiceState_mk {
  num_syncing : Z;
  state_catched_up : option bool;
  auto_sync_serial : option SerialBatcherState;
  auto_sync_random : option RandomBatcherState;
}.

(** The source prints the state of the download. *)
Record FileSyncInfo (PeerId : Type) := FileSyncInfo_mk {
  elapsed_secs : Z;
  fi_peers : PeerState → Z;
  fi_goal : FileSyncGoal;
  next_chunks : Z;
  fi_state : SyncState PeerId;
}.
Arguments FileSyncInfo_mk {PeerId}.

Inductive SyncRequest :=
  | SyncStateRequest
  | SyncStatus (tx_seq : Z)
  | SyncFile (tx_seq : Z)
  | SyncChunks (tx_seq start_index end_index : Z)
  | FileSyncInfoRequest (tx_seq : option Z)
  | FindFileRequest (tx_seq : Z)
  | TerminateFileSync (tx_seq : Z) (is_reverted : bool).

Inductive SyncResponse (PeerId : Type) :=
  | SyncStateResponse (state : SyncServiceState)
  | SyncStatusResponse (status : option (SyncState PeerId))
  | SyncFileResponse (err : string)
  | FileSyncInfoResponse (result : gmap Z (FileSyncInfo PeerId))
  | FindFileResponse (err : string)
  | TerminateFileSyncResponse (count : Z).
Arguments SyncStateResponse {PeerId}.
Arguments SyncStatusResponse {PeerId}.
Arguments SyncFileResponse {PeerId}.
Arguments FileSyncInfoResponse {PeerId}.
Arguments FindFileResponse {PeerId}.
Arguments TerminateFileSyncResponse {PeerId}.

(** ** [Batcher] *)

(** [sync_send] is a channel: the requests sent so far, the newest last. *)
Record Batcher := Batcher_mk {
  capacity : Z;
  find_peer_timeout : Z;
  tasks : gset Z;
  sync_send : list SyncRequest;
}.

Definition batcher_new (capacity find_peer_timeout : Z) : Batcher := Batcher_mk capacity find_peer_timeout ∅ [].

Definition set_tasks (ts : gset Z) (b : Batcher) : Batcher := Batcher_mk (capacity b) (find_peer_timeout b) ts (sync_send b).
Definition set_sync_send (l : list SyncRequest) (b : Batcher) : Batcher := Batcher_mk (capacity b) (find_peer_timeout b) (tasks b) l.

Definition batcher_tasks (b : Batcher) : list Z := merge_sort Z.le (elements (tasks b)).

Definition batcher_reorg (reverted_tx_seq : Z) (b : Batcher) : Batcher :=
  set_tasks (filter (λ x, x < reverted_tx_seq) (tasks b)) b.

(** What a round reads from outside: the answers of the sync service, the time,
    the random choices and the order in which a set is iterated. *)
Record Outside (PeerId : Type) := Outside_mk {
  os_request : SyncRequest → outcome (SyncResponse PeerId);
  os_now : Z;
  os_rng : Rng;
  os_order : gset Z → list Z;
}.
Arguments Outside_mk {PeerId}.
Arguments os_request {PeerId}.
Arguments os_now {PeerId}.
Arguments os_rng {PeerId}.
Arguments os_order {PeerId}.

(** Events of the log synchronization ([log_entry_sync]). *)
Inductive LogSyncEvent :=
  | ReorgDetected (tx_seq : Z)
  | Reverted (tx_seq : Z)
  | TxSynced (tx : Transaction).

Section auto_sync.
Context `{KeyValueDB KV} {MM PeerId : Type}.
Local Abbreviation manager := (LogManager KV MM).
Implicit Types (s : manager) (b : Batcher) (out : Outside PeerId).

(** The transaction store of the log manager. *)
Definition txs s : TransactionStore KV := TransactionStore_mk (lm_flow_db s) (lm_data_db s) (lm_next_tx_seq s).

(** [match call { Err(err) => error!(..), Ok(_) => {} }] *)
Definition log_error {S A} (m : M S A) : M S () := _ ← attempt m; mret tt.

(** A transaction that is not in the log yet cannot be synchronized. *)
Definition batcher_add s (tx_seq : Z) : M Batcher bool :=
  o ← lift (get_tx_by_seq_number (txs s) tx_seq);
  if bool_decide (o = None) then mret false
  else
    b ← get;
    if capacity b <=? Z.of_nat (size (tasks b)) then mret false
    else
      _ ← modify (set_tasks ({[tx_seq]} ∪ tasks b));
      mret (bool_decide (tx_seq ∉ tasks b)).

(** [self.sync_send.request(..).await] *)
Definition sync_request out (r : SyncRequest) : M Batcher (SyncResponse PeerId) :=
  _ ← modify (λ b, set_sync_send (sync_send b ++ [r]) b);
  lift (os_request out r).

Definition terminate_file_sync out (tx_seq : Z) (is_reverted : bool) : M Batcher Z :=
  r ← attempt (sync_request out (TerminateFileSync tx_seq is_reverted));
  mret (match r with inl (TerminateFileSyncResponse count) => count | _ => 0 end).

(** The result of the download of a file, if it ended. *)
Definition poll_tx out s (tx_seq : Z) : M Batcher (option SyncResult) :=
  o ← lift (get_tx_status (txs s) tx_seq);
  if bool_decide (is_Some o) then
    _ ← terminate_file_sync out tx_seq false;
    mret (Some SyncCompleted)
  else
    r ← sync_request out (SyncStatus tx_seq);
    state ← (match r with SyncStatusResponse status => mret status | _ => bail "Invalid sync response type" end);
    b ← get;
    match state with
    | None =>
        r ← sync_request out (SyncFile tx_seq);
        match r with
        | SyncFileResponse err => if bool_decide (err = ""%string) then mret None else bail "Failed to sync file"
        | _ => bail "Invalid sync response type"
        end
    | Some Completed => mret (Some SyncCompleted)
    | Some (Failed reason) =>
        _ ← terminate_file_sync out tx_seq false;
        mret (Some (match reason with TimeoutFindFile => SyncTimeout | _ => SyncFailed end))
    | Some (FindingPeers origin _) | Some (ConnectingPeers origin _) =>
        if find_peer_timeout b <? elapsed (os_now out) origin then
          _ ← terminate_file_sync out tx_seq false;
          mret (Some SyncTimeout)
        else mret None
    | Some _ => mret None
    end.

Fixpoint poll_loop out s (l : list Z) : M Batcher (option (Z * SyncResult)) :=
  match l with
  | [] => mret None
  | tx_seq :: l' =>
      o ← poll_tx out s tx_seq;
      match o with
      | Some ret => mret (Some (tx_seq, ret))
      | None => poll_loop out s l'
      end
  end.

Definition batcher_poll out s : M Batcher (option (Z * SyncResult)) :=
  b ← get;
  result ← poll_loop out s (os_order out (tasks b));
  _ ← (match result with Some (tx_seq, _) => modify (λ b, set_tasks (tasks b ∖ {[tx_seq]}) b) | None => mret tt end);
  mret result.

(** ** [SerialBatcher] *)

Record SerialBatcher := SerialBatcher_mk {
  sb_config : SyncConfig;
  sb_batcher : Batcher;
  sb_next_tx_seq : Z;
  sb_max_tx_seq : Z;
  pending_completed_txs : gmap Z SyncResult;
  next_tx_seq_in_db : Z;
}.
Implicit Types (self : SerialBatcher).

(** The stores and the batcher. *)
Local Abbreviation State := ((manager * SyncStore) * SerialBatcher)%type.

Definition on_sync {X A} (m : M (manager * SyncStore) A) : M ((manager * SyncStore) * X) A := zoom fst (λ w st, (w, st.2)) m.
Definition on_self {X} (f : X → X) : M ((manager * SyncStore) * X) () := modify (λ st, (st.1, f st.2)).

Definition set_batcher b self := SerialBatcher_mk (sb_config self) b (sb_next_tx_seq self) (sb_max_tx_seq self) (pending_completed_txs self) (next_tx_seq_in_db self).
Definition set_next (n : Z) self := SerialBatcher_mk (sb_config self) (sb_batcher self) n (sb_max_tx_seq self) (pending_completed_txs self) (next_tx_seq_in_db self).
Definition set_max (n : Z) self := SerialBatcher_mk (sb_config self) (sb_batcher self) (sb_next_tx_seq self) n (pending_completed_txs self) (next_tx_seq_in_db self).
Definition set_pending (m : gmap Z SyncResult) self := SerialBatcher_mk (sb_config self) (sb_batcher self) (sb_next_tx_seq self) (sb_max_tx_seq self) m (next_tx_seq_in_db self).
Definition set_in_db (n : Z) self := SerialBatcher_mk (sb_config self) (sb_batcher self) (sb_next_tx_seq self) (sb_max_tx_seq self) (pending_completed_txs self) n.

Definition on_batcher {A} (m : M Batcher A) : M State A := zoom (λ st, sb_batcher st.2) (λ b st, (st.1, set_batcher b st.2)) m.

Definition serial_new (config : SyncConfig) (w : manager * SyncStore) : outcome SerialBatcher :=
  r ← get_tx_seq_range w;
  Ok (SerialBatcher_mk config (batcher_new (max_sequential_workers config) (sequential_find_peer_timeout config))
        (default 0 r.1) (default U64_MAX r.2) ∅ (default 0 r.1)).

(** [AutoSyncManager] hands over what the channels hold; a receiver that is
    empty gives [None]. *)
Definition update_file_announcement (rng : Rng) (recv : option Z) : M State bool :=
  match recv with
  | None => mret false
  | Some announced_tx_seq =>
      st ← get;
      let self := st.2 in
      if (sb_max_tx_seq self =? U64_MAX) || (sb_max_tx_seq self <? announced_tx_seq) then
        _ ← log_error (on_sync (set_max_tx_seq announced_tx_seq));
        _ ← on_self (set_max announced_tx_seq);
        mret true
      else if sb_next_tx_seq self <=? announced_tx_seq then mret true
      else
        _ ← log_error (on_sync (sync_upgrade rng announced_tx_seq));
        mret true
  end.

Definition handle_reorg out (recv : option LogSyncEvent) : M State bool :=
  match recv with
  | Some (Reverted reverted_tx_seq) =>
      st ← get;
      if sb_next_tx_seq st.2 <=? reverted_tx_seq then mret true
      else
        _ ← on_batcher (terminate_file_sync out reverted_tx_seq true);
        _ ← on_batcher (modify (batcher_reorg reverted_tx_seq));
        _ ← on_self (set_next reverted_tx_seq);
        _ ← on_self (λ self, set_pending (filter (λ kv, kv.1 < reverted_tx_seq) (pending_completed_txs self)) self);
        _ ← when (reverted_tx_seq <? next_tx_seq_in_db st.2) (
          _ ← on_self (set_in_db reverted_tx_seq);
          log_error (on_sync (set_next_tx_seq reverted_tx_seq)));
        mret true
  | _ => mret false
  end.

(** One round of the loop of [update_completed_txs_in_db]. *)
Definition completed_round (rng : Rng) (current : Z) : M State (Z + ()) :=
  st ← get;
  match pending_completed_txs st.2 !! current with
  | None => mret (inr tt)
  | Some sync_result =>
      _ ← when (bool_decide (sync_result ≠ SyncCompleted)) (_ ← on_sync (sync_insert rng current Pending); mret tt);
      _ ← on_sync (set_next_tx_seq (wrap64 (current + 1)));
      _ ← on_self (λ self, set_pending (delete current (pending_completed_txs self)) self);
      _ ← on_self (set_in_db (wrap64 (current + 1)));
      mret (inl (wrap64 (current + 1)))
  end.

(** Every round takes a result away. *)
Definition update_completed_txs_in_db (rng : Rng) : M State () :=
  st ← get;
  loop (S (size (pending_completed_txs st.2))) (completed_round rng) (next_tx_seq_in_db st.2).

Definition schedule_next (rng : Rng) : M State bool :=
  st ← get;
  let self := st.2 in
  let next_tx_seq := sb_next_tx_seq self in
  if sb_max_tx_seq self =? U64_MAX then mret false
  else if sb_max_tx_seq self <? next_tx_seq then mret false
  else if max_sequential_workers (sb_config self) =? 0 then
    _ ← on_sync (sync_insert rng next_tx_seq Ready);
    let next_tx_seq := wrap64 (next_tx_seq + 1) in
    _ ← on_sync (set_next_tx_seq next_tx_seq);
    _ ← on_self (set_next next_tx_seq);
    _ ← on_self (set_in_db next_tx_seq);
    mret true
  else
    added ← on_batcher (batcher_add st.1.1 next_tx_seq);
    if negb added then mret false
    else _ ← on_self (set_next (wrap64 (next_tx_seq + 1))); mret true.

Definition serial_sync_once out : M State bool :=
  scheduled ← schedule_next (os_rng out);
  if (scheduled : bool) then mret true
  else
    st ← get;
    r ← on_batcher (batcher_poll out st.1.1);
    match r with
    | None => mret false
    | Some (tx_seq, sync_result) =>
        _ ← on_self (λ self, set_pending (<[tx_seq := sync_result]> (pending_completed_txs self)) self);
        _ ← update_completed_txs_in_db (os_rng out);
        mret true
    end.

Definition serial_get_state self : SerialBatcherState :=
  SerialBatcherState_mk (batcher_tasks (sb_batcher self)) (sb_next_tx_seq self) (sb_max_tx_seq self) (pending_completed_txs self) (next_tx_seq_in_db self).

(** The gauges of the batcher; the gap to the last file is only set once there
    is one. *)
Record SerialMetrics := SerialMetrics_mk {
  txs_syncing : Z;
  gap_next_max : option Z;
  txs_pending : Z;
  gap_next_db : Z;
}.

Definition serial_metrics (state : SerialBatcherState) : SerialMetrics :=
  SerialMetrics_mk (Z.of_nat (length (bs_tasks state)))
    (if bs_max state =? U64_MAX then None else Some (wrap64 (bs_max state - bs_next state)))
    (Z.of_nat (size (bs_pendings state)))
    (wrap64 (bs_next state - bs_next_in_db state)).

(** One round of the loop of [SerialBatcher::start]: a file announcement first,
    then a reorganization, and only then the files.  The result are the gauges
    if the round updates them. *)
Definition serial_start_round out (announced : option Z) (event : option LogSyncEvent) (catched_up : bool) : M State (option SerialMetrics) :=
  handled ← update_file_announcement (os_rng out) announced;
  if (handled : bool) then mret None
  else
    handled ← handle_reorg out event;
    if (handled : bool) then mret None
    else if negb catched_up then mret None
    else
      st ← get;
      _ ← log_error (serial_sync_once out);
      mret (Some (serial_metrics (serial_get_state st.2))).

(** ** [RandomBatcher] *)

Definition random_new (config : SyncConfig) : Batcher := batcher_new (max_random_workers config) (random_find_peer_timeout config).

Definition random_get_state (name : string) (st : (manager * SyncStore) * Batcher) : outcome RandomBatcherState :=
  r ← sync_stat st.1;
  let '(pending_txs, ready_txs, cached_ready_txs) := r in
  Ok (RandomBatcherState_mk name (batcher_tasks st.2) pending_txs ready_txs cached_ready_txs).

Definition on_random {A} (m : M Batcher A) : M ((manager * SyncStore) * Batcher) A := zoom snd (λ b st, (st.1, b)) m.

Definition random_schedule (rng : Rng) : M ((manager * SyncStore) * Batcher) bool :=
  st ← get;
  o ← lift (sync_random rng st.1);
  match o with
  | None => mret false
  | Some tx_seq =>
      on_random (batcher_add st.1.1 tx_seq)
  end.

Definition random_sync_once out : M ((manager * SyncStore) * Batcher) bool :=
  scheduled ← random_schedule (os_rng out);
  if (scheduled : bool) then mret true
  else
    st ← get;
    r ← on_random (batcher_poll out st.1.1);
    match r with
    | None => mret false
    | Some (tx_seq, sync_result) =>
        _ ← (if bool_decide (sync_result = SyncCompleted) then _ ← on_sync (sync_remove tx_seq); mret tt
             else _ ← on_sync (sync_insert (os_rng out) tx_seq Pending); mret tt);
        mret true
    end.

(** ** [HistoricalTxWriter] *)

Definition KEY_HISTORICAL_NEXT_TX_SEQ : string := "sync.manager.historical.next_tx_seq".

(** The next transaction to write. *)
Definition historical_new (w : manager * SyncStore) : outcome Z :=
  next_tx_seq ← (get_config_decoded (T := u64) w.1 KEY_HISTORICAL_NEXT_TX_SEQ DATA_DB_KEY : outcome (option Z));
  Ok (default 0 next_tx_seq).

Definition write_once (rng : Rng) : M ((manager * SyncStore) * Z) bool :=
  st ← get;
  let next_tx_seq := st.2 in
  if lm_next_tx_seq st.1.1 <=? next_tx_seq then mret false
  else
    o ← lift (get_tx_status (txs st.1.1) next_tx_seq);
    _ ← when (bool_decide (o = None)) (_ ← on_sync (sync_insert rng next_tx_seq Ready); mret tt);
    let next_tx_seq := wrap64 (next_tx_seq + 1) in
    _ ← on_sync (on_store (set_config_encoded KEY_HISTORICAL_NEXT_TX_SEQ (next_tx_seq : u64) DATA_DB_KEY));
    _ ← on_self (λ _, next_tx_seq);
    mret true.

(** ** [AutoSyncManager::handle_new_file] *)

Definition handle_new_file (rng : Rng) (tx_seq : Z) : M (manager * SyncStore) () := log_error (sync_insert rng tx_seq Ready).

End auto_sync.
