(* ===== verification/AutoSyncFacts.v ===== *)
(** The automatic synchronization step by step: the sync store when writes fail,
    and the rounds of the batchers. *)

From stdpp Require Import pretty sorting list_numbers.
From S2P Require Import Prelude HashElement Ssz SszFacts MerkleProof NodeStore AppendMerkle Bytes FlowDb Shard MerkleLight SharedTypes.
From S2P Require Import Seal ChunkData SealInfo EntryBatch Serde FlowStore TxStore LogManager SyncStore SyncStoreFacts SyncTheorems.
From S2P Require Import DbFrame FileLocationCache SyncController AutoSync.
Local Open Scope Z_scope.

Section store.
Context `{KeyValueDBLaws KV} {MM : Type} (pn rn : string).
Local Abbreviation manager := (LogManager KV MM).
Implicit Types (w : manager * SyncStore) (P R Q : gset Z) (v : option Z) (x : Z) (F : Z → Prop).

Definition next_key : nat * list Z := (COL_MISC, str_bytes KEY_NEXT_TX_SEQ).

Definition max_key : nat * list Z := (COL_MISC, str_bytes KEY_MAX_TX_SEQ).

Lemma max_key_other name q : max_key ≠ key_of name q.
Proof. by intros [=]. Qed.

Lemma next_key_other name q : next_key ≠ key_of name q.
Proof. by intros [=]. Qed.

(** The file of the transaction is finalized or pruned. *)
Definition complete (s : manager) x : Prop := ∃ status, get_tx_status (txs s) x = Ok (Some status).

Lemma status_same (s s' : manager) x :
  kv_map (lm_data_db s') !! (COL_TX_COMPLETED, seq_key x) = kv_map (lm_data_db s) !! (COL_TX_COMPLETED, seq_key x) →
  get_tx_status (txs s') x = get_tx_status (txs s) x.
Proof. intros Hs. unfold get_tx_status. cbn [txs data_kvdb]. by rewrite !kv_get_map, Hs. Qed.

(** The queues hold [Q] together, the data base has [v] as the next transaction,
    and the complete transactions are [F]. *)
Record winv F w Q v : Prop := {
  wi_sets : ∃ P R, sync_names w.2 pn rn ∧ queues (kv_map (lm_data_db w.1)) pn rn P R ∧ Q = P ∪ R;
  wi_cache : ∀ x, x ∈ cache (ready_txs w.2) → seq_ok x;
  wi_next : kv_map (lm_data_db w.1) !! next_key = enc <$> v;
  wi_typed : ∀ x, v = Some x → 0 ≤ x < 2 ^ 64;
  wi_max : ∃ m, kv_map (lm_data_db w.1) !! max_key = enc <$> m ∧ ∀ x, m = Some x → 0 ≤ x < 2 ^ 64;
  wi_complete : ∀ x, F x ↔ complete w.1 x;
}.

Lemma queues_typed m P R x : queues m pn rn P R → x ∈ P ∪ R → seq_ok x.
Proof.
  intros (lp & lr & Hlp & Hlr & <- & <- & _) Hx.
  assert (x ∈ lp ∨ x ∈ lr) as [Hin|Hin] by set_solver; [eapply (Forall_forall seq_ok lp); [apply Hlp|done]|eapply (Forall_forall seq_ok lr); [apply Hlr|done]].
Qed.

(** After an operation of the sync store that changes the sets to [P'], [R']. *)
Lemma winv_post {A} F (res : A) w w' P R P' R' v r : sync_names w.2 pn rn → winv F w (P ∪ R) v →
  sync_post pn rn res P' R' P R w r w' → (∀ x, x ∈ cache (ready_txs w'.2) → seq_ok x) →
  ∃ Q', winv F w' Q' v ∧ (Q' = P' ∪ R' ∨ Q' = P ∪ R ∧ r ≠ Ok res) ∧ (∀ a, r = Ok a → a = res).
Proof.
  intros Hn [_ Hc Hnext Hty Hmax HF] ((Hn' & _ & kv & Hw' & _ & Hframe) & _ & Hres & Hq) Hc'.
  assert (∀ x, F x ↔ complete w'.1 x) as HF'.
  { intros x. rewrite HF. unfold complete. by rewrite (status_same w.1 w'.1 x) by (rewrite Hw'; cbn; apply Hframe; intros q; split; intros [=]). }
  assert (kv_map (lm_data_db w'.1) !! next_key = enc <$> v) as Hnext'.
  { rewrite Hw'. cbn. rewrite Hframe; [done|]. intros q. split; apply next_key_other. }
  assert (kv_map (lm_data_db w'.1) !! max_key = kv_map (lm_data_db w.1) !! max_key) as Hmax'.
  { rewrite Hw'. cbn. rewrite Hframe; [done|]. intros q. split; apply max_key_other. }
  rewrite <-Hmax' in Hmax.
  destruct Hq as [Hq|[Hr Hq]]; eexists; (split; [split; [eexists _, _; by split_and!|done..]|]); split; auto.
Qed.

Lemma winv_pre F w Q v x : winv F w Q v → seq_ok x → ∃ P R, Q = P ∪ R ∧ sync_pre pn rn x w P R ∧ sync_names w.2 pn rn.
Proof. intros [(P & R & Hn & Hq & ->) _ _ _ _ _] Hx. by exists P, R. Qed.

Lemma cache_insert_sub rng x self y : y ∈ cache (cache_insert rng x self) → y = x ∨ y ∈ cache self.
Proof. unfold cache_insert. repeat case_match; cbn; set_solver. Qed.

Lemma cache_after_add_typed rng x self : seq_ok x → (∀ y, y ∈ cache self → seq_ok y) → ∀ y, y ∈ cache_after_add rng x self → seq_ok y.
Proof. intros Hx Hc y. unfold cache_after_add. case_match; [auto|]. intros [->|Hy]%cache_insert_sub; auto. Qed.

Lemma cache_after_remove_typed x self : (∀ y, y ∈ cache self → seq_ok y) → ∀ y, y ∈ cache_after_remove x self → seq_ok y.
Proof. intros Hc y. unfold cache_after_remove. case_match; [auto|]. intros [Hy _]%elem_of_difference. by apply Hc. Qed.

(** Inserting loses nothing; if it succeeds the transaction is in a queue. *)
Lemma winv_insert F rng x q w Q v : winv F w Q v → seq_ok x →
  let '(r, w') := sync_insert rng x q w in
  ∃ Q', winv F w' Q' v ∧ Q ⊆ Q' ∧ (∀ a, r = Ok a → x ∈ Q').
Proof.
  intros Hw Hx. destruct (winv_pre F w Q v x Hw Hx) as (P & R & -> & Hpre & Hn). destruct q.
  - pose proof (sync_insert_ready pn rn rng x w P R Hpre) as Hrun. destruct (insert_spec x Ready P R) as [[res P'] R'] eqn:Hspec.
    destruct (sync_insert rng x Ready w) as [r w']. destruct Hrun as [Hpost Hc].
    destruct (winv_post F res w w' P R P' R' v r Hn Hw Hpost) as (Q' & Hw' & HQ & Hres).
    { rewrite Hc. destruct (decide (x ∈ R)); [apply Hw|]. apply cache_after_add_typed; [done|apply Hw]. }
    exists Q'. split; [done|]. assert (P ∪ R ⊆ P' ∪ R' ∧ x ∈ P' ∪ R') as [Hsub Hin].
    { unfold insert_spec in Hspec. destruct (decide (x ∈ R)); [|destruct (decide (x ∈ P))]; injection Hspec as <- <- <-; (split; [|set_solver]); [done|..];
        intros y Hy; destruct (decide (y = x)); set_solver. }
    destruct HQ as [->|[-> Hr]]; (split; [done|]); [done|]. intros a ->. by rewrite (Hres a eq_refl) in Hr.
  - pose proof (sync_insert_pending pn rn rng x w P R Hpre) as Hrun. destruct (insert_spec x Pending P R) as [[res P'] R'] eqn:Hspec.
    destruct (sync_insert rng x Pending w) as [r w']. destruct Hrun as [Hpost Hc].
    destruct (winv_post F res w w' P R P' R' v r Hn Hw Hpost) as (Q' & Hw' & HQ & Hres).
    { rewrite Hc. destruct (decide (x ∈ R)); [|apply Hw]. apply cache_after_remove_typed, Hw. }
    exists Q'. split; [done|]. assert (P ∪ R ⊆ P' ∪ R' ∧ x ∈ P' ∪ R') as [Hsub Hin].
    { unfold insert_spec in Hspec. destruct (decide (x ∈ P)); [|destruct (decide (x ∈ R))]; injection Hspec as <- <- <-; (split; [|set_solver]); [done|..];
        intros y Hy; destruct (decide (y = x)); set_solver. }
    destruct HQ as [->|[-> Hr]]; (split; [done|]); [done|]. intros a ->. by rewrite (Hres a eq_refl) in Hr.
Qed.

Lemma winv_upgrade F rng x w Q v : winv F w Q v → seq_ok x →
  let '(r, w') := sync_upgrade rng x w in ∃ Q', winv F w' Q' v ∧ Q ⊆ Q'.
Proof.
  intros Hw Hx. destruct (winv_pre F w Q v x Hw Hx) as (P & R & -> & Hpre & Hn).
  pose proof (sync_upgrade_run pn rn rng x w P R Hpre) as Hrun. destruct (upgrade_spec x P R) as [[res P'] R'] eqn:Hspec.
  destruct (sync_upgrade rng x w) as [r w']. destruct Hrun as [Hpost Hc].
  destruct (winv_post F res w w' P R P' R' v r Hn Hw Hpost) as (Q' & Hw' & HQ & Hres).
  { rewrite Hc. destruct (decide (x ∈ P)); [|apply Hw]. apply cache_after_add_typed; [done|apply Hw]. }
  exists Q'. split; [done|]. assert (P ∪ R ⊆ P' ∪ R') as Hsub.
  { unfold upgrade_spec in Hspec. destruct (decide (x ∈ P)); injection Hspec as <- <- <-; [|done]. intros y Hy. destruct (decide (y = x)); set_solver. }
  by destruct HQ as [->|[-> _]].
Qed.

(** Removing takes away one transaction at most. *)
Lemma winv_remove F x w Q v : winv F w Q v → seq_ok x →
  let '(r, w') := sync_remove x w in ∃ Q', winv F w' Q' v ∧ Q ⊆ {[x]} ∪ Q'.
Proof.
  intros Hw Hx. destruct (winv_pre F w Q v x Hw Hx) as (P & R & -> & Hpre & Hn).
  pose proof (sync_remove_run pn rn x w P R Hpre) as Hrun. destruct (remove_spec x P R) as [[res P'] R'] eqn:Hspec.
  destruct (sync_remove x w) as [r w']. destruct Hrun as [Hpost Hc].
  destruct (winv_post F res w w' P R P' R' v r Hn Hw Hpost) as (Q' & Hw' & HQ & Hres).
  { rewrite Hc. case_decide; [|apply Hw]. apply cache_after_remove_typed, Hw. }
  exists Q'. split; [done|]. assert (P ∪ R ⊆ {[x]} ∪ (P' ∪ R')) as Hsub.
  { unfold remove_spec in Hspec. destruct (decide (x ∈ R)); [|destruct (decide (x ∈ P))]; injection Hspec as <- <- <-; intros y Hy; destruct (decide (y = x)); set_solver. }
  destruct HQ as [->|[-> _]]; [done|set_solver].
Qed.

(** On a data base that can be written everything succeeds. *)
Definition goes {A} w (r : outcome A) w' : Prop :=
  kv_writable (lm_data_db w.1) → (∃ a, r = Ok a) ∧ kv_writable (lm_data_db w'.1).

Lemma post_goes {A} (res : A) P' R' P R w r w' : sync_post pn rn res P' R' P R w r w' → goes w r w'.
Proof. intros ((_ & _ & kv & Hw' & Hkv & _) & Hok & _) Hwr. split; [exists res; auto|]. rewrite Hw'. by apply Hkv. Qed.

Lemma insert_goes F rng x q w Q v : winv F w Q v → seq_ok x → goes w (sync_insert rng x q w).1 (sync_insert rng x q w).2.
Proof.
  intros Hw Hx. destruct (winv_pre F w Q v x Hw Hx) as (P & R & -> & Hpre & Hn). destruct q.
  - pose proof (sync_insert_ready pn rn rng x w P R Hpre) as Hrun. destruct (insert_spec x Ready P R) as [[res P'] R'].
    destruct (sync_insert rng x Ready w) as [r w']. by eapply post_goes, Hrun.
  - pose proof (sync_insert_pending pn rn rng x w P R Hpre) as Hrun. destruct (insert_spec x Pending P R) as [[res P'] R'].
    destruct (sync_insert rng x Pending w) as [r w']. by eapply post_goes, Hrun.
Qed.

(** *** Configuration values *)

(** The data base has the same queues and the same marks. *)
Definition same_entries (m m' : gmap (nat * list Z) (list Z)) : Prop :=
  m' !! next_key = m !! next_key ∧ m' !! max_key = m !! max_key ∧ ∀ name k, name = pn ∨ name = rn → m' !! key_of name k = m !! key_of name k.

Lemma queues_same m m' P R : (∀ name k, name = pn ∨ name = rn → m' !! key_of name k = m !! key_of name k) →
  queues m pn rn P R → queues m' pn rn P R.
Proof.
  intros Hs (lp & lr & Hlp & Hlr & HP). exists lp, lr. split; [|split; [|done]].
  - eapply holds_queue_ext; [|exact Hlp]. intros k. apply Hs. by left.
  - eapply holds_queue_ext; [|exact Hlr]. intros k. apply Hs. by right.
Qed.

Lemma winv_env F F' w s' Q v : winv F w Q v → same_entries (kv_map (lm_data_db w.1)) (kv_map (lm_data_db s')) →
  (∀ x, F' x ↔ complete s' x) → winv F' (s', w.2) Q v.
Proof.
  intros [(P & R & Hn & Hq & ->) Hc Hnx Hty Hmx _] (Hnext & Hmax & Hs) HF. split; [|done|cbn; congruence|done|cbn; by rewrite Hmax|done]. exists P, R. split_and!; [done| |done].
  by eapply queues_same.
Qed.

Lemma winv_reopen F w Q v cap : winv F w Q v → winv F (w.1, sync_store_new_with_name cap pn rn) Q v.
Proof.
  intros [(P & R & (_ & _ & Hp & Hr & Hne) & Hq & ->) Hc Hnx Hty Hmx HF]. split; [|cbn; set_solver|done..]. exists P, R. by split_and!.
Qed.

Lemma set_config_run key x w : ∃ r s', on_store (set_config_encoded key (x : u64) DATA_DB_KEY) w = (r, (s', w.2)) ∧
  (kv_map (lm_data_db s') = <[(COL_MISC, str_bytes key) := enc x]> (kv_map (lm_data_db w.1)) ∨
   kv_map (lm_data_db s') = kv_map (lm_data_db w.1) ∧ r ≠ Ok tt).
Proof.
  destruct (exec_data [Insert COL_MISC (str_bytes key) (enc x)] w.1) as (r & kv & Hex & _ & _ & Hkv).
  exists r, (set_lm_data_db kv w.1). split; [|exact Hkv]. unfold on_store, zoom, set_config_encoded, set_config. change (as_ssz_bytes (x : u64)) with (enc x).
  by rewrite Hex.
Qed.

Lemma set_config_goes key x w :
  goes w (on_store (set_config_encoded key (x : u64) DATA_DB_KEY) w).1 (on_store (set_config_encoded key (x : u64) DATA_DB_KEY) w).2.
Proof.
  destruct (exec_data [Insert COL_MISC (str_bytes key) (enc x)] w.1) as (r & kv & Hex & Hkv & Hok & _).
  unfold on_store, zoom, set_config_encoded, set_config. change (as_ssz_bytes (x : u64)) with (enc x). rewrite Hex. cbn.
  intros Hwr. split; [exists tt; auto|]. by apply Hkv.
Qed.

Lemma set_config_complete F w s' key x Q v : winv F w Q v →
  kv_map (lm_data_db s') = <[(COL_MISC, str_bytes key) := enc x]> (kv_map (lm_data_db w.1)) ∨ kv_map (lm_data_db s') = kv_map (lm_data_db w.1) →
  ∀ y, F y ↔ complete s' y.
Proof.
  intros Hw Hkv y. rewrite (wi_complete _ _ _ _ Hw). unfold complete. rewrite (status_same w.1 s' y); [done|].
  destruct Hkv as [->| ->]; [|done]. rewrite lookup_insert_ne; [done|by intros [=]].
Qed.

Lemma winv_set_next F x w Q v : winv F w Q v → 0 ≤ x < 2 ^ 64 →
  let '(r, w') := set_next_tx_seq x w in ∃ v', winv F w' Q v' ∧ (v' = Some x ∨ v' = v ∧ r ≠ Ok tt).
Proof.
  intros Hw Hx. destruct (set_config_run KEY_NEXT_TX_SEQ x w) as (r & s' & Hrun & Hkv). unfold set_next_tx_seq. rewrite Hrun.
  pose proof (set_config_complete F w s' KEY_NEXT_TX_SEQ x Q v Hw ltac:(tauto)) as HF'.
  destruct Hkv as [Hkv|[Hkv Hr]].
  - exists (Some x). split; [|by left]. destruct Hw as [(P & R & Hn & Hq & ->) Hc Hnx Hty Hmx _]. split; [|done| |by intros y [= <-]| |done].
    + exists P, R. split_and!; [done| |done]. eapply queues_same; [|done]. intros name k _. cbn. rewrite Hkv. rewrite lookup_insert_ne; [done|].
      apply next_key_other.
    + cbn. rewrite Hkv. apply lookup_insert_eq.
    + cbn. rewrite Hkv. rewrite lookup_insert_ne by (by intros [=]). done.
  - exists v. split; [|by right]. apply (winv_env F); [done| |done]. by rewrite Hkv.
Qed.

(** Another configuration value. *)
Lemma winv_other_config F key x w Q v : (COL_MISC, str_bytes key) ≠ next_key → (COL_MISC, str_bytes key) ≠ max_key →
  (∀ name k, (COL_MISC, str_bytes key) ≠ key_of name k) → winv F w Q v →
  let '(r, w') := on_store (set_config_encoded key (x : u64) DATA_DB_KEY) w in winv F w' Q v.
Proof.
  intros Hk1 Hk2 Hk3 Hw. destruct (set_config_run key x w) as (r & s' & -> & Hkv).
  apply (winv_env F); [done| |eapply set_config_complete; [done|]; by destruct Hkv as [?|[? _]]; [left|right]].
  destruct Hkv as [->|[-> _]]; [|done]. split_and!; [by rewrite lookup_insert_ne..|]. intros name k _. by rewrite lookup_insert_ne.
Qed.

Lemma winv_set_max F x w Q v : winv F w Q v → 0 ≤ x < 2 ^ 64 → let '(r, w') := set_max_tx_seq x w in winv F w' Q v.
Proof.
  intros Hw Hx. destruct (set_config_run KEY_MAX_TX_SEQ x w) as (r & s' & Hrun & Hkv). unfold set_max_tx_seq. rewrite Hrun.
  pose proof (set_config_complete F w s' KEY_MAX_TX_SEQ x Q v Hw ltac:(tauto)) as HF'.
  destruct Hkv as [Hkv|[Hkv _]]; [|apply (winv_env F); [done|by rewrite Hkv|done]].
  destruct Hw as [(P & R & Hn & Hq & ->) Hc Hnx Hty Hmx _]. split; [|done| |done| |done].
  - exists P, R. split_and!; [done| |done]. eapply queues_same; [|done]. intros name k _. cbn. rewrite Hkv. rewrite lookup_insert_ne; [done|]. apply max_key_other.
  - cbn. rewrite Hkv. by rewrite lookup_insert_ne by (by intros [=]).
  - exists (Some x). cbn. rewrite Hkv. split; [apply lookup_insert_eq|by intros y [= <-]].
Qed.

(** Opening reads what was written. *)
Lemma get_range_next F w Q v r : winv F w Q v → get_tx_seq_range w = Ok r → r.1 = v ∧ ∀ x, r.2 = Some x → 0 ≤ x < 2 ^ 64.
Proof.
  intros Hw Hr. destruct (wi_max _ _ _ _ Hw) as (m & Hm & Hmty). unfold get_tx_seq_range in Hr.
  rewrite (get_decoded w.1 KEY_NEXT_TX_SEQ v), bind_Ok in Hr by apply Hw. rewrite (get_decoded w.1 KEY_MAX_TX_SEQ m) in Hr; [|done..].
  rewrite bind_Ok in Hr. by injection Hr as <-.
Qed.

(** What is picked at random has been inserted. *)
Lemma random_typed F rng w Q v x : winv F w Q v → rng_ok rng → sync_random rng w = Ok (Some x) → seq_ok x.
Proof.
  intros [(P & R & Hn & Hq & ->) Hc _ _ _ _] [Hr Hch] Hrun. destruct Hn as (Hpt & Hrt & _). pose proof Hq as (lp & lr & Hlp & Hlr & HP & HR & _).
  destruct (tx_random_spec pn w.1 lp rng Hlp Hr) as (op & Hop & Hp), (tx_random_spec rn w.1 lr rng Hlr Hr) as (or & Hor & Hrd).
  assert (∀ y, y ∈ lp ∨ y ∈ lr → seq_ok y) as Hty. { intros y Hy. apply (queues_typed _ P R y Hq). set_solver. }
  assert (∀ o, (o' ← (Ok or : outcome (option Z)); match o' with Some val => Ok (Some val) | None => Ok op end) = Ok o → ∀ y, o = Some y → seq_ok y) as Hgoal.
  { intros o. rewrite bind_Ok. destruct or as [z|]; intros [= <-] y; [intros [= <-]; auto|]. intros ->. auto. }
  unfold sync_random, cached_random in Hrun. rewrite Hpt, Hrt, Hop, Hor in Hrun. destruct (cache_cap (ready_txs w.2) =? 0); [by eapply Hgoal|].
  specialize (Hch (cache (ready_txs w.2))). destruct (choose rng (cache (ready_txs w.2))) as [z|]; [|by eapply Hgoal].
  cbn in Hrun. injection Hrun as <-. auto.
Qed.

End store.

(** * The rounds of the batchers of the automatic synchronization, whatever the outcome. *)

(** ** All outcomes of a computation *)

Definition ends {S A} (m : M S A) (Φ : outcome A → S → Prop) (s : S) : Prop := Φ (m s).1 (m s).2.

Lemma ends_bind {S A B} (m : M S A) (k : A → M S B) (Φ : outcome B → S → Prop) s :
  ends m (λ r s', match r with Ok a => ends (k a) Φ s' | Err e => Φ (Err e) s' | Panic => Φ Panic s' | Diverge => Φ Diverge s' end) s →
  ends (m ≫= k) Φ s.
Proof. unfold ends, mbind, M_bind. by destruct (m s) as [[] s']. Qed.

Lemma ends_mono {S A} (m : M S A) (Φ Ψ : outcome A → S → Prop) s : ends m Φ s → (∀ r s', Φ r s' → Ψ r s') → ends m Ψ s.
Proof. unfold ends. auto. Qed.

Lemma ends_mret {S A} (a : A) (Φ : outcome A → S → Prop) s : Φ (Ok a) s → ends (mret a) Φ s.
Proof. done. Qed.

Lemma ends_lift {S A} (o : outcome A) (Φ : outcome A → S → Prop) s : Φ o s → ends (lift o) Φ s.
Proof. done. Qed.

Lemma ends_zoom {S T A} (get : S → T) (put : T → S → S) (m : M T A) (Φ : outcome A → S → Prop) s :
  ends m (λ r t, Φ r (put t s)) (get s) → ends (zoom get put m) Φ s.
Proof. unfold ends, zoom. by destruct (m (get s)). Qed.

Lemma bind_result {S A B} (m : M S A) (k : A → M S B) s b : ((m ≫= k) s).1 = Ok b → ∃ a s', (k a s').1 = Ok b.
Proof. unfold mbind, M_bind. destruct (m s) as [[a|e| |] s']; try done. eauto. Qed.

(** What holds after every outcome. *)
Lemma ends_seq {S A B} (m : M S A) (k : A → M S B) (P : S → Prop) s :
  ends m (λ r s', P s' ∧ ∀ a, r = Ok a → ends (k a) (λ _ s'', P s'') s') s → ends (m ≫= k) (λ _ s', P s') s.
Proof. intros Hm. apply ends_bind. eapply ends_mono; [exact Hm|]. intros [a|e| |] s' [HP Hk]; auto. Qed.

Lemma ends_log_error {S A} (m : M S A) (P : S → Prop) s : ends m (λ _ s', P s') s → ends (log_error m) (λ _ s', P s') s.
Proof. unfold ends, log_error, attempt, mbind, M_bind. by destruct (m s) as [[] s']. Qed.

Section batcher.
Context `{KeyValueDBLaws KV} {MM PeerId : Type}.
Implicit Types (G : Z → Prop) (s : LogManager KV MM) (b : Batcher) (out : Outside PeerId) (x : Z).

(** The transactions of [l] that the service calls completed when it is asked
    for their status. *)
Definition claims out (l : list SyncRequest) : list Z :=
  omap (λ r, match r with
             | SyncStatus x => match os_request out r with Ok (SyncStatusResponse (Some Completed)) => Some x | _ => None end
             | _ => None
             end) l.

(** The same for the requests that a batcher has sent between two states. *)
Definition answered out b b' : list Z := claims out (drop (length (sync_send b)) (sync_send b')).

Record outside_ok (out : Outside PeerId) : Prop := {
  oo_rng : rng_ok (os_rng out);
  oo_order X : os_order out X ≡ₚ elements X;
  oo_answers r : (∃ a, os_request out r = Ok a) ∨ ∃ e, os_request out r = Err e;
}.

(** Requests change nothing but the channel. *)
Definition sends b b' : Prop := capacity b' = capacity b ∧ find_peer_timeout b' = find_peer_timeout b ∧ tasks b' = tasks b ∧
  ∃ l, sync_send b' = sync_send b ++ l.

Lemma sends_refl b : sends b b.
Proof. split_and!; [done..|]. exists []. by rewrite app_nil_r. Qed.

Lemma sends_trans b1 b2 b3 : sends b1 b2 → sends b2 b3 → sends b1 b3.
Proof.
  intros (? & ? & ? & l & Hl) (? & ? & ? & l' & Hl'). split_and!; [congruence..|]. exists (l ++ l'). by rewrite Hl', Hl, app_assoc.
Qed.

Lemma answered_app out b1 b2 b3 : sends b1 b2 → sends b2 b3 → answered out b1 b3 = answered out b1 b2 ++ answered out b2 b3.
Proof.
  intros (_ & _ & _ & l & Hl) (_ & _ & _ & l' & Hl'). unfold answered, claims. rewrite Hl', !Hl, <-app_assoc, drop_app_length.
  rewrite app_assoc, !drop_app_length. apply omap_app.
Qed.

Lemma ends_request out r b : ends (sync_request out r) (λ o b', o = os_request out r ∧ sends b b' ∧ sync_send b' = sync_send b ++ [r]) b.
Proof. split_and!; [done|split_and!; [done..|by exists [r]]|done]. Qed.

Lemma ends_terminate out x rev b : ends (terminate_file_sync out x rev) (λ _ b', sends b b') b.
Proof.
  unfold ends, terminate_file_sync, attempt, sync_request, modify, lift, mbind, M_bind. cbn.
  destruct (os_request _ _); (split_and!; [done..|by eexists]).
Qed.

Lemma ends_terminate_ok out x rev b : outside_ok out → ends (terminate_file_sync out x rev) (λ r b', (∃ n, r = Ok n) ∧ sends b b') b.
Proof.
  intros Ho. pose proof (oo_answers _ Ho (TerminateFileSync x rev)) as Hr.
  unfold ends, terminate_file_sync, attempt, sync_request, modify, lift, mbind, M_bind. cbn.
  destruct Hr as [[a ->]|[e ->]]; cbn; (split; [by eexists|split_and!; [done..|by eexists]]).
Qed.

Lemma ends_add s x b :
  ends (batcher_add s x) (λ r b', capacity b' = capacity b ∧
    (tasks b' = tasks b ∧ r ≠ Ok true ∨ tasks b' = {[x]} ∪ tasks b ∧ r = Ok true ∧ (x ∉ tasks b) ∧ Z.of_nat (size (tasks b)) < capacity b)) b.
Proof.
  unfold batcher_add. apply ends_bind, ends_lift. destruct (get_tx_by_seq_number _ _) as [o|e| |]; [|split; [done|by left]..].
  case_bool_decide; [split; [done|by left]|]. apply ends_bind. unfold ends at 1. cbn [get fst snd].
  destruct (capacity b <=? Z.of_nat (size (tasks b))) eqn:Hc; [split; [done|by left]|]. apply Z.leb_gt in Hc.
  unfold ends. cbn. split; [done|]. destruct (decide (x ∈ tasks b)) as [Hx|Hx].
  - left. split; [set_solver|]. rewrite bool_decide_false by tauto. done.
  - right. rewrite bool_decide_true by done. done.
Qed.

(** A file has completed if the store has it, or if the service said so when it
    was asked. *)
Lemma ends_poll_tx out s x b :
  ends (poll_tx out s x) (λ r b', sends b b' ∧ (r = Ok (Some SyncCompleted) → complete s x ∨ x ∈ answered out b b')) b.
Proof.
  unfold poll_tx. apply ends_bind, ends_lift. destruct (get_tx_status (txs s) x) as [o|e| |] eqn:Hst; [|by split; [apply sends_refl|]..].
  case_bool_decide as Ho.
  - apply ends_bind. eapply ends_mono; [apply ends_terminate|]. intros r b' Hb. destruct Ho as [v ->].
    assert (complete s x) by (by exists v). destruct r; (split; [done|by left]).
  - apply ends_bind. eapply ends_mono; [apply ends_request|]. intros r b1 (Hr & Hb1 & Hsend). destruct r as [r|e| |]; [|by split..].
    destruct r as [|status| | | |]; [by split| |by split..]. apply ends_bind, ends_mret, ends_bind. unfold ends at 1. cbn [get fst snd].
    eapply (ends_mono _ (λ r b', sends b1 b' ∧ (r = Ok (Some SyncCompleted) → status = Some Completed ∧ b' = b1))).
    2:{ intros r b2 [Hb2 Hc]. split; [by eapply sends_trans|]. intros Hok. right. destruct (Hc Hok) as [-> ->].
        unfold answered, claims. rewrite Hsend, drop_app_length. cbn. rewrite <-Hr. by left. }
    assert (∀ res, res ≠ SyncCompleted → ends (_ ← terminate_file_sync out x false; mret (Some res))
      (λ r b', sends b1 b' ∧ (r = Ok (Some SyncCompleted) → status = Some Completed ∧ b' = b1)) b1) as Hterm.
    { intros res Hres. apply ends_bind. eapply ends_mono; [apply ends_terminate|]. intros r2 b2 Hb2.
      destruct r2; [apply ends_mret|..]; (split; [done|]); congruence. }
    assert (sends b1 b1) as Hb11 by apply sends_refl.
    destruct status as [[|o1 s1| |o1 s1| | | | |reason]|]; try by split.
    + destruct (_ <? _); [by apply Hterm|by split].
    + destruct (_ <? _); [by apply Hterm|by split].
    + destruct reason; by apply Hterm.
    + apply ends_bind. eapply ends_mono; [apply ends_request|]. intros r b2 (_ & Hb2 & _). destruct r as [[| | | | |]|e| |]; try by split.
      case_bool_decide; by split.
Qed.

Lemma ends_poll_loop out s l b :
  ends (poll_loop out s l) (λ r b', sends b b' ∧
    ∀ x res, r = Ok (Some (x, res)) → x ∈ l ∧ (res = SyncCompleted → complete s x ∨ x ∈ answered out b b')) b.
Proof.
  revert b. induction l as [|x l IH]; intros b; [by split; [apply sends_refl|]|]. cbn [poll_loop]. apply ends_bind.
  eapply ends_mono; [by eapply ends_poll_tx|]. intros r b1 [Hb1 Hc]. destruct r as [[res|]|e| |]; [| |by split..].
  - apply ends_mret. split; [done|]. intros y res' [= <- <-]. split; [left|]. intros ->. auto.
  - eapply ends_mono; [apply IH|]. intros r b2 [Hb2 Hl]. split; [by eapply sends_trans|].
    intros y res Hy. destruct (Hl y res Hy) as [Hin Hg]. split; [by right|]. intros Hres.
    rewrite (answered_app out b b1 b2) by done. destruct (Hg Hres); [by left|right; set_solver].
Qed.

Lemma ends_poll out s b : outside_ok out →
  ends (batcher_poll out s) (λ r b', capacity b' = capacity b ∧
    (tasks b' = tasks b ∧ (∀ p, r ≠ Ok (Some p)) ∨
     ∃ x res, r = Ok (Some (x, res)) ∧ x ∈ tasks b ∧ tasks b' = tasks b ∖ {[x]} ∧ (res = SyncCompleted → complete s x ∨ x ∈ answered out b b'))) b.
Proof.
  intros Ho. unfold batcher_poll. apply ends_bind. unfold ends at 1. cbn [get fst snd]. apply ends_bind.
  eapply ends_mono; [by eapply ends_poll_loop|]. intros r b1 [(Hc1 & _ & Hb1 & _) Hl].
  destruct r as [[[x res]|]|e| |]; [|split; [done|by left]..]. destruct (Hl x res eq_refl) as [Hx Hcomp].
  unfold ends. cbn. split; [done|]. right. exists x, res. split_and!; [done| |by rewrite <-Hb1|done].
  rewrite (oo_order _ Ho) in Hx. by apply elem_of_elements.
Qed.

(** Adding a task sends nothing. *)
Lemma add_sends_nothing s x : keeps (λ b b', sync_send b' = sync_send b) (batcher_add s x).
Proof.
  intros b. unfold batcher_add, mbind, M_bind, lift. destruct (get_tx_by_seq_number _ _) as [o| | |]; [|done..].
  case_bool_decide; [done|]. cbn. by destruct (_ <=? _).
Qed.

End batcher.

Section serial.
Context `{KeyValueDBLaws KV} {MM PeerId : Type} (pn rn : string).
Local Abbreviation manager := (LogManager KV MM).
Local Abbreviation State := ((manager * SyncStore) * SerialBatcher)%type.
Implicit Types (w : manager * SyncStore) (sb : SerialBatcher) (out : Outside PeerId) (st : State).
Implicit Types (F G U : Z → Prop) (Q : gset Z) (v : option Z) (x : Z).

(** The batcher between its mark and what comes next: below the mark every
    transaction is in [G] or in a queue, below the mark of the data base also
    those of [U] are allowed, for which it was not moved back. *)
Record serial_ok G U Q v sb : Prop := {
  so_range : 0 ≤ next_tx_seq_in_db sb ≤ sb_next_tx_seq sb ∧ sb_next_tx_seq sb ≤ U64_MAX;
  so_max : 0 ≤ sb_max_tx_seq sb ≤ U64_MAX;
  so_tasks x : x ∈ tasks (sb_batcher sb) → next_tx_seq_in_db sb ≤ x < sb_next_tx_seq sb;
  so_pending x r : pending_completed_txs sb !! x = Some r →
    next_tx_seq_in_db sb ≤ x < sb_next_tx_seq sb ∧ (x ∉ tasks (sb_batcher sb)) ∧ (r = SyncCompleted → G x);
  so_cover x : next_tx_seq_in_db sb ≤ x < sb_next_tx_seq sb → x ∈ tasks (sb_batcher sb) ∨ is_Some (pending_completed_txs sb !! x);
  so_below x : 0 ≤ x < next_tx_seq_in_db sb → G x ∨ x ∈ Q;
  so_db x : 0 ≤ x < default 0 v → U x ∨ G x ∨ x ∈ Q;
  so_capacity : Z.of_nat (size (tasks (sb_batcher sb))) ≤ Z.max 0 (capacity (sb_batcher sb));
  so_delegate : max_sequential_workers (sb_config sb) = 0 → next_tx_seq_in_db sb = sb_next_tx_seq sb;
}.

Definition serial_inv F G U st : Prop := ∃ Q v, winv pn rn F st.1 Q v ∧ serial_ok G U Q v st.2.

Lemma serial_ok_grow G U Q Q' v sb : (∀ x, G x ∨ x ∈ Q → G x ∨ x ∈ Q') → serial_ok G U Q v sb → serial_ok G U Q' v sb.
Proof. intros HQ [Hrg Hm Ht Hp Hc Hb Hd Hcap Hdel]. split; auto. intros x Hx. destruct (Hd x Hx); auto. Qed.

Lemma serial_ok_mono G G' U U' Q v sb : (∀ x, G x → G' x) → (∀ x, U x → U' x) → serial_ok G U Q v sb → serial_ok G' U' Q v sb.
Proof.
  intros HG HU [Hrg Hm Ht Hp Hc Hb Hd Hcap Hdel]. split; try done.
  - intros x r Hx. destruct (Hp x r Hx) as (? & ? & ?). split_and!; [lia|lia|done|auto].
  - intros x Hx. destruct (Hb x Hx); auto.
  - intros x Hx. destruct (Hd x Hx) as [|[|]]; auto.
Qed.

Lemma serial_inv_mono F G G' U st : (∀ x, G x → G' x) → serial_inv F G U st → serial_inv F G' U st.
Proof. intros HG (Q & v & Hw & Hs). exists Q, v. split; [done|]. by eapply serial_ok_mono. Qed.

Lemma serial_inv_grow F G U U' st : (∀ x, U x → U' x) → serial_inv F G U st → serial_inv F G U' st.
Proof. intros HU (Q & v & Hw & Hs). exists Q, v. split; [done|]. by eapply serial_ok_mono. Qed.

Lemma ends_get {S A} (k : S → M S A) (Φ : outcome A → S → Prop) s : ends (k s) Φ s → ends (get ≫= k) Φ s.
Proof. done. Qed.

(** An operation of the sync store. *)
Lemma ends_sync {X A} (m : M (manager * SyncStore) A) (Φ : outcome A → (manager * SyncStore) * X → Prop) w (x : X) :
  (let '(r, w') := m w in Φ r (w', x)) → ends (on_sync m) Φ (w, x).
Proof. unfold ends, on_sync, zoom. cbn. by destruct (m w). Qed.

Lemma ends_self {X A} (f : X → X) (k : () → M ((manager * SyncStore) * X) A) (Φ : outcome A → (manager * SyncStore) * X → Prop) w (x : X) :
  ends (k tt) Φ (w, f x) → ends (on_self f ≫= k) Φ (w, x).
Proof. done. Qed.

Lemma ends_batcher {A} (m : M Batcher A) (Φ : outcome A → State → Prop) w sb :
  ends m (λ r b, Φ r (w, set_batcher b sb)) (sb_batcher sb) → ends (on_batcher m) Φ (w, sb).
Proof. intros Hm. by apply (ends_zoom (λ st : State, sb_batcher st.2) (λ b st, (st.1, set_batcher b st.2)) m Φ (w, sb)). Qed.

(** *** Announcements and reorganizations *)

Lemma serial_announce F G U st rng recv : serial_inv F G U st → (∀ x, recv = Some x → seq_ok x) →
  ends (update_file_announcement rng recv) (λ _ st', serial_inv F G U st') st.
Proof.
  intros Hinv Hrecv. unfold update_file_announcement. destruct recv as [x|]; [|done]. specialize (Hrecv x eq_refl). unfold seq_ok in Hrecv.
  destruct st as [w sb]. destruct Hinv as (Q & v & Hw & Hs). cbn [fst snd] in *. apply ends_get. cbn [fst snd]. destruct (_ || _).
  - apply ends_seq. eapply ends_mono; [apply (ends_log_error _ (λ st', winv pn rn F st'.1 Q v ∧ st'.2 = sb)), ends_sync|].
    + pose proof (winv_set_max pn rn F x w Q v Hw ltac:(lia)) as Hm. by destruct (set_max_tx_seq x w).
    + intros r [w' sb'] [Hw' Hsb]. cbn in Hsb. subst sb'. split; [by exists Q, v|]. intros _ _.
      apply ends_self, ends_mret. exists Q, v. split; [done|]. destruct Hs. split; cbn; try done. unfold U64_MAX. lia.
  - destruct (_ <=? _); [by exists Q, v|]. apply ends_seq.
    eapply ends_mono; [apply (ends_log_error _ (serial_inv F G U)), ends_sync|by intros r s' Hi]. pose proof (winv_upgrade pn rn F rng x w Q v Hw Hrecv) as Hu.
    destruct (sync_upgrade rng x w) as [r w']. destruct Hu as (Q' & Hw' & Hsub). exists Q', v. split; [done|].
    eapply serial_ok_grow; [|done]. set_solver.
Qed.

(** The state after the in-memory part of a reorganization. *)
Lemma serial_ok_reorg G G' U U' Q v v' sb x : serial_ok G U Q v sb → 0 ≤ x < sb_next_tx_seq sb → (∀ y, y < x → G y → G' y) →
  (∀ y, 0 ≤ y < default 0 v' → U' y ∨ G' y ∨ y ∈ Q) → ∀ b, tasks b = filter (λ y, y < x) (tasks (sb_batcher sb)) → capacity b = capacity (sb_batcher sb) →
  serial_ok G' U' Q v' (SerialBatcher_mk (sb_config sb) b x (sb_max_tx_seq sb) (filter (λ kv, kv.1 < x) (pending_completed_txs sb)) (Z.min x (next_tx_seq_in_db sb))).
Proof.
  intros [Hr Hm Ht Hp Hc Hb Hd Hcap Hdel] Hx HF Hv b Hbt Hbc. split; cbn.
  - lia.
  - done.
  - intros y. rewrite Hbt, elem_of_filter. intros [Hy Hin%Ht]. lia.
  - intros y r [Hy Hlt]%map_lookup_filter_Some. destruct (Hp y r Hy) as (? & ? & ?). cbn in Hlt. split; [lia|]. rewrite Hbt, elem_of_filter. split; [tauto|]. auto.
  - intros y Hy. destruct (Hc y) as [Hin|[r Hin]]; [lia|left; rewrite Hbt; apply elem_of_filter; split; [lia|done]|].
    right. exists r. apply map_lookup_filter_Some. split; [done|cbn; lia].
  - intros y Hy. destruct (Hb y) as [?|?]; [lia|left; apply HF; [lia|done]|by right].
  - exact Hv.
  - rewrite Hbc. enough (size (tasks b) ≤ size (tasks (sb_batcher sb)))%nat by lia. rewrite Hbt. apply subseteq_size. set_solver.
  - intros ?. rewrite Hdel by done. lia.
Qed.

(** Without the write of the mark, what the data base says of the transactions
    from [x] on is not true any more. *)
Lemma serial_reorg F G G' U st out x : outside_ok out → serial_inv F G U st → 0 ≤ x → (∀ y, y < x → G y → G' y) →
  ends (handle_reorg out (Some (Reverted x))) (λ _ st', serial_inv F G' (λ y, U y ∨ x ≤ y) st') st.
Proof.
  destruct st as [w sb]. intros Hout (Q & v & Hw & Hs) Hx HF. unfold handle_reorg. apply ends_get. cbn [fst snd] in *.
  pose proof Hs as [Hrg Hm Ht Hp Hc Hb Hd Hcap Hdel].
  assert (∀ y, 0 ≤ y < default 0 v → (U y ∨ x ≤ y) ∨ G' y ∨ y ∈ Q) as Hv.
  { intros y Hy. destruct (Z.le_gt_cases x y) as [?|Hlt]; [by left; right|]. destruct (Hd y Hy) as [?|[?|?]]; [by left; left|right; left; auto|by right; right]. }
  destruct (sb_next_tx_seq sb <=? x) eqn:Hn.
  { apply Z.leb_le in Hn. apply ends_mret. exists Q, v. split; [done|]. cbn [fst snd]. split; try done.
    - intros y r' Hy. destruct (Hp y r' Hy) as (? & ? & ?). split_and!; [lia|lia|done|]. intros Hc'. apply HF; [lia|auto].
    - intros y Hy. destruct (Hb y Hy); [left; apply HF; [lia|done]|by right]. }
  apply Z.leb_gt in Hn. apply ends_bind, ends_batcher. eapply ends_mono; [by apply ends_terminate_ok|].
  intros r b ([n ->] & Hb1 & _ & Hb3 & _). apply ends_bind, ends_batcher. unfold ends at 1, modify. cbn [fst snd].
  apply ends_self, ends_self. cbn [sb_config sb_batcher sb_next_tx_seq sb_max_tx_seq pending_completed_txs next_tx_seq_in_db set_batcher set_next set_pending].
  assert (∀ v', (∀ y, 0 ≤ y < default 0 v' → (U y ∨ x ≤ y) ∨ G' y ∨ y ∈ Q) → serial_ok G' (λ y, U y ∨ x ≤ y) Q v' (SerialBatcher_mk (sb_config sb) (batcher_reorg x b) x (sb_max_tx_seq sb)
    (filter (λ kv, kv.1 < x) (pending_completed_txs sb)) (Z.min x (next_tx_seq_in_db sb)))) as Hok.
  { intros v' Hv'. eapply serial_ok_reorg; [exact Hs|lia|done|done|cbn; by rewrite Hb3|done]. }
  destruct (x <? next_tx_seq_in_db sb) eqn:Hlt; cbn [when].
  - apply Z.ltb_lt in Hlt. apply ends_bind, ends_self. eapply ends_mono.
    { eapply (ends_log_error _ (λ st', ∃ v', winv pn rn F st'.1 Q v' ∧ (v' = Some x ∨ v' = v) ∧
        st'.2 = SerialBatcher_mk (sb_config sb) (batcher_reorg x b) x (sb_max_tx_seq sb) (filter (λ kv, kv.1 < x) (pending_completed_txs sb)) x)), ends_sync.
      pose proof (winv_set_next pn rn F x w Q v Hw) as Hset. destruct (set_next_tx_seq x w) as [r w'].
      destruct Hset as (v' & Hw' & Hv'); [unfold U64_MAX in *; lia|]. exists v'. split_and!; [done|tauto|done]. }
    intros r [w' sb'] (v' & Hw' & Hv' & Hsb). cbn in Hsb, Hw'. subst sb'.
    assert (serial_inv F G' (λ y, U y ∨ x ≤ y) (w', SerialBatcher_mk (sb_config sb) (batcher_reorg x b) x
      (sb_max_tx_seq sb) (filter (λ kv, kv.1 < x) (pending_completed_txs sb)) x)) as Hgoal; [|destruct r; [by apply ends_mret|done..]].
    exists Q, v'. split; [done|]. specialize (Hok v'). replace (Z.min x (next_tx_seq_in_db sb)) with x in Hok by lia. apply Hok.
    destruct Hv' as [-> | ->]; [|done]. intros y Hy. cbn in Hy. right. destruct (Hb y) as [?|?]; [lia|left; apply HF; [lia|done]|by right].
  - apply Z.ltb_ge in Hlt. apply ends_bind, ends_mret, ends_mret. exists Q, v. split; [done|]. specialize (Hok v).
    replace (Z.min x (next_tx_seq_in_db sb)) with (next_tx_seq_in_db sb) in Hok by lia. by apply Hok.
Qed.

(** *** Results *)

(** A result taken from the pending ones: the transaction is complete or went
    to a queue before the mark moves. *)
Lemma serial_ok_advance G U Q v' sb r : serial_ok G U Q v' sb → pending_completed_txs sb !! next_tx_seq_in_db sb = Some r →
  G (next_tx_seq_in_db sb) ∨ next_tx_seq_in_db sb ∈ Q →
  serial_ok G U Q v' (set_in_db (next_tx_seq_in_db sb + 1) (set_pending (delete (next_tx_seq_in_db sb) (pending_completed_txs sb)) sb)).
Proof.
  intros [Hrg Hm Ht Hp Hc Hb Hd Hcap Hdel] Hr HG. destruct (Hp _ _ Hr) as (Hin & Hnt & _). split; cbn; try done.
  - lia.
  - intros y Hy. pose proof (Ht y Hy). assert (y ≠ next_tx_seq_in_db sb) by congruence. lia.
  - intros y r' [Hne Hy]%lookup_delete_Some. destruct (Hp y r' Hy) as (? & ? & ?). split_and!; [lia|lia|done..].
  - intros y Hy. rewrite lookup_delete_ne by lia. apply Hc. lia.
  - intros y Hy. destruct (decide (y = next_tx_seq_in_db sb)) as [->|]; [done|]. apply Hb. lia.
  - intros ?%Hdel. lia.
Qed.

(** The mark in the data base may be one ahead. *)
Lemma serial_ok_db G U Q v sb : serial_ok G U Q v sb → G (next_tx_seq_in_db sb) ∨ next_tx_seq_in_db sb ∈ Q →
  serial_ok G U Q (Some (next_tx_seq_in_db sb + 1)) sb.
Proof.
  intros [Hrg Hm Ht Hp Hc Hb Hd Hcap Hdel] HG. split; try done. intros y Hy. cbn in Hy. right.
  destruct (decide (y = next_tx_seq_in_db sb)) as [->|]; [done|]. apply Hb. lia.
Qed.

(** A mark of the data base that is not ahead of the one in memory is true. *)
Lemma serial_ok_marked G U U' Q v sb : default 0 v ≤ next_tx_seq_in_db sb → serial_ok G U Q v sb → serial_ok G U' Q v sb.
Proof. intros Hv [Hrg Hm Ht Hp Hc Hb Hd Hcap Hdel]. split; try done. intros y Hy. right. apply Hb. lia. Qed.

Lemma serial_downgrade F G Q v w sb rng : winv pn rn F w Q v → seq_ok (next_tx_seq_in_db sb) →
  ends (_ ← on_sync (sync_insert rng (next_tx_seq_in_db sb) Pending); mret tt) (λ r st', st'.2 = sb ∧ goes w r st'.1 ∧
    ∃ Q', winv pn rn F st'.1 Q' v ∧ Q ⊆ Q' ∧ (r = Ok tt → G (next_tx_seq_in_db sb) ∨ next_tx_seq_in_db sb ∈ Q')) (w, sb).
Proof.
  intros Hw Hseq. apply ends_bind, ends_sync. pose proof (winv_insert pn rn F rng (next_tx_seq_in_db sb) Pending w Q v Hw Hseq) as Hi.
  pose proof (insert_goes pn rn F rng (next_tx_seq_in_db sb) Pending w Q v Hw Hseq) as Hgo.
  destruct (sync_insert rng (next_tx_seq_in_db sb) Pending w) as [r w']. destruct Hi as (Q' & Hw' & Hsub & Hok). cbn in Hgo.
  assert (∀ r', (r' = Ok tt → ∃ a, r = Ok a) → (∀ a, r = Ok a → r' = Ok tt) → goes w r' w' ∧
    ∃ Q', winv pn rn F w' Q' v ∧ Q ⊆ Q' ∧ (r' = Ok tt → G (next_tx_seq_in_db sb) ∨ next_tx_seq_in_db sb ∈ Q')) as Hgoal.
  { intros r' H1 H2. split; [intros Hwr; destruct (Hgo Hwr) as [[a Ha] ?]; split; [exists tt; eauto|done]|]. exists Q'. split_and!; [done..|].
    intros Hr'. destruct (H1 Hr') as [a Ha]. right. by eapply Hok. }
  destruct r as [a|e| |]; (split; [done|]); apply Hgoal; done || by eexists.
Qed.

Lemma serial_completed_round F G U st rng : serial_inv F G U st →
  ends (completed_round rng (next_tx_seq_in_db st.2))
    (λ r st', serial_inv F G U st' ∧ (∀ c, r = Ok (inl c) → c = next_tx_seq_in_db st'.2 ∧ (size (pending_completed_txs st'.2) < size (pending_completed_txs st.2))%nat) ∧
      (kv_writable (lm_data_db st.1.1) → kv_writable (lm_data_db st'.1.1) ∧
        ((∃ c, r = Ok (inl c)) ∨ r = Ok (inr tt) ∧ pending_completed_txs st'.2 !! next_tx_seq_in_db st'.2 = None))) st.
Proof.
  destruct st as [w sb]. intros (Q & v & Hw & Hs). unfold completed_round. apply ends_get. cbn [fst snd] in *.
  destruct (pending_completed_txs sb !! next_tx_seq_in_db sb) as [res|] eqn:Hres; [|split_and!; [by exists Q, v|done|]; intros Hwr; split; [done|by right]].
  destruct (so_pending _ _ _ _ _ Hs _ _ Hres) as (Hin & _ & HG). pose proof (so_range _ _ _ _ _ Hs) as Hrg. unfold U64_MAX in Hrg.
  apply ends_bind. eapply (ends_mono _ (λ r st', st'.2 = sb ∧ goes w r st'.1 ∧ ∃ Q', winv pn rn F st'.1 Q' v ∧ Q ⊆ Q' ∧
    (r = Ok tt → G (next_tx_seq_in_db sb) ∨ next_tx_seq_in_db sb ∈ Q'))).
  { case_bool_decide as Hc; cbn [when].
    - apply serial_downgrade; [done|unfold seq_ok; lia].
    - apply ends_mret. split; [done|]. split; [intros ?; split; [by eexists|done]|]. exists Q. split_and!; [done..|]. intros _. left. apply HG. by destruct res. }
  intros r [w1 sb1] (Hsb & Hgo & Q' & Hw1 & Hsub & Hok). cbn in Hsb, Hw1, Hgo. subst sb1.
  assert (serial_ok G U Q' v sb) as Hs' by (eapply serial_ok_grow; [|done]; set_solver).
  assert (∀ w' v', winv pn rn F w' Q' v' → (v' = v ∨ v' = Some (next_tx_seq_in_db sb + 1) ∧ (G (next_tx_seq_in_db sb) ∨ next_tx_seq_in_db sb ∈ Q')) →
    serial_inv F G U (w', sb)) as Hkeep.
  { intros w' v' Hw' Hv'. exists Q', v'. split; [done|]. destruct Hv' as [->|[-> Hg]]; [done|by eapply serial_ok_db]. }
  destruct r as [[]|e| |]; [|split_and!; [by eapply (Hkeep w1 v); [|left]|done|intros Hwr; by destruct (Hgo Hwr) as [[? ?] _]]..]. specialize (Hok eq_refl).
  apply ends_bind, ends_sync. rewrite wrap64_small by lia.
  pose proof (winv_set_next pn rn F (next_tx_seq_in_db sb + 1) w1 Q' v Hw1) as Hset.
  pose proof (set_config_goes KEY_NEXT_TX_SEQ (next_tx_seq_in_db sb + 1) w1) as Hgo2. unfold set_next_tx_seq in *.
  destruct (on_store _ w1) as [r w2]. cbn in Hgo2. destruct Hset as (v' & Hw2 & Hv'); [lia|].
  destruct r as [[]|e| |]; [|split_and!; [eapply (Hkeep w2 v'); [done|]; tauto|done|intros Hwr; by destruct (Hgo2 (proj2 (Hgo Hwr))) as [[? ?] _]]..].
  apply ends_self, ends_self, ends_mret. split_and!.
  - exists Q', v'. split; [done|]. cbn [fst snd]. eapply serial_ok_advance; [|done..]. destruct Hv' as [->|[-> _]]; [by eapply serial_ok_db|done].
  - intros c [= <-]. split; [done|]. cbn. rewrite map_size_delete_Some by done.
    assert (size (pending_completed_txs sb) ≠ 0%nat) by (rewrite map_size_ne_0_lookup; eauto). lia.
  - intros Hwr. split; [apply Hgo2, Hgo, Hwr|]. left. by eexists.
Qed.

(** Enough fuel: every round takes a result away. *)
Lemma serial_update_completed F G U st rng : serial_inv F G U st →
  ends (update_completed_txs_in_db rng) (λ r st', serial_inv F G U st' ∧
    (kv_writable (lm_data_db st.1.1) → r = Ok tt ∧ kv_writable (lm_data_db st'.1.1) ∧ pending_completed_txs st'.2 !! next_tx_seq_in_db st'.2 = None)) st.
Proof.
  intros Hinv. unfold update_completed_txs_in_db. apply ends_get.
  assert (size (pending_completed_txs st.2) < S (size (pending_completed_txs st.2)))%nat as Hf by lia. revert Hf.
  generalize (S (size (pending_completed_txs st.2))). intros fuel. revert st Hinv.
  induction fuel as [|fuel IH]; intros st Hinv Hf; [lia|]. cbn [loop]. apply ends_bind.
  eapply ends_mono; [by apply serial_completed_round|]. intros r st' (Hinv' & Hc & Hwr).
  destruct r as [[c|[]]|e| |]; [|split; [done|]; intros Hw; destruct (Hwr Hw) as (? & [[? ?]|[? ?]]); done..].
  destruct (Hc c eq_refl) as [-> Hlt]. eapply ends_mono; [apply IH; [done|lia]|]. intros r st2 [? Hr]. split; [done|]. intros Hw. by apply Hr, Hwr.
Qed.

(** *** Scheduling *)

(** The next transaction goes to a queue when nothing is synchronized in order. *)
Lemma serial_ok_delegated G U Q v sb : serial_ok G U Q v sb → sb_next_tx_seq sb < U64_MAX → next_tx_seq_in_db sb = sb_next_tx_seq sb →
  sb_next_tx_seq sb ∈ Q → serial_ok G U Q v (set_in_db (sb_next_tx_seq sb + 1) (set_next (sb_next_tx_seq sb + 1) sb)).
Proof.
  intros [Hrg Hm Ht Hp Hc Hb Hd Hcap Hdel] Hlt Heq Hin. split; cbn; [lia|done|intros y Hy%Ht; lia| |lia| |done..].
  - intros y r Hy. destruct (Hp y r Hy). lia.
  - intros y Hy. destruct (decide (y = sb_next_tx_seq sb)) as [->|]; [by right|]. apply Hb. lia.
Qed.

(** The next transaction becomes a task. *)
Lemma serial_ok_added G U Q v sb b : serial_ok G U Q v sb → sb_next_tx_seq sb < U64_MAX → max_sequential_workers (sb_config sb) ≠ 0 →
  tasks b = {[sb_next_tx_seq sb]} ∪ tasks (sb_batcher sb) → capacity b = capacity (sb_batcher sb) → Z.of_nat (size (tasks (sb_batcher sb))) < capacity b →
  serial_ok G U Q v (set_next (sb_next_tx_seq sb + 1) (set_batcher b sb)).
Proof.
  intros [Hrg Hm Ht Hp Hc Hb Hd Hcap Hdel] Hlt Hwk Hbt Hbc Hsz. split; cbn; try done.
  - lia.
  - intros y. rewrite Hbt, elem_of_union, elem_of_singleton. intros [->|Hy%Ht]; lia.
  - intros y r Hy. destruct (Hp y r Hy) as (? & ? & ?). split_and!; [lia|lia| |done]. rewrite Hbt, elem_of_union, elem_of_singleton. intros [->|?]; [lia|done].
  - intros y Hy. rewrite Hbt, elem_of_union, elem_of_singleton. destruct (decide (y = sb_next_tx_seq sb)) as [->|]; [by left; left|].
    destruct (Hc y) as [?|?]; [lia|by left; right|by right].
  - enough (size (tasks b) ≤ S (size (tasks (sb_batcher sb))))%nat by lia. rewrite Hbt. pose proof (size_union_alt {[sb_next_tx_seq sb]} (tasks (sb_batcher sb))) as Hu.
    rewrite size_singleton in Hu. rewrite Hu. enough (size (tasks (sb_batcher sb) ∖ {[sb_next_tx_seq sb]}) ≤ size (tasks (sb_batcher sb)))%nat by lia.
    apply subseteq_size. set_solver.
Qed.

Lemma serial_schedule F G U st rng : serial_inv F G U st → ends (schedule_next rng) (λ _ st', serial_inv F G U st') st.
Proof.
  destruct st as [w sb]. intros Hinv. pose proof Hinv as (Q & v & Hw & Hs). unfold schedule_next. apply ends_get. cbn [fst snd] in *.
  pose proof (so_range _ _ _ _ _ Hs) as Hrg. pose proof (so_max _ _ _ _ _ Hs) as Hmax. unfold U64_MAX in Hrg, Hmax.
  destruct (sb_max_tx_seq sb =? U64_MAX) eqn:Hmx; [done|]. apply Z.eqb_neq in Hmx. unfold U64_MAX in Hmx.
  destruct (sb_max_tx_seq sb <? sb_next_tx_seq sb) eqn:Hlt; [done|]. apply Z.ltb_ge in Hlt. rewrite wrap64_small by lia.
  destruct (max_sequential_workers (sb_config sb) =? 0) eqn:Hwk.
  - apply Z.eqb_eq in Hwk. pose proof (so_delegate _ _ _ _ _ Hs Hwk) as Heq.
    apply ends_seq, ends_sync. pose proof (winv_insert pn rn F rng (sb_next_tx_seq sb) Ready w Q v Hw) as Hi.
    destruct (sync_insert rng (sb_next_tx_seq sb) Ready w) as [r w1]. destruct Hi as (Q' & Hw1 & Hsub & Hok); [unfold seq_ok; lia|].
    assert (serial_ok G U Q' v sb) as Hs' by (eapply serial_ok_grow; [|done]; set_solver).
    split; [by exists Q', v|]. intros a ->. specialize (Hok a eq_refl).
    apply ends_seq, ends_sync. pose proof (winv_set_next pn rn F (sb_next_tx_seq sb + 1) w1 Q' v Hw1) as Hset.
    destruct (set_next_tx_seq (sb_next_tx_seq sb + 1) w1) as [r w2]. destruct Hset as (v' & Hw2 & Hv'); [lia|].
    assert (serial_ok G U Q' v' sb) as Hs2.
    { destruct Hv' as [->|[-> _]]; [|done]. rewrite <-Heq. apply (serial_ok_db _ _ _ v); [done|]. rewrite Heq. by right. }
    split; [by exists Q', v'|]. intros ? _. apply ends_self, ends_self, ends_mret. exists Q', v'. split; [done|].
    cbn [fst snd]. apply serial_ok_delegated; [done|unfold U64_MAX; lia|done..].
  - apply Z.eqb_neq in Hwk. apply ends_bind, ends_batcher. eapply ends_mono; [apply ends_add|]. intros r b [Hcap' Hb'].
    destruct Hb' as [[Hb' Hr]|(Hb' & -> & Hnin & Hsz)].
    + assert (serial_inv F G U (w, set_batcher b sb)) as Hi.
      { exists Q, v. split; [done|]. destruct Hs as [Hrg2 Hm Ht Hp Hc Hb Hd Hcap Hdel]. split; cbn; rewrite ?Hb', ?Hcap'; done. }
      by destruct r as [[]|e| |].
    + apply ends_self, ends_mret. exists Q, v. split; [done|]. cbn [fst snd]. apply serial_ok_added; try done; [unfold U64_MAX; lia|by rewrite Hcap'].
Qed.

(** *** A round *)

(** The requests of the rounds. *)
Definition same_requests st st' : Prop := sync_send (sb_batcher st'.2) = sync_send (sb_batcher st.2).

#[local] Instance same_requests_preorder : PreOrder same_requests.
Proof. split; unfold same_requests; congruence. Qed.

Lemma sync_requests {A} (m : M (manager * SyncStore) A) : keeps same_requests (on_sync m).
Proof. intros [w sb]. unfold on_sync, zoom. cbn. by destruct (m w). Qed.

Lemma get_requests : keeps same_requests get.
Proof. by intros st. Qed.

Lemma self_requests f : (∀ sb, sb_batcher (f sb) = sb_batcher sb) → keeps same_requests (on_self f).
Proof. intros Hf [w sb]. unfold same_requests. cbn. by rewrite Hf. Qed.

Lemma schedule_requests rng : keeps same_requests (schedule_next rng : M State bool).
Proof.
  pose proof get_requests. pose proof @sync_requests as Hsync.
  assert (∀ (s : manager) x, keeps same_requests (on_batcher (batcher_add s x))) as Hadd.
  { intros s x [w sb]. unfold same_requests, on_batcher, zoom. cbn. pose proof (add_sends_nothing s x (sb_batcher sb)) as Hs.
    by destruct (batcher_add s x (sb_batcher sb)). }
  unfold schedule_next. solve_keeps; by apply self_requests.
Qed.

Lemma update_requests rng : keeps same_requests (update_completed_txs_in_db rng : M State ()).
Proof.
  pose proof get_requests. pose proof @sync_requests as Hsync. unfold update_completed_txs_in_db. apply keeps_bind; [apply _|done|]. intros st.
  generalize (S (size (pending_completed_txs st.2))) (next_tx_seq_in_db st.2). intros fuel. induction fuel as [|fuel IH]; intros c; cbn [loop]; solve_keeps.
Qed.

Lemma announcement_requests rng recv : keeps same_requests (update_file_announcement rng recv : M State bool).
Proof.
  pose proof get_requests. assert (∀ A (m : M (manager * SyncStore) A), keeps same_requests (log_error (on_sync m))) as Hlog.
  { intros A m [w sb]. unfold log_error, attempt, on_sync, zoom, mbind, M_bind. cbn. by destruct (m w) as [[] ?]. }
  unfold update_file_announcement. solve_keeps.
Qed.

(** The result of a task. *)
Lemma serial_ok_result G U Q v sb b x res : serial_ok G U Q v sb → x ∈ tasks (sb_batcher sb) → tasks b = tasks (sb_batcher sb) ∖ {[x]} →
  capacity b = capacity (sb_batcher sb) → (res = SyncCompleted → G x) →
  serial_ok G U Q v (set_pending (<[x := res]> (pending_completed_txs sb)) (set_batcher b sb)).
Proof.
  intros [Hrg Hm Ht Hp Hc Hb Hd Hcap Hdel] Hx Hbt Hbc HG. split; cbn; try done.
  - intros y Hy. apply Ht. set_solver.
  - intros y r [[<- <-]|[Hne Hy]]%lookup_insert_Some; [split; [by apply Ht|]; split; [set_solver|done]|].
    destruct (Hp y r Hy) as (? & ? & ?). split_and!; [lia|lia|set_solver|done].
  - intros y Hy. destruct (decide (y = x)) as [->|Hne]; [right; by rewrite lookup_insert_eq|]. rewrite lookup_insert_ne by done.
    destruct (Hc y Hy) as [?|?]; [left; set_solver|by right].
  - enough (size (tasks b) ≤ size (tasks (sb_batcher sb)))%nat by lia. rewrite Hbt. apply subseteq_size. set_solver.
Qed.

(** The files of [G], and those that the service calls completed in the round. *)
Definition with_answers G out st st' : Z → Prop := λ x, G x ∨ x ∈ answered out (sb_batcher st.2) (sb_batcher st'.2).

Lemma serial_sync F G U st out : serial_inv F G U st → outside_ok out → (∀ x, F x → G x) →
  ends (serial_sync_once out) (λ _ st', serial_inv F (with_answers G out st st') U st') st.
Proof.
  intros Hinv Hout HFG. unfold serial_sync_once. apply ends_seq.
  pose proof (schedule_requests (os_rng out) st) as Hreq. pose proof (serial_schedule F G U st (os_rng out) Hinv) as Hsched.
  unfold ends in Hsched. unfold ends at 1. destruct (schedule_next (os_rng out) st) as [r [w sb]]. cbn [fst snd] in *.
  split; [by eapply serial_inv_mono; [left|]|]. intros [] _; [by eapply (serial_inv_mono F G); [left|]|].
  apply ends_get, ends_bind, ends_batcher. cbn [fst snd]. destruct Hsched as (Q & v & Hw & Hs). cbn [fst snd] in *.
  eapply ends_mono; [by eapply ends_poll|]. intros p b [Hbc [[Hbt Hp]|(x & res & -> & Hx & Hbt & HG)]].
  - assert (serial_inv F G U (w, set_batcher b sb)) as Hi.
    { exists Q, v. split; [done|]. destruct Hs as [Hrg Hm Hta Hpe Hc Hb Hd Hcap Hdel]. split; cbn; rewrite ?Hbt, ?Hbc; done. }
    destruct p as [[p|]|e| |]; [by destruct (Hp p)|by eapply (serial_inv_mono F G); [left|]..].
  - apply ends_self. set (sb1 := set_pending _ _).
    assert (serial_inv F (λ y, G y ∨ y ∈ answered out (sb_batcher st.2) b) U (w, sb1)) as Hi.
    { exists Q, v. split; [done|]. cbn [snd]. apply (serial_ok_result _ U Q v sb b x res); [by eapply serial_ok_mono; [left| |]|done..|].
      intros Hres. unfold answered. rewrite <-Hreq. destruct (HG Hres) as [Hcomp|?]; [left; by apply HFG, Hw|by right]. }
    apply ends_bind. pose proof (serial_update_completed _ _ _ _ (os_rng out) Hi) as Hu. pose proof (update_requests (os_rng out) (w, sb1)) as Hsame.
    unfold ends in Hu |- *. destruct (update_completed_txs_in_db (os_rng out) (w, sb1)) as [r2 st2]. cbn [fst snd] in *. destruct Hu as [Hu _].
    assert (serial_inv F (with_answers G out st st2) U st2) by (eapply serial_inv_mono; [|exact Hu]; unfold with_answers, answered; by rewrite Hsame).
    by destruct r2.
Qed.

(** Anything but a reorganization. *)
Lemma serial_round F G U st out announced event catched_up : serial_inv F G U st → outside_ok out → (∀ x, F x → G x) →
  (∀ x, announced = Some x → seq_ok x) → (∀ x, event ≠ Some (Reverted x)) →
  ends (serial_start_round out announced event catched_up) (λ _ st', serial_inv F (with_answers G out st st') U st') st.
Proof.
  intros Hinv Hout HFG Ha He. unfold serial_start_round. apply ends_seq.
  pose proof (announcement_requests (os_rng out) announced) as Hk.
  specialize (Hk st). pose proof (serial_announce F G U st (os_rng out) announced Hinv Ha) as Hann. unfold ends in Hann. unfold ends at 1.
  destruct (update_file_announcement (os_rng out) announced st) as [r st1]. cbn [fst snd] in *.
  split; [by eapply serial_inv_mono; [left|]|]. intros [] _; [by eapply (serial_inv_mono F G); [left|]|]. apply ends_seq.
  assert (handle_reorg out event st1 = (Ok false, st1)) as Hev by (destruct event as [[]|]; [reflexivity|exfalso; by eapply He|reflexivity..]).
  unfold ends at 1. rewrite Hev. split; [by eapply serial_inv_mono; [left|]|]. intros ? [= <-].
  destruct catched_up; [|by eapply (serial_inv_mono F G); [left|]]. apply ends_get, ends_seq.
  assert (∀ st', serial_inv F (with_answers G out st1 st') U st' → serial_inv F (with_answers G out st st') U st') as Hst.
  { intros st'. apply serial_inv_mono. unfold with_answers, answered. by rewrite Hk. }
  eapply ends_mono; [apply (ends_log_error _ (λ st', serial_inv F (with_answers G out st1 st') U st')); by apply serial_sync|].
  intros r' st' Hi. split; [by apply Hst|]. intros _ _. by apply Hst.
Qed.

Lemma serial_round_reorg F G G' U st out x catched_up : serial_inv F G U st → outside_ok out → 0 ≤ x → (∀ y, y < x → G y → G' y) →
  ends (serial_start_round out None (Some (Reverted x)) catched_up) (λ _ st', serial_inv F G' (λ y, U y ∨ x ≤ y) st') st.
Proof.
  intros Hinv Hout Hx HG. unfold serial_start_round. apply ends_bind, ends_mret, ends_bind.
  assert (∀ r, (handle_reorg out (Some (Reverted x)) st).1 = Ok r → r = true) as Htrue.
  { change (ends (handle_reorg out (Some (Reverted x))) (λ r _, ∀ h, r = Ok h → h = true) st). unfold handle_reorg. apply ends_get.
    destruct (sb_next_tx_seq st.2 <=? x); [by intros h [= <-]|]. intros h Hh. do 5 apply bind_result in Hh as (? & ? & Hh). by injection Hh. }
  pose proof (serial_reorg F G G' U st out x Hout Hinv Hx HG) as Hre. unfold ends in Hre |- *.
  destruct (handle_reorg out (Some (Reverted x)) st) as [[h|e| |] st']; try done. cbn in *. by rewrite (Htrue h eq_refl).
Qed.

End serial.
