(* ===== verification/AutoSyncTheorems.v ===== *)
(** No transaction is lost by the automatic synchronization. *)

From stdpp Require Import pretty sorting list_numbers.
From S2P Require Import Prelude HashElement Ssz SszFacts MerkleProof NodeStore AppendMerkle Bytes FlowDb Shard MerkleLight SharedTypes.
From S2P Require Import Seal ChunkData SealInfo EntryBatch Serde FlowStore TxStore LogManager SyncStore SyncStoreFacts SyncTheorems.
From S2P Require Import FileLocationCache SyncController AutoSync AutoSyncFacts.
Local Open Scope Z_scope.

Section node.
Context `{KeyValueDBLaws KV} {MM PeerId : Type} (pn rn : string).
Local Abbreviation manager := (LogManager KV MM).
Implicit Types (w : manager * SyncStore) (sb : SerialBatcher) (rb : Batcher) (out : Outside PeerId).
Implicit Types (F G : Z → Prop) (Q : gset Z) (v : option Z) (x : Z) (L : list Z).

(** The stores and the batchers. With them, as ghost state, what the batchers
    were told and what they have not learned: the transactions that the sync
    service called completed when it was asked, the reverted ones whose event the
    serial batcher has not seen yet, those that it has seen while the mark in the
    data base stayed ahead of its own, and those that it never learned of because
    the node was restarted before. *)
Record Node := Node_mk {
  nd_store : manager * SyncStore;
  nd_serial : SerialBatcher;
  nd_random : Batcher;
  nd_claimed : list Z;
  nd_reverts : list Z;
  nd_unmarked : list Z;
  nd_lost : list Z;
}.
Implicit Types (nd : Node).

(** A revert of the list concerns the transaction. *)
Definition due L x : Prop := Exists (λ y, y ≤ x) L.

(** What may be taken for complete. *)
Definition known nd x : Prop := complete (nd_store nd).1 x ∨ x ∈ nd_claimed nd ∨ due (nd_reverts nd ++ nd_lost nd) x.

(** The reverts for which the mark in the data base is still to be moved back:
    none when it is not ahead of the mark in memory. *)
Definition still_unmarked w sb L : list Z :=
  match get_tx_seq_range w with
  | Ok range => if default 0 range.1 <=? next_tx_seq_in_db sb then [] else L
  | _ => L
  end.

(** The rounds of the two batchers, of the task for new files and of the rest of
    the node, in any order and with any outcome: failed writes, answers of the
    service that are not true, and restarts at any time included. *)
Inductive node_step nd : Node → Prop :=
  | step_round out announced event catched_up r w sb :
      outside_ok out → (∀ x, announced = Some x → seq_ok x) → (∀ x, event ≠ Some (Reverted x)) →
      serial_start_round out announced event catched_up (nd_store nd, nd_serial nd) = (r, (w, sb)) →
      node_step nd (Node_mk w sb (nd_random nd) (nd_claimed nd ++ answered out (sb_batcher (nd_serial nd)) (sb_batcher sb)) (nd_reverts nd)
        (still_unmarked w sb (nd_unmarked nd)) (nd_lost nd))
  | step_reverted out catched_up r w sb x L :
      outside_ok out → nd_reverts nd = x :: L →
      serial_start_round out None (Some (Reverted x)) catched_up (nd_store nd, nd_serial nd) = (r, (w, sb)) →
      node_step nd (Node_mk w sb (nd_random nd) (filter (λ y, y < x) (nd_claimed nd)) L
        (still_unmarked w sb (nd_unmarked nd ++ [x])) (filter (λ y, y < x) (nd_lost nd)))
  | step_random out r w rb :
      outside_ok out → random_sync_once out (nd_store nd, nd_random nd) = (r, (w, rb)) →
      node_step nd (Node_mk w (nd_serial nd) rb (nd_claimed nd ++ answered out (nd_random nd) rb) (nd_reverts nd) (nd_unmarked nd) (nd_lost nd))
  | step_new_file rng x r w :
      seq_ok x → handle_new_file rng x (nd_store nd) = (r, w) →
      node_step nd (Node_mk w (nd_serial nd) (nd_random nd) (nd_claimed nd) (nd_reverts nd) (nd_unmarked nd) (nd_lost nd))
  | step_store s L :
      same_entries pn rn (kv_map (lm_data_db (nd_store nd).1)) (kv_map (lm_data_db s)) → Forall (λ x, 0 ≤ x) L →
      (∀ x, complete (nd_store nd).1 x → complete s x ∨ due L x) →
      node_step nd (Node_mk (s, (nd_store nd).2) (nd_serial nd) (nd_random nd) (nd_claimed nd) (nd_reverts nd ++ L) (nd_unmarked nd) (nd_lost nd))
  | step_restart config cap sb :
      serial_new config ((nd_store nd).1, sync_store_new_with_name cap pn rn) = Ok sb →
      node_step nd (Node_mk ((nd_store nd).1, sync_store_new_with_name cap pn rn) sb (random_new config) (nd_claimed nd) [] []
        (nd_lost nd ++ nd_unmarked nd ++ nd_reverts nd)).

(** A node that starts on an empty data base. *)
Inductive node_start : Node → Prop :=
  | node_start_intro s config cap sb :
      0 ≤ cap → no_dot pn → no_dot rn → pn ≠ rn → (∀ k, kv_map (lm_data_db s) !! (COL_MISC, k) = None) →
      serial_new config (s, sync_store_new_with_name cap pn rn) = Ok sb →
      node_start (Node_mk (s, sync_store_new_with_name cap pn rn) sb (random_new config) [] [] [] []).

Inductive node_reach nd0 : Node → Prop :=
  | reach_start : node_reach nd0 nd0
  | reach_step nd nd' : node_reach nd0 nd → node_step nd nd' → node_reach nd0 nd'.

Definition tasks_typed rb : Prop := ∀ x, x ∈ tasks rb → seq_ok x.

Definition node_inv nd : Prop :=
  serial_inv pn rn (complete (nd_store nd).1) (known nd) (due (nd_unmarked nd)) (nd_store nd, nd_serial nd) ∧
  tasks_typed (nd_random nd) ∧ Forall (λ x, 0 ≤ x) (nd_reverts nd).

(** *** The steps keep the invariant *)

Lemma complete_same F w w' sb' G U : serial_inv pn rn F G U (w', sb') → (∀ x, F x ↔ complete w.1 x) → ∀ x, complete w.1 x ↔ complete w'.1 x.
Proof. intros (Q & v & Hw & _) HF x. rewrite <-HF. apply Hw. Qed.

Lemma winv_iff F F' w Q v : (∀ x, F x ↔ F' x) → winv pn rn F w Q v → winv pn rn F' w Q v.
Proof. intros HF []. split; try done. intros x. by rewrite <-HF. Qed.

Lemma due_app L L' x : due (L ++ L') x ↔ due L x ∨ due L' x.
Proof. apply Exists_app. Qed.

Lemma due_below L x y : y < x → due L y → due (filter (λ z, z < x) L) y.
Proof.
  unfold due. rewrite !Exists_exists. intros Hy (z & Hz & Hle). exists z. split; [|done]. apply list_elem_of_filter. split; [lia|done].
Qed.

(** What the serial batcher has to account for, in the node after a step. *)
Lemma node_inv_intro F G U nd' : Forall (λ x, 0 ≤ x) (nd_reverts nd') → tasks_typed (nd_random nd') →
  (∀ x, G x → known nd' x ∨ F x) → (∀ x, U x → due (nd_unmarked nd') x) →
  serial_inv pn rn F G U (nd_store nd', nd_serial nd') → node_inv nd'.
Proof.
  intros HL Ht HG HU (Q & v & Hw & Hs). cbn [fst snd] in *. split_and!; [|done..]. exists Q, v. split; [eapply winv_iff; [|done]; apply Hw|].
  eapply serial_ok_mono; [|exact HU|done]. intros x [?|?]%HG; [done|left; by apply Hw].
Qed.

(** The reverts that are marked are not needed any more. *)
Lemma serial_unmarked F G L w sb : serial_inv pn rn F G (due L) (w, sb) → serial_inv pn rn F G (due (still_unmarked w sb L)) (w, sb).
Proof.
  intros Hi. unfold still_unmarked. destruct (get_tx_seq_range w) as [range|e| |] eqn:Hr; try done. destruct (Z.leb_spec (default 0 range.1) (next_tx_seq_in_db sb)) as [Hle|]; [|done].
  destruct Hi as (Q & v & Hw & Hs). exists Q, v. split; [done|]. cbn [fst snd] in *. eapply serial_ok_marked; [|exact Hs].
  by rewrite <-(proj1 (get_range_next pn rn _ _ _ _ _ Hw Hr)).
Qed.

Lemma random_result F G w (b : Batcher) Q v out x res : winv pn rn F w Q v → seq_ok x → (res = SyncCompleted → G x) →
  ends (if bool_decide (res = SyncCompleted) then _ ← on_sync (sync_remove x); mret tt
        else _ ← on_sync (sync_insert (os_rng out) x Pending); mret tt)
    (λ _ st, ∃ Q', winv pn rn F st.1 Q' v ∧ (∀ y, y ∈ Q → G y ∨ y ∈ Q') ∧ st.2 = b) (w, b).
Proof.
  intros Hw Hx HG. case_bool_decide as Hres; apply ends_seq, ends_sync.
  - pose proof (winv_remove pn rn F x w Q v Hw Hx) as Hrm. destruct (sync_remove x w) as [r w']. destruct Hrm as (Q' & Hw' & Hsub).
    assert (∃ Q', winv pn rn F (w', b).1 Q' v ∧ (∀ y, y ∈ Q → G y ∨ y ∈ Q') ∧ (w', b).2 = b) as HQ'; [|by split].
    exists Q'. split_and!; [done| |done]. intros y Hy. destruct (decide (y = x)) as [->|]; [left; auto|]. set_solver.
  - pose proof (winv_insert pn rn F (os_rng out) x Pending w Q v Hw Hx) as Hi. destruct (sync_insert _ x Pending w) as [r w']. destruct Hi as (Q' & Hw' & Hsub & _).
    assert (∃ Q', winv pn rn F (w', b).1 Q' v ∧ (∀ y, y ∈ Q → G y ∨ y ∈ Q') ∧ (w', b).2 = b) as HQ'; [|by split].
    exists Q'. split_and!; [done|set_solver|done].
Qed.

Lemma random_schedule_ends F w rb Q v out : winv pn rn F w Q v → tasks_typed rb → outside_ok out →
  ends (random_schedule (os_rng out)) (λ _ st, st.1 = w ∧ tasks_typed st.2 ∧ sync_send st.2 = sync_send rb) (w, rb).
Proof.
  intros Hw Hrb Hout. unfold random_schedule. apply ends_get. apply ends_bind, ends_lift. cbn [fst snd].
  destruct (sync_random (os_rng out) w) as [[x|]|e| |] eqn:Hr; try done.
  apply (ends_zoom snd (λ b st, (st.1, b))). pose proof (add_sends_nothing w.1 x rb) as Hsend.
  pose proof (ends_add w.1 x rb) as Hadd. unfold ends in *. cbn [fst snd]. destruct (batcher_add w.1 x rb) as [r b]. cbn in Hsend, Hadd. cbn [fst snd].
  destruct Hadd as [_ Hb]. split; [done|]. split; [|done].
  destruct Hb as [[Hb _]|(Hb & _)]; intros y; rewrite Hb; [apply Hrb|]. rewrite elem_of_union, elem_of_singleton.
  intros [->|?]; [|by apply Hrb]. by eapply random_typed, Hr; [|apply Hout].
Qed.

Lemma random_sync F G w rb Q v out : winv pn rn F w Q v → tasks_typed rb → outside_ok out → (∀ x, F x → G x) →
  ends (random_sync_once out) (λ _ st, ∃ Q', winv pn rn F st.1 Q' v ∧ (∀ y, y ∈ Q → (G y ∨ y ∈ answered out rb st.2) ∨ y ∈ Q') ∧ tasks_typed st.2) (w, rb).
Proof.
  intros Hw Hrb Hout HFG. unfold random_sync_once. apply ends_bind.
  eapply ends_mono; [by eapply random_schedule_ends|]. intros r [w1 rb1] (Hw1 & Hrb1 & Hsend). cbn in Hw1, Hrb1, Hsend. subst w1.
  assert (∀ rb', tasks_typed rb' → ∃ Q', winv pn rn F (w, rb').1 Q' v ∧ (∀ y, y ∈ Q → (G y ∨ y ∈ answered out rb (w, rb').2) ∨ y ∈ Q') ∧ tasks_typed (w, rb').2) as Hsame.
  { intros rb' ?. exists Q. split_and!; [done|by right|done]. }
  destruct r as [[]|e| |]; [by apply Hsame| |by apply Hsame..]. apply ends_get, ends_bind, (ends_zoom snd (λ b st, (st.1, b))). cbn [fst snd].
  eapply ends_mono; [by eapply ends_poll|]. intros p b [_ [[Hbt Hp]|(x & res & -> & Hx & Hbt & HG)]].
  { assert (tasks_typed b) by (intros y; rewrite Hbt; apply Hrb1). destruct p as [[p|]|e| |]; [by destruct (Hp p)|by apply Hsame..]. }
  assert (tasks_typed b) as Hb by (intros y; rewrite Hbt; intros Hy; apply Hrb1; set_solver).
  assert (res = SyncCompleted → G x ∨ x ∈ answered out rb b) as HG'.
  { intros Hres. unfold answered. rewrite <-Hsend. destruct (HG Hres) as [Hcomp|?]; [left; by apply HFG, Hw|by right]. }
  apply ends_bind. eapply ends_mono; [by eapply (random_result F (λ y, G y ∨ y ∈ answered out rb b) w b Q v out x res), HG'; [|apply Hrb1]|].
  intros r [w' b'] (Q' & Hw' & HQ & Hb'). cbn in Hb'. subst b'.
  assert (∃ Q', winv pn rn F (w', b).1 Q' v ∧ (∀ y, y ∈ Q → (G y ∨ y ∈ answered out rb (w', b).2) ∨ y ∈ Q') ∧ tasks_typed (w', b).2) by (by exists Q'). by destruct r.
Qed.

(** Opening the serial batcher: everything below the mark is accounted for. *)
Lemma open_ok F G U w Q v config sb : winv pn rn F w Q v → serial_new config w = Ok sb → (∀ x, 0 ≤ x < default 0 v → G x ∨ x ∈ Q) → serial_ok G U Q v sb.
Proof.
  intros Hw Hnew HG. unfold serial_new in Hnew. destruct (get_tx_seq_range w) as [range|e| |] eqn:Hrange; try done. rewrite bind_Ok in Hnew. injection Hnew as <-.
  destruct (get_range_next pn rn _ _ _ _ _ Hw Hrange) as [-> Hmx].
  assert (0 ≤ default 0 v < 2 ^ 64). { destruct v as [y|]; cbn; [by apply Hw|lia]. }
  split; cbn; unfold U64_MAX; try done; try lia.
  - destruct range.2 as [m|]; cbn; [specialize (Hmx m eq_refl)|]; lia.
  - intros y Hy. right. by apply HG.
  - rewrite size_empty. lia.
Qed.

Lemma start_inv nd : node_start nd → node_inv nd.
Proof.
  intros [s config cap sb Hcap Hp Hr Hne Hm Hnew]. split_and!; [|by intros x ?%elem_of_empty|done]. exists ∅, None. cbn [nd_store nd_serial fst snd].
  destruct (sync_open pn rn cap s Hcap Hp Hr Hne) as (Hn & Hq & _); [by split; apply Hm|].
  assert (winv pn rn (complete s) (s, sync_store_new_with_name cap pn rn) ∅ None) as Hw.
  { split; [exists ∅, ∅; split_and!; [done|done|set_solver]|cbn; set_solver|apply Hm|done|exists None; split; [apply Hm|done]|done]. }
  split; [done|]. eapply open_ok; [done..|]. cbn. lia.
Qed.

Lemma known_complete nd x : complete (nd_store nd).1 x → known nd x.
Proof. by left. Qed.

Lemma step_inv nd nd' : node_inv nd → node_step nd nd' → node_inv nd'.
Proof.
  intros (Hs & Ht & HL) Hstep. pose proof Hs as (Q & v & Hw & Hok). cbn [fst snd] in Hw, Hok.
  destruct Hstep as [out ann event c r w sb Hout Hann Hev Hrun|out c r w sb x L Hout HL' Hrun|out r w rb Hout Hrun|rng x r w Hx Hrun|s L Hsame HL' Hkeep|config cap sb Hnew].
  - pose proof (serial_round pn rn _ _ _ _ out ann event c Hs Hout (known_complete nd) Hann Hev) as Hr. unfold ends in Hr. rewrite Hrun in Hr.
    cbn [snd] in Hr. eapply node_inv_intro; [done|done| |done|by apply serial_unmarked].
    unfold with_answers, known. cbn. intros y. rewrite elem_of_app. tauto.
  - rewrite HL' in HL. apply Forall_cons in HL as [Hx HL]. set (L' := filter (λ y, y < x) (nd_lost nd)). set (C := filter (λ y, y < x) (nd_claimed nd)).
    pose proof (serial_round_reorg pn rn _ _ (λ y, complete (nd_store nd).1 y ∨ y ∈ C ∨ due (L ++ L') y) _ _ out x c Hs Hout Hx) as Hr.
    unfold ends in Hr. rewrite Hrun in Hr. cbn [snd] in Hr. eapply (node_inv_intro _ _ (due (still_unmarked w sb (nd_unmarked nd ++ [x])))); [done|done| |done|].
    2: { apply serial_unmarked. eapply serial_inv_grow; [|apply Hr].
      - intros y [?|?]; rewrite due_app; [by left|right]. by apply Exists_cons; left.
      - intros y Hy [?|[?|Hd]]; [by left|right; left; by apply list_elem_of_filter|right; right].
        rewrite HL', due_app in Hd. rewrite due_app. destruct Hd as [[?|?]%Exists_cons|?]; [lia|by left|right; by apply due_below]. }
    unfold known. cbn. tauto.
  - pose proof (random_sync _ _ _ _ _ _ out Hw Ht Hout (known_complete nd)) as Hr. unfold ends in Hr. rewrite Hrun in Hr. cbn in Hr.
    destruct Hr as (Q' & Hw' & HQ & Ht'). eapply (node_inv_intro (complete (nd_store nd).1) (λ y, known nd y ∨ y ∈ answered out (nd_random nd) rb)); [done|done| |done|].
    + unfold known. cbn. intros y. rewrite elem_of_app. tauto.
    + exists Q', v. split; [done|]. eapply serial_ok_grow; [|eapply serial_ok_mono; [by left|done|exact Hok]]. intros y [?|?]; auto.
  - unfold handle_new_file in Hrun. pose proof (winv_insert pn rn _ rng x Ready _ Q v Hw Hx) as Hi.
    assert (w = (sync_insert rng x Ready (nd_store nd)).2) as ->.
    { unfold log_error, attempt, mbind, M_bind in Hrun. destruct (sync_insert rng x Ready (nd_store nd)) as [[] ?]; by injection Hrun. }
    destruct (sync_insert rng x Ready (nd_store nd)) as [r' w]. destruct Hi as (Q' & Hw' & HQ & _). cbn [snd].
    eapply (node_inv_intro (complete (nd_store nd).1) (known nd)); [done|done|unfold known; cbn; tauto|done|]. exists Q', v. split; [done|]. eapply serial_ok_grow; [|done]. set_solver.
  - split_and!; [|done|by apply Forall_app]. exists Q, v. cbn. split; [by eapply winv_env|]. eapply serial_ok_mono; [|done|done].
    unfold known. cbn. intros y. rewrite !due_app. intros [?%Hkeep|?]; tauto.
  - split_and!; [|by intros y ?%elem_of_empty|done]. exists Q, v. cbn. pose proof (winv_reopen pn rn _ _ Q v cap Hw) as Hw'. split; [done|].
    eapply open_ok; [done..|]. intros y Hy. pose proof (so_db _ _ _ _ _ Hok y Hy) as Hdb. unfold known in *. cbn. rewrite !due_app in *. tauto.
Qed.

Lemma reach_inv nd0 nd : node_start nd0 → node_reach nd0 nd → node_inv nd.
Proof. intros Hst Hr. induction Hr; [by apply start_inv|by eapply step_inv]. Qed.

(** The queues hold the transaction. *)
Definition queued w x : Prop := ∃ q, sync_contains w x = Ok (Some q).

Lemma queued_in F w Q v x : winv pn rn F w Q v → seq_ok x → x ∈ Q → queued w x.
Proof.
  intros Hw Hx Hin. destruct (winv_pre pn rn F w Q v x Hw Hx) as (P & R & -> & Hpre & _). unfold queued. rewrite (sync_contains_run pn rn x w P R Hpre).
  destruct (decide (x ∈ R)); [by eexists|]. rewrite decide_True by set_solver. by eexists.
Qed.

(** C6: Whatever the peers and the sync service do, whichever writes fail and
    whenever the node is restarted, every transaction below the mark of the
    serial batcher has its file finalized or pruned, or is in a queue of the sync
    store, or was reported as completed by the sync service, unless a
    reorganization of it is still to be handled or was lost by a restart; the
    same holds below the mark in the data base, from which a restarted node goes
    on, unless the write that moves that mark back after a reorganization failed.
    The transactions from the mark to the next one are being downloaded or have
    a result that waits for an earlier one; there are never more downloads than
    workers; and once the data base can be written the batcher takes over all
    results that are due. *)
Theorem auto_sync_loses_nothing nd0 nd : node_start nd0 → node_reach nd0 nd →
  let sb := nd_serial nd in
  (∀ x, 0 ≤ x < next_tx_seq_in_db sb → ¬ due (nd_reverts nd ++ nd_lost nd) x →
     complete (nd_store nd).1 x ∨ queued (nd_store nd) x ∨ x ∈ nd_claimed nd) ∧
  (∀ range x, get_tx_seq_range (nd_store nd) = Ok range → 0 ≤ x < default 0 range.1 → ¬ due (nd_reverts nd ++ nd_unmarked nd ++ nd_lost nd) x →
     complete (nd_store nd).1 x ∨ queued (nd_store nd) x ∨ x ∈ nd_claimed nd) ∧
  (∀ x, next_tx_seq_in_db sb ≤ x < sb_next_tx_seq sb → x ∈ tasks (sb_batcher sb) ∨ is_Some (pending_completed_txs sb !! x)) ∧
  Z.of_nat (size (tasks (sb_batcher sb))) ≤ Z.max 0 (capacity (sb_batcher sb)) ∧
  (∀ rng, kv_writable (lm_data_db (nd_store nd).1) → ∃ st,
     update_completed_txs_in_db rng (nd_store nd, sb) = (Ok tt, st) ∧ pending_completed_txs st.2 !! next_tx_seq_in_db st.2 = None).
Proof.
  intros Hst Hreach sb. destruct (reach_inv nd0 nd Hst Hreach) as (Hs & _ & _). pose proof Hs as (Q & v & Hw & Hok). cbn [fst snd] in Hw, Hok. subst sb.
  pose proof (so_range _ _ _ _ _ Hok) as Hrg. unfold U64_MAX in Hrg.
  assert (∀ x, seq_ok x → ¬ due (nd_reverts nd ++ nd_lost nd) x → known nd x ∨ x ∈ Q →
    complete (nd_store nd).1 x ∨ queued (nd_store nd) x ∨ x ∈ nd_claimed nd) as Hgoal.
  { intros x Hx Hd [[?|[?|?]]|?]; [by left|by right; right|done|]. right; left. by eapply queued_in. }
  split_and!.
  - intros x Hx Hd. apply Hgoal; [unfold seq_ok; lia|done|]. by apply (so_below _ _ _ _ _ Hok).
  - intros range x Hr Hx Hd. rewrite (proj1 (get_range_next pn rn _ _ _ _ _ Hw Hr)) in Hx. rewrite !due_app in Hd.
    apply Hgoal; [|rewrite due_app; tauto|destruct (so_db _ _ _ _ _ Hok x Hx); tauto].
    unfold seq_ok. destruct v as [y|]; cbn in Hx; [|lia]. pose proof (wi_typed _ _ _ _ _ _ Hw y eq_refl). lia.
  - apply Hok.
  - apply Hok.
  - intros rng Hwr. pose proof (serial_update_completed pn rn _ _ _ _ rng Hs) as [_ Hu]. destruct (update_completed_txs_in_db rng _) as [r st]. cbn in Hu. exists st.
    destruct (Hu Hwr) as (-> & _ & ?). done.
Qed.

End node.

(** ** A run over the data base in memory *)

Section example.
Local Abbreviation node := (Node (KV := gmap (nat * list Z) (list Z)) (MM := unit)).

Definition idle_outside : Outside unit := Outside_mk (λ _, Err "no service") 0 least_rng elements.

Definition example_sync_store : SyncStore := sync_store_new_with_name 0 "pending" "ready".

Definition example_serial : SerialBatcher :=
  SerialBatcher_mk sync_config_default (batcher_new (max_sequential_workers sync_config_default) (sequential_find_peer_timeout sync_config_default)) 0 U64_MAX ∅ 0.

Definition example_node : node := Node_mk (example_manager, example_sync_store) example_serial (random_new sync_config_default) [] [] [] [].

(** The node after a round of the serial batcher. *)
Definition after_round (announced : option Z) (nd : node) : node :=
  let '(_, st) := serial_start_round idle_outside announced None true (nd_store nd, nd_serial nd) in
  Node_mk st.1 st.2 (nd_random nd) (nd_claimed nd ++ answered idle_outside (sb_batcher (nd_serial nd)) (sb_batcher st.2)) (nd_reverts nd)
    (still_unmarked st.1 st.2 (nd_unmarked nd)) (nd_lost nd).

(** A file is announced, and a round hands the first one over. *)
Definition advanced_node : node := after_round None (after_round (Some 5) example_node).

Lemma idle_outside_ok : outside_ok idle_outside.
Proof. split; [apply least_rng_ok|done|]. intros r. right. by eexists. Qed.

Lemma after_round_step announced nd : (∀ x, announced = Some x → seq_ok x) → node_step (PeerId := unit) "pending" "ready" nd (after_round announced nd).
Proof.
  intros Ha. unfold after_round. destruct (serial_start_round _ _ _ _ _) as [r [w sb]] eqn:Hrun.
  eapply (step_round _ _ _ idle_outside announced None true); [apply idle_outside_ok|exact Ha|done|exact Hrun].
Qed.

Lemma auto_sync_loses_nothing_witness :
  next_tx_seq_in_db (nd_serial advanced_node) = 1 ∧ (complete (nd_store advanced_node).1 0 ∨ queued (nd_store advanced_node) 0).
Proof.
  assert (node_start (KV := gmap (nat * list Z) (list Z)) (MM := unit) "pending" "ready" example_node) as Hst.
  { apply node_start_intro; [done|by vm_compute..|done|]. done. }
  assert (node_reach (PeerId := unit) "pending" "ready" example_node advanced_node) as Hreach.
  { apply (reach_step _ _ _ (after_round (Some 5) example_node)); [apply (reach_step _ _ _ example_node); [apply reach_start|]|];
      apply after_round_step; [by intros x [= <-]|done]. }
  split; [vm_compute; reflexivity|].
  destruct (proj1 (auto_sync_loses_nothing (PeerId := unit) "pending" "ready" _ _ Hst Hreach) 0) as [?|[?|Hin]]; [vm_compute; done| |by left|by right|].
  - intros Hd. inversion Hd.
  - assert (nd_claimed advanced_node = []) as Hnil by (vm_compute; reflexivity). rewrite Hnil in Hin. by apply elem_of_nil in Hin.
Defined.

End example.
