(* ===== verification/SyncDispatch.v ===== *)
(** The main loop of the sync service: [on_sync_msg], [on_sync_request] and
    [main] of [node/sync/src/service.rs], and how it answers the automatic
    synchronization. *)

From stdpp Require Import pretty sorting list_numbers.
From stdpp Require Import sorting list_numbers.
From S2P Require Import Prelude HashElement Ssz SszFacts MerkleSpec MerkleProof NodeStore AppendMerkle NodeManager NodeManagerFacts Bytes FlowDb Shard MerkleLight SharedTypes.
From S2P Require Import Seal ChunkData SealInfo EntryBatch BatchTheorems Serde FlowStore FlowStoreFacts FlowTheorems TxStore TxTheorems LogManager LogTheorems.
From S2P Require Import SyncStore SyncStoreFacts SyncTheorems FileLocationCache FileCacheTheorems SyncController DownloadTheorems SyncService AutoSync AutoSyncFacts.
Local Open Scope Z_scope.

Section dispatch.
Context `{Keccak, KeyValueDB KV, Bitmap64 B, !KeyValueIter KV}.
Context {NMt NM : Type} `{!NodeStore NMt OptionalHash, !NodeStore NM OptionalHash}.
Context {PeerId Multiaddr PQ FQ : Type} `{Countable PeerId}.
Context `{!PriorityQueue PeerId PQ, !PriorityQueue TxID FQ, !MultiaddrOps PeerId Multiaddr}.
Context (clock : ChunkArray → Z → Z).
Local Abbreviation manager := (LogManager KV (MerkleManager NMt NM)).
Local Abbreviation Controller := (SerialSyncController (PeerId := PeerId) (Multiaddr := Multiaddr) (PQ := PQ) (FQ := FQ) (St := manager)).
Local Abbreviation Service := (SyncService (KV := KV) (NMt := NMt) (NM := NM) (PeerId := PeerId) (Multiaddr := Multiaddr) (PQ := PQ) (FQ := FQ)).

Inductive SyncMessage :=
  | DialFailed (peer_id : PeerId) (err : DialError)
  | PeerConnected (peer_id : PeerId)
  | PeerDisconnected (peer_id : PeerId)
  | RequestChunks (peer_id : PeerId) (request_id : Z) (request : GetChunksRequest)
  | ChunksResponse (peer_id : PeerId) (request_id : TxID) (response : ChunkArrayWithProof)
  | RpcError (peer_id : PeerId) (request_id : TxID)
  | AnnounceFileGossip (tx_id : TxID) (peer_id : PeerId) (addr : Multiaddr)
  | AnnounceShardConfig (shard_config : ShardConfig) (peer_id : PeerId)
  | AnnounceChunksGossip (tx_id : TxID) (index_start index_end : Z) (peer_id : PeerId) (at_ : Multiaddr)
  | NewFile (from : PeerId) (tx_id : TxID) (shard_config : ShardConfig)
  | AnswerFile (peer_id : PeerId) (tx_id : TxID) (shard_config : ShardConfig).

Definition get_sync_info (now : Z) (c : Controller) : FileSyncInfo PeerId :=
  FileSyncInfo_mk (elapsed now (c_since c) / 1000) (peer_states (peers c)) (goal c) (next_chunk c) (state c).

Section call.
Context (env : Env PeerId Multiaddr).

Definition on_sync_msg (msg : SyncMessage) : M Service () :=
  match msg with
  | DialFailed peer_id err => service_on_dial_failed (B := B) clock env peer_id err
  | PeerConnected peer_id => service_on_peer_connected (B := B) clock env peer_id
  | PeerDisconnected peer_id => service_on_peer_disconnected (B := B) clock env peer_id
  | RequestChunks peer_id request_id request => on_get_chunks_request (B := B) peer_id request_id request
  | ChunksResponse peer_id request_id response => on_chunks_response (B := B) clock env peer_id request_id response
  | RpcError peer_id request_id => on_rpc_error (B := B) clock env peer_id request_id
  | AnnounceFileGossip tx_id peer_id addr => on_announce_file_gossip (B := B) clock env tx_id peer_id addr
  | AnnounceChunksGossip tx_id index_start index_end peer_id at_ => on_announce_chunks_gossip (B := B) clock env tx_id index_start index_end peer_id at_
  | AnnounceShardConfig _ _ => mret tt
  | NewFile from tx_id shard_config => on_new_file_gossip (B := B) clock env from tx_id shard_config
  | AnswerFile peer_id tx_id shard_config => on_answer_file (B := B) clock env peer_id tx_id shard_config
  end.

(** [auto]: what the tasks of the automatic synchronization show of themselves. *)
Definition on_sync_request (auto : bool * option SerialBatcherState * outcome RandomBatcherState) (req : SyncRequest) : M Service (SyncResponse PeerId) :=
  match req with
  | SyncStateRequest =>
      self ← get;
      let '(catched_up, serial, random) := auto in
      mret (SyncStateResponse (
        match auto_sync_manager self with
        | Some _ => SyncServiceState_mk (Z.of_nat (size (controllers self))) (Some catched_up) serial (match random with Ok r => Some r | _ => None end)
        | None => SyncServiceState_mk (Z.of_nat (size (controllers self))) None None None
        end))
  | SyncStatus tx_seq => self ← get; mret (SyncStatusResponse (state <$> controllers self !! tx_seq))
  | SyncFile tx_seq => result ← on_sync_file_request (B := B) clock env tx_seq None; mret (SyncFileResponse result)
  | SyncChunks tx_seq start_index end_index =>
      result ← on_sync_file_request (B := B) clock env tx_seq (Some (start_index, end_index));
      mret (SyncFileResponse result)
  | FileSyncInfoRequest tx_seq =>
      self ← get;
      mret (FileSyncInfoResponse (get_sync_info (env_now env) <$>
        match tx_seq with
        | Some seq => match controllers self !! seq with Some c => {[seq := c]} | None => ∅ end
        | None => controllers self
        end))
  | TerminateFileSync tx_seq is_reverted =>
      count ← on_terminate_file_sync tx_seq is_reverted;
      mret (TerminateFileSyncResponse count)
  | FindFileRequest tx_seq => result ← on_find_file_request tx_seq; mret (FindFileResponse result)
  end.

(** What the loop of [main] receives. *)
Inductive MainEvent :=
  | Notification (msg : SyncMessage)
  | Request (auto : bool * option SerialBatcherState * outcome RandomBatcherState) (req : SyncRequest)
  | HeartbeatTick.

Definition main_round (e : MainEvent) : M Service (option (SyncResponse PeerId)) :=
  match e with
  | Notification msg => _ ← on_sync_msg msg; mret None
  | Request auto req => response ← on_sync_request auto req; mret (Some response)
  | HeartbeatTick => _ ← on_heartbeat (B := B) clock env; mret None
  end.

End call.

End dispatch.

(** * The sync service and the automatic synchronization together. *)

Section dispatch.
Context `{Keccak, KeyValueDBLaws KV, Bitmap64 B, !KeyValueIter KV}.
Context {NMt NM : Type} `{!NodeStore NMt OptionalHash, !NodeStore NM OptionalHash}.
Context {PeerId Multiaddr PQ FQ : Type} `{Countable PeerId}.
Context `{!PriorityQueue PeerId PQ, !PriorityQueue TxID FQ, !MultiaddrOps PeerId Multiaddr}.
Context (clock : ChunkArray → Z → Z) (pn rn : string).
Local Abbreviation manager := (LogManager KV (MerkleManager NMt NM)).
Local Abbreviation Controller := (SerialSyncController (PeerId := PeerId) (Multiaddr := Multiaddr) (PQ := PQ) (FQ := FQ) (St := manager)).
Local Abbreviation Service := (SyncService (KV := KV) (NMt := NMt) (NM := NM) (PeerId := PeerId) (Multiaddr := Multiaddr) (PQ := PQ) (FQ := FQ)).

#[local] Instance dispatch_store : ChunkStore manager := log_manager_store (B := B) clock.

(** The answer of the service to the question for the state of a download. *)
Definition answers_status env (self : Service) (out : Outside PeerId) : Prop :=
  ∀ auto x, os_request out (SyncStatus x) = (on_sync_request (B := B) clock env auto (SyncStatus x) self).1.

(** All workers are busy. *)
Lemma schedule_busy (rng : Rng) (s : manager) ss b o : sync_random rng (s, ss) = Ok o →
  (∀ y, o = Some y → ∃ tx, get_tx_by_seq_number (txs s) y = Ok tx) → capacity b ≤ Z.of_nat (size (tasks b)) →
  random_schedule rng ((s, ss), b) = (Ok false, ((s, ss), b)).
Proof.
  intros Hr Htx Hc. unfold random_schedule, mbind, M_bind, get, lift. cbn [fst snd]. rewrite Hr. destruct o as [y|]; [|done].
  destruct (Htx y eq_refl) as [tx Hy]. unfold on_random, zoom, batcher_add, mbind, M_bind, get, lift. cbn [fst snd]. rewrite Hy.
  case_bool_decide; [done|]. by rewrite (proj2 (Z.leb_le _ _) Hc).
Qed.

(** Polling the only task. *)
Lemma poll_completed (out : Outside PeerId) (s : manager) rb x : outside_ok out → tasks rb = {[x]} → get_tx_status (txs s) x = Ok None →
  os_request out (SyncStatus x) = Ok (SyncStatusResponse (Some Completed)) →
  ∃ rb', batcher_poll out s rb = (Ok (Some (x, SyncCompleted)), rb') ∧ tasks rb' = ∅.
Proof.
  intros Hout Htasks Hnone Hreq. pose proof (oo_order _ Hout {[x]}) as Hord. rewrite elements_singleton in Hord. apply Permutation_singleton_r in Hord.
  unfold batcher_poll, poll_loop, poll_tx, sync_request, mbind, M_bind, get, modify, lift. rewrite Htasks, Hord, Hnone. cbn. rewrite Hreq. cbn.
  eexists. split; [reflexivity|]. cbn. rewrite Htasks. set_solver.
Qed.

(** Removing on a data base that can be written. *)
Lemma remove_done (s : manager) ss x P R : sync_repr pn rn (s, ss) P R → seq_ok x → kv_writable (lm_data_db s) →
  ∃ res w', sync_remove x (s, ss) = (Ok res, w') ∧ sync_contains w' x = Ok None ∧ get_tx_status (txs w'.1) x = get_tx_status (txs s) x.
Proof.
  intros Hrepr Hx Hwr. assert (sync_pre pn rn x (s, ss) P R) as Hpre by (destruct Hrepr as (? & ? & ?); done).
  pose proof (remove_simulates pn rn x (s, ss) P R Hrepr Hx) as Hsim. pose proof (sync_remove_run pn rn x (s, ss) P R Hpre) as Hrun.
  unfold simulates in Hsim. assert ((x ∉ (remove_spec x P R).1.2) ∧ (x ∉ (remove_spec x P R).2)) as Hnin.
  { assert (P ## R) by (destruct Hpre as (_ & (? & ? & ? & ? & ? & ? & ?) & _); done). unfold remove_spec. repeat case_decide; cbn; set_solver. }
  destruct (remove_spec x P R) as [[res P'] R'], (sync_remove x (s, ss)) as [r w']. cbn in Hnin.
  destruct Hsim as [Hsim _]. destruct (Hsim Hwr) as (-> & (Hn' & Hq' & _) & _). exists res, w'. split; [done|]. split.
  - rewrite (sync_contains_run pn rn x w' P' R') by done. by rewrite !decide_False by apply Hnin.
  - destruct Hrun as [((_ & _ & kv & Hw' & _ & Hframe) & _) _]. apply status_same. rewrite Hw'. cbn. apply Hframe. intros q. split; intros [=].
Qed.

(** C40: A download of some chunks counts as a download of the file.  If the
    service has finished the download of a range of chunks of a transaction,
    and the automatic synchronization asks for the state of the file, it takes
    the file for complete and removes the transaction from the queues, though
    the store has not finalized it and nothing downloads it any more. *)
Theorem range_download_drops_file env (self : Service) out (s : manager) ss rb x (c : Controller) P R :
  outside_ok out → answers_status env self out →
  all_chunks (goal c) = false → controllers self !! x = Some (finish_download c).2 →
  sync_repr pn rn (s, ss) P R → seq_ok x → kv_writable (lm_data_db s) → get_tx_status (txs s) x = Ok None →
  tasks rb = {[x]} → random_schedule (os_rng out) ((s, ss), rb) = (Ok false, ((s, ss), rb)) →
  ∃ w' rb', random_sync_once out ((s, ss), rb) = (Ok true, (w', rb')) ∧
    sync_contains w' x = Ok None ∧ get_tx_status (txs w'.1) x = Ok None ∧ tasks rb' = ∅.
Proof.
  intros Hout Hans Hall Hc Hrepr Hx Hwr Hnone Htasks Hsched.
  assert (os_request out (SyncStatus x) = Ok (SyncStatusResponse (Some Completed))) as Hreq.
  { rewrite (Hans (false, None, Err "")%string x). cbn. unfold mbind, M_bind, get. cbn. rewrite Hc. cbn.
    unfold finish_download, mbind, M_bind, get. by rewrite Hall. }
  destruct (poll_completed out s rb x Hout Htasks Hnone Hreq) as (rb' & Hpoll & Hempty).
  destruct (remove_done s ss x P R Hrepr Hx Hwr) as (res & w' & Hrm & Hcont & Hstat).
  exists w', rb'. split; [|by rewrite Hstat]. unfold random_sync_once. unfold mbind at 1, M_bind at 1. rewrite Hsched.
  unfold on_random, on_sync, zoom, mbind, M_bind, get. cbn [fst snd]. rewrite Hpoll. cbn [fst snd]. rewrite (bool_decide_true (SyncCompleted = SyncCompleted)) by done. cbn [fst snd]. by rewrite Hrm.
Qed.

End dispatch.

(** ** An example *)

Section example.
#[local] Existing Instance z_multiaddr.
#[local] Existing Instance toy_keccak.
#[local] Existing Instance z_bitmap.
#[local] Existing Instance z_bitmap_laws.
Local Abbreviation MM := (MerkleManager (memory_manager OptionalHash) (memory_manager OptionalHash)).
Local Abbreviation manager := (LogManager memory MM).

(** The transaction waits in the queue and is the task of the only worker. *)
Definition queued_state : manager * SyncStore := (sync_insert least_rng 0 Pending (toy_manager1, sync_store_new 0)).2.
Definition busy_random : Batcher := Batcher_mk 1 0 {[0]} [].

Definition range_controller : SerialSyncController (PeerId := Z) (Multiaddr := Z) (PQ := gmap Z Z) (FQ := gmap TxID Z) (St := manager) :=
  controller_new 0 sync_config_default (TxID_mk 0 toy_hash) 1024 (FileSyncGoal_mk 2 0 1 false) [] queued_state.1 example_locations.

Definition range_service : SyncService (KV := memory) (NMt := memory_manager OptionalHash) (NM := memory_manager OptionalHash)
    (PeerId := Z) (Multiaddr := Z) (PQ := gmap Z Z) (FQ := gmap TxID Z) :=
  SyncService_mk sync_config_default [] queued_state.1 example_locations
    {[0 := (finish_download (ChunkStore0 := log_manager_store (B := bits64) (λ _ _, 0)) range_controller).2]} None.

Definition range_outside : Outside Z :=
  Outside_mk (λ r, match r with
                   | SyncStatus x => (on_sync_request (B := bits64) (λ _ _, 0) example_env (false, None, Err "off") (SyncStatus x) range_service).1
                   | _ => Err "no answer"
                   end) 0 least_rng elements.

Lemma range_outside_ok : outside_ok range_outside.
Proof. split; [apply least_rng_ok|done|]. intros [| | | | | |]; (by right; eexists) || by left; eexists. Qed.

Lemma toy_data_empty : lm_data_db toy_manager1 = ∅.
Proof. apply map_to_list_empty_iff. vm_compute. reflexivity. Qed.

Lemma queued_repr : sync_repr (KV := memory) (MM := MM) "pending" "ready" queued_state {[0]} ∅ ∧ kv_writable (lm_data_db queued_state.1).
Proof.
  assert (sync_repr (KV := memory) (MM := MM) "pending" "ready" (toy_manager1, sync_store_new 0) ∅ ∅) as Hs0.
  { apply sync_open; [done|by vm_compute|by vm_compute|done|]. intros k. by rewrite toy_data_empty. }
  pose proof (insert_simulates (KV := memory) (MM := MM) "pending" "ready" least_rng 0 Pending _ _ _ Hs0 least_rng_ok ltac:(by split)) as Hsim.
  unfold simulates in Hsim. replace (insert_spec 0 Pending ∅ ∅) with (NewAdded, ({[0]} : gset Z), (∅ : gset Z)) in Hsim by (vm_compute; reflexivity).
  unfold queued_state. destruct (sync_insert least_rng 0 Pending (toy_manager1, sync_store_new 0)) as [r s']. destruct (proj1 Hsim I) as (_ & ? & ?). done.
Qed.

Lemma queued_busy : random_schedule least_rng ((queued_state.1, queued_state.2), busy_random) = (Ok false, ((queued_state.1, queued_state.2), busy_random)).
Proof.
  apply (schedule_busy _ _ _ _ (Some 0)); [vm_compute; reflexivity| |done].
  intros y [= <-]. eexists. vm_compute. reflexivity.
Qed.

Lemma queued_unfinalized : get_tx_status (txs queued_state.1) 0 = Ok None.
Proof. vm_compute. reflexivity. Qed.

Lemma range_download_drops_file_witness :
  ∃ w' rb', random_sync_once range_outside (queued_state, busy_random) = (Ok true, (w', rb')) ∧ sync_contains w' 0 = Ok None ∧ get_tx_status (txs w'.1) 0 = Ok None.
Proof.
  destruct queued_repr as [Hrepr Hwr].
  destruct (range_download_drops_file (B := bits64) (λ _ _, 0) "pending" "ready" example_env range_service range_outside queued_state.1 queued_state.2
    busy_random 0 range_controller {[0]} ∅ range_outside_ok) as (w' & rb' & Hrun & Hc & Hst & _).
  - intros auto x. unfold range_outside, on_sync_request. cbn [os_request]. reflexivity.
  - reflexivity.
  - unfold range_service. cbn [controllers]. apply lookup_singleton_eq.
  - rewrite <-surjective_pairing. exact Hrepr.
  - unfold seq_ok. lia.
  - exact Hwr.
  - exact queued_unfinalized.
  - reflexivity.
  - exact queued_busy.
  - rewrite <-surjective_pairing in Hrun. exists w', rb'. split; [exact Hrun|]. split; [exact Hc|exact Hst].
Defined.

End example.
